(* ===== verification/_CoqProject ===== *)
-Q . S2P
Prelude.v
Json.v
Signing.v
Sha256.v
Store.v
Dag.v
Providers.v
Protocol.v
Merkle.v
Float64.v
Curves.v
Epoch.v
Challenge.v
Tracker.v
Pool.v
Rights.v
Consent.v
Delegation.v
Rotation.v
Recovery.v
Layers.v
ForkState.v
Disclosure.v
Heap.v
Queue.v
Planner.v
Paths.v
Website.v
Update.v
Applier.v
Positions.v
Swaps.v
Presigned.v
Executor.v
BigFloat.v
Amm.v
Pools.v
Discovery.v
TokenGraph.v
Routes.v
Gossip.v
Bits.v
Pong.v
PongNet.v
Substrate.v
Contracts.v
Collapse.v
Keys.v
Sessions.v
River.v
Flow.v
Dispatch.v
MultiChain.v
Patterns.v
Forks.v
Ordering.v
Pathways.v
Engrams.v
Working.v
Brain.v
Prices.v
Detector.v
ForkId.v
DevP2P.v
FlowEngine.v
Strategies.v
