(* ===== verification/Prelude.v ===== *)
(** * A verification library for the ZEAM node

    The ZEAM node (Go, under [src/]) publishes content among peers, rewards the
    peers that store it from a pool of revenue, manages the identity of its
    owner, updates itself, gossips prices, runs an arbitrage engine over
    decentralised exchanges, and hosts a game and a substrate of chains driven by
    the hashes of the network.  This library models these parts as executable functions and
    proves what makes them correct.  It follows the code: one definition per Go
    function or method, with the source's name (prefixed with the type or the
    package where two share a name, e.g. [Consent_Use], [V2_GetAmountOut]), state
    passed explicitly, every branch and error kept.

    ** How the parts interact

    - [content]: a store of chunks addressed by SHA-256; a builder that splits
      content into a two-level DAG of chunks and reassembles it; a registry of the
      peers that announced a root; a protocol that serves chunks and fetches
      missing ones from the announced providers; websites published from archives.
    - [rewards]: a tracker copies announced bytes from the registry into the epoch
      manager and issues storage challenges, whose results the epoch manager counts;
      at the end of an epoch the manager scores contributors, caps shares, publishes
      a Merkle tree of the rewards, and the main program submits the root to the
      [RevenuePool] contract, from which contributors claim with a Merkle proof.
    - [identity]: signed documents (rights, consents, delegations, layer
      configurations, disclosure proofs, recoveries, key rotations, fork
      transitions) and the managers that store them and decide access.
    - [update]: a checker reads the hash of a manifest from a registry, fetches the
      manifest and the binary, and an applier swaps the running binary.
    - [arb]: pools are discovered from gossiped calldata and kept in a registry
      ([arb/discovery]), a graph of tokens is built from it ([arb/graph]) and
      searched for profitable routes ([arb/routing]), whose amounts follow the
      formulas of the exchanges ([arb/dex]); opportunities wait in a priority
      queue, a planner turns intents into them, and an executor locks positions,
      takes or builds transactions and sends them.
    - [node]: nodes sign and broadcast the reserves of pools; what several sources agree
      on goes to the pool registry of [arb].  Transports over several chains feed events to
      subscribers and hashes to a pool of entropy; a dispatcher sends a payload and
      collects the hashes that follow.
    - [pong], [quantum]: the game and the substrate turn hashes that the network
      returns into ticks, coordinates and blocks; the pressure of the quantum wave changes
      the game.

    ** Files

    - [Prelude] (this file): errors and panics ([result], [outcome]), bytes, 64-bit
      integers with their wrap-around, big-endian encodings, hexadecimal, tactics,
      list and map lemmas.
    - [Json]: Go's compact JSON encoder, injective on ASCII documents.
    - [Signing]: the interface [Crypto] to go-ethereum's cryptography with its laws
      [CryptoLaws]; the interface [SignedDoc] of signed documents, with [Sign] and
      [Verify] modelled and verified once; [Toy], a concrete instance.
    - [Sha256], [Heap], [Paths], [Float64], [BigFloat]: the parts of the standard
      library that the code leans on: SHA-256 with test vectors, [container/heap],
      the lexical functions of [path] and [filepath], binary64 arithmetic and
      [math/big.Float].
    - [Store], [Dag], [Providers], [Protocol], [Website]: [content/store.go],
      [dag.go], [providers.go], [protocol.go], [website.go].
    - [Curves]: [rewards/curves.go] and [types.go].
    - [Merkle]: the trees of [rewards/epoch.go] and the contract's verifier.
    - [Epoch], [Challenge], [Tracker]: the rest of [rewards/epoch.go],
      [challenge.go], [tracker.go].
    - [Pool]: [rewards/pool.go], the contract [contracts/RevenuePool.sol] (Module
      [RevenuePool]) and the submission of a snapshot in [cmd/main.go].
    - [Rights], [Consent], [Delegation], [Rotation], [Recovery], [Layers],
      [ForkState], [Disclosure]: the files of [identity/] with these names.
    - [Update], [Applier]: [update/types.go], [checker.go], [registry.go] and
      [applier.go], over a world of replies and a file system whose calls can fail.
    - [Queue], [Planner], [Positions], [Swaps], [Presigned], [Executor]:
      [arb/opportunity_queue.go], [execution_planner.go], [positions.go],
      [mempool_parser.go] with the calldata builders, [presigned.go], [executor.go].
    - [Amm]: [arb/dex]: the Uniswap V2 and V3 routers behind the interface
      [DEXRouter] with its laws [RouterLaws], which both discharge.
    - [Pools], [Discovery]: [arb/discovery]: the registry of pools, its bootstrap
      tables, and what it learns from factory calls, event logs and router calldata.
    - [TokenGraph], [Routes]: [arb/graph]; and [routing_types.go],
      [bellman_ford.go] and [liquidity_filter.go] of [arb/routing].
    - [Gossip]: [node/price_gossip.go] and its handler in [node/multichain.go].
    - [Keys], [Sessions]: [identity/identity.go] and [passkey.go]; and
      [hardware_gate.go], [stateless.go] and [stateless_bridge.go].  The interfaces
      [KeyCrypto] and [P256] have laws and concrete instances.
    - [Forks]: the constructors of [identity/fork_state.go].
    - [Bits]: byte-wise exclusive or.
    - [Pong], [PongNet]: [pong/pong.go] and [adversary.go]; [flow_bridge.go] and
      [render.go].
    - [Substrate], [Contracts], [Collapse]: [quantum/substrate.go], [primitives.go] and
      [keccak_rho.go]; [state.go], [gates.go] and [contracts.go]; [collapse.go].
    - [River], [Flow], [Dispatch], [Patterns]: [node/river.go] and [river_impl.go];
      [flow_harvester.go]; [dispatcher.go], with its goroutines as a transition system;
      [flow_pattern.go].
    - [MultiChain]: [node/multichain.go] with [chains.go], [hybrid_transport.go] and
      [opnode_gossip.go].
    - [Ordering], [Pathways], [Engrams], [Working], [Brain]: orders on floats and strings and
      the sorts over them; [memory/pathways.go], [engrams.go], [context.go] and
      [positronic.go].
    - [Prices], [Detector]: [arb/prices.go]; [shotgun.go] and [opportunities.go].
    - [ForkId], [DevP2P]: [node/devp2p.go].  The interfaces [EthLib] and [Wire] have laws and
      a concrete instance.
    - [FlowEngine], [Strategies]: [arb/flow_state.go] and [flow_engine.go]; [strategy*.go] and
      [orchestrator.go].  Strategies share the interface [Strategy] with its law
      [StrategyLaws], which the four of them have.

    ** What the theorems show

    - Content: what is added is read back ([dag_add_get]); what a provider stores is
      fetched exactly when every listed provider serves it or does not answer and the
      local store holds nothing wrong under its identifiers ([fetch_honest]);
      flushing and loading restores the store; the registry never lists a peer twice
      and pruning is invisible; websites whose files are readable and not empty are
      served as published, up to 50 MB a file ([website_roundtrip]), except at their
      root ([site_root_not_served]).
      Responses are not hashed, so a dishonest provider substitutes content or
      crashes the node ([fetch_poisoned], [fetch_size_panic]).
    - Rewards: every published reward can be claimed, once, while the payout addresses
      of the contributors differ and the pool has the revenue, and nothing else can
      ([merkle_proof_verifies], [merkle_claim_sound], [reward_paid_once]); the root
      does not depend on map iteration order; the epoch ledger balances over any
      sequence of operations; finalization does not panic on finite scores; caps
      never create wei.  The cap is not always enforced or burns revenue
      ([caps_exceeded], [caps_burn_excess]); an epoch without rewards separates the
      epoch counters ([empty_epoch_diverges]); departed peers keep earning.
      Challenges: honest peers pass, nobody passes without the hash of the chunk.
    - Identity: revocation cascades in every reachable state ([revoke_cascades]);
      delegation chains are finite and attenuate as long as no identifier was reused
      ([delegation_chain_attenuates]), and may loop otherwise; limits of uses hold,
      revoked consents stay unused, key histories always verify, a social recovery needs
      its quorum of signatures ([social_recovery_needs_quorum]), membership paths
      verify.  Several defects are theorems as well: limited consents work once,
      closed recoveries reopen, foreign layers are accepted, recovery transitions
      never complete.
    - Update: what is written is what the network served for an announced manifest,
      which is newer and was fetched for the registry's hash, and has the digest that
      manifest states ([update_files_verified]); and the old binary survives every failing system
      call ([apply_keeps_old_binary]); the manifest is not authenticated and chooses
      its directory ([version_escapes]).
    - Execution of arbitrage: the queue refines a finite map with priorities
      ([queue_refines_map]) and drains in order; positions balance; pre-signed
      transactions never share a nonce; execution releases every lock and reports the
      expected profit exactly when every step was sent
      ([execution_restores_positions]).  Hung
      executions stall the queue, and two nonce counters collide.
    - Search for arbitrage: no pool behind the router interface pays for a round
      trip ([round_trip_no_profit]); the integer square root is exact and ends
      ([sqrt_newton_exact]); lookups in the registry are exact
      ([registry_lookup_exact]); the views of the graph agree and [HasPath] decides
      bounded reachability; triangular routes are real and agree with the simulation
      ([triangular_sound], [route_simulation_agrees]).  The Bellman-Ford search
      returns its hops backwards ([bellman_ford_backwards]); nested multicalls
      unfold exponentially within the limit on the length of an element
      ([multicall_bomb]).
    - Price gossip: messages that were signed are decoded and accepted; a pool has one
      verified update per source; a majority of sources bounds the price
      ([price_follows_majority]), which reaches the pool registry
      ([gossip_end_to_end]).  Crafted messages crash the receiver.
    - Identity keys: a node keeps its key over restarts and failing system calls, as long
      as the key file can be examined ([identity_persists]; otherwise
      [stat_fault_replaces_key]); a session has one live key ([single_live_key]) and its
      timeout locks every pointer to it; derived identities survive restarts
      and found forks that accept what they sign ([fork_lifecycle]).
      An imported key can be shadowed; secret and salt are not separated.
    - Game: states stay well-formed and the walls hold the ball as long as pressure adds
      no spin ([state_stays_in_field], [spin_escapes_walls]), rallies end
      ([rally_ends]), the ball passes no paddle unless there is pressure; payloads are
      unambiguous; hashes do not depend on the order of the answers.  The renderer
      always panics.
    - Quantum substrate: the word loops are byte-wise exclusive or; cross anchors
      restore a missing body ([Substrate.cross_anchor_recovers]); the Feistel network has no
      collisions within a width ([feistel_no_collision]); contracts return, and affine
      rounds are permutations exactly when even.  Interpretations of the same
      transaction interfere ([interpretations_interfere]).
    - Feed and entropy: channels are never used after they were closed and events
      arrive in order ([delivery_in_order]); the pool and the ring of the mempool flow
      implement their history ([flow_refines]), on one feed and over all chains
      ([unified_entropy]); the byte stream never fails ([next_bytes_stream]).
      Results of a dispatch are free of duplicates and of what was not announced
      ([dispatch_results]), and a dispatch ends ([Dispatch.dispatch_finishes]); but
      a processor can crash the node and late hashes reach the next dispatch.
    - Multi-chain transport: construction is complete or undone ([multichain_built]);
      broadcasts prefer Ethereum.  Restarting it, or sending a raw transaction to
      a chain of the second layer, panics.
    - Memory: pathways are a map that fades, whatever the index does ([pathways_refine]);
      engrams are recalled exactly ([resonate_exact]) and kept within their limit
      ([engrams_sound]); turns, focus and weights follow the conversation
      ([working_memory_refines]); the brain that joins them never panics
      ([brain_sound]).  Decay compounds ([decay_twice]) and the pressure is not saved
      ([brain_reload]).
    - Prices and opportunities: a feed lists the prices of each pair, oldest first and
      within its limit ([feed_sound]), and its best buy and sell are extreme
      ([best_buy_sell_extreme]); prices set by hand can be misfiled
      ([set_price_misfiled]).  The accumulator of the shotgun filter is the
      exclusive or of all hashes ([shotgun_refines]); the detector holds at most its
      limit, none below its threshold ([detector_sound]), and evicts the lowest
      ([evicts_lowest]).
      Opportunities within a chain trade with one pool ([same_chain_same_pool]).
    - Wire protocol: the announced fork identifier is the one of EIP-2124 for its forks
      ([fork_id_spec]); no connection is told of a transaction twice and requests are
      answered from the pool ([devp2p_sound]); the map of peers is exact while
      identifiers differ ([peers_exact]); requests are disjoint ([requests_disjoint]);
      a price reaches the handler of a peer ([price_reaches_peer]); a batch signs each
      payload once ([batch_signs_each_once]).  Stopping waits for silent peers
      ([stop_waits], [stop_ends]), and an unanswered announcement hides a transaction
      ([announced_then_dropped]).
    - Flow engine and strategies: the window holds the samples of its period
      ([samples_window]) and the pending swaps are a history ([pending_refines]); the
      orchestrator keeps its planner consistent and hands it exactly the intents that
      its strategies emit, each of which is filed or refused for a stated reason
      ([orchestrator_sound]).  The parser names no pools and nothing sets the reserves of
      a forecast, so only one of the four strategies can trade
      ([engine_blind], [only_cross_chain_trades], [forecast_never_priced]).

    ** Conventions, fuel and bounds

    - A fallible function returns [result]; a function that can panic, or whose
      recursion follows data that may be cyclic, returns [outcome], whose [NoFuel]
      is a call that has not returned yet.  Theorems about such functions state the
      fuel that suffices: two levels for content written by [Add], the depth of the
      chain for delegations, the number of listed edges for [HasPath], the length of
      the calldata for multicalls, a logarithm for the square root; divergence is
      [NoFuel] at every fuel.  Loops over lists carry the length of the list as fuel
      and never run out.
    - [int], [int64], [uint64] and [int16] are integers [Z] with [i64], [u64] or [i16] written where
      an operation can leave the range; [big.Int] is [Z]; byte slices and arrays are
      lists of bytes.
    - [time.Now] is an argument, one per reading that can differ.  The order of Go's
      map iteration is a parameter constrained to be a permutation, or that of the
      finite map where no theorem depends on it.  Random nonces and shuffles are
      parameters; so are [math.Log] and [math.Pow].
    - Keccak-256 and ECDSA are the class [Crypto]; no collision freedom is assumed: a
      theorem that needs two particular inputs not to collide says so.
    - Mutexes are not modelled, except where a lock is taken twice
      ([stats_deadlock], [final_result_blocks]): each operation is atomic, as the code makes it;
      the goroutines of a dispatch interleave at their locks and channel operations.  Objects
      shared by pointer are references into a store where a claim depends on it
      (the edges of the graph, the entries of the queue, the identities of a session,
      the cached results of a collapse).

    ** Not modelled

    Goroutines that only call modelled operations on a timer, libp2p and Ethereum
    client set-up, JSON decoding (a parameter where it matters), logging.
    Of [arb], the price feed over RPC, the detectors of multi-hop opportunities, the
    flashblock reader and the neural and quantum route finders are outside
    the library; so are the
    transports of [node] over libp2p and the discovery of peers, the walks, searches and tensors of [quantum], and the
    packages [attention], [embed], [grammar], [ngac], [synthesis], the
    command line and the desktop application. *)

From Stdlib Require Export ZArith Lia ZifyNat List Permutation.
From Stdlib Require Import String Sorted.
From stdpp Require Export gmap list strings.

(** ** Scopes and basic conventions *)

Declare Scope go_scope.
Delimit Scope go_scope with go.
#[global] Open Scope Z_scope.
#[global] Open Scope go_scope.

(** ** Go errors

    A fallible Go function returns [(value, error)].  The model returns
    [result]: the message of an [Err] is the constant part of the string the
    source passes to [fmt.Errorf]. *)

Inductive result (A : Type) : Type :=
| Ok (a : A)
| Err (msg : string).
Arguments Ok {A} a.
Arguments Err {A} msg.

Definition is_ok {A} (r : result A) : bool :=
  match r with Ok _ => true | Err _ => false end.

Definition result_bind {A B} (r : result A) (f : A -> result B) : result B :=
  match r with Ok a => f a | Err e => Err e end.

Notation "'let?' x := r 'in' k" := (result_bind r (fun x => k))
  (at level 10, x pattern, r at level 100, k at level 200)
  : go_scope.

(** What a call does when it does not simply return: a Go runtime panic, or
    (in the model only) a recursion that the given fuel does not finish. *)
Inductive outcome (A : Type) : Type :=
| Done (a : A)
| Panic (msg : string)
| NoFuel.
Arguments Done {A} a.
Arguments Panic {A} msg.
Arguments NoFuel {A}.

Definition outcome_bind {A B} (r : outcome A) (f : A -> outcome B) : outcome B :=
  match r with Done a => f a | Panic m => Panic m | NoFuel => NoFuel end.

Notation "'let!' x := r 'in' k" := (outcome_bind r (fun x => k))
  (at level 10, x pattern, r at level 100, k at level 200)
  : go_scope.

Lemma outcome_bind_Done {A B} (r : outcome A) (f : A -> outcome B) b :
  outcome_bind r f = Done b -> exists a, r = Done a /\ f a = Done b.
Proof. destruct r; simpl; [by eexists|done..]. Qed.

Definition of_option {A} (e : string) (o : option A) : result A :=
  match o with Some a => Ok a | None => Err e end.

(** ** Bytes *)

Abbreviation byte := Corelib.Init.Byte.byte.
Abbreviation bytes := (list byte).

#[global] Instance byte_eq_dec : EqDecision byte := Byte.byte_eq_dec.
#[global] Instance byte_countable : Countable byte :=
  inj_countable Byte.to_N Byte.of_N Byte.of_to_N.

Definition byteZ (b : byte) : Z := Z.of_N (Byte.to_N b).

Definition Zbyte (z : Z) : byte :=
  match Byte.of_N (Z.to_N (z mod 256)) with Some b => b | None => Byte.x00 end.

(** The bytes of a Go string literal. *)
Definition bs (s : string) : bytes := String.list_byte_of_string s.

Definition bytes_eqb (a b : bytes) : bool := bool_decide (a = b).

(** ** Machine integers *)

Definition i64 (z : Z) : Z := (z + 2 ^ 63) mod 2 ^ 64 - 2 ^ 63.
Definition u64 (z : Z) : Z := z mod 2 ^ 64.

Definition in_i64 (z : Z) : Prop := - 2 ^ 63 <= z < 2 ^ 63.
Definition in_u64 (z : Z) : Prop := 0 <= z < 2 ^ 64.

(** ** Big-endian integers

    [binary.BigEndian.PutUint64] and friends, [big.Int.Bytes],
    [big.Int.SetBytes] and go-ethereum's [common.LeftPadBytes]. *)

Fixpoint be_bytes (n : nat) (z : Z) : bytes :=
  match n with
  | O => []
  | S k => be_bytes k (z / 256) ++ [Zbyte z]
  end.

Definition be_int (l : bytes) : Z := fold_left (fun acc b => acc * 256 + byteZ b) l 0.

Definition bytelen (z : Z) : nat :=
  if z =? 0 then O else Z.to_nat (Z.log2 z / 8 + 1).

Definition bigint_bytes (z : Z) : bytes := be_bytes (bytelen (Z.abs z)) (Z.abs z).

Definition left_pad (n : nat) (l : bytes) : bytes :=
  replicate (n - length l) Byte.x00 ++ l.

Definition zero32 : bytes := replicate 32 Byte.x00.
Definition zero20 : bytes := replicate 20 Byte.x00.

(** Go's [copy(dst[:n], src)] into a zeroed array of [n] bytes. *)
Definition copy_to (n : nat) (src : bytes) : bytes :=
  take n src ++ replicate (n - length src) Byte.x00.

(** ** Hexadecimal strings ([encoding/hex]) *)

Definition hex_digit (z : Z) : byte := Zbyte (if z <? 10 then 48 + z else 87 + z).

Definition hex_val (b : byte) : option Z :=
  let z := byteZ b in
  if (48 <=? z) && (z <=? 57) then Some (z - 48)
  else if (97 <=? z) && (z <=? 102) then Some (z - 87)
  else if (65 <=? z) && (z <=? 70) then Some (z - 55)
  else None.

(** [hex.EncodeToString]: lower-case digits, two per byte. *)
Definition hex_encode (l : bytes) : bytes :=
  flat_map (fun b => [hex_digit (byteZ b / 16); hex_digit (byteZ b mod 16)]) l.

(** [hex.DecodeString]: fails on a bad digit or an odd length. *)
Fixpoint hex_decode (l : bytes) : option bytes :=
  match l with
  | [] => Some []
  | [_] => None
  | h :: lo :: t =>
      match hex_val h, hex_val lo, hex_decode t with
      | Some a, Some b, Some r => Some (Zbyte (a * 16 + b) :: r)
      | _, _, _ => None
      end
  end.

(** ** The development's automation *)

Create HintDb go.

Lemma bytes_eqb_true a b : bytes_eqb a b = true <-> a = b.
Proof. apply bool_decide_eq_true. Qed.

Lemma bytes_eqb_false a b : bytes_eqb a b = false <-> a <> b.
Proof. apply bool_decide_eq_false. Qed.

Lemma bytes_eqb_refl a : bytes_eqb a a = true.
Proof. by apply bytes_eqb_true. Qed.

#[export] Hint Rewrite bytes_eqb_refl : go.

(** Split boolean conditions of the source into propositions. *)
Ltac bool_to_prop :=
  repeat match goal with
  | H : _ && _ = true |- _ => apply andb_true_iff in H; destruct H
  | H : _ || _ = false |- _ => apply orb_false_iff in H; destruct H
  | H : negb _ = true |- _ => apply negb_true_iff in H
  | H : negb _ = false |- _ => apply negb_false_iff in H
  | H : bytes_eqb _ _ = true |- _ => apply bytes_eqb_true in H
  | H : bytes_eqb _ _ = false |- _ => apply bytes_eqb_false in H
  | H : bool_decide _ = true |- _ => apply bool_decide_eq_true in H
  | H : bool_decide _ = false |- _ => apply bool_decide_eq_false in H
  | H : (_ <=? _) = true |- _ => apply Z.leb_le in H
  | H : (_ <=? _) = false |- _ => apply Z.leb_gt in H
  | H : (_ <? _) = true |- _ => apply Z.ltb_lt in H
  | H : (_ <? _) = false |- _ => apply Z.ltb_ge in H
  | H : (_ =? _) = true |- _ => apply Z.eqb_eq in H
  | H : (_ =? _) = false |- _ => apply Z.eqb_neq in H
  end.

(** Linear arithmetic with division and remainder by constants. *)
Ltac dlia := zify; Z.to_euclidean_division_equations; lia.

(** Walk through the guards of a handler: case on every test met in the
    hypotheses and in the goal, discarding the impossible branches. *)
Ltac guards :=
  repeat (case_match; simplify_eq/=).

(** A property of all 256 bytes, decided by computation. *)
Definition all_bytes : list byte := map (fun n => Zbyte (Z.of_nat n)) (seq 0 256).

Lemma Byte_of_N_Some n : (n < 256)%N -> exists b, Byte.of_N n = Some b /\ Byte.to_N b = n.
Proof.
  intros Hn. destruct (Byte.of_N n) as [b|] eqn:E.
  - exists b. split; [done|]. by apply Byte.to_of_N.
  - apply Byte.of_N_None_iff in E. lia.
Qed.

Lemma byteZ_range b : 0 <= byteZ b < 256.
Proof. unfold byteZ. pose proof (Byte.to_N_bounded b). lia. Qed.

Lemma byteZ_Zbyte z : byteZ (Zbyte z) = z mod 256.
Proof.
  unfold byteZ, Zbyte. pose proof (Z.mod_pos_bound z 256 ltac:(lia)).
  destruct (Byte_of_N_Some (Z.to_N (z mod 256))) as (b & -> & ->); lia.
Qed.

Lemma byteZ_inj a b : byteZ a = byteZ b -> a = b.
Proof.
  unfold byteZ. intros H. apply N2Z.inj in H.
  pose proof (Byte.of_to_N a) as Ha. rewrite H, Byte.of_to_N in Ha. congruence.
Qed.

Lemma Zbyte_byteZ b : Zbyte (byteZ b) = b.
Proof.
  apply byteZ_inj. rewrite byteZ_Zbyte. apply Z.mod_small, byteZ_range.
Qed.

Lemma Zbyte_mod a b : a mod 256 = b mod 256 -> Zbyte a = Zbyte b.
Proof. unfold Zbyte. by intros ->. Qed.

Lemma all_bytes_complete b : In b all_bytes.
Proof.
  unfold all_bytes. apply in_map_iff. exists (Z.to_nat (byteZ b)).
  pose proof (byteZ_range b). split; [|apply in_seq; lia].
  rewrite Z2Nat.id by lia. apply Zbyte_byteZ.
Qed.

Lemma byte_forall (P : byte -> bool) :
  forallb P all_bytes = true -> forall b, P b = true.
Proof. intros H b. rewrite forallb_forall in H. apply H, all_bytes_complete. Qed.

(** ** Machine integers *)

Lemma i64_id z : in_i64 z -> i64 z = z.
Proof. unfold in_i64, i64. intros. rewrite Z.mod_small; lia. Qed.

Lemma i64_range z : in_i64 (i64 z).
Proof.
  unfold in_i64, i64. pose proof (Z.mod_pos_bound (z + 2 ^ 63) (2 ^ 64) ltac:(lia)). lia.
Qed.

Lemma u64_id z : in_u64 z -> u64 z = z.
Proof. unfold in_u64, u64. intros. by apply Z.mod_small. Qed.

Lemma u64_range z : in_u64 (u64 z).
Proof. unfold in_u64, u64. apply Z.mod_pos_bound. lia. Qed.

(** ** Big-endian round trips *)

Lemma length_be_bytes n z : length (be_bytes n z) = n.
Proof. revert z. induction n; intros; simpl; [done|]. rewrite length_app, IHn. simpl. lia. Qed.

Lemma be_int_snoc l b : be_int (l ++ [b]) = be_int l * 256 + byteZ b.
Proof. unfold be_int. by rewrite fold_left_app. Qed.

Lemma be_int_be_bytes n z : be_int (be_bytes n z) = z mod 256 ^ Z.of_nat n.
Proof.
  revert z. induction n; intros z; cbn [be_bytes].
  - by rewrite Z.mod_1_r.
  - rewrite be_int_snoc, IHn, byteZ_Zbyte.
    rewrite Nat2Z.inj_succ, Z.pow_succ_r by lia.
    rewrite Z.rem_mul_r by lia. lia.
Qed.

Lemma be_int_app_bound l : 0 <= be_int l < 256 ^ Z.of_nat (length l).
Proof.
  induction l using rev_ind; [done|].
  rewrite be_int_snoc, length_app, Nat2Z.inj_add, Z.pow_add_r by lia.
  simpl length. pose proof (byteZ_range x). change (256 ^ Z.of_nat 1) with 256. nia.
Qed.

Lemma be_bytes_be_int l : be_bytes (length l) (be_int l) = l.
Proof.
  induction l using rev_ind; [done|].
  rewrite length_app, Nat.add_comm, be_int_snoc. cbn [length Nat.add be_bytes].
  pose proof (byteZ_range x). f_equal.
  - replace ((be_int l * 256 + byteZ x) / 256) with (be_int l); [done|].
    rewrite Z.div_add_l by lia. rewrite (Z.div_small (byteZ x)); lia.
  - f_equal. rewrite <- (Zbyte_byteZ x) at 2. apply Zbyte_mod.
    by rewrite Z.add_comm, Z_mod_plus_full.
Qed.

Lemma be_int_zeros n l : be_int (replicate n Byte.x00 ++ l) = be_int l.
Proof.
  induction l using rev_ind.
  - rewrite app_nil_r. induction n; [done|].
    rewrite replicate_S_end, be_int_snoc, IHn. done.
  - by rewrite app_assoc, !be_int_snoc, IHl.
Qed.

Lemma length_left_pad n l : (length l <= n)%nat -> length (left_pad n l) = n.
Proof. intros. unfold left_pad. rewrite length_app, length_replicate. lia. Qed.

Lemma be_int_left_pad n l : be_int (left_pad n l) = be_int l.
Proof. apply be_int_zeros. Qed.

Lemma bytelen_spec z : 0 <= z -> z < 256 ^ Z.of_nat (bytelen z).
Proof.
  intros Hz. unfold bytelen. destruct (Z.eqb_spec z 0) as [->|Hn]; [done|].
  pose proof (Z.log2_nonneg z). pose proof (Z.div_pos (Z.log2 z) 8 ltac:(lia) ltac:(lia)).
  rewrite Z2Nat.id by lia. change 256 with (2 ^ 8). rewrite <- Z.pow_mul_r by lia.
  apply Z.log2_lt_pow2; [lia|]. pose proof (Z.mul_succ_div_gt (Z.log2 z) 8 ltac:(lia)). lia.
Qed.

Lemma bytelen_le z n : 0 <= z < 256 ^ Z.of_nat n -> (bytelen z <= n)%nat.
Proof.
  intros [Hz Hlt]. unfold bytelen. destruct (Z.eqb_spec z 0) as [->|Hn]; [lia|].
  assert (Z.log2 z < 8 * Z.of_nat n).
  { apply Z.log2_lt_pow2; [lia|]. rewrite Z.pow_mul_r by lia. done. }
  pose proof (Z.log2_nonneg z).
  assert (Z.log2 z / 8 < Z.of_nat n) by (apply Z.div_lt_upper_bound; lia).
  pose proof (Z.div_pos (Z.log2 z) 8 ltac:(lia) ltac:(lia)). lia.
Qed.

(** [SetBytes(x.Bytes())] is [|x|]. *)
Lemma be_int_bigint_bytes z : be_int (bigint_bytes z) = Z.abs z.
Proof.
  unfold bigint_bytes. rewrite be_int_be_bytes. apply Z.mod_small.
  split; [lia|]. apply bytelen_spec. lia.
Qed.

Lemma length_bigint_bytes z n : 0 <= z < 256 ^ Z.of_nat n -> (length (bigint_bytes z) <= n)%nat.
Proof.
  intros. unfold bigint_bytes. rewrite length_be_bytes. apply bytelen_le. lia.
Qed.

(** Two amounts that fit in [n] bytes and pad to the same word are equal. *)
Lemma left_pad_bigint_inj n x y :
  0 <= x -> 0 <= y -> left_pad n (bigint_bytes x) = left_pad n (bigint_bytes y) -> x = y.
Proof.
  intros Hx Hy H. apply (f_equal be_int) in H.
  rewrite !be_int_left_pad, !be_int_bigint_bytes in H. lia.
Qed.

Lemma length_copy_to n l : length (copy_to n l) = n.
Proof. unfold copy_to. rewrite length_app, length_take, length_replicate. lia. Qed.

Lemma copy_to_id n l : length l = n -> copy_to n l = l.
Proof.
  intros <-. unfold copy_to. rewrite firstn_all, Nat.sub_diag. apply app_nil_r.
Qed.

(** ** Hexadecimal round trip *)

Lemma hex_val_digit z : 0 <= z < 16 -> hex_val (hex_digit z) = Some z.
Proof.
  intros Hz. unfold hex_val, hex_digit. rewrite byteZ_Zbyte.
  destruct (Z.ltb_spec z 10); rewrite Z.mod_small by lia;
    repeat (match goal with |- context[?a <=? ?b] => destruct (Z.leb_spec a b) end;
            simpl; try lia); f_equal; lia.
Qed.

Lemma hex_decode_encode l : hex_decode (hex_encode l) = Some l.
Proof.
  induction l as [|b l IH]; [done|].
  cbn [hex_encode flat_map app hex_decode]. fold (hex_encode l).
  pose proof (byteZ_range b).
  pose proof (Z.mod_pos_bound (byteZ b) 16 ltac:(lia)).
  pose proof (Z.div_pos (byteZ b) 16 ltac:(lia) ltac:(lia)).
  pose proof (Z.div_lt_upper_bound (byteZ b) 16 16 ltac:(lia) ltac:(lia)).
  rewrite !hex_val_digit by lia. rewrite IH. do 2 f_equal.
  rewrite <- (Zbyte_byteZ b) at 3. f_equal.
  rewrite (Z.div_mod (byteZ b) 16) at 3 by lia. lia.
Qed.

Lemma hex_encode_inj a b : hex_encode a = hex_encode b -> a = b.
Proof.
  intros H. apply (f_equal hex_decode) in H. rewrite !hex_decode_encode in H. congruence.
Qed.

Lemma length_hex_encode l : length (hex_encode l) = (2 * length l)%nat.
Proof. induction l; simpl; [done|]. fold (hex_encode l). lia. Qed.

(** ** Lists *)

(** Distinct images: the function is injective on the list. *)
Lemma NoDup_fmap_inj_on {A B} (f : A -> B) (l : list A) x y :
  NoDup (f <$> l) -> x ∈ l -> y ∈ l -> f x = f y -> x = y.
Proof.
  intros Hn Hx Hy E. apply list_elem_of_lookup in Hx as [i Hi], Hy as [j Hj].
  assert (i = j) as ->; [|congruence].
  eapply NoDup_lookup; [exact Hn|..]; rewrite list_lookup_fmap, ?Hi, ?Hj; simpl; by rewrite ?E.
Qed.

(** Sums accumulated by a loop. *)
Fixpoint sumZ (l : list Z) : Z := match l with [] => 0 | x :: t => x + sumZ t end.

Lemma fold_sum {A} (f : A -> Z) l a : fold_left (fun t x => t + f x) l a = a + sumZ (map f l).
Proof. revert a. induction l as [|x l IH]; intros a; simpl; [lia|]. rewrite IH. lia. Qed.

Lemma sumZ_app l1 l2 : sumZ (l1 ++ l2) = sumZ l1 + sumZ l2.
Proof. induction l1; simpl; lia. Qed.

Lemma sumZ_nonneg l : Forall (fun x => 0 <= x) l -> 0 <= sumZ l.
Proof. induction 1; simpl; lia. Qed.

(** ** Maps filled by a loop of insertions *)

Section fold_insert.
Context {A K V : Type} `{Countable K} (key : A -> K) (val : A -> V).

Definition fold_insert (l : list A) (m : gmap K V) : gmap K V :=
  fold_left (fun m a => <[key a := val a]> m) l m.

Lemma fold_insert_notin l m k : k ∉ key <$> l -> fold_insert l m !! k = m !! k.
Proof.
  unfold fold_insert. revert m. induction l as [|a l IH]; intros m Hk; [done|].
  rewrite fmap_cons, not_elem_of_cons in Hk. destruct Hk as [Hne Hk].
  simpl. rewrite IH by done. by apply lookup_insert_ne.
Qed.

(** A key written more than once always gets the same value. *)
Lemma fold_insert_in_consistent l m a :
  (forall b, b ∈ l -> key b = key a -> val b = val a) -> a ∈ l ->
  fold_insert l m !! key a = Some (val a).
Proof.
  unfold fold_insert. revert m a. induction l as [|b l IH]; intros m a Hc Ha;
    [by apply not_elem_of_nil in Ha|]. simpl.
  destruct (decide (key a ∈ key <$> l)) as [Hk|Hk].
  - apply list_elem_of_fmap in Hk as (c & E & Hin).
    assert (Ev : val c = val a) by (apply Hc; [set_solver|done]).
    rewrite E, <- Ev. apply IH; [|done]. intros d Hd Ed. rewrite Ev.
    apply Hc; [set_solver|congruence].
  - apply elem_of_cons in Ha as [->|Ha].
    + pose proof (fold_insert_notin l (<[key b := val b]> m) (key b) Hk) as E.
      unfold fold_insert in E. rewrite E. apply lookup_insert_eq.
    + exfalso. apply Hk. apply list_elem_of_fmap. eauto.
Qed.

Lemma fold_insert_in l m a :
  NoDup (key <$> l) -> a ∈ l -> fold_insert l m !! key a = Some (val a).
Proof.
  intros Hn Ha. apply fold_insert_in_consistent; [|done]. intros b Hb E. f_equal.
  by eapply NoDup_fmap_inj_on.
Qed.

(** The loop over distinct keys is the finite map of its pairs. *)
Lemma fold_insert_list_to_map l :
  NoDup (key <$> l) -> fold_insert l ∅ = list_to_map ((fun a => (key a, val a)) <$> l).
Proof.
  intros Hn. assert (Hf : ((fun a => (key a, val a)) <$> l).*1 = key <$> l).
  { rewrite <- list_fmap_compose. done. }
  apply map_eq. intros k. destruct (decide (k ∈ key <$> l)) as [Hk|Hk].
  - apply list_elem_of_fmap in Hk as (a & -> & Ha). rewrite fold_insert_in by done.
    symmetry. apply elem_of_list_to_map_1; [by rewrite Hf|].
    apply list_elem_of_fmap. eauto.
  - rewrite fold_insert_notin by done. rewrite lookup_empty. symmetry.
    apply not_elem_of_list_to_map_1. by rewrite Hf.
Qed.
End fold_insert.

#[export] Hint Resolve byteZ_range i64_range u64_range : go.
#[export] Hint Rewrite length_be_bytes length_copy_to length_hex_encode : go.

(** ** Loops and sorting *)

Lemma fold_left_inv {A B} (P : A -> Prop) (f : A -> B -> A) l s : P s -> (forall s x, x ∈ l -> P s -> P (f s x)) -> P (fold_left f l s).
Proof.
  revert s. induction l as [|x l IH]; intros s Hs Hf; [done|]. cbn [fold_left]. apply IH; [apply Hf; [by left|done]|].
  intros s' y Hy. apply Hf. by right.
Qed.

Lemma filter_sublist {A} (f : A -> bool) l : List.filter f l `sublist_of` l.
Proof. induction l as [|x l IH]; simpl; [done|]. case_match; by constructor. Qed.

(** [sort.Slice]: an order of the elements in which none is less than an earlier one; elements
    that compare equal may come in any order, here that of the input. *)
Fixpoint insert_by {A} (less : A -> A -> bool) (x : A) (l : list A) : list A :=
  match l with
  | [] => [x]
  | y :: t => if less y x then y :: insert_by less x t else x :: l
  end.

Definition sort_by {A} (less : A -> A -> bool) (l : list A) : list A := foldr (insert_by less) [] l.

Section sorting.
Context {A : Type} (less : A -> A -> bool).
Context (Hasym : forall x y, less x y = true -> less y x = false).
Context (Htrans : forall x y z, less y x = false -> less z y = false -> less z x = false).

Lemma insert_by_perm x l : insert_by less x l ≡ₚ x :: l.
Proof using Type. induction l as [|y l IH]; [done|]. cbn. destruct (less y x); [|done]. rewrite IH. apply perm_swap. Qed.

Lemma sort_by_perm l : sort_by less l ≡ₚ l.
Proof using Type. induction l as [|x l IH]; [done|]. cbn. rewrite insert_by_perm. by f_equiv. Qed.

Lemma sort_by_sorted l : StronglySorted (fun x y => less y x = false) (sort_by less l).
Proof using Hasym Htrans.
  induction l as [|x l IH]; [constructor|]. cbn [sort_by foldr]. fold (sort_by less l). induction IH as [|y m Hm IH' Hall]; [by repeat constructor|].
  cbn [insert_by]. destruct (less y x) eqn:E.
  - constructor; [done|]. rewrite insert_by_perm. apply Forall_cons. split; [by apply Hasym|done].
  - constructor; [by constructor|]. apply Forall_cons. split; [done|]. eapply Forall_impl; [exact Hall|]. intros z Hz. by apply (Htrans x y z).
Qed.
End sorting.
