(* ===== verification/Json.v ===== *)
(** * The compact JSON encoder of Go's [encoding/json]

    The identity package signs the JSON encoding of its documents, so what a
    signature binds is what [json.Marshal] writes.  This file models the
    encoder for the values those documents contain: [null], booleans, integers,
    strings (with Go's HTML-safe escaping and its handling of UTF-8), arrays,
    objects in declaration order with [omitempty], byte arrays (an array of
    numbers), byte slices (base64, [null] when nil) and go-ethereum addresses
    (["0x" ++ hex]).  The main result is that the encoder is injective on
    documents whose strings are ASCII ([marshal_inj]). *)

From Stdlib Require Import String Decimal DecimalPos DecimalZ.
From S2P Require Import Prelude.

(** ** Values *)

Inductive json : Type :=
| JNull
| JBool (b : bool)
| JNum (z : Z)
| JStr (s : bytes)
| JArr (l : list json)
| JObj (l : list (string * json))
(** A value of a type the encoder rejects, such as a map whose keys are
    arrays: [json.Marshal] returns an [UnsupportedTypeError]. *)
| JUnsupported.

(** ** Numbers *)

Fixpoint uint_bytes (u : Decimal.uint) : bytes :=
  match u with
  | Decimal.Nil => []
  | Decimal.D0 u => Byte.x30 :: uint_bytes u
  | Decimal.D1 u => Byte.x31 :: uint_bytes u
  | Decimal.D2 u => Byte.x32 :: uint_bytes u
  | Decimal.D3 u => Byte.x33 :: uint_bytes u
  | Decimal.D4 u => Byte.x34 :: uint_bytes u
  | Decimal.D5 u => Byte.x35 :: uint_bytes u
  | Decimal.D6 u => Byte.x36 :: uint_bytes u
  | Decimal.D7 u => Byte.x37 :: uint_bytes u
  | Decimal.D8 u => Byte.x38 :: uint_bytes u
  | Decimal.D9 u => Byte.x39 :: uint_bytes u
  end.

(** [strconv.AppendInt(_, z, 10)]. *)
Definition dec (z : Z) : bytes :=
  match Z.to_int z with
  | Decimal.Pos u => uint_bytes u
  | Decimal.Neg u => Byte.x2d :: uint_bytes u
  end.

(** ** Strings *)

(** Bytes written as they are: printable ASCII except quote, backslash and the
    HTML characters less-than, greater-than and ampersand ([htmlSafeSet]). *)
Definition html_safe (z : Z) : bool :=
  (32 <=? z) && (z <? 128) &&
  negb (z =? 34) && negb (z =? 38) && negb (z =? 60) && negb (z =? 62) && negb (z =? 92).

Definition esc_ascii (b : byte) : bytes :=
  let z := byteZ b in
  if html_safe z then [b]
  else if (z =? 34) || (z =? 92) then [Byte.x5c; b]
  else if z =? 8 then bs "\b"
  else if z =? 12 then bs "\f"
  else if z =? 10 then bs "\n"
  else if z =? 13 then bs "\r"
  else if z =? 9 then bs "\t"
  else bs "\u00" ++ [hex_digit (z / 16); hex_digit (z mod 16)].

Definition in_range (lo hi : Z) (b : byte) : bool := (lo <=? byteZ b) && (byteZ b <=? hi).

(** Number of continuation bytes of a well-formed sequence that starts with
    [b0]; [None] when [utf8.DecodeRuneInString] reports [RuneError]. *)
Definition utf8_tail (b0 : byte) (t : bytes) : option nat :=
  let z := byteZ b0 in
  let cont := in_range 128 191 in
  if (194 <=? z) && (z <=? 223) then
    match t with b1 :: _ => if cont b1 then Some 1%nat else None | _ => None end
  else if (224 <=? z) && (z <=? 239) then
    match t with
    | b1 :: b2 :: _ =>
        let ok1 := in_range (if z =? 224 then 160 else 128) (if z =? 237 then 159 else 191) b1 in
        if ok1 && cont b2 then Some 2%nat else None
    | _ => None
    end
  else if (240 <=? z) && (z <=? 244) then
    match t with
    | b1 :: b2 :: b3 :: _ =>
        let ok1 := in_range (if z =? 240 then 144 else 128) (if z =? 244 then 143 else 191) b1 in
        if ok1 && cont b2 && cont b3 then Some 3%nat else None
    | _ => None
    end
  else None.

(** U+2028 and U+2029 are escaped; [Some] gives their last hex digit. *)
Definition line_sep (b0 : byte) (t : bytes) : option byte :=
  match t with
  | b1 :: b2 :: _ =>
      if (byteZ b0 =? 226) && (byteZ b1 =? 128) && ((byteZ b2 =? 168) || (byteZ b2 =? 169))
      then Some (hex_digit (byteZ b2 mod 16)) else None
  | _ => None
  end.

Fixpoint escape (skip : nat) (emit : bool) (l : bytes) : bytes :=
  match l with
  | [] => []
  | b :: t =>
      match skip with
      | S k => (if emit then [b] else []) ++ escape k emit t
      | O =>
          if byteZ b <? 128 then esc_ascii b ++ escape 0 true t
          else match utf8_tail b t with
               | None => bs "\ufffd" ++ escape 0 true t
               | Some w =>
                   match line_sep b t with
                   | Some d => bs "\u202" ++ d :: escape w false t
                   | None => b :: escape w true t
                   end
               end
      end
  end.

Definition quote (s : bytes) : bytes := Byte.x22 :: escape 0 true s ++ [Byte.x22].
Arguments quote _ : simpl never.

(** ** The encoder *)

Fixpoint join (l : list bytes) : bytes :=
  match l with
  | [] => []
  | [x] => x
  | x :: t => x ++ Byte.x2c :: join t
  end.

Fixpoint marshal (j : json) : bytes :=
  match j with
  | JNull | JUnsupported => bs "null"
  | JBool true => bs "true"
  | JBool false => bs "false"
  | JNum z => dec z
  | JStr s => quote s
  | JArr l => Byte.x5b :: join (map marshal l) ++ [Byte.x5d]
  | JObj l =>
      Byte.x7b :: join (map (fun kv => quote (bs kv.1) ++ Byte.x3a :: marshal kv.2) l)
      ++ [Byte.x7d]
  end.

Fixpoint supported (j : json) : bool :=
  match j with
  | JArr l => forallb supported l
  | JObj l => forallb (fun kv => supported kv.2) l
  | JUnsupported => false
  | _ => true
  end.

Definition json_Marshal (j : json) : result bytes :=
  if supported j then Ok (marshal j) else Err "json: unsupported type".

(** ** Struct fields: declaration order, [omitempty] drops a field *)

Definition emit (fs : list (string * option json)) : list (string * json) :=
  flat_map (fun kv => match kv.2 with Some v => [(kv.1, v)] | None => [] end) fs.

Definition jobj (fs : list (string * option json)) : json := JObj (emit fs).

Definition field (k : string) (v : json) : string * option json := (k, Some v).
Definition omit_if (c : bool) (k : string) (v : json) : string * option json :=
  (k, if c then None else Some v).

Definition omit_int (k : string) (z : Z) := omit_if (z =? 0) k (JNum z).
Definition omit_bool (k : string) (b : bool) := omit_if (negb b) k (JBool b).
Definition omit_str (k : string) (s : string) := omit_if (bool_decide (s = EmptyString)) k (JStr (bs s)).

(** A Go string. *)
Definition jstring (s : string) : json := JStr (bs s).
(** A fixed-size byte array such as [[32]byte]. *)
Definition jarray (l : bytes) : json := JArr (map (fun b => JNum (byteZ b)) l).
(** [common.Address] and [common.Hash] marshal as text. *)
Definition jhex (a : bytes) : json := JStr (bs "0x" ++ hex_encode a).
(** A slice of strings, [null] when nil. *)
Definition jlist {A} (f : A -> json) (l : option (list A)) : json :=
  match l with None => JNull | Some l => JArr (map f l) end.

(** ** Base64 ([base64.StdEncoding]) for byte slices *)

Definition b64_alphabet : bytes :=
  bs "ABCDEFGHIJKLMNOPQRSTUVWXYZabcdefghijklmnopqrstuvwxyz0123456789+/".
Definition b64_char (z : Z) : byte := nth (Z.to_nat z) b64_alphabet Byte.x3d.

Fixpoint base64 (l : bytes) : bytes :=
  match l with
  | a :: b :: c :: t =>
      let a := byteZ a in let b := byteZ b in let c := byteZ c in
      b64_char (a / 4) :: b64_char ((a mod 4) * 16 + b / 16)
      :: b64_char ((b mod 16) * 4 + c / 64) :: b64_char (c mod 64) :: base64 t
  | [a; b] =>
      let a := byteZ a in let b := byteZ b in
      [b64_char (a / 4); b64_char ((a mod 4) * 16 + b / 16); b64_char ((b mod 16) * 4); Byte.x3d]
  | [a] =>
      let a := byteZ a in
      [b64_char (a / 4); b64_char ((a mod 4) * 16); Byte.x3d; Byte.x3d]
  | [] => []
  end.

(** A byte slice; [None] is the nil slice. *)
Definition jbytes (l : option bytes) : json :=
  match l with None => JNull | Some l => JStr (base64 l) end.

(** ** Induction over documents *)

Section json_ind'.
Variable P : json -> Prop.
Hypothesis Hnull : P JNull.
Hypothesis Hbool : forall b, P (JBool b).
Hypothesis Hnum : forall z, P (JNum z).
Hypothesis Hstr : forall s, P (JStr s).
Hypothesis Harr : forall l, Forall P l -> P (JArr l).
Hypothesis Hobj : forall l, Forall (fun kv => P kv.2) l -> P (JObj l).
Hypothesis Hbad : P JUnsupported.

Fixpoint json_nested_ind (j : json) : P j :=
  match j with
  | JNull => Hnull
  | JBool b => Hbool b
  | JNum z => Hnum z
  | JStr s => Hstr s
  | JArr l =>
      Harr l ((fix go l := match l return Forall P l with
                           | [] => Forall_nil_2 _
                           | x :: t => Forall_cons_2 _ _ _ (json_nested_ind x) (go t)
                           end) l)
  | JObj l =>
      Hobj l ((fix go l := match l return Forall (fun kv => P kv.2) l with
                           | [] => Forall_nil_2 _
                           | x :: t => Forall_cons_2 _ _ _ (json_nested_ind x.2) (go t)
                           end) l)
  | JUnsupported => Hbad
  end.
End json_ind'.

(** ** Injectivity of the encoder *)

Definition ascii (s : bytes) : bool := forallb (fun b => byteZ b <? 128) s.

(** Documents the encoder accepts whose strings are ASCII. *)
Fixpoint plain (j : json) : bool :=
  match j with
  | JStr s => ascii s
  | JArr l => forallb plain l
  | JObj l => forallb (fun kv => ascii (bs kv.1) && plain kv.2) l
  | JUnsupported => false
  | _ => true
  end.

Definition is_digit (b : byte) : bool := (48 <=? byteZ b) && (byteZ b <=? 57).

(** A continuation that cannot extend a number. *)
Definition stop (r : bytes) : bool :=
  match r with [] => true | b :: _ => negb (is_digit b) end.

(** [p] can be read back from the front of a stream. *)
Definition decodable {A} (ok : A -> bool) (p : A -> bytes) (a : A) : Prop :=
  forall b r1 r2, ok a = true -> ok b = true -> stop r1 = true -> stop r2 = true ->
  p a ++ r1 = p b ++ r2 -> a = b /\ r1 = r2.

Lemma app_prefix {A} (l1 l2 r1 r2 : list A) :
  l1 ++ r1 = l2 ++ r2 -> l1 `prefix_of` l2 \/ l2 `prefix_of` l1.
Proof.
  revert l2. induction l1 as [|x l1 IH]; intros [|y l2] H; simpl in *;
    [left; apply prefix_nil | left; apply prefix_nil | right; apply prefix_nil |].
  injection H as -> H. destruct (IH _ H); [left|right]; by apply prefix_cons.
Qed.

Lemma uint_bytes_inj u1 u2 r1 r2 :
  stop r1 = true -> stop r2 = true ->
  uint_bytes u1 ++ r1 = uint_bytes u2 ++ r2 -> u1 = u2 /\ r1 = r2.
Proof.
  intros H1 H2. revert u2.
  induction u1; intros [] H; simpl in H; simplify_eq/=;
    try (by destruct (IHu1 _ H) as [-> ->]); try done.
Qed.

Lemma to_int_nonnil z : Z.to_int z <> Decimal.Pos Decimal.Nil.
Proof.
  destruct z; simpl; try done. intros H. injection H as H.
  by apply (DecimalPos.Unsigned.to_uint_nonnil p).
Qed.

Lemma dec_inj z1 z2 r1 r2 :
  stop r1 = true -> stop r2 = true -> dec z1 ++ r1 = dec z2 ++ r2 -> z1 = z2 /\ r1 = r2.
Proof.
  intros S1 S2 H. rewrite <- (DecimalZ.of_to z1), <- (DecimalZ.of_to z2).
  unfold dec in H. pose proof (to_int_nonnil z1). pose proof (to_int_nonnil z2).
  destruct (Z.to_int z1) as [u1|u1], (Z.to_int z2) as [u2|u2]; simplify_eq/=.
  - apply uint_bytes_inj in H as [-> ->]; done.
  - by destruct u1.
  - by destruct u2.
  - apply uint_bytes_inj in H as [-> ->]; done.
Qed.

Lemma dec_head z : exists b t, dec z = b :: t /\ (is_digit b = true \/ b = Byte.x2d).
Proof.
  unfold dec. pose proof (to_int_nonnil z). destruct (Z.to_int z) as [[]|]; naive_solver.
Qed.

(** Escapes of ASCII bytes form a prefix code that avoids the quote: decided
    on all pairs of bytes. *)
Definition prefixb (l1 l2 : bytes) : bool := bytes_eqb (take (length l1) l2) l1.

Lemma esc_prefix_code :
  forallb (fun a => forallb (fun b =>
    implb ((byteZ a <? 128) && (byteZ b <? 128) && prefixb (esc_ascii a) (esc_ascii b))
          (bool_decide (a = b))) all_bytes) all_bytes = true.
Proof. vm_compute. reflexivity. Qed.

Lemma esc_head_not_quote :
  forallb (fun a => implb (byteZ a <? 128)
    (match esc_ascii a with [] => false | b :: _ => negb (byteZ b =? 34) end)) all_bytes = true.
Proof. vm_compute. reflexivity. Qed.

Lemma prefixb_spec l1 l2 : l1 `prefix_of` l2 -> prefixb l1 l2 = true.
Proof. intros [k ->]. unfold prefixb, bytes_eqb. rewrite take_app_length. by apply bool_decide_eq_true. Qed.

Lemma esc_ascii_inj a b r1 r2 :
  byteZ a < 128 -> byteZ b < 128 -> esc_ascii a ++ r1 = esc_ascii b ++ r2 -> a = b /\ r1 = r2.
Proof.
  intros Ha%Z.ltb_lt Hb%Z.ltb_lt H.
  assert (a = b) as ->; [|by simplify_list_eq].
  pose proof (byte_forall _ esc_prefix_code) as C; cbv beta in C.
  destruct (app_prefix _ _ _ _ H) as [P|P]; apply prefixb_spec in P.
  - pose proof (byte_forall _ (C a) b) as D; cbv beta in D. rewrite Ha, Hb, P in D.
    by apply bool_decide_eq_true in D.
  - pose proof (byte_forall _ (C b) a) as D; cbv beta in D. rewrite Ha, Hb, P in D.
    symmetry. by apply bool_decide_eq_true in D.
Qed.

Lemma escape_ascii s : ascii s = true -> escape 0 true s = flat_map esc_ascii s.
Proof.
  induction s as [|b s IH]; [done|]. intros [H1 H2]%andb_true_iff. simpl.
  rewrite H1, IH; done.
Qed.

Lemma escape_inj s1 s2 r1 r2 :
  ascii s1 = true -> ascii s2 = true ->
  escape 0 true s1 ++ Byte.x22 :: r1 = escape 0 true s2 ++ Byte.x22 :: r2 ->
  s1 = s2 /\ r1 = r2.
Proof.
  intros H1 H2. rewrite !escape_ascii by done.
  assert (Hq : forall a t r, byteZ a < 128 -> Byte.x22 :: r <> (esc_ascii a ++ t)).
  { intros a t r Ha%Z.ltb_lt. pose proof (byte_forall _ esc_head_not_quote a) as D; cbv beta in D.
    rewrite Ha in D. destruct (esc_ascii a); simpl in D; [done|]. intros E. by simplify_eq/=. }
  revert s2 H1 H2. induction s1 as [|a s1 IH]; intros [|b s2] H1 H2 E;
    repeat match goal with H : ascii (_ :: _) = true |- _ =>
      apply andb_true_iff in H; destruct H as [?%Z.ltb_lt ?] end; simpl in E.
  - by simplify_eq.
  - rewrite <- app_assoc in E. by apply Hq in E.
  - rewrite <- app_assoc in E. symmetry in E. by apply Hq in E.
  - rewrite <- !app_assoc in E. apply esc_ascii_inj in E as [-> E]; [|done..].
    apply IH in E as [-> ->]; done.
Qed.

Lemma quote_inj s1 s2 r1 r2 :
  ascii s1 = true -> ascii s2 = true -> quote s1 ++ r1 = quote s2 ++ r2 -> s1 = s2 /\ r1 = r2.
Proof.
  intros H1 H2 H. unfold quote in H. rewrite <- !app_comm_cons in H. injection H as H.
  rewrite <- !app_assoc in H. by apply escape_inj in H.
Qed.

(** *** Comma-separated sequences *)

Section join_inj.
Context {A : Type} (ok : A -> bool) (p : A -> bytes) (close : byte).
Hypothesis Hclose : is_digit close = false.
Hypothesis Hcomma : close <> Byte.x2c.
Hypothesis Hhead : forall a r t, ok a = true -> p a ++ r <> close :: t.

Lemma join_cons a l r :
  join (map p (a :: l)) ++ close :: r =
  p a ++ match l with [] => close :: r
                    | _ => Byte.x2c :: (join (map p l) ++ close :: r) end.
Proof. destruct l; simpl; [done|]. by rewrite <- app_assoc. Qed.

Lemma join_inj l1 l2 r1 r2 :
  Forall (decodable ok p) l1 ->
  forallb ok l1 = true -> forallb ok l2 = true ->
  join (map p l1) ++ close :: r1 = join (map p l2) ++ close :: r2 ->
  l1 = l2 /\ r1 = r2.
Proof.
  intros F. revert l2. induction F as [|a l1 Ha F IH]; intros [|b l2] H1 H2 E.
  - by simplify_eq/=.
  - rewrite join_cons in E. apply andb_true_iff in H2 as [H2 _].
    symmetry in E. by apply Hhead in E.
  - rewrite join_cons in E. apply andb_true_iff in H1 as [H1 _]. by apply Hhead in E.
  - rewrite !join_cons in E.
    apply andb_true_iff in H1 as [H1 H1'], H2 as [H2 H2'].
    apply Ha in E as [-> E]; [|try done..|];
      [|destruct l1|destruct l2]; simpl; rewrite ?Hclose; try done.
    destruct l1 as [|x l1], l2 as [|y l2]; simplify_eq; [done|].
    by apply IH in E as [-> ->].
Qed.
End join_inj.

Lemma bs_inj s1 s2 : bs s1 = bs s2 -> s1 = s2.
Proof.
  intros H. apply (f_equal String.string_of_list_byte) in H. unfold bs in H.
  by rewrite !String.string_of_list_byte_of_string in H.
Qed.

(** The first byte of an encoding tells the constructor. *)
Definition head_class (b : byte) : Z :=
  let z := byteZ b in
  if is_digit b || (z =? 45) then 3 else z.

Lemma marshal_head j : plain j = true ->
  exists b t, marshal j = b :: t /\
  head_class b = match j with
                 | JNull | JUnsupported => 110 | JBool true => 116 | JBool false => 102
                 | JNum _ => 3 | JStr _ => 34 | JArr _ => 91 | JObj _ => 123 end.
Proof.
  destruct j as [|[]|z|s|l|l|]; intros; simpl; try (do 2 eexists; split; done).
  destruct (dec_head z) as (b & t & E & Hb). exists b, t. split; [done|].
  unfold head_class. destruct Hb as [-> | ->]; done.
Qed.

Lemma marshal_head_ne j c r t :
  plain j = true -> (c = Byte.x5d \/ c = Byte.x7d) -> marshal j ++ r <> c :: t.
Proof.
  intros Hp Hc E. destruct (marshal_head j Hp) as (b & u & Em & Hh).
  rewrite Em in E. simplify_eq/=. destruct j as [|[]|z|s|l|l|], Hc as [-> | ->]; done.
Qed.

Lemma member_decodable k v :
  decodable plain marshal v ->
  decodable (fun kv : string * json => ascii (bs kv.1) && plain kv.2)
    (fun kv => quote (bs kv.1) ++ Byte.x3a :: marshal kv.2) (k, v).
Proof.
  intros D [k' v'] r1 r2 [H1 H2]%andb_true_iff [H3 H4]%andb_true_iff S1 S2 E. cbn [fst snd] in *.
  rewrite <- (app_assoc (quote (bs k))), <- (app_assoc (quote (bs k'))) in E.
  apply quote_inj in E as [Ek E]; [|done..].
  simpl in E. injection E as E. apply D in E as [-> ->]; [|done..]. split; [|done]. f_equal.
  by apply bs_inj.
Qed.

Lemma marshal_decodable j : decodable plain marshal j.
Proof.
  induction j as [|b|z|s|l IH|l IH|] using json_nested_ind;
    intros j2 r1 r2 P1 P2 S1 S2 E;
    destruct (marshal_head j2 P2) as (h2 & t2 & E2 & Hh2);
    [set (j1 := JNull) in *|set (j1 := JBool b) in *|set (j1 := JNum z) in *
    |set (j1 := JStr s) in *|set (j1 := JArr l) in *|set (j1 := JObj l) in *|done];
    destruct (marshal_head j1 P1) as (h1 & t1 & E1 & Hh1);
    assert (h1 = h2) as -> by (rewrite E1, E2 in E; by simplify_eq/=);
    rewrite Hh1 in Hh2; subst j1; clear E1 E2 Hh1.
  - destruct j2 as [|[]|?|?|?|?|]; simplify_eq/=; done.
  - destruct b, j2 as [|[]|?|?|?|?|]; simplify_eq/=; done.
  - destruct j2 as [|[]|?|?|?|?|]; simplify_eq/=. apply dec_inj in E as [-> ->]; done.
  - destruct j2 as [|[]|?|?|?|?|]; try discriminate Hh2. apply quote_inj in E as [-> ->]; done.
  - destruct j2 as [|[]|?|?|l2|?|]; try discriminate Hh2.
    cbn [marshal] in E. rewrite <- !app_comm_cons, <- !app_assoc in E. injection E as E.
    eapply (join_inj plain marshal Byte.x5d) in E as [-> ->]; try done.
    intros a r t Ha. apply marshal_head_ne; auto.
  - destruct j2 as [|[]|?|?|?|l2|]; try discriminate Hh2.
    cbn [marshal] in E. rewrite <- !app_comm_cons, <- !app_assoc in E. injection E as E.
    eapply (join_inj (fun kv : string * json => ascii (bs kv.1) && plain kv.2)
              (fun kv => quote (bs kv.1) ++ Byte.x3a :: marshal kv.2) Byte.x7d) in E as [-> ->];
      try done.
    eapply Forall_impl; [exact IH|]. intros [k v] D. by apply member_decodable.
Qed.

(** The encoder is injective on ASCII documents: the signed bytes determine
    the document. *)
Theorem marshal_inj j1 j2 :
  plain j1 = true -> plain j2 = true -> marshal j1 = marshal j2 -> j1 = j2.
Proof.
  intros P1 P2 E. apply (marshal_decodable j1 j2 [] []); try done. by rewrite E.
Qed.

(** *** Fields, arrays, hexadecimal and base64 *)

Lemma emit_keys fs : map fst (emit fs) ⊆ map fst fs.
Proof.
  induction fs as [|[k [v|]] fs IH]; simpl; [done|..]; fold (emit fs); set_solver.
Qed.

(** With the same declared fields, the emitted fields determine which were
    omitted and the value of the others. *)
Lemma emit_inj fs1 fs2 :
  map fst fs1 = map fst fs2 -> NoDup (map fst fs1) -> emit fs1 = emit fs2 -> fs1 = fs2.
Proof.
  revert fs2. induction fs1 as [|[k o1] fs1 IH]; intros [|[k' o2] fs2] Hk Hn He; try done.
  simpl in *. injection Hk as -> Hk. apply NoDup_cons in Hn as [Hin Hn].
  assert (k' ∉ map fst (emit fs1)) by (pose proof (emit_keys fs1); set_solver).
  assert (k' ∉ map fst (emit fs2)) by (pose proof (emit_keys fs2); rewrite Hk in Hin; set_solver).
  fold (emit fs1) (emit fs2) in He.
  destruct o1, o2; simplify_eq/=.
  - f_equal. by apply IH.
  - exfalso. rewrite <- He in *. set_solver.
  - exfalso. rewrite He in *. set_solver.
  - f_equal. by apply IH.
Qed.

Lemma plain_jobj fs :
  plain (jobj fs) =
  forallb (fun kv => match kv.2 with Some v => ascii (bs kv.1) && plain v | None => true end) fs.
Proof.
  unfold jobj. cbn [plain]. induction fs as [|[k [v|]] fs IH]; simpl; [done| |exact IH].
  by rewrite <- IH.
Qed.

Lemma jobj_inj fs1 fs2 :
  map fst fs1 = map fst fs2 -> NoDup (map fst fs1) -> jobj fs1 = jobj fs2 -> fs1 = fs2.
Proof. intros ?? [= H]. by apply emit_inj. Qed.

Lemma jarray_inj a b : jarray a = jarray b -> a = b.
Proof.
  unfold jarray. intros [= H]. revert b H.
  induction a as [|x a IH]; intros [|y b] H; simplify_eq/=; [done|].
  f_equal; [by apply byteZ_inj|]. by apply IH.
Qed.

Lemma jhex_inj a b : jhex a = jhex b -> a = b.
Proof. unfold jhex. intros [= H]. by apply hex_encode_inj. Qed.

Lemma jstring_inj s1 s2 : jstring s1 = jstring s2 -> s1 = s2.
Proof. intros [= H]. by apply bs_inj. Qed.

Lemma b64_char_table :
  forallb (fun n => negb (byteZ (b64_char (Z.of_nat n)) =? 61) &&
    forallb (fun m => implb (byteZ (b64_char (Z.of_nat n)) =? byteZ (b64_char (Z.of_nat m)))
                            (n =? m)%nat) (seq 0 64)) (seq 0 64) = true.
Proof. vm_compute. reflexivity. Qed.

Lemma b64_char_row x : 0 <= x < 64 ->
  byteZ (b64_char x) <> 61 /\
  forall y, 0 <= y < 64 -> b64_char x = b64_char y -> x = y.
Proof.
  intros Hx. pose proof b64_char_table as T. rewrite forallb_forall in T.
  specialize (T (Z.to_nat x) ltac:(apply in_seq; lia)). rewrite Z2Nat.id in T by lia.
  apply andb_true_iff in T as [T1 T2]. bool_to_prop. split; [done|]. intros y Hy E.
  rewrite forallb_forall in T2. specialize (T2 (Z.to_nat y) ltac:(apply in_seq; lia)).
  rewrite Z2Nat.id, E, Z.eqb_refl in T2 by lia. apply Nat.eqb_eq in T2. lia.
Qed.

Lemma b64_char_inj x y :
  0 <= x < 64 -> 0 <= y < 64 -> b64_char x = b64_char y -> x = y.
Proof. intros Hx. by apply b64_char_row. Qed.

Lemma b64_char_pad x : 0 <= x < 64 -> b64_char x <> Byte.x3d.
Proof. intros Hx E. apply (b64_char_row x Hx). by rewrite E. Qed.

(** Read one base64 group back: equal symbols give equal sextets. *)
Ltac b64_range := Z.to_euclidean_division_equations; lia.

Ltac b64_solve :=
  repeat match goal with
  | H : b64_char _ = Byte.x3d |- _ => exfalso; revert H; apply b64_char_pad; b64_range
  | H : Byte.x3d = b64_char _ |- _ =>
      exfalso; symmetry in H; revert H; apply b64_char_pad; b64_range
  | H : b64_char _ = b64_char _ |- _ => apply b64_char_inj in H; [|b64_range..]
  end.

Lemma base64_inj a b : base64 a = base64 b -> a = b.
Proof.
  revert b. induction a as [a IH] using (induction_ltof1 _ (@length byte)); unfold ltof in IH.
  intros b H.
  destruct a as [|x [|y [|z a]]], b as [|x' [|y' [|z' b]]]; simpl in H; simplify_eq;
    try done;
    repeat match goal with v : byte |- _ =>
      lazymatch goal with _ : 0 <= byteZ v < 256 |- _ => fail | _ => pose proof (byteZ_range v) end end;
    b64_solve; f_equal;
    try (apply byteZ_inj; b64_range);
    do 2 f_equal; try (apply byteZ_inj; b64_range);
    f_equal; try (apply byteZ_inj; b64_range).
  all: try (apply IH; simpl; [lia|done]).
Qed.

Lemma jbytes_inj a b : jbytes a = jbytes b -> a = b.
Proof. destruct a, b; intros [=]; [|done]. f_equal. by apply base64_inj. Qed.
