(* ===== verification/Signing.v ===== *)
(** * Signed documents

    Every document of the identity package (consents, delegations, rights,
    layer configurations, disclosure proofs, recoveries, ...) carries the same
    pair of methods: [Sign] checks that the key belongs to the document's
    owner, clears the signature, hashes the JSON encoding and stores
    go-ethereum's signature of the hash; [Verify] recomputes the hash with the
    signature cleared and compares the recovered address with the owner.

    go-ethereum's [crypto] package is not part of the repository: the class
    [Crypto] lists the functions the code calls and [CryptoLaws] the documented
    behaviour the theorems use.  The class [SignedDoc] is the interface the
    documents implement; [doc_Sign] and [doc_Verify] are the two methods, and the
    theorems about them are proved once for every document. *)

From Stdlib Require Import String.
From S2P Require Import Prelude Json.

Class Crypto : Type := {
  PrivateKey : Type;
  (** [crypto.Keccak256]. *)
  Keccak256 : bytes -> bytes;
  (** [crypto.PubkeyToAddress(key.PublicKey)]. *)
  KeyAddress : PrivateKey -> bytes;
  (** [crypto.Sign(hash, key)]. *)
  EcSign : bytes -> PrivateKey -> result bytes;
  (** [crypto.SigToPub(hash, sig)] followed by [crypto.PubkeyToAddress];
      [None] when [SigToPub] returns an error. *)
  EcRecover : bytes -> bytes -> option bytes;
  (** [common.Address.Hex]: the checksummed hexadecimal form. *)
  AddrHex : bytes -> bytes;
}.

Class CryptoLaws (C : Crypto) : Prop := {
  (** A Keccak-256 digest has 32 bytes. *)
  keccak_length : forall m, length (Keccak256 m) = 32%nat;
  (** [crypto.Sign] accepts a 32-byte hash and returns the 65-byte [R || S || V] form. *)
  sign_total : forall h k, length h = 32%nat ->
    exists sig, EcSign h k = Ok sig /\ length sig = 65%nat;
  (** Recovery from a signature made with a key gives that key's address. *)
  recover_sign : forall h k sig, EcSign h k = Ok sig -> EcRecover h sig = Some (KeyAddress k);
  (** Different addresses have different hexadecimal forms. *)
  addrhex_inj : forall a b, AddrHex a = AddrHex b -> a = b;
  (** The prefix [0x] and two digits per byte. *)
  addrhex_length : forall a, length (AddrHex a) = (2 + 2 * length a)%nat;
}.

(** The document interface.  [doc_json] is the JSON value of the document with
    its signature field set to nil. *)
Class SignedDoc (D : Type) : Type := {
  doc_json : D -> json;
  doc_owner : D -> bytes;
  doc_sig : D -> bytes;
  doc_set_sig : bytes -> D -> D;
  doc_sign_error : string;
}.

Class SignedDocLaws (D : Type) {S : SignedDoc D} : Prop := {
  json_set_sig : forall s (d : D), doc_json (doc_set_sig s d) = doc_json d;
  owner_set_sig : forall s (d : D), doc_owner (doc_set_sig s d) = doc_owner d;
  sig_set_sig : forall s (d : D), doc_sig (doc_set_sig s d) = s;
}.

Section signing.
Context {C : Crypto} {D : Type} {S : SignedDoc D}.

(** The nil slice. *)
Definition no_sig : bytes := [].

Definition doc_Sign (k : PrivateKey) (d : D) : D * result unit :=
  if negb (bytes_eqb (KeyAddress k) (doc_owner d)) then (d, Err doc_sign_error)
  else
    let d0 := doc_set_sig no_sig d in
    match json_Marshal (doc_json d0) with
    | Err _ => (d0, Err "failed to marshal for signing")
    | Ok data =>
        match EcSign (Keccak256 data) k with
        | Err _ => (d0, Err "failed to sign")
        | Ok sig => (doc_set_sig sig d0, Ok tt)
        end
    end.

Definition doc_Verify (d : D) : bool :=
  if bytes_eqb (doc_sig d) no_sig then false
  else match json_Marshal (doc_json d) with
       | Err _ => false
       | Ok data =>
           match EcRecover (Keccak256 data) (doc_sig d) with
           | None => false
           | Some a => bytes_eqb a (doc_owner d)
           end
       end.
End signing.

(** Two documents do not collide: their signed bytes hash apart when they
    differ, and one signature does not recover one address from both hashes. *)
Definition no_collision {C : Crypto} (m1 m2 : bytes) : Prop :=
  Keccak256 m1 = Keccak256 m2 -> m1 = m2.

Definition sig_binds {C : Crypto} (sig h1 h2 : bytes) : Prop :=
  forall a, EcRecover h1 sig = Some a -> EcRecover h2 sig = Some a -> h1 = h2.

Lemma no_collision_neq {C : Crypto} m1 m2 :
  bytes_eqb (Keccak256 m1) (Keccak256 m2) = false -> no_collision m1 m2.
Proof. intros H E. by rewrite E, bytes_eqb_refl in H. Qed.

Lemma sig_binds_None {C : Crypto} sig h1 h2 : EcRecover h2 sig = None -> sig_binds sig h1 h2.
Proof. intros H a _ E. congruence. Qed.

Section signing_theory.
Context {C : Crypto} {L : CryptoLaws C} {D : Type} {S : SignedDoc D} {SL : SignedDocLaws D}.

(** Signing with the owner's key succeeds on every encodable document. *)
Lemma doc_Sign_total k (d : D) :
  KeyAddress k = doc_owner d -> supported (doc_json d) = true ->
  exists sig, doc_Sign k d = (doc_set_sig sig (doc_set_sig no_sig d), Ok tt) /\
              length sig = 65%nat /\ EcRecover (Keccak256 (marshal (doc_json d))) sig = Some (KeyAddress k).
Proof.
  intros Ho Hs. unfold doc_Sign. rewrite (proj2 (bytes_eqb_true _ _) Ho). simpl.
  rewrite json_set_sig. unfold json_Marshal. rewrite Hs.
  destruct (sign_total (Keccak256 (marshal (doc_json d))) k (keccak_length _)) as (sig & E & Hl).
  rewrite E. exists sig. split; [done|]. split; [done|]. by apply recover_sign.
Qed.

Lemma doc_Sign_not_owner k (d : D) :
  KeyAddress k <> doc_owner d -> doc_Sign k d = (d, Err doc_sign_error).
Proof. intros H. unfold doc_Sign. by rewrite (proj2 (bytes_eqb_false _ _) H). Qed.

(** A document that [Sign] accepted verifies, and only its signature changed. *)
Lemma doc_Sign_ok k (d d' : D) u :
  doc_Sign k d = (d', Ok u) ->
  doc_Verify d' = true /\ KeyAddress k = doc_owner d' /\ doc_json d' = doc_json d /\
  doc_owner d' = doc_owner d.
Proof.
  unfold doc_Sign, json_Marshal. intros H. guards. bool_to_prop.
  rewrite !json_set_sig, !owner_set_sig in *.
  destruct (sign_total (Keccak256 (marshal (doc_json d))) k (keccak_length _)) as (sig & E & Hl).
  split_and!; try done. unfold doc_Verify, json_Marshal.
  rewrite !sig_set_sig, !json_set_sig, !owner_set_sig.
  match goal with H : supported _ = true |- _ => rewrite H end.
  match goal with H : EcSign _ _ = Ok _ |- _ => rewrite H in E; injection E as -> ;
    apply recover_sign in H; rewrite H end.
  case_match; [|by apply bytes_eqb_true]. bool_to_prop. by subst.
Qed.

(** [Verify] is exactly recovery of the owner from the signed bytes. *)
Lemma doc_Verify_spec (d : D) :
  doc_Verify d = true <->
  doc_sig d <> no_sig /\ supported (doc_json d) = true /\
  EcRecover (Keccak256 (marshal (doc_json d))) (doc_sig d) = Some (doc_owner d).
Proof.
  unfold doc_Verify, json_Marshal. split.
  - intros H. guards. bool_to_prop. by subst.
  - intros (H1 & H2 & H3). rewrite H2, H3.
    rewrite (proj2 (bytes_eqb_false _ _) H1). apply bytes_eqb_refl.
Qed.

(** A signature binds the whole document: another document that verifies
    with the same signature and owner has the same JSON value. *)
Lemma doc_sig_binds (d1 d2 : D) :
  let m1 := marshal (doc_json d1) in let m2 := marshal (doc_json d2) in
  no_collision m1 m2 -> sig_binds (doc_sig d1) (Keccak256 m1) (Keccak256 m2) ->
  plain (doc_json d1) = true -> plain (doc_json d2) = true ->
  doc_sig d1 = doc_sig d2 -> doc_owner d1 = doc_owner d2 ->
  doc_Verify d1 = true -> doc_Verify d2 = true -> doc_json d1 = doc_json d2.
Proof.
  intros m1 m2 Hc Hb P1 P2 Es Eo (_ & _ & R1)%doc_Verify_spec (_ & _ & R2)%doc_Verify_spec.
  rewrite <- Es, <- Eo in R2. apply marshal_inj; try done. apply Hc. by eapply Hb.
Qed.
End signing_theory.

(** ** A concrete instance

    A small executable instance of the interface, used to evaluate the
    theorems on concrete inputs: a polynomial digest, and signatures that
    contain the hash and the key. *)

Module Toy.
Definition digest (m : bytes) : bytes :=
  be_bytes 32 (fold_left (fun acc b => Z.land (acc * 257 + byteZ b + 1) 0xffffffffffffffff) m 1).

Definition sign (h : bytes) (k : byte) : result bytes :=
  if (length h =? 32)%nat then Ok (h ++ replicate 33 k) else Err "hash is required to be exactly 32 bytes".

Definition recover (h sig : bytes) : option bytes :=
  if (length sig =? 65)%nat && bytes_eqb (take 32 sig) h
  then match last sig with Some k => Some (replicate 20 k) | None => None end
  else None.

Definition crypto : Crypto := {|
  PrivateKey := byte; Keccak256 := digest; KeyAddress := fun k => replicate 20 k;
  EcSign := sign; EcRecover := recover;
  AddrHex := fun a => bs "0x" ++ hex_encode a |}.

#[global] Instance laws : CryptoLaws crypto.
Proof.
  split.
  - intros m. apply length_be_bytes.
  - intros h k Hh. exists (h ++ replicate 33 k). simpl. unfold sign. rewrite Hh. simpl.
    split; [done|]. rewrite length_app, Hh. done.
  - intros h k sig H. cbn [EcSign EcRecover KeyAddress crypto] in *. unfold sign in H.
    destruct (Nat.eqb_spec (length h) 32) as [Hh|]; [|done]. 
    assert (sig = h ++ @replicate byte 33 k) as -> by (symmetry; injection H; exact id). clear H.
    unfold recover. rewrite length_app, length_replicate, Hh.
    rewrite take_app_length' by done. rewrite bytes_eqb_refl.
    by rewrite (replicate_S_end 32), app_assoc, last_snoc.
  - intros a b H. simpl in H. injection H as H. by apply hex_encode_inj.
  - intros a. cbn [AddrHex crypto]. by rewrite length_app, length_hex_encode.
Qed.
End Toy.
