(* ===== verification/Sha256.v ===== *)
(** * SHA-256 ([crypto/sha256])

    The content store addresses a chunk by its SHA-256 digest and the update
    checker compares digests, so the digest is modelled executably (FIPS 180-4).
    The test vectors at the end are evaluated by the kernel.  No theorem of the
    development assumes that SHA-256 has no collisions: where two particular
    inputs must not collide, the statement says so for these inputs. *)

From Stdlib Require Import String.
From S2P Require Import Prelude.

Definition w32 (z : Z) : Z := z mod 2 ^ 32.
Definition rotr (n x : Z) : Z := Z.lor (Z.shiftr x n) (w32 (Z.shiftl x (32 - n))).
Definition add32 (l : list Z) : Z := w32 (fold_left Z.add l 0).

Definition ch (x y z : Z) : Z := Z.lxor (Z.land x y) (Z.land (2 ^ 32 - 1 - x) z).
Definition maj (x y z : Z) : Z := Z.lxor (Z.lxor (Z.land x y) (Z.land x z)) (Z.land y z).
Definition big_sigma0 x := Z.lxor (Z.lxor (rotr 2 x) (rotr 13 x)) (rotr 22 x).
Definition big_sigma1 x := Z.lxor (Z.lxor (rotr 6 x) (rotr 11 x)) (rotr 25 x).
Definition small_sigma0 x := Z.lxor (Z.lxor (rotr 7 x) (rotr 18 x)) (Z.shiftr x 3).
Definition small_sigma1 x := Z.lxor (Z.lxor (rotr 17 x) (rotr 19 x)) (Z.shiftr x 10).

(** The constants of the standard are the first 32 bits of the fractional parts of
    the cube and square roots of the first primes; they are computed here. *)
Definition is_prime (n : Z) : bool :=
  forallb (fun d => negb (n mod d =? 0)) (map Z.of_nat (seq 2 (Z.to_nat (Z.sqrt n) - 1))).

Definition primes (n : nat) : list Z := take n (List.filter is_prime (map Z.of_nat (seq 2 310))).

(** The integer cube root, bit by bit from bit [k]. *)
Fixpoint cube_root (k : nat) (n acc : Z) : Z :=
  let acc' := acc + 2 ^ Z.of_nat k in
  let acc := if acc' ^ 3 <=? n then acc' else acc in
  match k with O => acc | S k => cube_root k n acc end.

Definition round_constants : list Z :=
  Eval vm_compute in map (fun p => w32 (cube_root 40 (p * 2 ^ 96) 0)) (primes 64).

Record hstate := HState { h0 : Z; h1 : Z; h2 : Z; h3 : Z; h4 : Z; h5 : Z; h6 : Z; h7 : Z }.

Definition initial : hstate :=
  Eval vm_compute in
    match map (fun p => w32 (Z.sqrt (p * 2 ^ 64))) (primes 8) with
    | [a; b; c; d; e; f; g; h] => HState a b c d e f g h
    | _ => HState 0 0 0 0 0 0 0 0
    end.

(** The padded message: a one bit, zeros, and the bit length in 64 bits. *)
Definition pad (m : bytes) : bytes :=
  let n := length m in
  m ++ [Byte.x80] ++ replicate ((119 - n mod 64) mod 64) Byte.x00 ++ be_bytes 8 (8 * Z.of_nat n).

Fixpoint words (n : nat) (l : bytes) : list Z :=
  match n with O => [] | S k => be_int (take 4 l) :: words k (drop 4 l) end.

(** The message schedule, kept as a sliding window of the last 16 words. *)
Fixpoint rounds (ks : list Z) (w : list Z) (s : hstate) : hstate :=
  match ks, w with
  | k :: ks, w0 :: w' =>
      let t1 := add32 [h7 s; big_sigma1 (h4 s); ch (h4 s) (h5 s) (h6 s); k; w0] in
      let t2 := add32 [big_sigma0 (h0 s); maj (h0 s) (h1 s) (h2 s)] in
      let s' := HState (add32 [t1; t2]) (h0 s) (h1 s) (h2 s)
                       (add32 [h3 s; t1]) (h4 s) (h5 s) (h6 s) in
      let next := add32 [small_sigma1 (nth 13 w' 0); nth 8 w' 0;
                         small_sigma0 (nth 0 w' 0); w0] in
      rounds ks (w' ++ [next]) s'
  | _, _ => s
  end.

Definition compress (s : hstate) (block : bytes) : hstate :=
  let r := rounds round_constants (words 16 block) s in
  HState (add32 [h0 s; h0 r]) (add32 [h1 s; h1 r]) (add32 [h2 s; h2 r]) (add32 [h3 s; h3 r])
         (add32 [h4 s; h4 r]) (add32 [h5 s; h5 r]) (add32 [h6 s; h6 r]) (add32 [h7 s; h7 r]).

Fixpoint blocks (n : nat) (l : bytes) (s : hstate) : hstate :=
  match n with O => s | S k => blocks k (drop 64 l) (compress s (take 64 l)) end.

(** [sha256.Sum256]. *)
Definition sha256 (m : bytes) : bytes :=
  let p := pad m in
  let s := blocks (length p / 64) p initial in
  be_bytes 4 (h0 s) ++ be_bytes 4 (h1 s) ++ be_bytes 4 (h2 s) ++ be_bytes 4 (h3 s) ++
  be_bytes 4 (h4 s) ++ be_bytes 4 (h5 s) ++ be_bytes 4 (h6 s) ++ be_bytes 4 (h7 s).

Lemma length_sha256 m : length (sha256 m) = 32%nat.
Proof. unfold sha256. by rewrite !length_app, !length_be_bytes. Qed.

#[export] Hint Rewrite length_sha256 : go.

Example sha256_empty :
  hex_encode (sha256 []) = bs "e3b0c44298fc1c149afbf4c8996fb92427ae41e4649b934ca495991b7852b855".
Proof. vm_compute. reflexivity. Qed.

Example sha256_abc :
  hex_encode (sha256 (bs "abc")) = bs "ba7816bf8f01cfea414140de5dae2223b00361a396177a9cb410ff61f20015ad".
Proof. vm_compute. reflexivity. Qed.

Example sha256_two_blocks :
  hex_encode (sha256 (bs "abcdbcdecdefdefgefghfghighijhijkijkljklmklmnlmnomnopnopq")) =
  bs "248d6a61d20638b8e5c026930c3e6039a33ce45964ff2167f6ecedd419db06c1".
Proof. vm_compute. reflexivity. Qed.

(** Proofs never unfold the digest; the kernel still evaluates it. *)
#[global] Opaque sha256.
