(* ===== verification/Store.v ===== *)
(** * The content store ([src/content/store.go])

    [Store] keeps a map from content identifiers to chunks.  [Put] stores a
    chunk under its SHA-256 digest, [PutWithID] under an identifier the caller
    supplies.  The invariant [addressed] (every chunk is stored under its own
    digest) is kept by every operation except [PutWithID] and [Load]. *)

From Stdlib Require Import String.
From S2P Require Import Prelude Sha256.

(** ** Identifiers *)

Definition HashData (data : bytes) : bytes := sha256 data.

(** [ContentID.Hex] (and [String]). *)
Definition ContentID_Hex (c : bytes) : bytes := hex_encode c.

Definition ParseContentID (s : bytes) : result bytes :=
  match hex_decode s with
  | None => Err "invalid content ID"
  | Some b =>
      if negb (length b =? 32)%nat then Err "content ID must be 32 bytes"
      else Ok (copy_to 32 b)
  end.

(** ** The store *)

Record Store := mkStore { chunks : gmap bytes bytes; diskPath : string }.

Definition NewStore (path : string) : Store := mkStore ∅ path.

Definition Has (s : Store) (id : bytes) : bool := bool_decide (is_Some (chunks s !! id)).

Definition Store_Get (s : Store) (id : bytes) : option bytes := chunks s !! id.

Definition Put (s : Store) (data : bytes) : Store * bytes :=
  let id := HashData data in (mkStore (<[id := data]> (chunks s)) (diskPath s), id).

Definition PutWithID (s : Store) (id data : bytes) : Store :=
  mkStore (<[id := data]> (chunks s)) (diskPath s).

Definition Store_Delete (s : Store) (id : bytes) : Store :=
  mkStore (delete id (chunks s)) (diskPath s).

Definition Store_Size (s : Store) : Z := Z.of_nat (size (chunks s)).

(** Go iterates a map in an unspecified order; [map_to_list] is one order. *)
Definition Keys (s : Store) : list bytes := (map_to_list (chunks s)).*1.

Definition TotalBytes (s : Store) : Z :=
  fold_left (fun total kv => i64 (total + Z.of_nat (length kv.2))) (map_to_list (chunks s)) 0.

(** ** The disk

    A directory entry is a sub-directory or a file; [read] is [None] when
    [os.ReadFile] fails on it. *)

Inductive entry := EDir | EFile (read : option bytes).

Record Disk := mkDisk {
  exists_dir : bool;              (* [os.ReadDir] finds the directory *)
  read_dir_ok : bool;             (* [os.ReadDir] fails for another reason when false *)
  mkdir_ok : bool;                (* [os.MkdirAll] succeeds *)
  write_ok : bytes -> bool;       (* [os.WriteFile] succeeds on this name *)
  entries : gmap bytes entry;     (* by file name *)
}.

Definition set_entries (d : Disk) (e : gmap bytes entry) : Disk :=
  mkDisk true (read_dir_ok d) (mkdir_ok d) (write_ok d) e.

Fixpoint flush_loop (d : Disk) (l : list (bytes * bytes)) : Disk * result unit :=
  match l with
  | [] => (d, Ok tt)
  | (id, data) :: t =>
      let path := ContentID_Hex id in
      if write_ok d path
      then flush_loop (set_entries d (<[path := EFile (Some data)]> (entries d))) t
      else (d, Err "flush")
  end.

Definition Flush (s : Store) (d : Disk) : Disk * result unit :=
  if bool_decide (diskPath s = EmptyString) then (d, Ok tt)
  else if negb (mkdir_ok d) then (d, Err "mkdir")
  else flush_loop (set_entries d (entries d)) (map_to_list (chunks s)).

(** One iteration of the loop of [Load]: directories, names that are not
    content identifiers and unreadable files are skipped. *)
Definition load_entry (m : gmap bytes bytes) (e : bytes * entry) : gmap bytes bytes :=
  match e with
  | (_, EDir) => m
  | (name, EFile read) =>
      match ParseContentID name with
      | Err _ => m
      | Ok id => match read with None => m | Some data => <[id := data]> m end
      end
  end.

Definition Load (s : Store) (d : Disk) : Store * result unit :=
  if bool_decide (diskPath s = EmptyString) then (s, Ok tt)
  else if negb (exists_dir d) then (s, Ok tt)
  else if negb (read_dir_ok d) then (s, Err "readdir")
  else (mkStore (fold_left load_entry (map_to_list (entries d)) (chunks s)) (diskPath s), Ok tt).

(** ** Invariants *)

(** Every chunk is stored under its digest. *)
Definition addressed (s : Store) : Prop :=
  map_Forall (fun id data => id = HashData data) (chunks s).

(** Identifiers have 32 bytes, as the Go type [ContentID] guarantees. *)
Definition ids32 (s : Store) : Prop :=
  map_Forall (fun id _ => length id = 32%nat) (chunks s).

Lemma addressed_ids32 s : addressed s -> ids32 s.
Proof. intros H id data Hd. rewrite (H id data Hd). apply length_sha256. Qed.

Lemma ParseContentID_Hex id : length id = 32%nat -> ParseContentID (ContentID_Hex id) = Ok id.
Proof.
  intros H. unfold ParseContentID, ContentID_Hex. rewrite hex_decode_encode, H. simpl.
  by rewrite copy_to_id.
Qed.

Lemma ParseContentID_ok s id : ParseContentID s = Ok id -> length id = 32%nat.
Proof. unfold ParseContentID. intros H. guards. apply length_copy_to. Qed.

Lemma Put_lookup s data s' id : Put s data = (s', id) -> chunks s' !! id = Some data.
Proof. intros [= <- <-]. apply lookup_insert_eq. Qed.

Lemma Put_addressed s data : addressed s -> addressed (Put s data).1.
Proof. intros H. by apply map_Forall_insert_2. Qed.

Lemma Delete_addressed s id : addressed s -> addressed (Store_Delete s id).
Proof. intros H. by apply map_Forall_delete. Qed.

(** Once stored under its digest, a chunk survives any later [Put] of data
    that does not collide with it. *)
Lemma Put_stable s data d id :
  (HashData d = id -> d = data) -> chunks s !! id = Some data ->
  chunks (Put s d).1 !! id = Some data.
Proof.
  intros Hc Hl. simpl. rewrite lookup_insert. case_decide as E; [|done].
  by rewrite (Hc E).
Qed.

(** ** Flush followed by Load restores the chunks *)

Lemma flush_loop_ok d l :
  (forall name, write_ok d name = true) ->
  flush_loop d l =
  (match l with [] => d | _ => set_entries d
     (fold_left (fun e kv => <[ContentID_Hex kv.1 := EFile (Some kv.2)]> e) l (entries d)) end, Ok tt).
Proof.
  revert d. induction l as [|[id data] l IH]; intros d Hw; [done|]. simpl. rewrite Hw.
  rewrite IH by done. by destruct l.
Qed.

Definition file_of (kv : bytes * bytes) : bytes * entry :=
  (ContentID_Hex kv.1, EFile (Some kv.2)).

Lemma hex_keys_NoDup (m : gmap bytes bytes) :
  NoDup ((fun kv : bytes * bytes => ContentID_Hex kv.1) <$> map_to_list m).
Proof.
  change (fun kv : bytes * bytes => ContentID_Hex kv.1) with (ContentID_Hex ∘ fst (B := bytes)).
  rewrite list_fmap_compose. apply NoDup_fmap_2; [intros ?? E; by apply hex_encode_inj|].
  apply NoDup_fst_map_to_list.
Qed.

(** Loading a list of files written by [Flush] re-inserts the chunks. *)
Lemma load_files l m :
  Forall (fun kv => length kv.1 = 32%nat) l ->
  fold_left load_entry (file_of <$> l) m = fold_insert fst snd l m.
Proof.
  unfold fold_insert. revert m. induction l as [|[id data] l IH]; intros m F; [done|].
  apply Forall_cons in F as [Hid F]. simpl in *.
  rewrite ParseContentID_Hex by done. by apply IH.
Qed.

Lemma fold_insert_map_to_list (l : list (bytes * bytes)) (m : gmap bytes bytes) :
  l ≡ₚ map_to_list m -> fold_insert fst snd l ∅ = m.
Proof.
  intros P. rewrite fold_insert_list_to_map.
  - replace ((λ a : bytes * bytes, (a.1, a.2)) <$> l) with l.
    + symmetry. apply list_to_map_flip. by symmetry.
    + rewrite <- (list_fmap_id l) at 1. apply list_fmap_ext. by intros ? [].
  - change (NoDup (l.*1)). rewrite P. apply NoDup_fst_map_to_list.
Qed.

Lemma flush_load_chunks (m : gmap bytes bytes) :
  map_Forall (fun id _ => length id = 32%nat) m ->
  fold_left load_entry
    (map_to_list (fold_insert (fun kv => ContentID_Hex kv.1) (fun kv => EFile (Some kv.2))
       (map_to_list m) ∅)) ∅ = m.
Proof.
  intros H32. rewrite fold_insert_list_to_map by apply hex_keys_NoDup.
  change (λ a : bytes * bytes, (ContentID_Hex a.1, EFile (Some a.2))) with file_of.
  assert (P : map_to_list (list_to_map (file_of <$> map_to_list m) : gmap bytes entry)
              ≡ₚ file_of <$> map_to_list m).
  { apply map_to_list_to_map. rewrite <- list_fmap_compose. apply hex_keys_NoDup. }
  apply Permutation_map_inv in P as (l & E & P).
  change (List.map file_of l) with (file_of <$> l) in E. rewrite E.
  assert (F : Forall (fun kv : bytes * bytes => length kv.1 = 32%nat) l).
  { rewrite <- P. apply map_Forall_to_list in H32. eapply Forall_impl; [exact H32|]. by intros []. }
  rewrite load_files by done. apply fold_insert_map_to_list. by symmetry.
Qed.

(** The disk after a flush into an empty directory. *)
Lemma flush_entries s d :
  diskPath s <> EmptyString -> mkdir_ok d = true -> (forall name, write_ok d name = true) ->
  entries d = ∅ ->
  Flush s d = (set_entries d (fold_insert (fun kv => ContentID_Hex kv.1)
                 (fun kv => EFile (Some kv.2)) (map_to_list (chunks s)) ∅), Ok tt).
Proof.
  intros Hp Hm Hw He. unfold Flush. rewrite bool_decide_eq_false_2 by done. rewrite Hm. simpl.
  rewrite flush_loop_ok by done. rewrite He. unfold fold_insert. by destruct (map_to_list (chunks s)).
Qed.

(** flushing a store to an empty directory and loading it into a new store
    with the same path restores every chunk; no I/O step fails. *)
Theorem flush_load_roundtrip s d :
  ids32 s -> diskPath s <> EmptyString ->
  mkdir_ok d = true -> read_dir_ok d = true -> (forall name, write_ok d name = true) ->
  entries d = ∅ ->
  exists d', Flush s d = (d', Ok tt) /\ Load (NewStore (diskPath s)) d' = (s, Ok tt).
Proof.
  intros H32 Hp Hm Hr Hw He. eexists. split; [by apply flush_entries|].
  unfold Load, set_entries. simpl. rewrite bool_decide_eq_false_2 by done. rewrite Hr. simpl.
  rewrite flush_load_chunks by done. by destruct s.
Qed.

Definition demo_disk : Disk := mkDisk false true true (fun _ => true) ∅.
Definition demo_store : Store := (Put (Put (NewStore "d") (bs "chunk one")).1 (bs "chunk two")).1.

Lemma flush_load_roundtrip_witness :
  exists d', Flush demo_store demo_disk = (d', Ok tt) /\
             Load (NewStore (diskPath demo_store)) d' = (demo_store, Ok tt).
Proof.
  apply flush_load_roundtrip;
    [|vm_compute; discriminate|reflexivity|reflexivity|intros; reflexivity|reflexivity].
  apply addressed_ids32. unfold demo_store. do 2 apply Put_addressed. apply map_Forall_empty.
Defined.
