(* ===== verification/Dag.v ===== *)
(** * The Merkle DAG of content ([src/content/dag.go])

    [Add] splits content into chunks, stores each as a leaf node and, when
    there is more than one, an internal node listing their identifiers.  [Get]
    reassembles it.  [Get] recurses along identifiers found in the store, so
    the model carries fuel: content written by [Add] needs two levels
    ([dag_add_get]), and any larger fuel gives the same result. *)

From Stdlib Require Import String.
From S2P Require Import Prelude Sha256 Store.

Definition DefaultChunkSize : Z := 256 * 1024.

Definition nodeTypeLeaf : byte := Byte.x00.
Definition nodeTypeInternal : byte := Byte.x01.

Record DAGNode := mkNode {
  node_ID : bytes;
  Children : list bytes;
  Size : Z;
  IsLeaf : bool;
}.

(** [DAGBuilder] without its pointer to the store, which the model threads. *)
Record DAGBuilder := mkBuilder { chunkSize : Z }.

Definition NewDAGBuilder (size : Z) : DAGBuilder :=
  mkBuilder (if size <=? 0 then DefaultChunkSize else size).

(** ** Node encoding *)

Definition encodeLeaf (data : bytes) : bytes := nodeTypeLeaf :: data.

Definition encodeInternal (size : Z) (children : list bytes) : bytes :=
  nodeTypeInternal :: be_bytes 8 size ++ concat (map (copy_to 32) children).

Fixpoint read_children (n : nat) (l : bytes) : list bytes :=
  match n with O => [] | S k => copy_to 32 (take 32 l) :: read_children k (drop 32 l) end.

Definition decodeNode (raw : bytes) : result (DAGNode * bytes) :=
  match raw with
  | [] => Err "empty node data"
  | t :: rest =>
      if bool_decide (t = nodeTypeLeaf) then
        Ok (mkNode zero32 [] (Z.of_nat (length rest)) true, rest)
      else if bool_decide (t = nodeTypeInternal) then
        if (length raw <? 9)%nat then Err "internal node too short"
        else
          let size := be_int (take 8 rest) in
          let childBytes := drop 8 rest in
          if negb (length childBytes mod 32 =? 0)%nat
          then Err "invalid internal node: child data not aligned"
          else Ok (mkNode zero32 (read_children (length childBytes / 32) childBytes) size false, [])
      else Err "unknown node type"
  end.

(** ** Add *)

Fixpoint add_loop (fuel cs : nat) (data : bytes) (offset : nat) (s : Store)
    (childIDs : list bytes) : Store * list bytes :=
  match fuel with
  | O => (s, childIDs)
  | S f =>
      if (offset <? length data)%nat then
        let e := (offset + cs)%nat in
        let e := if (length data <? e)%nat then length data else e in
        let chunk := take (e - offset) (drop offset data) in
        let p := Put s (encodeLeaf chunk) in
        add_loop f cs data (offset + cs) p.1 (childIDs ++ [p.2])
      else (s, childIDs)
  end.

Definition Add (b : DAGBuilder) (s : Store) (data : bytes) : Store * result bytes :=
  if (length data =? 0)%nat then (s, Err "cannot add empty content")
  else if Z.of_nat (length data) <=? chunkSize b then
    let p := Put s (encodeLeaf data) in (p.1, Ok p.2)
  else
    let l := add_loop (length data) (Z.to_nat (chunkSize b)) data 0 s [] in
    let p := Put l.1 (encodeInternal (u64 (Z.of_nat (length data))) l.2) in
    (p.1, Ok p.2).

(** ** Get *)

(** Largest allocation the Go runtime accepts on 64-bit Linux; beyond it
    [make] panics with "makeslice: cap out of range". *)
Definition max_alloc : Z := 2 ^ 48.

Fixpoint get_children (get : bytes -> outcome (result bytes)) (ids : list bytes)
    (acc : bytes) : outcome (result bytes) :=
  match ids with
  | [] => Done (Ok acc)
  | c :: t =>
      match get c with
      | Done (Ok d) => get_children get t (acc ++ d)
      | Done (Err _) => Done (Err "missing chunk")
      | Panic m => Panic m
      | NoFuel => NoFuel
      end
  end.

Fixpoint Get (fuel : nat) (s : Store) (root : bytes) : outcome (result bytes) :=
  match fuel with
  | O => NoFuel
  | S f =>
      match Store_Get s root with
      | None => Done (Err "content not found")
      | Some raw =>
          match decodeNode raw with
          | Err _ => Done (Err "decode")
          | Ok (node, data) =>
              if IsLeaf node then Done (Ok data)
              else if max_alloc <? Size node then Panic "makeslice: cap out of range"
              else get_children (Get f s) (Children node) []
          end
      end
  end.

Definition Manifest (s : Store) (id : bytes) : result DAGNode :=
  match Store_Get s id with
  | None => Err "content not found"
  | Some raw =>
      match decodeNode raw with
      | Err e => Err e
      | Ok (node, data) =>
          Ok (mkNode id (Children node)
                (if IsLeaf node then Z.of_nat (length data) else Size node) (IsLeaf node))
      end
  end.

Definition MissingChunks (s : Store) (root : bytes) : result (list bytes) :=
  match Store_Get s root with
  | None => Ok [root]
  | Some raw =>
      match decodeNode raw with
      | Err e => Err e
      | Ok (node, _) =>
          if IsLeaf node then Ok []
          else Ok (List.filter (fun c => negb (Has s c)) (Children node))
      end
  end.

(** ** Encoding round trips *)

Lemma decode_leaf data :
  decodeNode (encodeLeaf data) = Ok (mkNode zero32 [] (Z.of_nat (length data)) true, data).
Proof. done. Qed.

Lemma length_concat_32 ids :
  Forall (fun id => length id = 32%nat) ids ->
  length (concat (map (copy_to 32) ids)) = (32 * length ids)%nat.
Proof.
  induction 1 as [|id ids Hid F IH]; [done|]. simpl. rewrite length_app, length_copy_to, IH. lia.
Qed.

Lemma read_children_concat ids :
  Forall (fun id => length id = 32%nat) ids ->
  read_children (length ids) (concat (map (copy_to 32) ids)) = ids.
Proof.
  induction 1 as [|id ids Hid F IH]; [done|]. cbn [length map concat read_children].
  rewrite (copy_to_id 32 id) by done.
  rewrite take_app_length', drop_app_length' by done. by rewrite copy_to_id, IH.
Qed.

(** The decoder inverts the internal encoder on 32-byte identifiers and 64-bit sizes. *)
Lemma decode_internal size ids :
  in_u64 size -> Forall (fun id => length id = 32%nat) ids ->
  decodeNode (encodeInternal size ids) = Ok (mkNode zero32 ids size false, []).
Proof.
  intros Hs F. unfold decodeNode, encodeInternal.
  rewrite bool_decide_eq_false_2, bool_decide_eq_true_2 by done.
  cbn [length]. rewrite length_app, length_be_bytes.
  rewrite (proj2 (Nat.ltb_ge _ _)) by lia.
  rewrite take_app_length', drop_app_length' by (by rewrite length_be_bytes).
  rewrite length_concat_32 by done. rewrite (Nat.mul_comm 32), Nat.Div0.mod_mul, Nat.div_mul by lia.
  cbn [negb Nat.eqb]. rewrite read_children_concat by done. rewrite be_int_be_bytes.
  by rewrite Z.mod_small by exact Hs.
Qed.

(** ** Add then Get *)

(** The chunks of the loop of [Add]. *)
Fixpoint pieces (fuel cs : nat) (data : bytes) : list bytes :=
  match fuel, data with
  | S f, _ :: _ => take cs data :: pieces f cs (drop cs data)
  | _, _ => []
  end.

Lemma concat_pieces fuel cs data :
  (0 < cs)%nat -> (length data <= fuel)%nat -> concat (pieces fuel cs data) = data.
Proof.
  intros Hcs. revert data. induction fuel as [|f IH]; intros [|x data] Hf; simpl in *; try done; [lia|].
  destruct cs as [|cs]; [lia|]. simpl. rewrite IH; [by rewrite take_drop|].
  rewrite length_drop. lia.
Qed.

(** Storing a list of nodes is a loop of insertions at their digests. *)
Definition put_nodes (s : Store) (nodes : list bytes) : Store :=
  mkStore (fold_insert HashData id nodes (chunks s)) (diskPath s).

Lemma put_nodes_snoc s nodes n : (Put (put_nodes s nodes) n).1 = put_nodes s (nodes ++ [n]).
Proof. unfold put_nodes, fold_insert. simpl. by rewrite fold_left_app. Qed.

Lemma add_loop_spec fuel cs data offset s0 nodes acc :
  add_loop fuel cs data offset (put_nodes s0 nodes) acc =
  (put_nodes s0 (nodes ++ map encodeLeaf (pieces fuel cs (drop offset data))),
   acc ++ map (fun c => HashData (encodeLeaf c)) (pieces fuel cs (drop offset data))).
Proof.
  revert offset nodes acc. induction fuel as [|f IH]; intros offset nodes acc;
    cbn [add_loop pieces map]; [by rewrite !app_nil_r|].
  destruct (Nat.ltb_spec offset (length data)) as [Hlt|Hge].
  - destruct (drop offset data) as [|x d] eqn:E.
    { apply (f_equal length) in E. rewrite length_drop in E. simpl in E. lia. }
    rewrite put_nodes_snoc, IH. cbn [Put snd map]. rewrite <- E.
    replace (take _ (drop offset data)) with (take cs (drop offset data)).
    + rewrite drop_drop, <- !app_assoc. done.
    + destruct (Nat.ltb_spec (length data) (offset + cs)).
      * rewrite !take_ge; rewrite ?length_drop; done || lia.
      * f_equal. lia.
  - rewrite drop_ge by lia. simpl. by rewrite !app_nil_r.
Qed.

(** The nodes [Add] writes for [data]. *)
Definition dag_nodes (b : DAGBuilder) (data : bytes) : list bytes :=
  if Z.of_nat (length data) <=? chunkSize b then [encodeLeaf data]
  else
    let ps := pieces (length data) (Z.to_nat (chunkSize b)) data in
    map encodeLeaf ps ++
    [encodeInternal (u64 (Z.of_nat (length data))) (map (fun c => HashData (encodeLeaf c)) ps)].

(** The identifier [Add] returns: the digest of the last node written. *)
Definition dag_root (b : DAGBuilder) (data : bytes) : bytes :=
  HashData (List.last (dag_nodes b data) []).

Lemma Add_spec b s data : data <> [] ->
  Add b s data = (put_nodes s (dag_nodes b data), Ok (dag_root b data)).
Proof.
  intros Hd. unfold Add, dag_nodes, dag_root, dag_nodes.
  rewrite (proj2 (Nat.eqb_neq _ _)) by (by destruct data).
  destruct (Z.leb_spec (Z.of_nat (length data)) (chunkSize b)); [done|].
  pose proof (add_loop_spec (length data) (Z.to_nat (chunkSize b)) data 0 s [] []) as E.
  replace (put_nodes s []) with s in E by (by destruct s).
  rewrite E, drop_0. cbn [fst snd app].
  by rewrite put_nodes_snoc, last_last.
Qed.

Definition consistent_nodes (nodes : list bytes) : Prop :=
  forall x y, x ∈ nodes -> y ∈ nodes -> HashData x = HashData y -> x = y.

Lemma put_nodes_lookup s nodes n :
  consistent_nodes nodes -> n ∈ nodes -> chunks (put_nodes s nodes) !! HashData n = Some n.
Proof.
  intros Hc Hn. apply (fold_insert_in_consistent HashData id); [|done].
  intros b Hb E. by apply Hc.
Qed.

Lemma get_children_leaves fuel s ps acc :
  (0 < fuel)%nat ->
  (forall c, c ∈ ps -> chunks s !! HashData (encodeLeaf c) = Some (encodeLeaf c)) ->
  get_children (Get fuel s) (map (fun c => HashData (encodeLeaf c)) ps) acc =
  Done (Ok (acc ++ concat ps)).
Proof.
  intros Hf. revert acc. induction ps as [|c ps IH]; intros acc H; simpl; [by rewrite app_nil_r|].
  destruct fuel as [|f]; [lia|]. cbn [Get]. unfold Store_Get. rewrite (H c) by set_solver.
  rewrite decode_leaf. cbn [IsLeaf]. rewrite IH; [by rewrite <- app_assoc|]. set_solver.
Qed.

(** [Get] reassembles content whose nodes are all in the store. *)
Lemma Get_of_nodes fuel b s data :
  (2 <= fuel)%nat -> 0 < chunkSize b -> data <> [] -> Z.of_nat (length data) <= max_alloc ->
  (forall n, n ∈ dag_nodes b data -> chunks s !! HashData n = Some n) ->
  Get fuel s (dag_root b data) = Done (Ok data).
Proof.
  intros Hf Hcs Hd Hmax Hn. destruct fuel as [|f]; [lia|]. unfold dag_root, dag_nodes in *.
  cbn [Get]. unfold Store_Get.
  destruct (Z.leb_spec (Z.of_nat (length data)) (chunkSize b)).
  - cbn [List.last]. by rewrite Hn by set_solver.
  - rewrite last_last, Hn by set_solver. unfold max_alloc in *.
    rewrite u64_id by (unfold in_u64; lia).
    rewrite decode_internal; [|unfold in_u64; lia|].
    + cbn [IsLeaf Size Children]. unfold max_alloc.
      destruct (Z.ltb_spec (2 ^ 48) (Z.of_nat (length data))); [lia|].
      rewrite get_children_leaves; [|lia|].
      * simpl. by rewrite concat_pieces by lia.
      * intros c Hc. apply Hn. apply elem_of_app. left. by apply list_elem_of_fmap_2.
    + apply Forall_map, Forall_forall. intros c _. apply length_sha256.
Qed.

(** C1: content added to the store is read back unchanged.  [Add] succeeds on
    any non-empty content (up to Go's allocation limit) and [Get] of the returned
    identifier, at any fuel of at least two levels, returns exactly the data,
    unless two different nodes of this very content have the same SHA-256 digest. *)
Theorem dag_add_get b s data :
  0 < chunkSize b -> data <> [] -> Z.of_nat (length data) <= max_alloc ->
  consistent_nodes (dag_nodes b data) ->
  exists s' id, Add b s data = (s', Ok id) /\
    forall fuel, (2 <= fuel)%nat -> Get fuel s' id = Done (Ok data).
Proof.
  intros Hcs Hd Hmax Hc. do 2 eexists. split; [by apply Add_spec|]. intros fuel Hf.
  apply Get_of_nodes; try done. intros n Hn. by apply put_nodes_lookup.
Qed.

Lemma dag_add_get_witness :
  exists s' id, Add (NewDAGBuilder 3) (NewStore "") (bs "hello world") = (s', Ok id) /\
    forall fuel, (2 <= fuel)%nat -> Get fuel s' id = Done (Ok (bs "hello world")).
Proof.
  apply (dag_add_get (NewDAGBuilder 3) (NewStore "") (bs "hello world"));
    [reflexivity|discriminate|vm_compute; discriminate|].
  intros x y. apply NoDup_fmap_inj_on. apply (bool_decide_unpack _). vm_compute. exact I.
Defined.
