(* ===== verification/Providers.v ===== *)
(** * The provider registry ([src/content/providers.go])

    For each root, the peers that announced it, with the time of the last
    announcement.  A record counts while [now - Announced < ttl].  [time.Now]
    is an argument; times are nanoseconds. *)

From Stdlib Require Import String.
From S2P Require Import Prelude.

(** [Time.Sub] saturates at the extreme durations. *)
Definition time_Sub (a b : Z) : Z := Z.max (- 2 ^ 63) (Z.min (2 ^ 63 - 1) (a - b)).

Record ProviderRecord := mkRecord {
  pr_PeerID : string;
  pr_Root : bytes;
  pr_Size : Z;
  pr_Announced : Z;
}.

Record ProviderRegistry := mkRegistry {
  providers : gmap bytes (list ProviderRecord);
  ttl : Z;
}.

Definition NewProviderRegistry (t : Z) : ProviderRegistry := mkRegistry ∅ t.

(** [pr.providers[root]]: the nil slice when absent. *)
Definition records (pr : ProviderRegistry) (root : bytes) : list ProviderRecord :=
  default [] (providers pr !! root).

(** The loop of [Add]: refresh the first record of the peer, if any. *)
Fixpoint refresh (l : list ProviderRecord) (peer : string) (size now : Z)
    : option (list ProviderRecord) :=
  match l with
  | [] => None
  | r :: t =>
      if bool_decide (pr_PeerID r = peer)
      then Some (mkRecord (pr_PeerID r) (pr_Root r) size now :: t)
      else option_map (cons r) (refresh t peer size now)
  end.

Definition Registry_Add (pr : ProviderRegistry) (now : Z) (root : bytes) (peer : string) (size : Z)
    : ProviderRegistry :=
  match refresh (records pr root) peer size now with
  | Some l => mkRegistry (<[root := l]> (providers pr)) (ttl pr)
  | None =>
      mkRegistry (<[root := records pr root ++ [mkRecord peer root size now]]> (providers pr)) (ttl pr)
  end.

Definition live (pr : ProviderRegistry) (now : Z) (r : ProviderRecord) : bool :=
  time_Sub now (pr_Announced r) <? ttl pr.

Definition Registry_Get (pr : ProviderRegistry) (now : Z) (root : bytes) : list ProviderRecord :=
  List.filter (live pr now) (records pr root).

(** The loop of [Remove]: drop the first record of the peer, if any. *)
Fixpoint drop_first (l : list ProviderRecord) (peer : string) : option (list ProviderRecord) :=
  match l with
  | [] => None
  | r :: t =>
      if bool_decide (pr_PeerID r = peer) then Some t else option_map (cons r) (drop_first t peer)
  end.

Definition Registry_Remove (pr : ProviderRegistry) (root : bytes) (peer : string) : ProviderRegistry :=
  match drop_first (records pr root) peer with
  | Some l => mkRegistry (<[root := l]> (providers pr)) (ttl pr)
  | None => pr
  end.

(** [Prune] and [All] keep the live records of each root and forget a root
    with none left. *)
Definition live_records (pr : ProviderRegistry) (now : Z) (l : list ProviderRecord)
    : option (list ProviderRecord) :=
  match List.filter (live pr now) l with [] => None | v => Some v end.

Definition Prune (pr : ProviderRegistry) (now : Z) : ProviderRegistry :=
  mkRegistry (omap (live_records pr now) (providers pr)) (ttl pr).

Definition All (pr : ProviderRegistry) (now : Z) : gmap bytes (list ProviderRecord) :=
  omap (live_records pr now) (providers pr).

Definition Registry_Count (pr : ProviderRegistry) (now : Z) : Z := Z.of_nat (size (All pr now)).

(** ** Invariant: at most one record per root and peer, filed under its root *)

Definition wf_records (root : bytes) (l : list ProviderRecord) : Prop :=
  NoDup (pr_PeerID <$> l) /\ Forall (fun r => pr_Root r = root) l.

Definition registry_ok (pr : ProviderRegistry) : Prop := map_Forall wf_records (providers pr).

Lemma refresh_peers l peer size now l' :
  refresh l peer size now = Some l' ->
  pr_PeerID <$> l' = pr_PeerID <$> l /\ pr_Root <$> l' = pr_Root <$> l.
Proof.
  revert l'. induction l as [|r l IH]; intros l' H; simpl in *; [done|]. case_match; simplify_eq/=.
  - done.
  - destruct (refresh l peer size now); simplify_eq/=. destruct (IH _ eq_refl). split; congruence.
Qed.

Lemma refresh_None l peer size now :
  refresh l peer size now = None -> peer ∉ pr_PeerID <$> l.
Proof.
  induction l as [|r l IH]; simpl; [set_solver|]. case_match; [done|]. intros Hr.
  bool_to_prop. destruct (refresh l peer size now); [done|]. rewrite not_elem_of_cons. naive_solver.
Qed.

Lemma refresh_In l peer size now l' :
  refresh l peer size now = Some l' ->
  exists r, r ∈ l' /\ pr_PeerID r = peer /\ pr_Size r = size /\ pr_Announced r = now.
Proof.
  revert l'. induction l as [|r l IH]; intros l' H; simpl in *; [done|]. case_match; simplify_eq/=.
  - bool_to_prop. eexists. split; [by left|]. done.
  - destruct (refresh l peer size now); simplify_eq/=. destruct (IH _ eq_refl) as (x & ? & ?).
    exists x. split; [by right|done].
Qed.

Lemma Forall_fmap_root root l : Forall (fun r => pr_Root r = root) l <-> Forall (eq root) (pr_Root <$> l).
Proof. rewrite Forall_fmap. split; apply Forall_impl || (intros; eapply Forall_impl; eauto); naive_solver. Qed.

Lemma records_ok pr root : registry_ok pr -> wf_records root (records pr root).
Proof.
  intros H. unfold records. destruct (providers pr !! root) as [l|] eqn:E; simpl; [by apply H|].
  split; constructor.
Qed.

Lemma Registry_Add_ok pr now root peer size :
  registry_ok pr -> registry_ok (Registry_Add pr now root peer size).
Proof.
  intros H. destruct (records_ok pr root H) as [Hn Hr]. unfold Registry_Add.
  destruct (refresh _ _ _ _) as [l|] eqn:E; apply map_Forall_insert_2; try done.
  - apply refresh_peers in E as [E1 E2]. split; [by rewrite E1|].
    by rewrite Forall_fmap_root, E2, <- Forall_fmap_root.
  - apply refresh_None in E. split.
    + rewrite fmap_app. apply NoDup_app. split_and!; [done| |apply NoDup_singleton]. set_solver.
    + apply Forall_app. split; [done|]. by repeat constructor.
Qed.

Lemma drop_first_sublist l peer l' : drop_first l peer = Some l' -> l' `sublist_of` l.
Proof.
  revert l'. induction l as [|r l IH]; intros l' H; simpl in *; [done|]. case_match; simplify_eq/=.
  - by apply sublist_cons.
  - destruct (drop_first l peer); simplify_eq/=. by apply sublist_skip, IH.
Qed.

Lemma wf_sublist root l l' : wf_records root l -> l' `sublist_of` l -> wf_records root l'.
Proof.
  intros [Hn Hr] S. split.
  - eapply sublist_NoDup; [exact Hn|by apply fmap_sublist].
  - rewrite Forall_forall in *. intros x Hx. apply Hr. by eapply elem_of_sublist.
Qed.

Lemma live_records_sublist pr now l l' : live_records pr now l = Some l' -> l' `sublist_of` l.
Proof.
  unfold live_records. destruct (List.filter _ l) eqn:E; intros; simplify_eq.
  rewrite <- E. apply filter_sublist.
Qed.

Lemma All_ok pr now : registry_ok pr -> map_Forall wf_records (All pr now).
Proof.
  intros H root l Hl. unfold All in Hl. rewrite lookup_omap in Hl.
  destruct (providers pr !! root) as [l0|] eqn:E; [|done]. simpl in Hl.
  eapply wf_sublist; [by apply H|]. by eapply live_records_sublist.
Qed.

Lemma Registry_Remove_ok pr root peer : registry_ok pr -> registry_ok (Registry_Remove pr root peer).
Proof.
  intros H. unfold Registry_Remove. destruct (drop_first _ _) eqn:E; [|done].
  apply map_Forall_insert_2; [|done]. eapply wf_sublist; [by apply records_ok|].
  by eapply drop_first_sublist.
Qed.

(** ** The registry's life: any sequence of announcements, removals and prunes *)

Inductive reg_op :=
| OpAdd (now : Z) (root : bytes) (peer : string) (size : Z)
| OpRemove (root : bytes) (peer : string)
| OpPrune (now : Z).

Definition reg_step (pr : ProviderRegistry) (o : reg_op) : ProviderRegistry :=
  match o with
  | OpAdd now root peer size => Registry_Add pr now root peer size
  | OpRemove root peer => Registry_Remove pr root peer
  | OpPrune now => Prune pr now
  end.

Lemma reg_step_ok pr o : registry_ok pr -> registry_ok (reg_step pr o).
Proof.
  destruct o; simpl; intros; [by apply Registry_Add_ok|by apply Registry_Remove_ok|by apply All_ok].
Qed.

(** from a new registry, whatever announcements, removals and prunes
    arrive, no root ever lists a peer twice and every record is filed under its
    own root. *)
Theorem registry_one_record_per_peer t ops :
  registry_ok (fold_left reg_step ops (NewProviderRegistry t)).
Proof.
  assert (H : registry_ok (NewProviderRegistry t)) by apply map_Forall_empty.
  revert H. generalize (NewProviderRegistry t). induction ops as [|o ops IH]; intros pr H; [done|].
  apply IH. by apply reg_step_ok.
Qed.

(** ** Pruning is invisible to later reads *)

Lemma live_mono pr now now' r : now <= now' -> live pr now' r = true -> live pr now r = true.
Proof. unfold live, time_Sub. intros H L. bool_to_prop. apply Z.ltb_lt. lia. Qed.

Lemma filter_filter_mono {A} (f g : A -> bool) l :
  (forall x, g x = true -> f x = true) -> List.filter g (List.filter f l) = List.filter g l.
Proof.
  intros H. induction l as [|x l IH]; [done|]. simpl. destruct (f x) eqn:Ef; simpl.
  - destruct (g x); by rewrite IH.
  - destruct (g x) eqn:Eg; [|done]. by rewrite (H x Eg) in Ef.
Qed.

Lemma records_Prune pr now root :
  records (Prune pr now) root = List.filter (live pr now) (records pr root).
Proof.
  unfold records, Prune. simpl. rewrite lookup_omap.
  destruct (providers pr !! root) as [l|]; [|done]. simpl. unfold live_records.
  by destruct (List.filter _ l).
Qed.

(** pruning never hides a provider that is still live: a read at any later
    time returns the same records with and without the prune. *)
Theorem prune_transparent pr now now' root :
  now <= now' -> Registry_Get (Prune pr now) now' root = Registry_Get pr now' root.
Proof.
  intros H. unfold Registry_Get at 1. rewrite records_Prune.
  change (live (Prune pr now) now') with (live pr now').
  apply filter_filter_mono. intros r. by apply live_mono.
Qed.

Lemma prune_transparent_witness :
  let pr := Registry_Add (Registry_Add (NewProviderRegistry 50) 0 zero32 "a" 1) 40 zero32 "b" 2 in
  Registry_Get (Prune pr 60) 70 zero32 = Registry_Get pr 70 zero32 /\
  Registry_Get pr 70 zero32 = [mkRecord "b" zero32 2 40].
Proof. intros pr. split; [apply (prune_transparent pr 60 70); lia|reflexivity]. Defined.

(** An announced peer is listed, with the announced size, until its record expires. *)
Lemma Add_then_Get pr now now' root peer size :
  time_Sub now' now < ttl pr ->
  exists r, r ∈ Registry_Get (Registry_Add pr now root peer size) now' root /\
            pr_PeerID r = peer /\ pr_Size r = size.
Proof.
  intros H. unfold Registry_Add.
  destruct (refresh _ _ _ _) as [l|] eqn:E; unfold Registry_Get, records; simpl;
    rewrite lookup_insert_eq; simpl.
  - apply refresh_In in E as (r & Hr & E1 & E2 & E3). exists r. split; [|done].
    apply list_elem_of_In, filter_In. split; [by apply list_elem_of_In|].
    unfold live. simpl. apply Z.ltb_lt. by rewrite E3.
  - eexists (mkRecord peer root size now). split; [|done].
    apply list_elem_of_In, filter_In. split.
    + apply in_or_app. right. by left.
    + unfold live. simpl. by apply Z.ltb_lt.
Qed.
