(* ===== verification/Protocol.v ===== *)
(** * The content protocol ([src/content/protocol.go])

    Peers exchange chunks over one-shot streams and announce roots over
    gossip.  The peer-to-peer network is not part of the repository: it is a
    function from a peer and the bytes of a request to the bytes of the
    response stream, or an error when no stream can be opened.  The stream
    handler is a function of the store and of the bytes received. *)

From Stdlib Require Import String.
From S2P Require Import Prelude Sha256 Store Dag Providers.

Definition maxWireChunkSize : Z := 4 * 1024 * 1024.

Definition MsgChunkRequest : byte := Byte.x01.
Definition MsgChunkResponse : byte := Byte.x02.
Definition MsgNotFound : byte := Byte.x03.

(** [io.ReadFull] of [n] bytes. *)
Definition ReadFull (n : nat) (stream : bytes) : option (bytes * bytes) :=
  if (length stream <? n)%nat then None else Some (take n stream, drop n stream).

(** ** Announcements *)

Record ContentAnnounce := mkAnnounce { ca_Root : bytes; ca_Size : Z; ca_PeerID : string }.

Definition announce_encode (ca : ContentAnnounce) : bytes :=
  copy_to 32 (ca_Root ca) ++ be_bytes 8 (ca_Size ca).

Definition decodeContentAnnounce (data : bytes) : result ContentAnnounce :=
  if (length data <? 40)%nat then Err "announce too short"
  else Ok (mkAnnounce (copy_to 32 (take 32 data)) (be_int (take 8 (drop 32 data))) EmptyString).

(** [topic] is [None] for the nil topic, else what publishing on it returns. *)
Definition Announce (topic : option (bytes -> result unit)) (root : bytes) (size : Z) : result unit :=
  match topic with
  | None => Err "not connected to gossip"
  | Some publish => publish (announce_encode (mkAnnounce root size EmptyString))
  end.

(** One message of [listenAnnouncements]: our own and malformed messages are
    ignored, the sender becomes a provider of the announced root. *)
Definition listen_step (host : option string) (pr : ProviderRegistry) (now : Z)
    (from : string) (data : bytes) : ProviderRegistry :=
  if match host with Some me => bool_decide (from = me) | None => false end then pr
  else match decodeContentAnnounce data with
       | Err _ => pr
       | Ok ann => Registry_Add pr now (ca_Root ann) from (ca_Size ann)
       end.

(** ** Streams *)

(** [handleStream]: what is written back on a stream whose bytes are [stream]. *)
Definition handleStream (s : Store) (stream : bytes) : bytes :=
  match ReadFull 1 stream with
  | None => []
  | Some (msgType, rest) =>
      if negb (bytes_eqb msgType [MsgChunkRequest]) then []
      else match ReadFull 32 rest with
           | None => []
           | Some (id, _) =>
               match Store_Get s id with
               | None => [MsgNotFound]
               | Some data =>
                   MsgChunkResponse :: id ++ be_bytes 4 (Z.of_nat (length data)) ++ data
               end
           end
  end.

(** The network; a failure to write the request is reported as one to open the
    stream. *)
Definition Network := string -> bytes -> result bytes.

Definition RequestChunk (host : option string) (net : Network) (peer : string) (id : bytes)
    : result bytes :=
  match host with
  | None => Err "no libp2p host"
  | Some _ =>
      let req := MsgChunkRequest :: copy_to 32 id in
      match net peer req with
      | Err _ => Err "open stream"
      | Ok resp =>
          match ReadFull 1 resp with
          | None => Err "read response type"
          | Some (msgType, rest) =>
              if bytes_eqb msgType [MsgNotFound] then Err "chunk not found on peer"
              else if negb (bytes_eqb msgType [MsgChunkResponse]) then Err "unexpected response type"
              else match ReadFull 36 rest with
                   | None => Err "read response header"
                   | Some (header, rest) =>
                       let dataLen := be_int (drop 32 header) in
                       if maxWireChunkSize <? dataLen then Err "chunk too large"
                       else match ReadFull (Z.to_nat dataLen) rest with
                            | None => Err "read chunk data"
                            | Some (data, _) => Ok data
                            end
                   end
          end
      end
  end.

(** ** FetchContent *)

(** The loop over providers: the first one that answers. *)
Fixpoint first_chunk (host : option string) (net : Network) (ps : list ProviderRecord) (id : bytes)
    : option bytes :=
  match ps with
  | [] => None
  | p :: t =>
      match RequestChunk host net (pr_PeerID p) id with
      | Ok data => Some data
      | Err _ => first_chunk host net t id
      end
  end.

Fixpoint fetch_missing (host : option string) (net : Network) (ps : list ProviderRecord)
    (s : Store) (missing : list bytes) : Store * bool :=
  match missing with
  | [] => (s, true)
  | c :: t =>
      match first_chunk host net ps c with
      | None => (s, false)
      | Some data => fetch_missing host net ps (PutWithID s c data) t
      end
  end.

Definition fetch_root (host : option string) (net : Network) (ps : list ProviderRecord)
    (s : Store) (root : bytes) : Store :=
  if Has s root then s
  else match first_chunk host net ps root with
       | Some data => PutWithID s root data
       | None => s
       end.

Definition FetchContent (fuel : nat) (host : option string) (net : Network)
    (pr : ProviderRegistry) (now : Z) (s : Store) (root : bytes)
    : Store * outcome (result bytes) :=
  match Get fuel s root with
  | Panic m => (s, Panic m)
  | NoFuel => (s, NoFuel)
  | Done (Ok data) => (s, Done (Ok data))
  | Done (Err _) =>
      let ps := Registry_Get pr now root in
      if (length ps =? 0)%nat then (s, Done (Err "no providers"))
      else
        let s1 := fetch_root host net ps s root in
        match MissingChunks s1 root with
        | Err _ => (s1, Done (Err "cannot determine missing chunks"))
        | Ok missing =>
            let r := fetch_missing host net ps s1 missing in
            if r.2 then (r.1, Get fuel r.1 root)
            else (r.1, Done (Err "could not fetch chunk from any provider"))
        end
  end.

(** ** Announcement round trip *)

Lemma announce_roundtrip root size peer :
  length root = 32%nat -> in_u64 size ->
  decodeContentAnnounce (announce_encode (mkAnnounce root size peer)) =
  Ok (mkAnnounce root size EmptyString).
Proof.
  intros Hr Hs. unfold decodeContentAnnounce, announce_encode. cbn [ca_Root ca_Size].
  rewrite (copy_to_id 32 root) by done.
  rewrite length_app, length_be_bytes, Hr. cbn [Nat.add Nat.ltb Nat.leb].
  rewrite take_app_length', drop_app_length' by done.
  rewrite take_ge by (rewrite length_be_bytes; lia).
  rewrite copy_to_id, be_int_be_bytes by done. by rewrite Z.mod_small by exact Hs.
Qed.

(** ** An honest peer answers with the chunk it stores *)

Definition honest (net : Network) (r : Store) (peer : string) : Prop :=
  forall req, net peer req = Ok (handleStream r req).

Definition failing (net : Network) (peer : string) : Prop :=
  forall req, exists e, net peer req = Err e.

Lemma ReadFull_app n a b : length a = n -> ReadFull n (a ++ b) = Some (a, b).
Proof.
  intros <-. unfold ReadFull. rewrite length_app, (proj2 (Nat.ltb_ge _ _)) by lia.
  by rewrite take_app_length, drop_app_length.
Qed.

Lemma handleStream_hit r id data :
  length id = 32%nat -> chunks r !! id = Some data ->
  handleStream r (MsgChunkRequest :: id) =
  MsgChunkResponse :: id ++ be_bytes 4 (Z.of_nat (length data)) ++ data.
Proof.
  intros Hid Hl. unfold handleStream.
  change (MsgChunkRequest :: id) with ([MsgChunkRequest] ++ id).
  rewrite (ReadFull_app 1) by done.
  rewrite bytes_eqb_refl. cbn [negb].
  pose proof (ReadFull_app 32 id [] Hid) as E. rewrite app_nil_r in E. rewrite E.
  unfold Store_Get. by rewrite Hl.
Qed.

Lemma RequestChunk_honest me net r peer id data :
  honest net r peer -> length id = 32%nat -> chunks r !! id = Some data ->
  Z.of_nat (length data) <= maxWireChunkSize ->
  RequestChunk (Some me) net peer id = Ok data.
Proof.
  intros Hh Hid Hl Hsz. unfold RequestChunk. rewrite copy_to_id by done.
  rewrite Hh, (handleStream_hit r id data) by done.
  change (MsgChunkResponse :: id ++ be_bytes 4 (Z.of_nat (length data)) ++ data)
    with ([MsgChunkResponse] ++ id ++ be_bytes 4 (Z.of_nat (length data)) ++ data).
  rewrite ReadFull_app by done. rewrite bytes_eqb_refl. cbn [negb].
  rewrite (proj2 (bytes_eqb_false _ _)) by done.
  rewrite app_assoc, ReadFull_app by (rewrite length_app, length_be_bytes; lia).
  rewrite drop_app_length' by done. rewrite be_int_be_bytes.
  unfold maxWireChunkSize in *. rewrite Z.mod_small by lia.
  rewrite (proj2 (Z.ltb_ge _ _)) by done. rewrite Nat2Z.id.
  pose proof (ReadFull_app (length data) data [] eq_refl) as E. by rewrite app_nil_r in E; rewrite E.
Qed.

Lemma RequestChunk_failing host net peer id :
  failing net peer -> exists e, RequestChunk host net peer id = Err e.
Proof.
  intros Hf. unfold RequestChunk. destruct host; [|by eexists].
  destruct (Hf (MsgChunkRequest :: copy_to 32 id)) as [e ->]. by eexists.
Qed.

(** ** Fetching content from honest providers *)

Section fetch.
Context (me : string) (net : Network) (ps : list ProviderRecord) (r : Store).
Context (nodes : list bytes).

(** The providers either hold the content or do not answer; one holds it. *)
Definition providers_honest : Prop :=
  Forall (fun p => honest net r (pr_PeerID p) \/ failing net (pr_PeerID p)) ps /\
  Exists (fun p => honest net r (pr_PeerID p)) ps.

Definition servable : Prop :=
  forall n, n ∈ nodes -> chunks r !! HashData n = Some n /\ Z.of_nat (length n) <= maxWireChunkSize.

Hypothesis Hps : providers_honest.
Hypothesis Hserv : servable.

Lemma first_chunk_node n : n ∈ nodes -> first_chunk (Some me) net ps (HashData n) = Some n.
Proof.
  intros Hn. destruct (Hserv n Hn) as [Hl Hsz]. destruct Hps as [F E]. clear Hps.
  induction F as [|p ps' Hp F IH]; [by apply Exists_nil in E|]. cbn [first_chunk].
  destruct Hp as [Hp|Hp].
  - by rewrite (RequestChunk_honest me net r _ _ n) by (done || apply length_sha256).
  - destruct (RequestChunk_failing (Some me) net (pr_PeerID p) (HashData n) Hp) as [e He].
    rewrite He. apply IH. apply Exists_cons in E as [E|E]; [|done].
    destruct (Hp []) as [e' He']. by rewrite E in He'.
Qed.

(** The local store holds nothing wrong under the identifiers of the content. *)
Definition no_conflict (s : Store) : Prop :=
  forall n, n ∈ nodes -> chunks s !! HashData n = None \/ chunks s !! HashData n = Some n.

Hypothesis Hcons : consistent_nodes nodes.

Lemma no_conflict_put s n : n ∈ nodes -> no_conflict s -> no_conflict (PutWithID s (HashData n) n).
Proof.
  intros Hn Hs m Hm. simpl. rewrite lookup_insert. case_decide as E; [|by apply Hs].
  right. f_equal. by apply Hcons.
Qed.

(** Fetching a list of missing nodes stores each of them and keeps the others. *)
Lemma fetch_missing_nodes s l :
  l ⊆ nodes -> no_conflict s ->
  exists s', fetch_missing (Some me) net ps s (map HashData l) = (s', true) /\ no_conflict s' /\
    (forall n, n ∈ nodes -> chunks s !! HashData n = Some n \/ n ∈ l -> chunks s' !! HashData n = Some n).
Proof.
  revert s. induction l as [|n l IH]; intros s Hl Hs; cbn [map fetch_missing].
  - exists s. split_and!; try done. intros m Hm [?|?]; [done|set_solver].
  - rewrite first_chunk_node by (apply Hl, elem_of_cons; by left).
    destruct (IH (PutWithID s (HashData n) n)) as (s' & E & Hs' & Hall);
      [set_solver|apply no_conflict_put; [apply Hl, elem_of_cons; by left|done]|].
    exists s'. split_and!; try done. intros m Hm Hcase. apply Hall; [done|].
    simpl. rewrite lookup_insert. case_decide as Ek.
    + left. f_equal. apply Hcons; [apply Hl, elem_of_cons; by left|exact Hm|exact Ek].
    + destruct Hcase as [?|Hin]; [by left|]. right.
      apply elem_of_cons in Hin as [->|?]; done.
Qed.
End fetch.

(** What [Get] can return on a store that holds part of the content. *)
Lemma get_children_partial fuel s ps acc :
  (0 < fuel)%nat ->
  (forall c, c ∈ ps -> chunks s !! HashData (encodeLeaf c) = None \/
                       chunks s !! HashData (encodeLeaf c) = Some (encodeLeaf c)) ->
  let r := get_children (Get fuel s) (map (fun c => HashData (encodeLeaf c)) ps) acc in
  (r = Done (Ok (acc ++ concat ps)) /\
   forall c, c ∈ ps -> chunks s !! HashData (encodeLeaf c) = Some (encodeLeaf c)) \/
  exists e, r = Done (Err e).
Proof.
  intros Hf. revert acc. induction ps as [|c ps IH]; intros acc H; cbn [map get_children concat].
  - left. rewrite app_nil_r. split; [done|]. by intros c ?%elem_of_nil.
  - destruct fuel as [|f]; [lia|]. cbn [Get]. unfold Store_Get.
    destruct (H c) as [->|Hc]; [apply elem_of_cons; by left|right; by eexists|].
    rewrite Hc, decode_leaf. cbn [IsLeaf]. rewrite app_assoc.
    destruct (IH (acc ++ c)) as [[E Hall]|E]; [intros; apply H, elem_of_cons; by right| |by right].
    left. split; [exact E|]. intros x [->|Hx]%elem_of_cons; [exact Hc|by apply Hall].
Qed.

Section fetch_dag.
Context (b : DAGBuilder) (data : bytes).
Hypothesis Hcs : 0 < chunkSize b.
Hypothesis Hmax : Z.of_nat (length data) <= max_alloc.

Lemma root_in_nodes : List.last (dag_nodes b data) [] ∈ dag_nodes b data.
Proof.
  unfold dag_nodes. case_match; [by apply list_elem_of_singleton|].
  rewrite last_last. apply elem_of_app. right. by apply list_elem_of_singleton.
Qed.

Lemma Get_partial fuel s :
  (2 <= fuel)%nat -> no_conflict (dag_nodes b data) s ->
  (Get fuel s (dag_root b data) = Done (Ok data) /\
   forall n, n ∈ dag_nodes b data -> chunks s !! HashData n = Some n) \/
  exists e, Get fuel s (dag_root b data) = Done (Err e).
Proof.
  intros Hf Hs. pose proof (Hs _ root_in_nodes) as Hroot. fold (dag_root b data) in Hroot.
  destruct fuel as [|f]; [lia|]. cbn [Get]. unfold Store_Get.
  destruct Hroot as [->|Hr]; [right; by eexists|]. rewrite Hr.
  assert (Hr' : chunks s !! HashData (List.last (dag_nodes b data) []) =
                Some (List.last (dag_nodes b data) [])) by exact Hr.
  unfold dag_nodes in *. destruct (Z.leb_spec (Z.of_nat (length data)) (chunkSize b)).
  { left. split; [done|]. by intros n ->%list_elem_of_singleton. }
  rewrite last_last in *. unfold max_alloc in *.
  rewrite u64_id in * by (unfold in_u64; lia).
  rewrite decode_internal; [|unfold in_u64; lia|apply Forall_map, Forall_forall; intros; apply length_sha256].
  cbn [IsLeaf Size Children]. unfold max_alloc.
  destruct (Z.ltb_spec (2 ^ 48) (Z.of_nat (length data))); [lia|].
  destruct (get_children_partial f s (pieces (length data) (Z.to_nat (chunkSize b)) data) [])
    as [[E Hall]|E]; [lia|..].
  - intros c Hc. apply Hs. apply elem_of_app. left. by apply list_elem_of_fmap_2.
  - left. rewrite E. split; [simpl; by rewrite concat_pieces by lia|].
    intros n [(c & -> & Hin)%list_elem_of_fmap| ->%list_elem_of_singleton]%elem_of_app; [by apply Hall|exact Hr'].
  - by right.
Qed.

(** The nodes [MissingChunks] asks for once the root node is present. *)
Lemma MissingChunks_nodes s :
  chunks s !! dag_root b data = Some (List.last (dag_nodes b data) []) ->
  no_conflict (dag_nodes b data) s ->
  exists l, l ⊆ dag_nodes b data /\ MissingChunks s (dag_root b data) = Ok (map HashData l) /\
    forall n, n ∈ dag_nodes b data -> chunks s !! HashData n = Some n \/ n ∈ l.
Proof.
  intros Hr Hs. unfold MissingChunks, Store_Get. rewrite Hr.
  assert (Hroot : chunks s !! HashData (List.last (dag_nodes b data) []) =
                  Some (List.last (dag_nodes b data) [])) by done.
  unfold dag_nodes in *. unfold max_alloc in *.
  destruct (Z.leb_spec (Z.of_nat (length data)) (chunkSize b)).
  - exists []. split_and!; [set_solver|done|]. intros n ->%list_elem_of_singleton. by left.
  - rewrite last_last in *. rewrite u64_id in * by (unfold in_u64; lia).
    rewrite decode_internal; [|unfold in_u64; lia|apply Forall_map, Forall_forall; intros; apply length_sha256].
    cbn [IsLeaf Children].
    set (ps := pieces _ _ _) in *.
    exists (List.filter (fun n => negb (Has s (HashData n))) (map encodeLeaf ps)). split_and!.
    + intros n Hn. apply list_elem_of_In, filter_In in Hn as [Hn _].
      apply elem_of_app. left. by apply list_elem_of_In.
    + f_equal. clear Hs Hr Hroot. induction ps as [|c ps IH]; [done|]. simpl.
      destruct (Has s (HashData (encodeLeaf c))); simpl; by rewrite IH.
    + intros n Hn. destruct (Hs n Hn) as [Hnone|]; [|by left].
      apply elem_of_app in Hn as [Hn|Hn%list_elem_of_singleton].
      * right. apply list_elem_of_In, filter_In. split; [by apply list_elem_of_In|].
        unfold Has. rewrite Hnone. rewrite bool_decide_eq_false_2; [done|]. by intros [].
      * left. by rewrite Hn.
Qed.
End fetch_dag.

Lemma Has_false s id : Has s id = false <-> chunks s !! id = None.
Proof.
  unfold Has. rewrite bool_decide_eq_false, <- eq_None_not_Some. done.
Qed.

Lemma Has_true s id : Has s id = true <-> is_Some (chunks s !! id).
Proof. unfold Has. by rewrite bool_decide_eq_true. Qed.

Lemma fetch_root_node me net ps r nodes s n :
  providers_honest net ps r -> servable r nodes -> consistent_nodes nodes ->
  n ∈ nodes -> no_conflict nodes s ->
  let s1 := fetch_root (Some me) net ps s (HashData n) in
  chunks s1 !! HashData n = Some n /\ no_conflict nodes s1.
Proof.
  intros Hp Hserv Hc Hn Hs. unfold fetch_root. destruct (Has s (HashData n)) eqn:E.
  - apply Has_true in E as [x Hx]. destruct (Hs n Hn) as [H|H]; [congruence|done].
  - erewrite first_chunk_node by done. split; [apply lookup_insert_eq|by apply no_conflict_put].
Qed.

(** C2: end to end, content that a provider stores is fetched exactly.  When
    every listed provider of the root either serves the publisher's store or does
    not answer, at least one serves it, and the local store holds nothing wrong
    under the content's identifiers, [FetchContent] returns the published data and
    leaves all its nodes in the local store.  The content is not empty and was split
    with a positive chunk size into nodes that fit the 4 MiB wire limit and do not
    collide among themselves. *)
Theorem fetch_honest fuel me net pr now s r b data :
  (2 <= fuel)%nat -> 0 < chunkSize b -> data <> [] -> Z.of_nat (length data) <= max_alloc ->
  consistent_nodes (dag_nodes b data) ->
  providers_honest net (Registry_Get pr now (dag_root b data)) r ->
  servable r (dag_nodes b data) ->
  no_conflict (dag_nodes b data) s ->
  exists s', FetchContent fuel (Some me) net pr now s (dag_root b data) = (s', Done (Ok data)) /\
    forall n, n ∈ dag_nodes b data -> Store_Get s' (HashData n) = Some n.
Proof.
  intros Hf Hcs Hd Hmax Hc Hp Hserv Hs. unfold FetchContent.
  destruct (Get_partial b data Hcs Hmax fuel s Hf Hs) as [[-> Hin]|[e ->]]; [by eexists|].
  set (ps := Registry_Get pr now (dag_root b data)) in *.
  assert (Hne : (length ps =? 0)%nat = false).
  { destruct Hp as [_ He]. destruct ps; [by apply Exists_nil in He|done]. }
  rewrite Hne.
  destruct (fetch_root_node me net ps r _ s _ Hp Hserv Hc (root_in_nodes b data) Hs) as [Hr Hs1].
  fold (dag_root b data) in *.
  set (s1 := fetch_root (Some me) net ps s (dag_root b data)) in *.
  destruct (MissingChunks_nodes b data Hcs Hmax s1 Hr Hs1) as (l & Hl & -> & Hcov).
  destruct (fetch_missing_nodes me net ps r _ Hp Hserv Hc s1 l Hl Hs1) as (s2 & -> & Hs2 & Hall).
  assert (Hin : forall n, n ∈ dag_nodes b data -> chunks s2 !! HashData n = Some n).
  { intros n Hn. apply Hall; [done|]. by apply Hcov. }
  cbn [fst snd]. exists s2. split; [f_equal; by apply Get_of_nodes|exact Hin].
Qed.

(** ** What the protocol does not check

    [RequestChunk] returns whatever bytes the peer sent and [FetchContent]
    files them under the requested identifier without hashing them. *)

(** The wire form of a response carrying [node], whatever was asked. *)
Definition answer (id node : bytes) : bytes :=
  MsgChunkResponse :: copy_to 32 id ++ be_bytes 4 (Z.of_nat (length node)) ++ node.

Lemma RequestChunk_answer me net peer id node :
  net peer (MsgChunkRequest :: copy_to 32 id) = Ok (answer id node) ->
  Z.of_nat (length node) <= maxWireChunkSize ->
  RequestChunk (Some me) net peer id = Ok node.
Proof.
  intros Hn Hsz.
  set (r := PutWithID (NewStore "") (copy_to 32 id) node).
  rewrite <- (RequestChunk_honest me (fun _ req => Ok (handleStream r req)) r peer (copy_to 32 id) node);
    [|done|apply length_copy_to|apply lookup_insert_eq|done].
  unfold RequestChunk. rewrite (copy_to_id 32 (copy_to 32 id)) by apply length_copy_to.
  rewrite Hn, (handleStream_hit r (copy_to 32 id) node); [done|apply length_copy_to|apply lookup_insert_eq].
Qed.

(** a provider can substitute any content for any root.  For every root that
    is not in the local store and every payload, a first provider that answers the
    request for the root with a leaf holding the payload makes [FetchContent]
    return the payload as the content of the root, and stores it under that root. *)
Theorem fetch_poisoned fuel me net pr now s root payload p rest :
  (0 < fuel)%nat -> chunks s !! root = None ->
  Registry_Get pr now root = p :: rest ->
  net (pr_PeerID p) (MsgChunkRequest :: copy_to 32 root) = Ok (answer root (encodeLeaf payload)) ->
  Z.of_nat (length (encodeLeaf payload)) <= maxWireChunkSize ->
  FetchContent fuel (Some me) net pr now s root =
  (PutWithID s root (encodeLeaf payload), Done (Ok payload)).
Proof.
  intros Hf Hnone Hps Hnet Hsz. destruct fuel as [|f]; [lia|]. unfold FetchContent. cbn [Get].
  unfold Store_Get at 1. rewrite Hnone, Hps. cbn [length Nat.eqb].
  unfold fetch_root. rewrite (proj2 (Has_false _ _)) by done. cbn [first_chunk].
  rewrite (RequestChunk_answer me net _ root (encodeLeaf payload)) by done.
  unfold MissingChunks, Store_Get, PutWithID. cbn [chunks]. rewrite lookup_insert_eq, decode_leaf.
  cbn [IsLeaf fetch_missing fst snd chunks]. by rewrite lookup_insert_eq, decode_leaf.
Qed.

Definition demo_registry : ProviderRegistry :=
  Registry_Add (NewProviderRegistry 1000) 0 (HashData (bs "genuine")) "mallory" 7.

Lemma fetch_poisoned_witness :
  let root := HashData (bs "genuine") in
  let net : Network := fun _ _ => Ok (answer root (encodeLeaf (bs "forged"))) in
  (FetchContent 1 (Some "me"%string) net demo_registry 10 (NewStore "") root).2 = Done (Ok (bs "forged")) /\
  HashData (encodeLeaf (bs "forged")) <> root.
Proof.
  intros root net. split.
  - rewrite (fetch_poisoned 1 "me" net demo_registry 10 (NewStore "") root (bs "forged")
               (mkRecord "mallory" root 7 0) []); [reflexivity|lia|reflexivity| |reflexivity|].
    + vm_compute. reflexivity.
    + vm_compute. discriminate.
  - vm_compute. discriminate.
Defined.

(** one response from a provider crashes the node.  An internal node whose
    size field exceeds Go's allocation limit passes every check of [RequestChunk]
    and [MissingChunks]; reassembling it makes [Get] panic. *)
Theorem fetch_size_panic fuel me net pr now s root size p rest :
  (0 < fuel)%nat -> chunks s !! root = None -> max_alloc < size < 2 ^ 64 ->
  Registry_Get pr now root = p :: rest ->
  net (pr_PeerID p) (MsgChunkRequest :: copy_to 32 root) = Ok (answer root (encodeInternal size [])) ->
  (FetchContent fuel (Some me) net pr now s root).2 = Panic "makeslice: cap out of range".
Proof.
  intros Hf Hnone Hsize Hps Hnet. destruct fuel as [|f]; [lia|]. unfold FetchContent. cbn [Get].
  unfold Store_Get at 1. rewrite Hnone, Hps. cbn [length Nat.eqb].
  unfold fetch_root. rewrite (proj2 (Has_false _ _)) by done. cbn [first_chunk].
  rewrite (RequestChunk_answer me net _ root (encodeInternal size [])) by done.
  unfold MissingChunks, Store_Get, PutWithID. cbn [chunks]. rewrite lookup_insert_eq.
  unfold max_alloc in *. rewrite decode_internal; [|unfold in_u64; lia|constructor].
  cbn [IsLeaf Children List.filter fetch_missing fst snd chunks]. rewrite lookup_insert_eq.
  rewrite decode_internal; [|unfold in_u64; lia|constructor]. cbn [IsLeaf Size]. unfold max_alloc.
  by rewrite (proj2 (Z.ltb_lt _ _)) by lia.
Qed.

Lemma fetch_size_panic_witness :
  let root := HashData (bs "genuine") in
  let net : Network := fun _ _ => Ok (answer root (encodeInternal (2 ^ 63) [])) in
  (FetchContent 1 (Some "me"%string) net demo_registry 10 (NewStore "") root).2 =
  Panic "makeslice: cap out of range".
Proof.
  intros root net.
  apply (fetch_size_panic 1 "me" net demo_registry 10 (NewStore "") root (2 ^ 63)
           (mkRecord "mallory" root 7 0) []);
    [lia|reflexivity|unfold max_alloc; lia|vm_compute; reflexivity|reflexivity].
Defined.

(** A publisher, a fetching node and two providers, one of which is down. *)
Definition demo_builder : DAGBuilder := NewDAGBuilder 4.
Definition demo_content : bytes := bs "some content".
Definition demo_publisher : Store := put_nodes (NewStore "") (dag_nodes demo_builder demo_content).
Definition demo_net : Network := fun peer req =>
  if bool_decide (peer = "down"%string) then Err "dial" else Ok (handleStream demo_publisher req).
Definition demo_providers : ProviderRegistry :=
  Registry_Add (Registry_Add (NewProviderRegistry 1000) 0 (dag_root demo_builder demo_content) "down" 12)
    0 (dag_root demo_builder demo_content) "up" 12.

Lemma fetch_honest_witness :
  exists s', FetchContent 2 (Some "me"%string) demo_net demo_providers 10 (NewStore "")
               (dag_root demo_builder demo_content) = (s', Done (Ok demo_content)) /\
    forall n, n ∈ dag_nodes demo_builder demo_content -> Store_Get s' (HashData n) = Some n.
Proof.
  assert (Hc : consistent_nodes (dag_nodes demo_builder demo_content)).
  { intros x y. apply NoDup_fmap_inj_on. apply (bool_decide_unpack _). vm_compute. exact I. }
  assert (E : map pr_PeerID (Registry_Get demo_providers 10 (dag_root demo_builder demo_content)) =
              ["down"; "up"]%string) by (vm_compute; reflexivity).
  apply (fetch_honest 2 "me" demo_net demo_providers 10 (NewStore "") demo_publisher);
    [lia|reflexivity|discriminate|vm_compute; discriminate|exact Hc| | |].
  - destruct (Registry_Get _ _ _) as [|p1 [|p2 [|]]]; try discriminate E. injection E as E1 E2.
    split.
    + constructor; [right; intros req; unfold demo_net; rewrite E1; by eexists|].
      constructor; [left; intros req; unfold demo_net; by rewrite E2|constructor].
    + right. left. intros req. unfold demo_net. by rewrite E2.
  - intros n Hn. split; [by apply put_nodes_lookup|].
    assert (F : Forall (fun n => Z.of_nat (length n) <= maxWireChunkSize) (dag_nodes demo_builder demo_content)).
    { apply (bool_decide_unpack _). vm_compute. exact I. }
    rewrite Forall_forall in F. by apply F.
  - intros n Hn. left. reflexivity.
Defined.
