(* ===== verification/Merkle.v ===== *)
(** * The Merkle tree of an epoch's rewards ([src/rewards/epoch.go],
      [src/contracts/RevenuePool.sol])

    The operator publishes the root of a Merkle tree of (address, amount)
    leaves; a contributor claims with a proof that the contract checks by
    hashing sorted pairs.  The main theorem says that every proof
    [ComputeMerkleProof] produces is accepted by the contract's [_verify]
    against the root [ComputeMerkleRoot] produces.  Sorting leaves by address
    makes the root independent of the order in which Go iterates its map of
    contributors ([merkle_root_order_independent]). *)

From Stdlib Require Import String.
From stdpp Require Import sorting.
From S2P Require Import Prelude Signing.

Record MerkleLeaf := mkLeaf { leaf_Address : bytes; leaf_Amount : Z }.

(** ** Byte strings in lexicographic order *)

Fixpoint lex_ltb (a b : bytes) : bool :=
  match a, b with
  | _, [] => false
  | [], _ :: _ => true
  | x :: a, y :: b => (byteZ x <? byteZ y) || ((byteZ x =? byteZ y) && lex_ltb a b)
  end.

Section merkle.
Context {C : Crypto}.

(** [leaves[i].Address.Hex() < leaves[j].Address.Hex()]. *)
Definition leaf_less (a b : MerkleLeaf) : bool :=
  lex_ltb (AddrHex (leaf_Address a)) (AddrHex (leaf_Address b)).

(** [sort.Slice] with that comparison, as insertion sort. *)
Fixpoint leaf_insert (x : MerkleLeaf) (l : list MerkleLeaf) : list MerkleLeaf :=
  match l with
  | [] => [x]
  | y :: t => if leaf_less y x then y :: leaf_insert x t else x :: l
  end.

Definition sort_leaves (l : list MerkleLeaf) : list MerkleLeaf := foldr leaf_insert [] l.

Definition leaf_hash (l : MerkleLeaf) : bytes :=
  Keccak256 (leaf_Address l ++ left_pad 32 (bigint_bytes (leaf_Amount l))).

(** Hash of a pair, the smaller byte string first. *)
Definition hash_pair (lhs rhs : bytes) : bytes :=
  if lex_ltb rhs lhs then Keccak256 (rhs ++ lhs) else Keccak256 (lhs ++ rhs).

(** The inner loop: one level of the tree; an odd last node moves up. *)
Fixpoint next_level (hashes : list bytes) : list bytes :=
  match hashes with
  | lhs :: rhs :: t => hash_pair lhs rhs :: next_level t
  | _ => hashes
  end.

(** [for len(hashes) > 1]. *)
Fixpoint root_loop (fuel : nat) (hashes : list bytes) : list bytes :=
  match fuel with
  | O => hashes
  | S f => if (1 <? length hashes)%nat then root_loop f (next_level hashes) else hashes
  end.

(** The leaves are sorted in place: the sorted slice is returned too. *)
Definition ComputeMerkleRoot (leaves : list MerkleLeaf) : list MerkleLeaf * bytes :=
  if (length leaves =? 0)%nat then (leaves, zero32)
  else
    let leaves := sort_leaves leaves in
    let hashes := map leaf_hash leaves in
    (leaves, copy_to 32 (nth 0 (root_loop (length hashes) hashes) [])).

(** One level of [ComputeMerkleProof]: index [i] in the level, [n] nodes
    already in the next one; the tracked index and the proof are updated as
    the loop goes. *)
Fixpoint proof_level (i n : nat) (hashes : list bytes) (idx : nat) (proof : list bytes)
    : list bytes * nat * list bytes :=
  match hashes with
  | lhs :: rhs :: t =>
      let hit := (i =? idx)%nat || (S i =? idx)%nat in
      let proof' := if hit then proof ++ [if (i =? idx)%nat then rhs else lhs] else proof in
      let idx' := if hit then n else idx in
      let r := proof_level (S (S i)) (S n) t idx' proof' in
      (hash_pair lhs rhs :: r.1.1, r.1.2, r.2)
  | [x] => ([x], if (i =? idx)%nat then n else idx, proof)
  | [] => ([], idx, proof)
  end.

Fixpoint proof_loop (fuel : nat) (hashes : list bytes) (idx : nat) (proof : list bytes)
    : list bytes :=
  match fuel with
  | O => proof
  | S f =>
      if (1 <? length hashes)%nat then
        let r := proof_level 0 0 hashes idx proof in proof_loop f r.1.1 r.1.2 r.2
      else proof
  end.

Fixpoint find_leaf (leaves : list MerkleLeaf) (address : bytes) (i : nat) : option nat :=
  match leaves with
  | [] => None
  | l :: t => if bytes_eqb (leaf_Address l) address then Some i else find_leaf t address (S i)
  end.

Definition ComputeMerkleProof (leaves : list MerkleLeaf) (address : bytes)
    : list MerkleLeaf * result (list bytes) :=
  if (length leaves =? 0)%nat then (leaves, Err "no leaves")
  else
    let leaves := sort_leaves leaves in
    (leaves,
     match find_leaf leaves address 0 with
     | None => Err "address not in leaves"
     | Some idx => let hashes := map leaf_hash leaves in Ok (proof_loop (length hashes) hashes idx [])
     end).

(** The contract's [_verify] ([src/contracts/RevenuePool.sol]). *)
Definition contract_verify (proof : list bytes) (root leaf : bytes) : bool :=
  bytes_eqb
    (fold_left (fun hash p => if lex_ltb hash p then Keccak256 (hash ++ p) else Keccak256 (p ++ hash))
       proof leaf) root.

(** The contract's leaf: [keccak256(abi.encodePacked(account, amount))]. *)
Definition contract_leaf (account : bytes) (amount : Z) : bytes :=
  Keccak256 (account ++ be_bytes 32 amount).
End merkle.

(** ** The byte order is a strict total order *)

Lemma lex_irrefl a : lex_ltb a a = false.
Proof. induction a as [|x a IH]; simpl; [done|]. rewrite IH, Z.ltb_irrefl. by rewrite andb_false_r. Qed.

Lemma lex_total a b : lex_ltb a b = false -> lex_ltb b a = false -> a = b.
Proof.
  revert b. induction a as [|x a IH]; intros [|y b] H1 H2; simpl in *; try done.
  bool_to_prop. assert (E : byteZ x = byteZ y) by lia.
  rewrite E, Z.eqb_refl in *. simpl in *. f_equal; [by apply byteZ_inj|by apply IH].
Qed.

Lemma lex_asym a b : lex_ltb a b = true -> lex_ltb b a = false.
Proof.
  revert b. induction a as [|x a IH]; intros [|y b] H; simpl in *; try done.
  apply orb_true_iff in H as [H|H]; bool_to_prop; apply orb_false_iff.
  - split; [apply Z.ltb_ge; lia|]. by rewrite (proj2 (Z.eqb_neq _ _)) by lia.
  - split; [apply Z.ltb_ge; lia|]. rewrite IH by done. apply andb_false_r.
Qed.

Lemma lex_trans a b c : lex_ltb a b = true -> lex_ltb b c = true -> lex_ltb a c = true.
Proof.
  revert b c. induction a as [|x a IH]; intros [|y b] [|z c] H1 H2; simpl in *; try done.
  apply orb_true_iff in H1 as [H1|H1], H2 as [H2|H2]; bool_to_prop; apply orb_true_iff;
    try (left; apply Z.ltb_lt; lia).
  right. apply andb_true_iff. split; [apply Z.eqb_eq; lia|by eapply IH].
Qed.

(** ** Sorting *)

Section merkle_theory.
Context {C : Crypto} {L : CryptoLaws C}.

(** Sorted order on leaves: the second is not less than the first. *)
Definition leaf_le (a b : MerkleLeaf) : Prop := leaf_less b a = false.

#[local] Instance leaf_le_trans : Transitive leaf_le.
Proof.
  intros a b c H1 H2. unfold leaf_le, leaf_less in *.
  destruct (lex_ltb (AddrHex (leaf_Address c)) (AddrHex (leaf_Address a))) eqn:E; [|done].
  destruct (lex_ltb (AddrHex (leaf_Address a)) (AddrHex (leaf_Address b))) eqn:E'.
  - rewrite (lex_trans _ _ _ E E') in H2. done.
  - rewrite (lex_total _ _ H1 E') in H2. congruence.
Qed.

Lemma leaf_insert_perm x l : leaf_insert x l ≡ₚ x :: l.
Proof.
  induction l as [|y l IH]; simpl; [done|]. case_match; [|done]. rewrite IH. apply perm_swap.
Qed.

Lemma sort_leaves_perm l : sort_leaves l ≡ₚ l.
Proof.
  induction l as [|x l IH]; simpl; [done|]. rewrite leaf_insert_perm. by f_equiv.
Qed.

Lemma leaf_insert_sorted x l :
  StronglySorted leaf_le l -> StronglySorted leaf_le (leaf_insert x l).
Proof.
  induction 1 as [|y l S IH F]; simpl; [by repeat constructor|]. case_match eqn:E.
  - constructor; [done|]. rewrite leaf_insert_perm. constructor; [|done].
    unfold leaf_le, leaf_less in *. by apply lex_asym.
  - constructor; [by constructor|]. constructor; [done|].
    eapply Forall_impl; [exact F|]. intros z Hz. by transitivity y.
Qed.

Lemma sort_leaves_sorted l : StronglySorted leaf_le (sort_leaves l).
Proof. induction l; simpl; [constructor|by apply leaf_insert_sorted]. Qed.

Lemma sort_leaves_unique l1 l2 :
  NoDup (leaf_Address <$> l1) -> l1 ≡ₚ l2 -> sort_leaves l1 = sort_leaves l2.
Proof.
  intros Hn P. apply (StronglySorted_unique_strong leaf_le);
    [|apply sort_leaves_sorted..|by rewrite !sort_leaves_perm].
  intros a b Ha Hb H1 H2. rewrite sort_leaves_perm in Ha, Hb. rewrite <- P in Hb.
  eapply NoDup_fmap_inj_on; [exact Hn|done..|]. apply addrhex_inj. by apply lex_total.
Qed.

Lemma length_sort_leaves l : length (sort_leaves l) = length l.
Proof. by rewrite (Permutation_length (sort_leaves_perm l)). Qed.

(** ** The tree *)

Lemma hash_pair_comm a b : hash_pair a b = hash_pair b a.
Proof.
  unfold hash_pair. destruct (lex_ltb b a) eqn:E1, (lex_ltb a b) eqn:E2; try done.
  - rewrite lex_asym in E2; done.
  - by rewrite (lex_total _ _ E1 E2).
Qed.

Lemma contract_step_pair h p :
  (if lex_ltb h p then Keccak256 (h ++ p) else Keccak256 (p ++ h)) = hash_pair p h.
Proof. done. Qed.

Lemma length_next_level l : length (next_level l) = ((length l + 1) / 2)%nat.
Proof.
  induction l as [l IH] using (induction_ltof1 _ (@length bytes)); unfold ltof in IH.
  destruct l as [|x [|y l]]; try done. cbn [next_level length]. rewrite IH by (simpl; lia). dlia.
Qed.

Lemma next_level_shrinks l :
  (1 < length l)%nat -> (0 < length (next_level l) < length l)%nat.
Proof. intros H. rewrite length_next_level. dlia. Qed.

(** The loop ends at a single hash within [length hashes] rounds. *)
Lemma root_loop_single fuel l :
  (0 < length l <= fuel)%nat -> exists r, root_loop fuel l = [r].
Proof.
  revert l. induction fuel as [|f IH]; intros l Hl; [lia|].
  cbn [root_loop]. destruct (Nat.ltb_spec 1 (length l)) as [H1|H1].
  - pose proof (next_level_shrinks l H1). apply IH. lia.
  - destruct l as [|x [|]]; simpl in *; [lia|by eexists|lia].
Qed.

(** ** Proofs *)

(** Past the tracked index, a level changes neither index nor proof. *)
Lemma proof_level_past i n l idx proof :
  (idx < i)%nat -> proof_level i n l idx proof = (next_level l, idx, proof).
Proof.
  revert i n. induction l as [l IH] using (induction_ltof1 _ (@length bytes)); unfold ltof in IH.
  intros i n H. destruct l as [|x [|y l]]; simpl; [done|..].
  - by rewrite (proj2 (Nat.eqb_neq _ _)) by lia.
  - rewrite (proj2 (Nat.eqb_neq i idx)) by lia.
    destruct idx as [|k]; [|rewrite (proj2 (Nat.eqb_neq i k)) by lia];
      simpl; by rewrite IH by (simpl; lia).
Qed.

(** The sibling recorded at one level, if any: with it, the node at [idx]
    hashes to the node at [idx / 2] of the next level. *)
Lemma proof_level_spec n l k proof x :
  l !! k = Some x ->
  let r := proof_level (2 * n) n l (2 * n + k) proof in
  r.1.1 = next_level l /\ r.1.2 = (n + k / 2)%nat /\
  exists sib, r.2 = proof ++ sib /\
    next_level l !! (k / 2)%nat = Some (fold_left (fun h p => hash_pair p h) sib x).
Proof.
  revert n k. induction l as [l IH] using (induction_ltof1 _ (@length bytes)); unfold ltof in IH.
  intros n k Hk. destruct l as [|a [|b l]]; [done|..].
  - destruct k as [|k]; [|done]. injection Hk as <-. cbn [proof_level next_level].
    rewrite Nat.add_0_r, Nat.eqb_refl. split_and!; [done|simpl; lia|]. exists []. by rewrite app_nil_r.
  - cbn [proof_level next_level]. destruct k as [|[|k]].
    + injection Hk as <-. rewrite Nat.add_0_r, Nat.eqb_refl. cbn [orb].
      rewrite proof_level_past by lia. split_and!; [done|simpl; lia|].
      exists [b]. simpl. by rewrite hash_pair_comm.
    + injection Hk as <-. rewrite (proj2 (Nat.eqb_neq (2 * n) (2 * n + 1))) by lia.
      rewrite (proj2 (Nat.eqb_eq (S (2 * n)) (2 * n + 1))) by lia. cbn [orb].
      rewrite proof_level_past by lia. split_and!; [done|simpl; lia|]. by exists [a].
    + change (l !! k = Some x) in Hk.
      rewrite (proj2 (Nat.eqb_neq (2 * n) (2 * n + S (S k)))) by lia.
      rewrite (proj2 (Nat.eqb_neq (S (2 * n)) (2 * n + S (S k)))) by lia. cbn [orb].
      destruct (IH l ltac:(simpl; lia) (S n) k Hk) as (E1 & E2 & sib & E3 & E4).
      replace (S (S (2 * n)))%nat with (2 * S n)%nat by lia.
      replace (2 * n + S (S k))%nat with (2 * S n + k)%nat by lia.
      rewrite E1, E2, E3. replace (S (S k) / 2)%nat with (S (k / 2)) by dlia.
      cbn [fst snd]. split_and!; [done|lia|]. exists sib. done.
Qed.

(** The proof collected by the loop leads from the leaf to the root. *)
Lemma proof_loop_spec fuel l k proof x :
  l !! k = Some x ->
  exists sibs, proof_loop fuel l k proof = proof ++ sibs /\
    ((length l <= fuel)%nat ->
     root_loop fuel l = [fold_left (fun h p => hash_pair p h) sibs x]).
Proof.
  revert l k proof x. induction fuel as [|f IH]; intros l k proof x Hk; cbn [proof_loop root_loop].
  - exists []. rewrite app_nil_r. split; [done|]. apply lookup_lt_Some in Hk. lia.
  - destruct (Nat.ltb_spec 1 (length l)) as [H1|H1].
    + destruct (proof_level_spec 0 l k proof x Hk) as (E1 & E2 & sib & E3 & E4).
      cbn [Nat.mul Nat.add] in *. rewrite E1, E2, E3.
      destruct (IH _ _ (proof ++ sib) _ E4) as (sibs & E5 & E6).
      exists (sib ++ sibs). rewrite E5, app_assoc. split; [done|]. intros Hl.
      pose proof (next_level_shrinks l H1). rewrite fold_left_app. apply E6. lia.
    + exists []. rewrite app_nil_r. split; [done|]. intros _.
      destruct l as [|y [|? ?]]; [done| |simpl in *; lia]. destruct k; by simplify_eq/=.
Qed.

Lemma find_leaf_spec l address i0 i :
  find_leaf l address i0 = Some i ->
  exists k leaf, i = (i0 + k)%nat /\ l !! k = Some leaf /\ leaf_Address leaf = address.
Proof.
  revert i0. induction l as [|x l IH]; intros i0 H; simpl in H; [done|]. case_match; simplify_eq.
  - bool_to_prop. exists 0%nat, x. split_and!; [lia|done..].
  - destruct (IH _ H) as (k & leaf & -> & Hk & E). exists (S k), leaf. split_and!; [lia|done..].
Qed.

Lemma find_leaf_total l address i0 :
  address ∈ leaf_Address <$> l -> exists i, find_leaf l address i0 = Some i.
Proof.
  revert i0. induction l as [|x l IH]; intros i0 H; simpl in *; [by apply not_elem_of_nil in H|].
  case_match; [by eexists|]. bool_to_prop. apply IH. apply elem_of_cons in H as [->|]; done.
Qed.

Lemma length_root_loop_head l :
  l <> [] -> Forall (fun h => length h = 32%nat) l ->
  length (nth 0 (root_loop (length l) l) []) = 32%nat.
Proof.
  intros Hne. generalize (length l) as fuel. intros fuel F. revert l Hne F.
  induction fuel as [|f IH]; intros l Hne F; cbn [root_loop].
  - destruct F; [done|]. done.
  - case_match; [|destruct F; done]. apply IH.
    + destruct l as [|? [|]]; done.
    + clear IH Hne. induction l as [l IHl] using (induction_ltof1 _ (@length bytes)); unfold ltof in IHl.
      destruct l as [|x [|y l]]; simpl; [done..|].
      constructor; [unfold hash_pair; case_match; apply keccak_length|].
      destruct (Nat.ltb_spec 1 (length l)) as [Hl|Hl].
      * apply IHl; [simpl; lia| |by apply Nat.ltb_lt].
        by apply Forall_cons in F as [_ [_ F]%Forall_cons].
      * destruct l as [|z [|]]; simpl in *; [done| |lia].
        by apply Forall_cons in F as [_ [_ F]%Forall_cons].
Qed.

Lemma ComputeMerkleRoot_spec leaves :
  leaves <> [] ->
  exists r, root_loop (length leaves) (map leaf_hash (sort_leaves leaves)) = [r] /\
    length r = 32%nat /\ ComputeMerkleRoot leaves = (sort_leaves leaves, r).
Proof.
  intros Hne. set (hs := map leaf_hash (sort_leaves leaves)).
  assert (Hlen : length hs = length leaves) by (subst hs; by rewrite length_map, length_sort_leaves).
  assert (Hpos : (0 < length leaves)%nat) by (destruct leaves; simpl; [done|lia]).
  destruct (root_loop_single (length leaves) hs) as [r Hr]; [lia|].
  assert (H32 : length r = 32%nat).
  { pose proof (length_root_loop_head hs) as Hh. rewrite Hlen, Hr in Hh. apply Hh.
    - intros E. rewrite E in Hlen. simpl in Hlen. lia.
    - apply Forall_map, Forall_forall. intros; apply keccak_length. }
  exists r. split_and!; [done..|]. unfold ComputeMerkleRoot.
  rewrite (proj2 (Nat.eqb_neq _ _)) by lia. fold hs. rewrite Hlen, Hr. simpl.
  by rewrite copy_to_id.
Qed.

Lemma contract_leaf_hash l :
  0 <= leaf_Amount l < 2 ^ 256 -> leaf_hash l = contract_leaf (leaf_Address l) (leaf_Amount l).
Proof.
  intros H. unfold leaf_hash, contract_leaf. do 2 f_equal.
  change (2 ^ 256) with (256 ^ Z.of_nat 32) in H.
  pose proof (length_bigint_bytes (leaf_Amount l) 32 H) as Hl.
  rewrite <- (be_bytes_be_int (left_pad 32 (bigint_bytes (leaf_Amount l)))).
  rewrite length_left_pad, be_int_left_pad, be_int_bigint_bytes by done. f_equal. lia.
Qed.

(** The proof's elements are nodes of the tree, and there are no more of them
    than leaves. *)
Definition digests (l : list bytes) : Prop := Forall (fun h => length h = 32%nat) l.

Lemma proof_level_wf i n l idx proof :
  digests l -> digests proof ->
  let r := proof_level i n l idx proof in
  digests r.1.1 /\ digests r.2 /\ (length r.2 + length r.1.1 <= length proof + length l)%nat.
Proof.
  unfold digests. revert i n idx proof.
  induction l as [l IH] using (induction_ltof1 _ (@length bytes)); unfold ltof in IH.
  intros i n idx proof Hl Hp. destruct l as [|x [|y l]]; cbn [proof_level fst snd length];
    [split_and!; auto; simpl; lia..|].
  apply Forall_cons in Hl as [Hx Hl]. apply Forall_cons in Hl as [Hy Hl].
  set (hit := (i =? idx)%nat || (S i =? idx)%nat).
  set (proof' := if hit then proof ++ [if (i =? idx)%nat then y else x] else proof).
  assert (Forall (fun h => length h = 32%nat) proof' /\ (length proof' <= S (length proof))%nat)
    as [Hp' Hlen].
  { subst proof'. destruct hit; [|by split; [|lia]]. rewrite length_app. simpl. split; [|lia].
    apply Forall_app. split; [done|]. constructor; [by destruct (i =? idx)%nat|constructor]. }
  destruct (IH l ltac:(simpl; lia) (S (S i)) (S n) (if hit then n else idx)
              proof' Hl Hp') as (H1 & H2 & H3).
  split_and!; [constructor; [|done]|done|simpl; lia]. unfold hash_pair.
  destruct (lex_ltb y x); apply keccak_length.
Qed.

Lemma proof_loop_wf fuel l idx proof :
  digests l -> digests proof ->
  digests (proof_loop fuel l idx proof) /\
  (length (proof_loop fuel l idx proof) <= length proof + length l)%nat.
Proof.
  revert l idx proof. induction fuel as [|f IH]; intros l idx proof Hl Hp; simpl; [split; [done|lia]|].
  case_match; [|split; [done|lia]].
  destruct (proof_level_wf 0 0 l idx proof Hl Hp) as (H1 & H2 & H3).
  destruct (IH _ (proof_level 0 0 l idx proof).1.2 _ H1 H2). split; [done|lia].
Qed.

Lemma ComputeMerkleProof_wf leaves address proof :
  (ComputeMerkleProof leaves address).2 = Ok proof ->
  digests proof /\ (length proof <= length leaves)%nat.
Proof.
  unfold ComputeMerkleProof. case_match; [done|]. simpl.
  destruct (find_leaf _ _ _) as [idx|]; [|done]. intros [= <-].
  rewrite length_map, length_sort_leaves.
  destruct (proof_loop_wf (length leaves) (map leaf_hash (sort_leaves leaves)) idx []) as [H1 H2].
  - apply Forall_map, Forall_forall. intros. apply keccak_length.
  - constructor.
  - rewrite length_map, length_sort_leaves in H2. done.
Qed.

(** A leaf's proof leads the contract from the leaf to the root. *)
Lemma proof_verifies leaves leaf :
  NoDup (leaf_Address <$> leaves) -> leaf ∈ leaves -> 0 <= leaf_Amount leaf < 2 ^ 256 ->
  exists proof, (ComputeMerkleProof leaves (leaf_Address leaf)).2 = Ok proof /\
    contract_verify proof (ComputeMerkleRoot leaves).2
      (contract_leaf (leaf_Address leaf) (leaf_Amount leaf)) = true.
Proof.
  intros Hn Hin Hamt.
  assert (Hne : leaves <> []) by (intros ->; by apply not_elem_of_nil in Hin).
  destruct (ComputeMerkleRoot_spec leaves Hne) as (r & Hr & _ & ->).
  unfold ComputeMerkleProof. rewrite (proj2 (Nat.eqb_neq _ _)) by (destruct leaves; done).
  destruct (find_leaf_total (sort_leaves leaves) (leaf_Address leaf) 0) as [i Hi].
  { rewrite sort_leaves_perm. by apply list_elem_of_fmap_2. }
  cbn [snd]. rewrite Hi. eexists. split; [done|].
  destruct (find_leaf_spec _ _ _ _ Hi) as (k & leaf' & -> & Hk & Ha). simpl Nat.add.
  assert (leaf' = leaf) as ->.
  { eapply NoDup_fmap_inj_on; [exact Hn| |done..].
    rewrite <- sort_leaves_perm. by eapply list_elem_of_lookup_2. }
  destruct (proof_loop_spec (length leaves) (map leaf_hash (sort_leaves leaves)) k [] (leaf_hash leaf))
    as (sibs & E1 & E2).
  { change (map leaf_hash (sort_leaves leaves)) with (leaf_hash <$> sort_leaves leaves).
    by rewrite list_lookup_fmap, Hk. }
  rewrite length_map, length_sort_leaves in *. rewrite E1. rewrite Hr in E2.
  specialize (E2 ltac:(lia)). injection E2 as E2.
  unfold contract_verify. apply bytes_eqb_true. rewrite E2, <- contract_leaf_hash by done. done.
Qed.

Lemma root_permutation l1 l2 :
  NoDup (leaf_Address <$> l1) -> l1 ≡ₚ l2 -> ComputeMerkleRoot l1 = ComputeMerkleRoot l2.
Proof.
  intros Hn P. unfold ComputeMerkleRoot. rewrite (Permutation_length P).
  rewrite (sort_leaves_unique l1 l2 Hn P). case_match eqn:E; [|done].
  apply Nat.eqb_eq, nil_length_inv in E. subst. apply Permutation_nil_r in P. by subst.
Qed.
End merkle_theory.

(** every reward in the published tree can be claimed.  With distinct
    addresses and amounts that fit a word, for each leaf [ComputeMerkleProof]
    succeeds and the contract accepts its proof for exactly that address and amount
    against the root of [ComputeMerkleRoot]. *)
Theorem merkle_proof_verifies {C : Crypto} {L : CryptoLaws C} leaves leaf :
  NoDup (leaf_Address <$> leaves) -> leaf ∈ leaves -> 0 <= leaf_Amount leaf < 2 ^ 256 ->
  exists proof, (ComputeMerkleProof leaves (leaf_Address leaf)).2 = Ok proof /\
    contract_verify proof (ComputeMerkleRoot leaves).2
      (contract_leaf (leaf_Address leaf) (leaf_Amount leaf)) = true.
Proof. apply proof_verifies. Qed.

Definition demo_leaves : list MerkleLeaf :=
  [mkLeaf (replicate 20 Byte.x07) 500; mkLeaf (replicate 20 Byte.x02) 300; mkLeaf (replicate 20 Byte.x05) 200].

Lemma merkle_proof_verifies_witness :
  exists proof, (ComputeMerkleProof (C := Toy.crypto) demo_leaves (replicate 20 Byte.x02)).2 = Ok proof /\
    contract_verify (C := Toy.crypto) proof (ComputeMerkleRoot (C := Toy.crypto) demo_leaves).2
      (contract_leaf (C := Toy.crypto) (replicate 20 Byte.x02) 300) = true.
Proof.
  apply (merkle_proof_verifies (C := Toy.crypto) demo_leaves (mkLeaf (replicate 20 Byte.x02) 300));
    [apply (bool_decide_unpack _); vm_compute; exact I|right; left|simpl; lia].
Defined.

(** the published root does not depend on the order in which the
    contributors are iterated: any permutation of leaves with distinct addresses
    gives the same sorted leaves and the same root. *)
Theorem merkle_root_order_independent {C : Crypto} {L : CryptoLaws C} l1 l2 :
  NoDup (leaf_Address <$> l1) -> l1 ≡ₚ l2 -> ComputeMerkleRoot l1 = ComputeMerkleRoot l2.
Proof. apply root_permutation. Qed.

Lemma merkle_root_order_independent_witness :
  ComputeMerkleRoot (C := Toy.crypto) demo_leaves = ComputeMerkleRoot (C := Toy.crypto) (rev demo_leaves).
Proof.
  apply (merkle_root_order_independent (C := Toy.crypto));
    [apply (bool_decide_unpack _); vm_compute; exact I|apply Permutation_rev].
Defined.

(** ** Only the leaves of the tree can be claimed *)

Section soundness.
Context {C : Crypto} {L : CryptoLaws C}.

(** The bytes hashed for a pair. *)
Definition pair_input (a b : bytes) : bytes := if lex_ltb b a then b ++ a else a ++ b.

Fixpoint level_inputs (l : list bytes) : list bytes :=
  match l with x :: y :: t => pair_input x y :: level_inputs t | _ => [] end.

(** All the bytes hashed above the leaves, and all the nodes of the tree. *)
Fixpoint tree_inputs (fuel : nat) (l : list bytes) : list bytes :=
  match fuel with
  | O => []
  | S f => if (1 <? length l)%nat then level_inputs l ++ tree_inputs f (next_level l) else []
  end.

Fixpoint tree_nodes (fuel : nat) (l : list bytes) : list bytes :=
  match fuel with
  | O => l
  | S f => if (1 <? length l)%nat then l ++ tree_nodes f (next_level l) else l
  end.

(** The bytes the contract hashes while checking a proof. *)
Fixpoint verify_inputs (proof : list bytes) (h : bytes) : list bytes :=
  match proof with
  | [] => []
  | p :: t => pair_input p h :: verify_inputs t (hash_pair p h)
  end.

Definition leaf_input (l : MerkleLeaf) : bytes :=
  leaf_Address l ++ left_pad 32 (bigint_bytes (leaf_Amount l)).

Lemma hash_pair_input a b : hash_pair a b = Keccak256 (pair_input a b).
Proof. unfold hash_pair, pair_input. by case_match. Qed.

Lemma length_pair_input a b : length (pair_input a b) = (length a + length b)%nat.
Proof. unfold pair_input. case_match; rewrite length_app; lia. Qed.

Lemma pair_input_inj p h a b :
  length p = 32%nat -> length h = 32%nat -> length a = 32%nat -> length b = 32%nat ->
  pair_input p h = pair_input a b -> h = a \/ h = b.
Proof.
  intros Hp Hh Ha Hb E. unfold pair_input in E.
  repeat case_match; apply app_inj_1 in E as [? ?]; try congruence; auto.
Qed.

Lemma next_level_nodes l z :
  z ∈ next_level l ->
  z ∈ l \/ exists a b, a ∈ l /\ b ∈ l /\ z = hash_pair a b /\ pair_input a b ∈ level_inputs l.
Proof.
  induction l as [l IH] using (induction_ltof1 _ (@length bytes)); unfold ltof in IH.
  destruct l as [|x [|y l]]; cbn [next_level level_inputs]; [by left..|].
  intros [->|Hz]%elem_of_cons.
  - right. exists x, y. split_and!; [by repeat constructor..|done|by left].
  - destruct (IH l ltac:(simpl; lia) Hz) as [Hin|(a & b & Ha & Hb & E & Hp)].
    + left. by do 2 right.
    + right. exists a, b. split_and!; [by do 2 right..|done|by right].
Qed.

(** A node of the tree is a leaf hash or the hash of two nodes of the tree. *)
Lemma tree_nodes_inv fuel l z :
  z ∈ tree_nodes fuel l ->
  z ∈ l \/ exists a b, a ∈ tree_nodes fuel l /\ b ∈ tree_nodes fuel l /\ z = hash_pair a b /\
                       pair_input a b ∈ tree_inputs fuel l.
Proof.
  revert l. induction fuel as [|f IH]; intros l; cbn [tree_nodes tree_inputs]; [by left|].
  case_match; [|by left]. intros [Hz|Hz]%elem_of_app; [by left|].
  destruct (IH _ Hz) as [Hn|(a & b & Ha & Hb & E & Hp)].
  - destruct (next_level_nodes l z Hn) as [|(a & b & Ha & Hb & E & Hp)]; [by left|].
    right. exists a, b. split_and!; [apply elem_of_app; by left..|done|apply elem_of_app; by left].
  - right. exists a, b. split_and!; [apply elem_of_app; by right..|done|apply elem_of_app; by right].
Qed.

Lemma root_in_tree fuel l r : root_loop fuel l = [r] -> r ∈ tree_nodes fuel l.
Proof.
  revert l. induction fuel as [|f IH]; intros l; cbn [root_loop tree_nodes].
  - intros ->. by apply list_elem_of_singleton.
  - case_match; [|intros ->; by apply list_elem_of_singleton].
    intros Hr. apply elem_of_app. right. by apply IH.
Qed.

Lemma length_tree_nodes fuel l :
  Forall (fun h => length h = 32%nat) l -> Forall (fun h => length h = 32%nat) (tree_nodes fuel l).
Proof.
  revert l. induction fuel as [|f IH]; intros l F; cbn [tree_nodes]; [done|].
  case_match; [|done]. apply Forall_app. split; [done|]. apply IH. apply Forall_forall. intros z Hz.
  destruct (next_level_nodes l z Hz) as [Hin|(a & b & _ & _ & -> & _)];
    [rewrite Forall_forall in F; by apply F|rewrite hash_pair_input; apply keccak_length].
Qed.

Lemma length_leaf_input l :
  length (leaf_Address l) = 20%nat -> 0 <= leaf_Amount l < 2 ^ 256 -> length (leaf_input l) = 52%nat.
Proof.
  intros Ha Hm. unfold leaf_input. rewrite length_app, Ha, length_left_pad; [done|].
  by apply (length_bigint_bytes _ 32).
Qed.

Context (leaves : list MerkleLeaf) (fuel : nat).
Hypothesis Hwf : Forall (fun l => length (leaf_Address l) = 20%nat /\ 0 <= leaf_Amount l < 2 ^ 256) leaves.

Let hs := map leaf_hash leaves.
Let inputs := map leaf_input leaves ++ tree_inputs fuel hs.

Definition collision_free (xs ys : list bytes) : Prop :=
  forall x y, x ∈ xs -> y ∈ ys -> Keccak256 x = Keccak256 y -> x = y.

(** Hashing up from [h] to a node of the tree, [h] is a node of the tree. *)
Lemma verify_down proof h :
  Forall (fun p => length p = 32%nat) proof -> length h = 32%nat ->
  collision_free (verify_inputs proof h) inputs ->
  fold_left (fun h p => hash_pair p h) proof h ∈ tree_nodes fuel hs -> h ∈ tree_nodes fuel hs.
Proof.
  intros F. revert h. induction F as [|p proof Hp F IH]; intros h Hh Hc; simpl; [done|]. intros Hin.
  apply IH in Hin; [|rewrite hash_pair_input; apply keccak_length|].
  2:{ intros x y Hx. apply Hc. by right. }
  assert (Hv : pair_input p h ∈ verify_inputs (p :: proof) h) by left.
  destruct (tree_nodes_inv _ _ _ Hin) as [Hl|(a & b & Ha & Hb & E & Hpi)].
  - exfalso. unfold hs in Hl. apply list_elem_of_fmap in Hl as (l & E & Hl).
    rewrite hash_pair_input in E. change (leaf_hash l) with (Keccak256 (leaf_input l)) in E.
    apply Hc in E; [|done|apply elem_of_app; left; by apply list_elem_of_fmap_2].
    rewrite Forall_forall in Hwf. destruct (Hwf l Hl). apply (f_equal length) in E.
    rewrite length_pair_input, length_leaf_input in E by done. lia.
  - pose proof (length_tree_nodes fuel hs) as Hlen. rewrite !Forall_forall in Hlen.
    assert (Hhs : forall x, x ∈ hs -> length x = 32%nat)
      by (intros x (l & -> & _)%list_elem_of_fmap; apply keccak_length).
    rewrite !hash_pair_input in E. apply Hc in E; [|done|apply elem_of_app; by right].
    apply pair_input_inj in E as [->| ->]; auto.
Qed.

Lemma tree_leaf l0 :
  length (leaf_Address l0) = 20%nat -> 0 <= leaf_Amount l0 < 2 ^ 256 ->
  collision_free [leaf_input l0] inputs -> leaf_hash l0 ∈ tree_nodes fuel hs -> l0 ∈ leaves.
Proof.
  intros Ha Hm Hc Hin. assert (Hv : leaf_input l0 ∈ [leaf_input l0]) by by left.
  destruct (tree_nodes_inv _ _ _ Hin) as [Hl|(a & b & Hna & Hnb & E & Hp)].
  - apply list_elem_of_fmap in Hl as (l & E & Hl).
    change (Keccak256 (leaf_input l0) = Keccak256 (leaf_input l)) in E.
    apply Hc in E; [|done|apply elem_of_app; left; by apply list_elem_of_fmap_2].
    rewrite Forall_forall in Hwf. destruct (Hwf l Hl) as [Hal Hml].
    apply app_inj_1 in E as [E1 E2]; [|congruence].
    apply left_pad_bigint_inj in E2; [|lia..]. destruct l, l0; simpl in *; by subst.
  - exfalso. rewrite hash_pair_input in E.
    apply (Hc (leaf_input l0)) in E; [|done|apply elem_of_app; by right].
    apply (f_equal length) in E. rewrite length_pair_input, length_leaf_input in E by done.
    pose proof (length_tree_nodes fuel hs) as Hlen. rewrite !Forall_forall in Hlen.
    assert (Hhs : forall x, x ∈ hs -> length x = 32%nat)
      by (intros x (l & -> & _)%list_elem_of_fmap; apply keccak_length).
    rewrite (Hlen Hhs a Hna), (Hlen Hhs b Hnb) in E. lia.
Qed.
End soundness.

(** C3: nothing else can be claimed.  If the contract accepts a proof (of any
    length) for an account and amount against the published root, then that very
    pair is a leaf of the tree, provided the inputs hashed by the contract do not
    collide under Keccak-256 with the inputs hashed to build the tree. *)
Theorem merkle_claim_sound {C : Crypto} {L : CryptoLaws C} leaves proof account amount :
  leaves <> [] ->
  Forall (fun l => length (leaf_Address l) = 20%nat /\ 0 <= leaf_Amount l < 2 ^ 256) leaves ->
  length account = 20%nat -> 0 <= amount < 2 ^ 256 ->
  Forall (fun p => length p = 32%nat) proof ->
  collision_free (leaf_input (mkLeaf account amount) :: verify_inputs proof (contract_leaf account amount))
    (map leaf_input (sort_leaves leaves) ++
     tree_inputs (length leaves) (map leaf_hash (sort_leaves leaves))) ->
  contract_verify proof (ComputeMerkleRoot leaves).2 (contract_leaf account amount) = true ->
  mkLeaf account amount ∈ leaves.
Proof.
  intros Hne Hwf Hacc Hamt Hpf Hc Hv.
  destruct (ComputeMerkleRoot_spec leaves Hne) as (r & Hr & _ & Ecr). rewrite Ecr in Hv.
  apply bytes_eqb_true in Hv. cbn [snd] in Hv.
  rewrite <- (sort_leaves_perm leaves) in Hwf |- *.
  assert (El : leaf_hash (mkLeaf account amount) = contract_leaf account amount)
    by (by apply contract_leaf_hash).
  apply (tree_leaf _ (length leaves)); try done.
  { intros x y Hx%list_elem_of_singleton Hy. subst. apply Hc; [by left|done]. }
  rewrite El. apply (verify_down _ (length leaves) Hwf proof); try done; [apply keccak_length| |].
  { intros x y Hx Hy. apply Hc; [by right|done]. }
  apply root_in_tree. rewrite Hr. f_equal. symmetry. exact Hv.
Qed.

Lemma merkle_claim_sound_witness :
  let root := (ComputeMerkleRoot (C := Toy.crypto) demo_leaves).2 in
  exists proof, contract_verify (C := Toy.crypto) proof root
                  (contract_leaf (C := Toy.crypto) (replicate 20 Byte.x07) 500) = true /\
                mkLeaf (replicate 20 Byte.x07) 500 ∈ demo_leaves.
Proof.
  intros root.
  set (proof := match (ComputeMerkleProof (C := Toy.crypto) demo_leaves (replicate 20 Byte.x07)).2 with
                | Ok p => p | Err _ => [] end).
  assert (Hv : contract_verify (C := Toy.crypto) proof root
                 (contract_leaf (C := Toy.crypto) (replicate 20 Byte.x07) 500) = true)
    by (vm_compute; reflexivity).
  exists proof. split; [exact Hv|].
  apply (merkle_claim_sound (C := Toy.crypto) demo_leaves proof);
    [discriminate|repeat constructor; simpl; lia|reflexivity|lia| | |exact Hv].
  - apply (bool_decide_unpack _). vm_compute. exact I.
  - set (xs := leaf_input _ :: _). set (ys := map leaf_input _ ++ _). intros x y Hx Hy.
    apply (NoDup_fmap_inj_on _ (remove_dups (xs ++ ys))).
    + apply (bool_decide_unpack _). vm_compute. exact I.
    + apply elem_of_remove_dups, elem_of_app. left. exact Hx.
    + apply elem_of_remove_dups, elem_of_app. right. exact Hy.
Defined.
