(* ===== verification/Float64.v ===== *)
(** * float64 and big.Float

    Go's [float64] is IEEE-754 binary64 with round-to-nearest-even.  The model
    uses the executable specification of the standard library
    ([Floats.SpecFloat]) at precision 53, so every float computation of the
    source evaluates in the kernel and no axiom about primitive floats is used.
    Intermediate results are rounded after every operation (no fused
    multiply-add, as on amd64).  [math.Log] and [math.Pow] are not correctly rounded functions; the
    components that call them take them as parameters.

    [big.Float] is used by the rewards code in two ways: converting integers to
    and from [float64], and one rounded product ([big_mul_int]). *)

From Stdlib Require Import SpecFloat.
From S2P Require Import Prelude.

Definition float64 := spec_float.

Definition fprec : Z := 53.
Definition femax : Z := 1024.

Definition fadd : float64 -> float64 -> float64 := SFadd fprec femax.
Definition fsub : float64 -> float64 -> float64 := SFsub fprec femax.
Definition fmul : float64 -> float64 -> float64 := SFmul fprec femax.
Definition fdiv : float64 -> float64 -> float64 := SFdiv fprec femax.
Definition fltb : float64 -> float64 -> bool := SFltb.
Definition fleb : float64 -> float64 -> bool := SFleb.

(** [float64(z)] and [new(big.Float).SetInt(z).Float64()]: nearest even. *)
Definition f_of_Z (z : Z) : float64 := binary_normalize fprec femax z 0 false.

(** The constant [n/d], rounded to nearest. *)
Definition f_ratio (n d : Z) : float64 := fdiv (f_of_Z n) (f_of_Z d).

Definition f0 : float64 := S754_zero false.
Definition f1 : float64 := f_of_Z 1.

(** The integer part of a finite float, toward zero. *)
Definition f_trunc (f : float64) : Z :=
  match f with
  | S754_finite s m e =>
      let a := if 0 <=? e then Zpos m * 2 ^ e else Zpos m / 2 ^ (- e) in
      if s then - a else a
  | _ => 0
  end.

(** [int64(f)] for a finite float in range. *)
Definition f_to_i64 (f : float64) : Z := i64 (f_trunc f).

(** [new(big.Float).SetFloat64(f).Int(z)] stores the truncation in [z]:
    [SetFloat64] panics on NaN, and [Int] leaves [z] (zero here) unchanged on an
    infinity. *)
Definition big_of_float (f : float64) : outcome Z :=
  match f with
  | S754_nan => Panic "Float.SetFloat64(NaN)"
  | _ => Done (f_trunc f)
  end.

(** ** big.Float multiplication *)

Definition bitlen (z : Z) : Z := if z =? 0 then 0 else Z.log2 (Z.abs z) + 1.

(** Round [n * 2^e] ([n >= 0]) to [p] bits, to nearest even. *)
Definition big_round (p n e : Z) : Z * Z :=
  let s := bitlen n - p in
  if s <=? 0 then (n, e)
  else
    let q := n / 2 ^ s in
    let r := n mod 2 ^ s in
    let half := 2 ^ (s - 1) in
    let q' := if r <? half then q
              else if half <? r then q + 1
              else if Z.even q then q else q + 1 in
    (q', e + s).

Definition big_trunc (x : Z * Z) : Z :=
  if 0 <=? x.2 then x.1 * 2 ^ x.2 else x.1 / 2 ^ (- x.2).

(** [new(big.Float).Mul(SetInt(n), SetFloat64(f)).Int(nil)] for a finite
    [f >= 0]: [SetInt] keeps [max(bitlen, 64)] bits, [SetFloat64] 53, and
    the product is rounded to the larger precision. *)
Definition big_mul_int (n : Z) (f : float64) : Z :=
  match f with
  | S754_finite _ m e =>
      Z.sgn n * big_trunc (big_round (Z.max (bitlen n) 64) (Z.abs n * Zpos m) e)
  | _ => 0
  end.

Lemma big_round_pos p n e : 0 <= n -> 0 <= (big_round p n e).1.
Proof.
  intros Hn. unfold big_round. destruct (Z.leb_spec (bitlen n - p) 0); simpl; [done|].
  pose proof (Z.div_pos n (2 ^ (bitlen n - p)) Hn ltac:(apply Z.pow_pos_nonneg; lia)).
  repeat case_match; lia.
Qed.

Lemma big_mul_int_pos n f : 0 <= n -> 0 <= big_mul_int n f.
Proof.
  intros Hn. destruct f as [| | |s m e]; simpl; try done. unfold big_trunc.
  pose proof (big_round_pos (Z.max (bitlen n) 64) (Z.abs n * Zpos m) e ltac:(lia)).
  apply Z.mul_nonneg_nonneg; [lia|]. case_match; bool_to_prop.
  - apply Z.mul_nonneg_nonneg; [done|]. apply Z.pow_nonneg. lia.
  - apply Z.div_pos; [done|]. apply Z.pow_pos_nonneg; lia.
Qed.

(** ** NaN

    Where NaN can come from: rounding never makes one, and an addition, a
    division or a product only makes one from NaN, from infinities or from [0/0]. *)

Definition is_nan (f : float64) : bool := match f with S754_nan => true | _ => false end.

Definition is_finite (f : float64) : bool :=
  match f with S754_zero _ | S754_finite _ _ _ => true | _ => false end.

Definition pos_finite (f : float64) : bool :=
  match f with S754_finite false _ _ => true | _ => false end.

Lemma iter_pos_inv {A} (P : A -> Prop) (f : A -> A) n x :
  (forall y, P y -> P (f y)) -> P x -> P (SpecFloat.iter_pos f n x).
Proof. intros Hf. revert x. induction n; intros x Hx; simpl; eauto. Qed.

Lemma shr_1_nonneg r : 0 <= shr_m r -> 0 <= shr_m (shr_1 r).
Proof. destruct r as [[|[]|] ? ?]; simpl; lia. Qed.

Lemma shr_fexp_nonneg m e l : 0 <= m -> 0 <= shr_m (shr_fexp fprec femax m e l).1.
Proof.
  intros Hm. unfold shr_fexp, shr. case_match; simpl;
    [|apply iter_pos_inv; [exact shr_1_nonneg|]|]; by destruct l as [|[]].
Qed.

Lemma round_not_nan s m e l : 0 <= m -> is_nan (binary_round_aux fprec femax s m e l) = false.
Proof.
  intros Hm. unfold binary_round_aux.
  pose proof (shr_fexp_nonneg m e l Hm) as H1. destruct (shr_fexp _ _ m e l) as [r1 e1]. simpl in H1.
  set (m1 := round_nearest_even (shr_m r1) (loc_of_shr_record r1)).
  assert (Hm1 : 0 <= m1) by (subst m1; destruct r1 as [? [] []]; simpl in *; repeat case_match; lia).
  pose proof (shr_fexp_nonneg m1 e1 loc_Exact Hm1) as H2.
  destruct (shr_fexp _ _ m1 e1 loc_Exact) as [r2 e2]. simpl in H2.
  destruct (shr_m r2); [done|by case_match|lia].
Qed.

Lemma fadd_finite x y : is_finite (fadd x y) = true -> is_finite x = true /\ is_finite y = true.
Proof. destruct x as [|[]| |], y as [|[]| |]; done. Qed.

Lemma fdiv_not_nan x y : is_finite x = true -> pos_finite y = true -> is_nan (fdiv x y) = false.
Proof.
  destruct x as [| | |s1 m1 e1], y as [| | |[] m2 e2]; try done. intros _ _.
  unfold fdiv, SFdiv, SFdiv_core_binary. set (s := _ - _ - _).
  destruct (Z.div_eucl _ (Zpos m2)) as [q r] eqn:E. apply round_not_nan.
  pose proof (f_equal fst E) as Eq. simpl in Eq. rewrite <- Eq.
  change (0 <= (match s with Zpos _ => Z.shiftl (Zpos m1) s | Z0 => Zpos m1 | Zneg _ => 0 end) / Zpos m2).
  apply Z.div_pos; [|lia]. destruct s; try lia. apply Z.shiftl_nonneg. lia.
Qed.

Lemma fmul_not_nan x y : pos_finite x = true -> is_nan y = false -> is_nan (fmul x y) = false.
Proof. destruct x as [| | |[] ? ?], y; try done. intros _ _. apply round_not_nan. lia. Qed.

Example f_tenth : f_ratio 1 10 = S754_finite false 7205759403792794 (-56).
Proof. vm_compute. reflexivity. Qed.

Example big_mul_tenth : big_mul_int 100 (f_ratio 1 10) = 10.
Proof. vm_compute. reflexivity. Qed.
