(* ===== verification/Curves.v ===== *)
(** * Reward curves and concentration caps ([src/rewards/curves.go],
      [src/rewards/types.go])

    [ComputeRewards] turns contributors into scores and splits the revenue in
    proportion to them, in [float64]; [ApplyConcentrationCaps] caps large shares
    and redistributes the excess in [big.Int].  The integer part is verified for
    all inputs: the caps never create wei, never lose more than one wei per
    uncapped contributor when there is one, and never make a reward negative. *)

From Stdlib Require Import String.
From S2P Require Import Prelude Float64.

(** ** Data ([types.go]) *)

Record StorageContributor := mkContributor {
  sc_PeerID : string;
  sc_Address : bytes;
  sc_BytesStored : Z;
  sc_ByteHours : Z;
  sc_ChunksStored : Z;
  sc_ChallengesPassed : Z;
  sc_ChallengesFailed : Z;
  sc_RedundancyScore : float64;
  sc_JoinedAt : Z;
  sc_LastSeen : Z;
}.

Record ContributorScore := mkScore {
  cs_PeerID : string;
  cs_Address : bytes;
  cs_ByteHours : Z;
  cs_ChallengeRate : float64;
  cs_RedundancyBonus : float64;
  cs_RawScore : float64;
  cs_CurvedScore : float64;
  cs_RewardWei : Z;
}.

(** [Config] without the operator key and pool address, which only the pool
    client uses. *)
Record Config := mkConfig {
  EpochDuration : Z;
  ChallengeFrequency : Z;
  ChallengeTimeout : Z;
  MinChallengesPerEpoch : Z;
  OptimalBytesMin : Z;
  OptimalBytesMax : Z;
  SmallPenaltyRate : float64;
  WhalePenaltyRate : float64;
  MaxNetworkShare : float64;
  RedundancyMinimum : Z;
  FailedChallengeSlash : float64;
  ChallengeWeight : float64;
  RedundancyWeight : float64;
}.

Definition Second : Z := 1000000000.

Definition DefaultConfig : Config := {|
  EpochDuration := 24 * 3600 * Second;
  ChallengeFrequency := 15 * 60 * Second;
  ChallengeTimeout := 30 * Second;
  MinChallengesPerEpoch := 10;
  OptimalBytesMin := 10 * 1024 * 1024 * 1024;
  OptimalBytesMax := 100 * 1024 * 1024 * 1024;
  SmallPenaltyRate := f_ratio 1 2;
  WhalePenaltyRate := f_ratio 3 10;
  MaxNetworkShare := f_ratio 1 10;
  RedundancyMinimum := 3;
  FailedChallengeSlash := f_ratio 1 10;
  ChallengeWeight := f_ratio 1 5;
  RedundancyWeight := f_ratio 1 10 |}.

Definition NewContributor (peer : string) (address : bytes) (now1 now2 : Z) : StorageContributor :=
  mkContributor peer address 0 0 0 0 0 f0 now1 now2.

Definition ChallengePassRate (c : StorageContributor) : float64 :=
  let total := i64 (sc_ChallengesPassed c + sc_ChallengesFailed c) in
  if total =? 0 then f0 else fdiv (f_of_Z (sc_ChallengesPassed c)) (f_of_Z total).

(** ** The middle-out curve *)

Record MiddleOutCurve := mkCurve {
  OptimalMin : Z;
  OptimalMax : Z;
  SmallPenalty : float64;
  WhalePenalty : float64;
}.

Definition NewMiddleOutCurve (cfg : Config) : MiddleOutCurve :=
  mkCurve (OptimalBytesMin cfg) (OptimalBytesMax cfg) (SmallPenaltyRate cfg) (WhalePenaltyRate cfg).

Section curve.
(** [math.Log] and [math.Pow]. *)
Context (math_Log : float64 -> float64) (math_Pow : float64 -> float64 -> float64).

Definition Efficiency (c : MiddleOutCurve) (bytes : Z) : float64 :=
  if bytes =? 0 then f0
  else if (OptimalMin c <=? bytes) && (bytes <=? OptimalMax c) then f1
  else if bytes <? OptimalMin c then
    let ratio := fdiv (f_of_Z bytes) (f_of_Z (OptimalMin c)) in
    fadd (SmallPenalty c) (fmul (fsub f1 (SmallPenalty c)) ratio)
  else
    let excessRatio := fdiv (f_of_Z bytes) (f_of_Z (OptimalMax c)) in
    let decay := fdiv f1 (fadd f1 (math_Log excessRatio)) in
    fadd (WhalePenalty c) (fmul (fsub f1 (WhalePenalty c)) decay).

(** One iteration of the scoring loop. *)
Definition score_of (c : MiddleOutCurve) (cfg : Config) (contrib : StorageContributor)
    : ContributorScore :=
  let rate := ChallengePassRate contrib in
  let byteHoursFloat := f_of_Z (sc_ByteHours contrib) in
  let baseWeight := fsub (fsub f1 (ChallengeWeight cfg)) (RedundancyWeight cfg) in
  let weightedScore :=
    fadd (fadd baseWeight (fmul (ChallengeWeight cfg) rate))
         (fmul (RedundancyWeight cfg) (sc_RedundancyScore contrib)) in
  let raw := fmul byteHoursFloat weightedScore in
  let raw :=
    if 0 <? sc_ChallengesFailed contrib
    then fmul raw (math_Pow (fsub f1 (FailedChallengeSlash cfg)) (f_of_Z (sc_ChallengesFailed contrib)))
    else raw in
  mkScore (sc_PeerID contrib) (sc_Address contrib) (sc_ByteHours contrib) rate
    (sc_RedundancyScore contrib) raw (fmul raw (Efficiency c (sc_BytesStored contrib))) 0.

Definition set_reward (w : Z) (s : ContributorScore) : ContributorScore :=
  mkScore (cs_PeerID s) (cs_Address s) (cs_ByteHours s) (cs_ChallengeRate s)
    (cs_RedundancyBonus s) (cs_RawScore s) (cs_CurvedScore s) w.

(** The payout loop. *)
Fixpoint payout (revFloat total : float64) (scores : list ContributorScore)
    : outcome (list ContributorScore) :=
  match scores with
  | [] => Done []
  | s :: t =>
      let share := fdiv (cs_CurvedScore s) total in
      let rewardFloat := fmul revFloat share in
      let! w := big_of_float rewardFloat in
      let! r := payout revFloat total t in
      Done (set_reward w s :: r)
  end.

(** The sum accumulated by the scoring loop. *)
Definition curved_total (scores : list ContributorScore) : float64 :=
  fold_left (fun t s => fadd t (cs_CurvedScore s)) scores f0.

Definition ComputeRewards (c : MiddleOutCurve) (contributors : list StorageContributor)
    (totalRevenue : Z) (cfg : Config) : outcome (list ContributorScore) :=
  if (length contributors =? 0)%nat then Done []
  else
    let scores := map (score_of c cfg) contributors in
    let totalCurvedScore := curved_total scores in
    if fltb f0 totalCurvedScore && (0 <? totalRevenue)
    then payout (f_of_Z totalRevenue) totalCurvedScore scores
    else Done (map (set_reward 0) scores).
End curve.

(** ** Concentration caps *)

Definition total_rewards (scores : list ContributorScore) : Z :=
  fold_left (fun t s => t + cs_RewardWei s) scores 0.

Definition is_capped (maxReward : Z) (s : ContributorScore) : bool := maxReward <? cs_RewardWei s.

(** The first loop: lower the rewards above the cap, accumulate the excess. *)
Definition cap_score (maxReward : Z) (s : ContributorScore) : ContributorScore :=
  if is_capped maxReward s then set_reward maxReward s else s.

Definition cap_excess (maxReward : Z) (scores : list ContributorScore) : Z :=
  fold_left (fun e s => if is_capped maxReward s then e + (cs_RewardWei s - maxReward) else e) scores 0.

Definition non_capped_total (maxReward : Z) (scores : list ContributorScore) : Z :=
  fold_left (fun t s => if is_capped maxReward s then t else t + cs_RewardWei s) scores 0.

(** The second loop: a capped score keeps the cap, another gets its share of
    the excess ([big.Int.Div] is Euclidean division). *)
Definition redistribute (maxReward excess nonCapped : Z) (s : ContributorScore) : ContributorScore :=
  if is_capped maxReward s then set_reward maxReward s
  else set_reward (cs_RewardWei s + cs_RewardWei s * excess / nonCapped) s.

Definition ApplyConcentrationCaps (scores : list ContributorScore) (maxShare : float64)
    : outcome (list ContributorScore) :=
  if (length scores =? 0)%nat || fleb maxShare f0 || fleb f1 maxShare then Done scores
  else
    let totalRewards := total_rewards scores in
    if totalRewards =? 0 then Done scores
    else match maxShare with
    | SpecFloat.S754_nan => Panic "Float.SetFloat64(NaN)"
    | _ =>
      let maxReward := big_mul_int totalRewards maxShare in
      let excess := cap_excess maxReward scores in
      if excess =? 0 then Done (map (cap_score maxReward) scores)
      else
        let nonCappedTotal := non_capped_total maxReward scores in
        if nonCappedTotal =? 0 then Done (map (cap_score maxReward) scores)
        else Done (map (redistribute maxReward excess nonCappedTotal) scores)
    end.

(** What identifies and scores a contributor, apart from the reward. *)
Definition score_key (s : ContributorScore) : ContributorScore := set_reward 0 s.

Lemma map_key_same (f : ContributorScore -> ContributorScore) scores :
  (forall s, score_key (f s) = score_key s) -> map score_key (map f scores) = map score_key scores.
Proof. intros H. rewrite map_map. apply map_ext. done. Qed.

(** ** Scoring returns

    [ComputeRewards] panics only when an infinity reaches the payout loop. *)

Lemma curved_total_finite scores a :
  is_finite (fold_left (fun t s => fadd t (cs_CurvedScore s)) scores a) = true ->
  is_finite a = true /\ Forall (fun s => is_finite (cs_CurvedScore s) = true) scores.
Proof.
  revert a. induction scores as [|s l IH]; intros a H; simpl in *; [done|].
  apply IH in H as [[Ha Hs]%fadd_finite Hl]. by split; [|constructor].
Qed.

Lemma payout_total rev total scores :
  pos_finite rev = true -> pos_finite total = true ->
  Forall (fun s => is_finite (cs_CurvedScore s) = true) scores ->
  exists r, payout rev total scores = Done r /\ map score_key r = map score_key scores.
Proof.
  intros Hr Ht. induction 1 as [|s l Hs Hl (r & E & Hk)]; simpl; [by exists []|].
  pose proof (fmul_not_nan rev _ Hr (fdiv_not_nan _ total Hs Ht)) as Hn.
  rewrite E. unfold big_of_float. destruct (fmul rev _); try done;
    (eexists; split; [done|]; simpl; by rewrite Hk).
Qed.

Lemma fltb_pos_finite f : is_finite f = true -> fltb f0 f = true -> pos_finite f = true.
Proof. by destruct f as [[]|[]| |[]]. Qed.

(** The scores are those of [score_of]; only the reward is filled in. *)
Lemma ComputeRewards_keys math_Log math_Pow c contributors revenue cfg scores' :
  ComputeRewards math_Log math_Pow c contributors revenue cfg = Done scores' ->
  map score_key scores' = map (score_of math_Log math_Pow c cfg) contributors.
Proof.
  unfold ComputeRewards. destruct (Nat.eqb_spec (length contributors) 0) as [E|E].
  { apply nil_length_inv in E as ->. by intros [= <-]. }
  set (scores := map (score_of math_Log math_Pow c cfg) contributors).
  assert (Hk : map score_key scores = scores) by (subst scores; by rewrite map_map).
  case_match; [|intros [= <-]; by rewrite map_map].
  generalize (curved_total scores), (f_of_Z revenue). intros t f. rewrite <- Hk at 2. clear.
  revert scores'. induction scores as [|s l IH]; intros r H; simpl in *; [by injection H as <-|].
  destruct (big_of_float _); try done. destruct (payout f t l) eqn:E; try done.
  injection H as <-. simpl. by rewrite (IH _ eq_refl).
Qed.

Lemma rewards_done math_Log math_Pow c contributors revenue cfg :
  is_finite (curved_total (map (score_of math_Log math_Pow c cfg) contributors)) = true ->
  (0 < revenue -> pos_finite (f_of_Z revenue) = true) ->
  exists scores', ComputeRewards math_Log math_Pow c contributors revenue cfg = Done scores'.
Proof.
  intros Hf Hr. unfold ComputeRewards. case_match; [by eexists|]. case_match eqn:E; [|by eexists].
  apply andb_true_iff in E as [E1 E2%Z.ltb_lt].
  destruct (payout_total (f_of_Z revenue) _ (map (score_of math_Log math_Pow c cfg) contributors)
    (Hr E2) (fltb_pos_finite _ Hf E1)) as (r & -> & _); [|by eexists].
  by apply curved_total_finite in Hf as [_ ?].
Qed.

(** scoring returns.  When the sum of the curved scores is finite and a
    positive revenue converts to a finite positive [float64], [ComputeRewards] does
    not panic, and it produces one score per contributor, in order, that differs
    from the contributor's score only in the reward. *)
Theorem compute_rewards_total math_Log math_Pow c contributors revenue cfg :
  is_finite (curved_total (map (score_of math_Log math_Pow c cfg) contributors)) = true ->
  (0 < revenue -> pos_finite (f_of_Z revenue) = true) ->
  exists scores', ComputeRewards math_Log math_Pow c contributors revenue cfg = Done scores' /\
    map score_key scores' = map (score_of math_Log math_Pow c cfg) contributors.
Proof.
  intros Hf Hr. destruct (rewards_done math_Log math_Pow c contributors revenue cfg Hf Hr) as [scores' E].
  exists scores'. split; [done|by eapply ComputeRewards_keys].
Qed.

(** One contributor in the optimal range, all challenges untested. *)
Definition demo_contributor : StorageContributor :=
  mkContributor "p" zero20 (10 * 1024 * 1024 * 1024) 1000 1 0 0 f0 0 0.

Lemma compute_rewards_total_witness :
  exists scores', ComputeRewards (fun x => x) (fun x _ => x) (NewMiddleOutCurve DefaultConfig)
      [demo_contributor; demo_contributor] 1000000 DefaultConfig = Done scores' /\
    map score_key scores' =
    map (score_of (fun x => x) (fun x _ => x) (NewMiddleOutCurve DefaultConfig) DefaultConfig)
      [demo_contributor; demo_contributor].
Proof. apply compute_rewards_total; [|intros _]; vm_compute; reflexivity. Defined.

(** ** The caps conserve the rewards *)

Lemma fold_sum_if {A} (c : A -> bool) (f : A -> Z) l a :
  fold_left (fun t x => if c x then t else t + f x) l a = a + sumZ (map (fun x => if c x then 0 else f x) l).
Proof.
  revert a. induction l as [|x l IH]; intros a; simpl; [lia|]. rewrite IH. case_match; lia.
Qed.

Section caps.
Context (maxReward : Z).
Abbreviation R := cs_RewardWei.
Abbreviation capped := (is_capped maxReward).

Lemma total_rewards_sum scores : total_rewards scores = sumZ (map R scores).
Proof. unfold total_rewards. by rewrite fold_sum. Qed.

Lemma cap_excess_sum scores :
  cap_excess maxReward scores = sumZ (map (fun s => if capped s then R s - maxReward else 0) scores).
Proof.
  unfold cap_excess. change 0 with (0 + 0) at 1.
  assert (H : forall a, fold_left (fun e s => if capped s then e + (R s - maxReward) else e) scores a =
              a + sumZ (map (fun s => if capped s then R s - maxReward else 0) scores)).
  { induction scores as [|s l IH]; intros a; simpl; [lia|]. rewrite IH. case_match; lia. }
  apply H.
Qed.

Lemma non_capped_sum scores :
  non_capped_total maxReward scores = sumZ (map (fun s => if capped s then 0 else R s) scores).
Proof. unfold non_capped_total. by rewrite fold_sum_if. Qed.

(** Capping lowers the total by exactly the excess. *)
Lemma cap_total scores :
  total_rewards (map (cap_score maxReward) scores) = total_rewards scores - cap_excess maxReward scores.
Proof.
  rewrite !total_rewards_sum, cap_excess_sum.
  induction scores as [|s l IH]; simpl; [done|]. rewrite IH. unfold cap_score at 1.
  destruct (is_capped maxReward s); simpl; lia.
Qed.

(** The shares of the excess add up to at most the excess, and fall short of
    it by less than one wei per contributor. *)
Lemma redistribute_total scores ex nc :
  0 <= ex -> 0 < nc ->
  let given := sumZ (map (fun s => if capped s then 0 else R s * ex / nc) scores) in
  total_rewards (map (redistribute maxReward ex nc) scores) =
  total_rewards scores - cap_excess maxReward scores + given /\
  given * nc <= non_capped_total maxReward scores * ex /\
  non_capped_total maxReward scores * ex <= (given + Z.of_nat (length scores)) * nc.
Proof.
  intros He Hn. rewrite !total_rewards_sum, cap_excess_sum, non_capped_sum. simpl.
  induction scores as [|s l (IH1 & IH2 & IH3)]; simpl; [lia|].
  unfold redistribute at 1. rewrite IH1. destruct (is_capped maxReward s); simpl.
  - split_and!; lia || nia.
  - pose proof (Z.mul_div_le (R s * ex) nc Hn).
    pose proof (Z.mul_succ_div_gt (R s * ex) nc Hn). split_and!; lia || nia.
Qed.

Lemma redistribute_nonneg scores ex nc :
  0 <= maxReward -> 0 <= ex -> 0 < nc -> Forall (fun s => 0 <= R s) scores ->
  Forall (fun s => 0 <= R s) (map (redistribute maxReward ex nc) scores).
Proof.
  intros Hm He Hn F. apply Forall_map. eapply Forall_impl; [exact F|]. intros s Hs. simpl in *.
  unfold redistribute. case_match; simpl; [done|].
  pose proof (Z.div_pos (R s * ex) nc ltac:(by apply Z.mul_nonneg_nonneg) Hn). lia.
Qed.

Lemma cap_nonneg scores :
  0 <= maxReward -> Forall (fun s => 0 <= R s) scores ->
  Forall (fun s => 0 <= R s) (map (cap_score maxReward) scores).
Proof.
  intros Hm F. apply Forall_map. eapply Forall_impl; [exact F|]. intros s Hs. simpl in *.
  unfold cap_score. by case_match.
Qed.

Lemma cap_excess_nonneg scores : 0 <= cap_excess maxReward scores.
Proof.
  rewrite cap_excess_sum. apply sumZ_nonneg, Forall_map, Forall_forall. intros s _. simpl.
  unfold is_capped. case_match; bool_to_prop; lia.
Qed.

Lemma non_capped_nonneg scores :
  Forall (fun s => 0 <= R s) scores -> 0 <= non_capped_total maxReward scores.
Proof.
  intros F. rewrite non_capped_sum. apply sumZ_nonneg, Forall_map.
  eapply Forall_impl; [exact F|]. intros s Hs. simpl in *. by case_match.
Qed.
End caps.

Lemma caps_keys scores maxShare scores' :
  ApplyConcentrationCaps scores maxShare = Done scores' ->
  map score_key scores' = map score_key scores.
Proof.
  unfold ApplyConcentrationCaps. intros H. repeat (case_match; try done); injection H as <-; try done;
    apply map_key_same; intros x; unfold cap_score, redistribute; by case_match.
Qed.

Lemma caps_done scores maxShare :
  is_nan maxShare = false -> exists scores', ApplyConcentrationCaps scores maxShare = Done scores'.
Proof.
  intros Hn. unfold ApplyConcentrationCaps.
  destruct maxShare; try done; repeat (case_match; [by eexists|]); by eexists.
Qed.

(** What [ApplyConcentrationCaps] returns and how it treats the total. *)
Lemma caps_total scores maxShare :
  Forall (fun s => 0 <= cs_RewardWei s) scores -> maxShare <> SpecFloat.S754_nan ->
  exists scores', ApplyConcentrationCaps scores maxShare = Done scores' /\
    Forall (fun s => 0 <= cs_RewardWei s) scores' /\
    map score_key scores' = map score_key scores /\
    total_rewards scores' <= total_rewards scores /\
    (0 < non_capped_total (big_mul_int (total_rewards scores) maxShare) scores ->
     total_rewards scores - Z.of_nat (length scores) <= total_rewards scores').
Proof.
  intros F Hnan. unfold ApplyConcentrationCaps.
  destruct (_ || _ || _); [exists scores; split_and!; try done; intros; lia|].
  case_match; [exists scores; split_and!; try done; intros; lia|].
  set (m := big_mul_int (total_rewards scores) maxShare).
  assert (Hm : 0 <= m).
  { apply big_mul_int_pos. rewrite total_rewards_sum. apply sumZ_nonneg, Forall_map. done. }
  pose proof (cap_excess_nonneg m scores) as He. pose proof (non_capped_nonneg m scores F) as Hn.
  assert (Hkc : map score_key (map (cap_score m) scores) = map score_key scores).
  { apply map_key_same. intros s. unfold cap_score. by case_match. }
  assert (Hkr : forall e n, map score_key (map (redistribute m e n) scores) = map score_key scores).
  { intros e n. apply map_key_same. intros s. unfold redistribute. by case_match. }
  replace (match maxShare with SpecFloat.S754_nan => _ | _ => _ end) with
    (if cap_excess m scores =? 0 then Done (map (cap_score m) scores)
     else if non_capped_total m scores =? 0 then Done (map (cap_score m) scores)
     else Done (map (redistribute m (cap_excess m scores) (non_capped_total m scores)) scores))
    by (by destruct maxShare).
  destruct (Z.eqb_spec (cap_excess m scores) 0) as [E0|E0];
    [|destruct (Z.eqb_spec (non_capped_total m scores) 0) as [E1|E1]];
    (eexists; split; [done|]; split; [by (apply cap_nonneg || apply redistribute_nonneg; try lia)|];
     split; [done|]).
  - rewrite cap_total. lia.
  - rewrite cap_total. lia.
  - destruct (redistribute_total m scores (cap_excess m scores) (non_capped_total m scores))
      as (-> & H1 & H2); [lia..|]. nia.
Qed.

(** Pigeonhole: values that add up to more than [n * m] are not all at most [m]. *)
Lemma sumZ_pigeonhole (l : list Z) m :
  Z.of_nat (length l) * m < sumZ l -> Exists (fun x => m < x) l.
Proof.
  induction l as [|x l IH]; simpl; [lia|]. intros H.
  destruct (Z.ltb_spec m x); [by left|]. right. apply IH. lia.
Qed.

(** capping conserves wei.  On non-negative rewards and any share that is
    not NaN, [ApplyConcentrationCaps] returns; no reward becomes negative, nothing
    but rewards changes, the total never grows, and when some uncapped reward
    receives the excess, less than one wei per contributor is lost to rounding. *)
Theorem caps_conserve scores maxShare :
  Forall (fun s => 0 <= cs_RewardWei s) scores -> maxShare <> SpecFloat.S754_nan ->
  exists scores', ApplyConcentrationCaps scores maxShare = Done scores' /\
    Forall (fun s => 0 <= cs_RewardWei s) scores' /\
    map score_key scores' = map score_key scores /\
    total_rewards scores' <= total_rewards scores /\
    (0 < non_capped_total (big_mul_int (total_rewards scores) maxShare) scores ->
     total_rewards scores - Z.of_nat (length scores) <= total_rewards scores').
Proof. apply caps_total. Qed.

Definition demo_score (w : Z) : ContributorScore := mkScore "p" zero20 0 f0 f0 f0 f0 w.

Lemma caps_conserve_witness :
  let scores := map demo_score [500; 300; 100; 60; 40] in
  exists scores', ApplyConcentrationCaps scores (f_ratio 3 10) = Done scores' /\
    Forall (fun s => 0 <= cs_RewardWei s) scores' /\
    map score_key scores' = map score_key scores /\
    total_rewards scores' <= total_rewards scores /\
    (0 < non_capped_total (big_mul_int (total_rewards scores) (f_ratio 3 10)) scores ->
     total_rewards scores - Z.of_nat (length scores) <= total_rewards scores').
Proof.
  intros scores. apply caps_conserve; [|vm_compute; discriminate].
  apply (bool_decide_unpack _). vm_compute. exact I.
Defined.

(** the cap is not enforced on small networks.  Whenever the cap times the
    number of contributors, plus one wei each, stays below the total and some
    contributor is under the cap with a positive reward, redistributing the excess
    pushes some contributor above the cap again (there is no second round). *)
Theorem caps_exceeded scores maxShare :
  let total := total_rewards scores in
  let cap := big_mul_int total maxShare in
  Forall (fun s => 0 <= cs_RewardWei s) scores -> maxShare <> SpecFloat.S754_nan ->
  Z.of_nat (length scores) * (cap + 1) < total ->
  0 < non_capped_total cap scores ->
  exists scores', ApplyConcentrationCaps scores maxShare = Done scores' /\
    Exists (fun s => cap < cs_RewardWei s) scores'.
Proof.
  intros total cap F Hn Hlt Hpos.
  destruct (caps_total scores maxShare F Hn) as (scores' & E & _ & Hk & _ & Ht).
  exists scores'. split; [done|]. specialize (Ht Hpos).
  apply Exists_exists.
  destruct (proj1 (Exists_exists _ _) (sumZ_pigeonhole (map cs_RewardWei scores') cap
    ltac:(rewrite <- total_rewards_sum, length_map;
          assert (length scores' = length scores) as ->
            by (apply (f_equal length) in Hk; by rewrite !length_map in Hk); lia)))
    as (w & Hin & Hw).
  apply list_elem_of_fmap in Hin as (s & -> & Hs). by exists s.
Qed.

Lemma caps_exceeded_witness :
  exists scores', ApplyConcentrationCaps (map demo_score [91; 9]) (f_ratio 1 10) = Done scores' /\
    Exists (fun s => 10 < cs_RewardWei s) scores'.
Proof.
  apply (caps_exceeded (map demo_score [91; 9]) (f_ratio 1 10)).
  - apply (bool_decide_unpack _). vm_compute. exact I.
  - vm_compute. discriminate.
  - vm_compute. reflexivity.
  - vm_compute. reflexivity.
Defined.

(** The payout can exceed the revenue.  The revenue goes through [float64]
    before it is split, so [2^53 + 3] wei become [2^53 + 4] wei of rewards for a
    single contributor, before any cap. *)
Theorem rewards_exceed_revenue math_Log math_Pow :
  exists scores,
    ComputeRewards math_Log math_Pow (NewMiddleOutCurve DefaultConfig) [demo_contributor]
      (2 ^ 53 + 3) DefaultConfig = Done scores /\
    total_rewards scores = 2 ^ 53 + 4 /\ 2 ^ 53 + 3 < total_rewards scores.
Proof. eexists. split; [vm_compute; reflexivity|]. vm_compute. done. Qed.

Lemma all_capped m scores :
  Forall (fun s => 0 <= m < cs_RewardWei s) scores ->
  map (cap_score m) scores = map (set_reward m) scores /\ non_capped_total m scores = 0.
Proof.
  intros F. rewrite non_capped_sum. induction F as [|s l [_ Hs] _ [IH1 IH2]]; simpl; [done|].
  unfold cap_score at 1, is_capped at 1 2. by rewrite (proj2 (Z.ltb_lt _ _) Hs), IH1, IH2.
Qed.

(** excess over the cap is burnt when everybody is capped.  If every reward
    is above the cap (two equal contributors under the default ten percent are
    enough), nothing is redistributed and only the cap per contributor is paid,
    although the whole revenue is booked as distributed. *)
Theorem caps_burn_excess scores maxShare :
  let cap := big_mul_int (total_rewards scores) maxShare in
  scores <> [] -> fleb maxShare f0 = false -> fleb f1 maxShare = false -> is_nan maxShare = false ->
  Forall (fun s => 0 <= cap < cs_RewardWei s) scores ->
  ApplyConcentrationCaps scores maxShare = Done (map (set_reward cap) scores) /\
  total_rewards (map (set_reward cap) scores) = Z.of_nat (length scores) * cap.
Proof.
  intros cap Hne H0 H1 Hn F. split.
  - destruct (all_capped cap scores F) as [Hc Hz].
    unfold ApplyConcentrationCaps. rewrite H0, H1, (proj2 (Nat.eqb_neq _ _)) by (by destruct scores).
    simpl. case_match eqn:Et.
    { exfalso. apply Z.eqb_eq in Et. rewrite total_rewards_sum in Et.
      destruct F as [|s l Hs F]; [done|]. simpl in Et.
      pose proof (sumZ_nonneg (map cs_RewardWei l)) as Hp.
      rewrite Forall_map in Hp. specialize (Hp ltac:(eapply Forall_impl; [exact F|]; simpl; lia)). lia. }
    fold cap. rewrite Hz, Hc. destruct maxShare; try done; by case_match.
  - rewrite total_rewards_sum, map_map. simpl. clear Hne H0 H1 F. generalize cap as m. clear cap. intros m. induction scores as [|s l IH]; simpl; [done|].
    rewrite IH. lia.
Qed.

Lemma caps_burn_excess_witness :
  ApplyConcentrationCaps (map demo_score [500; 500]) (f_ratio 1 10) =
    Done (map (set_reward 100) (map demo_score [500; 500])) /\
  total_rewards (map (set_reward 100) (map demo_score [500; 500])) = 200.
Proof.
  apply (caps_burn_excess (map demo_score [500; 500]) (f_ratio 1 10)).
  - discriminate.
  - vm_compute. reflexivity.
  - vm_compute. reflexivity.
  - vm_compute. reflexivity.
  - apply (bool_decide_unpack _). vm_compute. exact I.
Defined.
