(* ===== verification/Epoch.v ===== *)
(** * The epoch manager ([src/rewards/epoch.go])

    [EpochManager] accumulates revenue and contributor statistics and, at the
    end of an epoch, scores the contributors, caps the rewards, publishes the
    Merkle tree of the rewards and starts the next epoch.

    Go iterates maps in an unspecified order that may differ from one loop to
    the next; the orders are the section variables [iter_c] (contributors) and
    [iter_p] (provider records, chosen per contributor), constrained only to be
    permutations of the map's entries.  [time.Now] is an argument. *)

From Stdlib Require Import String.
From S2P Require Import Prelude Signing Providers Float64 Curves Merkle.

Record EpochSnapshot := mkSnapshot {
  EpochNumber : Z;
  StartTime : Z;
  EndTime : Z;
  TotalRevenue : Z;
  TotalByteHours : Z;
  Contributors : list ContributorScore;
  MerkleRoot : bytes;
  MerkleLeaves : list MerkleLeaf;
}.

Record EpochManager := mkManager {
  currentEpoch : Z;
  epochStart : Z;
  accumulatedRevenue : Z;
  contributors : gmap string StorageContributor;
  history : list EpochSnapshot;
  em_curve : MiddleOutCurve;
  em_config : Config;
}.

Definition NewEpochManager (now : Z) (cfg : Config) : EpochManager :=
  mkManager 0 now 0 ∅ [] (NewMiddleOutCurve cfg) cfg.

Definition set_contributors (m : gmap string StorageContributor) (em : EpochManager) : EpochManager :=
  mkManager (currentEpoch em) (epochStart em) (accumulatedRevenue em) m (history em)
    (em_curve em) (em_config em).

(** [None] is the nil pointer. *)
Definition AddRevenue (em : EpochManager) (amount : option Z) : EpochManager :=
  match amount with
  | None => em
  | Some a =>
      if Z.sgn a <=? 0 then em
      else mkManager (currentEpoch em) (epochStart em) (accumulatedRevenue em + a) (contributors em)
             (history em) (em_curve em) (em_config em)
  end.

Definition GetAccumulatedRevenue (em : EpochManager) : Z := accumulatedRevenue em.

Definition UpdateContributor (em : EpochManager) (peerID : string) (address : bytes)
    (bytesStored chunksStored now1 now2 now3 : Z) : EpochManager :=
  let contrib :=
    match contributors em !! peerID with
    | Some c => c
    | None => NewContributor peerID address now1 now2
    end in
  let contrib :=
    mkContributor (sc_PeerID contrib) address bytesStored (sc_ByteHours contrib) chunksStored
      (sc_ChallengesPassed contrib) (sc_ChallengesFailed contrib) (sc_RedundancyScore contrib)
      (sc_JoinedAt contrib) now3 in
  set_contributors (<[peerID := contrib]> (contributors em)) em.

Definition count_challenge (passed : bool) (c : StorageContributor) : StorageContributor :=
  mkContributor (sc_PeerID c) (sc_Address c) (sc_BytesStored c) (sc_ByteHours c) (sc_ChunksStored c)
    (if passed then i64 (sc_ChallengesPassed c + 1) else sc_ChallengesPassed c)
    (if passed then sc_ChallengesFailed c else i64 (sc_ChallengesFailed c + 1))
    (sc_RedundancyScore c) (sc_JoinedAt c) (sc_LastSeen c).

Definition RecordChallengeResult (em : EpochManager) (peerID : string) (passed : bool) : EpochManager :=
  match contributors em !! peerID with
  | None => em
  | Some c => set_contributors (<[peerID := count_challenge passed c]> (contributors em)) em
  end.

(** ** Finalization *)

Definition Hour : Z := 3600 * Second.

(** [Duration.Hours]. *)
Definition Duration_Hours (d : Z) : float64 :=
  fadd (f_of_Z (Z.quot d Hour)) (fdiv (f_of_Z (Z.rem d Hour)) (f_of_Z Hour)).

Definition set_byte_hours (b : Z) (c : StorageContributor) : StorageContributor :=
  mkContributor (sc_PeerID c) (sc_Address c) (sc_BytesStored c) b (sc_ChunksStored c)
    (sc_ChallengesPassed c) (sc_ChallengesFailed c) (sc_RedundancyScore c) (sc_JoinedAt c) (sc_LastSeen c).

Definition set_redundancy (r : float64) (c : StorageContributor) : StorageContributor :=
  mkContributor (sc_PeerID c) (sc_Address c) (sc_BytesStored c) (sc_ByteHours c) (sc_ChunksStored c)
    (sc_ChallengesPassed c) (sc_ChallengesFailed c) r (sc_JoinedAt c) (sc_LastSeen c).

(** The first loop: byte-hours of the epoch, in thousandths of an hour. *)
Definition add_byte_hours (hours : float64) (c : StorageContributor) : StorageContributor :=
  let byteHours := i64 (sc_BytesStored c) * f_to_i64 (fmul hours (f_of_Z 1000)) / 1000 in
  set_byte_hours (sc_ByteHours c + byteHours) c.

(** One iteration over the providers in [calculateRedundancyScores]. *)
Definition redundancy_step (cfg : Config) (peer : string) (acc : float64 * Z)
    (entry : bytes * list ProviderRecord) : float64 * Z :=
  if existsb (fun r => bool_decide (pr_PeerID r = peer)) entry.2 then
    let count := Z.of_nat (length entry.2) in
    (if count <? RedundancyMinimum cfg then fadd acc.1 (fdiv f1 (f_of_Z count)) else acc.1, acc.2 + 1)
  else acc.

Definition redundancy_of (cfg : Config) (entries : list (bytes * list ProviderRecord))
    (c : StorageContributor) : StorageContributor :=
  let r := fold_left (redundancy_step cfg (sc_PeerID c)) entries (f0, 0) in
  if 0 <? r.2 then set_redundancy (fdiv r.1 (f_of_Z r.2)) c else c.

(** The leaves appended for the scores with a positive reward. *)
Definition reward_leaves (scores : list ContributorScore) : list MerkleLeaf :=
  map (fun s => mkLeaf (cs_Address s) (cs_RewardWei s))
    (List.filter (fun s => 0 <? Z.sgn (cs_RewardWei s)) scores).

Section finalize.
Context {C : Crypto}.
Context (math_Log : float64 -> float64) (math_Pow : float64 -> float64 -> float64).
Context (iter_c : gmap string StorageContributor -> list (string * StorageContributor)).
Context (iter_p : string -> gmap bytes (list ProviderRecord) -> list (bytes * list ProviderRecord)).

(** [registry] is [None] for the nil pointer. *)
Definition calculateRedundancyScores (registry : option ProviderRegistry) (now : Z)
    (em : EpochManager) : EpochManager :=
  match registry with
  | None => em
  | Some pr =>
      let allProviders := All pr now in
      if (size allProviders =? 0)%nat then em
      else
        set_contributors
          (map_imap (fun peer c => Some (redundancy_of (em_config em) (iter_p peer allProviders) c))
             (contributors em)) em
  end.

(** Times: [t0] of [time.Since], [t1] inside [All], [t2] of [EndTime] and [t3]
    of the next start. *)
Definition FinalizeEpoch (registry : option ProviderRegistry) (t0 t1 t2 t3 : Z) (em : EpochManager)
    : outcome (EpochManager * EpochSnapshot) :=
  let hours := Duration_Hours (time_Sub t0 (epochStart em)) in
  let em := set_contributors (add_byte_hours hours <$> contributors em) em in
  let em := calculateRedundancyScores registry t1 em in
  let contribList := (iter_c (contributors em)).*2 in
  let! scores :=
    ComputeRewards math_Log math_Pow (em_curve em) contribList (accumulatedRevenue em) (em_config em) in
  let! scores := ApplyConcentrationCaps scores (MaxNetworkShare (em_config em)) in
  let '(leaves, merkleRoot) := ComputeMerkleRoot (reward_leaves scores) in
  let totalByteHours :=
    fold_left (fun t kc => t + sc_ByteHours kc.2) (iter_c (contributors em)) 0 in
  let snapshot :=
    mkSnapshot (currentEpoch em) (epochStart em) t2 (accumulatedRevenue em) totalByteHours
      scores merkleRoot leaves in
  Done (mkManager (u64 (currentEpoch em + 1)) t3 0
          (set_byte_hours 0 <$> contributors em) (history em ++ [snapshot])
          (em_curve em) (em_config em), snapshot).

(** The exported operations and their sequences. *)
Inductive em_op :=
| OpRevenue (amount : option Z)
| OpUpdate (peer : string) (address : bytes) (bytesStored chunksStored now1 now2 now3 : Z)
| OpChallenge (peer : string) (passed : bool)
| OpFinalize (registry : option ProviderRegistry) (t0 t1 t2 t3 : Z).

Definition em_exec (em : EpochManager) (op : em_op) : outcome EpochManager :=
  match op with
  | OpRevenue a => Done (AddRevenue em a)
  | OpUpdate p a b c n1 n2 n3 => Done (UpdateContributor em p a b c n1 n2 n3)
  | OpChallenge p b => Done (RecordChallengeResult em p b)
  | OpFinalize r t0 t1 t2 t3 =>
      let! p := FinalizeEpoch r t0 t1 t2 t3 em in Done p.1
  end.

Fixpoint em_run (em : EpochManager) (ops : list em_op) : outcome EpochManager :=
  match ops with
  | [] => Done em
  | op :: t => let! em' := em_exec em op in em_run em' t
  end.
End finalize.

Definition CurrentEpoch (em : EpochManager) : Z := currentEpoch em.
Definition ContributorCount (em : EpochManager) : Z := Z.of_nat (size (contributors em)).
Definition GetHistory (em : EpochManager) : list EpochSnapshot := history em.

(** ** Bookkeeping of the finalization *)

Section finalize_theory.
Context {C : Crypto}.
Context (math_Log : float64 -> float64) (math_Pow : float64 -> float64 -> float64).
Context (iter_c : gmap string StorageContributor -> list (string * StorageContributor)).
Context (iter_p : string -> gmap bytes (list ProviderRecord) -> list (bytes * list ProviderRecord)).
Abbreviation Finalize := (FinalizeEpoch math_Log math_Pow iter_c iter_p).
Abbreviation Run := (em_run math_Log math_Pow iter_c iter_p).

(** The contributors as they are scored. *)
Definition scored (registry : option ProviderRegistry) (t0 t1 : Z) (em : EpochManager)
    : gmap string StorageContributor :=
  contributors (calculateRedundancyScores iter_p registry t1
    (set_contributors (add_byte_hours (Duration_Hours (time_Sub t0 (epochStart em))) <$> contributors em) em)).

Lemma calc_rest registry now em :
  let em' := calculateRedundancyScores iter_p registry now em in
  (currentEpoch em', epochStart em', accumulatedRevenue em', history em', em_curve em', em_config em') =
  (currentEpoch em, epochStart em, accumulatedRevenue em, history em, em_curve em, em_config em).
Proof. unfold calculateRedundancyScores. by repeat case_match. Qed.

Lemma scored_lookup registry t0 t1 em p c :
  scored registry t0 t1 em !! p = Some c ->
  exists c0, contributors em !! p = Some c0 /\ sc_Address c = sc_Address c0 /\ sc_PeerID c = sc_PeerID c0.
Proof.
  unfold scored, calculateRedundancyScores. intros H.
  assert (exists c1, (add_byte_hours (Duration_Hours (time_Sub t0 (epochStart em))) <$> contributors em) !! p
                     = Some c1 /\ sc_Address c = sc_Address c1 /\ sc_PeerID c = sc_PeerID c1)
    as (c1 & H1 & H2 & H3).
  { destruct registry as [pr|]; [|by exists c]. case_match; [by exists c|].
    cbn [contributors set_contributors] in H. rewrite map_lookup_imap in H.
    apply bind_Some in H as (c1 & H1 & [= <-]). exists c1. split; [done|].
    unfold redundancy_of. by case_match. }
  rewrite lookup_fmap in H1. apply fmap_Some in H1 as (c0 & H1 & ->). by exists c0.
Qed.

(** What a successful finalization did, field by field. *)
Lemma FinalizeEpoch_inv registry t0 t1 t2 t3 em em' snap :
  Finalize registry t0 t1 t2 t3 em = Done (em', snap) ->
  exists scores,
    ComputeRewards math_Log math_Pow (em_curve em) (iter_c (scored registry t0 t1 em)).*2
      (accumulatedRevenue em) (em_config em) = Done scores /\
    ApplyConcentrationCaps scores (MaxNetworkShare (em_config em)) = Done (Contributors snap) /\
    ComputeMerkleRoot (reward_leaves (Contributors snap)) = (MerkleLeaves snap, MerkleRoot snap) /\
    EpochNumber snap = currentEpoch em /\ TotalRevenue snap = accumulatedRevenue em /\
    em' = mkManager (u64 (currentEpoch em + 1)) t3 0 (set_byte_hours 0 <$> scored registry t0 t1 em)
            (history em ++ [snap]) (em_curve em) (em_config em).
Proof.
  unfold FinalizeEpoch, scored. set (em0 := set_contributors _ em).
  pose proof (calc_rest registry t1 em0) as R. simpl in R.
  destruct (calculateRedundancyScores iter_p registry t1 em0) as [ce es ar cs h cu co].
  simpl in *. injection R as -> -> -> -> -> ->. intros H.
  apply outcome_bind_Done in H as (scores & E1 & H).
  apply outcome_bind_Done in H as (scores' & E2 & H).
  destruct (ComputeMerkleRoot _) as [leaves root] eqn:E3. injection H as <- <-.
  exists scores. by split_and!.
Qed.

Lemma FinalizeEpoch_done registry t0 t1 t2 t3 em scores scores' :
  ComputeRewards math_Log math_Pow (em_curve em) (iter_c (scored registry t0 t1 em)).*2
    (accumulatedRevenue em) (em_config em) = Done scores ->
  ApplyConcentrationCaps scores (MaxNetworkShare (em_config em)) = Done scores' ->
  exists p, Finalize registry t0 t1 t2 t3 em = Done p.
Proof.
  unfold FinalizeEpoch, scored. set (em0 := set_contributors _ em).
  pose proof (calc_rest registry t1 em0) as R. simpl in R.
  destruct (calculateRedundancyScores iter_p registry t1 em0) as [ce es ar cs h cu co].
  simpl in *. injection R as -> -> -> -> -> ->. intros -> E2. simpl. rewrite E2. simpl.
  case_match. by eexists.
Qed.

Lemma snapshot_addresses registry t0 t1 t2 t3 em em' snap :
  Finalize registry t0 t1 t2 t3 em = Done (em', snap) ->
  map cs_Address (Contributors snap) = map sc_Address (iter_c (scored registry t0 t1 em)).*2.
Proof.
  intros (scores & E1 & E2 & _)%FinalizeEpoch_inv.
  apply ComputeRewards_keys in E1. apply caps_keys in E2. rewrite E1 in E2.
  apply (f_equal (map cs_Address)) in E2. rewrite !map_map in E2. rewrite map_map. exact E2.
Qed.
End finalize_theory.

(** ** Theorems *)

(** Revenue credited by a sequence of operations. *)
Definition credited (ops : list em_op) : Z :=
  sumZ (map (fun op => match op with OpRevenue (Some a) => Z.max 0 a | _ => 0 end) ops).

(** The books: nothing credited is lost or counted twice, epochs are numbered
    in order, every snapshot publishes the tree of its own rewards, and a
    contributor is filed under its own peer. *)
Definition books {C : Crypto} (em : EpochManager) (credit : Z) : Prop :=
  accumulatedRevenue em + sumZ (map TotalRevenue (history em)) = credit /\
  0 <= accumulatedRevenue em /\
  currentEpoch em = u64 (Z.of_nat (length (history em))) /\
  (forall i s, history em !! i = Some s -> EpochNumber s = u64 (Z.of_nat i) /\ 0 <= TotalRevenue s /\
     ComputeMerkleRoot (reward_leaves (Contributors s)) = (MerkleLeaves s, MerkleRoot s)) /\
  map_Forall (fun p c => sc_PeerID c = p) (contributors em).

Section ledger.
Context {C : Crypto}.
Context (math_Log : float64 -> float64) (math_Pow : float64 -> float64 -> float64).
Context (iter_c : gmap string StorageContributor -> list (string * StorageContributor)).
Context (iter_p : string -> gmap bytes (list ProviderRecord) -> list (bytes * list ProviderRecord)).

Lemma books_finalize registry t0 t1 t2 t3 em em' snap credit :
  FinalizeEpoch math_Log math_Pow iter_c iter_p registry t0 t1 t2 t3 em = Done (em', snap) ->
  books em credit -> books em' credit.
Proof.
  intros (scores & _ & _ & E3 & En & Er & ->)%FinalizeEpoch_inv (B1 & B2 & B3 & B4 & B5).
  split_and!; simpl.
  - rewrite map_app, sumZ_app. simpl. lia.
  - done.
  - rewrite B3, length_app. simpl. unfold u64. rewrite Z.add_mod_idemp_l by lia. f_equal. lia.
  - intros i s Hs. apply lookup_app_Some in Hs as [Hs|[Hi Hs]]; [by apply B4|].
    apply list_lookup_singleton_Some in Hs as [Hz <-].
    rewrite En, Er, B3. split_and!; [do 2 f_equal; lia|done..].
  - intros p c Hc. rewrite lookup_fmap in Hc. apply fmap_Some in Hc as (c1 & Hc & ->). simpl.
    apply scored_lookup in Hc as (c0 & Hc0 & _ & ->). exact (B5 _ _ Hc0).
Qed.

Lemma books_exec em op em' credit :
  em_exec math_Log math_Pow iter_c iter_p em op = Done em' ->
  books em credit -> books em' (credit + credited [op]).
Proof.
  destruct op as [[a|]|p a b c n1 n2 n3|p passed|r t0 t1 t2 t3]; simpl; intros H B.
  - injection H as <-. unfold AddRevenue. destruct B as (B1 & B2 & B3 & B4 & B5).
    unfold credited. simpl. destruct (Z.leb_spec (Z.sgn a) 0); split_and!; simpl; done || lia.
  - injection H as <-. unfold credited. simpl. by rewrite Z.add_0_r.
  - injection H as <-. unfold credited. simpl. rewrite Z.add_0_r.
    destruct B as (B1 & B2 & B3 & B4 & B5). split_and!; try done. simpl.
    apply map_Forall_insert_2; [|done]. simpl. case_match eqn:E; [|done]. exact (B5 _ _ E).
  - injection H as <-. unfold credited. simpl. rewrite Z.add_0_r. unfold RecordChallengeResult.
    case_match eqn:E; [|done]. destruct B as (B1 & B2 & B3 & B4 & B5). split_and!; try done. simpl.
    apply map_Forall_insert_2; [|done]. exact (B5 _ _ E).
  - apply outcome_bind_Done in H as ([em1 snap] & E & H). injection H as <-. simpl.
    unfold credited. simpl. rewrite Z.add_0_r. by eapply books_finalize.
Qed.

Lemma books_run ops em em' credit :
  em_run math_Log math_Pow iter_c iter_p em ops = Done em' ->
  books em credit -> books em' (credit + credited ops).
Proof.
  revert em credit. induction ops as [|op ops IH]; intros em credit H B; simpl in *.
  - injection H as <-. unfold credited. simpl. by rewrite Z.add_0_r.
  - apply outcome_bind_Done in H as (em1 & E & H). apply (books_exec _ _ _ _ E) in B.
    apply (IH _ _ H) in B. unfold credited in *. simpl in *. by rewrite Z.add_0_r, <- Z.add_assoc in B.
Qed.
End ledger.

(** C6: the epoch ledger.  After any sequence of operations on a new manager,
    the accumulated revenue plus the revenue of all published epochs is exactly
    the revenue credited, epochs are numbered consecutively, and each snapshot's
    root and leaves are those of its own contributors. *)
Theorem epoch_ledger {C : Crypto} math_Log math_Pow iter_c iter_p now cfg ops em :
  em_run math_Log math_Pow iter_c iter_p (NewEpochManager now cfg) ops = Done em ->
  books em (credited ops).
Proof.
  intros H. rewrite <- (Z.add_0_l (credited ops)). eapply books_run; [done|].
  by split_and!.
Qed.

Definition demo_peer (b : byte) : bytes := replicate 20 b.

Definition demo_run : list em_op :=
  [OpUpdate "a" (demo_peer Byte.x01) (20 * 2 ^ 30) 4 0 0 0;
   OpUpdate "b" (demo_peer Byte.x02) (20 * 2 ^ 30) 4 0 0 0;
   OpRevenue (Some 1000000); OpRevenue (Some (-5)); OpChallenge "a" true;
   OpFinalize (Some (Registry_Add (NewProviderRegistry 100) 0 zero32 "a" 7)) Hour 1 Hour Hour;
   OpRevenue (Some 77)].

Lemma epoch_ledger_witness :
  exists em, em_run (C := Toy.crypto) (fun x => x) (fun x _ => x) map_to_list (fun _ => map_to_list)
               (NewEpochManager 0 DefaultConfig) demo_run = Done em /\
    books (C := Toy.crypto) em 1000077.
Proof.
  destruct (em_run (C := Toy.crypto) (fun x => x) (fun x _ => x) map_to_list (fun _ => map_to_list)
              (NewEpochManager 0 DefaultConfig) demo_run) as [em|m|] eqn:E.
  - exists em. split; [reflexivity|].
    exact (epoch_ledger (C := Toy.crypto) _ _ _ _ _ _ _ _ E).
  - exfalso. vm_compute in E. discriminate E.
  - exfalso. vm_compute in E. discriminate E.
Defined.

(** Contributors with different peers have different payout addresses. *)
Definition distinct_addresses (m : gmap string StorageContributor) : Prop :=
  forall p q c d, m !! p = Some c -> m !! q = Some d -> sc_Address c = sc_Address d -> p = q.

Lemma distinct_addresses_NoDup (m : gmap string StorageContributor) l :
  l ≡ₚ map_to_list m -> distinct_addresses m -> NoDup (sc_Address <$> l.*2).
Proof.
  intros P D. rewrite P, <- list_fmap_compose. 
  apply NoDup_fmap_2_strong; [|apply NoDup_map_to_list].
  intros [p c] [q d] Hp%elem_of_map_to_list Hq%elem_of_map_to_list E. simpl in E.
  pose proof (D _ _ _ _ Hp Hq E). by simplify_eq.
Qed.

Lemma reward_leaves_addresses scores :
  leaf_Address <$> reward_leaves scores `sublist_of` cs_Address <$> scores.
Proof.
  induction scores as [|s l IH]; simpl; [constructor|]. unfold reward_leaves in *. simpl.
  case_match; simpl; by constructor.
Qed.

Lemma elem_of_reward_leaves s scores :
  s ∈ scores -> 0 < cs_RewardWei s -> mkLeaf (cs_Address s) (cs_RewardWei s) ∈ reward_leaves scores.
Proof.
  intros Hs Hp. unfold reward_leaves. apply list_elem_of_fmap. exists s. split; [done|].
  apply list_elem_of_In, filter_In. split; [by apply list_elem_of_In|].
  apply Z.ltb_lt. lia.
Qed.

Lemma length_MerkleLeaves {C : Crypto} math_Log math_Pow iter_c iter_p registry t0 t1 t2 t3 em em' snap :
  FinalizeEpoch math_Log math_Pow iter_c iter_p registry t0 t1 t2 t3 em = Done (em', snap) ->
  (length (MerkleLeaves snap) <= length (Contributors snap))%nat.
Proof.
  intros (scores & _ & _ & E3 & _)%FinalizeEpoch_inv. 
  assert (MerkleLeaves snap = (ComputeMerkleRoot (reward_leaves (Contributors snap))).1) as -> by by rewrite E3.
  pose proof (sublist_length _ _ (reward_leaves_addresses (Contributors snap))) as H.
  rewrite !length_fmap in H. unfold ComputeMerkleRoot. case_match; simpl; [done|].
  by rewrite length_sort_leaves.
Qed.

(** The leaf of a positive reward is in the snapshot's tree. *)
Lemma snapshot_claimable {C : Crypto} {L : CryptoLaws C} math_Log math_Pow iter_c iter_p
    registry t0 t1 t2 t3 em em' snap s :
  (forall m, iter_c m ≡ₚ map_to_list m) ->
  distinct_addresses (contributors em) ->
  FinalizeEpoch math_Log math_Pow iter_c iter_p registry t0 t1 t2 t3 em = Done (em', snap) ->
  s ∈ Contributors snap -> 0 < cs_RewardWei s < 2 ^ 256 ->
  exists proof, (ComputeMerkleProof (MerkleLeaves snap) (cs_Address s)).2 = Ok proof /\
    contract_verify proof (MerkleRoot snap) (contract_leaf (cs_Address s) (cs_RewardWei s)) = true.
Proof.
  intros Hi D F Hs Hr. pose proof (snapshot_addresses _ _ _ _ _ _ _ _ _ _ _ _ F) as Ha.
  apply FinalizeEpoch_inv in F as (scores & _ & _ & E3 & _).
  set (ls := reward_leaves (Contributors snap)) in *.
  assert (Hn : NoDup (leaf_Address <$> ls)).
  { eapply sublist_NoDup; [|apply reward_leaves_addresses].
    change (cs_Address <$> Contributors snap) with (map cs_Address (Contributors snap)). rewrite Ha.
    eapply distinct_addresses_NoDup; [apply Hi|]. intros p q c d Hp Hq E.
    apply scored_lookup in Hp as (c0 & Hp & Ec & _), Hq as (d0 & Hq & Ed & _).
    apply (D _ _ _ _ Hp Hq). congruence. }
  assert (P : MerkleLeaves snap ≡ₚ ls).
  { assert (MerkleLeaves snap = (ComputeMerkleRoot ls).1) as -> by by rewrite E3.
    unfold ComputeMerkleRoot. case_match; [done|apply sort_leaves_perm]. }
  destruct (proof_verifies (MerkleLeaves snap) (mkLeaf (cs_Address s) (cs_RewardWei s)))
    as (proof & Hp & Hv).
  - by rewrite P.
  - rewrite P. apply elem_of_reward_leaves; [done|lia].
  - simpl. lia.
  - exists proof. split; [done|]. rewrite (root_permutation _ ls), E3 in Hv; [done|by rewrite P|done].
Qed.

(** a finalized reward can be claimed.  With distinct payout addresses and
    whatever the map iteration orders were, every contributor with a positive
    reward (below 2^256 wei) in a snapshot gets from [ComputeMerkleProof], applied
    to the snapshot's leaves, a proof that the contract accepts against the
    snapshot's root for exactly that reward. *)
Theorem finalized_reward_claimable {C : Crypto} {L : CryptoLaws C} math_Log math_Pow iter_c iter_p
    registry t0 t1 t2 t3 em em' snap s :
  (forall m, iter_c m ≡ₚ map_to_list m) ->
  distinct_addresses (contributors em) ->
  FinalizeEpoch math_Log math_Pow iter_c iter_p registry t0 t1 t2 t3 em = Done (em', snap) ->
  s ∈ Contributors snap -> 0 < cs_RewardWei s < 2 ^ 256 ->
  exists proof, (ComputeMerkleProof (MerkleLeaves snap) (cs_Address s)).2 = Ok proof /\
    contract_verify proof (MerkleRoot snap) (contract_leaf (cs_Address s) (cs_RewardWei s)) = true.
Proof. apply snapshot_claimable. Qed.

(** A manager with two contributors and one million wei, before finalization. *)
Definition demo_em : EpochManager :=
  match em_run (C := Toy.crypto) (fun x => x) (fun x _ => x) map_to_list (fun _ => map_to_list)
          (NewEpochManager 0 DefaultConfig) (take 5 demo_run) with
  | Done em => em
  | _ => NewEpochManager 0 DefaultConfig
  end.

Lemma demo_distinct : distinct_addresses (contributors demo_em).
Proof.
  intros p q c d Hp%elem_of_map_to_list Hq%elem_of_map_to_list E.
  assert (F : Forall (fun x => Forall (fun y => sc_Address x.2 = sc_Address y.2 -> x.1 = y.1)
                (map_to_list (contributors demo_em))) (map_to_list (contributors demo_em))).
  { apply (bool_decide_unpack _). vm_compute. exact I. }
  rewrite Forall_forall in F. specialize (F _ Hp).
  rewrite Forall_forall in F. exact (F _ Hq E).
Qed.

Definition demo_finalize : outcome (EpochManager * EpochSnapshot) :=
  FinalizeEpoch (C := Toy.crypto) (fun x => x) (fun x _ => x) map_to_list (fun _ => map_to_list)
    None Hour 1 Hour Hour demo_em.

Definition demo_snap : EpochSnapshot :=
  match demo_finalize with Done (_, s) => s | _ => mkSnapshot 0 0 0 0 0 [] [] [] end.

Lemma finalized_reward_claimable_witness :
  exists s proof, Contributors demo_snap !! 0%nat = Some s /\
    (ComputeMerkleProof (C := Toy.crypto) (MerkleLeaves demo_snap) (cs_Address s)).2 = Ok proof /\
    contract_verify (C := Toy.crypto) proof (MerkleRoot demo_snap)
      (contract_leaf (C := Toy.crypto) (cs_Address s) (cs_RewardWei s)) = true.
Proof.
  destruct (Contributors demo_snap !! 0%nat) as [s|] eqn:Es; [|exfalso; vm_compute in Es; discriminate Es].
  destruct demo_finalize as [[em' snap]| |] eqn:E; [|exfalso; vm_compute in E; discriminate E..].
  assert (Hsnap : demo_snap = snap) by (unfold demo_snap; rewrite E; reflexivity).
  destruct (finalized_reward_claimable (C := Toy.crypto) (fun x => x) (fun x _ => x) map_to_list
              (fun _ => map_to_list) None Hour 1 Hour Hour demo_em em' snap s) as (proof & H1 & H2).
  - reflexivity.
  - exact demo_distinct.
  - exact E.
  - rewrite <- Hsnap. eapply list_elem_of_lookup_2. exact Es.
  - assert (B : (fun o => match o with Some s => (0 <? cs_RewardWei s) && (cs_RewardWei s <? 2 ^ 256) | None => false end)
                  (Contributors demo_snap !! 0%nat) = true) by (vm_compute; reflexivity).
    rewrite Es in B. apply andb_true_iff in B as [B1%Z.ltb_lt B2%Z.ltb_lt]. split; assumption.
  - exists s, proof. rewrite Hsnap. split; [reflexivity|]. split; assumption.
Defined.

(** C7: an epoch always closes.  Unless the scores overflow [float64], the revenue
    does, or the configured largest share is not a number, [FinalizeEpoch] returns a snapshot with one score per contributor, and the
    manager starts the next epoch with no revenue, no byte-hours and the snapshot
    appended to its history. *)
Theorem finalize_total {C : Crypto} math_Log math_Pow iter_c iter_p registry t0 t1 t2 t3 em :
  let cs := (iter_c (scored iter_p registry t0 t1 em)).*2 in
  is_finite (curved_total (map (score_of math_Log math_Pow (em_curve em) (em_config em)) cs)) = true ->
  (0 < accumulatedRevenue em -> pos_finite (f_of_Z (accumulatedRevenue em)) = true) ->
  is_nan (MaxNetworkShare (em_config em)) = false ->
  exists em' snap,
    FinalizeEpoch math_Log math_Pow iter_c iter_p registry t0 t1 t2 t3 em = Done (em', snap) /\
    map cs_Address (Contributors snap) = map sc_Address cs /\
    TotalRevenue snap = accumulatedRevenue em /\ accumulatedRevenue em' = 0 /\
    history em' = history em ++ [snap] /\ epochStart em' = t3 /\
    map_Forall (fun _ c => sc_ByteHours c = 0) (contributors em').
Proof.
  intros cs Hf Hr Hn.
  destruct (rewards_done math_Log math_Pow _ cs _ _ Hf Hr) as [scores E1].
  destruct (caps_done scores _ Hn) as [scores' E2].
  destruct (FinalizeEpoch math_Log math_Pow iter_c iter_p registry t0 t1 t2 t3 em)
    as [[em' snap]|m|] eqn:F.
  - exists em', snap. split; [done|]. pose proof (snapshot_addresses _ _ _ _ _ _ _ _ _ _ _ _ F) as Ha.
    apply FinalizeEpoch_inv in F as (? & _ & _ & _ & _ & HR & ->). split_and!; try done.
    intros p c. simpl. rewrite lookup_fmap. by intros (c0 & _ & ->)%fmap_Some.
  - by destruct (FinalizeEpoch_done _ _ _ _ _ _ _ t2 t3 _ _ _ E1 E2) as [? F']; rewrite F' in F.
  - by destruct (FinalizeEpoch_done _ _ _ _ _ _ _ t2 t3 _ _ _ E1 E2) as [? F']; rewrite F' in F.
Qed.

Lemma finalize_total_witness :
  exists em' snap, demo_finalize = Done (em', snap) /\ TotalRevenue snap = 1000000 /\
    accumulatedRevenue em' = 0.
Proof.
  destruct (finalize_total (C := Toy.crypto) (fun x => x) (fun x _ => x) map_to_list
              (fun _ => map_to_list) None Hour 1 Hour Hour demo_em)
    as (em' & snap & H1 & _ & H2 & H3 & _).
  - vm_compute. reflexivity.
  - intros _. vm_compute. reflexivity.
  - vm_compute. reflexivity.
  - exists em', snap. split; [exact H1|]. split; [|exact H3]. rewrite H2. vm_compute. reflexivity.
Defined.
