(* ===== verification/Challenge.v ===== *)
(** * Storage challenges ([src/rewards/challenge.go])

    A challenger that holds a chunk sends its identifier and a fresh nonce; the
    challenged peer answers with the Keccak hash of the chunk followed by the
    nonce.  The libp2p stream is a parameter: what the peer's side does with the
    97 bytes written.  [crypto/rand] supplies the nonce.

    A record is shared between [pendingOut] and, later, [completed]; it is
    deleted from the first before it is changed, so values model the pointers. *)

From Stdlib Require Import String.
From S2P Require Import Prelude Signing Store.

Definition MsgChallenge : byte := Byte.x10.
Definition MsgChallengeResponse : byte := Byte.x11.

Record ChallengeRecord := mkChallenge {
  ch_ID : bytes;
  ch_ChunkID : bytes;
  ch_Challenger : string;
  ch_Challenged : string;
  ch_Nonce : bytes;
  ch_ExpectedHash : bytes;
  ch_IssuedAt : Z;
  ch_Deadline : Z;
  ch_Response : bytes;
  ch_Passed : bool;
  ch_Verified : bool;
}.

(** [host] is [None] for the nil interface, else the local peer. *)
Record ChallengeManager := mkChallengeManager {
  cm_host : option string;
  pendingOut : gmap bytes ChallengeRecord;
  completed : list ChallengeRecord;
  cm_timeout : Z;
}.

Definition NewChallengeManager (h : option string) (timeout : Z) : ChallengeManager :=
  mkChallengeManager h ∅ [] timeout.

(** What happens to a stream: it does not open, the write fails, or the peer
    gets the message and these bytes come back before the stream ends. *)
Inductive exchange := NoStream | WriteFailed | Received (reply : bytes).

Definition verdict (response : bytes) (passed : bool) (r : ChallengeRecord) : ChallengeRecord :=
  mkChallenge (ch_ID r) (ch_ChunkID r) (ch_Challenger r) (ch_Challenged r) (ch_Nonce r)
    (ch_ExpectedHash r) (ch_IssuedAt r) (ch_Deadline r) response passed true.

Definition add_pending (r : ChallengeRecord) (cm : ChallengeManager) : ChallengeManager :=
  mkChallengeManager (cm_host cm) (<[ch_ID r := r]> (pendingOut cm)) (completed cm) (cm_timeout cm).

(** Delete from [pendingOut], append to [completed]. *)
Definition complete (r : ChallengeRecord) (cm : ChallengeManager) : ChallengeManager :=
  mkChallengeManager (cm_host cm) (delete (ch_ID r) (pendingOut cm)) (completed cm ++ [r]) (cm_timeout cm).

(** The record and the callback's argument. *)
Definition markFailed (cm : ChallengeManager) (r : ChallengeRecord) : ChallengeManager * ChallengeRecord :=
  let r' := verdict (ch_Response r) false r in (complete r' cm, r').

Section challenge.
Context {C : Crypto}.

(** The part of [IssueChallenge] after the challenge was written: the reply
    is read and judged. *)
Definition judge (cm : ChallengeManager) (r : ChallengeRecord) (reply : bytes)
    : ChallengeManager * result unit * ChallengeRecord :=
  if (length reply <? 65)%nat then
    let '(cm, r) := markFailed cm r in (cm, Err "failed to read response", r)
  else
    let resp := take 65 reply in
    if negb (bytes_eqb (take 1 resp) [MsgChallengeResponse]) then
      let '(cm, r) := markFailed cm r in (cm, Err "unexpected response type", r)
    else if negb (bytes_eqb (take 32 (drop 1 resp)) (ch_ID r)) then
      let '(cm, r) := markFailed cm r in (cm, Err "challenge ID mismatch", r)
    else
      let responseHash := take 32 (drop 33 resp) in
      let r := verdict responseHash (bytes_eqb responseHash (ch_ExpectedHash r)) r in
      (complete r cm, Ok tt, r).

Definition new_challenge (me target : string) (chunkID data nonce : bytes) (t1 t2 timeout : Z)
    : ChallengeRecord :=
  mkChallenge (copy_to 32 (Keccak256 (chunkID ++ nonce))) chunkID me target nonce
    (Keccak256 (data ++ nonce)) t1 (t2 + timeout) [] false false.

Definition challenge_msg (r : ChallengeRecord) : bytes :=
  MsgChallenge :: ch_ID r ++ ch_ChunkID r ++ ch_Nonce r.

(** [nonce] is [None] when [rand.Read] fails.  The last component is the
    record given to [OnChallengeComplete], if any. *)
Definition IssueChallenge (store : Store) (net : string -> bytes -> exchange) (nonce : option bytes)
    (t1 t2 : Z) (cm : ChallengeManager) (target : string) (chunkID : bytes)
    : ChallengeManager * result unit * option ChallengeRecord :=
  match cm_host cm with
  | None => (cm, Err "no libp2p host", None)
  | Some me =>
      match Store_Get store chunkID with
      | None => (cm, Err "cannot challenge for chunk we don't have", None)
      | Some data =>
          match nonce with
          | None => (cm, Err "failed to generate nonce", None)
          | Some nonce =>
              let r := new_challenge me target chunkID data nonce t1 t2 (cm_timeout cm) in
              match net target (challenge_msg r) with
              | NoStream => (cm, Err "failed to open challenge stream", None)
              | WriteFailed => (cm, Err "failed to send challenge", None)
              | Received reply =>
                  let '(cm, e, r) := judge (add_pending r cm) r reply in (cm, e, Some r)
              end
          end
      end
  end.

(** The challenged side: the bytes written to the stream, [[]] when the
    handler returns without an answer. *)
Definition Challenge_handleStream (store : Store) (input : bytes) : bytes :=
  match input with
  | [] => []
  | t :: rest =>
      if negb (bytes_eqb [t] [MsgChallenge]) then []
      else if (length rest <? 96)%nat then []
      else
        let header := take 96 rest in
        let challengeID := take 32 header in
        let chunkID := take 32 (drop 32 header) in
        let nonce := take 32 (drop 64 header) in
        let responseHash :=
          match Store_Get store chunkID with
          | Some data => copy_to 32 (Keccak256 (data ++ nonce))
          | None => zero32
          end in
        MsgChallengeResponse :: challengeID ++ responseHash
  end.
End challenge.

Definition GetCompletedChallenges (cm : ChallengeManager) : ChallengeManager * list ChallengeRecord :=
  (mkChallengeManager (cm_host cm) (pendingOut cm) [] (cm_timeout cm), completed cm).

Definition PendingCount (cm : ChallengeManager) : Z := Z.of_nat (size (pendingOut cm)).

(** ** The exchange *)

Section challenge_theory.
Context {C : Crypto} {L : CryptoLaws C}.

(** What the handler answers to a well-formed challenge. *)
Definition answer (store : Store) (r : ChallengeRecord) : bytes :=
  match Store_Get store (ch_ChunkID r) with
  | Some data => Keccak256 (data ++ ch_Nonce r)
  | None => zero32
  end.

Definition record_wf (r : ChallengeRecord) : Prop :=
  length (ch_ID r) = 32%nat /\ length (ch_ChunkID r) = 32%nat /\ length (ch_Nonce r) = 32%nat.

Lemma new_challenge_wf me target chunkID data nonce t1 t2 timeout :
  length chunkID = 32%nat -> length nonce = 32%nat ->
  record_wf (new_challenge me target chunkID data nonce t1 t2 timeout).
Proof. intros Hc Hn. split_and!; simpl; [apply length_copy_to|done..]. Qed.

Lemma handle_challenge store r :
  record_wf r ->
  Challenge_handleStream store (challenge_msg r) = MsgChallengeResponse :: ch_ID r ++ answer store r.
Proof.
  intros (H1 & H2 & H3). unfold Challenge_handleStream, challenge_msg. rewrite bytes_eqb_refl. cbn [negb].
  set (rest := ch_ID r ++ ch_ChunkID r ++ ch_Nonce r).
  assert (Hl : length rest = 96%nat) by (subst rest; rewrite !length_app; lia).
  rewrite Hl, (take_ge rest) by lia. change (96 <? 96)%nat with false. cbv iota.
  assert (E1 : take 32 rest = ch_ID r) by by apply take_app_length'.
  assert (E2 : take 32 (drop 32 rest) = ch_ChunkID r)
    by (subst rest; rewrite drop_app_length' by done; by apply take_app_length').
  assert (E3 : take 32 (drop 64 rest) = ch_Nonce r).
  { subst rest. rewrite app_assoc, drop_app_length' by (rewrite length_app; lia). apply take_ge. lia. }
  rewrite E1, E2, E3. unfold answer. do 3 f_equal. case_match; [|done]. apply copy_to_id, keccak_length.
Qed.

Lemma length_answer store r : length (answer store r) = 32%nat.
Proof. unfold answer. case_match; [apply keccak_length|done]. Qed.

(** Judging a well-formed reply. *)
Lemma judge_reply cm r h :
  length (ch_ID r) = 32%nat -> length h = 32%nat ->
  judge cm r (MsgChallengeResponse :: ch_ID r ++ h) =
  (complete (verdict h (bytes_eqb h (ch_ExpectedHash r)) r) cm, Ok tt,
   verdict h (bytes_eqb h (ch_ExpectedHash r)) r).
Proof.
  intros H1 H2. unfold judge. set (reply := MsgChallengeResponse :: ch_ID r ++ h).
  assert (Hl : length reply = 65%nat) by (subst reply; simpl; rewrite length_app; lia).
  rewrite Hl, (take_ge reply) by lia. change (65 <? 65)%nat with false. cbv iota.
  assert (E1 : take 1 reply = [MsgChallengeResponse]) by done.
  assert (E2 : take 32 (drop 1 reply) = ch_ID r) by by apply take_app_length'.
  assert (E3 : take 32 (drop 33 reply) = h).
  { change (drop 33 reply) with (drop 32 (ch_ID r ++ h)). rewrite drop_app_length' by done.
    apply take_ge. lia. }
  by rewrite E1, E2, E3, !bytes_eqb_refl.
Qed.

(** Whatever comes back, a sent challenge is completed exactly once and is no
    longer pending; it passed only if the reply carries the expected hash. *)
Lemma judge_completes cm r reply cm' e r' :
  judge cm r reply = (cm', e, r') ->
  completed cm' = completed cm ++ [r'] /\ pendingOut cm' = delete (ch_ID r) (pendingOut cm) /\
  ch_ID r' = ch_ID r /\ ch_Verified r' = true /\
  (ch_Passed r' = true -> e = Ok tt /\ take 32 (drop 33 reply) = ch_ExpectedHash r).
Proof.
  unfold judge, markFailed. intros H.
  repeat (case_match; [simplify_eq/=; by split_and!|]). simplify_eq/=. split_and!; try done.
  intros Hp. apply bytes_eqb_true in Hp. split; [done|]. rewrite <- Hp.
  rewrite skipn_firstn_comm. by rewrite take_take.
Qed.
End challenge_theory.

(** The exchange with an honest provider. *)
Lemma issue_honest {C : Crypto} {L : CryptoLaws C} store remote nonce t1 t2 cm me target chunkID data :
  cm_host cm = Some me -> length chunkID = 32%nat -> length nonce = 32%nat ->
  Store_Get store chunkID = Some data -> Store_Get remote chunkID = Some data ->
  exists r cm',
    IssueChallenge store (fun _ m => Received (Challenge_handleStream remote m)) (Some nonce)
      t1 t2 cm target chunkID = (cm', Ok tt, Some r) /\
    ch_Passed r = true /\ ch_Verified r = true /\ ch_Challenged r = target /\
    completed cm' = completed cm ++ [r] /\ pendingOut cm' = delete (ch_ID r) (pendingOut cm).
Proof.
  intros Hh Hc Hn Hs Hr. unfold IssueChallenge. rewrite Hh, Hs.
  pose proof (new_challenge_wf me target chunkID data nonce t1 t2 (cm_timeout cm) Hc Hn) as W.
  set (r := new_challenge _ _ _ _ _ _ _ _) in *.
  rewrite handle_challenge, judge_reply by (done || apply length_answer || apply W).
  eexists _, _. split; [done|]. simpl. unfold answer. simpl. rewrite Hr, bytes_eqb_refl.
  split_and!; try done. apply delete_insert_eq.
Qed.

(** an honest provider passes.  When the challenger holds the chunk and the
    challenged peer runs [handleStream] over a store with the same chunk, the
    challenge returns without error, is recorded as passed and verified, and is
    pending no more. *)
Theorem challenge_honest {C : Crypto} {L : CryptoLaws C} store remote nonce t1 t2 cm me target chunkID data :
  cm_host cm = Some me -> length chunkID = 32%nat -> length nonce = 32%nat ->
  Store_Get store chunkID = Some data -> Store_Get remote chunkID = Some data ->
  exists r cm',
    IssueChallenge store (fun _ m => Received (Challenge_handleStream remote m)) (Some nonce)
      t1 t2 cm target chunkID = (cm', Ok tt, Some r) /\
    ch_Passed r = true /\ ch_Verified r = true /\ ch_Challenged r = target /\
    completed cm' = completed cm ++ [r] /\ pendingOut cm' = delete (ch_ID r) (pendingOut cm).
Proof. apply issue_honest. Qed.

(** A store with one chunk. *)
Definition demo_store : Store := mkStore {[ zero32 := bs "chunk" ]} "".

Lemma challenge_honest_witness :
  exists r cm', IssueChallenge (C := Toy.crypto) demo_store
      (fun _ m => Received (Challenge_handleStream (C := Toy.crypto) demo_store m))
      (Some zero32) 0 0 (NewChallengeManager (Some "me") 30) "peer" zero32 = (cm', Ok tt, Some r) /\
    ch_Passed r = true.
Proof.
  destruct (challenge_honest (C := Toy.crypto) demo_store demo_store zero32 0 0
    (NewChallengeManager (Some "me") 30) "me" "peer" zero32 (bs "chunk")) as (r & cm' & H1 & H2 & _);
    [reflexivity..|].
  exists r, cm'. split; assumption.
Defined.

(** no pass without the chunk.  Against any network behaviour, a challenge
    that completes is recorded once, and it is recorded as passed only if bytes 33
    to 64 of the reply are the Keccak hash of the challenger's chunk followed by the
    nonce; a peer that answers with [handleStream] but lacks the chunk fails, unless
    that hash is zero. *)
Theorem challenge_sound {C : Crypto} {L : CryptoLaws C} store net nonce t1 t2 cm target chunkID cm' e r :
  IssueChallenge store net nonce t1 t2 cm target chunkID = (cm', e, Some r) ->
  exists me data n reply, cm_host cm = Some me /\ Store_Get store chunkID = Some data /\ nonce = Some n /\
    net target (challenge_msg (new_challenge me target chunkID data n t1 t2 (cm_timeout cm))) = Received reply /\
    completed cm' = completed cm ++ [r] /\ pendingOut cm' !! ch_ID r = None /\
    (ch_Passed r = true -> take 32 (drop 33 reply) = Keccak256 (data ++ n)) /\
    (forall remote, length chunkID = 32%nat -> length n = 32%nat ->
       reply = Challenge_handleStream remote (challenge_msg (new_challenge me target chunkID data n t1 t2 (cm_timeout cm))) ->
       Store_Get remote chunkID = None -> Keccak256 (data ++ n) <> zero32 -> ch_Passed r = false).
Proof.
  unfold IssueChallenge. intros H.
  destruct (cm_host cm) as [me|] eqn:Hh; [|done]. destruct (Store_Get store chunkID) as [data|] eqn:Hs; [|done].
  destruct nonce as [n|]; [|done]. set (r0 := new_challenge _ _ _ _ _ _ _ _) in *.
  destruct (net target (challenge_msg r0)) as [| |reply] eqn:Hn; try done.
  destruct (judge (add_pending r0 cm) r0 reply) as [[cm1 e1] r1] eqn:J. injection H as -> -> ->.
  apply judge_completes in J as (J1 & J2 & J3 & J4 & J5).
  exists me, data, n, reply. split_and!; try done.
  - rewrite J2, J3. simpl. apply lookup_delete_eq.
  - intros Hp. by apply J5 in Hp as [_ ?].
  - intros remote Hc Hl -> Hr Hz. destruct (ch_Passed r) eqn:P; [|done]. exfalso. apply Hz.
    destruct (J5 eq_refl) as [_ Hk]. change (ch_ExpectedHash r0) with (Keccak256 (data ++ n)) in Hk.
    pose proof (new_challenge_wf me target chunkID data n t1 t2 (cm_timeout cm) Hc Hl) as W.
    rewrite handle_challenge in Hk by done.
    rewrite <- Hk. destruct W as (W1 & _).
    match goal with |- take 32 (drop 33 (_ :: ?x)) = _ => change (take 32 (drop 32 x) = zero32) end.
    rewrite drop_app_length' by done. unfold answer. simpl. rewrite Hr. done.
Qed.

Lemma challenge_sound_witness :
  exists cm' e r, IssueChallenge (C := Toy.crypto) demo_store (fun _ _ => Received []) (Some zero32) 0 0
      (NewChallengeManager (Some "me") 30) "peer" zero32 = (cm', e, Some r) /\
    completed cm' = [r] /\ ch_Passed r = false.
Proof.
  destruct (IssueChallenge (C := Toy.crypto) demo_store (fun _ _ => Received []) (Some zero32) 0 0
      (NewChallengeManager (Some "me") 30) "peer" zero32) as [[cm' e] [r|]] eqn:E;
    [|exfalso; vm_compute in E; discriminate E].
  exists cm', e, r. split; [reflexivity|].
  destruct (challenge_sound (C := Toy.crypto) _ _ _ _ _ _ _ _ _ _ _ E)
    as (me & data & n & reply & _ & _ & _ & Hr & Hc & _ & Hp & _).
  split; [exact Hc|]. vm_compute in E. injection E as _ _ E. rewrite <- E. reflexivity.
Defined.
