(* ===== verification/Tracker.v ===== *)
(** * The storage tracker ([src/rewards/tracker.go])

    Connects the provider registry, the challenge manager and the epoch
    manager: [updateStats] copies the announced bytes of every registered peer to
    its contributor record, [issueRandomChallenges] challenges up to three random
    providers, and the callback installed by [Start] counts the results.

    The map iteration orders and the shuffle are section variables, constrained to
    be permutations where a theorem needs it. *)

From Stdlib Require Import String.
From S2P Require Import Prelude Signing Store Providers Float64 Curves Epoch Challenge.

Record StorageTracker := mkTracker {
  addresses : gmap string bytes;
  localPeerID : string;
}.

Definition NewStorageTracker (localPeer : string) : StorageTracker := mkTracker ∅ localPeer.

Definition RegisterAddress (st : StorageTracker) (peer : string) (address : bytes) : StorageTracker :=
  mkTracker (<[peer := address]> (addresses st)) (localPeerID st).

Definition GetAddress (st : StorageTracker) (peer : string) : option bytes := addresses st !! peer.

Definition min (a b : Z) : Z := if a <? b then a else b.

(** [peerStats]: bytes and chunks of a peer, accumulated record by record. *)
Definition add_stats (stats : gmap string (Z * Z)) (r : ProviderRecord) : gmap string (Z * Z) :=
  let s := default (0, 0) (stats !! pr_PeerID r) in
  <[pr_PeerID r := (u64 (s.1 + pr_Size r), i64 (s.2 + 1))]> stats.

Definition peer_stats (entries : list (bytes * list ProviderRecord)) : gmap string (Z * Z) :=
  fold_left (fun stats e => fold_left add_stats e.2 stats) entries ∅.

Section tracker.
Context {C : Crypto}.
Context (iter_p : gmap bytes (list ProviderRecord) -> list (bytes * list ProviderRecord)).
Context (iter_s : gmap string (Z * Z) -> list (string * (Z * Z))).

(** [clock p] are the readings of [time.Now] in the call for peer [p]. *)
Definition update_one (st : StorageTracker) (clock : string -> Z * Z * Z) (em : EpochManager)
    (ps : string * (Z * Z)) : EpochManager :=
  match addresses st !! ps.1 with
  | None => em
  | Some address =>
      let '(n1, n2, n3) := clock ps.1 in UpdateContributor em ps.1 address ps.2.1 ps.2.2 n1 n2 n3
  end.

Definition updateStats (st : StorageTracker) (registry : option ProviderRegistry) (now : Z)
    (clock : string -> Z * Z * Z) (em : EpochManager) : EpochManager :=
  match registry with
  | None => em
  | Some pr => fold_left (update_one st clock) (iter_s (peer_stats (iter_p (All pr now)))) em
  end.

(** ** Challenges *)

Definition challenge_targets (st : StorageTracker) (store : Store)
    (entries : list (bytes * list ProviderRecord)) : list (bytes * string) :=
  flat_map (fun e =>
    if negb (Has store e.1) then []
    else map (fun r => (e.1, pr_PeerID r))
           (List.filter (fun r => negb (bool_decide (pr_PeerID r = localPeerID st))) e.2)) entries.

(** The callback [OnChallengeComplete] installed by [Start].  For a failed challenge
    the source runs it in a goroutine; it only counts, so the model runs it at once. *)
Definition on_complete (em : EpochManager) (r : option ChallengeRecord) : EpochManager :=
  match r with
  | None => em
  | Some r => RecordChallengeResult em (ch_Challenged r) (ch_Passed r)
  end.

Context (shuffle : list (bytes * string) -> list (bytes * string)).

(** The loop of [issueRandomChallenges]; an error is only printed.  [rnd i] and
    [clock i] are the nonce and the times of the [i]-th challenge. *)
Fixpoint challenge_loop (store : Store) (net : string -> bytes -> exchange)
    (rnd : nat -> option bytes) (clock : nat -> Z * Z) (i : nat) (targets : list (bytes * string))
    (s : ChallengeManager * EpochManager) : ChallengeManager * EpochManager :=
  match targets with
  | [] => s
  | t :: rest =>
      let '(cm, _, r) := IssueChallenge store net (rnd i) (clock i).1 (clock i).2 s.1 t.2 t.1 in
      challenge_loop store net rnd clock (S i) rest (cm, on_complete s.2 r)
  end.

Definition issueRandomChallenges (st : StorageTracker) (store : Store)
    (registry : option ProviderRegistry) (now : Z) (net : string -> bytes -> exchange)
    (rnd : nat -> option bytes) (clock : nat -> Z * Z) (s : ChallengeManager * EpochManager)
    : ChallengeManager * EpochManager :=
  match registry with
  | None => s
  | Some pr =>
      let allProviders := All pr now in
      if (size allProviders =? 0)%nat then s
      else
        let targets := challenge_targets st store (iter_p allProviders) in
        if (length targets =? 0)%nat then s
        else
          let numChallenges := min 3 (Z.of_nat (length targets)) in
          challenge_loop store net rnd clock 0 (take (Z.to_nat numChallenges) (shuffle targets)) s
  end.
End tracker.

(** ** Statistics *)

(** A peer's records among the live ones. *)
Definition peer_records (p : string) (entries : list (bytes * list ProviderRecord)) : list ProviderRecord :=
  List.filter (fun r => bool_decide (pr_PeerID r = p)) (concat entries.*2).

Definition stats_total (l : list ProviderRecord) : option (Z * Z) :=
  match l with
  | [] => None
  | _ => Some (u64 (sumZ (map pr_Size l)), i64 (Z.of_nat (length l)))
  end.

Lemma u64_add_l a b : u64 (u64 a + b) = u64 (a + b).
Proof. unfold u64. by rewrite Z.add_mod_idemp_l by lia. Qed.

Lemma i64_add_l a b : i64 (i64 a + b) = i64 (a + b).
Proof.
  unfold i64. f_equal.
  replace ((a + 2 ^ 63) mod 2 ^ 64 - 2 ^ 63 + b + 2 ^ 63) with ((a + 2 ^ 63) mod 2 ^ 64 + b) by lia.
  rewrite Z.add_mod_idemp_l by lia. f_equal. lia.
Qed.

Lemma peer_stats_concat entries :
  peer_stats entries = fold_left add_stats (concat entries.*2) ∅.
Proof.
  unfold peer_stats. generalize (∅ : gmap string (Z * Z)).
  induction entries as [|e l IH]; intros m; simpl; [done|]. by rewrite IH, fold_left_app.
Qed.

Lemma stats_snoc p l r :
  stats_total (List.filter (fun r => bool_decide (pr_PeerID r = p)) (l ++ [r])) =
  if bool_decide (pr_PeerID r = p)
  then let s := default (0, 0) (stats_total (List.filter (fun r => bool_decide (pr_PeerID r = p)) l)) in
       Some (u64 (s.1 + pr_Size r), i64 (s.2 + 1))
  else stats_total (List.filter (fun r => bool_decide (pr_PeerID r = p)) l).
Proof.
  rewrite List.filter_app. simpl. case_match; [|by rewrite app_nil_r].
  set (l' := List.filter _ l). clearbody l'. simpl.
  assert (E : stats_total (l' ++ [r]) = Some (u64 (sumZ (map pr_Size (l' ++ [r]))), i64 (Z.of_nat (length (l' ++ [r])))))
    by (destruct l'; reflexivity).
  rewrite E, map_app, sumZ_app, length_app. simpl.
  destruct l' as [|x l']; [simpl; by rewrite Z.add_0_r|]. cbn [stats_total default from_option id fst snd].
  rewrite u64_add_l, i64_add_l. do 2 f_equal; f_equal; lia.
Qed.

(** The map holds, for each peer, the totals of its records. *)
Lemma peer_stats_lookup entries p :
  peer_stats entries !! p = stats_total (peer_records p entries).
Proof.
  rewrite peer_stats_concat. unfold peer_records.
  induction (concat entries.*2) as [|r l IH] using rev_ind; [done|].
  rewrite fold_left_app, stats_snoc. simpl. unfold add_stats at 1.
  destruct (decide (pr_PeerID r = p)) as [<-|Hn].
  - rewrite lookup_insert_eq, bool_decide_true by done. by rewrite IH.
  - rewrite lookup_insert_ne, bool_decide_false by done. done.
Qed.

(** The update loop touches exactly the peers it visits. *)
Lemma update_loop_lookup st clock l em p :
  NoDup l.*1 ->
  contributors (fold_left (update_one st clock) l em) !! p =
  match addresses st !! p, (list_to_map l : gmap string (Z * Z)) !! p with
  | Some a, Some s =>
      let '(n1, n2, n3) := clock p in contributors (UpdateContributor em p a s.1 s.2 n1 n2 n3) !! p
  | _, _ => contributors em !! p
  end.
Proof.
  revert em. induction l as [|[q s] l IH]; intros em Hn; simpl in *; [by destruct (addresses st !! p)|].
  apply NoDup_cons in Hn as [Hq Hn]. rewrite IH by done. unfold update_one. simpl.
  destruct (decide (q = p)) as [->|Hne].
  - rewrite lookup_insert_eq, (not_elem_of_list_to_map_1 _ p) by done.
    destruct (addresses st !! p); [|reflexivity]. by destruct (clock p) as [[n1 n2] n3].
  - rewrite lookup_insert_ne by done.
    destruct (addresses st !! q) as [b|]; simpl; [destruct (clock q) as [[m1 m2] m3]|];
      destruct (addresses st !! p) as [a|], ((list_to_map l : gmap string (Z * Z)) !! p) as [[x y]|]; try done;
      try (destruct (clock p) as [[n1 n2] n3]); simpl; rewrite ?lookup_insert_eq, ?lookup_insert_ne by done; done.
Qed.

Section tracker_theory.
Context (iter_p : gmap bytes (list ProviderRecord) -> list (bytes * list ProviderRecord)).
Context (iter_s : gmap string (Z * Z) -> list (string * (Z * Z))).
Hypothesis iter_s_perm : forall m, iter_s m ≡ₚ map_to_list m.

Lemma updateStats_lookup st pr now clock em p :
  contributors (updateStats iter_p iter_s st (Some pr) now clock em) !! p =
  match addresses st !! p, stats_total (peer_records p (iter_p (All pr now))) with
  | Some a, Some s =>
      let '(n1, n2, n3) := clock p in contributors (UpdateContributor em p a s.1 s.2 n1 n2 n3) !! p
  | _, _ => contributors em !! p
  end.
Proof.
  unfold updateStats. set (m := peer_stats _).
  assert (Hn : NoDup (iter_s m).*1) by (rewrite iter_s_perm; apply NoDup_fst_map_to_list).
  rewrite update_loop_lookup by done.
  rewrite (list_to_map_proper _ (map_to_list m) Hn (iter_s_perm m)), list_to_map_to_list.
  subst m. by rewrite peer_stats_lookup.
Qed.
End tracker_theory.

(** statistics are exact.  After [updateStats] every registered peer with a
    live announcement has in its contributor record the sum (modulo 2^64) of the
    sizes it announced, the number of roots, and its payout address, with its byte
    hours and challenge counts kept; every other contributor is unchanged. *)
Theorem update_stats_exact iter_p iter_s st pr now clock em p :
  (forall m, iter_s m ≡ₚ map_to_list m) ->
  let rs := peer_records p (iter_p (All pr now)) in
  let em' := updateStats iter_p iter_s st (Some pr) now clock em in
  match addresses st !! p with
  | Some a =>
      if decide (rs = []) then contributors em' !! p = contributors em !! p
      else exists c, contributors em' !! p = Some c /\
             sc_BytesStored c = u64 (sumZ (map pr_Size rs)) /\
             sc_ChunksStored c = i64 (Z.of_nat (length rs)) /\ sc_Address c = a /\
             forall c0, contributors em !! p = Some c0 ->
               sc_ByteHours c = sc_ByteHours c0 /\ sc_ChallengesPassed c = sc_ChallengesPassed c0 /\
               sc_ChallengesFailed c = sc_ChallengesFailed c0
  | None => contributors em' !! p = contributors em !! p
  end.
Proof.
  intros Hi rs em'. pose proof (updateStats_lookup iter_p iter_s Hi st pr now clock em p) as E.
  fold rs em' in E. destruct (addresses st !! p) as [a|]; [|done].
  case_decide as Hr; [by rewrite Hr in E|].
  assert (Hs : stats_total rs = Some (u64 (sumZ (map pr_Size rs)), i64 (Z.of_nat (length rs))))
    by by destruct rs.
  rewrite Hs in E. destruct (clock p) as [[n1 n2] n3]. simpl in E. rewrite lookup_insert_eq in E.
  eexists. split; [exact E|]. simpl. split_and!; try done. by intros c0 ->.
Qed.

(** Two announcements of peer "a". *)
Definition demo_registry : ProviderRegistry :=
  Registry_Add (Registry_Add (NewProviderRegistry 100) 0 zero32 "a" 7) 0 (replicate 32 Byte.x01) "a" 5.

Lemma update_stats_exact_witness :
  exists c, contributors (updateStats map_to_list map_to_list
      (RegisterAddress (NewStorageTracker "me") "a" zero20) (Some demo_registry) 1 (fun _ => (0, 0, 0))
      (NewEpochManager 0 DefaultConfig)) !! "a" = Some c /\ sc_BytesStored c = 12.
Proof.
  pose proof (update_stats_exact map_to_list map_to_list
    (RegisterAddress (NewStorageTracker "me") "a" zero20) demo_registry 1 (fun _ => (0, 0, 0))
    (NewEpochManager 0 DefaultConfig) "a" (fun m => reflexivity _)) as H.
  cbv zeta in H. change (addresses (RegisterAddress (NewStorageTracker "me") "a" zero20) !! "a") with (Some zero20) in H.
  cbv iota in H. destruct (decide _) as [E|_]; [exfalso; vm_compute in E; discriminate E|].
  destruct H as (c & H1 & H2 & _). exists c. split; [exact H1|]. rewrite H2. vm_compute. reflexivity.
Defined.

(** a departed provider keeps earning.  When all announcements of a
    contributor have expired, [updateStats] leaves its stored bytes as they were,
    and the next finalization credits it byte-hours for them as if it still
    provided the content. *)
Theorem departed_peer_accrues iter_p iter_s iter_r st pr now clock em t0 t1 p c :
  (forall m, iter_s m ≡ₚ map_to_list m) ->
  contributors em !! p = Some c -> sc_PeerID c = p ->
  peer_records p (iter_p (All pr now)) = [] ->
  exists c', scored iter_r (Some pr) t0 t1 (updateStats iter_p iter_s st (Some pr) now clock em) !! p = Some c' /\
    sc_BytesStored c' = sc_BytesStored c /\
    sc_ByteHours c' = sc_ByteHours c +
      i64 (sc_BytesStored c) *
      f_to_i64 (fmul (Duration_Hours (time_Sub t0 (epochStart (updateStats iter_p iter_s st (Some pr) now clock em))))
                  (f_of_Z 1000)) / 1000.
Proof.
  intros Hi Hc Hp Hr. pose proof (updateStats_lookup iter_p iter_s Hi st pr now clock em p) as E.
  rewrite Hr in E. cbn [stats_total] in E. set (em' := updateStats _ _ _ _ _ _ _) in *.
  assert (E' : contributors em' !! p = Some c) by (rewrite E; by destruct (addresses st !! p)).
  unfold scored, calculateRedundancyScores.
  set (h := Duration_Hours _).
  assert (E2 : (add_byte_hours h <$> contributors em') !! p = Some (add_byte_hours h c))
    by by rewrite lookup_fmap, E'.
  destruct (size (All pr t1) =? 0)%nat; [exists (add_byte_hours h c); split_and!; [exact E2|reflexivity..]|].
  cbn [contributors set_contributors]. rewrite map_lookup_imap, E2. simpl.
  eexists. split; [reflexivity|]. unfold redundancy_of.
  destruct (0 <? _); split; reflexivity.
Qed.

Lemma departed_peer_accrues_witness :
  exists c', scored (fun _ => map_to_list) (Some demo_registry) Hour 1000
      (updateStats map_to_list map_to_list (NewStorageTracker "me") (Some demo_registry) 1000
         (fun _ => (0, 0, 0)) demo_em) !! "b" = Some c' /\
    sc_ByteHours c' = 20 * 2 ^ 30.
Proof.
  destruct (contributors demo_em !! "b") as [c|] eqn:E; [|exfalso; vm_compute in E; discriminate E].
  assert (Ec : Some c = contributors demo_em !! "b") by (symmetry; exact E).
  destruct (departed_peer_accrues map_to_list map_to_list (fun _ => map_to_list) (NewStorageTracker "me")
    demo_registry 1000 (fun _ => (0, 0, 0)) demo_em Hour 1000 "b" c) as (c' & H1 & H2 & H3).
  - reflexivity.
  - exact E.
  - vm_compute in Ec. injection Ec as ->. reflexivity.
  - vm_compute. reflexivity.
  - exists c'. split; [exact H1|]. rewrite H3. vm_compute in Ec. injection Ec as ->. vm_compute. reflexivity.
Defined.

(** ** A round of challenges *)

Section rounds.
Context {C : Crypto} {L : CryptoLaws C}.
Context (store : Store) (remote : string -> Store).
Context (rnd : nat -> option bytes) (clock : nat -> Z * Z).

Definition honest_net (p : string) (m : bytes) : exchange :=
  Received (Challenge_handleStream (remote p) m).

(** The challenged peer holds the chunk the challenger holds. *)
Definition held (t : bytes * string) : Prop :=
  length t.1 = 32%nat /\
  exists data, Store_Get store t.1 = Some data /\ Store_Get (remote t.2) t.1 = Some data.

(** No failure is counted against anyone. *)
Definition no_new_failures (em em' : EpochManager) : Prop :=
  forall p c', contributors em' !! p = Some c' ->
    exists c, contributors em !! p = Some c /\ sc_ChallengesFailed c' = sc_ChallengesFailed c.

Lemma on_complete_passed em r : ch_Passed r = true -> no_new_failures em (on_complete em (Some r)).
Proof.
  intros Hp q c'. simpl. unfold RecordChallengeResult. rewrite Hp.
  destruct (contributors em !! ch_Challenged r) as [c|] eqn:E; [|by exists c'].
  cbn [contributors set_contributors]. destruct (decide (q = ch_Challenged r)) as [->|Hn].
  - rewrite lookup_insert_eq. intros [= <-]. by exists c.
  - rewrite lookup_insert_ne by done. by exists c'.
Qed.

Lemma challenge_loop_honest i targets cm em me :
  cm_host cm = Some me -> (forall i, exists n, rnd i = Some n /\ length n = 32%nat) ->
  Forall held targets ->
  exists cm' em' rs, challenge_loop store honest_net rnd clock i targets (cm, em) = (cm', em') /\
    completed cm' = completed cm ++ rs /\ map ch_Challenged rs = targets.*2 /\
    Forall (fun r => ch_Passed r = true) rs /\ no_new_failures em em'.
Proof.
  intros Hh Hn F. revert i cm em Hh.
  induction F as [|[root p] ts [Hl (data & H1 & H2)] F IH]; intros i cm em Hh; simpl in *.
  - exists cm, em, []. split_and!; rewrite ?app_nil_r; try done. intros q c'. by exists c'.
  - destruct (Hn i) as (n & -> & Hnl).
    destruct (issue_honest store (remote p) n (clock i).1 (clock i).2 cm me p root data)
      as (r & cm1 & E & P & _ & Ht & Hc & _); try done.
    assert (Eh : cm_host cm1 = Some me).
    { revert E. unfold IssueChallenge. rewrite Hh, H1. unfold judge, markFailed. repeat case_match;
        intros E; simplify_eq/=; done. }
    assert (E' : IssueChallenge store honest_net (Some n) (clock i).1 (clock i).2 cm p root = (cm1, Ok tt, Some r))
      by exact E.
    rewrite E'. destruct (IH (S i) cm1 (on_complete em (Some r)) Eh) as (cm' & em' & rs & -> & Hc' & Hm & Hp & Hf).
    exists cm', em', (r :: rs). split_and!; [done| | |by constructor|].
    + by rewrite Hc', Hc, <- app_assoc.
    + simpl. by rewrite Hm, Ht.
    + intros q c' Hq. destruct (Hf q c' Hq) as (c1 & Hc1 & ->). by eapply on_complete_passed.
Qed.
End rounds.

(** Every target is a root the challenger holds, announced by another peer. *)
Lemma elem_of_targets st store entries t :
  t ∈ challenge_targets st store entries ->
  exists rs r, (t.1, rs) ∈ entries /\ r ∈ rs /\ pr_PeerID r = t.2 /\ Has store t.1 = true /\
    t.2 <> localPeerID st.
Proof.
  unfold challenge_targets. intros H%list_elem_of_In.
  apply in_flat_map in H as ([root rs] & He & Ht). simpl in *.
  destruct (Has store root) eqn:Hs; [|done]. simpl in Ht.
  apply in_map_iff in Ht as (r & <- & Hr). apply filter_In in Hr as [Hr Hl]. bool_to_prop.
  exists rs, r. split_and!; simpl; [by apply list_elem_of_In..|done|done|done].
Qed.

(** C9: a round among honest peers.  When every provider that is announced for
    a root the challenger holds has the root chunk itself (nothing is asked of the
    chunks below it), [issueRandomChallenges] completes [min 3 n] challenges of the
    [n] candidates, all passed, to distinct candidates, and counts no failure
    against anyone. *)
Theorem honest_round {C : Crypto} {L : CryptoLaws C} iter_p shuffle st store remote pr now rnd clock cm em me :
  (forall m, iter_p m ≡ₚ map_to_list m) -> (forall l, shuffle l ≡ₚ l) ->
  cm_host cm = Some me -> (forall i, exists n, rnd i = Some n /\ length n = 32%nat) ->
  (forall root rs r, All pr now !! root = Some rs -> r ∈ rs -> Has store root = true ->
     length root = 32%nat /\ Store_Get (remote (pr_PeerID r)) root = Store_Get store root) ->
  let targets := challenge_targets st store (iter_p (All pr now)) in
  exists cm' em' rs,
    issueRandomChallenges iter_p shuffle st store (Some pr) now (honest_net remote) rnd clock (cm, em)
      = (cm', em') /\
    completed cm' = completed cm ++ rs /\
    Z.of_nat (length rs) = Z.min 3 (Z.of_nat (length targets)) /\
    map ch_Challenged rs ⊆+ targets.*2 /\
    Forall (fun r => ch_Passed r = true) rs /\ no_new_failures em em'.
Proof.
  intros Hi Hs Hh Hn Hr targets.
  assert (F : Forall (held store remote) targets).
  { apply Forall_forall. intros t (rs & r & He & Hin & Hp & Hh' & _)%elem_of_targets.
    rewrite Hi in He. apply elem_of_map_to_list in He.
    destruct (Hr _ _ _ He Hin Hh') as [Hl E]. split; [done|]. rewrite <- Hp, E.
    unfold Has in Hh'. bool_to_prop. destruct Hh' as [data Hd]. exists data. split; exact Hd. }
  assert (Hid : (length targets = 0)%nat -> exists cm' em' rs, (cm, em) = (cm', em') /\
    completed cm' = completed cm ++ rs /\ Z.of_nat (length rs) = Z.min 3 (Z.of_nat (length targets)) /\
    map ch_Challenged rs ⊆+ targets.*2 /\ Forall (fun r => ch_Passed r = true) rs /\ no_new_failures em em').
  { intros E. exists cm, em, []. rewrite app_nil_r, E. split_and!; try done.
    - apply submseteq_nil_l.
    - intros p c'. by exists c'. }
  unfold issueRandomChallenges. fold targets.
  destruct (Nat.eqb_spec (size (All pr now)) 0) as [E0|_].
  { apply Hid. apply map_size_empty_inv in E0. subst targets.
    pose proof (Hi (All pr now)) as P. rewrite E0, map_to_list_empty in P.
    apply Permutation_nil_r in P. by rewrite E0, P. }
  destruct (Nat.eqb_spec (length targets) 0) as [E0|_]; [by apply Hid|].
  set (n := Z.to_nat (min 3 (Z.of_nat (length targets)))).
  destruct (challenge_loop_honest store remote rnd clock 0 (take n (shuffle targets)) cm em me Hh Hn)
    as (cm' & em' & rs & E & Hc & Hm & Hp & Hf).
  { apply Forall_take. by rewrite Hs. }
  exists cm', em', rs. split_and!; try done.
  - apply (f_equal length) in Hm. rewrite length_map, length_fmap, length_take, Hs in Hm.
    subst n. unfold min in *. case_match; bool_to_prop; lia.
  - rewrite Hm. apply fmap_submseteq. transitivity (shuffle targets).
    + apply sublist_submseteq, sublist_take.
    + by apply Permutation_submseteq.
Qed.

Lemma honest_round_witness :
  exists cm' em' rs,
    issueRandomChallenges (C := Toy.crypto) map_to_list (fun l => l) (NewStorageTracker "me")
      demo_store (Some demo_registry) 1 (honest_net (C := Toy.crypto) (fun _ => demo_store))
      (fun _ => Some zero32) (fun _ => (0, 0)) (NewChallengeManager (Some "me") 30, demo_em) = (cm', em') /\
    length rs = 1%nat /\ completed cm' = rs /\ Forall (fun r => ch_Passed r = true) rs.
Proof.
  destruct (honest_round (C := Toy.crypto) map_to_list (fun l => l) (NewStorageTracker "me")
    demo_store (fun _ => demo_store) demo_registry 1 (fun _ => Some zero32) (fun _ => (0, 0))
    (NewChallengeManager (Some "me") 30) demo_em "me") as (cm' & em' & rs & H1 & H2 & H3 & _ & H5 & _).
  - intros m. reflexivity.
  - intros l. reflexivity.
  - reflexivity.
  - intros i. exists zero32. split; reflexivity.
  - intros root rs r _ _ Hs. split; [|reflexivity].
    unfold Has, Store_Get in Hs. apply bool_decide_eq_true in Hs as [x Hx].
    cbn [chunks demo_store] in Hx. apply lookup_singleton_Some in Hx as [<- _]. reflexivity.
  - exists cm', em', rs. split; [exact H1|]. split; [|split; assumption].
    assert (E : Z.min 3 (Z.of_nat (length (challenge_targets (NewStorageTracker "me") demo_store
                  (map_to_list (All demo_registry 1))))) = 1) by (vm_compute; reflexivity).
    rewrite E in H3. lia.
Defined.
