(* ===== verification/Pool.v ===== *)
(** * The on-chain pool ([src/rewards/pool.go], [src/contracts/RevenuePool.sol])

    [PoolClient] builds the calldata of the contract's [finalizeEpoch], [claim] and
    view functions and decodes their results; the Ethereum client is a parameter.
    Module [RevenuePool] is the contract those bytes are for, the specification the
    client has to meet: its state, its functions and the ABI decoding of [claim]. *)

From Stdlib Require Import String.
From S2P Require Import Prelude Signing Providers Float64 Curves Merkle Epoch.

(** [copy(dst[off:off+n], src)] into zeroed bytes, as the [n] bytes written. *)
Definition word (src : bytes) : bytes := copy_to 32 (left_pad 32 src).

Section calldata.
Context {C : Crypto}.

Definition selector (signature : string) : bytes := take 4 (Keccak256 (bs signature)).

(** The calldata part of [PoolClient.FinalizeEpoch]. *)
Definition finalize_data (root : bytes) (totalDistributed : Z) : bytes :=
  selector "finalizeEpoch(bytes32,uint256)" ++ copy_to 32 root ++ word (bigint_bytes totalDistributed).

Definition BuildClaimData (epoch amount : Z) (proof : list bytes) : bytes :=
  selector "claim(uint256,uint256,bytes32[])" ++
  word (bigint_bytes (i64 epoch)) ++ word (bigint_bytes amount) ++
  word (bigint_bytes 96) ++ word (bigint_bytes (Z.of_nat (length proof))) ++
  concat (map word proof).

(** What the Ethereum node answers. *)
Record EthClient := {
  PendingNonceAt : bytes -> result Z;
  SuggestGasPrice : result Z;
  SignTx : Z -> Z -> bytes -> bytes -> PrivateKey -> result bytes;
  SendTransaction : bytes -> result unit;
  CallContract : bytes -> bytes -> result bytes;
}.

Record PoolClient := mkPool {
  pc_client : EthClient;
  poolAddress : bytes;
  operatorKey : option PrivateKey;
}.

(** [SignTx nonce gasPrice to data key] stands for [types.NewTransaction] with
    value 0 and gas limit 200000 followed by [types.SignTx]. *)
Definition Pool_FinalizeEpoch (pc : PoolClient) (root : bytes) (totalDistributed : Z) : result bytes :=
  match operatorKey pc with
  | None => Err "no operator key configured"
  | Some key =>
      let data := finalize_data root totalDistributed in
      match PendingNonceAt (pc_client pc) (KeyAddress key) with
      | Err _ => Err "failed to get nonce"
      | Ok nonce =>
          match SuggestGasPrice (pc_client pc) with
          | Err _ => Err "failed to get gas price"
          | Ok gasPrice =>
              match SignTx (pc_client pc) nonce gasPrice (poolAddress pc) data key with
              | Err _ => Err "failed to sign transaction"
              | Ok signedTx =>
                  match SendTransaction (pc_client pc) signedTx with
                  | Err _ => Err "failed to send transaction"
                  | Ok _ => Ok signedTx
                  end
              end
          end
      end
  end.

Definition GetPendingRevenue (pc : PoolClient) : result Z :=
  match CallContract (pc_client pc) (poolAddress pc) (selector "pendingRevenue()") with
  | Err _ => Err "failed to call pendingRevenue"
  | Ok r => if (length r <? 32)%nat then Ok 0 else Ok (be_int r)
  end.

Definition GetCurrentEpoch (pc : PoolClient) : result Z :=
  match CallContract (pc_client pc) (poolAddress pc) (selector "currentEpoch()") with
  | Err _ => Err "failed to call currentEpoch"
  | Ok r => if (length r <? 32)%nat then Ok 0 else Ok (u64 (be_int r))
  end.

Definition GetEpochRoot (pc : PoolClient) (epoch : Z) : result bytes :=
  let data := selector "epochRoots(uint256)" ++ word (bigint_bytes (i64 epoch)) in
  match CallContract (pc_client pc) (poolAddress pc) data with
  | Err _ => Err "failed to call epochRoots"
  | Ok r => if (32 <=? length r)%nat then Ok (take 32 r) else Ok zero32
  end.
End calldata.
Arguments EthClient _ : clear implicits.

(** ** The contract *)

Module RevenuePool.
Record State := mkState {
  operator : bytes;
  epochRoots : gmap Z bytes;
  epochTotals : gmap Z Z;
  claimed : gset (Z * bytes);
  pendingRevenue : Z;
  currentEpoch : Z;
  balance : Z;
}.

Definition root_of (s : State) (epoch : Z) : bytes := default zero32 (epochRoots s !! epoch).

Definition receive (value : Z) (s : State) : result State :=
  if 2 ^ 256 <=? pendingRevenue s + value then Err "overflow"
  else Ok (mkState (operator s) (epochRoots s) (epochTotals s) (claimed s)
             (pendingRevenue s + value) (currentEpoch s) (balance s + value)).

Definition finalizeEpoch (sender root : bytes) (total : Z) (s : State) : result State :=
  if negb (bytes_eqb sender (operator s)) then Err "not operator"
  else if bytes_eqb root zero32 then Err "empty root"
  else if negb (total <=? pendingRevenue s) then Err "insufficient funds"
  else if negb (bytes_eqb (root_of s (currentEpoch s)) zero32) then Err "epoch already finalized"
  else if 2 ^ 256 <=? currentEpoch s + 1 then Err "overflow"
  else Ok (mkState (operator s) (<[currentEpoch s := root]> (epochRoots s))
             (<[currentEpoch s := total]> (epochTotals s)) (claimed s)
             (pendingRevenue s - total) (currentEpoch s + 1) (balance s)).

(** [accepts] is the outcome of the call that transfers the amount; the call
    fails as well when the balance is too small. *)
Definition claim {C : Crypto} (sender : bytes) (epoch amount : Z) (proof : list bytes) (accepts : bool)
    (s : State) : result State :=
  if bool_decide ((epoch, sender) ∈ claimed s) then Err "already claimed"
  else if bytes_eqb (root_of s epoch) zero32 then Err "epoch not finalized"
  else if negb (0 <? amount) then Err "zero amount"
  else if negb (contract_verify proof (root_of s epoch) (contract_leaf sender amount)) then Err "invalid proof"
  else if negb (accepts && (amount <=? balance s)) then Err "transfer failed"
  else Ok (mkState (operator s) (epochRoots s) (epochTotals s) ({[ (epoch, sender) ]} ∪ claimed s)
             (pendingRevenue s) (currentEpoch s) (balance s - amount)).

Definition setOperator (sender newOperator : bytes) (s : State) : result State :=
  if negb (bytes_eqb sender (operator s)) then Err "not operator"
  else if bytes_eqb newOperator zero20 then Err "zero address"
  else Ok (mkState newOperator (epochRoots s) (epochTotals s) (claimed s)
             (pendingRevenue s) (currentEpoch s) (balance s)).

(** ABI decoding of [claim(uint256,uint256,bytes32[])]: the third head word is
    the offset of the array, counted from the first argument. *)
Definition abi_word (i : nat) (args : bytes) : bytes := take 32 (drop (32 * i) args).

Definition decode_claim {C : Crypto} (data : bytes) : option (Z * Z * list bytes) :=
  if negb (bytes_eqb (take 4 data) (selector "claim(uint256,uint256,bytes32[])")) then None
  else
    let args := drop 4 data in
    let offset := Z.to_nat (be_int (abi_word 2 args)) in
    let tail := drop offset args in
    let n := Z.to_nat (be_int (take 32 tail)) in
    if (length tail <? 32 + 32 * n)%nat then None
    else Some (be_int (abi_word 0 args), be_int (abi_word 1 args),
               map (fun i => abi_word (S i) tail) (seq 0 n)).

Definition decode_finalize {C : Crypto} (data : bytes) : option (bytes * Z) :=
  if negb (bytes_eqb (take 4 data) (selector "finalizeEpoch(bytes32,uint256)")) then None
  else
    let args := drop 4 data in
    if (length args <? 64)%nat then None else Some (abi_word 0 args, be_int (abi_word 1 args)).
End RevenuePool.

(** The [OnEpochEnd] callback installed by the application ([src/cmd/main.go]):
    the snapshot's root and revenue go to the contract; a failure is only
    printed.  [included] says whether the transaction is executed. *)
Definition submit_snapshot (sender : bytes) (snap : EpochSnapshot) (included : bool)
    (s : RevenuePool.State) : RevenuePool.State :=
  if included then
    match RevenuePool.finalizeEpoch sender (MerkleRoot snap) (TotalRevenue snap) s with
    | Ok s' => s'
    | Err _ => s
    end
  else s.

(** ** The calldata decodes *)

Lemma length_word b : length (word b) = 32%nat.
Proof. apply length_copy_to. Qed.

Lemma word_int z : Z.abs z < 2 ^ 256 -> be_int (word (bigint_bytes z)) = Z.abs z.
Proof.
  intros H. assert (Hl : (length (bigint_bytes z) <= 32)%nat).
  { change (2 ^ 256) with (256 ^ Z.of_nat 32) in H.
    pose proof (length_bigint_bytes (Z.abs z) 32 ltac:(lia)) as Hl.
    unfold bigint_bytes in *. by rewrite Z.abs_idemp in Hl. }
  unfold word. rewrite copy_to_id by by apply length_left_pad.
  by rewrite be_int_left_pad, be_int_bigint_bytes.
Qed.

Lemma word_id b : length b = 32%nat -> word b = b.
Proof.
  intros H. unfold word, left_pad. rewrite H. simpl. by apply copy_to_id.
Qed.

Lemma drop_words n (ws : list bytes) :
  Forall (fun w => length w = 32%nat) ws -> drop (32 * n) (concat ws) = concat (drop n ws).
Proof.
  intros F. revert n. induction F as [|w ws Hw F IH]; intros [|n]; try done.
  replace (32 * S n)%nat with (32 + 32 * n)%nat by lia. simpl concat.
  rewrite <- drop_drop, drop_app_length' by done. simpl. apply IH.
Qed.

Lemma abi_word_concat n (ws : list bytes) :
  Forall (fun w => length w = 32%nat) ws -> (n < length ws)%nat ->
  RevenuePool.abi_word n (concat ws) = nth n ws [].
Proof.
  intros F Hn. unfold RevenuePool.abi_word. rewrite drop_words by done.
  destruct (lookup_lt_is_Some_2 ws n Hn) as [w Hw]. rewrite (drop_S _ _ _ Hw). simpl.
  rewrite take_app_length' by (symmetry; exact (Forall_lookup_1 _ _ _ _ F Hw)).
  by rewrite (nth_lookup_Some _ _ _ _ Hw).
Qed.

Lemma length_concat_words (ws : list bytes) :
  Forall (fun w => length w = 32%nat) ws -> length (concat ws) = (32 * length ws)%nat.
Proof. induction 1; simpl; [done|]. rewrite length_app. lia. Qed.

Lemma map_nth_seq {A} (l : list A) d : map (fun i => nth i l d) (seq 0 (length l)) = l.
Proof.
  induction l as [|x l IH]; simpl; [done|]. f_equal. rewrite <- seq_shift, map_map. exact IH.
Qed.

Section pool_theory.
Context {C : Crypto} {L : CryptoLaws C}.

Lemma length_selector s : length (selector s) = 4%nat.
Proof. unfold selector. rewrite length_take, keccak_length. done. Qed.

Lemma decode_BuildClaimData epoch amount proof :
  0 <= amount < 2 ^ 256 -> Z.of_nat (length proof) < 2 ^ 256 ->
  Forall (fun p => length p = 32%nat) proof ->
  RevenuePool.decode_claim (BuildClaimData epoch amount proof) = Some (Z.abs (i64 epoch), amount, proof).
Proof.
  intros Ha Hp F. unfold RevenuePool.decode_claim, BuildClaimData.
  rewrite take_app_length', drop_app_length', bytes_eqb_refl by by rewrite length_selector. cbn [negb].
  set (hd := [word (bigint_bytes (i64 epoch)); word (bigint_bytes amount); word (bigint_bytes 96)]).
  set (tl := word (bigint_bytes (Z.of_nat (length proof))) :: map word proof).
  match goal with |- context [drop _ ?a] => change a with (concat (hd ++ tl)) end.
  assert (Et : map word proof = proof).
  { rewrite <- (map_id proof) at 2. apply map_ext_in. intros p Hin. apply word_id.
    rewrite Forall_forall in F. apply F, list_elem_of_In, Hin. }
  assert (Ft : Forall (fun w => length w = 32%nat) tl)
    by (subst tl; constructor; [apply length_word|by rewrite Et]).
  assert (Fa : Forall (fun w => length w = 32%nat) (hd ++ tl))
    by (apply Forall_app; split; [repeat constructor; apply length_word|done]).
  assert (W : forall i, (i < 3)%nat -> RevenuePool.abi_word i (concat (hd ++ tl)) = nth i hd []).
  { intros i Hi. rewrite abi_word_concat, app_nth1 by (done || (simpl; lia)). done. }
  rewrite !W by lia. cbn [hd nth].
  rewrite !word_int by (lia || (pose proof (i64_range epoch); unfold in_i64 in *; lia)).
  change (Z.to_nat (Z.abs 96)) with (32 * 3)%nat.
  assert (Ed : drop (32 * 3) (concat (hd ++ tl)) = concat tl) by (rewrite drop_words by done; reflexivity).
  rewrite Ed.
  assert (E0 : take 32 (concat tl) = word (bigint_bytes (Z.of_nat (length proof))))
    by (apply take_app_length'; by rewrite length_word).
  rewrite E0, word_int, length_concat_words by (done || lia).
  rewrite (Z.abs_eq (Z.of_nat _)), Nat2Z.id by lia. rewrite (Z.abs_eq amount) by lia.
  assert (El : length tl = S (length proof)) by (subst tl; simpl; by rewrite length_map).
  rewrite El. rewrite (proj2 (Nat.ltb_ge _ _)) by lia. do 2 f_equal.
  rewrite <- (map_nth_seq proof []) at 2. apply map_ext_in. intros i Hi%in_seq.
  rewrite abi_word_concat by (done || lia). subst tl. simpl. by rewrite Et.
Qed.
End pool_theory.

(** the claim calldata round-trips.  The contract's ABI decoder recovers
    from [BuildClaimData] the amount and the proof; the epoch is recovered for
    epochs below 2^63, beyond which its two's complement is negated. *)
Theorem claim_data_roundtrip {C : Crypto} {L : CryptoLaws C} epoch amount proof :
  0 <= amount < 2 ^ 256 -> Z.of_nat (length proof) < 2 ^ 256 ->
  Forall (fun p => length p = 32%nat) proof -> in_u64 epoch ->
  RevenuePool.decode_claim (BuildClaimData epoch amount proof) =
  Some (if epoch <? 2 ^ 63 then epoch else 2 ^ 64 - epoch, amount, proof).
Proof.
  intros Ha Hp F He. rewrite decode_BuildClaimData by done. do 3 f_equal.
  unfold in_u64 in He. unfold i64. case_match; bool_to_prop; dlia.
Qed.

Lemma claim_data_roundtrip_witness :
  RevenuePool.decode_claim (C := Toy.crypto) (BuildClaimData (C := Toy.crypto) 7 500 [zero32; zero32]) =
  Some (7, 500, [zero32; zero32]).
Proof.
  apply (claim_data_roundtrip (C := Toy.crypto) 7 500 [zero32; zero32]).
  - lia.
  - simpl. lia.
  - repeat constructor.
  - unfold in_u64. lia.
Defined.

(** C5: a reward reaches its owner.  From finalization to payment: when the payout
    addresses of the contributors differ, a positive reward below 2^256 of a finalized
    epoch is paid out exactly once by a pool that is at an epoch without a root, has the
    revenue pending and the reward in its balance, provided the root is not zero: the
    operator's transaction is accepted, the calldata built from the snapshot's
    proof decodes to a claim the contract pays, and the same claim is then refused. *)
Theorem reward_paid_once {C : Crypto} {L : CryptoLaws C} math_Log math_Pow iter_c iter_p
    registry t0 t1 t2 t3 em em' snap s pool :
  (forall m, iter_c m ≡ₚ map_to_list m) ->
  distinct_addresses (contributors em) ->
  FinalizeEpoch math_Log math_Pow iter_c iter_p registry t0 t1 t2 t3 em = Done (em', snap) ->
  s ∈ Contributors snap -> 0 < cs_RewardWei s < 2 ^ 256 ->
  Z.of_nat (length (Contributors snap)) < 2 ^ 63 ->
  MerkleRoot snap <> zero32 ->
  let e := RevenuePool.currentEpoch pool in
  0 <= e < 2 ^ 63 -> RevenuePool.root_of pool e = zero32 ->
  TotalRevenue snap <= RevenuePool.pendingRevenue pool ->
  cs_RewardWei s <= RevenuePool.balance pool ->
  (e, cs_Address s) ∉ RevenuePool.claimed pool ->
  exists pool1 pool2 proof,
    RevenuePool.finalizeEpoch (RevenuePool.operator pool) (MerkleRoot snap) (TotalRevenue snap) pool = Ok pool1 /\
    (ComputeMerkleProof (MerkleLeaves snap) (cs_Address s)).2 = Ok proof /\
    RevenuePool.decode_claim (BuildClaimData e (cs_RewardWei s) proof) = Some (e, cs_RewardWei s, proof) /\
    RevenuePool.claim (cs_Address s) e (cs_RewardWei s) proof true pool1 = Ok pool2 /\
    RevenuePool.balance pool2 = RevenuePool.balance pool - cs_RewardWei s /\
    RevenuePool.claim (cs_Address s) e (cs_RewardWei s) proof true pool2 = Err "already claimed".
Proof.
  intros Hi D F Hs Hr Hlen Hroot e He H0 Ht Hb Hc.
  destruct (snapshot_claimable _ _ _ _ _ _ _ _ _ _ _ _ _ Hi D F Hs Hr) as (proof & Hp & Hv).
  pose proof (ComputeMerkleProof_wf _ _ _ Hp) as [Hd Hpl]. pose proof (length_MerkleLeaves _ _ _ _ _ _ _ _ _ _ _ _ F).
  eexists _, _, proof. split_and!.
  - unfold RevenuePool.finalizeEpoch. rewrite bytes_eqb_refl, (proj2 (bytes_eqb_false _ _) Hroot).
    fold e. rewrite H0, bytes_eqb_refl, (proj2 (Z.leb_le _ _) Ht), (proj2 (Z.leb_gt _ _)) by lia. done.
  - done.
  - rewrite decode_BuildClaimData by (done || lia). do 3 f_equal.
    rewrite i64_id by (unfold in_i64; lia). lia.
  - unfold RevenuePool.claim, RevenuePool.root_of.
    cbn [RevenuePool.claimed RevenuePool.epochRoots RevenuePool.balance].
    rewrite bool_decide_false by done. fold e. rewrite lookup_insert_eq. cbn [default from_option id].
    rewrite (proj2 (bytes_eqb_false _ _) Hroot), Hv, (proj2 (Z.ltb_lt _ _)), (proj2 (Z.leb_le _ _)) by lia.
    reflexivity.
  - done.
  - unfold RevenuePool.claim. rewrite bool_decide_true; [done|]. cbn [RevenuePool.claimed]. set_solver.
Qed.

Definition demo_pool : RevenuePool.State :=
  RevenuePool.mkState zero20 ∅ ∅ ∅ 1000000 0 1000000.

Lemma reward_paid_once_witness :
  exists s pool1 pool2 proof, Contributors demo_snap !! 0%nat = Some s /\
    RevenuePool.finalizeEpoch zero20 (MerkleRoot demo_snap) (TotalRevenue demo_snap) demo_pool = Ok pool1 /\
    RevenuePool.claim (C := Toy.crypto) (cs_Address s) 0 (cs_RewardWei s) proof true pool1 = Ok pool2 /\
    RevenuePool.claim (C := Toy.crypto) (cs_Address s) 0 (cs_RewardWei s) proof true pool2 = Err "already claimed".
Proof.
  destruct (Contributors demo_snap !! 0%nat) as [s|] eqn:Es; [|exfalso; vm_compute in Es; discriminate Es].
  destruct demo_finalize as [[em' snap]| |] eqn:E; [|exfalso; vm_compute in E; discriminate E..].
  assert (Hsnap : snap = demo_snap) by (unfold demo_snap; rewrite E; reflexivity). subst snap.
  assert (Hw : match Contributors demo_snap !! 0%nat with
               | Some s => (0 <? cs_RewardWei s) && (cs_RewardWei s <? 1000000)
               | None => false end = true) by (vm_compute; reflexivity).
  rewrite Es in Hw. apply andb_true_iff in Hw as [W1%Z.ltb_lt W2%Z.ltb_lt].
  destruct (reward_paid_once (C := Toy.crypto) (fun x => x) (fun x _ => x) map_to_list
              (fun _ => map_to_list) None Hour 1 Hour Hour demo_em em' demo_snap s demo_pool)
    as (pool1 & pool2 & proof & H1 & _ & _ & H4 & _ & H6).
  - reflexivity.
  - exact demo_distinct.
  - exact E.
  - eapply list_elem_of_lookup_2. exact Es.
  - split; [exact W1|lia].
  - vm_compute. reflexivity.
  - vm_compute. discriminate.
  - split; vm_compute; [discriminate|reflexivity].
  - reflexivity.
  - vm_compute. discriminate.
  - change (RevenuePool.balance demo_pool) with 1000000. lia.
  - apply not_elem_of_empty.
  - exists s, pool1, pool2, proof. split; [reflexivity|]. split; [exact H1|]. split; [exact H4|exact H6].
Defined.

(** an epoch without rewards separates the two epoch counters.  When no
    contributor earns anything, the snapshot's root is zero, the contract refuses
    it, and a manager and a pool that agreed on the epoch number no longer do: the
    manager is one epoch ahead of the pool, whose state is unchanged. *)
Theorem empty_epoch_diverges {C : Crypto} math_Log math_Pow iter_c iter_p
    registry t0 t1 t2 t3 em em' snap sender included pool :
  FinalizeEpoch math_Log math_Pow iter_c iter_p registry t0 t1 t2 t3 em = Done (em', snap) ->
  Forall (fun s => cs_RewardWei s <= 0) (Contributors snap) ->
  Epoch.currentEpoch em = RevenuePool.currentEpoch pool -> 0 <= Epoch.currentEpoch em < 2 ^ 64 - 1 ->
  submit_snapshot sender snap included pool = pool /\
  Epoch.currentEpoch em' = RevenuePool.currentEpoch pool + 1.
Proof.
  intros (scores & _ & _ & E3 & _ & _ & ->)%FinalizeEpoch_inv Hz Ee He. split.
  - assert (Hl : reward_leaves (Contributors snap) = []).
    { clear - Hz. unfold reward_leaves. induction Hz as [|s l Hs _ IH]; simpl; [done|].
      rewrite (proj2 (Z.ltb_ge _ _)) by lia. exact IH. }
    rewrite Hl in E3. injection E3 as _ E3. unfold submit_snapshot, RevenuePool.finalizeEpoch.
    rewrite <- E3, bytes_eqb_refl. by repeat case_match.
  - simpl. rewrite u64_id by (unfold in_u64; lia). lia.
Qed.

Lemma empty_epoch_diverges_witness :
  exists em' snap,
    FinalizeEpoch (C := Toy.crypto) (fun x => x) (fun x _ => x) map_to_list (fun _ => map_to_list)
      None Hour 1 Hour Hour (NewEpochManager 0 DefaultConfig) = Done (em', snap) /\
    submit_snapshot zero20 snap true demo_pool = demo_pool /\
    Epoch.currentEpoch em' = RevenuePool.currentEpoch demo_pool + 1.
Proof.
  destruct (FinalizeEpoch (C := Toy.crypto) (fun x => x) (fun x _ => x) map_to_list (fun _ => map_to_list)
      None Hour 1 Hour Hour (NewEpochManager 0 DefaultConfig)) as [[em' snap]| |] eqn:E;
    [|exfalso; vm_compute in E; discriminate E..].
  exists em', snap. split; [reflexivity|].
  apply (empty_epoch_diverges (C := Toy.crypto) _ _ _ _ _ _ _ _ _ _ _ _ zero20 true demo_pool E).
  - vm_compute in E. injection E as _ <-. constructor.
  - reflexivity.
  - split; vm_compute; [discriminate|reflexivity].
Defined.
