(* ===== verification/Rights.v ===== *)
(** * Rights metadata ([src/identity/rights.go])

    The owner of a stream grants rights to addresses and signs the list; a
    registry keeps the verified lists.  [json.Unmarshal] is not modelled:
    [RightsMetadataFromJSON] has no counterpart here.  Clock readings are Unix
    seconds and arguments. *)

From Stdlib Require Import String.
From S2P Require Import Prelude Json Signing.

Definition RightAccess : string := "access".
Definition RightControl : string := "control".
Definition RightPreservation : string := "preservation".
Definition RightReturn : string := "return".

Definition PrivacyPrivate : string := "private".
Definition PrivacyRestricted : string := "restricted".
Definition PrivacyPublic : string := "public".

Record RightConditions := mkRightConditions {
  rc_RequireConsent : bool;
  rc_RequireMultiSig : bool;
  rc_MultiSigThreshold : Z;
  rc_MultiSigParties : list bytes;
  rc_TimeWindowStart : Z;
  rc_TimeWindowEnd : Z;
  rc_RateLimitPerEpoch : Z;
}.

Record Right := mkRight {
  rt_Type : string;
  rt_Grantee : bytes;
  rt_Expiry : Z;
  rt_Conditions : option RightConditions;
  rt_Delegatable : bool;
  rt_MaxDelegationDepth : Z;
}.

Record RightsMetadata := mkRights {
  rm_StreamID : bytes;
  rm_Owner : bytes;
  rm_Created : Z;
  rm_Rights : list Right;
  rm_PrivacyLevel : string;
  rm_Signature : bytes;
}.

(** The JSON encodings, field by field from the struct tags. *)
Definition conditions_json (c : RightConditions) : json := jobj [
  omit_bool "require_consent" (rc_RequireConsent c);
  omit_bool "require_multi_sig" (rc_RequireMultiSig c);
  omit_int "multi_sig_threshold" (rc_MultiSigThreshold c);
  omit_if (length (rc_MultiSigParties c) =? 0)%nat "multi_sig_parties" (JArr (map jhex (rc_MultiSigParties c)));
  omit_int "time_window_start" (rc_TimeWindowStart c);
  omit_int "time_window_end" (rc_TimeWindowEnd c);
  omit_int "rate_limit_per_epoch" (rc_RateLimitPerEpoch c)].

Definition right_json (r : Right) : json := jobj [
  field "type" (jstring (rt_Type r));
  field "grantee" (jhex (rt_Grantee r));
  omit_int "expiry" (rt_Expiry r);
  ("conditions"%string, conditions_json <$> rt_Conditions r);
  field "delegatable" (JBool (rt_Delegatable r));
  omit_int "max_delegation_depth" (rt_MaxDelegationDepth r)].

#[global] Instance RightsMetadata_doc : SignedDoc RightsMetadata := {|
  doc_json rm := jobj [
    field "stream_id" (jarray (rm_StreamID rm));
    field "owner" (jhex (rm_Owner rm));
    field "created" (JNum (rm_Created rm));
    field "rights" (JArr (map right_json (rm_Rights rm)));
    field "privacy_level" (jstring (rm_PrivacyLevel rm));
    field "signature" JNull];
  doc_owner := rm_Owner;
  doc_sig := rm_Signature;
  doc_set_sig s rm := mkRights (rm_StreamID rm) (rm_Owner rm) (rm_Created rm) (rm_Rights rm)
                        (rm_PrivacyLevel rm) s;
  doc_sign_error := "signer is not owner" |}.

#[global] Instance RightsMetadata_laws : SignedDocLaws RightsMetadata.
Proof. by split. Qed.

Definition NewRightsMetadata (streamID owner : bytes) (privacy : string) (now : Z) : RightsMetadata :=
  mkRights streamID owner now [] privacy no_sig.

Definition set_rights (l : list Right) (rm : RightsMetadata) : RightsMetadata :=
  mkRights (rm_StreamID rm) (rm_Owner rm) (rm_Created rm) l (rm_PrivacyLevel rm) (rm_Signature rm).

Definition GrantRight (rm : RightsMetadata) (right : Right) : RightsMetadata :=
  set_rights (rm_Rights rm ++ [right]) rm.

Definition right_matches (rightType : string) (addr : bytes) (r : Right) : bool :=
  bool_decide (rt_Type r = rightType) && bytes_eqb (rt_Grantee r) addr.

(** The loop of [RevokeRight]: remove the first match. *)
Fixpoint remove_right (rightType : string) (grantee : bytes) (l : list Right) : option (list Right) :=
  match l with
  | [] => None
  | r :: t => if right_matches rightType grantee r then Some t
              else option_map (cons r) (remove_right rightType grantee t)
  end.

Definition RevokeRight (rm : RightsMetadata) (rightType : string) (grantee : bytes) : RightsMetadata * bool :=
  match remove_right rightType grantee (rm_Rights rm) with
  | Some l => (set_rights l rm, true)
  | None => (rm, false)
  end.

Definition right_expired (now : Z) (r : Right) : bool := (0 <? rt_Expiry r) && (rt_Expiry r <? now).

Definition HasRight (rm : RightsMetadata) (addr : bytes) (rightType : string) (now : Z) : bool :=
  bytes_eqb addr (rm_Owner rm) ||
  existsb (fun r => right_matches rightType addr r && negb (right_expired now r)) (rm_Rights rm).

Definition CanDelegate (rm : RightsMetadata) (addr : bytes) (rightType : string) : bool * Z :=
  if bytes_eqb addr (rm_Owner rm) then (true, 255)
  else match List.find (fun r => right_matches rightType addr r && rt_Delegatable r) (rm_Rights rm) with
       | Some r => (true, rt_MaxDelegationDepth r)
       | None => (false, 0)
       end.

Definition RightsMetadata_ToJSON (rm : RightsMetadata) : result bytes :=
  json_Marshal (jobj [
    field "stream_id" (jarray (rm_StreamID rm));
    field "owner" (jhex (rm_Owner rm));
    field "created" (JNum (rm_Created rm));
    field "rights" (JArr (map right_json (rm_Rights rm)));
    field "privacy_level" (jstring (rm_PrivacyLevel rm));
    field "signature" (jbytes (if bytes_eqb (rm_Signature rm) no_sig then None else Some (rm_Signature rm)))]).

(** ** The registry *)

Record RightsRegistry := mkRightsRegistry {
  rr_Owner : bytes;
  rr_Streams : gmap bytes RightsMetadata;
  rr_GrantedToMe : gmap string (list bytes);
}.

Definition NewRightsRegistry (owner : bytes) : RightsRegistry := mkRightsRegistry owner ∅ ∅.

Definition note_grant (owner stream : bytes) (g : gmap string (list bytes)) (r : Right)
    : gmap string (list bytes) :=
  if bytes_eqb (rt_Grantee r) owner
  then <[rt_Type r := default [] (g !! rt_Type r) ++ [stream]]> g else g.

Definition Rights_Register {C : Crypto} (rr : RightsRegistry) (rm : RightsMetadata) : RightsRegistry * result unit :=
  if negb (doc_Verify rm) then (rr, Err "invalid signature on rights metadata")
  else (mkRightsRegistry (rr_Owner rr) (<[rm_StreamID rm := rm]> (rr_Streams rr))
          (fold_left (note_grant (rr_Owner rr) (rm_StreamID rm)) (rm_Rights rm) (rr_GrantedToMe rr)), Ok tt).

Definition GetRights (rr : RightsRegistry) (streamID : bytes) : option RightsMetadata :=
  rr_Streams rr !! streamID.

(** The iteration order of the map is [map_to_list]'s; Go's is unspecified. *)
Definition ListStreamsWithRight (rr : RightsRegistry) (addr : bytes) (rightType : string) (now : Z)
    : list bytes :=
  map fst (List.filter (fun kv => HasRight kv.2 addr rightType now) (map_to_list (rr_Streams rr))).

(** ** Properties *)

(** A right in the list gives it to its grantee until it expires; the owner
    has all rights. *)
Lemma HasRight_spec rm addr ty now :
  HasRight rm addr ty now = true <->
  addr = rm_Owner rm \/
  exists r, r ∈ rm_Rights rm /\ rt_Type r = ty /\ rt_Grantee r = addr /\ right_expired now r = false.
Proof.
  unfold HasRight, right_matches. rewrite orb_true_iff, bytes_eqb_true, existsb_exists. f_equiv. split.
  - intros (r & Hr%list_elem_of_In & H). bool_to_prop. by exists r.
  - intros (r & Hr & H1 & H2 & H3). exists r. split; [by apply list_elem_of_In|].
    by rewrite H3, bool_decide_true, (proj2 (bytes_eqb_true _ _) H2).
Qed.

Lemma elem_of_remove_right ty g l l' :
  remove_right ty g l = Some l' -> exists r, right_matches ty g r = true /\ l ≡ₚ r :: l'.
Proof.
  revert l'. induction l as [|x l IH]; intros l' H; simpl in *; [done|].
  destruct (right_matches ty g x) eqn:E; [injection H as <-; by exists x|].
  destruct (remove_right ty g l) as [l1|]; [|done]. injection H as <-.
  destruct (IH _ eq_refl) as (r & Hr & P). exists r. split; [done|]. rewrite P. apply perm_swap.
Qed.

(** Everything a registry holds was signed by its owner. *)
Definition registry_verified {C : Crypto} (rr : RightsRegistry) : Prop :=
  map_Forall (fun id rm => rm_StreamID rm = id /\ doc_Verify rm = true) (rr_Streams rr).

Lemma Register_verified {C : Crypto} rr rm :
  registry_verified rr -> registry_verified (Rights_Register rr rm).1.
Proof.
  intros H. unfold Rights_Register. destruct (doc_Verify rm) eqn:E; simpl; [|done].
  by apply map_Forall_insert_2.
Qed.

(** An expired right can still be delegated.  [HasRight] stops honouring a
    right after its expiry; [CanDelegate] does not look at the expiry, so a grantee
    who no longer has the right is still told it may delegate it. *)
Theorem expired_right_delegatable rm addr ty now r :
  addr <> rm_Owner rm -> rm_Rights rm = [r] ->
  rt_Type r = ty -> rt_Grantee r = addr -> rt_Delegatable r = true ->
  0 < rt_Expiry r < now ->
  HasRight rm addr ty now = false /\ CanDelegate rm addr ty = (true, rt_MaxDelegationDepth r).
Proof.
  intros Ho Hr Ht Hg Hd He. unfold HasRight, CanDelegate, right_matches, right_expired.
  rewrite (proj2 (bytes_eqb_false _ _) Ho), Hr. simpl.
  rewrite bool_decide_true, (proj2 (bytes_eqb_true _ _) Hg), Hd by done. simpl.
  rewrite (proj2 (Z.ltb_lt 0 _)), (proj2 (Z.ltb_lt _ now)) by lia. done.
Qed.

Definition demo_right : Right := mkRight RightAccess (replicate 20 Byte.x07) 100 None true 2.
Definition demo_rights : RightsMetadata :=
  GrantRight (NewRightsMetadata zero32 zero20 PrivacyPrivate 0) demo_right.

Lemma expired_right_delegatable_witness :
  HasRight demo_rights (replicate 20 Byte.x07) RightAccess 101 = false /\
  CanDelegate demo_rights (replicate 20 Byte.x07) RightAccess = (true, 2).
Proof.
  apply (expired_right_delegatable demo_rights (replicate 20 Byte.x07) RightAccess 101 demo_right);
    try reflexivity; [discriminate|simpl; lia].
Defined.
