(* ===== verification/Consent.v ===== *)
(** * Consents ([src/identity/consent.go])

    A consent lets a grantee perform one kind of operation on the grantor's
    data, possibly until an expiry and for a number of uses.  The manager of a
    grantor stores the consents it signed, validates the proofs grantees present
    and logs each use.  Clock readings (Unix seconds) are arguments, one per call
    of [time.Now].  The manager's map holds pointers that [Grant] receives from its
    caller; the model holds the values, so a caller that keeps and changes the
    consent it granted is outside the model. *)

From Stdlib Require Import String.
From S2P Require Import Prelude Json Signing.

Definition ConsentRead : string := "read".
Definition ConsentWrite : string := "write".
Definition ConsentExport : string := "export".
Definition ConsentDelegate : string := "delegate".
Definition ConsentDelete : string := "delete".

Record ConsentConditions := mkConditions {
  cc_RequireReason : bool;
  cc_NotifyOnUse : bool;
  cc_ApprovalRequired : bool;
  cc_AllowedPurposes : list string;
  cc_GeoRestriction : list string;
}.

Record Consent := mkConsent {
  co_ID : bytes;
  co_Type : string;
  co_Grantor : bytes;
  co_Grantee : bytes;
  co_StreamID : bytes;
  co_SourceLayer : string;
  co_TargetLayer : string;
  co_Created : Z;
  co_Expiry : Z;
  co_MaxUses : Z;
  co_UsesRemaining : Z;
  co_Conditions : option ConsentConditions;
  co_Revoked : bool;
  co_RevokedAt : Z;
  co_Signature : bytes;
}.

Definition strings_field (k : string) (l : list string) : string * option json :=
  omit_if (length l =? 0)%nat k (JArr (map jstring l)).

Definition consent_conditions_json (c : ConsentConditions) : json := jobj [
  omit_bool "require_reason" (cc_RequireReason c);
  omit_bool "notify_on_use" (cc_NotifyOnUse c);
  omit_bool "approval_required" (cc_ApprovalRequired c);
  strings_field "allowed_purposes" (cc_AllowedPurposes c);
  strings_field "geo_restriction" (cc_GeoRestriction c)].

(** [omitempty] never omits an array, so [stream_id] is always written. *)
Definition consent_fields (c : Consent) : list (string * option json) := [
  field "id" (jarray (co_ID c));
  field "type" (jstring (co_Type c));
  field "grantor" (jhex (co_Grantor c));
  field "grantee" (jhex (co_Grantee c));
  field "stream_id" (jarray (co_StreamID c));
  omit_str "source_layer" (co_SourceLayer c);
  omit_str "target_layer" (co_TargetLayer c);
  field "created" (JNum (co_Created c));
  omit_int "expiry" (co_Expiry c);
  omit_int "max_uses" (co_MaxUses c);
  omit_int "uses_remaining" (co_UsesRemaining c);
  ("conditions"%string, consent_conditions_json <$> co_Conditions c);
  field "revoked" (JBool (co_Revoked c));
  omit_int "revoked_at" (co_RevokedAt c);
  field "signature" JNull].

#[global] Instance Consent_doc : SignedDoc Consent := {|
  doc_json c := jobj (consent_fields c);
  doc_owner := co_Grantor;
  doc_sig := co_Signature;
  doc_set_sig s c := mkConsent (co_ID c) (co_Type c) (co_Grantor c) (co_Grantee c) (co_StreamID c)
    (co_SourceLayer c) (co_TargetLayer c) (co_Created c) (co_Expiry c) (co_MaxUses c)
    (co_UsesRemaining c) (co_Conditions c) (co_Revoked c) (co_RevokedAt c) s;
  doc_sign_error := "signer is not grantor" |}.

#[global] Instance Consent_laws : SignedDocLaws Consent.
Proof. by split. Qed.

Definition set_ID (id : bytes) (c : Consent) : Consent :=
  mkConsent id (co_Type c) (co_Grantor c) (co_Grantee c) (co_StreamID c)
    (co_SourceLayer c) (co_TargetLayer c) (co_Created c) (co_Expiry c) (co_MaxUses c)
    (co_UsesRemaining c) (co_Conditions c) (co_Revoked c) (co_RevokedAt c) (co_Signature c).

Definition set_uses (n : Z) (c : Consent) : Consent :=
  mkConsent (co_ID c) (co_Type c) (co_Grantor c) (co_Grantee c) (co_StreamID c)
    (co_SourceLayer c) (co_TargetLayer c) (co_Created c) (co_Expiry c) (co_MaxUses c)
    n (co_Conditions c) (co_Revoked c) (co_RevokedAt c) (co_Signature c).

Definition Consent_Revoke (now : Z) (c : Consent) : Consent :=
  mkConsent (co_ID c) (co_Type c) (co_Grantor c) (co_Grantee c) (co_StreamID c)
    (co_SourceLayer c) (co_TargetLayer c) (co_Created c) (co_Expiry c) (co_MaxUses c)
    (co_UsesRemaining c) (co_Conditions c) true now (co_Signature c).

(** A proof that a grantee uses a consent. *)
Record ConsentProof := mkProof {
  cp_ConsentID : bytes;
  cp_Operation : string;
  cp_Target : bytes;
  cp_Timestamp : Z;
  cp_Reason : string;
  cp_Signature : bytes;
}.

Definition proof_json (cp : ConsentProof) : json := jobj [
  field "consent_id" (jarray (cp_ConsentID cp));
  field "operation" (jstring (cp_Operation cp));
  field "target" (jarray (cp_Target cp));
  field "timestamp" (JNum (cp_Timestamp cp));
  omit_str "reason" (cp_Reason cp);
  field "signature" JNull].

Record ConsentUsageEntry := mkUsage {
  cu_ConsentID : bytes;
  cu_Grantee : bytes;
  cu_Operation : string;
  cu_Target : bytes;
  cu_Timestamp : Z;
  cu_Reason : string;
}.

Record ConsentManager := mkConsentManager {
  cm_Owner : bytes;
  cm_Consents : gmap bytes Consent;
  cm_ByGrantee : gmap bytes (list bytes);
  cm_UsageLog : list ConsentUsageEntry;
}.

Definition NewConsentManager (owner : bytes) : ConsentManager := mkConsentManager owner ∅ ∅ [].

Section consent.
Context {C : Crypto}.

Definition Consent_GenerateID (c : Consent) : Consent :=
  set_ID (Keccak256 (marshal (jobj [
    field "Type" (jstring (co_Type c));
    field "Grantor" (jhex (co_Grantor c));
    field "Grantee" (jhex (co_Grantee c));
    field "StreamID" (jarray (co_StreamID c));
    field "Created" (JNum (co_Created c))]))) c.

Definition Consent_IsValid (now : Z) (c : Consent) : bool :=
  if co_Revoked c then false
  else if (0 <? co_Expiry c) && (co_Expiry c <? now) then false
  else if (0 <? co_MaxUses c) && (co_UsesRemaining c <=? 0) then false
  else doc_Verify c.

Definition Consent_Use (now : Z) (c : Consent) : Consent * result unit :=
  if negb (Consent_IsValid now c) then (c, Err "consent is not valid")
  else if 0 <? co_MaxUses c then (set_uses (i64 (co_UsesRemaining c - 1)) c, Ok tt)
  else (c, Ok tt).

Definition Proof_Sign (k : PrivateKey) (cp : ConsentProof) : ConsentProof * result unit :=
  let cp0 := mkProof (cp_ConsentID cp) (cp_Operation cp) (cp_Target cp) (cp_Timestamp cp) (cp_Reason cp) [] in
  match json_Marshal (proof_json cp0) with
  | Err _ => (cp0, Err "failed to marshal for signing")
  | Ok data =>
      match EcSign (Keccak256 data) k with
      | Err _ => (cp0, Err "failed to sign")
      | Ok sig => (mkProof (cp_ConsentID cp) (cp_Operation cp) (cp_Target cp) (cp_Timestamp cp) (cp_Reason cp) sig, Ok tt)
      end
  end.

(** The recovered address; [None] for [(_, false)]. *)
Definition Proof_Verify (cp : ConsentProof) : option bytes :=
  if bytes_eqb (cp_Signature cp) [] then None
  else match json_Marshal (proof_json cp) with
       | Err _ => None
       | Ok data => EcRecover (Keccak256 data) (cp_Signature cp)
       end.

(** The consent is changed in place even when signing fails, so the changed
    value is returned as well. *)
Definition Grant (cm : ConsentManager) (consent : Consent) (k : PrivateKey)
    : ConsentManager * Consent * result unit :=
  if negb (bytes_eqb (co_Grantor consent) (cm_Owner cm))
  then (cm, consent, Err "grantor must be consent manager owner")
  else
    let consent := if bytes_eqb (co_ID consent) zero32 then Consent_GenerateID consent else consent in
    let consent := if 0 <? co_MaxUses consent then set_uses (co_MaxUses consent) consent else consent in
    match doc_Sign k consent with
    | (consent, Err e) => (cm, consent, Err e)
    | (consent, Ok _) =>
        (mkConsentManager (cm_Owner cm) (<[co_ID consent := consent]> (cm_Consents cm))
           (<[co_Grantee consent := default [] (cm_ByGrantee cm !! co_Grantee consent) ++ [co_ID consent]]>
              (cm_ByGrantee cm)) (cm_UsageLog cm), consent, Ok tt)
    end.

Definition set_consent (id : bytes) (c : Consent) (cm : ConsentManager) : ConsentManager :=
  mkConsentManager (cm_Owner cm) (<[id := c]> (cm_Consents cm)) (cm_ByGrantee cm) (cm_UsageLog cm).

Definition Manager_Revoke (cm : ConsentManager) (id : bytes) (now : Z) : ConsentManager * result unit :=
  match cm_Consents cm !! id with
  | None => (cm, Err "consent not found")
  | Some c => (set_consent id (Consent_Revoke now c) cm, Ok tt)
  end.

Definition usage_of (proof : ConsentProof) (grantee : bytes) : ConsentUsageEntry :=
  mkUsage (cp_ConsentID proof) grantee (cp_Operation proof) (cp_Target proof) (cp_Timestamp proof)
    (cp_Reason proof).

(** [now1] is read by the first [IsValid], [now2] by the one inside [Use]. *)
Definition ValidateAndUse (cm : ConsentManager) (proof : ConsentProof) (now1 now2 : Z)
    : ConsentManager * result unit :=
  match cm_Consents cm !! cp_ConsentID proof with
  | None => (cm, Err "consent not found")
  | Some consent =>
      match Proof_Verify proof with
      | None => (cm, Err "invalid proof signature")
      | Some grantee =>
          if negb (bytes_eqb grantee (co_Grantee consent)) then (cm, Err "proof signer is not the grantee")
          else if negb (Consent_IsValid now1 consent) then (cm, Err "consent is not valid")
          else if negb (bool_decide (cp_Operation proof = co_Type consent)) then (cm, Err "operation type mismatch")
          else if match co_Conditions consent with
                  | Some cond => cc_RequireReason cond && bool_decide (cp_Reason proof = EmptyString)
                  | None => false
                  end then (cm, Err "reason required but not provided")
          else match Consent_Use now2 consent with
               | (_, Err e) => (cm, Err e)
               | (consent', Ok _) =>
                   (mkConsentManager (cm_Owner cm) (<[cp_ConsentID proof := consent']> (cm_Consents cm))
                      (cm_ByGrantee cm) (cm_UsageLog cm ++ [usage_of proof grantee]), Ok tt)
               end
      end
  end.

Definition GetConsentsFor (cm : ConsentManager) (grantee : bytes) (now : Z) : list Consent :=
  flat_map (fun id => match cm_Consents cm !! id with
                      | Some c => if Consent_IsValid now c then [c] else []
                      | None => []
                      end) (default [] (cm_ByGrantee cm !! grantee)).

Definition HasConsent (cm : ConsentManager) (grantee : bytes) (operation : string) (streamID : bytes)
    (now : Z) : bool :=
  existsb (fun id => match cm_Consents cm !! id with
                     | Some c => Consent_IsValid now c && bool_decide (co_Type c = operation) &&
                                 (bytes_eqb (co_StreamID c) zero32 || bytes_eqb (co_StreamID c) streamID)
                     | None => false
                     end) (default [] (cm_ByGrantee cm !! grantee)).
End consent.

(** A Go map with keys of type [[32]byte] is not a JSON object: [json.Marshal]
    rejects the type, whatever the map holds. *)
Definition ExportConsents (cm : ConsentManager) : result bytes := json_Marshal JUnsupported.

Definition GetUsageLog (cm : ConsentManager) : list ConsentUsageEntry := cm_UsageLog cm.

Definition ConsentIDToHex (id : bytes) : bytes := hex_encode id.

Definition HexToConsentID (s : bytes) : result bytes :=
  match hex_decode s with
  | None => Err "encoding/hex: invalid"
  | Some b => if negb (length b =? 32)%nat then Err "invalid consent ID length" else Ok (copy_to 32 b)
  end.

(** ** Sequences of operations *)

Inductive consent_op {C : Crypto} :=
| COGrant (c : Consent) (k : PrivateKey)
| CORevoke (id : bytes) (now : Z)
| COUse (proof : ConsentProof) (now1 now2 : Z).

Definition consent_exec {C : Crypto} (cm : ConsentManager) (op : consent_op) : ConsentManager :=
  match op with
  | COGrant c k => (Grant cm c k).1.1
  | CORevoke id now => (Manager_Revoke cm id now).1
  | COUse proof now1 now2 => (ValidateAndUse cm proof now1 now2).1
  end.

Definition consent_run {C : Crypto} (cm : ConsentManager) (ops : list consent_op) : ConsentManager :=
  fold_left consent_exec ops cm.

(** Logged uses of a consent. *)
Definition uses (id : bytes) (cm : ConsentManager) : Z :=
  Z.of_nat (length (List.filter (fun u => bytes_eqb (cu_ConsentID u) id) (cm_UsageLog cm))).

(** The operation does not grant a consent with this identifier. *)
Definition avoids {C : Crypto} (id : bytes) (op : consent_op) : Prop :=
  match op with
  | COGrant c _ => co_ID (if bytes_eqb (co_ID c) zero32 then Consent_GenerateID c else c) <> id
  | _ => True
  end.

Section consent_theory.
Context {C : Crypto} {L : CryptoLaws C}.

(** What a successful [ValidateAndUse] checked and did. *)
Lemma ValidateAndUse_ok cm proof now1 now2 cm' u :
  ValidateAndUse cm proof now1 now2 = (cm', Ok u) ->
  exists c, cm_Consents cm !! cp_ConsentID proof = Some c /\
    Proof_Verify proof = Some (co_Grantee c) /\ co_Revoked c = false /\
    cp_Operation proof = co_Type c /\ Consent_IsValid now1 c = true /\ Consent_IsValid now2 c = true /\
    (0 < co_MaxUses c -> 0 < co_UsesRemaining c) /\
    cm' = mkConsentManager (cm_Owner cm) (<[cp_ConsentID proof :=
              if 0 <? co_MaxUses c then set_uses (i64 (co_UsesRemaining c - 1)) c else c]> (cm_Consents cm))
            (cm_ByGrantee cm) (cm_UsageLog cm ++ [usage_of proof (co_Grantee c)]).
Proof.
  unfold ValidateAndUse, Consent_Use. intros H.
  destruct (cm_Consents cm !! cp_ConsentID proof) as [c|] eqn:Hc; [|done].
  destruct (Proof_Verify proof) as [g|] eqn:Hp; [|done].
  destruct (bytes_eqb g (co_Grantee c)) eqn:Hg; [|done]. apply bytes_eqb_true in Hg as ->. cbn [negb] in H.
  destruct (Consent_IsValid now1 c) eqn:Hv1; [|done]. cbn [negb] in H.
  destruct (bool_decide (cp_Operation proof = co_Type c)) eqn:Ho; [|done]. cbn [negb] in H.
  destruct (match co_Conditions c with Some _ => _ | None => _ end); [done|].
  destruct (Consent_IsValid now2 c) eqn:Hv2; [|done]. cbn [negb] in H.
  exists c. apply bool_decide_eq_true in Ho.
  assert (Hr : co_Revoked c = false) by (unfold Consent_IsValid in Hv1; by destruct (co_Revoked c)).
  assert (Hu : 0 < co_MaxUses c -> 0 < co_UsesRemaining c).
  { intros Hm. unfold Consent_IsValid in Hv1. rewrite Hr, (proj2 (Z.ltb_lt _ _) Hm) in Hv1.
    destruct ((0 <? co_Expiry c) && (co_Expiry c <? now1)); [done|]. simpl in Hv1.
    destruct (Z.leb_spec (co_UsesRemaining c) 0); [done|lia]. }
  split_and!; try done. destruct (0 <? co_MaxUses c); by injection H as <-.
Qed.

Lemma ValidateAndUse_err cm proof now1 now2 cm' e :
  ValidateAndUse cm proof now1 now2 = (cm', Err e) -> cm' = cm.
Proof. unfold ValidateAndUse, Consent_Use. intros H. repeat case_match; by simplify_eq. Qed.

Lemma uses_snoc id cm cs bg u :
  uses id (mkConsentManager (cm_Owner cm) cs bg (cm_UsageLog cm ++ [u])) =
  uses id cm + (if bytes_eqb (cu_ConsentID u) id then 1 else 0).
Proof.
  unfold uses. simpl. rewrite List.filter_app, length_app. simpl. case_match; simpl; lia.
Qed.

(** A successful grant stores the signed consent under its identifier. *)
Lemma Grant_ok cm c k cm' c' u :
  Grant cm c k = (cm', c', Ok u) ->
  doc_Verify c' = true /\ cm_Consents cm' = <[co_ID c' := c']> (cm_Consents cm) /\
  cm_UsageLog cm' = cm_UsageLog cm /\
  co_ID c' = co_ID (if bytes_eqb (co_ID c) zero32 then Consent_GenerateID c else c) /\
  co_MaxUses c' = co_MaxUses c /\ (0 < co_MaxUses c -> co_UsesRemaining c' = co_MaxUses c) /\
  co_Revoked c' = co_Revoked c.
Proof.
  unfold Grant. intros H. destruct (negb _); [done|].
  set (c1 := if bytes_eqb (co_ID c) zero32 then _ else c) in *.
  assert (E1 : co_MaxUses c1 = co_MaxUses c /\ co_Revoked c1 = co_Revoked c) by (subst c1; by destruct (bytes_eqb (co_ID c) zero32)).
  destruct E1 as [Em Er]. rewrite Em in H.
  set (c2 := if 0 <? co_MaxUses c then _ else c1) in *.
  assert (E2 : co_MaxUses c2 = co_MaxUses c /\ co_Revoked c2 = co_Revoked c /\ co_ID c2 = co_ID c1 /\
               (0 < co_MaxUses c -> co_UsesRemaining c2 = co_MaxUses c)).
  { subst c2. destruct (Z.ltb_spec 0 (co_MaxUses c)); split_and!; simpl; auto; lia. }
  destruct E2 as (Em2 & Er2 & Ei2 & Eu2).
  destruct (doc_Sign k c2) as [c3 [v|e]] eqn:S; [|done]. injection H as <- <- _.
  assert (Hf : co_ID c3 = co_ID c2 /\ co_MaxUses c3 = co_MaxUses c2 /\ co_Revoked c3 = co_Revoked c2 /\
               co_UsesRemaining c3 = co_UsesRemaining c2).
  { revert S. unfold doc_Sign. intros S. guards; simplify_eq/=; done. }
  destruct Hf as (F1 & F2 & F3 & F4). apply doc_Sign_ok in S as (Hv & _).
  split_and!; try done; rewrite ?F1, ?F2, ?F3, ?F4; auto.
Qed.

(** One step of the manager, seen by a consent it does not grant again. *)
Lemma consent_step cm op id c :
  avoids id op -> cm_Consents cm !! id = Some c ->
  exists c', cm_Consents (consent_exec cm op) !! id = Some c' /\
    co_MaxUses c' = co_MaxUses c /\
    (co_Revoked c = true -> co_Revoked c' = true /\ uses id (consent_exec cm op) = uses id cm) /\
    (0 < co_MaxUses c -> 0 <= co_UsesRemaining c < 2 ^ 63 -> 0 <= co_UsesRemaining c' < 2 ^ 63 /\
       uses id (consent_exec cm op) + co_UsesRemaining c' = uses id cm + co_UsesRemaining c).
Proof.
  intros Ha Hc. destruct op as [c0 k|id' now|proof now1 now2]; simpl in *.
  - destruct (Grant cm c0 k) as [[cm1 c1] [u|e]] eqn:G; simpl.
    + apply Grant_ok in G as (_ & E1 & E2 & E3 & _). exists c.
      unfold uses. rewrite E1, E2, lookup_insert_ne by congruence. split_and!; auto.
    + exists c. unfold Grant in G. repeat case_match; simplify_eq/=; split_and!; auto.
  - unfold Manager_Revoke. destruct (cm_Consents cm !! id') as [c0|] eqn:E; simpl; [|exists c; split_and!; auto].
    destruct (decide (id = id')) as [<-|Hn].
    + simplify_eq. exists (Consent_Revoke now c). rewrite lookup_insert_eq. split_and!; auto.
    + exists c. rewrite lookup_insert_ne by done. split_and!; auto.
  - destruct (ValidateAndUse cm proof now1 now2) as [cm' [u|e]] eqn:V; simpl.
    + apply ValidateAndUse_ok in V as (c0 & H0 & _ & Hr & _ & _ & _ & Hu & ->). simpl.
      rewrite uses_snoc. simpl. destruct (decide (cp_ConsentID proof = id)) as [Hid|Hn].
      * rewrite Hid in *. simplify_eq. rewrite lookup_insert_eq, bytes_eqb_refl.
        eexists. split; [done|]. split; [by case_match|]. split; [congruence|].
        intros Hm Hb. specialize (Hu Hm). rewrite (proj2 (Z.ltb_lt _ _) Hm). simpl.
        rewrite i64_id by (unfold in_i64; lia). lia.
      * rewrite lookup_insert_ne, (proj2 (bytes_eqb_false _ _) Hn), !Z.add_0_r by done.
        exists c. split_and!; auto.
    + apply ValidateAndUse_err in V as ->. exists c. split_and!; auto.
Qed.

Lemma consent_run_limit ops cm id c :
  Forall (avoids id) ops -> cm_Consents cm !! id = Some c -> 0 < co_MaxUses c ->
  0 <= co_UsesRemaining c < 2 ^ 63 -> uses id (consent_run cm ops) <= uses id cm + co_UsesRemaining c.
Proof.
  intros F. revert cm c. induction F as [|op ops Ha F IH]; intros cm c Hc Hm Hu; simpl; [lia|].
  destruct (consent_step cm op id c Ha Hc) as (c' & Hc' & Em & _ & Hl).
  destruct (Hl Hm Hu) as [Hb He]. rewrite <- Em in Hm.
  specialize (IH _ _ Hc' Hm Hb). lia.
Qed.

Lemma consent_run_revoked ops cm id c :
  Forall (avoids id) ops -> cm_Consents cm !! id = Some c -> co_Revoked c = true ->
  uses id (consent_run cm ops) = uses id cm.
Proof.
  intros F. revert cm c. induction F as [|op ops Ha F IH]; intros cm c Hc Hr; simpl; [done|].
  destruct (consent_step cm op id c Ha Hc) as (c' & Hc' & _ & Hl & _).
  destruct (Hl Hr) as [Hr' He]. by rewrite (IH _ _ Hc' Hr').
Qed.
End consent_theory.

(** C13: uses never exceed the limit.  After a grant with [MaxUses = n > 0], no
    sequence of validations, revocations and grants of other consents logs more than
    [n] uses of it, whatever proofs are presented. *)
Theorem consent_uses_bounded {C : Crypto} {L : CryptoLaws C} cm c k cm' c' u ops :
  Grant cm c k = (cm', c', Ok u) -> 0 < co_MaxUses c < 2 ^ 63 -> Forall (avoids (co_ID c')) ops ->
  uses (co_ID c') (consent_run cm' ops) <= uses (co_ID c') cm + co_MaxUses c.
Proof.
  intros G Hm F. apply Grant_ok in G as (_ & Ec & El & _ & Em & Eu & _).
  assert (Hl : uses (co_ID c') cm = uses (co_ID c') cm') by (unfold uses; by rewrite El).
  rewrite Hl, <- (Eu ltac:(lia)).
  apply consent_run_limit; [done|by rewrite Ec, lookup_insert_eq|lia|rewrite (Eu ltac:(lia)); lia].
Qed.

(** A limited consent to read, and the grantee's signed proof. *)
Definition demo_consent (n : Z) : Consent :=
  mkConsent (replicate 32 Byte.x01) ConsentRead (replicate 20 Byte.x05) (replicate 20 Byte.x06)
    zero32 "" "" 0 0 n 0 None false 0 [].

Definition demo_cm : ConsentManager := NewConsentManager (replicate 20 Byte.x05).

Definition demo_proof : ConsentProof :=
  (Proof_Sign (C := Toy.crypto) Byte.x06
     (mkProof (replicate 32 Byte.x01) ConsentRead zero32 5 "" [])).1.

Definition demo_granted : ConsentManager * Consent * result unit :=
  Grant (C := Toy.crypto) demo_cm (demo_consent 2) Byte.x05.

Lemma consent_uses_bounded_witness :
  let s := demo_granted in
  s.2 = Ok tt /\
  uses (co_ID s.1.2) (consent_run (C := Toy.crypto) s.1.1
    [COUse (C := Toy.crypto) demo_proof 1 1; COUse (C := Toy.crypto) demo_proof 2 2;
     COUse (C := Toy.crypto) demo_proof 3 3]) <= uses (co_ID s.1.2) demo_cm + 2.
Proof.
  intros s. split; [vm_compute; reflexivity|].
  apply (consent_uses_bounded (C := Toy.crypto) demo_cm (demo_consent 2) Byte.x05 s.1.1 s.1.2 tt).
  - vm_compute. reflexivity.
  - simpl. lia.
  - repeat constructor.
Defined.

(** revocation is final.  Once the manager revoked a consent, no sequence of
    operations (other than granting the same identifier again) logs a use of it. *)
Theorem consent_revocation_final {C : Crypto} {L : CryptoLaws C} cm id now cm' u ops :
  Manager_Revoke cm id now = (cm', Ok u) -> Forall (avoids id) ops ->
  uses id (consent_run cm' ops) = uses id cm.
Proof.
  unfold Manager_Revoke. intros R F. destruct (cm_Consents cm !! id) as [c|] eqn:E; [|done].
  injection R as <- _. erewrite consent_run_revoked; [done|done| |].
  - simpl. apply lookup_insert_eq.
  - done.
Qed.

Lemma consent_revocation_final_witness :
  let cm := demo_granted.1.1 in let id := replicate 32 Byte.x01 in
  (Manager_Revoke cm id 9).2 = Ok tt /\
  uses id (consent_run (C := Toy.crypto) (Manager_Revoke cm id 9).1
     [COUse (C := Toy.crypto) demo_proof 10 10]) = uses id cm.
Proof.
  intros cm id. split; [vm_compute; reflexivity|].
  apply (consent_revocation_final (C := Toy.crypto) cm id 9 (Manager_Revoke cm id 9).1 tt).
  - vm_compute. reflexivity.
  - repeat constructor.
Defined.

Lemma consent_fields_uses c n :
  jobj (consent_fields (set_uses n c)) = jobj (consent_fields c) -> n = co_UsesRemaining c.
Proof.
  intros H. apply jobj_inj in H; [|done|apply (bool_decide_unpack _); vm_compute; exact I].
  apply (f_equal (fun l => nth 10 l ("", None))) in H. simpl in H.
  unfold omit_int, omit_if in H. injection H as H. 
  destruct (Z.eqb_spec n 0), (Z.eqb_spec (co_UsesRemaining c) 0); congruence.
Qed.

Lemma plain_set_uses n c :
  plain (jobj (consent_fields c)) = true -> plain (jobj (consent_fields (set_uses n c))) = true.
Proof.
  rewrite !plain_jobj. unfold consent_fields, omit_int, omit_if. simpl.
  destruct (n =? 0), (co_UsesRemaining c =? 0); exact id.
Qed.

(** a limited consent works once.  The remaining uses are part of the signed
    encoding, so the first use of a consent with a limit invalidates its own
    signature: the used consent is not valid at any time, however many uses were
    granted (unless the hashes collide or the signature fits both). *)
Theorem limited_consent_single_use {C : Crypto} {L : CryptoLaws C} c now c' u :
  0 < co_MaxUses c -> in_i64 (co_UsesRemaining c) ->
  Consent_Use now c = (c', Ok u) ->
  plain (doc_json c) = true ->
  no_collision (marshal (doc_json c)) (marshal (doc_json c')) ->
  sig_binds (co_Signature c) (Keccak256 (marshal (doc_json c))) (Keccak256 (marshal (doc_json c'))) ->
  co_UsesRemaining c' = co_UsesRemaining c - 1 /\ forall now', Consent_IsValid now' c' = false.
Proof.
  unfold Consent_Use. intros Hm Hi H Hp Hc Hb.
  destruct (Consent_IsValid now c) eqn:Hv; [|done]. cbn [negb] in H.
  rewrite (proj2 (Z.ltb_lt _ _) Hm) in H. injection H as <-.
  assert (Hr : 0 < co_UsesRemaining c).
  { unfold Consent_IsValid in Hv. destruct (co_Revoked c); [done|]. rewrite (proj2 (Z.ltb_lt _ _) Hm) in Hv.
    destruct ((0 <? co_Expiry c) && (co_Expiry c <? now)); [done|]. simpl in Hv.
    destruct (Z.leb_spec (co_UsesRemaining c) 0); [done|lia]. }
  unfold in_i64 in Hi. rewrite i64_id in * by (unfold in_i64; lia). split; [done|]. intros now'.
  assert (Hd : doc_Verify c = true).
  { unfold Consent_IsValid in Hv. repeat case_match; done. }
  destruct (Consent_IsValid now' (set_uses (co_UsesRemaining c - 1) c)) eqn:Hv'; [exfalso|done].
  assert (Hd' : doc_Verify (set_uses (co_UsesRemaining c - 1) c) = true).
  { unfold Consent_IsValid in Hv'. repeat case_match; done. }
  assert (E : doc_json c = doc_json (set_uses (co_UsesRemaining c - 1) c)).
  { apply doc_sig_binds; try done. apply plain_set_uses, Hp. }
  symmetry in E. apply consent_fields_uses in E. lia.
Qed.

Lemma limited_consent_single_use_witness :
  let c := demo_granted.1.2 in
  co_UsesRemaining (Consent_Use (C := Toy.crypto) 1 c).1 = 1 /\
  forall now', Consent_IsValid (C := Toy.crypto) now' (Consent_Use (C := Toy.crypto) 1 c).1 = false.
Proof.
  intros c.
  destruct (limited_consent_single_use (C := Toy.crypto) c 1 (Consent_Use (C := Toy.crypto) 1 c).1 tt)
    as [H1 H2].
  - vm_compute. reflexivity.
  - split; vm_compute; [discriminate|reflexivity].
  - vm_compute. reflexivity.
  - vm_compute. reflexivity.
  - apply no_collision_neq. vm_compute. reflexivity.
  - apply sig_binds_None. vm_compute. reflexivity.
  - split; [exact H1|exact H2].
Defined.
