(* ===== verification/Delegation.v ===== *)
(** * Delegations ([src/identity/delegation.go])

    A delegation passes a right on a stream to another address, and its
    delegate may pass it on while the remaining depth allows.  The manager keeps
    all delegations by identifier, the children of each, and rate-limit counters.
    The recursive methods follow parent or child links through the maps; the model
    gives them fuel, and [NoFuel] stands for a call that has not returned yet. *)

From Stdlib Require Import String.
From S2P Require Import Prelude Json Signing Rights Consent.

Record DelegationScope := mkScope {
  AllowedOperations : option (list string);
  ReadOnly : bool;
  LayerRestriction : list string;
  MaxDataSize : Z;
}.

Record DelegationPolicy := mkPolicy {
  dp_RequireReason : bool;
  dp_NotifyDelegator : bool;
  RateLimitPerHour : Z;
  RateLimitPerDay : Z;
  AllowSubDelegation : bool;
  SubDelegationRequiresApproval : bool;
  InheritPolicyToSubDelegates : bool;
  RevokeOnCompromise : bool;
}.

(** The fields that [Sign] and [Revoke] do not touch, and the others. *)
Record DelegationTerms := mkTerms {
  dg_ID : bytes;
  dg_Delegator : bytes;
  dg_Delegate : bytes;
  dg_RightType : string;
  dg_StreamID : bytes;
  dg_Scope : DelegationScope;
  dg_Depth : Z;
  dg_CurrentDepth : Z;
  dg_ParentDelegation : bytes;
  dg_Created : Z;
  dg_ValidFrom : Z;
  dg_ValidUntil : Z;
  dg_Policy : DelegationPolicy;
}.

Record Delegation := mkDelegation {
  dg_terms :> DelegationTerms;
  dg_Revoked : bool;
  dg_RevokedAt : Z;
  dg_RevokedBy : bytes;
  dg_Signature : bytes;
}.

Definition scope_json (s : DelegationScope) : json := jobj [
  field "allowed_operations" (jlist jstring (AllowedOperations s));
  omit_bool "read_only" (ReadOnly s);
  strings_field "layer_restriction" (LayerRestriction s);
  omit_int "max_data_size" (MaxDataSize s)].

Definition policy_json (p : DelegationPolicy) : json := jobj [
  omit_bool "require_reason" (dp_RequireReason p);
  omit_bool "notify_delegator" (dp_NotifyDelegator p);
  omit_int "rate_limit_per_hour" (RateLimitPerHour p);
  omit_int "rate_limit_per_day" (RateLimitPerDay p);
  omit_bool "allow_sub_delegation" (AllowSubDelegation p);
  omit_bool "sub_delegation_requires_approval" (SubDelegationRequiresApproval p);
  omit_bool "inherit_policy_to_sub_delegates" (InheritPolicyToSubDelegates p);
  omit_bool "revoke_on_compromise" (RevokeOnCompromise p)].

#[global] Instance Delegation_doc : SignedDoc Delegation := {|
  doc_json := fun d : Delegation => jobj [
    field "id" (jarray (dg_ID d));
    field "delegator" (jhex (dg_Delegator d));
    field "delegate" (jhex (dg_Delegate d));
    field "right_type" (jstring (dg_RightType d));
    field "stream_id" (jarray (dg_StreamID d));
    field "scope" (scope_json (dg_Scope d));
    field "depth" (JNum (dg_Depth d));
    field "current_depth" (JNum (dg_CurrentDepth d));
    field "parent_delegation" (jarray (dg_ParentDelegation d));
    field "created" (JNum (dg_Created d));
    field "valid_from" (JNum (dg_ValidFrom d));
    omit_int "valid_until" (dg_ValidUntil d);
    field "policy" (policy_json (dg_Policy d));
    field "revoked" (JBool (dg_Revoked d));
    omit_int "revoked_at" (dg_RevokedAt d);
    field "revoked_by" (jhex (dg_RevokedBy d));
    field "signature" JNull];
  doc_owner := fun d : Delegation => dg_Delegator d;
  doc_sig := dg_Signature;
  doc_set_sig s d := mkDelegation (dg_terms d) (dg_Revoked d) (dg_RevokedAt d) (dg_RevokedBy d) s;
  doc_sign_error := "signer is not delegator" |}.

#[global] Instance Delegation_laws : SignedDocLaws Delegation.
Proof. by split. Qed.

(** A new delegation: not revoked, not signed. *)
Definition fresh (t : DelegationTerms) : Delegation := mkDelegation t false 0 zero20 [].

Definition no_policy (allow : bool) : DelegationPolicy := mkPolicy false false 0 0 allow false false false.

Definition Delegation_Revoke (now : Z) (revoker : bytes) (d : Delegation) : Delegation :=
  mkDelegation (dg_terms d) true now revoker (dg_Signature d).

Record UsageTracker := mkTracker {
  HourlyUses : Z;
  DailyUses : Z;
  HourlyReset : Z;
  DailyReset : Z;
}.

Record DelegationManager := mkDelegationManager {
  dm_Owner : bytes;
  Delegations : gmap bytes Delegation;
  DelegationsGiven : gmap bytes (list bytes);
  DelegationsReceived : gmap bytes (list bytes);
  DelegationChains : gmap bytes (list bytes);
  UsageTracking : gmap bytes UsageTracker;
}.

Definition NewDelegationManager (owner : bytes) : DelegationManager :=
  mkDelegationManager owner ∅ ∅ ∅ ∅ ∅.

(** [m[k] = append(m[k], v)]. *)
Definition push (k v : bytes) (m : gmap bytes (list bytes)) : gmap bytes (list bytes) :=
  <[k := default [] (m !! k) ++ [v]]> m.

Definition set_delegation (id : bytes) (d : Delegation) (dm : DelegationManager) : DelegationManager :=
  mkDelegationManager (dm_Owner dm) (<[id := d]> (Delegations dm)) (DelegationsGiven dm)
    (DelegationsReceived dm) (DelegationChains dm) (UsageTracking dm).

Definition set_tracker (id : bytes) (t : UsageTracker) (dm : DelegationManager) : DelegationManager :=
  mkDelegationManager (dm_Owner dm) (Delegations dm) (DelegationsGiven dm)
    (DelegationsReceived dm) (DelegationChains dm) (<[id := t]> (UsageTracking dm)).

Definition children (dm : DelegationManager) (id : bytes) : list bytes :=
  default [] (DelegationChains dm !! id).

Section delegation.
Context {C : Crypto}.

Definition terms_id (delegator delegate : bytes) (rightType : string) (streamID : bytes) (created : Z) : bytes :=
  Keccak256 (marshal (jobj [
    field "Delegator" (jhex delegator);
    field "Delegate" (jhex delegate);
    field "RightType" (jstring rightType);
    field "StreamID" (jarray streamID);
    field "Created" (JNum created)])).

Definition Delegation_GenerateID (t : DelegationTerms) : DelegationTerms :=
  mkTerms (terms_id (dg_Delegator t) (dg_Delegate t) (dg_RightType t) (dg_StreamID t) (dg_Created t))
    (dg_Delegator t) (dg_Delegate t) (dg_RightType t) (dg_StreamID t) (dg_Scope t) (dg_Depth t)
    (dg_CurrentDepth t) (dg_ParentDelegation t) (dg_Created t) (dg_ValidFrom t) (dg_ValidUntil t)
    (dg_Policy t).

Definition Delegation_IsValid (now : Z) (d : Delegation) : bool :=
  if dg_Revoked d then false
  else if now <? dg_ValidFrom d then false
  else if (0 <? dg_ValidUntil d) && (dg_ValidUntil d <? now) then false
  else doc_Verify d.

Definition CanSubDelegate (now : Z) (d : Delegation) : bool :=
  if negb (Delegation_IsValid now d) then false
  else if negb (AllowSubDelegation (dg_Policy d)) then false
  else if dg_Depth d <=? 0 then false
  else true.

(** [now1] is read by [IsValid], [now2] is the creation time. *)
Definition CreateSubDelegation (now1 now2 : Z) (d : Delegation) (delegate : bytes) (validUntil : Z)
    : result Delegation :=
  if negb (CanSubDelegate now1 d) then Err "delegation does not allow sub-delegation"
  else
    let validUntil :=
      if (0 <? dg_ValidUntil d) && ((validUntil =? 0) || (dg_ValidUntil d <? validUntil))
      then dg_ValidUntil d else validUntil in
    Ok (fresh (Delegation_GenerateID
      (mkTerms zero32 (dg_Delegate d) delegate (dg_RightType d) (dg_StreamID d) (dg_Scope d)
         (i64 (dg_Depth d - 1)) (i64 (dg_CurrentDepth d + 1)) (dg_ID d) now2 now2 validUntil
         (if InheritPolicyToSubDelegates (dg_Policy d) then dg_Policy d
          else no_policy (1 <? dg_Depth d))))).

(** The map updates shared by the two creating methods. *)
Definition store_delegation (d : Delegation) (tracker : UsageTracker) (parent : option bytes)
    (dm : DelegationManager) : DelegationManager :=
  mkDelegationManager (dm_Owner dm) (<[dg_ID d := d]> (Delegations dm))
    (push (dg_Delegator d) (dg_ID d) (DelegationsGiven dm))
    (push (dg_Delegate d) (dg_ID d) (DelegationsReceived dm))
    (match parent with Some p => push p (dg_ID d) (DelegationChains dm) | None => DelegationChains dm end)
    (<[dg_ID d := tracker]> (UsageTracking dm)).

Definition Manager_CreateDelegation (dm : DelegationManager) (k : PrivateKey) (delegate : bytes)
    (rightType : string) (streamID : bytes) (scope : DelegationScope) (depth validUntil : Z)
    (policy : DelegationPolicy) (now : Z) : DelegationManager * result Delegation :=
  let d := fresh (Delegation_GenerateID
    (mkTerms zero32 (KeyAddress k) delegate rightType streamID scope depth 0 zero32 now now validUntil policy)) in
  match doc_Sign k d with
  | (_, Err e) => (dm, Err e)
  | (d, Ok _) =>
      (store_delegation d (mkTracker 0 0 (i64 (now + 3600)) (i64 (now + 86400))) None dm, Ok d)
  end.

Definition Manager_CreateSubDelegation (dm : DelegationManager) (k : PrivateKey) (parentID newDelegate : bytes)
    (validUntil now1 now2 now3 now4 : Z) : DelegationManager * result Delegation :=
  match (Delegations dm !! parentID : option Delegation) with
  | None => (dm, Err "parent delegation not found")
  | Some parent =>
      if negb (bytes_eqb (KeyAddress k) (dg_Delegate parent))
      then (dm, Err "only the delegate can create sub-delegations")
      else match CreateSubDelegation now1 now2 parent newDelegate validUntil with
           | Err e => (dm, Err e)
           | Ok sub =>
               match doc_Sign k sub with
               | (_, Err e) => (dm, Err e)
               | (sub, Ok _) =>
                   (store_delegation sub (mkTracker 0 0 (i64 (now3 + 3600)) (i64 (now4 + 86400)))
                      (Some parentID) dm, Ok sub)
               end
           end
  end.

Fixpoint canRevoke (fuel : nat) (dm : DelegationManager) (d : Delegation) (revoker : bytes) : outcome bool :=
  match fuel with
  | O => NoFuel
  | S f =>
      if bytes_eqb (dg_Delegator d) revoker then Done true
      else if negb (bytes_eqb (dg_ParentDelegation d) zero32) then
        match (Delegations dm !! dg_ParentDelegation d : option Delegation) with
        | Some parent => canRevoke f dm parent revoker
        | None => Done false
        end
      else Done false
  end.

(** The loop over the children, each revoked before its own children ([rec]). *)
Fixpoint revoke_loop (rec : bytes -> DelegationManager -> outcome DelegationManager) (now : Z)
    (revoker : bytes) (ids : list bytes) (dm : DelegationManager) : outcome DelegationManager :=
  match ids with
  | [] => Done dm
  | childID :: rest =>
      match (Delegations dm !! childID : option Delegation) with
      | None => revoke_loop rec now revoker rest dm
      | Some child =>
          let! dm := rec childID (set_delegation childID (Delegation_Revoke now revoker child) dm) in
          revoke_loop rec now revoker rest dm
      end
  end.

Fixpoint revokeSubDelegations (fuel : nat) (now : Z) (revoker parentID : bytes) (dm : DelegationManager)
    : outcome DelegationManager :=
  match fuel with
  | O => NoFuel
  | S f => revoke_loop (revokeSubDelegations f now revoker) now revoker (children dm parentID) dm
  end.

Definition RevokeDelegation (fuel : nat) (dm : DelegationManager) (delegationID revoker : bytes) (now : Z)
    : outcome (DelegationManager * result unit) :=
  match (Delegations dm !! delegationID : option Delegation) with
  | None => Done (dm, Err "delegation not found")
  | Some d =>
      let! allowed := canRevoke fuel dm d revoker in
      if negb allowed then Done (dm, Err "not authorized to revoke this delegation")
      else
        let! dm := revokeSubDelegations fuel now revoker delegationID
                     (set_delegation delegationID (Delegation_Revoke now revoker d) dm) in
        Done (dm, Ok tt)
  end.

(** The resets, applied before the limits are checked. *)
Definition reset_tracker (now : Z) (t : UsageTracker) : UsageTracker :=
  let t := if HourlyReset t <=? now then mkTracker 0 (DailyUses t) (i64 (now + 3600)) (DailyReset t) else t in
  if DailyReset t <=? now then mkTracker (HourlyUses t) 0 (HourlyReset t) (i64 (now + 86400)) else t.

(** [now1] is read by [IsValid].  A missing tracker is a nil dereference. *)
Definition CheckAndUse (dm : DelegationManager) (delegationID : bytes) (operation : string) (now1 now2 : Z)
    : outcome (DelegationManager * result unit) :=
  match (Delegations dm !! delegationID : option Delegation) with
  | None => Done (dm, Err "delegation not found")
  | Some d =>
      if negb (Delegation_IsValid now1 d) then Done (dm, Err "delegation is not valid")
      else if negb (existsb (fun op => bool_decide (op = operation)) (default [] (AllowedOperations (dg_Scope d))))
      then Done (dm, Err "operation not allowed by delegation scope")
      else match UsageTracking dm !! delegationID with
           | None => Panic "nil pointer dereference"
           | Some t =>
               let t := reset_tracker now2 t in
               let dm := set_tracker delegationID t dm in
               if (0 <? RateLimitPerHour (dg_Policy d)) && (RateLimitPerHour (dg_Policy d) <=? HourlyUses t)
               then Done (dm, Err "hourly rate limit exceeded")
               else if (0 <? RateLimitPerDay (dg_Policy d)) && (RateLimitPerDay (dg_Policy d) <=? DailyUses t)
               then Done (dm, Err "daily rate limit exceeded")
               else Done (set_tracker delegationID
                            (mkTracker (i64 (HourlyUses t + 1)) (i64 (DailyUses t + 1)) (HourlyReset t) (DailyReset t)) dm,
                          Ok tt)
           end
  end.

Definition GetDelegationsFor (dm : DelegationManager) (delegate : bytes) (now : Z) : list Delegation :=
  flat_map (fun id => match (Delegations dm !! id : option Delegation) with
                      | Some d => if Delegation_IsValid now d then [d] else []
                      | None => []
                      end) (default [] (DelegationsReceived dm !! delegate)).

(** The loop of [GetDelegationChain]; the result starts with the root. *)
Fixpoint chain_loop (fuel : nat) (dm : DelegationManager) (currentID : bytes) (chain : list Delegation)
    : outcome (list Delegation) :=
  match fuel with
  | O => NoFuel
  | S f =>
      if bytes_eqb currentID zero32 then Done chain
      else match (Delegations dm !! currentID : option Delegation) with
           | None => Done chain
           | Some d => chain_loop f dm (dg_ParentDelegation d) (d :: chain)
           end
  end.

Definition GetDelegationChain (fuel : nat) (dm : DelegationManager) (id : bytes) : outcome (list Delegation) :=
  chain_loop fuel dm id [].


End delegation.

(** As for consents, the key type makes [json.Marshal] fail. *)
Definition ExportDelegations (dm : DelegationManager) : result bytes := json_Marshal JUnsupported.

(** ** The delegation forest

    Revocation and signatures do not change a delegation's terms, so the shape of
    the forest is stated on the map of terms [T] and the child lists [Ch]. *)

(** What a sub-delegation inherits from its parent, and what it loses. *)
Definition attenuates (p t : DelegationTerms) : Prop :=
  dg_Delegator t = dg_Delegate p /\ dg_RightType t = dg_RightType p /\ dg_StreamID t = dg_StreamID p /\
  dg_Scope t = dg_Scope p /\ dg_Depth t = dg_Depth p - 1 /\ 0 <= dg_Depth t /\
  dg_CurrentDepth t = dg_CurrentDepth p + 1 /\
  (0 <= dg_ValidUntil t -> 0 < dg_ValidUntil p -> 0 < dg_ValidUntil t <= dg_ValidUntil p).

Definition term_ok (T : gmap bytes DelegationTerms) (Ch : gmap bytes (list bytes)) (id : bytes)
    (t : DelegationTerms) : Prop :=
  dg_ID t = id /\ id <> zero32 /\ 0 <= dg_CurrentDepth t /\ in_i64 (dg_Depth t) /\
  dg_CurrentDepth t + Z.max 0 (dg_Depth t) < 2 ^ 63 /\
  ((dg_ParentDelegation t = zero32 /\ dg_CurrentDepth t = 0) \/
   (dg_ParentDelegation t <> zero32 /\ id ∈ default [] (Ch !! dg_ParentDelegation t) /\
    exists p, T !! dg_ParentDelegation t = Some p /\ attenuates p t)).

Definition forest (T : gmap bytes DelegationTerms) (Ch : gmap bytes (list bytes)) : Prop :=
  map_Forall (term_ok T Ch) T /\
  forall p c, c ∈ default [] (Ch !! p) -> exists t, T !! c = Some t /\ dg_ParentDelegation t = p.

Definition terms_of (dm : DelegationManager) : gmap bytes DelegationTerms := dg_terms <$> Delegations dm.

Definition dm_wf (dm : DelegationManager) : Prop :=
  forest (terms_of dm) (DelegationChains dm) /\
  forall id, is_Some (Delegations dm !! id) -> is_Some (UsageTracking dm !! id).

Lemma push_children (p c : bytes) (Ch : gmap bytes (list bytes)) (q : bytes) :
  default [] (push p c Ch !! q) = default [] (Ch !! q) ++ (if decide (q = p) then [c] else []).
Proof.
  unfold push. case_decide as H; [subst; by rewrite lookup_insert_eq|].
  rewrite lookup_insert_ne by done. by rewrite app_nil_r.
Qed.

(** Adding a delegation with a new identifier keeps the forest. *)
Lemma forest_insert T Ch t parent :
  forest T Ch -> T !! dg_ID t = None -> dg_ID t <> zero32 ->
  0 <= dg_CurrentDepth t -> in_i64 (dg_Depth t) -> dg_CurrentDepth t + Z.max 0 (dg_Depth t) < 2 ^ 63 ->
  match parent with
  | None => dg_ParentDelegation t = zero32 /\ dg_CurrentDepth t = 0
  | Some q => dg_ParentDelegation t = q /\ q <> zero32 /\ exists p, T !! q = Some p /\ attenuates p t
  end ->
  forest (<[dg_ID t := t]> T) (match parent with Some q => push q (dg_ID t) Ch | None => Ch end).
Proof.
  intros [F1 F2] Hnew Hz Hc Hd Hs Hp. set (Ch' := match parent with Some _ => _ | None => _ end).
  assert (Hch : forall q c, c ∈ default [] (Ch !! q) -> c ∈ default [] (Ch' !! q)).
  { intros q c H. subst Ch'. destruct parent; [|done]. rewrite push_children. apply elem_of_app. by left. }
  assert (Hold : forall id x, T !! id = Some x -> <[dg_ID t := t]> T !! id = Some x).
  { intros id x H. rewrite lookup_insert_ne; [done|]. congruence. }
  split.
  - apply map_Forall_insert_2.
    + split_and!; try done. destruct parent as [q|]; [right|by left].
      destruct Hp as (-> & Hq & p & Hp & A). split; [done|]. split; [|exists p; auto].
      subst Ch'. rewrite push_children, decide_True by done. apply elem_of_app. right. by left.
    + intros id x Hx. destruct (F1 _ _ Hx) as (G1 & G2 & G3 & G4 & G5 & G6). split_and!; try done.
      destruct G6 as [?|(G6 & G7 & p & G8 & G9)]; [by left|right]. eauto 10.
  - intros p c H. subst Ch'. destruct parent as [q|].
    + rewrite push_children in H. apply elem_of_app in H as [H|H].
      * destruct (F2 _ _ H) as (x & Hx & E). eauto.
      * case_decide; [|by apply not_elem_of_nil in H]. apply list_elem_of_singleton in H as ->. subst.
        exists t. rewrite lookup_insert_eq. destruct Hp as (E & _). auto.
    + destruct (F2 _ _ H) as (x & Hx & E). eauto.
Qed.

Section delegation_theory.
Context {C : Crypto} {L : CryptoLaws C}.

Lemma doc_Sign_terms k (d d' : Delegation) r : doc_Sign k d = (d', r) -> dg_terms d' = dg_terms d.
Proof. unfold doc_Sign. intros H. repeat case_match; by simplify_eq. Qed.

Lemma terms_of_set id d d' dm :
  Delegations dm !! id = Some d -> dg_terms d' = dg_terms d -> terms_of (set_delegation id d' dm) = terms_of dm.
Proof.
  intros H E. unfold terms_of. simpl. rewrite fmap_insert, E. apply insert_id.
  rewrite lookup_fmap, H. done.
Qed.

Lemma CreateSubDelegation_ok now1 now2 d delegate vu sub :
  CreateSubDelegation now1 now2 d delegate vu = Ok sub ->
  in_i64 (dg_Depth d) -> 0 <= dg_CurrentDepth d -> dg_CurrentDepth d + Z.max 0 (dg_Depth d) < 2 ^ 63 ->
  Delegation_IsValid now1 d = true /\ dg_ParentDelegation sub = dg_ID d /\ attenuates d sub /\
  dg_Delegate sub = delegate /\ dg_Revoked sub = false.
Proof.
  unfold CreateSubDelegation, CanSubDelegate. intros H Hd Hc Hs.
  destruct (Delegation_IsValid now1 d) eqn:V; [|done]. simpl in H.
  destruct (AllowSubDelegation (dg_Policy d)); [|done]. simpl in H.
  destruct (Z.leb_spec (dg_Depth d) 0); [done|]. simpl in H. injection H as <-. unfold in_i64 in *.
  split_and!; try done. unfold attenuates. simpl. rewrite !i64_id by (unfold in_i64; lia).
  split_and!; try done; try lia; intros Hn Hp; revert Hn;
    destruct (Z.ltb_spec 0 (dg_ValidUntil d)), (Z.eqb_spec vu 0), (Z.ltb_spec (dg_ValidUntil d) vu); simpl; lia.
Qed.
End delegation_theory.

(** ** Sequences of operations *)

Inductive dm_op {C : Crypto} :=
| DCreate (k : PrivateKey) (delegate : bytes) (rightType : string) (streamID : bytes)
    (scope : DelegationScope) (depth validUntil : Z) (policy : DelegationPolicy) (now : Z)
| DSub (k : PrivateKey) (parentID newDelegate : bytes) (validUntil now1 now2 now3 now4 : Z)
| DRevoke (id revoker : bytes) (now : Z)
| DUse (id : bytes) (operation : string) (now1 now2 : Z).

Definition dm_exec {C : Crypto} (fuel : nat) (dm : DelegationManager) (op : dm_op) : outcome DelegationManager :=
  match op with
  | DCreate k d r s sc de vu p now => Done (Manager_CreateDelegation dm k d r s sc de vu p now).1
  | DSub k p d vu n1 n2 n3 n4 => Done (Manager_CreateSubDelegation dm k p d vu n1 n2 n3 n4).1
  | DRevoke id revoker now => let! r := RevokeDelegation fuel dm id revoker now in Done r.1
  | DUse id o n1 n2 => let! r := CheckAndUse dm id o n1 n2 in Done r.1
  end.

(** The identifier of a new delegation is not in use.  It hashes the parties, the right,
    the stream and the second of creation, so it is in use when the same parties were
    given the same right on the same stream in the same second.  Depths are machine
    integers, and no hash is zero. *)
Definition fresh_op {C : Crypto} (dm : DelegationManager) (op : dm_op) : Prop :=
  match op with
  | DCreate k d r s _ de _ _ now =>
      let id := terms_id (KeyAddress k) d r s now in
      Delegations dm !! id = None /\ id <> zero32 /\ in_i64 de
  | DSub _ p d _ _ n2 _ _ =>
      forall t, terms_of dm !! p = Some t ->
        let id := terms_id (dg_Delegate t) d (dg_RightType t) (dg_StreamID t) n2 in
        Delegations dm !! id = None /\ id <> zero32
  | _ => True
  end.

(** Any operation, and one that reuses no identifier. *)
Definition dm_step {C : Crypto} (dm dm' : DelegationManager) : Prop :=
  exists fuel op, dm_exec fuel dm op = Done dm'.
Definition fresh_step {C : Crypto} (dm dm' : DelegationManager) : Prop :=
  exists fuel op, fresh_op dm op /\ dm_exec fuel dm op = Done dm'.

(** The managers that any operations reach, and those with an orderly history, in which
    no identifier was ever reused. *)
Definition dm_reach {C : Crypto} (dm : DelegationManager) : Prop :=
  exists owner, rtc dm_step (NewDelegationManager owner) dm.
Definition dm_orderly {C : Crypto} (dm : DelegationManager) : Prop :=
  exists owner, rtc fresh_step (NewDelegationManager owner) dm.

Lemma orderly_reach {C : Crypto} dm : dm_orderly dm -> dm_reach dm.
Proof.
  intros [owner H]. exists owner. eapply rtc_subrel; [|exact H]. intros x y (fuel & op & _ & E). by exists fuel, op.
Qed.

(** The same delegations up to revocation, with the same links. *)
Definition same_forest (dm dm' : DelegationManager) : Prop :=
  terms_of dm' = terms_of dm /\ DelegationChains dm' = DelegationChains dm /\
  UsageTracking dm' = UsageTracking dm.

#[global] Instance same_forest_preorder : PreOrder same_forest.
Proof.
  split; [by intros dm|]. intros d1 d2 d3 (E1 & E2 & E3) (F1 & F2 & F3). split_and!; congruence.
Qed.

Lemma terms_of_is_Some dm id : is_Some (terms_of dm !! id) <-> is_Some (Delegations dm !! id).
Proof. unfold terms_of. by rewrite lookup_fmap, fmap_is_Some. Qed.

Lemma same_forest_wf dm dm' : same_forest dm dm' -> dm_wf dm -> dm_wf dm'.
Proof.
  intros (E1 & E2 & E3) [W1 W2]. split; [by rewrite E1, E2|].
  intros id. rewrite <- terms_of_is_Some, E1, E3, terms_of_is_Some. apply W2.
Qed.

Section dm_theory.
Context {C : Crypto} {L : CryptoLaws C}.

Lemma revoke_one_same id d dm now revoker :
  Delegations dm !! id = Some d -> same_forest dm (set_delegation id (Delegation_Revoke now revoker d) dm).
Proof. intros H. split_and!; [by eapply terms_of_set|done..]. Qed.

Lemma revoke_loop_same (rec : bytes -> DelegationManager -> outcome DelegationManager) now revoker ids dm dm' :
  (forall id dm dm', rec id dm = Done dm' -> same_forest dm dm') ->
  revoke_loop rec now revoker ids dm = Done dm' -> same_forest dm dm'.
Proof.
  intros Hr. revert dm. induction ids as [|c ids IH]; intros dm H; simpl in H; [by injection H as <-|].
  destruct (Delegations dm !! c) as [d|] eqn:E; [|by apply IH].
  apply outcome_bind_Done in H as (dm1 & E1 & H).
  etransitivity; [by eapply revoke_one_same|]. etransitivity; [by eapply Hr|by apply IH].
Qed.

Lemma revokeSub_same fuel now revoker p dm dm' :
  revokeSubDelegations fuel now revoker p dm = Done dm' -> same_forest dm dm'.
Proof.
  revert p dm dm'. induction fuel as [|f IH]; intros p dm dm' H; [done|].
  eapply revoke_loop_same; [|exact H]. intros. by eapply IH.
Qed.

Lemma RevokeDelegation_same fuel dm id revoker now r :
  RevokeDelegation fuel dm id revoker now = Done r -> same_forest dm r.1.
Proof.
  unfold RevokeDelegation. destruct (Delegations dm !! id) as [d|] eqn:E; [|by intros [= <-]].
  intros (a & _ & H)%outcome_bind_Done. destruct a; simpl in H; [|by injection H as <-].
  apply outcome_bind_Done in H as (dm1 & H1 & [= <-]). simpl.
  etransitivity; [by eapply revoke_one_same|by eapply revokeSub_same].
Qed.

Lemma store_wf dm (d : Delegation) tr parent :
  dm_wf dm -> Delegations dm !! dg_ID d = None ->
  forest (<[dg_ID d := dg_terms d]> (terms_of dm))
    (match parent with Some q => push q (dg_ID d) (DelegationChains dm) | None => DelegationChains dm end) ->
  dm_wf (store_delegation d tr parent dm).
Proof.
  intros [W1 W2] Hn F. split.
  - unfold terms_of. simpl. rewrite fmap_insert. exact F.
  - intros id. simpl. destruct (decide (id = dg_ID d)) as [->|Hne].
    + intros _. rewrite lookup_insert_eq. by eexists.
    + rewrite !lookup_insert_ne by done. apply W2.
Qed.

Lemma exec_wf fuel dm op dm' :
  dm_wf dm -> fresh_op dm op -> dm_exec fuel dm op = Done dm' -> dm_wf dm'.
Proof.
  intros W Hf H. destruct op as [k d r s sc de vu p now|k p d vu n1 n2 n3 n4|id rv now|id o n1 n2]; simpl in *.
  - destruct Hf as (Hn & Hz & Hd). injection H as <-. unfold Manager_CreateDelegation.
    destruct (doc_Sign k _) as [d' [u|e]] eqn:S; [|done]. apply doc_Sign_terms in S. simpl in S.
    apply store_wf; [done|by rewrite S|]. rewrite S.
    apply (forest_insert _ _ _ None); try done; [apply W|..].
    + unfold terms_of. simpl. by rewrite lookup_fmap, Hn.
    + simpl. unfold in_i64 in Hd. lia.
  - injection H as <-. unfold Manager_CreateSubDelegation.
    destruct (Delegations dm !! p) as [par|] eqn:P; [|done].
    assert (HT : terms_of dm !! p = Some (dg_terms par)) by (unfold terms_of; by rewrite lookup_fmap, P).
    case_match; [done|]. destruct (CreateSubDelegation n1 n2 par d vu) as [sub|] eqn:S; [|done].
    destruct W as [F Wt]. destruct (proj1 F _ _ HT) as (I1 & I2 & I3 & I4 & I5 & _).
    pose proof S as S'. apply CreateSubDelegation_ok in S' as (_ & A1 & A2 & A3 & _); try done.
    destruct (Hf _ HT) as [Hn Hz].
    assert (Hid : dg_ID sub = terms_id (dg_Delegate par) d (dg_RightType par) (dg_StreamID par) n2).
    { revert S. unfold CreateSubDelegation. case_match; [done|]. by intros [= <-]. }
    destruct (doc_Sign k sub) as [d' [u|e]] eqn:Sg; [|done]. apply doc_Sign_terms in Sg. simpl in Sg.
    apply store_wf; [done|by rewrite Sg, Hid|]. rewrite Sg.
    pose proof A2 as (B1 & B2 & B3 & B4 & B5 & B6 & B7 & B8). unfold in_i64 in *.
    apply (forest_insert _ _ _ (Some p)); try done; try lia.
    + unfold terms_of. by rewrite lookup_fmap, Hid, Hn.
    + by rewrite Hid.
    + unfold in_i64. lia.
    + split; [congruence|]. split; [done|]. exists (dg_terms par). by split.
  - apply outcome_bind_Done in H as (r & H & [= <-]). eapply same_forest_wf; [|done].
    by eapply RevokeDelegation_same.
  - apply outcome_bind_Done in H as (r & H & [= <-]). unfold CheckAndUse in H.
    destruct W as [F Wt]. repeat case_match; simplify_eq/=; (split; [done|]); try done;
      intros i Hi; simpl; destruct (decide (i = id)) as [->|]; rewrite ?lookup_insert_eq;
      try (by eexists); rewrite ?lookup_insert_ne by done; by apply Wt.
Qed.

Lemma orderly_wf dm : dm_orderly dm -> dm_wf dm.
Proof.
  intros [owner H]. refine (rtc_ind_r _ _ _ _ _ H).
  - split; [|intros id [x Hx]; simpl in Hx; by rewrite lookup_empty in Hx].
    split; unfold terms_of; simpl.
    + rewrite fmap_empty. apply map_Forall_empty.
    + intros p c. rewrite lookup_empty. by intros ?%not_elem_of_nil.
  - intros x y _ (fuel & op & Hf & E) W. by eapply exec_wf.
Qed.

(** In every reachable manager, orderly or not: delegations are filed under their
    identifiers, and a sub-delegation is in its parent's list. *)
Definition listed (dm : DelegationManager) : Prop :=
  map_Forall (fun id t => dg_ID t = id /\
    (dg_ParentDelegation t <> zero32 -> id ∈ children dm (dg_ParentDelegation t))) (terms_of dm).

Lemma listed_same dm dm' : same_forest dm dm' -> listed dm -> listed dm'.
Proof. intros (E1 & E2 & _) H. unfold listed, children. by rewrite E1, E2. Qed.

Lemma listed_store dm (d : Delegation) tr parent :
  listed dm -> (dg_ParentDelegation d <> zero32 -> parent = Some (dg_ParentDelegation d)) ->
  listed (store_delegation d tr parent dm).
Proof.
  intros H Hp.
  assert (Hch : forall q c, c ∈ children dm q -> c ∈ children (store_delegation d tr parent dm) q).
  { intros q c Hc. unfold children in *. simpl. destruct parent; [|done]. rewrite push_children. apply elem_of_app. by left. }
  unfold listed, terms_of. simpl. rewrite fmap_insert. apply map_Forall_insert_2.
  - split; [done|]. intros Hz. rewrite (Hp Hz). unfold children. simpl.
    rewrite push_children, decide_True by done. apply elem_of_app. right. by left.
  - intros id t Ht. destruct (H _ _ Ht) as [H1 H2]. auto.
Qed.

Lemma exec_listed fuel dm op dm' : listed dm -> dm_exec fuel dm op = Done dm' -> listed dm'.
Proof.
  intros W H. destruct op as [k d r s sc de vu p now|k p d vu n1 n2 n3 n4|id rv now|id o n1 n2]; simpl in H.
  - injection H as <-. unfold Manager_CreateDelegation.
    destruct (doc_Sign k _) as [d' [u|e]] eqn:S; [|done]. apply doc_Sign_terms in S.
    apply listed_store; [done|]. rewrite S. by intros [].
  - injection H as <-. unfold Manager_CreateSubDelegation. destruct (Delegations dm !! p) as [par|] eqn:P; [|done].
    case_match; [done|]. destruct (CreateSubDelegation n1 n2 par d vu) as [sub|] eqn:S; [|done].
    destruct (doc_Sign k sub) as [d' [u|e]] eqn:Sg; [|done]. apply doc_Sign_terms in Sg. simpl in Sg.
    assert (Hid : dg_ID par = p) by (apply (W p (dg_terms par)); unfold terms_of; by rewrite lookup_fmap, P).
    assert (Hp : dg_ParentDelegation sub = p).
    { revert S. unfold CreateSubDelegation. case_match; [done|]. intros [= <-]. exact Hid. }
    apply listed_store; [done|]. rewrite Sg, Hp. done.
  - apply outcome_bind_Done in H as (r & H & [= <-]). eapply listed_same; [|done]. by eapply RevokeDelegation_same.
  - apply outcome_bind_Done in H as (r & H & [= <-]). unfold CheckAndUse in H. by repeat case_match; simplify_eq/=.
Qed.

Lemma reach_listed dm : dm_reach dm -> listed dm.
Proof.
  intros [owner H]. refine (rtc_ind_r _ _ _ _ _ H).
  - unfold listed, terms_of. simpl. rewrite fmap_empty. apply map_Forall_empty.
  - intros x y _ (fuel & op & E) W. by eapply exec_listed.
Qed.
End dm_theory.

(** ** Chains *)








Section chains.
Context {C : Crypto}.




End chains.


(** ** Revocation *)

Definition revoked (dm : DelegationManager) (id : bytes) : Prop :=
  exists d, Delegations dm !! id = Some d /\ dg_Revoked d = true.

Definition child_of (dm : DelegationManager) (p c : bytes) : Prop :=
  exists t, terms_of dm !! c = Some t /\ dg_ParentDelegation t = p /\ p <> zero32.

(** [descends dm p c]: [c] is below [p] in the forest. *)
Definition descends (dm : DelegationManager) : bytes -> bytes -> Prop := tc (child_of dm).

Definition revoke_mono (dm dm' : DelegationManager) : Prop :=
  same_forest dm dm' /\ forall id, revoked dm id -> revoked dm' id.

#[global] Instance revoke_mono_preorder : PreOrder revoke_mono.
Proof.
  split; [by intros dm|]. intros d1 d2 d3 [E1 F1] [E2 F2]. split; [by etransitivity|eauto].
Qed.

Lemma descends_same dm dm' : same_forest dm dm' -> descends dm' = descends dm.
Proof. intros (E & _). unfold descends, child_of. by rewrite E. Qed.

Section revocation.
Context {C : Crypto} {L : CryptoLaws C}.

Lemma revoke_one dm id d now revoker :
  Delegations dm !! id = Some d ->
  let dm' := set_delegation id (Delegation_Revoke now revoker d) dm in
  revoke_mono dm dm' /\ revoked dm' id.
Proof.
  intros H dm'. split; [split; [by apply revoke_one_same|]|].
  - intros x (e & He & Hr). unfold revoked, dm'. simpl. destruct (decide (x = id)) as [->|Hn].
    + rewrite lookup_insert_eq. by eexists.
    + rewrite lookup_insert_ne by done. by eexists.
  - unfold revoked, dm'. simpl. rewrite lookup_insert_eq. by eexists.
Qed.

(** The children loop, for a recursive call that revokes all below a child. *)
Lemma revoke_loop_spec (rec : bytes -> DelegationManager -> outcome DelegationManager) now revoker dm0 ids dm :
  (forall c dm, c ∈ ids -> same_forest dm0 dm ->
     exists dm', rec c dm = Done dm' /\ revoke_mono dm dm' /\ forall x, descends dm0 c x -> revoked dm' x) ->
  Forall (fun c => is_Some (terms_of dm0 !! c)) ids -> same_forest dm0 dm ->
  exists dm', revoke_loop rec now revoker ids dm = Done dm' /\ revoke_mono dm dm' /\
    Forall (fun c => revoked dm' c /\ forall x, descends dm0 c x -> revoked dm' x) ids.
Proof.
  revert dm. induction ids as [|c ids IH]; intros dm Hr Hs S; simpl; [by exists dm|].
  apply Forall_cons in Hs as [Hc Hs]. 
  assert (is_Some (Delegations dm !! c)) as [d Hd].
  { destruct S as (E & _). by rewrite <- terms_of_is_Some, E. }
  rewrite Hd. destruct (revoke_one dm c d now revoker Hd) as [M1 R1].
  set (dm1 := set_delegation c _ dm) in *.
  destruct (Hr c dm1) as (dm2 & E2 & M2 & D2); [by left|etransitivity; [done|apply M1]|].
  rewrite E2. simpl.
  destruct (IH dm2) as (dm' & E3 & M3 & F3); [|done| |].
  { intros c' dm3 Hc' S3. apply Hr; [by right|done]. }
  { etransitivity; [exact S|]. etransitivity; [apply M1|apply M2]. }
  exists dm'. split; [done|]. split; [by etransitivity; [|etransitivity]|].
  constructor; [|done]. split; [by apply M3, M2|]. intros x Hx. by apply M3, D2.
Qed.

(** Depth bounds the recursion. *)
Lemma revokeSub_spec fuel now revoker id t dm :
  dm_wf dm -> terms_of dm !! id = Some t -> Z.max 0 (dg_Depth t) + 1 <= Z.of_nat fuel ->
  exists dm', revokeSubDelegations fuel now revoker id dm = Done dm' /\ revoke_mono dm dm' /\
    forall x, descends dm id x -> revoked dm' x.
Proof.
  revert id t dm. induction fuel as [|f IH]; intros id t dm W Ht Hf; [lia|].
  assert (Hch : forall c, c ∈ children dm id ->
            exists tc, terms_of dm !! c = Some tc /\ dg_Depth tc = dg_Depth t - 1 /\ 0 <= dg_Depth tc).
  { intros c Hc. destruct W as [[F1 F2] _]. destruct (F2 _ _ Hc) as (tc & Htc & Hp).
    exists tc. split; [done|]. destruct (F1 _ _ Htc) as (_ & _ & _ & _ & _ & [[Hz _]|(_ & _ & p & Hpp & A)]).
    - exfalso. destruct (F1 _ _ Ht) as (_ & Hnz & _). congruence.
    - rewrite Hp, Ht in Hpp. injection Hpp as <-. destruct A as (_ & _ & _ & _ & A1 & A2 & _). lia. }
  destruct (revoke_loop_spec (revokeSubDelegations f now revoker) now revoker dm (children dm id) dm)
    as (dm' & E & M & F).
  - intros c dm1 Hc S. destruct (Hch c Hc) as (tc & Htc & H1 & H2).
    destruct (IH c tc dm1) as (dm2 & E2 & M2 & D2);
      [by eapply same_forest_wf|destruct S as (-> & _); done|lia|].
    exists dm2. split; [done|]. split; [done|]. by rewrite <- (descends_same _ _ S).
  - apply Forall_forall. intros c Hc. destruct (Hch c Hc) as (tc & -> & _). by eexists.
  - done.
  - exists dm'. split; [done|]. split; [done|]. intros x Hx. rewrite Forall_forall in F.
    assert (Hin : forall c, child_of dm id c -> c ∈ children dm id).
    { intros c (tc & Htc & Hp & Hz). destruct W as [[F1 _] _].
      destruct (F1 _ _ Htc) as (_ & _ & _ & _ & _ & [[Hz' _]|(_ & Hc & _)]); [congruence|].
      by rewrite Hp in Hc. }
    inversion Hx as [? y Hy|? y z Hy Hz]; subst; [by apply F, Hin|].
    by apply (F y (Hin y Hy)).
Qed.

(** [canRevoke] looks for the revoker among the delegators of the chain. *)
Lemma canRevoke_spec dm n fuel id (d : Delegation) acc revoker :
  dm_wf dm -> Delegations dm !! id = Some d -> dg_CurrentDepth d = Z.of_nat n -> (n + 2 <= fuel)%nat ->
  exists chain, chain_loop fuel dm id acc = Done (chain ++ d :: acc) /\
    canRevoke fuel dm d revoker =
      Done (existsb (fun a : Delegation => bytes_eqb (dg_Delegator a) revoker) (chain ++ [d])).
Proof.
  intros [[F _] _]. revert fuel id d acc. induction n as [|n IH]; intros fuel id d acc Hd Hn Hf;
    (assert (HT : terms_of dm !! id = Some (dg_terms d)) by (unfold terms_of; by rewrite lookup_fmap, Hd));
    destruct (F _ _ HT) as (_ & Hz & _ & _ & _ & [[Hp Hp0]|(Hpz & _ & p & Hp & A)]); try lia.
  - destruct fuel as [|[|f]]; [lia..|]. exists []. cbn [chain_loop canRevoke existsb app].
    rewrite (proj2 (bytes_eqb_false _ _) Hz), Hd, Hp, bytes_eqb_refl. split; [done|].
    by destruct (bytes_eqb (dg_Delegator d) revoker).
  - exfalso. destruct A as (_ & _ & _ & _ & _ & _ & A & _). destruct (F _ _ Hp) as (_ & _ & Hc & _). lia.
  - destruct fuel as [|f]; [lia|]. unfold terms_of in Hp. rewrite lookup_fmap in Hp.
    apply fmap_Some in Hp as (par & Hp & ->). destruct A as (_ & _ & _ & _ & _ & _ & A & _).
    destruct (IH f (dg_ParentDelegation d) par (d :: acc) Hp) as (chain & E & Ec); [lia..|].
    exists (chain ++ [par]). cbn [chain_loop canRevoke].
    rewrite (proj2 (bytes_eqb_false _ _) Hz), Hd, E, (proj2 (bytes_eqb_false _ _) Hpz), Hp, Ec.
    split; [by rewrite <- app_assoc|]. rewrite (existsb_app _ (chain ++ [par])). simpl.
    rewrite orb_false_r. destruct (bytes_eqb (dg_Delegator d) revoker); by rewrite ?orb_true_r, ?orb_false_r.
Qed.

(** Whatever the links, a cascade that returns has revoked what the lists reach. *)
Lemma revoke_loop_reaches (rec : bytes -> DelegationManager -> outcome DelegationManager) now revoker dm0 ids dm dm' :
  (forall c dm dm', same_forest dm0 dm -> rec c dm = Done dm' ->
     revoke_mono dm dm' /\ forall x, descends dm0 c x -> revoked dm' x) ->
  same_forest dm0 dm -> revoke_loop rec now revoker ids dm = Done dm' ->
  revoke_mono dm dm' /\
  forall c, c ∈ ids -> is_Some (terms_of dm0 !! c) -> revoked dm' c /\ forall x, descends dm0 c x -> revoked dm' x.
Proof.
  intros Hr. revert dm. induction ids as [|c ids IH]; intros dm S E; simpl in E.
  { injection E as <-. split; [done|]. by intros c ?%not_elem_of_nil. }
  destruct (Delegations dm !! c) as [d|] eqn:Hd.
  - apply outcome_bind_Done in E as (dm2 & E2 & E). destruct (revoke_one dm c d now revoker Hd) as [M1 R1].
    destruct (Hr c _ _ (transitivity S (proj1 M1)) E2) as [M2 D2].
    destruct (IH dm2 (transitivity S (transitivity (proj1 M1) (proj1 M2))) E) as [M3 D3].
    split; [by etransitivity; [|etransitivity]|]. intros c' [->|Hc']%elem_of_cons Hs; [|by apply D3].
    split; [by apply M3, M2|]. intros x Hx. by apply M3, D2.
  - destruct (IH dm S E) as [M D]. split; [done|]. intros c' [->|Hc']%elem_of_cons Hs; [|by apply D].
    exfalso. destruct S as (ES & _). rewrite <- ES, terms_of_is_Some, Hd in Hs. by destruct Hs.
Qed.

Lemma revokeSub_reaches fuel now revoker id dm dm' :
  listed dm -> revokeSubDelegations fuel now revoker id dm = Done dm' ->
  revoke_mono dm dm' /\ forall x, descends dm id x -> revoked dm' x.
Proof.
  revert id dm dm'. induction fuel as [|f IH]; intros id dm dm' W E; [done|]. cbn [revokeSubDelegations] in E.
  eapply (revoke_loop_reaches _ _ _ dm) in E as [M D]; [split; [exact M|]| |done].
  - intros x Hx. assert (Hin : forall c, child_of dm id c -> c ∈ children dm id /\ is_Some (terms_of dm !! c)).
    { intros c (t & Ht & Hp & Hz). split; [|by rewrite Ht; eexists]. rewrite <- Hp in Hz |- *. by apply (W c t). }
    inversion Hx as [? y Hy|? y z Hy Hz]; subst; destruct (Hin _ Hy) as [Hc Hs]; [by apply D|by apply (D y Hc Hs)].
  - intros c dm1 dm2 S E1. rewrite <- (descends_same _ _ S). eapply IH; [|exact E1]. by eapply listed_same.
Qed.

(** The last link of a descent. *)
Lemma tc_r_inv {A} (R : relation A) x z : tc R x z -> R x z \/ exists y, tc R x y /\ R y z.
Proof.
  induction 1 as [x y Hxy|x y z Hxy Hyz [H|(w & H1 & H2)]]; [by left|right..].
  - exists y. split; [by apply tc_once|done].
  - exists w. split; [by eapply tc_l|done].
Qed.

(** An ancestor of [id], or [id] itself. *)
Definition at_or_above (dm : DelegationManager) (x id : bytes) : Prop := x = id \/ descends dm x id.

Lemma above_parent dm x id (d : Delegation) : Delegations dm !! id = Some d -> dg_ParentDelegation d <> zero32 ->
  at_or_above dm x id <-> x = id \/ at_or_above dm x (dg_ParentDelegation d).
Proof.
  intros Hd Hz. assert (HT : terms_of dm !! id = Some (dg_terms d)) by (unfold terms_of; by rewrite lookup_fmap, Hd).
  assert (Hc : child_of dm (dg_ParentDelegation d) id) by (by exists (dg_terms d)).
  unfold at_or_above. split.
  - intros [->|H]; [by left|]. right. apply tc_r_inv in H as [H|(y & H & Hy)].
    + destruct H as (t & Ht & Hp & _). rewrite HT in Ht. injection Ht as <-. by left.
    + destruct Hy as (t & Ht & Hp & _). rewrite HT in Ht. injection Ht as <-. right. by rewrite Hp.
  - intros [->|[->|H]]; [by left|right; by apply tc_once|]. right. by eapply tc_r.
Qed.

Lemma above_root dm x id (d : Delegation) : Delegations dm !! id = Some d -> dg_ParentDelegation d = zero32 \/ Delegations dm !! dg_ParentDelegation d = None ->
  at_or_above dm x id -> is_Some (Delegations dm !! x) -> x = id.
Proof.
  intros Hd Hp [->|H] Hs; [done|]. assert (HT : terms_of dm !! id = Some (dg_terms d)) by (unfold terms_of; by rewrite lookup_fmap, Hd).
  apply tc_r_inv in H as [(t & Ht & E & Hz)|(y & H & (t & Ht & E & Hz))]; rewrite HT in Ht; injection Ht as <-.
  - destruct Hp as [Hp|Hp]; [congruence|]. rewrite E in Hp. rewrite Hp in Hs. by destruct Hs.
  - destruct Hp as [Hp|Hp]; [congruence|]. rewrite E in Hp.
    assert (Hy : is_Some (terms_of dm !! y)).
    { apply tc_r_inv in H as [(t & Ht & _)|(z & _ & (t & Ht & _))]; rewrite Ht; by eexists. }
    rewrite terms_of_is_Some, Hp in Hy. by destruct Hy.
Qed.

(** [canRevoke], when it returns, has looked at every ancestor it needs. *)
Lemma canRevoke_sound fuel dm id (d : Delegation) revoker b :
  Delegations dm !! id = Some d -> canRevoke fuel dm d revoker = Done b ->
  b = true <-> exists x (a : Delegation), at_or_above dm x id /\ Delegations dm !! x = Some a /\ dg_Delegator a = revoker.
Proof.
  revert id d. induction fuel as [|f IH]; intros id d Hd E; [done|]. cbn [canRevoke] in E.
  destruct (bytes_eqb (dg_Delegator d) revoker) eqn:Er; bool_to_prop.
  { injection E as <-. split; [|done]. intros _. exists id, d. split; [by left|done]. }
  assert (Root : b = false -> dg_ParentDelegation d = zero32 \/ Delegations dm !! dg_ParentDelegation d = None ->
    b = true <-> exists x (a : Delegation), at_or_above dm x id /\ Delegations dm !! x = Some a /\ dg_Delegator a = revoker).
  { intros -> Hp. split; [done|]. intros (x & a & Hx & Ha & Hr).
    assert (x = id) as -> by (eapply above_root; [exact Hd|exact Hp|exact Hx|by rewrite Ha; eexists]). congruence. }
  destruct (bytes_eqb (dg_ParentDelegation d) zero32) eqn:Ez; cbn [negb] in E; bool_to_prop; [injection E as <-; by apply Root; [|left]|].
  destruct (Delegations dm !! dg_ParentDelegation d) as [par|] eqn:Ep; [|injection E as <-; by apply Root; [|right]].
  rewrite (IH _ _ Ep E). setoid_rewrite (above_parent dm _ id d Hd Ez). split.
  - intros (x & a & Hx & H). exists x, a. auto.
  - intros (x & a & [->|Hx] & Ha & H); [congruence|]. by exists x, a.
Qed.

(** Revoking never brings a delegation back. *)
Lemma revoke_loop_mono (rec : bytes -> DelegationManager -> outcome DelegationManager) now revoker ids dm dm' :
  (forall id dm dm', rec id dm = Done dm' -> revoke_mono dm dm') ->
  revoke_loop rec now revoker ids dm = Done dm' -> revoke_mono dm dm'.
Proof.
  intros Hr. revert dm. induction ids as [|c ids IH]; intros dm H; simpl in H; [by injection H as <-|].
  destruct (Delegations dm !! c) as [d|] eqn:E; [|by apply IH].
  apply outcome_bind_Done in H as (dm1 & E1 & H).
  etransitivity; [by eapply revoke_one|]. etransitivity; [by eapply Hr|by apply IH].
Qed.

Lemma RevokeDelegation_mono fuel dm id revoker now r : RevokeDelegation fuel dm id revoker now = Done r -> revoke_mono dm r.1.
Proof.
  assert (Sub : forall f p m m', revokeSubDelegations f now revoker p m = Done m' -> revoke_mono m m').
  { induction f as [|f IH]; intros p m m' H; [done|]. eapply revoke_loop_mono; [|exact H]. exact IH. }
  unfold RevokeDelegation. destruct (Delegations dm !! id) as [d|] eqn:E; [|by intros [= <-]].
  intros H. apply outcome_bind_Done in H as ([] & _ & H); simpl in H; [|by injection H as <-].
  apply outcome_bind_Done in H as (dm1 & E1 & [= <-]). simpl.
  etransitivity; [by eapply revoke_one|by eapply Sub].
Qed.

(** Without reusing identifiers a revoked delegation stays revoked. *)
Lemma fresh_keeps_revoked dm dm' id : rtc fresh_step dm dm' -> revoked dm id -> revoked dm' id.
Proof.
  induction 1 as [|dm dm1 dm' (fuel & op & Hf & E) _ IH]; [done|]. intros Hr. apply IH. clear IH. destruct Hr as (e & He & Hr).
  assert (New : forall d : Delegation, forall tr parent, Delegations dm !! dg_ID d = None -> revoked (store_delegation d tr parent dm) id).
  { intros d tr parent Hn. exists e. split; [|done]. simpl. rewrite lookup_insert_ne; [done|]. congruence. }
  destruct op as [k d r s sc de vu p now|k p d vu n1 n2 n3 n4|i rv now|i o n1 n2]; simpl in E, Hf.
  - injection E as <-. unfold Manager_CreateDelegation. destruct (doc_Sign k _) as [d' [u|x]] eqn:S; [|by exists e].
    apply doc_Sign_terms in S. apply New. rewrite S. apply Hf.
  - injection E as <-. unfold Manager_CreateSubDelegation. destruct (Delegations dm !! p) as [par|] eqn:P; [|by exists e].
    case_match; [by exists e|]. destruct (CreateSubDelegation n1 n2 par d vu) as [sub|] eqn:S; [|by exists e].
    destruct (doc_Sign k sub) as [d' [u|x]] eqn:Sg; [|by exists e]. apply doc_Sign_terms in Sg. simpl in Sg. apply New. rewrite Sg.
    destruct (Hf (dg_terms par)) as [Hn _]; [unfold terms_of; by rewrite lookup_fmap, P|].
    revert S. unfold CreateSubDelegation. case_match; [done|]. intros [= <-]. exact Hn.
  - apply outcome_bind_Done in E as (r & E & [= <-]). apply RevokeDelegation_mono in E as [_ M]. apply M. by exists e.
  - apply outcome_bind_Done in E as (r & E & [= <-]). unfold CheckAndUse in E. exists e. by repeat case_match; simplify_eq/=.
Qed.
End revocation.

(** C12: revocation cascades.  In every reachable manager, whatever operations led to it:
    when [RevokeDelegation] returns, it succeeded exactly for a revoker that is the
    delegator of the delegation or of one of its ancestors; then the delegation and
    everything delegated below it, directly or not, is revoked, so that it is not valid
    at any time, and stays so under all further operations that reuse no identifier; for
    any other caller nothing has changed.  And it does return when the history is orderly
    (no identifier was reused); otherwise it may run forever ([self_delegation_loops]). *)
Theorem revoke_cascades {C : Crypto} {L : CryptoLaws C} dm id (d : Delegation) revoker now fuel :
  dm_reach dm -> Delegations dm !! id = Some d ->
  (forall dm' r, RevokeDelegation fuel dm id revoker now = Done (dm', r) ->
     (r = Ok tt <-> exists x (a : Delegation), at_or_above dm x id /\ Delegations dm !! x = Some a /\ dg_Delegator a = revoker) /\
     (r = Ok tt /\ same_forest dm dm' /\
      (forall x, x = id \/ descends dm id x -> forall later, rtc fresh_step dm' later ->
         exists e, Delegations later !! x = Some e /\ forall t, Delegation_IsValid t e = false) \/
      r = Err "not authorized to revoke this delegation" /\ dm' = dm)) /\
  (dm_orderly dm -> dg_CurrentDepth d + 2 <= Z.of_nat fuel -> Z.max 0 (dg_Depth d) + 1 <= Z.of_nat fuel ->
   exists dm' r, RevokeDelegation fuel dm id revoker now = Done (dm', r)).
Proof.
  intros R Hd. split.
  - intros dm' r E. unfold RevokeDelegation in E. rewrite Hd in E. apply outcome_bind_Done in E as (b & Eb & E).
    pose proof (canRevoke_sound _ _ _ _ _ _ Hd Eb) as Hb. destruct b; cbn [negb] in E.
    + apply outcome_bind_Done in E as (dm2 & E & [= <- <-]). split; [rewrite <- Hb; done|]. left. split; [done|].
      destruct (revoke_one dm id d now revoker Hd) as [M1 R1].
      apply revokeSub_reaches in E as [M2 D2]; [|eapply listed_same; [apply M1|by apply reach_listed]].
      split; [etransitivity; [apply M1|apply M2]|]. intros x Hx later Hl.
      assert (revoked later x) as (e & He & Hr).
      { apply (fresh_keeps_revoked dm2); [done|]. destruct Hx as [->|Hx]; [by apply M2|].
        apply D2. rewrite (descends_same dm); [done|apply M1]. }
      exists e. split; [done|]. intros t. unfold Delegation_IsValid. by rewrite Hr.
    + injection E as <- <-. split; [rewrite <- Hb; done|]. by right.
  - intros Ho Hf1 Hf2. apply orderly_wf in Ho as W.
    assert (HT : terms_of dm !! id = Some (dg_terms d)) by (unfold terms_of; by rewrite lookup_fmap, Hd).
    assert (Hc : 0 <= dg_CurrentDepth d) by (destruct W as [[F _] _]; by destruct (F _ _ HT) as (_ & _ & ? & _)).
    destruct (canRevoke_spec dm (Z.to_nat (dg_CurrentDepth d)) fuel id d [] revoker W Hd) as (chain & _ & Ec); [lia..|].
    unfold RevokeDelegation. rewrite Hd, Ec. cbn [outcome_bind]. destruct (negb _); [by eexists _, _|].
    destruct (revoke_one dm id d now revoker Hd) as [M1 _]. set (dm1 := set_delegation id _ dm) in *.
    destruct (revokeSub_spec fuel now revoker id (dg_terms d) dm1) as (dm' & E2 & _);
      [eapply same_forest_wf; [apply M1|done]|destruct M1 as [(-> & _) _]; done|done|].
    rewrite E2. by eexists _, _.
Qed.

(** A delegation from [0x05..] to [0x06..] and a sub-delegation to [0x07..]. *)
Definition demo_scope : DelegationScope := mkScope (Some [ConsentRead]) false [] 0.
Definition demo_policy : DelegationPolicy := mkPolicy false false 2 0 true false true false.
Definition addr (b : byte) : bytes := replicate 20 b.

Definition demo_create : dm_op (C := Toy.crypto) :=
  DCreate (C := Toy.crypto) Byte.x05 (addr Byte.x06) RightAccess zero32 demo_scope 2 0 demo_policy 100.
Definition demo_dm1 : DelegationManager :=
  (Manager_CreateDelegation (C := Toy.crypto) (NewDelegationManager (addr Byte.x05)) Byte.x05 (addr Byte.x06)
     RightAccess zero32 demo_scope 2 0 demo_policy 100).1.
Definition demo_id1 : bytes := terms_id (C := Toy.crypto) (addr Byte.x05) (addr Byte.x06) RightAccess zero32 100.

Definition demo_sub : dm_op (C := Toy.crypto) :=
  DSub (C := Toy.crypto) Byte.x06 demo_id1 (addr Byte.x07) 0 101 101 101 101.
Definition demo_dm2 : DelegationManager :=
  (Manager_CreateSubDelegation (C := Toy.crypto) demo_dm1 Byte.x06 demo_id1 (addr Byte.x07) 0 101 101 101 101).1.
Definition demo_id2 : bytes := terms_id (C := Toy.crypto) (addr Byte.x06) (addr Byte.x07) RightAccess zero32 101.

Lemma demo_orderly : dm_orderly (C := Toy.crypto) demo_dm2.
Proof.
  exists (addr Byte.x05). eapply rtc_l; [|eapply rtc_l; [|apply rtc_refl]].
  - exists 0%nat, demo_create. split; [split; [|split]|].
    + vm_compute. reflexivity.
    + apply bytes_eqb_false. vm_compute. reflexivity.
    + split; vm_compute; [discriminate|reflexivity].
    + instantiate (1 := demo_dm1). unfold demo_create, demo_dm1. cbn [dm_exec]. reflexivity.
  - exists 0%nat, demo_sub. split; [|unfold demo_sub, demo_dm2; cbn [dm_exec]; reflexivity]. intros t Ht.
    assert (E : (fun o : option DelegationTerms => match o with
                 | Some t => bool_decide (dg_Delegate t = addr Byte.x06) && bool_decide (dg_RightType t = RightAccess)
                             && bool_decide (dg_StreamID t = zero32)
                 | None => false end) (terms_of demo_dm1 !! demo_id1) = true) by (vm_compute; reflexivity).
    simpl in Ht. rewrite Ht in E. bool_to_prop.
    repeat match goal with H : _ && _ = true |- _ => apply andb_true_iff in H as [? ?] end. bool_to_prop.
    match goal with H1 : dg_Delegate t = _, H2 : dg_RightType t = _, H3 : dg_StreamID t = _ |- _ =>
      rewrite H1, H2, H3 end.
    split; [vm_compute; reflexivity|]. apply bytes_eqb_false. vm_compute. reflexivity.
Qed.

Lemma demo_lookup (f : Delegation -> bool) id :
  (match Delegations demo_dm2 !! id with Some d => f d | None => false end) = true ->
  exists d, Delegations demo_dm2 !! id = Some d /\ f d = true.
Proof. destruct (Delegations demo_dm2 !! id) as [d|]; [by exists d|done]. Qed.


Lemma revoke_cascades_witness :
  exists dm', RevokeDelegation 4 demo_dm2 demo_id1 (addr Byte.x05) 300 = Done (dm', Ok tt) /\
    exists e, Delegations dm' !! demo_id2 = Some e /\
      forall t, Delegation_IsValid (C := Toy.crypto) t e = false.
Proof.
  destruct (demo_lookup (fun d => (dg_CurrentDepth d =? 0) && (dg_Depth d =? 2) &&
                                  bytes_eqb (dg_Delegator d) (addr Byte.x05)) demo_id1) as (d & E & Hd);
    [vm_compute; reflexivity|].
  apply andb_true_iff in Hd as [[H0%Z.eqb_eq H2%Z.eqb_eq]%andb_true_iff H5].
  destruct (revoke_cascades (C := Toy.crypto) demo_dm2 demo_id1 d (addr Byte.x05) 300 4) as [H1 H3];
    [exact (orderly_reach _ demo_orderly)|exact E|].
  destruct H3 as (dm' & r & H3); [exact demo_orderly|lia|lia|].
  destruct (H1 dm' r H3) as [[_ Hok] Hc].
  assert (r = Ok tt) as -> by (apply Hok; exists demo_id1, d; split; [left; reflexivity|]; split; [exact E|by apply bytes_eqb_true]).
  destruct Hc as [(_ & _ & H4)|[H4 _]]; [|discriminate H4].
  exists dm'. split; [exact H3|]. apply (H4 demo_id2); [right|apply rtc_refl].
  destruct (demo_lookup (fun d => bytes_eqb (dg_ParentDelegation d) demo_id1 && negb (bytes_eqb demo_id1 zero32)) demo_id2)
    as (d2 & E2 & [Hp Hz]%andb_true_iff); [vm_compute; reflexivity|].
  apply bytes_eqb_true in Hp. apply negb_true_iff, bytes_eqb_false in Hz.
  apply tc_once. exists (dg_terms d2). split; [|split; assumption].
  unfold terms_of. rewrite lookup_fmap, E2. reflexivity.
Defined.

(** ** Rate limits *)

(** A sequence of uses of one delegation, with the number that succeeded. *)
Fixpoint use_run {C : Crypto} (dm : DelegationManager) (id : bytes) (ops : list (string * Z * Z))
    : outcome (DelegationManager * Z) :=
  match ops with
  | [] => Done (dm, 0)
  | (op, now1, now2) :: t =>
      let! p := CheckAndUse dm id op now1 now2 in
      let! q := use_run p.1 id t in
      Done (q.1, (if is_ok p.2 then 1 else 0) + q.2)
  end.

Lemma CheckAndUse_hour {C : Crypto} dm id (d : Delegation) t op now1 now2 :
  Delegations dm !! id = Some d -> UsageTracking dm !! id = Some t -> now2 < HourlyReset t ->
  0 < RateLimitPerHour (dg_Policy d) < 2 ^ 63 -> 0 <= HourlyUses t <= RateLimitPerHour (dg_Policy d) ->
  exists dm' r t', CheckAndUse dm id op now1 now2 = Done (dm', r) /\ Delegations dm' = Delegations dm /\
    UsageTracking dm' !! id = Some t' /\ HourlyReset t' = HourlyReset t /\
    HourlyUses t' = HourlyUses t + (if is_ok r then 1 else 0) /\
    HourlyUses t' <= RateLimitPerHour (dg_Policy d).
Proof.
  intros Hd Ht Hn Hl Hu. unfold CheckAndUse. rewrite Hd, Ht.
  assert (Hr : HourlyUses (reset_tracker now2 t) = HourlyUses t /\ HourlyReset (reset_tracker now2 t) = HourlyReset t).
  { unfold reset_tracker. rewrite (proj2 (Z.leb_gt _ _) Hn). by case_match. }
  destruct Hr as [Hr1 Hr2].
  destruct (Delegation_IsValid now1 d); simpl; [|eexists _, _, t; split_and!; try done; simpl; lia].
  destruct (existsb _ _); simpl; [|eexists _, _, t; split_and!; try done; simpl; lia].
  rewrite (proj2 (Z.ltb_lt _ _)), Hr1 by lia. simpl.
  destruct (Z.leb_spec (RateLimitPerHour (dg_Policy d)) (HourlyUses t)).
  { eexists _, _, _. split_and!; [done|done|apply lookup_insert_eq|done|simpl; lia|lia]. }
  case_match; eexists _, _, _; (split_and!; [done|done|apply lookup_insert_eq|done|simpl|simpl]); try lia;
    rewrite i64_id by (unfold in_i64; lia); lia.
Qed.

(** the hourly limit holds.  During one window (until the tracker's reset
    time) any sequence of uses of a delegation, allowed or not, returns, and the
    successes never exceed what was left of the hourly limit. *)
Theorem hourly_limit_respected {C : Crypto} ops dm id (d : Delegation) t :
  Delegations dm !! id = Some d -> UsageTracking dm !! id = Some t ->
  0 < RateLimitPerHour (dg_Policy d) < 2 ^ 63 -> 0 <= HourlyUses t <= RateLimitPerHour (dg_Policy d) ->
  Forall (fun o => o.2 < HourlyReset t) ops ->
  exists dm' n, use_run dm id ops = Done (dm', n) /\ 0 <= n <= RateLimitPerHour (dg_Policy d) - HourlyUses t.
Proof.
  intros Hd Ht Hl Hu F. revert dm t Hd Ht Hu F.
  induction ops as [|[[op n1] n2] ops IH]; intros dm t Hd Ht Hu F; simpl; [eexists _, _; split; [done|lia]|].
  apply Forall_cons in F as [Hn F]. simpl in Hn.
  destruct (CheckAndUse_hour dm id d t op n1 n2 Hd Ht Hn Hl Hu) as (dm1 & r & t1 & -> & E1 & E2 & E3 & E4 & E5).
  simpl. destruct (IH dm1 t1) as (dm' & n & -> & Hb).
  - by rewrite E1.
  - done.
  - destruct (is_ok r); lia.
  - by rewrite E3.
  - simpl. eexists _, _. split; [done|]. destruct (is_ok r); lia.
Qed.

Lemma hourly_limit_respected_witness :
  exists dm' n, use_run (C := Toy.crypto) demo_dm2 demo_id1
      [(ConsentRead, 110, 110); (ConsentRead, 111, 111); (ConsentRead, 112, 112)] = Done (dm', n) /\ 0 <= n <= 2 - 0.
Proof.
  destruct (demo_lookup (fun d => RateLimitPerHour (dg_Policy d) =? 2) demo_id1) as (d & E & Hd%Z.eqb_eq);
    [vm_compute; reflexivity|].
  rewrite <- Hd.
  apply (hourly_limit_respected (C := Toy.crypto) _ demo_dm2 demo_id1 d (mkTracker 0 0 3700 86500)).
  - exact E.
  - vm_compute. reflexivity.
  - rewrite Hd. split; reflexivity.
  - rewrite Hd. split; discriminate.
  - repeat constructor.
Defined.

(** ** Two ways out of the forest *)

Section loops.
Context {C : Crypto}.

Lemma chain_loop_cycle dm id (d : Delegation) fuel acc :
  Delegations dm !! id = Some d -> dg_ParentDelegation d = id -> id <> zero32 ->
  chain_loop fuel dm id acc = NoFuel.
Proof.
  intros Hd Hp Hz. revert acc. induction fuel as [|f IH]; intros acc; [done|]. simpl.
  by rewrite (proj2 (bytes_eqb_false _ _) Hz), Hd, Hp.
Qed.

Lemma canRevoke_cycle dm id (d : Delegation) fuel revoker :
  Delegations dm !! id = Some d -> dg_ParentDelegation d = id -> id <> zero32 ->
  dg_Delegator d <> revoker -> canRevoke fuel dm d revoker = NoFuel.
Proof.
  intros Hd Hp Hz Hr. induction fuel as [|f IH]; [done|]. simpl.
  by rewrite (proj2 (bytes_eqb_false _ _) Hr), Hp, (proj2 (bytes_eqb_false _ _) Hz), Hd.
Qed.
End loops.

(** a self-delegation made twice in one second never ends.  The identifier
    hashes the parties, the right, the stream and the second of creation but not the
    parent, so an owner who delegates to itself and then sub-delegates to itself
    within the same second replaces the delegation by one that is its own parent:
    [GetDelegationChain] and the authorization check of [RevokeDelegation] by anyone
    else then run forever. *)
Theorem self_delegation_loops {C : Crypto} {L : CryptoLaws C} k rt sid scope depth vu policy now vu2
    dm1 d1 dm2 d2 :
  let a := KeyAddress k in
  Manager_CreateDelegation (NewDelegationManager a) k a rt sid scope depth vu policy now = (dm1, Ok d1) ->
  Manager_CreateSubDelegation dm1 k (dg_ID d1) a vu2 now now now now = (dm2, Ok d2) ->
  dg_ID d1 <> zero32 ->
  forall fuel, GetDelegationChain fuel dm2 (dg_ID d1) = NoFuel /\
    forall revoker now', revoker <> a -> RevokeDelegation fuel dm2 (dg_ID d1) revoker now' = NoFuel.
Proof.
  intros a H1 H2 Hz. unfold Manager_CreateDelegation in H1.
  destruct (doc_Sign k _) as [d [u|e]] eqn:S1; [|done]. apply doc_Sign_terms in S1. injection H1 as <- <-.
  unfold Manager_CreateSubDelegation in H2. cbn [Delegations store_delegation] in H2.
  rewrite lookup_insert_eq in H2. case_match; [done|].
  destruct (CreateSubDelegation now now d a vu2) as [sub|] eqn:S2; [|done].
  unfold CreateSubDelegation in S2. destruct (negb (CanSubDelegate now d)); [done|]. injection S2 as <-.
  destruct (doc_Sign k _) as [e [u'|e']] eqn:S3; [|done]. apply doc_Sign_terms in S3. injection H2 as <- <-.
  assert (E1 : dg_ID e = dg_ID d) by (rewrite S3, S1; done).
  assert (E2 : dg_ParentDelegation e = dg_ID d) by (rewrite S3; done).
  assert (E3 : dg_Delegator e = a) by (rewrite S3; simpl; by rewrite S1).
  intros fuel. split.
  - eapply chain_loop_cycle; [|exact E2|done]. simpl. rewrite E1. apply lookup_insert_eq.
  - intros revoker now' Hr. unfold RevokeDelegation. cbn [Delegations store_delegation].
    rewrite E1, lookup_insert_eq. erewrite canRevoke_cycle; [done| |exact E2|done|congruence].
    simpl. rewrite E1. apply lookup_insert_eq.
Qed.

Lemma self_delegation_loops_witness :
  let dm1 := Manager_CreateDelegation (C := Toy.crypto) (NewDelegationManager (addr Byte.x05)) Byte.x05
               (addr Byte.x05) RightAccess zero32 demo_scope 2 0 demo_policy 100 in
  exists d1 dm2 d2, dm1.2 = Ok d1 /\
    Manager_CreateSubDelegation (C := Toy.crypto) dm1.1 Byte.x05 (dg_ID d1) (addr Byte.x05) 0 100 100 100 100
      = (dm2, Ok d2) /\
    forall fuel, GetDelegationChain fuel dm2 (dg_ID d1) = NoFuel.
Proof.
  intros dm1. assert (Ok1 : is_ok dm1.2 = true) by (vm_compute; reflexivity).
  destruct dm1 as [m1 [d1|e]] eqn:E1; [|discriminate Ok1]. clear Ok1.
  assert (Eid : (fun r => match r with Ok d => bytes_eqb (dg_ID (dg_terms d))
             (terms_id (C := Toy.crypto) (addr Byte.x05) (addr Byte.x05) RightAccess zero32 100) | Err _ => false end)
             dm1.2 = true) by (vm_compute; reflexivity).
  rewrite E1 in Eid. apply bytes_eqb_true in Eid.
  set (r2 := Manager_CreateSubDelegation (C := Toy.crypto) dm1.1 Byte.x05
    (terms_id (C := Toy.crypto) (addr Byte.x05) (addr Byte.x05) RightAccess zero32 100) (addr Byte.x05) 0 100 100 100 100).
  assert (Hok : is_ok r2.2 = true) by (vm_compute; reflexivity).
  destruct r2 as [m2 [d2|e2]] eqn:E2; [|discriminate Hok].
  subst r2. rewrite E1 in E2. rewrite <- Eid in E2.
  exists d1, m2, d2. split; [reflexivity|]. split; [exact E2|]. intros fuel.
  apply (self_delegation_loops (C := Toy.crypto) Byte.x05 RightAccess zero32 demo_scope 2 0 demo_policy 100 0
           m1 d1 m2 d2 E1 E2).
  rewrite Eid. apply bytes_eqb_false. vm_compute. reflexivity.
Defined.

(** a negative expiry escapes the parent's.  [CreateSubDelegation] lowers the
    expiry to the parent's when it is zero or later, but a negative one passes and
    then means that the sub-delegation never expires: once signed it stays valid at
    all later times, also when its parent no longer is. *)
Theorem negative_expiry_escapes {C : Crypto} {L : CryptoLaws C} (d : Delegation) delegate vu now1 now2 k sub sub' u :
  vu < 0 -> 0 < dg_ValidUntil d ->
  CreateSubDelegation now1 now2 d delegate vu = Ok sub -> doc_Sign k sub = (sub', Ok u) ->
  forall t, now2 <= t -> dg_ValidUntil d < t ->
    Delegation_IsValid t d = false /\ Delegation_IsValid t sub' = true.
Proof.
  intros Hv Hp Hs Hg t Ht Hd. split.
  - unfold Delegation_IsValid. rewrite (proj2 (Z.ltb_lt _ _) Hp), (proj2 (Z.ltb_lt _ _) Hd).
    by repeat case_match.
  - assert (Hf : dg_Revoked sub' = dg_Revoked sub /\ dg_terms sub' = dg_terms sub).
    { split; [|by eapply doc_Sign_terms]. revert Hg. unfold doc_Sign. intros H. repeat case_match; by simplify_eq. }
    destruct Hf as [F1 F2]. apply doc_Sign_ok in Hg as [Hg _].
    unfold CreateSubDelegation in Hs. destruct (negb _); [done|]. injection Hs as <-.
    unfold Delegation_IsValid. rewrite F1, F2. simpl.
    rewrite (proj2 (Z.ltb_ge _ _)) by lia.
    rewrite (proj2 (Z.eqb_neq vu 0)), (proj2 (Z.ltb_ge (dg_ValidUntil d) vu)) by lia. simpl.
    rewrite andb_false_r, (proj2 (Z.ltb_ge 0 vu)) by lia. exact Hg.
Qed.

Definition demo_parent : Delegation :=
  (doc_Sign (C := Toy.crypto) Byte.x05 (fresh (mkTerms zero32 (addr Byte.x05) (addr Byte.x06) RightAccess zero32
     demo_scope 2 0 zero32 100 100 500 demo_policy))).1.

Lemma negative_expiry_escapes_witness :
  exists sub sub', CreateSubDelegation (C := Toy.crypto) 200 200 demo_parent (addr Byte.x07) (-1) = Ok sub /\
    doc_Sign (C := Toy.crypto) Byte.x06 sub = (sub', Ok tt) /\
    Delegation_IsValid (C := Toy.crypto) 501 demo_parent = false /\
    Delegation_IsValid (C := Toy.crypto) 501 sub' = true.
Proof.
  destruct (CreateSubDelegation (C := Toy.crypto) 200 200 demo_parent (addr Byte.x07) (-1)) as [sub|e] eqn:E;
    [|exfalso; revert E; vm_compute; discriminate].
  assert (Hok : match CreateSubDelegation (C := Toy.crypto) 200 200 demo_parent (addr Byte.x07) (-1) with
                | Ok sub => is_ok (doc_Sign (C := Toy.crypto) Byte.x06 sub).2 | Err _ => false end = true)
    by (vm_compute; reflexivity).
  rewrite E in Hok. destruct (doc_Sign (C := Toy.crypto) Byte.x06 sub) as [sub' [[]|e]] eqn:S; [|discriminate Hok].
  exists sub, sub'. split; [reflexivity|]. split; [exact S|].
  apply (negative_expiry_escapes (C := Toy.crypto) demo_parent (addr Byte.x07) (-1) 200 200 Byte.x06 sub sub' tt).
  - reflexivity.
  - vm_compute. reflexivity.
  - exact E.
  - exact S.
  - discriminate.
  - vm_compute. reflexivity.
Defined.
