(* ===== verification/Rotation.v ===== *)
(** * Key rotation ([src/identity/rotation.go])

    The history of an identity's keys is a list of continuity proofs, each signed
    by the old key and the new one, or by the new one alone after a time-locked
    recovery.  [VerifyChain] replays the history from the genesis address. *)

From Stdlib Require Import String.
From S2P Require Import Prelude Json Signing.

Definition RotationScheduled : string := "scheduled".
Definition RotationCompromise : string := "compromise".
Definition RotationUpgrade : string := "upgrade".
Definition RotationRecovery : string := "recovery".
Definition RotationMigration : string := "migration".

Definition RecoveryPhrase : string := "phrase".
Definition RecoverySocial : string := "social".
Definition RecoveryTimeLock : string := "timelock".

Record SocialRecoverySignature := mkSocialSig {
  ss_Guardian : bytes;
  ss_Signature : option bytes;
  ss_Timestamp : Z;
}.

Record TimeLockProof := mkTimeLock {
  tl_InitiatedAt : Z;
  tl_LockDuration : Z;
  tl_InitiationTxHash : bytes;
}.

Record RecoveryProof := mkRecoveryProof {
  rp_Method : string;
  rp_RecoveryPhraseHash : bytes;
  rp_SocialRecoverySignatures : list SocialRecoverySignature;
  rp_TimeLockProof : option TimeLockProof;
}.

Record ContinuityProof := mkContinuity {
  ct_Version : Z;
  ct_OldAddress : bytes;
  ct_NewAddress : bytes;
  ct_ForkID : bytes;
  ct_RotationNumber : Z;
  ct_Reason : string;
  ct_Timestamp : Z;
  ct_EffectiveAt : Z;
  ct_GracePeriodEnd : Z;
  ct_OldKeySignature : bytes;
  ct_NewKeySignature : bytes;
  ct_RecoveryProof : option RecoveryProof;
}.

Definition social_sig_json (s : SocialRecoverySignature) : json := jobj [
  field "guardian" (jhex (ss_Guardian s));
  field "signature" (jbytes (ss_Signature s));
  field "timestamp" (JNum (ss_Timestamp s))].

Definition time_lock_json (t : TimeLockProof) : json := jobj [
  field "initiated_at" (JNum (tl_InitiatedAt t));
  field "lock_duration" (JNum (tl_LockDuration t));
  field "initiation_tx_hash" (jarray (tl_InitiationTxHash t))].

Definition recovery_proof_json (r : RecoveryProof) : json := jobj [
  field "method" (jstring (rp_Method r));
  omit_if (length (rp_RecoveryPhraseHash r) =? 0)%nat "recovery_phrase_hash" (jbytes (Some (rp_RecoveryPhraseHash r)));
  omit_if (length (rp_SocialRecoverySignatures r) =? 0)%nat "social_recovery_signatures"
    (JArr (map social_sig_json (rp_SocialRecoverySignatures r)));
  ("time_lock_proof"%string, time_lock_json <$> rp_TimeLockProof r)].

(** A byte slice: the model's empty signature is the nil slice. *)
Definition jsig (s : bytes) : json := jbytes (if bytes_eqb s [] then None else Some s).

Definition continuity_json (cp : ContinuityProof) : json := jobj [
  field "version" (JNum (ct_Version cp));
  field "old_address" (jhex (ct_OldAddress cp));
  field "new_address" (jhex (ct_NewAddress cp));
  field "fork_id" (jarray (ct_ForkID cp));
  field "rotation_number" (JNum (ct_RotationNumber cp));
  field "reason" (jstring (ct_Reason cp));
  field "timestamp" (JNum (ct_Timestamp cp));
  field "effective_at" (JNum (ct_EffectiveAt cp));
  field "grace_period_end" (JNum (ct_GracePeriodEnd cp));
  field "old_key_signature" (jsig (ct_OldKeySignature cp));
  field "new_key_signature" (jsig (ct_NewKeySignature cp));
  ("recovery_proof"%string, recovery_proof_json <$> ct_RecoveryProof cp)].

Definition with_sigs (o n : bytes) (cp : ContinuityProof) : ContinuityProof :=
  mkContinuity (ct_Version cp) (ct_OldAddress cp) (ct_NewAddress cp) (ct_ForkID cp) (ct_RotationNumber cp)
    (ct_Reason cp) (ct_Timestamp cp) (ct_EffectiveAt cp) (ct_GracePeriodEnd cp) o n (ct_RecoveryProof cp).

Record PendingRecovery := mkPending {
  pe_NewAddress : bytes;
  pe_InitiatedAt : Z;
  pe_CanComplete : Z;
}.

Record KeyRotationManager := mkKRM {
  kr_ForkID : bytes;
  kr_CurrentAddress : bytes;
  RotationHistory : list ContinuityProof;
  SocialRecoveryGuardians : list bytes;
  SocialRecoveryThreshold : Z;
  kr_TimeLockDuration : Z;
  kr_PendingRecovery : option PendingRecovery;
}.

(** The identity is its fork identifier and address. *)
Definition NewKeyRotationManager (forkID address : bytes) : KeyRotationManager :=
  mkKRM forkID address [] [] 0 (7 * 24 * 60 * 60) None.

Definition record_rotation (newAddr : bytes) (p : ContinuityProof) (pending : option PendingRecovery)
    (krm : KeyRotationManager) : KeyRotationManager :=
  mkKRM (kr_ForkID krm) newAddr (RotationHistory krm ++ [p]) (SocialRecoveryGuardians krm)
    (SocialRecoveryThreshold krm) (kr_TimeLockDuration krm) pending.

Section rotation.
Context {C : Crypto}.

Definition SignWithOldKey (k : PrivateKey) (cp : ContinuityProof) : ContinuityProof * result unit :=
  if negb (bytes_eqb (KeyAddress k) (ct_OldAddress cp)) then (cp, Err "key address does not match old address")
  else
    let cp := with_sigs [] [] cp in
    match json_Marshal (continuity_json cp) with
    | Err _ => (cp, Err "failed to marshal for signing")
    | Ok data =>
        match EcSign (Keccak256 data) k with
        | Err _ => (cp, Err "failed to sign")
        | Ok sig => (with_sigs sig [] cp, Ok tt)
        end
    end.

Definition SignWithNewKey (k : PrivateKey) (cp : ContinuityProof) : ContinuityProof * result unit :=
  if negb (bytes_eqb (KeyAddress k) (ct_NewAddress cp)) then (cp, Err "key address does not match new address")
  else
    let oldSig := ct_OldKeySignature cp in
    match json_Marshal (continuity_json (with_sigs [] [] cp)) with
    | Err _ => (with_sigs oldSig [] cp, Err "failed to marshal for signing")
    | Ok data =>
        match EcSign (Keccak256 (data ++ oldSig)) k with
        | Err _ => (with_sigs oldSig [] cp, Err "failed to sign")
        | Ok sig => (with_sigs oldSig sig cp, Ok tt)
        end
    end.

Definition verifyNewKeyOnly (cp : ContinuityProof) : result unit :=
  if bytes_eqb (ct_NewKeySignature cp) [] then Err "missing new key signature"
  else match ct_RecoveryProof cp with
  | None => Err "recovery rotation requires recovery proof"
  | Some _ =>
    match json_Marshal (continuity_json (with_sigs (ct_OldKeySignature cp) [] cp)) with
    | Err _ => Err "failed to marshal"
    | Ok data =>
        match EcRecover (Keccak256 data) (ct_NewKeySignature cp) with
        | None => Err "invalid new key signature"
        | Some a => if negb (bytes_eqb a (ct_NewAddress cp))
                    then Err "new key signature does not match new address" else Ok tt
        end
    end
  end.

(** Signatures are cleared during the check and restored on every path. *)
Definition Continuity_Verify (cp : ContinuityProof) : result unit :=
  if bool_decide (ct_Reason cp = RotationRecovery) then verifyNewKeyOnly cp
  else if bytes_eqb (ct_OldKeySignature cp) [] then Err "missing old key signature"
  else if bytes_eqb (ct_NewKeySignature cp) [] then Err "missing new key signature"
  else
    match json_Marshal (continuity_json (with_sigs [] [] cp)) with
    | Err _ => Err "failed to marshal"
    | Ok data =>
        match EcRecover (Keccak256 data) (ct_OldKeySignature cp) with
        | None => Err "invalid old key signature"
        | Some a =>
            if negb (bytes_eqb a (ct_OldAddress cp)) then Err "old key signature does not match old address"
            else match EcRecover (Keccak256 (data ++ ct_OldKeySignature cp)) (ct_NewKeySignature cp) with
                 | None => Err "invalid new key signature"
                 | Some b => if negb (bytes_eqb b (ct_NewAddress cp))
                             then Err "new key signature does not match new address" else Ok tt
                 end
        end
    end.

Definition IsEffective (cp : ContinuityProof) (now : Z) : bool := ct_EffectiveAt cp <=? now.
Definition IsInGracePeriod (cp : ContinuityProof) (now : Z) : bool := now <? ct_GracePeriodEnd cp.

Definition Rotate (krm : KeyRotationManager) (oldKey newKey : PrivateKey) (reason : string)
    (gracePeriodDays now : Z) : KeyRotationManager * result ContinuityProof :=
  let oldAddr := KeyAddress oldKey in
  let newAddr := KeyAddress newKey in
  if negb (bytes_eqb oldAddr (kr_CurrentAddress krm)) then (krm, Err "old key does not match current address")
  else
    let gracePeriod := i64 (gracePeriodDays * 24 * 60 * 60) in
    let proof := mkContinuity 1 oldAddr newAddr (kr_ForkID krm)
      (Z.of_nat (length (RotationHistory krm)) + 1) reason now now (i64 (now + gracePeriod)) [] [] None in
    match SignWithOldKey oldKey proof with
    | (_, Err _) => (krm, Err "failed to sign with old key")
    | (proof, Ok _) =>
        match SignWithNewKey newKey proof with
        | (_, Err _) => (krm, Err "failed to sign with new key")
        | (proof, Ok _) =>
            match Continuity_Verify proof with
            | Err _ => (krm, Err "proof verification failed")
            | Ok _ => (record_rotation newAddr proof (kr_PendingRecovery krm) krm, Ok proof)
            end
        end
    end.

Definition Rotation_SetupSocialRecovery (krm : KeyRotationManager) (guardians : list bytes) (threshold : Z)
    : KeyRotationManager * result unit :=
  if Z.of_nat (length guardians) <? threshold then (krm, Err "threshold cannot exceed number of guardians")
  else if threshold <? 1 then (krm, Err "threshold must be at least 1")
  else (mkKRM (kr_ForkID krm) (kr_CurrentAddress krm) (RotationHistory krm) guardians threshold
          (kr_TimeLockDuration krm) (kr_PendingRecovery krm), Ok tt).

Definition Rotation_InitiateTimeLock (krm : KeyRotationManager) (newAddr : bytes) (now : Z)
    : KeyRotationManager * result unit :=
  match kr_PendingRecovery krm with
  | Some _ => (krm, Err "recovery already in progress")
  | None =>
      (mkKRM (kr_ForkID krm) (kr_CurrentAddress krm) (RotationHistory krm) (SocialRecoveryGuardians krm)
         (SocialRecoveryThreshold krm) (kr_TimeLockDuration krm)
         (Some (mkPending newAddr now (i64 (now + kr_TimeLockDuration krm)))), Ok tt)
  end.

Definition CompleteTimeLockRecovery (krm : KeyRotationManager) (newKey : PrivateKey) (now : Z)
    : KeyRotationManager * result ContinuityProof :=
  match kr_PendingRecovery krm with
  | None => (krm, Err "no pending recovery")
  | Some pend =>
      let newAddr := KeyAddress newKey in
      if negb (bytes_eqb newAddr (pe_NewAddress pend)) then (krm, Err "new key does not match pending recovery address")
      else if now <? pe_CanComplete pend then (krm, Err "time lock has not expired")
      else
        let proof := mkContinuity 1 (kr_CurrentAddress krm) newAddr (kr_ForkID krm)
          (Z.of_nat (length (RotationHistory krm)) + 1) RotationRecovery now now now [] []
          (Some (mkRecoveryProof RecoveryTimeLock [] []
                   (Some (mkTimeLock (pe_InitiatedAt pend) (kr_TimeLockDuration krm) zero32)))) in
        match SignWithNewKey newKey proof with
        | (_, Err _) => (krm, Err "failed to sign with new key")
        | (proof, Ok _) => (record_rotation newAddr proof None krm, Ok proof)
        end
  end.

Fixpoint chain_check (forkID : bytes) (i : Z) (currentAddr : bytes) (hist : list ContinuityProof)
    : result bytes :=
  match hist with
  | [] => Ok currentAddr
  | p :: t =>
      if negb (ct_RotationNumber p =? i + 1) then Err "rotation has incorrect number"
      else if negb (bytes_eqb (ct_OldAddress p) currentAddr) then Err "old address mismatch"
      else if negb (bytes_eqb (ct_ForkID p) forkID) then Err "fork ID mismatch"
      else let? _ := Continuity_Verify p in chain_check forkID (i + 1) (ct_NewAddress p) t
  end.

Definition VerifyChain (krm : KeyRotationManager) (genesis : bytes) : result unit :=
  let? last := chain_check (kr_ForkID krm) 0 genesis (RotationHistory krm) in
  if negb (bytes_eqb last (kr_CurrentAddress krm)) then Err "chain does not end at current address" else Ok tt.

Definition GetRotationHistory (krm : KeyRotationManager) : list ContinuityProof := RotationHistory krm.

Definition ExportChain (krm : KeyRotationManager) : result bytes :=
  json_Marshal (jobj [
    field "fork_id" (jarray (kr_ForkID krm));
    field "current_address" (jhex (kr_CurrentAddress krm));
    field "rotation_history" (JArr (map continuity_json (RotationHistory krm)))]).

(** ** Sequences of operations *)

Inductive krm_op :=
| KRotate (oldKey newKey : PrivateKey) (reason : string) (days now : Z)
| KSetup (guardians : list bytes) (threshold : Z)
| KInitiate (newAddr : bytes) (now : Z)
| KComplete (newKey : PrivateKey) (now : Z).

Definition krm_exec (krm : KeyRotationManager) (op : krm_op) : KeyRotationManager :=
  match op with
  | KRotate o n r d now => (Rotate krm o n r d now).1
  | KSetup g t => (Rotation_SetupSocialRecovery krm g t).1
  | KInitiate a now => (Rotation_InitiateTimeLock krm a now).1
  | KComplete n now => (CompleteTimeLockRecovery krm n now).1
  end.
End rotation.

Section rotation_theory.
Context {C : Crypto} {L : CryptoLaws C}.

Lemma chain_check_snoc forkID i a hist p b :
  chain_check forkID i a hist = Ok b ->
  ct_RotationNumber p = i + Z.of_nat (length hist) + 1 -> ct_OldAddress p = b -> ct_ForkID p = forkID ->
  Continuity_Verify p = Ok tt -> chain_check forkID i a (hist ++ [p]) = Ok (ct_NewAddress p).
Proof.
  revert i a. induction hist as [|q hist IH]; intros i a; simpl; intros H Hn Ho Hf Hv.
  - injection H as ->. rewrite Hn, Ho, Hf, Hv, !bytes_eqb_refl. simpl.
    by rewrite (proj2 (Z.eqb_eq _ _)) by lia.
  - destruct (negb _); [done|]. destruct (negb _); [done|]. destruct (negb _); [done|].
    destruct (Continuity_Verify q) as [u|]; simpl in *; [|done]. apply IH; try done. lia.
Qed.

(** A successful [SignWithNewKey] of an otherwise unsigned proof passes
    [verifyNewKeyOnly]. *)
Lemma sign_new_verifies k cp cp' u r :
  ct_OldKeySignature cp = [] -> ct_RecoveryProof cp = Some r ->
  SignWithNewKey k cp = (cp', Ok u) ->
  verifyNewKeyOnly cp' = Ok tt /\ (exists s, cp' = with_sigs [] s cp).
Proof.
  intros Ho Hr. unfold SignWithNewKey. destruct (bytes_eqb (KeyAddress k) (ct_NewAddress cp)) eqn:Ek; [|done].
  simpl. rewrite Ho. destruct (json_Marshal _) as [data|] eqn:J; [|done]. rewrite app_nil_r.
  destruct (sign_total (Keccak256 data) k (keccak_length _)) as (sig & S & Hl). rewrite S.
  intros [= <-]. split; [|by eexists]. unfold verifyNewKeyOnly.
  change (ct_NewKeySignature (with_sigs [] sig cp)) with sig.
  change (ct_RecoveryProof (with_sigs [] sig cp)) with (ct_RecoveryProof cp).
  change (with_sigs (ct_OldKeySignature (with_sigs [] sig cp)) [] (with_sigs [] sig cp)) with (with_sigs [] [] cp).
  rewrite Hr, J, (recover_sign _ _ _ S), (proj2 (bytes_eqb_false sig [])) by (intros ->; done).
  change (ct_NewAddress (with_sigs [] sig cp)) with (ct_NewAddress cp). by rewrite Ek.
Qed.

Lemma SignWithOldKey_fields k cp cp' r : SignWithOldKey k cp = (cp', r) -> exists o n, cp' = with_sigs o n cp.
Proof.
  unfold SignWithOldKey. intros H. repeat case_match; simplify_eq; try (by eexists _, _).
  exists (ct_OldKeySignature cp'), (ct_NewKeySignature cp'). by destruct cp'.
Qed.

Lemma SignWithNewKey_fields k cp cp' r : SignWithNewKey k cp = (cp', r) -> exists o n, cp' = with_sigs o n cp.
Proof.
  unfold SignWithNewKey. intros H. repeat case_match; simplify_eq; try (by eexists _, _).
  exists (ct_OldKeySignature cp'), (ct_NewKeySignature cp'). by destruct cp'.
Qed.

(** The replay of the history ends at the current address. *)
Definition krm_ok (genesis : bytes) (krm : KeyRotationManager) : Prop :=
  chain_check (kr_ForkID krm) 0 genesis (RotationHistory krm) = Ok (kr_CurrentAddress krm).

Lemma krm_step genesis krm op : krm_ok genesis krm -> krm_ok genesis (krm_exec krm op).
Proof.
  intros H. destruct op as [o n r d now|g t|a now|n now]; simpl.
  - unfold Rotate. case_match eqn:Ea; [done|]. bool_to_prop.
    destruct (SignWithOldKey o _) as [p1 [u1|]] eqn:S1; [|done].
    destruct (SignWithNewKey n p1) as [p2 [u2|]] eqn:S2; [|done].
    destruct (Continuity_Verify p2) as [[]|] eqn:V; [|done].
    apply SignWithOldKey_fields in S1 as (o1 & n1 & ->). apply SignWithNewKey_fields in S2 as (o2 & n2 & ->).
    unfold krm_ok. simpl. eapply (chain_check_snoc _ _ _ _ _ _ H) in V; simpl; [exact V|lia|done|done].
  - unfold Rotation_SetupSocialRecovery. by repeat case_match.
  - unfold Rotation_InitiateTimeLock. by case_match.
  - unfold CompleteTimeLockRecovery. destruct (kr_PendingRecovery krm) as [pend|]; [|done].
    case_match; [done|]. case_match; [done|].
    destruct (SignWithNewKey n _) as [p1 [u1|]] eqn:S1; [|done].
    eapply sign_new_verifies in S1 as [V (s & ->)]; [|done|done].
    unfold krm_ok. simpl. match type of V with verifyNewKeyOnly ?p = _ =>
      change (Ok (KeyAddress n)) with (Ok (ct_NewAddress p));
      apply (chain_check_snoc _ _ _ _ p _ H); [simpl; lia|done|done|exact V] end.
Qed.
End rotation_theory.

(** C14: the key history always verifies.  Whatever sequence of rotations, recovery
    set-ups, initiations and completions is attempted, with whatever keys, reasons
    and times, [VerifyChain] from the identity's genesis address accepts the history
    and ends at the current address. *)
Theorem rotation_chain_verifies {C : Crypto} {L : CryptoLaws C} forkID genesis ops :
  let krm := fold_left krm_exec ops (NewKeyRotationManager forkID genesis) in
  VerifyChain krm genesis = Ok tt.
Proof.
  intros krm. assert (H : krm_ok genesis krm).
  { subst krm. assert (H0 : krm_ok genesis (NewKeyRotationManager forkID genesis)) by done. revert H0.
    generalize (NewKeyRotationManager forkID genesis).
    induction ops as [|op ops IH]; intros krm H; simpl; [done|]. by apply IH, krm_step. }
  unfold VerifyChain. rewrite H. simpl. by rewrite bytes_eqb_refl.
Qed.

(** A rotation for the reason "recovery" cannot succeed: [Rotate] never attaches
    the recovery proof that the verification of such a rotation requires. *)
Lemma rotate_recovery_fails {C : Crypto} krm o n days now :
  exists e, Rotate krm o n RotationRecovery days now = (krm, Err e).
Proof.
  unfold Rotate. case_match; [by eexists|].
  destruct (SignWithOldKey o _) as [p1 [u1|]] eqn:S1; [|by eexists].
  destruct (SignWithNewKey n p1) as [p2 [u2|]] eqn:S2; [|by eexists].
  apply SignWithOldKey_fields in S1 as (o1 & n1 & ->). apply SignWithNewKey_fields in S2 as (o2 & n2 & ->).
  unfold Continuity_Verify. simpl. unfold verifyNewKeyOnly. simpl. case_match eqn:E; [|by eexists].
  by destruct (bytes_eqb n2 []).
Qed.

Definition demo_rotations : list (krm_op (C := Toy.crypto)) :=
  [KRotate (C := Toy.crypto) Byte.x05 Byte.x06 RotationScheduled 30 100;
   KInitiate (C := Toy.crypto) (replicate 20 Byte.x09) 200;
   KComplete (C := Toy.crypto) Byte.x09 300; KComplete (C := Toy.crypto) Byte.x09 700000].

Lemma rotation_chain_verifies_witness :
  let krm := fold_left (krm_exec (C := Toy.crypto)) demo_rotations
               (NewKeyRotationManager zero32 (replicate 20 Byte.x05)) in
  length (RotationHistory krm) = 2%nat /\
  VerifyChain (C := Toy.crypto) krm (replicate 20 Byte.x05) = Ok tt.
Proof.
  intros krm. split; [vm_compute; reflexivity|].
  exact (rotation_chain_verifies (C := Toy.crypto) zero32 (replicate 20 Byte.x05) demo_rotations).
Defined.
