(* ===== verification/Recovery.v ===== *)
(** * Cross-fork recovery ([src/identity/recovery.go])

    An identity is recovered after a time lock, by a quorum of guardians or with
    a recovery phrase.  A recovery is a small state machine; executing one makes
    its target address the owner.  Checkpoints of the fork's state are meant to be
    signed and stored as well. *)

From Stdlib Require Import String.
From S2P Require Import Prelude Json Signing Rotation.

(** [RecoveryState] is a string type with these values. *)
Inductive RecoveryState :=
| RecoveryInitiated | RecoveryPending | RecoveryApproved
| RecoveryExecuted | RecoveryCancelled | RecoveryFailed.

#[global] Instance RecoveryState_eq_dec : EqDecision RecoveryState.
Proof. solve_decision. Defined.

Definition state_string (s : RecoveryState) : string :=
  match s with
  | RecoveryInitiated => "initiated"
  | RecoveryPending => "pending"
  | RecoveryApproved => "approved"
  | RecoveryExecuted => "executed"
  | RecoveryCancelled => "cancelled"
  | RecoveryFailed => "failed"
  end.

Record RecoveryApproval := mkApproval {
  ra_Approver : bytes;
  ra_ApprovedAt : Z;
  ra_Signature : bytes;
  ra_Comment : string;
}.

Record RecoveryData := mkRecoveryData {
  rd_PhraseHash : bytes;
  rd_Guardians : list bytes;
  rd_GuardianQuorum : Z;
  rd_CheckpointHash : bytes;
  rd_CheckpointEpoch : Z;
  rd_SourceNetworkID : string;
  rd_TargetNetworkID : string;
  rd_MigrationProof : bytes;
}.

Record CrossForkRecovery := mkRecovery {
  cr_ID : bytes;
  cr_SourceForkID : bytes;
  cr_TargetForkID : bytes;
  cr_SourceAddress : bytes;
  cr_TargetAddress : bytes;
  cr_State : RecoveryState;
  cr_Method : string;
  cr_InitiatedAt : Z;
  cr_CompletedAt : Z;
  cr_TimeLockExpiry : Z;
  cr_Approvals : list RecoveryApproval;
  cr_RequiredApprovals : Z;
  cr_RecoveryData : option RecoveryData;
  cr_StreamsToRecover : list bytes;
  cr_TargetSignature : bytes;
}.

Definition omit_bytes (k : string) (b : bytes) : string * option json :=
  omit_if (length b =? 0)%nat k (jbytes (Some b)).

Definition approval_json (a : RecoveryApproval) : json := jobj [
  field "approver" (jhex (ra_Approver a));
  field "approved_at" (JNum (ra_ApprovedAt a));
  field "signature" (jsig (ra_Signature a));
  omit_str "comment" (ra_Comment a)].

Definition recovery_data_json (d : RecoveryData) : json := jobj [
  omit_bytes "phrase_hash" (rd_PhraseHash d);
  omit_if (length (rd_Guardians d) =? 0)%nat "guardians" (JArr (map jhex (rd_Guardians d)));
  omit_int "guardian_quorum" (rd_GuardianQuorum d);
  field "checkpoint_hash" (jarray (rd_CheckpointHash d));
  omit_int "checkpoint_epoch" (rd_CheckpointEpoch d);
  omit_str "source_network_id" (rd_SourceNetworkID d);
  omit_str "target_network_id" (rd_TargetNetworkID d);
  omit_bytes "migration_proof" (rd_MigrationProof d)].

#[global] Instance Recovery_doc : SignedDoc CrossForkRecovery := {|
  doc_json c := jobj [
    field "id" (jarray (cr_ID c));
    field "source_fork_id" (jarray (cr_SourceForkID c));
    field "target_fork_id" (jarray (cr_TargetForkID c));
    field "source_address" (jhex (cr_SourceAddress c));
    field "target_address" (jhex (cr_TargetAddress c));
    field "state" (jstring (state_string (cr_State c)));
    field "method" (jstring (cr_Method c));
    field "initiated_at" (JNum (cr_InitiatedAt c));
    omit_int "completed_at" (cr_CompletedAt c);
    omit_int "time_lock_expiry" (cr_TimeLockExpiry c);
    omit_if (length (cr_Approvals c) =? 0)%nat "approvals" (JArr (map approval_json (cr_Approvals c)));
    omit_int "required_approvals" (cr_RequiredApprovals c);
    field "recovery_data" (match cr_RecoveryData c with Some d => recovery_data_json d | None => JNull end);
    omit_if (length (cr_StreamsToRecover c) =? 0)%nat "streams_to_recover" (JArr (map jarray (cr_StreamsToRecover c)));
    field "target_signature" JNull];
  doc_owner := cr_TargetAddress;
  doc_sig := cr_TargetSignature;
  doc_set_sig s c := mkRecovery (cr_ID c) (cr_SourceForkID c) (cr_TargetForkID c) (cr_SourceAddress c)
    (cr_TargetAddress c) (cr_State c) (cr_Method c) (cr_InitiatedAt c) (cr_CompletedAt c) (cr_TimeLockExpiry c)
    (cr_Approvals c) (cr_RequiredApprovals c) (cr_RecoveryData c) (cr_StreamsToRecover c) s;
  doc_sign_error := "signer is not target address" |}.

#[global] Instance Recovery_laws : SignedDocLaws CrossForkRecovery.
Proof. by split. Qed.

(** The fields that the state machine changes. *)
Definition set_state (s : RecoveryState) (completed : Z) (approvals : list RecoveryApproval)
    (c : CrossForkRecovery) : CrossForkRecovery :=
  mkRecovery (cr_ID c) (cr_SourceForkID c) (cr_TargetForkID c) (cr_SourceAddress c)
    (cr_TargetAddress c) s (cr_Method c) (cr_InitiatedAt c) completed (cr_TimeLockExpiry c)
    approvals (cr_RequiredApprovals c) (cr_RecoveryData c) (cr_StreamsToRecover c) (cr_TargetSignature c).

(** ** Checkpoints

    [StreamHashes] is a map whose keys are byte arrays, which [encoding/json]
    does not support. *)

Record RecoveryCheckpoint := mkCheckpoint {
  ck_ID : bytes;
  ck_ForkID : bytes;
  ck_Address : bytes;
  ck_Epoch : Z;
  ck_Timestamp : Z;
  ck_StateRoot : bytes;
  ck_StreamHashes : gmap bytes bytes;
  ck_RightsHash : bytes;
  ck_DelegationsHash : bytes;
  ck_Signature : bytes;
}.

#[global] Instance Checkpoint_doc : SignedDoc RecoveryCheckpoint := {|
  doc_json c := jobj [
    field "id" (jarray (ck_ID c));
    field "fork_id" (jarray (ck_ForkID c));
    field "address" (jhex (ck_Address c));
    field "epoch" (JNum (ck_Epoch c));
    field "timestamp" (JNum (ck_Timestamp c));
    field "state_root" (jarray (ck_StateRoot c));
    field "stream_hashes" JUnsupported;
    field "rights_hash" (jarray (ck_RightsHash c));
    field "delegations_hash" (jarray (ck_DelegationsHash c));
    field "signature" JNull];
  doc_owner := ck_Address;
  doc_sig := ck_Signature;
  doc_set_sig s c := mkCheckpoint (ck_ID c) (ck_ForkID c) (ck_Address c) (ck_Epoch c) (ck_Timestamp c)
    (ck_StateRoot c) (ck_StreamHashes c) (ck_RightsHash c) (ck_DelegationsHash c) s;
  doc_sign_error := "signer does not match checkpoint address" |}.

#[global] Instance Checkpoint_laws : SignedDocLaws RecoveryCheckpoint.
Proof. by split. Qed.

(** ** The manager *)

Record RecoveryManager := mkRecoveryManager {
  rmg_ForkID : bytes;
  rmg_Owner : bytes;
  Recoveries : gmap bytes CrossForkRecovery;
  Checkpoints : gmap Z RecoveryCheckpoint;
  rmg_Guardians : list bytes;
  rmg_GuardianQuorum : Z;
  rmg_TimeLockDuration : Z;
  rmg_RecoveryPhraseHash : option bytes;
}.

Definition NewRecoveryManager (forkID owner : bytes) : RecoveryManager :=
  mkRecoveryManager forkID owner ∅ ∅ [] 0 (7 * 24 * 60 * 60) None.

Definition with_recoveries (owner : bytes) (m : gmap bytes CrossForkRecovery) (rm : RecoveryManager)
    : RecoveryManager :=
  mkRecoveryManager (rmg_ForkID rm) owner m (Checkpoints rm) (rmg_Guardians rm) (rmg_GuardianQuorum rm)
    (rmg_TimeLockDuration rm) (rmg_RecoveryPhraseHash rm).

Definition Recovery_SetupSocialRecovery (rm : RecoveryManager) (guardians : list bytes) (quorum : Z)
    : RecoveryManager * result unit :=
  if Z.of_nat (length guardians) <? quorum then (rm, Err "quorum cannot exceed number of guardians")
  else if quorum <? 1 then (rm, Err "quorum must be at least 1")
  else (mkRecoveryManager (rmg_ForkID rm) (rmg_Owner rm) (Recoveries rm) (Checkpoints rm) guardians quorum
          (rmg_TimeLockDuration rm) (rmg_RecoveryPhraseHash rm), Ok tt).

Definition SetRecoveryPhrase (rm : RecoveryManager) (phraseHash : option bytes) : RecoveryManager :=
  mkRecoveryManager (rmg_ForkID rm) (rmg_Owner rm) (Recoveries rm) (Checkpoints rm) (rmg_Guardians rm)
    (rmg_GuardianQuorum rm) (rmg_TimeLockDuration rm) phraseHash.

Definition no_data : RecoveryData := mkRecoveryData [] [] 0 zero32 0 "" "" [].
Definition guardian_data (gs : list bytes) (q : Z) : RecoveryData := mkRecoveryData [] gs q zero32 0 "" "" [].
Definition phrase_data (h : bytes) : RecoveryData := mkRecoveryData h [] 0 zero32 0 "" "" [].

Section recovery.
Context {C : Crypto}.

Definition Recovery_GenerateID (c : CrossForkRecovery) : CrossForkRecovery :=
  mkRecovery (Keccak256 (marshal (jobj [
      field "SourceForkID" (jarray (cr_SourceForkID c));
      field "TargetForkID" (jarray (cr_TargetForkID c));
      field "SourceAddress" (jhex (cr_SourceAddress c));
      field "TargetAddress" (jhex (cr_TargetAddress c));
      field "InitiatedAt" (JNum (cr_InitiatedAt c))])))
    (cr_SourceForkID c) (cr_TargetForkID c) (cr_SourceAddress c) (cr_TargetAddress c) (cr_State c) (cr_Method c)
    (cr_InitiatedAt c) (cr_CompletedAt c) (cr_TimeLockExpiry c) (cr_Approvals c) (cr_RequiredApprovals c)
    (cr_RecoveryData c) (cr_StreamsToRecover c) (cr_TargetSignature c).

Definition approval_msg (id approver : bytes) : bytes :=
  marshal (jobj [field "RecoveryID" (jarray id); field "Approver" (jhex approver); field "Approve" (JBool true)]).

Definition AddApproval (c : CrossForkRecovery) (approver signature : bytes) (comment : string) (now : Z)
    : CrossForkRecovery * result unit :=
  match EcRecover (Keccak256 (approval_msg (cr_ID c) approver)) signature with
  | None => (c, Err "invalid signature")
  | Some a =>
      if negb (bytes_eqb a approver) then (c, Err "signature does not match approver")
      else if negb (match cr_RecoveryData c with
                    | Some d => existsb (fun g => bytes_eqb g approver) (rd_Guardians d)
                    | None => false end) then (c, Err "approver is not a guardian")
      else if existsb (fun a => bytes_eqb (ra_Approver a) approver) (cr_Approvals c)
      then (c, Err "already approved by this guardian")
      else
        let approvals := cr_Approvals c ++ [mkApproval approver now signature comment] in
        let state := if cr_RequiredApprovals c <=? Z.of_nat (length approvals) then RecoveryApproved
                     else cr_State c in
        (set_state state (cr_CompletedAt c) approvals c, Ok tt)
  end.

(** [None] when execution is allowed, else the reason. *)
Definition CanExecute (c : CrossForkRecovery) (now : Z) : option string :=
  match cr_State c with
  | RecoveryExecuted => Some "already executed"%string
  | RecoveryCancelled => Some "cancelled"%string
  | RecoveryFailed => Some "failed"%string
  | st =>
      if bool_decide (cr_Method c = RecoveryTimeLock) then
        if now <? cr_TimeLockExpiry c then Some "time lock not expired"%string else None
      else if bool_decide (cr_Method c = RecoverySocial) then
        if Z.of_nat (length (cr_Approvals c)) <? cr_RequiredApprovals c then Some "need more approvals"%string else None
      else if bool_decide (cr_Method c = RecoveryPhrase) then
        match st with RecoveryApproved | RecoveryPending => None | _ => Some "not approved"%string end
      else Some "unknown recovery method"%string
  end.

Definition Execute (c : CrossForkRecovery) (now1 now2 : Z) : CrossForkRecovery * result unit :=
  match CanExecute c now1 with
  | Some _ => (c, Err "cannot execute")
  | None => (set_state RecoveryExecuted now2 (cr_Approvals c) c, Ok tt)
  end.

Definition Cancel (c : CrossForkRecovery) (now : Z) : CrossForkRecovery :=
  set_state RecoveryCancelled now (cr_Approvals c) c.

(** The common end of the three initiating methods. *)
Definition initiate (rm : RecoveryManager) (k : PrivateKey) (target : bytes) (st : RecoveryState)
    (method : string) (now expiry required : Z) (data : RecoveryData)
    : RecoveryManager * result CrossForkRecovery :=
  let r := Recovery_GenerateID (mkRecovery zero32 (rmg_ForkID rm) (rmg_ForkID rm) (rmg_Owner rm) target st method
             now 0 expiry [] required (Some data) [] []) in
  match doc_Sign k r with
  | (_, Err e) => (rm, Err e)
  | (r, Ok _) => (with_recoveries (rmg_Owner rm) (<[cr_ID r := r]> (Recoveries rm)) rm, Ok r)
  end.

Definition Recovery_InitiateTimeLock (rm : RecoveryManager) (target : bytes) (k : PrivateKey) (now : Z) :=
  initiate rm k target RecoveryPending RecoveryTimeLock now (i64 (now + rmg_TimeLockDuration rm)) 0 no_data.

Definition InitiateSocialRecovery (rm : RecoveryManager) (target : bytes) (k : PrivateKey) (now : Z)
    : RecoveryManager * result CrossForkRecovery :=
  if (length (rmg_Guardians rm) =? 0)%nat then (rm, Err "social recovery not configured")
  else initiate rm k target RecoveryPending RecoverySocial now 0 (rmg_GuardianQuorum rm)
         (guardian_data (rmg_Guardians rm) (rmg_GuardianQuorum rm)).

Definition InitiatePhraseRecovery (rm : RecoveryManager) (target : bytes) (k : PrivateKey) (phraseHash : bytes)
    (now : Z) : RecoveryManager * result CrossForkRecovery :=
  match rmg_RecoveryPhraseHash rm with
  | None => (rm, Err "recovery phrase not configured")
  | Some h =>
      if negb (bytes_eqb phraseHash h) then (rm, Err "invalid recovery phrase")
      else initiate rm k target RecoveryApproved RecoveryPhrase now 0 0 (phrase_data phraseHash)
  end.

Definition put_recovery (id : bytes) (c : CrossForkRecovery) (rm : RecoveryManager) : RecoveryManager :=
  with_recoveries (rmg_Owner rm) (<[id := c]> (Recoveries rm)) rm.

Definition AddGuardianApproval (rm : RecoveryManager) (id : bytes) (k : PrivateKey) (comment : string) (now : Z)
    : RecoveryManager * result unit :=
  match Recoveries rm !! id with
  | None => (rm, Err "recovery not found")
  | Some r =>
      if negb (bool_decide (cr_Method r = RecoverySocial)) then (rm, Err "not a social recovery")
      else match EcSign (Keccak256 (approval_msg id (KeyAddress k))) k with
           | Err e => (rm, Err e)
           | Ok sig =>
               let '(r', e) := AddApproval r (KeyAddress k) sig comment now in (put_recovery id r' rm, e)
           end
  end.

Definition CreateCheckpoint (rm : RecoveryManager) (k : PrivateKey) (epoch : Z) (stateRoot : bytes)
    (streamHashes : gmap bytes bytes) (rightsHash delegationsHash : bytes) (now : Z)
    : RecoveryManager * result RecoveryCheckpoint :=
  if negb (bytes_eqb (KeyAddress k) (rmg_Owner rm)) then (rm, Err "only owner can create checkpoints")
  else
    let id := Keccak256 (marshal (jobj [field "ForkID" (jarray (rmg_ForkID rm));
                                        field "Address" (jhex (rmg_Owner rm)); field "Epoch" (JNum epoch)])) in
    match doc_Sign k (mkCheckpoint id (rmg_ForkID rm) (rmg_Owner rm) epoch now stateRoot streamHashes
                        rightsHash delegationsHash []) with
    | (_, Err e) => (rm, Err e)
    | (c, Ok _) =>
        (mkRecoveryManager (rmg_ForkID rm) (rmg_Owner rm) (Recoveries rm) (<[epoch := c]> (Checkpoints rm))
           (rmg_Guardians rm) (rmg_GuardianQuorum rm) (rmg_TimeLockDuration rm) (rmg_RecoveryPhraseHash rm), Ok c)
    end.

Definition ExecuteRecovery (rm : RecoveryManager) (id : bytes) (now1 now2 : Z) : RecoveryManager * result unit :=
  match Recoveries rm !! id with
  | None => (rm, Err "recovery not found")
  | Some r =>
      match Execute r now1 now2 with
      | (_, Err e) => (rm, Err e)
      | (r', Ok _) => (with_recoveries (cr_TargetAddress r) (<[id := r']> (Recoveries rm)) rm, Ok tt)
      end
  end.

(** [recovery.Cancel()] on a recovery obtained from the manager. *)
Definition cancel_recovery (rm : RecoveryManager) (id : bytes) (now : Z) : RecoveryManager :=
  match Recoveries rm !! id with
  | None => rm
  | Some r => put_recovery id (Cancel r now) rm
  end.

(** [recovery.AddApproval(approver, signature, comment)] on a recovery obtained
    from the manager: the caller, not the manager, supplies the signature. *)
Definition submit_approval (rm : RecoveryManager) (id approver signature : bytes) (comment : string) (now : Z)
    : RecoveryManager * result unit :=
  match Recoveries rm !! id with
  | None => (rm, Err "recovery not found")
  | Some r => let '(r', e) := AddApproval r approver signature comment now in (put_recovery id r' rm, e)
  end.
End recovery.

Definition GetCheckpoint (rm : RecoveryManager) (epoch : Z) : option RecoveryCheckpoint := Checkpoints rm !! epoch.

Definition GetLatestCheckpoint (rm : RecoveryManager) : option RecoveryCheckpoint :=
  (fold_left (fun (best : option RecoveryCheckpoint * Z) kv => if best.2 <? kv.1 then (Some kv.2, kv.1) else best)
     (map_to_list (Checkpoints rm)) (None, -1)).1.

Definition GetRecovery (rm : RecoveryManager) (id : bytes) : option CrossForkRecovery := Recoveries rm !! id.

Definition is_active (r : CrossForkRecovery) : bool :=
  match cr_State r with RecoveryExecuted | RecoveryCancelled | RecoveryFailed => false | _ => true end.

Definition GetActiveRecoveries (rm : RecoveryManager) : list CrossForkRecovery :=
  List.filter is_active (map snd (map_to_list (Recoveries rm))).

(** The type of [Recoveries] makes the encoding fail; the field [checkpoints],
    written before it, is left out. *)
Definition ExportRecoveryData (rm : RecoveryManager) : result bytes :=
  json_Marshal (jobj [
    field "fork_id" (jarray (rmg_ForkID rm));
    field "owner" (jhex (rmg_Owner rm));
    field "guardians" (JArr (map jhex (rmg_Guardians rm)));
    field "guardian_quorum" (JNum (rmg_GuardianQuorum rm));
    field "time_lock_duration" (JNum (rmg_TimeLockDuration rm));
    field "recoveries" JUnsupported]).

(** ** Approvals *)

Section recovery_theory.
Context {C : Crypto}.

(** Every approval is by a different guardian of the recovery and carries that
    guardian's signature of the recovery's identifier. *)
Definition approvals_ok (r : CrossForkRecovery) : Prop :=
  NoDup (ra_Approver <$> cr_Approvals r) /\
  Forall (fun a => (exists d, cr_RecoveryData r = Some d /\ ra_Approver a ∈ rd_Guardians d) /\
            EcRecover (Keccak256 (approval_msg (cr_ID r) (ra_Approver a))) (ra_Signature a) = Some (ra_Approver a))
    (cr_Approvals r).

Lemma AddApproval_ok r approver sig comment now r' u :
  AddApproval r approver sig comment now = (r', Ok u) ->
  exists d, cr_RecoveryData r = Some d /\ approver ∈ rd_Guardians d /\
    EcRecover (Keccak256 (approval_msg (cr_ID r) approver)) sig = Some approver /\
    approver ∉ ra_Approver <$> cr_Approvals r /\
    r' = set_state (if cr_RequiredApprovals r <=? Z.of_nat (length (cr_Approvals r ++ [mkApproval approver now sig comment]))
                    then RecoveryApproved else cr_State r) (cr_CompletedAt r)
           (cr_Approvals r ++ [mkApproval approver now sig comment]) r.
Proof.
  unfold AddApproval. intros H.
  destruct (EcRecover _ sig) as [a|] eqn:E; [|done].
  destruct (bytes_eqb a approver) eqn:Ea; [|done]. apply bytes_eqb_true in Ea as ->. cbn [negb] in H.
  destruct (cr_RecoveryData r) as [d|]; [|done].
  destruct (existsb _ (rd_Guardians d)) eqn:Eg; [|done]. cbn [negb] in H.
  destruct (existsb _ (cr_Approvals r)) eqn:Ex; [done|]. injection H as <-.
  exists d. split_and!; try done.
  - apply existsb_exists in Eg as (g & Hg & ->%bytes_eqb_true). by apply list_elem_of_In.
  - intros Hin. apply list_elem_of_fmap in Hin as (a & -> & Ha).
    apply Bool.not_true_iff_false in Ex. apply Ex, existsb_exists. exists a.
    split; [by apply list_elem_of_In|apply bytes_eqb_refl].
Qed.

Lemma AddApproval_keeps r approver sig comment now :
  approvals_ok r -> approvals_ok (AddApproval r approver sig comment now).1.
Proof.
  intros [N F]. destruct (AddApproval r approver sig comment now) as [r' [u|e]] eqn:E.
  - apply AddApproval_ok in E as (d & Hd & Hg & Hs & Hn & ->). split; simpl.
    + rewrite fmap_app. apply NoDup_app. split; [done|]. split; [|apply NoDup_singleton].
      intros x Hx Hx'. simpl in Hx'. apply list_elem_of_singleton in Hx' as ->. done.
    + apply Forall_app. split; [exact F|]. constructor; [|constructor]. split; [by exists d|exact Hs].
  - assert (r' = r) as ->; [|by split]. clear - E. unfold AddApproval in E.
    repeat case_match; try discriminate E; by injection E as <-.
Qed.

(** A recovery is filed under its identifier, its approvals are sound, and a
    social one needs at least one of them. *)
Definition recovery_ok (id : bytes) (r : CrossForkRecovery) : Prop :=
  cr_ID r = id /\ approvals_ok r /\ (cr_Method r = RecoverySocial -> 1 <= cr_RequiredApprovals r).

(** Guardians are configured only with a positive quorum. *)
Definition recoveries_ok (rm : RecoveryManager) : Prop :=
  (rmg_Guardians rm <> [] -> 1 <= rmg_GuardianQuorum rm) /\ map_Forall recovery_ok (Recoveries rm).

Lemma AddApproval_frame r approver sig comment now :
  let r' := (AddApproval r approver sig comment now).1 in
  cr_ID r' = cr_ID r /\ cr_Method r' = cr_Method r /\ cr_RequiredApprovals r' = cr_RequiredApprovals r.
Proof. unfold AddApproval. by repeat case_match. Qed.

Lemma put_recovery_ok rm id r r' :
  recoveries_ok rm -> Recoveries rm !! id = Some r -> approvals_ok r' ->
  cr_ID r' = cr_ID r -> cr_Method r' = cr_Method r -> cr_RequiredApprovals r' = cr_RequiredApprovals r ->
  recoveries_ok (put_recovery id r' rm).
Proof.
  intros [G H] E A I M Q. split; [exact G|]. apply map_Forall_insert_2; [|exact H].
  destruct (H _ _ E) as (I' & _ & S). split_and!; [congruence|exact A|]. rewrite M, Q. exact S.
Qed.

Lemma add_approval_ok rm id r approver sig comment now :
  recoveries_ok rm -> Recoveries rm !! id = Some r ->
  recoveries_ok (put_recovery id (AddApproval r approver sig comment now).1 rm).
Proof.
  intros H E. destruct (AddApproval_frame r approver sig comment now) as (I & M & Q).
  eapply put_recovery_ok; [exact H|exact E| |exact I|exact M|exact Q].
  apply AddApproval_keeps, (proj2 H _ _ E).
Qed.

Lemma initiate_ok rm k target st method now expiry required data :
  (method = RecoverySocial -> 1 <= required) ->
  recoveries_ok rm -> recoveries_ok (initiate rm k target st method now expiry required data).1.
Proof.
  intros Hq [G H]. unfold initiate. destruct (doc_Sign k _) as [r [u|e]] eqn:S; [|by split].
  assert (Ha : cr_Approvals r = [] /\ cr_Method r = method /\ cr_RequiredApprovals r = required).
  { revert S. unfold doc_Sign. intros S. repeat case_match; by simplify_eq. }
  destruct Ha as (Ha & Hm & Hr).
  split; [exact G|]. apply map_Forall_insert_2; [|exact H].
  split_and!; [done| |by rewrite Hm, Hr]. unfold approvals_ok. rewrite Ha. split; constructor.
Qed.
End recovery_theory.

Inductive rm_op {C : Crypto} :=
| RSetup (guardians : list bytes) (quorum : Z)
| RPhrase (h : option bytes)
| RTimeLock (target : bytes) (k : PrivateKey) (now : Z)
| RSocial (target : bytes) (k : PrivateKey) (now : Z)
| RByPhrase (target : bytes) (k : PrivateKey) (h : bytes) (now : Z)
| RApprove (id : bytes) (k : PrivateKey) (comment : string) (now : Z)
| RSubmit (id approver signature : bytes) (comment : string) (now : Z)
| RCancel (id : bytes) (now : Z)
| RExecute (id : bytes) (now1 now2 : Z).

Definition rm_exec {C : Crypto} (rm : RecoveryManager) (op : rm_op) : RecoveryManager :=
  match op with
  | RSetup g q => (Recovery_SetupSocialRecovery rm g q).1
  | RPhrase h => SetRecoveryPhrase rm h
  | RTimeLock t k now => (Recovery_InitiateTimeLock rm t k now).1
  | RSocial t k now => (InitiateSocialRecovery rm t k now).1
  | RByPhrase t k h now => (InitiatePhraseRecovery rm t k h now).1
  | RApprove id k c now => (AddGuardianApproval rm id k c now).1
  | RSubmit id a sig c now => (submit_approval rm id a sig c now).1
  | RCancel id now => cancel_recovery rm id now
  | RExecute id n1 n2 => (ExecuteRecovery rm id n1 n2).1
  end.

Definition rm_run {C : Crypto} (rm : RecoveryManager) (ops : list rm_op) : RecoveryManager := fold_left rm_exec ops rm.

Lemma rm_exec_ok {C : Crypto} rm op : recoveries_ok rm -> recoveries_ok (rm_exec rm op).
Proof.
  intros H. destruct op as [g q|h|t k now|t k now|t k h now|id k c now|id a sig c now|id now|id n1 n2]; simpl.
  - unfold Recovery_SetupSocialRecovery. repeat case_match; try done. simpl.
    destruct H as [_ H]. split; [simpl; lia|exact H].
  - exact H.
  - by apply initiate_ok.
  - unfold InitiateSocialRecovery. case_match; [done|]. apply initiate_ok; [|done]. intros _.
    apply (proj1 H). by destruct (rmg_Guardians rm).
  - unfold InitiatePhraseRecovery. repeat case_match; try done. by apply initiate_ok.
  - unfold AddGuardianApproval. destruct (Recoveries rm !! id) as [r|] eqn:E; [|done].
    case_match; [done|]. destruct (EcSign _ k) as [sig|]; [|done].
    pose proof (add_approval_ok rm id r (KeyAddress k) sig c now H E) as Hr. by destruct (AddApproval r _ _ _ _).
  - unfold submit_approval. destruct (Recoveries rm !! id) as [r|] eqn:E; [|done].
    pose proof (add_approval_ok rm id r a sig c now H E) as Hr. by destruct (AddApproval r _ _ _ _).
  - unfold cancel_recovery. destruct (Recoveries rm !! id) as [r|] eqn:E; [|done].
    eapply put_recovery_ok; [exact H|exact E|apply (proj2 H _ _ E)|done..].
  - unfold ExecuteRecovery, Execute. destruct (Recoveries rm !! id) as [r|] eqn:E; [|done].
    destruct (CanExecute r n1); [done|]. destruct H as [G H]. split; [exact G|].
    apply map_Forall_insert_2; [|exact H]. exact (H _ _ E).
Qed.

Lemma rm_run_ok {C : Crypto} rm ops : recoveries_ok rm -> recoveries_ok (rm_run rm ops).
Proof. revert rm. induction ops; intros rm H; simpl; [done|]. by apply IHops, rm_exec_ok. Qed.

(** C15: a social recovery needs its quorum of signatures.  After any sequence of
    operations on a new manager, in which anybody may submit any approver with any
    signature, when [ExecuteRecovery] succeeds on a social recovery and hands the
    identity to the target address, the recovery requires at least one approval and
    holds the required number of them: they are by different guardians of that
    recovery, and the signature recorded with each one recovers, over this recovery's
    identifier, to the guardian it names. *)
Theorem social_recovery_needs_quorum {C : Crypto} forkID owner ops id r now1 now2 rm' u :
  let rm := rm_run (NewRecoveryManager forkID owner) ops in
  Recoveries rm !! id = Some r -> cr_Method r = RecoverySocial ->
  ExecuteRecovery rm id now1 now2 = (rm', Ok u) ->
  rmg_Owner rm' = cr_TargetAddress r /\
  1 <= cr_RequiredApprovals r <= Z.of_nat (length (cr_Approvals r)) /\
  NoDup (ra_Approver <$> cr_Approvals r) /\
  Forall (fun a => (exists d, cr_RecoveryData r = Some d /\ ra_Approver a ∈ rd_Guardians d) /\
            EcRecover (Keccak256 (approval_msg id (ra_Approver a))) (ra_Signature a) = Some (ra_Approver a))
    (cr_Approvals r).
Proof.
  intros rm Hr Hm H. unfold ExecuteRecovery, Execute in H. rewrite Hr in H.
  destruct (CanExecute r now1) eqn:E; [done|]. injection H as <-. split; [done|].
  assert (Hok : recoveries_ok rm) by (apply rm_run_ok; split; [done|apply map_Forall_empty]).
  destruct (proj2 Hok _ _ Hr) as (<- & [N F] & Hq). split; [|by split]. split; [by apply Hq|].
  unfold CanExecute in E. rewrite Hm in E.
  destruct (Z.ltb_spec (Z.of_nat (length (cr_Approvals r))) (cr_RequiredApprovals r)); [|lia].
  by destruct (cr_State r).
Qed.

(** Guardians [0x01..] and [0x02..], a pending social recovery by [0x09..] and one
    approval of the two required. *)
Definition demo_ops : list (rm_op (C := Toy.crypto)) :=
  [RSetup (C := Toy.crypto) [replicate 20 Byte.x01; replicate 20 Byte.x02] 1;
   RSocial (C := Toy.crypto) (replicate 20 Byte.x09) Byte.x09 100].
Definition demo_rm : RecoveryManager :=
  rm_run (C := Toy.crypto) (NewRecoveryManager zero32 (replicate 20 Byte.x05)) demo_ops.
Definition demo_rid : bytes :=
  match map_to_list (Recoveries demo_rm) with (id, _) :: _ => id | [] => [] end.

(** The key [0x01..] approves through the manager; a submission in the name of
    [0x02..] with the wrong signature is refused. *)
Definition demo_approvals : list (rm_op (C := Toy.crypto)) :=
  [RSubmit (C := Toy.crypto) demo_rid (replicate 20 Byte.x02) [Byte.x01] "" 150;
   RApprove (C := Toy.crypto) demo_rid Byte.x01 "" 200].

Lemma social_recovery_needs_quorum_witness :
  let rm := rm_run (C := Toy.crypto) (NewRecoveryManager zero32 (replicate 20 Byte.x05))
              (demo_ops ++ demo_approvals) in
  exists rm' r, ExecuteRecovery rm demo_rid 300 300 = (rm', Ok tt) /\
    rmg_Owner rm' = replicate 20 Byte.x09 /\ ra_Approver <$> cr_Approvals r = [replicate 20 Byte.x01] /\
    Forall (fun a => EcRecover (Crypto := Toy.crypto)
              (Keccak256 (Crypto := Toy.crypto) (approval_msg demo_rid (ra_Approver a)))
              (ra_Signature a) = Some (ra_Approver a)) (cr_Approvals r).
Proof.
  intros rm.
  assert (T : match Recoveries rm !! demo_rid with
              | Some r => bool_decide (cr_Method r = RecoverySocial) &&
                          bool_decide (ra_Approver <$> cr_Approvals r = [replicate 20 Byte.x01]) &&
                          bytes_eqb (cr_TargetAddress r) (replicate 20 Byte.x09) &&
                          is_ok (ExecuteRecovery rm demo_rid 300 300).2
              | None => false end = true) by (vm_compute; reflexivity).
  destruct (Recoveries rm !! demo_rid) as [r|] eqn:E; [|discriminate T].
  apply andb_true_iff in T as [[[T1 T2]%andb_true_iff T3]%andb_true_iff T4].
  apply bool_decide_eq_true in T1. apply bool_decide_eq_true in T2. apply bytes_eqb_true in T3.
  destruct (ExecuteRecovery rm demo_rid 300 300) as [rm' [[]|e]] eqn:X; [|discriminate T4].
  destruct (social_recovery_needs_quorum (C := Toy.crypto) zero32 (replicate 20 Byte.x05)
    (demo_ops ++ demo_approvals) demo_rid r 300 300 rm' tt) as (H1 & _ & _ & H4).
  - exact E.
  - exact T1.
  - exact X.
  - exists rm', r. split; [reflexivity|]. split; [congruence|]. split; [exact T2|].
    eapply Forall_impl; [exact H4|]. intros a [_ Ha]. exact Ha.
Defined.

(** a closed recovery can be reopened.  Approvals are accepted in every state:
    a guardian's approval that completes the quorum of a recovery that was cancelled,
    had failed or was already executed sets its state back to approved, after which it
    can be executed (again) and makes its target the owner. *)
Theorem closed_recovery_reopens {C : Crypto} {L : CryptoLaws C} rm id r d k comment now t1 t2 :
  Recoveries rm !! id = Some r -> cr_ID r = id -> cr_Method r = RecoverySocial -> is_active r = false ->
  cr_RecoveryData r = Some d -> KeyAddress k ∈ rd_Guardians d ->
  KeyAddress k ∉ ra_Approver <$> cr_Approvals r ->
  cr_RequiredApprovals r <= Z.of_nat (length (cr_Approvals r)) + 1 ->
  (ExecuteRecovery rm id t1 t2).2 = Err "cannot execute" /\
  exists rm1 rm2, AddGuardianApproval rm id k comment now = (rm1, Ok tt) /\
    ExecuteRecovery rm1 id t1 t2 = (rm2, Ok tt) /\ rmg_Owner rm2 = cr_TargetAddress r.
Proof.
  intros Hr Hid Hm Ha Hd Hg Hn Hq. split.
  { unfold ExecuteRecovery, Execute, CanExecute. rewrite Hr. unfold is_active in Ha.
    by destruct (cr_State r). }
  destruct (sign_total (Keccak256 (approval_msg id (KeyAddress k))) k (keccak_length _)) as (sig & S & _).
  assert (HA : AddApproval r (KeyAddress k) sig comment now =
    (set_state RecoveryApproved (cr_CompletedAt r) (cr_Approvals r ++ [mkApproval (KeyAddress k) now sig comment]) r, Ok tt)).
  { unfold AddApproval. rewrite Hid, (recover_sign _ _ _ S), bytes_eqb_refl, Hd. cbn [negb].
    rewrite (proj2 (existsb_exists _ (rd_Guardians d)))
      by (exists (KeyAddress k); split; [by apply list_elem_of_In|apply bytes_eqb_refl]). cbn [negb].
    destruct (existsb _ (cr_Approvals r)) eqn:Ex.
    - exfalso. apply existsb_exists in Ex as (a & Hin & E%bytes_eqb_true). apply Hn. rewrite <- E.
      by apply list_elem_of_fmap_2, list_elem_of_In.
    - rewrite (proj2 (Z.leb_le _ _)); [done|]. rewrite length_app. simpl. lia. }
  unfold AddGuardianApproval. rewrite Hr, S, HA, bool_decide_true by done. simpl.
  eexists _, _. split; [done|]. unfold ExecuteRecovery, put_recovery. cbn [Recoveries with_recoveries].
  rewrite lookup_insert_eq. unfold Execute, CanExecute. cbn [cr_State cr_Method set_state]. rewrite Hm. simpl.
  rewrite (proj2 (Z.ltb_ge _ _)) by (rewrite length_app; simpl; lia). done.
Qed.

Lemma closed_recovery_reopens_witness :
  let rm := cancel_recovery demo_rm demo_rid 150 in
  exists rm1 rm2, AddGuardianApproval (C := Toy.crypto) rm demo_rid Byte.x02 "" 200 = (rm1, Ok tt) /\
    ExecuteRecovery rm1 demo_rid 300 300 = (rm2, Ok tt) /\ rmg_Owner rm2 = replicate 20 Byte.x09.
Proof.
  intros rm.
  assert (T : match Recoveries rm !! demo_rid with
              | Some r => bytes_eqb (cr_ID r) demo_rid && bool_decide (cr_Method r = RecoverySocial) &&
                          negb (is_active r) && bool_decide (cr_Approvals r = []) && (cr_RequiredApprovals r =? 1) &&
                          bytes_eqb (cr_TargetAddress r) (replicate 20 Byte.x09) &&
                          match cr_RecoveryData r with
                          | Some d => bool_decide (replicate 20 Byte.x02 ∈ rd_Guardians d) | None => false end
              | None => false end = true).
  { vm_compute. reflexivity. }
  destruct (Recoveries rm !! demo_rid) as [r|] eqn:E; [|discriminate T].
  destruct (cr_RecoveryData r) as [d|] eqn:Ed; [|rewrite andb_false_r in T; discriminate T].
  repeat match type of T with (_ && _) = true => apply andb_true_iff in T as [T ?] end. bool_to_prop.
  destruct (closed_recovery_reopens (C := Toy.crypto) rm demo_rid r d Byte.x02 "" 200 300 300)
    as (_ & rm1 & rm2 & X1 & X2 & X3); try assumption.
  - match goal with H : cr_Approvals r = [] |- _ => rewrite H end. apply not_elem_of_nil.
  - match goal with H : cr_Approvals r = [], H' : cr_RequiredApprovals r = 1 |- _ => rewrite H, H' end.
    simpl. discriminate.
  - exists rm1, rm2. split; [exact X1|]. split; [exact X2|]. congruence.
Defined.

(** Checkpoints cannot be created.  The stream hashes are a map keyed by byte
    arrays, which [json.Marshal] rejects, so [CreateCheckpoint] returns an error for
    every key and content and stores nothing; [ExportRecoveryData] fails as well. *)
Theorem checkpoint_never_created {C : Crypto} rm k epoch root hashes rh dh now :
  (exists e, CreateCheckpoint rm k epoch root hashes rh dh now = (rm, Err e)) /\
  (exists e, ExportRecoveryData rm = Err e).
Proof.
  split.
  - unfold CreateCheckpoint, doc_Sign. case_match; [by eexists|]. simpl.
    destruct (bytes_eqb (KeyAddress k) (rmg_Owner rm)); [|by eexists]. simpl.
    unfold json_Marshal. cbn [supported jobj emit field flat_map app forallb fst snd].
    rewrite ?andb_false_r. by eexists.
  - unfold ExportRecoveryData, json_Marshal. cbn [supported jobj emit field flat_map app forallb fst snd].
    rewrite ?andb_false_r. by eexists.
Qed.
