(* ===== verification/Layers.v ===== *)
(** * Memory layers ([src/identity/layers.go])

    Layers of the memory have privacy rules, possibly inherited from a parent
    layer.  [GetEffectiveRules] follows the parents recursively; the model gives it
    fuel, and [NoFuel] stands for a call that has not returned. *)

From Stdlib Require Import String.
From S2P Require Import Prelude Json Signing Consent.

Definition LayerPublic : string := "public".
Definition LayerRestricted : string := "restricted".
Definition LayerPrivate : string := "private".
Definition LayerLocal : string := "local".
Definition LayerArchive : string := "archive".

Definition AccessOwnerOnly : string := "owner_only".
Definition AccessExplicitGrant : string := "explicit_grant".
Definition AccessWithProof : string := "with_proof".
Definition AccessPublic : string := "public".

Record PrivacyRules := mkRules {
  ReadAccess : string;
  WriteAccess : string;
  CrossLayerExport : bool;
  ExportRequiresConsent : bool;
  RetentionDays : Z;
  EncryptionRequired : bool;
  AuditLogging : bool;
  InheritFromParent : bool;
}.

Record LayerConfig := mkLayer {
  lc_ID : string;
  lc_Parent : string;
  lc_Rules : PrivacyRules;
  lc_TrustedLayers : list string;
  lc_Created : Z;
  lc_Owner : bytes;
  lc_Signature : bytes;
}.

Definition rules_json (r : PrivacyRules) : json := jobj [
  field "read_access" (jstring (ReadAccess r));
  field "write_access" (jstring (WriteAccess r));
  field "cross_layer_export" (JBool (CrossLayerExport r));
  field "export_requires_consent" (JBool (ExportRequiresConsent r));
  omit_int "retention_days" (RetentionDays r);
  field "encryption_required" (JBool (EncryptionRequired r));
  field "audit_logging" (JBool (AuditLogging r));
  field "inherit_from_parent" (JBool (InheritFromParent r))].

(** The signature field has [omitempty]: cleared, it is not written. *)
#[global] Instance LayerConfig_doc : SignedDoc LayerConfig := {|
  doc_json lc := jobj [
    field "id" (jstring (lc_ID lc));
    omit_str "parent" (lc_Parent lc);
    field "rules" (rules_json (lc_Rules lc));
    strings_field "trusted_layers" (lc_TrustedLayers lc);
    field "created" (JNum (lc_Created lc));
    field "owner" (jhex (lc_Owner lc))];
  doc_owner := lc_Owner;
  doc_sig := lc_Signature;
  doc_set_sig s lc := mkLayer (lc_ID lc) (lc_Parent lc) (lc_Rules lc) (lc_TrustedLayers lc) (lc_Created lc)
    (lc_Owner lc) s;
  doc_sign_error := "signer is not owner" |}.

#[global] Instance LayerConfig_laws : SignedDocLaws LayerConfig.
Proof. by split. Qed.

Record MemoryLayerManager := mkLayers {
  ml_Owner : bytes;
  Layers : gmap string LayerConfig;
  DataPlacement : gmap bytes string;
}.

Definition default_layer (id parent : string) (owner : bytes) (now : Z) (r : PrivacyRules) : LayerConfig :=
  mkLayer id parent r [] now owner [].

(** The five initial layers; each reads the clock once. *)
Definition NewMemoryLayerManager (owner : bytes) (t1 t2 t3 t4 t5 : Z) : MemoryLayerManager :=
  mkLayers owner
    (list_to_map (map (fun l => (lc_ID l, l)) [
       default_layer LayerPublic "" owner t1
         (mkRules AccessPublic AccessOwnerOnly true false 0 false true false);
       default_layer LayerRestricted LayerPublic owner t2
         (mkRules AccessWithProof AccessExplicitGrant true true 0 true true true);
       default_layer LayerPrivate LayerRestricted owner t3
         (mkRules AccessExplicitGrant AccessOwnerOnly true true 0 true true true);
       default_layer LayerLocal LayerPrivate owner t4
         (mkRules AccessOwnerOnly AccessOwnerOnly false false 0 true false false);
       default_layer LayerArchive LayerPrivate owner t5
         (mkRules AccessExplicitGrant AccessOwnerOnly true true 0 true true false)])) ∅.

Definition AddLayer {C : Crypto} (mlm : MemoryLayerManager) (config : LayerConfig)
    : MemoryLayerManager * result unit :=
  if negb (doc_Verify config) then (mlm, Err "invalid signature on layer config")
  else if negb (bool_decide (lc_Parent config = EmptyString)) && bool_decide (Layers mlm !! lc_Parent config = None)
  then (mlm, Err "parent layer does not exist")
  else (mkLayers (ml_Owner mlm) (<[lc_ID config := config]> (Layers mlm)) (DataPlacement mlm), Ok tt).

(** The merge of a child's rules into its parent's. *)
Definition merge_rules (parent child : PrivacyRules) : PrivacyRules :=
  mkRules (if bool_decide (ReadAccess child = EmptyString) then ReadAccess parent else ReadAccess child)
    (if bool_decide (WriteAccess child = EmptyString) then WriteAccess parent else WriteAccess child)
    (CrossLayerExport child) (ExportRequiresConsent child)
    (if 0 <? RetentionDays child then RetentionDays child else RetentionDays parent)
    (EncryptionRequired child || EncryptionRequired parent)
    (AuditLogging child || AuditLogging parent) (InheritFromParent parent).

Fixpoint GetEffectiveRules (fuel : nat) (mlm : MemoryLayerManager) (layerID : string) : outcome (result PrivacyRules) :=
  match fuel with
  | O => NoFuel
  | S f =>
      match Layers mlm !! layerID with
      | None => Done (Err "layer does not exist")
      | Some layer =>
          if negb (InheritFromParent (lc_Rules layer)) || bool_decide (lc_Parent layer = EmptyString)
          then Done (Ok (lc_Rules layer))
          else
            let! r := GetEffectiveRules f mlm (lc_Parent layer) in
            Done (let? parentRules := r in Ok (merge_rules parentRules (lc_Rules layer)))
      end
  end.

Definition PlaceData (mlm : MemoryLayerManager) (streamID : bytes) (layerID : string)
    : MemoryLayerManager * result unit :=
  match Layers mlm !! layerID with
  | None => (mlm, Err "layer does not exist")
  | Some _ => (mkLayers (ml_Owner mlm) (Layers mlm) (<[streamID := layerID]> (DataPlacement mlm)), Ok tt)
  end.

Definition GetDataLayer (mlm : MemoryLayerManager) (streamID : bytes) : option string := DataPlacement mlm !! streamID.

Definition policy_allows (mlm : MemoryLayerManager) (addr : bytes) (policy : string) : bool :=
  if bool_decide (policy = AccessPublic) then true
  else if bool_decide (policy = AccessOwnerOnly) then bytes_eqb addr (ml_Owner mlm)
  else if bool_decide (policy = AccessExplicitGrant) || bool_decide (policy = AccessWithProof)
  then bytes_eqb addr (ml_Owner mlm)
  else false.

Definition CanAccess (fuel : nat) (mlm : MemoryLayerManager) (addr : bytes) (layerID : string) (isWrite : bool)
    : outcome (result bool) :=
  let! r := GetEffectiveRules fuel mlm layerID in
  Done (let? rules := r in
        Ok (policy_allows mlm addr (if isWrite then WriteAccess rules else ReadAccess rules))).

Definition IsTrustedLayer (mlm : MemoryLayerManager) (from to : string) : bool :=
  match Layers mlm !! from with
  | None => false
  | Some l => existsb (fun t => bool_decide (t = to)) (lc_TrustedLayers l)
  end.

Definition ListLayers (mlm : MemoryLayerManager) : list string := (map_to_list (Layers mlm)).*1.

(** ** Properties *)

(** The initial layers all resolve: encryption is required everywhere but in the
    public layer, and only the public layer has a public policy (for reading). *)
Lemma default_layers_resolve owner t1 t2 t3 t4 t5 layer :
  layer ∈ [LayerPublic; LayerRestricted; LayerPrivate; LayerLocal; LayerArchive] ->
  exists rules, GetEffectiveRules 3 (NewMemoryLayerManager owner t1 t2 t3 t4 t5) layer = Done (Ok rules) /\
    EncryptionRequired rules = negb (bool_decide (layer = LayerPublic)) /\
    WriteAccess rules <> AccessPublic /\ (ReadAccess rules = AccessPublic <-> layer = LayerPublic).
Proof.
  intros H. repeat (apply elem_of_cons in H as [->|H]); [..|by apply not_elem_of_nil in H];
    (eexists; split; [vm_compute; reflexivity|]; split_and!; try done; by split).
Qed.

(** anyone can replace a layer.  [AddLayer] checks that a configuration is
    signed by the owner it names, not by the manager's owner, so any key holder can
    install, under any layer name, rules that let everybody read and write it. *)
Theorem foreign_layer_accepted {C : Crypto} {L : CryptoLaws C} mlm k layer :
  exists config mlm', lc_Owner config = KeyAddress k /\ AddLayer mlm config = (mlm', Ok tt) /\
    forall fuel addr w, CanAccess (S fuel) mlm' addr layer w = Done (Ok true).
Proof.
  set (c := mkLayer layer "" (mkRules AccessPublic AccessPublic true false 0 false false false) [] 0 (KeyAddress k) []).
  destruct (doc_Sign k c) as [c' r] eqn:S.
  assert (Hs : supported (doc_json c) = true) by reflexivity.
  destruct (doc_Sign_total k c) as (sig & S' & _); [reflexivity|exact Hs|]. rewrite S in S'. injection S' as -> ->.
  apply doc_Sign_ok in S as (V & _).
  match type of V with doc_Verify ?x = true => exists x end. eexists. split; [done|]. split.
  - unfold AddLayer. rewrite V. reflexivity.
  - intros fuel addr w. unfold CanAccess. simpl. rewrite lookup_insert_eq. simpl. by destruct w.
Qed.

Lemma foreign_layer_accepted_witness :
  exists config mlm', lc_Owner config = replicate 20 Byte.x66 /\
    AddLayer (C := Toy.crypto) (NewMemoryLayerManager (replicate 20 Byte.x05) 0 0 0 0 0) config = (mlm', Ok tt) /\
    forall fuel addr w, CanAccess (S fuel) mlm' addr LayerPrivate w = Done (Ok true).
Proof.
  exact (foreign_layer_accepted (C := Toy.crypto) (NewMemoryLayerManager (replicate 20 Byte.x05) 0 0 0 0 0)
           Byte.x66 LayerPrivate).
Defined.

(** Layers that inherit from each other. *)
Lemma cycle_no_rules fuel mlm a b la lb :
  Layers mlm !! a = Some la -> Layers mlm !! b = Some lb ->
  lc_Parent la = b -> lc_Parent lb = a -> a <> EmptyString -> b <> EmptyString ->
  InheritFromParent (lc_Rules la) = true -> InheritFromParent (lc_Rules lb) = true ->
  GetEffectiveRules fuel mlm a = NoFuel /\ GetEffectiveRules fuel mlm b = NoFuel.
Proof.
  intros Ha Hb Pa Pb Na Nb Ia Ib. induction fuel as [|f [IH1 IH2]]; [done|]. simpl.
  rewrite Ha, Hb, Ia, Ib, Pa, Pb, !bool_decide_false by done. simpl. by rewrite IH1, IH2.
Qed.

(** a layer cycle is accepted and never resolves.  Adding to the initial
    layers a "public" layer that inherits from "restricted" (its own child) succeeds,
    since the parent exists; afterwards [GetEffectiveRules] and [CanAccess] on either
    layer recurse without end. *)
Theorem layer_cycle_diverges {C : Crypto} {L : CryptoLaws C} k t1 t2 t3 t4 t5 :
  exists config mlm',
    AddLayer (NewMemoryLayerManager (KeyAddress k) t1 t2 t3 t4 t5) config = (mlm', Ok tt) /\
    forall fuel addr w,
      GetEffectiveRules fuel mlm' LayerPublic = NoFuel /\ GetEffectiveRules fuel mlm' LayerRestricted = NoFuel /\
      CanAccess fuel mlm' addr LayerRestricted w = NoFuel.
Proof.
  set (c := mkLayer LayerPublic LayerRestricted
              (mkRules AccessPublic AccessOwnerOnly true false 0 false true true) [] 0 (KeyAddress k) []).
  destruct (doc_Sign k c) as [c' r] eqn:S.
  assert (Hs : supported (doc_json c) = true) by reflexivity.
  destruct (doc_Sign_total k c) as (sig & S' & _); [reflexivity|exact Hs|]. rewrite S in S'. injection S' as -> ->.
  apply doc_Sign_ok in S as (V & _).
  set (m := NewMemoryLayerManager (KeyAddress k) t1 t2 t3 t4 t5).
  match type of V with doc_Verify ?x = true => set (c1 := x) in * end.
  set (m' := mkLayers (ml_Owner m) (<[LayerPublic := c1]> (Layers m)) (DataPlacement m)).
  exists c1, m'. split; [unfold AddLayer; by rewrite V|]. intros fuel addr w.
  destruct (cycle_no_rules fuel m' LayerPublic LayerRestricted c1
    (default_layer LayerRestricted LayerPublic (KeyAddress k) t2
         (mkRules AccessWithProof AccessExplicitGrant true true 0 true true true))) as [H1 H2]; try done.
  split_and!; [done|done|]. unfold CanAccess. by rewrite H2.
Qed.

Lemma layer_cycle_diverges_witness :
  exists config mlm',
    AddLayer (C := Toy.crypto) (NewMemoryLayerManager (replicate 20 Byte.x05) 0 0 0 0 0) config = (mlm', Ok tt) /\
    forall fuel, GetEffectiveRules fuel mlm' LayerPublic = NoFuel.
Proof.
  destruct (layer_cycle_diverges (C := Toy.crypto) Byte.x05 0 0 0 0 0) as (config & mlm' & H1 & H2).
  exists config, mlm'. split; [exact H1|]. intros fuel. exact (proj1 (H2 fuel [] false)).
Defined.
