(* ===== verification/ForkState.v ===== *)
(** * Fork state ([src/identity/fork_state.go])

    The state of an identity's fork: a signed genesis, then signed transitions
    (checkpoints, recovery configuration, recovery steps).  The payload of a
    transition is raw JSON that each handler decodes.  What [json.Unmarshal] makes
    of a payload and the bytes [json.Marshal] gives for a transition as it stands,
    its signature included (it re-emits the raw payload), are section variables: the
    results hold for every decoder.  A signature is the empty list when it is [nil]; it is
    cleared before a document is hashed.
    [NewForkGenesis] and [NewStateTransition] build and sign documents from a
    [StatelessIdentity]; they are in [Forks]. *)

From Stdlib Require Import String.
From S2P Require Import Prelude Json Signing Rotation Recovery.

Record RecoveryConfig := mkRecoveryConfig {
  fc_Guardians : list bytes;
  fc_GuardianThreshold : Z;
  fc_TimelockEnabled : bool;
  fc_TimelockDuration : Z;
  fc_UpdatedAt : Z;
  fc_UpdatedBy : bytes;
}.

Record Checkpoint := mkForkCheckpoint {
  fk_Epoch : Z;
  fk_StateRoot : bytes;
  fk_Timestamp : Z;
  fk_BlockNumber : Z;
  fk_PreviousCheckpoint : bytes;
  fk_Signature : bytes;
}.

Record PendingRecoveryState := mkPendingState {
  fp_NewAddress : bytes;
  fp_NewChainSalt : bytes;
  fp_InitiatedAt : Z;
  fp_InitiatedBy : bytes;
  fp_Method : string;
  fp_Approvals : list RecoveryApproval;
  fp_CanCompleteAt : Z;
  fp_TxHash : bytes;
}.

Record ForkState := mkForkState {
  fs_ForkID : bytes;
  fs_ChainSalt : bytes;
  fs_CreatedAt : Z;
  fs_GenesisBlock : Z;
  fs_GenesisChain : string;
  fs_GenesisTxHash : bytes;
  fs_CurrentAddress : bytes;
  fs_RecoveryConfig : RecoveryConfig;
  fs_LastCheckpoint : option Checkpoint;
  fs_LastSyncBlock : Z;
  fs_PendingRecovery : option PendingRecoveryState;
}.

Record ForkGenesis := mkGenesis {
  fg_Version : Z;
  fg_Type : string;
  fg_ForkID : bytes;
  fg_ChainSalt : bytes;
  fg_InitialAddress : bytes;
  fg_CreatedAt : Z;
  fg_RecoveryConfig : RecoveryConfig;
  fg_Signature : bytes;
}.

Definition recovery_config_json (c : RecoveryConfig) : json := jobj [
  omit_if (length (fc_Guardians c) =? 0)%nat "guardians" (JArr (map jhex (fc_Guardians c)));
  omit_int "guardian_threshold" (fc_GuardianThreshold c);
  field "timelock_enabled" (JBool (fc_TimelockEnabled c));
  field "timelock_duration" (JNum (fc_TimelockDuration c));
  field "updated_at" (JNum (fc_UpdatedAt c));
  field "updated_by" (jhex (fc_UpdatedBy c))].

(** [genesis.Signature = sig]; [[]] is [nil]. *)
Definition set_genesis_sig (sig : bytes) (g : ForkGenesis) : ForkGenesis :=
  mkGenesis (fg_Version g) (fg_Type g) (fg_ForkID g) (fg_ChainSalt g) (fg_InitialAddress g) (fg_CreatedAt g)
    (fg_RecoveryConfig g) sig.

Definition genesis_json (g : ForkGenesis) : json := jobj [
  field "version" (JNum (fg_Version g));
  field "type" (jstring (fg_Type g));
  field "fork_id" (jarray (fg_ForkID g));
  field "chain_salt" (jsig (fg_ChainSalt g));
  field "initial_address" (jhex (fg_InitialAddress g));
  field "created_at" (JNum (fg_CreatedAt g));
  field "recovery_config" (recovery_config_json (fg_RecoveryConfig g));
  field "signature" (jsig (fg_Signature g))].

(** The signature is cleared, the genesis encoded, and the signature put back.
    The recovered signer and whether it is the initial address; [None] for the
    zero address and false. *)
Definition Genesis_Verify {C : Crypto} (g : ForkGenesis) : option (bytes * bool) :=
  let sig := fg_Signature g in
  match json_Marshal (genesis_json (set_genesis_sig [] g)) with
  | Err _ => None
  | Ok data =>
      match EcRecover (Keccak256 data) sig with
      | None => None
      | Some signer => Some (signer, bytes_eqb signer (fg_InitialAddress g))
      end
  end.

Definition ForkStateFromGenesis {C : Crypto} (g : ForkGenesis) (blockNumber : Z) (txHash : bytes) (chainID : string)
    : result ForkState :=
  match Genesis_Verify g with
  | Some (signer, true) =>
      if negb (bytes_eqb signer (fg_InitialAddress g)) then Err "genesis signer mismatch"
      else Ok (mkForkState (fg_ForkID g) (fg_ChainSalt g) (fg_CreatedAt g) blockNumber chainID txHash
                 (fg_InitialAddress g) (fg_RecoveryConfig g) None blockNumber None)
  | _ => Err "invalid genesis signature"
  end.

(** ** Transitions *)

Definition TransitionCheckpoint : string := "checkpoint".
Definition TransitionRecoveryConfig : string := "recovery_config".
Definition TransitionRecoveryInitiate : string := "recovery_initiate".
Definition TransitionRecoveryApprove : string := "recovery_approve".
Definition TransitionRecoveryComplete : string := "recovery_complete".
Definition TransitionRecoveryCancel : string := "recovery_cancel".

Record StateTransition := mkTransition {
  tx_Version : Z;
  tx_Type : string;
  tx_ForkID : bytes;
  tx_From : bytes;
  tx_Timestamp : Z;
  tx_Nonce : Z;
  tx_Data : bytes;
  tx_Signature : bytes;
}.

(** [tx.Signature = sig]; [[]] is [nil]. *)
Definition set_tx_sig (sig : bytes) (tx : StateTransition) : StateTransition :=
  mkTransition (tx_Version tx) (tx_Type tx) (tx_ForkID tx) (tx_From tx) (tx_Timestamp tx) (tx_Nonce tx) (tx_Data tx) sig.

Definition set_config (c : RecoveryConfig) (fs : ForkState) : ForkState :=
  mkForkState (fs_ForkID fs) (fs_ChainSalt fs) (fs_CreatedAt fs) (fs_GenesisBlock fs) (fs_GenesisChain fs)
    (fs_GenesisTxHash fs) (fs_CurrentAddress fs) c (fs_LastCheckpoint fs) (fs_LastSyncBlock fs) (fs_PendingRecovery fs).

Definition set_checkpoint (c : Checkpoint) (fs : ForkState) : ForkState :=
  mkForkState (fs_ForkID fs) (fs_ChainSalt fs) (fs_CreatedAt fs) (fs_GenesisBlock fs) (fs_GenesisChain fs)
    (fs_GenesisTxHash fs) (fs_CurrentAddress fs) (fs_RecoveryConfig fs) (Some c) (fs_LastSyncBlock fs)
    (fs_PendingRecovery fs).

Definition set_pending (p : option PendingRecoveryState) (fs : ForkState) : ForkState :=
  mkForkState (fs_ForkID fs) (fs_ChainSalt fs) (fs_CreatedAt fs) (fs_GenesisBlock fs) (fs_GenesisChain fs)
    (fs_GenesisTxHash fs) (fs_CurrentAddress fs) (fs_RecoveryConfig fs) (fs_LastCheckpoint fs) (fs_LastSyncBlock fs) p.

Definition is_guardian (fs : ForkState) (a : bytes) : bool :=
  existsb (fun g => bytes_eqb g a) (fc_Guardians (fs_RecoveryConfig fs)).

Definition isAuthorized (fs : ForkState) (signer : bytes) (txType : string) : bool :=
  if bytes_eqb signer (fs_CurrentAddress fs) then true
  else if bool_decide (txType = TransitionRecoveryApprove) && is_guardian fs signer then true
  else if bool_decide (txType = TransitionRecoveryInitiate) then fc_TimelockEnabled (fs_RecoveryConfig fs)
  else false.

Definition applyRecoveryComplete (fs : ForkState) (signer : bytes) (now : Z) : ForkState * result unit :=
  match fs_PendingRecovery fs with
  | None => (fs, Err "no pending recovery")
  | Some p =>
      if now <? fp_CanCompleteAt p then (fs, Err "recovery not yet completable")
      else if negb (bytes_eqb signer (fp_NewAddress p)) then (fs, Err "signer must be the new address")
      else (mkForkState (fs_ForkID fs)
              (if (length (fp_NewChainSalt p) =? 0)%nat then fs_ChainSalt fs else fp_NewChainSalt p)
              (fs_CreatedAt fs) (fs_GenesisBlock fs) (fs_GenesisChain fs) (fs_GenesisTxHash fs)
              (fp_NewAddress p) (fs_RecoveryConfig fs) (fs_LastCheckpoint fs) (fs_LastSyncBlock fs) None, Ok tt)
  end.

Definition applyRecoveryCancel (fs : ForkState) (signer : bytes) : ForkState * result unit :=
  match fs_PendingRecovery fs with
  | None => (fs, Err "no pending recovery")
  | Some _ => if negb (bytes_eqb signer (fs_CurrentAddress fs)) then (fs, Err "only current owner can cancel recovery")
              else (set_pending None fs, Ok tt)
  end.

Section transitions.
Context {C : Crypto}.
(** [json.Marshal] of a transition, with the signature it has. *)
Context (tx_bytes : StateTransition -> result bytes).
(** [json.Unmarshal] of the payloads. *)
Context (decode_checkpoint : bytes -> result Checkpoint).
Context (decode_config : bytes -> result RecoveryConfig).
Context (decode_pending : bytes -> result PendingRecoveryState).
Context (decode_approval : bytes -> result RecoveryApproval).

Definition Transition_Verify (tx : StateTransition) : option (bytes * bool) :=
  let sig := tx_Signature tx in
  match tx_bytes (set_tx_sig [] tx) with
  | Err _ => None
  | Ok data =>
      match EcRecover (Keccak256 data) sig with
      | None => None
      | Some signer => Some (signer, bytes_eqb signer (tx_From tx))
      end
  end.

Definition applyCheckpoint (fs : ForkState) (data : bytes) : ForkState * result unit :=
  match decode_checkpoint data with
  | Err e => (fs, Err e)
  | Ok cp => (set_checkpoint cp fs, Ok tt)
  end.

Definition applyRecoveryConfig (fs : ForkState) (data signer : bytes) (now : Z) : ForkState * result unit :=
  match decode_config data with
  | Err e => (fs, Err e)
  | Ok c => (set_config (mkRecoveryConfig (fc_Guardians c) (fc_GuardianThreshold c) (fc_TimelockEnabled c)
                           (fc_TimelockDuration c) now signer) fs, Ok tt)
  end.

Definition applyRecoveryInitiate (fs : ForkState) (data signer : bytes) (now : Z) : ForkState * result unit :=
  match decode_pending data with
  | Err e => (fs, Err e)
  | Ok p =>
      (set_pending (Some (mkPendingState (fp_NewAddress p) (fp_NewChainSalt p) now signer (fp_Method p) (fp_Approvals p)
         (if bool_decide (fp_Method p = "timelock"%string) then i64 (now + fc_TimelockDuration (fs_RecoveryConfig fs))
          else fp_CanCompleteAt p) (fp_TxHash p))) fs, Ok tt)
  end.

Definition applyRecoveryApprove (fs : ForkState) (data signer : bytes) (now1 now2 : Z) : ForkState * result unit :=
  match fs_PendingRecovery fs with
  | None => (fs, Err "no pending recovery")
  | Some p =>
      match decode_approval data with
      | Err e => (fs, Err e)
      | Ok a =>
          if negb (is_guardian fs signer) then (fs, Err "signer is not a guardian")
          else if existsb (fun a => bytes_eqb (ra_Approver a) signer) (fp_Approvals p) then (fs, Err "already approved")
          else
            let approvals := fp_Approvals p ++ [mkApproval signer now1 (ra_Signature a) (ra_Comment a)] in
            let enough := fc_GuardianThreshold (fs_RecoveryConfig fs) <=? Z.of_nat (length approvals) in
            (set_pending (Some (mkPendingState (fp_NewAddress p) (fp_NewChainSalt p) (fp_InitiatedAt p) (fp_InitiatedBy p)
               (if enough then "social"%string else fp_Method p) approvals
               (if enough then now2 else fp_CanCompleteAt p) (fp_TxHash p))) fs, Ok tt)
      end
  end.

Definition ApplyTransition (fs : ForkState) (tx : StateTransition) (now1 now2 : Z) : ForkState * result unit :=
  match Transition_Verify tx with
  | Some (signer, true) =>
      if negb (bytes_eqb (tx_ForkID tx) (fs_ForkID fs)) then (fs, Err "fork ID mismatch")
      else if negb (isAuthorized fs signer (tx_Type tx)) then (fs, Err "signer not authorized")
      else if bool_decide (tx_Type tx = TransitionCheckpoint) then applyCheckpoint fs (tx_Data tx)
      else if bool_decide (tx_Type tx = TransitionRecoveryConfig) then applyRecoveryConfig fs (tx_Data tx) signer now1
      else if bool_decide (tx_Type tx = TransitionRecoveryInitiate) then applyRecoveryInitiate fs (tx_Data tx) signer now1
      else if bool_decide (tx_Type tx = TransitionRecoveryApprove) then applyRecoveryApprove fs (tx_Data tx) signer now1 now2
      else if bool_decide (tx_Type tx = TransitionRecoveryComplete) then applyRecoveryComplete fs signer now1
      else if bool_decide (tx_Type tx = TransitionRecoveryCancel) then applyRecoveryCancel fs signer
      else (fs, Ok tt)
  | _ => (fs, Err "invalid transition signature")
  end.

(** A log of transitions with the clock readings of each. *)
Definition apply_log (fs : ForkState) (log : list (StateTransition * Z * Z)) : ForkState :=
  fold_left (fun fs e => (ApplyTransition fs e.1.1 e.1.2 e.2).1) log fs.
End transitions.

Definition CanRecover (fs : ForkState) (method : string) : bool * string :=
  if bool_decide (method = "social"%string) then
    if (length (fc_Guardians (fs_RecoveryConfig fs)) =? 0)%nat then (false, "no guardians configured"%string)
    else if fc_GuardianThreshold (fs_RecoveryConfig fs) =? 0 then (false, "no guardian threshold set"%string)
    else (true, ""%string)
  else if bool_decide (method = "timelock"%string) then
    if negb (fc_TimelockEnabled (fs_RecoveryConfig fs)) then (false, "timelock recovery not enabled"%string)
    else if fc_TimelockDuration (fs_RecoveryConfig fs) =? 0 then (false, "no timelock duration set"%string)
    else (true, ""%string)
  else (false, "unknown recovery method"%string).

Definition HasPendingRecovery (fs : ForkState) : bool := bool_decide (is_Some (fs_PendingRecovery fs)).
Definition GetPendingRecovery (fs : ForkState) : option PendingRecoveryState := fs_PendingRecovery fs.
Definition IsOwner (fs : ForkState) (addr : bytes) : bool := bytes_eqb addr (fs_CurrentAddress fs).
Definition GetCurrentAddress (fs : ForkState) : bytes := fs_CurrentAddress fs.
Definition GetChainSalt (fs : ForkState) : bytes := fs_ChainSalt fs.

Section fork_theory.
Context {C : Crypto} {L : CryptoLaws C}.
Context (tx_bytes : StateTransition -> result bytes) (decode_checkpoint : bytes -> result Checkpoint).
Context (decode_config : bytes -> result RecoveryConfig) (decode_pending : bytes -> result PendingRecoveryState).
Context (decode_approval : bytes -> result RecoveryApproval).
Abbreviation Apply := (ApplyTransition tx_bytes decode_checkpoint decode_config decode_pending decode_approval).

(** No single transition changes the owner: completing a recovery is authorized
    for the current address only and requires the new one. *)
Lemma ApplyTransition_owner fs tx now1 now2 :
  fs_CurrentAddress (Apply fs tx now1 now2).1 = fs_CurrentAddress fs.
Proof.
  unfold ApplyTransition. destruct (Transition_Verify tx_bytes tx) as [[signer []]|]; [|done..].
  destruct (negb (bytes_eqb _ _)); [done|].
  destruct (isAuthorized fs signer (tx_Type tx)) eqn:A; simpl; [|done].
  destruct (decide (tx_Type tx = TransitionRecoveryComplete)) as [HT|HT].
  - rewrite HT in *. simpl. unfold applyRecoveryComplete.
    destruct (fs_PendingRecovery fs) as [p|]; [|done]. case_match; [done|].
    destruct (bytes_eqb signer (fp_NewAddress p)) eqn:E; [|done]. simpl.
    apply bytes_eqb_true in E. subst signer. unfold isAuthorized in A. simpl in A.
    destruct (bytes_eqb (fp_NewAddress p) (fs_CurrentAddress fs)) eqn:E; [by apply bytes_eqb_true in E|done].
  - rewrite (bool_decide_false (tx_Type tx = TransitionRecoveryComplete)) by done.
    unfold applyCheckpoint, applyRecoveryConfig, applyRecoveryInitiate, applyRecoveryApprove, applyRecoveryCancel.
    by repeat case_match.
Qed.
End fork_theory.

(** a fork never changes hands.  From a verified genesis, no log of signed
    transitions, by whatever signers, with whatever payloads and at whatever times,
    moves the current address away from the genesis address: a recovery can be
    initiated and approved but never completed in favour of a new key. *)
Theorem fork_owner_fixed {C : Crypto} tx_bytes decode_checkpoint decode_config decode_pending decode_approval
    g blockNumber txHash chainID fs log :
  ForkStateFromGenesis g blockNumber txHash chainID = Ok fs ->
  fs_CurrentAddress
    (apply_log tx_bytes decode_checkpoint decode_config decode_pending decode_approval fs log) = fg_InitialAddress g.
Proof.
  intros H.
  assert (H0 : fs_CurrentAddress fs = fg_InitialAddress g).
  { unfold ForkStateFromGenesis in H. repeat case_match; by simplify_eq. }
  clear H. revert fs H0. induction log as [|e log IH]; intros fs H0; simpl; [done|].
  apply IH. rewrite ApplyTransition_owner. done.
Qed.

(** A genesis of [0x05..] with guardian [0x06..], and a completed-looking recovery to
    [0x09..]: initiated and approved by the guardian, then claimed by the new key. *)
Definition demo_config : RecoveryConfig := mkRecoveryConfig [replicate 20 Byte.x06] 1 true 10 0 (replicate 20 Byte.x05).
Definition demo_genesis : ForkGenesis :=
  let g := mkGenesis 1 "ZEAM_FORK_GENESIS" zero32 [] (replicate 20 Byte.x05) 0 demo_config [] in
  match Toy.sign (Toy.digest (marshal (genesis_json g))) Byte.x05 with
  | Ok sig => mkGenesis 1 "ZEAM_FORK_GENESIS" zero32 [] (replicate 20 Byte.x05) 0 demo_config sig
  | Err _ => g
  end.

Definition demo_tx_bytes (tx : StateTransition) : result bytes :=
  Ok (bs (tx_Type tx) ++ tx_From tx ++ tx_Data tx ++ tx_Signature tx).
Definition demo_tx (ty : string) (k : byte) : StateTransition :=
  let tx := mkTransition 1 ty zero32 (replicate 20 k) 0 0 [] [] in
  match demo_tx_bytes tx with
  | Ok b => match Toy.sign (Toy.digest b) k with
            | Ok sig => mkTransition 1 ty zero32 (replicate 20 k) 0 0 [] sig
            | Err _ => tx end
  | Err _ => tx
  end.

Lemma fork_owner_fixed_witness :
  exists fs, ForkStateFromGenesis (C := Toy.crypto) demo_genesis 7 zero32 "chain" = Ok fs /\
    fs_CurrentAddress (apply_log (C := Toy.crypto) demo_tx_bytes (fun _ => Err "json") (fun _ => Err "json")
      (fun _ => Ok (mkPendingState (replicate 20 Byte.x09) [] 0 [] "timelock" [] 0 zero32))
      (fun _ => Ok (mkApproval [] 0 [] "")) fs
      [(demo_tx TransitionRecoveryInitiate Byte.x09, 1, 1); (demo_tx TransitionRecoveryApprove Byte.x06, 2, 2);
       (demo_tx TransitionRecoveryComplete Byte.x09, 99, 99)]) = replicate 20 Byte.x05.
Proof.
  assert (Hok : is_ok (ForkStateFromGenesis (C := Toy.crypto) demo_genesis 7 zero32 "chain") = true)
    by (vm_compute; reflexivity).
  destruct (ForkStateFromGenesis (C := Toy.crypto) demo_genesis 7 zero32 "chain") as [fs|] eqn:E; [|discriminate Hok].
  exists fs. split; [reflexivity|].
  assert (Ei : fg_InitialAddress demo_genesis = replicate 20 Byte.x05) by (vm_compute; reflexivity).
  rewrite <- Ei. apply (fork_owner_fixed (C := Toy.crypto) _ _ _ _ _ demo_genesis 7 zero32 "chain"). exact E.
Defined.
