(* ===== verification/Disclosure.v ===== *)
(** * Selective disclosure ([src/identity/disclosure.go])

    Signed statements about committed data: existence, range and set membership,
    the last with a Merkle path over the set padded to a power of two, and the
    manager that stores, verifies and revokes them. *)

From Stdlib Require Import String.
From S2P Require Import Prelude Json Signing Sha256 Rotation Delegation.

Definition ProofExistence : string := "existence".
Definition ProofRange : string := "range".
Definition ProofMembership : string := "membership".
Definition ProofEquality : string := "equality".
Definition ProofComposite : string := "composite".
Definition ProofPredicate : string := "predicate".

Record SelectiveDisclosureProof := mkDisclosure {
  sd_ID : bytes;
  sd_Type : string;
  sd_Prover : bytes;
  sd_StreamID : bytes;
  sd_Commitment : bytes;
  sd_Claim : string;
  sd_ProofData : bytes;
  sd_Created : Z;
  sd_ValidUntil : Z;
  sd_Revocable : bool;
  sd_Revoked : bool;
  sd_RevokedAt : Z;
  sd_Nonce : bytes;
  sd_Signature : bytes;
}.

#[global] Instance Disclosure_doc : SignedDoc SelectiveDisclosureProof := {|
  doc_json p := jobj [
    field "id" (jarray (sd_ID p));
    field "type" (jstring (sd_Type p));
    field "prover" (jhex (sd_Prover p));
    field "stream_id" (jarray (sd_StreamID p));
    field "commitment" (jsig (sd_Commitment p));
    field "claim" (jstring (sd_Claim p));
    field "proof_data" (jsig (sd_ProofData p));
    field "created" (JNum (sd_Created p));
    omit_int "valid_until" (sd_ValidUntil p);
    field "revocable" (JBool (sd_Revocable p));
    field "revoked" (JBool (sd_Revoked p));
    omit_int "revoked_at" (sd_RevokedAt p);
    field "nonce" (jsig (sd_Nonce p));
    field "signature" JNull];
  doc_owner := sd_Prover;
  doc_sig := sd_Signature;
  doc_set_sig s p := mkDisclosure (sd_ID p) (sd_Type p) (sd_Prover p) (sd_StreamID p) (sd_Commitment p) (sd_Claim p)
    (sd_ProofData p) (sd_Created p) (sd_ValidUntil p) (sd_Revocable p) (sd_Revoked p) (sd_RevokedAt p) (sd_Nonce p) s;
  doc_sign_error := "signer is not prover" |}.

#[global] Instance Disclosure_laws : SignedDocLaws SelectiveDisclosureProof.
Proof. by split. Qed.

Definition Disclosure_Revoke (now : Z) (p : SelectiveDisclosureProof) : SelectiveDisclosureProof :=
  mkDisclosure (sd_ID p) (sd_Type p) (sd_Prover p) (sd_StreamID p) (sd_Commitment p) (sd_Claim p)
    (sd_ProofData p) (sd_Created p) (sd_ValidUntil p) (sd_Revocable p) true now (sd_Nonce p) (sd_Signature p).

(** ** Commitments *)

Definition CreateCommitment (value blinding : bytes) : bytes := sha256 (value ++ blinding).

Definition VerifyCommitment (commitment value blinding : bytes) : bool :=
  bytes_eqb commitment (CreateCommitment value blinding).

(** ** Integers *)

Definition IntToBytes (n : Z) : bytes := be_bytes 8 (u64 n).

Definition BytesToInt (b : bytes) : Z :=
  let b := if (length b <? 8)%nat then left_pad 8 b else b in i64 (be_int (take 8 b)).

Lemma IntToBytes_roundtrip n : in_i64 n -> BytesToInt (IntToBytes n) = n.
Proof.
  intros H. unfold BytesToInt, IntToBytes.
  assert (Hl : length (be_bytes 8 (u64 n)) = 8%nat) by apply length_be_bytes.
  rewrite Hl. change (8 <? 8)%nat with false. cbv iota zeta.
  rewrite take_ge by lia. rewrite be_int_be_bytes.
  unfold in_i64, u64, i64 in *. change (256 ^ Z.of_nat 8) with (2 ^ 64). dlia.
Qed.

Section disclosure.
Context {C : Crypto}.

Definition Disclosure_GenerateID (p : SelectiveDisclosureProof) : SelectiveDisclosureProof :=
  mkDisclosure (Keccak256 (marshal (jobj [
      field "Type" (jstring (sd_Type p));
      field "Prover" (jhex (sd_Prover p));
      field "StreamID" (jarray (sd_StreamID p));
      field "Claim" (jstring (sd_Claim p));
      field "Created" (JNum (sd_Created p));
      field "Nonce" (jsig (sd_Nonce p))])))
    (sd_Type p) (sd_Prover p) (sd_StreamID p) (sd_Commitment p) (sd_Claim p)
    (sd_ProofData p) (sd_Created p) (sd_ValidUntil p) (sd_Revocable p) (sd_Revoked p) (sd_RevokedAt p) (sd_Nonce p)
    (sd_Signature p).

Definition Disclosure_IsValid (now : Z) (p : SelectiveDisclosureProof) : bool :=
  if sd_Revoked p then false
  else if (0 <? sd_ValidUntil p) && (sd_ValidUntil p <? now) then false
  else doc_Verify p.

(** The common end of the three constructors. *)
Definition issue (k : PrivateKey) (ty : string) (streamID commitment : bytes) (claim : string)
    (proofData : bytes) (now validUntil : Z) (nonce : bytes) : result SelectiveDisclosureProof :=
  match doc_Sign k (Disclosure_GenerateID (mkDisclosure zero32 ty (KeyAddress k) streamID commitment claim proofData
          now validUntil true false 0 nonce [])) with
  | (_, Err e) => Err e
  | (p, Ok _) => Ok p
  end.

Definition CreateExistenceProof (k : PrivateKey) (streamID data : bytes) (validUntil now : Z)
    : result (SelectiveDisclosureProof * bytes) :=
  let blinding := take 32 (Keccak256 (data ++ bs "blinding")) in
  let commitment := CreateCommitment data blinding in
  let nonce := take 16 (Keccak256 (data ++ dec now)) in
  let? p := issue k ProofExistence streamID commitment "data_exists" [] now validUntil nonce in
  Ok (p, copy_to 32 blinding).

Definition CreateRangeProof (k : PrivateKey) (streamID : bytes) (value min max : Z) (claim : string)
    (validUntil now : Z) : result SelectiveDisclosureProof :=
  if (value <? min) || (max <? value) then Err "value is not in range"
  else
    let valueBytes := bigint_bytes value in
    let blinding := take 32 (Keccak256 (valueBytes ++ bs "range_blinding")) in
    let valueCommitment := CreateCommitment valueBytes blinding in
    let rangeCommitment := CreateCommitment (bigint_bytes min ++ bigint_bytes max) blinding in
    let challenge := Keccak256 (valueCommitment ++ rangeCommitment) in
    let response := Keccak256 (challenge ++ blinding) in
    let proofData := marshal (jobj [
      field "min" (JNum min); field "max" (JNum max);
      field "value_commitment" (jsig valueCommitment); field "range_commitment" (jsig rangeCommitment);
      field "challenge" (jsig challenge); field "response" (jsig response)]) in
    let nonce := take 16 (Keccak256 (valueBytes ++ dec now)) in
    issue k ProofRange streamID valueCommitment claim proofData now validUntil nonce.

(** ** Merkle paths *)

(** The smallest power of two that is not below [len], by doubling. *)
Fixpoint double_to (fuel n len : nat) : nat :=
  match fuel with
  | O => n
  | S f => if (n <? len)%nat then double_to f (n * 2) len else n
  end.

(** One level: the parents, and the sibling of the tracked index. *)
Fixpoint merkle_level (i : nat) (level : list bytes) (idx : nat) : list bytes * list (bytes * bool) :=
  match level with
  | lhs :: rhs :: t =>
      let r := merkle_level (S (S i)) t idx in
      (Keccak256 (lhs ++ rhs) :: r.1,
       (if (i =? idx)%nat || (S i =? idx)%nat
        then [if (idx mod 2 =? 0)%nat then (rhs, true) else (lhs, false)] else []) ++ r.2)
  | _ => ([], [])
  end.

Fixpoint merkle_loop (fuel : nat) (level : list bytes) (idx : nat) (path : list (bytes * bool))
    : list bytes * list (bytes * bool) :=
  match fuel with
  | O => (level, path)
  | S f =>
      if (1 <? length level)%nat then
        let r := merkle_level 0 level idx in merkle_loop f r.1 (idx / 2) (path ++ r.2)
      else (level, path)
  end.

(** The root, and the path with its side bits (the source's two slices). *)
Definition computeMerkleProof (leaves : list bytes) (index : nat) : bytes * list bytes * list bool :=
  if (length leaves =? 0)%nat then ([], [], [])
  else
    let n := double_to (length leaves) 1 (length leaves) in
    let leaves := leaves ++ replicate (n - length leaves) (Keccak256 []) in
    let r := merkle_loop n leaves index [] in
    (hd [] r.1, r.2.*1, r.2.*2).

(** [pathIndices[i]] panics when there are fewer side bits than siblings. *)
Fixpoint walk (current : bytes) (path : list bytes) (sides : list bool) : outcome bytes :=
  match path, sides with
  | [], _ => Done current
  | _ :: _, [] => Panic "index out of range"
  | s :: p, b :: t => walk (if b then Keccak256 (current ++ s) else Keccak256 (s ++ current)) p t
  end.

Definition VerifyMerkleProof (leaf root : bytes) (path : list bytes) (sides : list bool) : outcome bool :=
  let! current := walk leaf path sides in Done (bytes_eqb current root).

Fixpoint find_index (element : bytes) (set : list bytes) (i : nat) : option nat :=
  match set with
  | [] => None
  | e :: t => if bytes_eqb e element then Some i else find_index element t (S i)
  end.

Definition jbyteslist (l : list bytes) : json := match l with [] => JNull | _ => JArr (map jsig l) end.
Definition jbools (l : list bool) : json := match l with [] => JNull | _ => JArr (map JBool l) end.

Definition CreateMembershipProof (k : PrivateKey) (streamID element : bytes) (set : list bytes) (claim : string)
    (validUntil now : Z) : result SelectiveDisclosureProof :=
  match find_index element set 0 with
  | None => Err "element not in set"
  | Some i =>
      let '(root, path, sides) := computeMerkleProof (map Keccak256 set) i in
      let blinding := take 32 (Keccak256 (element ++ bs "membership_blinding")) in
      let leafCommitment := CreateCommitment element blinding in
      let setCommitment := CreateCommitment root blinding in
      let proofData := marshal (jobj [
        field "set_commitment" (jsig setCommitment); field "merkle_root" (jsig root);
        field "merkle_path" (jbyteslist path); field "path_indices" (jbools sides);
        field "leaf_commitment" (jsig leafCommitment)]) in
      let nonce := take 16 (Keccak256 (element ++ dec now)) in
      issue k ProofMembership streamID leafCommitment claim proofData now validUntil nonce
  end.
End disclosure.

(** ** The manager *)

Record VerificationEntry := mkVerification {
  ve_ProofID : bytes;
  ve_Verifier : bytes;
  ve_Timestamp : Z;
  ve_Result : bool;
}.

Record ProofManager := mkProofManager {
  pm_Owner : bytes;
  Proofs : gmap bytes SelectiveDisclosureProof;
  ProofsByStream : gmap bytes (list bytes);
  ProofsByType : gmap string (list bytes);
  VerificationLog : list VerificationEntry;
}.

Definition NewProofManager (owner : bytes) : ProofManager := mkProofManager owner ∅ ∅ ∅ [].

Section manager.
Context {C : Crypto}.

Definition AddProof (pm : ProofManager) (p : SelectiveDisclosureProof) : ProofManager * result unit :=
  if negb (doc_Verify p) then (pm, Err "invalid proof signature")
  else (mkProofManager (pm_Owner pm) (<[sd_ID p := p]> (Proofs pm))
          (push (sd_StreamID p) (sd_ID p) (ProofsByStream pm))
          (<[sd_Type p := default [] (ProofsByType pm !! sd_Type p) ++ [sd_ID p]]> (ProofsByType pm))
          (VerificationLog pm), Ok tt).

Definition GetProof (pm : ProofManager) (id : bytes) : option SelectiveDisclosureProof := Proofs pm !! id.

Definition VerifyProof (pm : ProofManager) (id verifier : bytes) (now1 now2 : Z) : ProofManager * result bool :=
  match Proofs pm !! id with
  | None => (pm, Err "proof not found")
  | Some p =>
      let r := Disclosure_IsValid now1 p in
      (mkProofManager (pm_Owner pm) (Proofs pm) (ProofsByStream pm) (ProofsByType pm)
         (VerificationLog pm ++ [mkVerification id verifier now2 r]), Ok r)
  end.

Definition RevokeProof (pm : ProofManager) (id revoker : bytes) (now : Z) : ProofManager * result unit :=
  match Proofs pm !! id with
  | None => (pm, Err "proof not found")
  | Some p =>
      if negb (sd_Revocable p) then (pm, Err "proof is not revocable")
      else if negb (bytes_eqb revoker (sd_Prover p)) then (pm, Err "only prover can revoke")
      else (mkProofManager (pm_Owner pm) (<[id := Disclosure_Revoke now p]> (Proofs pm)) (ProofsByStream pm)
              (ProofsByType pm) (VerificationLog pm), Ok tt)
  end.

Definition GetProofsForStream (pm : ProofManager) (streamID : bytes) (now : Z) : list SelectiveDisclosureProof :=
  flat_map (fun id => match Proofs pm !! id with
                      | Some p => if Disclosure_IsValid now p then [p] else []
                      | None => []
                      end) (default [] (ProofsByStream pm !! streamID)).
End manager.

(** The key type makes [json.Marshal] fail. *)
Definition ExportProofs (pm : ProofManager) : result bytes := json_Marshal JUnsupported.

(** ** Merkle paths verify *)

Section merkle_paths.
Context {C : Crypto} {L : CryptoLaws C}.

Lemma double_to_spec fuel k len :
  (len <= 2 ^ (k + fuel))%nat ->
  exists j, double_to fuel (2 ^ k) len = (2 ^ j)%nat /\ (len <= 2 ^ j)%nat.
Proof.
  revert k. induction fuel as [|f IH]; intros k H; simpl.
  - exists k. by rewrite Nat.add_0_r in H.
  - destruct (Nat.ltb_spec (2 ^ k) len); [|by exists k].
    replace (2 ^ k * 2)%nat with (2 ^ S k)%nat by (simpl; lia). apply IH.
    by rewrite Nat.add_succ_comm.
Qed.

Lemma merkle_level_past i level idx : (idx < i)%nat -> (merkle_level i level idx).2 = [].
Proof.
  revert i. induction level as [level IH] using (induction_ltof1 _ (@length bytes)); unfold ltof in IH.
  intros i Hi. destruct level as [|x [|y l]]; try done. cbn [merkle_level snd].
  rewrite (proj2 (Nat.eqb_neq i idx)), (proj2 (Nat.eqb_neq (S i) idx)) by lia. simpl.
  apply IH; simpl; lia.
Qed.

Definition combine (h : bytes) (s : bytes * bool) : bytes :=
  if s.2 then Keccak256 (h ++ s.1) else Keccak256 (s.1 ++ h).

(** A level of even length halves, and the tracked node's parent is the node
    combined with its sibling. *)
Lemma merkle_level_spec m n level k x :
  length level = (2 * m)%nat -> level !! k = Some x ->
  let r := merkle_level (2 * n) level (2 * n + k) in
  length r.1 = m /\ exists s, r.2 = [s] /\ r.1 !! (k / 2)%nat = Some (combine x s).
Proof.
  revert m n k. induction level as [level IH] using (induction_ltof1 _ (@length bytes)); unfold ltof in IH.
  intros m n k Hl Hk. destruct level as [|a [|b l]].
  - by rewrite lookup_nil in Hk.
  - simpl in Hl. lia.
  - destruct m as [|m]; [simpl in Hl; lia|]. cbn [merkle_level fst snd].
    assert (Hlen : forall i idx, length (merkle_level i l idx).1 = m).
    { assert (Hl2 : length l = (2 * m)%nat) by (simpl in Hl; lia). clear - Hl2. revert m Hl2.
      induction l as [l IH] using (induction_ltof1 _ (@length bytes)); unfold ltof in IH.
      intros m Hl i idx. destruct l as [|x [|y l]]; simpl in *; [lia|lia|].
      destruct m as [|m]; [lia|]. rewrite (IH l ltac:(lia) m) by lia. done. }
    destruct k as [|[|k]].
    + injection Hk as ->. rewrite Nat.add_0_r, Nat.eqb_refl. cbn [orb].
      replace ((2 * n) mod 2)%nat with 0%nat by dlia. simpl (0 =? 0)%nat. cbv iota.
      rewrite merkle_level_past by lia. simpl. rewrite Hlen. split; [done|]. by eexists.
    + injection Hk as ->. rewrite (proj2 (Nat.eqb_neq (2 * n) (2 * n + 1))) by lia.
      replace (S (2 * n)) with (2 * n + 1)%nat by lia. rewrite Nat.eqb_refl. cbn [orb].
      replace ((2 * n + 1) mod 2)%nat with 1%nat by dlia. simpl (1 =? 0)%nat. cbv iota.
      rewrite merkle_level_past by lia. simpl. rewrite Hlen. split; [done|]. by eexists.
    + rewrite (proj2 (Nat.eqb_neq (2 * n) _)), (proj2 (Nat.eqb_neq (S (2 * n)) _)) by lia. cbn [orb app length].
      replace (S (S (2 * n))) with (2 * S n)%nat by lia.
      replace (2 * n + S (S k))%nat with (2 * S n + k)%nat by lia.
      destruct (IH l ltac:(simpl; lia) m (S n) k) as (H1 & s & H2 & H3); [simpl in Hl; lia|done|].
      rewrite H1. split; [done|]. exists s. split; [done|].
      replace (S (S k) / 2)%nat with (S (k / 2)) by dlia. done.
Qed.

Lemma walk_app h l1 l2 :
  walk h (l1 ++ l2).*1 (l1 ++ l2).*2 = walk (fold_left combine l1 h) l2.*1 l2.*2.
Proof.
  revert h. induction l1 as [|[s b] l1 IH]; intros h; simpl; [done|]. rewrite IH. done.
Qed.

Lemma merkle_loop_spec j fuel level idx x path :
  length level = (2 ^ j)%nat -> (j <= fuel)%nat -> level !! idx = Some x ->
  exists root p, merkle_loop fuel level idx path = ([root], path ++ p) /\ fold_left combine p x = root.
Proof.
  revert fuel level idx x path. induction j as [|j IH]; intros fuel level idx x path Hl Hf Hx.
  - destruct level as [|r [|? ?]]; simpl in Hl; try lia.
    assert (x = r) as -> by (destruct idx; [by injection Hx|done]).
    exists r, []. rewrite app_nil_r. by destruct fuel.
  - destruct fuel as [|f]; [lia|]. cbn [merkle_loop].
    assert (Hlt : (1 <? length level)%nat = true).
    { apply Nat.ltb_lt. rewrite Hl. simpl. pose proof (Nat.pow_nonzero 2 j). lia. }
    rewrite Hlt.
    destruct (merkle_level_spec (2 ^ j) 0 level idx x) as (H1 & s & H2 & H3); [simpl in *; lia|done|].
    simpl (2 * 0)%nat in *. simpl (0 + idx)%nat in *. rewrite H2.
    destruct (IH f (merkle_level 0 level idx).1 (idx / 2)%nat (combine x s) (path ++ [s])) as (root & p & E & Er);
      [done|lia|done|].
    exists root, (s :: p). rewrite E, <- app_assoc. done.
Qed.
End merkle_paths.

(** membership paths verify.  For every set of leaves and every index in it,
    the path and side bits of [computeMerkleProof] lead [VerifyMerkleProof] from that
    leaf to the computed root. *)
Theorem membership_path_verifies {C : Crypto} leaves i leaf :
  leaves !! i = Some leaf ->
  let '(root, path, sides) := computeMerkleProof leaves i in
  VerifyMerkleProof leaf root path sides = Done true.
Proof.
  intros Hi. unfold computeMerkleProof.
  assert (Hpos : (0 < length leaves)%nat) by (apply lookup_lt_Some in Hi; lia).
  rewrite (proj2 (Nat.eqb_neq _ _)) by lia.
  destruct (double_to_spec (length leaves) 0 (length leaves)) as (j & E & Hj).
  { pose proof (Nat.pow_gt_lin_r 2 (length leaves)). simpl. lia. }
  change (2 ^ 0)%nat with 1%nat in E. rewrite E.
  destruct (merkle_loop_spec j (2 ^ j) (leaves ++ replicate (2 ^ j - length leaves) (Keccak256 [])) i leaf [])
    as (root & p & Em & Er).
  - rewrite length_app, length_replicate. lia.
  - pose proof (Nat.pow_gt_lin_r 2 j). lia.
  - by apply lookup_app_l_Some.
  - rewrite Em. simpl. unfold VerifyMerkleProof.
    pose proof (walk_app leaf p []) as W. rewrite app_nil_r in W. rewrite W, Er. simpl. by rewrite bytes_eqb_refl.
Qed.

Lemma membership_path_verifies_witness :
  let leaves := [zero32; replicate 32 Byte.x01; replicate 32 Byte.x02] in
  let r := computeMerkleProof (C := Toy.crypto) leaves 2 in
  VerifyMerkleProof (C := Toy.crypto) (replicate 32 Byte.x02) r.1.1 r.1.2 r.2 = Done true.
Proof.
  exact (membership_path_verifies (C := Toy.crypto) [zero32; replicate 32 Byte.x01; replicate 32 Byte.x02] 2
           (replicate 32 Byte.x02) eq_refl).
Defined.
