(* ===== verification/Heap.v ===== *)
(** * Binary heaps ([container/heap])

    The opportunity queue keeps its items in a slice ordered by Go's
    [container/heap].  The package works through the interface [heap.Interface]
    ([Len], [Less], [Swap]); its functions are written here over the class
    [HeapInterface], and verified once against [HeapLaws]: a state stands for a list
    of elements, [Less] compares elements by a strict weak order and [Swap] exchanges
    two of them.  Every function permutes the elements and restores the heap order;
    any property that [Swap] keeps is kept by all of them. *)

From S2P Require Import Prelude.

Class HeapInterface (H : Type) := {
  heap_Len : H -> nat;
  heap_Less : H -> nat -> nat -> bool;
  heap_Swap : nat -> nat -> H -> H;
}.

Section functions.
Context {H : Type} `{HeapInterface H}.

(** [up]: the loop moves the item at [j] towards the root; [(j - 1) / 2] is the
    parent ([0] for the root, which ends the loop). *)
Fixpoint heap_up (fuel : nat) (h : H) (j : nat) : H :=
  match fuel with
  | O => h
  | S f =>
      let i := ((j - 1) / 2)%nat in
      if (i =? j)%nat || negb (heap_Less h j i) then h
      else heap_up f (heap_Swap i j h) i
  end.

(** [down]: the loop moves the item at [i] towards the leaves of the first [n]
    items; the boolean is [i > i0] at the end. *)
Fixpoint heap_down (fuel : nat) (h : H) (i n : nat) : H * nat :=
  match fuel with
  | O => (h, i)
  | S f =>
      let j1 := (2 * i + 1)%nat in
      if (n <=? j1)%nat then (h, i)
      else
        let j2 := (j1 + 1)%nat in
        let j := if (j2 <? n)%nat && heap_Less h j2 j1 then j2 else j1 in
        if negb (heap_Less h j i) then (h, i)
        else heap_down f (heap_Swap i j h) j n
  end.

Definition heap_sift (h : H) (i n : nat) : H :=
  let r := heap_down n h i n in
  if (i <? r.2)%nat then r.1 else heap_up (S i) r.1 i.

(** [heap.Push] after [h.Push(x)], [heap.Pop] and [heap.Remove] before the final
    [h.Pop()], and [heap.Fix]. *)
Definition heap_Pushed (h : H) : H := heap_up (heap_Len h) h (heap_Len h - 1).

Definition heap_Popping (h : H) : H :=
  let n := (heap_Len h - 1)%nat in (heap_down n (heap_Swap 0 n h) 0 n).1.

Definition heap_Removing (h : H) (i : nat) : H :=
  let n := (heap_Len h - 1)%nat in
  if (n =? i)%nat then h else heap_sift (heap_Swap i n h) i n.

Definition heap_Fix (h : H) (i : nat) : H := heap_sift h i (heap_Len h).
End functions.

(** ** The laws of the interface *)

Class HeapLaws (H A : Type) `{HeapInterface H} := {
  elems : H -> list A;
  lt : A -> A -> bool;
  lt_asym a b : lt a b = true -> lt b a = false;
  (** "not less" is transitive *)
  lt_negtrans a b c : lt a b = false -> lt b c = false -> lt a c = false;
  Len_elems h : heap_Len h = length (elems h);
  Less_elems h i j a b : elems h !! i = Some a -> elems h !! j = Some b -> heap_Less h i j = lt a b;
  Swap_elems h i j a b : elems h !! i = Some a -> elems h !! j = Some b -> i <> j ->
    elems (heap_Swap i j h) = <[i := b]> (<[j := a]> (elems h));
}.

Definition par (c : nat) : nat := ((c - 1) / 2)%nat.

Lemma par_lt c : (0 < c)%nat -> (par c < c)%nat.
Proof. unfold par. intros. apply Nat.Div0.div_lt_upper_bound; lia. Qed.

Lemma par_inv c i : (0 < c)%nat -> par c = i -> (c = 2 * i + 1 \/ c = 2 * i + 2)%nat.
Proof. unfold par. intros ? <-. dlia. Qed.

Lemma par_left i : par (2 * i + 1) = i.
Proof. unfold par. dlia. Qed.

Lemma par_right i : par (2 * i + 1 + 1) = i.
Proof. unfold par. dlia. Qed.

Section theory.
Context {H A : Type} `{L : HeapLaws H A}.

(** The pair of positions [p], [c] is in order. *)
Definition ok (l : list A) (p c : nat) : Prop :=
  forall a b, l !! p = Some a -> l !! c = Some b -> lt b a = false.

(** The first [n] positions form a heap; the first item is then least. *)
Definition heap_ordered (l : list A) (n : nat) : Prop :=
  forall c, (0 < c < n)%nat -> ok l (par c) c.

(** Everything is in order except the item at [j] with its parent. *)
Definition up_inv (l : list A) (n j : nat) : Prop :=
  (forall c, (0 < c < n)%nat -> c <> j -> ok l (par c) c) /\
  (forall c, (0 < c < n)%nat -> par c = j -> (0 < j)%nat -> ok l (par j) c).

(** Everything is in order except the item at [i] with its parent and children. *)
Definition down_inv (l : list A) (n i : nat) : Prop :=
  (forall c, (0 < c < n)%nat -> c <> i -> par c <> i -> ok l (par c) c) /\
  (forall c, (0 < c < n)%nat -> par c = i -> (0 < i)%nat -> ok l (par i) c).

Lemma ok_irrel l l' p c : l !! p = l' !! p -> l !! c = l' !! c -> ok l p c -> ok l' p c.
Proof. unfold ok. intros -> ->. done. Qed.

Lemma lookup_lt_elem (l : list A) i : (i < length l)%nat -> exists a, l !! i = Some a.
Proof. apply lookup_lt_is_Some_2. Qed.

(** *** Swapping *)

Definition swapped (l : list A) (i j : nat) (a b : A) : list A := <[i := b]> (<[j := a]> l).

Section swapped.
Context (l : list A) (i j : nat) (a b : A).
Hypothesis (Hi : l !! i = Some a) (Hj : l !! j = Some b) (Hij : i <> j).

Lemma length_swapped : length (swapped l i j a b) = length l.
Proof. unfold swapped. by rewrite !length_insert. Qed.

Lemma swapped_l : swapped l i j a b !! i = Some b.
Proof.
  unfold swapped. rewrite list_lookup_insert_eq; [done|]. rewrite length_insert.
  by apply lookup_lt_is_Some_1.
Qed.

Lemma swapped_r : swapped l i j a b !! j = Some a.
Proof.
  unfold swapped. rewrite list_lookup_insert_ne by done. apply list_lookup_insert_eq.
  by apply lookup_lt_is_Some_1.
Qed.

Lemma swapped_ne k : k <> i -> k <> j -> swapped l i j a b !! k = l !! k.
Proof. intros. unfold swapped. by rewrite !list_lookup_insert_ne. Qed.

Lemma swapped_perm : swapped l i j a b ≡ₚ l.
Proof.
  apply Permutation_inj. split; [apply length_swapped|].
  exists (fun k => if decide (k = i) then j else if decide (k = j) then i else k). split.
  - intros x y. repeat case_decide; congruence.
  - intros k. case_decide as E; [subst; by rewrite swapped_l|].
    case_decide as E'; [subst; by rewrite swapped_r|]. by apply swapped_ne.
Qed.
End swapped.

(** *** Properties that [Swap] keeps *)

Section invariant.
Context (P : H -> Prop).
Hypothesis HP : forall h i j, (i < heap_Len h)%nat -> (j < heap_Len h)%nat -> i <> j ->
  P h -> P (heap_Swap i j h) /\ heap_Len (heap_Swap i j h) = heap_Len h.

Lemma up_keeps fuel h j : (j < heap_Len h)%nat -> P h -> P (heap_up fuel h j) /\ heap_Len (heap_up fuel h j) = heap_Len h.
Proof.
  revert h j. induction fuel as [|f IH]; intros h j Hj Hh; cbn [heap_up]; [done|].
  fold (par j). destruct (Nat.eqb_spec (par j) j) as [|Hne]; [done|]. cbn [orb].
  destruct (heap_Less h j (par j)); cbn [negb]; [|done].
  assert (Hp : (par j < j)%nat) by (apply par_lt; destruct j; [done|lia]).
  destruct (HP h (par j) j) as [Hs Hl]; [lia|done|done|done|].
  destruct (IH (heap_Swap (par j) j h) (par j)) as [? E]; [lia|done|]. split; [done|congruence].
Qed.

Lemma down_keeps fuel h i n : (n <= heap_Len h)%nat -> P h ->
  P (heap_down fuel h i n).1 /\ heap_Len (heap_down fuel h i n).1 = heap_Len h.
Proof.
  revert h i. induction fuel as [|f IH]; intros h i Hn Hh; cbn [heap_down]; [done|].
  destruct (Nat.leb_spec n (2 * i + 1)); [done|].
  set (j := if _ && _ then _ else _).
  assert (Hj : (i < j < n)%nat).
  { subst j. destruct (Nat.ltb_spec (2 * i + 1 + 1) n); cbn [andb]; [case_match; lia|lia]. }
  destruct (heap_Less h j i); cbn [negb]; [|done].
  destruct (HP h i j) as [Hs Hl]; [lia|lia|lia|done|].
  destruct (IH (heap_Swap i j h) j) as [? E]; [lia|done|]. split; [done|congruence].
Qed.

Lemma sift_keeps h i n : (i < n)%nat -> (n <= heap_Len h)%nat -> P h ->
  P (heap_sift h i n) /\ heap_Len (heap_sift h i n) = heap_Len h.
Proof.
  intros Hi Hn Hh. unfold heap_sift. destruct (down_keeps n h i n Hn Hh) as [Hd El].
  case_match; [done|]. destruct (up_keeps (S i) (heap_down n h i n).1 i) as [? E]; [lia|done|].
  split; [done|congruence].
Qed.

Lemma pushed_keeps h : (0 < heap_Len h)%nat -> P h -> P (heap_Pushed h) /\ heap_Len (heap_Pushed h) = heap_Len h.
Proof. intros. apply up_keeps; [lia|done]. Qed.

Lemma fix_keeps h i : (i < heap_Len h)%nat -> P h -> P (heap_Fix h i) /\ heap_Len (heap_Fix h i) = heap_Len h.
Proof. intros. by apply sift_keeps. Qed.

Lemma removing_keeps h i : (i < heap_Len h)%nat -> P h ->
  P (heap_Removing h i) /\ heap_Len (heap_Removing h i) = heap_Len h.
Proof.
  intros Hi Hh. unfold heap_Removing. destruct (Nat.eqb_spec (heap_Len h - 1) i); [done|].
  destruct (HP h i (heap_Len h - 1)) as [Hs El]; [lia..|done|].
  destruct (sift_keeps (heap_Swap i (heap_Len h - 1) h) i (heap_Len h - 1)) as [? E]; [lia|lia|done|].
  split; [done|congruence].
Qed.

Lemma popping_keeps h : (1 < heap_Len h)%nat -> P h ->
  P (heap_Popping h) /\ heap_Len (heap_Popping h) = heap_Len h.
Proof.
  intros Hi Hh. unfold heap_Popping.
  destruct (HP h 0 (heap_Len h - 1)) as [Hs El]; [lia..|done|].
  destruct (down_keeps (heap_Len h - 1) (heap_Swap 0 (heap_Len h - 1) h) 0 (heap_Len h - 1)) as [? E]; [lia|done|].
  split; [done|congruence].
Qed.
End invariant.

(** *** The heap order *)

Lemma Swap_swapped h i j a b : elems h !! i = Some a -> elems h !! j = Some b -> i <> j ->
  elems (heap_Swap i j h) = swapped (elems h) i j a b.
Proof. apply Swap_elems. Qed.

(** [l'] rearranges the first [n] items of [l]. *)
Definition within (n : nat) (l l' : list A) : Prop :=
  l' ≡ₚ l /\ forall k, (n <= k)%nat -> l' !! k = l !! k.

Lemma within_refl n l : within n l l.
Proof. split; done. Qed.

Lemma within_swapped n l i j a b l' :
  l !! i = Some a -> l !! j = Some b -> i <> j -> (i < n)%nat -> (j < n)%nat ->
  within n (swapped l i j a b) l' -> within n l l'.
Proof.
  intros Hi Hj Hij ?? [Hp Hk]. split; [rewrite Hp; by apply swapped_perm|].
  intros k ?. rewrite Hk by done. apply swapped_ne; lia.
Qed.

Lemma within_length n l l' : within n l l' -> length l' = length l.
Proof. intros [Hp _]. by apply Permutation_length. Qed.

Lemma up_step l n j a b : (0 < j < n)%nat -> up_inv l n j ->
  l !! par j = Some a -> l !! j = Some b -> lt b a = true ->
  up_inv (swapped l (par j) j a b) n (par j).
Proof.
  intros [Hj0 Hjn] [I1 I2] Ha Hb Hlt. pose proof (par_lt j Hj0) as Hpj.
  pose proof (lt_asym _ _ Hlt) as Hge. assert (Hne : par j <> j) by lia.
  pose proof (swapped_l l (par j) j a b Ha) as Sl.
  pose proof (swapped_r l (par j) j a b Hb Hne) as Sr.
  pose proof (swapped_ne l (par j) j a b) as Sn.
  split.
  - intros c Hc Hcp. pose proof (par_lt c ltac:(lia)) as Hpc. intros x y Hx Hy.
    destruct (decide (c = j)) as [->|Hcj]; [congruence|].
    rewrite Sn in Hy by done.
    destruct (decide (par c = par j)) as [E|Hn1].
    + rewrite E in Hx. assert (x = b) as -> by congruence.
      apply lt_negtrans with a; [|done]. apply (I1 c Hc Hcj); [by rewrite E|done].
    + destruct (decide (par c = j)) as [E|Hn2].
      * rewrite E in Hx. assert (x = a) as -> by congruence. by apply (I2 c Hc E Hj0).
      * rewrite Sn in Hx by done. by apply (I1 c Hc Hcj).
  - intros c Hc Hcp Hp0. pose proof (par_lt c ltac:(lia)). pose proof (par_lt (par j) Hp0).
    intros x y Hx Hy. rewrite Sn in Hx by lia.
    pose proof (I1 (par j) ltac:(lia) Hne x a Hx Ha) as Hxa.
    destruct (decide (c = j)) as [->|Hcj]; [congruence|].
    rewrite Sn in Hy by lia. apply lt_negtrans with a; [|done].
    apply (I1 c Hc Hcj); [by rewrite Hcp|done].
Qed.

Lemma up_spec fuel h j n : (j < n)%nat -> (n <= length (elems h))%nat -> (j < fuel)%nat ->
  up_inv (elems h) n j ->
  heap_ordered (elems (heap_up fuel h j)) n /\ within n (elems h) (elems (heap_up fuel h j)).
Proof.
  revert h j. induction fuel as [|f IH]; intros h j Hj Hn Hf Hinv; [lia|].
  cbn [heap_up]. fold (par j). destruct (Nat.eqb_spec (par j) j) as [E|Hne]; cbn [orb].
  { split; [|apply within_refl]. intros c Hc. apply Hinv; [done|]. intros ->.
    pose proof (par_lt j ltac:(lia)). lia. }
  assert (Hp : (par j < j)%nat) by (apply par_lt; destruct j; [done|lia]).
  destruct (lookup_lt_elem (elems h) j) as [b Hb]; [lia|].
  destruct (lookup_lt_elem (elems h) (par j)) as [a Ha]; [lia|].
  rewrite (Less_elems h j (par j) b a Hb Ha). destruct (lt b a) eqn:Hlt; cbn [negb].
  - pose proof (Swap_swapped h (par j) j a b Ha Hb Hne) as Es.
    destruct (IH (heap_Swap (par j) j h) (par j)) as [Ho Hw]; [lia| |lia| |].
    + rewrite Es, length_swapped. done.
    + rewrite Es. apply up_step; [lia|done..].
    + split; [done|]. rewrite Es in Hw. eapply (within_swapped _ _ (par j) j); [done..| | |done]; lia.
  - split; [|apply within_refl]. intros c Hc. destruct (decide (c = j)) as [->|]; [|by apply Hinv].
    intros x y Hx Hy. congruence.
Qed.

(** The child that [down] compares with: no child of [i] precedes it. *)
Definition least_child (l : list A) (n i j : nat) (b : A) : Prop :=
  (i < j < n)%nat /\ par j = i /\ l !! j = Some b /\
  forall c y, (0 < c < n)%nat -> par c = i -> l !! c = Some y -> lt y b = false.

Lemma lt_irrefl a : lt a a = false.
Proof. destruct (lt a a) eqn:E; [|done]. pose proof (lt_asym _ _ E). congruence. Qed.

Lemma choose_child h i n : (n <= length (elems h))%nat -> (2 * i + 1 < n)%nat ->
  exists b, least_child (elems h) n i
    (if (2 * i + 1 + 1 <? n)%nat && heap_Less h (2 * i + 1 + 1) (2 * i + 1) then 2 * i + 1 + 1 else 2 * i + 1)%nat b.
Proof.
  intros Hn Hi. destruct (lookup_lt_elem (elems h) (2 * i + 1)) as [b1 Hb1]; [lia|].
  destruct (Nat.ltb_spec (2 * i + 1 + 1) n) as [H2|H2]; cbn [andb].
  - destruct (lookup_lt_elem (elems h) (2 * i + 1 + 1)) as [b2 Hb2]; [lia|].
    rewrite (Less_elems _ _ _ _ _ Hb2 Hb1). destruct (lt b2 b1) eqn:Hlt; [exists b2|exists b1].
    all: split; [lia|]; split; [apply par_right || apply par_left|]; split; [done|].
    all: intros c y Hc [->|E]%par_inv Hy; [| |lia]; [|replace (2 * i + 2)%nat with (2 * i + 1 + 1)%nat in E by lia; subst c].
    all: simplify_eq; eauto using lt_irrefl, lt_asym.
  - exists b1. split; [lia|]. split; [apply par_left|]. split; [done|].
    intros c y Hc [->|E]%par_inv Hy; [|lia|lia]. simplify_eq. apply lt_irrefl.
Qed.

Lemma down_step l n i j a b : least_child l n i j b -> down_inv l n i ->
  l !! i = Some a -> lt b a = true ->
  down_inv (swapped l i j a b) n j /\ ok (swapped l i j a b) (par j) j.
Proof.
  intros (Hij & Hpj & Hb & Hmin) [I1 I2] Ha Hlt. assert (Hne : i <> j) by lia.
  pose proof (lt_asym _ _ Hlt) as Hge.
  pose proof (swapped_l l i j a b Ha) as Sl.
  pose proof (swapped_r l i j a b Hb Hne) as Sr.
  pose proof (swapped_ne l i j a b) as Sn.
  split; [split|].
  - intros c Hc Hcj Hpcj. pose proof (par_lt c ltac:(lia)) as Hpc. intros x y Hx Hy.
    destruct (decide (c = i)) as [->|Hci].
    + rewrite Sn in Hx by lia. assert (y = b) as -> by congruence.
      by apply (I2 j ltac:(lia) Hpj ltac:(lia)).
    + rewrite Sn in Hy by done. destruct (decide (par c = i)) as [E|Hn].
      * rewrite E in Hx. assert (x = b) as -> by congruence. eauto.
      * rewrite Sn in Hx by done. by apply (I1 c Hc Hci Hn).
  - intros c Hc Hpc _. pose proof (par_lt c ltac:(lia)). rewrite Hpj. intros x y Hx Hy.
    assert (x = b) as -> by congruence. rewrite Sn in Hy by lia.
    apply (I1 c Hc ltac:(lia) ltac:(lia)); [by rewrite Hpc|done].
  - rewrite Hpj. intros x y Hx Hy. congruence.
Qed.

Lemma down_exit l n i j a b : least_child l n i j b -> down_inv l n i ->
  l !! i = Some a -> lt b a = false -> up_inv l n i.
Proof.
  intros (_ & _ & _ & Hmin) [I1 I2] Ha Hlt. split; [|done]. intros c Hc Hci.
  destruct (decide (par c = i)) as [E|]; [|by apply I1]. rewrite E. intros x y Hx Hy.
  assert (x = a) as -> by congruence. eauto using lt_negtrans.
Qed.

Lemma down_leaf l n i : (n <= 2 * i + 1)%nat -> down_inv l n i -> up_inv l n i.
Proof.
  intros Hn [I1 I2]. split; [|done]. intros c Hc Hci. apply I1; [done..|].
  intros E%par_inv; lia.
Qed.

Lemma up_inv_ordered l n i : up_inv l n i -> ((0 < i)%nat -> ok l (par i) i) -> heap_ordered l n.
Proof. intros [I1 _] Hi c Hc. destruct (decide (c = i)) as [->|]; [apply Hi; lia|by apply I1]. Qed.

(** When only the children of [i] can be out of order, [down] leaves a heap. *)
Lemma down_ordered fuel h i n : (n <= length (elems h))%nat -> (n <= i + fuel)%nat ->
  down_inv (elems h) n i -> ((0 < i)%nat -> ok (elems h) (par i) i) ->
  heap_ordered (elems (heap_down fuel h i n).1) n /\ within n (elems h) (elems (heap_down fuel h i n).1) /\
  (i <= (heap_down fuel h i n).2)%nat.
Proof.
  revert h i. induction fuel as [|f IH]; intros h i Hn Hf Hinv Hok; cbn [heap_down].
  { split; [|split; [apply within_refl|done]]. eapply up_inv_ordered; [|done]. apply down_leaf; [lia|done]. }
  destruct (Nat.leb_spec n (2 * i + 1)) as [Hl|Hl].
  { split; [|split; [apply within_refl|done]]. eapply up_inv_ordered; [|done]. by apply down_leaf. }
  destruct (choose_child h i n Hn Hl) as [b Hb].
  set (j := if _ && _ then _ else _) in *.
  destruct (lookup_lt_elem (elems h) i) as [a Ha]; [lia|].
  assert (Hbj : elems h !! j = Some b) by apply Hb. assert (Hij : (i < j < n)%nat) by apply Hb.
  rewrite (Less_elems h j i b a Hbj Ha). destruct (lt b a) eqn:Hlt; cbn [negb].
  - pose proof (Swap_swapped h i j a b Ha Hbj ltac:(lia)) as Es.
    destruct (down_step _ _ _ _ _ _ Hb Hinv Ha Hlt) as [Hd Ho]. rewrite <- Es in Hd, Ho.
    destruct (IH (heap_Swap i j h) j) as (? & Hw & ?); [|lia|done|done|].
    + rewrite Es, length_swapped. done.
    + split; [done|]. split; [|lia]. rewrite Es in Hw.
      eapply (within_swapped _ _ i j); [done..| | | |done]; lia.
  - split; [|split; [apply within_refl|done]]. eapply up_inv_ordered; [|done]. by eapply down_exit.
Qed.

(** In general the item at [i] has moved and left a heap, or has not and can only be
    out of order with its parent. *)
Lemma down_spec h i n : (n <= length (elems h))%nat -> (i < n)%nat -> down_inv (elems h) n i ->
  within n (elems h) (elems (heap_down n h i n).1) /\
  ((i < (heap_down n h i n).2)%nat /\ heap_ordered (elems (heap_down n h i n).1) n \/
   heap_down n h i n = (h, i) /\ up_inv (elems h) n i).
Proof.
  intros Hn Hi Hinv. destruct n as [|f]; [lia|]. cbn [heap_down].
  destruct (Nat.leb_spec (S f) (2 * i + 1)) as [Hl|Hl].
  { split; [apply within_refl|right]. split; [done|]. by apply down_leaf. }
  destruct (choose_child h i (S f) Hn Hl) as [b Hb].
  set (j := if _ && _ then _ else _) in *.
  destruct (lookup_lt_elem (elems h) i) as [a Ha]; [lia|].
  assert (Hbj : elems h !! j = Some b) by apply Hb. assert (Hij : (i < j < S f)%nat) by apply Hb.
  rewrite (Less_elems h j i b a Hbj Ha). destruct (lt b a) eqn:Hlt; cbn [negb].
  - pose proof (Swap_swapped h i j a b Ha Hbj ltac:(lia)) as Es.
    destruct (down_step _ _ _ _ _ _ Hb Hinv Ha Hlt) as [Hd Ho]. rewrite <- Es in Hd, Ho.
    destruct (down_ordered f (heap_Swap i j h) j (S f)) as (? & Hw & ?); [|lia|done|done|].
    + rewrite Es, length_swapped. done.
    + split; [|left; split; [lia|done]]. rewrite Es in Hw.
      eapply (within_swapped _ _ i j); [done..| | | |done]; lia.
  - split; [apply within_refl|right]. split; [done|]. by eapply down_exit.
Qed.

Lemma sift_spec h i n : (n <= length (elems h))%nat -> (i < n)%nat -> down_inv (elems h) n i ->
  heap_ordered (elems (heap_sift h i n)) n /\ within n (elems h) (elems (heap_sift h i n)).
Proof.
  intros Hn Hi Hinv. unfold heap_sift.
  destruct (down_spec h i n Hn Hi Hinv) as [Hw [[Hm Ho]|[-> Hu]]].
  - rewrite (proj2 (Nat.ltb_lt _ _) Hm). done.
  - cbn [fst snd]. rewrite Nat.ltb_irrefl. apply up_spec; [done..|lia|done].
Qed.

Lemma heap_ordered_le l n m : (m <= n)%nat -> heap_ordered l n -> heap_ordered l m.
Proof. intros ? Ho c ?. apply Ho. lia. Qed.

(** Replacing the item at [i] of a heap leaves only that item out of order. *)
Lemma replace_down_inv l l' n i : heap_ordered l n ->
  (forall k, (k < n)%nat -> k <> i -> l' !! k = l !! k) -> (i < n)%nat -> (i < length l)%nat -> down_inv l' n i.
Proof.
  intros Ho Hk Hi Hlen. split.
  - intros c Hc Hci Hpc. pose proof (par_lt c ltac:(lia)).
    eapply ok_irrel; [symmetry; apply Hk; lia|symmetry; apply Hk; lia|by apply Ho].
  - intros c Hc Hpc Hi0. pose proof (par_lt c ltac:(lia)). pose proof (par_lt i Hi0).
    eapply ok_irrel; [symmetry; apply Hk; lia|symmetry; apply Hk; lia|].
    destruct (lookup_lt_elem l i) as [z Hz]; [done|].
    intros x y Hx Hy. apply lt_negtrans with z.
    + apply (Ho c Hc); [by rewrite Hpc|done].
    + by apply (Ho i ltac:(lia)).
Qed.

Lemma Fix_spec h i : (i < length (elems h))%nat -> down_inv (elems h) (length (elems h)) i ->
  heap_ordered (elems (heap_Fix h i)) (length (elems h)) /\ elems (heap_Fix h i) ≡ₚ elems h.
Proof.
  intros Hi Hd. unfold heap_Fix. rewrite Len_elems.
  destruct (sift_spec h i _ (le_n _) Hi Hd) as [? [? _]]. done.
Qed.

Lemma Pushed_spec h : (0 < length (elems h))%nat -> heap_ordered (elems h) (length (elems h) - 1) ->
  heap_ordered (elems (heap_Pushed h)) (length (elems h)) /\ elems (heap_Pushed h) ≡ₚ elems h.
Proof.
  intros Hl Ho. unfold heap_Pushed. rewrite Len_elems.
  destruct (up_spec (length (elems h)) h (length (elems h) - 1) (length (elems h))) as [? [? _]]; [lia..| |done].
  split.
  - intros c Hc Hne. apply Ho. lia.
  - intros c Hc Hpc. pose proof (par_lt c ltac:(lia)). lia.
Qed.

(** After [Removing], the removed item is last and the others form a heap. *)
Lemma Removing_spec h i x : heap_ordered (elems h) (length (elems h)) -> elems h !! i = Some x ->
  let h' := heap_Removing h i in
  elems h' ≡ₚ elems h /\ heap_ordered (elems h') (length (elems h) - 1) /\
  elems h' !! (length (elems h) - 1)%nat = Some x.
Proof.
  intros Ho Hx. assert (Hi : (i < length (elems h))%nat) by (by eapply lookup_lt_Some).
  unfold heap_Removing. rewrite Len_elems. set (n := (length (elems h) - 1)%nat).
  destruct (Nat.eqb_spec n i) as [->|Hne].
  { split; [done|]. split; [|done]. by apply heap_ordered_le with (length (elems h)); [lia|]. }
  destruct (lookup_lt_elem (elems h) n) as [z Hz]; [lia|].
  pose proof (Swap_swapped h i n x z Hx Hz ltac:(lia)) as Es.
  destruct (sift_spec (heap_Swap i n h) i n) as [Ho' [Hp Hk]].
  - rewrite Es, length_swapped. lia.
  - lia.
  - rewrite Es. eapply (replace_down_inv (elems h)).
    + eapply heap_ordered_le; [|done]. lia.
    + intros k Hkn Hki. apply swapped_ne; lia.
    + lia.
    + done.
  - split; [rewrite Hp, Es; by apply swapped_perm; [..|lia]|]. split; [done|].
    rewrite Hk by done. rewrite Es. apply swapped_r; [done|lia].
Qed.

Lemma Popping_spec h x : heap_ordered (elems h) (length (elems h)) -> elems h !! 0%nat = Some x ->
  (1 < length (elems h))%nat ->
  let h' := heap_Popping h in
  elems h' ≡ₚ elems h /\ heap_ordered (elems h') (length (elems h) - 1) /\
  elems h' !! (length (elems h) - 1)%nat = Some x.
Proof.
  intros Ho Hx Hl. unfold heap_Popping. rewrite Len_elems. set (n := (length (elems h) - 1)%nat).
  destruct (lookup_lt_elem (elems h) n) as [z Hz]; [lia|].
  pose proof (Swap_swapped h 0 n x z Hx Hz ltac:(lia)) as Es.
  destruct (down_ordered n (heap_Swap 0 n h) 0 n) as (Ho' & [Hp Hk] & _).
  - rewrite Es, length_swapped. lia.
  - lia.
  - rewrite Es. eapply (replace_down_inv (elems h)).
    + eapply heap_ordered_le; [|done]. lia.
    + intros k Hkn Hki. apply swapped_ne; lia.
    + lia.
    + lia.
  - lia.
  - split; [rewrite Hp, Es; by apply swapped_perm; [..|lia]|]. split; [done|].
    rewrite Hk by done. rewrite Es. apply swapped_r; [done|lia].
Qed.

(** The root of a heap is least. *)
Lemma heap_root l n x : heap_ordered l n -> l !! 0%nat = Some x ->
  forall c y, (c < n)%nat -> (n <= length l)%nat -> l !! c = Some y -> lt y x = false.
Proof.
  intros Ho Hx c. induction c as [c IH] using lt_wf_ind. intros y Hc Hn Hy.
  destruct (decide (c = 0%nat)) as [->|]; [assert (y = x) as -> by congruence; apply lt_irrefl|].
  pose proof (par_lt c ltac:(lia)). destruct (lookup_lt_elem l (par c)) as [z Hz]; [lia|].
  apply lt_negtrans with z; [by apply (Ho c ltac:(lia))|]. apply (IH (par c)); [done|lia|done|done].
Qed.
End theory.
