(* ===== verification/Queue.v ===== *)
(** * The queue of opportunities ([arb/opportunity_queue.go])

    The arbitrage engine queues the opportunities it detects and executes a bounded
    number of them at a time, highest priority first.  The queue is a binary heap of
    pointers ([Heap]) indexed by identifier; the pointed objects carry their own
    position in the heap, which [Swap] maintains.  Objects are allocated in a store
    [objs] and pointers are natural numbers, so that the heap, the index and the
    positions stored in the objects are separate pieces of state, as in the code.

    The file proves that the representation is consistent in every reachable state
    and never indexes out of range, that the queue implements an abstract queue over
    a finite map ([astep]), and that draining it yields the waiting opportunities in
    order of priority. *)

From Stdlib Require Import String Sorted.
From S2P Require Import Prelude Heap.

(** The fields of [ScoredOpportunity] (and of the [ArbitrageOpportunity] it embeds)
    that the queue reads; times are nanoseconds. *)
Record ScoredOpportunity := {
  opp_ID : bytes;
  Priority : Z;
  SpreadBPS : Z;
  DetectedAt : Z;
  ExpiresAt : Z;
}.

#[global] Instance ScoredOpportunity_eq_dec : EqDecision ScoredOpportunity.
Proof. solve_decision. Defined.

Record QueuedOpportunity := {
  opp : ScoredOpportunity;
  index : Z;
  queuedAt : Z;
}.

(** ** The heap of pointers *)

Record opportunityHeap := { items : list nat; objs : gmap nat QueuedOpportunity }.

Definition set_index (i : Z) (o : QueuedOpportunity) : QueuedOpportunity :=
  {| opp := opp o; index := i; queuedAt := queuedAt o |}.

Definition no_opp : ScoredOpportunity :=
  {| opp_ID := []; Priority := 0; SpreadBPS := 0; DetectedAt := 0; ExpiresAt := 0 |}.

(** The opportunity behind a pointer ([no_opp] for a dangling one, which does not
    occur: see [heap_wf]). *)
Definition deref (s : gmap nat QueuedOpportunity) (p : nat) : ScoredOpportunity :=
  from_option opp no_opp (s !! p).

Definition at_ (h : opportunityHeap) (i : nat) : ScoredOpportunity :=
  from_option (deref (objs h)) no_opp (items h !! i).

(** [opportunityHeap.Less] on two opportunities. *)
Definition opp_less (a b : ScoredOpportunity) : bool :=
  if negb (Priority a =? Priority b) then Priority b <? Priority a
  else DetectedAt a <? DetectedAt b.

Definition Less (h : opportunityHeap) (i j : nat) : bool := opp_less (at_ h i) (at_ h j).

Definition Swap (i j : nat) (h : opportunityHeap) : opportunityHeap :=
  match items h !! i, items h !! j with
  | Some p, Some q =>
      {| items := <[i := q]> (<[j := p]> (items h));
         objs := alter (set_index (Z.of_nat j)) p (alter (set_index (Z.of_nat i)) q (objs h)) |}
  | _, _ => h
  end.

Definition Push (p : nat) (h : opportunityHeap) : opportunityHeap :=
  {| items := items h ++ [p]; objs := alter (set_index (Z.of_nat (length (items h)))) p (objs h) |}.

Definition Pop (h : opportunityHeap) : outcome (opportunityHeap * nat) :=
  match last (items h) with
  | Some p =>
      Done ({| items := take (length (items h) - 1) (items h);
               objs := alter (set_index (-1)) p (objs h) |}, p)
  | None => Panic "index out of range"
  end.

#[global] Instance opportunityHeap_interface : HeapInterface opportunityHeap := {
  heap_Len h := length (items h);
  heap_Less := Less;
  heap_Swap := Swap;
}.

(** [heap.Push], [heap.Pop], [heap.Remove], [heap.Fix] on the queue's heap; an index
    outside of the slice panics in [Swap], [Less] or [Pop]. *)
Definition heap_Push (p : nat) (h : opportunityHeap) : opportunityHeap := heap_Pushed (Push p h).

Definition heap_Pop (h : opportunityHeap) : outcome (opportunityHeap * nat) :=
  match items h with
  | [] => Panic "index out of range"
  | _ => Pop (heap_Popping h)
  end.

Definition in_range (h : opportunityHeap) (i : Z) : bool := (0 <=? i) && (i <? Z.of_nat (length (items h))).

Definition heap_Remove (h : opportunityHeap) (i : Z) : outcome (opportunityHeap * nat) :=
  if in_range h i then Pop (heap_Removing h (Z.to_nat i)) else Panic "index out of range".

Definition heap_FixAt (h : opportunityHeap) (i : Z) : outcome opportunityHeap :=
  if in_range h i then Done (heap_Fix h (Z.to_nat i)) else Panic "index out of range".

(** ** The queue *)

Record OpportunityQueue := {
  hp : opportunityHeap;
  nextPtr : nat;                       (** the allocator *)
  byID : gmap bytes nat;
  executing : gmap bytes Z;
  completed : gmap bytes Z;
  maxSize : Z;
  maxConcurrent : Z;
  executionTimeout : Z;
  cooldownPeriod : Z;
  enqueued : Z;
  dequeued : Z;
  expired : Z;
  duplicates : Z;
}.

Record OpportunityQueueConfig := {
  MaxSize : Z; MaxConcurrent : Z; ExecutionTimeout : Z; CooldownPeriod : Z;
}.

Definition DefaultOpportunityQueueConfig : OpportunityQueueConfig :=
  {| MaxSize := 100; MaxConcurrent := 3;
     ExecutionTimeout := 30 * 10 ^ 9; CooldownPeriod := 5 * 10 ^ 9 |}.

Definition NewOpportunityQueue (config : option OpportunityQueueConfig) : OpportunityQueue :=
  let c := default DefaultOpportunityQueueConfig config in
  {| hp := {| items := []; objs := ∅ |}; nextPtr := 0; byID := ∅; executing := ∅; completed := ∅;
     maxSize := MaxSize c; maxConcurrent := MaxConcurrent c;
     executionTimeout := ExecutionTimeout c; cooldownPeriod := CooldownPeriod c;
     enqueued := 0; dequeued := 0; expired := 0; duplicates := 0 |}.

(** Assignments to groups of fields. *)
Definition with_heap (q : OpportunityQueue) (h : opportunityHeap) (ids : gmap bytes nat) : OpportunityQueue :=
  {| hp := h; nextPtr := nextPtr q; byID := ids; executing := executing q; completed := completed q;
     maxSize := maxSize q; maxConcurrent := maxConcurrent q; executionTimeout := executionTimeout q;
     cooldownPeriod := cooldownPeriod q; enqueued := enqueued q; dequeued := dequeued q;
     expired := expired q; duplicates := duplicates q |}.

Definition with_runs (q : OpportunityQueue) (e c : gmap bytes Z) : OpportunityQueue :=
  {| hp := hp q; nextPtr := nextPtr q; byID := byID q; executing := e; completed := c;
     maxSize := maxSize q; maxConcurrent := maxConcurrent q; executionTimeout := executionTimeout q;
     cooldownPeriod := cooldownPeriod q; enqueued := enqueued q; dequeued := dequeued q;
     expired := expired q; duplicates := duplicates q |}.

Definition with_counts (q : OpportunityQueue) (np : nat) (en de ex du : Z) : OpportunityQueue :=
  {| hp := hp q; nextPtr := np; byID := byID q; executing := executing q; completed := completed q;
     maxSize := maxSize q; maxConcurrent := maxConcurrent q; executionTimeout := executionTimeout q;
     cooldownPeriod := cooldownPeriod q; enqueued := en; dequeued := de; expired := ex; duplicates := du |}.

Definition count_enqueued (q : OpportunityQueue) : OpportunityQueue :=
  with_counts q (nextPtr q) (u64 (enqueued q + 1)) (dequeued q) (expired q) (duplicates q).
Definition count_dequeued (q : OpportunityQueue) : OpportunityQueue :=
  with_counts q (nextPtr q) (enqueued q) (u64 (dequeued q + 1)) (expired q) (duplicates q).
Definition count_expired (q : OpportunityQueue) : OpportunityQueue :=
  with_counts q (nextPtr q) (enqueued q) (dequeued q) (u64 (expired q + 1)) (duplicates q).
Definition count_duplicate (q : OpportunityQueue) : OpportunityQueue :=
  with_counts q (nextPtr q) (enqueued q) (dequeued q) (expired q) (u64 (duplicates q + 1)).

(** [heap.Remove(&q.items, i)] followed by [delete(q.byID, id)]. *)
Definition drop_at (q : OpportunityQueue) (i : Z) (id : bytes) : outcome OpportunityQueue :=
  let! hp' := heap_Remove (hp q) i in Done (with_heap q hp'.1 (delete id (byID q))).

(** The end of [Enqueue]: allocate, push, index, count. *)
Definition add_new (q : OpportunityQueue) (o : ScoredOpportunity) (now : Z) : OpportunityQueue :=
  let p := nextPtr q in
  let h := {| items := items (hp q);
              objs := <[p := {| opp := o; index := 0; queuedAt := now |}]> (objs (hp q)) |} in
  let q1 := with_heap q (heap_Push p h) (<[opp_ID o := p]> (byID q)) in
  with_counts q1 (S p) (u64 (enqueued q + 1)) (dequeued q) (expired q) (duplicates q).

Definition Enqueue (q : OpportunityQueue) (o : ScoredOpportunity) (now : Z) : outcome (OpportunityQueue * bool) :=
  match byID q !! opp_ID o with
  | Some _ => Done (count_duplicate q, false)
  | None =>
      let cooling := match completed q !! opp_ID o with
                     | Some completedAt => now - completedAt <? cooldownPeriod q
                     | None => false
                     end in
      if cooling then Done (q, false)
      else
        let q := with_runs q (executing q) (delete (opp_ID o) (completed q)) in
        if maxSize q <=? Z.of_nat (length (items (hp q))) then
          match last (items (hp q)) with
          | Some p =>
              let lowest := deref (objs (hp q)) p in
              if Priority o <=? Priority lowest then Done (q, false)
              else
                let! q := drop_at q (from_option index (-1) (objs (hp q) !! p)) (opp_ID lowest) in
                Done (add_new (count_expired q) o now, true)
          | None => Done (add_new q o now, true)
          end
        else Done (add_new q o now, true)
  end.

(** [removeExpired]: the positions of the expired items are collected first, then
    removed from the last to the first. *)
Definition expired_indices (q : OpportunityQueue) (now : Z) : list nat :=
  filter (fun i => ExpiresAt (at_ (hp q) i) < now) (seq 0 (length (items (hp q)))).

Fixpoint remove_indices (q : OpportunityQueue) (idxs : list nat) : outcome OpportunityQueue :=
  match idxs with
  | [] => Done q
  | idx :: rest =>
      match items (hp q) !! idx with
      | Some p =>
          let! q := drop_at q (Z.of_nat idx) (opp_ID (deref (objs (hp q)) p)) in
          remove_indices (count_expired q) rest
      | None => Panic "index out of range"
      end
  end.

(** The executions started more than [executionTimeout] ago. *)
Definition timed_out (q : OpportunityQueue) (now : Z) : gmap bytes Z :=
  filter (fun kv => executionTimeout q < now - kv.2) (executing q).

Definition removeExpired (q : OpportunityQueue) (now : Z) : outcome OpportunityQueue :=
  let dead := timed_out q now in
  let q := with_runs q (executing q ∖ dead) (((fun _ => now) <$> dead) ∪ completed q) in
  remove_indices q (rev (expired_indices q now)).

Definition Dequeue (q : OpportunityQueue) (now : Z) : outcome (OpportunityQueue * option ScoredOpportunity) :=
  if maxConcurrent q <=? Z.of_nat (size (executing q)) then Done (q, None)
  else
    let! q := removeExpired q now in
    match items (hp q) with
    | [] => Done (q, None)
    | _ =>
        let! r := heap_Pop (hp q) in
        let o := deref (objs r.1) r.2 in
        let q := with_heap q r.1 (delete (opp_ID o) (byID q)) in
        Done (with_runs (count_dequeued q) (<[opp_ID o := now]> (executing q)) (completed q), Some o)
    end.

Definition Peek (q : OpportunityQueue) : option ScoredOpportunity :=
  deref (objs (hp q)) <$> head (items (hp q)).

Definition MarkComplete (q : OpportunityQueue) (id : bytes) (now : Z) : OpportunityQueue :=
  with_runs q (delete id (executing q)) (<[id := now]> (completed q)).

Definition CleanCompleted (q : OpportunityQueue) (maxAge now : Z) : OpportunityQueue :=
  with_runs q (executing q) (filter (fun kv => ~ kv.2 < now - maxAge) (completed q)).

Definition Size (q : OpportunityQueue) : Z := Z.of_nat (length (items (hp q))).
Definition ExecutingCount (q : OpportunityQueue) : Z := Z.of_nat (size (executing q)).
Definition CanExecute (q : OpportunityQueue) : bool :=
  (ExecutingCount q <? maxConcurrent q) && (0 <? Size q).

Definition GetAll (q : OpportunityQueue) : list ScoredOpportunity :=
  deref (objs (hp q)) <$> items (hp q).

(** The entry ["top_priorities"] of [Stats]; the others are the fields. *)
Definition topPriorities (q : OpportunityQueue) : list Z := Priority <$> take 5 (GetAll q).

Definition set_priority (pr : Z) (o : QueuedOpportunity) : QueuedOpportunity :=
  {| opp := {| opp_ID := opp_ID (opp o); Priority := pr; SpreadBPS := SpreadBPS (opp o);
               DetectedAt := DetectedAt (opp o); ExpiresAt := ExpiresAt (opp o) |};
     index := index o; queuedAt := queuedAt o |}.

Definition UpdatePriority (q : OpportunityQueue) (id : bytes) (newPriority : Z) : outcome (OpportunityQueue * bool) :=
  match byID q !! id with
  | None => Done (q, false)
  | Some p =>
      let h := {| items := items (hp q); objs := alter (set_priority newPriority) p (objs (hp q)) |} in
      let! h := heap_FixAt h (from_option index (-1) (objs h !! p)) in
      Done (with_heap q h (byID q), true)
  end.

Definition Remove (q : OpportunityQueue) (id : bytes) : outcome (OpportunityQueue * bool) :=
  match byID q !! id with
  | None => Done (q, false)
  | Some p =>
      let! q := drop_at q (from_option index (-1) (objs (hp q) !! p)) id in
      Done (q, true)
  end.

(** ** The heap operations on a well-formed heap *)

Lemma opp_less_asym a b : opp_less a b = true -> opp_less b a = false.
Proof. unfold opp_less. intros. repeat case_match; bool_to_prop; lia. Qed.

Lemma opp_less_negtrans a b c : opp_less a b = false -> opp_less b c = false -> opp_less a c = false.
Proof. unfold opp_less. intros. repeat case_match; bool_to_prop; lia. Qed.

Lemma deref_alter (f : QueuedOpportunity -> QueuedOpportunity) s p q :
  (forall o, opp (f o) = opp o) -> deref (alter f p s) q = deref s q.
Proof.
  intros Hf. unfold deref. destruct (decide (p = q)) as [->|].
  - rewrite lookup_alter_eq. destruct (s !! q); simpl; auto.
  - by rewrite lookup_alter_ne.
Qed.

Lemma Swap_eq h i j p q : items h !! i = Some p -> items h !! j = Some q ->
  Swap i j h = {| items := <[i := q]> (<[j := p]> (items h));
     objs := alter (set_index (Z.of_nat j)) p (alter (set_index (Z.of_nat i)) q (objs h)) |}.
Proof. intros Hi Hj. unfold Swap. by rewrite Hi, Hj. Qed.

#[global] Program Instance opportunityHeap_laws : HeapLaws opportunityHeap ScoredOpportunity := {
  elems h := deref (objs h) <$> items h;
  lt := opp_less;
}.
Next Obligation. apply opp_less_asym. Qed.
Next Obligation. apply opp_less_negtrans. Qed.
Next Obligation. intros h. cbn. by rewrite length_fmap. Qed.
Next Obligation.
  intros h i j a b. cbv beta. rewrite !list_lookup_fmap. cbn [heap_Less opportunityHeap_interface].
  unfold Less, at_. destruct (items h !! i), (items h !! j); simpl; congruence.
Qed.
Next Obligation.
  intros h i j a b. cbv beta. rewrite !list_lookup_fmap. cbn [heap_Swap opportunityHeap_interface].
  destruct (items h !! i) as [p|] eqn:Hi, (items h !! j) as [q|] eqn:Hj; [|done..].
  simpl. intros [= <-] [= <-] Hij. rewrite (Swap_eq _ _ _ _ _ Hi Hj). cbn [items objs].
  rewrite <- !list_fmap_insert. apply list_fmap_ext. intros _ x _.
  by rewrite !deref_alter.
Qed.

(** The objects behind the items know their positions. *)
Definition indexed (h : opportunityHeap) : Prop :=
  NoDup (items h) /\
  forall i p, items h !! i = Some p -> index <$> objs h !! p = Some (Z.of_nat i).

(** Two states hold the same opportunities, and the objects outside of [ps] are the
    same. *)
Definition same_opps (s s' : gmap nat QueuedOpportunity) : Prop :=
  forall p, opp <$> s' !! p = opp <$> s !! p.

#[global] Instance same_opps_po : PreOrder same_opps.
Proof. split; [done|]. intros a b c H1 H2 p. by rewrite H2, H1. Qed.

Lemma same_opps_deref s s' p : same_opps s s' -> deref s' p = deref s p.
Proof. intros H. specialize (H p). unfold deref. destruct (s' !! p), (s !! p); simplify_eq/=; congruence. Qed.

Lemma same_opps_alter f p s : (forall o, opp (f o) = opp o) -> same_opps s (alter f p s).
Proof.
  intros Hf q. destruct (decide (p = q)) as [->|]; [|by rewrite lookup_alter_ne].
  rewrite lookup_alter_eq. destruct (s !! q); simpl; [by rewrite Hf|done].
Qed.

Lemma same_opps_elems h s : same_opps (objs h) s -> deref s <$> items h = elems h.
Proof. intros H. apply list_fmap_ext. intros. by apply same_opps_deref. Qed.

(** What every permutation of the heap keeps. *)
Definition shuffled (h0 h : opportunityHeap) : Prop :=
  items h ≡ₚ items h0 /\ same_opps (objs h0) (objs h) /\ indexed h.

Lemma index_alter_ne (s : gmap nat QueuedOpportunity) f p q : p <> q -> index <$> alter f p s !! q = index <$> s !! q.
Proof. intros. by rewrite lookup_alter_ne. Qed.

Lemma index_alter_eq (s : gmap nat QueuedOpportunity) i p : is_Some (index <$> s !! p) -> index <$> alter (set_index i) p s !! p = Some i.
Proof. rewrite lookup_alter_eq. intros [? H]. by destruct (s !! p). Qed.

Lemma shuffled_swap h0 h i j : (i < heap_Len h)%nat -> (j < heap_Len h)%nat -> i <> j ->
  shuffled h0 h -> shuffled h0 (heap_Swap i j h) /\ heap_Len (heap_Swap i j h) = heap_Len h.
Proof.
  cbn. intros Hi Hj Hij (Hp & Hs & Hnd & Hix).
  destruct (lookup_lt_is_Some_2 _ _ Hi) as [p Ep]. destruct (lookup_lt_is_Some_2 _ _ Hj) as [q Eq].
  assert (Hpq : p <> q) by (intros ->; by eapply Hij, NoDup_lookup).
  rewrite (Swap_eq _ _ _ _ _ Ep Eq). cbn [items objs].
  pose proof (swapped_perm (items h) i j p q Ep Eq Hij) as Hperm. unfold swapped in Hperm.
  split; [|by rewrite !length_insert]. split; [cbn [items]; by rewrite Hperm|]. split.
  { cbn [objs]. etrans; [exact Hs|]. etrans; by apply same_opps_alter. }
  split; cbn [items objs]; [by rewrite Hperm|].
  intros k x Hx. destruct (decide (k = i)) as [->|Hki].
  - rewrite list_lookup_insert_eq in Hx by (by rewrite length_insert). injection Hx as <-.
    rewrite index_alter_ne by done. apply index_alter_eq. by rewrite (Hix _ _ Eq).
  - rewrite list_lookup_insert_ne in Hx by done. destruct (decide (k = j)) as [->|Hkj].
    + rewrite list_lookup_insert_eq in Hx by done. injection Hx as <-.
      apply index_alter_eq. rewrite index_alter_ne by done. by rewrite (Hix _ _ Ep).
    + rewrite list_lookup_insert_ne in Hx by done.
      rewrite !index_alter_ne; [by apply Hix| |]; intros ->; eauto using NoDup_lookup.
Qed.

Lemma shuffled_refl h : indexed h -> shuffled h h.
Proof. done. Qed.

(** A well-formed heap: positions are right, no pointer dangles, the order holds. *)
Definition heap_wf (h : opportunityHeap) : Prop :=
  indexed h /\ heap_ordered (elems h) (length (items h)).

Lemma elems_length (h : opportunityHeap) : length (elems h) = length (items h).
Proof. apply length_fmap. Qed.

(** Dropping the last item of a heap that is ordered up to it. *)
Lemma Pop_spec h p : indexed h -> heap_ordered (elems h) (length (items h) - 1) ->
  last (items h) = Some p ->
  exists h', Pop h = Done (h', p) /\ heap_wf h' /\ items h ≡ₚ p :: items h' /\ same_opps (objs h) (objs h').
Proof.
  intros [Hnd Hix] Ho Hl. unfold Pop. rewrite Hl.
  apply last_Some in Hl as [l El]. rewrite El in *. rewrite length_app in *. cbn [length] in *.
  replace (length l + 1 - 1)%nat with (length l) in * by lia. rewrite take_app_length.
  eexists. split; [done|]. apply NoDup_app in Hnd as (Hl & Hp & _).
  assert (Hpl : p ∉ l) by (intros ?; apply (Hp p); set_solver).
  split; [split; [split; [done|]|]|split; [cbn [items]|by apply same_opps_alter]].
  - cbn [items objs]. intros i x Hx. rewrite index_alter_ne.
    + apply Hix. by apply lookup_app_l_Some.
    + intros ->. by eapply Hpl, list_elem_of_lookup_2.
  - cbn [items]. intros c Hc. eapply ok_irrel; [..|by apply Ho].
    all: pose proof (par_lt c ltac:(lia)); cbn [elems opportunityHeap_laws items objs]; rewrite El, !list_lookup_fmap, lookup_app_l by lia;
      destruct (l !! _); [cbn; by rewrite deref_alter|done].
  - by rewrite Permutation_app_comm.
Qed.

Lemma elems_lookup (h : opportunityHeap) i p : items h !! i = Some p -> elems h !! i = Some (deref (objs h) p).
Proof. intros Hp. cbn [elems opportunityHeap_laws]. by rewrite list_lookup_fmap, Hp. Qed.

(** The last item after a permutation is found from its opportunity when the swap
    that moved it there is followed by swaps below; [Pop] returns that pointer. *)
Lemma pop_shuffled h h1 p : shuffled h h1 -> heap_ordered (elems h1) (length (items h1) - 1) ->
  last (items h1) = Some p ->
  exists h', Pop h1 = Done (h', p) /\ heap_wf h' /\ items h ≡ₚ p :: items h' /\ same_opps (objs h) (objs h').
Proof.
  intros (Hp & Hs & Hi) Ho Hl. destruct (Pop_spec h1 p Hi Ho Hl) as (h' & E & Hwf & Hp' & Hs').
  exists h'. split; [done|]. split; [done|]. split; [by rewrite <- Hp|by etrans].
Qed.

Lemma last_app_lookup {X} (l : list X) : last l = l !! (length l - 1)%nat.
Proof. rewrite last_lookup. f_equal. lia. Qed.

Lemma heap_Remove_spec h i : heap_wf h -> (i < length (items h))%nat ->
  exists h' p, heap_Remove h (Z.of_nat i) = Done (h', p) /\ deref (objs h) p = at_ h i /\
    p ∈ items h /\ heap_wf h' /\ items h ≡ₚ p :: items h' /\ same_opps (objs h) (objs h').
Proof.
  intros [Hix Ho] Hi. unfold heap_Remove, in_range.
  rewrite (proj2 (Z.leb_le _ _)), (proj2 (Z.ltb_lt _ _)), Nat2Z.id by lia. cbn [andb].
  destruct (lookup_lt_is_Some_2 _ _ Hi) as [p0 Ep].
  destruct (removing_keeps (shuffled h) (shuffled_swap h) h i) as [Hsh El]; [done|by apply shuffled_refl|].
  pose proof (elems_length h) as Eh.
  destruct (Removing_spec h i (deref (objs h) p0)) as (_ & Ho' & Hlast); [by rewrite Eh|by apply elems_lookup|].
  rewrite Eh in Ho', Hlast. cbn in El.
  destruct (lookup_lt_is_Some_2 (items (heap_Removing h i)) (length (items h) - 1)) as [p Hp]; [lia|].
  assert (Hd : deref (objs h) p = deref (objs h) p0).
  { rewrite (elems_lookup _ _ _ Hp) in Hlast. injection Hlast as Hlast.
    rewrite <- Hlast. symmetry. by apply same_opps_deref, Hsh. }
  destruct (pop_shuffled h (heap_Removing h i) p) as (h' & E & Hwf & Hperm & Hs); [done|by rewrite El| |].
  { by rewrite last_app_lookup, El. }
  exists h', p. rewrite E. split; [done|]. split; [unfold at_; by rewrite Ep|].
  split; [rewrite Hperm; left|done].
Qed.

(** The pointer that is removed is the one at the index, not only one with the same
    opportunity, when the opportunities of the heap have distinct identifiers. *)
Definition distinct_ids (h : opportunityHeap) : Prop :=
  forall p q, p ∈ items h -> q ∈ items h ->
    opp_ID (deref (objs h) p) = opp_ID (deref (objs h) q) -> p = q.

Lemma heap_first h p : heap_wf h -> items h !! 0%nat = Some p ->
  forall r, r ∈ items h -> opp_less (deref (objs h) r) (deref (objs h) p) = false.
Proof.
  intros [_ Ho] H0 r [k Hk]%list_elem_of_lookup_1.
  apply (heap_root (elems h) (length (items h)) (deref (objs h) p) Ho (elems_lookup _ _ _ H0) k).
  - by eapply lookup_lt_Some.
  - by rewrite elems_length.
  - by apply elems_lookup.
Qed.

Lemma heap_Pop_spec h : heap_wf h -> items h <> [] ->
  exists h' p, heap_Pop h = Done (h', p) /\ p ∈ items h /\ heap_wf h' /\ items h ≡ₚ p :: items h' /\
    same_opps (objs h) (objs h') /\
    (forall r, r ∈ items h -> opp_less (deref (objs h) r) (deref (objs h) p) = false).
Proof.
  intros [Hix Ho] Hne. pose proof (elems_length h) as Eh.
  destruct (items h) as [|p0 l] eqn:El; [done|]. rewrite <- El in *.
  assert (H0 : items h !! 0%nat = Some p0) by (by rewrite El).
  assert (Hlen : (0 < length (items h))%nat) by (rewrite El; simpl; lia).
  pose proof (heap_first h p0 (conj Hix Ho) H0) as Hmin.
  assert (Hpop : exists h1 p, shuffled h h1 /\ heap_Pop h = Pop h1 /\ deref (objs h) p = deref (objs h) p0 /\
            heap_ordered (elems h1) (length (items h1) - 1) /\ last (items h1) = Some p).
  { exists (heap_Popping h). unfold heap_Pop. destruct (items h) eqn:El'; [done|]. rewrite <- El' in *.
    destruct (decide (length (items h) = 1%nat)) as [E1|].
    - exists p0. unfold heap_Popping. change (heap_Len h) with (length (items h)). rewrite E1. cbn [Nat.sub].
      cbn [heap_down fst heap_Swap opportunityHeap_interface]. rewrite (Swap_eq _ _ _ _ _ H0 H0).
      assert (items h = [p0]) as Ei by (destruct (items h) as [|? [|]]; simplify_eq/=; done).
      split; [|split; [done|split; [done|]]]; cbn [items objs].
      + split; [cbn; by rewrite Ei|]. split; [cbn; etrans; by apply same_opps_alter|].
        split; cbn [items objs]; rewrite Ei; [apply NoDup_singleton|].
        intros [|] r Hr; simplify_eq/=. apply index_alter_eq.
        rewrite index_alter_eq; [done|]. destruct Hix as [_ Hix]. by rewrite (Hix _ _ H0).
      + rewrite Ei. split; [intros c; simpl; lia|done].
    - destruct (popping_keeps (shuffled h) (shuffled_swap h) h) as [Hsh El2]; [cbn; lia|by apply shuffled_refl|].
      destruct (Popping_spec h (deref (objs h) p0)) as (_ & Ho' & Hl); [by rewrite Eh|by apply elems_lookup|lia|].
      rewrite Eh in Ho', Hl. cbn in El2.
      destruct (lookup_lt_is_Some_2 (items (heap_Popping h)) (length (items h) - 1)) as [p Hp]; [lia|].
      exists p. split; [done|]. split; [done|]. rewrite El2, last_app_lookup, El2. split; [|done].
      rewrite (elems_lookup _ _ _ Hp) in Hl. injection Hl as Hl. rewrite <- Hl. symmetry. by apply same_opps_deref, Hsh. }
  destruct Hpop as (h1 & p & Hsh & E & Hd & Ho' & Hlast).
  destruct (pop_shuffled h h1 p Hsh Ho' Hlast) as (h' & E' & Hwf & Hperm & Hs).
  exists h', p. rewrite E, E'. split; [done|]. split; [rewrite Hperm; left|]. rewrite Hd. done.
Qed.

Lemma heap_Push_spec h p : heap_wf h -> p ∉ items h -> is_Some (objs h !! p) ->
  heap_wf (heap_Push p h) /\ items (heap_Push p h) ≡ₚ p :: items h /\ same_opps (objs h) (objs (heap_Push p h)).
Proof.
  intros [[Hnd Hix] Ho] Hp Hs. unfold heap_Push.
  assert (Hs1 : same_opps (objs h) (objs (Push p h))) by (by apply same_opps_alter).
  assert (Hi1 : indexed (Push p h)).
  { split; cbn [Push items objs].
    - apply NoDup_app. split; [done|]. split; [set_solver|apply NoDup_singleton].
    - intros i r Hr. apply lookup_app_Some in Hr as [Hr|[Hi Hr]].
      + rewrite index_alter_ne; [by apply Hix|]. intros ->. by eapply Hp, list_elem_of_lookup_2.
      + destruct (i - length (items h))%nat as [|k] eqn:Ek; simplify_eq/=.
        replace i with (length (items h)) by lia. apply index_alter_eq.
        destruct Hs as [? ->]. done. }
  assert (El : length (items (Push p h)) = S (length (items h))) by (cbn; rewrite length_app; simpl; lia).
  destruct (pushed_keeps (shuffled (Push p h)) (shuffled_swap (Push p h)) (Push p h)) as [(Hp2 & Hs2 & Hi2) El2];
    [cbn; rewrite length_app; simpl; lia|by apply shuffled_refl|].
  destruct (Pushed_spec (Push p h)) as [Ho2 _].
  - rewrite elems_length. lia.
  - rewrite elems_length, El. cbn [Nat.sub]. rewrite Nat.sub_0_r. intros c Hc.
    pose proof (par_lt c ltac:(lia)).
    eapply ok_irrel; [..|by apply Ho]; cbn [elems opportunityHeap_laws Push items objs];
      rewrite !list_lookup_fmap, lookup_app_l by lia; (destruct (items h !! _); [cbn; by rewrite deref_alter|done]).
  - rewrite elems_length, El in Ho2.
    change (length (items (heap_Pushed (Push p h))) = length (items (Push p h))) in El2. split; [split; [done|]|split].
    + by rewrite El2, El.
    + rewrite Hp2. cbn [Push items]. by rewrite Permutation_app_comm.
    + by etrans.
Qed.

(** [Fix] after the opportunity at position [i] changed. *)
Lemma heap_Fix_spec h s i p : heap_wf h -> items h !! i = Some p ->
  (forall r, r <> p -> s !! r = objs h !! r) -> index <$> s !! p = index <$> objs h !! p ->
  exists h', heap_FixAt {| items := items h; objs := s |} (Z.of_nat i) = Done h' /\
    heap_wf h' /\ items h' ≡ₚ items h /\ same_opps s (objs h').
Proof.
  intros [[Hnd Hix] Ho] Hi Hs Hsp. pose proof (lookup_lt_Some _ _ _ Hi) as Hlt.
  set (h1 := {| items := items h; objs := s |}).
  assert (Hi1 : indexed h1).
  { split; cbn; [done|]. intros k r Hr. destruct (decide (r = p)) as [->|Hn].
    - rewrite Hsp. by apply Hix.
    - rewrite Hs by done. by apply Hix. }
  destruct (fix_keeps (shuffled h1) (shuffled_swap h1) h1 i) as [(Hp2 & Hs2 & Hi2) El]; [done|by apply shuffled_refl|].
  exists (heap_Fix h1 i). unfold heap_FixAt, in_range. change (items h1) with (items h).
  rewrite (proj2 (Z.leb_le _ _)), (proj2 (Z.ltb_lt _ _)), Nat2Z.id by lia.
  split; [done|]. split; [split; [done|]|done].
  destruct (Fix_spec h1 i) as [Ho2 _].
  - by rewrite elems_length.
  - eapply (replace_down_inv (elems h)); rewrite ?elems_length; [done| |done|done].
    intros k Hk Hki. cbn [elems opportunityHeap_laws h1 items objs]. rewrite !list_lookup_fmap.
    destruct (items h !! k) as [r|] eqn:Er; [|done]. cbn. unfold deref. rewrite Hs; [done|].
    intros ->. by eapply Hki, NoDup_lookup.
  - rewrite elems_length in Ho2.
    change (length (items (heap_Fix h1 i)) = length (items h1)) in El. by rewrite El.
Qed.

(** ** The invariant of the queue *)

Definition queue_inv (q : OpportunityQueue) : Prop :=
  heap_wf (hp q) /\
  (forall id p, byID q !! id = Some p <-> p ∈ items (hp q) /\ opp_ID (deref (objs (hp q)) p) = id) /\
  (forall p, is_Some (objs (hp q) !! p) -> (p < nextPtr q)%nat).

(** The waiting opportunities by identifier, and the fields that do not concern them. *)
Definition waiting (q : OpportunityQueue) : gmap bytes ScoredOpportunity := deref (objs (hp q)) <$> byID q.

Definition config (q : OpportunityQueue) : OpportunityQueueConfig :=
  {| MaxSize := maxSize q; MaxConcurrent := maxConcurrent q;
     ExecutionTimeout := executionTimeout q; CooldownPeriod := cooldownPeriod q |}.

Definition runs_of (q : OpportunityQueue) : gmap bytes Z * gmap bytes Z * OpportunityQueueConfig :=
  (executing q, completed q, config q).

Lemma inv_ids q id p : queue_inv q ->
  byID q !! id = Some p <-> p ∈ items (hp q) /\ opp_ID (deref (objs (hp q)) p) = id.
Proof. intros (_ & H & _). apply H. Qed.

Lemma inv_distinct q p r : queue_inv q -> p ∈ items (hp q) -> r ∈ items (hp q) ->
  opp_ID (deref (objs (hp q)) p) = opp_ID (deref (objs (hp q)) r) -> p = r.
Proof.
  intros Hq Hp Hr E. assert (byID q !! opp_ID (deref (objs (hp q)) p) = Some p) by (by apply inv_ids).
  assert (byID q !! opp_ID (deref (objs (hp q)) p) = Some r) by (rewrite E; by apply inv_ids). congruence.
Qed.

Lemma inv_index q i p : queue_inv q -> items (hp q) !! i = Some p ->
  index <$> objs (hp q) !! p = Some (Z.of_nat i).
Proof. intros (((_ & H) & _) & _). apply H. Qed.

Lemma waiting_lookup q id o : queue_inv q ->
  waiting q !! id = Some o <-> exists p, p ∈ items (hp q) /\ deref (objs (hp q)) p = o /\ opp_ID o = id.
Proof.
  intros Hq. unfold waiting. rewrite lookup_fmap, fmap_Some. split.
  - intros (p & [? ?]%inv_ids & ->); [|done]. eauto.
  - intros (p & Hp & <- & Hid). exists p. split; [by apply inv_ids|done].
Qed.

Lemma waiting_ids q id o : queue_inv q -> waiting q !! id = Some o -> opp_ID o = id.
Proof. intros Hq (p & _ & _ & ?)%waiting_lookup; done. Qed.

(** The waiting opportunities are those [GetAll] lists. *)
Lemma waiting_perm q : queue_inv q -> (map_to_list (waiting q)).*2 ≡ₚ GetAll q.
Proof.
  intros Hq. assert (Hperm : map_to_list (byID q) ≡ₚ
    (fun p => (opp_ID (deref (objs (hp q)) p), p)) <$> items (hp q)).
  { apply NoDup_Permutation; [apply NoDup_map_to_list| |].
    - apply NoDup_fmap_2_strong; [intros ???? [=]; done|]. apply Hq.
    - intros [id p]. rewrite elem_of_map_to_list, inv_ids, list_elem_of_fmap by done.
      split; [intros [? <-]; eauto|intros (r & [= -> ->] & ?); done]. }
  unfold waiting, GetAll. rewrite map_to_list_fmap, Hperm, <- !list_fmap_compose.
  by apply Permutation_refl', list_fmap_ext.
Qed.

Lemma waiting_size q : queue_inv q -> size (waiting q) = length (items (hp q)).
Proof.
  intros Hq. rewrite <- length_map_to_list. rewrite <- (length_fmap snd). rewrite (waiting_perm q Hq).
  apply length_fmap.
Qed.

Lemma waiting_empty q : queue_inv q -> waiting q = ∅ <-> items (hp q) = [].
Proof.
  intros Hq. rewrite <- map_size_empty_iff, waiting_size by done.
  split; [apply nil_length_inv|by intros ->].
Qed.

(** A new heap with the same opportunities, less the pointer [p]. *)
Lemma drop_inv q h' p : queue_inv q -> heap_wf h' -> items (hp q) ≡ₚ p :: items h' ->
  same_opps (objs (hp q)) (objs h') ->
  let q' := with_heap q h' (delete (opp_ID (deref (objs (hp q)) p)) (byID q)) in
  queue_inv q' /\ waiting q' = delete (opp_ID (deref (objs (hp q)) p)) (waiting q).
Proof.
  intros Hq Hwf Hperm Hs. set (id0 := opp_ID (deref (objs (hp q)) p)).
  assert (Hp : p ∈ items (hp q)) by (rewrite Hperm; left).
  assert (Hd : forall r, deref (objs h') r = deref (objs (hp q)) r) by (intros; by apply same_opps_deref).
  cbn zeta. split; [split; [done|]; cbn [hp byID nextPtr with_heap]; split|].
  - intros id r. rewrite lookup_delete_Some, inv_ids, Hd, Hperm, elem_of_cons by done.
    assert (Hnd : p ∉ items h').
    { destruct Hq as (((Hnd & _) & _) & _). rewrite Hperm in Hnd. by apply NoDup_cons in Hnd as [? _]. }
    split.
    + intros (Hne & [->|Hr] & <-); [by destruct Hne|done].
    + intros [Hr <-]. split; [|by split; [right|]]. intros E. apply Hnd.
      assert (p = r) as ->; [|done]. apply (inv_distinct q); [done|done|rewrite Hperm; by right|done].
  - intros r Hr. destruct Hq as (_ & _ & Hn). apply Hn.
    specialize (Hs r). destruct Hr as [o Ho]. rewrite Ho in Hs. simpl in Hs.
    destruct (objs (hp q) !! r); [done|discriminate].
  - unfold waiting. cbn [hp byID with_heap]. rewrite fmap_delete. f_equal.
    apply map_fmap_ext. intros. apply Hd.
Qed.

Lemma drop_at_spec q i p : queue_inv q -> items (hp q) !! i = Some p ->
  let id := opp_ID (deref (objs (hp q)) p) in
  exists q', drop_at q (Z.of_nat i) id = Done q' /\ queue_inv q' /\
    waiting q !! id = Some (deref (objs (hp q)) p) /\ waiting q' = delete id (waiting q) /\
    runs_of q' = runs_of q /\ S (length (items (hp q'))) = length (items (hp q)).
Proof.
  intros Hq Hi id. pose proof (lookup_lt_Some _ _ _ Hi) as Hlt.
  destruct (heap_Remove_spec (hp q) i) as (h' & r & E & Hd & Hr & Hwf & Hperm & Hs); [apply Hq|done|].
  unfold at_ in Hd. rewrite Hi in Hd. cbn in Hd.
  assert (r = p) as -> by (apply (inv_distinct q); [done|done|by eapply list_elem_of_lookup_2|by rewrite Hd]).
  unfold drop_at. rewrite E. cbn [outcome_bind fst].
  destruct (drop_inv q h' p Hq Hwf Hperm Hs) as [Hq' Hw']. eexists. split; [done|].
  split; [done|]. split; [apply waiting_lookup; [done|]; exists p; done|].
  split; [done|]. split; [done|]. cbn [hp with_heap]. by rewrite Hperm.
Qed.

(** The allocated object has a new address. *)
Lemma add_new_spec q o now : queue_inv q -> byID q !! opp_ID o = None ->
  queue_inv (add_new q o now) /\ waiting (add_new q o now) = <[opp_ID o := o]> (waiting q) /\
  runs_of (add_new q o now) = runs_of q.
Proof.
  intros Hq Hid. set (p := nextPtr q).
  set (h := {| items := items (hp q);
               objs := <[p := {| opp := o; index := 0; queuedAt := now |}]> (objs (hp q)) |}).
  assert (Hfresh : objs (hp q) !! p = None).
  { apply eq_None_not_Some. intros Hs. apply Hq in Hs. unfold p in Hs. lia. }
  assert (Hnew : forall r, r ∈ items (hp q) -> r <> p).
  { intros r [k Hk]%list_elem_of_lookup_1 ->. pose proof (inv_index q k p Hq Hk) as Hx. by rewrite Hfresh in Hx. }
  assert (Hne : forall r, r <> p -> objs h !! r = objs (hp q) !! r) by (intros; by apply lookup_insert_ne).
  assert (Hde : forall r, r ∈ items (hp q) -> deref (objs h) r = deref (objs (hp q)) r).
  { intros r Hr. unfold deref. by rewrite Hne by auto. }
  assert (Hdp : deref (objs h) p = o) by (unfold deref, h; cbn; by rewrite lookup_insert_eq).
  assert (Hwf : heap_wf h).
  { destruct Hq as (((Hnd & Hix) & Ho) & _). split; [split; [done|]|].
    - intros i r Hr. cbn [items h] in Hr. rewrite Hne; [by apply Hix|]. eapply Hnew, list_elem_of_lookup_2, Hr.
    - cbn [items h]. replace (elems h) with (elems (hp q)); [done|].
      cbn [elems opportunityHeap_laws]. apply list_fmap_ext. intros i r Hr. symmetry.
      eapply Hde, list_elem_of_lookup_2, Hr. }
  destruct (heap_Push_spec h p Hwf) as (Hwf' & Hperm & Hs).
  { intros Hin. by apply (Hnew p). }
  { cbn. rewrite lookup_insert_eq. done. }
  assert (Hd : forall r, deref (objs (heap_Push p h)) r = deref (objs h) r) by (intros; by apply same_opps_deref).
  split; [|split; [|done]].
  - split; [done|]. unfold add_new. fold p. fold h. cbn [hp byID nextPtr with_heap with_counts]. split.
    + intros id r. rewrite Hd, Hperm, elem_of_cons, lookup_insert_Some, inv_ids by done. cbn [items h]. split.
      * intros [[<- <-]|(? & Hr & <-)]; [by split; [left|rewrite Hdp]|]. split; [by right|by rewrite Hde].
      * intros [[->|Hr] <-]; [left; by rewrite Hdp|]. right. rewrite Hde by done. split; [|done].
        intros E. assert (byID q !! opp_ID o = Some r) by (rewrite E; by apply inv_ids). congruence.
    + intros r Hr. destruct (decide (r = p)) as [->|Hn]; [lia|].
      assert (Hr' : is_Some (objs (hp q) !! r)).
      { rewrite <- (Hne r Hn). specialize (Hs r). destruct Hr as [x Hx]. rewrite Hx in Hs.
        destruct (objs h !! r); [done|discriminate]. }
      apply Hq in Hr'. unfold p. lia.
  - unfold waiting, add_new. fold p. fold h. cbn [hp byID with_heap with_counts]. rewrite fmap_insert, Hd, Hdp.
    f_equal. apply map_fmap_ext. intros id r Hr. rewrite Hd. apply Hde. by apply (inv_ids q id r Hq).
Qed.

(** ** The abstract queue *)

Record AbstractQueue := {
  a_waiting : gmap bytes ScoredOpportunity;
  a_executing : gmap bytes Z;
  a_completed : gmap bytes Z;
}.

Definition abstract (q : OpportunityQueue) : AbstractQueue :=
  {| a_waiting := waiting q; a_executing := executing q; a_completed := completed q |}.

Inductive op :=
| OpEnqueue (o : ScoredOpportunity) (now : Z)
| OpDequeue (now : Z)
| OpPeek
| OpMarkComplete (id : bytes) (now : Z)
| OpCleanCompleted (maxAge now : Z)
| OpUpdatePriority (id : bytes) (newPriority : Z)
| OpRemove (id : bytes).

Inductive res := RBool (b : bool) | ROpp (o : option ScoredOpportunity) | RUnit.

Definition exec (q : OpportunityQueue) (x : op) : outcome (OpportunityQueue * res) :=
  match x with
  | OpEnqueue o now => let! r := Enqueue q o now in Done (r.1, RBool r.2)
  | OpDequeue now => let! r := Dequeue q now in Done (r.1, ROpp r.2)
  | OpPeek => Done (q, ROpp (Peek q))
  | OpMarkComplete id now => Done (MarkComplete q id now, RUnit)
  | OpCleanCompleted maxAge now => Done (CleanCompleted q maxAge now, RUnit)
  | OpUpdatePriority id pr => let! r := UpdatePriority q id pr in Done (r.1, RBool r.2)
  | OpRemove id => let! r := Remove q id in Done (r.1, RBool r.2)
  end.

Definition expired_count (w : gmap bytes ScoredOpportunity) (now : Z) : nat :=
  length (filter (fun o => ExpiresAt o < now) (map_to_list w).*2).

(** What [removeExpired] promises: late executions are completed, and as many waiting
    opportunities are dropped as are expired (not always the expired ones, see
    [expired_kept_live_dropped]). *)
Definition expire (c : OpportunityQueueConfig) (now : Z) (a a1 : AbstractQueue) : Prop :=
  let dead := filter (fun kv => ExecutionTimeout c < now - kv.2) (a_executing a) in
  a_executing a1 = a_executing a ∖ dead /\
  a_completed a1 = ((fun _ => now) <$> dead) ∪ a_completed a /\
  a_waiting a1 ⊆ a_waiting a /\
  size (a_waiting a) = (size (a_waiting a1) + expired_count (a_waiting a) now)%nat.

Definition ready (c : OpportunityQueueConfig) (d : gmap bytes Z) (id : bytes) (now : Z) : Prop :=
  forall t, d !! id = Some t -> CooldownPeriod c <= now - t.

(** No waiting opportunity comes before [o]. *)
Definition first_of (w : gmap bytes ScoredOpportunity) (o : ScoredOpportunity) : Prop :=
  w !! opp_ID o = Some o /\ forall id o', w !! id = Some o' -> opp_less o' o = false.

Definition with_priority (pr : Z) (o : ScoredOpportunity) : ScoredOpportunity :=
  {| opp_ID := opp_ID o; Priority := pr; SpreadBPS := SpreadBPS o;
     DetectedAt := DetectedAt o; ExpiresAt := ExpiresAt o |}.

Inductive astep (c : OpportunityQueueConfig) : AbstractQueue -> op -> res -> AbstractQueue -> Prop :=
| A_duplicate a o now : is_Some (a_waiting a !! opp_ID o) ->
    astep c a (OpEnqueue o now) (RBool false) a
| A_cooling a o now t : a_waiting a !! opp_ID o = None -> a_completed a !! opp_ID o = Some t ->
    now - t < CooldownPeriod c ->
    astep c a (OpEnqueue o now) (RBool false) a
| A_full w e d o now id v : w !! opp_ID o = None -> ready c d (opp_ID o) now ->
    MaxSize c <= Z.of_nat (size w) -> w !! id = Some v -> Priority o <= Priority v ->
    astep c {| a_waiting := w; a_executing := e; a_completed := d |} (OpEnqueue o now) (RBool false)
      {| a_waiting := w; a_executing := e; a_completed := delete (opp_ID o) d |}
| A_evict w e d o now id v : w !! opp_ID o = None -> ready c d (opp_ID o) now ->
    MaxSize c <= Z.of_nat (size w) -> w !! id = Some v -> Priority v < Priority o ->
    astep c {| a_waiting := w; a_executing := e; a_completed := d |} (OpEnqueue o now) (RBool true)
      {| a_waiting := <[opp_ID o := o]> (delete id w); a_executing := e; a_completed := delete (opp_ID o) d |}
| A_enqueue w e d o now : w !! opp_ID o = None -> ready c d (opp_ID o) now ->
    Z.of_nat (size w) < MaxSize c \/ w = ∅ ->
    astep c {| a_waiting := w; a_executing := e; a_completed := d |} (OpEnqueue o now) (RBool true)
      {| a_waiting := <[opp_ID o := o]> w; a_executing := e; a_completed := delete (opp_ID o) d |}
| A_busy a now : MaxConcurrent c <= Z.of_nat (size (a_executing a)) ->
    astep c a (OpDequeue now) (ROpp None) a
| A_idle a a1 now : Z.of_nat (size (a_executing a)) < MaxConcurrent c -> expire c now a a1 ->
    a_waiting a1 = ∅ -> astep c a (OpDequeue now) (ROpp None) a1
| A_dequeue a a1 now o : Z.of_nat (size (a_executing a)) < MaxConcurrent c -> expire c now a a1 ->
    first_of (a_waiting a1) o ->
    astep c a (OpDequeue now) (ROpp (Some o))
      {| a_waiting := delete (opp_ID o) (a_waiting a1);
         a_executing := <[opp_ID o := now]> (a_executing a1); a_completed := a_completed a1 |}
| A_peek_empty a : a_waiting a = ∅ -> astep c a OpPeek (ROpp None) a
| A_peek a o : first_of (a_waiting a) o -> astep c a OpPeek (ROpp (Some o)) a
| A_complete w e d id now :
    astep c {| a_waiting := w; a_executing := e; a_completed := d |} (OpMarkComplete id now) RUnit
      {| a_waiting := w; a_executing := delete id e; a_completed := <[id := now]> d |}
| A_clean w e d maxAge now :
    astep c {| a_waiting := w; a_executing := e; a_completed := d |} (OpCleanCompleted maxAge now) RUnit
      {| a_waiting := w; a_executing := e; a_completed := filter (fun kv => ~ kv.2 < now - maxAge) d |}
| A_update_none a id pr : a_waiting a !! id = None -> astep c a (OpUpdatePriority id pr) (RBool false) a
| A_update w e d id pr o : w !! id = Some o ->
    astep c {| a_waiting := w; a_executing := e; a_completed := d |} (OpUpdatePriority id pr) (RBool true)
      {| a_waiting := <[id := with_priority pr o]> w; a_executing := e; a_completed := d |}
| A_remove_none a id : a_waiting a !! id = None -> astep c a (OpRemove id) (RBool false) a
| A_remove w e d id o : w !! id = Some o ->
    astep c {| a_waiting := w; a_executing := e; a_completed := d |} (OpRemove id) (RBool true)
      {| a_waiting := delete id w; a_executing := e; a_completed := d |}.

(** ** Each operation implements its abstract step *)

Lemma inv_runs q e d : queue_inv q -> queue_inv (with_runs q e d).
Proof. done. Qed.

Lemma waiting_none q id : byID q !! id = None -> waiting q !! id = None.
Proof. intros H. unfold waiting. by rewrite lookup_fmap, H. Qed.

Lemma waiting_none_iff q id : waiting q !! id = None <-> byID q !! id = None.
Proof. unfold waiting. rewrite lookup_fmap. apply fmap_None. Qed.

Lemma last_item q p : queue_inv q -> last (items (hp q)) = Some p ->
  items (hp q) !! (length (items (hp q)) - 1)%nat = Some p /\
  from_option index (-1) (objs (hp q) !! p) = Z.of_nat (length (items (hp q)) - 1).
Proof.
  intros Hq Hl. rewrite last_app_lookup in Hl. split; [done|].
  pose proof (inv_index q _ p Hq Hl) as Hx. destruct (objs (hp q) !! p); [|done]. by injection Hx.
Qed.

Definition implements (q : OpportunityQueue) (x : op) : Prop :=
  exists q' r, exec q x = Done (q', r) /\ queue_inv q' /\ config q' = config q /\
    astep (config q) (abstract q) x r (abstract q').

Lemma abstract_eq q w e d : waiting q = w -> executing q = e -> completed q = d ->
  abstract q = {| a_waiting := w; a_executing := e; a_completed := d |}.
Proof. by intros <- <- <-. Qed.

Lemma runs_of_inj q q' : runs_of q' = runs_of q ->
  executing q' = executing q /\ completed q' = completed q /\ config q' = config q.
Proof. unfold runs_of. intros E. injection E. intros. repeat split; unfold config; congruence. Qed.

Lemma Enqueue_implements q o now : queue_inv q -> implements q (OpEnqueue o now).
Proof.
  intros Hq. unfold implements. cbn [exec]. unfold Enqueue.
  destruct (byID q !! opp_ID o) as [p|] eqn:Eid.
  { do 2 eexists. split; [done|]. split; [done|]. split; [done|]. apply A_duplicate. cbn.
    unfold waiting. rewrite lookup_fmap, Eid. done. }
  pose proof (waiting_none _ _ Eid) as Hw.
  set (cooling := match completed q !! opp_ID o with Some _ => _ | None => _ end).
  destruct cooling eqn:Ec; subst cooling.
  { destruct (completed q !! opp_ID o) as [t|] eqn:Et; [|done]. bool_to_prop.
    do 2 eexists. split; [done|]. split; [done|]. split; [done|]. by eapply A_cooling. }
  assert (Hready : ready (config q) (completed q) (opp_ID o) now).
  { intros t Ht. rewrite Ht in Ec. bool_to_prop. done. }
  cbv zeta. set (q1 := with_runs q (executing q) (delete (opp_ID o) (completed q))).
  assert (Hq1 : queue_inv q1) by done.
  assert (Enew : forall q2, queue_inv q2 -> byID q2 !! opp_ID o = None -> runs_of q2 = runs_of q1 ->
    queue_inv (add_new q2 o now) /\ config (add_new q2 o now) = config q /\
    abstract (add_new q2 o now) = {| a_waiting := <[opp_ID o := o]> (waiting q2);
      a_executing := executing q; a_completed := delete (opp_ID o) (completed q) |}).
  { intros q2 H2 H2i H2r. destruct (add_new_spec q2 o now H2 H2i) as (Hi & Hwt & Hr).
    rewrite H2r in Hr. apply runs_of_inj in Hr as (? & ? & ?). split; [done|]. split; [done|].
    by apply abstract_eq. }
  assert (Hsz : Z.of_nat (length (items (hp q1))) = Z.of_nat (size (waiting q))) by (by rewrite waiting_size).
  rewrite Hsz. change (maxSize q1) with (MaxSize (config q)).
  destruct (Z.leb_spec (MaxSize (config q)) (Z.of_nat (size (waiting q)))) as [Hfull|Hroom].
  - destruct (last (items (hp q1))) as [p|] eqn:El.
    + destruct (last_item q1 p Hq1 El) as [Hlast Hix]. rewrite Hix.
      destruct (drop_at_spec q1 _ p Hq1 Hlast) as (q2 & -> & Hq2 & Hv & Hw2 & Hr2 & _).
      destruct (Z.leb_spec (Priority o) (Priority (deref (objs (hp q1)) p))) as [Hle|Hgt]; cbn [outcome_bind fst snd].
      * do 2 eexists. split; [done|]. split; [done|]. split; [done|].
        eapply A_full; [done|done|done|exact Hv|done].
      * destruct (Enew (count_expired q2)) as (? & ? & Ea); [done| |done|].
        { apply waiting_none_iff. change (waiting (count_expired q2)) with (waiting q2).
          rewrite Hw2. by apply lookup_delete_None; right. }
        do 2 eexists. split; [done|]. split; [done|]. split; [done|].
        rewrite Ea. change (waiting (count_expired q2)) with (waiting q2). rewrite Hw2.
        eapply A_evict; [done|done|done|exact Hv|done].
    + apply last_None in El. destruct (Enew q1) as (? & ? & Ea); [done..|]. cbn [outcome_bind fst snd].
      do 2 eexists. split; [done|]. split; [done|]. split; [done|]. rewrite Ea.
      apply A_enqueue; [done..|]. right. by apply waiting_empty.
  - destruct (Enew q1) as (? & ? & Ea); [done..|]. cbn [outcome_bind fst snd].
    do 2 eexists. split; [done|]. split; [done|]. split; [done|]. rewrite Ea.
    apply A_enqueue; [done..|]. by left.
Qed.

Lemma remove_indices_spec (P : nat -> Prop) `{forall i, Decision (P i)} n q : queue_inv q ->
  (n <= length (items (hp q)))%nat ->
  exists q', remove_indices q (rev (filter P (seq 0 n))) = Done q' /\ queue_inv q' /\
    runs_of q' = runs_of q /\ waiting q' ⊆ waiting q /\
    size (waiting q) = (size (waiting q') + length (filter P (seq 0 n)))%nat.
Proof.
  revert q. induction n as [|n IH]; intros q Hq Hn.
  { exists q. rewrite Nat.add_0_r. done. }
  rewrite seq_S, filter_app, rev_app_distr, length_app. cbn [Nat.add].
  rewrite filter_cons, filter_nil. destruct (decide (P n)) as [Hpn|Hpn]; cbn [rev app length].
  - destruct (lookup_lt_is_Some_2 (items (hp q)) n) as [p Hp]; [lia|].
    cbn [remove_indices]. rewrite Hp.
    destruct (drop_at_spec q n p Hq Hp) as (q1 & -> & Hq1 & Hv & Hw & Hr & Hl). cbn [outcome_bind].
    destruct (IH (count_expired q1)) as (q' & -> & Hq' & Hr' & Hsub & Hsz); [done|cbn; lia|].
    change (waiting (count_expired q1)) with (waiting q1) in *. rewrite Hw in *.
    exists q'. split; [done|]. split; [done|]. split; [by rewrite Hr', <- Hr|]. split.
    + etrans; [exact Hsub|]. apply delete_subseteq.
    + rewrite map_size_delete_Some in Hsz by done.
      assert (size (waiting q) <> 0%nat) by (apply map_size_ne_0_lookup; eauto). lia.
  - destruct (IH q Hq ltac:(lia)) as (q' & -> & Hq' & Hr' & Hsub & Hsz). exists q'.
    rewrite Nat.add_0_r. done.
Qed.

Lemma filter_seq_fmap {X} (P : X -> Prop) `{forall x, Decision (P x)} (Q : nat -> Prop)
    `{forall i, Decision (Q i)} (l : list X) k :
  (forall i x, l !! i = Some x -> Q (k + i)%nat <-> P x) ->
  length (filter Q (seq k (length l))) = length (filter P l).
Proof.
  revert k. induction l as [|x l IH]; intros k Hf; [done|]. cbn [length seq].
  rewrite !filter_cons. pose proof (Hf 0%nat x eq_refl) as E. rewrite Nat.add_0_r in E.
  assert (IH' : length (filter Q (seq (S k) (length l))) = length (filter P l)).
  { apply IH. intros i y Hy. rewrite <- (Hf (S i) y Hy). by rewrite Nat.add_succ_r. }
  destruct (decide (P x)), (decide (Q k)); cbn [length]; rewrite ?IH'; tauto.
Qed.

Lemma removeExpired_spec q now : queue_inv q ->
  exists q', removeExpired q now = Done q' /\ queue_inv q' /\ config q' = config q /\
    expire (config q) now (abstract q) (abstract q').
Proof.
  intros Hq. unfold removeExpired. cbv zeta.
  set (q1 := with_runs q _ _). assert (Hq1 : queue_inv q1) by done.
  destruct (remove_indices_spec (fun i => ExpiresAt (at_ (hp q1) i) < now) (length (items (hp q1))) q1 Hq1)
    as (q' & E & Hq' & Hr & Hsub & Hsz); [done|].
  unfold expired_indices. rewrite E. exists q'. split; [done|]. split; [done|].
  apply runs_of_inj in Hr as (He & Hc & Hcfg). split; [done|]. split; [done|]. split; [done|].
  split; [done|]. cbn [a_waiting abstract]. change (waiting q1) with (waiting q) in *. rewrite Hsz. f_equal.
  unfold expired_count. rewrite (waiting_perm q Hq). unfold GetAll.
  change (hp q1) with (hp q).
  rewrite <- (length_fmap (deref (objs (hp q))) (items (hp q))).
  apply filter_seq_fmap. intros i x. rewrite list_lookup_fmap. unfold at_. cbn [Nat.add].
  destruct (items (hp q) !! i); [|done]. by intros [= <-].
Qed.

Lemma first_waiting q p : queue_inv q -> p ∈ items (hp q) ->
  (forall r, r ∈ items (hp q) -> opp_less (deref (objs (hp q)) r) (deref (objs (hp q)) p) = false) ->
  first_of (waiting q) (deref (objs (hp q)) p).
Proof.
  intros Hq Hp Hmin. split; [apply waiting_lookup; [done|]; eauto|].
  intros id o' (r & Hr & <- & _)%waiting_lookup; [|done]. by apply Hmin.
Qed.

Lemma Dequeue_implements q now : queue_inv q -> implements q (OpDequeue now).
Proof.
  intros Hq. unfold implements. cbn [exec]. unfold Dequeue.
  destruct (Z.leb_spec (maxConcurrent q) (Z.of_nat (size (executing q)))) as [Hb|Hb].
  { do 2 eexists. split; [done|]. split; [done|]. split; [done|]. by apply A_busy. }
  destruct (removeExpired_spec q now Hq) as (q1 & -> & Hq1 & Hc1 & Hex). cbn [outcome_bind].
  destruct (decide (items (hp q1) = [])) as [E|Hne].
  { rewrite E. cbn [outcome_bind fst snd]. do 2 eexists. split; [done|]. split; [done|]. split; [done|].
    eapply A_idle; [done|done|]. by apply waiting_empty. }
  destruct (heap_Pop_spec (hp q1)) as (h' & p & Ep & Hp & Hwf & Hperm & Hs & Hmin); [apply Hq1|done|].
  rewrite Ep. destruct (items (hp q1)) eqn:Ei; [done|]. rewrite <- Ei in *.
  cbn [outcome_bind fst snd]. rewrite (same_opps_deref _ _ p Hs).
  destruct (drop_inv q1 h' p Hq1 Hwf Hperm Hs) as [Hq2 Hw2].
  do 2 eexists. split; [done|]. split; [exact Hq2|]. split; [done|].
  pose proof (A_dequeue (config q) (abstract q) (abstract q1) now _ Hb Hex (first_waiting q1 p Hq1 Hp Hmin)) as Hstep.
  unfold abstract at 2. cbn [executing completed with_runs count_dequeued with_counts with_heap].
  unfold waiting at 1. cbn [hp byID with_runs count_dequeued with_counts with_heap].
  change (deref (objs h') <$> delete (opp_ID (deref (objs (hp q1)) p)) (byID q1))
    with (waiting (with_heap q1 h' (delete (opp_ID (deref (objs (hp q1)) p)) (byID q1)))).
  cbv zeta in Hw2. rewrite Hw2. done.
Qed.

Lemma Peek_implements q : queue_inv q -> implements q OpPeek.
Proof.
  intros Hq. do 2 eexists. split; [done|]. split; [done|]. split; [done|]. unfold Peek.
  destruct (items (hp q)) as [|p l] eqn:E; cbn [head fmap option_fmap option_map].
  - apply A_peek_empty. by apply waiting_empty.
  - apply A_peek. apply first_waiting; [done|rewrite E; left|].
    apply heap_first; [apply Hq|by rewrite E].
Qed.

Lemma by_id_position q id p : queue_inv q -> byID q !! id = Some p ->
  exists i, items (hp q) !! i = Some p /\ opp_ID (deref (objs (hp q)) p) = id /\
    objs (hp q) !! p = Some {| opp := deref (objs (hp q)) p; index := Z.of_nat i;
                              queuedAt := from_option queuedAt 0 (objs (hp q) !! p) |}.
Proof.
  intros Hq [[i Hi]%list_elem_of_lookup_1 Hid]%inv_ids; [|done]. exists i. split; [done|]. split; [done|].
  pose proof (inv_index q i p Hq Hi) as Hx. unfold deref.
  destruct (objs (hp q) !! p) as [[]|]; simplify_eq/=; done.
Qed.

Lemma Remove_implements q id : queue_inv q -> implements q (OpRemove id).
Proof.
  intros Hq. unfold implements. cbn [exec]. unfold Remove. destruct (byID q !! id) as [p|] eqn:Eid.
  - destruct (by_id_position q id p Hq Eid) as (i & Hi & <- & Ho). rewrite Ho. cbn [from_option index].
    destruct (drop_at_spec q i p Hq Hi) as (q' & -> & Hq' & Hv & Hw & Hr & _). cbn [outcome_bind fst snd].
    apply runs_of_inj in Hr as (He & Hc & Hcfg).
    do 2 eexists. split; [done|]. split; [done|]. split; [done|].
    rewrite (abstract_eq q' _ _ _ Hw He Hc). by eapply A_remove.
  - do 2 eexists. split; [done|]. split; [done|]. split; [done|]. apply A_remove_none. by apply waiting_none.
Qed.

Lemma UpdatePriority_implements q id pr : queue_inv q -> implements q (OpUpdatePriority id pr).
Proof.
  intros Hq. unfold implements. cbn [exec]. unfold UpdatePriority. destruct (byID q !! id) as [p|] eqn:Eid.
  2: { do 2 eexists. split; [done|]. split; [done|]. split; [done|]. apply A_update_none. by apply waiting_none. }
  destruct (by_id_position q id p Hq Eid) as (i & Hi & Hid & Ho). cbv zeta. cbn [objs].
  set (s := alter (set_priority pr) p (objs (hp q))).
  assert (Hsp : s !! p = set_priority pr <$> objs (hp q) !! p) by apply lookup_alter_eq.
  assert (Hsn : forall r, r <> p -> s !! r = objs (hp q) !! r) by (intros; by apply lookup_alter_ne).
  destruct (heap_Fix_spec (hp q) s i p) as (h' & E & Hwf & Hperm & Hs); [apply Hq|done|done| |].
  { rewrite Hsp, Ho. done. }
  rewrite Hsp, Ho. cbn [fmap option_fmap option_map from_option index set_priority]. rewrite E. cbn [outcome_bind fst snd].
  assert (Hdp : deref (objs h') p = with_priority pr (deref (objs (hp q)) p)).
  { rewrite (same_opps_deref _ _ p Hs). unfold deref at 1. rewrite Hsp, Ho. done. }
  assert (Hdn : forall r, r <> p -> deref (objs h') r = deref (objs (hp q)) r).
  { intros r Hr. rewrite (same_opps_deref _ _ r Hs). unfold deref. by rewrite Hsn. }
  assert (Hids : forall r, opp_ID (deref (objs h') r) = opp_ID (deref (objs (hp q)) r)).
  { intros r. destruct (decide (r = p)) as [->|]; [by rewrite Hdp|by rewrite Hdn]. }
  do 2 eexists. split; [done|]. split; [split; [done|]; split|split; [done|]]; cbn [hp byID nextPtr with_heap].
  - intros id' r. rewrite inv_ids, Hids, Hperm by done. done.
  - intros r Hr. destruct Hq as (_ & _ & Hn). apply Hn. destruct (decide (r = p)) as [->|Hne]; [by rewrite Ho|].
    rewrite <- (Hsn r Hne). specialize (Hs r). destruct Hr as [x Hx]. rewrite Hx in Hs.
    destruct (s !! r); [done|discriminate].
  - erewrite (abstract_eq (with_heap q h' (byID q))); [|reflexivity..].
    replace (waiting (with_heap q h' (byID q)))
      with (<[id := with_priority pr (deref (objs (hp q)) p)]> (waiting q)).
    + apply A_update. unfold waiting. rewrite lookup_fmap, Eid. done.
    + apply map_eq. intros id'. unfold waiting. cbn [hp byID with_heap]. rewrite !lookup_fmap.
      destruct (decide (id' = id)) as [->|Hne].
      * rewrite lookup_insert_eq, Eid. cbn. by rewrite Hdp.
      * rewrite lookup_insert_ne, lookup_fmap by done.
        destruct (byID q !! id') as [r|] eqn:Er; [|done]. cbn. rewrite Hdn; [done|].
        intros ->. apply (inv_ids q) in Er; [|done]. by apply Hne; destruct Er as [_ <-].
Qed.

Lemma exec_implements q x : queue_inv q -> implements q x.
Proof.
  intros Hq. destruct x.
  - by apply Enqueue_implements.
  - by apply Dequeue_implements.
  - by apply Peek_implements.
  - do 2 eexists. split; [done|]. split; [done|]. split; [done|]. apply A_complete.
  - do 2 eexists. split; [done|]. split; [done|]. split; [done|]. apply A_clean.
  - by apply UpdatePriority_implements.
  - by apply Remove_implements.
Qed.

(** ** Runs of the queue *)

Fixpoint runs (q : OpportunityQueue) (xs : list op) : outcome (OpportunityQueue * list res) :=
  match xs with
  | [] => Done (q, [])
  | x :: xs =>
      let! r := exec q x in
      let! rs := runs r.1 xs in
      Done (rs.1, r.2 :: rs.2)
  end.

Inductive asteps (c : OpportunityQueueConfig) : AbstractQueue -> list op -> list res -> AbstractQueue -> Prop :=
| asteps_nil a : asteps c a [] [] a
| asteps_cons a a1 a2 x xs r rs : astep c a x r a1 -> asteps c a1 xs rs a2 -> asteps c a (x :: xs) (r :: rs) a2.

Lemma runs_refine q xs : queue_inv q ->
  exists q' rs, runs q xs = Done (q', rs) /\ queue_inv q' /\ config q' = config q /\
    asteps (config q) (abstract q) xs rs (abstract q').
Proof.
  revert q. induction xs as [|x xs IH]; intros q Hq.
  - exists q, []. split; [done|]. split; [done|]. split; [done|]. constructor.
  - destruct (exec_implements q x Hq) as (q1 & r & E & Hq1 & Hc & Hstep).
    destruct (IH q1 Hq1) as (q' & rs & E' & Hq' & Hc' & Hsteps).
    exists q', (r :: rs). cbn [runs]. rewrite E. cbn [outcome_bind fst snd]. rewrite E'. cbn [outcome_bind fst snd].
    split; [done|]. split; [done|]. split; [congruence|]. econstructor; [done|]. by rewrite <- Hc.
Qed.

Lemma new_queue_inv c : queue_inv (NewOpportunityQueue c).
Proof.
  split; [split; [split; [constructor|done]|intros ??; cbn in *; lia]|]. split; cbn.
  - intros id p. rewrite lookup_empty. split; [done|]. intros [Hp _]. by apply not_elem_of_nil in Hp.
  - intros p [? Hp]. by rewrite lookup_empty in Hp.
Qed.

Definition empty_queue : AbstractQueue := {| a_waiting := ∅; a_executing := ∅; a_completed := ∅ |}.

(** C4: The queue refines a finite map of waiting opportunities: from a new queue with
    any configuration, every sequence of operations returns (no index, pointer or
    stored position is ever out of place, so nothing panics), and its results are
    those of the abstract queue, in which [Dequeue] and [Peek] pick an opportunity
    that no waiting one precedes and [Enqueue], [UpdatePriority] and [Remove] update
    one entry. *)
Theorem queue_refines_map (c : option OpportunityQueueConfig) (xs : list op) :
  exists q rs, runs (NewOpportunityQueue c) xs = Done (q, rs) /\
    asteps (default DefaultOpportunityQueueConfig c) empty_queue xs rs (abstract q).
Proof.
  destruct (runs_refine (NewOpportunityQueue c) xs (new_queue_inv c)) as (q & rs & E & _ & _ & H).
  exists q, rs. split; [done|]. by destruct c as [[]|].
Qed.

(** ** Draining the queue *)

(** The executor's use of the queue: take the next opportunity, execute it, report it
    complete; at most [n] times. *)
Fixpoint drain (n : nat) (q : OpportunityQueue) (now : Z) : outcome (OpportunityQueue * list ScoredOpportunity) :=
  match n with
  | O => Done (q, [])
  | S n =>
      let! r := Dequeue q now in
      match r.2 with
      | None => Done (r.1, [])
      | Some o =>
          let! rest := drain n (MarkComplete r.1 (opp_ID o) now) now in
          Done (rest.1, o :: rest.2)
      end
  end.

(** [q] is reached from a new queue. *)
Definition reachable (q : OpportunityQueue) : Prop :=
  exists c xs rs, runs (NewOpportunityQueue c) xs = Done (q, rs).

Lemma reachable_inv q : reachable q -> queue_inv q.
Proof.
  intros (c & xs & rs & E).
  destruct (runs_refine (NewOpportunityQueue c) xs (new_queue_inv c)) as (q' & rs' & E' & H & _).
  rewrite E in E'. by injection E' as <- <-.
Qed.

Definition fresh_at (q : OpportunityQueue) (now : Z) : Prop :=
  Forall (fun o => now <= ExpiresAt o) (GetAll q).

Lemma expire_fresh q a1 now : queue_inv q -> fresh_at q now -> expire (config q) now (abstract q) a1 ->
  a_waiting a1 = waiting q.
Proof.
  intros Hq Hf (_ & _ & Hsub & Hsz). apply map_subseteq_size_eq; [done|].
  unfold expired_count in Hsz. cbn [abstract a_waiting] in Hsz. rewrite (waiting_perm q Hq) in Hsz.
  enough (E : filter (fun o => ExpiresAt o < now) (GetAll q) = []) by (rewrite E in Hsz; simpl in Hsz; lia).
  clear -Hf. unfold fresh_at in Hf. induction Hf as [|o l Ho Hl IH]; [done|].
  by rewrite filter_cons_False by lia.
Qed.

Lemma Dequeue_progress q now : queue_inv q -> fresh_at q now ->
  Z.of_nat (size (executing q)) < maxConcurrent q -> items (hp q) <> [] ->
  exists q' o, Dequeue q now = Done (q', Some o) /\ queue_inv q' /\ config q' = config q /\
    first_of (waiting q) o /\ waiting q' = delete (opp_ID o) (waiting q) /\
    (size (delete (opp_ID o) (executing q')) <= size (executing q))%nat.
Proof.
  intros Hq Hf Hb Hne. destruct (Dequeue_implements q now Hq) as (q' & r & E & Hq' & Hc & Hstep).
  cbn [exec] in E. apply outcome_bind_Done in E as ([q1 r1] & E & E'). injection E' as -> <-. rewrite E.
  inversion Hstep as [| | | | |? ? Hmax|? ? ? _ Hexp Hempty|? a1 ? o _ Hexp Hfirst E1 E2 E3 [Ew Ee Ed]| | | | | | | |]; subst.
  - cbn in Hmax. lia.
  - pose proof (expire_fresh q _ now Hq Hf Hexp) as Hw. rewrite Hempty in Hw. symmetry in Hw.
    by apply waiting_empty in Hw.
  - pose proof (expire_fresh q _ now Hq Hf Hexp) as Hw. rewrite Hw in Hfirst.
    exists q', o. split; [done|]. split; [done|]. split; [done|]. split; [done|].
    split; [by rewrite <- Ew, Hw|]. rewrite <- Ee, delete_insert_eq. destruct Hexp as (-> & _).
    etrans; [apply map_subseteq_size, delete_subseteq|]. apply map_subseteq_size.
    apply map_subseteq_spec. by intros ?? [? _]%lookup_difference_Some.
Qed.

Lemma drain_spec n q now : queue_inv q -> fresh_at q now ->
  Z.of_nat (size (executing q)) < maxConcurrent q -> length (items (hp q)) = n ->
  exists q' os, drain n q now = Done (q', os) /\ items (hp q') = [] /\ os ≡ₚ GetAll q /\
    StronglySorted (fun a b => opp_less b a = false) os.
Proof.
  revert q. induction n as [|n IH]; intros q Hq Hf Hb Hn.
  { apply nil_length_inv in Hn. exists q, []. split; [done|]. unfold GetAll. rewrite Hn. by repeat constructor. }
  destruct (Dequeue_progress q now Hq Hf Hb) as (q1 & o & E & Hq1 & Hc & [Ho Hfirst] & Hw & Hsz); [by intros E; rewrite E in Hn|].
  cbn [drain]. rewrite E. cbn [outcome_bind fst snd].
  set (q2 := MarkComplete q1 (opp_ID o) now). assert (Hq2 : queue_inv q2) by done.
  change (waiting q1) with (waiting q2) in Hw.
  assert (Hperm : GetAll q ≡ₚ o :: GetAll q2).
  { rewrite <- (waiting_perm q Hq), <- (waiting_perm q2 Hq2), Hw.
    rewrite <- (map_to_list_delete (waiting q) (opp_ID o) o Ho). done. }
  destruct (IH q2) as (q' & os & -> & Hi & Hp & Hs); [done| | | |].
  - unfold fresh_at in *. rewrite Hperm in Hf. by apply Forall_cons in Hf as [_ Hf].
  - injection Hc as _ Hmc _ _. cbn [maxConcurrent executing q2 MarkComplete with_runs]. lia.
  - apply Permutation_length in Hperm. unfold GetAll in Hperm. cbn [length] in Hperm. rewrite !length_fmap in Hperm. lia.
  - exists q', (o :: os). cbn [outcome_bind fst snd]. split; [done|]. split; [done|].
    split; [by rewrite Hp, Hperm|]. constructor; [done|]. rewrite Hp. apply Forall_forall. intros o' Ho'.
    assert (Hin : o' ∈ GetAll q) by (rewrite Hperm; by right).
    rewrite <- (waiting_perm q Hq) in Hin. apply list_elem_of_fmap in Hin as ([id x] & -> & Hin).
    apply elem_of_map_to_list in Hin. by apply (Hfirst id).
Qed.

(** C8: Liveness of dispatch: in a reachable queue with a free execution slot and no
    expired opportunity, taking and completing opportunities as many times as the
    queue is long returns every waiting opportunity exactly once, in an order in which
    none precedes an earlier one, and empties the queue. *)
Theorem queue_drains_in_order q now : reachable q -> fresh_at q now ->
  ExecutingCount q < maxConcurrent q ->
  exists q' os, drain (Z.to_nat (Size q)) q now = Done (q', os) /\ Size q' = 0 /\ os ≡ₚ GetAll q /\
    StronglySorted (fun a b => opp_less b a = false) os.
Proof.
  intros Hr Hf Hb. unfold Size. rewrite Nat2Z.id.
  destruct (drain_spec _ q now (reachable_inv q Hr) Hf Hb eq_refl) as (q' & os & -> & Hi & Hp & Hs).
  exists q', os. by rewrite Hi.
Qed.

(** *** Example queues *)

Definition ex_opp (k pr exp : Z) : ScoredOpportunity :=
  {| opp_ID := be_bytes 32 k; Priority := pr; SpreadBPS := 25; DetectedAt := k; ExpiresAt := exp |}.

Definition ex_config : OpportunityQueueConfig :=
  {| MaxSize := 8; MaxConcurrent := 2; ExecutionTimeout := 30; CooldownPeriod := 5 |}.

Definition queue_after (xs : list op) : OpportunityQueue :=
  match runs (NewOpportunityQueue (Some ex_config)) xs with
  | Done (q, _) => q
  | _ => NewOpportunityQueue None
  end.

Lemma queue_after_reachable xs : reachable (queue_after xs).
Proof.
  unfold queue_after.
  destruct (runs_refine (NewOpportunityQueue (Some ex_config)) xs (new_queue_inv _)) as (q & rs & E & _).
  rewrite E. by exists (Some ex_config), xs, rs.
Qed.

Definition ex_queue : OpportunityQueue :=
  queue_after (map (fun kp => OpEnqueue (ex_opp kp.1 kp.2 100) 10) [(1, 4); (2, 9); (3, 4); (4, 7)]).

Lemma queue_drains_in_order_witness :
  reachable ex_queue /\ fresh_at ex_queue 20 /\ ExecutingCount ex_queue < maxConcurrent ex_queue /\
  exists q' os, drain (Z.to_nat (Size ex_queue)) ex_queue 20 = Done (q', os) /\ Size q' = 0 /\
    os ≡ₚ GetAll ex_queue /\ StronglySorted (fun a b => opp_less b a = false) os.
Proof.
  assert (Hf : fresh_at ex_queue 20) by (unfold fresh_at; vm_compute; repeat constructor; discriminate).
  assert (Hc : ExecutingCount ex_queue < maxConcurrent ex_queue) by (vm_compute; reflexivity).
  split; [apply queue_after_reachable|]. split; [exact Hf|]. split; [exact Hc|].
  exact (queue_drains_in_order ex_queue 20 (queue_after_reachable _) Hf Hc).
Defined.

(** ** Where the queue does not do what it means to *)

Definition completes (x : op) : bool := match x with OpMarkComplete _ _ => true | _ => false end.

Lemma busy_astep c a x r a' : astep c a x r a' -> MaxConcurrent c <= Z.of_nat (size (a_executing a)) ->
  completes x = false -> a_executing a' = a_executing a.
Proof. intros [] Hb Hx; try done; cbn in *; lia. Qed.

(** Timed-out executions stall the queue for ever: [Dequeue] counts the executions
    before it drops those that exceeded the timeout, so once the limit is reached and
    no execution reports back, it returns nothing at any later time, whatever is
    enqueued, removed or cleaned in between. *)
Theorem hung_executions_stall q xs now : reachable q -> maxConcurrent q <= ExecutingCount q ->
  forallb (fun x => negb (completes x)) xs = true ->
  exists q' rs, runs q xs = Done (q', rs) /\ executing q' = executing q /\ Dequeue q' now = Done (q', None).
Proof.
  intros Hr%reachable_inv Hb Hx. revert q Hr Hb.
  induction xs as [|x xs IH]; intros q Hq Hb.
  { exists q, []. split; [done|]. split; [done|]. unfold Dequeue. by rewrite (proj2 (Z.leb_le _ _)). }
  cbn [forallb] in Hx. bool_to_prop.
  destruct (exec_implements q x Hq) as (q1 & r & E & Hq1 & Hc & Hstep).
  assert (He : executing q1 = executing q) by (by eapply (busy_astep (config q) (abstract q) x r (abstract q1))).
  destruct (IH ltac:(done) q1 Hq1) as (q' & rs & E' & He' & Hd).
  { unfold ExecutingCount. rewrite He. by injection Hc as _ -> _ _. }
  exists q', (r :: rs). cbn [runs]. rewrite E. cbn [outcome_bind fst snd]. rewrite E'. cbn [outcome_bind fst snd].
  split; [done|]. split; [congruence|done].
Qed.

Definition hung_queue : OpportunityQueue :=
  queue_after [OpEnqueue (ex_opp 1 4 100) 10; OpEnqueue (ex_opp 2 9 100) 10; OpDequeue 11; OpDequeue 11].

Lemma hung_executions_stall_witness :
  reachable hung_queue /\ maxConcurrent hung_queue <= ExecutingCount hung_queue /\
  exists q' rs, runs hung_queue [OpEnqueue (ex_opp 3 9 100) 50; OpDequeue 1000] = Done (q', rs) /\
    executing q' = executing hung_queue /\ Dequeue q' 5000 = Done (q', None).
Proof.
  assert (Hb : maxConcurrent hung_queue <= ExecutingCount hung_queue) by (vm_compute; discriminate).
  split; [apply queue_after_reachable|]. split; [exact Hb|].
  apply hung_executions_stall; [apply queue_after_reachable|exact Hb|reflexivity].
Defined.

(** The positions that [removeExpired] collects go stale: removing one item moves
    others.  Here items 2 and 4 are expired at time 50; removing the later one first
    sifts the other away from its recorded position. *)
Definition stale_queue : OpportunityQueue :=
  queue_after (map (fun kpe => OpEnqueue (ex_opp kpe.1.1 kpe.1.2 kpe.2) 10)
    [(1, 10, 100); (2, 5, 40); (3, 9, 100); (4, 4, 40); (5, 3, 100); (6, 8, 100)]).

(** Expiry can drop a live opportunity and keep an expired one: in a queue of six
    opportunities of which 2 and 4 are expired, [removeExpired] drops 4 and the live 6,
    and keeps 2, which is then dispatched. *)
Theorem expired_kept_live_dropped :
  let show q := map (fun o => (be_int (opp_ID o), ExpiresAt o)) (GetAll q) in
  reachable stale_queue /\
  show stale_queue = [(1, 100); (2, 40); (3, 100); (4, 40); (5, 100); (6, 100)] /\
  (let! q := removeExpired stale_queue 50 in Done (show q)) = Done [(1, 100); (2, 40); (3, 100); (5, 100)].
Proof. split; [apply queue_after_reachable|]. split; vm_compute; reflexivity. Qed.
