(* ===== verification/Planner.v ===== *)
(** * The execution planner ([arb/execution_planner.go], [arb/strategy.go])

    Strategies emit intents; the planner drops duplicates and expired ones, holds those
    that wait for a flashblock decision, and passes the others to the opportunity queue
    ([Queue]).  The clock does not advance within one call.  The iteration order of
    Go's maps in [PruneExpired] is an argument. *)

From Stdlib Require Import String.
From S2P Require Import Prelude Heap Queue.

(** The fields of [ExecutionIntent] the planner reads; times are nanoseconds and
    [None] is the zero time. *)
Record ExecutionIntent := {
  intent_ID : bytes;
  Opportunity : option ScoredOpportunity;   (** [Priority] is not set by strategies *)
  EarliestBlock : Z;
  LatestBlock : Z;
  EarliestTime : option Z;
  LatestTime : option Z;
  NeedsFlashblockValidation : bool;
}.

Definition IsExpired (ei : ExecutionIntent) (now currentBlock : Z) : bool :=
  match LatestTime ei with
  | Some t => if t <? now then true else (0 <? LatestBlock ei) && (LatestBlock ei <? currentBlock)
  | None => (0 <? LatestBlock ei) && (LatestBlock ei <? currentBlock)
  end.

Definition IsReady (ei : ExecutionIntent) (now currentBlock : Z) : bool :=
  if match EarliestTime ei with Some t => now <? t | None => false end then false
  else if (0 <? EarliestBlock ei) && (currentBlock <? EarliestBlock ei) then false
  else negb (IsExpired ei now currentBlock).

Inductive FlashblockAction := FlashblockConfirm | FlashblockCancel | FlashblockModify.

Record FlashblockDecision := {
  IntentID : bytes;
  Action : FlashblockAction;
  ModifiedIntent : option ExecutionIntent;
}.

Record ExecutionPlannerConfig := {
  FlashblockTimeout : Z; DedupWindow : Z; MaxPendingValidation : Z;
}.

Definition DefaultExecutionPlannerConfig : ExecutionPlannerConfig :=
  {| FlashblockTimeout := 500 * 10 ^ 6; DedupWindow := 10 * 10 ^ 9; MaxPendingValidation := 50 |}.

Record ExecutionPlanner := {
  ep_queue : OpportunityQueue;
  flashblocks : bool;                          (** the client is not [nil] *)
  pendingValidation : gmap bytes ExecutionIntent;
  recentIDs : gmap bytes Z;
  ep_config : ExecutionPlannerConfig;
}.

Definition NewExecutionPlanner (q : OpportunityQueue) (fb : bool) (c : option ExecutionPlannerConfig)
  : ExecutionPlanner :=
  {| ep_queue := q; flashblocks := fb; pendingValidation := ∅; recentIDs := ∅;
     ep_config := default DefaultExecutionPlannerConfig c |}.

Definition with_pending (ep : ExecutionPlanner) (m : gmap bytes ExecutionIntent) : ExecutionPlanner :=
  {| ep_queue := ep_queue ep; flashblocks := flashblocks ep; pendingValidation := m;
     recentIDs := recentIDs ep; ep_config := ep_config ep |}.

(** [enqueueIntent]: the scored opportunity is built afresh, so its priority is [0]. *)
Definition enqueueIntent (ep : ExecutionPlanner) (intent : ExecutionIntent) (now : Z)
  : outcome (ExecutionPlanner * bool) :=
  match Opportunity intent with
  | None => Done (ep, false)
  | Some o =>
      let! r := Enqueue (ep_queue ep) (with_priority 0 o) now in
      Done ({| ep_queue := r.1; flashblocks := flashblocks ep; pendingValidation := pendingValidation ep;
               recentIDs := if r.2 then <[intent_ID intent := now]> (recentIDs ep) else recentIDs ep;
               ep_config := ep_config ep |}, r.2)
  end.

Definition SubmitIntent (ep : ExecutionPlanner) (intent : ExecutionIntent) (now : Z)
  : outcome (ExecutionPlanner * bool) :=
  let recent := match recentIDs ep !! intent_ID intent with
                | Some t => now - t <? DedupWindow (ep_config ep)
                | None => false
                end in
  if recent then Done (ep, false)
  else if IsExpired intent now 0 then Done (ep, false)
  else if NeedsFlashblockValidation intent && flashblocks ep &&
          (Z.of_nat (size (pendingValidation ep)) <? MaxPendingValidation (ep_config ep))
  then Done (with_pending ep (<[intent_ID intent := intent]> (pendingValidation ep)), true)
  else enqueueIntent ep intent now.

Definition OnFlashblockDecision (ep : ExecutionPlanner) (d : FlashblockDecision) (now : Z)
  : outcome ExecutionPlanner :=
  match pendingValidation ep !! IntentID d with
  | None => Done ep
  | Some intent =>
      let ep := with_pending ep (delete (IntentID d) (pendingValidation ep)) in
      match Action d with
      | FlashblockConfirm => let! r := enqueueIntent ep intent now in Done r.1
      | FlashblockModify =>
          match ModifiedIntent d with
          | Some m => let! r := enqueueIntent ep m now in Done r.1
          | None => Done ep
          end
      | FlashblockCancel => Done ep
      end
  end.

(** The loop of [PruneExpired] over the pending intents, in the order [ids].  A missing
    earliest time is the zero time, which lies longer ago than any timeout. *)
Fixpoint prune_pending (ep : ExecutionPlanner) (ids : list bytes) (now : Z) : outcome ExecutionPlanner :=
  match ids with
  | [] => Done ep
  | id :: ids =>
      match pendingValidation ep !! id with
      | None => prune_pending ep ids now
      | Some intent =>
          if IsExpired intent now 0
          then prune_pending (with_pending ep (delete id (pendingValidation ep))) ids now
          else if match EarliestTime intent with
                  | Some t => FlashblockTimeout (ep_config ep) <? now - t
                  | None => true
                  end
          then let! r := enqueueIntent ep intent now in
               prune_pending (with_pending r.1 (delete id (pendingValidation r.1))) ids now
          else prune_pending ep ids now
      end
  end.

Definition PruneExpired (order : list bytes) (ep : ExecutionPlanner) (now : Z) : outcome ExecutionPlanner :=
  let! ep := prune_pending ep order now in
  Done {| ep_queue := ep_queue ep; flashblocks := flashblocks ep; pendingValidation := pendingValidation ep;
          recentIDs := filter (fun kv => ~ DedupWindow (ep_config ep) < now - kv.2) (recentIDs ep);
          ep_config := ep_config ep |}.

Definition PendingCount (ep : ExecutionPlanner) : Z := Z.of_nat (size (pendingValidation ep)).

(** ** The planner and its queue *)

Inductive planner_op :=
| PSubmit (i : ExecutionIntent) (now : Z)
| PDecision (d : FlashblockDecision) (now : Z)
| PPrune (order : list bytes) (now : Z)
| PQueue (x : op).

Definition planner_exec (ep : ExecutionPlanner) (x : planner_op) : outcome ExecutionPlanner :=
  match x with
  | PSubmit i now => let! r := SubmitIntent ep i now in Done r.1
  | PDecision d now => OnFlashblockDecision ep d now
  | PPrune order now => PruneExpired order ep now
  | PQueue x =>
      let! r := exec (ep_queue ep) x in
      Done {| ep_queue := r.1; flashblocks := flashblocks ep; pendingValidation := pendingValidation ep;
              recentIDs := recentIDs ep; ep_config := ep_config ep |}
  end.

Fixpoint planner_runs (ep : ExecutionPlanner) (xs : list planner_op) : outcome ExecutionPlanner :=
  match xs with
  | [] => Done ep
  | x :: xs => let! ep := planner_exec ep x in planner_runs ep xs
  end.

(** The queue is consistent, pending intents are filed under their identifier, and
    there are at most [MaxPendingValidation] of them. *)
Definition planner_inv (ep : ExecutionPlanner) : Prop :=
  queue_inv (ep_queue ep) /\
  map_Forall (fun id i => intent_ID i = id) (pendingValidation ep) /\
  PendingCount ep <= Z.max 0 (MaxPendingValidation (ep_config ep)).

(** A step of the planner: it returns, and keeps the invariant and the settings. *)
Definition keeps (ep : ExecutionPlanner) (r : outcome ExecutionPlanner) : Prop :=
  exists ep', r = Done ep' /\ planner_inv ep' /\ ep_config ep' = ep_config ep.

Lemma enqueue_keeps ep i now : planner_inv ep ->
  exists r, enqueueIntent ep i now = Done r /\ planner_inv r.1 /\ ep_config r.1 = ep_config ep /\
    pendingValidation r.1 = pendingValidation ep.
Proof.
  intros (Hq & Hp & Hn). unfold enqueueIntent. destruct (Opportunity i) as [o|]; [|eexists; done].
  destruct (Enqueue_implements (ep_queue ep) (with_priority 0 o) now Hq) as (q' & r & E & Hq' & _).
  cbn [exec] in E. apply outcome_bind_Done in E as ([q1 b] & -> & [= -> <-]). cbn [outcome_bind fst snd].
  eexists. done.
Qed.

Lemma delete_keeps ep id : planner_inv ep -> planner_inv (with_pending ep (delete id (pendingValidation ep))).
Proof.
  intros (Hq & Hp & Hn). split; [done|]. split; cbn; [by apply map_Forall_delete|].
  unfold PendingCount in *. cbn. pose proof (map_subseteq_size _ _ (delete_subseteq (pendingValidation ep) id)). lia.
Qed.

Lemma prune_keeps ep ids now : planner_inv ep -> keeps ep (prune_pending ep ids now).
Proof.
  revert ep. induction ids as [|id ids IH]; intros ep Hep; cbn [prune_pending]; [by exists ep|].
  destruct (pendingValidation ep !! id) as [i|]; [|by apply IH].
  destruct (IsExpired i now 0).
  { destruct (IH _ (delete_keeps ep id Hep)) as (ep' & -> & ? & ?). by exists ep'. }
  case_match; [|by apply IH].
  destruct (enqueue_keeps ep i now Hep) as (r & -> & Hr & Hc & _). cbn [outcome_bind].
  destruct (IH _ (delete_keeps r.1 id Hr)) as (ep' & -> & ? & Hc'). exists ep'. split; [done|].
  split; [done|]. rewrite <- Hc. done.
Qed.

Lemma planner_exec_keeps ep x : planner_inv ep -> keeps ep (planner_exec ep x).
Proof.
  intros Hep. destruct x as [i now|d now|order now|x]; cbn [planner_exec].
  - unfold SubmitIntent. cbv zeta. case_match; [by exists ep|].
    destruct (IsExpired i now 0); [by exists ep|]. destruct (_ && _ && _) eqn:E.
    + bool_to_prop. cbn [outcome_bind fst]. eexists. split; [done|]. split; [|done].
      destruct Hep as (Hq & Hp & Hn). split; [done|]. split; cbn.
      * apply map_Forall_insert_2; done.
      * unfold PendingCount. cbn. rewrite map_size_insert.
        destruct (pendingValidation ep !! intent_ID i); unfold id; lia.
    + destruct (enqueue_keeps ep i now Hep) as (r & -> & Hr & Hc & _). by exists r.1.
  - unfold OnFlashblockDecision. destruct (pendingValidation ep !! IntentID d) as [i|]; [|by exists ep].
    cbv zeta. pose proof (delete_keeps ep (IntentID d) Hep) as Hd.
    destruct (Action d).
    + destruct (enqueue_keeps _ i now Hd) as (r & -> & Hr & Hc & _). by exists r.1.
    + by eexists.
    + destruct (ModifiedIntent d) as [m|]; [|by eexists].
      destruct (enqueue_keeps _ m now Hd) as (r & -> & Hr & Hc & _). by exists r.1.
  - unfold PruneExpired. destruct (prune_keeps ep order now Hep) as (ep' & -> & Hr & Hc). by eexists.
  - destruct (exec_implements (ep_queue ep) x) as (q' & r & -> & Hq' & _); [apply Hep|].
    cbn [outcome_bind]. eexists. split; [done|]. split; [|done]. split; [done|apply Hep].
Qed.

(** The planner and its queue never get out of step: any interleaving of
    submissions, flashblock decisions, pruning (in any order of the map) and queue
    operations returns without panic, keeps the queue consistent, files every pending
    intent under its identifier, and holds at most the configured number of them. *)
Theorem planner_invariant qc fb pc (xs : list planner_op) :
  exists ep, planner_runs (NewExecutionPlanner (NewOpportunityQueue qc) fb pc) xs = Done ep /\
    planner_inv ep /\ ep_config ep = default DefaultExecutionPlannerConfig pc.
Proof.
  set (ep0 := NewExecutionPlanner _ _ _).
  assert (H0 : planner_inv ep0).
  { split; [apply new_queue_inv|]. split; cbn; [apply map_Forall_empty|]. unfold PendingCount.
    change (pendingValidation ep0) with (∅ : gmap bytes ExecutionIntent). rewrite map_size_empty. lia. }
  change (default DefaultExecutionPlannerConfig pc) with (ep_config ep0).
  clearbody ep0. revert ep0 H0. induction xs as [|x xs IH]; intros ep Hep; [by exists ep|].
  cbn [planner_runs]. destruct (planner_exec_keeps ep x Hep) as (ep1 & -> & H1 & Hc).
  destruct (IH ep1 H1) as (ep' & ? & ? & ?). exists ep'. split; [done|]. split; [done|congruence].
Qed.

Lemma planner_runs_app xs ys ep :
  planner_runs ep (xs ++ ys) = let! ep := planner_runs ep xs in planner_runs ep ys.
Proof.
  revert ep. induction xs as [|x xs IH]; intros ep; [done|]. cbn [app planner_runs].
  destruct (planner_exec ep x); cbn [outcome_bind]; [apply IH|done|done].
Qed.

(** Why an intent that is not expired can be refused: it was enqueued a moment ago, its
    opportunity waits already, was completed a moment ago, or finds the queue full of
    opportunities of at least its priority, which is [0]. *)
Definition refused (ep : ExecutionPlanner) (i : ExecutionIntent) (o : ScoredOpportunity) (now : Z) : Prop :=
  (exists t, recentIDs ep !! intent_ID i = Some t /\ now - t < DedupWindow (ep_config ep)) \/
  is_Some (waiting (ep_queue ep) !! opp_ID o) \/
  (exists t, completed (ep_queue ep) !! opp_ID o = Some t /\ now - t < CooldownPeriod (config (ep_queue ep))) \/
  (MaxSize (config (ep_queue ep)) <= Z.of_nat (size (waiting (ep_queue ep))) /\
   exists id w, waiting (ep_queue ep) !! id = Some w /\ 0 <= Priority w).

(** Where a submitted intent is afterwards: pending under its identifier, or its
    opportunity waits in the queue and its identifier is remembered; or it is refused for
    a reason, and neither the pending intents nor the waiting opportunities changed. *)
Definition filed (ep ep' : ExecutionPlanner) (i : ExecutionIntent) (o : ScoredOpportunity) (now : Z) (accepted : bool) : Prop :=
  if accepted
  then pendingValidation ep' = <[intent_ID i := i]> (pendingValidation ep) /\ ep_queue ep' = ep_queue ep \/
       waiting (ep_queue ep') !! opp_ID o = Some (with_priority 0 o) /\
       recentIDs ep' = <[intent_ID i := now]> (recentIDs ep) /\ pendingValidation ep' = pendingValidation ep
  else refused ep i o now /\ pendingValidation ep' = pendingValidation ep /\
       waiting (ep_queue ep') = waiting (ep_queue ep) /\ recentIDs ep' = recentIDs ep.

Lemma enqueue_filed ep i o now : queue_inv (ep_queue ep) -> Opportunity i = Some o ->
  exists ep' b, enqueueIntent ep i now = Done (ep', b) /\ filed ep ep' i o now b.
Proof.
  intros Hq Ho. unfold enqueueIntent. rewrite Ho.
  destruct (Enqueue_implements (ep_queue ep) (with_priority 0 o) now Hq) as (q' & r & E & _ & _ & A).
  cbn [exec] in E. apply outcome_bind_Done in E as ([q1 b] & -> & [= <- <-]). cbn [outcome_bind fst snd].
  eexists _, b. split; [done|]. unfold filed, refused. cbn [pendingValidation ep_queue recentIDs].
  unfold abstract in A. inversion A; subst; cbn [a_waiting a_completed opp_ID with_priority Priority] in *.
  - split; [|done]. auto.
  - split; [|done]. right; right; left. eauto.
  - split; [|done]. right; right; right. eauto.
  - right. split; [|done]. apply lookup_insert_eq.
  - right. split; [|done]. apply lookup_insert_eq.
Qed.

(** Submitting an intent that is not expired always returns, and files it. *)
Lemma submit_filed ep i o now : queue_inv (ep_queue ep) -> Opportunity i = Some o -> IsExpired i now 0 = false ->
  exists ep' b, SubmitIntent ep i now = Done (ep', b) /\ filed ep ep' i o now b.
Proof.
  intros Hq Ho He. unfold SubmitIntent. cbv zeta. destruct (match recentIDs ep !! _ with Some _ => _ | None => _ end) eqn:Er.
  - exists ep, false. split; [done|]. split; [|done]. left.
    destruct (recentIDs ep !! intent_ID i) as [t|]; [|done]. bool_to_prop. by exists t.
  - rewrite He. destruct (_ && _ && _); [|by apply enqueue_filed]. eexists _, true. split; [done|]. by left.
Qed.

(** A full queue of positive priorities accepts nothing from the planner. *)
Theorem planner_starved ep i o now : Opportunity i = Some o -> queue_inv (ep_queue ep) ->
  maxSize (ep_queue ep) <= Size (ep_queue ep) -> 0 < Size (ep_queue ep) ->
  Forall (fun w => 0 <= Priority w) (GetAll (ep_queue ep)) ->
  exists ep', enqueueIntent ep i now = Done (ep', false).
Proof.
  intros Ho Hq Hfull Hpos Hall. unfold enqueueIntent. rewrite Ho. unfold Enqueue, Size in *.
  cbn [opp_ID with_priority].
  destruct (byID (ep_queue ep) !! opp_ID o); [by eexists|]. case_match; [by eexists|].
  cbn [hp maxSize with_runs]. rewrite (proj2 (Z.leb_le _ _)) by done.
  destruct (last (items (hp (ep_queue ep)))) as [p|] eqn:El.
  - assert (Hp : 0 <= Priority (deref (objs (hp (ep_queue ep))) p)).
    { unfold GetAll in Hall. rewrite Forall_fmap in Hall. rewrite Forall_forall in Hall. apply Hall.
      rewrite last_lookup in El. by eapply list_elem_of_lookup_2. }
    cbn [Priority with_priority]. rewrite (proj2 (Z.leb_le _ _)) by done. by eexists.
  - apply last_None in El. rewrite El in Hpos. done.
Qed.
