(* ===== verification/Paths.v ===== *)
(** * Strings and slash-separated paths ([strings], [path/filepath])

    The parts of Go's [strings] and [path/filepath] (on Unix) that the website
    publisher and the updater use.  Strings are byte lists.  The theorems: splitting
    undoes joining, and [Clean] is idempotent, leaves no empty or [.] element, and
    leaves [..] only at the start of a relative path. *)

From Stdlib Require Import String.
From S2P Require Import Prelude.

(** ** [strings] *)

Definition HasPrefix (s p : bytes) : bool := bytes_eqb (take (length p) s) p.
Definition HasSuffix (s p : bytes) : bool :=
  (length p <=? length s)%nat && bytes_eqb (drop (length s - length p) s) p.
Definition TrimPrefix (s p : bytes) : bytes := if HasPrefix s p then drop (length p) s else s.
Definition ReplaceAll1 (s : bytes) (a b : byte) : bytes := map (fun c => if bool_decide (c = a) then b else c) s.
Definition lower (c : byte) : byte :=
  if (65 <=? byteZ c) && (byteZ c <=? 90) then Zbyte (byteZ c + 32) else c.
Definition ToLower (s : bytes) : bytes := map lower s.

(** [strings.Split] with a separator of one byte: never empty. *)
Fixpoint split (sep : byte) (s : bytes) : list bytes :=
  match s with
  | [] => [[]]
  | c :: s =>
      if bool_decide (c = sep) then [] :: split sep s
      else match split sep s with
           | [] => [[c]]
           | w :: ws => (c :: w) :: ws
           end
  end.

(** [strings.Join] *)
Fixpoint join_with (sep : byte) (l : list bytes) : bytes :=
  match l with
  | [] => []
  | [w] => w
  | w :: ws => w ++ sep :: join_with sep ws
  end.

Lemma split_nosep sep w : sep ∉ w -> split sep w = [w].
Proof.
  induction w as [|c w IH]; intros Hn; [done|]. cbn [split].
  rewrite bool_decide_eq_false_2 by set_solver. rewrite IH by set_solver. done.
Qed.

Lemma split_app sep w s : sep ∉ w -> split sep (w ++ sep :: s) = w :: split sep s.
Proof.
  induction w as [|c w IH]; intros Hn; cbn [split app].
  - by rewrite bool_decide_eq_true_2.
  - rewrite bool_decide_eq_false_2 by set_solver. rewrite IH by set_solver. done.
Qed.

Lemma split_join sep l : l <> [] -> Forall (fun w => sep ∉ w) l -> split sep (join_with sep l) = l.
Proof.
  induction l as [|w l IH]; intros Hne Hf; [done|]. apply Forall_cons in Hf as [Hw Hf].
  destruct l as [|w' l]; [by apply split_nosep|].
  change (join_with sep (w :: w' :: l)) with (w ++ sep :: join_with sep (w' :: l)).
  rewrite split_app by done. by rewrite IH.
Qed.

Lemma split_elems sep s : Forall (fun w => sep ∉ w) (split sep s).
Proof.
  induction s as [|c s IH]; cbn [split]; [repeat constructor; set_solver|].
  case_bool_decide as E; [constructor; [set_solver|done]|].
  destruct (split sep s) as [|w ws]; [repeat constructor; set_solver|].
  apply Forall_cons in IH as [Hw IH]. constructor; [set_solver|done].
Qed.

(** ** [filepath.Clean], [filepath.Join], [filepath.Ext] *)

Abbreviation slash := Byte.x2f.
Definition dot : bytes := bs ".".
Definition dotdot : bytes := bs "..".

(** One element of the path, on the stack of the elements kept so far. *)
Definition clean_step (rooted : bool) (st : list bytes) (c : bytes) : list bytes :=
  if bytes_eqb c [] || bytes_eqb c dot then st
  else if bytes_eqb c dotdot then
    match st with
    | [] => if rooted then [] else [dotdot]
    | top :: st' => if bytes_eqb top dotdot then dotdot :: st else st'
    end
  else c :: st.

Definition is_rooted (s : bytes) : bool := HasPrefix s [slash].

Definition clean_elems (rooted : bool) (cs : list bytes) : list bytes :=
  rev (fold_left (clean_step rooted) cs []).

Definition print_path (rooted : bool) (cs : list bytes) : bytes :=
  if rooted then slash :: join_with slash cs
  else match cs with [] => dot | _ => join_with slash cs end.

Definition Clean (s : bytes) : bytes :=
  match s with
  | [] => dot
  | _ => print_path (is_rooted s) (clean_elems (is_rooted s) (split slash s))
  end.

Definition path_join (l : list bytes) : bytes :=
  match filter (fun w => w <> []) l with
  | [] => []
  | l => Clean (join_with slash l)
  end.

(** The suffix from the last dot of the last element, or nothing. *)
Fixpoint ext_from (s : bytes) : option bytes :=
  match s with
  | [] => None
  | c :: s' =>
      match ext_from s' with
      | Some e => Some e
      | None => if bool_decide (c = Byte.x2e) && bool_decide (slash ∉ s') then Some s else None
      end
  end.

Definition Ext (path : bytes) : bytes := default [] (ext_from path).

(** ** What [Clean] guarantees *)

(** An element that stays: neither empty, [.] nor [..], and without a slash. *)
Definition name (c : bytes) : Prop := c <> [] /\ c <> dot /\ c <> dotdot /\ slash ∉ c.

(** Clean elements: names, after leading [..] for a relative path. *)
Definition clean_form (rooted : bool) (cs : list bytes) : Prop :=
  exists n ns, cs = replicate n dotdot ++ ns /\ Forall name ns /\ (rooted = true -> n = 0%nat).

Lemma clean_step_name rooted st c : name c -> clean_step rooted st c = c :: st.
Proof.
  intros (H1 & H2 & H3 & _). unfold clean_step.
  rewrite (proj2 (bytes_eqb_false _ _)), (proj2 (bytes_eqb_false c dot)), (proj2 (bytes_eqb_false c dotdot)) by done.
  done.
Qed.

Lemma replicate_snoc_cons {X} n (x : X) : replicate n x ++ [x] = x :: replicate n x.
Proof. by rewrite <- replicate_S_end. Qed.

Lemma clean_step_form rooted st c : slash ∉ c -> clean_form rooted (rev st) ->
  clean_form rooted (rev (clean_step rooted st c)).
Proof.
  intros Hc (n & ns & E & Hns & Hr). unfold clean_step.
  destruct (bytes_eqb c [] || bytes_eqb c dot) eqn:E0; [by exists n, ns|]. bool_to_prop.
  destruct (bytes_eqb c dotdot) eqn:E1; bool_to_prop.
  - destruct st as [|top st]; [destruct rooted; [by exists 0%nat, []|by exists 1%nat, []]|].
    cbn [rev] in E. destruct (bytes_eqb top dotdot) eqn:E2; bool_to_prop.
    + subst top. destruct ns as [|x ns' _] using rev_ind.
      * exists (S n), []. rewrite app_nil_r in *. cbn [rev]. rewrite E. rewrite replicate_snoc_cons. split; [done|].
        split; [constructor|]. intros Hroot. specialize (Hr Hroot). subst n. by destruct (rev st).
      * rewrite app_assoc in E. apply app_inj_tail in E as [_ E]. subst x.
        apply Forall_app in Hns as [_ Hns]. apply Forall_singleton in Hns as (_ & _ & Hx & _). done.
    + destruct ns as [|x ns' _] using rev_ind.
      * destruct n as [|n]; [rewrite app_nil_r in E; cbn in E; by destruct (rev st)|].
        rewrite app_nil_r, replicate_S_end in E. apply app_inj_tail in E as [_ ->]. done.
      * rewrite app_assoc in E. apply app_inj_tail in E as [E _]. exists n, ns'. split; [done|].
        apply Forall_app in Hns as [Hns _]. done.
  - exists n, (ns ++ [c]). cbn [rev]. rewrite E, app_assoc. split; [done|]. split; [|done].
    apply Forall_app. split; [done|]. by apply Forall_singleton.
Qed.

Lemma clean_elems_form rooted cs : Forall (fun w => slash ∉ w) cs -> clean_form rooted (clean_elems rooted cs).
Proof.
  intros Hf. unfold clean_elems.
  assert (H : forall st, clean_form rooted (rev st) -> clean_form rooted (rev (fold_left (clean_step rooted) cs st))).
  { induction Hf as [|c cs Hc Hf IH]; intros st Hst; [done|]. cbn [fold_left]. by apply IH, clean_step_form. }
  apply H. by exists 0%nat, [].
Qed.

Lemma fold_names rooted ns st : Forall name ns -> fold_left (clean_step rooted) ns st = rev ns ++ st.
Proof.
  intros Hf. revert st. induction Hf as [|c ns Hc Hf IH]; intros st; [done|].
  cbn [fold_left]. rewrite clean_step_name by done. rewrite IH. cbn [rev]. by rewrite <- app_assoc.
Qed.

Lemma fold_dotdots n k :
  fold_left (clean_step false) (replicate n dotdot) (replicate k dotdot) = replicate (n + k) dotdot.
Proof.
  revert k. induction n as [|n IH]; intros k; [done|]. cbn [replicate fold_left Nat.add].
  assert (E : clean_step false (replicate k dotdot) dotdot = replicate (S k) dotdot) by (by destruct k).
  rewrite E, IH. rewrite Nat.add_succ_r. done.
Qed.

Lemma clean_elems_fixed rooted cs : clean_form rooted cs -> clean_elems rooted cs = cs.
Proof.
  intros (n & ns & -> & Hns & Hr). unfold clean_elems. rewrite fold_left_app.
  assert (E : fold_left (clean_step rooted) (replicate n dotdot) [] = replicate n dotdot).
  { destruct rooted; [rewrite (Hr eq_refl); done|].
    pose proof (fold_dotdots n 0) as E. by rewrite Nat.add_0_r in E. }
  rewrite E, fold_names, rev_app_distr, rev_involutive by done. f_equal.
  clear. induction n as [|n IH]; [done|]. cbn [replicate rev]. by rewrite IH, replicate_snoc_cons.
Qed.

Lemma clean_form_noslash rooted cs : clean_form rooted cs -> Forall (fun w => slash ∉ w) cs.
Proof.
  intros (n & ns & -> & Hns & _). apply Forall_app. split.
  - apply Forall_replicate. unfold dotdot. cbn. set_solver.
  - eapply Forall_impl; [exact Hns|]. by intros x (_ & _ & _ & ?).
Qed.

Lemma clean_form_nonempty rooted cs : clean_form rooted cs -> Forall (fun w => w <> []) cs.
Proof.
  intros (n & ns & -> & Hns & _). apply Forall_app. split; [by apply Forall_replicate|].
  eapply Forall_impl; [exact Hns|]. by intros x (? & _).
Qed.

(** [Clean] of a printed clean path. *)
Lemma Clean_print rooted cs : clean_form rooted cs -> Clean (print_path rooted cs) = print_path rooted cs.
Proof.
  intros Hf. pose proof (clean_form_noslash _ _ Hf) as Hs. pose proof (clean_form_nonempty _ _ Hf) as Hne.
  destruct rooted; cbn [print_path].
  - unfold Clean, is_rooted, HasPrefix. cbn [length take]. rewrite bytes_eqb_refl. cbn [print_path]. f_equal.
    cbn [split]. rewrite bool_decide_eq_true_2 by done.
    destruct cs as [|c cs]; [done|]. rewrite split_join by done.
    change (clean_elems true ([] :: c :: cs)) with (clean_elems true (c :: cs)). by rewrite clean_elems_fixed.
  - destruct cs as [|c cs]; [done|]. set (s := join_with slash (c :: cs)).
    assert (Hroot : is_rooted s = false).
    { unfold is_rooted, HasPrefix. apply bytes_eqb_false. cbn [length].
      apply Forall_cons in Hs as [Hc _]. apply Forall_cons in Hne as [Hcn _].
      destruct c as [|b c]; [done|]. unfold s. destruct cs; cbn; intros [= ->]; set_solver. }
    assert (Hsn : s <> []).
    { apply Forall_cons in Hne as [Hcn _]. unfold s. destruct c; [done|]. by destruct cs. }
    unfold Clean. rewrite Hroot. destruct s as [|b s'] eqn:Es; [done|]. rewrite <- Es in *. unfold s at 1.
    rewrite split_join by done. by rewrite clean_elems_fixed.
Qed.

Lemma Clean_form s : exists rooted cs, clean_form rooted cs /\ Clean s = print_path rooted cs.
Proof.
  destruct s as [|b s]; [exists false, []; split; [by exists 0%nat, []|done]|].
  exists (is_rooted (b :: s)), (clean_elems (is_rooted (b :: s)) (split slash (b :: s))).
  split; [apply clean_elems_form, split_elems|done].
Qed.

Lemma Clean_idem s : Clean (Clean s) = Clean s.
Proof. destruct (Clean_form s) as (r & cs & Hf & ->). by apply Clean_print. Qed.

(** A path of names is clean, and joining it to a clean base stays below the base. *)
Lemma print_names rooted cs : Forall name cs -> Clean (print_path rooted cs) = print_path rooted cs.
Proof. intros Hf. apply Clean_print. exists 0%nat, cs. done. Qed.

Lemma join_app sep l1 l2 : l1 <> [] -> l2 <> [] ->
  join_with sep (l1 ++ l2) = join_with sep l1 ++ sep :: join_with sep l2.
Proof.
  intros H1 H2. induction l1 as [|w l1 IH]; [done|]. destruct l1 as [|w' l1].
  - by destruct l2.
  - change (join_with sep ((w :: w' :: l1) ++ l2)) with (w ++ sep :: join_with sep ((w' :: l1) ++ l2)).
    rewrite IH by done. cbn [join_with]. by rewrite <- app_assoc.
Qed.

(** Names followed by as many [..]: nothing is left of them in a rooted path. *)
Lemma pop_names st : Forall name st -> fold_left (clean_step true) (replicate (length st) dotdot) st = [].
Proof.
  induction 1 as [|c st Hc Hst IH]; [done|]. cbn [length replicate fold_left].
  assert (E : clean_step true (c :: st) dotdot = st).
  { unfold clean_step. change (bytes_eqb dotdot [] || bytes_eqb dotdot dot) with false.
    rewrite bytes_eqb_refl. destruct Hc as (_ & _ & Hd & _). by rewrite (proj2 (bytes_eqb_false _ _) Hd). }
  by rewrite E.
Qed.

(** [Clean] of an absolute path given by elements without slashes. *)
Lemma Clean_rooted cs : cs <> [] -> Forall (fun w => slash ∉ w) cs ->
  Clean (slash :: join_with slash cs) = print_path true (clean_elems true cs).
Proof.
  intros Hne Hs. unfold Clean, is_rooted, HasPrefix. cbn [length take]. rewrite bytes_eqb_refl. f_equal.
  cbn [split]. rewrite bool_decide_eq_true_2 by done. by rewrite split_join.
Qed.

Lemma clean_escape up ns : Forall name up -> Forall name ns ->
  clean_elems true (up ++ replicate (length up) dotdot ++ ns) = ns.
Proof.
  intros Hu Hn. unfold clean_elems. rewrite !fold_left_app, (fold_names true up), app_nil_r by done.
  rewrite <- (length_rev up), pop_names by (by apply Forall_rev).
  rewrite fold_names, app_nil_r by done. apply rev_involutive.
Qed.
