(* ===== verification/Website.v ===== *)
(** * Publishing websites ([content/website.go])

    A website is published from an archive: every regular file is added to the content
    DAG and a manifest maps normalised paths to content identifiers; the manifest is
    itself content.  [GetFile] reads a file back through the manifest.  The archive
    reader is represented by the sequence of results of [tarReader.Next] and of reading
    each body; JSON decoding and the system's table of MIME types are parameters.

    [website_roundtrip]: what is published is served.  [site_root_not_served]: a request
    for the root of a site is not. *)

From Stdlib Require Import String.
From stdpp Require Import sorting.
From S2P Require Import Prelude Json Sha256 Store Dag Paths.

Record SiteFile := { sf_ContentID : bytes; sf_Size : Z; sf_ContentType : bytes }.

Record SiteManifest := {
  sm_Version : Z; sm_RootPath : bytes; sm_Files : gmap bytes SiteFile; sm_TotalSize : Z;
}.

(** ** Paths and content types *)

Definition normalizePath (path : bytes) : bytes :=
  let path := TrimPrefix path (bs "./") in
  let path := TrimPrefix path (bs "/") in
  ReplaceAll1 (Clean path) Byte.x5c slash.

(** The cases of the [switch] of [detectContentType]. *)
Definition content_types : list (string * string) :=
  [(".html", "text/html; charset=utf-8"); (".htm", "text/html; charset=utf-8");
   (".css", "text/css; charset=utf-8");
   (".js", "application/javascript; charset=utf-8"); (".mjs", "application/javascript; charset=utf-8");
   (".json", "application/json; charset=utf-8"); (".png", "image/png");
   (".jpg", "image/jpeg"); (".jpeg", "image/jpeg"); (".gif", "image/gif");
   (".svg", "image/svg+xml"); (".ico", "image/x-icon"); (".webp", "image/webp");
   (".woff", "font/woff"); (".woff2", "font/woff2"); (".ttf", "font/ttf");
   (".eot", "application/vnd.ms-fontobject"); (".otf", "font/otf"); (".mp4", "video/mp4");
   (".webm", "video/webm"); (".mp3", "audio/mpeg"); (".wav", "audio/wav");
   (".pdf", "application/pdf"); (".xml", "application/xml"); (".txt", "text/plain; charset=utf-8");
   (".md", "text/markdown; charset=utf-8"); (".wasm", "application/wasm")]%string.

(** [mime] is [mime.TypeByExtension], which reads tables of the system. *)
Definition detectContentType (mime : bytes -> bytes) (path : bytes) : bytes :=
  let ext := Ext path in
  match find (fun kv => bytes_eqb (bs kv.1) (ToLower ext)) content_types with
  | Some kv => bs kv.2
  | None => if bytes_eqb (mime ext) [] then bs "application/octet-stream" else mime ext
  end.

(** ** The manifest as JSON: keys of maps in order *)

Fixpoint bytes_leb (a b : bytes) : bool :=
  match a, b with
  | [], _ => true
  | _ :: _, [] => false
  | x :: a, y :: b => if byteZ x =? byteZ y then bytes_leb a b else byteZ x <? byteZ y
  end.

Definition file_json (f : SiteFile) : json :=
  jobj [field "content_id" (JStr (sf_ContentID f)); field "size" (JNum (sf_Size f));
        field "content_type" (JStr (sf_ContentType f))].

Definition key_le (a b : bytes * SiteFile) : Prop := bytes_leb a.1 b.1 = true.

#[global] Instance key_le_dec a b : Decision (key_le a b).
Proof. unfold key_le. apply _. Defined.

Definition sorted_files (m : gmap bytes SiteFile) : list (bytes * SiteFile) :=
  merge_sort key_le (map_to_list m).

Definition manifest_json (m : SiteManifest) : bytes :=
  marshal (jobj [field "version" (JNum (sm_Version m)); field "root_path" (JStr (sm_RootPath m));
    field "files" (JObj (map (fun kf => (String.string_of_list_byte kf.1, file_json kf.2)) (sorted_files (sm_Files m))));
    field "total_size" (JNum (sm_TotalSize m))]).

(** ** Publishing *)

(** One result of [tarReader.Next]: a header with the reading of its body, or an error. *)
Inductive tar_flag := TypeReg | TypeDir | TypeOther.
Inductive tar_next := TEntry (name : bytes) (flag : tar_flag) (body : result bytes) | TError.

(** [io.LimitReader(tarReader, 50*1024*1024)] *)
Definition max_file : Z := 50 * 1024 * 1024.
Definition limit (data : bytes) : bytes := take (Z.to_nat (Z.min max_file (Z.of_nat (length data)))) data.

Definition put_file (mime : bytes -> bytes) (name fileData id : bytes) (m : SiteManifest) : SiteManifest :=
  let path := normalizePath name in
  {| sm_Version := sm_Version m; sm_RootPath := sm_RootPath m;
     sm_Files := <[path := {| sf_ContentID := ContentID_Hex id; sf_Size := Z.of_nat (length fileData);
                              sf_ContentType := detectContentType mime path |}]> (sm_Files m);
     sm_TotalSize := u64 (sm_TotalSize m + Z.of_nat (length fileData)) |}.

Fixpoint publish_loop (mime : bytes -> bytes) (b : DAGBuilder) (es : list tar_next) (s : Store)
    (m : SiteManifest) : Store * result SiteManifest :=
  match es with
  | [] => (s, Ok m)
  | TError :: _ => (s, Err "tar read error")
  | TEntry name TypeReg body :: es =>
      match body with
      | Err _ => (s, Err "read file")
      | Ok data =>
          let fileData := limit data in
          let r := Add b s fileData in
          match r.2 with
          | Err _ => (r.1, Err "store file")
          | Ok id => publish_loop mime b es r.1 (put_file mime name fileData id m)
          end
      end
  | TEntry _ _ _ :: es => publish_loop mime b es s m
  end.

Definition new_manifest : SiteManifest :=
  {| sm_Version := 1; sm_RootPath := bs "/"; sm_Files := ∅; sm_TotalSize := 0 |}.

(** [archive] is [None] when the data is not gzip. *)
Definition PublishTarGz (mime : bytes -> bytes) (b : DAGBuilder) (s : Store) (archive : option (list tar_next))
  : Store * result (bytes * SiteManifest) :=
  match archive with
  | None => (s, Err "invalid gzip")
  | Some es =>
      let r := publish_loop mime b es s new_manifest in
      match r.2 with
      | Err e => (r.1, Err e)
      | Ok m =>
          if bool_decide (size (sm_Files m) = 0%nat) then (r.1, Err "archive contains no files")
          else
            let a := Add b r.1 (manifest_json m) in
            match a.2 with
            | Err _ => (a.1, Err "store manifest")
            | Ok id => (a.1, Ok (id, m))
            end
      end
  end.

(** ** Serving *)

Section serving.
Context (unmarshal : bytes -> result SiteManifest) (fuel : nat) (s : Store).

Definition GetManifest (id : bytes) : outcome (result SiteManifest) :=
  let! r := Get fuel s id in
  Done (let? data := r in unmarshal data).

Definition find_file (m : SiteManifest) (path : bytes) : option SiteFile :=
  match sm_Files m !! path with
  | Some f => Some f
  | None =>
      let f1 := if HasSuffix path (bs "/") then None else sm_Files m !! (path ++ bs "/index.html") in
      match f1 with
      | Some f => Some f
      | None => sm_Files m !! (path ++ bs "index.html")
      end
  end.

Definition GetFile (manifestID path : bytes) : outcome (result (bytes * bytes)) :=
  let! r := Get fuel s manifestID in
  match r with
  | Err _ => Done (Err "get manifest")
  | Ok data =>
      match unmarshal data with
      | Err _ => Done (Err "parse manifest")
      | Ok m =>
          let path := normalizePath path in
          let path := if bytes_eqb path [] || bytes_eqb path (bs "/") then bs "index.html" else path in
          match find_file m path with
          | None => Done (Err "file not found")
          | Some f =>
              match ParseContentID (sf_ContentID f) with
              | Err _ => Done (Err "invalid content ID")
              | Ok id =>
                  let! r := Get fuel s id in
                  match r with
                  | Err _ => Done (Err "get content")
                  | Ok data => Done (Ok (data, sf_ContentType f))
                  end
              end
          end
      end
  end.

(** The handler of [/site/] in [cmd/main.go]: a status and a body. *)
Definition serve_site (url : bytes) : outcome (Z * bytes) :=
  let path := TrimPrefix url (bs "/site/") in
  match split slash path with
  | [] => Done (400, bs "missing manifest ID")
  | first :: rest =>
      if bytes_eqb first [] then Done (400, bs "missing manifest ID")
      else match ParseContentID first with
           | Err _ => Done (400, bs "invalid manifest ID")
           | Ok id =>
               let! r := GetFile id (join_with slash rest) in
               match r with
               | Err _ => Done (404, [])
               | Ok (data, _) => Done (200, data)
               end
           end
  end.
End serving.

(** ** What is published is served *)

(** The regular files of an archive, as the reader limits them. *)
Definition reg_files (es : list tar_next) : list (bytes * bytes) :=
  omap (fun e => match e with TEntry name TypeReg (Ok data) => Some (name, limit data) | _ => None end) es.

Definition readable (e : tar_next) : bool :=
  match e with TEntry _ TypeReg (Ok (_ :: _)) => true | TEntry _ TypeReg _ => false | TError => false | _ => true end.

Definition site_manifest (mime : bytes -> bytes) (b : DAGBuilder) (files : list (bytes * bytes)) (m : SiteManifest)
  : SiteManifest :=
  fold_left (fun m f => put_file mime f.1 f.2 (dag_root b f.2) m) files m.

Definition site_nodes (b : DAGBuilder) (files : list (bytes * bytes)) : list bytes :=
  flat_map (fun f => dag_nodes b f.2) files.

Lemma put_nodes_app s l1 l2 : put_nodes (put_nodes s l1) l2 = put_nodes s (l1 ++ l2).
Proof. unfold put_nodes, fold_insert. cbn. by rewrite fold_left_app. Qed.

Lemma put_nodes_nil s : put_nodes s [] = s.
Proof. by destruct s. Qed.

Lemma length_limit data : Z.of_nat (length (limit data)) = Z.min max_file (Z.of_nat (length data)).
Proof. unfold limit, max_file. rewrite length_take. lia. Qed.

Lemma limit_ne (data : bytes) : data <> [] -> limit data <> [].
Proof.
  intros Hd E. apply (f_equal (fun l => Z.of_nat (length l))) in E. rewrite length_limit in E.
  destruct data; [done|]. unfold max_file in E. cbn [length] in E. lia.
Qed.

Lemma publish_loop_spec mime b es s m : forallb readable es = true ->
  publish_loop mime b es s m = (put_nodes s (site_nodes b (reg_files es)), Ok (site_manifest mime b (reg_files es) m)).
Proof.
  revert s m. induction es as [|e es IH]; intros s m Hr; [cbn; by rewrite put_nodes_nil|].
  cbn [forallb] in Hr. bool_to_prop. destruct e as [name flag body|]; [|done].
  destruct flag; [|by apply IH..]. destruct body as [[|x data]|]; [done| |done].
  cbn [publish_loop]. rewrite Add_spec by (by apply limit_ne). cbn [fst snd].
  rewrite IH by done. rewrite put_nodes_app. done.
Qed.

(** The last file with a path owns the entry of the manifest. *)
Lemma site_manifest_other mime b files m p : p ∉ (normalizePath ∘ fst) <$> files ->
  sm_Files (site_manifest mime b files m) !! p = sm_Files m !! p.
Proof.
  revert m. induction files as [|f files IH]; intros m Hp; [done|].
  rewrite fmap_cons, not_elem_of_cons in Hp. destruct Hp as [Hne Hp]. cbn [site_manifest fold_left].
  fold (site_manifest mime b files (put_file mime f.1 f.2 (dag_root b f.2) m)). rewrite IH by done.
  cbn. by rewrite lookup_insert_ne.
Qed.

Lemma site_manifest_lookup mime b pre post name data m :
  normalizePath name ∉ (normalizePath ∘ fst) <$> post ->
  sm_Files (site_manifest mime b (pre ++ (name, data) :: post) m) !! normalizePath name =
  Some {| sf_ContentID := ContentID_Hex (dag_root b data); sf_Size := Z.of_nat (length data);
          sf_ContentType := detectContentType mime (normalizePath name) |}.
Proof.
  intros Hp. unfold site_manifest. rewrite fold_left_app. cbn [fold_left fst snd].
  fold (site_manifest mime b pre m).
  fold (site_manifest mime b post (put_file mime name data (dag_root b data) (site_manifest mime b pre m))).
  rewrite site_manifest_other by done. cbn. apply lookup_insert_eq.
Qed.

Lemma normalizePath_ne path : normalizePath path <> [].
Proof.
  unfold normalizePath. cbv zeta. set (p := TrimPrefix _ _). destruct (Clean_form p) as (r & cs & Hf & ->).
  pose proof (clean_form_nonempty _ _ Hf) as Hne. destruct r; [done|].
  destruct cs as [|c cs]; [done|]. apply Forall_cons in Hne as [Hc _]. destruct c; [done|]. by destruct cs.
Qed.

Lemma manifest_json_ne m : manifest_json m <> [].
Proof. done. Qed.

Section roundtrip.
Context (mime : bytes -> bytes) (unmarshal : bytes -> result SiteManifest) (b : DAGBuilder) (s : Store)
  (es : list tar_next).

Let files := reg_files es.
Let m := site_manifest mime b files new_manifest.

(** What the archive and the decoder must satisfy: files are readable and not empty,
    the nodes written do not collide under SHA-256, and [json.Unmarshal] inverts
    [json.Marshal] on this manifest. *)
Definition publishable : Prop :=
  0 < chunkSize b /\ forallb readable es = true /\ files <> [] /\
  consistent_nodes (site_nodes b files ++ dag_nodes b (manifest_json m)) /\
  Z.of_nat (length (manifest_json m)) <= max_alloc /\
  unmarshal (manifest_json m) = Ok m.

Lemma publish_ok : publishable ->
  PublishTarGz mime b s (Some es) =
  (put_nodes s (site_nodes b files ++ dag_nodes b (manifest_json m)), Ok (dag_root b (manifest_json m), m)).
Proof.
  intros (_ & Hr & Hne & _). unfold PublishTarGz. rewrite publish_loop_spec by done. cbn [fst snd].
  fold files m. rewrite bool_decide_eq_false_2.
  - rewrite Add_spec by apply manifest_json_ne. cbn [fst snd]. by rewrite put_nodes_app.
  - intros E. apply map_size_empty_inv in E. destruct files as [|f l _] eqn:Ef using rev_ind; [done|].
    subst m. destruct f as [name data]. pose proof (site_manifest_lookup mime b l [] name data new_manifest) as Hl.
    rewrite E in Hl. rewrite lookup_empty in Hl. by discriminate Hl; apply not_elem_of_nil.
Qed.

Lemma site_get fuel data : (2 <= fuel)%nat -> publishable -> data <> [] -> Z.of_nat (length data) <= max_alloc ->
  dag_nodes b data ⊆ site_nodes b files ++ dag_nodes b (manifest_json m) ->
  Get fuel (put_nodes s (site_nodes b files ++ dag_nodes b (manifest_json m))) (dag_root b data) = Done (Ok data).
Proof.
  intros Hf (Hcs & _ & _ & Hc & _) Hd Hl Hsub. apply Get_of_nodes; [done..|]. intros n Hn.
  apply put_nodes_lookup; [done|]. by apply Hsub.
Qed.

Lemma site_get_manifest fuel : (2 <= fuel)%nat -> publishable ->
  Get fuel (PublishTarGz mime b s (Some es)).1 (dag_root b (manifest_json m)) = Done (Ok (manifest_json m)).
Proof.
  intros Hf Hp. rewrite publish_ok by done. apply site_get; [done|done|apply manifest_json_ne|apply Hp|].
  intros n Hn. apply elem_of_app. by right.
Qed.
End roundtrip.

Lemma reg_files_bounds es f : forallb readable es = true -> f ∈ reg_files es ->
  f.2 <> [] /\ Z.of_nat (length f.2) <= max_alloc.
Proof.
  intros Hr [e [He Hin]]%list_elem_of_omap. rewrite forallb_forall in Hr.
  specialize (Hr e (proj1 (list_elem_of_In _ _) He)).
  destruct e as [name [] [data|]|]; [|done..]. injection Hin as <-. cbn [snd].
  destruct data as [|x data]; [done|]. split; [by apply limit_ne|].
  rewrite length_limit. unfold max_file, max_alloc. lia.
Qed.

(** C10: Websites are served as published: if the files of an archive can be read and
    none is empty, publishing succeeds, and a request for any file by the name it has
    in the archive returns its data (the first 50 MB) with the content type of its
    path, unless a later file of the archive normalises to the same path or its own
    normalises to [/].  Assumes that SHA-256 does not collide on the nodes written, and
    that the manifest is below the allocation limit and JSON decoding inverts its
    encoding. *)
Theorem website_roundtrip mime unmarshal b s es pre name data post :
  publishable mime unmarshal b es ->
  reg_files es = pre ++ (name, data) :: post ->
  normalizePath name ∉ (normalizePath ∘ fst) <$> post -> normalizePath name <> bs "/" ->
  exists s' id m, PublishTarGz mime b s (Some es) = (s', Ok (id, m)) /\
    forall fuel, (2 <= fuel)%nat ->
      GetFile unmarshal fuel s' id name = Done (Ok (data, detectContentType mime (normalizePath name))).
Proof.
  intros Hp Ef Hlast Hroot. do 3 eexists. split; [by apply (publish_ok mime unmarshal)|].
  intros fuel Hf. pose proof Hp as (Hcs & Hr & Hne & Hc & Hmax & Hu).
  unfold GetFile. rewrite (site_get mime unmarshal) by (done || set_solver). cbn [outcome_bind].
  rewrite Hu. cbv zeta.
  rewrite (proj2 (bytes_eqb_false _ _) (normalizePath_ne name)), (proj2 (bytes_eqb_false _ _) Hroot). cbn [orb].
  unfold find_file. rewrite Ef, site_manifest_lookup by done. cbn [sf_ContentID sf_ContentType].
  rewrite ParseContentID_Hex by apply length_sha256. rewrite <- Ef.
  assert (Hin : (name, data) ∈ reg_files es) by (rewrite Ef; set_solver).
  destruct (reg_files_bounds es _ Hr Hin) as [Hd Hl]. cbn [snd] in *.
  rewrite (site_get mime unmarshal); [done..|].
  intros n Hn. apply elem_of_app. left. unfold site_nodes. apply list_elem_of_In, in_flat_map.
  exists (name, data). split; [by apply list_elem_of_In|by apply list_elem_of_In].
Qed.

Definition ex_mime (_ : bytes) : bytes := [].
Definition ex_archive : list tar_next :=
  [TEntry (bs "site/") TypeDir (Ok []); TEntry (bs "./index.html") TypeReg (Ok (bs "<p>hi</p>"))].
Definition ex_site : SiteManifest := site_manifest ex_mime (NewDAGBuilder 0) (reg_files ex_archive) new_manifest.
Definition ex_unmarshal (d : bytes) : result SiteManifest :=
  if bytes_eqb d (manifest_json ex_site) then Ok ex_site else Err "parse".

Lemma ex_publishable : publishable ex_mime ex_unmarshal (NewDAGBuilder 0) ex_archive.
Proof.
  split; [done|]. split; [vm_compute; reflexivity|]. split; [discriminate|]. split; [|split].
  - intros x y. apply NoDup_fmap_inj_on. apply (bool_decide_unpack _). vm_compute. exact I.
  - apply Z.leb_le. vm_compute. reflexivity.
  - unfold ex_unmarshal. fold ex_site. by rewrite bytes_eqb_refl.
Qed.

Lemma website_roundtrip_witness :
  exists s' id m, PublishTarGz ex_mime (NewDAGBuilder 0) (NewStore "") (Some ex_archive) = (s', Ok (id, m)) /\
    forall fuel, (2 <= fuel)%nat -> GetFile ex_unmarshal fuel s' id (bs "./index.html") =
      Done (Ok (bs "<p>hi</p>", detectContentType ex_mime (normalizePath (bs "./index.html")))).
Proof.
  apply (website_roundtrip ex_mime ex_unmarshal (NewDAGBuilder 0) (NewStore "") ex_archive [] (bs "./index.html") (bs "<p>hi</p>") []).
  - apply ex_publishable.
  - reflexivity.
  - apply not_elem_of_nil.
  - intros E. apply (f_equal (bytes_eqb (bs "/"))) in E. vm_compute in E. discriminate.
Defined.

(** ** Requests for the root of a site *)

(** [filepath.Clean] turns the empty path into [.], so the test for the empty path
    that selects [index.html] never succeeds. *)
Lemma normalizePath_root : normalizePath [] = dot /\ normalizePath (bs "/") = dot /\ normalizePath (bs "./") = dot.
Proof. repeat split. Qed.

(** The root of a site is not served: a request for the empty path or for [/]
    looks up [.], [./index.html] and [.index.html], so in a site without files of these
    names it fails with "file not found", also when the site has an [index.html]; the
    URL that publishing returns ([/site/<id>/]) answers 404. *)
Theorem site_root_not_served unmarshal fuel s id data m :
  length id = 32%nat ->
  Get fuel s id = Done (Ok data) -> unmarshal data = Ok m ->
  sm_Files m !! dot = None -> sm_Files m !! bs "./index.html" = None -> sm_Files m !! bs ".index.html" = None ->
  GetFile unmarshal fuel s id [] = Done (Err "file not found") /\
  GetFile unmarshal fuel s id (bs "/") = Done (Err "file not found") /\
  serve_site unmarshal fuel s (bs "/site/" ++ ContentID_Hex id ++ bs "/") = Done (404, []).
Proof.
  intros Hid Hg Hu H1 H2 H3.
  assert (Hf : forall path, normalizePath path = dot -> GetFile unmarshal fuel s id path = Done (Err "file not found")).
  { intros path Hp. unfold GetFile. rewrite Hg. cbn [outcome_bind]. rewrite Hu, Hp. cbv zeta.
    unfold find_file. change (bytes_eqb dot [] || bytes_eqb dot (bs "/")) with false. cbv iota.
    rewrite H1. change (HasSuffix dot (bs "/")) with false. cbv iota.
    change (dot ++ bs "/index.html") with (bs "./index.html"). rewrite H2.
    change (dot ++ bs "index.html") with (bs ".index.html"). by rewrite H3. }
  split; [by apply Hf|]. split; [by apply Hf|].
  unfold serve_site. cbv zeta.
  assert (Et : TrimPrefix (bs "/site/" ++ ContentID_Hex id ++ bs "/") (bs "/site/") = ContentID_Hex id ++ [slash]).
  { unfold TrimPrefix, HasPrefix. rewrite take_app_length, bytes_eqb_refl. by rewrite drop_app_length. }
  assert (Hns : slash ∉ ContentID_Hex id).
  { intros Hin. apply list_elem_of_In in Hin. unfold ContentID_Hex, hex_encode in Hin.
    apply in_flat_map in Hin as (b & _ & Hb).
    assert (Hc : forallb (fun b => negb (bool_decide (slash ∈ [hex_digit (byteZ b / 16); hex_digit (byteZ b mod 16)]))) all_bytes = true)
      by (vm_compute; reflexivity).
    pose proof (byte_forall _ Hc b) as Hx. cbv beta in Hx. bool_to_prop. by apply Hx, list_elem_of_In. }
  rewrite Et, split_app by done. cbn [split].
  rewrite (proj2 (bytes_eqb_false _ _)).
  2: { intros E. apply (f_equal length) in E. unfold ContentID_Hex in E. rewrite length_hex_encode, Hid in E. done. }
  rewrite ParseContentID_Hex by done. cbn [join_with]. by rewrite Hf.
Qed.

Definition ex_published : Store * result (bytes * SiteManifest) :=
  PublishTarGz ex_mime (NewDAGBuilder 0) (NewStore "") (Some ex_archive).

(** A published [index.html] that the root does not serve. *)
Lemma site_root_not_served_witness :
  let id := dag_root (NewDAGBuilder 0) (manifest_json ex_site) in
  is_Some (sm_Files ex_site !! bs "index.html") /\
  GetFile ex_unmarshal 2 ex_published.1 id [] = Done (Err "file not found") /\
  GetFile ex_unmarshal 2 ex_published.1 id (bs "/") = Done (Err "file not found") /\
  serve_site ex_unmarshal 2 ex_published.1 (bs "/site/" ++ ContentID_Hex id ++ bs "/") = Done (404, []).
Proof.
  intros id. split; [unfold is_Some; vm_compute; eexists; reflexivity|].
  apply (site_root_not_served ex_unmarshal 2 ex_published.1 id (manifest_json ex_site) ex_site).
  - apply length_sha256.
  - exact (site_get_manifest ex_mime ex_unmarshal (NewDAGBuilder 0) (NewStore "") ex_archive 2 (le_n 2) ex_publishable).
  - unfold ex_unmarshal. by rewrite bytes_eqb_refl.
  - apply (site_manifest_other ex_mime). apply (bool_decide_unpack _). vm_compute. exact I.
  - apply (site_manifest_other ex_mime). apply (bool_decide_unpack _). vm_compute. exact I.
  - apply (site_manifest_other ex_mime). apply (bool_decide_unpack _). vm_compute. exact I.
Defined.

(** An archive with an empty regular file cannot be published: [Add] refuses empty
    content and the error aborts the archive. *)
Lemma empty_file_aborts mime b s name es m :
  publish_loop mime b (TEntry name TypeReg (Ok []) :: es) s m = (s, Err "store file").
Proof. done. Qed.
