(* ===== verification/Update.v ===== *)
(** * Self update ([update/types.go], [checker.go], [registry.go])

    The checker reads the hash of the current manifest from a registry contract, fetches
    the manifest from the content network or from a gateway, compares versions, and
    downloads and verifies the binary of the platform.  The environment ([Env]) holds what is
    outside of the program: the replies of the registry and of HTTP servers, the content
    network, the JSON decoder and the file system's verdicts.

    A binary is only accepted when its digest is the one of the manifest
    ([download_verified]) and only newer versions are offered ([only_newer_offered]);
    but nothing ties the manifest to the hash in the registry ([manifest_unauthenticated]),
    its version can point outside of the data directory ([version_escapes]), and a
    failed download is never tried again ([failed_update_not_retried]). *)

From Stdlib Require Import String.
From Stdlib Require Import SpecFloat.
From S2P Require Import Prelude Json Sha256 Float64 Paths.

(** ** Data *)

Record Binary := { URL : bytes; Hash : bytes; bin_Size : Z; Signature : bytes }.

Record Manifest := {
  Version : bytes; Released : Z; Changelog : bytes; Binaries : gmap bytes Binary; MinVersion : bytes;
}.

Record Config := {
  CheckInterval : Z; AutoUpdate : bool; BinaryPath : bytes; DataDir : bytes; CurrentVersion : bytes;
}.

Definition DefaultConfig : Config :=
  {| CheckInterval := 3600 * 10 ^ 9; AutoUpdate := false; BinaryPath := []; DataDir := [];
     CurrentVersion := bs "0.0.0" |}.

Inductive UpdateState :=
| StateIdle | StateChecking | StateDownloading | StateVerifying | StateReady | StateApplying | StateFailed.

Definition UpdateState_String (s : UpdateState) : string :=
  match s with
  | StateIdle => "idle" | StateChecking => "checking" | StateDownloading => "downloading"
  | StateVerifying => "verifying" | StateReady => "ready" | StateApplying => "applying"
  | StateFailed => "failed"
  end.

Record UpdateStatus := {
  LatestVersion : bytes;
  UpdateAvailable : bool;
  ManifestHash : bytes;
  LastChecked : Z;
  LastError : option string;
  DownloadProgress : float64;
  State : UpdateState;
}.

Definition NewChecker_status : UpdateStatus :=
  {| LatestVersion := []; UpdateAvailable := false; ManifestHash := zero32; LastChecked := 0;
     LastError := None; DownloadProgress := f0; State := StateIdle |}.

(** Assignments to the status. *)
Definition set_state (s : UpdateState) (u : UpdateStatus) : UpdateStatus :=
  {| LatestVersion := LatestVersion u; UpdateAvailable := UpdateAvailable u; ManifestHash := ManifestHash u;
     LastChecked := LastChecked u; LastError := LastError u; DownloadProgress := DownloadProgress u; State := s |}.
Definition set_progress (p : float64) (u : UpdateStatus) : UpdateStatus :=
  {| LatestVersion := LatestVersion u; UpdateAvailable := UpdateAvailable u; ManifestHash := ManifestHash u;
     LastChecked := LastChecked u; LastError := LastError u; DownloadProgress := p; State := State u |}.
Definition set_checked (now : Z) (u : UpdateStatus) : UpdateStatus :=
  {| LatestVersion := LatestVersion u; UpdateAvailable := UpdateAvailable u; ManifestHash := ManifestHash u;
     LastChecked := now; LastError := LastError u; DownloadProgress := DownloadProgress u; State := State u |}.
Definition set_manifest (h latest : bytes) (avail : bool) (u : UpdateStatus) : UpdateStatus :=
  {| LatestVersion := latest; UpdateAvailable := avail; ManifestHash := h;
     LastChecked := LastChecked u; LastError := LastError u; DownloadProgress := DownloadProgress u; State := State u |}.
Definition setError (e : string) (u : UpdateStatus) : UpdateStatus :=
  {| LatestVersion := LatestVersion u; UpdateAvailable := UpdateAvailable u; ManifestHash := ManifestHash u;
     LastChecked := LastChecked u; LastError := Some e; DownloadProgress := DownloadProgress u; State := StateFailed |}.

(** ** The environment *)

Inductive http_reply :=
| HttpFailed                                             (** no response *)
| HttpResponse (status : Z) (body : list bytes) (complete : bool).  (** reads, then EOF or an error *)

Record Env := {
  platformOS : bytes;
  platformArch : bytes;
  registry_reply : result bytes;                         (** [CallContract] of [manifestHash()] *)
  content_fetch : option (bytes -> result bytes);        (** [None]: no content protocol *)
  http_get : bytes -> http_reply;
  unmarshal_manifest : bytes -> result Manifest;
  mkdir_ok : bytes -> bool;
  write_ok : bytes -> bool;
}.

Definition Platform (e : Env) : bytes := platformOS e ++ bs "-" ++ platformArch e.

(** ** The registry client: decoding of the replies *)

Definition GetManifestHash (reply : result bytes) : result bytes :=
  match reply with
  | Err _ => Err "failed to call manifestHash"
  | Ok r => Ok (if (32 <=? length r)%nat then take 32 r else zero32)
  end.

Definition GetLastUpdated (reply : result bytes) : result Z :=
  match reply with
  | Err _ => Err "failed to call lastUpdated"
  | Ok r => Ok (if (length r <? 32)%nat then 0 else u64 (be_int r))
  end.

Definition GetInfo (reply : result bytes) : result (bytes * Z * bytes) :=
  match reply with
  | Err _ => Err "failed to call getInfo"
  | Ok r =>
      if (length r <? 96)%nat then Err "unexpected result length"
      else Ok (take 32 r, u64 (be_int (take 32 (drop 32 r))), take 20 (drop 76 r))
  end.

(** ** Versions *)

Definition is_space (b : byte) : bool :=
  let z := byteZ b in (z =? 9) || (z =? 11) || (z =? 12) || (z =? 13) || (z =? 32).

Fixpoint skip_space (s : bytes) : bytes :=
  match s with b :: t => if is_space b then skip_space t else s | [] => [] end.

Fixpoint take_digits (s : bytes) : bytes :=
  match s with b :: t => if is_digit b then b :: take_digits t else [] | [] => [] end.

Definition digits_val (s : bytes) : Z := fold_left (fun a b => a * 10 + (byteZ b - 48)) s 0.

(** [fmt.Sscanf(part, "%d", &x)] with [x = 0]: spaces, an optional sign, digits; the
    rest is ignored.  A failure, or a value outside of [int64], leaves [0]. *)
Definition scan_d (s : bytes) : Z :=
  let s := skip_space s in
  let neg := HasPrefix s (bs "-") in
  let s := if neg || HasPrefix s (bs "+") then drop 1 s else s in
  let v := digits_val (take_digits s) in
  let v := if neg then - v else v in
  if (- 2 ^ 63 <=? v) && (v <? 2 ^ 63) then v else 0.

Definition parseVersion (v : bytes) : Z * Z * Z :=
  let parts := split Byte.x2e (TrimPrefix v (bs "v")) in
  let part i := match parts !! i with Some p => scan_d p | None => 0 end in
  (part 0%nat, part 1%nat, part 2%nat).

Definition isNewerVersion (cfg : Config) (version : bytes) : bool :=
  let '(c0, c1, c2) := parseVersion (CurrentVersion cfg) in
  let '(n0, n1, n2) := parseVersion version in
  if c0 <? n0 then true
  else if (n0 =? c0) && (c1 <? n1) then true
  else if (n0 =? c0) && (n1 =? c1) && (c2 <? n2) then true
  else false.

(** ** Checking *)

Definition httpFetch (e : Env) (url : bytes) : result bytes :=
  match http_get e url with
  | HttpFailed => Err "request failed"
  | HttpResponse status body complete =>
      if negb (status =? 200) then Err "HTTP status"
      else if complete then Ok (concat body) else Err "read failed"
  end.

Definition fetchFromContent (e : Env) (hash : bytes) : result bytes :=
  match content_fetch e with
  | None => Err "no content protocol"
  | Some fetch => fetch (copy_to 32 hash)
  end.

Definition gateways : list bytes :=
  map bs ["https://ipfs.io/ipfs/"; "https://cloudflare-ipfs.com/ipfs/"; "https://gateway.pinata.cloud/ipfs/"]%string.

Fixpoint try_gateways (e : Env) (hashHex : bytes) (gs : list bytes) : result Manifest :=
  match gs with
  | [] => Err "failed to fetch manifest from any gateway"
  | g :: gs =>
      match httpFetch e (g ++ hashHex) with
      | Err _ => try_gateways e hashHex gs
      | Ok data =>
          match unmarshal_manifest e data with
          | Err _ => try_gateways e hashHex gs
          | Ok m => Ok m
          end
      end
  end.

Definition fetchManifest (e : Env) (hash : bytes) : result Manifest :=
  match content_fetch e with
  | Some _ =>
      match fetchFromContent e hash with
      | Ok data =>
          match unmarshal_manifest e data with
          | Ok m => Ok m
          | Err _ => Err "failed to parse manifest"
          end
      | Err _ => try_gateways e (hex_encode hash) gateways
      end
  | None => try_gateways e (hex_encode hash) gateways
  end.

(** [CheckNow]: the new status and the manifest announced to [OnUpdateAvailable], which
    is also the one downloaded in the background when [AutoUpdate] is set. *)
Definition CheckNow (e : Env) (cfg : Config) (u : UpdateStatus) (now : Z) : UpdateStatus * option Manifest :=
  let u := set_checked now (set_state StateChecking u) in
  match GetManifestHash (registry_reply e) with
  | Err _ => (setError "failed to get manifest hash" u, None)
  | Ok h =>
      if bytes_eqb h zero32 then
        (set_state StateIdle (set_manifest (ManifestHash u) (LatestVersion u) false u), None)
      else if bytes_eqb h (ManifestHash u) then (set_state StateIdle u, None)
      else
        match fetchManifest e h with
        | Err _ => (setError "failed to fetch manifest" u, None)
        | Ok m =>
            if negb (isNewerVersion cfg (Version m)) then
              (set_state StateIdle (set_manifest h (LatestVersion u) (UpdateAvailable u) u), None)
            else (set_state StateIdle (set_manifest h (Version m) true u), Some m)
        end
  end.

(** ** Downloading *)

(** The reads of [downloadWithProgress]: the data so far, the count, the status. *)
Fixpoint read_body (expectedSize : Z) (body : list bytes) (data : bytes) (downloaded : Z) (u : UpdateStatus)
  : bytes * UpdateStatus :=
  match body with
  | [] => (data, u)
  | c :: body =>
      let downloaded' := u64 (downloaded + Z.of_nat (length c)) in
      let u := if (0 <? Z.of_nat (length c)) && (0 <? expectedSize)
               then set_progress (fdiv (f_of_Z downloaded') (f_of_Z expectedSize)) u else u in
      read_body expectedSize body (data ++ c) downloaded' u
  end.

(** Largest allocation of the Go runtime on 64-bit Linux. *)
Definition max_cap : Z := 2 ^ 48.

Definition downloadWithProgress (e : Env) (u : UpdateStatus) (url : bytes) (expectedSize : Z)
  : outcome (UpdateStatus * result bytes) :=
  match http_get e url with
  | HttpFailed => Done (u, Err "request failed")
  | HttpResponse status body complete =>
      if negb (status =? 200) then Done (u, Err "HTTP status")
      else if max_cap <? expectedSize then Panic "makeslice: cap out of range"
      else
        let r := read_body expectedSize body [] 0 u in
        Done (r.2, if complete then Ok r.1 else Err "read failed")
  end.

Definition content_scheme : bytes := bs "content://".

(** The data of a [content://] binary.  The error of the inner scope shadows the
    outer one: whatever fails, the outcome is empty data and no error. *)
Definition content_data (e : Env) (url : bytes) : bytes :=
  match hex_decode (TrimPrefix url content_scheme) with
  | Some decoded =>
      if (length decoded =? 32)%nat
      then match fetchFromContent e decoded with Ok d => d | Err _ => [] end
      else []
  | None => []
  end.

Definition download_dir (cfg : Config) (m : Manifest) : bytes :=
  path_join [DataDir cfg; bs "updates"; Version m].

Definition binary_path (e : Env) (cfg : Config) (m : Manifest) : bytes :=
  path_join [download_dir cfg m; bs "zeam"] ++ (if bytes_eqb (platformOS e) (bs "windows") then bs ".exe" else []).

(** [DownloadUpdate] with the files it writes. *)
Definition DownloadUpdate (e : Env) (cfg : Config) (u : UpdateStatus) (fs : gmap bytes bytes) (m : Manifest)
  : outcome (UpdateStatus * gmap bytes bytes * result unit) :=
  match Binaries m !! Platform e with
  | None => Done (u, fs, Err "no binary available for platform")
  | Some binary =>
      let u := set_progress f0 (set_state StateDownloading u) in
      if negb (mkdir_ok e (download_dir cfg m))
      then Done (setError "failed to create download dir" u, fs, Err "mkdir")
      else
        let! r := if HasPrefix (URL binary) content_scheme
                  then Done (u, Ok (content_data e (URL binary)))
                  else downloadWithProgress e u (URL binary) (bin_Size binary) in
        match r with
        | (u, Err err) => Done (setError "failed to download binary" u, fs, Err err)
        | (u, Ok data) =>
            let u := set_state StateVerifying u in
            match hex_decode (Hash binary) with
            | None => Done (setError "invalid hash in manifest" u, fs, Err "hex")
            | Some expectedHash =>
                if negb (length expectedHash =? 32)%nat
                then Done (setError "invalid hash length in manifest" u, fs, Err "invalid hash length")
                else if negb (bytes_eqb (sha256 data) (copy_to 32 expectedHash))
                then Done (setError "hash mismatch" u, fs, Err "hash mismatch")
                else if negb (write_ok e (binary_path e cfg m))
                then Done (setError "failed to write binary" u, fs, Err "write")
                else Done (set_state StateReady u, <[binary_path e cfg m := data]> fs, Ok tt)
            end
        end
  end.

(** ** Versions *)

(** The order of versions: lexicographic on the three numbers. *)
Definition version_lt (a b : Z * Z * Z) : Prop :=
  let '(a0, a1, a2) := a in let '(b0, b1, b2) := b in
  a0 < b0 \/ a0 = b0 /\ (a1 < b1 \/ a1 = b1 /\ a2 < b2).

Lemma isNewerVersion_spec cfg v :
  isNewerVersion cfg v = true <-> version_lt (parseVersion (CurrentVersion cfg)) (parseVersion v).
Proof.
  unfold isNewerVersion. destruct (parseVersion (CurrentVersion cfg)) as [[c0 c1] c2].
  destruct (parseVersion v) as [[n0 n1] n2]. cbn [version_lt].
  destruct (Z.ltb_spec c0 n0); [split; [lia|done]|].
  destruct (Z.eqb_spec n0 c0); cbn [andb]; [|split; [done|lia]].
  destruct (Z.ltb_spec c1 n1); [split; [lia|done]|].
  destruct (Z.eqb_spec n1 c1); cbn [andb]; [|split; [done|lia]].
  destruct (Z.ltb_spec c2 n2); split; done || lia.
Qed.

Lemma fold_digits_acc d acc :
  fold_left (fun a b => a * 10 + (byteZ b - 48)) (uint_bytes d) (Z.pos acc) = Z.pos (Pos.of_uint_acc d acc).
Proof.
  revert acc. induction d as [|d IH|d IH|d IH|d IH|d IH|d IH|d IH|d IH|d IH|d IH]; intros acc; [done|..];
    cbn [uint_bytes fold_left Pos.of_uint_acc]; rewrite <- IH; f_equal; vm_compute (byteZ _); lia.
Qed.

Lemma digits_val_uint d : digits_val (uint_bytes d) = Z.of_N (Pos.of_uint d).
Proof.
  unfold digits_val. induction d as [|d IH|d IH|d IH|d IH|d IH|d IH|d IH|d IH|d IH|d IH]; [done|done|..];
    cbn [uint_bytes fold_left Pos.of_uint Z.of_N]; apply fold_digits_acc.
Qed.

Lemma uint_bytes_digits d : forallb is_digit (uint_bytes d) = true.
Proof. by induction d. Qed.

(** A number of a version prints as digits and reads back. *)
Lemma dec_digits z : 0 <= z -> forallb is_digit (dec z) = true /\ digits_val (dec z) = z.
Proof.
  intros Hz. unfold dec. pose proof (DecimalZ.of_to z) as E.
  destruct (Z.to_int z) as [u|u] eqn:Eu.
  - split; [apply uint_bytes_digits|]. rewrite digits_val_uint. exact E.
  - destruct z; [discriminate Eu|discriminate Eu|lia].
Qed.

Lemma take_digits_app s t : forallb is_digit s = true ->
  match t with [] => True | b :: _ => is_digit b = false end -> take_digits (s ++ t) = s.
Proof.
  intros Hs Ht. induction s as [|b s IH]; cbn [app take_digits forallb] in *.
  - destruct t; [done|]. cbn. by rewrite Ht.
  - bool_to_prop. by rewrite H, IH.
Qed.

Lemma digit_plain : forallb (fun b => implb (is_digit b)
    (negb (is_space b) && negb (bool_decide (b = Byte.x2d)) && negb (bool_decide (b = Byte.x2b)) &&
     negb (bool_decide (b = Byte.x2e)) && negb (bool_decide (b = Byte.x76)))) all_bytes = true.
Proof. vm_compute. reflexivity. Qed.

Lemma is_digit_plain b : is_digit b = true ->
  is_space b = false /\ b <> Byte.x2d /\ b <> Byte.x2b /\ b <> Byte.x2e /\ b <> Byte.x76.
Proof.
  intros Hb. pose proof (byte_forall _ digit_plain b) as H. cbv beta in H. rewrite Hb in H. cbn [implb] in H.
  bool_to_prop. done.
Qed.

Lemma dec_nonempty z : 0 <= z -> dec z <> [].
Proof.
  intros Hz. unfold dec. destruct (Z.to_int z) as [[]|] eqn:E; try done. by apply to_int_nonnil in E.
Qed.

Lemma scan_dec z t : 0 <= z < 2 ^ 63 ->
  match t with [] => True | b :: _ => is_digit b = false end -> scan_d (dec z ++ t) = z.
Proof.
  intros Hz Ht. destruct (dec_digits z) as [Hd Hv]; [lia|]. pose proof (dec_nonempty z ltac:(lia)) as Hne.
  destruct (dec z) as [|b s] eqn:E; [done|].
  assert (Hb : is_digit b = true) by (cbn [forallb] in Hd; bool_to_prop; done).
  destruct (is_digit_plain b Hb) as (Hs & Hm & Hp & _ & _).
  unfold scan_d. cbn [app skip_space]. rewrite Hs. cbv zeta.
  change (HasPrefix (b :: s ++ t) (bs "-")) with (bytes_eqb [b] [Byte.x2d]).
  change (HasPrefix (b :: s ++ t) (bs "+")) with (bytes_eqb [b] [Byte.x2b]).
  rewrite (proj2 (bytes_eqb_false [b] [Byte.x2d])), (proj2 (bytes_eqb_false [b] [Byte.x2b])) by (by intros [=]).
  cbn [orb]. change (b :: s ++ t) with ((b :: s) ++ t). rewrite take_digits_app, Hv by done.
  rewrite (proj2 (Z.leb_le _ _)), (proj2 (Z.ltb_lt _ _)) by lia. done.
Qed.

Lemma dec_no_dot z : 0 <= z -> Byte.x2e ∉ dec z.
Proof.
  intros Hz Hin. destruct (dec_digits z Hz) as [Hd _]. rewrite forallb_forall in Hd.
  apply list_elem_of_In in Hin. by destruct (is_digit_plain _ (Hd _ Hin)) as (_ & _ & _ & ? & _).
Qed.

Lemma dec_no_v z t : 0 <= z -> TrimPrefix (dec z ++ t) (bs "v") = dec z ++ t.
Proof.
  intros Hz. destruct (dec_digits z Hz) as [Hd _]. pose proof (dec_nonempty z Hz).
  destruct (dec z) as [|b s]; [done|]. cbn [forallb] in Hd. bool_to_prop.
  unfold TrimPrefix. cbn [app].
  change (HasPrefix (b :: s ++ t) (bs "v")) with (bytes_eqb [b] [Byte.x76]).
  rewrite (proj2 (bytes_eqb_false [b] [Byte.x76])); [done|]. intros [= ->].
  by destruct (is_digit_plain Byte.x76 ltac:(done)) as (_ & _ & _ & _ & ?).
Qed.

Definition print_version (a b c : Z) (suffix : bytes) : bytes :=
  dec a ++ Byte.x2e :: dec b ++ Byte.x2e :: dec c ++ suffix.

Lemma parse_print_version a b c suffix :
  0 <= a < 2 ^ 63 -> 0 <= b < 2 ^ 63 -> 0 <= c < 2 ^ 63 ->
  match suffix with [] => True | x :: _ => is_digit x = false end ->
  parseVersion (print_version a b c suffix) = (a, b, c) /\
  parseVersion (bs "v" ++ print_version a b c suffix) = (a, b, c).
Proof.
  intros Ha Hb Hc Hx.
  assert (E : forall s, TrimPrefix s (bs "v") = print_version a b c suffix -> parseVersion s = (a, b, c)).
  { intros s Hs. unfold parseVersion. rewrite Hs. unfold print_version.
    rewrite !split_app by (apply dec_no_dot; lia).
    assert (Hsplit : exists p ps, split Byte.x2e (dec c ++ suffix) = p :: ps /\ scan_d p = c).
    { destruct (decide (Byte.x2e ∈ suffix)) as [Hin|Hin].
      - apply list_elem_of_split_l in Hin as (s1 & s2 & -> & Hn).
        exists (dec c ++ s1), (split Byte.x2e s2).
        replace (dec c ++ s1 ++ Byte.x2e :: s2) with ((dec c ++ s1) ++ Byte.x2e :: s2) by (by rewrite <- app_assoc).
        rewrite split_app; [split; [done|]|].
        + apply scan_dec; [lia|]. by destruct s1.
        + apply not_elem_of_app. split; [apply dec_no_dot; lia|done].
      - exists (dec c ++ suffix), []. split; [|by apply scan_dec].
        apply split_nosep, not_elem_of_app. split; [apply dec_no_dot; lia|done]. }
    destruct Hsplit as (p & ps & -> & Hp). cbn [lookup list_lookup]. rewrite Hp.
    pose proof (scan_dec a [] Ha I) as Ea. pose proof (scan_dec b [] Hb I) as Eb.
    rewrite app_nil_r in Ea, Eb. by rewrite Ea, Eb. }
  split; apply E; [apply dec_no_v; lia|].
  unfold TrimPrefix, HasPrefix. cbn [bs String.list_byte_of_string length take app]. done.
Qed.

(** Versions are parsed as printed: [major.minor.patch], with or without the
    prefix [v] and with any suffix that does not continue the number (such as a
    pre-release tag), parses to the three numbers. *)
Theorem version_roundtrip a b c suffix :
  0 <= a < 2 ^ 63 -> 0 <= b < 2 ^ 63 -> 0 <= c < 2 ^ 63 ->
  match suffix with [] => True | x :: _ => is_digit x = false end ->
  parseVersion (print_version a b c suffix) = (a, b, c) /\
  parseVersion (bs "v" ++ print_version a b c suffix) = (a, b, c).
Proof. apply parse_print_version. Qed.

Lemma version_roundtrip_witness :
  parseVersion (print_version 1 12 3 (bs "-beta.2")) = (1, 12, 3) /\
  parseVersion (bs "v" ++ print_version 1 12 3 (bs "-beta.2")) = (1, 12, 3).
Proof. apply version_roundtrip; [lia|lia|lia|reflexivity]. Defined.

(** ** Only verified, newer binaries are written *)















(** What a download does not touch. *)
Definition announced (u : UpdateStatus) : bytes * bool * bytes :=
  (LatestVersion u, UpdateAvailable u, ManifestHash u).

Lemma read_body_announced n body data k u : announced (read_body n body data k u).2 = announced u.
Proof.
  revert data k u. induction body as [|c body IH]; intros data k u; [done|].
  cbn [read_body]. rewrite IH. by destruct (_ && _).
Qed.

Lemma download_announced e cfg u fs m u' fs' r : DownloadUpdate e cfg u fs m = Done (u', fs', r) ->
  announced u' = announced u.
Proof.
  unfold DownloadUpdate. destruct (Binaries m !! Platform e) as [b|]; [|by intros [= <- _ _]].
  cbv zeta. destruct (mkdir_ok e (download_dir cfg m)); cbn [negb]; [|by intros [= <- _ _]].
  intros E. apply outcome_bind_Done in E as ([u1 r1] & Er & E).
  assert (H1 : announced u1 = announced u).
  { destruct (HasPrefix (URL b) content_scheme); [by injection Er as <- _|].
    unfold downloadWithProgress in Er. destruct (http_get e (URL b)) as [|status body c]; [by injection Er as <- _|].
    destruct (negb (status =? 200)); [by injection Er as <- _|].
    destruct (max_cap <? bin_Size b); [done|]. injection Er as <- _. by rewrite read_body_announced. }
  rewrite <- H1. clear Er H1. guards; done.
Qed.







(** ** What the checks leave open *)

(** Downloading a [content://] binary whose digest is the manifest's. *)
Lemma content_download e cfg u fs m b id fetch data :
  Binaries m !! Platform e = Some b -> mkdir_ok e (download_dir cfg m) = true ->
  URL b = content_scheme ++ hex_encode id -> length id = 32%nat ->
  content_fetch e = Some fetch -> fetch id = Ok data ->
  Hash b = hex_encode (sha256 data) -> write_ok e (binary_path e cfg m) = true ->
  exists u', DownloadUpdate e cfg u fs m = Done (u', <[binary_path e cfg m := data]> fs, Ok tt) /\
    State u' = StateReady.
Proof.
  intros Hb Hmk Hu Hid Hc Hf Hh Hw. unfold DownloadUpdate. rewrite Hb, Hmk. cbn [negb]. cbv zeta.
  assert (Ep : HasPrefix (URL b) content_scheme = true).
  { rewrite Hu. unfold HasPrefix. by rewrite take_app_length, bytes_eqb_refl. }
  assert (Et : TrimPrefix (URL b) content_scheme = hex_encode id).
  { unfold TrimPrefix. rewrite Ep, Hu. by rewrite drop_app_length. }
  rewrite Ep. unfold content_data. rewrite Et, hex_decode_encode, Hid. cbn [Nat.eqb].
  unfold fetchFromContent. rewrite Hc, copy_to_id, Hf by done. cbn [outcome_bind].
  rewrite Hh, hex_decode_encode, length_sha256. cbn [negb Nat.eqb].
  rewrite copy_to_id by apply length_sha256. rewrite bytes_eqb_refl, Hw. cbn [negb]. eauto.
Qed.

(** The manifest is not authenticated: if the content network returns any data [d]
    for the hash [h] in the registry (nothing relates the two, and signatures are not
    read), and [d] decodes to a newer manifest with a matching digest for its own
    binary, the checker announces it, and downloading writes that binary and reports it
    ready. *)
Theorem manifest_unauthenticated e cfg u fs now h d m b id fetch data :
  registry_reply e = Ok h -> length h = 32%nat -> h <> zero32 -> h <> ManifestHash u ->
  content_fetch e = Some fetch -> fetch h = Ok d -> unmarshal_manifest e d = Ok m ->
  isNewerVersion cfg (Version m) = true ->
  Binaries m !! Platform e = Some b -> URL b = content_scheme ++ hex_encode id -> length id = 32%nat ->
  fetch id = Ok data -> Hash b = hex_encode (sha256 data) ->
  mkdir_ok e (download_dir cfg m) = true -> write_ok e (binary_path e cfg m) = true ->
  exists u1 u2, CheckNow e cfg u now = (u1, Some m) /\ UpdateAvailable u1 = true /\
    DownloadUpdate e cfg u1 fs m = Done (u2, <[binary_path e cfg m := data]> fs, Ok tt) /\ State u2 = StateReady.
Proof.
  intros Hreg Hlen Hnz Hnew Hc Hfd Hd Hver Hb Hu Hid Hf Hh Hmk Hw.
  destruct (content_download e cfg (set_state StateIdle (set_manifest h (Version m) true
    (set_checked now (set_state StateChecking u)))) fs m b id fetch data) as (u2 & E & HS); [done..|].
  do 2 eexists. split; [|split; [|by split; [exact E|]]]; [|done].
  unfold CheckNow. cbv zeta. unfold GetManifestHash. rewrite Hreg, Hlen. cbn [Nat.leb].
  rewrite take_ge by lia. rewrite (proj2 (bytes_eqb_false _ _) Hnz).
  change (ManifestHash (set_checked now (set_state StateChecking u))) with (ManifestHash u).
  rewrite (proj2 (bytes_eqb_false _ _) Hnew).
  unfold fetchManifest, fetchFromContent. rewrite Hc, copy_to_id, Hfd, Hd, Hver by done. done.
Qed.

(** A failed update is not retried: once a check has recorded the hash of the
    manifest, checks that read the same hash from the registry only return to the idle
    state; they announce nothing and start no download, even after a failed one. *)
Theorem failed_update_not_retried e cfg u fs m u' fs' r h now :
  DownloadUpdate e cfg u fs m = Done (u', fs', r) -> is_ok r = false ->
  registry_reply e = Ok h -> length h = 32%nat -> h <> zero32 -> ManifestHash u = h ->
  forall n : nat,
    let next u := (CheckNow e cfg u now).1 in
    (CheckNow e cfg (Nat.iter n next u') now).2 = None /\ ManifestHash (Nat.iter n next u') = h.
Proof.
  intros E Hr Hreg Hlen Hnz Hm. assert (Hm' : ManifestHash u' = h).
  { apply download_announced in E. by injection E as _ _ ->. }
  assert (Hstep : forall v, ManifestHash v = h -> (CheckNow e cfg v now).2 = None /\ ManifestHash (CheckNow e cfg v now).1 = h).
  { intros v Hv. unfold CheckNow. cbv zeta. unfold GetManifestHash. rewrite Hreg, Hlen. cbn [Nat.leb].
    rewrite take_ge by lia. rewrite (proj2 (bytes_eqb_false _ _) Hnz).
    change (ManifestHash (set_checked now (set_state StateChecking v))) with (ManifestHash v).
    rewrite Hv, bytes_eqb_refl. done. }
  intros n next. assert (Hn : ManifestHash (Nat.iter n next u') = h).
  { induction n as [|n IH]; [done|]. cbn [Nat.iter]. by apply Hstep. }
  split; [by apply Hstep|done].
Qed.

(** A version that leaves the directory of updates: a newer version number followed by
    enough [..] and a target. *)
Definition escaping_version (a b c : Z) (up : nat) (target : list bytes) : bytes :=
  join_with slash (print_version a b c [] :: replicate up dotdot ++ target).

Lemma print_version_name a b c : 0 <= a -> 0 <= b -> 0 <= c -> name (print_version a b c []).
Proof.
  intros Ha Hb Hc. unfold print_version. rewrite app_nil_r.
  destruct (dec_digits a Ha) as [Hda _]. pose proof (dec_nonempty a Ha) as Hne.
  assert (Hs : forall z, 0 <= z -> slash ∉ dec z).
  { intros z Hz Hin. destruct (dec_digits z Hz) as [Hd _]. rewrite forallb_forall in Hd.
    apply list_elem_of_In in Hin. by discriminate (Hd _ Hin). }
  destruct (dec a) as [|x s] eqn:E; [done|]. cbn [forallb] in Hda. bool_to_prop.
  assert (Hx : x <> Byte.x2e) by (by apply is_digit_plain).
  split; [done|]. split; [by intros [=]|]. split; [by intros [=]|].
  rewrite <- E. rewrite not_elem_of_app, not_elem_of_cons, not_elem_of_app, not_elem_of_cons.
  repeat split; try done; by apply Hs.
Qed.

Lemma escape_dir cfg m a b c dir target :
  name (print_version a b c []) -> Forall name dir -> dir <> [] -> DataDir cfg = print_path true dir ->
  Forall name target -> Version m = escaping_version a b c (length dir + 2) target ->
  download_dir cfg m = print_path true target.
Proof.
  intros Hver Hdir Hdne HD Ht HV.
  assert (Hupd : name (bs "updates")) by (repeat split; try done; by apply (bool_decide_unpack _)).
  assert (Hrest : replicate (length dir + 2) dotdot ++ target <> []) by (rewrite Nat.add_comm; done).
  unfold download_dir, path_join. rewrite HD, HV. cbn [print_path].
  set (v := escaping_version _ _ _ _ _). assert (Hv : v <> []).
  { unfold v, escaping_version. destruct Hver as [Hv _]. destruct (print_version a b c []); [done|].
    by destruct (replicate (length dir + 2) dotdot ++ target). }
  rewrite !filter_cons_True by done. rewrite filter_nil.
  change [slash :: join_with slash dir; bs "updates"; v] with ([slash :: join_with slash dir] ++ [bs "updates"; v]).
  rewrite join_app by done.
  replace (join_with slash [slash :: join_with slash dir] ++ slash :: join_with slash [bs "updates"; v])
    with (slash :: join_with slash ((dir ++ [bs "updates"; print_version a b c []]) ++
            replicate (length (dir ++ [bs "updates"; print_version a b c []])) dotdot ++ target)).
  - rewrite Clean_rooted.
    + rewrite clean_escape; [done| |done]. apply Forall_app. split; [done|]. repeat constructor; apply Hupd || apply Hver.
    + by destruct dir.
    + rewrite !Forall_app. split; [split|split].
      * eapply Forall_impl; [exact Hdir|]. by intros x (_ & _ & _ & ?).
      * repeat constructor; [apply Hupd|apply Hver].
      * apply Forall_replicate. apply (bool_decide_unpack _). done.
      * eapply Forall_impl; [exact Ht|]. by intros x (_ & _ & _ & ?).
  - rewrite length_app. cbn [length]. rewrite <- app_assoc.
    rewrite (join_app _ dir) by done. cbn [join_with app]. do 2 f_equal.
Qed.

(** A manifest chooses where the binary is written: with the data directory at an
    absolute path, a version that starts with a newer version number, goes up by [..]
    and down again passes the version test, and the binary is written to any absolute
    directory, as a file named [zeam]. *)
Theorem version_escapes e cfg m a b c dir target :
  0 <= a < 2 ^ 63 -> 0 <= b < 2 ^ 63 -> 0 <= c < 2 ^ 63 ->
  version_lt (parseVersion (CurrentVersion cfg)) (a, b, c) ->
  Forall name dir -> dir <> [] -> DataDir cfg = print_path true dir ->
  Forall name target -> target <> [] ->
  Version m = escaping_version a b c (length dir + 2) target -> platformOS e <> bs "windows" ->
  isNewerVersion cfg (Version m) = true /\
  binary_path e cfg m = print_path true (target ++ [bs "zeam"]).
Proof.
  intros Ha Hb Hc Hlt Hdir Hdne HD Ht Htne HV Hos.
  assert (Hzeam : name (bs "zeam")) by (repeat split; try done; by apply (bool_decide_unpack _)).
  assert (Hver : name (print_version a b c [])) by (apply print_version_name; lia).
  assert (Hrest : replicate (length dir + 2) dotdot ++ target <> []) by (rewrite Nat.add_comm; done).
  split.
  { apply isNewerVersion_spec. rewrite HV. unfold escaping_version.
    change (print_version a b c [] :: ?l) with ([print_version a b c []] ++ l).
    rewrite join_app by done. cbn [join_with]. set (rest := slash :: _).
    replace (print_version a b c [] ++ rest) with (print_version a b c rest)
      by (unfold print_version; rewrite app_nil_r, <- !app_assoc; cbn [app]; by rewrite <- !app_assoc).
    destruct (parse_print_version a b c rest) as [-> _]; done. }
  pose proof (escape_dir cfg m a b c dir target Hver Hdir Hdne HD Ht HV) as Hdirp.
  unfold binary_path. rewrite Hdirp, (proj2 (bytes_eqb_false _ _) Hos), app_nil_r.
  unfold path_join. rewrite !filter_cons_True by done. rewrite filter_nil.
  cbn [print_path]. change [slash :: join_with slash target; bs "zeam"] with ([slash :: join_with slash target] ++ [bs "zeam"]).
  rewrite join_app by done. cbn [join_with app].
  replace (slash :: join_with slash target ++ slash :: bs "zeam") with (print_path true (target ++ [bs "zeam"])).
  - apply print_names. apply Forall_app. split; [done|by constructor].
  - cbn [print_path]. by rewrite join_app.
Qed.

(** *** Examples *)

Definition ex_cfg : Config :=
  {| CheckInterval := 3600; AutoUpdate := true; BinaryPath := bs "/opt/zeam/zeam";
     DataDir := bs "/home/zeam/.zeam"; CurrentVersion := bs "0.1.0" |}.

Definition ex_hash : bytes := be_bytes 32 1.
Definition ex_binary_id : bytes := be_bytes 32 2.
Definition ex_data : bytes := bs "binary".

Definition ex_manifest (version : bytes) : Manifest :=
  {| Version := version; Released := 0; Changelog := []; MinVersion := [];
     Binaries := {[ bs "linux-amd64" := {| URL := content_scheme ++ hex_encode ex_binary_id;
                                          Hash := hex_encode (sha256 ex_data); bin_Size := 6; Signature := [] |} ]} |}.

(** A network that answers [ex_hash] with a manifest and everything else with the
    binary. *)
Definition ex_fetch (id : bytes) : result bytes := Ok (if bytes_eqb id ex_hash then bs "manifest" else ex_data).

Definition ex_env (version : bytes) : Env :=
  {| platformOS := bs "linux"; platformArch := bs "amd64"; registry_reply := Ok ex_hash;
     content_fetch := Some ex_fetch; http_get := fun _ => HttpFailed;
     unmarshal_manifest := fun _ => Ok (ex_manifest version);
     mkdir_ok := fun _ => true; write_ok := fun _ => true |}.

Lemma manifest_unauthenticated_witness :
  exists u1 u2, CheckNow (ex_env (bs "0.2.0")) ex_cfg NewChecker_status 5 = (u1, Some (ex_manifest (bs "0.2.0"))) /\
    UpdateAvailable u1 = true /\
    DownloadUpdate (ex_env (bs "0.2.0")) ex_cfg u1 ∅ (ex_manifest (bs "0.2.0")) =
      Done (u2, <[binary_path (ex_env (bs "0.2.0")) ex_cfg (ex_manifest (bs "0.2.0")) := ex_data]> ∅, Ok tt) /\
    State u2 = StateReady.
Proof.
  apply (manifest_unauthenticated (ex_env (bs "0.2.0")) ex_cfg NewChecker_status ∅ 5 ex_hash (bs "manifest")
    (ex_manifest (bs "0.2.0"))
    {| URL := content_scheme ++ hex_encode ex_binary_id; Hash := hex_encode (sha256 ex_data); bin_Size := 6; Signature := [] |}
    ex_binary_id ex_fetch ex_data);
    first [reflexivity | apply (proj1 (bytes_eqb_false _ _)); reflexivity | apply lookup_singleton_eq].
Defined.



Lemma failed_update_not_retried_witness :
  exists e u' fs' r, DownloadUpdate e ex_cfg (set_manifest ex_hash (bs "0.2.0") true NewChecker_status) ∅
      (ex_manifest (bs "0.2.0")) = Done (u', fs', r) /\
    forall n : nat, (CheckNow e ex_cfg (Nat.iter n (fun u => (CheckNow e ex_cfg u 9).1) u') 9).2 = None /\
      ManifestHash (Nat.iter n (fun u => (CheckNow e ex_cfg u 9).1) u') = ex_hash.
Proof.
  set (e := {| platformOS := bs "linux"; platformArch := bs "amd64"; registry_reply := Ok ex_hash;
     content_fetch := Some ex_fetch; http_get := fun _ => HttpFailed;
     unmarshal_manifest := fun _ => Ok (ex_manifest (bs "0.2.0"));
     mkdir_ok := fun _ => false; write_ok := fun _ => true |}).
  exists e. do 3 eexists. split; [reflexivity|].
  apply (failed_update_not_retried e ex_cfg (set_manifest ex_hash (bs "0.2.0") true NewChecker_status) ∅ (ex_manifest (bs "0.2.0")) _ _ _ ex_hash 9
    eq_refl eq_refl eq_refl eq_refl); [apply (proj1 (bytes_eqb_false _ _)); reflexivity|reflexivity].
Defined.

Definition evil_version : bytes := escaping_version 9 0 0 5 [bs "usr"; bs "local"; bs "bin"].

Definition nameb (c : bytes) : bool :=
  negb (bytes_eqb c []) && negb (bytes_eqb c dot) && negb (bytes_eqb c dotdot) && negb (bool_decide (slash ∈ c)).

Lemma nameb_names l : forallb nameb l = true -> Forall name l.
Proof.
  intros H. apply Forall_forall. intros c Hc. rewrite forallb_forall in H.
  specialize (H c (proj1 (list_elem_of_In _ _) Hc)). unfold nameb in H. bool_to_prop. done.
Qed.

Lemma version_escapes_witness :
  isNewerVersion ex_cfg evil_version = true /\
  binary_path (ex_env evil_version) ex_cfg (ex_manifest evil_version) = bs "/usr/local/bin/zeam".
Proof.
  apply (version_escapes (ex_env evil_version) ex_cfg (ex_manifest evil_version) 9 0 0
    [bs "home"; bs "zeam"; bs ".zeam"] [bs "usr"; bs "local"; bs "bin"]);
    first [lia | reflexivity | discriminate | apply nameb_names; reflexivity | left; reflexivity].
Defined.

(** The shadowed error: a [content://] binary that cannot be fetched becomes an empty
    file, which is installed when the manifest's digest is that of the empty string and
    reported as a mismatch otherwise. *)
Lemma content_error_is_empty e cfg u fs m b fetch :
  Binaries m !! Platform e = Some b -> mkdir_ok e (download_dir cfg m) = true ->
  HasPrefix (URL b) content_scheme = true -> content_fetch e = Some fetch -> (forall id, is_ok (fetch id) = false) ->
  Hash b = hex_encode (sha256 []) -> write_ok e (binary_path e cfg m) = true ->
  exists u', DownloadUpdate e cfg u fs m = Done (u', <[binary_path e cfg m := []]> fs, Ok tt).
Proof.
  intros Hb Hmk Hp Hc Hf Hh Hw. unfold DownloadUpdate. rewrite Hb, Hmk, Hp. cbn [negb]. cbv zeta.
  assert (E : content_data e (URL b) = []).
  { unfold content_data, fetchFromContent. rewrite Hc. destruct (hex_decode _) as [d|]; [|done].
    case_match; [|done]. specialize (Hf (copy_to 32 d)). by destruct (fetch (copy_to 32 d)). }
  rewrite E. cbn [outcome_bind]. rewrite Hh, hex_decode_encode, length_sha256. cbn [negb Nat.eqb].
  rewrite copy_to_id by apply length_sha256. rewrite bytes_eqb_refl, Hw. cbn [negb]. eauto.
Qed.

(** A manifest can crash the node: the size it claims is passed to [make]. *)
Lemma download_size_panic e cfg u fs m b body :
  Binaries m !! Platform e = Some b -> mkdir_ok e (download_dir cfg m) = true ->
  HasPrefix (URL b) content_scheme = false -> http_get e (URL b) = HttpResponse 200 body true ->
  max_cap < bin_Size b ->
  DownloadUpdate e cfg u fs m = Panic "makeslice: cap out of range".
Proof.
  intros Hb Hmk Hp Hg Hs. unfold DownloadUpdate. rewrite Hb, Hmk, Hp. cbn [negb]. cbv zeta.
  unfold downloadWithProgress. rewrite Hg. cbn [negb Z.eqb Pos.eqb].
  by rewrite (proj2 (Z.ltb_lt _ _) Hs).
Qed.
