(* ===== verification/Applier.v ===== *)
(** * Applying and rolling back updates ([update/applier.go])

    The applier replaces the running binary by renaming files.  The model has a file
    system and a schedule of faults: every system call may fail, and a failed write may
    leave a partial file.  The operations are written in a state monad over the file
    system.  Under every schedule of faults the old binary survives
    ([apply_keeps_old_binary]); without faults applying and rolling back is the identity on
    the binary ([apply_rollback]); cleaning keeps the newest versions. *)

From Stdlib Require Import String Sorted.
From S2P Require Import Prelude Paths.

(** ** The file system *)

Inductive node := File (data : bytes) | Dir.

Record FS := {
  files : gmap bytes node;
  faults : list bool;          (** [true]: the next system call fails *)
  partial : option bytes;      (** what a failed write leaves *)
}.

Definition M (A : Type) : Type := FS -> FS * A.

#[global] Instance M_ret : MRet M := fun _ a s => (s, a).
#[global] Instance M_bind : MBind M := fun _ _ f m s => let r := m s in f r.2 r.1.

(** The verdict on the next system call. *)
Definition faulty : M bool := fun s =>
  match faults s with
  | [] => (s, false)
  | b :: l => ({| files := files s; faults := l; partial := partial s |}, b)
  end.

Definition read_files : M (gmap bytes node) := fun s => (s, files s).
Definition write_files (f : gmap bytes node) : M unit := fun s =>
  ({| files := f; faults := faults s; partial := partial s |}, tt).

Definition is_dir (n : option node) : bool := match n with Some Dir => true | _ => false end.

(** [os.Rename], [os.Remove], [os.Chmod], [os.ReadFile], [os.WriteFile], [os.Stat]; the
    result is whether the call succeeded. *)
Definition Rename (a b : bytes) : M bool :=
  bad ← faulty; f ← read_files;
  match f !! a with
  | Some n => if bad || is_dir (f !! b) then mret false else _ ← write_files (<[b := n]> (delete a f)); mret true
  | None => mret false
  end.

Definition RemoveFile (a : bytes) : M bool :=
  bad ← faulty; f ← read_files;
  match f !! a with
  | Some (File _) => if (bad : bool) then mret false else _ ← write_files (delete a f); mret true
  | _ => mret false
  end.

Definition Chmod (a : bytes) : M bool :=
  bad ← faulty; f ← read_files; mret (negb bad && bool_decide (is_Some (f !! a))).

Definition ReadFile (a : bytes) : M (option bytes) :=
  bad ← faulty; f ← read_files;
  mret match f !! a with Some (File d) => if (bad : bool) then None else Some d | _ => None end.

Definition WriteFile (a d : bytes) : M bool := fun s =>
  let r := faulty s in
  let put d := <[a := File d]> (files s) in
  if r.2 || is_dir (files s !! a)
  then ((write_files match partial s with Some p => if is_dir (files s !! a) then files s else put p
                     | None => files s end r.1).1, false)
  else ((write_files (put d) r.1).1, true).

Definition Stat (a : bytes) : M (option node) :=
  bad ← faulty; f ← read_files; mret (if (bad : bool) then None else f !! a).

(** ** Applying *)

(** The end of an attempt: the process was replaced, or an error was returned. *)
Inductive applied := Restarted (binary : bytes) | Failed (msg : string).

(** The last step, [syscall.Exec] or starting a process, only returns on failure. *)
Definition start (binary : bytes) (msg : string) : M applied :=
  bad ← faulty; mret (if (bad : bool) then Failed msg else Restarted binary).

Definition applyUnix (currentBinary newBinaryPath : bytes) : M applied :=
  let backupPath := currentBinary ++ bs ".backup" in
  ok ← Rename currentBinary backupPath;
  if negb ok then mret (Failed "failed to create backup") else
  ok ← Rename newBinaryPath currentBinary;
  if negb ok then _ ← Rename backupPath currentBinary; mret (Failed "failed to replace binary") else
  ok ← Chmod currentBinary;
  if negb ok then
    _ ← Rename currentBinary newBinaryPath;
    _ ← Rename backupPath currentBinary;
    mret (Failed "failed to set permissions")
  else start currentBinary "exec failed".

Definition applyWindows (currentBinary newBinaryPath : bytes) : M applied :=
  let oldPath := currentBinary ++ bs ".old" in
  _ ← RemoveFile oldPath;
  ok ← Rename currentBinary oldPath;
  if negb ok then mret (Failed "failed to rename current binary") else
  newData ← ReadFile newBinaryPath;
  match newData with
  | None => _ ← Rename oldPath currentBinary; mret (Failed "failed to read new binary")
  | Some d =>
      ok ← WriteFile currentBinary d;
      if negb ok then _ ← Rename oldPath currentBinary; mret (Failed "failed to write new binary")
      else start currentBinary "failed to start new process"
  end.

(** [Apply] and [Rollback] first find the binary: the configured path or the running
    executable, with symbolic links resolved. *)
Record Host := {
  on_windows : bool;
  cfg_BinaryPath : bytes;
  executable : result bytes;
  eval_symlinks : bytes -> result bytes;
}.

Definition current_binary (h : Host) : result bytes :=
  let? p := if bytes_eqb (cfg_BinaryPath h) [] then executable h else Ok (cfg_BinaryPath h) in
  eval_symlinks h p.

Definition Apply (h : Host) (newBinaryPath : bytes) : M applied :=
  match current_binary h with
  | Err _ => mret (Failed "failed to get current executable")
  | Ok currentBinary =>
      info ← Stat newBinaryPath;
      match info with
      | None => mret (Failed "new binary not found")
      | Some Dir => mret (Failed "new binary path is a directory")
      | Some (File _) =>
          if on_windows h then applyWindows currentBinary newBinaryPath
          else applyUnix currentBinary newBinaryPath
      end
  end.

Definition backup_of (h : Host) (currentBinary : bytes) : bytes :=
  currentBinary ++ (if on_windows h then bs ".old" else bs ".backup").

Definition Rollback (h : Host) : M (result unit) :=
  match current_binary h with
  | Err _ => mret (Err "failed to get current executable")
  | Ok currentBinary =>
      let backupPath := backup_of h currentBinary in
      f ← read_files;
      if bool_decide (f !! backupPath = None) then mret (Err "no backup found")
      else
        let tempPath := currentBinary ++ bs ".temp" in
        ok ← Rename currentBinary tempPath;
        if negb ok then mret (Err "failed to move current binary") else
        ok ← Rename backupPath currentBinary;
        if negb ok then _ ← Rename tempPath currentBinary; mret (Err "failed to restore backup") else
        _ ← RemoveFile tempPath; mret (Ok tt)
  end.

(** ** The old binary survives *)

(** The old binary is at its path or at the path of the backup. *)
Definition kept (old : node) (cur backup : bytes) (f : gmap bytes node) : Prop :=
  f !! cur = Some old \/ f !! backup = Some old.

(** What a system call can have done to the files. *)
Lemma Rename_cases a b s :
  let r := Rename a b s in
  r.2 = false /\ files r.1 = files s \/
  exists n, files s !! a = Some n /\ r.2 = true /\ files r.1 = <[b := n]> (delete a (files s)).
Proof.
  unfold Rename, mbind, M_bind, faulty, read_files, mret, M_ret, write_files.
  destruct (faults s) as [|x l]; cbn [fst snd files];
    destruct (files s !! a) as [n|] eqn:E; cbn; try (left; done);
    match goal with |- context[if ?c then _ else _] => destruct c end; cbn; try (left; done); right; eauto.
Qed.

Lemma Rename_ok a b s n : faults s = [] -> files s !! a = Some n -> is_dir (files s !! b) = false ->
  Rename a b s = ({| files := <[b := n]> (delete a (files s)); faults := []; partial := partial s |}, true).
Proof.
  intros Hf Ha Hb. unfold Rename, mbind, M_bind, faulty, read_files, mret, M_ret, write_files.
  rewrite Hf. cbn. rewrite Ha, Hb. cbn. by rewrite Hf.
Qed.

Lemma bind_eq {A B} (m : M A) (k : A -> M B) s : (m ≫= k) s = k (m s).2 (m s).1.
Proof. done. Qed.

Lemma Chmod_files a s : files (Chmod a s).1 = files s.
Proof. unfold Chmod, mbind, M_bind, faulty, read_files. by destruct (faults s). Qed.

Lemma start_files a m s : files (start a m s).1 = files s.
Proof. unfold start, mbind, M_bind, faulty. by destruct (faults s). Qed.

Lemma ReadFile_files a s : files (ReadFile a s).1 = files s.
Proof. unfold ReadFile, mbind, M_bind, faulty, read_files. by destruct (faults s). Qed.

Lemma WriteFile_other a d p s : p <> a -> files (WriteFile a d s).1 !! p = files s !! p.
Proof.
  intros Hp. unfold WriteFile, write_files, faulty.
  destruct (faults s) as [|x l]; cbn [fst snd files];
    match goal with |- context[if ?c then _ else _] => destruct c end; cbn [fst files];
    try (destruct (partial s); [destruct (is_dir _)|]); cbn; rewrite ?lookup_insert_ne by done; done.
Qed.

(** Renaming the backup back, whatever happens, keeps the old binary. *)
Lemma restore_keeps old cur backup s : cur <> backup ->
  files s !! backup = Some old -> kept old cur backup (files (Rename backup cur s).1).
Proof.
  intros Hne Hb. destruct (Rename_cases backup cur s) as [[_ ->]|(n & Hn & _ & ->)]; [by right|].
  left. rewrite lookup_insert_eq. congruence.
Qed.

Lemma suffix_ne (p s : bytes) : s <> [] -> p <> p ++ s.
Proof. intros Hs E. rewrite <- (app_nil_r p) in E at 1. apply app_inv_head in E. done. Qed.

Lemma applyUnix_keeps cur new old s : new <> cur ++ bs ".backup" ->
  files s !! cur = Some old -> kept old cur (cur ++ bs ".backup") (files (applyUnix cur new s).1).
Proof.
  intros Hnew Hcur. set (backup := cur ++ bs ".backup"). assert (Hcb : cur <> backup) by (by apply suffix_ne).
  unfold applyUnix. rewrite bind_eq. fold backup.
  destruct (Rename_cases cur backup s) as [[-> E]|(n & Hn & -> & E)]; cbn [negb].
  { left. cbn. by rewrite E. }
  set (s1 := (Rename cur backup s).1) in *.
  assert (H1 : files s1 !! backup = Some old) by (rewrite E, lookup_insert_eq; congruence).
  rewrite bind_eq. destruct (Rename_cases new cur s1) as [[-> E2]|(n2 & Hn2 & -> & E2)]; cbn [negb].
  { rewrite bind_eq. cbn. apply restore_keeps; [done|]. by rewrite E2. }
  set (s2 := (Rename new cur s1).1) in *.
  assert (H2 : files s2 !! backup = Some old) by (by rewrite E2, lookup_insert_ne, lookup_delete_ne).
  rewrite bind_eq. set (s3 := (Chmod cur s2).1).
  assert (H3 : files s3 !! backup = Some old) by (unfold s3; by rewrite Chmod_files).
  destruct (Chmod cur s2).2; cbn [negb]; [right; by rewrite start_files|].
  rewrite bind_eq. set (s4 := (Rename cur new s3).1).
  assert (H4 : files s4 !! backup = Some old).
  { unfold s4. destruct (Rename_cases cur new s3) as [[_ ->]|(n4 & _ & _ & ->)]; [done|].
    by rewrite lookup_insert_ne, lookup_delete_ne. }
  rewrite bind_eq. cbn. by apply restore_keeps.
Qed.

Lemma applyWindows_keeps cur new old s :
  files s !! cur = Some old -> kept old cur (cur ++ bs ".old") (files (applyWindows cur new s).1).
Proof.
  intros Hcur. set (backup := cur ++ bs ".old"). assert (Hcb : cur <> backup) by (by apply suffix_ne).
  unfold applyWindows. rewrite bind_eq. fold backup. set (s0 := (RemoveFile backup s).1).
  assert (H0 : files s0 !! cur = Some old).
  { unfold s0, RemoveFile, mbind, M_bind, faulty, read_files, mret, M_ret, write_files.
    destruct (faults s) as [|x l]; cbn; (destruct (files s !! backup) as [[]|]; cbn; [|done|done]);
      try (destruct x; cbn); by rewrite ?lookup_delete_ne. }
  rewrite bind_eq. destruct (Rename_cases cur backup s0) as [[-> E]|(n & Hn & -> & E)]; cbn [negb].
  { left. cbn. by rewrite E. }
  set (s1 := (Rename cur backup s0).1) in *.
  assert (H1 : files s1 !! backup = Some old) by (rewrite E, lookup_insert_eq; congruence).
  rewrite bind_eq. assert (H2 : files (ReadFile new s1).1 !! backup = Some old) by (by rewrite ReadFile_files).
  destruct (ReadFile new s1).2 as [d|]; [|rewrite bind_eq; cbn; by apply restore_keeps].
  rewrite bind_eq. set (s3 := (WriteFile cur d (ReadFile new s1).1).1).
  assert (H3 : files s3 !! backup = Some old) by (unfold s3; by rewrite WriteFile_other).
  destruct (WriteFile cur d (ReadFile new s1).1).2; cbn [negb]; [right; by rewrite start_files|].
  rewrite bind_eq. cbn. by apply restore_keeps.
Qed.

Lemma Stat_files a s : files (Stat a s).1 = files s.
Proof. unfold Stat, mbind, M_bind, faulty, read_files. by destruct (faults s). Qed.

(** C17: Applying an update never loses the running binary: under every schedule of
    failing system calls, on Unix and on Windows, the old binary is afterwards at its
    path or at the path of its backup (the new binary is not taken from the backup's
    path). *)
Theorem apply_keeps_old_binary h s cur new old :
  current_binary h = Ok cur -> new <> backup_of h cur -> files s !! cur = Some old ->
  kept old cur (backup_of h cur) (files (Apply h new s).1).
Proof.
  intros Hc Hnew Hcur. unfold Apply. rewrite Hc, bind_eq.
  assert (H1 : files (Stat new s).1 !! cur = Some old) by (by rewrite Stat_files).
  unfold backup_of in *. destruct (Stat new s).2 as [[d|]|]; [|by left|by left].
  destruct (on_windows h); [by apply applyWindows_keeps|by apply applyUnix_keeps].
Qed.

Definition ex_host : Host :=
  {| on_windows := false; cfg_BinaryPath := bs "/opt/zeam"; executable := Err ""; eval_symlinks := Ok |}.

Definition ex_fs (fl : list bool) : FS :=
  {| files := {[ bs "/opt/zeam" := File (bs "old"); bs "/data/zeam" := File (bs "new") ]}; faults := fl; partial := None |}.

Lemma apply_keeps_old_binary_witness :
  kept (File (bs "old")) (bs "/opt/zeam") (bs "/opt/zeam.backup")
    (files (Apply ex_host (bs "/data/zeam") (ex_fs [false; false; false; true; true; true])).1).
Proof.
  apply (apply_keeps_old_binary ex_host (ex_fs [false; false; false; true; true; true])
    (bs "/opt/zeam") (bs "/data/zeam") (File (bs "old"))); [reflexivity|discriminate|reflexivity].
Defined.

(** ** Rolling back *)

Lemma RemoveFile_ok a s d : faults s = [] -> files s !! a = Some (File d) ->
  RemoveFile a s = ({| files := delete a (files s); faults := []; partial := partial s |}, true).
Proof.
  intros Hf Ha. unfold RemoveFile, mbind, M_bind, faulty, read_files, mret, M_ret, write_files.
  rewrite Hf. cbn. rewrite Ha. cbn. by rewrite Hf.
Qed.

Lemma applyUnix_ok cur new s old d : faults s = [] -> new <> cur -> new <> cur ++ bs ".backup" ->
  files s !! cur = Some (File old) -> files s !! new = Some (File d) -> is_dir (files s !! (cur ++ bs ".backup")) = false ->
  applyUnix cur new s =
    ({| files := <[cur := File d]> (delete new (<[cur ++ bs ".backup" := File old]> (delete cur (files s))));
        faults := []; partial := partial s |}, Restarted cur).
Proof.
  intros Hf Hne Hnb Hc Hn Hb. set (backup := cur ++ bs ".backup") in *.
  assert (Hcb : cur <> backup) by (by apply suffix_ne).
  unfold applyUnix. fold backup. rewrite bind_eq, (Rename_ok cur backup s _ Hf Hc Hb). cbn [fst snd negb].
  rewrite bind_eq.
  rewrite (Rename_ok new cur _ (File d)); cbn [fst snd files faults partial];
    [|done|by rewrite lookup_insert_ne, lookup_delete_ne|by rewrite lookup_insert_ne, lookup_delete_eq by done].
  cbn [negb]. rewrite bind_eq. unfold Chmod, start, mbind, M_bind, faulty, read_files, mret, M_ret. cbn [fst snd faults files].
  rewrite lookup_insert_eq. done.
Qed.

(** Applying and rolling back restores the binary: on Unix, without faults,
    [Apply] installs the new binary and restarts, and [Rollback] then puts the old binary back
    and leaves neither backup nor temporary file. *)
Theorem apply_rollback h s cur new old d :
  on_windows h = false -> current_binary h = Ok cur -> faults s = [] ->
  new <> cur -> new <> cur ++ bs ".backup" ->
  files s !! cur = Some (File old) -> files s !! new = Some (File d) ->
  files s !! (cur ++ bs ".backup") = None -> files s !! (cur ++ bs ".temp") = None ->
  exists s1 s2, Apply h new s = (s1, Restarted cur) /\ files s1 !! cur = Some (File d) /\
    Rollback h s1 = (s2, Ok tt) /\ files s2 !! cur = Some (File old) /\
    files s2 !! (cur ++ bs ".backup") = None /\ files s2 !! (cur ++ bs ".temp") = None.
Proof.
  intros Hw Hcb Hf Hne Hnb Hc Hn Hb Ht. set (backup := cur ++ bs ".backup") in *. set (temp := cur ++ bs ".temp") in *.
  assert (H1 : cur <> backup) by (by apply suffix_ne). assert (H2 : cur <> temp) by (by apply suffix_ne).
  assert (H3 : backup <> temp) by (intros E; by apply app_inv_head in E).
  assert (Hnt : new <> temp) by (intros ->; congruence).
  set (f1 := <[cur := File d]> (delete new (<[backup := File old]> (delete cur (files s))))).
  assert (F1 : f1 !! cur = Some (File d)) by apply lookup_insert_eq.
  assert (F2 : f1 !! backup = Some (File old)).
  { unfold f1. rewrite lookup_insert_ne, lookup_delete_ne, lookup_insert_eq by done. done. }
  assert (F3 : f1 !! temp = None).
  { unfold f1. by rewrite lookup_insert_ne, lookup_delete_ne, lookup_insert_ne, lookup_delete_ne by done. }
  eexists. eexists {| files := delete temp (<[cur := File old]> (delete backup (<[temp := File d]> (delete cur f1)))); faults := []; partial := partial s |}.
  split.
  { unfold Apply. rewrite Hcb, bind_eq. unfold Stat, mbind, M_bind, faulty, read_files, mret, M_ret.
    rewrite Hf. cbn [fst snd]. rewrite Hn, Hw. apply (applyUnix_ok cur new s old d); [done..|]. fold backup. by rewrite Hb. }
  cbn [files]. split; [exact F1|]. split.
  { unfold Rollback. rewrite Hcb. unfold backup_of. rewrite Hw. fold backup. rewrite bind_eq. cbn [read_files fst snd files].
    fold f1. rewrite bool_decide_eq_false_2 by (by rewrite F2). fold temp.
    rewrite bind_eq, (Rename_ok cur temp _ (File d)); cbn [fst snd files faults partial]; [|done|done|fold f1; by rewrite F3].
    fold f1. cbn [negb]. rewrite bind_eq, (Rename_ok backup cur _ (File old)); cbn [fst snd files faults partial];
      [|done|by rewrite lookup_insert_ne, lookup_delete_ne by done|by rewrite lookup_insert_ne, lookup_delete_eq by done].
    cbn [negb]. rewrite bind_eq, (RemoveFile_ok temp _ d); cbn [files faults]; [done|done|].
    by rewrite lookup_insert_ne, lookup_delete_ne, lookup_insert_eq by done. }
  cbn [files]. split; [by rewrite lookup_delete_ne, lookup_insert_eq by done|].
  split; [|by rewrite lookup_delete_eq].
  by rewrite lookup_delete_ne, lookup_insert_ne, lookup_delete_eq by done.
Qed.

Lemma apply_rollback_witness :
  exists s1 s2, Apply ex_host (bs "/data/zeam") (ex_fs []) = (s1, Restarted (bs "/opt/zeam")) /\
    files s1 !! bs "/opt/zeam" = Some (File (bs "new")) /\
    Rollback ex_host s1 = (s2, Ok tt) /\ files s2 !! bs "/opt/zeam" = Some (File (bs "old")) /\
    files s2 !! bs "/opt/zeam.backup" = None /\ files s2 !! bs "/opt/zeam.temp" = None.
Proof.
  apply (apply_rollback ex_host (ex_fs []) (bs "/opt/zeam") (bs "/data/zeam") (bs "old") (bs "new"));
    first [reflexivity | discriminate].
Defined.

(** ** Cleaning up *)

Record versionDir := { vd_name : bytes; modTime : Z }.

(** A directory entry: its name, whether it is a directory, its modification time. *)
Definition dir_entry : Type := bytes * bool * option Z.

Definition version_dirs (entries : list dir_entry) : list versionDir :=
  omap (fun e => match e with (n, true, Some t) => Some {| vd_name := n; modTime := t |} | _ => None end) entries.

(** One round of the exchange sort: [x] is at position [i], the list are the positions
    after it; the inner loop swaps when a later entry is newer. *)
Fixpoint exchange (x : versionDir) (l : list versionDir) : versionDir * list versionDir :=
  match l with
  | [] => (x, [])
  | y :: l =>
      if modTime x <? modTime y
      then let r := exchange y l in (r.1, x :: r.2)
      else let r := exchange x l in (r.1, y :: r.2)
  end.

(** The outer loop. *)
Fixpoint exchange_sort (fuel : nat) (l : list versionDir) : list versionDir :=
  match fuel, l with
  | S f, x :: l => let r := exchange x l in r.1 :: exchange_sort f r.2
  | _, _ => l
  end.

(** [CleanupOldVersions]: the directories it removes, in order.  [listing] is the
    result of [os.ReadDir]: [None] when the directory does not exist. *)
Definition CleanupOldVersions (updatesDir : bytes) (listing : result (option (list dir_entry))) (keepVersions : Z)
  : outcome (result (list bytes)) :=
  match listing with
  | Err e => Done (Err e)
  | Ok None => Done (Ok [])
  | Ok (Some entries) =>
      let versions := version_dirs entries in
      let versions := exchange_sort (length versions) versions in
      if keepVersions <? 0 then Panic "index out of range"
      else Done (Ok (map (fun v => path_join [updatesDir; vd_name v]) (drop (Z.to_nat keepVersions) versions)))
  end.

Lemma exchange_spec x l :
  (exchange x l).1 :: (exchange x l).2 ≡ₚ x :: l /\
  Forall (fun v => modTime v <= modTime (exchange x l).1) (x :: l).
Proof.
  revert x. induction l as [|y l IH]; intros x; cbn [exchange]; [split; [done|by repeat constructor]|].
  destruct (Z.ltb_spec (modTime x) (modTime y)) as [Hlt|Hge]; cbn [fst snd].
  - destruct (IH y) as [Hp Hf]. split; [rewrite perm_swap; by rewrite Hp|].
    constructor; [|done]. apply Forall_cons in Hf as [Hy _]. lia.
  - destruct (IH x) as [Hp Hf]. split; [rewrite perm_swap, Hp; apply perm_swap|].
    apply Forall_cons in Hf as [Hx Hf]. constructor; [done|]. constructor; [lia|done].
Qed.

Lemma length_exchange x l : length (exchange x l).2 = length l.
Proof. destruct (exchange_spec x l) as [Hp _]. apply Permutation_length in Hp. cbn in Hp. lia. Qed.

Lemma exchange_sort_spec fuel l : (length l <= fuel)%nat ->
  exchange_sort fuel l ≡ₚ l /\ StronglySorted (fun a b => modTime b <= modTime a) (exchange_sort fuel l).
Proof.
  revert l. induction fuel as [|f IH]; intros [|x l] Hl; cbn [exchange_sort length] in *.
  { split; [reflexivity|apply SSorted_nil]. }
  { lia. }
  { split; [reflexivity|apply SSorted_nil]. }
  destruct (exchange_spec x l) as [Hp Hf]. destruct (IH (exchange x l).2) as [Hp' Hs]; [rewrite length_exchange; lia|].
  split; [by rewrite Hp'|]. constructor; [done|]. rewrite Hp'.
  rewrite <- Hp in Hf. by apply Forall_cons in Hf as [_ Hf].
Qed.

(** Cleaning up keeps the newest versions: with a limit of at least zero, the
    version directories split into those kept and those removed; as many are kept as
    the limit allows, and no removed one is newer than a kept one. *)
Theorem cleanup_keeps_newest dir entries keep : 0 <= keep ->
  exists kept removed, CleanupOldVersions dir (Ok (Some entries)) keep =
      Done (Ok (map (fun v => path_join [dir; vd_name v]) removed)) /\
    kept ++ removed ≡ₚ version_dirs entries /\
    length kept = Nat.min (Z.to_nat keep) (length (version_dirs entries)) /\
    forall k r, k ∈ kept -> r ∈ removed -> modTime r <= modTime k.
Proof.
  intros Hk. unfold CleanupOldVersions. cbv zeta. rewrite (proj2 (Z.ltb_ge _ _)) by lia.
  set (l := version_dirs entries). destruct (exchange_sort_spec (length l) l (le_n _)) as [Hp Hs].
  set (v := exchange_sort (length l) l) in *.
  exists (take (Z.to_nat keep) v), (drop (Z.to_nat keep) v). split; [done|].
  split; [by rewrite take_drop|]. split; [by rewrite length_take, Hp|].
  clear -Hs. generalize (Z.to_nat keep). intros n. revert n. induction Hs as [|x v Hs IH Hf]; intros n k r Hk Hr.
  - rewrite take_nil in Hk. by apply not_elem_of_nil in Hk.
  - destruct n as [|n]; [by apply not_elem_of_nil in Hk|]. cbn [take drop] in *.
    apply elem_of_cons in Hk as [->|Hk]; [|by eapply IH].
    rewrite Forall_forall in Hf. apply Hf.
    rewrite <- (take_drop n v). apply elem_of_app. by right.
Qed.

Lemma cleanup_keeps_newest_witness :
  exists kept removed, CleanupOldVersions (bs "/d/updates") (Ok (Some [(bs "1.0", true, Some 5); (bs "1.2", true, Some 9); (bs "x", false, Some 7)])) 1 =
      Done (Ok (map (fun v => path_join [bs "/d/updates"; vd_name v]) removed)) /\
    kept ++ removed ≡ₚ version_dirs [(bs "1.0", true, Some 5); (bs "1.2", true, Some 9); (bs "x", false, Some 7)] /\
    length kept = Nat.min (Z.to_nat 1) 2 /\
    forall k r, k ∈ kept -> r ∈ removed -> modTime r <= modTime k.
Proof. apply (cleanup_keeps_newest (bs "/d/updates")). lia. Defined.
