(* ===== verification/Positions.v ===== *)
(** * Positions of the arbitrage engine ([arb/positions.go], [Position] in [arb/types.go])

    The manager keeps, per chain and token, an amount split into an available and a
    locked part, targets for the amounts, and plans transfers that move surpluses to
    deficits.  Amounts are [big.Int], so unbounded.  The iteration order of Go's maps is
    an argument.

    The books always balance ([positions_balance]); a rebalancing plan moves no more than
    a surplus or a deficit allows, and leaves no further transfer possible
    ([rebalance_plan_sound]); [GetStats] takes the read lock twice and can deadlock
    ([stats_deadlock]). *)

From Stdlib Require Import String SpecFloat.
From S2P Require Import Prelude Float64.

Record Position := {
  pos_ChainID : Z; pos_Token : bytes; Amount : Z; Available : Z; Locked : Z; LastRebalance : Z;
}.

(** The methods of [Position]. *)
Definition Position_Lock (p : Position) (amount : Z) : Position * bool :=
  if Available p <? amount then (p, false)
  else ({| pos_ChainID := pos_ChainID p; pos_Token := pos_Token p; Amount := Amount p;
           Available := Available p - amount; Locked := Locked p + amount; LastRebalance := LastRebalance p |}, true).

Definition Position_Unlock (p : Position) (amount : Z) : Position :=
  {| pos_ChainID := pos_ChainID p; pos_Token := pos_Token p; Amount := Amount p;
     Available := Available p + amount; Locked := Locked p - amount; LastRebalance := LastRebalance p |}.

Definition UpdateBalance (p : Position) (delta : Z) : Position :=
  {| pos_ChainID := pos_ChainID p; pos_Token := pos_Token p; Amount := Amount p + delta;
     Available := Available p + delta; Locked := Locked p; LastRebalance := LastRebalance p |}.

Record PositionConfig := { RebalanceThreshold : float64; MinRebalanceAmount : Z; RebalanceCheckFreq : Z }.

Definition DefaultPositionConfig : PositionConfig :=
  {| RebalanceThreshold := f_ratio 1 5; MinRebalanceAmount := 10 ^ 17; RebalanceCheckFreq := 300 * 10 ^ 9 |}.

Record PositionManager := {
  positions : gmap Z (gmap bytes Position);
  targets : gmap Z (gmap bytes Z);
  pm_config : PositionConfig;
  totalTrades : Z;
  totalProfitWei : Z;
}.

Definition new_position (chainID : Z) (token : bytes) (amount now : Z) : Position :=
  {| pos_ChainID := chainID; pos_Token := token; Amount := amount; Available := amount; Locked := 0;
     LastRebalance := now |}.

Definition NewPositionManager (initial : gmap Z (gmap bytes Z)) (c : option PositionConfig) (now : Z) : PositionManager :=
  {| positions := map_imap (fun chain m => Some (map_imap (fun token amount => Some (new_position chain token amount now)) m)) initial;
     targets := initial; pm_config := default DefaultPositionConfig c; totalTrades := 0; totalProfitWei := 0 |}.

Definition with_positions (pm : PositionManager) (m : gmap Z (gmap bytes Position)) : PositionManager :=
  {| positions := m; targets := targets pm; pm_config := pm_config pm; totalTrades := totalTrades pm;
     totalProfitWei := totalProfitWei pm |}.

Definition getPosition (pm : PositionManager) (chainID : Z) (token : bytes) : option Position :=
  positions pm !! chainID ≫= (fun m => m !! token).

(** Assignment to the position behind a pointer. *)
Definition set_position (pm : PositionManager) (chainID : Z) (token : bytes) (p : Position) : PositionManager :=
  with_positions pm (<[chainID := <[token := p]> (default ∅ (positions pm !! chainID))]> (positions pm)).

Definition pm_Lock (pm : PositionManager) (chainID : Z) (token : bytes) (amount : Z) : PositionManager * result unit :=
  match getPosition pm chainID token with
  | None => (pm, Err "no position")
  | Some p =>
      if Available p <? amount then (pm, Err "insufficient available balance")
      else (set_position pm chainID token (Position_Lock p amount).1, Ok tt)
  end.

Definition pm_Unlock (pm : PositionManager) (chainID : Z) (token : bytes) (amount : Z) : PositionManager :=
  match getPosition pm chainID token with
  | None => pm
  | Some p => set_position pm chainID token (Position_Unlock p amount)
  end.

Definition trade_in (p : Position) (amount : Z) : Position :=
  {| pos_ChainID := pos_ChainID p; pos_Token := pos_Token p; Amount := Amount p - amount;
     Available := Available p; Locked := Locked p - amount; LastRebalance := LastRebalance p |}.

Definition AdjustAfterTrade (pm : PositionManager) (chainID : Z) (tokenIn tokenOut : bytes) (amountIn amountOut : Z)
  : PositionManager :=
  let pm := match getPosition pm chainID tokenIn with
            | Some p => set_position pm chainID tokenIn (trade_in p amountIn)
            | None => pm
            end in
  let pm := match getPosition pm chainID tokenOut with
            | Some p => set_position pm chainID tokenOut (UpdateBalance p amountOut)
            | None => set_position pm chainID tokenOut (new_position chainID tokenOut amountOut 0)
            end in
  {| positions := positions pm; targets := targets pm; pm_config := pm_config pm;
     totalTrades := u64 (totalTrades pm + 1); totalProfitWei := totalProfitWei pm |}.

Definition RecordProfit (pm : PositionManager) (profit : Z) : PositionManager :=
  {| positions := positions pm; targets := targets pm; pm_config := pm_config pm;
     totalTrades := totalTrades pm; totalProfitWei := totalProfitWei pm + profit |}.

Definition SetTarget (pm : PositionManager) (chainID : Z) (token : bytes) (amount : Z) : PositionManager :=
  {| positions := positions pm; targets := <[chainID := <[token := amount]> (default ∅ (targets pm !! chainID))]> (targets pm);
     pm_config := pm_config pm; totalTrades := totalTrades pm; totalProfitWei := totalProfitWei pm |}.

Definition GetTarget (pm : PositionManager) (chainID : Z) (token : bytes) : option Z :=
  targets pm !! chainID ≫= (fun m => m !! token).

Definition CanExecute (pm : PositionManager) (chainID : Z) (token : bytes) (amount : Z) : bool :=
  match getPosition pm chainID token with Some p => amount <=? Available p | None => false end.

Definition GetAvailable (pm : PositionManager) (chainID : Z) (token : bytes) : Z :=
  match getPosition pm chainID token with Some p => Available p | None => 0 end.

Definition GetMaxTradeSize (pm : PositionManager) (chainID : Z) (token : bytes) (maxPct : float64) : Z :=
  match getPosition pm chainID token with
  | None => 0
  | Some p =>
      let m := big_mul_int (Amount p) maxPct in
      if m <? Available p then m else Available p
  end.

(** All positions: the nested loops over the maps, in some order. *)
Definition all_positions (pm : PositionManager) : list (Z * bytes * Position) :=
  flat_map (fun cm => map (fun tp => (cm.1, tp.1, tp.2)) (map_to_list cm.2)) (map_to_list (positions pm)).

Definition GetTotalValue (pm : PositionManager) : Z := sumZ (map (fun x => Amount x.2) (all_positions pm)).

Record PositionStats := { st_TotalTrades : Z; st_TotalProfitWei : Z; st_TotalValue : Z; st_ChainCount : Z }.

Definition GetStats (pm : PositionManager) : PositionStats :=
  {| st_TotalTrades := totalTrades pm; st_TotalProfitWei := totalProfitWei pm;
     st_TotalValue := GetTotalValue pm; st_ChainCount := Z.of_nat (size (positions pm)) |}.

(** ** Rebalancing *)

(** [new(big.Float).Quo(SetInt(a), SetInt(b))] for [a >= 0] and [b <> 0], as a
    [float64]: the quotient is rounded to the larger precision of the two (at least 64
    bits), then to 53.  The dividend is scaled so that the integer quotient has two more
    bits than the precision, and a sticky bit stands for the remainder. *)
Definition big_quo_float (a b : Z) : float64 :=
  if a =? 0 then f0
  else
    let p := Z.max 64 (Z.max (bitlen a) (bitlen b)) in
    let k := p + 2 + bitlen b in
    let n := a * 2 ^ k in
    let q := n / Z.abs b in
    let q := 2 * q + (if n mod Z.abs b =? 0 then 0 else 1) in
    let r := big_round p q (- k - 1) in
    binary_normalize fprec femax (Z.sgn b * r.1) r.2 false.

Definition deviates (pm : PositionManager) (x : Z * bytes * Position) : bool :=
  match GetTarget pm x.1.1 x.1.2 with
  | None => false
  | Some target =>
      if target =? 0 then false
      else fltb (RebalanceThreshold (pm_config pm)) (big_quo_float (Z.abs (Amount x.2 - target)) target)
  end.

Definition NeedsRebalance (pm : PositionManager) : bool := existsb (deviates pm) (all_positions pm).

Record Imbalance := { im_Chain : Z; im_Token : bytes; Delta : Z }.
Record RebalanceTrade := { FromChain : Z; ToChain : Z; rt_Token : bytes; rt_Amount : Z }.

Definition imbalance_of (pm : PositionManager) (x : Z * bytes * Position) : option Imbalance :=
  match GetTarget pm x.1.1 x.1.2 with
  | None => None
  | Some target =>
      let delta := Amount x.2 - target in
      if Z.abs delta <? Z.abs (MinRebalanceAmount (pm_config pm)) then None
      else Some {| im_Chain := x.1.1; im_Token := x.1.2; Delta := delta |}
  end.

Definition set_delta (d : Z) (i : Imbalance) : Imbalance :=
  {| im_Chain := im_Chain i; im_Token := im_Token i; Delta := d |}.

(** The body of the inner loop for the pair [i], [j]. *)
Definition plan_pair (minAmount : Z) (i j : nat) (st : list Imbalance * list RebalanceTrade)
  : list Imbalance * list RebalanceTrade :=
  match st.1 !! i, st.1 !! j with
  | Some a, Some b =>
      if (i =? j)%nat || (0 <=? Delta b) then st
      else if negb (bytes_eqb (im_Token a) (im_Token b)) then st
      else
        let over := Delta a in
        let under := - Delta b in
        let amount := if under <? over then under else over in
        if minAmount <=? amount then
          (<[j := set_delta (Delta b + amount) b]> (<[i := set_delta (Delta a - amount) a]> st.1),
           st.2 ++ [{| FromChain := im_Chain a; ToChain := im_Chain b; rt_Token := im_Token a; rt_Amount := amount |}])
        else st
  | _, _ => st
  end.

Definition plan_row (minAmount : Z) (st : list Imbalance * list RebalanceTrade) (i : nat)
  : list Imbalance * list RebalanceTrade :=
  match st.1 !! i with
  | Some a => if Delta a <=? 0 then st
              else fold_left (fun st j => plan_pair minAmount i j st) (seq 0 (length st.1)) st
  | None => st
  end.

Definition plan_loop (minAmount : Z) (ims : list Imbalance) : list Imbalance * list RebalanceTrade :=
  fold_left (plan_row minAmount) (seq 0 (length ims)) (ims, []).

(** [order] is the order in which the maps are iterated. *)
Definition GetRebalancePlan (order : list (Z * bytes * Position)) (pm : PositionManager) : list RebalanceTrade :=
  (plan_loop (MinRebalanceAmount (pm_config pm)) (omap (imbalance_of pm) order)).2.

(** ** The books balance *)

Inductive pm_op :=
| PLock (chain : Z) (token : bytes) (amount : Z)
| PUnlock (chain : Z) (token : bytes) (amount : Z)
| PTrade (chain : Z) (tokenIn tokenOut : bytes) (amountIn amountOut : Z)
| PProfit (profit : Z)
| PTarget (chain : Z) (token : bytes) (amount : Z).

Definition pm_exec (pm : PositionManager) (x : pm_op) : PositionManager :=
  match x with
  | PLock c t a => (pm_Lock pm c t a).1
  | PUnlock c t a => pm_Unlock pm c t a
  | PTrade c i o ai ao => AdjustAfterTrade pm c i o ai ao
  | PProfit p => RecordProfit pm p
  | PTarget c t a => SetTarget pm c t a
  end.

(** Callers that only release or spend what is locked, with amounts that are not
    negative. *)
Definition disciplined (pm : PositionManager) (x : pm_op) : bool :=
  match x with
  | PLock c t a => 0 <=? a
  | PUnlock c t a => (0 <=? a) && match getPosition pm c t with Some p => a <=? Locked p | None => true end
  | PTrade c i o ai ao =>
      (0 <=? ai) && (0 <=? ao) && match getPosition pm c i with Some p => ai <=? Locked p | None => true end
  | _ => true
  end.

Fixpoint disciplined_run (pm : PositionManager) (xs : list pm_op) : bool :=
  match xs with [] => true | x :: xs => disciplined pm x && disciplined_run (pm_exec pm x) xs end.

Definition every_position (P : Position -> Prop) (pm : PositionManager) : Prop :=
  forall c t p, getPosition pm c t = Some p -> P p.

Lemma getPosition_set pm c t p c' t' :
  getPosition (set_position pm c t p) c' t' = if bool_decide (c = c' /\ t = t') then Some p else getPosition pm c' t'.
Proof.
  unfold getPosition, set_position. cbn [positions with_positions].
  destruct (decide (c = c')) as [<-|Hc].
  - rewrite lookup_insert_eq. cbn. destruct (decide (t = t')) as [<-|Ht].
    + rewrite lookup_insert_eq, bool_decide_eq_true_2; done.
    + rewrite lookup_insert_ne, bool_decide_eq_false_2 by tauto. by destruct (positions pm !! c).
  - rewrite lookup_insert_ne, bool_decide_eq_false_2 by tauto. done.
Qed.

Lemma every_set P pm c t p : every_position P pm -> P p -> every_position P (set_position pm c t p).
Proof. intros Hpm Hp c' t' p'. rewrite getPosition_set. case_bool_decide; [by intros [= <-]|apply Hpm]. Qed.

Definition balanced (p : Position) : Prop := Amount p = Available p + Locked p.
Definition solvent (p : Position) : Prop := balanced p /\ 0 <= Available p /\ 0 <= Locked p.

Lemma exec_balanced pm x : every_position balanced pm -> every_position balanced (pm_exec pm x).
Proof.
  intros H. assert (Hget : forall c t p, getPosition pm c t = Some p -> balanced p) by apply H.
  destruct x as [c t a|c t a|c i o ai ao|p|c t a]; cbn [pm_exec]; try exact H.
  - unfold pm_Lock. destruct (getPosition pm c t) as [p|] eqn:E; [|done]. case_match eqn:Ea; [done|].
    apply every_set; [done|]. apply Hget in E. unfold Position_Lock. rewrite Ea. cbn. unfold balanced in *. cbn. lia.
  - unfold pm_Unlock. destruct (getPosition pm c t) as [p|] eqn:E; [|done].
    apply every_set; [done|]. apply Hget in E. unfold balanced in *. cbn. lia.
  - unfold AdjustAfterTrade. cbv zeta. set (pm1 := match getPosition pm c i with Some _ => _ | None => _ end).
    assert (Hone : every_position balanced pm1).
    { subst pm1. destruct (getPosition pm c i) as [p|] eqn:E; [|done]. apply every_set; [done|].
      apply Hget in E. unfold balanced in *. cbn. lia. }
    destruct (getPosition pm1 c o) as [p|] eqn:E; apply (every_set balanced pm1 c o); try done; unfold balanced.
    + apply Hone in E. unfold balanced in *. cbn. lia.
    + cbn. lia.
Qed.

Lemma exec_solvent pm x : every_position solvent pm -> disciplined pm x = true -> every_position solvent (pm_exec pm x).
Proof.
  intros H Hd. assert (Hget : forall c t p, getPosition pm c t = Some p -> solvent p) by apply H.
  destruct x as [c t a|c t a|c i o ai ao|p|c t a]; cbn [pm_exec disciplined] in *; bool_to_prop; try exact H.
  - unfold pm_Lock. destruct (getPosition pm c t) as [p|] eqn:E; [|done]. case_match eqn:Ea; [done|]. bool_to_prop.
    apply every_set; [done|]. apply Hget in E. unfold Position_Lock.
    rewrite (proj2 (Z.ltb_ge _ _)) by done. unfold solvent, balanced in *. cbn. lia.
  - unfold pm_Unlock. destruct (getPosition pm c t) as [p|] eqn:E; [|done]. bool_to_prop.
    apply every_set; [done|]. apply Hget in E. unfold solvent, balanced in *. cbn. lia.
  - unfold AdjustAfterTrade. cbv zeta. set (pm1 := match getPosition pm c i with Some _ => _ | None => _ end).
    assert (Hone : every_position solvent pm1).
    { subst pm1. destruct (getPosition pm c i) as [p|] eqn:E; [|done]. bool_to_prop. apply every_set; [done|].
      apply Hget in E. unfold solvent, balanced in *. cbn. lia. }
    destruct (getPosition pm1 c o) as [p|] eqn:E; apply (every_set solvent pm1 c o); try done; unfold solvent, balanced.
    + apply Hone in E. unfold solvent, balanced in *. cbn. lia.
    + cbn. lia.
Qed.

Lemma new_get initial cf now c t p : getPosition (NewPositionManager initial cf now) c t = Some p ->
  exists a m, initial !! c = Some m /\ m !! t = Some a /\ p = new_position c t a now.
Proof.
  unfold getPosition, NewPositionManager. cbn [positions]. rewrite map_lookup_imap.
  destruct (initial !! c) as [m|]; [|done]. cbn. rewrite map_lookup_imap.
  destruct (m !! t) as [a|] eqn:E; [|done]. cbn. intros [= <-]. eauto.
Qed.

(** The books of the position manager balance: after any sequence of locks,
    unlocks, trades, profits and targets on a new manager, every position's amount is
    its available plus its locked part; and if the initial amounts are not negative and
    callers only release or spend what is locked, neither part is ever negative. *)
Theorem positions_balance initial cf now xs c t p :
  getPosition (fold_left pm_exec xs (NewPositionManager initial cf now)) c t = Some p ->
  Amount p = Available p + Locked p /\
  ((forall c m t a, initial !! c = Some m -> m !! t = Some a -> 0 <= a) ->
   disciplined_run (NewPositionManager initial cf now) xs = true -> 0 <= Available p /\ 0 <= Locked p).
Proof.
  intros Hp. split.
  - assert (H : every_position balanced (NewPositionManager initial cf now)).
    { intros c' t' p' (a & m & _ & _ & ->)%new_get. unfold balanced. cbn. lia. }
    revert H Hp. generalize (NewPositionManager initial cf now). induction xs as [|x xs IH]; intros pm H Hp; [by eapply H|].
    cbn [fold_left] in Hp. eapply IH; [|exact Hp]. by apply exec_balanced.
  - intros Hn Hd. assert (H : every_position solvent (NewPositionManager initial cf now)).
    { intros c' t' p' (a & m & Hm & Ha & ->)%new_get. unfold solvent, balanced. cbn.
      pose proof (Hn _ _ _ _ Hm Ha). lia. }
    revert H Hp Hd. generalize (NewPositionManager initial cf now).
    induction xs as [|x xs IH]; intros pm H Hp Hd; [by eapply H|].
    cbn [fold_left disciplined_run] in *. bool_to_prop. eapply IH; [|exact Hp|done]. by apply exec_solvent.
Qed.

Definition ex_initial : gmap Z (gmap bytes Z) := {[ 1 := {[ bs "weth" := 100 ]} ]}.
Definition ex_pm_ops : list pm_op := [PLock 1 (bs "weth") 30; PTrade 1 (bs "weth") (bs "usdc") 20 50; PUnlock 1 (bs "weth") 10].

Lemma positions_balance_witness :
  exists p, getPosition (fold_left pm_exec ex_pm_ops (NewPositionManager ex_initial None 0)) 1 (bs "weth") = Some p /\
    Amount p = Available p + Locked p /\
    ((forall c m t a, ex_initial !! c = Some m -> m !! t = Some a -> 0 <= a) ->
     disciplined_run (NewPositionManager ex_initial None 0) ex_pm_ops = true -> 0 <= Available p /\ 0 <= Locked p).
Proof.
  eexists. split; [vm_compute; reflexivity|].
  apply (positions_balance ex_initial None 0 ex_pm_ops 1 (bs "weth")). vm_compute. reflexivity.
Defined.

(** A trade never exceeds what is available. *)
Lemma GetMaxTradeSize_available pm c t pct :
  GetMaxTradeSize pm c t pct <= Z.max 0 (GetAvailable pm c t).
Proof.
  unfold GetMaxTradeSize, GetAvailable. destruct (getPosition pm c t); [|lia]. cbv zeta. case_match; bool_to_prop; lia.
Qed.

(** ** Rebalancing plans *)

Lemma fold_seq_inv {A} (P : nat -> A -> Prop) (f : A -> nat -> A) n a :
  P 0%nat a -> (forall k a, (k < n)%nat -> P k a -> P (S k) (f a k)) -> P n (fold_left f (seq 0 n) a).
Proof.
  intros H0 Hs. induction n as [|n IH]; [done|]. rewrite seq_S, fold_left_app. cbn [fold_left Nat.add].
  apply Hs; [lia|]. apply IH. intros k b Hk. apply Hs. lia.
Qed.

(** What a plan moves out of, and into, a chain's position of a token. *)
Definition moved_out (ts : list RebalanceTrade) (chain : Z) (token : bytes) : Z :=
  sumZ (map (fun t => if (FromChain t =? chain) && bytes_eqb (rt_Token t) token then rt_Amount t else 0) ts).
Definition moved_in (ts : list RebalanceTrade) (chain : Z) (token : bytes) : Z :=
  sumZ (map (fun t => if (ToChain t =? chain) && bytes_eqb (rt_Token t) token then rt_Amount t else 0) ts).

Section plan.
Context (minAmount : Z) (ims : list Imbalance).
Hypothesis Hmin : 0 < minAmount.
Hypothesis Hkeys : forall i j a b, ims !! i = Some a -> ims !! j = Some b ->
  im_Chain a = im_Chain b -> im_Token a = im_Token b -> i = j.

(** The entry [a] now, where it was [a0] at the start. *)
Definition entry_ok (ts : list RebalanceTrade) (a0 a : Imbalance) : Prop :=
  im_Chain a = im_Chain a0 /\ im_Token a = im_Token a0 /\
  let out := moved_out ts (im_Chain a0) (im_Token a0) in
  let into := moved_in ts (im_Chain a0) (im_Token a0) in
  Delta a = Delta a0 - out + into /\ 0 <= out /\ 0 <= into /\
  (Delta a0 <= 0 -> out = 0 /\ Delta a <= 0) /\ (0 <= Delta a0 -> into = 0 /\ 0 <= Delta a).

Definition plan_inv (st : list Imbalance * list RebalanceTrade) : Prop :=
  length st.1 = length ims /\
  (forall k a0 a, ims !! k = Some a0 -> st.1 !! k = Some a -> entry_ok st.2 a0 a) /\
  Forall (fun t => minAmount <= rt_Amount t /\ exists i j a b, ims !! i = Some a /\ ims !! j = Some b /\
    0 < Delta a /\ Delta b < 0 /\ im_Token a = rt_Token t /\ im_Token b = rt_Token t /\
    FromChain t = im_Chain a /\ ToChain t = im_Chain b) st.2.

Lemma plan_pair_cases i j st :
  plan_pair minAmount i j st = st \/
  exists a b amount, st.1 !! i = Some a /\ st.1 !! j = Some b /\ i <> j /\ im_Token a = im_Token b /\
    amount = Z.min (Delta a) (- Delta b) /\ minAmount <= amount /\
    plan_pair minAmount i j st =
      (<[j := set_delta (Delta b + amount) b]> (<[i := set_delta (Delta a - amount) a]> st.1),
       st.2 ++ [{| FromChain := im_Chain a; ToChain := im_Chain b; rt_Token := im_Token a; rt_Amount := amount |}]).
Proof.
  unfold plan_pair. destruct (st.1 !! i) as [a|]; [|by left]. destruct (st.1 !! j) as [b|]; [|by left].
  destruct (Nat.eqb_spec i j) as [|Hij]; [by left|]. cbn [orb]. destruct (Z.leb_spec 0 (Delta b)); [by left|].
  destruct (bytes_eqb (im_Token a) (im_Token b)) eqn:Et; [|by left]. cbn [negb]. bool_to_prop. cbv zeta.
  match goal with |- context[minAmount <=? ?x] => set (amount := x) end.
  assert (Ea : amount = Z.min (Delta a) (- Delta b)).
  { subst amount. destruct (Z.ltb_spec (- Delta b) (Delta a)); lia. }
  destruct (Z.leb_spec minAmount amount); [|by left]. right. exists a, b, amount. done.
Qed.

Lemma moved_snoc ts t c tok :
  moved_out (ts ++ [t]) c tok = moved_out ts c tok + (if (FromChain t =? c) && bytes_eqb (rt_Token t) tok then rt_Amount t else 0) /\
  moved_in (ts ++ [t]) c tok = moved_in ts c tok + (if (ToChain t =? c) && bytes_eqb (rt_Token t) tok then rt_Amount t else 0).
Proof. unfold moved_out, moved_in. rewrite !map_app, !sumZ_app. cbn [map sumZ]. split; lia. Qed.

Lemma same_key a b : (im_Chain a =? im_Chain b) && bytes_eqb (im_Token a) (im_Token b) = true <->
  im_Chain a = im_Chain b /\ im_Token a = im_Token b.
Proof. rewrite andb_true_iff, Z.eqb_eq, bytes_eqb_true. done. Qed.

Lemma plan_pair_inv i j st : plan_inv st -> plan_inv (plan_pair minAmount i j st).
Proof.
  intros (Hl & He & Ht). destruct (plan_pair_cases i j st) as [->|(a & b & amount & Ha & Hb & Hij & Htok & Eam & Hle & ->)]; [done|].
  destruct (lookup_lt_is_Some_2 ims i) as [a0 Ha0]; [rewrite <- Hl; by eapply lookup_lt_Some|].
  destruct (lookup_lt_is_Some_2 ims j) as [b0 Hb0]; [rewrite <- Hl; by eapply lookup_lt_Some|].
  pose proof (He _ _ _ Ha0 Ha) as (Ac & At & Ea). pose proof (He _ _ _ Hb0 Hb) as (Bc & Bt & Eb).
  cbv zeta in Ea, Eb.
  assert (HA : 0 < Delta a0) by lia. assert (HB : Delta b0 < 0) by lia.
  split; [cbn [fst]; by rewrite !length_insert|]. cbn [fst snd]. split.
  - intros k c0 c Hc0 Hc. unfold entry_ok. cbv zeta.
    destruct (moved_snoc st.2 {| FromChain := im_Chain a; ToChain := im_Chain b; rt_Token := im_Token a; rt_Amount := amount |}
      (im_Chain c0) (im_Token c0)) as [-> ->]. cbn [FromChain ToChain rt_Token rt_Amount].
    assert (Hout : (im_Chain a =? im_Chain c0) && bytes_eqb (im_Token a) (im_Token c0) = bool_decide (k = i)).
    { apply eq_true_iff_eq. rewrite same_key, bool_decide_eq_true. split.
      - intros [E1 E2]. eapply Hkeys; [exact Hc0|exact Ha0|congruence|congruence].
      - intros ->. split; congruence. }
    assert (Hin : (im_Chain b =? im_Chain c0) && bytes_eqb (im_Token a) (im_Token c0) = bool_decide (k = j)).
    { rewrite Htok. apply eq_true_iff_eq. rewrite same_key, bool_decide_eq_true. split.
      - intros [E1 E2]. eapply Hkeys; [exact Hc0|exact Hb0|congruence|congruence].
      - intros ->. split; congruence. }
    rewrite Hout, Hin. destruct (decide (k = j)) as [->|Hkj].
    + rewrite list_lookup_insert_eq in Hc by (rewrite length_insert; by eapply lookup_lt_Some). injection Hc as <-.
      assert (c0 = b0) as -> by congruence. rewrite bool_decide_eq_false_2, bool_decide_eq_true_2 by done.
      split; [done|]. split; [done|]. cbn. lia.
    + rewrite list_lookup_insert_ne in Hc by done. destruct (decide (k = i)) as [->|Hki].
      * rewrite list_lookup_insert_eq in Hc by (by eapply lookup_lt_Some). injection Hc as <-.
        assert (c0 = a0) as -> by congruence. rewrite bool_decide_eq_true_2, bool_decide_eq_false_2 by done.
        split; [done|]. split; [done|]. cbn. lia.
      * rewrite list_lookup_insert_ne in Hc by done. rewrite !bool_decide_eq_false_2 by done.
        pose proof (He _ _ _ Hc0 Hc) as (? & ? & ?). rewrite !Z.add_0_r. done.
  - apply Forall_app. split; [done|]. constructor; [|constructor]. cbn. split; [done|].
    exists i, j, a0, b0. rewrite <- At, <- Bt, <- Ac, <- Bc. done.
Qed.

(** Nothing of at least [minAmount] can be moved from [i] to [j]. *)
Definition blocked (st : list Imbalance * list RebalanceTrade) (i j : nat) : Prop :=
  forall a b, st.1 !! i = Some a -> st.1 !! j = Some b -> i <> j -> im_Token a = im_Token b ->
    Delta a < minAmount \/ - Delta b < minAmount.

Lemma plan_pair_blocks i j st : blocked (plan_pair minAmount i j st) i j.
Proof.
  destruct (plan_pair_cases i j st) as [E|(a & b & amount & Ha & Hb & Hij & Htok & Eam & Hle & ->)].
  - rewrite E. intros a b Ha Hb Hij Htok. unfold plan_pair in E. rewrite Ha, Hb in E.
    rewrite (proj2 (Nat.eqb_neq _ _) Hij) in E. cbn [orb] in E. destruct (Z.leb_spec 0 (Delta b)); [lia|].
    rewrite (proj2 (bytes_eqb_true _ _) Htok) in E. cbn [negb] in E. cbv zeta in E.
    match type of E with context[minAmount <=? ?x] => destruct (Z.leb_spec minAmount x) as [Hx|Hx] end.
    + apply (f_equal (fun s => length s.2)) in E. cbn [snd] in E. rewrite length_app in E. cbn in E. lia.
    + destruct (Z.ltb_spec (- Delta b) (Delta a)); lia.
  - intros a' b' Ha' Hb' _ _. cbn [fst] in *.
    rewrite list_lookup_insert_eq in Hb' by (rewrite length_insert; by eapply lookup_lt_Some). injection Hb' as <-.
    rewrite list_lookup_insert_ne in Ha' by done.
    rewrite list_lookup_insert_eq in Ha' by (by eapply lookup_lt_Some). injection Ha' as <-. cbn. lia.
Qed.

Lemma plan_pair_keeps_blocked i j st p q : blocked st p q -> blocked (plan_pair minAmount i j st) p q.
Proof.
  intros Hb. destruct (plan_pair_cases i j st) as [->|(a & b & amount & Ha & Hb' & Hij & Htok & Eam & Hle & ->)]; [done|].
  assert (Hpos : forall k x', (<[j := set_delta (Delta b + amount) b]> (<[i := set_delta (Delta a - amount) a]> st.1)) !! k = Some x' ->
    exists x, st.1 !! k = Some x /\ im_Token x' = im_Token x /\
      (Delta x' <= Delta x \/ Delta x' <= 0) /\ (Delta x <= Delta x' \/ 0 <= Delta x')).
  { intros k x' Hx. destruct (decide (k = j)) as [->|Hkj].
    - rewrite list_lookup_insert_eq in Hx by (rewrite length_insert; by eapply lookup_lt_Some). injection Hx as <-.
      exists b. cbn. split; [done|]. split; [done|]. lia.
    - rewrite list_lookup_insert_ne in Hx by done. destruct (decide (k = i)) as [->|Hki].
      + rewrite list_lookup_insert_eq in Hx by (by eapply lookup_lt_Some). injection Hx as <-.
        exists a. cbn. split; [done|]. split; [done|]. lia.
      + rewrite list_lookup_insert_ne in Hx by done. exists x'. split; [done|]. split; [done|]. lia. }
  intros x y Hx Hy Hne Hxy. cbn [fst] in *.
  destruct (Hpos _ _ Hx) as (x0 & Hx0 & Tx & Dx & _). destruct (Hpos _ _ Hy) as (y0 & Hy0 & Ty & _ & Dy).
  destruct (Hb x0 y0 Hx0 Hy0 Hne) as [H|H]; [congruence|left|right]; lia.
Qed.

Definition plan_done (n : nat) (st : list Imbalance * list RebalanceTrade) : Prop :=
  plan_inv st /\ forall i j, (i < n)%nat -> (j < length ims)%nat -> blocked st i j.

Lemma plan_row_done k st : (k < length ims)%nat -> plan_done k st -> plan_done (S k) (plan_row minAmount st k).
Proof.
  intros Hk [Hi Hb]. unfold plan_row.
  destruct (lookup_lt_is_Some_2 st.1 k) as [a Ha]; [destruct Hi as [-> _]; done|]. rewrite Ha.
  destruct (Z.leb_spec (Delta a) 0) as [Hle|Hgt].
  { split; [done|]. intros i j Hik Hj. destruct (decide (i = k)) as [->|]; [|apply Hb; lia].
    intros a' b Ha' _ _ _. assert (a' = a) as -> by congruence. lia. }
  assert (El : length st.1 = length ims) by apply Hi. rewrite El.
  destruct (fold_seq_inv (fun n st => plan_inv st /\ (forall i j, (i < k)%nat -> (j < length ims)%nat -> blocked st i j) /\
    (forall j, (j < n)%nat -> blocked st k j)) (fun st j => plan_pair minAmount k j st) (length ims) st) as (Hi' & Hb1 & Hb2).
  - split; [done|]. split; [done|]. intros j Hj. lia.
  - intros n st' Hn (Hi1 & H1 & H2). split; [by apply plan_pair_inv|]. split.
    + intros i j Hik Hj. by apply plan_pair_keeps_blocked, H1.
    + intros j Hj. destruct (decide (j = n)) as [->|]; [apply plan_pair_blocks|].
      apply plan_pair_keeps_blocked, H2. lia.
  - split; [done|]. intros i j Hik Hj. destruct (decide (i = k)) as [->|]; [by apply Hb2|apply Hb1; lia].
Qed.

Lemma plan_loop_done : plan_done (length ims) (plan_loop minAmount ims).
Proof.
  unfold plan_loop. apply fold_seq_inv; [|apply plan_row_done].
  split; [|intros; lia]. split; [done|]. split; [|constructor].
  intros k a0 a H1 H2. cbn [fst snd] in *. assert (a = a0) as -> by congruence.
  split; [done|]. split; [done|]. cbn. lia.
Qed.
End plan.

(** *** The plan of a manager *)

Lemma all_positions_elem pm c t p : (c, t, p) ∈ all_positions pm <-> getPosition pm c t = Some p.
Proof.
  unfold all_positions, getPosition. rewrite list_elem_of_In, in_flat_map. split.
  - intros ([c' m] & Hm & Hx). apply in_map_iff in Hx as ([t' p'] & [= -> -> ->] & Hp).
    apply list_elem_of_In, elem_of_map_to_list in Hm, Hp. cbn in Hp. by rewrite Hm.
  - destruct (positions pm !! c) as [m|] eqn:E; [|done]. cbn. intros Hp. exists (c, m).
    split; [by apply list_elem_of_In, elem_of_map_to_list|]. apply in_map_iff. exists (t, p).
    split; [done|]. by apply list_elem_of_In, elem_of_map_to_list.
Qed.

Lemma all_positions_keys pm : NoDup ((all_positions pm).*1).
Proof.
  unfold all_positions. pose proof (NoDup_fst_map_to_list (positions pm)) as Hn. revert Hn.
  generalize (map_to_list (positions pm)). intros L. induction L as [|[c m] L IH]; intros Hn; [constructor|].
  rewrite fmap_cons in Hn. apply NoDup_cons in Hn as [Hc Hn]. cbn [flat_map]. rewrite fmap_app.
  apply NoDup_app. split; [|split; [|by apply IH]].
  - cbn [fst snd]. rewrite <- (list_fmap_compose (A := bytes * Position)).
    apply NoDup_fmap_2_strong; [|apply NoDup_map_to_list].
    intros [t1 p1] [t2 p2] H1 H2 [= ->]. apply elem_of_map_to_list in H1, H2. congruence.
  - intros [c' t'] H1 H2. apply list_elem_of_fmap in H1 as (x & E1 & H1). apply list_elem_of_In, in_map_iff in H1 as (y & <- & _).
    cbn in E1. injection E1 as -> ->. apply Hc.
    apply list_elem_of_fmap in H2 as (z & E2 & H2). apply list_elem_of_In, in_flat_map in H2 as ([c2 m2] & Hin & H2).
    apply in_map_iff in H2 as (w & <- & _). cbn in E2. injection E2 as -> _.
    apply list_elem_of_fmap. exists (c2, m2). split; [done|by apply list_elem_of_In].
Qed.

Lemma imbalance_of_some pm x a : imbalance_of pm x = Some a ->
  im_Chain a = x.1.1 /\ im_Token a = x.1.2 /\ exists target, GetTarget pm x.1.1 x.1.2 = Some target /\
    Delta a = Amount x.2 - target.
Proof.
  unfold imbalance_of. destruct (GetTarget pm x.1.1 x.1.2) as [target|]; [|done]. cbv zeta.
  case_match; [done|]. intros [= <-]. eauto.
Qed.

Lemma imbalances_keys pm order : NoDup order.*1 -> forall i j a b,
  omap (imbalance_of pm) order !! i = Some a -> omap (imbalance_of pm) order !! j = Some b ->
  im_Chain a = im_Chain b -> im_Token a = im_Token b -> i = j.
Proof.
  intros Hn. assert (H : NoDup ((fun a => (im_Chain a, im_Token a)) <$> omap (imbalance_of pm) order)).
  { induction order as [|x order IH]; [constructor|]. rewrite fmap_cons in Hn. apply NoDup_cons in Hn as [Hx Hn].
    cbn [omap list_omap]. destruct (imbalance_of pm x) as [a|] eqn:E; [|by apply IH].
    rewrite fmap_cons. constructor; [|by apply IH]. intros Hin. apply Hx.
    apply list_elem_of_fmap in Hin as (b & Eb & (y & Hy & Ey)%list_elem_of_omap).
    apply imbalance_of_some in E as (Ec & Et & _), Ey as (Ec' & Et' & _).
    apply list_elem_of_fmap. exists y. split; [|done].
    destruct x as [[c1 t1] p1], y as [[c2 t2] p2]. cbn in *. congruence. }
  intros i j a b Hi Hj Ec Et. eapply NoDup_lookup; [exact H|..].
  - by rewrite list_lookup_fmap, Hi.
  - rewrite list_lookup_fmap, Hj. cbn. by rewrite Ec, Et.
Qed.

Section plan_of.
Context (pm : PositionManager) (order : list (Z * bytes * Position)).
Hypothesis Horder : order ≡ₚ all_positions pm.
Hypothesis Hmin : 0 < MinRebalanceAmount (pm_config pm).

Let ims := omap (imbalance_of pm) order.
Let minAmount := MinRebalanceAmount (pm_config pm).

Lemma order_keys : forall i j a b, ims !! i = Some a -> ims !! j = Some b ->
  im_Chain a = im_Chain b -> im_Token a = im_Token b -> i = j.
Proof. apply imbalances_keys. rewrite Horder. apply all_positions_keys. Qed.

(** A position with a target is an entry of the plan, or is too close to its target to
    be one, and then nothing moves. *)
Lemma plan_position c t p target : getPosition pm c t = Some p -> GetTarget pm c t = Some target ->
  let ts := GetRebalancePlan order pm in
  (exists i a0, ims !! i = Some a0 /\ im_Chain a0 = c /\ im_Token a0 = t /\ Delta a0 = Amount p - target) \/
  (Z.abs (Amount p - target) < minAmount /\ moved_out ts c t = 0 /\ moved_in ts c t = 0).
Proof.
  intros Hp Ht ts. assert (Hin : (c, t, p) ∈ order) by (rewrite Horder; by apply all_positions_elem).
  destruct (imbalance_of pm (c, t, p)) as [a|] eqn:E.
  - left. assert (Ha : a ∈ ims) by (apply list_elem_of_omap; eauto). apply list_elem_of_lookup_1 in Ha as [i Hi].
    apply imbalance_of_some in E as (Ec & Et & target' & Ht' & Ed). cbn in *. exists i, a.
    split; [done|]. split; [done|]. split; [done|]. congruence.
  - right. unfold imbalance_of in E. cbn in E. rewrite Ht in E. cbv zeta in E.
    destruct (Z.ltb_spec (Z.abs (Amount p - target)) (Z.abs (MinRebalanceAmount (pm_config pm)))); [|done].
    split; [lia|].
    destruct (plan_loop_done minAmount ims Hmin order_keys) as [(_ & _ & Hf) _].
    change (plan_loop minAmount ims).2 with ts in Hf.
    assert (Hno : forall a, a ∈ ims -> ~ (im_Chain a = c /\ im_Token a = t)).
    { intros a (y & Hy & Ey)%list_elem_of_omap [Hc' Ht'].
      pose proof Ey as (Ec & Et & _)%imbalance_of_some.
      destruct y as [[c2 t2] p2]. cbn in Ec, Et. rewrite Horder in Hy. apply all_positions_elem in Hy.
      assert (c2 = c) as -> by congruence. assert (t2 = t) as -> by congruence.
      assert (p2 = p) as -> by congruence. unfold imbalance_of in Ey. cbn in Ey. rewrite Ht in Ey. cbv zeta in Ey.
      rewrite (proj2 (Z.ltb_lt _ _)) in Ey by done. done. }
    assert (Hz : forall key, (forall x, x ∈ ts -> key x = false) ->
      sumZ (map (fun x => if key x then rt_Amount x else 0) ts) = 0).
    { intros key Hk. clear Hf. induction ts as [|x ts' IH]; [done|]. cbn [map sumZ]. rewrite (Hk x) by left.
      rewrite IH; [done|]. intros y Hy. apply Hk. by right. }
    rewrite Forall_forall in Hf. split; apply Hz; intros x Hx; apply Hf in Hx as (_ & i & j & a & b & Hi & Hj & _ & _ & Ta & Tb & Fa & Fb).
    + apply not_true_is_false. rewrite andb_true_iff, Z.eqb_eq, bytes_eqb_true. intros [? ?].
      apply (Hno a); [by eapply list_elem_of_lookup_2|]. split; congruence.
    + apply not_true_is_false. rewrite andb_true_iff, Z.eqb_eq, bytes_eqb_true. intros [? ?].
      apply (Hno b); [by eapply list_elem_of_lookup_2|]. split; congruence.
Qed.

(** What remains of a position's surplus (positive) or deficit (negative). *)
Lemma plan_residual c t p target : getPosition pm c t = Some p -> GetTarget pm c t = Some target ->
  let ts := GetRebalancePlan order pm in
  0 <= moved_out ts c t <= Z.max 0 (Amount p - target) /\ 0 <= moved_in ts c t <= Z.max 0 (target - Amount p) /\
  (Z.abs (Amount p - target) < minAmount /\ moved_out ts c t = 0 /\ moved_in ts c t = 0 \/
   exists i a, (plan_loop minAmount ims).1 !! i = Some a /\ im_Chain a = c /\ im_Token a = t /\ (i < length ims)%nat /\
     Delta a = Amount p - target - moved_out ts c t + moved_in ts c t).
Proof.
  intros Hp Ht ts. destruct (plan_loop_done minAmount ims Hmin order_keys) as [(Hl & He & _) _].
  destruct (plan_position c t p target Hp Ht) as [(i & a0 & Hi & Hc & Htk & Hd)|(Hs & Ho & Hn)].
  - destruct (lookup_lt_is_Some_2 (plan_loop minAmount ims).1 i) as [a Ha]; [rewrite Hl; by eapply lookup_lt_Some|].
    destruct (He _ _ _ Hi Ha) as (Ec & Et & E). cbv zeta in E. rewrite Hc, Htk in *.
    change (plan_loop minAmount ims).2 with ts in E. split; [lia|]. split; [lia|]. right. exists i, a.
    split; [done|]. split; [congruence|]. split; [congruence|]. split; [by eapply lookup_lt_Some|]. lia.
  - unfold ts. rewrite Ho, Hn. split; [lia|]. split; [lia|]. by left.
Qed.
End plan_of.

(** C18: A rebalancing plan is sound and complete, whatever the order of the maps: with
    a positive minimal amount, every transfer moves at least that amount; what leaves a
    position is at most its surplus over the target and what enters it at most its
    deficit; and afterwards no two chains have both a surplus and a deficit of the same
    token of at least the minimal amount. *)
Theorem rebalance_plan_sound pm order : order ≡ₚ all_positions pm -> 0 < MinRebalanceAmount (pm_config pm) ->
  let ts := GetRebalancePlan order pm in
  Forall (fun t => MinRebalanceAmount (pm_config pm) <= rt_Amount t) ts /\
  (forall c t p target, getPosition pm c t = Some p -> GetTarget pm c t = Some target ->
    0 <= moved_out ts c t <= Z.max 0 (Amount p - target) /\ 0 <= moved_in ts c t <= Z.max 0 (target - Amount p)) /\
  (forall c1 c2 t p1 p2 g1 g2, c1 <> c2 ->
    getPosition pm c1 t = Some p1 -> GetTarget pm c1 t = Some g1 ->
    getPosition pm c2 t = Some p2 -> GetTarget pm c2 t = Some g2 ->
    Amount p1 - g1 - moved_out ts c1 t + moved_in ts c1 t < MinRebalanceAmount (pm_config pm) \/
    g2 - Amount p2 - moved_in ts c2 t + moved_out ts c2 t < MinRebalanceAmount (pm_config pm)).
Proof.
  intros Horder Hmin ts. set (ims := omap (imbalance_of pm) order).
  destruct (plan_loop_done (MinRebalanceAmount (pm_config pm)) ims Hmin (order_keys pm order Horder)) as [(_ & _ & Hf) Hb].
  split; [|split].
  - eapply Forall_impl; [exact Hf|]. by intros x [? _].
  - intros c t p g Hp Hg. destruct (plan_residual pm order Horder Hmin c t p g Hp Hg) as (? & ? & _). done.
  - intros c1 c2 t p1 p2 g1 g2 Hne Hp1 Hg1 Hp2 Hg2.
    destruct (plan_residual pm order Horder Hmin c1 t p1 g1 Hp1 Hg1) as (_ & _ & [(H1 & O1 & I1)|(i & a & Ha & Ca & Ta & Li & Da)]).
    { left. unfold ts. rewrite O1, I1. lia. }
    destruct (plan_residual pm order Horder Hmin c2 t p2 g2 Hp2 Hg2) as (_ & _ & [(H2 & O2 & I2)|(j & b & Hb' & Cb & Tb & Lj & Db)]).
    { right. unfold ts. rewrite O2, I2. lia. }
    assert (Hij : i <> j) by (intros ->; congruence).
    destruct (Hb i j Li Lj a b Ha Hb' Hij) as [H|H]; [congruence|left|right]; unfold ts; lia.
Qed.

Definition ex_pm : PositionManager :=
  fold_left pm_exec [PTarget 1 (bs "weth") 50; PTarget 2 (bs "weth") 60]
    (NewPositionManager {[ 1 := {[ bs "weth" := 100 ]}; 2 := {[ bs "weth" := 20 ]} ]}
       (Some {| RebalanceThreshold := f_ratio 1 5; MinRebalanceAmount := 10; RebalanceCheckFreq := 0 |}) 0).

Lemma rebalance_plan_sound_witness :
  GetRebalancePlan (all_positions ex_pm) ex_pm = [{| FromChain := 1; ToChain := 2; rt_Token := bs "weth"; rt_Amount := 40 |}] /\
  Forall (fun t => MinRebalanceAmount (pm_config ex_pm) <= rt_Amount t) (GetRebalancePlan (all_positions ex_pm) ex_pm).
Proof.
  split; [vm_compute; reflexivity|].
  apply (rebalance_plan_sound ex_pm (all_positions ex_pm)); [reflexivity|vm_compute; reflexivity].
Defined.

(** ** The lock taken twice *)

(** [sync.RWMutex]: readers and one writer; a writer that has called [Lock] waits for the
    readers inside, and from then on no reader enters. *)
Module RWMutex.

Inductive lock_op := RLock | RUnlock | Lock | Acquire | Unlock.

Record rw := { readers : nat; writer : bool; waiting : bool; threads : list (list lock_op) }.

Inductive step : rw -> rw -> Prop :=
| s_rlock n ts i ops : ts !! i = Some (RLock :: ops) ->
    step {| readers := n; writer := false; waiting := false; threads := ts |}
         {| readers := S n; writer := false; waiting := false; threads := <[i := ops]> ts |}
| s_runlock n w p ts i ops : ts !! i = Some (RUnlock :: ops) ->
    step {| readers := S n; writer := w; waiting := p; threads := ts |}
         {| readers := n; writer := w; waiting := p; threads := <[i := ops]> ts |}
| s_lock n ts i ops : ts !! i = Some (Lock :: ops) ->
    step {| readers := n; writer := false; waiting := false; threads := ts |}
         {| readers := n; writer := false; waiting := true; threads := <[i := Acquire :: ops]> ts |}
| s_acquire ts i ops : ts !! i = Some (Acquire :: ops) ->
    step {| readers := 0; writer := false; waiting := true; threads := ts |}
         {| readers := 0; writer := true; waiting := false; threads := <[i := ops]> ts |}
| s_unlock ts i ops : ts !! i = Some (Unlock :: ops) ->
    step {| readers := 0; writer := true; waiting := false; threads := ts |}
         {| readers := 0; writer := false; waiting := false; threads := <[i := ops]> ts |}.

Definition initial (ts : list (list lock_op)) : rw :=
  {| readers := 0; writer := false; waiting := false; threads := ts |}.

(** [GetStats] holds the read lock while [GetTotalValue] takes it; a write method takes
    the lock once. *)
Definition GetTotalValue_locks : list lock_op := [RLock; RUnlock].
Definition GetStats_locks : list lock_op := RLock :: GetTotalValue_locks ++ [RUnlock].
Definition write_locks : list lock_op := [Lock; Unlock].

Definition stuck (s : rw) : Prop := ~ (exists s', step s s') /\ Exists (fun t => t <> []) (threads s).
End RWMutex.
Import RWMutex.

(** Reading the statistics can deadlock the manager: [GetStats] takes the read
    lock and calls [GetTotalValue], which takes it again; if a writer (a lock, a trade, a
    new target) asks for the lock in between, both wait for each other for ever. *)
Theorem stats_deadlock :
  exists s, rtc step (RWMutex.initial [GetStats_locks; write_locks]) s /\ stuck s.
Proof.
  eexists {| readers := 1; writer := false; waiting := true;
             threads := [[RLock; RUnlock; RUnlock]; [Acquire; Unlock]] |}.
  split.
  - eapply rtc_l; [by apply (s_rlock 0 _ 0)|]. eapply rtc_l; [by apply (s_lock 1 _ 1)|]. apply rtc_refl.
  - split; [|by constructor]. intros [s' Hs]. inversion Hs as [| ? ? ? ? i ops H | | |]; subst.
    destruct i as [|[|i]]; discriminate.
Qed.
