(* ===== verification/Swaps.v ===== *)
(** * Swap transactions ([arb/types.go], [arb/presigned.go], [arb/mempool_parser.go])

    The engine builds the calldata of swaps on decentralised exchanges and recognises swaps
    of others in the mempool.  This file has the tables of tokens and routers, the builders of
    calldata, and the parser.  Slicing a byte slice beyond its length is a panic (slices
    decoded from transactions have no spare capacity), and offsets read from calldata are
    [uint64] with their wrap-around.

    What the builders build the parser reads back ([v2_calldata_roundtrip],
    [v3_calldata_roundtrip]); the bounds test on the path offset leaves out the selector and
    wraps around, so crafted calldata panics ([crafted_calldata_panics]). *)

From Stdlib Require Import String.
From S2P Require Import Prelude Signing Float64 Positions.

(** ** Chains, tokens and routers *)

Definition ChainIDEthereum : Z := 1.
Definition ChainIDOptimism : Z := 10.
Definition ChainIDBase : Z := 8453.
Definition ChainIDArbitrum : Z := 42161.

(** [hex.DecodeString] returns what it decoded before an error, and
    [common.HexToAddress] ignores the error. *)
Fixpoint hex_prefix (l : bytes) : bytes :=
  match l with
  | h :: lo :: t =>
      match hex_val h, hex_val lo with
      | Some a, Some b => Zbyte (a * 16 + b) :: hex_prefix t
      | _, _ => []
      end
  | _ => []
  end.

Definition BytesToAddress (b : bytes) : bytes :=
  left_pad 20 (if (20 <? length b)%nat then drop (length b - 20) b else b).

(** The string is given without its prefix [0x]. *)
Definition HexToAddress (s : string) : bytes := BytesToAddress (hex_prefix (bs s)).

Record TokenInfo := { tok_Address : bytes; tok_Symbol : string; Decimals : Z; tok_ChainID : Z }.

Definition CommonTokens : list (Z * list TokenInfo) :=
  let tok c s d a := {| tok_Address := HexToAddress a; tok_Symbol := s; Decimals := d; tok_ChainID := c |} in
  [(ChainIDEthereum,
     [tok ChainIDEthereum "WETH" 18 "C02aaA39b223FE8D0A0e5C4F27eAD9083C756Cc2";
      tok ChainIDEthereum "USDC" 6 "A0b86991c6218b36c1d19D4a2e9Eb0cE3606eB48";
      tok ChainIDEthereum "USDT" 6 "dAC17F958D2ee523a2206206994597C13D831ec7";
      tok ChainIDEthereum "WBTC" 8 "2260FAC5E5542a773Aa44fBCfeDf7C193bc2C599";
      tok ChainIDEthereum "DAI" 18 "6B175474E89094C44Da98b954EescdeCB5BE3830"]);
   (ChainIDBase,
     [tok ChainIDBase "WETH" 18 "4200000000000000000000000000000000000006";
      tok ChainIDBase "USDC" 6 "833589fCD6eDb6E08f4c7C32D4f71b54bdA02913";
      tok ChainIDBase "USDbC" 6 "d9aAEc86B65D86f6A7B5B1b0c42FFA531710b6CA";
      tok ChainIDBase "DAI" 18 "50c5725949A6F0c72E6C4a641F24049A917DB0Cb"]);
   (ChainIDOptimism,
     [tok ChainIDOptimism "WETH" 18 "4200000000000000000000000000000000000006";
      tok ChainIDOptimism "USDC" 6 "0b2C639c533813f4Aa9D7837CAf62653d097Ff85";
      tok ChainIDOptimism "USDT" 6 "94b008aA00579c1307B0EF2c499aD98a8ce58e58";
      tok ChainIDOptimism "DAI" 18 "DA10009cBd5D07dd0CeCc66161FC93D7c9000da1"]);
   (ChainIDArbitrum,
     [tok ChainIDArbitrum "WETH" 18 "82aF49447D8a07e3bd95BD0d56f35241523fBab1";
      tok ChainIDArbitrum "USDC" 6 "af88d065e77c8cC2239327C5EDb3A432268e5831";
      tok ChainIDArbitrum "USDT" 6 "Fd086bC7CD5C481DCC9C85ebE478A1C0b69FCbb9";
      tok ChainIDArbitrum "WBTC" 8 "2f2a2543B76A4166549F7aaB2e75Bef0aefC5B0f";
      tok ChainIDArbitrum "DAI" 18 "DA10009cBd5D07dd0CeCc66161FC93D7c9000da1"])]%string.

(** Lookup of a symbol on a chain; the zero address when there is none. *)
Definition token_address (symbol : string) (chainID : Z) : bytes :=
  match find (fun x => x.1 =? chainID) CommonTokens with
  | Some x =>
      match find (fun t => bool_decide (tok_Symbol t = symbol)) x.2 with
      | Some t => tok_Address t
      | None => zero20
      end
  | None => zero20
  end.

Definition WETHAddresses (chainID : Z) : bytes := token_address "WETH" chainID.
Definition USDCAddresses (chainID : Z) : bytes := token_address "USDC" chainID.

Inductive DEXType := DEXUniswapV2 | DEXUniswapV3 | DEXAerodrome | DEXVelodrome.

#[global] Instance DEXType_eq_dec : EqDecision DEXType.
Proof. solve_decision. Defined.

Definition RouterAddresses : list (Z * list (DEXType * bytes)) :=
  [(ChainIDEthereum,
     [(DEXUniswapV2, HexToAddress "7a250d5630B4cF539739dF2C5dAcb4c659F2488D");
      (DEXUniswapV3, HexToAddress "E592427A0AEce92De3Edee1F18E0157C05861564")]);
   (ChainIDBase,
     [(DEXUniswapV2, HexToAddress "4752ba5DBc23f44D87826276BF6Fd6b1C372aD24");
      (DEXUniswapV3, HexToAddress "2626664c2603336E57B271c5C0b26F421741e481");
      (DEXAerodrome, HexToAddress "cF77a3Ba9A5CA399B7c97c74d54e5b1Beb874E43")]);
   (ChainIDOptimism,
     [(DEXUniswapV2, HexToAddress "4A7b5Da61326A6379179b40d00F57E5bbDC962c2");
      (DEXUniswapV3, HexToAddress "E592427A0AEce92De3Edee1F18E0157C05861564");
      (DEXVelodrome, HexToAddress "a062aE8A9c5e11aaA026fc2670B0D65cCc8B2858")])]%string.

Definition chain_routers (chainID : Z) : option (list (DEXType * bytes)) :=
  snd <$> find (fun x => x.1 =? chainID) RouterAddresses.

Definition router_of (rs : list (DEXType * bytes)) (d : DEXType) : option bytes :=
  snd <$> find (fun x => bool_decide (x.1 = d)) rs.

(** ** Builders of calldata *)

(** [common.LeftPadBytes(x, 32)] copied into a word: longer input is cut. *)
Definition word (l : bytes) : bytes := take 32 (left_pad 32 l).
Definition uint_word (z : Z) : bytes := word (bigint_bytes z).

Definition sel (s : string) : bytes := hex_prefix (bs s).

Definition buildV2SwapCalldata (amount : Z) (tokenIn tokenOut recipient : bytes) (deadline : Z) : bytes :=
  sel "38ed1739" ++ uint_word amount ++ uint_word 0 ++ uint_word 160 ++ word recipient ++ uint_word deadline ++
  uint_word 2 ++ word tokenIn ++ word tokenOut.

Definition buildV3SwapCalldata (amount : Z) (tokenIn tokenOut : bytes) (fee : Z) (recipient : bytes) (deadline : Z) : bytes :=
  sel "414bf389" ++ word tokenIn ++ word tokenOut ++ uint_word fee ++ word recipient ++ uint_word deadline ++
  uint_word amount ++ uint_word 0 ++ uint_word 0.

Definition buildSolidlySwapCalldata (amount : Z) (tokenIn tokenOut recipient : bytes) (stable : bool) (deadline : Z) : bytes :=
  sel "38ed1739" ++ uint_word amount ++ uint_word 0 ++ uint_word 160 ++ word recipient ++ uint_word deadline ++
  uint_word 2 ++ word tokenIn ++ word tokenOut.

(** ** The parser *)

Record PendingSwap := {
  ps_Router : string;
  TokenIn : bytes;
  TokenOut : bytes;
  AmountIn : option Z;
  AmountOut : option Z;
  IsExactIn : bool;
}.

Definition found (i o : bytes) (ai ao : option Z) : PendingSwap :=
  {| ps_Router := ""; TokenIn := i; TokenOut := o; AmountIn := ai; AmountOut := ao; IsExactIn := true |}.

(** [data[lo:hi]] *)
Definition slice (data : bytes) (lo hi : Z) : outcome bytes :=
  if (0 <=? lo) && (lo <=? hi) && (hi <=? Z.of_nat (length data))
  then Done (take (Z.to_nat (hi - lo)) (drop (Z.to_nat lo) data))
  else Panic "slice bounds out of range".

Definition slice_int (data : bytes) (lo hi : Z) : outcome Z := let! b := slice data lo hi in Done (be_int b).

Definition too_far (data : bytes) (z : Z) : bool := Z.of_nat (length data) <? z.

Definition parseV2SwapExactTokensForTokens (data : bytes) : outcome (option PendingSwap) :=
  if (length data <? 164)%nat then Done None else
  let! amountIn := slice_int data 4 36 in
  let! amountOutMin := slice_int data 36 68 in
  let! po := slice_int data 68 100 in
  let pathOffset := u64 po in
  if too_far data (u64 (pathOffset + 32)) then Done None else
  let! pl := slice_int data (u64 (4 + pathOffset)) (u64 (4 + pathOffset + 32)) in
  let pathLen := u64 pl in
  if (pathLen <? 2) || too_far data (u64 (4 + pathOffset + 32 + pathLen * 32)) then Done None else
  let! i := slice data (u64 (4 + pathOffset + 32)) (u64 (4 + pathOffset + 64)) in
  let! o := slice data (u64 (4 + pathOffset + 32 + (pathLen - 1) * 32)) (u64 (4 + pathOffset + 64 + (pathLen - 1) * 32)) in
  Done (Some (found (BytesToAddress i) (BytesToAddress o) (Some amountIn) (Some amountOutMin))).

Definition parseV2SwapExactETHForTokens (data : bytes) (chainID : Z) : outcome (option PendingSwap) :=
  if (length data <? 132)%nat then Done None else
  let! amountOutMin := slice_int data 4 36 in
  let! po := slice_int data 36 68 in
  let pathOffset := u64 po in
  if too_far data (u64 (pathOffset + 32)) then Done None else
  let! pl := slice_int data (u64 (4 + pathOffset)) (u64 (4 + pathOffset + 32)) in
  let pathLen := u64 pl in
  if pathLen <? 2 then Done None else
  let! o := slice data (u64 (4 + pathOffset + 32 + (pathLen - 1) * 32)) (u64 (4 + pathOffset + 64 + (pathLen - 1) * 32)) in
  Done (Some (found (WETHAddresses chainID) (BytesToAddress o) None (Some amountOutMin))).

Definition parseV2SwapExactTokensForETH (data : bytes) (chainID : Z) : outcome (option PendingSwap) :=
  if (length data <? 164)%nat then Done None else
  let! amountIn := slice_int data 4 36 in
  let! amountOutMin := slice_int data 36 68 in
  let! po := slice_int data 68 100 in
  let pathOffset := u64 po in
  if too_far data (u64 (pathOffset + 32)) then Done None else
  let! pl := slice_int data (u64 (4 + pathOffset)) (u64 (4 + pathOffset + 32)) in
  let pathLen := u64 pl in
  if pathLen <? 2 then Done None else
  let! i := slice data (u64 (4 + pathOffset + 32)) (u64 (4 + pathOffset + 64)) in
  Done (Some (found (BytesToAddress i) (WETHAddresses chainID) (Some amountIn) (Some amountOutMin))).

Definition parseV3ExactInputSingle (data : bytes) : outcome (option PendingSwap) :=
  if (length data <? 196)%nat then Done None else
  let! i := slice data 16 36 in
  let! o := slice data 48 68 in
  let! amountIn := slice_int data 164 196 in
  let! amountOutMin := slice_int data 196 228 in
  Done (Some (found (BytesToAddress i) (BytesToAddress o) (Some amountIn) (Some amountOutMin))).

Definition parseV3ExactInput (data : bytes) : outcome (option PendingSwap) :=
  if (length data <? 164)%nat then Done None else
  let! po := slice_int data 4 36 in
  let pathOffset := u64 po in
  let! amountIn := slice_int data 100 132 in
  let! amountOutMin := slice_int data 132 164 in
  if too_far data (u64 (pathOffset + 32)) then Done None else
  let! pl := slice_int data (u64 (4 + pathOffset)) (u64 (4 + pathOffset + 32)) in
  let pathLen := u64 pl in
  if pathLen <? 43 then Done None else
  let! i := slice data (u64 (4 + pathOffset + 32)) (u64 (4 + pathOffset + 52)) in
  let! o := slice data (u64 (4 + pathOffset + 32 + pathLen - 20)) (u64 (4 + pathOffset + 32 + pathLen)) in
  Done (Some (found (BytesToAddress i) (BytesToAddress o) (Some amountIn) (Some amountOutMin))).

Definition is_sel (chunk : bytes) (s : string) : bool := bytes_eqb chunk (sel s).

(** The scan of [parseMulticall] over the positions [4 .. len-5]. *)
Definition parseMulticall (data : bytes) (router : string) : option PendingSwap :=
  if existsb (fun i => let chunk := take 4 (drop i data) in
                       is_sel chunk "414bf389" || is_sel chunk "c04b8d59" || is_sel chunk "38ed1739")
       (seq 4 (length data - 8))
  then Some {| ps_Router := router; TokenIn := zero20; TokenOut := zero20; AmountIn := None; AmountOut := None; IsExactIn := true |}
  else None.

Definition parseUniversalRouter (data : bytes) : option PendingSwap :=
  if (100 <? length data)%nat
  then Some {| ps_Router := "universal_router"; TokenIn := zero20; TokenOut := zero20; AmountIn := None; AmountOut := None; IsExactIn := true |}
  else None.

Definition parseCalldata (chainID : Z) (router : string) (data : bytes) : outcome (option PendingSwap) :=
  if (length data <? 4)%nat then Done None else
  let selector := take 4 data in
  if is_sel selector "38ed1739" || is_sel selector "5c11d795" then parseV2SwapExactTokensForTokens data
  else if is_sel selector "7ff36ab5" || is_sel selector "b6f9de95" then parseV2SwapExactETHForTokens data chainID
  else if is_sel selector "18cbafe5" || is_sel selector "791ac947" then parseV2SwapExactTokensForETH data chainID
  else if is_sel selector "414bf389" then parseV3ExactInputSingle data
  else if is_sel selector "c04b8d59" then parseV3ExactInput data
  else if is_sel selector "ac9650d8" || is_sel selector "5ae401dc" then Done (parseMulticall data router)
  else if is_sel selector "3593564c" then Done (parseUniversalRouter data)
  else Done None.

(** The routers the parser watches, with their names. *)
Definition parser_routers : list (Z * list (bytes * string)) :=
  [(ChainIDEthereum,
     [(HexToAddress "7a250d5630B4cF539739dF2C5dAcb4c659F2488D", "uniswap_v2");
      (HexToAddress "d9e1cE17f2641f24aE83637ab66a2cca9C378B9F", "sushiswap");
      (HexToAddress "E592427A0AEce92De3Edee1F18E0157C05861564", "uniswap_v3");
      (HexToAddress "68b3465833fb72A70ecDF485E0e4C7bD8665Fc45", "uniswap_v3_router02");
      (HexToAddress "3fC91A3afd70395Cd496C647d5a6CC9D4B2b7FAD", "universal_router")]);
   (ChainIDBase,
     [(HexToAddress "4752ba5DBc23f44D87826276BF6Fd6b1C372aD24", "uniswap_v2");
      (HexToAddress "2626664c2603336E57B271c5C0b26F421741e481", "uniswap_v3");
      (HexToAddress "3fC91A3afd70395Cd496C647d5a6CC9D4B2b7FAD", "universal_router");
      (HexToAddress "cF77a3Ba9A5CA399B7c97c74d54e5b1Beb874E43", "aerodrome");
      (HexToAddress "327Df1E6de05895d2ab08513aaDD9313Fe505d86", "baseswap")]);
   (ChainIDOptimism,
     [(HexToAddress "4A7b5Da61326A6379179b40d00F57E5bbDC962c2", "uniswap_v2");
      (HexToAddress "68b3465833fb72A70ecDF485E0e4C7bD8665Fc45", "uniswap_v3");
      (HexToAddress "Cb1355ff08Ab38bBCE60111F1bb2B784bE25D7e8", "universal_router");
      (HexToAddress "a062aE8A9c5e11aaA026fc2670B0D65cCc8B2858", "velodrome")])]%string.

Definition router_name (chainID : Z) (to : bytes) : option string :=
  match find (fun x => x.1 =? chainID) parser_routers with
  | Some x => snd <$> find (fun y => bytes_eqb y.1 to) x.2
  | None => None
  end.

(** A transaction as the parser sees it; [tx_From] is the recovered sender. *)
Record Tx := {
  tx_Hash : bytes; tx_To : option bytes; tx_Data : bytes; tx_From : bytes; tx_GasPrice : Z; tx_Gas : Z; tx_Nonce : Z;
}.

Record Detected := { det_swap : PendingSwap; det_tx : Tx; det_chain : Z; det_router : string; det_at : Z }.

Record MempoolParser := {
  pendingSwaps : gmap bytes Detected; txParsed : Z; swapsDetected : Z;
}.

Definition NewMempoolParser : MempoolParser := {| pendingSwaps := ∅; txParsed := 0; swapsDetected := 0 |}.

Definition ParseTransaction (mp : MempoolParser) (chainID : Z) (tx : Tx) (now : Z)
  : outcome (MempoolParser * option Detected) :=
  let mp := {| pendingSwaps := pendingSwaps mp; txParsed := u64 (txParsed mp + 1); swapsDetected := swapsDetected mp |} in
  match tx_To tx with
  | None => Done (mp, None)
  | Some to =>
      match router_name chainID to with
      | None => Done (mp, None)
      | Some router =>
          let! r := parseCalldata chainID router (tx_Data tx) in
          match r with
          | None => Done (mp, None)
          | Some swap =>
              let d := {| det_swap := swap; det_tx := tx; det_chain := chainID; det_router := router; det_at := now |} in
              Done ({| pendingSwaps := <[tx_Hash tx := d]> (pendingSwaps mp); txParsed := txParsed mp;
                       swapsDetected := u64 (swapsDetected mp + 1) |}, Some d)
          end
      end
  end.

Definition GetPendingSwap (mp : MempoolParser) (hash : bytes) : option Detected := pendingSwaps mp !! hash.

Definition GetRecentSwaps (mp : MempoolParser) (maxAge now : Z) : list Detected :=
  filter (fun d => now - maxAge < det_at d) (map_to_list (pendingSwaps mp)).*2.

Definition CleanOldSwaps (mp : MempoolParser) (maxAge now : Z) : MempoolParser * Z :=
  let keep := filter (fun kv => ~ det_at kv.2 < now - maxAge) (pendingSwaps mp) in
  ({| pendingSwaps := keep; txParsed := txParsed mp; swapsDetected := swapsDetected mp |},
   Z.of_nat (size (pendingSwaps mp) - size keep)).

Definition EstimatePriceImpact (swap : PendingSwap) (r0 r1 : option Z) : float64 :=
  match AmountIn swap, r0, r1 with
  | Some a, Some r0, Some _ => if r0 =? 0 then f0 else fmul (big_quo_float a r0) (f_of_Z 10000)
  | _, _, _ => f0
  end.

Definition ComputeOpportunityHash `{Crypto} (d : Detected) : bytes :=
  Keccak256 (tx_Hash (det_tx d) ++ TokenIn (det_swap d) ++ TokenOut (det_swap d) ++
    match AmountIn (det_swap d) with Some a => bigint_bytes a | None => [] end).

(** ** Reading back what the builders build *)

Lemma length_calldata_word l : length (word l) = 32%nat.
Proof. unfold word, left_pad. rewrite length_take, length_app, length_replicate. lia. Qed.

Lemma word_short l : (length l <= 32)%nat -> word l = left_pad 32 l.
Proof. intros Hl. unfold word. apply take_ge. by rewrite length_left_pad. Qed.

Lemma uint_word_int z : 0 <= z < 2 ^ 256 -> be_int (uint_word z) = z.
Proof.
  intros Hz. unfold uint_word. rewrite word_short by (apply length_bigint_bytes; exact Hz).
  rewrite be_int_left_pad, be_int_bigint_bytes. lia.
Qed.

Lemma address_word a : length a = 20%nat -> BytesToAddress (word a) = a.
Proof.
  intros Ha. rewrite word_short by lia. unfold BytesToAddress. rewrite length_left_pad by lia. cbn [Nat.ltb Nat.leb Nat.sub].
  unfold left_pad at 2. rewrite Ha. cbn [Nat.sub]. rewrite drop_app_length' by done.
  unfold left_pad. by rewrite Ha.
Qed.

(** The last 20 bytes of the word of an address. *)
Lemma address_in_word a : length a = 20%nat -> drop 12 (word a) = a.
Proof.
  intros Ha. rewrite word_short by lia. unfold left_pad. rewrite Ha. cbn [Nat.sub]. by rewrite drop_app_length'.
Qed.

Lemma slice_mid (a b c : bytes) lo hi :
  lo = Z.of_nat (length a) -> hi = lo + Z.of_nat (length b) -> slice (a ++ b ++ c) lo hi = Done b.
Proof.
  intros -> ->. unfold slice. rewrite !length_app.
  rewrite !(proj2 (Z.leb_le _ _)) by lia. cbn [andb]. f_equal.
  rewrite Nat2Z.id, drop_app_length. replace (Z.to_nat _) with (length b) by lia. by rewrite take_app_length.
Qed.

(** Calldata: a selector of four bytes and words of 32. *)
Definition calldata (s : bytes) (ws : list bytes) : bytes := s ++ concat ws.

Lemma length_calldata_words (ws : list bytes) : Forall (fun w => length w = 32%nat) ws -> length (concat ws) = (32 * length ws)%nat.
Proof. induction 1 as [|w ws Hw _ IH]; [done|]. cbn [concat length]. rewrite length_app, Hw, IH. lia. Qed.

Lemma slice_word s ws k w lo hi : length s = 4%nat -> Forall (fun w => length w = 32%nat) ws ->
  ws !! k = Some w -> lo = 4 + 32 * Z.of_nat k -> hi = lo + 32 -> slice (calldata s ws) lo hi = Done w.
Proof.
  intros Hs Hf Hk -> ->. unfold calldata.
  assert (Hw : length w = 32%nat) by (rewrite Forall_forall in Hf; eapply Hf, list_elem_of_lookup_2, Hk).
  rewrite <- (take_drop_middle ws k w Hk), concat_app. cbn [concat]. rewrite app_assoc.
  apply slice_mid; [|by rewrite Hw].
  rewrite length_app, length_calldata_words by (by apply Forall_take).
  rewrite length_take. pose proof (lookup_lt_Some _ _ _ Hk). lia.
Qed.

Lemma slice_int_word s ws k w lo hi : length s = 4%nat -> Forall (fun w => length w = 32%nat) ws ->
  ws !! k = Some w -> lo = 4 + 32 * Z.of_nat k -> hi = lo + 32 -> slice_int (calldata s ws) lo hi = Done (be_int w).
Proof. intros. unfold slice_int. erewrite slice_word; [done|eassumption..]. Qed.

Lemma length_calldata s ws : length s = 4%nat -> Forall (fun w => length w = 32%nat) ws ->
  length (calldata s ws) = (4 + 32 * length ws)%nat.
Proof. intros Hs Hf. unfold calldata. by rewrite length_app, Hs, length_calldata_words. Qed.

Definition v2_words (amount : Z) (tokenIn tokenOut recipient : bytes) (deadline : Z) : list bytes :=
  [uint_word amount; uint_word 0; uint_word 160; word recipient; uint_word deadline; uint_word 2; word tokenIn; word tokenOut].

Lemma v2_words_ok amount i o r d : Forall (fun w => length w = 32%nat) (v2_words amount i o r d).
Proof. repeat constructor; apply length_calldata_word. Qed.

Lemma v2_calldata amount i o r d :
  buildV2SwapCalldata amount i o r d = calldata (sel "38ed1739") (v2_words amount i o r d).
Proof. unfold buildV2SwapCalldata, calldata. cbn [concat v2_words]. by rewrite app_nil_r. Qed.

(** Swaps of the V2 routers are read back as built: the parser recognises the
    calldata that the engine builds for Uniswap V2 style routers (and, by the same layout,
    for Solidly style ones) and recovers the tokens and the amount, for every amount of
    256 bits. *)
Theorem v2_calldata_roundtrip chainID router amount tokenIn tokenOut recipient deadline stable :
  0 <= amount < 2 ^ 256 -> length tokenIn = 20%nat -> length tokenOut = 20%nat ->
  parseCalldata chainID router (buildV2SwapCalldata amount tokenIn tokenOut recipient deadline) =
    Done (Some (found tokenIn tokenOut (Some amount) (Some 0))) /\
  parseCalldata chainID router (buildSolidlySwapCalldata amount tokenIn tokenOut recipient stable deadline) =
    Done (Some (found tokenIn tokenOut (Some amount) (Some 0))).
Proof.
  intros Ha Hi Ho. change (buildSolidlySwapCalldata amount tokenIn tokenOut recipient stable deadline)
    with (buildV2SwapCalldata amount tokenIn tokenOut recipient deadline).
  enough (E : parseCalldata chainID router (buildV2SwapCalldata amount tokenIn tokenOut recipient deadline) =
    Done (Some (found tokenIn tokenOut (Some amount) (Some 0)))) by done.
  rewrite v2_calldata. set (ws := v2_words amount tokenIn tokenOut recipient deadline).
  pose proof (v2_words_ok amount tokenIn tokenOut recipient deadline) as Hw. fold ws in Hw.
  assert (Hs : length (sel "38ed1739") = 4%nat) by done.
  assert (Hl : length (calldata (sel "38ed1739") ws) = 260%nat) by (by rewrite length_calldata).
  unfold parseCalldata. rewrite Hl. cbn [Nat.ltb Nat.leb].
  assert (Et : take 4 (calldata (sel "38ed1739") ws) = sel "38ed1739") by (unfold calldata; by rewrite <- Hs, take_app_length).
  rewrite Et. change (is_sel (sel "38ed1739") "38ed1739") with true. cbn [orb].
  unfold parseV2SwapExactTokensForTokens. rewrite Hl. cbn [Nat.ltb Nat.leb].
  rewrite (slice_int_word _ ws 0 (uint_word amount)) by done. cbn [outcome_bind].
  rewrite (slice_int_word _ ws 1 (uint_word 0)) by done. cbn [outcome_bind].
  rewrite (slice_int_word _ ws 2 (uint_word 160)) by done. cbn [outcome_bind].
  rewrite (uint_word_int 160) by lia. cbv zeta. change (u64 160) with 160. unfold too_far. rewrite Hl.
  change (u64 (160 + 32)) with 192. change (Z.of_nat 260 <? 192) with false. cbv iota.
  change (u64 (4 + 160)) with 164. change (u64 (4 + 160 + 32)) with 196.
  rewrite (slice_int_word _ ws 5 (uint_word 2)) by done. cbn [outcome_bind].
  rewrite (uint_word_int 2) by lia. change (u64 2) with 2.
  change ((2 <? 2) || (Z.of_nat 260 <? u64 (4 + 160 + 32 + 2 * 32))) with false. cbv iota.
  change (u64 (4 + 160 + 64)) with 228. change (u64 (4 + 160 + 32 + (2 - 1) * 32)) with 228.
  change (u64 (4 + 160 + 64 + (2 - 1) * 32)) with 260.
  rewrite (slice_word _ ws 6 (word tokenIn)) by done. cbn [outcome_bind].
  rewrite (slice_word _ ws 7 (word tokenOut)) by done. cbn [outcome_bind].
  by rewrite !address_word, !uint_word_int by (done || lia).
Qed.

Lemma v2_calldata_roundtrip_witness :
  parseCalldata 1 "uniswap_v2" (buildV2SwapCalldata 1000 (WETHAddresses 1) (USDCAddresses 1) zero20 1700000000) =
    Done (Some (found (WETHAddresses 1) (USDCAddresses 1) (Some 1000) (Some 0))) /\
  parseCalldata 1 "uniswap_v2" (buildSolidlySwapCalldata 1000 (WETHAddresses 1) (USDCAddresses 1) zero20 false 1700000000) =
    Done (Some (found (WETHAddresses 1) (USDCAddresses 1) (Some 1000) (Some 0))).
Proof. apply v2_calldata_roundtrip; [lia|reflexivity|reflexivity]. Defined.

Lemma slice_address s ws k a lo hi : length s = 4%nat -> Forall (fun w => length w = 32%nat) ws ->
  ws !! k = Some (word a) -> length a = 20%nat -> lo = 16 + 32 * Z.of_nat k -> hi = lo + 20 ->
  slice (calldata s ws) lo hi = Done a.
Proof.
  intros Hs Hf Hk Ha -> ->. unfold calldata.
  rewrite <- (take_drop_middle ws k _ Hk), concat_app. cbn [concat].
  assert (Ew : word a = replicate 12 Byte.x00 ++ a) by (rewrite word_short by lia; unfold left_pad; by rewrite Ha).
  rewrite Ew. rewrite <- !app_assoc. rewrite (app_assoc s), (app_assoc (s ++ _)).
  apply slice_mid; [|by rewrite Ha].
  rewrite !length_app, length_replicate, length_calldata_words by (by apply Forall_take).
  rewrite length_take. pose proof (lookup_lt_Some _ _ _ Hk). lia.
Qed.

Lemma address_id a : length a = 20%nat -> BytesToAddress a = a.
Proof. intros Ha. unfold BytesToAddress, left_pad. rewrite Ha. cbn [Nat.ltb Nat.leb]. by rewrite Ha. Qed.

Definition v3_words (amount : Z) (i o : bytes) (fee : Z) (r : bytes) (d : Z) : list bytes :=
  [word i; word o; uint_word fee; word r; uint_word d; uint_word amount; uint_word 0; uint_word 0].

(** Swaps of the V3 routers are read back as built. *)
Theorem v3_calldata_roundtrip chainID router amount tokenIn tokenOut fee recipient deadline :
  0 <= amount < 2 ^ 256 -> length tokenIn = 20%nat -> length tokenOut = 20%nat ->
  parseCalldata chainID router (buildV3SwapCalldata amount tokenIn tokenOut fee recipient deadline) =
    Done (Some (found tokenIn tokenOut (Some amount) (Some 0))).
Proof.
  intros Ha Hi Ho. set (ws := v3_words amount tokenIn tokenOut fee recipient deadline).
  assert (Hw : Forall (fun w => length w = 32%nat) ws) by (repeat constructor; apply length_calldata_word).
  replace (buildV3SwapCalldata amount tokenIn tokenOut fee recipient deadline) with (calldata (sel "414bf389") ws)
    by (unfold buildV3SwapCalldata, calldata, ws; cbn [concat v3_words]; by rewrite app_nil_r).
  assert (Hs : length (sel "414bf389") = 4%nat) by done.
  assert (Hl : length (calldata (sel "414bf389") ws) = 260%nat) by (by rewrite length_calldata).
  unfold parseCalldata. rewrite Hl. cbn [Nat.ltb Nat.leb].
  assert (Et : take 4 (calldata (sel "414bf389") ws) = sel "414bf389") by (unfold calldata; by rewrite <- Hs, take_app_length).
  rewrite Et. cbv zeta. change (parseV3ExactInputSingle (calldata (sel "414bf389") ws) =
    Done (Some (found tokenIn tokenOut (Some amount) (Some 0)))).
  unfold parseV3ExactInputSingle. rewrite Hl. cbn [Nat.ltb Nat.leb].
  rewrite (slice_address _ ws 0 tokenIn) by done. cbn [outcome_bind].
  rewrite (slice_address _ ws 1 tokenOut) by done. cbn [outcome_bind].
  rewrite (slice_int_word _ ws 5 (uint_word amount)) by done. cbn [outcome_bind].
  rewrite (slice_int_word _ ws 6 (uint_word 0)) by done. cbn [outcome_bind].
  by rewrite !address_id, !uint_word_int by (done || lia).
Qed.

Lemma v3_calldata_roundtrip_witness :
  parseCalldata 8453 "uniswap_v3" (buildV3SwapCalldata (2 ^ 255) (USDCAddresses 8453) (WETHAddresses 8453) 500 zero20 1700000000) =
    Done (Some (found (USDCAddresses 8453) (WETHAddresses 8453) (Some (2 ^ 255)) (Some 0))).
Proof. apply v3_calldata_roundtrip; [lia|reflexivity|reflexivity]. Defined.

(** ** Calldata that crashes the parser *)

Lemma slice_ok data lo hi : 0 <= lo <= hi -> hi <= Z.of_nat (length data) ->
  slice data lo hi = Done (take (Z.to_nat (hi - lo)) (drop (Z.to_nat lo) data)).
Proof. intros Hlo Hhi. unfold slice. by rewrite !(proj2 (Z.leb_le _ _)) by lia. Qed.

Lemma slice_past data lo hi : Z.of_nat (length data) < hi -> slice data lo hi = Panic "slice bounds out of range".
Proof. intros H. unfold slice. rewrite (proj2 (Z.leb_gt hi _)) by done. by rewrite andb_false_r. Qed.

Lemma v2_panics data : (164 <= length data)%nat -> Z.of_nat (length data) < 2 ^ 63 ->
  let po := be_int (take 32 (drop 68 data)) in
  Z.of_nat (length data) - 36 < po <= Z.of_nat (length data) - 32 ->
  parseV2SwapExactTokensForTokens data = Panic "slice bounds out of range".
Proof.
  intros Hl Hm po Hpo. unfold parseV2SwapExactTokensForTokens. rewrite (proj2 (Nat.ltb_ge _ _)) by lia.
  unfold slice_int. rewrite !slice_ok by lia. cbn [outcome_bind].
  change (be_int (take (Z.to_nat (100 - 68)) (drop (Z.to_nat 68) data))) with po. cbv zeta.
  rewrite (u64_id po) by (unfold in_u64; lia). unfold too_far. rewrite (u64_id (po + 32)) by (unfold in_u64; lia).
  rewrite (proj2 (Z.ltb_ge _ _)) by lia. rewrite !u64_id by (unfold in_u64; lia).
  by rewrite slice_past by lia.
Qed.

Lemma v3_panics data : (196 <= length data < 228)%nat -> parseV3ExactInputSingle data = Panic "slice bounds out of range".
Proof.
  intros Hl. unfold parseV3ExactInputSingle. rewrite (proj2 (Nat.ltb_ge _ _)) by lia.
  unfold slice_int. rewrite !slice_ok by lia. cbn [outcome_bind]. by rewrite slice_past by lia.
Qed.

(** Crafted calldata crashes the parser: a transaction to a watched router whose
    [swapExactTokensForTokens] path offset lies in the last 36 to 32 bytes of the data (the
    bounds test forgets the selector), or an [exactInputSingle] call that is cut between
    its sixth and seventh word, makes the parser slice out of range and panic. *)
Theorem crafted_calldata_panics mp chainID tx to router now :
  tx_To tx = Some to -> router_name chainID to = Some router ->
  let data := tx_Data tx in
  Z.of_nat (length data) < 2 ^ 63 ->
  (take 4 data = sel "38ed1739" /\ (164 <= length data)%nat /\
     Z.of_nat (length data) - 36 < be_int (take 32 (drop 68 data)) <= Z.of_nat (length data) - 32 \/
   take 4 data = sel "414bf389" /\ (196 <= length data < 228)%nat) ->
  ParseTransaction mp chainID tx now = Panic "slice bounds out of range".
Proof.
  intros Hto Hr data Hm Hd. unfold ParseTransaction. rewrite Hto, Hr. unfold parseCalldata. fold data.
  destruct Hd as [(Hs & Hl & Hpo)|(Hs & Hl)]; rewrite (proj2 (Nat.ltb_ge _ _)) by lia; rewrite Hs; cbv zeta.
  - change (is_sel (sel "38ed1739") "38ed1739") with true. cbn [orb]. by rewrite v2_panics.
  - change (is_sel (sel "414bf389") "38ed1739" || is_sel (sel "414bf389") "5c11d795") with false.
    change (is_sel (sel "414bf389") "7ff36ab5" || is_sel (sel "414bf389") "b6f9de95") with false.
    change (is_sel (sel "414bf389") "18cbafe5" || is_sel (sel "414bf389") "791ac947") with false.
    change (is_sel (sel "414bf389") "414bf389") with true. cbv iota.
    by rewrite v3_panics.
Qed.

Definition crash_tx : Tx :=
  {| tx_Hash := zero32; tx_To := Some (HexToAddress "7a250d5630B4cF539739dF2C5dAcb4c659F2488D");
     tx_Data := sel "38ed1739" ++ uint_word 1 ++ uint_word 1 ++ uint_word 132 ++ zero32 ++ zero32;
     tx_From := zero20; tx_GasPrice := 1; tx_Gas := 100000; tx_Nonce := 0 |}.

Lemma crafted_calldata_panics_witness :
  ParseTransaction NewMempoolParser 1 crash_tx 0 = Panic "slice bounds out of range".
Proof.
  apply (crafted_calldata_panics NewMempoolParser 1 crash_tx (HexToAddress "7a250d5630B4cF539739dF2C5dAcb4c659F2488D") "uniswap_v2" 0).
  - reflexivity.
  - vm_compute. reflexivity.
  - vm_compute. reflexivity.
  - left. split; [vm_compute; reflexivity|]. split; [apply Nat.leb_le; vm_compute; reflexivity|].
    split; [vm_compute; reflexivity|]. apply Z.leb_le. vm_compute. reflexivity.
Defined.

(** The address of DAI on Ethereum contains a letter that is not hexadecimal; what is
    used is the decoded prefix, padded. *)
Lemma dai_address_truncated : take 7 (token_address "DAI" 1) = replicate 7 Byte.x00.
Proof. vm_compute. reflexivity. Qed.
