(* ===== verification/Presigned.v ===== *)
(** * Pre-signed transactions ([arb/presigned.go])

    The engine signs swaps ahead of time.  The cache holds, per chain, exchange, direction
    and amount, a few signed transactions with a lifetime; every signature takes the next
    nonce of its chain.  Signing is go-ethereum's and a parameter; the nested maps of the
    cache are one map over triples, with the set of exchanges that have an entry.

    No two transactions that are handed out share a nonce ([presigned_nonces_distinct]);
    but an exchange whose calldata cannot be built uses up a nonce at every attempt
    ([failed_dex_burns_nonces]), and a nonce without a transaction blocks all later ones. *)

From Stdlib Require Import String.
From S2P Require Import Prelude Json Signing Float64 Positions Swaps.

Record PreSignedTx := {
  pt_Chain : Z; pt_DEX : string; pt_Direction : string; pt_Amount : Z; pt_Nonce : Z;
  pt_SignedTx : bytes; pt_TxHash : bytes; pt_CreatedAt : Z; pt_ExpiresAt : Z;
}.

Record PreSignedConfig := {
  CacheDepth : Z; Amounts : list Z; TxLifetime : Z; MaxGasPrice : Z; MaxPriorityFee : Z;
  Chains : list Z; DEXs : list string;
}.

Definition DefaultPreSignedConfig : PreSignedConfig :=
  {| CacheDepth := 3; Amounts := [10 ^ 17; 5 * 10 ^ 17; 10 ^ 18]; TxLifetime := 30 * 10 ^ 9;
     MaxGasPrice := 100 * 10 ^ 9; MaxPriorityFee := 2 * 10 ^ 9;
     Chains := [ChainIDEthereum; ChainIDBase; ChainIDOptimism];
     DEXs := ["uniswap_v3_005"; "uniswap_v3_030"; "uniswap_v3_100"; "uniswap_v2"; "sushiswap";
              "aerodrome"; "aerodrome_cl"; "baseswap"; "velodrome"]%string |}.

(** Chain, exchange, and the key [direction_amount]. *)
Abbreviation cache_key := (Z * string * bytes)%type.

Record PreSignedCache := {
  cache : gmap cache_key (list PreSignedTx);
  known : gset (Z * string);                 (** the entries [cache[chain][dex]] that exist *)
  currentNonce : gmap Z Z;
  maxNonce : gmap Z Z;
  psc_config : PreSignedConfig;
}.

Definition NewPreSignedCache (c : option PreSignedConfig) : PreSignedCache :=
  {| cache := ∅; known := ∅; currentNonce := ∅; maxNonce := ∅; psc_config := default DefaultPreSignedConfig c |}.

Definition nonce_of (m : gmap Z Z) (chainID : Z) : Z := default 0 (m !! chainID).

Definition with_cache (psc : PreSignedCache) (m : gmap cache_key (list PreSignedTx)) : PreSignedCache :=
  {| cache := m; known := known psc; currentNonce := currentNonce psc; maxNonce := maxNonce psc; psc_config := psc_config psc |}.
Definition with_known (psc : PreSignedCache) (k : gset (Z * string)) : PreSignedCache :=
  {| cache := cache psc; known := k; currentNonce := currentNonce psc; maxNonce := maxNonce psc; psc_config := psc_config psc |}.
Definition with_nonces (psc : PreSignedCache) (cur mx : gmap Z Z) : PreSignedCache :=
  {| cache := cache psc; known := known psc; currentNonce := cur; maxNonce := mx; psc_config := psc_config psc |}.

Definition SetNonce (psc : PreSignedCache) (chainID nonce : Z) : PreSignedCache :=
  with_nonces psc (<[chainID := nonce]> (currentNonce psc))
    (if nonce_of (maxNonce psc) chainID <? nonce then <[chainID := nonce]> (maxNonce psc) else maxNonce psc).

(** The transaction before it is signed ([types.DynamicFeeTx]). *)
Record DynamicFeeTx := {
  df_ChainID : Z; df_Nonce : Z; df_GasTipCap : Z; df_GasFeeCap : Z; df_Gas : Z; df_To : bytes; df_Data : bytes;
}.

Definition cacheKey (direction : string) (amount : Z) : bytes := bs direction ++ bs "_" ++ dec amount.

Definition dex_type (dex : string) : option DEXType :=
  if existsb (String.eqb dex) ["uniswap_v2"; "sushiswap"; "baseswap"]%string then Some DEXUniswapV2
  else if existsb (String.eqb dex) ["uniswap_v3_005"; "uniswap_v3_030"]%string then Some DEXUniswapV3
  else if existsb (String.eqb dex) ["aerodrome"; "velodrome"]%string then Some DEXAerodrome
  else None.

Section presigned.
(** The account and its signer: [SignNewTx] and [MarshalBinary], with the hash. *)
Context (address : bytes) (sign : DynamicFeeTx -> result (bytes * bytes)).

Definition buildSwapCalldata (chainID : Z) (dex direction : string) (amount deadline : Z) : result (bytes * bytes) :=
  match chain_routers chainID with
  | None => Err "no routers for chain"
  | Some rs =>
      match dex_type dex with
      | None => Err "unknown DEX"
      | Some d =>
          match router_of rs d with
          | None => Err "no router for DEX type"
          | Some router =>
              let weth := WETHAddresses chainID in
              let usdc := USDCAddresses chainID in
              let buy := String.eqb direction "buy" in
              let tokenIn := if buy then usdc else weth in
              let tokenOut := if buy then weth else usdc in
              Ok (match d with
                  | DEXUniswapV2 => buildV2SwapCalldata amount tokenIn tokenOut address deadline
                  | DEXUniswapV3 => buildV3SwapCalldata amount tokenIn tokenOut
                                      (if String.eqb dex "uniswap_v3_030" then 3000 else 500) address deadline
                  | DEXAerodrome => buildSolidlySwapCalldata amount tokenIn tokenOut address false deadline
                  | DEXVelodrome => []
                  end, router)
          end
      end
  end.

(** [preSignTx]: the nonce is taken before anything can fail.  [now] is in nanoseconds,
    the deadline in seconds. *)
Definition preSignTx (psc : PreSignedCache) (chainID : Z) (dex direction : string) (amount now : Z)
  : PreSignedCache * result PreSignedTx :=
  let nonce := nonce_of (maxNonce psc) chainID in
  let psc := with_nonces psc (currentNonce psc) (<[chainID := u64 (nonce + 1)]> (maxNonce psc)) in
  (psc,
   let? ct := buildSwapCalldata chainID dex direction amount ((now + 300 * 10 ^ 9) / 10 ^ 9) in
   let gasLimit := if String.eqb dex "uniswap_v2" || String.eqb dex "sushiswap" then 200000 else 300000 in
   let? raw := sign {| df_ChainID := i64 chainID; df_Nonce := nonce; df_GasTipCap := MaxPriorityFee (psc_config psc);
                       df_GasFeeCap := MaxGasPrice (psc_config psc); df_Gas := gasLimit; df_To := ct.2; df_Data := ct.1 |} in
   Ok {| pt_Chain := chainID; pt_DEX := dex; pt_Direction := direction; pt_Amount := amount; pt_Nonce := nonce;
         pt_SignedTx := raw.1; pt_TxHash := raw.2; pt_CreatedAt := now; pt_ExpiresAt := now + TxLifetime (psc_config psc) |}).

Definition txs_at (psc : PreSignedCache) (k : cache_key) : list PreSignedTx := default [] (cache psc !! k).

(** The loop of [ensureCacheDepth]; at most [n] transactions are missing. *)
Fixpoint ensure_loop (n : nat) (psc : PreSignedCache) (chainID : Z) (dex direction : string) (amount now : Z) : PreSignedCache :=
  match n with
  | O => psc
  | S n =>
      let r := preSignTx psc chainID dex direction amount now in
      match r.2 with
      | Err _ => r.1
      | Ok tx =>
          let k := (chainID, dex, cacheKey direction amount) in
          ensure_loop n (with_cache r.1 (<[k := txs_at r.1 k ++ [tx]]> (cache r.1))) chainID dex direction amount now
      end
  end.

Definition ensureCacheDepth (psc : PreSignedCache) (chainID : Z) (dex direction : string) (amount now : Z) : PreSignedCache :=
  let existing := txs_at psc (chainID, dex, cacheKey direction amount) in
  let validCount := Z.of_nat (length (filter (fun tx => now < pt_ExpiresAt tx) existing)) in
  ensure_loop (Z.to_nat (CacheDepth (psc_config psc) - validCount)) psc chainID dex direction amount now.

Definition populate_dex (now chainID : Z) (psc : PreSignedCache) (dex : string) : PreSignedCache :=
  let psc := with_known psc ({[ (chainID, dex) ]} ∪ known psc) in
  fold_left (fun psc direction =>
    fold_left (fun psc amount => ensureCacheDepth psc chainID dex direction amount now) (Amounts (psc_config psc)) psc)
    ["buy"; "sell"]%string psc.

Definition populateCache (psc : PreSignedCache) (now : Z) : PreSignedCache :=
  fold_left (fun psc chainID => fold_left (populate_dex now chainID) (DEXs (psc_config psc)) psc)
    (Chains (psc_config psc)) psc.

Definition findClosestAmount (psc : PreSignedCache) (target : Z) : option Z :=
  fst <$> fold_left (fun best amt =>
    let diff := Z.abs (amt - target) in
    match best with
    | None => Some (amt, diff)
    | Some (_, d) => if diff <? d then Some (amt, diff) else best
    end) (Amounts (psc_config psc)) None.

(** The first transaction that is valid, and the others. *)
Fixpoint take_valid (now cur : Z) (txs : list PreSignedTx) : option (PreSignedTx * list PreSignedTx) :=
  match txs with
  | [] => None
  | tx :: txs =>
      if (now <? pt_ExpiresAt tx) && (cur <=? pt_Nonce tx) then Some (tx, txs)
      else match take_valid now cur txs with
           | Some (t, rest) => Some (t, tx :: rest)
           | None => None
           end
  end.

Definition GetPreSignedTx (psc : PreSignedCache) (chainID : Z) (dex direction : string) (amount now : Z)
  : PreSignedCache * result PreSignedTx :=
  let key := bs direction ++ bs "_" ++ match findClosestAmount psc amount with Some a => dec a | None => bs "<nil>" end in
  if bool_decide ((chainID, dex) ∉ known psc) then (psc, Err "no cache for chain and DEX")
  else
    let txs := txs_at psc (chainID, dex, key) in
    match txs with
    | [] => (psc, Err "no pre-signed tx available")
    | _ =>
        match take_valid now (nonce_of (currentNonce psc) chainID) txs with
        | Some (tx, rest) => (with_cache psc (<[(chainID, dex, key) := rest]> (cache psc)), Ok tx)
        | None => (psc, Err "no valid pre-signed tx (nonce expired)")
        end
    end.

Definition pruneExpired (psc : PreSignedCache) (now : Z) : PreSignedCache :=
  with_cache psc (filter (fun tx => now < pt_ExpiresAt tx) <$> cache psc).

Definition MarkNonceUsed (psc : PreSignedCache) (chainID nonce : Z) : PreSignedCache :=
  let psc := if nonce_of (currentNonce psc) chainID <=? nonce
             then with_nonces psc (<[chainID := u64 (nonce + 1)]> (currentNonce psc)) (maxNonce psc) else psc in
  with_cache psc (map_imap (fun k txs => Some (if k.1.1 =? chainID then filter (fun tx => pt_Nonce tx <> nonce) txs else txs)) (cache psc)).

(** The refresh of every five seconds. *)
Definition refresh (psc : PreSignedCache) (now : Z) : PreSignedCache := populateCache (pruneExpired psc now) now.
End presigned.

(** ** Nonces are distinct *)

Definition mx (psc : PreSignedCache) (c : Z) : Z := nonce_of (maxNonce psc) c.

(** What holds of a cache with settings [cfg], of the transactions [handed] out so far and
    of a bound [B] on the next nonces. *)
Record cache_inv (cfg : PreSignedConfig) (handed : list PreSignedTx) (B : Z) (psc : PreSignedCache) : Prop := {
  inv_cfg : psc_config psc = cfg;
  inv_bound c : 0 <= mx psc c <= B;
  inv_cached k l tx : cache psc !! k = Some l -> tx ∈ l -> pt_Chain tx = k.1.1 /\ 0 <= pt_Nonce tx < mx psc k.1.1;
  inv_nodup k l : cache psc !! k = Some l -> NoDup (pt_Nonce <$> l);
  inv_disjoint k1 k2 l1 l2 t1 t2 : k1 <> k2 -> k1.1.1 = k2.1.1 -> cache psc !! k1 = Some l1 -> cache psc !! k2 = Some l2 ->
    t1 ∈ l1 -> t2 ∈ l2 -> pt_Nonce t1 <> pt_Nonce t2;
  inv_handed h : h ∈ handed -> 0 <= pt_Nonce h < mx psc (pt_Chain h) /\
    forall k l tx, cache psc !! k = Some l -> tx ∈ l -> k.1.1 = pt_Chain h -> pt_Nonce tx <> pt_Nonce h;
  inv_distinct : NoDup ((fun h => (pt_Chain h, pt_Nonce h)) <$> handed);
}.

Lemma mx_insert psc cur c v c' :
  mx (with_nonces psc cur (<[c := v]> (maxNonce psc))) c' = if decide (c = c') then v else mx psc c'.
Proof.
  unfold mx, nonce_of. cbn [maxNonce with_nonces]. case_decide as E.
  - subst. by rewrite lookup_insert_eq.
  - by rewrite lookup_insert_ne.
Qed.

(** Raising next nonces, within the bound, keeps the invariant. *)
Lemma inv_raise cfg handed B B' psc cur m : cache_inv cfg handed B psc -> B <= B' ->
  (forall c, mx psc c <= nonce_of m c <= B') -> cache_inv cfg handed B' (with_nonces psc cur m).
Proof.
  intros [] HB Hm.
  assert (Hx : forall c, mx (with_nonces psc cur m) c = nonce_of m c) by done.
  split; try done.
  - intros c. rewrite Hx. pose proof (Hm c). pose proof (inv_bound0 c). lia.
  - intros k l tx Hk Ht. destruct (inv_cached0 k l tx Hk Ht) as [? ?]. split; [done|]. rewrite Hx.
    pose proof (Hm k.1.1). lia.
  - intros h Hh. destruct (inv_handed0 h Hh) as [? ?]. split; [|done]. rewrite Hx.
    pose proof (Hm (pt_Chain h)). lia.
Qed.

(** Dropping cached transactions keeps it. *)
Lemma inv_shrink cfg handed B psc m : cache_inv cfg handed B psc ->
  (forall k l', m !! k = Some l' -> exists l, cache psc !! k = Some l /\ (forall t, t ∈ l' -> t ∈ l) /\ NoDup (pt_Nonce <$> l')) ->
  cache_inv cfg handed B (with_cache psc m).
Proof.
  intros [] Hm. split; try done; cbn [cache with_cache].
  - intros k l tx Hk Ht. destruct (Hm k l Hk) as (l0 & Hk0 & Hs & _). by apply (inv_cached0 k l0 tx); auto.
  - intros k l Hk. by destruct (Hm k l Hk) as (_ & _ & _ & ?).
  - intros k1 k2 l1 l2 t1 t2 Hne Hc H1 H2 Ht1 Ht2. destruct (Hm _ _ H1) as (? & ? & ? & _), (Hm _ _ H2) as (? & ? & ? & _).
    eapply inv_disjoint0; eauto.
  - intros h Hh. destruct (inv_handed0 h Hh) as [? Hc]. split; [done|].
    intros k l tx Hk Ht Hch. destruct (Hm _ _ Hk) as (? & ? & ? & _). eapply Hc; eauto.
Qed.

(** A transaction with the next nonce is appended. *)
Lemma inv_append cfg handed B psc k tx : cache_inv cfg handed B psc -> mx psc k.1.1 < B -> B < 2 ^ 64 ->
  pt_Chain tx = k.1.1 -> pt_Nonce tx = mx psc k.1.1 ->
  let psc' := with_nonces psc (currentNonce psc) (<[k.1.1 := u64 (mx psc k.1.1 + 1)]> (maxNonce psc)) in
  cache_inv cfg handed B (with_cache psc' (<[k := txs_at psc' k ++ [tx]]> (cache psc'))).
Proof.
  intros Hi HmB HB Hc Hn psc'. pose proof Hi as [].
  assert (Hu : u64 (mx psc k.1.1 + 1) = mx psc k.1.1 + 1) by (apply u64_id; unfold in_u64; pose proof (inv_bound0 k.1.1); lia).
  assert (Hmx : forall c, mx psc' c = if decide (k.1.1 = c) then mx psc k.1.1 + 1 else mx psc c).
  { intros c. unfold psc'. rewrite mx_insert, Hu. done. }
  assert (Hget : forall k' l t, <[k := txs_at psc' k ++ [tx]]> (cache psc') !! k' = Some l -> t ∈ l ->
    (k' = k /\ t = tx) \/ exists l0, cache psc !! k' = Some l0 /\ t ∈ l0).
  { intros k' l t. change (cache psc') with (cache psc). destruct (decide (k = k')) as [<-|Hne].
    - rewrite lookup_insert_eq. intros [= <-] [Ht|Ht]%elem_of_app.
      + right. unfold txs_at in Ht. change (cache psc') with (cache psc) in Ht. revert Ht.
        destruct (cache psc !! k) as [l0|] eqn:E; cbn; [eauto|]. intros Ht. by apply not_elem_of_nil in Ht.
      + apply list_elem_of_singleton in Ht. by left.
    - rewrite lookup_insert_ne by done. eauto. }
  assert (Hlt : forall k' l0 t, cache psc !! k' = Some l0 -> t ∈ l0 -> k'.1.1 = k.1.1 -> pt_Nonce t < mx psc k.1.1).
  { intros k' l0 t Hk' Ht E. destruct (inv_cached0 _ _ _ Hk' Ht) as [_ ?]. rewrite E in *. lia. }
  split; try done; cbn [cache with_cache].
  - intros c. change (mx (with_cache psc' _) c) with (mx psc' c). rewrite Hmx. pose proof (inv_bound0 c). case_decide; [subst|]; lia.
  - intros k' l t Hk' Ht. change (mx (with_cache psc' _) k'.1.1) with (mx psc' k'.1.1). rewrite Hmx.
    destruct (Hget _ _ _ Hk' Ht) as [[-> ->]|(l0 & Hl0 & Ht0)].
    + rewrite decide_True by done. split; [done|]. pose proof (inv_bound0 k.1.1). lia.
    + destruct (inv_cached0 _ _ _ Hl0 Ht0) as [? ?]. split; [done|]. case_decide as E; [rewrite E in *|]; lia.
  - intros k' l Hk'. change (cache psc') with (cache psc) in Hk'. destruct (decide (k = k')) as [<-|Hne].
    + rewrite lookup_insert_eq in Hk'. injection Hk' as <-. rewrite fmap_app. unfold txs_at. change (cache psc') with (cache psc).
      destruct (cache psc !! k) as [l0|] eqn:E; cbn [default fmap list_fmap app]; [|apply NoDup_singleton].
      apply NoDup_app. split; [by eapply inv_nodup0|]. split; [|apply NoDup_singleton].
      intros n (t & -> & Ht)%list_elem_of_fmap Hx. apply list_elem_of_singleton in Hx.
      pose proof (Hlt _ _ _ E Ht eq_refl). lia.
    + rewrite lookup_insert_ne in Hk' by done. by eapply inv_nodup0.
  - intros k1 k2 l1 l2 t1 t2 Hne Hc12 H1 H2 Ht1 Ht2.
    destruct (Hget _ _ _ H1 Ht1) as [[-> ->]|(l10 & Hl1 & Ht10)], (Hget _ _ _ H2 Ht2) as [[-> ->]|(l20 & Hl2 & Ht20)]; [done|..].
    + pose proof (Hlt _ _ _ Hl2 Ht20 (eq_sym Hc12)). lia.
    + pose proof (Hlt _ _ _ Hl1 Ht10 Hc12). lia.
    + by eapply inv_disjoint0.
  - intros h Hh. destruct (inv_handed0 h Hh) as [Hb Hd].
    change (mx (with_cache psc' _) (pt_Chain h)) with (mx psc' (pt_Chain h)). rewrite Hmx.
    split; [case_decide as E; [rewrite E in *|]; lia|].
    intros k' l t Hk' Ht Hch. destruct (Hget _ _ _ Hk' Ht) as [[-> ->]|(l0 & Hl0 & Ht0)]; [|by eapply Hd].
    rewrite Hn, Hch. lia.
Qed.

(** A cached transaction is handed out. *)
Lemma inv_hand cfg handed B psc k l tx rest : cache_inv cfg handed B psc -> cache psc !! k = Some l -> l ≡ₚ tx :: rest ->
  cache_inv cfg (handed ++ [tx]) B (with_cache psc (<[k := rest]> (cache psc))).
Proof.
  intros Hi Hk Hp. pose proof Hi as [].
  assert (Htx : tx ∈ l) by (rewrite Hp; left).
  destruct (inv_cached0 _ _ _ Hk Htx) as [Hch Hn].
  pose proof (inv_nodup0 _ _ Hk) as Hnd. rewrite Hp in Hnd. rewrite fmap_cons in Hnd. apply NoDup_cons in Hnd as [Hnin Hnd].
  destruct (inv_shrink cfg handed B psc (<[k := rest]> (cache psc)) Hi) as [].
  { intros k' l' Hk'. destruct (decide (k = k')) as [<-|Hne].
    - rewrite lookup_insert_eq in Hk'. injection Hk' as <-. exists l. split; [done|]. split; [|done].
      intros t Ht. rewrite Hp. by right.
    - rewrite lookup_insert_ne in Hk' by done. exists l'. split; [done|]. split; [done|]. by eapply inv_nodup0. }
  split; try done.
  - intros h [Hh|Hh]%elem_of_app; [by apply inv_handed1|]. apply list_elem_of_singleton in Hh as ->.
    split; [by rewrite Hch|]. cbn [cache with_cache]. intros k' l' t Hk' Ht Hc.
    destruct (decide (k = k')) as [<-|Hne].
    + rewrite lookup_insert_eq in Hk'. injection Hk' as <-. intros E. apply Hnin. apply list_elem_of_fmap. eauto.
    + rewrite lookup_insert_ne in Hk' by done. eapply (inv_disjoint0 k' k); [done|congruence|done|done|done|done].
  - rewrite fmap_app. apply NoDup_app. split; [done|]. split; [|apply NoDup_singleton].
    intros x (h & -> & Hh)%list_elem_of_fmap Hx. apply list_elem_of_singleton in Hx. injection Hx as E1 E2.
    destruct (inv_handed0 h Hh) as [_ Hd]. eapply (Hd k l tx); [done|done|congruence|done].
Qed.

(** *** The operations *)

Section operations.
Context (address : bytes) (sign : DynamicFeeTx -> result (bytes * bytes)).

Lemma inv_weaken cfg handed B B' psc : cache_inv cfg handed B psc -> B <= B' -> cache_inv cfg handed B' psc.
Proof. intros Hi HB. destruct Hi. split; try done. intros c. pose proof (inv_bound0 c). lia. Qed.

Lemma preSignTx_ok psc c dex dir amount now tx : (preSignTx address sign psc c dex dir amount now).2 = Ok tx ->
  pt_Chain tx = c /\ pt_Nonce tx = mx psc c.
Proof.
  unfold preSignTx. cbv zeta. cbn [snd]. destruct (buildSwapCalldata _ _ _ _ _ _) as [ct|]; [|done]. cbn [result_bind].
  destruct (sign _) as [raw|]; [|done]. cbn [result_bind]. by intros [= <-].
Qed.

Lemma ensure_loop_inv n cfg handed B psc c dex dir amount now : cache_inv cfg handed B psc -> B + Z.of_nat n < 2 ^ 64 ->
  cache_inv cfg handed (B + Z.of_nat n) (ensure_loop address sign n psc c dex dir amount now).
Proof.
  revert B psc. induction n as [|n IH]; intros B psc Hi HB; [by rewrite Z.add_0_r|].
  cbn [ensure_loop]. cbv zeta. set (r := preSignTx address sign psc c dex dir amount now).
  assert (E1 : r.1 = with_nonces psc (currentNonce psc) (<[c := u64 (mx psc c + 1)]> (maxNonce psc))) by done.
  pose proof (inv_bound _ _ _ _ Hi c) as Hb.
  destruct r.2 as [tx|err] eqn:E2.
  - destruct (preSignTx_ok _ _ _ _ _ _ _ E2) as [Hc Hn].
    replace (B + Z.of_nat (S n)) with (B + 1 + Z.of_nat n) by lia. apply IH; [|lia]. rewrite E1.
    apply (inv_append cfg handed (B + 1) psc (c, dex, cacheKey dir amount)); cbn [fst]; [|lia|lia|done|done].
    eapply inv_weaken; [done|lia].
  - rewrite E1. apply (inv_raise _ _ B); [done|lia|]. intros c'.
    pose proof (mx_insert psc (currentNonce psc) c (u64 (mx psc c + 1)) c') as Hx. unfold mx at 1 in Hx. cbn [maxNonce with_nonces] in Hx.
    rewrite Hx. pose proof (inv_bound _ _ _ _ Hi c'). rewrite u64_id by (unfold in_u64; lia). case_decide as Ec; [rewrite Ec in *|]; lia.
Qed.

(** The nonces one call can use up. *)
Definition depth (cfg : PreSignedConfig) : Z := Z.max 0 (CacheDepth cfg).

Lemma ensure_inv cfg handed B psc c dex dir amount now : cache_inv cfg handed B psc -> B + depth cfg < 2 ^ 64 ->
  cache_inv cfg handed (B + depth cfg) (ensureCacheDepth address sign psc c dex dir amount now).
Proof.
  intros Hi HB. unfold ensureCacheDepth. cbv zeta. rewrite (inv_cfg _ _ _ _ Hi).
  match goal with |- context[ensure_loop _ _ ?m] => set (n := m) end.
  assert (Hn : Z.of_nat n <= depth cfg) by (unfold n, depth; lia).
  eapply inv_weaken; [apply ensure_loop_inv; [done|lia]|lia].
Qed.

Lemma fold_budget {X T} (I : Z -> T -> Prop) (f : T -> X -> T) (lim d : Z) (l : list X) B s :
  0 <= d -> (forall B s x, I B s -> B + d < lim -> I (B + d) (f s x)) ->
  I B s -> B + Z.of_nat (length l) * d < lim -> I (B + Z.of_nat (length l) * d) (fold_left f l s).
Proof.
  intros Hd Hf. revert B s. induction l as [|x l IH]; intros B s HI HB; cbn [fold_left length] in *.
  { by replace (B + Z.of_nat 0 * d) with B by lia. }
  replace (B + Z.of_nat (S (length l)) * d) with (B + d + Z.of_nat (length l) * d) in * by lia.
  apply IH; [|done]. apply Hf; [done|]. nia.
Qed.

Definition per_dex (cfg : PreSignedConfig) : Z := 2 * (Z.of_nat (length (Amounts cfg)) * depth cfg).
Definition per_populate (cfg : PreSignedConfig) : Z :=
  Z.of_nat (length (Chains cfg)) * (Z.of_nat (length (DEXs cfg)) * per_dex cfg).

Lemma populate_dex_inv cfg handed B psc now c dex : cache_inv cfg handed B psc -> B + per_dex cfg < 2 ^ 64 ->
  cache_inv cfg handed (B + per_dex cfg) (populate_dex address sign now c psc dex).
Proof.
  intros Hi HB. assert (Hd : 0 <= depth cfg) by (unfold depth; lia).
  assert (Hi1 : cache_inv cfg handed B (with_known psc ({[ (c, dex) ]} ∪ known psc))) by (by destruct Hi).
  unfold populate_dex. cbv zeta.
  change (per_dex cfg) with (Z.of_nat (length ["buy"; "sell"]%string) * (Z.of_nat (length (Amounts cfg)) * depth cfg)) in *.
  apply (fold_budget (cache_inv cfg handed) _ (2 ^ 64)); [nia| |done|done].
  intros B' s dir Hs HB'. rewrite (inv_cfg _ _ _ _ Hs).
  apply (fold_budget (cache_inv cfg handed) _ (2 ^ 64)); [done| |done|done].
  intros B2 s2 amount Hs2 HB2. by apply ensure_inv.
Qed.

Lemma populate_inv cfg handed B psc now : cache_inv cfg handed B psc -> B + per_populate cfg < 2 ^ 64 ->
  cache_inv cfg handed (B + per_populate cfg) (populateCache address sign psc now).
Proof.
  intros Hi HB. assert (Hd : 0 <= per_dex cfg) by (unfold per_dex, depth; nia).
  unfold populateCache, per_populate in *. rewrite (inv_cfg _ _ _ _ Hi).
  apply (fold_budget (cache_inv cfg handed) _ (2 ^ 64)); [nia| |done|done].
  intros B' s c Hs HB'. rewrite (inv_cfg _ _ _ _ Hs).
  apply (fold_budget (cache_inv cfg handed) _ (2 ^ 64)); [done| |done|done].
  intros B2 s2 dex Hs2 HB2. by apply populate_dex_inv.
Qed.

Lemma nodup_fmap_filter {X Y} (f : X -> Y) (P : X -> Prop) `{forall x, Decision (P x)} l :
  NoDup (f <$> l) -> NoDup (f <$> filter P l).
Proof.
  intros Hn. induction l as [|x l IH]; [constructor|]. rewrite fmap_cons in Hn. apply NoDup_cons in Hn as [Hx Hn].
  rewrite filter_cons. case_decide; [|by apply IH]. rewrite fmap_cons. constructor; [|by apply IH].
  intros (y & Ey & Hy)%list_elem_of_fmap. apply Hx. apply list_elem_of_fmap. exists y. split; [done|].
  by apply list_elem_of_filter in Hy as [_ ?].
Qed.

Lemma prune_inv cfg handed B psc now : cache_inv cfg handed B psc -> cache_inv cfg handed B (pruneExpired psc now).
Proof.
  intros Hi. apply inv_shrink; [done|]. intros k l'. rewrite lookup_fmap, fmap_Some. intros (l & Hl & ->). exists l.
  split; [done|]. split; [intros t Ht; by apply list_elem_of_filter in Ht as [_ ?]|].
  apply nodup_fmap_filter. by eapply inv_nodup.
Qed.

Lemma setnonce_inv cfg handed B psc c n : cache_inv cfg handed B psc -> n <= B -> cache_inv cfg handed B (SetNonce psc c n).
Proof.
  intros Hi Hn. unfold SetNonce. apply (inv_raise _ _ B); [done|lia|]. intros c'.
  pose proof (inv_bound _ _ _ _ Hi c') as Hb. change (nonce_of (maxNonce psc) c) with (mx psc c).
  destruct (Z.ltb_spec (mx psc c) n); [|change (nonce_of (maxNonce psc) c') with (mx psc c'); lia].
  pose proof (mx_insert psc (currentNonce psc) c n c') as Hx. unfold mx at 1 in Hx. cbn [maxNonce with_nonces] in Hx.
  rewrite Hx. case_decide as Ec; [rewrite Ec in *|]; lia.
Qed.

Lemma mark_inv cfg handed B psc c n : cache_inv cfg handed B psc -> cache_inv cfg handed B (MarkNonceUsed psc c n).
Proof.
  intros Hi. unfold MarkNonceUsed. cbv zeta. set (psc1 := if _ <=? _ then _ else _).
  assert (H1 : cache_inv cfg handed B psc1).
  { unfold psc1. destruct (_ <=? _); [|done]. apply (inv_raise _ _ B); [done|lia|].
    intros c'. pose proof (inv_bound _ _ _ _ Hi c'). unfold mx in *. lia. }
  apply inv_shrink; [done|]. intros k l'. rewrite map_lookup_imap. destruct (cache psc1 !! k) as [l|] eqn:E; [|done].
  cbn. intros [= <-]. exists l. split; [done|]. pose proof (inv_nodup _ _ _ _ H1 _ _ E) as Hnd.
  destruct (k.1.1 =? c); [|done]. split; [intros t Ht; by apply list_elem_of_filter in Ht as [_ ?]|].
  by apply nodup_fmap_filter.
Qed.

Lemma take_valid_perm now cur l tx rest : take_valid now cur l = Some (tx, rest) -> l ≡ₚ tx :: rest.
Proof.
  revert tx rest. induction l as [|x l IH]; intros tx rest; cbn [take_valid]; [done|].
  destruct (_ && _); [by intros [= <- <-]|]. destruct (take_valid now cur l) as [[t r]|]; [|done].
  intros [= <- <-]. rewrite (IH _ _ eq_refl). apply perm_swap.
Qed.

(** *** Runs *)

Inductive psc_op :=
| PSetNonce (chain nonce : Z)
| PPopulate (now : Z)
| PPrune (now : Z)
| PGet (chain : Z) (dex direction : string) (amount now : Z)
| PMark (chain nonce : Z).

(** A step, with the transactions handed out so far. *)
Definition psc_exec (st : PreSignedCache * list PreSignedTx) (x : psc_op) : PreSignedCache * list PreSignedTx :=
  match x with
  | PSetNonce c n => (SetNonce st.1 c n, st.2)
  | PPopulate now => (populateCache address sign st.1 now, st.2)
  | PPrune now => (pruneExpired st.1 now, st.2)
  | PGet c dex dir amount now =>
      let r := GetPreSignedTx st.1 c dex dir amount now in
      (r.1, match r.2 with Ok tx => st.2 ++ [tx] | Err _ => st.2 end)
  | PMark c n => (MarkNonceUsed st.1 c n, st.2)
  end.

Lemma get_inv cfg handed B psc c dex dir amount now : cache_inv cfg handed B psc ->
  let r := GetPreSignedTx psc c dex dir amount now in
  cache_inv cfg (match r.2 with Ok tx => handed ++ [tx] | Err _ => handed end) B r.1.
Proof.
  intros Hi. unfold GetPreSignedTx. cbv zeta. case_bool_decide; [done|].
  match goal with |- context[txs_at psc ?kk] => set (k := kk) end.
  unfold txs_at. destruct (cache psc !! k) as [l|] eqn:E; cbn [default]; [|done].
  destruct l as [|x l]; [done|]. destruct (take_valid _ _ _) as [[tx rest]|] eqn:Et; [|done]. cbn [fst snd].
  apply take_valid_perm in Et. by eapply inv_hand.
Qed.

Definition small_nonce (x : psc_op) : Prop := match x with PSetNonce _ n => n <= 2 ^ 62 | _ => True end.

Lemma psc_run_inv cfg ops : Forall small_nonce ops -> forall B st, cache_inv cfg st.2 B st.1 -> 2 ^ 62 <= B ->
  B + Z.of_nat (length ops) * per_populate cfg < 2 ^ 64 ->
  cache_inv cfg (fold_left psc_exec ops st).2 (B + Z.of_nat (length ops) * per_populate cfg) (fold_left psc_exec ops st).1.
Proof.
  assert (Hp : 0 <= per_populate cfg) by (unfold per_populate, per_dex, depth; nia).
  induction 1 as [|x ops Hx _ IH]; intros B st Hi HB Hlim; cbn [fold_left length] in *.
  { by replace (B + Z.of_nat 0 * per_populate cfg) with B by lia. }
  replace (B + Z.of_nat (S (length ops)) * per_populate cfg) with (B + per_populate cfg + Z.of_nat (length ops) * per_populate cfg) in * by lia.
  apply IH; [|lia|done]. destruct x as [c n|now|now|c dex dir amount now|c n]; cbn [psc_exec fst snd small_nonce] in *.
  - apply setnonce_inv; [eapply inv_weaken; [done|lia]|lia].
  - apply populate_inv; [done|nia].
  - apply prune_inv. eapply inv_weaken; [done|lia].
  - apply get_inv. eapply inv_weaken; [done|lia].
  - apply mark_inv. eapply inv_weaken; [done|lia].
Qed.

Lemma new_cache_inv c : cache_inv (default DefaultPreSignedConfig c) [] (2 ^ 62) (NewPreSignedCache c).
Proof.
  split; cbn [cache NewPreSignedCache].
  - done.
  - intros k. unfold mx, nonce_of. cbn [maxNonce NewPreSignedCache]. rewrite lookup_empty. cbn. lia.
  - intros k l tx H. by rewrite lookup_empty in H.
  - intros k l H. by rewrite lookup_empty in H.
  - intros k1 k2 l1 l2 t1 t2 _ _ H. by rewrite lookup_empty in H.
  - intros h Hh. by apply not_elem_of_nil in Hh.
  - constructor.
Qed.
End operations.

(** No two pre-signed transactions share a nonce: whatever sequence of refreshes,
    prunings, requests, confirmations and resynchronised nonces the cache goes through,
    the transactions it hands out for a chain have pairwise different nonces.  Nonces
    are 64 bits; resynchronised ones are taken to be at most [2^62], and the number of
    signatures of the run below [2^63]. *)
Theorem presigned_nonces_distinct address sign c ops :
  Forall small_nonce ops ->
  Z.of_nat (length ops) * per_populate (default DefaultPreSignedConfig c) < 2 ^ 63 ->
  NoDup ((fun h => (pt_Chain h, pt_Nonce h)) <$> (fold_left (psc_exec address sign) ops (NewPreSignedCache c, [])).2).
Proof.
  intros Hs Hl. eapply inv_distinct, (psc_run_inv address sign (default DefaultPreSignedConfig c) ops Hs (2 ^ 62)); [apply new_cache_inv|done|].
  lia.
Qed.

Definition ex_sign (t : DynamicFeeTx) : result (bytes * bytes) := Ok (df_Data t, be_bytes 32 (df_Nonce t)).
Definition ex_psc_cfg : PreSignedConfig :=
  {| CacheDepth := 2; Amounts := [10]; TxLifetime := 30; MaxGasPrice := 5; MaxPriorityFee := 1;
     Chains := [1]; DEXs := ["uniswap_v2"; "velodrome"]%string |}.
Definition ex_psc_ops : list psc_op :=
  [PSetNonce 1 7; PPopulate 0; PGet 1 "uniswap_v2" "buy" 12 1; PGet 1 "uniswap_v2" "sell" 8 1; PPopulate 5; PGet 1 "uniswap_v2" "buy" 12 6].

Lemma presigned_nonces_distinct_witness :
  map pt_Nonce (fold_left (psc_exec zero20 ex_sign) ex_psc_ops (NewPreSignedCache (Some ex_psc_cfg), [])).2 = [7; 9; 8] /\
  NoDup ((fun h => (pt_Chain h, pt_Nonce h)) <$> (fold_left (psc_exec zero20 ex_sign) ex_psc_ops (NewPreSignedCache (Some ex_psc_cfg), [])).2).
Proof.
  split; [vm_compute; reflexivity|].
  apply (presigned_nonces_distinct zero20 ex_sign (Some ex_psc_cfg) ex_psc_ops); [|vm_compute; reflexivity].
  repeat constructor; apply Z.leb_le; reflexivity.
Defined.

(** ** Nonces that are used up without a transaction *)

Section burns.
Context (address : bytes) (sign : DynamicFeeTx -> result (bytes * bytes)).
Context (cfg : PreSignedConfig) (handed : list PreSignedTx) (c : Z) (dex : string).

(** The calldata for this exchange on this chain cannot be built. *)
Definition unbuildable : Prop :=
  forall dir amount deadline, is_ok (buildSwapCalldata address c dex dir amount deadline) = false.

(** The next nonce of the chain is at least [lo], and nothing is cached for the exchange. *)
Definition burning (lo B : Z) (psc : PreSignedCache) : Prop :=
  cache_inv cfg handed B psc /\ lo <= mx psc c /\ forall key, txs_at psc (c, dex, key) = [].

Hypothesis Hfail : unbuildable.

Lemma preSign_mx psc c' dex' dir amount now B : cache_inv cfg handed B psc -> B + 1 < 2 ^ 64 ->
  mx (preSignTx address sign psc c' dex' dir amount now).1 c = mx psc c + (if decide (c' = c) then 1 else 0).
Proof.
  intros Hi HB. unfold preSignTx. cbn [fst]. rewrite mx_insert. pose proof (inv_bound _ _ _ _ Hi c') as Hb.
  change (nonce_of (maxNonce psc) c') with (mx psc c'). rewrite u64_id by (unfold in_u64; lia).
  case_decide as E; [rewrite E; done|lia].
Qed.

Lemma ensure_loop_burning n lo B psc c' dex' dir amount now : burning lo B psc -> B + Z.of_nat n < 2 ^ 64 ->
  burning lo (B + Z.of_nat n) (ensure_loop address sign n psc c' dex' dir amount now).
Proof.
  intros (Hi & Hlo & Hno) HB. split; [by apply ensure_loop_inv|].
  revert B psc Hi Hlo Hno HB. induction n as [|n IH]; intros B psc Hi Hlo Hno HB; [done|].
  cbn [ensure_loop]. cbv zeta. pose proof (preSign_mx psc c' dex' dir amount now B Hi ltac:(lia)) as Hm.
  pose proof (ensure_loop_inv address sign 1 cfg handed B psc c' dex' dir amount now Hi ltac:(lia)) as H1.
  cbn [ensure_loop] in H1. cbv zeta in H1.
  set (r := preSignTx address sign psc c' dex' dir amount now) in *.
  assert (Hc1 : cache r.1 = cache psc) by done.
  destruct r.2 as [tx|err] eqn:E2.
  - apply (IH (B + Z.of_nat 1)); [exact H1| | |lia].
    + change (mx (with_cache r.1 _) c) with (mx r.1 c). rewrite Hm. case_decide; lia.
    + intros key. specialize (Hno key). unfold txs_at in *. cbn [cache with_cache]. rewrite Hc1.
      rewrite lookup_insert_ne; [done|]. intros [= -> -> _].
      unfold r, preSignTx in E2. cbn [snd] in E2. specialize (Hfail dir amount ((now + 300 * 10 ^ 9) / 10 ^ 9)).
      destruct (buildSwapCalldata _ _ _ _ _ _); [done|]. discriminate E2.
  - split; [rewrite Hm; case_decide; lia|]. intros key. unfold txs_at. rewrite Hc1. apply Hno.
Qed.

Lemma ensure_burning lo B psc c' dex' dir amount now : burning lo B psc -> B + depth cfg < 2 ^ 64 ->
  burning lo (B + depth cfg) (ensureCacheDepth address sign psc c' dex' dir amount now).
Proof.
  intros Hb HB. pose proof Hb as (Hi & _). unfold ensureCacheDepth. cbv zeta. rewrite (inv_cfg _ _ _ _ Hi).
  match goal with |- context[ensure_loop _ _ ?m] => set (n := m) end.
  assert (Hn : Z.of_nat n <= depth cfg) by (unfold n, depth; lia).
  destruct (ensure_loop_burning n lo B psc c' dex' dir amount now Hb ltac:(lia)) as (? & ? & ?).
  split; [|done]. eapply inv_weaken; [done|lia].
Qed.

(** For the exchange itself every call uses up one nonce. *)
Lemma ensure_burns lo B psc dir amount now : 0 < CacheDepth cfg -> burning lo B psc -> B + depth cfg < 2 ^ 64 ->
  burning (lo + 1) (B + depth cfg) (ensureCacheDepth address sign psc c dex dir amount now).
Proof.
  intros Hd Hb HB. destruct (ensure_burning lo B psc c dex dir amount now Hb HB) as (H1 & _ & H3).
  split; [done|]. split; [|done]. destruct Hb as (Hi & Hlo & Hno).
  unfold ensureCacheDepth. cbv zeta. rewrite (inv_cfg _ _ _ _ Hi), Hno. cbn [filter list_filter length].
  destruct (Z.to_nat (CacheDepth cfg - Z.of_nat 0)) as [|n] eqn:En; [lia|].
  cbn [ensure_loop]. cbv zeta. pose proof (preSign_mx psc c dex dir amount now B Hi) as Hm.
  rewrite decide_True in Hm by done. unfold depth in HB.
  destruct (preSignTx address sign psc c dex dir amount now).2 as [tx|err] eqn:E2.
  - unfold preSignTx in E2. cbn [snd] in E2. specialize (Hfail dir amount ((now + 300 * 10 ^ 9) / 10 ^ 9)).
    destruct (buildSwapCalldata _ _ _ _ _ _); [done|]. discriminate E2.
  - rewrite Hm by lia. lia.
Qed.

(** [fold_budget] with a lower bound that grows by [g] at every step, or at one of them. *)
Lemma fold_gain {X T} (I : Z -> Z -> T -> Prop) (f : T -> X -> T) (lim d g : Z) (l : list X) lo B s :
  0 <= d -> (forall lo B s x, x ∈ l -> I lo B s -> B + d < lim -> I (lo + g) (B + d) (f s x)) ->
  I lo B s -> B + Z.of_nat (length l) * d < lim ->
  I (lo + Z.of_nat (length l) * g) (B + Z.of_nat (length l) * d) (fold_left f l s).
Proof.
  intros Hd Hf. revert lo B s. induction l as [|x l IH]; intros lo B s HI HB; cbn [fold_left length] in *.
  { by replace (lo + Z.of_nat 0 * g) with lo by lia; replace (B + Z.of_nat 0 * d) with B by lia. }
  replace (B + Z.of_nat (S (length l)) * d) with (B + d + Z.of_nat (length l) * d) in * by lia.
  replace (lo + Z.of_nat (S (length l)) * g) with (lo + g + Z.of_nat (length l) * g) by lia.
  apply IH; [|apply Hf; [left|done|nia]|done]. intros lo' B' s' y Hy. apply Hf. by right.
Qed.

Lemma fold_gain_at {X T} (I : Z -> Z -> T -> Prop) (f : T -> X -> T) (lim d g : Z) (x0 : X) (l : list X) lo B s :
  0 <= d -> (forall lo B s x, I lo B s -> B + d < lim -> I lo (B + d) (f s x)) ->
  (forall lo B s, I lo B s -> B + d < lim -> I (lo + g) (B + d) (f s x0)) ->
  x0 ∈ l -> I lo B s -> B + Z.of_nat (length l) * d < lim ->
  I (lo + g) (B + Z.of_nat (length l) * d) (fold_left f l s).
Proof.
  intros Hd Hf H0 Hin HI HB. apply list_elem_of_split in Hin as (l1 & l2 & ->).
  rewrite fold_left_app. rewrite length_app in *. cbn [fold_left length] in *.
  assert (HI1 : I lo (B + Z.of_nat (length l1) * d) (fold_left f l1 s)).
  { replace lo with (lo + Z.of_nat (length l1) * 0) by lia. apply (fold_gain I f lim); [done| |done|nia].
    intros lo' B' s' x _ H1 H2. rewrite Z.add_0_r. by apply Hf. }
  assert (HI2 : I (lo + g) (B + Z.of_nat (length l1) * d + d) (f (fold_left f l1 s) x0)) by (apply H0; [done|nia]).
  replace (lo + g) with (lo + g + Z.of_nat (length l2) * 0) by lia.
  replace (B + Z.of_nat (length l1 + S (length l2)) * d) with (B + Z.of_nat (length l1) * d + d + Z.of_nat (length l2) * d) in * by lia.
  apply (fold_gain I f lim); [done| |done|done]. intros lo' B' s' x _ H1 H2. rewrite Z.add_0_r. by apply Hf.
Qed.

Lemma known_burning lo B psc ks : burning lo B psc -> burning lo B (with_known psc ks).
Proof. intros (Hi & ? & ?). split; [by destruct Hi|done]. Qed.

Lemma populate_dex_burning g lo B psc now c' dex' :
  (forall lo B psc dir amount, burning lo B psc -> B + depth cfg < 2 ^ 64 ->
     burning (lo + g) (B + depth cfg) (ensureCacheDepth address sign psc c' dex' dir amount now)) ->
  burning lo B psc -> B + per_dex cfg < 2 ^ 64 ->
  burning (lo + 2 * (Z.of_nat (length (Amounts cfg)) * g)) (B + per_dex cfg) (populate_dex address sign now c' psc dex').
Proof.
  intros Hstep Hb HB. assert (Hd : 0 <= depth cfg) by (unfold depth; lia). unfold populate_dex. cbv zeta.
  change (per_dex cfg) with (Z.of_nat (length ["buy"; "sell"]%string) * (Z.of_nat (length (Amounts cfg)) * depth cfg)) in *.
  change (lo + 2 * ?x) with (lo + Z.of_nat (length ["buy"; "sell"]%string) * x).
  apply (fold_gain burning _ (2 ^ 64)); [nia| |by apply known_burning|done].
  intros lo1 B1 s1 dir _ Hs1 HB1. destruct Hs1 as (Hi1 & Hr1). rewrite (inv_cfg _ _ _ _ Hi1).
  apply (fold_gain burning _ (2 ^ 64)); [done| |done|done]. intros lo2 B2 s2 amount _ Hs2 HB2. by apply Hstep.
Qed.

Lemma populate_burns lo B psc now : 0 < CacheDepth cfg -> c ∈ Chains cfg -> dex ∈ DEXs cfg ->
  burning lo B psc -> B + per_populate cfg < 2 ^ 64 ->
  burning (lo + 2 * Z.of_nat (length (Amounts cfg))) (B + per_populate cfg) (populateCache address sign psc now).
Proof.
  intros Hd Hc Hx Hb HB. assert (Hpd : 0 <= per_dex cfg) by (unfold per_dex, depth; nia).
  assert (Hother : forall lo B s c' x, burning lo B s -> B + per_dex cfg < 2 ^ 64 ->
    burning lo (B + per_dex cfg) (populate_dex address sign now c' s x)).
  { intros lo' B' s' c' x Hs' HB'. replace lo' with (lo' + 2 * (Z.of_nat (length (Amounts cfg)) * 0)) by lia.
    apply populate_dex_burning; [|done|done]. intros. rewrite Z.add_0_r. by apply ensure_burning. }
  assert (Hrow : forall lo B s c', burning lo B s -> B + Z.of_nat (length (DEXs cfg)) * per_dex cfg < 2 ^ 64 ->
    burning lo (B + Z.of_nat (length (DEXs cfg)) * per_dex cfg) (fold_left (populate_dex address sign now c') (DEXs (psc_config s)) s)).
  { intros lo' B' s' c' Hs' HB'. destruct Hs' as (Hi' & Hr'). rewrite (inv_cfg _ _ _ _ Hi').
    replace lo' with (lo' + Z.of_nat (length (DEXs cfg)) * 0) by lia.
    apply (fold_gain burning _ (2 ^ 64)); [done| |done|done]. intros. rewrite Z.add_0_r. by apply Hother. }
  destruct Hb as (Hi & Hr). unfold populateCache, per_populate in *. rewrite (inv_cfg _ _ _ _ Hi).
  apply (fold_gain_at burning _ (2 ^ 64) _ _ c); [nia|intros; by apply Hrow| |done|done|done].
  intros lo1 B1 s1 (Hi1 & Hr1) HB1. rewrite (inv_cfg _ _ _ _ Hi1).
  apply (fold_gain_at burning _ (2 ^ 64) _ _ dex); [done|intros; by apply Hother| |done|done|done].
  intros lo2 B2 s2 Hs2 HB2. replace (2 * Z.of_nat (length (Amounts cfg))) with (2 * (Z.of_nat (length (Amounts cfg)) * 1)) by lia.
  apply populate_dex_burning; [|done|done]. intros. by apply ensure_burns.
Qed.

Lemma prune_burning lo B psc now : burning lo B psc -> burning lo B (pruneExpired psc now).
Proof.
  intros (Hi & Hlo & Hno). split; [by apply prune_inv|]. split; [done|]. intros key. specialize (Hno key).
  unfold txs_at, pruneExpired in *. cbn [cache with_cache]. rewrite lookup_fmap.
  destruct (cache psc !! (c, dex, key)); cbn in *; [by subst|done].
Qed.
End burns.

Lemma setnonce_mx psc c n : n <= mx (SetNonce psc c n) c.
Proof.
  unfold SetNonce. change (nonce_of (maxNonce psc) c) with (mx psc c).
  destruct (Z.ltb_spec (mx psc c) n) as [H|H].
  - rewrite mx_insert, decide_True by done. lia.
  - exact H.
Qed.

(** An exchange that cannot be served uses up nonces for ever: if the calldata of a
    configured exchange cannot be built on a configured chain (as for four of the nine
    default exchanges on Ethereum), every refresh takes two nonces per amount for it and
    signs nothing; after [n] refreshes of a new cache the next nonce is at least
    [2 n] times the number of amounts above the start, and the transactions signed after
    these gaps cannot be mined. *)
Theorem failed_dex_burns_nonces address sign cfg c dex nonce now n :
  unbuildable address c dex -> c ∈ Chains cfg -> dex ∈ DEXs cfg -> 0 < CacheDepth cfg ->
  0 <= nonce <= 2 ^ 62 -> Z.of_nat n * per_populate cfg < 2 ^ 63 ->
  let psc := Nat.iter n (fun p => refresh address sign p now) (SetNonce (NewPreSignedCache (Some cfg)) c nonce) in
  nonce + 2 * Z.of_nat (length (Amounts cfg)) * Z.of_nat n <= nonce_of (maxNonce psc) c /\
  forall key, txs_at psc (c, dex, key) = [].
Proof.
  intros Hf Hc Hx Hd Hn Hlim psc.
  assert (Hp : 0 <= per_populate cfg) by (unfold per_populate, per_dex, depth; nia).
  enough (H : burning cfg [] c dex (nonce + 2 * Z.of_nat (length (Amounts cfg)) * Z.of_nat n)
    (2 ^ 62 + Z.of_nat n * per_populate cfg) psc) by (destruct H as (_ & H1 & H2); done).
  subst psc. induction n as [|n IH].
  - replace (2 ^ 62 + Z.of_nat 0 * per_populate cfg) with (2 ^ 62) by lia.
    split; [apply setnonce_inv; [apply (new_cache_inv (Some cfg))|lia]|]. split; [|done].
    pose proof (setnonce_mx (NewPreSignedCache (Some cfg)) c nonce). change (Nat.iter 0 _ ?s) with s. lia.
  - cbn [Nat.iter]. unfold refresh at 1.
    replace (nonce + 2 * Z.of_nat (length (Amounts cfg)) * Z.of_nat (S n))
      with (nonce + 2 * Z.of_nat (length (Amounts cfg)) * Z.of_nat n + 2 * Z.of_nat (length (Amounts cfg))) by lia.
    replace (2 ^ 62 + Z.of_nat (S n) * per_populate cfg) with (2 ^ 62 + Z.of_nat n * per_populate cfg + per_populate cfg) by lia.
    apply populate_burns; [done|done|done|done|apply prune_burning, IH; nia|nia].
Qed.

Lemma velodrome_unbuildable address : unbuildable address 1 "velodrome".
Proof. intros dir amount deadline. reflexivity. Qed.

Lemma failed_dex_burns_nonces_witness :
  let psc := Nat.iter 5 (fun p => refresh zero20 ex_sign p 0) (SetNonce (NewPreSignedCache (Some ex_psc_cfg)) 1 7) in
  7 + 2 * Z.of_nat (length (Amounts ex_psc_cfg)) * Z.of_nat 5 <= nonce_of (maxNonce psc) 1 /\
  forall key, txs_at psc (1, "velodrome"%string, key) = [].
Proof.
  apply (failed_dex_burns_nonces zero20 ex_sign ex_psc_cfg 1 "velodrome" 7 0 5);
    [apply velodrome_unbuildable|left|right; left|reflexivity|split; apply Z.leb_le; reflexivity|vm_compute; reflexivity].
Defined.
