(* ===== verification/Executor.v ===== *)
(** * Executing opportunities ([arb/executor.go])

    The executor takes opportunities from a bounded queue, locks the input in the position
    manager ([Positions]), and sends one transaction per step: a pre-signed one
    ([Presigned]) or, failing that, one it builds and signs.  Broadcasting, signing and the
    sender's key are parameters; the two steps of a cross-chain trade run in parallel and
    the model takes the order in which they finish.

    Locks are released on every path and nothing else of the books changes
    ([execution_restores_positions]); the executor and the cache count nonces separately
    from the same start ([nonce_counters_collide]). *)

From Stdlib Require Import String SpecFloat.
From S2P Require Import Prelude Json Signing Float64 Positions Swaps Presigned.

Record PathStep := { ps_ChainID : Z; ps_DEX : string; ps_TokenIn : bytes; ps_TokenOut : bytes }.

Record ArbitrageOpportunity := {
  opp_ID : bytes; Path : list PathStep; BuyChain : Z; SellChain : Z; IsCrossChain : bool;
  InputAmount : option Z; ExpectedProfit : option Z;
}.

Record ExecutorConfig := {
  ex_MaxGasPrice : Z; SlippageBPS : Z; ex_ExecutionTimeout : Z; ex_MaxConcurrent : Z;
  UseFlashLoans : bool; MinProfitAfterGas : Z;
}.

Definition DefaultExecutorConfig : ExecutorConfig :=
  {| ex_MaxGasPrice := 50 * 10 ^ 9; SlippageBPS := 50; ex_ExecutionTimeout := 30 * 10 ^ 9; ex_MaxConcurrent := 3;
     UseFlashLoans := true; MinProfitAfterGas := 10 ^ 16 |}.

Record ExecutionResult := {
  Success : bool; TxHashes : gmap Z bytes; ActualProfit : option Z; res_Error : option string;
}.

Record Executor := {
  book : option PositionManager;
  preSigned : PreSignedCache;
  nonces : gmap Z Z;
  ex_config : ExecutorConfig;
  queue : list ArbitrageOpportunity;
  results : list (ArbitrageOpportunity * ExecutionResult);
  running : bool;
  totalExecuted : Z; totalSuccess : Z; totalFailed : Z; preSignedUsed : Z; preSignedMissed : Z;
}.

Definition queueSize : nat := 100.

Definition NewExecutor (pm : option PositionManager) (c : option ExecutorConfig) : Executor :=
  {| book := pm; preSigned := NewPreSignedCache None; nonces := ∅; ex_config := default DefaultExecutorConfig c;
     queue := []; results := []; running := false;
     totalExecuted := 0; totalSuccess := 0; totalFailed := 0; preSignedUsed := 0; preSignedMissed := 0 |}.

(** Assignments. *)
Definition set_book (e : Executor) (pm : option PositionManager) : Executor :=
  {| book := pm; preSigned := preSigned e; nonces := nonces e; ex_config := ex_config e; queue := queue e;
     results := results e; running := running e; totalExecuted := totalExecuted e; totalSuccess := totalSuccess e;
     totalFailed := totalFailed e; preSignedUsed := preSignedUsed e; preSignedMissed := preSignedMissed e |}.
Definition set_cache (e : Executor) (psc : PreSignedCache) (ns : gmap Z Z) (used missed : Z) : Executor :=
  {| book := book e; preSigned := psc; nonces := ns; ex_config := ex_config e; queue := queue e;
     results := results e; running := running e; totalExecuted := totalExecuted e; totalSuccess := totalSuccess e;
     totalFailed := totalFailed e; preSignedUsed := used; preSignedMissed := missed |}.
Definition set_totals (e : Executor) (ex su fa : Z) : Executor :=
  {| book := book e; preSigned := preSigned e; nonces := nonces e; ex_config := ex_config e; queue := queue e;
     results := results e; running := running e; totalExecuted := ex; totalSuccess := su; totalFailed := fa;
     preSignedUsed := preSignedUsed e; preSignedMissed := preSignedMissed e |}.
Definition set_queues (e : Executor) (run : bool) (q : list ArbitrageOpportunity) (r : list (ArbitrageOpportunity * ExecutionResult)) : Executor :=
  {| book := book e; preSigned := preSigned e; nonces := nonces e; ex_config := ex_config e; queue := q;
     results := r; running := run; totalExecuted := totalExecuted e; totalSuccess := totalSuccess e;
     totalFailed := totalFailed e; preSignedUsed := preSignedUsed e; preSignedMissed := preSignedMissed e |}.

Definition nextNonce (e : Executor) (chainID : Z) : Executor * Z :=
  let nonce := nonce_of (nonces e) chainID in
  (set_cache e (preSigned e) (<[chainID := u64 (nonce + 1)]> (nonces e)) (preSignedUsed e) (preSignedMissed e), nonce).

Definition Executor_SetNonce (e : Executor) (chainID nonce : Z) : Executor :=
  set_cache e (SetNonce (preSigned e) chainID nonce) (<[chainID := nonce]> (nonces e)) (preSignedUsed e) (preSignedMissed e).

(** [Submit]: the queue is a channel of 100; the detector is only notified. *)
Definition Submit (e : Executor) (o : ArbitrageOpportunity) : Executor * result unit :=
  if negb (running e) then (e, Err "executor not running")
  else if (length (queue e) <? queueSize)%nat then (set_queues e (running e) (queue e ++ [o]) (results e), Ok tt)
  else (e, Err "execution queue full").

Section executing.
Context (address : bytes) (sign : DynamicFeeTx -> result (bytes * bytes)) (broadcast : Z -> bytes -> result bytes).

(** The exchange types of the fallback; an unknown one is taken for Uniswap V2. *)
Definition fallback_type (dex : string) : DEXType :=
  if existsb (String.eqb dex) ["uniswap_v2"; "sushiswap"]%string then DEXUniswapV2
  else if String.eqb dex "uniswap_v3" then DEXUniswapV3
  else if String.eqb dex "aerodrome" then DEXAerodrome
  else if String.eqb dex "velodrome" then DEXVelodrome
  else DEXUniswapV2.

(** [copy(calldata[4+32-len(b):4+32], b)] into 164 bytes that start with the selector. *)
Definition fallback_calldata (amount : Z) : outcome bytes :=
  let b := bigint_bytes amount in
  if (36 <? length b)%nat then Panic "slice bounds out of range"
  else
    let base := sel "38ed1739" ++ replicate 160 Byte.x00 in
    Done (take (36 - length b) base ++ b ++ drop 36 base).

Definition buildSwapTx (e : Executor) (step : PathStep) (amount : Z) : outcome (Executor * result DynamicFeeTx) :=
  match chain_routers (ps_ChainID step) with
  | None => Done (e, Err "no routers for chain")
  | Some rs =>
      match router_of rs (fallback_type (ps_DEX step)) with
      | None => Done (e, Err "no router for DEX")
      | Some router =>
          let! data := fallback_calldata amount in
          let r := nextNonce e (ps_ChainID step) in
          Done (r.1, Ok {| df_ChainID := i64 (ps_ChainID step); df_Nonce := r.2; df_GasTipCap := 10 ^ 9;
                           df_GasFeeCap := ex_MaxGasPrice (ex_config e); df_Gas := 300000; df_To := router; df_Data := data |})
      end
  end.

(** The path without a pre-signed transaction. *)
Definition execute_fallback (e : Executor) (step : PathStep) (amount : Z) : outcome (Executor * result bytes) :=
  let! r := buildSwapTx e step amount in
  Done (r.1, match r.2 with
             | Err _ => Err "failed to build tx"
             | Ok tx =>
                 match sign tx with
                 | Err _ => Err "failed to sign tx"
                 | Ok raw => match broadcast (ps_ChainID step) raw.1 with Ok h => Ok h | Err _ => Err "failed to broadcast" end
                 end
             end).

Definition executeStep (e : Executor) (step : PathStep) (amount now : Z) : outcome (Executor * result bytes) :=
  let direction := if bytes_eqb (ps_TokenIn step) (WETHAddresses (ps_ChainID step)) then "sell"%string else "buy"%string in
  let g := GetPreSignedTx (preSigned e) (ps_ChainID step) (ps_DEX step) direction amount now in
  let missed e psc := set_cache e psc (nonces e) (preSignedUsed e) (u64 (preSignedMissed e + 1)) in
  match g.2 with
  | Err _ => execute_fallback (missed e g.1) step amount
  | Ok tx =>
      match broadcast (ps_ChainID step) (pt_SignedTx tx) with
      | Ok hash =>
          Done (set_cache e (MarkNonceUsed g.1 (ps_ChainID step) (pt_Nonce tx)) (nonces e)
                  (u64 (preSignedUsed e + 1)) (preSignedMissed e), Ok hash)
      | Err _ => execute_fallback (missed e g.1) step amount
      end
  end.

(** The amount to trade: the opportunity's, or a tenth of the position. *)
Definition input_amount (e : Executor) (o : ArbitrageOpportunity) (chain : Z) (token : bytes) : option Z :=
  let given := match InputAmount o with Some a => if 0 <? a then Some a else None | None => None end in
  match given with
  | Some a => Some a
  | None =>
      match book e with
      | Some pm => let a := GetMaxTradeSize pm chain token (f_ratio 1 10) in if 0 <? a then Some a else None
      | None => None
      end
  end.

Definition lock (e : Executor) (chain : Z) (token : bytes) (amount : Z) : Executor * result unit :=
  match book e with
  | None => (e, Ok tt)
  | Some pm => let r := pm_Lock pm chain token amount in (set_book e (Some r.1), r.2)
  end.

Definition unlock (e : Executor) (chain : Z) (token : bytes) (amount : Z) : Executor :=
  match book e with
  | None => e
  | Some pm => set_book e (Some (pm_Unlock pm chain token amount))
  end.

Fixpoint run_steps (e : Executor) (chainID : Z) (steps : list PathStep) (amount now : Z) (hashes : gmap Z bytes)
  : outcome (Executor * gmap Z bytes * result unit) :=
  match steps with
  | [] => Done (e, hashes, Ok tt)
  | s :: steps =>
      let! r := executeStep e s amount now in
      match r.2 with
      | Err _ => Done (r.1, hashes, Err "step failed")
      | Ok h => run_steps r.1 chainID steps amount now (<[chainID := h]> hashes)
      end
  end.

(** The hashes, and the error or the profit. *)
Definition executeSameChain (e : Executor) (o : ArbitrageOpportunity) (now : Z)
  : outcome (Executor * gmap Z bytes * result (option Z)) :=
  match Path o with
  | s0 :: _ :: _ =>
      let chainID := ps_ChainID s0 in
      match input_amount e o chainID (ps_TokenIn s0) with
      | None => Done (e, ∅, Err "no input amount available")
      | Some amount =>
          let l := lock e chainID (ps_TokenIn s0) amount in
          match l.2 with
          | Err _ => Done (l.1, ∅, Err "failed to lock position")
          | Ok _ =>
              let! r := run_steps l.1 chainID (Path o) amount now ∅ in
              Done (unlock r.1.1 chainID (ps_TokenIn s0) amount, r.1.2,
                    let? _ := r.2 in Ok (ExpectedProfit o))
          end
      end
  | _ => Done (e, ∅, Err "invalid path: need at least 2 steps")
  end.

(** The two parallel steps; [buy_first] is the order in which they take the locks. *)
Definition both_steps (buy_first : bool) (e : Executor) (s0 s1 : PathStep) (amount now : Z)
  : outcome (Executor * result bytes * result bytes) :=
  if buy_first then
    let! b := executeStep e s0 amount now in
    let! s := executeStep b.1 s1 amount now in
    Done (s.1, b.2, s.2)
  else
    let! s := executeStep e s1 amount now in
    let! b := executeStep s.1 s0 amount now in
    Done (b.1, b.2, s.2).

Definition hash_of (r : result bytes) : bytes := match r with Ok h => h | Err _ => zero32 end.

Definition executeCrossChain (buy_first : bool) (e : Executor) (o : ArbitrageOpportunity) (now : Z)
  : outcome (Executor * gmap Z bytes * result (option Z)) :=
  match Path o with
  | s0 :: s1 :: _ =>
      match input_amount e o (BuyChain o) (ps_TokenIn s0) with
      | None => Done (e, ∅, Err "no input amount available")
      | Some amount =>
          let l0 := lock e (BuyChain o) (ps_TokenIn s0) amount in
          match l0.2 with
          | Err _ => Done (l0.1, ∅, Err "failed to lock buy position")
          | Ok _ =>
              let l1 := lock l0.1 (SellChain o) (ps_TokenIn s1) amount in
              match l1.2 with
              | Err _ => Done (unlock l1.1 (BuyChain o) (ps_TokenIn s0) amount, ∅, Err "failed to lock sell position")
              | Ok _ =>
                  let! r := both_steps buy_first l1.1 s0 s1 amount now in
                  let e := unlock (unlock r.1.1 (SellChain o) (ps_TokenIn s1) amount) (BuyChain o) (ps_TokenIn s0) amount in
                  let h := <[BuyChain o := hash_of r.1.2]> ∅ in
                  let h := if SellChain o =? BuyChain o then h else <[SellChain o := hash_of r.2]> h in
                  Done (e, h, if is_ok r.1.2 && is_ok r.2 then Ok (ExpectedProfit o) else Err "execution failed")
              end
          end
      end
  | _ => Done (e, ∅, Err "invalid path: need at least 2 steps")
  end.

Definition execute (buy_first : bool) (e : Executor) (o : ArbitrageOpportunity) (now : Z) : outcome (Executor * ExecutionResult) :=
  let e := set_totals e (u64 (totalExecuted e + 1)) (totalSuccess e) (totalFailed e) in
  let! r := if IsCrossChain o then executeCrossChain buy_first e o now else executeSameChain e o now in
  match r.2 with
  | Err m =>
      let e := set_totals r.1.1 (totalExecuted r.1.1) (totalSuccess r.1.1) (u64 (totalFailed r.1.1 + 1)) in
      Done (e, {| Success := false; TxHashes := r.1.2; ActualProfit := None; res_Error := Some m |})
  | Ok profit =>
      let e := set_totals r.1.1 (totalExecuted r.1.1) (u64 (totalSuccess r.1.1 + 1)) (totalFailed r.1.1) in
      let e := match profit, book e with
               | Some p, Some pm => set_book e (Some (RecordProfit pm p))
               | _, _ => e
               end in
      Done (e, {| Success := true; TxHashes := r.1.2; ActualProfit := profit; res_Error := None |})
  end.

(** One turn of a worker; a full channel of results drops the result. *)
Definition worker_step (buy_first : bool) (e : Executor) (now : Z) : outcome Executor :=
  match queue e with
  | [] => Done e
  | o :: q =>
      let! r := execute buy_first (set_queues e (running e) q (results e)) o now in
      Done (if (length (results r.1) <? queueSize)%nat
            then set_queues r.1 (running r.1) (queue r.1) (results r.1 ++ [(o, r.2)]) else r.1)
  end.
End executing.

(** ** Locks are released *)

Lemma lock_unlock pm c t a : is_ok (pm_Lock pm c t a).2 = true ->
  positions (pm_Unlock (pm_Lock pm c t a).1 c t a) = positions pm /\
  targets (pm_Unlock (pm_Lock pm c t a).1 c t a) = targets pm /\
  totalTrades (pm_Unlock (pm_Lock pm c t a).1 c t a) = totalTrades pm /\
  totalProfitWei (pm_Unlock (pm_Lock pm c t a).1 c t a) = totalProfitWei pm /\
  pm_config (pm_Unlock (pm_Lock pm c t a).1 c t a) = pm_config pm.
Proof.
  unfold pm_Lock. destruct (getPosition pm c t) as [p|] eqn:E; [|done].
  destruct (Available p <? a) eqn:Ea; [done|]. intros _. cbn [fst].
  unfold pm_Unlock. rewrite getPosition_set, bool_decide_eq_true_2 by done. split; [|done].
  unfold set_position at 1. cbn [positions with_positions]. unfold set_position. cbn [positions with_positions].
  rewrite lookup_insert_eq. cbn [default]. rewrite !insert_insert_eq.
  unfold getPosition in E. destruct (positions pm !! c) as [m|] eqn:Em; [|done]. cbn in E.
  cbn [default id]. rewrite insert_insert_eq.
  replace (Position_Unlock (Position_Lock p a).1 a) with p.
  - rewrite (insert_id m t p E). by apply insert_id.
  - unfold Position_Lock. rewrite Ea. destruct p; unfold Position_Unlock; cbn. f_equal; lia.
Qed.

(** The parts of two books that execution must leave alone, and the recorded profit. *)
Definition same_book (profit : Z) (b b' : option PositionManager) : Prop :=
  match b, b' with
  | None, None => True
  | Some pm, Some pm' => positions pm' = positions pm /\ targets pm' = targets pm /\ totalTrades pm' = totalTrades pm /\
      totalProfitWei pm' = totalProfitWei pm + profit /\ pm_config pm' = pm_config pm
  | _, _ => False
  end.

Lemma lock_book e c t a : book (lock e c t a).1 = (fun pm => (pm_Lock pm c t a).1) <$> book e.
Proof. unfold lock. by destruct (book e) eqn:E. Qed.

Lemma unlock_book e c t a : book (unlock e c t a) = (fun pm => pm_Unlock pm c t a) <$> book e.
Proof. unfold unlock. by destruct (book e) eqn:E. Qed.

Lemma lock_ok e c t a pm : book e = Some pm -> (lock e c t a).2 = (pm_Lock pm c t a).2.
Proof. intros E. unfold lock. by rewrite E. Qed.

(** A failed lock changes nothing. *)
Lemma lock_failed pm c t a : is_ok (pm_Lock pm c t a).2 = false -> (pm_Lock pm c t a).1 = pm.
Proof. unfold pm_Lock. destruct (getPosition pm c t); [|done]. by case_match. Qed.

(** Locking, then unlocking in a state with the same book, restores the book. *)
Lemma lock_restore e e1 c t a : is_ok (lock e c t a).2 = true -> book e1 = book (lock e c t a).1 ->
  same_book 0 (book e) (book (unlock e1 c t a)).
Proof.
  intros Hok Hb. rewrite unlock_book, Hb, lock_book. destruct (book e) as [pm|] eqn:E; [|done]. cbn.
  rewrite (lock_ok e c t a pm E) in Hok. pose proof (lock_unlock pm c t a Hok) as H. rewrite Z.add_0_r. tauto.
Qed.

Section restoring.
Context (address : bytes) (sign : DynamicFeeTx -> result (bytes * bytes)) (broadcast : Z -> bytes -> result bytes).

(** The counters that only [execute] itself advances. *)
Definition totals (e : Executor) : Z * Z * Z := (totalExecuted e, totalSuccess e, totalFailed e).

Lemma lock_totals e c t a : totals (lock e c t a).1 = totals e.
Proof. unfold lock. by destruct (book e). Qed.

Lemma unlock_totals e c t a : totals (unlock e c t a) = totals e.
Proof. unfold unlock. by destruct (book e). Qed.

(** A transaction of the step was accepted by the step's chain. *)
Definition sent (s : PathStep) : Prop := exists raw h, broadcast (ps_ChainID s) raw = Ok h.

(** A step changes neither the book nor the totals, and succeeds only when a
    transaction of it was broadcast. *)
Definition step_frame (e e' : Executor) : Prop := book e' = book e /\ totals e' = totals e.

Lemma fallback_spec e s a e' r : execute_fallback sign broadcast e s a = Done (e', r) ->
  step_frame e e' /\ (is_ok r = true -> sent s).
Proof.
  unfold execute_fallback, buildSwapTx. destruct (chain_routers _); [|by intros [= <- <-]].
  destruct (router_of _ _); [|by intros [= <- <-]]. destruct (fallback_calldata a); [|done|done]. cbn.
  intros [= <- <-]. split; [done|]. destruct (sign _) as [raw|]; [|done].
  destruct (broadcast _ _) as [h|] eqn:E; [|done]. intros _. by exists raw.1, h.
Qed.

Lemma step_spec e s a now e' r : executeStep sign broadcast e s a now = Done (e', r) ->
  step_frame e e' /\ (is_ok r = true -> sent s).
Proof.
  unfold executeStep. cbv zeta. destruct (GetPreSignedTx _ _ _ _ _ _).2 as [tx|]; [|by intros H%fallback_spec].
  destruct (broadcast (ps_ChainID s) (pt_SignedTx tx)) as [h|] eqn:E; [|by intros H%fallback_spec].
  intros [= <- <-]. split; [done|]. intros _. by exists (pt_SignedTx tx), h.
Qed.

Lemma step_frame_trans e1 e2 e3 : step_frame e1 e2 -> step_frame e2 e3 -> step_frame e1 e3.
Proof. unfold step_frame. intros [-> ->] [-> ->]. done. Qed.

Lemma steps_spec e c ss a now hs e' hs' r : run_steps sign broadcast e c ss a now hs = Done (e', hs', r) ->
  step_frame e e' /\ (is_ok r = true -> Forall sent ss).
Proof.
  revert e hs. induction ss as [|s ss IH]; intros e hs; cbn [run_steps]; [by intros [= <- _ _]|].
  intros E. apply outcome_bind_Done in E as ([e1 r1] & E1 & E). apply step_spec in E1 as [F1 S1]. cbn [fst snd] in E.
  destruct r1; [|injection E as <- _ <-; done].
  apply IH in E as [F2 S2]. split; [by eapply step_frame_trans|]. intros Hr. constructor; [by apply S1|by apply S2].
Qed.

Lemma both_spec bf e s0 s1 a now e' rb rs : both_steps sign broadcast bf e s0 s1 a now = Done (e', rb, rs) ->
  step_frame e e' /\ (is_ok rb && is_ok rs = true -> Forall sent [s0; s1]).
Proof.
  unfold both_steps. destruct bf; intros E; apply outcome_bind_Done in E as ([e1 r1] & [F1 S1]%step_spec & E);
    apply outcome_bind_Done in E as ([e2 r2] & [F2 S2]%step_spec & E); cbn in *; injection E as <- <- <-;
    (split; [by eapply step_frame_trans|]); intros [H1 H2]%andb_true_iff; by repeat constructor; auto.
Qed.

Lemma same_book_refl b : same_book 0 b b.
Proof. destruct b; [|done]. cbn. rewrite Z.add_0_r. done. Qed.

Lemma lock_failed_book e c t a : is_ok (lock e c t a).2 = false -> book (lock e c t a).1 = book e.
Proof.
  intros H. rewrite lock_book. destruct (book e) as [pm|] eqn:E; [|done]. cbn. f_equal.
  apply lock_failed. by rewrite <- (lock_ok e c t a pm E).
Qed.

(** Unlocking restores the very book, up to equality. *)
Lemma lock_restored e e1 c t a : is_ok (lock e c t a).2 = true -> book e1 = book (lock e c t a).1 ->
  book (unlock e1 c t a) = book e.
Proof.
  intros Hok Hb. pose proof (lock_restore e e1 c t a Hok Hb) as H. unfold same_book in H.
  destruct (book e) as [p1|], (book (unlock e1 c t a)) as [p2|]; try done.
  destruct p1, p2; cbn in *. destruct H as (-> & -> & -> & Hp & ->). by rewrite Z.add_0_r in Hp; rewrite Hp.
Qed.

(** Recording the profit in the book, if there is one. *)
Definition record (p : option Z) (e : Executor) : Executor :=
  match p, book e with
  | Some p, Some pm => set_book e (Some (RecordProfit pm p))
  | _, _ => e
  end.

Lemma recorded_book b e p : same_book 0 b (book e) -> same_book (default 0 p) b (book (record p e)).
Proof.
  intros H. unfold record. destruct p as [p|]; [|exact H]. cbn [default].
  destruct b as [pm|], (book e) as [pm1|] eqn:Ep; try done; [|by rewrite Ep].
  destruct H as (? & ? & ? & Hp & ?). cbn. rewrite Z.add_0_r in Hp. rewrite Hp. done.
Qed.

Lemma record_totals p e : totals (record p e) = totals e.
Proof. unfold record. destruct p; [|done]. by destruct (book e). Qed.

(** What an attempt leaves: the book and the totals as they were; a success has the
    opportunity's profit and every step of the path broadcast. *)
Definition attempt_ok (e : Executor) (o : ArbitrageOpportunity) (steps : list PathStep) (e' : Executor)
    (r : result (option Z)) : Prop :=
  same_book 0 (book e) (book e') /\ totals e' = totals e /\
  forall p, r = Ok p -> p = ExpectedProfit o /\ (2 <= length (Path o))%nat /\ Forall sent steps.

Lemma attempt_refused e o steps m : attempt_ok e o steps e (Err m).
Proof. split; [apply same_book_refl|]. by split. Qed.

Lemma sameChain_spec e o now e' hs r : executeSameChain sign broadcast e o now = Done (e', hs, r) ->
  attempt_ok e o (Path o) e' r.
Proof.
  unfold executeSameChain. destruct (Path o) as [|s0 [|s1 ss]] eqn:EP; try (intros [= <- _ <-]; apply attempt_refused).
  cbv zeta. destruct (input_amount _ _ _ _) as [a|]; [|intros [= <- _ <-]; apply attempt_refused].
  destruct (lock e (ps_ChainID s0) (ps_TokenIn s0) a).2 as [u|] eqn:El.
  - intros E. apply outcome_bind_Done in E as ([[e1 h1] r1] & [[Fb Ft] S1]%steps_spec & E). cbn [fst snd] in E.
    injection E as <- _ <-. split; [apply lock_restore; [by rewrite El|done]|].
    split; [by rewrite unlock_totals, Ft, lock_totals|]. intros p Hp. rewrite EP.
    destruct r1 as [u1|]; [|done]. injection Hp as <-. split; [done|]. split; [cbn; lia|]. by apply S1.
  - intros [= <- _ <-]. split; [rewrite lock_failed_book by (by rewrite El); apply same_book_refl|].
    by rewrite lock_totals.
Qed.

Lemma crossChain_spec bf e o now e' hs r : executeCrossChain sign broadcast bf e o now = Done (e', hs, r) ->
  attempt_ok e o (take 2 (Path o)) e' r.
Proof.
  unfold executeCrossChain. destruct (Path o) as [|s0 [|s1 ss]] eqn:EP; try (intros [= <- _ <-]; apply attempt_refused).
  cbv zeta. destruct (input_amount _ _ _ _) as [a|]; [|intros [= <- _ <-]; apply attempt_refused].
  set (l0 := lock e (BuyChain o) (ps_TokenIn s0) a).
  assert (Ht0 : totals l0.1 = totals e) by apply lock_totals.
  destruct l0.2 as [u|] eqn:El0.
  2: { intros [= <- _ <-]. split; [|by split]. unfold l0 in *. rewrite lock_failed_book by (by rewrite El0). apply same_book_refl. }
  set (l1 := lock l0.1 (SellChain o) (ps_TokenIn s1) a).
  assert (Ht1 : totals l1.1 = totals e) by (unfold l1; by rewrite lock_totals).
  destruct l1.2 as [u1|] eqn:El1.
  - intros E. apply outcome_bind_Done in E as ([[e1 rb] rs] & [[Fb Ft] S1]%both_spec & E). cbn [fst snd] in E.
    injection E as <- _ <-. split; [|split; [by rewrite !unlock_totals, Ft|]].
    + apply lock_restore; [fold l0; by rewrite El0|]. fold l0. by apply lock_restored; [fold l1; rewrite El1|].
    + intros p Hp. rewrite EP. destruct (is_ok rb && is_ok rs); [|done]. injection Hp as <-.
      split; [done|]. split; [cbn; lia|]. by apply S1.
  - intros [= <- _ <-]. split; [|split; [by rewrite unlock_totals|done]].
    apply lock_restore; [fold l0; by rewrite El0|]. unfold l1. rewrite lock_failed_book; [done|]. fold l1. by rewrite El1.
Qed.
End restoring.

(** C19: Executing an opportunity releases every lock and accounts for the outcome:
    whatever fails (no input, insufficient balance on either chain, building, signing or
    broadcasting any transaction), the positions, the targets and the number of trades
    are as before.  The result is a success exactly when it carries no error; only then
    it reports a profit, which is the one the opportunity expects, that profit is added
    to the total, and every step of the path (both, across chains) had a transaction
    accepted by its chain.  One execution is counted, and one success or one failure. *)
Theorem execution_restores_positions sign broadcast bf e o now e' r :
  execute sign broadcast bf e o now = Done (e', r) ->
  same_book (if Success r then default 0 (ExpectedProfit o) else 0) (book e) (book e') /\
  ActualProfit r = (if Success r then ExpectedProfit o else None) /\
  (Success r = true <-> res_Error r = None) /\
  (Success r = true -> (2 <= length (Path o))%nat /\
     Forall (sent broadcast) (if IsCrossChain o then take 2 (Path o) else Path o)) /\
  totals e' = (u64 (totalExecuted e + 1),
               if Success r then u64 (totalSuccess e + 1) else totalSuccess e,
               if Success r then totalFailed e else u64 (totalFailed e + 1)).
Proof.
  unfold execute. cbv zeta. intros E. apply outcome_bind_Done in E as ([[e1 hs] r1] & E1 & E).
  set (e0 := set_totals e (u64 (totalExecuted e + 1)) (totalSuccess e) (totalFailed e)) in *.
  assert (H1 : attempt_ok broadcast e0 o (if IsCrossChain o then take 2 (Path o) else Path o) e1 r1).
  { destruct (IsCrossChain o); [by eapply crossChain_spec|by eapply sameChain_spec]. }
  destruct H1 as (Hb & Ht & Hr). injection Ht as Hx Hs Hf. cbn [fst snd] in E. destruct r1 as [p|m].
  - destruct (Hr p eq_refl) as (-> & Hl & Hsent). set (e2 := set_totals e1 _ _ _) in E.
    change (Done (record (ExpectedProfit o) e2, {| Success := true; TxHashes := hs;
      ActualProfit := ExpectedProfit o; res_Error := None |}) = Done (e', r)) in E.
    injection E as <- <-. cbn [Success ActualProfit res_Error].
    split; [by apply recorded_book|]. do 3 (split; [done|]).
    rewrite record_totals. unfold totals. cbn. by rewrite Hx, Hs, Hf.
  - injection E as <- <-. split; [exact Hb|]. do 3 (split; [done|]). unfold totals. cbn. by rewrite Hx, Hs, Hf.
Qed.

Definition ex_arb : ArbitrageOpportunity :=
  {| opp_ID := zero32;
     Path := [{| ps_ChainID := 1; ps_DEX := "uniswap_v2"; ps_TokenIn := bs "weth"; ps_TokenOut := bs "usdc" |};
              {| ps_ChainID := 1; ps_DEX := "uniswap_v3"; ps_TokenIn := bs "usdc"; ps_TokenOut := bs "weth" |}];
     BuyChain := 1; SellChain := 1; IsCrossChain := false; InputAmount := Some 30; ExpectedProfit := Some 2 |}.

Definition ex_executor : Executor := NewExecutor (Some (NewPositionManager ex_initial None 0)) None.
Definition ex_broadcast (_ : Z) (raw : bytes) : result bytes := Ok (take 4 raw).

Lemma execution_restores_positions_witness :
  exists e' r, execute ex_sign ex_broadcast true ex_executor ex_arb 0 = Done (e', r) /\ Success r = true /\
    same_book 2 (book ex_executor) (book e') /\ ActualProfit r = Some 2 /\
    Forall (sent ex_broadcast) (Path ex_arb) /\ totals e' = (1, 1, 0).
Proof.
  destruct (execute ex_sign ex_broadcast true ex_executor ex_arb 0) as [[e' r]| |] eqn:E;
    [|vm_compute in E; discriminate|vm_compute in E; discriminate].
  assert (HS : Success r = true).
  { assert (H : match execute ex_sign ex_broadcast true ex_executor ex_arb 0 with Done (_, r) => Success r | _ => false end = true)
      by (vm_compute; reflexivity).
    rewrite E in H. exact H. }
  exists e', r. split; [reflexivity|]. split; [exact HS|].
  pose proof (execution_restores_positions ex_sign ex_broadcast true ex_executor ex_arb 0 e' r E) as (H1 & H2 & _ & H4 & H5).
  rewrite HS in H1, H2, H5. split; [exact H1|]. split; [exact H2|]. split; [exact (proj2 (H4 HS))|exact H5].
Defined.

(** The two counters of nonces collide: after the nonce of a chain is set (to at
    least the cache's next nonce), the next transaction that is signed ahead of time and
    the next one that the executor builds itself have the same nonce, so only one of them
    can be mined. *)
Theorem nonce_counters_collide address sign e c n dex dir amount now tx :
  nonce_of (maxNonce (preSigned e)) c <= n ->
  let e1 := Executor_SetNonce e c n in
  (preSignTx address sign (preSigned e1) c dex dir amount now).2 = Ok tx ->
  pt_Nonce tx = n /\ (nextNonce e1 c).2 = n.
Proof.
  intros Hn e1 Htx. apply preSignTx_ok in Htx as [_ ->]. split.
  - unfold e1, Executor_SetNonce, SetNonce. cbn [preSigned set_cache].
    destruct (Z.ltb_spec (nonce_of (maxNonce (preSigned e)) c) n).
    + rewrite mx_insert. by rewrite decide_True.
    + unfold mx. cbn [maxNonce with_nonces]. lia.
  - unfold nextNonce, e1, Executor_SetNonce, nonce_of. cbn [nonces set_cache snd]. by rewrite lookup_insert_eq.
Qed.

Lemma nonce_counters_collide_witness :
  exists tx, (preSignTx zero20 ex_sign (preSigned (Executor_SetNonce ex_executor 1 7)) 1 "uniswap_v2" "buy" 10 0).2 = Ok tx /\
    pt_Nonce tx = 7 /\ (nextNonce (Executor_SetNonce ex_executor 1 7) 1).2 = 7.
Proof.
  eexists. split; [reflexivity|].
  apply (nonce_counters_collide zero20 ex_sign ex_executor 1 7 "uniswap_v2" "buy" 10 0); [apply Z.leb_le; reflexivity|reflexivity].
Defined.

(** The calldata the executor builds itself has no path, recipient or deadline: after the
    amount, four zero words. *)
Lemma fallback_calldata_empty amount : 0 <= amount < 2 ^ 256 ->
  fallback_calldata amount = Done (calldata (sel "38ed1739") [uint_word amount; zero32; zero32; zero32; zero32]).
Proof.
  intros Ha. assert (Hl : (length (bigint_bytes amount) <= 32)%nat) by (by apply length_bigint_bytes).
  unfold fallback_calldata. cbv zeta. rewrite (proj2 (Nat.ltb_ge _ _)) by lia. f_equal.
  unfold calldata, uint_word. rewrite word_short by done. unfold left_pad. cbn [concat].
  assert (E : forall k, (k <= 32)%nat -> take (36 - k) (sel "38ed1739" ++ replicate 160 Byte.x00) = sel "38ed1739" ++ replicate (32 - k) Byte.x00).
  { intros k Hk. rewrite take_app. change (length (sel "38ed1739")) with 4%nat.
    rewrite (take_ge (sel "38ed1739")) by (change (length (sel "38ed1739")) with 4%nat; lia).
    f_equal. rewrite take_replicate. f_equal. lia. }
  rewrite E by done. rewrite <- !app_assoc. reflexivity.
Qed.
