(* ===== verification/BigFloat.v ===== *)
(** * Arbitrary-precision floats ([math/big.Float])

    The engine compares prices and computes impacts with [big.Float].  A value is a signed
    mantissa times a power of two, with the precision it carries: [SetInt] takes at least 64
    bits, [NewFloat] 53, and an operation rounds to the precision of its receiver or, when that
    is zero, to the larger precision of its operands, to nearest even.  The sign of zero is
    left out (no operation of the source can tell). *)

From Stdlib Require Import SpecFloat.
From S2P Require Import Prelude Float64.

Inductive bigfloat :=
| BF (prec m e : Z)
| BInf (prec : Z) (neg : bool).

Definition bf_prec (x : bigfloat) : Z := match x with BF p _ _ => p | BInf p _ => p end.

Definition bf_zero : bigfloat := BF 0 0 0.

Definition bf_SetInt (z : Z) : bigfloat := BF (Z.max 64 (bitlen z)) z 0.

Definition bf_NewFloat (f : float64) : outcome bigfloat :=
  match f with
  | S754_nan => Panic "NewFloat(NaN)"
  | S754_infinity s => Done (BInf 53 s)
  | S754_zero _ => Done (BF 53 0 0)
  | S754_finite s m e => Done (BF 53 (if s then Zneg m else Zpos m) e)
  end.

Definition bf_round (p m e : Z) : bigfloat :=
  let r := big_round p (Z.abs m) e in BF p (Z.sgn m * r.1) r.2.

(** The precision of a result: that of the receiver, if it has one. *)
Definition bf_result (zp : Z) (x y : bigfloat) : Z := if zp =? 0 then Z.max (bf_prec x) (bf_prec y) else zp.

Definition bf_neg (x : bigfloat) : bool := match x with BF _ m _ => m <? 0 | BInf _ s => s end.

Definition bf_Mul (zp : Z) (x y : bigfloat) : outcome bigfloat :=
  let p := bf_result zp x y in
  match x, y with
  | BF _ m e, BF _ m' e' => Done (bf_round p (m * m') (e + e'))
  | BF _ 0 _, BInf _ _ | BInf _ _, BF _ 0 _ => Panic "multiplication of zero with infinity"
  | _, _ => Done (BInf p (xorb (bf_neg x) (bf_neg y)))
  end.

(** The dividend is scaled so that the integer quotient has two more bits than the
    precision; a sticky bit stands for the remainder. *)
Definition bf_Quo (zp : Z) (x y : bigfloat) : outcome bigfloat :=
  let p := bf_result zp x y in
  match x, y with
  | BF _ m e, BF _ m' e' =>
      if m' =? 0 then
        if m =? 0 then Panic "division of zero by zero" else Done (BInf p (m <? 0))
      else
        let k := p + 2 + bitlen m' in
        let n := Z.abs m * 2 ^ k in
        let q := n / Z.abs m' in
        let q := 2 * q + (if n mod Z.abs m' =? 0 then 0 else 1) in
        Done (bf_round p (Z.sgn m * Z.sgn m' * q) (e - e' - k - 1))
  | BF _ _ _, BInf _ _ => Done (BF p 0 0)
  | BInf _ s, BF _ _ _ => Done (BInf p (xorb s (bf_neg y)))
  | BInf _ _, BInf _ _ => Panic "division of infinity by infinity"
  end.

(** [Cmp], as the sign of the difference. *)
Definition bf_Cmp (x y : bigfloat) : comparison :=
  match x, y with
  | BF _ m e, BF _ m' e' =>
      let b := Z.min e e' in Z.compare (m * 2 ^ (e - b)) (m' * 2 ^ (e' - b))
  | BInf _ s, BInf _ s' => match s, s' with true, false => Lt | false, true => Gt | _, _ => Eq end
  | BInf _ s, BF _ _ _ => if s then Lt else Gt
  | BF _ _ _, BInf _ s => if s then Gt else Lt
  end.

Definition bf_Float64 (x : bigfloat) : float64 :=
  match x with
  | BF _ m e => binary_normalize fprec femax m e false
  | BInf _ s => S754_infinity s
  end.

(** [Int(nil)] and [Int64()]: truncation toward zero; [Int64] saturates. *)
Definition bf_Int (x : bigfloat) : option Z :=
  match x with
  | BF _ m e => Some (Z.sgn m * big_trunc (Z.abs m, e))
  | BInf _ _ => None
  end.

Definition bf_Int64 (x : bigfloat) : Z :=
  match x with
  | BF _ m e => Z.max (- 2 ^ 63) (Z.min (2 ^ 63 - 1) (Z.sgn m * big_trunc (Z.abs m, e)))
  | BInf _ s => if s then - 2 ^ 63 else 2 ^ 63 - 1
  end.

(** [big.Int.Div]: Euclidean division (the remainder is not negative). *)
Definition big_div (x y : Z) : outcome Z :=
  if y =? 0 then Panic "division by zero" else Done (if 0 <? y then x / y else - (x / - y)).

Lemma big_div_pos x y : 0 < y -> big_div x y = Done (x / y).
Proof. intros Hy. unfold big_div. rewrite (proj2 (Z.eqb_neq _ _)), (proj2 (Z.ltb_lt _ _)) by lia. done. Qed.

(** The division is Euclidean. *)
Lemma big_div_spec x y q : big_div x y = Done q -> 0 <= x - y * q < Z.abs y.
Proof.
  unfold big_div. destruct (Z.eqb_spec y 0); [done|]. destruct (Z.ltb_spec 0 y); intros [= <-].
  - pose proof (Z.div_mod x y ltac:(lia)). pose proof (Z.mod_pos_bound x y ltac:(lia)). lia.
  - pose proof (Z.div_mod x (- y) ltac:(lia)). pose proof (Z.mod_pos_bound x (- y) ltac:(lia)). lia.
Qed.
