(* ===== verification/Amm.v ===== *)
(** * Exchanges ([arb/dex])

    Quotes of constant-product exchanges, the events and the calldata of the Uniswap
    routers, the tables of pools and routers, and the Uniswap V3 price arithmetic.

    The Go interface [DEXRouter] is the record [DEXRouter], with one value per router.  The
    class [RouterLaws] states what a router promises its clients about quotes: the output is
    below the reserve, the product of the reserves does not shrink, larger inputs do not give
    less, and an input quoted for an output is enough for it.  Both routers satisfy it, and
    [round_trip_no_profit] is proved from the class alone.

    Amounts are pointers to integers that may be nil ([option]); [big.Int.Div] is Euclidean
    ([BigFloat.big_div]) and panics on zero.  [math.Pow] and [math.Log] are parameters. *)

From Stdlib Require Import String SpecFloat.
From S2P Require Import Prelude Signing Float64 BigFloat Positions Swaps.

(** ** Pools, quotes and events *)

Record PoolInfo := {
  pi_Address : bytes; pi_ChainID : Z; pi_DEX : string; pi_Token0 : bytes; pi_Token1 : bytes;
  pi_Fee : Z; pi_TickSpacing : Z; pi_Stable : bool;
}.

Record SwapQuote := {
  sq_Pool : option PoolInfo; sq_TokenIn : bytes; sq_TokenOut : bytes; sq_AmountIn : option Z;
  sq_AmountOut : option Z; sq_PriceImpact : option bigfloat; sq_Fee : option Z; sq_GasEstimate : Z;
}.

Record SwapEventData := {
  Amount0In : option Z; Amount1In : option Z; Amount0Out : option Z; Amount1Out : option Z;
  SqrtPriceX96 : option Z; Liquidity : option Z; Tick : Z;
}.

Record DEXRouter := {
  GetQuote : option PoolInfo -> bytes -> option Z -> outcome (result SwapQuote);
  GetAmountOut : option PoolInfo -> bytes -> option Z -> option Z -> option Z -> outcome (result Z);
  GetAmountIn : option PoolInfo -> bytes -> option Z -> option Z -> option Z -> outcome (result Z);
  GetPrice : option PoolInfo -> option Z -> option Z -> outcome bigfloat;
  ParseSwapEvent : option PoolInfo -> bytes -> outcome (result SwapEventData);
  BuildSwapCalldata : SwapQuote -> bytes -> Z -> outcome (result bytes);
  GetRouterAddress : Z -> bytes;
}.

(** A method call on a nil [*big.Int] or a field of a nil pointer. *)
Definition deref {A} (o : option A) : outcome A :=
  match o with Some a => Done a | None => Panic "nil pointer dereference" end.

(** A test [x == nil || x.Sign() <= 0]. *)
Definition not_positive (x : option Z) : bool := match x with Some z => z <=? 0 | None => true end.

(** ** Registry *)

Record Registry := { routers : gmap string DEXRouter; pools : gmap bytes PoolInfo }.

Definition NewRegistry : Registry := {| routers := ∅; pools := ∅ |}.
Definition RegisterRouter (r : Registry) (t : string) (x : DEXRouter) : Registry :=
  {| routers := <[t := x]> (routers r); pools := pools r |}.
Definition RegisterPool (r : Registry) (p : PoolInfo) : Registry :=
  {| routers := routers r; pools := <[pi_Address p := p]> (pools r) |}.
Definition GetRouter (r : Registry) (t : string) : option DEXRouter := routers r !! t.
Definition GetPool (r : Registry) (a : bytes) : option PoolInfo := pools r !! a.

Definition Registry_GetQuote (r : Registry) (poolAddr tokenIn : bytes) (amountIn : option Z) : outcome (result SwapQuote) :=
  match pools r !! poolAddr with
  | None => Done (Err "pool not found")
  | Some pool =>
      match routers r !! pi_DEX pool with
      | None => Done (Err "router not found for DEX")
      | Some router => GetQuote router (Some pool) tokenIn amountIn
      end
  end.

(** ** Integer helpers *)

Definition Q96 : Z := Z.shiftl 1 96.
Definition Q192 : Z := Z.shiftl 1 192.

Definition MulDiv (a b c : Z) : outcome Z := if c =? 0 then Done 0 else big_div (a * b) c.

Fixpoint sqrt_loop (fuel : nat) (n x y : Z) : outcome Z :=
  match fuel with
  | O => NoFuel
  | S fuel =>
      if y <? x then
        let x := y in
        let! y := big_div n x in
        let! y := big_div (y + x) 2 in
        sqrt_loop fuel n x y
      else Done x
  end.

Definition SqrtBigInt (fuel : nat) (n : Z) : outcome Z :=
  if n <=? 0 then Done 0 else
  let! y := big_div (n + 1) 2 in
  sqrt_loop fuel n n y.

(** ** Selectors *)

Definition v2_selectors : list string := ["38ed1739"; "8803dbee"; "7ff36ab5"; "4a25d94a"; "18cbafe5"; "fb3bdb41"]%string.
Definition v3_selectors : list string := ["414bf389"; "c04b8d59"; "db3e2198"; "f28c0298"]%string.

Definition MatchesSelector (cd : bytes) (selector : string) : bool :=
  if (length cd <? 4)%nat then false else bytes_eqb (take 4 cd) (sel selector).

Definition DetectDEXFromCalldata (cd : bytes) : option string :=
  if (length cd <? 4)%nat then None
  else if existsb (MatchesSelector cd) v2_selectors then Some "uniswap_v2"%string
  else if existsb (MatchesSelector cd) v3_selectors then Some "uniswap_v3"%string
  else None.

(** [copy(buf[lo:hi], src)]; the buffers have no spare capacity. *)
Definition put (lo hi : Z) (src buf : bytes) : outcome bytes :=
  if (0 <=? lo) && (lo <=? hi) && (hi <=? Z.of_nat (length buf)) then
    let s := take (Z.to_nat (hi - lo)) src in
    Done (take (Z.to_nat lo) buf ++ s ++ drop (Z.to_nat lo + length s) buf)
  else Panic "slice bounds out of range".

(** [copy(buf[end-len(b):end], b)] for the bytes [b] of an integer. *)
Definition put_int (hi z : Z) (buf : bytes) : outcome bytes :=
  let b := bigint_bytes z in put (hi - Z.of_nat (length b)) hi b buf.

(** ** The Uniswap V2 router *)

Definition v2_addresses : list (Z * bytes) :=
  [(1, HexToAddress "7a250d5630B4cF539739dF2C5dAcb4c659F2488D");
   (8453, HexToAddress "4752ba5DBc23f44D87826276BF6Fd6b1C372aD24");
   (10, HexToAddress "4A7b5Da61326A6379179b40d00F57E5bbDC962c2");
   (11155111, HexToAddress "C532a74256D3Db42D0Bf7a0400fEFDbad7694008")].

Definition address_of (table : list (Z * bytes)) (chainID : Z) : bytes :=
  match find (fun x => x.1 =? chainID) table with Some x => x.2 | None => zero20 end.

Definition V2_GetAmountOut (_ : option PoolInfo) (_ : bytes) (amountIn reserveIn reserveOut : option Z) : outcome (result Z) :=
  if not_positive amountIn then Done (Err "invalid amountIn") else
  if not_positive reserveIn then Done (Err "invalid reserveIn") else
  if not_positive reserveOut then Done (Err "invalid reserveOut") else
  let! a := deref amountIn in
  let! ri := deref reserveIn in
  let! ro := deref reserveOut in
  let amountInWithFee := a * 997 in
  let! q := big_div (amountInWithFee * ro) (ri * 1000 + amountInWithFee) in
  Done (Ok q).

Definition V2_GetAmountIn (_ : option PoolInfo) (_ : bytes) (amountOut reserveIn reserveOut : option Z) : outcome (result Z) :=
  if not_positive amountOut then Done (Err "invalid amountOut") else
  if not_positive reserveIn then Done (Err "invalid reserveIn") else
  if not_positive reserveOut then Done (Err "invalid reserveOut") else
  let! o := deref amountOut in
  let! ri := deref reserveIn in
  let! ro := deref reserveOut in
  if ro <=? o then Done (Err "amountOut exceeds reserves") else
  let! q := big_div (ri * o * 1000) ((ro - o) * 997) in
  Done (Ok (q + 1)).

Definition V2_GetPrice (_ : option PoolInfo) (reserveIn reserveOut : option Z) : outcome bigfloat :=
  if not_positive reserveIn then Done bf_zero else
  let! ri := deref reserveIn in
  let! ro := deref reserveOut in
  let price := bf_SetInt ro in
  bf_Quo (bf_prec price) price (bf_SetInt ri).

Definition V2_ParseSwapEvent (_ : option PoolInfo) (data : bytes) : outcome (result SwapEventData) :=
  if (length data <? 128)%nat then Done (Err "data too short for V2 swap event") else
  let! a := slice_int data 0 32 in
  let! b := slice_int data 32 64 in
  let! c := slice_int data 64 96 in
  let! d := slice_int data 96 128 in
  Done (Ok {| Amount0In := Some a; Amount1In := Some b; Amount0Out := Some c; Amount1Out := Some d;
              SqrtPriceX96 := None; Liquidity := None; Tick := 0 |}).

Definition min_out (amountOut : Z) : outcome Z := big_div (amountOut * 995) 1000.

Definition V2_BuildSwapCalldata (quote : SwapQuote) (recipient : bytes) (deadline : Z) : outcome (result bytes) :=
  let buf := replicate (4 + 32 * 5 + 64) Byte.x00 in
  let! buf := put 0 4 (sel "38ed1739") buf in
  let! a := deref (sq_AmountIn quote) in
  let! buf := put_int (4 + 32) a buf in
  let! o := deref (sq_AmountOut quote) in
  let! minOut := min_out o in
  let! buf := put_int (4 + 64) minOut buf in
  let! buf := put_int (4 + 96) 160 buf in
  let! buf := put (4 + 96 + 12) (4 + 128) recipient buf in
  let! buf := put_int (4 + 160) deadline buf in
  let! buf := put (4 + 160 + 31) (4 + 160 + 32) [Byte.x02] buf in
  let! buf := put (4 + 192 + 12) (4 + 224) (sq_TokenIn quote) buf in
  let! buf := put (4 + 224 + 12) (4 + 256) (sq_TokenOut quote) buf in
  let! r := slice buf 0 (4 + 256) in
  Done (Ok r).

Definition UniswapV2Router : DEXRouter := {|
  GetQuote _ _ _ := Done (Err "GetQuote requires on-chain reserves; use GetAmountOut with known reserves");
  GetAmountOut := V2_GetAmountOut;
  GetAmountIn := V2_GetAmountIn;
  GetPrice := V2_GetPrice;
  ParseSwapEvent := V2_ParseSwapEvent;
  BuildSwapCalldata := V2_BuildSwapCalldata;
  GetRouterAddress := address_of v2_addresses;
|}.

Definition CalculateOptimalArbitrageV2 (fuel : nat) (r0A r1A r0B r1B : Z) : outcome (result (Z * Z)) :=
  let! priceA := bf_Quo 0 (bf_SetInt r1A) (bf_SetInt r0A) in
  let! priceB := bf_Quo 0 (bf_SetInt r0B) (bf_SetInt r1B) in
  match bf_Cmp priceB priceA with
  | Lt | Eq => Done (Err "no arbitrage opportunity: priceB <= priceA")
  | Gt =>
      let! sqrtProduct := SqrtBigInt fuel (r0A * r1B) in
      let optimalIn := sqrtProduct - r0A in
      if optimalIn <=? 0 then Done (Err "no profitable arbitrage") else
      let! maxIn := big_div r0A 10 in
      let optimalIn := if maxIn <? optimalIn then maxIn else optimalIn in
      let! a := V2_GetAmountOut None zero20 (Some optimalIn) (Some r0A) (Some r1A) in
      match a with
      | Err e => Done (Err e)
      | Ok amountOutA =>
          let! b := V2_GetAmountOut None zero20 (Some amountOutA) (Some r1B) (Some r0B) in
          match b with
          | Err e => Done (Err e)
          | Ok amountOutB =>
              let profit := amountOutB - optimalIn in
              if profit <=? 0 then Done (Err "no profit after fees") else Done (Ok (optimalIn, profit))
          end
      end
  end.

Definition GetReservesFromSync (data : bytes) : outcome (result (Z * Z)) :=
  if (length data <? 64)%nat then Done (Err "data too short for Sync event") else
  let! a := slice_int data 0 32 in
  let! b := slice_int data 32 64 in
  Done (Ok (a, b)).

Record V2SwapParams := {
  v2_ExactInput : bool; v2_AmountIn : option Z; v2_AmountOutMin : option Z; v2_AmountOut : option Z; v2_AmountInMax : option Z;
}.

Definition ParseV2SwapFromCalldata (cd : bytes) : outcome (result V2SwapParams) :=
  if (length cd <? 4)%nat then Done (Err "calldata too short") else
  if MatchesSelector cd "38ed1739" then
    if (length cd <? 4 + 160)%nat then Done (Err "calldata too short for swapExactTokensForTokens") else
    let! a := slice_int cd 4 36 in
    let! b := slice_int cd 36 68 in
    Done (Ok {| v2_ExactInput := true; v2_AmountIn := Some a; v2_AmountOutMin := Some b; v2_AmountOut := None; v2_AmountInMax := None |})
  else if MatchesSelector cd "8803dbee" then
    if (length cd <? 4 + 160)%nat then Done (Err "calldata too short for swapTokensForExactTokens") else
    let! a := slice_int cd 4 36 in
    let! b := slice_int cd 36 68 in
    Done (Ok {| v2_ExactInput := false; v2_AmountIn := None; v2_AmountOutMin := None; v2_AmountOut := Some a; v2_AmountInMax := Some b |})
  else Done (Ok {| v2_ExactInput := false; v2_AmountIn := None; v2_AmountOutMin := None; v2_AmountOut := None; v2_AmountInMax := None |}).

(** ** The Uniswap V3 router *)

Definition v3_addresses : list (Z * bytes) :=
  [(1, HexToAddress "E592427A0AEce92De3Edee1F18E0157C05861564");
   (8453, HexToAddress "2626664c2603336E57B271c5C0b26F421741e481");
   (10, HexToAddress "E592427A0AEce92De3Edee1F18E0157C05861564");
   (11155111, HexToAddress "3bFA4769FB09eefC5a80d6E87c3B9C650f7Ae48E")].

Definition MinTick : Z := -887272.
Definition MaxTick : Z := 887272.

Definition fee_bps (pool : PoolInfo) : Z := if pi_Fee pool =? 0 then 30 else pi_Fee pool.

Definition V3_GetAmountOut (pool : option PoolInfo) (_ : bytes) (amountIn reserveIn reserveOut : option Z) : outcome (result Z) :=
  if not_positive amountIn then Done (Err "invalid amountIn") else
  let! p := deref pool in
  let! a := deref amountIn in
  let! afterFee := big_div (a * (10000 - fee_bps p)) 10000 in
  let! ro := deref reserveOut in
  let! ri := deref reserveIn in
  let! q := big_div (afterFee * ro) (ri + afterFee) in
  Done (Ok q).

Definition V3_GetAmountIn (pool : option PoolInfo) (_ : bytes) (amountOut reserveIn reserveOut : option Z) : outcome (result Z) :=
  if not_positive amountOut then Done (Err "invalid amountOut") else
  let! o := deref amountOut in
  let! ro := deref reserveOut in
  if ro <=? o then Done (Err "amountOut exceeds liquidity") else
  let! p := deref pool in
  let! ri := deref reserveIn in
  let! b := big_div (ri * o) (ro - o) in
  let! q := big_div ((b + 1) * 10000) (10000 - fee_bps p) in
  Done (Ok (q + 1)).

Definition V3_GetPrice (_ : option PoolInfo) (sqrtPrice _ : option Z) : outcome bigfloat :=
  if not_positive sqrtPrice then Done bf_zero else
  let! s := deref sqrtPrice in
  let price := bf_SetInt (s * s) in
  bf_Quo (bf_prec price) price (bf_SetInt Q192).

(** The amounts are read unsigned, so their sign tests never hold. *)
Definition split_amount (z : Z) : Z * Z := if z <? 0 then (0, - z) else (z, 0).

Definition V3_ParseSwapEvent (_ : option PoolInfo) (data : bytes) : outcome (result SwapEventData) :=
  if (length data <? 160)%nat then Done (Err "data too short for V3 swap event") else
  let! a := slice_int data 0 32 in
  let! b := slice_int data 32 64 in
  let! s := slice_int data 64 96 in
  let! l := slice_int data 96 128 in
  let! t := slice_int data 128 160 in
  let t := if Z.testbit t 23 then t - Z.shiftl 1 24 else t in
  Done (Ok {| Amount0In := Some (split_amount a).1; Amount1In := Some (split_amount b).1;
              Amount0Out := Some (split_amount a).2; Amount1Out := Some (split_amount b).2;
              SqrtPriceX96 := Some s; Liquidity := Some l; Tick := i64 t |}).

Definition V3_BuildSwapCalldata (quote : SwapQuote) (recipient : bytes) (deadline : Z) : outcome (result bytes) :=
  let buf := replicate (4 + 32 * 8) Byte.x00 in
  let! buf := put 0 4 (sel "414bf389") buf in
  let! buf := put (4 + 12) (4 + 32) (sq_TokenIn quote) buf in
  let! buf := put (4 + 32 + 12) (4 + 64) (sq_TokenOut quote) buf in
  let! p := deref (sq_Pool quote) in
  let fee := if pi_Fee p =? 0 then 3000 else pi_Fee p in
  let! buf := put_int (4 + 96) fee buf in
  let! buf := put (4 + 96 + 12) (4 + 128) recipient buf in
  let! buf := put_int (4 + 160) deadline buf in
  let! a := deref (sq_AmountIn quote) in
  let! buf := put_int (4 + 192) a buf in
  let! o := deref (sq_AmountOut quote) in
  let! minOut := min_out o in
  let! buf := put_int (4 + 224) minOut buf in
  Done (Ok buf).

Definition UniswapV3Router : DEXRouter := {|
  GetQuote _ _ _ := Done (Err "GetQuote requires on-chain state; use simulation or quoter contract");
  GetAmountOut := V3_GetAmountOut;
  GetAmountIn := V3_GetAmountIn;
  GetPrice := V3_GetPrice;
  ParseSwapEvent := V3_ParseSwapEvent;
  BuildSwapCalldata := V3_BuildSwapCalldata;
  GetRouterAddress := address_of v3_addresses;
|}.

Section ticks.
Context (Pow : float64 -> float64 -> float64) (Log : float64 -> float64).

(** [fmt.Sprintf("%.0f", f)] read back as an integer: [f] rounded to nearest even; for NaN
    and infinities [SetString] fails and leaves zero. *)
Definition round_even (f : float64) : Z :=
  match f with
  | S754_finite s m e =>
      let a := if 0 <=? e then Zpos m * 2 ^ e
               else
                 let q := Zpos m / 2 ^ (- e) in
                 let r := 2 * (Zpos m mod 2 ^ (- e)) in
                 match Z.compare r (2 ^ (- e)) with
                 | Lt => q | Gt => q + 1 | Eq => if Z.even q then q else q + 1
                 end in
      if s then - a else a
  | _ => 0
  end.

Definition TickToSqrtPriceX96 (tick : Z) : option Z :=
  if (tick <? MinTick) || (MaxTick <? tick) then None
  else
    let sqrtRatio := Pow (f_ratio 10001 10000) (fdiv (f_of_Z tick) (f_of_Z 2)) in
    Some (round_even (fmul sqrtRatio (Pow (f_of_Z 2) (f_of_Z 96)))).

Definition SqrtPriceX96ToTick (sqrtPrice : option Z) : Z :=
  match sqrtPrice with
  | None => 0
  | Some s =>
      if s <=? 0 then 0
      else
        let p := fdiv (f_of_Z s) (Pow (f_of_Z 2) (f_of_Z 96)) in
        f_to_i64 (fdiv (fmul (f_of_Z 2) (Log p)) (Log (f_ratio 10001 10000)))
  end.
End ticks.

Definition GetNextSqrtPriceFromInput (sqrtPrice liquidity amountIn : Z) (zeroForOne : bool) : outcome (option Z) :=
  if (sqrtPrice <=? 0) || (liquidity <=? 0) then Done None
  else if zeroForOne then
    let! product := big_div (amountIn * sqrtPrice) Q96 in
    let! next := big_div (sqrtPrice * liquidity) (liquidity + product) in
    Done (Some next)
  else
    let! delta := big_div (amountIn * Q96) liquidity in
    Done (Some (sqrtPrice + delta)).

Definition GetAmount0Delta (a b liquidity : Z) : outcome Z :=
  let lo := if b <? a then b else a in
  let hi := if b <? a then a else b in
  big_div ((hi - lo) * liquidity * Q96) (lo * hi).

Definition GetAmount1Delta (a b liquidity : Z) : outcome Z :=
  let lo := if b <? a then b else a in
  let hi := if b <? a then a else b in
  big_div ((hi - lo) * liquidity) Q96.

Record V3SwapParams := {
  v3_ExactInput : bool; v3_TokenIn : bytes; v3_TokenOut : bytes; v3_Fee : Z; v3_Recipient : bytes;
  v3_AmountIn : option Z; v3_AmountOutMin : option Z; v3_AmountOut : option Z; v3_AmountInMax : option Z;
}.

Definition v3_fields (exactIn : bool) (cd : bytes) : outcome (result V3SwapParams) :=
  let! i := slice cd (4 + 12) (4 + 32) in
  let! o := slice cd (4 + 32 + 12) (4 + 64) in
  let! f := slice_int cd (4 + 64) (4 + 96) in
  let! r := slice cd (4 + 96 + 12) (4 + 128) in
  let! x := slice_int cd (4 + 160) (4 + 192) in
  let! y := slice_int cd (4 + 192) (4 + 224) in
  Done (Ok {| v3_ExactInput := exactIn; v3_TokenIn := BytesToAddress i; v3_TokenOut := BytesToAddress o;
              v3_Fee := f mod 2 ^ 32; v3_Recipient := BytesToAddress r;
              v3_AmountIn := if exactIn then Some x else None; v3_AmountOutMin := if exactIn then Some y else None;
              v3_AmountOut := if exactIn then None else Some x; v3_AmountInMax := if exactIn then None else Some y |}).

Definition ParseV3SwapFromCalldata (cd : bytes) : outcome (result V3SwapParams) :=
  if (length cd <? 4)%nat then Done (Err "calldata too short") else
  if MatchesSelector cd "414bf389" then
    if (length cd <? 4 + 256)%nat then Done (Err "calldata too short for exactInputSingle") else v3_fields true cd
  else if MatchesSelector cd "db3e2198" then
    if (length cd <? 4 + 256)%nat then Done (Err "calldata too short for exactOutputSingle") else v3_fields false cd
  else Done (Ok {| v3_ExactInput := false; v3_TokenIn := zero20; v3_TokenOut := zero20; v3_Fee := 0; v3_Recipient := zero20;
                   v3_AmountIn := None; v3_AmountOutMin := None; v3_AmountOut := None; v3_AmountInMax := None |}).

(** ** Tables *)

Definition KnownPools : list (Z * list PoolInfo) :=
  let pool c a d t0 t1 f ts :=
    {| pi_Address := HexToAddress a; pi_ChainID := c; pi_DEX := d; pi_Token0 := HexToAddress t0; pi_Token1 := HexToAddress t1;
       pi_Fee := f; pi_TickSpacing := ts; pi_Stable := false |} in
  [(1,
     [pool 1 "88e6A0c2dDD26FEEb64F039a2c41296FcB3f5640" "uniswap_v3" "A0b86991c6218b36c1d19D4a2e9Eb0cE3606eB48" "C02aaA39b223FE8D0A0e5C4F27eAD9083C756Cc2" 5 10;
      pool 1 "8ad599c3A0ff1De082011EFDDc58f1908eb6e6D8" "uniswap_v3" "A0b86991c6218b36c1d19D4a2e9Eb0cE3606eB48" "C02aaA39b223FE8D0A0e5C4F27eAD9083C756Cc2" 30 60;
      pool 1 "B4e16d0168e52d35CaCD2c6185b44281Ec28C9Dc" "uniswap_v2" "A0b86991c6218b36c1d19D4a2e9Eb0cE3606eB48" "C02aaA39b223FE8D0A0e5C4F27eAD9083C756Cc2" 30 0]);
   (8453,
     [pool 8453 "d0b53D9277642d899DF5C87A3966A349A798F224" "uniswap_v3" "833589fCD6eDb6E08f4c7C32D4f71b54bdA02913" "4200000000000000000000000000000000000006" 5 10;
      pool 8453 "cDAC0d6c6C59727a65F871236188350531885C43" "aerodrome" "833589fCD6eDb6E08f4c7C32D4f71b54bdA02913" "4200000000000000000000000000000000000006" 5 0]);
   (10,
     [pool 10 "85149247691df622eaF1a8Bd0CaFd40BC45154a9" "uniswap_v3" "0b2C639c533813f4Aa9D7837CAf62653d097Ff85" "4200000000000000000000000000000000000006" 5 10;
      pool 10 "0493Bf8b6DBB7F8E30BcDCf0e54C9F8C2E5B2DfB" "velodrome" "0b2C639c533813f4Aa9D7837CAf62653d097Ff85" "4200000000000000000000000000000000000006" 5 0])]%string.

Definition dex_RouterAddresses : list (Z * list (string * bytes)) :=
  [(1, [("uniswap_v2", HexToAddress "7a250d5630B4cF539739dF2C5dAcb4c659F2488D");
        ("uniswap_v3", HexToAddress "E592427A0AEce92De3Edee1F18E0157C05861564");
        ("curve", HexToAddress "99a58482BD75cbab83b27EC03CA68fF489b5788f")]);
   (8453, [("uniswap_v2", HexToAddress "4752ba5DBc23f44D87826276BF6Fd6b1C372aD24");
           ("uniswap_v3", HexToAddress "2626664c2603336E57B271c5C0b26F421741e481");
           ("aerodrome", HexToAddress "cF77a3Ba9A5CA399B7c97c74d54e5b1Beb874E43")]);
   (10, [("uniswap_v2", HexToAddress "4A7b5Da61326A6379179b40d00F57E5bbDC962c2");
         ("uniswap_v3", HexToAddress "E592427A0AEce92De3Edee1F18E0157C05861564");
         ("velodrome", HexToAddress "a062aE8A9c5e11aaA026fc2670B0D65cCc8B2858")])]%string.

(** ** Constant products

    An input [x] against reserves [ri] and [ro] gives [x * ro / (ri + x)]; a fee scales the
    input and the reserve by [num] and [den]. *)

Definition cp_out (num den a ri ro : Z) : Z := (a * num * ro) / (ri * den + a * num).

Section constant_product.
Context (num den : Z) (Hnum : 0 <= num <= den) (Hden : 0 < den).

Lemma cp_out_bounds a ri ro : 0 < a -> 0 < ri -> 0 < ro ->
  0 <= cp_out num den a ri ro < ro /\ cp_out num den a ri ro * (ri * den + a * num) <= a * num * ro.
Proof using Hnum Hden.
  intros Ha Hi Ho. unfold cp_out. assert (Hd : 0 < ri * den + a * num) by nia.
  split; [split|].
  - apply Z.div_pos; [|done]. apply Z.mul_nonneg_nonneg; nia.
  - apply Z.div_lt_upper_bound; nia.
  - rewrite Z.mul_comm. apply Z.mul_div_le. done.
Qed.

(** The product of the reserves does not shrink. *)
Lemma cp_out_product a ri ro : 0 < a -> 0 < ri -> 0 < ro ->
  ri * ro <= (ri + a) * (ro - cp_out num den a ri ro).
Proof using Hnum Hden.
  intros Ha Hi Ho. destruct (cp_out_bounds a ri ro Ha Hi Ho) as [[H0 H1] H2].
  set (o := cp_out num den a ri ro) in *.
  assert (H3 : o * a * (den - num) <= ro * a * (den - num)) by (apply Z.mul_le_mono_nonneg_r; nia).
  assert (H4 : (o * (ri + a)) * den <= (a * ro) * den) by nia.
  apply Z.mul_le_mono_pos_r in H4; [|done]. nia.
Qed.

Lemma cp_out_mono a a' ri ro : 0 < a <= a' -> 0 < ri -> 0 < ro -> cp_out num den a ri ro <= cp_out num den a' ri ro.
Proof using Hnum Hden.
  intros Ha Hi Ho. destruct (cp_out_bounds a ri ro ltac:(lia) Hi Ho) as [[H0 H1] H2].
  set (o := cp_out num den a ri ro) in *. unfold cp_out.
  apply Z.div_le_lower_bound; [nia|].
  (* (ri den + a num) o <= a num ro and o < ro *)
  assert ((a' - a) * num * o <= (a' - a) * num * ro) by (apply Z.mul_le_mono_nonneg_l; nia). nia.
Qed.

(** An input of more than [o ri den / ((ro - o) num)] is enough for the output [o]. *)
Lemma cp_out_enough a o ri ro : 0 < ri -> 0 < o < ro -> 0 < a -> o * ri * den <= a * ((ro - o) * num) ->
  o <= cp_out num den a ri ro.
Proof using Hnum Hden. intros Hi Ho Ha H. unfold cp_out. apply Z.div_le_lower_bound; nia. Qed.
End constant_product.

(** What a router promises about its quotes for the pools it accepts. *)
Class RouterLaws (r : DEXRouter) (accepts : option PoolInfo -> Prop) := {
  law_out p t a ri ro : accepts p -> 0 < a -> 0 < ri -> 0 < ro ->
    exists o, GetAmountOut r p t (Some a) (Some ri) (Some ro) = Done (Ok o) /\
      0 <= o < ro /\ ri * ro <= (ri + a) * (ro - o);
  law_mono p t a a' ri ro o o' : accepts p -> 0 < a <= a' -> 0 < ri -> 0 < ro ->
    GetAmountOut r p t (Some a) (Some ri) (Some ro) = Done (Ok o) ->
    GetAmountOut r p t (Some a') (Some ri) (Some ro) = Done (Ok o') -> o <= o';
  law_in p t o ri ro : accepts p -> 0 < ri -> 0 < o < ro ->
    exists a o', GetAmountIn r p t (Some o) (Some ri) (Some ro) = Done (Ok a) /\ 0 < a /\
      GetAmountOut r p t (Some a) (Some ri) (Some ro) = Done (Ok o') /\ o <= o';
}.

Lemma V2_out p t a ri ro : 0 < a -> 0 < ri -> 0 < ro ->
  V2_GetAmountOut p t (Some a) (Some ri) (Some ro) = Done (Ok (cp_out 997 1000 a ri ro)).
Proof.
  intros Ha Hi Ho. unfold V2_GetAmountOut, not_positive. rewrite !(proj2 (Z.leb_gt _ _)) by lia.
  cbn [deref outcome_bind]. rewrite big_div_pos by lia. done.
Qed.

#[global] Instance V2_laws : RouterLaws UniswapV2Router (fun _ => True).
Proof.
  split; cbn [GetAmountOut GetAmountIn UniswapV2Router].
  - intros p t a ri ro _ Ha Hi Ho. rewrite V2_out by done. eexists. split; [done|].
    split; [apply cp_out_bounds; lia|]. apply cp_out_product; lia.
  - intros p t a a' ri ro o o' _ Ha Hi Ho. rewrite !V2_out by lia. intros [= <-] [= <-]. apply cp_out_mono; lia.
  - intros p t o ri ro _ Hi Ho. unfold V2_GetAmountIn, not_positive. rewrite !(proj2 (Z.leb_gt _ _)) by lia.
    cbn [deref outcome_bind]. rewrite (proj2 (Z.leb_gt ro o)), big_div_pos by lia. cbn [outcome_bind].
    set (q := _ / _). assert (Hq : 0 <= q) by (apply Z.div_pos; nia).
    exists (q + 1). eexists. rewrite V2_out by lia. split; [done|]. split; [lia|]. split; [done|].
    apply cp_out_enough; [lia..|].
    pose proof (Z.mul_succ_div_gt (ri * o * 1000) ((ro - o) * 997) ltac:(lia)). fold q in H. nia.
Qed.

Lemma V3_out p t a ri ro pool : p = Some pool -> 0 <= fee_bps pool < 10000 -> 0 < a -> 0 < ri -> 0 < ro ->
  V3_GetAmountOut p t (Some a) (Some ri) (Some ro) =
    Done (Ok (let x := a * (10000 - fee_bps pool) / 10000 in x * ro / (ri + x))).
Proof.
  intros -> Hf Ha Hi Ho. unfold V3_GetAmountOut, not_positive. rewrite (proj2 (Z.leb_gt _ _)) by lia.
  cbn [deref outcome_bind]. rewrite big_div_pos by lia. cbn [outcome_bind].
  rewrite big_div_pos; [done|]. assert (0 <= a * (10000 - fee_bps pool) / 10000) by (apply Z.div_pos; nia). lia.
Qed.

Definition v3_accepts (p : option PoolInfo) : Prop := exists pool, p = Some pool /\ 0 <= fee_bps pool < 10000.

(** The V3 quote is the constant product of the input after fees. *)
Lemma V3_cp x ri ro : x * ro / (ri + x) = cp_out 1 1 x ri ro.
Proof. unfold cp_out. f_equal; lia. Qed.

#[global] Instance V3_laws : RouterLaws UniswapV3Router v3_accepts.
Proof.
  split; cbn [GetAmountOut GetAmountIn UniswapV3Router].
  - intros p t a ri ro (pool & Hp & Hf) Ha Hi Ho. rewrite (V3_out _ _ _ _ _ pool) by done. cbv zeta. eexists. split; [done|].
    rewrite V3_cp. set (x := a * (10000 - fee_bps pool) / 10000).
    assert (Hx : 0 <= x <= a).
    { split; [apply Z.div_pos; nia|]. apply Z.div_le_upper_bound; nia. }
    destruct (decide (x = 0)) as [E|E].
    + rewrite E. unfold cp_out. rewrite !Z.mul_0_l, Z.div_0_l by lia. nia.
    + pose proof (cp_out_bounds 1 1 ltac:(lia) ltac:(lia) x ri ro ltac:(lia) Hi Ho) as [? _].
      pose proof (cp_out_product 1 1 ltac:(lia) ltac:(lia) x ri ro ltac:(lia) Hi Ho). split; [done|]. nia.
  - intros p t a a' ri ro o o' (pool & Hp & Hf) Ha Hi Ho. rewrite !(V3_out _ _ _ _ _ pool) by (done || lia). cbv zeta.
    rewrite !V3_cp. set (x := a * _ / _). set (x' := a' * _ / _). intros [= <-] [= <-].
    assert (0 <= x) by (apply Z.div_pos; nia). assert (x <= x') by (apply Z.div_le_mono; nia).
    destruct (decide (x = 0)) as [->|E]; [|apply cp_out_mono; lia].
    unfold cp_out at 1. rewrite !Z.mul_0_l, Z.div_0_l by lia. apply Z.div_pos; nia.
  - intros p t o ri ro (pool & Hp & Hf) Hi Ho. unfold V3_GetAmountIn, not_positive. rewrite (proj2 (Z.leb_gt o 0)) by lia.
    cbn [deref outcome_bind]. rewrite (proj2 (Z.leb_gt ro o)) by lia. rewrite Hp. cbn [deref outcome_bind].
    rewrite big_div_pos by lia. cbn [outcome_bind]. rewrite big_div_pos by lia. cbn [outcome_bind].
    set (b := ri * o / (ro - o)). assert (Hb : 0 <= b) by (apply Z.div_pos; nia).
    set (q := (b + 1) * 10000 / _). assert (Hq : 0 <= q) by (apply Z.div_pos; nia).
    exists (q + 1). eexists. rewrite (V3_out _ _ _ _ _ pool) by (done || lia). split; [done|]. split; [lia|]. split; [done|].
    cbv zeta. rewrite V3_cp. set (x := (q + 1) * _ / _).
    assert (Hx : b + 1 <= x).
    { apply Z.div_le_lower_bound; [lia|].
      pose proof (Z.mul_succ_div_gt ((b + 1) * 10000) (10000 - fee_bps pool) ltac:(lia)). fold q in H. nia. }
    apply cp_out_enough; [lia..|].
    pose proof (Z.mul_succ_div_gt (ri * o) (ro - o) ltac:(lia)). fold b in H. nia.
Qed.

(** C20: No exchange gives money away: for every router that keeps its laws (both do),
    swapping an amount and swapping the output back through the same pool, whose reserves the
    first swap has moved, returns at most the amount; and an input quoted for an output
    yields at least that output. *)
Theorem round_trip_no_profit r accepts (L : RouterLaws r accepts) p t t' a ri ro o a' :
  accepts p -> 0 < a -> 0 < ri -> 0 < ro ->
  GetAmountOut r p t (Some a) (Some ri) (Some ro) = Done (Ok o) -> 0 < o ->
  GetAmountOut r p t' (Some o) (Some (ro - o)) (Some (ri + a)) = Done (Ok a') ->
  a' <= a /\
  exists x o', GetAmountIn r p t (Some o) (Some ri) (Some ro) = Done (Ok x) /\
    GetAmountOut r p t (Some x) (Some ri) (Some ro) = Done (Ok o') /\ o <= o'.
Proof.
  intros Hp Ha Hi Ho E Hpos E'.
  destruct (law_out p t a ri ro Hp Ha Hi Ho) as (o1 & E1 & Hb & Hk). rewrite E in E1. injection E1 as <-.
  destruct (law_out p t' o (ro - o) (ri + a) Hp Hpos ltac:(lia) ltac:(lia)) as (a1 & E2 & Hb2 & Hk2).
  rewrite E' in E2. injection E2 as <-. split; [nia|].
  destruct (law_in p t o ri ro Hp Hi ltac:(lia)) as (x & o' & Hx & _ & Hx' & Hle). by exists x, o'.
Qed.

Definition ex_pool (fee : Z) : PoolInfo :=
  {| pi_Address := zero20; pi_ChainID := 1; pi_DEX := "uniswap_v3"; pi_Token0 := zero20; pi_Token1 := zero20;
     pi_Fee := fee; pi_TickSpacing := 10; pi_Stable := false |}.

Lemma round_trip_no_profit_witness :
  (97 <= 100 /\ exists x o', GetAmountIn UniswapV3Router (Some (ex_pool 5)) [] (Some 90) (Some 1000) (Some 1000) = Done (Ok x) /\
    GetAmountOut UniswapV3Router (Some (ex_pool 5)) [] (Some x) (Some 1000) (Some 1000) = Done (Ok o') /\ 90 <= o') /\
  (98 <= 100 /\ exists x o', GetAmountIn UniswapV2Router None [] (Some 90) (Some 1000) (Some 1000) = Done (Ok x) /\
    GetAmountOut UniswapV2Router None [] (Some x) (Some 1000) (Some 1000) = Done (Ok o') /\ 90 <= o').
Proof.
  split.
  - apply (round_trip_no_profit UniswapV3Router v3_accepts V3_laws (Some (ex_pool 5)) [] [] 100 1000 1000 90 97);
      [eexists; split; [reflexivity|by vm_compute]|lia..|reflexivity|lia|reflexivity].
  - apply (round_trip_no_profit UniswapV2Router (fun _ => True) V2_laws None [] [] 100 1000 1000 90 98);
      [exact I|lia..|reflexivity|lia|reflexivity].
Defined.

(** ** Square roots *)

Lemma sqrt_step n x : 0 < n -> Z.sqrt n <= x -> 0 < x ->
  let y := (n / x + x) / 2 in
  Z.sqrt n <= y /\ (y < x -> 2 * (y - Z.sqrt n) <= x - Z.sqrt n) /\ (x <= y -> x = Z.sqrt n).
Proof.
  intros Hn Hx Hp y. pose proof (Z.sqrt_spec n ltac:(lia)) as [H1 H2]. pose proof (Z.sqrt_nonneg n) as H0.
  set (s := Z.sqrt n) in *.
  pose proof (Z.mul_div_le n x Hp) as Hq1. pose proof (Z.mul_succ_div_gt n x Hp) as Hq2.
  assert (Hq0 : 0 <= n / x) by (apply Z.div_pos; lia). set (q := n / x) in *.
  assert (Hy : q + x - 1 <= 2 * y <= q + x) by (unfold y; dlia).
  split; [|split].
  - destruct (Z.le_gt_cases s y) as [|Hlt]; [done|]. nia.
  - intros Hyx. destruct (Z.eq_dec x s) as [->|]; [nia|].
    assert (q <= s); [|lia]. apply Z.lt_succ_r. apply Z.div_lt_upper_bound; nia.
  - intros Hyx. assert (x <= q) by lia. nia.
Qed.

Lemma sqrt_loop_spec fuel n x : 0 < n -> Z.sqrt n <= x -> 0 < x -> x - Z.sqrt n < 2 ^ Z.of_nat fuel ->
  sqrt_loop (S fuel) n x ((n / x + x) / 2) = Done (Z.sqrt n).
Proof.
  intros Hn. assert (Hs : 0 < Z.sqrt n) by (by apply Z.sqrt_pos).
  revert x. induction fuel as [|fuel IH]; intros x Hx Hp Hlt;
    pose proof (sqrt_step n x Hn Hx Hp) as (H1 & H2 & H3); set (y := (n / x + x) / 2) in *.
  - assert (x = Z.sqrt n) by (cbn in Hlt; lia). cbn [sqrt_loop]. rewrite (proj2 (Z.ltb_ge y x)) by lia. by f_equal.
  - rewrite Nat2Z.inj_succ, Z.pow_succ_r in Hlt by lia.
    cbn [sqrt_loop]. destruct (Z.ltb_spec y x) as [Hyx|Hyx]; [|f_equal; auto].
    cbv zeta. rewrite big_div_pos by lia. cbn [outcome_bind]. rewrite big_div_pos by lia. cbn [outcome_bind].
    specialize (H2 Hyx). specialize (IH y H1 ltac:(lia) ltac:(lia)). cbn [sqrt_loop] in IH. exact IH.
Qed.

(** The integer square root is exact and terminates: Newton's iteration started at
    [n] stops after at most [log2 n + 2] rounds with the largest integer whose square is at
    most [n]. *)
Theorem sqrt_newton_exact n fuel : 0 <= n -> Z.log2 n + 2 <= Z.of_nat fuel -> SqrtBigInt fuel n = Done (Z.sqrt n).
Proof.
  intros Hn Hf. unfold SqrtBigInt. destruct (Z.leb_spec n 0).
  { by replace n with 0 by lia. }
  rewrite big_div_pos by lia. cbn [outcome_bind]. pose proof (Z.log2_nonneg n).
  destruct fuel as [|fuel]; [lia|].
  replace ((n + 1) / 2) with ((n / n + n) / 2) by (rewrite Z.div_same by lia; f_equal; lia).
  apply sqrt_loop_spec; [done|apply Z.sqrt_le_lin; lia|done|].
  pose proof (Z.log2_spec n ltac:(lia)) as [_ Hlog]. pose proof (Z.sqrt_nonneg n).
  assert (2 ^ Z.succ (Z.log2 n) <= 2 ^ Z.of_nat fuel) by (apply Z.pow_le_mono_r; lia). lia.
Qed.

Lemma sqrt_newton_exact_witness : SqrtBigInt 70 (10 ^ 20 - 1) = Done (Z.sqrt (10 ^ 20 - 1)).
Proof. apply sqrt_newton_exact; [lia|apply Z.leb_le; vm_compute; reflexivity]. Defined.

(** ** Calldata *)

Lemma put_mid lo hi (a b c src : bytes) : lo = Z.of_nat (length a) -> hi = lo + Z.of_nat (length b) ->
  length src = length b -> put lo hi src (a ++ b ++ c) = Done (a ++ src ++ c).
Proof.
  intros -> -> Hs. unfold put. rewrite !length_app.
  rewrite !(proj2 (Z.leb_le _ _)) by lia. cbn [andb]. rewrite (take_ge src) by lia.
  rewrite Nat2Z.id, take_app_length. rewrite (app_assoc a b c), (drop_app_length' (a ++ b) c); [done|]. rewrite length_app. lia.
Qed.

(** Writing into the zero word [k], right-aligned. *)
Lemma put_word s ws k src lo hi : length s = 4%nat -> Forall (fun w => length w = 32%nat) ws ->
  ws !! k = Some zero32 -> (length src <= 32)%nat -> hi = 4 + 32 * Z.of_nat k + 32 -> lo = hi - Z.of_nat (length src) ->
  put lo hi src (calldata s ws) = Done (calldata s (<[k := left_pad 32 src]> ws)).
Proof.
  intros Hs Hf Hk Hl -> ->. pose proof (lookup_lt_Some _ _ _ Hk) as Hlt. unfold calldata.
  rewrite (insert_take_drop ws k) by done. rewrite <- (take_drop_middle ws k zero32 Hk) at 1.
  rewrite !concat_app. cbn [concat].
  assert (Hz : zero32 = replicate (32 - length src) Byte.x00 ++ replicate (length src) Byte.x00).
  { rewrite <- replicate_add. by replace (32 - length src + length src)%nat with 32%nat by lia. }
  rewrite Hz. unfold left_pad. rewrite <- !app_assoc.
  rewrite (app_assoc s), (app_assoc (s ++ _)). rewrite (app_assoc s (concat (take k ws))), (app_assoc (s ++ _) (replicate _ _)).
  apply put_mid; [|rewrite length_replicate; lia|by rewrite length_replicate].
  rewrite !length_app, length_calldata_words, length_take, length_replicate, Hs by (by apply Forall_take). lia.
Qed.

Lemma put_int_word s ws k z hi : length s = 4%nat -> Forall (fun w => length w = 32%nat) ws ->
  ws !! k = Some zero32 -> 0 <= z < 2 ^ 256 -> hi = 4 + 32 * Z.of_nat k + 32 ->
  put_int hi z (calldata s ws) = Done (calldata s (<[k := left_pad 32 (bigint_bytes z)]> ws)).
Proof. intros Hs Hf Hk Hz ->. apply put_word; try done. by apply length_bigint_bytes. Qed.

Lemma slice_field s ws k w src lo hi : length s = 4%nat -> Forall (fun w => length w = 32%nat) ws ->
  ws !! k = Some w -> w = left_pad 32 src -> length src = 20%nat -> hi = 4 + 32 * Z.of_nat k + 32 -> lo = hi - 20 ->
  slice (calldata s ws) lo hi = Done src.
Proof.
  intros Hs Hf Hk -> Hl -> ->. unfold calldata. rewrite <- (take_drop_middle ws k _ Hk), concat_app. cbn [concat].
  unfold left_pad. rewrite Hl. rewrite <- !app_assoc. rewrite (app_assoc s), (app_assoc (s ++ _)).
  apply slice_mid; [|lia].
  rewrite !length_app, length_calldata_words, length_take, length_replicate, Hs by (by apply Forall_take).
  pose proof (lookup_lt_Some _ _ _ Hk). lia.
Qed.

Definition ex_params (q : SwapQuote) (recipient : bytes) (p : PoolInfo) (a o : Z) : V3SwapParams :=
  {| v3_ExactInput := true; v3_TokenIn := sq_TokenIn q; v3_TokenOut := sq_TokenOut q;
     v3_Fee := if pi_Fee p =? 0 then 3000 else pi_Fee p; v3_Recipient := recipient;
     v3_AmountIn := Some a; v3_AmountOutMin := Some (o * 995 / 1000); v3_AmountOut := None; v3_AmountInMax := None |}.

(** The words that [V3_BuildSwapCalldata] writes. *)
Lemma v3_build_words q recipient deadline p a o :
  sq_Pool q = Some p -> sq_AmountIn q = Some a -> sq_AmountOut q = Some o ->
  length (sq_TokenIn q) = 20%nat -> length (sq_TokenOut q) = 20%nat -> length recipient = 20%nat ->
  0 <= pi_Fee p < 2 ^ 32 -> 0 <= deadline < 2 ^ 64 -> 0 <= a < 2 ^ 256 -> 0 <= o < 2 ^ 256 ->
  V3_BuildSwapCalldata q recipient deadline = Done (Ok (calldata (sel "414bf389")
    [left_pad 32 (sq_TokenIn q); left_pad 32 (sq_TokenOut q); left_pad 32 (bigint_bytes (if pi_Fee p =? 0 then 3000 else pi_Fee p));
     left_pad 32 recipient; left_pad 32 (bigint_bytes deadline); left_pad 32 (bigint_bytes a);
     left_pad 32 (bigint_bytes (o * 995 / 1000)); zero32])).
Proof.
  intros Hp Ha Ho Hi Hto Hr Hfee Hd Hra Hro. unfold V3_BuildSwapCalldata. rewrite Hp, Ha, Ho. cbv zeta.
  change (replicate (4 + 32 * 8) Byte.x00) with ([] ++ replicate 4 Byte.x00 ++ concat (replicate 8 zero32)).
  rewrite put_mid by done. cbn [outcome_bind app]. fold (calldata (sel "414bf389") (replicate 8 zero32)).
  assert (Hs : length (sel "414bf389") = 4%nat) by done.
  assert (Hl : forall l, (length l <= 32)%nat -> length (left_pad 32 l) = 32%nat) by (intros; by apply length_left_pad).
  assert (Hb : forall z, 0 <= z < 2 ^ 256 -> (length (bigint_bytes z) <= 32)%nat) by (intros; by apply length_bigint_bytes).
  assert (Hf0 : 0 <= (if pi_Fee p =? 0 then 3000 else pi_Fee p) < 2 ^ 256) by (case_match; lia).
  assert (Hm : 0 <= o * 995 / 1000 < 2 ^ 256) by dlia.
  unfold min_out. cbn [deref outcome_bind]. rewrite big_div_pos by lia.
  assert (Hz : length zero32 = 32%nat) by done.
  assert (Hd' : 0 <= deadline < 2 ^ 256) by lia.
  cbn [replicate].
  rewrite (put_word _ _ 0) by (done || (repeat constructor; done) || (rewrite ?Hi, ?Hto, ?Hr; lia)). cbn [outcome_bind].
  rewrite (put_word _ _ 1) by (done || (repeat constructor; auto; apply Hl; lia) || (rewrite ?Hi, ?Hto, ?Hr; lia)). cbn [outcome_bind].
  rewrite (put_int_word _ _ 2) by (done || (repeat constructor; auto; apply Hl; lia)). cbn [outcome_bind].
  rewrite (put_word _ _ 3) by (done || (repeat constructor; auto; apply Hl; (lia || by apply Hb)) || (rewrite ?Hi, ?Hto, ?Hr; lia)).
  cbn [outcome_bind].
  rewrite (put_int_word _ _ 4) by (done || lia || (repeat constructor; auto; apply Hl; (lia || by apply Hb))). cbn [outcome_bind].
  rewrite (put_int_word _ _ 5) by (done || (repeat constructor; auto; apply Hl; (lia || apply Hb; lia))). cbn [outcome_bind].
  rewrite (put_int_word _ _ 6) by (done || (repeat constructor; auto; apply Hl; (lia || apply Hb; lia))). cbn [outcome_bind].
  reflexivity.
Qed.

(** Swaps that the V3 router builds are parsed back: tokens, fee, recipient, amount
    and the minimal output (99.5 % of the quote). *)
Theorem v3_build_parse q recipient deadline p a o :
  sq_Pool q = Some p -> sq_AmountIn q = Some a -> sq_AmountOut q = Some o ->
  length (sq_TokenIn q) = 20%nat -> length (sq_TokenOut q) = 20%nat -> length recipient = 20%nat ->
  0 <= pi_Fee p < 2 ^ 32 -> 0 <= deadline < 2 ^ 64 -> 0 <= a < 2 ^ 256 -> 0 <= o < 2 ^ 256 ->
  exists cd, BuildSwapCalldata UniswapV3Router q recipient deadline = Done (Ok cd) /\
    ParseV3SwapFromCalldata cd = Done (Ok (ex_params q recipient p a o)).
Proof.
  intros Hp Ha Ho Hi Hto Hr Hfee Hd Hra Hro. eexists. split; [by apply v3_build_words|].
  set (f := if pi_Fee p =? 0 then 3000 else pi_Fee p).
  assert (Hf : 0 <= f < 2 ^ 32) by (subst f; case_match; lia).
  assert (Hm : 0 <= o * 995 / 1000 < 2 ^ 256) by dlia. set (m := o * 995 / 1000) in *.
  set (ws := [_; _; _; _; _; _; _; _]).
  assert (Hb : forall z, 0 <= z < 2 ^ 256 -> length (left_pad 32 (bigint_bytes z)) = 32%nat)
    by (intros; by apply length_left_pad, length_bigint_bytes).
  assert (Hz : forall l : bytes, length l = 20%nat -> length (left_pad 32 l) = 32%nat) by (intros l Hl; apply length_left_pad; lia).
  assert (Hws : Forall (fun w => length w = 32%nat) ws) by (repeat constructor; auto; apply Hb; lia).
  assert (Hs : length (sel "414bf389") = 4%nat) by done.
  assert (Hlen : length (calldata (sel "414bf389") ws) = 260%nat) by (by rewrite length_calldata).
  assert (Et : take 4 (calldata (sel "414bf389") ws) = sel "414bf389") by (unfold calldata; by rewrite <- Hs, take_app_length).
  unfold ParseV3SwapFromCalldata, MatchesSelector. rewrite Hlen, Et. rewrite bytes_eqb_refl. cbn [Nat.ltb Nat.leb Nat.add].
  unfold v3_fields.
  rewrite (slice_field _ ws 0 _ (sq_TokenIn q)) by done. cbn [outcome_bind].
  rewrite (slice_field _ ws 1 _ (sq_TokenOut q)) by done. cbn [outcome_bind].
  rewrite (slice_int_word _ ws 2 (left_pad 32 (bigint_bytes f))) by done. cbn [outcome_bind].
  rewrite (slice_field _ ws 3 _ recipient) by done. cbn [outcome_bind].
  rewrite (slice_int_word _ ws 5 (left_pad 32 (bigint_bytes a))) by done. cbn [outcome_bind].
  rewrite (slice_int_word _ ws 6 (left_pad 32 (bigint_bytes m))) by done. cbn [outcome_bind].
  rewrite !be_int_left_pad, !be_int_bigint_bytes, !Z.abs_eq, (Z.mod_small f) by lia.
  rewrite !address_id by done. reflexivity.
Qed.

Definition ex_quote : SwapQuote :=
  {| sq_Pool := Some (ex_pool 5); sq_TokenIn := replicate 20 Byte.x01; sq_TokenOut := replicate 20 Byte.x02;
     sq_AmountIn := Some 1000; sq_AmountOut := Some 2000; sq_PriceImpact := None; sq_Fee := None; sq_GasEstimate := 0 |}.

Lemma v3_build_parse_witness :
  exists cd, BuildSwapCalldata UniswapV3Router ex_quote zero20 99 = Done (Ok cd) /\
    ParseV3SwapFromCalldata cd = Done (Ok (ex_params ex_quote zero20 (ex_pool 5) 1000 2000)).
Proof. apply v3_build_parse; try done; lia. Defined.

Lemma put_length lo hi src buf buf' : put lo hi src buf = Done buf' -> length buf' = length buf.
Proof.
  unfold put. case_match eqn:E; [|done]. bool_to_prop. cbv zeta. intros [= <-].
  rewrite !length_app, length_drop, !length_take. lia.
Qed.

(** Building calldata with the V2 router panics for every quote: the buffer has 228 bytes
    and the second token is written at 240. *)
Lemma v2_build_panics q recipient deadline : exists m, BuildSwapCalldata UniswapV2Router q recipient deadline = Panic m.
Proof.
  cbn [BuildSwapCalldata UniswapV2Router]. unfold V2_BuildSwapCalldata, put_int. cbv zeta.
  assert (Hd : forall {A} (x : outcome A) {B} (f : A -> outcome B),
    (forall a, x = Done a -> exists m, f a = Panic m) -> x <> NoFuel -> exists m, outcome_bind x f = Panic m).
  { intros A [a|m|] B f Hf Hn; [by apply Hf|by exists m|done]. }
  assert (Hput : forall lo hi src buf, put lo hi src buf <> NoFuel) by (intros; unfold put; by case_match).
  assert (Hde : forall {A} (x : option A), deref x <> NoFuel) by (by intros A []).
  apply Hd; [intros b1 L1%put_length|auto].
  apply Hd; [intros a _|auto].
  apply Hd; [intros b2 L2%put_length|auto].
  apply Hd; [intros o _|auto].
  apply Hd; [intros mo _|unfold min_out, big_div; by case_match].
  apply Hd; [intros b3 L3%put_length|auto].
  apply Hd; [intros b4 L4%put_length|auto].
  apply Hd; [intros b5 L5%put_length|auto].
  apply Hd; [intros b6 L6%put_length|auto].
  apply Hd; [intros b7 L7%put_length|auto].
  apply Hd; [intros b8 L8%put_length|auto].
  rewrite length_replicate in L1. exists "slice bounds out of range"%string.
  unfold put. rewrite L8, L7, L6, L5, L4, L3, L2, L1. reflexivity.
Qed.

(** ** Events of V3 pools *)

Lemma split_amount_nonneg z : 0 <= z -> split_amount z = (z, 0).
Proof. intros Hz. unfold split_amount. by rewrite (proj2 (Z.ltb_ge _ _)). Qed.

Lemma slice_int_bounds data lo hi z : slice_int data lo hi = Done z -> 0 <= z < 256 ^ (hi - lo).
Proof.
  unfold slice_int, slice. case_match eqn:E; [|done]. bool_to_prop. cbn [outcome_bind]. intros [= <-].
  pose proof (be_int_app_bound (take (Z.to_nat (hi - lo)) (drop (Z.to_nat lo) data))) as H2.
  rewrite length_take, length_drop in H2.
  replace (Z.of_nat (Z.to_nat (hi - lo) `min` (length data - Z.to_nat lo))) with (hi - lo) in H2 by lia. exact H2.
Qed.

(** The five words of a V3 [Swap] event, as the chain encodes them: signed amounts and a
    signed tick, in two's complement. *)
Definition v3_event (amount0 amount1 sqrtPrice liquidity tick : Z) : bytes :=
  be_bytes 32 (amount0 mod 2 ^ 256) ++ be_bytes 32 (amount1 mod 2 ^ 256) ++ be_bytes 32 sqrtPrice ++
  be_bytes 32 liquidity ++ be_bytes 32 (tick mod 2 ^ 256).

Lemma slice_be lo hi a z c : lo = Z.of_nat (length a) -> hi = lo + 32 -> 0 <= z < 2 ^ 256 ->
  slice_int (a ++ be_bytes 32 z ++ c) lo hi = Done z.
Proof.
  intros -> -> Hz. unfold slice_int. rewrite slice_mid by (rewrite ?length_be_bytes; lia). cbn [outcome_bind].
  rewrite be_int_be_bytes, Z.mod_small; [done|]. exact Hz.
Qed.

(** Events of V3 pools are misread: amounts are signed on the chain but read
    unsigned, so a paid-out amount [-x] is reported as an input of [2^256 - x] and no output
    is ever reported; and a negative tick comes out [2^24] too low, because the value is
    already sign-extended when [2^24] is subtracted. *)
Theorem v3_event_misread pool x amount1 sqrtPrice liquidity t :
  0 < x < 2 ^ 255 -> 0 <= amount1 < 2 ^ 255 -> 0 <= sqrtPrice < 2 ^ 160 -> 0 <= liquidity < 2 ^ 128 -> 0 < t <= 2 ^ 23 ->
  ParseSwapEvent UniswapV3Router pool (v3_event (- x) amount1 sqrtPrice liquidity (- t)) =
    Done (Ok {| Amount0In := Some (2 ^ 256 - x); Amount1In := Some amount1; Amount0Out := Some 0; Amount1Out := Some 0;
                SqrtPriceX96 := Some sqrtPrice; Liquidity := Some liquidity; Tick := - t - 2 ^ 24 |}).
Proof.
  intros Hx H1 Hs Hl Ht. cbn [ParseSwapEvent UniswapV3Router]. unfold V3_ParseSwapEvent.
  assert (E1 : (- x) mod 2 ^ 256 = 2 ^ 256 - x) by (symmetry; apply (Z.mod_unique_pos _ _ (-1)); lia).
  assert (E2 : (- t) mod 2 ^ 256 = 2 ^ 256 - t) by (symmetry; apply (Z.mod_unique_pos _ _ (-1)); lia).
  assert (Hlen : length (v3_event (- x) amount1 sqrtPrice liquidity (- t)) = 160%nat)
    by (unfold v3_event; by rewrite !length_app, !length_be_bytes).
  rewrite Hlen. cbn [Nat.ltb Nat.leb]. unfold v3_event. rewrite E1, E2, (Z.mod_small amount1) by lia.
  assert (S0 : forall c, slice_int (be_bytes 32 (2 ^ 256 - x) ++ c) 0 32 = Done (2 ^ 256 - x))
    by (intros c; apply (slice_be 0 32 []); lia || done).
  rewrite S0. cbn [outcome_bind].
  rewrite (slice_be 32 64 (be_bytes 32 _)) by (rewrite ?length_be_bytes; lia). cbn [outcome_bind].
  rewrite (app_assoc (be_bytes 32 (2 ^ 256 - x))).
  rewrite (slice_be 64 96) by (rewrite ?length_app, ?length_be_bytes; lia). cbn [outcome_bind].
  rewrite (app_assoc (_ ++ be_bytes 32 amount1)).
  rewrite (slice_be 96 128) by (rewrite ?length_app, ?length_be_bytes; lia). cbn [outcome_bind].
  rewrite (app_assoc (_ ++ be_bytes 32 sqrtPrice)), <- (app_nil_r (be_bytes 32 (2 ^ 256 - t))).
  rewrite (slice_be 128 160) by (rewrite ?length_app, ?length_be_bytes; lia). cbn [outcome_bind].
  assert (Hbit : Z.testbit (2 ^ 256 - t) 23 = true).
  { rewrite Z.testbit_true by lia.
    replace (2 ^ 256 - t) with ((2 ^ 233 - 1) * 2 ^ 23 + (2 ^ 23 - t)) by lia.
    rewrite Z.div_add_l by lia. rewrite (Z.div_small (2 ^ 23 - t)) by lia. reflexivity. }
  rewrite Hbit. rewrite !split_amount_nonneg by lia. cbn [fst snd]. do 3 f_equal.
  change (Z.shiftl 1 24) with (2 ^ 24). unfold i64.
  replace (2 ^ 256 - t - 2 ^ 24 + 2 ^ 63) with (2 ^ 63 - t - 2 ^ 24 + 2 ^ 192 * 2 ^ 64) by lia.
  rewrite Z_mod_plus_full, Z.mod_small by lia. lia.
Qed.

Lemma v3_event_misread_witness :
  ParseSwapEvent UniswapV3Router None (v3_event (Z.opp 7) 5 11 13 (Z.opp 3)) =
    Done (Ok {| Amount0In := Some (2 ^ 256 - 7); Amount1In := Some 5; Amount0Out := Some 0; Amount1Out := Some 0;
                SqrtPriceX96 := Some 11; Liquidity := Some 13; Tick := Z.opp 3 - 2 ^ 24 |}).
Proof. apply (v3_event_misread None 7 5 11 13 3); lia. Defined.

(** ** Arbitrage between two pools *)

(** A reported arbitrage is real: if the calculation returns an input and a profit,
    the input is positive and at most a tenth of the reserve, the profit is positive, and
    swapping the input through the first pool and its output through the second yields the
    input plus the profit.  The converse fails ([arbitrage_missed]). *)
Theorem optimal_arbitrage_sound fuel r0A r1A r0B r1B x profit :
  CalculateOptimalArbitrageV2 fuel r0A r1A r0B r1B = Done (Ok (x, profit)) ->
  0 < x <= r0A / 10 /\ 0 < profit /\
  exists y, V2_GetAmountOut None zero20 (Some x) (Some r0A) (Some r1A) = Done (Ok y) /\
    V2_GetAmountOut None zero20 (Some y) (Some r1B) (Some r0B) = Done (Ok (x + profit)).
Proof.
  unfold CalculateOptimalArbitrageV2. intros E.
  apply outcome_bind_Done in E as (pA & _ & E). apply outcome_bind_Done in E as (pB & _ & E).
  destruct (bf_Cmp pB pA); [done..|].
  apply outcome_bind_Done in E as (s & _ & E). cbv zeta in E.
  destruct (Z.leb_spec (s - r0A) 0); [done|].
  rewrite big_div_pos in E by lia. cbn [outcome_bind] in E.
  set (i := if r0A / 10 <? s - r0A then r0A / 10 else s - r0A) in *.
  apply outcome_bind_Done in E as ([y|] & Ey & E); [|done].
  apply outcome_bind_Done in E as ([z|] & Ez & E); [|done].
  destruct (Z.leb_spec (z - i) 0); [done|]. injection E as <- <-.
  assert (Hi : 0 < i).
  { destruct (Z.ltb_spec 0 i); [done|]. unfold V2_GetAmountOut, not_positive in Ey. by rewrite (proj2 (Z.leb_le i 0)) in Ey by lia. }
  split; [split; [done|]|split; [lia|]].
  - subst i. destruct (Z.ltb_spec (r0A / 10) (s - r0A)); lia.
  - exists y. split; [done|]. by replace (i + (z - i)) with z by lia.
Qed.

Lemma optimal_arbitrage_sound_witness :
  (0 < 100 <= 1000 / 10 /\ 0 < 338 /\
  exists y, V2_GetAmountOut None zero20 (Some 100) (Some 1000) (Some 1000) = Done (Ok y) /\
    V2_GetAmountOut None zero20 (Some y) (Some 4000) (Some 20000) = Done (Ok (100 + 338))).
Proof. apply (optimal_arbitrage_sound 100 1000 1000 20000 4000 100 338). vm_compute. reflexivity. Defined.

(** The test compares the price of one pool with the inverse price of the other, so real
    arbitrage is refused: with reserves 10000:40000 and 20000:40000, swapping 100 through the
    first pool and the result through the second returns 194. *)
Lemma arbitrage_missed :
  CalculateOptimalArbitrageV2 100 10000 40000 20000 40000 = Done (Err "no arbitrage opportunity: priceB <= priceA") /\
  (let! y := V2_GetAmountOut None zero20 (Some 100) (Some 10000) (Some 40000) in
   match y with Ok y => V2_GetAmountOut None zero20 (Some y) (Some 40000) (Some 20000) | Err e => Done (Err e) end) = Done (Ok 194).
Proof. split; vm_compute; reflexivity. Qed.

(** ** V3 prices *)

(** Moving the price by an input of token 1 costs no more than the input; selling token 0
    never raises the price. *)
Lemma next_price_input p l a next : 0 < p -> 0 < l -> 0 <= a ->
  GetNextSqrtPriceFromInput p l a false = Done (Some next) ->
  p <= next /\ exists d, GetAmount1Delta p next l = Done d /\ d <= a.
Proof.
  intros Hp Hl Ha. unfold GetNextSqrtPriceFromInput. rewrite !(proj2 (Z.leb_gt _ _)) by lia. cbn [orb].
  rewrite big_div_pos by lia. cbn [outcome_bind]. intros [= <-].
  assert (Hq : 0 < Q96) by (by vm_compute). assert (Hd : 0 <= a * Q96 / l) by (apply Z.div_pos; nia).
  split; [lia|]. unfold GetAmount1Delta. rewrite (proj2 (Z.ltb_ge _ _)) by lia. cbv zeta.
  rewrite big_div_pos by done. eexists. split; [done|].
  replace (p + a * Q96 / l - p) with (a * Q96 / l) by lia.
  apply Z.div_le_upper_bound; [done|]. rewrite (Z.mul_comm _ l), (Z.mul_comm Q96). apply Z.mul_div_le. done.
Qed.

Lemma next_price_sell p l a next : 0 < p -> 0 < l -> 0 <= a ->
  GetNextSqrtPriceFromInput p l a true = Done (Some next) -> 0 <= next <= p.
Proof.
  intros Hp Hl Ha. unfold GetNextSqrtPriceFromInput. rewrite !(proj2 (Z.leb_gt _ _)) by lia. cbn [orb].
  assert (Hq : 0 < Q96) by (by vm_compute).
  rewrite big_div_pos by done. cbn [outcome_bind].
  assert (Hd : 0 <= a * p / Q96) by (apply Z.div_pos; nia).
  rewrite big_div_pos by lia. cbn [outcome_bind]. intros [= <-]. split; [apply Z.div_pos; nia|].
  apply Z.div_le_upper_bound; nia.
Qed.
