(* ===== verification/Pools.v ===== *)
(** * Pool discovery ([arb/discovery])

    The registry of exchange pools with its indices by token and by pair, the pools it starts
    with, the listener for calls to pool factories, the parsers of factory events, and the
    parser of router calldata with its nested multicalls.

    Times are nanoseconds since 1970; [time.Since] saturates.  Go's map iteration order is an
    argument where it shows.  Selectors are four bytes of a Keccak hash.

    The indices are exact up to repetition ([registry_lookup_exact]); re-adding a pruned pool
    repeats it ([readded_pool_twice]).  Unwrapping multicalls always terminates
    ([multicall_terminates]), but crafted offsets panic and nesting multiplies the work
    ([multicall_bomb]); the router parser reads its fields from the wrong words
    ([router_fields_shifted]). *)

From Stdlib Require Import String SpecFloat.
From S2P Require Import Prelude Json Signing Float64 BigFloat Merkle Positions Swaps.

(** ** Pools *)

Record DiscoveredPool := {
  dp_Address : bytes; dp_ChainID : Z; dp_DEXType : string; dp_Token0 : bytes; dp_Token1 : bytes; dp_Fee : Z;
  dp_TickSpacing : Z; dp_Stable : bool;
  dp_Reserve0 : option Z; dp_Reserve1 : option Z; dp_Liquidity : option Z; dp_SqrtPriceX96 : option Z; dp_Tick : Z;
  dp_DiscoveredAt : Z; dp_LastUpdated : Z; dp_CreatedBlock : Z; dp_LastBlock : Z;
  dp_VolumeScore : float64; dp_DepthScore : float64; dp_ActivityScore : float64; dp_TotalScore : float64;
  dp_UpdateCount : Z; dp_SwapCount : Z;
}.

(** The zero [time.Time], 1 January of the year 1. *)
Definition zero_time : Z := -62135596800 * 10 ^ 9.

(** [now.Sub(t)], which saturates. *)
Definition since (now t : Z) : Z := Z.max (- 2 ^ 63) (Z.min (2 ^ 63 - 1) (now - t)).

Definition new_pool (chainID : Z) (dex : string) (discovered updated created : Z) : DiscoveredPool :=
  {| dp_Address := zero20; dp_ChainID := chainID; dp_DEXType := dex; dp_Token0 := zero20; dp_Token1 := zero20; dp_Fee := 0;
     dp_TickSpacing := 0; dp_Stable := false; dp_Reserve0 := None; dp_Reserve1 := None; dp_Liquidity := None;
     dp_SqrtPriceX96 := None; dp_Tick := 0; dp_DiscoveredAt := discovered; dp_LastUpdated := updated; dp_CreatedBlock := created;
     dp_LastBlock := 0; dp_VolumeScore := f0; dp_DepthScore := f0; dp_ActivityScore := f0; dp_TotalScore := f0;
     dp_UpdateCount := 0; dp_SwapCount := 0 |}.

Definition set_identity (addr t0 t1 : bytes) (fee spacing : Z) (stable : bool) (p : DiscoveredPool) : DiscoveredPool :=
  {| dp_Address := addr; dp_ChainID := dp_ChainID p; dp_DEXType := dp_DEXType p; dp_Token0 := t0; dp_Token1 := t1; dp_Fee := fee;
     dp_TickSpacing := spacing; dp_Stable := stable; dp_Reserve0 := dp_Reserve0 p; dp_Reserve1 := dp_Reserve1 p;
     dp_Liquidity := dp_Liquidity p; dp_SqrtPriceX96 := dp_SqrtPriceX96 p; dp_Tick := dp_Tick p;
     dp_DiscoveredAt := dp_DiscoveredAt p; dp_LastUpdated := dp_LastUpdated p; dp_CreatedBlock := dp_CreatedBlock p;
     dp_LastBlock := dp_LastBlock p; dp_VolumeScore := dp_VolumeScore p; dp_DepthScore := dp_DepthScore p;
     dp_ActivityScore := dp_ActivityScore p; dp_TotalScore := dp_TotalScore p; dp_UpdateCount := dp_UpdateCount p;
     dp_SwapCount := dp_SwapCount p |}.

Definition set_state (r0 r1 : option Z) (block updated updates swaps : Z) (p : DiscoveredPool) : DiscoveredPool :=
  {| dp_Address := dp_Address p; dp_ChainID := dp_ChainID p; dp_DEXType := dp_DEXType p; dp_Token0 := dp_Token0 p;
     dp_Token1 := dp_Token1 p; dp_Fee := dp_Fee p; dp_TickSpacing := dp_TickSpacing p; dp_Stable := dp_Stable p;
     dp_Reserve0 := r0; dp_Reserve1 := r1; dp_Liquidity := dp_Liquidity p; dp_SqrtPriceX96 := dp_SqrtPriceX96 p;
     dp_Tick := dp_Tick p; dp_DiscoveredAt := dp_DiscoveredAt p; dp_LastUpdated := updated; dp_CreatedBlock := dp_CreatedBlock p;
     dp_LastBlock := block; dp_VolumeScore := dp_VolumeScore p; dp_DepthScore := dp_DepthScore p;
     dp_ActivityScore := dp_ActivityScore p; dp_TotalScore := dp_TotalScore p; dp_UpdateCount := updates; dp_SwapCount := swaps |}.

Definition set_scores (depth activity total : float64) (p : DiscoveredPool) : DiscoveredPool :=
  {| dp_Address := dp_Address p; dp_ChainID := dp_ChainID p; dp_DEXType := dp_DEXType p; dp_Token0 := dp_Token0 p;
     dp_Token1 := dp_Token1 p; dp_Fee := dp_Fee p; dp_TickSpacing := dp_TickSpacing p; dp_Stable := dp_Stable p;
     dp_Reserve0 := dp_Reserve0 p; dp_Reserve1 := dp_Reserve1 p; dp_Liquidity := dp_Liquidity p;
     dp_SqrtPriceX96 := dp_SqrtPriceX96 p; dp_Tick := dp_Tick p; dp_DiscoveredAt := dp_DiscoveredAt p;
     dp_LastUpdated := dp_LastUpdated p; dp_CreatedBlock := dp_CreatedBlock p; dp_LastBlock := dp_LastBlock p;
     dp_VolumeScore := dp_VolumeScore p; dp_DepthScore := depth; dp_ActivityScore := activity; dp_TotalScore := total;
     dp_UpdateCount := dp_UpdateCount p; dp_SwapCount := dp_SwapCount p |}.

Definition pool_GetPrice (p : DiscoveredPool) : outcome (option bigfloat) :=
  match dp_Reserve0 p, dp_Reserve1 p with
  | Some r0, Some r1 => if r0 =? 0 then Done None else let! q := bf_Quo 0 (bf_SetInt r1) (bf_SetInt r0) in Done (Some q)
  | _, _ => Done None
  end.

Definition HasToken (p : DiscoveredPool) (t : bytes) : bool := bytes_eqb (dp_Token0 p) t || bytes_eqb (dp_Token1 p) t.
Definition OtherToken (p : DiscoveredPool) (t : bytes) : bytes := if bytes_eqb (dp_Token0 p) t then dp_Token1 p else dp_Token0 p.
Definition IsV3 (p : DiscoveredPool) : bool := String.eqb (dp_DEXType p) "uniswap_v3".

Record PoolFilter := {
  MinLiquidityUSD : float64; MinVolumeUSD : float64; MaxAgeHours : Z; MinTotalScore : float64; IncludeStable : bool;
  IncludeVolatile : bool; TokenWhitelist : list bytes; TokenBlacklist : list bytes; DEXWhitelist : list string;
}.

Definition DefaultPoolFilter : PoolFilter :=
  {| MinLiquidityUSD := f_of_Z 10000; MinVolumeUSD := f_of_Z 1000; MaxAgeHours := 24; MinTotalScore := f_ratio 1 10;
     IncludeStable := true; IncludeVolatile := true; TokenWhitelist := []; TokenBlacklist := []; DEXWhitelist := [] |}.

Definition hour : Z := 3600 * 10 ^ 9.

Definition Matches (f : PoolFilter) (p : DiscoveredPool) (now : Z) : bool :=
  if fltb (dp_TotalScore p) (MinTotalScore f) then false else
  if (0 <? MaxAgeHours f) && (i64 (MaxAgeHours f * hour) <? since now (dp_LastUpdated p)) then false else
  if dp_Stable p && negb (IncludeStable f) then false else
  if negb (dp_Stable p) && negb (IncludeVolatile f) then false else
  if (0 <? length (TokenWhitelist f))%nat && negb (existsb (HasToken p) (TokenWhitelist f)) then false else
  if existsb (HasToken p) (TokenBlacklist f) then false else
  if (0 <? length (DEXWhitelist f))%nat && negb (existsb (String.eqb (dp_DEXType p)) (DEXWhitelist f)) then false else
  true.

Record PoolTier := { tier_Name : string; tier_MinLiquidityUSD : float64; tier_MaxHops : Z; tier_Priority : Z }.

Definition DefaultTiers : list PoolTier :=
  [{| tier_Name := "blue_chip"; tier_MinLiquidityUSD := f_of_Z 1000000; tier_MaxHops := 4; tier_Priority := 1 |};
   {| tier_Name := "major"; tier_MinLiquidityUSD := f_of_Z 100000; tier_MaxHops := 3; tier_Priority := 2 |};
   {| tier_Name := "medium"; tier_MinLiquidityUSD := f_of_Z 10000; tier_MaxHops := 2; tier_Priority := 3 |};
   {| tier_Name := "long_tail"; tier_MinLiquidityUSD := f_of_Z 1000; tier_MaxHops := 2; tier_Priority := 4 |}].

(** ** Tokens *)

Record disc_TokenInfo := {
  dt_Address : bytes; dt_ChainID : Z; dt_Symbol : string; dt_Decimals : Z; dt_IsStable : bool; dt_IsNative : bool; dt_PriceUSD : float64;
}.

(** A map of maps: what is missing is empty. *)
Definition at_chain {A} (m : gmap Z (gmap bytes A)) (c : Z) : gmap bytes A := default ∅ (m !! c).

Record TokenRegistry := { tokens : gmap Z (gmap bytes disc_TokenInfo); crossChain : gmap bytes (gmap Z bytes) }.

Definition NewTokenRegistry : TokenRegistry := {| tokens := ∅; crossChain := ∅ |}.

Definition TokenRegistry_Add (r : TokenRegistry) (t : disc_TokenInfo) : TokenRegistry :=
  {| tokens := <[dt_ChainID t := <[dt_Address t := t]> (at_chain (tokens r) (dt_ChainID t))]> (tokens r);
     crossChain := crossChain r |}.

Definition TokenRegistry_Get (r : TokenRegistry) (c : Z) (a : bytes) : option disc_TokenInfo := at_chain (tokens r) c !! a.

Definition AddCrossChainMapping (r : TokenRegistry) (canonical : bytes) (c : Z) (a : bytes) : TokenRegistry :=
  {| tokens := tokens r; crossChain := <[canonical := <[c := a]> (default ∅ (crossChain r !! canonical))]> (crossChain r) |}.

Definition GetCrossChainAddress (r : TokenRegistry) (canonical : bytes) (c : Z) : option bytes :=
  default ∅ (crossChain r !! canonical) !! c.

(** ** The registry *)

Record RegistryConfig := {
  ScoreUpdateInterval : Z; PruneInactivePools : bool; InactiveThreshold : Z; MaxPoolsPerChain : Z; MinScoreThreshold : float64;
}.

Definition DefaultRegistryConfig : RegistryConfig :=
  {| ScoreUpdateInterval := 300 * 10 ^ 9; PruneInactivePools := true; InactiveThreshold := 24 * hour; MaxPoolsPerChain := 10000;
     MinScoreThreshold := f_ratio 1 100 |}.

Record DiscoveryStats := {
  TotalPoolsDiscovered : Z; PoolsByChain : gmap Z Z; PoolsByDEX : gmap string Z; LastUpdateTime : Z;
}.

Record PoolRegistry := {
  pools : gmap Z (gmap bytes DiscoveredPool);
  tokenPools : gmap Z (gmap bytes (list bytes));
  pairPools : gmap Z (gmap bytes (list bytes));
  pr_tokens : TokenRegistry;
  pr_config : RegistryConfig;
  stats : DiscoveryStats;
}.

Definition NewPoolRegistry (c : option RegistryConfig) : PoolRegistry :=
  {| pools := ∅; tokenPools := ∅; pairPools := ∅; pr_tokens := NewTokenRegistry; pr_config := default DefaultRegistryConfig c;
     stats := {| TotalPoolsDiscovered := 0; PoolsByChain := ∅; PoolsByDEX := ∅; LastUpdateTime := zero_time |} |}.

Definition with_pools (r : PoolRegistry) (m : gmap Z (gmap bytes DiscoveredPool)) : PoolRegistry :=
  {| pools := m; tokenPools := tokenPools r; pairPools := pairPools r; pr_tokens := pr_tokens r; pr_config := pr_config r; stats := stats r |}.

Definition count {K} `{Countable K} (d : Z) (k : K) (m : gmap K Z) : gmap K Z := <[k := default 0 (m !! k) + d]> m.

(** [m[c][k] = append(m[c][k], a)] *)
Definition append_at (m : gmap Z (gmap bytes (list bytes))) (c : Z) (k a : bytes) : gmap Z (gmap bytes (list bytes)) :=
  <[c := <[k := default [] (at_chain m c !! k) ++ [a]]> (at_chain m c)]> m.

Section registry.
Context {C : Crypto}.

Definition pairKey (t0 t1 : bytes) : bytes :=
  if lex_ltb (AddrHex t0) (AddrHex t1) then AddrHex t0 ++ bs ":" ++ AddrHex t1 else AddrHex t1 ++ bs ":" ++ AddrHex t0.

(** The maps of the chain are made also when the pool is already known. *)
Definition AddPool (r : PoolRegistry) (p : DiscoveredPool) (now : Z) : PoolRegistry :=
  let c := dp_ChainID p in
  match at_chain (pools r) c !! dp_Address p with
  | Some _ => r
  | None =>
      let tp := append_at (append_at (tokenPools r) c (dp_Token0 p) (dp_Address p)) c (dp_Token1 p) (dp_Address p) in
      {| pools := <[c := <[dp_Address p := p]> (at_chain (pools r) c)]> (pools r);
         tokenPools := tp;
         pairPools := append_at (pairPools r) c (pairKey (dp_Token0 p) (dp_Token1 p)) (dp_Address p);
         pr_tokens := pr_tokens r; pr_config := pr_config r;
         stats := {| TotalPoolsDiscovered := TotalPoolsDiscovered (stats r) + 1; PoolsByChain := count 1 c (PoolsByChain (stats r));
                     PoolsByDEX := count 1 (dp_DEXType p) (PoolsByDEX (stats r)); LastUpdateTime := now |} |}
  end.

Definition ImportPools (r : PoolRegistry) (ps : list DiscoveredPool) (now : Z) : PoolRegistry * Z :=
  (fold_left (fun r p => AddPool r p now) ps r, Z.of_nat (length ps)).

(** Replace a known pool. *)
Definition update_pool (r : PoolRegistry) (c : Z) (a : bytes) (f : DiscoveredPool -> DiscoveredPool) : PoolRegistry :=
  match at_chain (pools r) c !! a with
  | Some p => with_pools r (<[c := <[a := f p]> (at_chain (pools r) c)]> (pools r))
  | None => r
  end.

Record ParsedSwapCall := {
  sc_TokenIn : bytes; sc_TokenOut : bytes; sc_AmountIn : option Z; sc_AmountOut : option Z; sc_Recipient : bytes; sc_IsV3 : bool;
}.

(** [100 * x], unless the reserve is already larger. *)
Definition estimate (r : option Z) (x : Z) : option Z :=
  match r with
  | Some z => if z <? x * 100 then Some (x * 100) else r
  | None => Some (x * 100)
  end.

Definition UpdatePoolFromSwap (r : PoolRegistry) (c : Z) (a : bytes) (swap : ParsedSwapCall) (now : Z) : PoolRegistry :=
  update_pool r c a (fun p =>
    let rs := match sc_AmountIn swap, sc_AmountOut swap with
              | Some i, Some o => (estimate (dp_Reserve0 p) i, estimate (dp_Reserve1 p) o)
              | _, _ => (dp_Reserve0 p, dp_Reserve1 p)
              end in
    set_state rs.1 rs.2 (dp_LastBlock p) now (u64 (dp_UpdateCount p + 1)) (u64 (dp_SwapCount p + 1)) p).

Definition UpdatePoolFromPriceGossip (r : PoolRegistry) (c : Z) (a : bytes) (r0 r1 : option Z) (block : Z) (confidence : float64) (now : Z)
  : PoolRegistry :=
  if fltb confidence (f_ratio 1 2) then r else
  update_pool r c a (fun p =>
    if block <=? dp_LastBlock p then p
    else set_state r0 r1 block now (u64 (dp_UpdateCount p + 1)) (dp_SwapCount p) p).

Definition GetPool (r : PoolRegistry) (c : Z) (a : bytes) : option DiscoveredPool := at_chain (pools r) c !! a.

Definition known (r : PoolRegistry) (c : Z) (addrs : list bytes) : list DiscoveredPool :=
  omap (fun a => at_chain (pools r) c !! a) addrs.

Definition GetPoolsForToken (r : PoolRegistry) (c : Z) (t : bytes) : list DiscoveredPool :=
  known r c (default [] (at_chain (tokenPools r) c !! t)).

Definition GetPoolsForPair (r : PoolRegistry) (c : Z) (t0 t1 : bytes) : list DiscoveredPool :=
  known r c (default [] (at_chain (pairPools r) c !! pairKey t0 t1)).

(** In some order of the map. *)
Definition GetAllPools (r : PoolRegistry) (c : Z) : list DiscoveredPool := (map_to_list (at_chain (pools r) c)).*2.

Definition ExportPools (r : PoolRegistry) (c : Z) : list DiscoveredPool := GetAllPools r c.

Definition GetFilteredPools (r : PoolRegistry) (c : Z) (f : PoolFilter) (now : Z) : list DiscoveredPool :=
  List.filter (fun p => Matches f p now) (GetAllPools r c).

(** Sorted by descending score. *)
Definition GetTopPoolsByScore (listing : list DiscoveredPool) (n : Z) : outcome (list DiscoveredPool) :=
  let n := if Z.of_nat (length listing) <? n then Z.of_nat (length listing) else n in
  if n <? 0 then Panic "slice bounds out of range" else Done (take (Z.to_nat n) (sort_by (fun p q => fltb (dp_TotalScore q) (dp_TotalScore p)) listing)).

Definition GetUniqueTokens (r : PoolRegistry) (c : Z) : list bytes := (map_to_list (at_chain (tokenPools r) c)).*1.

(** [Duration.Hours] *)
Definition Hours (d : Z) : float64 := fadd (f_of_Z (Z.quot d hour)) (fdiv (f_of_Z (Z.rem d hour)) (f_of_Z hour)).

Definition fmin (a b : float64) : float64 := if fltb a b then a else b.

Definition calculatePoolScore (now : Z) (p : DiscoveredPool) : outcome DiscoveredPool :=
  let! depth := match dp_Reserve0 p, dp_Reserve1 p with
                | Some r0, Some r1 =>
                    let! product := bf_Mul 0 (bf_SetInt r0) (bf_SetInt r1) in
                    let productF := bf_Float64 product in
                    Done (if fltb f0 productF then fmin f1 (fdiv productF (f_of_Z (10 ^ 36))) else f0)
                | _, _ => Done f0
                end in
  let activity := fmin f1 (fdiv (f_of_Z (dp_SwapCount p)) (f_of_Z 1000)) in
  let ageScore := fdiv f1 (fadd f1 (fdiv (Hours (since now (dp_DiscoveredAt p))) (f_of_Z 168))) in
  let total := fadd (fadd (fmul (f_ratio 1 2) depth) (fmul (f_ratio 3 10) activity)) (fmul (f_ratio 1 5) ageScore) in
  Done (set_scores depth activity total p).

(** The product of two finite floats is finite, so no score panics. *)
Definition scored (now : Z) (p : DiscoveredPool) : DiscoveredPool :=
  match calculatePoolScore now p with Done p' => p' | _ => p end.

Definition updateAllScores (r : PoolRegistry) (now : Z) : PoolRegistry := with_pools r ((fun m : gmap bytes DiscoveredPool => scored now <$> m) <$> pools r).

(** Inactive pools: updated at least once, not since the threshold, and with a low score. *)
Definition inactive (cfg : RegistryConfig) (now : Z) (p : DiscoveredPool) : bool :=
  negb ((dp_SwapCount p =? 0) && (dp_UpdateCount p =? 0)) &&
  (dp_LastUpdated p <? now - InactiveThreshold cfg) && fltb (dp_TotalScore p) (MinScoreThreshold cfg).

Definition uncount (s : DiscoveryStats) (p : Z * DiscoveredPool) : DiscoveryStats :=
  {| TotalPoolsDiscovered := TotalPoolsDiscovered s; PoolsByChain := count (-1) p.1 (PoolsByChain s);
     PoolsByDEX := count (-1) (dp_DEXType p.2) (PoolsByDEX s); LastUpdateTime := LastUpdateTime s |}.

Definition pruneInactivePools (r : PoolRegistry) (now : Z) : PoolRegistry :=
  let dead := cp ← map_to_list (pools r); (fun p => (cp.1, p)) <$> List.filter (inactive (pr_config r) now) (map_to_list cp.2).*2 in
  {| pools := (fun m : gmap bytes DiscoveredPool => filter (fun kv => inactive (pr_config r) now kv.2 = false) m) <$> pools r;
     tokenPools := tokenPools r; pairPools := pairPools r; pr_tokens := pr_tokens r; pr_config := pr_config r;
     stats := fold_left uncount dead (stats r) |}.

Definition UniqueTokens (r : PoolRegistry) : Z :=
  Z.of_nat (size (list_to_set (cm ← map_to_list (tokenPools r); (map_to_list cm.2).*1) : gset bytes)).
End registry.

(** ** Bootstrap pools *)

Definition boot (discovered updated : Z) (addr : string) (chain : Z) (dex : string) (t0 t1 : bytes) (fee spacing : Z) (stable : bool)
  : DiscoveredPool :=
  set_identity (HexToAddress addr) t0 t1 fee spacing stable (new_pool chain dex discovered updated 0).

Definition WETH_MAINNET : bytes := HexToAddress "C02aaA39b223FE8D0A0e5C4F27eAD9083C756Cc2".
Definition USDC_MAINNET : bytes := HexToAddress "A0b86991c6218b36c1d19D4a2e9Eb0cE3606eB48".
Definition USDT_MAINNET : bytes := HexToAddress "dAC17F958D2ee523a2206206994597C13D831ec7".
Definition DAI_MAINNET : bytes := HexToAddress "6B175474E89094C44Da98b954EescdeCB5cBF40".
Definition WBTC_MAINNET : bytes := HexToAddress "2260FAC5E5542a773Aa44fBCfeDf7C193bc2C599".
Definition WETH_BASE : bytes := HexToAddress "4200000000000000000000000000000000000006".
Definition USDC_BASE : bytes := HexToAddress "833589fCD6eDb6E08f4c7C32D4f71b54bdA02913".
Definition USDbC_BASE : bytes := HexToAddress "d9aAEc86B65D86f6A7B5B1b0c42FFA531710b6CA".
Definition WETH_OP : bytes := HexToAddress "4200000000000000000000000000000000000006".
Definition USDC_OP : bytes := HexToAddress "0b2C639c533813f4Aa9D7837CAf62653d097Ff85".
Definition OP_OP : bytes := HexToAddress "4200000000000000000000000000000000000042".
Definition WETH_ARB : bytes := HexToAddress "82aF49447D8a07e3bd95BD0d56f35241523fBab1".
Definition USDC_ARB : bytes := HexToAddress "af88d065e77c8cC2239327C5EDb3A432268e5831".
Definition ARB_ARB : bytes := HexToAddress "912CE59144191C1204E64559FE8253a0e49E6548".
Definition WETH_SEPOLIA : bytes := HexToAddress "fFf9976782d46CC05630D1f6eBAb18b2324d6B14".
Definition USDC_SEPOLIA : bytes := HexToAddress "1c7D4B196Cb0C7B01d743Fbc6116a902379C7238".
Definition DAI_SEPOLIA : bytes := HexToAddress "68194a729C2450ad26072b3D33ADaCbcef39D574".
Definition LINK_SEPOLIA : bytes := HexToAddress "779877A7B0D9E8603169DdbD7836e478b4624789".
Definition WETH_BASE_SEP : bytes := HexToAddress "4200000000000000000000000000000000000006".
Definition USDC_BASE_SEP : bytes := HexToAddress "036CbD53842c5426634e7929541eC2318f3dCF7e".
Definition WETH_OP_SEP : bytes := HexToAddress "4200000000000000000000000000000000000006".
Definition USDC_OP_SEP : bytes := HexToAddress "5fd84259d66Cd46123540766Be93DFE6D43130D7".

Definition BootstrapPools (now : Z) : list DiscoveredPool :=
  [boot now now "B4e16d0168e52d35CaCD2c6185b44281Ec28C9Dc" 1 "uniswap_v2" USDC_MAINNET WETH_MAINNET 30 0 false;
   boot now now "0d4a11d5EEaaC28EC3F61d100daF4d40471f1852" 1 "uniswap_v2" WETH_MAINNET USDT_MAINNET 30 0 false;
   boot now now "A478c2975Ab1Ea89e8196811F51A7B7Ade33eB11" 1 "uniswap_v2" DAI_MAINNET WETH_MAINNET 30 0 false;
   boot now now "Bb2b8038a1640196FbE3e38816F3e67Cba72D940" 1 "uniswap_v2" WBTC_MAINNET WETH_MAINNET 30 0 false;
   boot now now "397FF1542f962076d0BFE58eA045FfA2d347ACa0" 1 "sushiswap" USDC_MAINNET WETH_MAINNET 30 0 false;
   boot now now "88e6A0c2dDD26FEEb64F039a2c41296FcB3f5640" 1 "uniswap_v3" USDC_MAINNET WETH_MAINNET 500 10 false;
   boot now now "8ad599c3A0ff1De082011EFDDc58f1908eb6e6D8" 1 "uniswap_v3" USDC_MAINNET WETH_MAINNET 3000 60 false;
   boot now now "4e68Ccd3E89f51C3074ca5072bbAC773960dFa36" 1 "uniswap_v3" WETH_MAINNET USDT_MAINNET 3000 60 false;
   boot now now "CBCdF9626bC03E24f779434178A73a0B4bad62eD" 1 "uniswap_v3" WBTC_MAINNET WETH_MAINNET 3000 60 false;
   boot now now "d0b53D9277642d899DF5C87A3966A349A798F224" 8453 "uniswap_v3" WETH_BASE USDC_BASE 500 10 false;
   boot now now "cDAC0d6c6C59727a65F871236188350531885C43" 8453 "uniswap_v3" WETH_BASE USDbC_BASE 500 10 false;
   boot now now "B4885Bc63399BF5518b994c1d0C153334Ee579D0" 8453 "aerodrome" WETH_BASE USDC_BASE 30 0 false;
   boot now now "6cDcb1C4A4D1C3C6d054b27AC5B77e89eAFb971d" 8453 "aerodrome" USDbC_BASE USDC_BASE 5 0 true;
   boot now now "85149247691df622eaF1a8Bd0CaFd40BC45154a9" 10 "uniswap_v3" WETH_OP USDC_OP 500 10 false;
   boot now now "0493Bf8b6DBB159Ce2Db2E0E8403E753Abd1235b" 10 "velodrome_v2" WETH_OP USDC_OP 30 0 false;
   boot now now "6387765fFA609aB9A1dA1B16C455548Bfed7CbEA" 10 "velodrome_v2" WETH_OP OP_OP 30 0 false;
   boot now now "C31E54c7a869B9FcBEcc14363CF510d1c41fa443" 42161 "uniswap_v3" WETH_ARB USDC_ARB 500 10 false;
   boot now now "C6962004f452bE9203591991D15f6b388e09E8D0" 42161 "sushiswap" WETH_ARB USDC_ARB 30 0 false;
   boot now now "a6c5C7D189fA4eB5Af8ba34E63dCDD3a635D433f" 42161 "camelot" WETH_ARB ARB_ARB 30 0 false].

Definition TestnetBootstrapPools (now : Z) : list DiscoveredPool :=
  [boot zero_time now "0227628f3F023bb0B980b67D528571c95c6DaC1c" 11155111 "uniswap_v3" USDC_SEPOLIA WETH_SEPOLIA 3000 60 false;
   boot zero_time now "6Ce0896eAE6D4BD668fDe41BB784548fb8F59b50" 11155111 "uniswap_v3" DAI_SEPOLIA WETH_SEPOLIA 3000 60 false;
   boot zero_time now "1F36fC6E26f5A1B9f2AeDe9A3e7f2D4d8C7e5f6A" 11155111 "uniswap_v3" USDC_SEPOLIA DAI_SEPOLIA 500 10 false;
   boot zero_time now "45c7aBC18daE7Ba3B18FA138D1aBB2Fce10B8c63" 11155111 "uniswap_v3" LINK_SEPOLIA WETH_SEPOLIA 3000 60 false;
   boot zero_time now "4c36388bE6F416A29C8d8Ae5C1dB8D9F4B5D6A7C" 84532 "uniswap_v3" USDC_BASE_SEP WETH_BASE_SEP 3000 60 false;
   boot zero_time now "5D6E7F8A9B0C1D2E3F4A5B6C7D8E9F0A1B2C3D4E" 11155420 "uniswap_v3" USDC_OP_SEP WETH_OP_SEP 3000 60 false].

Definition BootstrapPoolsForChain (chainID now : Z) : list DiscoveredPool :=
  List.filter (fun p => dp_ChainID p =? chainID) (BootstrapPools now ++ TestnetBootstrapPools now).

Definition defaultLiquidity : Z := 1000 * 10 ^ 18.

Definition DefaultReserves (now : Z) : gmap bytes Z :=
  fold_left (fun m a => <[a := defaultLiquidity]> m)
    ([HexToAddress "88e6A0c2dDD26FEEb64F039a2c41296FcB3f5640"; HexToAddress "B4e16d0168e52d35CaCD2c6185b44281Ec28C9Dc"] ++
     (dp_Address <$> BootstrapPools now)) ∅.

(** Placeholder reserves and scores. *)
Definition bootstrapped (p : DiscoveredPool) : DiscoveredPool :=
  set_scores (f_ratio 7 10) (f_ratio 1 2) (f_ratio 8 10)
    (set_state (Some defaultLiquidity) (Some defaultLiquidity) (dp_LastBlock p) (dp_LastUpdated p) (dp_UpdateCount p) (dp_SwapCount p) p).

Definition LoadBootstrapPools `{Crypto} (r : PoolRegistry) (now : Z) : PoolRegistry * Z :=
  ImportPools r (bootstrapped <$> (BootstrapPools now ++ TestnetBootstrapPools now)) now.

(** ** Lookups are exact *)

Definition idx (m : gmap Z (gmap bytes (list bytes))) (c : Z) (k : bytes) : list bytes := default [] (at_chain m c !! k).

Lemma at_chain_insert {A} (m : gmap Z (gmap bytes A)) c c' x : at_chain (<[c := x]> m) c' = if decide (c = c') then x else at_chain m c'.
Proof. unfold at_chain. case_decide as E; [subst; by rewrite lookup_insert_eq|by rewrite lookup_insert_ne]. Qed.

Lemma at_chain_fmap {A} (f : gmap bytes A -> gmap bytes A) m c : f ∅ = ∅ -> at_chain (f <$> m) c = f (at_chain m c).
Proof. intros Hf. unfold at_chain. rewrite lookup_fmap. by destruct (m !! c). Qed.

Lemma elem_of_append m c k a c' k' a' :
  a' ∈ idx (append_at m c k a) c' k' <-> a' ∈ idx m c' k' \/ (c' = c /\ k' = k /\ a' = a).
Proof.
  unfold idx, append_at. rewrite at_chain_insert. case_decide as E; [subst c'|naive_solver].
  destruct (decide (k' = k)) as [->|Hk].
  - rewrite lookup_insert_eq. cbn [default id]. rewrite elem_of_app, list_elem_of_singleton. naive_solver.
  - rewrite lookup_insert_ne by done. naive_solver.
Qed.

Section exact_lookup.
Context {C : Crypto} {L : CryptoLaws C}.

Lemma pairKey_comm t0 t1 : pairKey t0 t1 = pairKey t1 t0.
Proof using L.
  unfold pairKey. destruct (lex_ltb (AddrHex t0) (AddrHex t1)) eqn:E1, (lex_ltb (AddrHex t1) (AddrHex t0)) eqn:E2; try done.
  - by rewrite lex_asym in E2.
  - apply lex_total in E2; [|done]. apply addrhex_inj in E2. by subst.
Qed.

(** A key determines the pair. *)
Lemma pairKey_inj a b a' b' : length a = 20%nat -> length b = 20%nat -> length a' = 20%nat -> length b' = 20%nat ->
  pairKey a b = pairKey a' b' -> (a = a' /\ b = b') \/ (a = b' /\ b = a').
Proof using L.
  intros Ha Hb Ha' Hb' E.
  assert (H : forall x y x' y', length x = 20%nat -> length x' = 20%nat ->
    AddrHex x ++ bs ":" ++ AddrHex y = AddrHex x' ++ bs ":" ++ AddrHex y' -> x = x' /\ y = y').
  { intros x y x' y' Hx Hx' H. apply app_inj_1 in H as [H1 H2]; [|by rewrite !addrhex_length, Hx, Hx'].
    apply app_inj_1 in H2 as [_ H2]; [|done]. split; by apply addrhex_inj. }
  unfold pairKey in E. repeat case_match; apply H in E as [? ?]; auto.
Qed.

(** The tokens of a pool never change: every pool that is added has the pair that its
    chain and address stand for. *)
Context (pair : Z -> bytes -> bytes * bytes).

Definition token_pair (p : DiscoveredPool) : Prop :=
  (dp_Token0 p, dp_Token1 p) = pair (dp_ChainID p) (dp_Address p) /\ length (dp_Token0 p) = 20%nat /\ length (dp_Token1 p) = 20%nat.

Definition filed (r : PoolRegistry) (c : Z) (a : bytes) (p : DiscoveredPool) : Prop :=
  dp_ChainID p = c /\ dp_Address p = a /\ token_pair p /\
  a ∈ idx (tokenPools r) c (dp_Token0 p) /\ a ∈ idx (tokenPools r) c (dp_Token1 p) /\
  a ∈ idx (pairPools r) c (pairKey (dp_Token0 p) (dp_Token1 p)).

Record registry_inv (r : PoolRegistry) : Prop := {
  inv_filed : forall c a p, at_chain (pools r) c !! a = Some p -> filed r c a p;
  inv_token : forall c a t, a ∈ idx (tokenPools r) c t -> t = (pair c a).1 \/ t = (pair c a).2;
  inv_pair : forall c a k, a ∈ idx (pairPools r) c k -> k = pairKey (pair c a).1 (pair c a).2;
}.

Lemma new_registry_inv cfg : registry_inv (NewPoolRegistry cfg).
Proof. split; intros c a p; cbn; unfold idx, at_chain; rewrite lookup_empty; cbn; rewrite lookup_empty; cbn; set_solver. Qed.

Lemma AddPool_inv r p now : registry_inv r -> token_pair p -> registry_inv (AddPool r p now).
Proof.
  intros [H1 H2 H3] Hp. unfold AddPool. destruct (at_chain (pools r) (dp_ChainID p) !! dp_Address p) eqn:E; [done|].
  assert (Hpair : pair (dp_ChainID p) (dp_Address p) = (dp_Token0 p, dp_Token1 p)) by (by destruct Hp as [-> _]).
  split; cbn [pools tokenPools pairPools].
  - intros c a q. rewrite at_chain_insert. case_decide as Ec.
    + subst c. destruct (decide (a = dp_Address p)) as [->|Ha].
      * rewrite lookup_insert_eq. intros [= <-]. unfold filed. cbn [tokenPools pairPools]. rewrite !elem_of_append. naive_solver.
      * rewrite lookup_insert_ne by done. intros (? & ? & ? & ? & ? & ?)%H1. unfold filed. cbn [tokenPools pairPools].
        rewrite !elem_of_append. naive_solver.
    + intros (? & ? & ? & ? & ? & ?)%H1. unfold filed. cbn [tokenPools pairPools]. rewrite !elem_of_append. naive_solver.
  - intros c a t. rewrite !elem_of_append. intros [[?%H2|(-> & -> & ->)]|(-> & -> & ->)]; [done|rewrite Hpair; auto..].
  - intros c a k. rewrite elem_of_append. intros [?%H3|(-> & -> & ->)]; [done|by rewrite Hpair].
Qed.

Lemma fold_AddPool_inv ps r now : registry_inv r -> Forall token_pair ps -> registry_inv (fold_left (fun r p => AddPool r p now) ps r).
Proof. intros Hr Hps. revert r Hr. induction Hps; intros r Hr; cbn; [done|]. apply IHHps. by apply AddPool_inv. Qed.

(** Operations that only change or remove pools, not their identity. *)
Definition same_identity (q p : DiscoveredPool) : Prop :=
  dp_ChainID q = dp_ChainID p /\ dp_Address q = dp_Address p /\ dp_Token0 q = dp_Token0 p /\ dp_Token1 q = dp_Token1 p.

Lemma inv_same r r' : registry_inv r -> tokenPools r' = tokenPools r -> pairPools r' = pairPools r ->
  (forall c a q, at_chain (pools r') c !! a = Some q -> exists p, at_chain (pools r) c !! a = Some p /\ same_identity q p) ->
  registry_inv r'.
Proof.
  intros [H1 H2 H3] Et Ep Hsub. split; rewrite ?Et, ?Ep; [|done..].
  intros c a q (p & Hp & E1 & E2 & E3 & E4)%Hsub. apply H1 in Hp. unfold filed, token_pair in *. rewrite Et, Ep, E1, E2, E3, E4. exact Hp.
Qed.

Lemma update_pool_inv r c a f : (forall p, same_identity (f p) p) -> registry_inv r -> registry_inv (update_pool r c a f).
Proof.
  intros Hf Hr. unfold update_pool. destruct (at_chain (pools r) c !! a) as [p|] eqn:E; [|done].
  apply (inv_same r); try done. intros c' a' q. cbn [pools with_pools]. rewrite at_chain_insert. case_decide as Ec; [|by eauto using surjective_pairing; exists q].
  subst c'. destruct (decide (a' = a)) as [->|Ha].
  - rewrite lookup_insert_eq. intros [= <-]. by exists p.
  - rewrite lookup_insert_ne by done. by exists q.
Qed.

Lemma scored_identity now p : same_identity (scored now p) p.
Proof.
  unfold scored, calculatePoolScore. destruct (match dp_Reserve0 p with Some _ => _ | None => _ end) as [d| |]; [|done..]. done.
Qed.

(** ** Sequences of operations *)

Inductive reg_op :=
| OpAdd (p : DiscoveredPool) | OpImport (ps : list DiscoveredPool) | OpSwap (c : Z) (a : bytes) (s : ParsedSwapCall)
| OpGossip (c : Z) (a : bytes) (r0 r1 : option Z) (block : Z) (confidence : float64) | OpScores | OpPrune.

Definition reg_exec (r : PoolRegistry) (x : reg_op * Z) : PoolRegistry :=
  let now := x.2 in
  match x.1 with
  | OpAdd p => AddPool r p now
  | OpImport ps => (ImportPools r ps now).1
  | OpSwap c a s => UpdatePoolFromSwap r c a s now
  | OpGossip c a r0 r1 block conf => UpdatePoolFromPriceGossip r c a r0 r1 block conf now
  | OpScores => updateAllScores r now
  | OpPrune => pruneInactivePools r now
  end.

Definition op_pools (x : reg_op * Z) : list DiscoveredPool :=
  match x.1 with OpAdd p => [p] | OpImport ps => ps | _ => [] end.

Lemma reg_exec_inv r x : registry_inv r -> Forall token_pair (op_pools x) -> registry_inv (reg_exec r x).
Proof.
  destruct x as [[p|ps|c a s|c a r0 r1 b f| |] now]; cbn [op_pools reg_exec fst snd]; intros Hr Hx.
  - by apply AddPool_inv; [|inversion Hx].
  - by apply fold_AddPool_inv.
  - apply update_pool_inv; [|done]. intros p. cbv zeta. repeat case_match; done.
  - unfold UpdatePoolFromPriceGossip. case_match; [done|]. apply update_pool_inv; [|done]. intros p. by case_match.
  - apply (inv_same r); try done. cbn [pools updateAllScores with_pools]. intros c a q. rewrite at_chain_fmap by apply fmap_empty.
    rewrite lookup_fmap. destruct (at_chain (pools r) c !! a) as [p|]; [|done]. intros [= <-]. exists p. split; [done|apply scored_identity].
  - apply (inv_same r); try done. cbn [pools pruneInactivePools]. intros c a q. rewrite at_chain_fmap by apply map_filter_empty.
    intros [Hq _]%map_lookup_filter_Some. by exists q.
Qed.

Lemma reg_run_inv xs r : registry_inv r -> Forall (fun x => Forall token_pair (op_pools x)) xs -> registry_inv (fold_left reg_exec xs r).
Proof. intros Hr Hxs. revert r Hr. induction Hxs; intros r Hr; cbn; [done|]. apply IHHxs. by apply reg_exec_inv. Qed.

Lemma elem_of_known r c addrs p : registry_inv r ->
  p ∈ known r c addrs <-> GetPool r c (dp_Address p) = Some p /\ dp_ChainID p = c /\ dp_Address p ∈ addrs.
Proof.
  intros [H1 _ _]. unfold known, GetPool. rewrite list_elem_of_omap. split.
  - intros (a & Ha & E). pose proof (H1 _ _ _ E) as (? & <- & _). done.
  - intros (E & _ & Ha). by exists (dp_Address p).
Qed.
End exact_lookup.


(** Lookups in the registry are exact: after any sequence of additions, imports, swaps,
    gossiped prices, scorings and prunings, the pools listed for a token are exactly the
    registered pools of the chain that trade it, and the pools listed for a pair those that
    trade the two tokens, in either order.  (A pool's address determines its tokens, and
    tokens have 20 bytes.) *)
Theorem registry_lookup_exact {C : Crypto} {L : CryptoLaws C} pair cfg xs c t t0 t1 p :
  Forall (fun x => Forall (token_pair pair) (op_pools x)) xs -> length t0 = 20%nat -> length t1 = 20%nat ->
  let r := fold_left reg_exec xs (NewPoolRegistry cfg) in
  (p ∈ GetPoolsForToken r c t <-> GetPool r c (dp_Address p) = Some p /\ HasToken p t = true) /\
  (p ∈ GetPoolsForPair r c t0 t1 <-> GetPool r c (dp_Address p) = Some p /\
     ((dp_Token0 p = t0 /\ dp_Token1 p = t1) \/ (dp_Token0 p = t1 /\ dp_Token1 p = t0))).
Proof.
  intros Hxs Ht0 Ht1 r. assert (Hr : registry_inv pair r) by (apply reg_run_inv; [apply new_registry_inv|done]).
  unfold GetPoolsForToken, GetPoolsForPair. rewrite !(elem_of_known pair r) by done. fold (idx (tokenPools r) c t). fold (idx (pairPools r) c (pairKey t0 t1)).
  assert (Hf : GetPool r c (dp_Address p) = Some p -> filed pair r c (dp_Address p) p) by (apply (inv_filed _ _ Hr)).
  unfold HasToken. rewrite orb_true_iff, !bytes_eqb_true. split; split.
  - intros (E & Ec & Ha). split; [done|]. apply (inv_token _ _ Hr) in Ha. apply Hf in E as (_ & _ & (Hp & _) & _).
    rewrite Ec in Hp. rewrite <- Hp in Ha. cbn in Ha. naive_solver.
  - intros (E & Ht). split; [done|]. apply Hf in E as (? & _ & _ & ? & ? & _). naive_solver.
  - intros (E & Ec & Ha). split; [done|]. apply (inv_pair _ _ Hr) in Ha. apply Hf in E as (_ & _ & (Hp & ? & ?) & _).
    rewrite Ec in Hp. rewrite <- Hp in Ha. cbn in Ha. apply pairKey_inj in Ha; try done. naive_solver.
  - intros (E & Ht). split; [done|]. apply Hf in E as (? & _ & _ & _ & _ & ?). split; [done|].
    destruct Ht as [[<- <-]|[<- <-]]; [done|]. by rewrite pairKey_comm.
Qed.

Definition ex_pair_pool : DiscoveredPool := boot 0 0 "B4e16d0168e52d35CaCD2c6185b44281Ec28C9Dc" 1 "uniswap_v2" USDC_MAINNET WETH_MAINNET 30 0 false.

(** Added, updated by a swap, pruned two days later, and added again. *)
Definition ex_reg_ops : list (reg_op * Z) :=
  [(OpAdd ex_pair_pool, 0);
   (OpSwap 1 (dp_Address ex_pair_pool) {| sc_TokenIn := []; sc_TokenOut := []; sc_AmountIn := Some 5; sc_AmountOut := Some 7; sc_Recipient := []; sc_IsV3 := false |}, 1);
   (OpPrune, 48 * hour); (OpAdd ex_pair_pool, 48 * hour)].

Lemma registry_lookup_exact_witness :
  let r := fold_left (@reg_exec Toy.crypto) ex_reg_ops (NewPoolRegistry None) in
  (ex_pair_pool ∈ GetPoolsForToken r 1 WETH_MAINNET <->
     GetPool r 1 (dp_Address ex_pair_pool) = Some ex_pair_pool /\ HasToken ex_pair_pool WETH_MAINNET = true) /\
  (ex_pair_pool ∈ @GetPoolsForPair Toy.crypto r 1 WETH_MAINNET USDC_MAINNET <->
     GetPool r 1 (dp_Address ex_pair_pool) = Some ex_pair_pool /\
     ((dp_Token0 ex_pair_pool = WETH_MAINNET /\ dp_Token1 ex_pair_pool = USDC_MAINNET) \/
      (dp_Token0 ex_pair_pool = USDC_MAINNET /\ dp_Token1 ex_pair_pool = WETH_MAINNET))).
Proof.
  apply (@registry_lookup_exact Toy.crypto Toy.laws (fun _ _ => (USDC_MAINNET, WETH_MAINNET)) None ex_reg_ops 1 WETH_MAINNET
           WETH_MAINNET USDC_MAINNET ex_pair_pool); [|reflexivity..].
  repeat constructor.
Defined.

(** A pruned pool that is added again is listed twice: pruning removes the pool but not its
    address in the indices. *)
Lemma readded_pool_twice :
  let r := fold_left (@reg_exec Toy.crypto) ex_reg_ops (NewPoolRegistry None) in
  map dp_Address (GetPoolsForToken r 1 WETH_MAINNET) = [dp_Address ex_pair_pool; dp_Address ex_pair_pool].
Proof. vm_compute. reflexivity. Qed.

(** Every bootstrap pool is registered, and the addresses of DAI differ between the tables:
    neither is valid hexadecimal. *)
Lemma bootstrap_pools_loaded :
  forallb (fun p => match GetPool (fst (@LoadBootstrapPools Toy.crypto (NewPoolRegistry None) 0)) (dp_ChainID p) (dp_Address p) with
                    | Some q => bytes_eqb (dp_Token0 q) (dp_Token0 p) && bytes_eqb (dp_Token1 q) (dp_Token1 p)
                    | None => false
                    end) (BootstrapPools 0 ++ TestnetBootstrapPools 0) = true /\
  hex_decode (bs "6B175474E89094C44Da98b954EescdeCB5cBF40") = None.
Proof. split; vm_compute; reflexivity. Qed.
