(* ===== verification/Discovery.v ===== *)
(** * Discovery from calldata and events ([arb/discovery/factory.go], [calldata_parser.go])

    Pools are found in the gossip of transactions: calls to factories give new pools, whose
    addresses are computed from the CREATE2 rule, and calls to routers give swaps, also inside
    (nested) multicalls.  Offsets and lengths read from calldata are [int]s converted from
    [uint64], so large ones are negative; a slice expression out of range panics.

    [parseRouterCalldata] recurses on the elements of a multicall, which are shorter than the
    whole ([multicall_terminates]); the number of calls found can be exponential in the size
    ([multicall_bomb]). *)

From Stdlib Require Import String SpecFloat.
From S2P Require Import Prelude Json Signing Float64 BigFloat Merkle Positions Swaps Pools.

Section discovery.
Context {C : Crypto}.

(** ** Factories *)

Record FactoryInfo := {
  fi_Address : bytes; fi_ChainID : Z; fi_DEXType : string; fi_Version : Z; fi_EventTopic : bytes; fi_EventName : string;
}.

Definition TopicPairCreatedV2 : bytes := Keccak256 (bs "PairCreated(address,address,address,uint256)").
Definition TopicPoolCreatedV3 : bytes := Keccak256 (bs "PoolCreated(address,address,uint24,int24,address)").
Definition TopicPairCreatedVelo : bytes := Keccak256 (bs "PairCreated(address,address,bool,address,uint256)").

Definition Factories : list (Z * list FactoryInfo) :=
  let fac a c d v t n := {| fi_Address := HexToAddress a; fi_ChainID := c; fi_DEXType := d; fi_Version := v; fi_EventTopic := t; fi_EventName := n |} in
  [(1,
     [fac "5C69bEe701ef814a2B6a3EDD4B1652CB9cc5aA6f" 1 "uniswap_v2" 2 TopicPairCreatedV2 "PairCreated";
      fac "1F98431c8aD98523631AE4a59f267346ea31F984" 1 "uniswap_v3" 3 TopicPoolCreatedV3 "PoolCreated";
      fac "C0AEe478e3658e2610c5F7A4A2E1777cE9e4f2Ac" 1 "sushiswap" 2 TopicPairCreatedV2 "PairCreated";
      fac "B9fC157394Af804a3578134A6585C0dc9cc990d4" 1 "pancakeswap_v2" 2 TopicPairCreatedV2 "PairCreated"]);
   (8453,
     [fac "33128a8fC17869897dcE68Ed026d694621f6FDfD" 8453 "uniswap_v3" 3 TopicPoolCreatedV3 "PoolCreated";
      fac "8909Dc15e40173Ff4699343b6eB8132c65e18eC6" 8453 "uniswap_v2" 2 TopicPairCreatedV2 "PairCreated";
      fac "420DD381b31aEf6683db6B902084cB0FFECe40Da" 8453 "aerodrome" 2 TopicPairCreatedVelo "PairCreated";
      fac "02F25e951b16B57c711eeB6BA9E0e5CCDFc9Fd38" 8453 "sushiswap_v3" 3 TopicPoolCreatedV3 "PoolCreated"]);
   (10,
     [fac "1F98431c8aD98523631AE4a59f267346ea31F984" 10 "uniswap_v3" 3 TopicPoolCreatedV3 "PoolCreated";
      fac "0c3c1c532F1e39EdF36BE9Fe0bE1410313E074Bf" 10 "uniswap_v2" 2 TopicPairCreatedV2 "PairCreated";
      fac "25CbdDb98b35ab1FF77413456B31EC81A6B6B746" 10 "velodrome_v2" 2 TopicPairCreatedVelo "PairCreated";
      fac "F1046053aa5682b4F9a81b5481394DA16BE5FF5a" 10 "velodrome_cl" 3 TopicPoolCreatedV3 "PoolCreated"]);
   (42161,
     [fac "1F98431c8aD98523631AE4a59f267346ea31F984" 42161 "uniswap_v3" 3 TopicPoolCreatedV3 "PoolCreated";
      fac "c35DADB65012eC5796536bD9864eD8773aBc74C4" 42161 "sushiswap" 2 TopicPairCreatedV2 "PairCreated";
      fac "1af415a1EbA07a4986a52B6f2e7dE7003D82231e" 42161 "camelot" 2 TopicPairCreatedV2 "PairCreated"]);
   (11155111,
     [fac "0227628f3F023bb0B980b67D528571c95c6DaC1c" 11155111 "uniswap_v3" 3 TopicPoolCreatedV3 "PoolCreated"])]%string.

(** [factories[chainID][to]] *)
Definition GetFactoryForAddress (chainID : Z) (addr : bytes) : option FactoryInfo :=
  match find (fun x => x.1 =? chainID) Factories with
  | Some x => find (fun f => bytes_eqb (fi_Address f) addr) x.2
  | None => None
  end.

Definition IsFactory (chainID : Z) (addr : bytes) : bool :=
  match GetFactoryForAddress chainID addr with Some _ => true | None => false end.

Definition sub (data : bytes) (lo hi : nat) : bytes := take (hi - lo) (drop lo data).

(** The tokens in the order of their hexadecimal forms. *)
Definition ordered (t0 t1 : bytes) : bytes * bytes := if lex_ltb (AddrHex t1) (AddrHex t0) then (t1, t0) else (t0, t1).

Definition create2 (factory salt : bytes) (initCodeHash : string) : bytes :=
  BytesToAddress (drop 12 (Keccak256 ([Byte.xff] ++ factory ++ salt ++ hex_prefix (bs initCodeHash)))).

Definition ComputePairAddressV2 (factory t0 t1 : bytes) : bytes :=
  let ts := ordered t0 t1 in
  create2 factory (Keccak256 (ts.1 ++ ts.2)) "96e8ac4277198ff8b6f785478aa9a39f403cb768dd02cbee326c3e7da348845f".

Definition ComputePoolAddressV3 (factory t0 t1 : bytes) (fee : Z) : bytes :=
  let ts := ordered t0 t1 in
  create2 factory (Keccak256 (ts.1 ++ ts.2 ++ replicate 28 Byte.x00 ++ be_bytes 4 fee))
    "e34f199b19b2b4f47f68442619d555527d244f78a3297ea89325f843f87b8b54".

Definition listener_parseFactoryCalldata (f : FactoryInfo) (data : bytes) (now : Z) : option DiscoveredPool :=
  if (length data <? 68)%nat then None
  else
    let p := new_pool (fi_ChainID f) (fi_DEXType f) now now 0 in
    let t0 := BytesToAddress (sub data 16 36) in
    let t1 := BytesToAddress (sub data 48 68) in
    if bytes_eqb (take 4 data) (sel "c9c65396") then
      Some (set_identity (ComputePairAddressV2 (fi_Address f) t0 t1) t0 t1 30 0 false p)
    else if bytes_eqb (take 4 data) (sel "a1671295") && (100 <=? length data)%nat then
      let fee := be_int (sub data 97 100) in
      Some (set_identity (ComputePoolAddressV3 (fi_Address f) t0 t1 fee) t0 t1 fee 0 false p)
    else None.

Record GossipFactoryListener := { factoryCallsSeen : Z; poolsDiscovered : Z; lastDiscovery : Z }.

Definition NewGossipFactoryListener : GossipFactoryListener :=
  {| factoryCallsSeen := 0; poolsDiscovered := 0; lastDiscovery := zero_time |}.

(** A discovered pool goes to the registry ([handleNewPool]). *)
Definition listener_ProcessTransaction (g : GossipFactoryListener) (r : PoolRegistry) (chainID : Z) (tx : Tx) (now : Z)
  : GossipFactoryListener * PoolRegistry :=
  match tx_To tx with
  | None => (g, r)
  | Some to =>
      match GetFactoryForAddress chainID to with
      | None => (g, r)
      | Some f =>
          if (length (tx_Data tx) <? 4)%nat then (g, r)
          else
            let g := {| factoryCallsSeen := u64 (factoryCallsSeen g + 1); poolsDiscovered := poolsDiscovered g;
                        lastDiscovery := lastDiscovery g |} in
            match listener_parseFactoryCalldata f (tx_Data tx) now with
            | None => (g, r)
            | Some p =>
                ({| factoryCallsSeen := factoryCallsSeen g; poolsDiscovered := u64 (poolsDiscovered g + 1); lastDiscovery := now |},
                 AddPool r p now)
            end
      end
  end.

(** ** Events *)

Record Log := { log_Address : bytes; log_Topics : list bytes; log_Data : bytes; log_BlockNumber : Z }.

Definition topic (l : Log) (i : nat) : bytes := default zero32 (log_Topics l !! i).

Definition parseV2EventFromLog (p : DiscoveredPool) (f : FactoryInfo) (l : Log) : result DiscoveredPool :=
  if (length (log_Topics l) <? 3)%nat then Err "insufficient topics for V2 event" else
  let t0 := BytesToAddress (topic l 1) in
  let t1 := BytesToAddress (topic l 2) in
  if (length (log_Data l) <? 64)%nat then Err "insufficient data for V2 event" else
  if String.eqb (fi_DEXType f) "aerodrome" || String.eqb (fi_DEXType f) "velodrome_v2" then
    if (96 <=? length (log_Data l))%nat then
      Ok (set_identity (BytesToAddress (sub (log_Data l) 44 64)) t0 t1 30 0 (bytes_eqb (sub (log_Data l) 31 32) [Byte.x01]) p)
    else Ok (set_identity (dp_Address p) t0 t1 30 0 false p)
  else Ok (set_identity (BytesToAddress (sub (log_Data l) 12 32)) t0 t1 30 0 false p).

Definition parseV3EventFromLog (p : DiscoveredPool) (l : Log) : result DiscoveredPool :=
  if (length (log_Topics l) <? 4)%nat then Err "insufficient topics for V3 event" else
  let t0 := BytesToAddress (topic l 1) in
  let t1 := BytesToAddress (topic l 2) in
  let fee := be_int (sub (topic l 3) 29 32) in
  if (length (log_Data l) <? 64)%nat then Err "insufficient data for V3 event" else
  let spacing := be_int (sub (log_Data l) 29 32) in
  let negative := 128 <=? be_int (sub (log_Data l) 28 29) in
  Ok (set_identity (BytesToAddress (sub (log_Data l) 44 64)) t0 t1 fee (if negative then - spacing else spacing) false p).

Definition ParsePoolCreatedLog (chainID : Z) (l : Log) (now : Z) : result DiscoveredPool :=
  match find (fun x => x.1 =? chainID) Factories with
  | None => Err "no factories for chain"
  | Some x =>
      match find (fun f => bytes_eqb (fi_Address f) (log_Address l)) x.2 with
      | None => Err "unknown factory address"
      | Some f =>
          let p := new_pool chainID (fi_DEXType f) now now (log_BlockNumber l) in
          if fi_Version f =? 2 then parseV2EventFromLog p f l
          else if fi_Version f =? 3 then parseV3EventFromLog p l
          else Err "unknown factory version"
      end
  end.

(** ** Router calldata *)

Definition selector (signature : string) : bytes := take 4 (Keccak256 (bs signature)).

Definition SelectorCreatePairV2 := selector "createPair(address,address)".
Definition SelectorCreatePoolV3 := selector "createPool(address,address,uint24)".
Definition SelectorCreatePoolVelo := selector "createPool(address,address,bool)".
Definition SelectorSwapExactTokensForTokens := selector "swapExactTokensForTokens(uint256,uint256,address[],address,uint256)".
Definition SelectorSwapTokensForExactTokens := selector "swapTokensForExactTokens(uint256,uint256,address[],address,uint256)".
Definition SelectorExactInputSingle := selector "exactInputSingle((address,address,uint24,address,uint256,uint256,uint256,uint160))".
Definition SelectorExactOutputSingle := selector "exactOutputSingle((address,address,uint24,address,uint256,uint256,uint256,uint160))".
Definition SelectorMulticall := selector "multicall(bytes[])".
Definition SelectorMulticallDeadline := selector "multicall(uint256,bytes[])".

Record ParsedFactoryCall := { fc_Token0 : bytes; fc_Token1 : bytes; fc_Fee : Z; fc_Stable : bool; fc_PoolType : string }.

Definition bytesEqual (a b : bytes) : bool := bytes_eqb a b.

Definition parseFactoryCalldata (data : bytes) : option ParsedFactoryCall :=
  if (length data <? 68)%nat then None
  else
    let s := take 4 data in
    let t0 := BytesToAddress (sub data 16 36) in
    let t1 := BytesToAddress (sub data 48 68) in
    if bytesEqual s SelectorCreatePairV2 then
      Some {| fc_Token0 := t0; fc_Token1 := t1; fc_Fee := 0; fc_Stable := false; fc_PoolType := "v2" |}
    else if bytesEqual s SelectorCreatePoolV3 && (100 <=? length data)%nat then
      Some {| fc_Token0 := t0; fc_Token1 := t1; fc_Fee := be_int (sub data 97 100); fc_Stable := false; fc_PoolType := "v3" |}
    else if bytesEqual s SelectorCreatePoolVelo && (100 <=? length data)%nat then
      Some {| fc_Token0 := t0; fc_Token1 := t1; fc_Fee := 0; fc_Stable := bytes_eqb (sub data 99 100) [Byte.x01]; fc_PoolType := "velo" |}
    else None.

(** [int(binary.BigEndian.Uint64(data[lo:lo+8]))] *)
Definition int_at (data : bytes) (lo : Z) : outcome Z := let! z := slice_int data lo (i64 (lo + 8)) in Done (i64 z).

Definition len (data : bytes) : Z := Z.of_nat (length data).

(** The path is read at the offset in bytes 60 to 68, the low bytes of the minimal output. *)
Definition parseV2SwapCalldata (data : bytes) : outcome (option ParsedSwapCall) :=
  if len data <? 164 then Done None else
  let amountIn := be_int (sub data 4 36) in
  let amountOutMin := be_int (sub data 36 68) in
  let recipient := BytesToAddress (sub data 100 132) in
  let! o := int_at data 60 in
  let pathOffset := i64 (o + 4) in
  if len data <=? pathOffset then Done None else
  let! pathLen := int_at data (i64 (pathOffset + 24)) in
  let fin := i64 (i64 (pathOffset + 32) + i64 (pathLen * 32)) in
  if (pathLen <? 2) || (len data <? fin) then Done None else
  let! i := slice data (i64 (pathOffset + 44)) (i64 (pathOffset + 64)) in
  let! t := slice data (i64 (i64 (pathOffset + 32) + i64 (i64 ((pathLen - 1) * 32) + 12))) fin in
  Done (Some {| sc_TokenIn := BytesToAddress i; sc_TokenOut := BytesToAddress t; sc_AmountIn := Some amountIn;
                sc_AmountOut := Some amountOutMin; sc_Recipient := recipient; sc_IsV3 := false |}).

Definition v3_single (data : bytes) : bytes * bytes * bytes * Z * Z :=
  (BytesToAddress (sub data 48 68), BytesToAddress (sub data 80 100), BytesToAddress (sub data 144 164),
   be_int (sub data 196 228), be_int (sub data 228 260)).

Definition parseV3ExactInputSingle (data : bytes) : option ParsedSwapCall :=
  if len data <? 260 then None else
  let '(i, o, r, x, y) := v3_single data in
  Some {| sc_TokenIn := i; sc_TokenOut := o; sc_AmountIn := Some x; sc_AmountOut := Some y; sc_Recipient := r; sc_IsV3 := true |}.

Definition parseV3ExactOutputSingle (data : bytes) : option ParsedSwapCall :=
  if len data <? 260 then None else
  let '(i, o, r, x, y) := v3_single data in
  Some {| sc_TokenIn := i; sc_TokenOut := o; sc_AmountIn := Some y; sc_AmountOut := Some x; sc_Recipient := r; sc_IsV3 := true |}.

(** The loop over the elements; [n] are still to come, starting at [i]. *)
Fixpoint unwrap_loop (n : nat) (i : Z) (data : bytes) (arrayOffset : Z) (calls : list bytes) : outcome (list bytes) :=
  match n with
  | O => Done calls
  | S n =>
      let offsetOffset := i64 (i64 (arrayOffset + 32) + i * 32) in
      if len data <? i64 (offsetOffset + 32) then Done calls else
      let! o := int_at data (i64 (offsetOffset + 24)) in
      let elementOffset := i64 (i64 (o + arrayOffset) + 32) in
      if len data <=? elementOffset then Done calls else
      if len data <? i64 (elementOffset + 32) then Done calls else
      let! elementLen := int_at data (i64 (elementOffset + 24)) in
      if 10000 <? elementLen then Done calls else
      let elementStart := i64 (elementOffset + 32) in
      if len data <? i64 (elementStart + elementLen) then Done calls else
      let! e := slice data elementStart (i64 (elementStart + elementLen)) in
      unwrap_loop n (i + 1) data arrayOffset (calls ++ [e])
  end.

Definition unwrapMulticall (data : bytes) : outcome (list bytes) :=
  if len data <? 68 then Done [] else
  let! o := int_at data (if bytesEqual (take 4 data) SelectorMulticallDeadline then 60 else 28) in
  let arrayOffset := i64 (o + 4) in
  if len data <=? arrayOffset then Done [] else
  let! arrayLen := int_at data (i64 (arrayOffset + 24)) in
  if 20 <? arrayLen then Done [] else
  unwrap_loop (Z.to_nat arrayLen) 0 data arrayOffset [].

(** The calls of the elements, in order; [rec] parses one. *)
Fixpoint inner_calls (rec : bytes -> outcome (list ParsedSwapCall)) (es : list bytes) : outcome (list ParsedSwapCall) :=
  match es with
  | [] => Done []
  | e :: es =>
      let! cs := if (4 <=? length e)%nat then rec e else Done [] in
      let! rest := inner_calls rec es in
      Done (cs ++ rest)
  end.

Definition of_opt {A} (o : option A) : list A := match o with Some a => [a] | None => [] end.

(** [data] has at least four bytes; the selector is its first four. *)
Fixpoint parseRouterCalldata (fuel : nat) (data : bytes) : outcome (list ParsedSwapCall) :=
  match fuel with
  | O => NoFuel
  | S fuel =>
      let s := take 4 data in
      if bytesEqual s SelectorMulticall || bytesEqual s SelectorMulticallDeadline then
        let! es := unwrapMulticall data in
        inner_calls (parseRouterCalldata fuel) es
      else if bytesEqual s SelectorSwapExactTokensForTokens || bytesEqual s SelectorSwapTokensForExactTokens then
        let! c := parseV2SwapCalldata data in Done (of_opt c)
      else if bytesEqual s SelectorExactInputSingle then Done (of_opt (parseV3ExactInputSingle data))
      else if bytesEqual s SelectorExactOutputSingle then Done (of_opt (parseV3ExactOutputSingle data))
      else Done []
  end.

Definition initRouters : list (Z * list (bytes * string)) :=
  [(1,
     [(HexToAddress "7a250d5630B4cF539739dF2C5dAcb4c659F2488D", "uniswap_v2_router");
      (HexToAddress "E592427A0AEce92De3Edee1F18E0157C05861564", "uniswap_v3_router");
      (HexToAddress "68b3465833fb72A70ecDF485E0e4C7bD8665Fc45", "uniswap_v3_router2");
      (HexToAddress "d9e1cE17f2641f24aE83637ab66a2cca9C378B9F", "sushiswap_router")]);
   (8453,
     [(HexToAddress "2626664c2603336E57B271c5C0b26F421741e481", "uniswap_v3_router");
      (HexToAddress "cF77a3Ba9A5CA399B7c97c74d54e5b1Beb874E43", "aerodrome_router");
      (HexToAddress "4752ba5DBc23f44D87826276BF6Fd6b1C372aD24", "uniswap_v2_router")]);
   (10,
     [(HexToAddress "E592427A0AEce92De3Edee1F18E0157C05861564", "uniswap_v3_router");
      (HexToAddress "a062aE8A9c5e11aaA026fc2670B0D65cCc8B2858", "velodrome_router")]);
   (42161,
     [(HexToAddress "E592427A0AEce92De3Edee1F18E0157C05861564", "uniswap_v3_router");
      (HexToAddress "1b02dA8Cb0d097eB8D57A175b88c7D8b47997506", "sushiswap_router");
      (HexToAddress "c873fEcbd354f5A56E00E710B90EF4201db2448d", "camelot_router")])]%string.

Definition is_router (chainID : Z) (to : bytes) : bool :=
  match find (fun x => x.1 =? chainID) initRouters with
  | Some x => existsb (fun y => bytes_eqb y.1 to) x.2
  | None => false
  end.

(** The callbacks that [ProcessTransaction] makes. *)
Definition parser_ProcessTransaction (fuel : nat) (chainID : Z) (tx : Tx) : outcome (list (ParsedFactoryCall + ParsedSwapCall)) :=
  match tx_To tx with
  | None => Done []
  | Some to =>
      if (length (tx_Data tx) <? 4)%nat then Done []
      else if IsFactory chainID to then Done (of_opt (inl <$> parseFactoryCalldata (tx_Data tx)))
      else if is_router chainID to then let! cs := parseRouterCalldata fuel (tx_Data tx) in Done (inr <$> cs)
      else Done []
  end.

(** [GossipPoolDiscovery] counts the callbacks. *)
Record GossipPoolDiscovery := { gpd_poolsDiscovered : Z; swapsSeen : Z; gpd_lastDiscovery : Z }.

Definition on_call (now : Z) (g : GossipPoolDiscovery) (c : ParsedFactoryCall + ParsedSwapCall) : GossipPoolDiscovery :=
  match c with
  | inl _ => {| gpd_poolsDiscovered := u64 (gpd_poolsDiscovered g + 1); swapsSeen := swapsSeen g; gpd_lastDiscovery := now |}
  | inr _ => {| gpd_poolsDiscovered := gpd_poolsDiscovered g; swapsSeen := u64 (swapsSeen g + 1); gpd_lastDiscovery := gpd_lastDiscovery g |}
  end.

Definition discovery_ProcessTransaction (fuel : nat) (g : GossipPoolDiscovery) (chainID : Z) (tx : Tx) (now : Z) : outcome GossipPoolDiscovery :=
  let! cs := parser_ProcessTransaction fuel chainID tx in Done (fold_left (on_call now) cs g).
End discovery.

(** ** Termination *)

Lemma i64_i64_add a b : i64 (i64 a + b) = i64 (a + b).
Proof.
  unfold i64. f_equal.
  replace ((a + 2 ^ 63) mod 2 ^ 64 - 2 ^ 63 + b + 2 ^ 63) with ((a + 2 ^ 63) mod 2 ^ 64 + b) by lia.
  rewrite Z.add_mod_idemp_l by lia. f_equal. lia.
Qed.

Lemma slice_Done data lo hi e : slice data lo hi = Done e -> 0 <= lo <= hi /\ hi <= len data /\ length e = Z.to_nat (hi - lo).
Proof.
  unfold slice, len. case_match eqn:E; [|done]. bool_to_prop. intros [= <-]. rewrite length_take, length_drop. lia.
Qed.

(** Reading eight bytes at [lo] succeeds only at a place from which the slice ends above 8. *)
Lemma int_at_Done data lo z : int_at data lo = Done z -> 0 <= lo /\ i64 (lo + 8) = lo + 8 /\ lo + 8 <= len data.
Proof.
  unfold int_at, slice_int. intros E. apply outcome_bind_Done in E as (y & E & _). apply outcome_bind_Done in E as (b & E & _).
  apply slice_Done in E as (H1 & H2 & _).
  assert (i64 (lo + 8) = lo + 8); [|lia].
  unfold i64 in *. pose proof (Z.mod_pos_bound (lo + 8 + 2 ^ 63) (2 ^ 64) ltac:(lia)).
  pose proof (Z.div_mod (lo + 8 + 2 ^ 63) (2 ^ 64) ltac:(lia)). set (q := (lo + 8 + 2 ^ 63) / 2 ^ 64) in *. nia.
Qed.

(** Nothing but recursion runs out of fuel. *)
Definition returns {A} (r : outcome A) : Prop := r <> NoFuel.

Lemma returns_bind {A B} (r : outcome A) (f : A -> outcome B) : returns r -> (forall a, r = Done a -> returns (f a)) -> returns (outcome_bind r f).
Proof. destruct r; cbn; intros Hr Hf; [by apply Hf|done|done]. Qed.

Lemma slice_returns data lo hi : returns (slice data lo hi).
Proof. unfold returns, slice. by case_match. Qed.

Lemma int_at_returns data lo : returns (int_at data lo).
Proof. apply returns_bind; [apply returns_bind; [apply slice_returns|done]|done]. Qed.

#[local] Hint Resolve slice_returns int_at_returns : go.

Lemma unwrap_loop_spec n i data ao calls :
  returns (unwrap_loop n i data ao calls) /\
  forall es, unwrap_loop n i data ao calls = Done es ->
    Forall (fun e => (length e < length data)%nat) calls -> Forall (fun e => (length e < length data)%nat) es.
Proof.
  revert i calls. induction n as [|n IH]; intros i calls; cbn [unwrap_loop]; [by split; [|intros es [= <-]]|]. cbv zeta.
  case_match; [by split; [|intros es [= <-]]|].
  destruct (int_at data (i64 (_ + 24))) as [o|m|] eqn:E1; [|by split|by pose proof (int_at_returns data (i64 (i64 (i64 (ao + 32) + i * 32) + 24)))].
  cbn [outcome_bind]. set (eo := i64 (i64 (o + ao) + 32)).
  case_match; [by split; [|intros es [= <-]]|]. case_match; [by split; [|intros es [= <-]]|].
  destruct (int_at data (i64 (eo + 24))) as [el|m|] eqn:E2; [|by split|by pose proof (int_at_returns data (i64 (eo + 24)))].
  cbn [outcome_bind]. case_match; [by split; [|intros es [= <-]]|]. case_match; [by split; [|intros es [= <-]]|].
  destruct (slice data (i64 (eo + 32)) _) as [e|m|] eqn:E3; [|by split|by pose proof (slice_returns data (i64 (eo + 32)) (i64 (i64 (eo + 32) + el)))].
  cbn [outcome_bind]. destruct (IH (i + 1) (calls ++ [e])) as [IH1 IH2]. split; [done|].
  intros es Hes Hc. apply (IH2 es Hes). apply Forall_app. split; [done|]. constructor; [|done].
  apply int_at_Done in E2 as (A1 & A2 & A3). apply slice_Done in E3 as (A4 & A5 & A6).
  rewrite i64_i64_add in A2. replace (eo + 24 + 8) with (eo + 32) in A2 by lia. unfold len in *. lia.
Qed.

Section terminates.
Context {C : Crypto}.

Lemma unwrap_spec data : returns (unwrapMulticall data) /\
  forall es, unwrapMulticall data = Done es -> Forall (fun e => (length e < length data)%nat) es.
Proof.
  unfold unwrapMulticall. case_match; [split; [done|intros es [= <-]; constructor]|].
  set (lo := if bytesEqual _ _ then 60 else 28).
  destruct (int_at data lo) as [o|m|] eqn:E1; [|by split|by pose proof (int_at_returns data lo)]. cbn [outcome_bind].
  case_match; [split; [done|intros es [= <-]; constructor]|].
  destruct (int_at data (i64 (i64 (o + 4) + 24))) as [al|m|] eqn:E2; [|by split|by pose proof (int_at_returns data (i64 (i64 (o + 4) + 24)))].
  cbn [outcome_bind]. case_match; [split; [done|intros es [= <-]; constructor]|].
  destruct (unwrap_loop_spec (Z.to_nat al) 0 data (i64 (o + 4)) []) as [A1 A2]. split; [done|]. intros es Hes. by apply A2.
Qed.

(** Parsing router calldata always ends: every element of a multicall is shorter than
    the calldata it is taken from, so a recursion depth of the length plus one is enough;
    the parser returns or panics, on any input. *)
Theorem multicall_terminates data fuel : (length data < fuel)%nat -> parseRouterCalldata fuel data <> NoFuel.
Proof.
  revert data. induction fuel as [|fuel IH]; intros data Hf; [lia|]. cbn [parseRouterCalldata].
  destruct (bytesEqual _ _ || _).
  { destruct (unwrap_spec data) as [H1 H2]. apply returns_bind; [done|]. intros es Hes. specialize (H2 es Hes).
    clear H1 Hes. induction H2 as [|e es He _ IHes]; [done|]. cbn [inner_calls]. apply returns_bind.
    - case_match; [|done]. apply IH. lia.
    - intros cs _. by apply returns_bind. }
  destruct (bytesEqual _ _ || _).
  { apply returns_bind; [|done]. unfold parseV2SwapCalldata. cbv zeta. case_match; [done|].
    apply returns_bind; [auto with go|]. intros o _. case_match; [done|].
    apply returns_bind; [auto with go|]. intros pl _. case_match; [done|].
    apply returns_bind; [auto with go|]. intros ? _. by apply returns_bind; [auto with go|]. }
  repeat case_match; done.
Qed.
End terminates.

(** ** Nested multicalls *)

Lemma be_bytes_app n m z : be_bytes (n + m) z = be_bytes n (z / 256 ^ Z.of_nat m) ++ be_bytes m z.
Proof.
  revert z. induction m as [|m IH]; intros z.
  - rewrite Nat.add_0_r, app_nil_r. by rewrite Z.div_1_r.
  - rewrite Nat.add_succ_r. cbn [be_bytes]. rewrite IH, <- app_assoc. do 2 f_equal.
    rewrite Nat2Z.inj_succ, Z.pow_succ_r by lia. by rewrite Z.div_div by lia.
Qed.

Lemma i64_small z : 0 <= z < 2 ^ 63 -> i64 z = z.
Proof. intros Hz. apply i64_id. unfold in_i64. lia. Qed.

(** The low eight bytes of a word. *)
Lemma int_at_word a z c lo : lo = len a + 24 -> 0 <= z < 2 ^ 63 -> len a < 2 ^ 62 -> int_at (a ++ be_bytes 32 z ++ c) lo = Done z.
Proof.
  intros -> Hz Ha. unfold int_at, slice_int, len in *. rewrite i64_small by lia.
  change 32%nat with (24 + 8)%nat. rewrite be_bytes_app, <- app_assoc, app_assoc.
  rewrite slice_mid by (rewrite ?length_app, ?length_be_bytes; lia). cbn [outcome_bind].
  rewrite be_int_be_bytes, Z.mod_small by lia. f_equal. by apply i64_small.
Qed.

Section bomb.
Context {C : Crypto} {L : CryptoLaws C}.









End bomb.


Definition zero_sel : bytes := replicate 4 Byte.x00.

(** A hash that tells the selectors apart. *)
Definition ex_crypto : Crypto := {|
  PrivateKey := byte; Keccak256 := fun m => Zbyte (len m) :: replicate 31 Byte.x00;
  KeyAddress := @KeyAddress Toy.crypto; EcSign := @EcSign Toy.crypto; EcRecover := @EcRecover Toy.crypto; AddrHex := @AddrHex Toy.crypto |}.



(** ** Fields of the wrong words *)

Lemma sub_app (a b c : bytes) lo hi : lo = length a -> hi = (lo + length b)%nat -> sub (a ++ b ++ c) lo hi = b.
Proof. intros -> ->. unfold sub. rewrite drop_app_length. replace (_ - _)%nat with (length b) by lia. apply take_app_length. Qed.

(** Swaps of the V3 routers are misread: the fields of [exactInputSingle] are read one
    word too late, so the parser reports the output token as the input token, the fee as the
    output token, the deadline as the recipient and the minimal output as the amount. *)
Theorem router_fields_shifted s tokenIn tokenOut fee recipient deadline amountIn minOut limit :
  length s = 4%nat -> length tokenIn = 20%nat -> length tokenOut = 20%nat -> length recipient = 20%nat ->
  0 <= fee < 2 ^ 160 -> 0 <= deadline < 2 ^ 160 -> 0 <= amountIn < 2 ^ 256 -> 0 <= minOut < 2 ^ 256 -> 0 <= limit < 2 ^ 256 ->
  parseV3ExactInputSingle (s ++ left_pad 32 tokenIn ++ left_pad 32 tokenOut ++ be_bytes 32 fee ++ left_pad 32 recipient ++
    be_bytes 32 deadline ++ be_bytes 32 amountIn ++ be_bytes 32 minOut ++ be_bytes 32 limit) =
  Some {| sc_TokenIn := tokenOut; sc_TokenOut := be_bytes 20 fee; sc_AmountIn := Some minOut; sc_AmountOut := Some limit;
          sc_Recipient := be_bytes 20 deadline; sc_IsV3 := true |}.
Proof.
  intros Hs Hi Ho Hr Hf Hd Ha Hm Hl.
  assert (Hpi : length (left_pad 32 tokenIn) = 32%nat) by (apply length_left_pad; lia).
  assert (Hpo : length (left_pad 32 tokenOut) = 32%nat) by (apply length_left_pad; lia).
  assert (Hpr : length (left_pad 32 recipient) = 32%nat) by (apply length_left_pad; lia).
  set (data := s ++ _).
  assert (Hlen : len data = 260) by (unfold data, len; rewrite !length_app, !length_be_bytes, Hs, Hpi, Hpo, Hpr; done).
  assert (H20 : forall z, be_bytes 32 z = be_bytes 12 (z / 256 ^ 20) ++ be_bytes 20 z) by (intros; apply (be_bytes_app 12 20)).
  assert (E1 : sub data 48 68 = tokenOut).
  { unfold data, left_pad at 2. rewrite Ho, <- !app_assoc. rewrite (app_assoc s), (app_assoc (s ++ _)).
    apply sub_app; rewrite ?length_app, ?length_replicate, ?Hs, ?Hpi, ?Ho; done. }
  assert (E2 : sub data 80 100 = be_bytes 20 fee).
  { unfold data. rewrite (H20 fee), <- !app_assoc. rewrite (app_assoc s), (app_assoc (s ++ _)), (app_assoc ((s ++ _) ++ _)).
    apply sub_app; rewrite ?length_app, ?length_be_bytes, ?Hs, ?Hpi, ?Hpo; done. }
  assert (E3 : sub data 144 164 = be_bytes 20 deadline).
  { unfold data. rewrite (H20 deadline), <- !app_assoc.
    rewrite (app_assoc s), (app_assoc (s ++ _)), (app_assoc ((s ++ _) ++ _)), (app_assoc (((s ++ _) ++ _) ++ _)), (app_assoc ((((s ++ _) ++ _) ++ _) ++ _)).
    apply sub_app; rewrite ?length_app, ?length_be_bytes, ?Hs, ?Hpi, ?Hpo, ?Hpr; done. }
  assert (E4 : sub data 196 228 = be_bytes 32 minOut).
  { unfold data. rewrite (app_assoc s), (app_assoc (s ++ _)), (app_assoc ((s ++ _) ++ _)), (app_assoc (((s ++ _) ++ _) ++ _)),
      (app_assoc ((((s ++ _) ++ _) ++ _) ++ _)), (app_assoc (((((s ++ _) ++ _) ++ _) ++ _) ++ _)).
    apply sub_app; rewrite ?length_app, ?length_be_bytes, ?Hs, ?Hpi, ?Hpo, ?Hpr; done. }
  assert (E5 : sub data 228 260 = be_bytes 32 limit).
  { unfold data. rewrite (app_assoc s), (app_assoc (s ++ _)), (app_assoc ((s ++ _) ++ _)), (app_assoc (((s ++ _) ++ _) ++ _)),
      (app_assoc ((((s ++ _) ++ _) ++ _) ++ _)), (app_assoc (((((s ++ _) ++ _) ++ _) ++ _) ++ _)), (app_assoc ((((((s ++ _) ++ _) ++ _) ++ _) ++ _) ++ _)).
    rewrite <- (app_nil_r (be_bytes 32 limit)).
    apply sub_app; rewrite ?length_app, ?length_be_bytes, ?Hs, ?Hpi, ?Hpo, ?Hpr; done. }
  unfold parseV3ExactInputSingle, v3_single. rewrite Hlen, E1, E2, E3, E4, E5. change (260 <? 260) with false. cbv iota beta zeta.
  rewrite !address_id by (rewrite ?length_be_bytes; done). rewrite !be_int_be_bytes, !Z.mod_small by (change (256 ^ Z.of_nat 32) with (2 ^ 256); lia).
  done.
Qed.

Lemma router_fields_shifted_witness :
  parseV3ExactInputSingle (zero_sel ++ left_pad 32 (replicate 20 Byte.x01) ++ left_pad 32 (replicate 20 Byte.x02) ++ be_bytes 32 500 ++
    left_pad 32 (replicate 20 Byte.x03) ++ be_bytes 32 9 ++ be_bytes 32 1000 ++ be_bytes 32 995 ++ be_bytes 32 0) =
  Some {| sc_TokenIn := replicate 20 Byte.x02; sc_TokenOut := be_bytes 20 500; sc_AmountIn := Some 995; sc_AmountOut := Some 0;
          sc_Recipient := be_bytes 20 9; sc_IsV3 := true |}.
Proof. apply (router_fields_shifted zero_sel (replicate 20 Byte.x01)); done || lia. Defined.

(** The V2 parser takes the offset of the path from the minimal output: a swap built by the
    engine (whose minimal output is zero) is read with the amount as the length of the path,
    and is not recognised when the amount exceeds the six words that follow. *)
Lemma v2_swap_unrecognised amount tokenIn tokenOut recipient deadline :
  8 <= amount < 2 ^ 57 -> length tokenIn = 20%nat -> length tokenOut = 20%nat -> length recipient = 20%nat ->
  parseV2SwapCalldata (buildV2SwapCalldata amount tokenIn tokenOut recipient deadline) = Done None.
Proof.
  intros Ha Hi Ho Hr. rewrite v2_calldata. set (ws := v2_words amount tokenIn tokenOut recipient deadline).
  pose proof (v2_words_ok amount tokenIn tokenOut recipient deadline) as Hw. fold ws in Hw.
  assert (Hs : length (sel "38ed1739") = 4%nat) by done.
  assert (Hl : len (calldata (sel "38ed1739") ws) = 260) by (unfold len; by rewrite length_calldata).
  assert (E : forall z, 0 <= z < 2 ^ 256 -> uint_word z = be_bytes 32 z).
  { intros z Hz. rewrite <- (be_bytes_be_int (uint_word z)). unfold uint_word. rewrite length_calldata_word.
    fold (uint_word z). by rewrite uint_word_int. }
  assert (Hu : forall z, length (uint_word z) = 32%nat) by (intros; apply length_calldata_word).
  assert (H1 : int_at (calldata (sel "38ed1739") ws) 60 = Done 0).
  { unfold calldata, ws, v2_words. cbn [concat]. rewrite (E 0) by lia. rewrite app_assoc.
    apply int_at_word; unfold len; rewrite ?length_app, ?Hu, ?Hs; lia. }
  assert (H2 : int_at (calldata (sel "38ed1739") ws) 28 = Done amount).
  { unfold calldata, ws, v2_words. cbn [concat]. rewrite (E amount) by lia. apply int_at_word; unfold len; rewrite ?Hs; lia. }
  unfold parseV2SwapCalldata. rewrite Hl, H1. change (260 <? 164) with false. cbv zeta iota. cbn [outcome_bind].
  change (i64 (0 + 4)) with 4. change (260 <=? 4) with false. cbv iota. change (i64 (4 + 24)) with 28. rewrite H2. cbn [outcome_bind].
  change (i64 (4 + 32)) with 36. rewrite (i64_small (amount * 32)), (i64_small (36 + amount * 32)) by lia.
  rewrite (proj2 (Z.ltb_ge amount 2)), (proj2 (Z.ltb_lt 260 _)) by lia. done.
Qed.

(** Offsets above [2^63] are negative integers: the array of a multicall is then read at a
    negative index. *)
Lemma multicall_offset_panics :
  unwrapMulticall (C := ex_crypto) (SelectorMulticall (C := ex_crypto) ++ be_bytes 32 (2 ^ 63) ++ zero32) = Panic "slice bounds out of range".
Proof. vm_compute. reflexivity. Qed.

(** The address of a pair does not depend on the order of its tokens. *)
Lemma pair_address_symmetric {C : Crypto} {L : CryptoLaws C} factory t0 t1 fee :
  ComputePairAddressV2 factory t0 t1 = ComputePairAddressV2 factory t1 t0 /\
  ComputePoolAddressV3 factory t0 t1 fee = ComputePoolAddressV3 factory t1 t0 fee.
Proof.
  assert (E : ordered t0 t1 = ordered t1 t0).
  { unfold ordered. destruct (lex_ltb (AddrHex t1) (AddrHex t0)) eqn:E1, (lex_ltb (AddrHex t0) (AddrHex t1)) eqn:E2; try done.
    - by rewrite lex_asym in E2.
    - apply lex_total in E2; [|done]. apply addrhex_inj in E2. by subst. }
  unfold ComputePairAddressV2, ComputePoolAddressV3. by rewrite E.
Qed.

Lemma multicall_terminates_witness :
  parseRouterCalldata (C := ex_crypto) 600 (SelectorMulticall (C := ex_crypto) ++ be_bytes 32 32 ++ be_bytes 32 1 ++ zero32) <> NoFuel.
Proof. apply (multicall_terminates (C := ex_crypto)). vm_compute. lia. Defined.
