(* ===== verification/TokenGraph.v ===== *)
(** * The token graph ([arb/graph])

    Tokens are nodes and pools are edges between them.  An edge object is shared by the lists
    of its two tokens and by the index of pools, and [UpdateEdge] changes it in place; the model
    has a store of edge objects and lists of references.  [math.Log] is a parameter.

    Contents: the weights and amounts of edges, the simulation of a path and the search for a
    trade size, and the graph itself.  The theorems: the three views of an edge agree in every
    reachable graph ([graph_views_agree]), [HasPath] decides bounded reachability
    ([has_path_correct]), and a reported trade size yields its reported profit
    ([optimal_amount_sound]). *)

From Stdlib Require Import String SpecFloat Sorted.
From stdpp Require Import sorting.
From S2P Require Import Prelude Signing Float64 BigFloat Positions Swaps Amm Pools.

(** ** Nodes and edges *)

Record TokenNode := {
  tn_Address : bytes; tn_ChainID : Z; tn_Symbol : string; tn_Decimals : Z; tn_IsStable : bool; tn_IsNative : bool;
  tn_IsBluechip : bool; tn_BridgedTo : gmap Z bytes; tn_EdgeCount : Z; tn_Importance : float64;
}.

Record PoolEdge := {
  pe_Pool : bytes; pe_ChainID : Z; pe_DEX : string; pe_Token0 : bytes; pe_Token1 : bytes;
  Weight01 : float64; Weight10 : float64; Reserve0 : option Z; Reserve1 : option Z;
  MaxAmount01 : option Z; MaxAmount10 : option Z; pe_Fee : Z; pe_TickSpacing : Z; pe_Liquidity : option Z;
  pe_LastUpdate : Z; pe_TotalScore : float64;
}.

Definition GetWeight (e : PoolEdge) (tokenIn : bytes) : float64 := if bytes_eqb tokenIn (pe_Token0 e) then Weight01 e else Weight10 e.
Definition GetMaxAmount (e : PoolEdge) (tokenIn : bytes) : option Z :=
  if bytes_eqb tokenIn (pe_Token0 e) then MaxAmount01 e else MaxAmount10 e.
Definition GetTokenOut (e : PoolEdge) (tokenIn : bytes) : bytes := if bytes_eqb tokenIn (pe_Token0 e) then pe_Token1 e else pe_Token0 e.
Definition GetReserveIn (e : PoolEdge) (tokenIn : bytes) : option Z := if bytes_eqb tokenIn (pe_Token0 e) then Reserve0 e else Reserve1 e.
Definition GetReserveOut (e : PoolEdge) (tokenIn : bytes) : option Z := if bytes_eqb tokenIn (pe_Token0 e) then Reserve1 e else Reserve0 e.

Record CrossChainEdge := {
  cc_Token : bytes; cc_SourceChain : Z; cc_DestChain : Z; cc_SourceAddress : bytes; cc_DestAddress : bytes;
  cc_BridgeProtocol : string; cc_BridgeFee : float64; cc_BridgeTime : Z; cc_IsEnabled : bool;
}.

Record PathNode := { pn_Token : bytes; pn_ChainID : Z; pn_Edge : option PoolEdge }.
Record GraphPath := { gp_Nodes : list PathNode; gp_TotalWeight : float64; gp_IsCycle : bool }.

Definition StartToken (p : GraphPath) : bytes := match gp_Nodes p with [] => zero20 | n :: _ => pn_Token n end.
Definition EndToken (p : GraphPath) : bytes := match last (gp_Nodes p) with None => zero20 | Some n => pn_Token n end.
Definition path_Length (p : GraphPath) : Z := match gp_Nodes p with [] => 0 | l => Z.of_nat (length l) - 1 end.
Definition IsArbitrage (p : GraphPath) : bool := gp_IsCycle p && fltb (gp_TotalWeight p) f0.
Definition GetEdges (p : GraphPath) : outcome (list PoolEdge) :=
  match gp_Nodes p with
  | [] => Panic "makeslice: cap out of range"
  | _ :: t => Done (omap pn_Edge t)
  end.

Record GraphConfig := {
  EnabledChains : list Z; MinPoolScore : float64; gc_MinLiquidityUSD : float64; MaxEdgesPerNode : Z; EnableCrossChain : bool;
  CrossChainBridges : list CrossChainEdge; RebuildInterval : Z;
}.

Definition DefaultGraphConfig : GraphConfig :=
  {| EnabledChains := [1; 8453; 10; 42161]; MinPoolScore := f_ratio 1 100; gc_MinLiquidityUSD := f_of_Z 1000; MaxEdgesPerNode := 100;
     EnableCrossChain := true; CrossChainBridges := []; RebuildInterval := 30 * 10 ^ 9 |}.

Definition BluechipTokens : list (Z * list bytes) :=
  [(1, [HexToAddress "C02aaA39b223FE8D0A0e5C4F27eAD9083C756Cc2"; HexToAddress "A0b86991c6218b36c1d19D4a2e9Eb0cE3606eB48";
        HexToAddress "dAC17F958D2ee523a2206206994597C13D831ec7"; HexToAddress "6B175474E89094C44Da98b954EescdeCB5BE3830";
        HexToAddress "2260FAC5E5542a773Aa44fBCfeDf7C193bc2C599"]);
   (8453, [HexToAddress "4200000000000000000000000000000000000006"; HexToAddress "833589fCD6eDb6E08f4c7C32D4f71b54bdA02913";
           HexToAddress "d9aAEc86B65D86f6A7B5B1b0c42FFA531710b6CA"; HexToAddress "50c5725949A6F0c72E6C4a641F24049A917DB0Cb"]);
   (10, [HexToAddress "4200000000000000000000000000000000000006"; HexToAddress "0b2C639c533813f4Aa9D7837CAf62653d097Ff85";
         HexToAddress "94b008aA00579c1307B0EF2c499aD98a8ce58e58"; HexToAddress "DA10009cBd5D07dd0CeCc66161FC93D7c9000da1"]);
   (42161, [HexToAddress "82aF49447D8a07e3bd95BD0d56f35241523fBab1"; HexToAddress "af88d065e77c8cC2239327C5EDb3A432268e5831";
            HexToAddress "Fd086bC7CD5C481DCC9C85ebE478A1C0b69FCbb9"; HexToAddress "DA10009cBd5D07dd0CeCc66161FC93D7c9000da1";
            HexToAddress "2f2a2543B76A4166549F7aaB2e75Bef0aefC5B0f"])].

Definition StableTokens : list (Z * list bytes) :=
  [(1, [HexToAddress "A0b86991c6218b36c1d19D4a2e9Eb0cE3606eB48"; HexToAddress "dAC17F958D2ee523a2206206994597C13D831ec7";
        HexToAddress "6B175474E89094C44Da98b954EedescdeCB5BE3830"; HexToAddress "4Fabb145d64652a948d72533023f6E7A623C7C53";
        HexToAddress "853d955aCEf822Db058eb8505911ED77F175b99e"]);
   (8453, [HexToAddress "833589fCD6eDb6E08f4c7C32D4f71b54bdA02913"; HexToAddress "d9aAEc86B65D86f6A7B5B1b0c42FFA531710b6CA";
           HexToAddress "50c5725949A6F0c72E6C4a641F24049A917DB0Cb"]);
   (10, [HexToAddress "0b2C639c533813f4Aa9D7837CAf62653d097Ff85"; HexToAddress "94b008aA00579c1307B0EF2c499aD98a8ce58e58";
         HexToAddress "DA10009cBd5D07dd0CeCc66161FC93D7c9000da1"]);
   (42161, [HexToAddress "af88d065e77c8cC2239327C5EDb3A432268e5831"; HexToAddress "Fd086bC7CD5C481DCC9C85ebE478A1C0b69FCbb9";
            HexToAddress "DA10009cBd5D07dd0CeCc66161FC93D7c9000da1"])].

Definition listed (table : list (Z * list bytes)) (chainID : Z) (token : bytes) : bool :=
  match find (fun x => x.1 =? chainID) table with Some x => existsb (bytes_eqb token) x.2 | None => false end.

Definition IsBluechip : Z -> bytes -> bool := listed BluechipTokens.
Definition IsStable : Z -> bytes -> bool := listed StableTokens.

(** ** Weights and amounts *)

Definition InfiniteWeight : float64 := f_of_Z (10 ^ 18).
Definition MinReserve : float64 := f_ratio 1 (10 ^ 18).

Definition set_weights (w01 w10 : float64) (m01 m10 : option Z) (e : PoolEdge) : PoolEdge :=
  {| pe_Pool := pe_Pool e; pe_ChainID := pe_ChainID e; pe_DEX := pe_DEX e; pe_Token0 := pe_Token0 e; pe_Token1 := pe_Token1 e;
     Weight01 := w01; Weight10 := w10; Reserve0 := Reserve0 e; Reserve1 := Reserve1 e; MaxAmount01 := m01; MaxAmount10 := m10;
     pe_Fee := pe_Fee e; pe_TickSpacing := pe_TickSpacing e; pe_Liquidity := pe_Liquidity e; pe_LastUpdate := pe_LastUpdate e;
     pe_TotalScore := pe_TotalScore e |}.

Section weights.
Context (Log : float64 -> float64).

Definition weight_of (rate : float64) : float64 := if fltb MinReserve rate then SFopp (Log rate) else InfiniteWeight.

Definition CalculateEdgeWeights (e : PoolEdge) : PoolEdge :=
  match Reserve0 e, Reserve1 e with
  | Some r0, Some r1 =>
      if (r0 =? 0) || (r1 =? 0) then set_weights InfiniteWeight InfiniteWeight (MaxAmount01 e) (MaxAmount10 e) e
      else
        let r0f := f_of_Z r0 in
        let r1f := f_of_Z r1 in
        let feeFactor := fsub f1 (fdiv (f_of_Z (pe_Fee e)) (f_of_Z 10000)) in
        set_weights (weight_of (fmul (fdiv r1f r0f) feeFactor)) (weight_of (fmul (fdiv r0f r1f) feeFactor)) (MaxAmount01 e) (MaxAmount10 e) e
  | _, _ => set_weights InfiniteWeight InfiniteWeight (MaxAmount01 e) (MaxAmount10 e) e
  end.
End weights.

(** Two percent of the reserve. *)
Definition max_amount (reserve : Z) : option Z :=
  match (let! c := bf_NewFloat (f_ratio 2 100) in bf_Mul 0 (bf_SetInt reserve) c) with
  | Done x => bf_Int x
  | _ => None
  end.

Definition CalculateMaxAmounts (e : PoolEdge) : PoolEdge :=
  match Reserve0 e, Reserve1 e with
  | Some r0, Some r1 => set_weights (Weight01 e) (Weight10 e) (max_amount r0) (max_amount r1) e
  | _, _ => set_weights (Weight01 e) (Weight10 e) (Some 0) (Some 0) e
  end.

Definition edge_GetAmountOut (e : PoolEdge) (tokenIn : bytes) (amountIn : option Z) : outcome Z :=
  match amountIn with
  | None => Done 0
  | Some a =>
      if a <=? 0 then Done 0 else
      match GetReserveIn e tokenIn, GetReserveOut e tokenIn with
      | Some ri, Some ro =>
          if (ri =? 0) || (ro =? 0) then Done 0 else
          let amountInWithFee := a * (10000 - pe_Fee e) in
          big_div (amountInWithFee * ro) (ri * 10000 + amountInWithFee)
      | _, _ => Done 0
      end
  end.

Definition edge_GetAmountIn (e : PoolEdge) (tokenOut : bytes) (amountOut : option Z) : outcome (option Z) :=
  match amountOut with
  | None => Done (Some 0)
  | Some o =>
      if o <=? 0 then Done (Some 0) else
      let tokenIn := GetTokenOut e tokenOut in
      match GetReserveIn e tokenIn, GetReserveOut e tokenIn with
      | Some ri, Some ro =>
          if (ri =? 0) || (ro <=? o) then Done None else
          let denominator := (ro - o) * (10000 - pe_Fee e) in
          if denominator =? 0 then Done None else
          let! q := big_div (ri * o * 10000) denominator in
          Done (Some (q + 1))
      | _, _ => Done None
      end
  end.

Definition CalculatePriceImpact (e : PoolEdge) (tokenIn : bytes) (amountIn : option Z) : outcome Z :=
  match amountIn with
  | None => Done 0
  | Some a =>
      if a <=? 0 then Done 0 else
      match GetReserveIn e tokenIn with
      | None => Done 10000
      | Some ri =>
          if ri =? 0 then Done 10000 else
          let! impact := bf_Quo 0 (bf_SetInt a) (bf_SetInt ri) in
          let! c := bf_NewFloat (f_of_Z 10000) in
          let! impact := bf_Mul (bf_prec impact) impact c in
          Done (bf_Int64 impact)
      end
  end.

(** The loop over the nodes after the first; [prev] is the token before. *)
Fixpoint simulate_loop (prev : bytes) (nodes : list PathNode) (amount fees : Z) : outcome (Z * Z * bool) :=
  match nodes with
  | [] => Done (amount, fees, true)
  | n :: rest =>
      match pn_Edge n with
      | None => Done (0, 0, false)
      | Some e =>
          if match GetMaxAmount e prev with Some m => m <? amount | None => false end then Done (amount, fees, false) else
          let! out := edge_GetAmountOut e prev (Some amount) in
          if out =? 0 then Done (0, 0, false) else
          let! fee := big_div (amount * pe_Fee e) 10000 in
          simulate_loop (pn_Token n) rest out (fees + fee)
      end
  end.

Definition SimulatePathExecution (p : GraphPath) (startAmount : Z) : outcome (Z * Z * bool) :=
  match gp_Nodes p with
  | n :: ((_ :: _) as rest) => simulate_loop (pn_Token n) rest startAmount 0
  | _ => Done (0, 0, false)
  end.

Fixpoint optimal_loop (n : nat) (p : GraphPath) (low high amount profit : Z) : outcome (Z * Z) :=
  match n with
  | O => Done (amount, profit)
  | S n =>
      if low <? high then
        let! mid := big_div (low + high) 2 in
        let! r := SimulatePathExecution p mid in
        if negb r.2 then optimal_loop n p low (mid - 1) amount profit
        else
          let gain := r.1.1 - mid in
          if profit <? gain then optimal_loop n p (mid + 1) high mid gain
          else optimal_loop n p low (mid - 1) amount profit
      else Done (amount, profit)
  end.

Definition FindOptimalAmount (p : GraphPath) (minAmount maxAmount : Z) : outcome (Z * Z) :=
  if maxAmount <=? minAmount then Done (minAmount, 0) else optimal_loop 50 p minAmount maxAmount minAmount 0.

(** ** The graph *)

Record GraphStats := { NodeCount : Z; EdgeCount : Z; NodesByChain : gmap Z Z; EdgesByChain : gmap Z Z; EdgesByDEX : gmap string Z;
  BluechipCount : Z; CrossChainCount : Z; LastRebuild : Z }.

Definition empty_stats : GraphStats := {| NodeCount := 0; EdgeCount := 0; NodesByChain := ∅; EdgesByChain := ∅; EdgesByDEX := ∅;
  BluechipCount := 0; CrossChainCount := 0; LastRebuild := zero_time |}.

Record TokenGraph := {
  Nodes : gmap Z (gmap bytes TokenNode);
  Edges : gmap Z (gmap bytes (list nat));
  PoolEdges : gmap Z (gmap bytes nat);
  edge_store : gmap nat PoolEdge;
  next_edge : nat;
  CrossChainEdges : gmap bytes (list CrossChainEdge);
  g_config : GraphConfig;
  g_stats : GraphStats;
}.

Definition upd {A} (m : gmap Z (gmap bytes A)) (c : Z) (k : bytes) (a : A) : gmap Z (gmap bytes A) := <[c := <[k := a]> (at_chain m c)]> m.

Definition with_nodes (g : TokenGraph) (ns : gmap Z (gmap bytes TokenNode)) (s : GraphStats) : TokenGraph :=
  {| Nodes := ns; Edges := Edges g; PoolEdges := PoolEdges g; edge_store := edge_store g; next_edge := next_edge g;
     CrossChainEdges := CrossChainEdges g; g_config := g_config g; g_stats := s |}.

Definition new_node (chainID : Z) (token : bytes) : TokenNode :=
  {| tn_Address := token; tn_ChainID := chainID; tn_Symbol := ""; tn_Decimals := 0; tn_IsStable := IsStable chainID token; tn_IsNative := false;
     tn_IsBluechip := IsBluechip chainID token; tn_BridgedTo := ∅; tn_EdgeCount := 0; tn_Importance := f0 |}.

Definition getOrCreateNodeLocked (g : TokenGraph) (chainID : Z) (token : bytes) : TokenGraph :=
  match at_chain (Nodes g) chainID !! token with
  | Some _ => g
  | None =>
      let n := new_node chainID token in
      let s := g_stats g in
      with_nodes g (upd (Nodes g) chainID token n)
        {| NodeCount := NodeCount s + 1; EdgeCount := EdgeCount s; NodesByChain := count 1 chainID (NodesByChain s);
           EdgesByChain := EdgesByChain s; EdgesByDEX := EdgesByDEX s;
           BluechipCount := BluechipCount s + (if tn_IsBluechip n then 1 else 0); CrossChainCount := CrossChainCount s; LastRebuild := LastRebuild s |}
  end.

Definition bump (n : TokenNode) : TokenNode :=
  {| tn_Address := tn_Address n; tn_ChainID := tn_ChainID n; tn_Symbol := tn_Symbol n; tn_Decimals := tn_Decimals n; tn_IsStable := tn_IsStable n;
     tn_IsNative := tn_IsNative n; tn_IsBluechip := tn_IsBluechip n; tn_BridgedTo := tn_BridgedTo n; tn_EdgeCount := tn_EdgeCount n + 1;
     tn_Importance := tn_Importance n |}.

Definition bridge (c : Z) (a : bytes) (n : TokenNode) : TokenNode :=
  {| tn_Address := tn_Address n; tn_ChainID := tn_ChainID n; tn_Symbol := tn_Symbol n; tn_Decimals := tn_Decimals n; tn_IsStable := tn_IsStable n;
     tn_IsNative := tn_IsNative n; tn_IsBluechip := tn_IsBluechip n; tn_BridgedTo := <[c := a]> (tn_BridgedTo n); tn_EdgeCount := tn_EdgeCount n;
     tn_Importance := tn_Importance n |}.

(** Change a node that exists. *)
Definition alter_node (f : TokenNode -> TokenNode) (c : Z) (t : bytes) (m : gmap Z (gmap bytes TokenNode)) : gmap Z (gmap bytes TokenNode) :=
  match at_chain m c !! t with Some n => upd m c t (f n) | None => m end.

Definition push_edge (m : gmap Z (gmap bytes (list nat))) (c : Z) (t : bytes) (i : nat) : gmap Z (gmap bytes (list nat)) :=
  upd m c t (default [] (at_chain m c !! t) ++ [i]).

Section graph.
Context (Log : float64 -> float64).

Definition priced (e : PoolEdge) : PoolEdge := CalculateMaxAmounts (CalculateEdgeWeights Log e).

Definition edge_of_pool (p : DiscoveredPool) : PoolEdge :=
  priced {| pe_Pool := dp_Address p; pe_ChainID := dp_ChainID p; pe_DEX := dp_DEXType p; pe_Token0 := dp_Token0 p; pe_Token1 := dp_Token1 p;
            Weight01 := f0; Weight10 := f0; Reserve0 := dp_Reserve0 p; Reserve1 := dp_Reserve1 p; MaxAmount01 := None; MaxAmount10 := None;
            pe_Fee := dp_Fee p; pe_TickSpacing := dp_TickSpacing p; pe_Liquidity := dp_Liquidity p; pe_LastUpdate := dp_LastUpdated p;
            pe_TotalScore := dp_TotalScore p |}.

Definition addPoolEdgeLocked (g : TokenGraph) (p : DiscoveredPool) : TokenGraph :=
  let c := dp_ChainID p in
  let g := getOrCreateNodeLocked g c (dp_Token0 p) in
  let g := getOrCreateNodeLocked g c (dp_Token1 p) in
  let i := next_edge g in
  let s := g_stats g in
  {| Nodes := alter_node bump c (dp_Token1 p) (alter_node bump c (dp_Token0 p) (Nodes g));
     Edges := push_edge (push_edge (Edges g) c (dp_Token0 p) i) c (dp_Token1 p) i;
     PoolEdges := upd (PoolEdges g) c (dp_Address p) i;
     edge_store := <[i := edge_of_pool p]> (edge_store g);
     next_edge := S i; CrossChainEdges := CrossChainEdges g; g_config := g_config g;
     g_stats := {| NodeCount := NodeCount s; EdgeCount := EdgeCount s + 1; NodesByChain := NodesByChain s;
                   EdgesByChain := count 1 c (EdgesByChain s); EdgesByDEX := count 1 (dp_DEXType p) (EdgesByDEX s);
                   BluechipCount := BluechipCount s; CrossChainCount := CrossChainCount s; LastRebuild := LastRebuild s |} |}.

(** [listing] is what [GetAllPools] returns for each chain. *)
Definition Build (g : TokenGraph) (listing : Z -> list DiscoveredPool) (now : Z) : TokenGraph :=
  let g0 := {| Nodes := ∅; Edges := ∅; PoolEdges := ∅; edge_store := edge_store g; next_edge := next_edge g;
               CrossChainEdges := CrossChainEdges g; g_config := g_config g; g_stats := empty_stats |} in
  let ps := c ← EnabledChains (g_config g); List.filter (fun p => negb (fltb (dp_TotalScore p) (MinPoolScore (g_config g)))) (listing c) in
  let g1 := fold_left addPoolEdgeLocked ps g0 in
  let s := g_stats g1 in
  with_nodes g1 (Nodes g1)
    {| NodeCount := NodeCount s; EdgeCount := EdgeCount s; NodesByChain := NodesByChain s; EdgesByChain := EdgesByChain s;
       EdgesByDEX := EdgesByDEX s; BluechipCount := BluechipCount s; CrossChainCount := CrossChainCount s; LastRebuild := now |}.

Definition AddCrossChainEdge (g : TokenGraph) (x : CrossChainEdge) : TokenGraph :=
  let s := g_stats g in
  {| Nodes := alter_node (bridge (cc_SourceChain x) (cc_SourceAddress x)) (cc_DestChain x) (cc_DestAddress x)
                (alter_node (bridge (cc_DestChain x) (cc_DestAddress x)) (cc_SourceChain x) (cc_SourceAddress x) (Nodes g));
     Edges := Edges g; PoolEdges := PoolEdges g; edge_store := edge_store g; next_edge := next_edge g;
     CrossChainEdges := <[cc_Token x := default [] (CrossChainEdges g !! cc_Token x) ++ [x]]> (CrossChainEdges g);
     g_config := g_config g;
     g_stats := {| NodeCount := NodeCount s; EdgeCount := EdgeCount s; NodesByChain := NodesByChain s; EdgesByChain := EdgesByChain s;
                   EdgesByDEX := EdgesByDEX s; BluechipCount := BluechipCount s; CrossChainCount := CrossChainCount s + 1;
                   LastRebuild := LastRebuild s |} |}.

Definition NewTokenGraph (c : option GraphConfig) : TokenGraph :=
  let c := default DefaultGraphConfig c in
  fold_left AddCrossChainEdge (CrossChainBridges c)
    {| Nodes := ∅; Edges := ∅; PoolEdges := ∅; edge_store := ∅; next_edge := 0; CrossChainEdges := ∅; g_config := c; g_stats := empty_stats |}.

(** [UpdateEdge] changes the shared object. *)
Definition UpdateEdge (g : TokenGraph) (p : DiscoveredPool) : TokenGraph :=
  match at_chain (PoolEdges g) (dp_ChainID p) !! dp_Address p with
  | None => g
  | Some i =>
      let f e := priced {| pe_Pool := pe_Pool e; pe_ChainID := pe_ChainID e; pe_DEX := pe_DEX e; pe_Token0 := pe_Token0 e; pe_Token1 := pe_Token1 e;
                           Weight01 := Weight01 e; Weight10 := Weight10 e; Reserve0 := dp_Reserve0 p; Reserve1 := dp_Reserve1 p;
                           MaxAmount01 := MaxAmount01 e; MaxAmount10 := MaxAmount10 e; pe_Fee := pe_Fee e; pe_TickSpacing := pe_TickSpacing e;
                           pe_Liquidity := dp_Liquidity p; pe_LastUpdate := dp_LastUpdated p; pe_TotalScore := dp_TotalScore p |} in
      {| Nodes := Nodes g; Edges := Edges g; PoolEdges := PoolEdges g; edge_store := alter f i (edge_store g); next_edge := next_edge g;
         CrossChainEdges := CrossChainEdges g; g_config := g_config g; g_stats := g_stats g |}
  end.
End graph.

Definition GetNode (g : TokenGraph) (c : Z) (t : bytes) : option TokenNode := at_chain (Nodes g) c !! t.
Definition GetEdge (g : TokenGraph) (c : Z) (pool : bytes) : option PoolEdge := at_chain (PoolEdges g) c !! pool ≫= fun i => edge_store g !! i.
Definition GetNeighbors (g : TokenGraph) (c : Z) (t : bytes) : list PoolEdge :=
  omap (fun i => edge_store g !! i) (default [] (at_chain (Edges g) c !! t)).

Fixpoint distinct (seen : gset bytes) (l : list bytes) : list bytes :=
  match l with
  | [] => []
  | t :: l => if bool_decide (t ∈ seen) then distinct seen l else t :: distinct ({[t]} ∪ seen) l
  end.

Definition GetNeighborTokens (g : TokenGraph) (c : Z) (t : bytes) : list bytes := distinct ∅ ((fun e => GetTokenOut e t) <$> GetNeighbors g c t).

Definition GetEdgesBetween (g : TokenGraph) (c : Z) (t0 t1 : bytes) : list PoolEdge :=
  List.filter (fun e => bytes_eqb (GetTokenOut e t0) t1) (GetNeighbors g c t0).

Definition GetBestEdgeBetween (g : TokenGraph) (c : Z) (tokenIn tokenOut : bytes) : option PoolEdge :=
  match GetEdgesBetween g c tokenIn tokenOut with
  | [] => None
  | e :: es => Some (fold_left (fun best e => if fltb (GetWeight e tokenIn) (GetWeight best tokenIn) then e else best) es e)
  end.

Definition GetAllNodes (g : TokenGraph) (c : Z) : list TokenNode := (map_to_list (at_chain (Nodes g) c)).*2.
Definition GetBluechipNodes (g : TokenGraph) (c : Z) : list TokenNode := List.filter tn_IsBluechip (GetAllNodes g c).
Definition GetCrossChainEdges (g : TokenGraph) (t : bytes) : list CrossChainEdge := default [] (CrossChainEdges g !! t).
Definition GetChainIDs (g : TokenGraph) : list Z := (map_to_list (Nodes g)).*1.
Definition GetTokensOnChain (g : TokenGraph) (c : Z) : list bytes := (map_to_list (at_chain (Nodes g) c)).*1.

Record GraphPoolInfo := { gpi_Address : bytes; gpi_Token0 : bytes; gpi_Token1 : bytes; gpi_Reserve0 : option Z; gpi_Reserve1 : option Z;
  gpi_Fee : Z; gpi_DEX : string }.

Definition info_of (e : PoolEdge) : GraphPoolInfo :=
  {| gpi_Address := pe_Pool e; gpi_Token0 := pe_Token0 e; gpi_Token1 := pe_Token1 e; gpi_Reserve0 := Reserve0 e; gpi_Reserve1 := Reserve1 e;
     gpi_Fee := pe_Fee e; gpi_DEX := pe_DEX e |}.

Definition GetPoolsOnChain (g : TokenGraph) (c : Z) : list GraphPoolInfo :=
  info_of <$> omap (fun i => edge_store g !! i) (map_to_list (at_chain (PoolEdges g) c)).*2.

Definition FindPool (g : TokenGraph) (tokenIn tokenOut : bytes) (c : Z) : option GraphPoolInfo :=
  match GetEdgesBetween g c tokenIn tokenOut with [] => None | e :: _ => Some (info_of e) end.

(** ** Bounded reachability *)

Definition successors (g : TokenGraph) (c : Z) (t : bytes) : list bytes := (fun e => GetTokenOut e t) <$> GetNeighbors g c t.

(** One round dequeues an entry; a token is expanded once. *)
Fixpoint path_loop (fuel : nat) (succ : bytes -> list bytes) (to : bytes) (maxHops : Z) (queue : list (bytes * Z)) (visited : gset bytes)
  : outcome bool :=
  match fuel with
  | O => NoFuel
  | S fuel =>
      match queue with
      | [] => Done false
      | (t, d) :: queue =>
          if maxHops <=? d then path_loop fuel succ to maxHops queue visited
          else if bool_decide (t ∈ visited) then path_loop fuel succ to maxHops queue visited
          else
            let visited := {[t]} ∪ visited in
            if existsb (fun n => bytes_eqb n to) (succ t) then Done true
            else
              let fresh := List.filter (fun n => negb (bool_decide (n ∈ visited))) (succ t) in
              path_loop fuel succ to maxHops (queue ++ ((fun n => (n, d + 1)) <$> fresh)) visited
      end
  end.

Definition HasPath (fuel : nat) (g : TokenGraph) (c : Z) (from to : bytes) (maxHops : Z) : outcome bool :=
  if bytes_eqb from to then Done true else path_loop fuel (successors g c) to maxHops [(from, 0)] ∅.

(** A walk of [n] steps. *)
Inductive walk (succ : bytes -> list bytes) (t : bytes) : nat -> bytes -> Prop :=
| walk_refl : walk succ t 0 t
| walk_step n u v : walk succ t n u -> v ∈ succ u -> walk succ t (S n) v.

Section bfs.
Context (succ : bytes -> list bytes) (from to : bytes) (maxHops : Z).

(** The invariant of the search; [D] is the depth at which a visited token was expanded. *)
Record bfs_inv (q : list (bytes * Z)) (D : gmap bytes Z) : Prop := {
  bi_walk : forall t d, (t, d) ∈ q -> exists n, d = Z.of_nat n /\ walk succ from n t;
  bi_sorted : StronglySorted (fun x y => x.2 <= y.2 <= x.2 + 1) q;
  bi_above : forall t d u e, D !! t = Some d -> (u, e) ∈ q -> d <= e;
  bi_start : 0 < maxHops -> (exists e, D !! from = Some e /\ e <= 0) \/ (from, 0) ∈ q;
  bi_succ : forall t d v, D !! t = Some d -> v ∈ succ t -> d + 1 < maxHops ->
    (exists e, D !! v = Some e /\ e <= d + 1) \/ (exists e, (v, e) ∈ q /\ e <= d + 1);
  bi_not_to : forall t d, D !! t = Some d -> to ∉ succ t;
}.

(** Dropping an entry that is too deep, or whose token was expanded before. *)
Lemma bfs_drop t d q D : bfs_inv ((t, d) :: q) D -> maxHops <= d \/ is_Some (D !! t) -> bfs_inv q D.
Proof.
  intros [H1 H2 H3 H4 H5 H6] Hd. split; try done.
  - intros u e Hu. apply H1. by right.
  - by inversion H2.
  - intros u du v e Hu Hv. apply (H3 u du v e Hu). by right.
  - intros Hm. destruct (H4 Hm) as [?|[E|?]%elem_of_cons]; [by left| |by right].
    injection E as <- <-. destruct Hd as [?|[e He]]; [lia|]. left. exists e. split; [done|]. eapply H3; [done|by left].
  - intros u du v Hu Hv Hlt. destruct (H5 u du v Hu Hv Hlt) as [?|(e & [E|?]%elem_of_cons & He)]; [by left| |by right; exists e].
    injection E as -> ->. destruct Hd as [?|[e He']]; [lia|]. left. exists e. split; [done|].
    pose proof (H3 t e t d He' ltac:(by left)). lia.
Qed.

(** Expanding a token. *)
Lemma bfs_expand t d q D fresh : bfs_inv ((t, d) :: q) D -> D !! t = None -> to ∉ succ t ->
  fresh = List.filter (fun n => negb (bool_decide (n ∈ dom (<[t := d]> D)))) (succ t) ->
  bfs_inv (q ++ ((fun n => (n, d + 1)) <$> fresh)) (<[t := d]> D).
Proof.
  intros [H1 H2 H3 H4 H5 H6] Ht Hto ->. set (D' := <[t := d]> D).
  assert (Hq : Forall (fun y => d <= y.2 <= d + 1) q) by (inversion H2; by subst).
  assert (Hfresh : forall v, v ∈ succ t -> (exists e, D' !! v = Some e) \/ (v, d + 1) ∈ (fun n => (n, d + 1)) <$> List.filter (fun n => negb (bool_decide (n ∈ dom D'))) (succ t)).
  { intros v Hv. destruct (D' !! v) as [e|] eqn:E; [by left; exists e|right].
    apply list_elem_of_fmap. exists v. split; [done|]. apply list_elem_of_In, filter_In. split; [by apply list_elem_of_In|].
    rewrite bool_decide_eq_false_2; [done|]. by apply not_elem_of_dom. }
  assert (Hdepth : forall u e, D' !! u = Some e -> e <= d).
  { intros u e. unfold D'. destruct (decide (u = t)) as [->|]; [rewrite lookup_insert_eq; intros [= <-]; lia|].
    rewrite lookup_insert_ne by done. intros Hu. eapply H3; [done|by left]. }
  assert (Hnew : forall u e, (u, e) ∈ q ++ ((fun n => (n, d + 1)) <$> List.filter (fun n => negb (bool_decide (n ∈ dom D'))) (succ t)) ->
    d <= e /\ ((u, e) ∈ q \/ (e = d + 1 /\ u ∈ succ t))).
  { intros u e [Hu|Hu]%elem_of_app.
    - rewrite Forall_forall in Hq. split; [apply (Hq _ Hu)|by left].
    - apply list_elem_of_fmap in Hu as (v & [= -> ->] & Hv). split; [lia|]. right. split; [done|].
      apply list_elem_of_In, filter_In in Hv as [Hv _]. by apply list_elem_of_In. }
  split.
  - intros u e [_ [Hu|[-> Hu]]]%Hnew; [apply H1; by right|].
    destruct (H1 t d ltac:(by left)) as (n & -> & Hw). exists (S n). split; [lia|]. by eapply walk_step.
  - inversion H2 as [|? ? Hs Hall]; subst. apply StronglySorted_app_2; [|done|].
    + intros x y Hx Hy. apply list_elem_of_fmap in Hy as (v & -> & _). rewrite Forall_forall in Hq. specialize (Hq x Hx). cbn. lia.
    + clear. induction (List.filter _ _) as [|v l IH]; [constructor|]. cbn. constructor; [done|].
      apply Forall_forall. intros y (w & -> & _)%list_elem_of_fmap. cbn. lia.
  - intros u du v e Hu%Hdepth [Hv _]%Hnew. lia.
  - intros Hm. destruct (H4 Hm) as [(e & He & Hle)|[E|?]%elem_of_cons].
    + left. exists e. unfold D'. rewrite lookup_insert_ne; [done|]. by intros ->; rewrite He in Ht.
    + injection E as <- <-. left. exists 0. unfold D'. by rewrite lookup_insert_eq.
    + right. apply elem_of_app. by left.
  - intros u du v Hu Hv Hlt. destruct (decide (u = t)) as [->|Hne].
    + assert (du = d) as -> by (unfold D' in Hu; rewrite lookup_insert_eq in Hu; congruence).
      destruct (Hfresh v Hv) as [[e He]|Hf]; [left; exists e; split; [done|]; apply Hdepth in He; lia|].
      right. exists (d + 1). split; [|lia]. apply elem_of_app. by right.
    + unfold D' in Hu. rewrite lookup_insert_ne in Hu by done.
      destruct (H5 u du v Hu Hv Hlt) as [(e & He & Hle)|(e & [E|Hq']%elem_of_cons & Hle)].
      * left. exists e. unfold D'. rewrite lookup_insert_ne; [done|]. by intros ->; rewrite He in Ht.
      * injection E as -> ->. left. exists d. unfold D'. by rewrite lookup_insert_eq.
      * right. exists e. split; [|done]. apply elem_of_app. by left.
  - intros u du Hu. destruct (decide (u = t)) as [->|]; [done|]. unfold D' in Hu. rewrite lookup_insert_ne in Hu by done. by eapply H6.
Qed.

(** When the queue is empty, everything nearer than the bound has been expanded. *)
Lemma bfs_exhausted D n t : bfs_inv [] D -> walk succ from n t -> Z.of_nat n < maxHops -> exists e, D !! t = Some e /\ e <= Z.of_nat n.
Proof.
  intros [_ _ _ H4 H5 _] Hw. induction Hw as [|n u v Hw IH Hv]; intros Hn.
  - destruct (H4 ltac:(lia)) as [?|?%elem_of_nil]; [done|done].
  - destruct (IH ltac:(lia)) as (e & He & Hle).
    destruct (H5 u e v He Hv ltac:(lia)) as [(e' & He' & Hle')|(? & ?%elem_of_nil & _)]; [exists e'; split; [done|lia]|done].
Qed.

(** Every token with a successor is among [verts]; [left V] counts the successors that are
    still to be enqueued. *)
Context (verts : list bytes).

Fixpoint left_over (l : list bytes) (V : gset bytes) : nat :=
  match l with
  | [] => 0
  | u :: l => (if bool_decide (u ∈ V) then 0 else length (succ u)) + left_over l V
  end%nat.

Lemma left_expand l t V : NoDup l -> t ∉ V ->
  (left_over l ({[t]} ∪ V) + (if bool_decide (t ∈ l) then length (succ t) else 0) = left_over l V)%nat.
Proof.
  intros Hl Ht. induction Hl as [|u l Hu Hl IH]; [done|]. cbn [left_over]. rewrite <- IH. clear IH.
  destruct (decide (u = t)) as [->|Hne].
  - rewrite (bool_decide_eq_true_2 (t ∈ {[t]} ∪ V)), (bool_decide_eq_false_2 (t ∈ V)), (bool_decide_eq_true_2 (t ∈ t :: l)),
      (bool_decide_eq_false_2 (t ∈ l)) by set_solver. lia.
  - rewrite (bool_decide_ext (u ∈ {[t]} ∪ V) (u ∈ V)), (bool_decide_ext (t ∈ u :: l) (t ∈ l)) by set_solver. lia.
Qed.

Lemma path_loop_correct fuel q D : NoDup verts -> (forall t, succ t <> [] -> t ∈ verts) -> from <> to ->
  bfs_inv q D -> (length q + left_over verts (dom D) < fuel)%nat ->
  exists b, path_loop fuel succ to maxHops q (dom D) = Done b /\
    (b = true <-> exists n, Z.of_nat n <= maxHops /\ walk succ from n to).
Proof.
  intros Hnd Hcov Hne. revert q D. induction fuel as [|fuel IH]; intros q D Hinv Hf; [lia|]. cbn [path_loop].
  destruct q as [|[t d] q].
  - exists false. split; [done|]. split; [done|]. intros (n & Hn & Hw). exfalso. inversion Hw as [|m u ? Hu Hin]; subst; [done|].
    destruct (bfs_exhausted D m u Hinv Hu ltac:(lia)) as (e & He & _). by apply (bi_not_to _ _ Hinv u e He).
  - cbn [length] in Hf. destruct (Z.leb_spec maxHops d) as [Hd|Hd].
    { apply IH; [by eapply bfs_drop; eauto|lia]. }
    destruct (D !! t) as [e|] eqn:Et.
    { rewrite bool_decide_eq_true_2 by (by apply elem_of_dom_2 in Et). apply IH; [|lia]. by eapply bfs_drop; eauto. }
    rewrite bool_decide_eq_false_2 by (by apply not_elem_of_dom). cbv zeta.
    destruct (existsb (fun n => bytes_eqb n to) (succ t)) eqn:Eto.
    { exists true. split; [done|]. split; [intros _|done]. apply existsb_exists in Eto as (v & Hv & ->%bytes_eqb_true).
      destruct (bi_walk _ _ Hinv t d ltac:(by left)) as (n & -> & Hw). exists (S n). split; [lia|].
      eapply walk_step; [done|]. by apply list_elem_of_In. }
    rewrite <- (dom_insert_L D t d). apply IH.
    + apply bfs_expand; try done. intros Hin. apply not_true_iff_false in Eto. apply Eto, existsb_exists. exists to.
      split; [by apply list_elem_of_In|apply bytes_eqb_refl].
    + rewrite length_app, length_fmap. rewrite dom_insert_L. set (V := dom D) in *.
      assert (Ht : t ∉ V) by (by apply not_elem_of_dom). pose proof (left_expand verts t V Hnd Ht) as Hle.
      pose proof (filter_length_le (fun n => negb (bool_decide (n ∈ {[t]} ∪ V))) (succ t)) as Hlen.
      case_bool_decide as Hin; [lia|]. destruct (succ t) as [|v l] eqn:Es; [cbn in *; lia|]. exfalso. apply Hin, Hcov. by rewrite Es.
Qed.
End bfs.

Lemma start_inv succ from to maxHops : from <> to -> bfs_inv succ from to maxHops [(from, 0)] ∅.
Proof.
  intros Hne. split; try (intros *; rewrite lookup_empty; done).
  - intros t d [= -> ->]%list_elem_of_singleton. exists 0%nat. split; [done|constructor].
  - repeat constructor.
  - intros _. right. by left.
Qed.

(** The tokens that have edges, and how many entries their lists have. *)
Definition edge_tokens (g : TokenGraph) (c : Z) : list bytes := (map_to_list (at_chain (Edges g) c)).*1.
Definition path_fuel (g : TokenGraph) (c : Z) : nat := 2 + left_over (successors g c) (edge_tokens g c) ∅.

(** C21: [HasPath] decides bounded reachability: it returns after at most one round per
    entry of the edge lists, plus two, and answers whether there is a walk of at most
    [maxHops] edges between the tokens (of no edges when they are equal). *)
Theorem has_path_correct g c from to maxHops fuel : (path_fuel g c <= fuel)%nat ->
  exists b, HasPath fuel g c from to maxHops = Done b /\
    (b = true <-> from = to \/ exists n, Z.of_nat n <= maxHops /\ walk (successors g c) from n to).
Proof.
  intros Hf. unfold HasPath. destruct (bytes_eqb from to) eqn:E; bool_to_prop; [exists true; split; [done|]; tauto|].
  destruct (path_loop_correct (successors g c) from to maxHops (edge_tokens g c) fuel [(from, 0)] ∅) as (b & Hb & Hiff).
  - apply NoDup_fst_map_to_list.
  - intros t Ht. apply list_elem_of_fmap. unfold successors, GetNeighbors in Ht.
    destruct (at_chain (Edges g) c !! t) as [l|] eqn:El; [|done]. exists (t, l). split; [done|]. by apply elem_of_map_to_list.
  - done.
  - by apply start_inv.
  - rewrite dom_empty_L. unfold path_fuel in Hf. cbn [length]. lia.
  - rewrite dom_empty_L in Hb. exists b. split; [done|]. rewrite Hiff. naive_solver.
Qed.

(** ** The views of an edge agree *)

Definition refs (g : TokenGraph) (c : Z) (t : bytes) : list nat := default [] (at_chain (Edges g) c !! t).

Record graph_inv (g : TokenGraph) : Prop := {
  gi_pool : forall c a i, at_chain (PoolEdges g) c !! a = Some i -> exists e, edge_store g !! i = Some e /\
    pe_Pool e = a /\ pe_ChainID e = c /\ i ∈ refs g c (pe_Token0 e) /\ i ∈ refs g c (pe_Token1 e);
  gi_ref : forall c t i, i ∈ refs g c t -> exists e, edge_store g !! i = Some e /\ (pe_Token0 e = t \/ pe_Token1 e = t) /\
    at_chain (PoolEdges g) c !! pe_Pool e = Some i;
  gi_fresh : forall i, is_Some (edge_store g !! i) -> (i < next_edge g)%nat;
  gi_node : forall c t, default 0 (tn_EdgeCount <$> GetNode g c t) = Z.of_nat (length (refs g c t));
}.

Lemma upd_lookup {A} (m : gmap Z (gmap bytes A)) c k a c' k' :
  at_chain (upd m c k a) c' !! k' = if decide (c = c' /\ k = k') then Some a else at_chain m c' !! k'.
Proof.
  unfold upd. rewrite at_chain_insert. destruct (decide (c = c')) as [->|].
  - destruct (decide (k = k')) as [->|]; [rewrite decide_True by done; apply lookup_insert_eq|].
    rewrite decide_False by naive_solver. by apply lookup_insert_ne.
  - by rewrite decide_False by naive_solver.
Qed.

Lemma push_lookup m c t i c' t' :
  default [] (at_chain (push_edge m c t i) c' !! t') = default [] (at_chain m c' !! t') ++ (if decide (c = c' /\ t = t') then [i] else []).
Proof.
  unfold push_edge. rewrite upd_lookup. case_decide as E; [destruct E as [<- <-]; done|by rewrite app_nil_r].
Qed.

Lemma node_created g c t c' t' : GetNode (getOrCreateNodeLocked g c t) c' t' =
  if decide (c = c' /\ t = t') then Some (default (new_node c t) (GetNode g c t)) else GetNode g c' t'.
Proof.
  unfold getOrCreateNodeLocked, GetNode. destruct (at_chain (Nodes g) c !! t) as [n|] eqn:E.
  - case_decide as E'; [destruct E' as [<- <-]; by rewrite E|done].
  - cbn [Nodes with_nodes]. by rewrite upd_lookup.
Qed.

Lemma alter_node_lookup f c t m c' t' : at_chain (alter_node f c t m) c' !! t' =
  if decide (c = c' /\ t = t') then f <$> at_chain m c !! t else at_chain m c' !! t'.
Proof.
  unfold alter_node. destruct (at_chain m c !! t) as [n|] eqn:E.
  - by rewrite upd_lookup.
  - case_decide as E'; [destruct E' as [<- <-]; by rewrite E|done].
Qed.

Lemma alter_node_count f c t m c' t' : (forall n, tn_EdgeCount (f n) = tn_EdgeCount n) ->
  tn_EdgeCount <$> at_chain (alter_node f c t m) c' !! t' = tn_EdgeCount <$> at_chain m c' !! t'.
Proof.
  intros Hf. rewrite alter_node_lookup. case_decide as E; [|done]. destruct E as [<- <-].
  destruct (at_chain m c !! t); cbn; [by rewrite Hf|done].
Qed.

Lemma created_rest g c t : let g' := getOrCreateNodeLocked g c t in
  Edges g' = Edges g /\ PoolEdges g' = PoolEdges g /\ edge_store g' = edge_store g /\ next_edge g' = next_edge g /\
  CrossChainEdges g' = CrossChainEdges g /\ g_config g' = g_config g.
Proof. unfold getOrCreateNodeLocked. by destruct (at_chain (Nodes g) c !! t). Qed.

Lemma edge_of_pool_fields Log p : pe_Pool (edge_of_pool Log p) = dp_Address p /\ pe_ChainID (edge_of_pool Log p) = dp_ChainID p /\
  pe_Token0 (edge_of_pool Log p) = dp_Token0 p /\ pe_Token1 (edge_of_pool Log p) = dp_Token1 p.
Proof.
  unfold edge_of_pool, priced, CalculateMaxAmounts, CalculateEdgeWeights.
  destruct (dp_Reserve0 p) as [r0|], (dp_Reserve1 p) as [r1|]; cbn; repeat case_match; done.
Qed.

Section views.
Context (Log : float64 -> float64).

(** The counts of the nodes after an edge is added. *)
Lemma added_count g p c t :
  default 0 (tn_EdgeCount <$> GetNode (addPoolEdgeLocked Log g p) c t) =
  default 0 (tn_EdgeCount <$> GetNode g c t) +
  Z.of_nat (length ((if decide (dp_ChainID p = c /\ dp_Token0 p = t) then [next_edge g] else []) ++
                    (if decide (dp_ChainID p = c /\ dp_Token1 p = t) then [next_edge g] else []))).
Proof.
  unfold addPoolEdgeLocked. cbv zeta. unfold GetNode at 1. cbn [Nodes]. rewrite !alter_node_lookup.
  fold (GetNode (getOrCreateNodeLocked (getOrCreateNodeLocked g (dp_ChainID p) (dp_Token0 p)) (dp_ChainID p) (dp_Token1 p)) (dp_ChainID p) (dp_Token1 p)).
  fold (GetNode (getOrCreateNodeLocked (getOrCreateNodeLocked g (dp_ChainID p) (dp_Token0 p)) (dp_ChainID p) (dp_Token1 p)) (dp_ChainID p) (dp_Token0 p)).
  fold (GetNode (getOrCreateNodeLocked (getOrCreateNodeLocked g (dp_ChainID p) (dp_Token0 p)) (dp_ChainID p) (dp_Token1 p)) c t).
  rewrite !node_created. unfold GetNode.
  destruct (decide (dp_ChainID p = c)) as [Ec|Ec], (decide (dp_Token0 p = t)) as [E0|E0], (decide (dp_Token1 p = t)) as [E1|E1];
    rewrite ?Ec, ?E0, ?E1;
    repeat first [rewrite decide_True by naive_solver | rewrite decide_False by naive_solver];
    cbn; try (destruct (at_chain (Nodes g) c !! t)); cbn; try lia.
Qed.

(** Adding a pool whose address is not in the graph keeps the views in step. *)
Lemma added_inv g p : graph_inv g -> at_chain (PoolEdges g) (dp_ChainID p) !! dp_Address p = None -> graph_inv (addPoolEdgeLocked Log g p).
Proof.
  intros [H1 H2 H3 H4] Hnew. pose proof (added_count g p) as Hc. pose proof (edge_of_pool_fields Log p) as (F1 & F2 & F3 & F4).
  pose proof (created_rest (getOrCreateNodeLocked g (dp_ChainID p) (dp_Token0 p)) (dp_ChainID p) (dp_Token1 p)) as (A1 & A2 & A3 & A4 & _).
  pose proof (created_rest g (dp_ChainID p) (dp_Token0 p)) as (B1 & B2 & B3 & B4 & _). rewrite B1 in A1. rewrite B2 in A2. rewrite B3 in A3. rewrite B4 in A4.
  set (i := next_edge g) in *.
  assert (Hrefs : forall c t, refs (addPoolEdgeLocked Log g p) c t = refs g c t ++
    ((if decide (dp_ChainID p = c /\ dp_Token0 p = t) then [i] else []) ++ (if decide (dp_ChainID p = c /\ dp_Token1 p = t) then [i] else []))).
  { intros c t. unfold refs, addPoolEdgeLocked. cbn [Edges]. rewrite !push_lookup, A1, A4. by rewrite app_assoc. }
  assert (Hstore : edge_store (addPoolEdgeLocked Log g p) = <[i := edge_of_pool Log p]> (edge_store g))
    by (unfold addPoolEdgeLocked; cbn [edge_store]; by rewrite A3, A4).
  assert (Hpe : forall c a, at_chain (PoolEdges (addPoolEdgeLocked Log g p)) c !! a =
    if decide (dp_ChainID p = c /\ dp_Address p = a) then Some i else at_chain (PoolEdges g) c !! a).
  { intros c a. unfold addPoolEdgeLocked. cbn [PoolEdges]. by rewrite upd_lookup, A2, A4. }
  assert (Hold : forall j e, edge_store g !! j = Some e -> edge_store (addPoolEdgeLocked Log g p) !! j = Some e).
  { intros j e Hj. rewrite Hstore, lookup_insert_ne; [done|]. intros <-. specialize (H3 i ltac:(by exists e)). unfold i in H3. lia. }
  split.
  - intros c a j. rewrite Hpe. case_decide as E.
    + destruct E as [<- <-]. intros [= <-]. exists (edge_of_pool Log p). rewrite Hstore, lookup_insert_eq, !Hrefs, F3, F4.
      rewrite !elem_of_app. repeat split; try done; [right; left|right; right]; rewrite decide_True by done; by left.
    + intros Hj. destruct (H1 c a j Hj) as (e & He & ? & ? & ? & ?). exists e. rewrite !Hrefs, !elem_of_app. eauto 10.
  - intros c t j. rewrite Hrefs, elem_of_app. intros [Hj|Hj].
    + destruct (H2 c t j Hj) as (e & He & Ht & Hpool). exists e. split; [by apply Hold|]. split; [done|].
      rewrite Hpe. case_decide as E; [|done]. destruct E as [E1 E2]. rewrite <- E2, <- E1, Hnew in Hpool. done.
    + assert (j = i /\ dp_ChainID p = c /\ (dp_Token0 p = t \/ dp_Token1 p = t)) as (-> & <- & Ht).
      { apply elem_of_app in Hj as [Hj|Hj]; case_decide as E; try (by apply elem_of_nil in Hj);
          apply list_elem_of_singleton in Hj; destruct E; auto. }
      exists (edge_of_pool Log p). rewrite Hstore, lookup_insert_eq, F1, F3, F4, Hpe, decide_True by done. done.
  - intros j. rewrite Hstore. cbn [next_edge addPoolEdgeLocked]. rewrite A4. destruct (decide (j = i)) as [->|Hne]; [intros _; unfold i; lia|].
    rewrite lookup_insert_ne by done. intros Hj%H3. lia.
  - intros c t. rewrite Hc, Hrefs, H4, !length_app. lia.
Qed.

Lemma added_pools g p c a : is_Some (at_chain (PoolEdges (addPoolEdgeLocked Log g p)) c !! a) ->
  is_Some (at_chain (PoolEdges g) c !! a) \/ (c = dp_ChainID p /\ a = dp_Address p).
Proof.
  unfold addPoolEdgeLocked. cbn [PoolEdges]. rewrite upd_lookup.
  pose proof (created_rest (getOrCreateNodeLocked g (dp_ChainID p) (dp_Token0 p)) (dp_ChainID p) (dp_Token1 p)) as (_ & A2 & _).
  pose proof (created_rest g (dp_ChainID p) (dp_Token0 p)) as (_ & B2 & _). rewrite A2, B2. case_decide; [|by left]. intros _. right. naive_solver.
Qed.

Definition pool_key (p : DiscoveredPool) : Z * bytes := (dp_ChainID p, dp_Address p).

Lemma fold_added_inv ps g : graph_inv g -> NoDup (pool_key <$> ps) ->
  (forall p, p ∈ ps -> at_chain (PoolEdges g) (dp_ChainID p) !! dp_Address p = None) -> graph_inv (fold_left (addPoolEdgeLocked Log) ps g).
Proof.
  revert g. induction ps as [|p ps IH]; intros g Hg Hnd Hnew; [done|]. cbn [fold_left]. cbn in Hnd. apply NoDup_cons in Hnd as [Hp Hnd].
  apply IH; [apply added_inv; [done|apply Hnew; by left]|done|]. intros q Hq.
  apply eq_None_not_Some. intros [[x Hx]|[E1 E2]]%added_pools; [by rewrite Hnew in Hx by (by right)|].
  apply Hp. apply list_elem_of_fmap. exists q. unfold pool_key. by rewrite E1, E2.
Qed.

(** ** Reachable graphs *)

(** What [GetAllPools] returns: pools of the chain, one per address. *)
Definition proper_listing (listing : Z -> list DiscoveredPool) : Prop :=
  forall c, NoDup (dp_Address <$> listing c) /\ Forall (fun p => dp_ChainID p = c) (listing c).

Inductive graph_op := GBuild (listing : Z -> list DiscoveredPool) (now : Z) | GUpdate (p : DiscoveredPool) | GBridge (x : CrossChainEdge).

Definition graph_exec (g : TokenGraph) (x : graph_op) : TokenGraph :=
  match x with
  | GBuild listing now => Build Log g listing now
  | GUpdate p => UpdateEdge Log g p
  | GBridge x => AddCrossChainEdge g x
  end.

Definition proper_op (x : graph_op) : Prop := match x with GBuild listing _ => proper_listing listing | _ => True end.

Lemma listing_keys (listing : Z -> list DiscoveredPool) keep cs : NoDup cs -> proper_listing listing ->
  NoDup (pool_key <$> (c ← cs; List.filter keep (listing c))).
Proof.
  intros Hcs Hl. induction Hcs as [|c cs Hc Hcs IH]; [constructor|]. cbn [mbind list_bind]. rewrite fmap_app. apply NoDup_app. split; [|split; [|done]].
  - destruct (Hl c) as [Hn Hf]. induction (listing c) as [|p l IHl]; [constructor|]. cbn [List.filter fmap list_fmap] in *.
    apply NoDup_cons in Hn as [Hp Hn]. apply Forall_cons in Hf as [Hpc Hf]. specialize (IHl Hn Hf).
    destruct (keep p); [|done]. cbn. apply NoDup_cons. split; [|done]. intros (q & E & Hq)%list_elem_of_fmap. apply Hp.
    apply list_elem_of_fmap. exists q. injection E as _ E. split; [done|]. apply list_elem_of_In, filter_In in Hq as [Hq _]. by apply list_elem_of_In.
  - intros k (p & -> & Hp)%list_elem_of_fmap (q & E & Hq)%list_elem_of_fmap.
    apply list_elem_of_In, filter_In in Hp as [Hp _]. apply list_elem_of_In in Hp.
    apply list_elem_of_bind in Hq as (c' & Hq & Hc'). apply list_elem_of_In, filter_In in Hq as [Hq _]. apply list_elem_of_In in Hq.
    destruct (Hl c) as [_ H1], (Hl c') as [_ H2]. rewrite Forall_forall in H1, H2. specialize (H1 p Hp). specialize (H2 q Hq).
    injection E as E _. rewrite H1, H2 in E. subst. done.
Qed.

Lemma empty_graph_inv g : Nodes g = ∅ -> Edges g = ∅ -> PoolEdges g = ∅ -> (forall i, is_Some (edge_store g !! i) -> (i < next_edge g)%nat) -> graph_inv g.
Proof.
  intros E1 E2 E3 Hf. split; unfold refs, GetNode; rewrite ?E1, ?E2, ?E3; unfold at_chain; intros *; rewrite ?lookup_empty; cbn; rewrite ?lookup_empty; cbn;
    (by auto) || (by rewrite elem_of_nil).
Qed.

Lemma inv_nodes g ns s : graph_inv g -> (forall c t, tn_EdgeCount <$> at_chain ns c !! t = tn_EdgeCount <$> GetNode g c t) -> graph_inv (with_nodes g ns s).
Proof. intros [H1 H2 H3 H4] Hn. split; try done. intros c t. unfold GetNode at 1. cbn [Nodes with_nodes]. rewrite Hn. apply H4. Qed.

Lemma priced_fields e : pe_Pool (priced Log e) = pe_Pool e /\ pe_ChainID (priced Log e) = pe_ChainID e /\
  pe_Token0 (priced Log e) = pe_Token0 e /\ pe_Token1 (priced Log e) = pe_Token1 e.
Proof.
  unfold priced, CalculateMaxAmounts, CalculateEdgeWeights. destruct (Reserve0 e), (Reserve1 e); cbn; repeat case_match; done.
Qed.

Lemma graph_exec_inv g x : NoDup (EnabledChains (g_config g)) -> graph_inv g -> proper_op x -> graph_inv (graph_exec g x).
Proof.
  intros Hcs Hg Hx. destruct x as [listing now|p|x]; cbn [graph_exec].
  - unfold Build. cbv zeta. set (g0 := {| Nodes := ∅ |}). set (ps := mbind _ _).
    assert (H0 : graph_inv (fold_left (addPoolEdgeLocked Log) ps g0)).
    { apply fold_added_inv; [apply empty_graph_inv; try done; apply (gi_fresh _ Hg)|by apply listing_keys|].
      intros p _. unfold at_chain, g0. cbn [PoolEdges]. rewrite lookup_empty. cbn. apply lookup_empty. }
    by apply inv_nodes.
  - unfold UpdateEdge. destruct (at_chain (PoolEdges g) (dp_ChainID p) !! dp_Address p) as [i|] eqn:E; [|done].
    set (f := fun e => priced Log _). assert (Hf : forall e, pe_Pool (f e) = pe_Pool e /\ pe_ChainID (f e) = pe_ChainID e /\
      pe_Token0 (f e) = pe_Token0 e /\ pe_Token1 (f e) = pe_Token1 e) by (intros e; apply (priced_fields {| pe_Pool := pe_Pool e |})).
    destruct Hg as [H1 H2 H3 H4]. split; unfold refs in *; cbn [PoolEdges edge_store Edges next_edge] in *; [| | |exact H4].
    + intros c a j Hj. destruct (H1 c a j Hj) as (e & He & ? & ? & ? & ?). destruct (decide (i = j)) as [->|Hne].
      * exists (f e). destruct (Hf e) as (-> & -> & -> & ->). rewrite lookup_alter_eq, He. done.
      * exists e. by rewrite lookup_alter_ne.
    + intros c t j Hj. destruct (H2 c t j Hj) as (e & He & ? & ?). destruct (decide (i = j)) as [->|Hne].
      * exists (f e). destruct (Hf e) as (-> & _ & -> & ->). rewrite lookup_alter_eq, He. done.
      * exists e. by rewrite lookup_alter_ne.
    + intros j Hj. apply H3. destruct (decide (i = j)) as [->|Hne].
      * rewrite lookup_alter_eq in Hj. by destruct (edge_store g !! j).
      * by rewrite lookup_alter_ne in Hj.
  - unfold AddCrossChainEdge. destruct Hg as [H1 H2 H3 H4]. split; try done. intros c t. unfold GetNode. cbn [Nodes].
    rewrite !alter_node_count by done. apply H4.
Qed.
End views.

Lemma added_config Log ps g : g_config (fold_left (addPoolEdgeLocked Log) ps g) = g_config g.
Proof.
  revert g. induction ps as [|p ps IH]; intros g; [done|]. cbn [fold_left]. rewrite IH. unfold addPoolEdgeLocked. cbn [g_config].
  pose proof (created_rest (getOrCreateNodeLocked g (dp_ChainID p) (dp_Token0 p)) (dp_ChainID p) (dp_Token1 p)) as (_ & _ & _ & _ & _ & ->).
  by pose proof (created_rest g (dp_ChainID p) (dp_Token0 p)) as (_ & _ & _ & _ & _ & ->).
Qed.

Lemma exec_config Log g x : g_config (graph_exec Log g x) = g_config g.
Proof.
  destruct x as [l now|p|x]; cbn [graph_exec]; [|unfold UpdateEdge; by case_match|done].
  unfold Build. cbn [g_config with_nodes]. by rewrite added_config.
Qed.

Lemma graph_run_inv Log xs g : NoDup (EnabledChains (g_config g)) -> graph_inv g -> Forall proper_op xs -> graph_inv (fold_left (graph_exec Log) xs g).
Proof.
  intros Hn Hg Hx. revert g Hn Hg. induction Hx as [|x xs Hx _ IH]; intros g Hn Hg; [done|]. cbn [fold_left].
  apply IH; [by rewrite exec_config|by apply graph_exec_inv].
Qed.

Lemma new_graph_inv cfg : graph_inv (NewTokenGraph cfg) /\ g_config (NewTokenGraph cfg) = default DefaultGraphConfig cfg.
Proof.
  unfold NewTokenGraph. cbv zeta. set (c := default DefaultGraphConfig cfg). set (g0 := {| Nodes := ∅ |}).
  assert (H : forall xs g, graph_inv g -> graph_inv (fold_left AddCrossChainEdge xs g) /\ g_config (fold_left AddCrossChainEdge xs g) = g_config g).
  { induction xs as [|x xs IH]; intros g Hg; [done|]. cbn [fold_left]. specialize (IH (AddCrossChainEdge g x)).
    destruct IH as [I1 I2]; [|by rewrite I2].
    destruct Hg as [H1 H2 H3 H4]. split; try done. intros c' t. unfold GetNode. cbn [Nodes AddCrossChainEdge]. rewrite !alter_node_count by done. apply H4. }
  destruct (H (CrossChainBridges c) g0) as [I1 I2]; [|by rewrite I2].
  apply empty_graph_inv; try done. intros i. cbn [edge_store g0]. rewrite lookup_empty. by intros [].
Qed.

Lemma neighbor_ref g c t e : graph_inv g -> e ∈ GetNeighbors g c t <-> exists i, i ∈ refs g c t /\ edge_store g !! i = Some e.
Proof. intros Hg. unfold GetNeighbors. rewrite list_elem_of_omap. done. Qed.

(** The three views of a pool agree in every graph: after any sequence of builds, edge
    updates and bridges, an edge listed for a token trades that token and is the edge of its
    pool; the edge of a pool is listed for both its tokens, with all updates; and every node
    counts exactly the edges listed for it.  (The chains of the configuration are distinct,
    and a build lists each pool of a chain once.) *)
Theorem graph_views_agree Log cfg xs c :
  NoDup (EnabledChains (default DefaultGraphConfig cfg)) -> Forall proper_op xs ->
  let g := fold_left (graph_exec Log) xs (NewTokenGraph cfg) in
  (forall t e, e ∈ GetNeighbors g c t -> (pe_Token0 e = t \/ pe_Token1 e = t) /\ GetEdge g c (pe_Pool e) = Some e) /\
  (forall a e, GetEdge g c a = Some e -> pe_Pool e = a /\ pe_ChainID e = c /\
     e ∈ GetNeighbors g c (pe_Token0 e) /\ e ∈ GetNeighbors g c (pe_Token1 e)) /\
  (forall t, default 0 (tn_EdgeCount <$> GetNode g c t) = Z.of_nat (length (GetNeighbors g c t))).
Proof.
  intros Hn Hx g. destruct (new_graph_inv cfg) as [H0 Hc].
  assert (Hg : graph_inv g) by (apply graph_run_inv; [by rewrite Hc|done|done]). split; [|split].
  - intros t e (i & Hi & He)%neighbor_ref; [|done]. destruct (gi_ref _ Hg c t i Hi) as (e' & He' & Ht & Hp).
    rewrite He in He'. injection He' as <-. split; [done|]. unfold GetEdge. by rewrite Hp.
  - intros a e. unfold GetEdge. destruct (at_chain (PoolEdges g) c !! a) as [i|] eqn:Ei; [|done]. cbn. intros He.
    destruct (gi_pool _ Hg c a i Ei) as (e' & He' & ? & ? & ? & ?). rewrite He in He'. injection He' as <-.
    rewrite !neighbor_ref by done. eauto 10.
  - intros t. rewrite (gi_node _ Hg). f_equal. unfold GetNeighbors. fold (refs g c t).
    assert (Hall : forall i, i ∈ refs g c t -> is_Some (edge_store g !! i)) by (intros i Hi; destruct (gi_ref _ Hg c t i Hi) as (e & He & _); by exists e).
    induction (refs g c t) as [|i l IH]; [done|]. cbn. destruct (Hall i ltac:(by left)) as [e ->]. cbn. f_equal. apply IH. intros j Hj. apply Hall. by right.
Qed.

(** ** Amounts *)

Lemma edge_out e t a ri ro : GetReserveIn e t = Some ri -> GetReserveOut e t = Some ro -> 0 < a -> 0 < ri -> 0 < ro -> 0 <= pe_Fee e <= 10000 ->
  edge_GetAmountOut e t (Some a) = Done (cp_out (10000 - pe_Fee e) 10000 a ri ro).
Proof.
  intros Hi Ho Ha Hri Hro Hf. unfold edge_GetAmountOut. rewrite (proj2 (Z.leb_gt a 0)), Hi, Ho by lia.
  rewrite !(proj2 (Z.eqb_neq _ _)) by lia. cbn [orb]. rewrite big_div_pos by nia. done.
Qed.

(** An edge with a fee of at most 100 % and reserves that are not negative. *)
Definition sane_edge (e : PoolEdge) : Prop :=
  0 <= pe_Fee e <= 10000 /\ (forall r, Reserve0 e = Some r -> 0 <= r) /\ (forall r, Reserve1 e = Some r -> 0 <= r).

Lemma sane_reserves e t : sane_edge e -> (forall r, GetReserveIn e t = Some r -> 0 <= r) /\ (forall r, GetReserveOut e t = Some r -> 0 <= r).
Proof. intros (_ & H0 & H1). unfold GetReserveIn, GetReserveOut. case_match; auto. Qed.

Lemma edge_out_total e t a : sane_edge e -> 0 <= a -> exists o, edge_GetAmountOut e t (Some a) = Done o /\ 0 <= o.
Proof.
  intros He Ha. destruct (sane_reserves e t He) as [Hi Ho]. destruct (Z.eq_dec a 0) as [->|]; [by exists 0|].
  destruct (GetReserveIn e t) as [ri|] eqn:Ei, (GetReserveOut e t) as [ro|] eqn:Eo;
    try (exists 0; unfold edge_GetAmountOut; by rewrite (proj2 (Z.leb_gt a 0)), Ei, ?Eo by lia).
  specialize (Hi ri eq_refl). specialize (Ho ro eq_refl).
  destruct (Z.eq_dec ri 0) as [->|]; [exists 0; unfold edge_GetAmountOut; by rewrite (proj2 (Z.leb_gt a 0)), Ei, Eo by lia|].
  destruct (Z.eq_dec ro 0) as [->|].
  { exists 0. unfold edge_GetAmountOut. rewrite (proj2 (Z.leb_gt a 0)), Ei, Eo by lia. by rewrite orb_true_r. }
  destruct He as (Hf & _). eexists. rewrite (edge_out _ _ _ ri ro) by (done || lia). split; [done|].
  apply cp_out_bounds; lia.
Qed.

Lemma simulate_total prev ns a fees : Forall (fun n => forall e, pn_Edge n = Some e -> sane_edge e) ns -> 0 <= a ->
  exists r, simulate_loop prev ns a fees = Done r.
Proof.
  intros Hns. revert prev a fees. induction Hns as [|n ns Hn _ IH]; intros prev a fees Ha; [by eexists|]. cbn [simulate_loop].
  destruct (pn_Edge n) as [e|]; [|by eexists].
  destruct (match GetMaxAmount e prev with Some m => m <? a | None => false end); [by eexists|].
  destruct (edge_out_total e prev a (Hn e eq_refl) Ha) as (o & -> & Ho). cbn [outcome_bind]. destruct (o =? 0); [by eexists|].
  rewrite big_div_pos by lia. cbn [outcome_bind]. by apply IH.
Qed.

Definition sane_path (p : GraphPath) : Prop := Forall (fun n => forall e, pn_Edge n = Some e -> sane_edge e) (gp_Nodes p).

Lemma SimulatePath_total p a : sane_path p -> 0 <= a -> exists r, SimulatePathExecution p a = Done r.
Proof.
  intros Hp Ha. unfold SimulatePathExecution. destruct (gp_Nodes p) as [|n [|m rest]] eqn:E; try (by eexists).
  apply simulate_total; [|done]. unfold sane_path in Hp. rewrite E in Hp. by inversion Hp.
Qed.

Lemma optimal_loop_spec n p lo hi low high a profit : sane_path p -> 0 <= lo -> lo <= low -> high <= hi -> lo <= a <= hi -> 0 <= profit ->
  (0 < profit -> exists fees, SimulatePathExecution p a = Done (a + profit, fees, true)) ->
  exists a' profit', optimal_loop n p low high a profit = Done (a', profit') /\ lo <= a' <= hi /\ profit <= profit' /\
    (0 < profit' -> exists fees, SimulatePathExecution p a' = Done (a' + profit', fees, true)).
Proof.
  intros Hp Hlo. revert low high a profit. induction n as [|n IH]; intros low high a profit H1 H2 Ha Hpr Hs; cbn [optimal_loop];
    [by exists a, profit|].
  destruct (Z.ltb_spec low high) as [Hlt|]; [|by exists a, profit].
  rewrite big_div_pos by lia. cbn [outcome_bind]. set (mid := (low + high) / 2). assert (Hmid : low <= mid < high) by (unfold mid; dlia).
  destruct (SimulatePath_total p mid Hp ltac:(lia)) as ([[out fees] ok] & Er). rewrite Er. cbn [outcome_bind fst snd]. cbv zeta.
  destruct ok; cbn [negb]; [|apply IH; auto; lia].
  destruct (Z.ltb_spec profit (out - mid)); [|apply IH; auto; lia].
  destruct (IH (mid + 1) high mid (out - mid)) as (a' & pr' & E & B1 & B2 & B3); [lia..| |].
  - intros _. exists fees. by replace (mid + (out - mid)) with out by lia.
  - exists a', pr'. split; [done|]. split; [done|]. split; [lia|done].
Qed.

(** The search for a trade size returns a real trade: on a path of pools with fees of
    at most 100 % and reserves that are not negative it returns an amount between the
    bounds, and when it reports a profit, simulating the path with that amount succeeds and
    yields the amount plus the profit. *)
Theorem optimal_amount_sound p lo hi : sane_path p -> 0 <= lo ->
  exists a profit, FindOptimalAmount p lo hi = Done (a, profit) /\ lo <= a <= Z.max lo hi /\ 0 <= profit /\
    (0 < profit -> exists fees, SimulatePathExecution p a = Done (a + profit, fees, true)).
Proof.
  intros Hp Hlo. unfold FindOptimalAmount. destruct (Z.leb_spec hi lo); [exists lo, 0; split; [done|]; split; [lia|]; split; [lia|lia]|].
  destruct (optimal_loop_spec 50 p lo hi lo hi lo 0 Hp Hlo) as (a & pr & E & H1 & H2 & H3); try lia.
  exists a, pr. rewrite E. split; [done|]. split; [lia|]. done.
Qed.

Definition ex_edge (pool : string) (r0 r1 fee : Z) : PoolEdge :=
  {| pe_Pool := bs pool; pe_ChainID := 1; pe_DEX := "uniswap_v2"; pe_Token0 := bs "A"; pe_Token1 := bs "B"; Weight01 := f0; Weight10 := f0;
     Reserve0 := Some r0; Reserve1 := Some r1; MaxAmount01 := None; MaxAmount10 := None; pe_Fee := fee; pe_TickSpacing := 0;
     pe_Liquidity := None; pe_LastUpdate := 0; pe_TotalScore := f0 |}.

(** Token A through one pool to B and through the other back. *)
Definition ex_path : GraphPath :=
  {| gp_Nodes := [{| pn_Token := bs "A"; pn_ChainID := 1; pn_Edge := None |};
                  {| pn_Token := bs "B"; pn_ChainID := 1; pn_Edge := Some (ex_edge "p" 100000 400000 30) |};
                  {| pn_Token := bs "A"; pn_ChainID := 1; pn_Edge := Some (ex_edge "q" 200000 400000 30) |}];
     gp_TotalWeight := f0; gp_IsCycle := true |}.

Lemma optimal_amount_sound_witness :
  exists a profit, FindOptimalAmount ex_path 0 100000 = Done (a, profit) /\ 0 <= a <= Z.max 0 100000 /\ 0 <= profit /\
    (0 < profit -> exists fees, SimulatePathExecution ex_path a = Done (a + profit, fees, true)).
Proof.
  apply optimal_amount_sound; [|lia]. unfold sane_path, ex_path. cbn [gp_Nodes].
  repeat (apply Forall_cons; split); [..|apply Forall_nil_2]; intros e [= <-]; unfold sane_edge; cbn; (split; [lia|]; split; intros r [= <-]; lia).
Defined.

(** The search is not optimal: it moves up whenever the profit improves and down otherwise,
    which is no bisection of a concave function.  Here it settles on 24999 and a profit of
    8183, and a trade of 20000 makes 8436. *)
Lemma optimal_amount_missed :
  FindOptimalAmount ex_path 0 100000 = Done (24999, 8183) /\
  SimulatePathExecution ex_path 20000 = Done (20000 + 8436, 259, true).
Proof. vm_compute. done. Qed.

(** ** A graph over a registry *)

(** What a reachable pool registry lists is a proper listing. *)
Lemma registry_listing_proper {C : Crypto} pair (r : PoolRegistry) : registry_inv pair r -> proper_listing (GetAllPools r).
Proof.
  intros [H1 _ _] c. unfold GetAllPools. split.
  - assert (E : dp_Address <$> (map_to_list (at_chain (pools r) c)).*2 = (map_to_list (at_chain (pools r) c)).*1).
    { rewrite <- list_fmap_compose. apply list_fmap_ext. intros i [a p] Hi. cbn. apply list_elem_of_lookup_2, elem_of_map_to_list, H1 in Hi.
      apply Hi. }
    rewrite E. apply NoDup_fst_map_to_list.
  - apply Forall_forall. intros p ([a q] & -> & Hq)%list_elem_of_fmap. apply elem_of_map_to_list, H1 in Hq. apply Hq.
Qed.

Definition ex_token (n : Z) : bytes := be_bytes 20 n.

Definition ex_pool (a t0 t1 r0 r1 : Z) : DiscoveredPool :=
  set_scores f1 f1 f1 (set_state (Some r0) (Some r1) 0 0 0 0
    (set_identity (ex_token a) (ex_token t0) (ex_token t1) 30 0 false (new_pool 1 "uniswap_v2" 0 0 0))).

(** Three tokens and three pools, of which one is later repriced. *)
Definition ex_listing (c : Z) : list DiscoveredPool :=
  if c =? 1 then [ex_pool 101 1 2 (10 ^ 21) (2 * 10 ^ 21); ex_pool 102 2 3 (10 ^ 21) (2 * 10 ^ 21); ex_pool 103 3 1 (10 ^ 21) (10 ^ 21)] else [].

Definition ex_ops : list graph_op := [GBuild ex_listing 5; GUpdate (ex_pool 103 3 1 (2 * 10 ^ 21) (10 ^ 21))].

(** A function with the sign of the logarithm. *)
Definition ex_log (x : float64) : float64 := fsub x f1.

Definition ex_graph : TokenGraph := fold_left (graph_exec ex_log) ex_ops (NewTokenGraph None).

Lemma ex_listing_proper : proper_listing ex_listing.
Proof.
  intros c. unfold ex_listing. destruct (Z.eqb_spec c 1) as [->|]; [|split; constructor]. split; [|repeat constructor].
  apply (bool_decide_unpack (NoDup _)). by vm_compute.
Qed.

Lemma graph_views_agree_witness :
  (forall t e, e ∈ GetNeighbors ex_graph 1 t -> (pe_Token0 e = t \/ pe_Token1 e = t) /\ GetEdge ex_graph 1 (pe_Pool e) = Some e) /\
  (forall a e, GetEdge ex_graph 1 a = Some e -> pe_Pool e = a /\ pe_ChainID e = 1 /\
     e ∈ GetNeighbors ex_graph 1 (pe_Token0 e) /\ e ∈ GetNeighbors ex_graph 1 (pe_Token1 e)) /\
  (forall t, default 0 (tn_EdgeCount <$> GetNode ex_graph 1 t) = Z.of_nat (length (GetNeighbors ex_graph 1 t))).
Proof.
  apply (graph_views_agree ex_log None ex_ops 1).
  - apply (bool_decide_unpack (NoDup _)). by vm_compute.
  - apply Forall_cons. split; [exact ex_listing_proper|]. apply Forall_cons. split; [exact I|]. apply Forall_nil_2.
Defined.

Lemma has_path_correct_witness :
  (exists b, HasPath (path_fuel ex_graph 1) ex_graph 1 (ex_token 1) (ex_token 3) 2 = Done b /\
    (b = true <-> ex_token 1 = ex_token 3 \/ exists n, Z.of_nat n <= 2 /\ walk (successors ex_graph 1) (ex_token 1) n (ex_token 3))) /\
  HasPath (path_fuel ex_graph 1) ex_graph 1 (ex_token 1) (ex_token 3) 2 = Done true /\
  HasPath (path_fuel ex_graph 1) ex_graph 1 (ex_token 1) (ex_token 9) 5 = Done false.
Proof.
  split; [apply (has_path_correct ex_graph 1 (ex_token 1) (ex_token 3) 2); lia|]. split; vm_compute; reflexivity.
Defined.

(** Fees have two units: the bootstrap pools of Uniswap V3 carry theirs in hundredths of a basis
    point (500, 3000), and the graph reads every fee in basis points, so that a pool that
    charges 0.3 % is taken to charge 30 %. *)
Lemma v3_fee_misread :
  existsb (fun p => String.eqb (dp_DEXType p) "uniswap_v3" && (dp_Fee p =? 3000)) (BootstrapPools 0) = true /\
  edge_GetAmountOut (ex_edge "p" (10 ^ 24) (10 ^ 24) 3000) (bs "A") (Some (10 ^ 18)) = Done 699999510000342999.
Proof. vm_compute. done. Qed.
