(* ===== verification/Routes.v ===== *)
(** * Arbitrage routes ([arb/routing])

    Routes over the token graph: the constraints a route must meet and the cache of routes
    ([routing_types.go]), the search for negative cycles with Bellman-Ford and the enumeration
    of triangles ([bellman_ford.go]), and the liquidity filter ([liquidity_filter.go]).

    Go iterates over maps in an unspecified order; the node lists are arguments, in the order
    of the iteration.  The clock is an argument too.  The theorems: every triangular route is a
    closed walk through three pools of the graph whose amounts are those of the pools
    ([triangular_sound]), with the profit it reports; the amounts of a route are those of the
    simulation of its path ([route_simulation_agrees]); the cache serves exactly the routes that
    have not expired ([cache_serves_unexpired]); the filter returns the valid routes
    in order of profit ([filter_routes_sound]); and the Bellman-Ford search returns its hops in
    the reverse order ([bellman_ford_backwards]) and misses a cycle ([negative_cycle_missed]). *)

From Stdlib Require Import String SpecFloat Sorted.
From stdpp Require Import sorting.
From S2P Require Import Prelude Signing Float64 BigFloat Positions Swaps Amm Pools TokenGraph.

(** ** Routes and constraints *)

Record RouteHop := {
  rh_ChainID : Z; rh_Pool : bytes; rh_DEX : string; rh_TokenIn : bytes; rh_TokenOut : bytes;
  rh_AmountIn : option Z; rh_AmountOut : option Z; rh_MinAmountOut : option Z;
  rh_PriceImpactBPS : Z; rh_Fee : option Z; rh_Weight : float64;
}.

Record ArbitrageRoute := {
  ar_ID : bytes; Hops : list RouteHop; ar_StartToken : bytes; StartChain : Z; StartAmount : option Z; EndAmount : option Z;
  GrossProfit : option Z; TotalFees : option Z; GasEstimate : option Z; NetProfit : option Z; ProfitBPS : Z; ar_TotalWeight : float64;
  MinViableLiquidity : option Z; MaxSlippageBPS : Z; IsCrossChain : bool; ChainIDs : list Z;
  DetectedAt : Z; ar_ExpiresAt : Z; ValidityMS : Z; PreSigned : bool; PreSignedTxs : gmap Z bytes; DetectionMethod : string;
}.

Definition route_IsValid (r : ArbitrageRoute) (now : Z) : bool :=
  (now <? ar_ExpiresAt r) && match NetProfit r with Some p => 0 <? p | None => false end.

Definition HopCount (r : ArbitrageRoute) : Z := Z.of_nat (length (Hops r)).

Definition GetTokenSequence (r : ArbitrageRoute) : list bytes :=
  match Hops r with [] => [] | h :: _ => rh_TokenIn h :: (rh_TokenOut <$> Hops r) end.

Definition GetPoolSequence (r : ArbitrageRoute) : list bytes := rh_Pool <$> Hops r.

Record RouteConstraints := {
  rc_MaxHops : Z; rc_MinHops : Z; MinProfitWei : option Z; MinProfitBPS : Z; MaxGasGwei : Z; MaxGasCostWei : option Z;
  rc_MinLiquidityUSD : float64; MinTradeSize : option Z; MaxPriceImpactBPS : Z; MaxTotalSlippage : Z;
  AllowedTokens : list bytes; ExcludedTokens : list bytes; AllowedDEXs : list string; ExcludedPools : list bytes;
  AllowTriangular : bool; AllowCrossChain : bool; RequireBluechip : bool;
}.

Definition DefaultRouteConstraints : RouteConstraints :=
  {| rc_MaxHops := 4; rc_MinHops := 2; MinProfitWei := Some (10 ^ 15); MinProfitBPS := 5; MaxGasGwei := 50; MaxGasCostWei := None;
     rc_MinLiquidityUSD := f_of_Z 10000; MinTradeSize := None; MaxPriceImpactBPS := 100; MaxTotalSlippage := 200;
     AllowedTokens := []; ExcludedTokens := []; AllowedDEXs := []; ExcludedPools := []; AllowTriangular := true;
     AllowCrossChain := true; RequireBluechip := false |}.

Definition hop_allowed (c : RouteConstraints) (h : RouteHop) : bool :=
  negb (MaxPriceImpactBPS c <? rh_PriceImpactBPS h) &&
  negb (existsb (bytes_eqb (rh_Pool h)) (ExcludedPools c)) &&
  negb (existsb (fun t => bytes_eqb (rh_TokenIn h) t || bytes_eqb (rh_TokenOut h) t) (ExcludedTokens c)) &&
  match AllowedDEXs c with [] => true | ds => existsb (String.eqb (rh_DEX h)) ds end.

Definition Validate (c : RouteConstraints) (r : ArbitrageRoute) : outcome bool :=
  if (HopCount r <? rc_MinHops c) || (rc_MaxHops c <? HopCount r) then Done false else
  match NetProfit r with
  | None => Done false
  | Some np =>
      match MinProfitWei c with
      | None => Panic "nil pointer dereference"
      | Some mp =>
          if np <? mp then Done false
          else if ProfitBPS r <? MinProfitBPS c then Done false
          else if match MaxGasCostWei c, GasEstimate r with Some m, Some g => m <? g | _, _ => false end then Done false
          else if IsCrossChain r && negb (AllowCrossChain c) then Done false
          else Done (forallb (hop_allowed c) (Hops r))
      end
  end.

Record RouteFinderResult := {
  rr_Routes : list ArbitrageRoute; TotalSearched : Z; ValidCount : Z; BestProfit : option Z; SearchTime : Z; Method : string;
}.

(** ** The cache of routes *)

Record RouteCache := { rcache_routes : gmap bytes ArbitrageRoute; rcache_expiries : gmap bytes Z }.

Definition NewRouteCache : RouteCache := {| rcache_routes := ∅; rcache_expiries := ∅ |}.

Definition cache_Add (c : RouteCache) (r : ArbitrageRoute) : RouteCache :=
  {| rcache_routes := <[ar_ID r := r]> (rcache_routes c); rcache_expiries := <[ar_ID r := ar_ExpiresAt r]> (rcache_expiries c) |}.

Definition cache_delete (c : RouteCache) (id : bytes) : RouteCache :=
  {| rcache_routes := delete id (rcache_routes c); rcache_expiries := delete id (rcache_expiries c) |}.

Definition expiry (c : RouteCache) (id : bytes) : Z := default zero_time (rcache_expiries c !! id).

Definition cache_Get (c : RouteCache) (id : bytes) (now : Z) : RouteCache * option ArbitrageRoute :=
  match rcache_routes c !! id with
  | None => (c, None)
  | Some r => if expiry c id <? now then (cache_delete c id, None) else (c, Some r)
  end.

Definition GetValid (c : RouteCache) (now : Z) : RouteCache * list ArbitrageRoute :=
  fold_left (fun s kv => if now <? expiry c kv.1 then (s.1, s.2 ++ [kv.2]) else (cache_delete s.1 kv.1, s.2))
    (map_to_list (rcache_routes c)) (c, []).

Definition cache_Prune (c : RouteCache) (now : Z) : RouteCache * Z :=
  fold_left (fun s kv => if kv.2 <? now then (cache_delete s.1 kv.1, s.2 + 1) else s) (map_to_list (rcache_expiries c)) (c, 0).

Definition cache_Size (c : RouteCache) : Z := Z.of_nat (size (rcache_routes c)).

(** ** Bellman-Ford *)

Record BellmanFordConfig := {
  MaxIterations : Z; EnableEarlyTermination : bool; MinImprovement : float64; MaxRoutes : Z; RouteValidityDuration : Z;
}.

Definition DefaultBellmanFordConfig : BellmanFordConfig :=
  {| MaxIterations := 20; EnableEarlyTermination := true; MinImprovement := f_ratio 1 (10 ^ 9); MaxRoutes := 100;
     RouteValidityDuration := 10 * 10 ^ 9 |}.

(** A finder is its configuration. *)
Definition NewBellmanFordFinder (config : option BellmanFordConfig) : BellmanFordConfig := default DefaultBellmanFordConfig config.

Record predecessorInfo := { pi_from : bytes; pi_edge : PoolEdge }.
Record cycleInfo := { cy_nodes : list bytes; cy_edges : list PoolEdge; cy_weight : float64 }.

Definition f_inf : float64 := S754_infinity false.
Definition is_pinf (x : float64) : bool := match x with S754_infinity false => true | _ => false end.

Definition dist_at (dist : gmap bytes float64) (t : bytes) : float64 := default f0 (dist !! t).

Section finder.
Context {C : Crypto} (cfg : BellmanFordConfig).

Record relaxation := { rx_dist : gmap bytes float64; rx_pred : gmap bytes predecessorInfo; rx_improved : bool }.

(** The edge leads to a shorter distance. *)
Definition shortens (dist : gmap bytes float64) (t : bytes) (e : PoolEdge) : bool :=
  fltb (fadd (dist_at dist t) (GetWeight e t)) (fsub (dist_at dist (GetTokenOut e t)) (MinImprovement cfg)).

Definition relax (t : bytes) (s : relaxation) (e : PoolEdge) : relaxation :=
  if shortens (rx_dist s) t e then
    {| rx_dist := <[GetTokenOut e t := fadd (dist_at (rx_dist s) t) (GetWeight e t)]> (rx_dist s);
       rx_pred := <[GetTokenOut e t := {| pi_from := t; pi_edge := e |}]> (rx_pred s); rx_improved := true |}
  else s.

Definition relax_node (g : TokenGraph) (chainID : Z) (s : relaxation) (n : TokenNode) : relaxation :=
  if is_pinf (dist_at (rx_dist s) (tn_Address n)) then s
  else fold_left (relax (tn_Address n)) (GetNeighbors g chainID (tn_Address n)) s.

(** At most [iterations] rounds, until one improves nothing; also the number of rounds. *)
Fixpoint relax_rounds (iterations : nat) (g : TokenGraph) (chainID : Z) (nodes : list TokenNode) (s : relaxation) (searched : Z)
  : relaxation * Z :=
  match iterations with
  | O => (s, searched)
  | S n =>
      if rx_improved s then
        relax_rounds n g chainID nodes
          (fold_left (relax_node g chainID) nodes {| rx_dist := rx_dist s; rx_pred := rx_pred s; rx_improved := false |}) (searched + 1)
      else (s, searched)
  end.

Definition sum_weights (l : list (bytes * PoolEdge)) : float64 := fold_left (fun w x => fadd w (GetWeight x.2 x.1)) l f0.

(** The walk back along predecessors. *)
Fixpoint trace_loop (n : nat) (pred : gmap bytes predecessorInfo) (nodes : list bytes) (edges : list PoolEdge) (w : float64)
  (seen : gmap bytes nat) (current : bytes) : list bytes * list PoolEdge * float64 :=
  match n with
  | O => (nodes, edges, w)
  | S n =>
      match pred !! current with
      | None => (nodes, edges, w)
      | Some info =>
          let nodes := nodes ++ [current] in
          let edges := edges ++ [pi_edge info] in
          let w := fadd w (GetWeight (pi_edge info) (pi_from info)) in
          match seen !! pi_from info with
          | Some i => (drop i nodes, drop i edges, sum_weights (zip (drop i nodes) (drop i edges)))
          | None => trace_loop n pred nodes edges w (<[pi_from info := length nodes]> seen) (pi_from info)
          end
      end
  end.

Definition traceCycle (start : bytes) (pred : gmap bytes predecessorInfo) (lastEdge : PoolEdge) : option cycleInfo :=
  let '(nodes, edges, w) := trace_loop (Z.to_nat (MaxIterations cfg)) pred [GetTokenOut lastEdge start] [lastEdge]
                              (fadd f0 (GetWeight lastEdge start)) {[start := 0%nat]} start in
  if (length nodes <? 2)%nat then None else Some {| cy_nodes := nodes; cy_edges := edges; cy_weight := w |}.

Definition detectNegativeCycles (g : TokenGraph) (chainID : Z) (nodes : list TokenNode) (dist : gmap bytes float64)
  (pred : gmap bytes predecessorInfo) : list cycleInfo :=
  fst (fold_left (fun s (n : TokenNode) =>
    if is_pinf (dist_at dist (tn_Address n)) then s
    else fold_left (fun (s : list cycleInfo * gset bytes) e =>
      let neighbor := GetTokenOut e (tn_Address n) in
      if shortens dist (tn_Address n) e then
        if bool_decide (neighbor ∈ s.2) then s
        else
          match traceCycle neighbor pred e with
          | Some c => if fltb (cy_weight c) f0 then (s.1 ++ [c], {[neighbor]} ∪ s.2) else s
          | None => s
          end
      else s) (GetNeighbors g chainID (tn_Address n)) s) nodes ([], ∅)).

(** ** Building a route *)

Definition fill_hop (h : RouteHop) (amountIn amountOut fee impact : Z) : RouteHop :=
  {| rh_ChainID := rh_ChainID h; rh_Pool := rh_Pool h; rh_DEX := rh_DEX h; rh_TokenIn := rh_TokenIn h; rh_TokenOut := rh_TokenOut h;
     rh_AmountIn := Some amountIn; rh_AmountOut := Some amountOut; rh_MinAmountOut := rh_MinAmountOut h;
     rh_PriceImpactBPS := impact; rh_Fee := Some fee; rh_Weight := rh_Weight h |}.

(** The smaller of the limits seen so far. *)
Definition tighten (m mvl : option Z) : option Z :=
  match m, mvl with
  | None, _ => mvl
  | Some m, None => Some m
  | Some m, Some v => Some (if m <? v then m else v)
  end.

(** The hops are filled in place, also those before a hop that fails; the last component is
    the amount and the fees, or nothing. *)
Fixpoint simulateRoute (edges : list PoolEdge) (nodes : list bytes) (hops : list RouteHop) (current fees : Z) (mvl : option Z)
  : outcome (list RouteHop * option Z * option (Z * Z)) :=
  match edges with
  | [] => Done (hops, mvl, Some (current, fees))
  | e :: edges =>
      match nodes with
      | [] => Panic "index out of range"
      | t :: nodes =>
          let! out := edge_GetAmountOut e t (Some current) in
          if out =? 0 then Done (hops, mvl, None) else
          let! fee := big_div (current * pe_Fee e) 10000 in
          match hops with
          | [] => Panic "index out of range"
          | h :: hops =>
              let! impact := CalculatePriceImpact e t (Some current) in
              let! r := simulateRoute edges nodes hops out (fees + fee) (tighten (GetMaxAmount e t) mvl) in
              Done (fill_hop h current out fee impact :: r.1.1, r.1.2, r.2)
          end
      end
  end.

Definition new_hop (chainID : Z) (e : PoolEdge) (tokenIn tokenOut : bytes) : RouteHop :=
  {| rh_ChainID := chainID; rh_Pool := pe_Pool e; rh_DEX := pe_DEX e; rh_TokenIn := tokenIn; rh_TokenOut := tokenOut;
     rh_AmountIn := None; rh_AmountOut := None; rh_MinAmountOut := None; rh_PriceImpactBPS := 0; rh_Fee := None;
     rh_Weight := GetWeight e tokenIn |}.

Definition generateRouteID (startToken : bytes) (startChain : Z) (hops : list RouteHop) (detectedAt : Z) : bytes :=
  Keccak256 (startToken ++ [Zbyte startChain] ++ concat (rh_Pool <$> hops) ++ [Zbyte (Z.shiftr (detectedAt / 10 ^ 9) 24)]).

(** The gross profit in basis points of the start amount. *)
Definition profit_bps (gross start : Z) : outcome Z :=
  if 0 <? start then
    let! ratio := bf_Quo 0 (bf_SetInt gross) (bf_SetInt start) in
    let! c := bf_NewFloat (f_of_Z 10000) in
    let! ratio := bf_Mul (bf_prec ratio) ratio c in
    Done (bf_Int64 ratio)
  else Done 0.

(** What [cycleToRoute] and [buildTriangularRoute] share: the hops are simulated from the
    test amount, and the profits computed when that succeeds. *)
Definition finish_route (chainID : Z) (method : string) (weight : float64) (start : bytes) (hops : list RouteHop)
  (edges : list PoolEdge) (nodes : list bytes) (gas now : Z) (c : RouteConstraints) : outcome ArbitrageRoute :=
  let testAmount := default (10 ^ 18) (MinTradeSize c) in
  let! s := simulateRoute edges nodes hops testAmount 0 None in
  let! p := match s.2 with
            | Some (endA, fees) =>
                if 0 <? endA then
                  let! bps := profit_bps (endA - testAmount) testAmount in
                  Done (endA - testAmount, endA - testAmount - fees, bps)
                else Done (0, 0, 0)
            | None => Done (0, 0, 0)
            end in
  Done {| ar_ID := generateRouteID start chainID s.1.1 now; Hops := s.1.1; ar_StartToken := start; StartChain := chainID;
          StartAmount := Some testAmount; EndAmount := fst <$> s.2; GrossProfit := Some p.1.1; TotalFees := snd <$> s.2;
          GasEstimate := Some gas; NetProfit := Some p.1.2; ProfitBPS := p.2; ar_TotalWeight := weight; MinViableLiquidity := s.1.2;
          MaxSlippageBPS := 0; IsCrossChain := false; ChainIDs := [chainID]; DetectedAt := now;
          ar_ExpiresAt := now + RouteValidityDuration cfg; ValidityMS := Z.quot (RouteValidityDuration cfg) (10 ^ 6); PreSigned := false;
          PreSignedTxs := ∅; DetectionMethod := method |}.

(** The loop over the edges that makes the hops. *)
Fixpoint cycle_hops (chainID : Z) (nodes : list bytes) (edges : list PoolEdge) : outcome (list RouteHop) :=
  match edges with
  | [] => Done []
  | e :: edges =>
      match nodes with
      | [] => Panic "index out of range"
      | t :: nodes => let! hs := cycle_hops chainID nodes edges in Done (new_hop chainID e t (GetTokenOut e t) :: hs)
      end
  end.

Definition cycleToRoute (cy : cycleInfo) (chainID : Z) (c : RouteConstraints) (now : Z) : outcome (option ArbitrageRoute) :=
  if (length (cy_nodes cy) <? 2)%nat || (length (cy_edges cy) <? 2)%nat then Done None else
  let nodes := rev (cy_nodes cy) in
  let edges := rev (cy_edges cy) in
  let! hops := cycle_hops chainID nodes edges in
  let! r := finish_route chainID "bellman_ford" (cy_weight cy) (default zero20 (head nodes)) hops edges nodes
              (150000 * Z.of_nat (length hops)) now c in
  Done (Some r).

(** Routes are collected until there are [MaxRoutes]. *)
Definition best_of (best : option Z) (p : option Z) : option Z :=
  match best, p with
  | None, _ => p
  | Some b, Some q => Some (if b <? q then q else b)
  | Some b, None => Some b
  end.

Fixpoint collect_cycles (cys : list cycleInfo) (chainID : Z) (c : RouteConstraints) (now : Z) (routes : list ArbitrageRoute) (best : option Z)
  : outcome (list ArbitrageRoute * option Z) :=
  match cys with
  | [] => Done (routes, best)
  | cy :: cys =>
      let! r := cycleToRoute cy chainID c now in
      match r with
      | None => collect_cycles cys chainID c now routes best
      | Some r =>
          let! ok := Validate c r in
          if ok then
            let routes := routes ++ [r] in
            let best := best_of best (NetProfit r) in
            if MaxRoutes cfg <=? Z.of_nat (length routes) then Done (routes, best) else collect_cycles cys chainID c now routes best
          else collect_cycles cys chainID c now routes best
      end
  end.

(** [nodes] is what [GetAllNodes] returns. *)
Definition FindRoutes (g : TokenGraph) (nodes : list TokenNode) (startToken : bytes) (chainID : Z) (c : RouteConstraints) (now elapsed : Z)
  : outcome RouteFinderResult :=
  match nodes with
  | [] => Done {| rr_Routes := []; TotalSearched := 0; ValidCount := 0; BestProfit := None; SearchTime := elapsed; Method := "bellman_ford" |}
  | _ =>
      let dist := <[startToken := f0]> (fold_left (fun d n => <[tn_Address n := f_inf]> d) nodes (∅ : gmap bytes float64)) in
      let iterations := Z.min (MaxIterations cfg) (Z.of_nat (length nodes) - 1) in
      let s := relax_rounds (Z.to_nat iterations) g chainID nodes {| rx_dist := dist; rx_pred := ∅; rx_improved := true |} 0 in
      let! r := collect_cycles (detectNegativeCycles g chainID nodes (rx_dist s.1) (rx_pred s.1)) chainID c now [] None in
      Done {| rr_Routes := r.1; TotalSearched := s.2; ValidCount := Z.of_nat (length r.1); BestProfit := r.2; SearchTime := elapsed;
              Method := "bellman_ford" |}
  end.

(** ** Triangles *)

Definition buildTriangularRoute (chainID : Z) (a b d : bytes) (eAB eBC eCA : PoolEdge) (weight : float64) (c : RouteConstraints) (now : Z)
  : outcome ArbitrageRoute :=
  finish_route chainID "triangular" weight a [new_hop chainID eAB a b; new_hop chainID eBC b d; new_hop chainID eCA d a]
    [eAB; eBC; eCA] [a; b; d] 450000 now c.

(** The candidate triangles, in the order of the nested loops. *)
Definition triangles (g : TokenGraph) (chainID : Z) (start : bytes) : list (PoolEdge * PoolEdge * PoolEdge) :=
  eA ← GetNeighbors g chainID start;
  if bytes_eqb (GetTokenOut eA start) start then [] else
  eB ← GetNeighbors g chainID (GetTokenOut eA start);
  let tokenC := GetTokenOut eB (GetTokenOut eA start) in
  if bytes_eqb tokenC start || bytes_eqb tokenC (GetTokenOut eA start) then [] else
  eC ← GetEdgesBetween g chainID tokenC start;
  [(eA, eB, eC)].

Fixpoint triangle_routes (ts : list (PoolEdge * PoolEdge * PoolEdge)) (chainID : Z) (start : bytes) (c : RouteConstraints) (now : Z)
  : outcome (list ArbitrageRoute) :=
  match ts with
  | [] => Done []
  | (eA, eB, eC) :: ts =>
      let tokenB := GetTokenOut eA start in
      let tokenC := GetTokenOut eB tokenB in
      let weight := fadd (fadd (GetWeight eA start) (GetWeight eB tokenB)) (GetWeight eC tokenC) in
      if fleb f0 weight then triangle_routes ts chainID start c now
      else
        let! r := buildTriangularRoute chainID start tokenB tokenC eA eB eC weight c now in
        let! ok := Validate c r in
        let! rs := triangle_routes ts chainID start c now in
        Done (if ok then r :: rs else rs)
  end.

Definition findTriangularFrom (g : TokenGraph) (chainID : Z) (start : bytes) (c : RouteConstraints) (now : Z) : outcome (list ArbitrageRoute) :=
  triangle_routes (triangles g chainID start) chainID start c now.

Fixpoint triangular_starts (starts : list TokenNode) (g : TokenGraph) (chainID : Z) (c : RouteConstraints) (now : Z)
  (routes : list ArbitrageRoute) : outcome (list ArbitrageRoute) :=
  match starts with
  | [] => Done routes
  | n :: starts =>
      let! rs := findTriangularFrom g chainID (tn_Address n) c now in
      let routes := routes ++ rs in
      if MaxRoutes cfg <=? Z.of_nat (length routes) then Done routes else triangular_starts starts g chainID c now routes
  end.

Fixpoint count_valid (rs : list ArbitrageRoute) (c : RouteConstraints) (n : Z) (best : option Z) : outcome (Z * option Z) :=
  match rs with
  | [] => Done (n, best)
  | r :: rs =>
      let! ok := Validate c r in
      if ok then count_valid rs c (n + 1) (best_of best (NetProfit r)) else count_valid rs c n best
  end.

(** [nodes] is what [GetAllNodes] returns, [bluechips] those of them that are blue chips. *)
Definition FindTriangular (g : TokenGraph) (nodes : list TokenNode) (chainID : Z) (c : RouteConstraints) (now elapsed : Z)
  : outcome RouteFinderResult :=
  let bluechips := List.filter tn_IsBluechip nodes in
  let starts := match bluechips with [] => nodes | _ => bluechips end in
  let! routes := triangular_starts starts g chainID c now [] in
  let! v := count_valid routes c 0 None in
  Done {| rr_Routes := routes; TotalSearched := Z.of_nat (length routes); ValidCount := v.1; BestProfit := v.2; SearchTime := elapsed;
          Method := "triangular" |}.
End finder.

(** ** The liquidity filter *)

Record LiquidityTier := { lt_Name : string; lt_MinLiquidityUSD : float64; lt_MaxHops : Z; lt_Priority : Z }.

(** [MinPoolLiquidity] is a pointer in the source; a configuration sets it. *)
Record LiquidityConfig := {
  MinPoolLiquidity : Z; MinPoolLiquidityUSD : float64; MaxHopImpactBPS : Z; MaxTotalImpactBPS : Z; RequireBluechipHub : bool;
  Tiers : list LiquidityTier;
}.

Definition DefaultLiquidityConfig : LiquidityConfig :=
  {| MinPoolLiquidity := 10 ^ 18; MinPoolLiquidityUSD := f_of_Z 10000; MaxHopImpactBPS := 100; MaxTotalImpactBPS := 300;
     RequireBluechipHub := false;
     Tiers := [{| lt_Name := "blue_chip"; lt_MinLiquidityUSD := f_of_Z 1000000; lt_MaxHops := 4; lt_Priority := 1 |};
               {| lt_Name := "major"; lt_MinLiquidityUSD := f_of_Z 100000; lt_MaxHops := 3; lt_Priority := 2 |};
               {| lt_Name := "medium"; lt_MinLiquidityUSD := f_of_Z 10000; lt_MaxHops := 2; lt_Priority := 3 |};
               {| lt_Name := "long_tail"; lt_MinLiquidityUSD := f_of_Z 1000; lt_MaxHops := 2; lt_Priority := 4 |}] |}.

(** A filter is its configuration. *)
Definition NewLiquidityFilter (config : option LiquidityConfig) : LiquidityConfig := default DefaultLiquidityConfig config.

Definition hub (r : ArbitrageRoute) : bool := existsb (fun h => IsBluechip (StartChain r) (rh_TokenIn h)) (drop 1 (Hops r)).

Definition routeHasBluechipHub (r : ArbitrageRoute) : bool := if HopCount r <=? 2 then true else hub r.

(** The loop over the hops: nothing when one has too much impact. *)
Fixpoint total_impact (limit : Z) (hops : list RouteHop) (total : Z) : option Z :=
  match hops with
  | [] => Some total
  | h :: hops => if limit <? rh_PriceImpactBPS h then None else total_impact limit hops (i64 (total + rh_PriceImpactBPS h))
  end.

Definition ValidateRoute (lf : LiquidityConfig) (r : ArbitrageRoute) : bool :=
  match Hops r with
  | [] => false
  | _ =>
      if match MinViableLiquidity r with Some m => m <? MinPoolLiquidity lf | None => false end then false else
      match total_impact (MaxHopImpactBPS lf) (Hops r) 0 with
      | None => false
      | Some total =>
          if MaxTotalImpactBPS lf <? total then false
          else if RequireBluechipHub lf && (2 <? HopCount r) then hub r else true
      end
  end.

(** The order of the sort: descending net profit, routes without one last. *)
Definition more_profit (r s : ArbitrageRoute) : bool :=
  match NetProfit r, NetProfit s with
  | None, _ => false
  | Some _, None => true
  | Some p, Some q => q <? p
  end.

Definition FilterRoutes (lf : LiquidityConfig) (rs : list ArbitrageRoute) : list ArbitrageRoute :=
  sort_by more_profit (List.filter (ValidateRoute lf) rs).

Definition FilterByBluechipHub (rs : list ArbitrageRoute) : list ArbitrageRoute := List.filter routeHasBluechipHub rs.

Definition hop_node (g : TokenGraph) (h : RouteHop) : PathNode :=
  {| pn_Token := rh_TokenOut h; pn_ChainID := rh_ChainID h; pn_Edge := GetEdge g (rh_ChainID h) (rh_Pool h) |}.

Definition routeToGraphPath (r : ArbitrageRoute) (g : TokenGraph) : option GraphPath :=
  match Hops r with
  | [] => None
  | h :: _ =>
      Some {| gp_Nodes := {| pn_Token := rh_TokenIn h; pn_ChainID := StartChain r; pn_Edge := None |} :: (hop_node g <$> Hops r);
              gp_TotalWeight := fold_left (fun w h => match GetEdge g (rh_ChainID h) (rh_Pool h) with
                                                      | Some e => fadd w (GetWeight e (rh_TokenIn h))
                                                      | None => w
                                                      end) (Hops r) f0;
              gp_IsCycle := match last (Hops r) with Some l => bytes_eqb (rh_TokenIn h) (rh_TokenOut l) | None => false end |}
  end.

Definition FindOptimalTradeSize (r : ArbitrageRoute) (g : TokenGraph) (minAmount maxAmount : option Z) : outcome (Z * Z) :=
  let maxAmount := match maxAmount with
                   | Some m => if m <=? 0 then None else Some m
                   | None => None
                   end in
  let maxAmount := match maxAmount with
                   | Some m => m
                   | None => match MinViableLiquidity r with
                             | Some v => if 0 <? v then v else 10 * 10 ^ 18
                             | None => 10 * 10 ^ 18
                             end
                   end in
  let minAmount := default (10 ^ 16) minAmount in
  match routeToGraphPath r g with
  | None => Done (minAmount, 0)
  | Some p => FindOptimalAmount p minAmount maxAmount
  end.

Definition GetTierForPool (lf : LiquidityConfig) (liquidityUSD : float64) : option LiquidityTier :=
  find (fun t => fleb (lt_MinLiquidityUSD t) liquidityUSD) (Tiers lf).

Fixpoint max_hops (lf : LiquidityConfig) (liq : gmap bytes float64) (hops : list RouteHop) (m : Z) : Z :=
  match hops with
  | [] => m
  | h :: hops =>
      match GetTierForPool lf (default f0 (liq !! rh_Pool h)) with
      | None => 0
      | Some t => max_hops lf liq hops (if lt_MaxHops t <? m then lt_MaxHops t else m)
      end
  end.

Definition GetMaxHopsForPath (lf : LiquidityConfig) (r : ArbitrageRoute) (liq : gmap bytes float64) : Z := max_hops lf liq (Hops r) 100.

Fixpoint capacity_loop (g : TokenGraph) (hops : list RouteHop) (m : option Z) : option Z :=
  match hops with
  | [] => m
  | h :: hops =>
      match GetEdge g (rh_ChainID h) (rh_Pool h) with
      | None => Some 0
      | Some e =>
          match GetMaxAmount e (rh_TokenIn h) with
          | None => Some 0
          | Some a => if a =? 0 then Some 0 else capacity_loop g hops (tighten (Some a) m)
          end
      end
  end.

Definition CalculateRouteCapacity (r : ArbitrageRoute) (g : TokenGraph) : option Z :=
  match Hops r with [] => Some 0 | hops => capacity_loop g hops None end.

Definition hop_score (g : TokenGraph) (h : RouteHop) : option float64 :=
  match GetEdge g (rh_ChainID h) (rh_Pool h) with
  | None => None
  | Some e =>
      let reserveScore := match Reserve0 e, Reserve1 e with
                          | Some r0, Some r1 =>
                              let r0f := bf_Float64 (bf_SetInt r0) in
                              let r1f := bf_Float64 (bf_SetInt r1) in
                              if fltb f0 r0f && fltb f0 r1f then fmin f1 (fdiv (fmul r0f r1f) (f_of_Z (10 ^ 36))) else f0
                          | _, _ => f0
                          end in
      let bonus := if IsBluechip (rh_ChainID h) (rh_TokenIn h) || IsBluechip (rh_ChainID h) (rh_TokenOut h) then f_ratio 2 10 else f0 in
      let impactScore := fsub f1 (fdiv (f_of_Z (rh_PriceImpactBPS h)) (f_of_Z 10000)) in
      Some (fadd (fadd (fmul reserveScore (f_ratio 1 2)) (fmul impactScore (f_ratio 3 10))) bonus)
  end.

Definition ScoreRouteByLiquidity (r : ArbitrageRoute) (g : TokenGraph) : float64 :=
  let scores := omap (hop_score g) (Hops r) in
  match scores with
  | [] => f0
  | _ => fdiv (fold_left fadd scores f0) (f_of_Z (Z.of_nat (length scores)))
  end.

Definition route_score (r : ArbitrageRoute) (g : TokenGraph) : outcome float64 :=
  let! profitScore := match NetProfit r with
                      | Some p =>
                          if 0 <? p then
                            let! c := bf_NewFloat (f_of_Z (10 ^ 18)) in
                            let! q := bf_Quo 0 (bf_SetInt p) c in
                            Done (fmin f1 (fdiv (bf_Float64 q) f1))
                          else Done f0
                      | None => Done f0
                      end in
  let hopPenalty := fmul (f_of_Z (HopCount r)) (f_ratio 5 100) in
  Done (fsub (fadd (fmul profitScore (f_ratio 1 2)) (fmul (ScoreRouteByLiquidity r g) (f_ratio 4 10))) hopPenalty).

Fixpoint score_all (rs : list ArbitrageRoute) (g : TokenGraph) : outcome (list (ArbitrageRoute * float64)) :=
  match rs with
  | [] => Done []
  | r :: rs => let! s := route_score r g in let! t := score_all rs g in Done ((r, s) :: t)
  end.

Definition RankRoutes (rs : list ArbitrageRoute) (g : TokenGraph) : outcome (list ArbitrageRoute) :=
  let! scored := score_all rs g in Done (sort_by (fun x y => fltb y.2 x.2) scored).*1.

(** ** Arithmetic that cannot panic *)

Lemma quo_ints zp x y : y <> 0 -> exists m e, bf_Quo zp (bf_SetInt x) (bf_SetInt y) = Done (BF (bf_result zp (bf_SetInt x) (bf_SetInt y)) m e).
Proof. intros Hy. unfold bf_Quo, bf_SetInt at 2 3. rewrite (proj2 (Z.eqb_neq _ _)) by done. unfold bf_round. by do 2 eexists. Qed.

(** A ratio in basis points. *)
Lemma ratio_total x y : y <> 0 ->
  exists z, (let! ratio := bf_Quo 0 (bf_SetInt x) (bf_SetInt y) in
             let! c := bf_NewFloat (f_of_Z 10000) in
             let! ratio := bf_Mul (bf_prec ratio) ratio c in
             Done (bf_Int64 ratio)) = Done z.
Proof.
  intros Hy. destruct (quo_ints 0 x y Hy) as (m & e & ->). cbn [outcome_bind].
  eassert (E : bf_NewFloat (f_of_Z 10000) = Done (BF 53 _ _)) by (vm_compute; reflexivity). rewrite E. clear E. destruct m; eexists; reflexivity.
Qed.

Lemma impact_total e t a : exists i, CalculatePriceImpact e t (Some a) = Done i.
Proof.
  unfold CalculatePriceImpact. destruct (a <=? 0); [by eexists|]. destruct (GetReserveIn e t) as [ri|]; [|by eexists].
  destruct (Z.eqb_spec ri 0); [by eexists|]. by apply ratio_total.
Qed.

Lemma profit_bps_total gross start : exists b, profit_bps gross start = Done b.
Proof. unfold profit_bps. destruct (Z.ltb_spec 0 start); [|by eexists]. apply ratio_total. lia. Qed.

(** ** The amounts of a route *)

(** The hops carry, from [cur] on, the amounts the pools yield, ending with [last] and
    collecting [fees]. *)
Fixpoint amounts (es : list PoolEdge) (ts : list bytes) (hs hs' : list RouteHop) (cur fees : Z) (last total : Z) : Prop :=
  match es, ts, hs, hs' with
  | [], _, [], [] => last = cur /\ total = fees
  | e :: es, t :: ts, h :: hs, h' :: hs' =>
      exists out impact, h' = fill_hop h cur out (cur * pe_Fee e / 10000) impact /\ edge_GetAmountOut e t (Some cur) = Done out /\ 0 < out /\
        amounts es ts hs hs' out (fees + cur * pe_Fee e / 10000) last total
  | _, _, _, _ => False
  end.

Lemma simulateRoute_spec es ts hs cur fees mvl : Forall sane_edge es -> length ts = length es -> length hs = length es -> 0 <= cur ->
  exists hs' mvl' res, simulateRoute es ts hs cur fees mvl = Done (hs', mvl', res) /\
    match res with Some (last, total) => amounts es ts hs hs' cur fees last total | None => True end.
Proof.
  intros He. revert ts hs cur fees mvl. induction He as [|e es He _ IH]; intros [|t ts] [|h hs] cur fees mvl Ht Hh Hc; try done.
  - exists [], mvl, (Some (cur, fees)). split; [done|]. by split.
  - cbn [simulateRoute]. destruct (edge_out_total e t cur He Hc) as (out & Eo & Ho). rewrite Eo. cbn [outcome_bind].
    destruct (Z.eqb_spec out 0) as [|Hne]; [by exists (h :: hs), mvl, None|].
    rewrite big_div_pos by lia. cbn [outcome_bind]. destruct (impact_total e t cur) as (i & ->). cbn [outcome_bind].
    destruct (IH ts hs out (fees + cur * pe_Fee e / 10000) (tighten (GetMaxAmount e t) mvl)) as (hs' & mvl' & res & -> & Hr); [cbn in Ht; lia|cbn in Hh; lia|done|].
    cbn [outcome_bind fst snd]. eexists _, _, res. split; [done|]. destruct res as [[last total]|]; [|done].
    cbn [amounts]. exists out, i. split; [done|]. split; [done|]. split; [lia|done].
Qed.

Section built.
Context {C : Crypto} (cfg : BellmanFordConfig).

(** A built route: its hops carry the amounts, or it reports no profit at all. *)
Lemma finish_route_spec c m w start hs es ts gas now k : Forall sane_edge es -> length ts = length es -> length hs = length es ->
  0 <= default (10 ^ 18) (MinTradeSize k) ->
  exists r, finish_route cfg c m w start hs es ts gas now k = Done r /\ StartAmount r = Some (default (10 ^ 18) (MinTradeSize k)) /\
    (NetProfit r = Some 0 \/
     exists last fees, amounts es ts hs (Hops r) (default (10 ^ 18) (MinTradeSize k)) 0 last fees /\ EndAmount r = Some last /\ TotalFees r = Some fees /\
       0 < last /\ GrossProfit r = Some (last - default (10 ^ 18) (MinTradeSize k)) /\
       NetProfit r = Some (last - default (10 ^ 18) (MinTradeSize k) - fees)).
Proof.
  intros He Ht Hh Ha. unfold finish_route. set (a := default (10 ^ 18) (MinTradeSize k)) in *. cbv zeta.
  destruct (simulateRoute_spec es ts hs a 0 None He Ht Hh Ha) as (hs' & mvl & res & -> & Hr). cbn [outcome_bind fst snd].
  destruct res as [[last fees]|]; cbn [outcome_bind]; [|eexists; split; [done|]; by split; [|left]].
  destruct (Z.ltb_spec 0 last) as [Hl|]; cbn [outcome_bind]; [|eexists; split; [done|]; by split; [|left]].
  destruct (profit_bps_total (last - a) a) as (b & ->). cbn [outcome_bind]. eexists. split; [done|]. split; [done|]. right.
  exists last, fees. done.
Qed.
End built.

(** ** Triangular routes *)

Lemma Validate_total k r mp : MinProfitWei k = Some mp ->
  exists b, Validate k r = Done b /\ (b = true -> exists np, NetProfit r = Some np /\ mp <= np /\ forallb (hop_allowed k) (Hops r) = true).
Proof.
  intros Hm. unfold Validate. rewrite Hm. destruct (_ || _); [by exists false|]. destruct (NetProfit r) as [np|]; [|by exists false].
  destruct (Z.ltb_spec np mp); [by exists false|]. destruct (ProfitBPS r <? _); [by exists false|].
  destruct (match MaxGasCostWei k with Some _ => _ | None => _ end); [by exists false|]. destruct (_ && _); [by exists false|].
  eexists. split; [done|]. intros Hall. by exists np.
Qed.

Definition trades (e : PoolEdge) (t u : bytes) : Prop := (pe_Token0 e = t /\ pe_Token1 e = u) \/ (pe_Token1 e = t /\ pe_Token0 e = u).

Lemma trades_out e t : pe_Token0 e = t \/ pe_Token1 e = t -> trades e t (GetTokenOut e t).
Proof. unfold trades, GetTokenOut. destruct (bytes_eqb t (pe_Token0 e)) eqn:E; bool_to_prop; naive_solver. Qed.

Lemma neighbor_trades g c t e : graph_inv g -> e ∈ GetNeighbors g c t -> trades e t (GetTokenOut e t) /\ GetEdge g c (pe_Pool e) = Some e.
Proof.
  intros Hg (i & Hi & He)%neighbor_ref; [|done]. destruct (gi_ref _ Hg c t i Hi) as (e' & He' & Ht & Hp).
  rewrite He in He'. injection He' as <-. split; [by apply trades_out|]. unfold GetEdge. by rewrite Hp.
Qed.

Lemma elem_of_triangles g c s eA eB eC : (eA, eB, eC) ∈ triangles g c s ->
  let b := GetTokenOut eA s in let d := GetTokenOut eB b in
  eA ∈ GetNeighbors g c s /\ eB ∈ GetNeighbors g c b /\ eC ∈ GetNeighbors g c d /\ GetTokenOut eC d = s /\ b <> s /\ d <> s /\ d <> b.
Proof.
  unfold triangles. intros (eA' & H1 & HA)%list_elem_of_bind. destruct (bytes_eqb (GetTokenOut eA' s) s) eqn:E1; [by apply elem_of_nil in H1|].
  apply list_elem_of_bind in H1 as (eB' & H2 & HB). cbv zeta in H2. destruct (_ || _) eqn:E2; [by apply elem_of_nil in H2|].
  apply list_elem_of_bind in H2 as (eC' & H3 & HC). apply list_elem_of_singleton in H3 as [= -> -> ->].
  unfold GetEdgesBetween in HC. apply list_elem_of_In, filter_In in HC as [HC E3]. apply list_elem_of_In in HC. bool_to_prop. naive_solver.
Qed.

(** A hop through a pool of the graph, with the amount the pool yields. *)
Definition hop_through (g : TokenGraph) (c : Z) (h : RouteHop) : Prop :=
  exists e a o, rh_ChainID h = c /\ GetEdge g c (rh_Pool h) = Some e /\ trades e (rh_TokenIn h) (rh_TokenOut h) /\
    rh_AmountIn h = Some a /\ rh_AmountOut h = Some o /\ edge_GetAmountOut e (rh_TokenIn h) (Some a) = Done o /\
    rh_Fee h = Some (a * pe_Fee e / 10000) /\ 0 < o.

(** A closed route of three hops, each the continuation of the one before. *)
Record triangle_route (g : TokenGraph) (c : Z) (s : bytes) (r : ArbitrageRoute) : Prop := {
  tr_tokens : exists b d, GetTokenSequence r = [s; b; d; s] /\ b <> s /\ d <> s /\ d <> b /\ rh_TokenIn <$> Hops r = [s; b; d];
  tr_hops : Forall (hop_through g c) (Hops r);
  tr_amounts : exists x y, rh_AmountIn <$> Hops r = [StartAmount r; x; y] /\ rh_AmountOut <$> Hops r = [x; y; EndAmount r];
  tr_profit : exists a z f1 f2 f3, StartAmount r = Some a /\ EndAmount r = Some z /\ rh_Fee <$> Hops r = [Some f1; Some f2; Some f3] /\
    NetProfit r = Some (z - a - (f1 + f2 + f3));
}.

Section sound.
Context {C : Crypto} (cfg : BellmanFordConfig) (g : TokenGraph) (c : Z).
Context (Hg : graph_inv g) (Hsane : forall a e, GetEdge g c a = Some e -> sane_edge e).

Lemma neighbor_sane t e : e ∈ GetNeighbors g c t -> sane_edge e.
Proof using Hg Hsane. intros [_ H]%neighbor_trades; [|done]. by eapply Hsane. Qed.

Lemma built_triangle s eA eB eC w k now mp : (eA, eB, eC) ∈ triangles g c s -> MinProfitWei k = Some mp -> 0 < mp ->
  0 <= default (10 ^ 18) (MinTradeSize k) ->
  let b := GetTokenOut eA s in let d := GetTokenOut eB b in
  exists r ok, buildTriangularRoute cfg c s b d eA eB eC w k now = Done r /\ Validate k r = Done ok /\
    (ok = true -> triangle_route g c s r /\ exists np, NetProfit r = Some np /\ mp <= np).
Proof using Hg Hsane.
  intros Ht Hm Hmp Ha b d. destruct (elem_of_triangles _ _ _ _ _ _ Ht) as (HA & HB & HC & Hs & N1 & N2 & N3). fold b d in HB, HC, Hs, N1, N2, N3.
  destruct (finish_route_spec cfg c "triangular" w s [new_hop c eA s b; new_hop c eB b d; new_hop c eC d s] [eA; eB; eC] [s; b; d] 450000 now k)
    as (r & Er & Es & Hr); [|done..|].
  { repeat (apply Forall_cons; split); [by eapply neighbor_sane..|apply Forall_nil_2]. }
  destruct (Validate_total k r mp Hm) as (ok & Ev & Hok). exists r, ok. split; [done|]. split; [done|]. intros ->.
  destruct (Hok eq_refl) as (np & Hnp & Hge & _). split; [|by exists np].
  destruct Hr as [Hz|(z & fees & Ham & Hend & Hfees & Hpos & _ & Hnet)]; [rewrite Hz in Hnp; injection Hnp as <-; lia|].
  destruct (Hops r) as [|h1 [|h2 [|h3 [|]]]] eqn:Eh; cbn [amounts] in Ham; try (exfalso; repeat (destruct Ham as (? & ? & _ & _ & _ & Ham)); exact Ham).
  destruct Ham as (x & i1 & E1 & O1 & P1 & y & i2 & E2 & O2 & P2 & z' & i3 & E3 & O3 & P3 & -> & ->).
  apply neighbor_trades in HA as [TA GA]; [|done]. apply neighbor_trades in HB as [TB GB]; [|done]. apply neighbor_trades in HC as [TC GC]; [|done].
  fold b in TA. fold d in TB. rewrite Hs in TC.
  split; rewrite ?Eh.
  - exists b, d. unfold GetTokenSequence. rewrite Eh. subst h1 h2 h3. done.
  - subst h1 h2 h3. apply Forall_cons. split; [by exists eA; eauto 20|]. apply Forall_cons. split; [by exists eB; eauto 20|].
    apply Forall_cons. split; [by exists eC; eauto 20|apply Forall_nil_2].
  - exists (Some x), (Some y). subst h1 h2 h3. cbn. by rewrite Es, Hend.
  - eexists _, _, _, _, _. split; [exact Es|]. split; [exact Hend|]. subst h1 h2 h3. split; [reflexivity|]. by rewrite Hnet.
Qed.

Lemma triangle_routes_sound s k now mp ts : Forall (fun t => t ∈ triangles g c s) ts -> MinProfitWei k = Some mp -> 0 < mp ->
  0 <= default (10 ^ 18) (MinTradeSize k) ->
  exists rs, triangle_routes cfg ts c s k now = Done rs /\
    Forall (fun r => triangle_route g c s r /\ exists np, NetProfit r = Some np /\ mp <= np) rs.
Proof using Hg Hsane.
  intros Hts Hm Hmp Ha. induction Hts as [|[[eA eB] eC] ts Ht _ (rs & IH & Hrs)]; [by exists []|]. cbn [triangle_routes]. cbv zeta.
  case_match; [by exists rs|].
  edestruct (built_triangle s eA eB eC) as (r & ok & Eb & Ev & Hr); [done..|]. rewrite Eb. cbn [outcome_bind]. rewrite Ev. cbn [outcome_bind].
  rewrite IH. cbn [outcome_bind]. eexists. split; [done|]. destruct ok; [|done]. apply Forall_cons. split; [by apply Hr|done].
Qed.
End sound.

(** C22: Every triangular route the finder returns is real: for any reachable graph whose
    pools are sane and any positive minimum profit, the search from a token returns without
    panicking, and each of its routes is a closed walk over three distinct tokens, every hop
    through a pool of the graph that trades its two tokens and with the amount that pool
    yields for the amount the previous hop delivered; the net profit is the end amount less
    the start amount and the fees of the hops, and reaches the minimum. *)
Theorem triangular_sound {C : Crypto} Log gcfg xs cfg c s k now mp :
  NoDup (EnabledChains (default DefaultGraphConfig gcfg)) -> Forall proper_op xs ->
  let g := fold_left (graph_exec Log) xs (NewTokenGraph gcfg) in
  (forall a e, GetEdge g c a = Some e -> sane_edge e) ->
  MinProfitWei k = Some mp -> 0 < mp -> 0 <= default (10 ^ 18) (MinTradeSize k) ->
  exists rs, findTriangularFrom cfg g c s k now = Done rs /\
    Forall (fun r => triangle_route g c s r /\ exists np, NetProfit r = Some np /\ mp <= np) rs.
Proof.
  intros Hn Hx g Hs Hm Hmp Ha. destruct (new_graph_inv gcfg) as [H0 Hc].
  assert (Hg : graph_inv g) by (apply graph_run_inv; [by rewrite Hc|done|done]).
  apply (triangle_routes_sound cfg g c Hg Hs s k now mp); [|done..]. by apply Forall_forall.
Qed.

(** A check that all edges of a store are sane. *)
Definition sane_edgeb (e : PoolEdge) : bool :=
  (0 <=? pe_Fee e) && (pe_Fee e <=? 10000) && (0 <=? default 0 (Reserve0 e)) && (0 <=? default 0 (Reserve1 e)).

Lemma sane_by_check g c : forallb (fun ie => sane_edgeb ie.2) (map_to_list (edge_store g)) = true ->
  forall a e, GetEdge g c a = Some e -> sane_edge e.
Proof.
  intros Hb a e. unfold GetEdge. intros (i & _ & He)%bind_Some. rewrite forallb_forall in Hb.
  specialize (Hb (i, e) ltac:(by apply list_elem_of_In, elem_of_map_to_list)). unfold sane_edgeb in Hb. cbn [snd] in Hb.
  rewrite !andb_true_iff, !Z.leb_le in Hb. destruct Hb as [[Hf H0] H1]. split; [done|]. split; intros r Hr; rewrite Hr in *; done.
Qed.

Lemma ex_ops_proper : Forall proper_op ex_ops.
Proof. apply Forall_cons. split; [exact ex_listing_proper|]. apply Forall_cons. split; [exact I|]. apply Forall_nil_2. Qed.

Definition ex_triangles : outcome (list ArbitrageRoute) :=
  findTriangularFrom (C := Toy.crypto) DefaultBellmanFordConfig ex_graph 1 (ex_token 1) DefaultRouteConstraints 0.

Lemma triangular_sound_witness :
  (exists rs, ex_triangles = Done rs /\
     Forall (fun r => triangle_route ex_graph 1 (ex_token 1) r /\ exists np, NetProfit r = Some np /\ 10 ^ 15 <= np) rs) /\
  match ex_triangles with Done [r] => NetProfit r = Some 951388950365518002 | _ => False end.
Proof.
  split; [|vm_compute; reflexivity].
  refine (triangular_sound (C := Toy.crypto) ex_log None ex_ops DefaultBellmanFordConfig 1 (ex_token 1) DefaultRouteConstraints 0 (10 ^ 15)
    _ ex_ops_proper _ eq_refl _ _).
  - apply (bool_decide_unpack (NoDup _)). by vm_compute.
  - apply sane_by_check. vm_compute. reflexivity.
  - lia.
  - cbn. lia.
Defined.

(** The amounts of the route are within the limits of its pools. *)
Definition within_limits (g : TokenGraph) (r : ArbitrageRoute) : Prop :=
  Forall (fun h => forall e m a, GetEdge g (rh_ChainID h) (rh_Pool h) = Some e -> GetMaxAmount e (rh_TokenIn h) = Some m -> rh_AmountIn h = Some a -> a <= m) (Hops r).

Lemma simulate_hop g c h ns a fees : hop_through g c h -> rh_AmountIn h = Some a ->
  (forall e m a, GetEdge g (rh_ChainID h) (rh_Pool h) = Some e -> GetMaxAmount e (rh_TokenIn h) = Some m -> rh_AmountIn h = Some a -> a <= m) ->
  exists o f, rh_AmountOut h = Some o /\ rh_Fee h = Some f /\
    simulate_loop (rh_TokenIn h) (hop_node g h :: ns) a fees = simulate_loop (rh_TokenOut h) ns o (fees + f).
Proof.
  intros (e & a' & o & Hc & He & _ & Ha & Ho & Hout & Hf & Hpos) Ha' Hlim. rewrite Ha in Ha'. injection Ha' as ->.
  exists o, (a * pe_Fee e / 10000). split; [done|]. split; [done|]. cbn [simulate_loop hop_node pn_Edge pn_Token]. rewrite Hc in *. rewrite He.
  assert (Hm : match GetMaxAmount e (rh_TokenIn h) with Some m => m <? a | None => false end = false).
  { destruct (GetMaxAmount e (rh_TokenIn h)) as [m|] eqn:Em; [|done]. apply Z.ltb_ge. by apply (Hlim e m a). }
  rewrite Hm, Hout. cbn [outcome_bind]. rewrite (proj2 (Z.eqb_neq o 0)) by lia. by rewrite big_div_pos by lia.
Qed.

(** The finder and the simulator of the graph agree: the path made from a triangular
    route is a cycle, and simulating it from the start amount of the route gives the end
    amount and the fees the route reports, as long as the amounts are within the limits
    of the pools. *)
Theorem route_simulation_agrees g c s r a z np : triangle_route g c s r -> within_limits g r ->
  StartAmount r = Some a -> EndAmount r = Some z -> NetProfit r = Some np ->
  exists p, routeToGraphPath r g = Some p /\ gp_IsCycle p = true /\ StartToken p = s /\ EndToken p = s /\
    SimulatePathExecution p a = Done (z, z - a - np, true).
Proof.
  intros [(b & d & Hseq & _ & _ & _ & Hin) Hhops (x & y & Hai & Hao) (a' & z' & f1 & f2 & f3 & Ea & Ez & Hfee & Hnp)] Hl Ha Hz Hn.
  rewrite Ea in Ha. rewrite Ez in Hz. rewrite Hnp in Hn. injection Ha as ->. injection Hz as ->. injection Hn as <-.
  unfold routeToGraphPath, within_limits, GetTokenSequence in *. destruct (Hops r) as [|h1 [|h2 [|h3 [|]]]]; try done.
  cbn in Hseq, Hin, Hai, Hao, Hfee. injection Hseq as T1 T2 T3 T4. injection Hin as I1 I2 I3. injection Hai as A1 A2 A3. injection Hao as O1 O2 O3.
  injection Hfee as F1 F2 F3. apply Forall_cons in Hhops as [P1 [P2 [P3 _]%Forall_cons]%Forall_cons].
  apply Forall_cons in Hl as [L1 [L2 [L3 _]%Forall_cons]%Forall_cons]. rewrite Ea in A1. rewrite Ez in O3.
  eexists. split; [done|]. cbn [gp_IsCycle last]. split; [rewrite I1, T4; by apply bytes_eqb_true|].
  split; [exact I1|]. split; [exact T4|]. unfold SimulatePathExecution. cbn [gp_Nodes fmap list_fmap pn_Token].
  destruct (simulate_hop g c h1 [hop_node g h2; hop_node g h3] a 0 P1 A1 L1) as (o1 & g1 & Eo1 & Eg1 & ->).
  rewrite T2, <- I2.
  assert (Hx : rh_AmountIn h2 = Some o1) by congruence. assert (Hy : exists o2, rh_AmountOut h2 = Some o2 /\ rh_AmountIn h3 = Some o2).
  { destruct P2 as (? & ? & o2 & _ & _ & _ & _ & Ho2 & _). exists o2. split; congruence. }
  destruct Hy as (o2 & Eo2 & Hy).
  destruct (simulate_hop g c h2 [hop_node g h3] o1 (0 + g1) P2 Hx L2) as (o2' & g2 & Eo2' & Eg2 & ->).
  rewrite T3, <- I3. assert (o2' = o2) as -> by congruence.
  destruct (simulate_hop g c h3 [] o2 (0 + g1 + g2) P3 Hy L3) as (o3 & g3 & Eo3 & Eg3 & ->).
  cbn [simulate_loop]. assert (o3 = z) as -> by congruence. assert (g1 = f1 /\ g2 = f2 /\ g3 = f3) as (-> & -> & ->) by (split_and!; congruence).
  do 3 f_equal. lia.
Qed.

Definition within_limitsb (g : TokenGraph) (r : ArbitrageRoute) : bool :=
  forallb (fun h => match GetEdge g (rh_ChainID h) (rh_Pool h) ≫= (fun e => GetMaxAmount e (rh_TokenIn h)), rh_AmountIn h with
                    | Some m, Some a => a <=? m
                    | _, _ => true
                    end) (Hops r).

Lemma within_limitsb_spec g r : within_limitsb g r = true -> within_limits g r.
Proof.
  unfold within_limitsb, within_limits. rewrite forallb_forall, Forall_forall. intros H h Hh e m a He Hm Ha.
  specialize (H h ltac:(by apply list_elem_of_In)). rewrite He in H. cbn in H. rewrite Hm, Ha in H. by apply Z.leb_le.
Qed.

Lemma found_triangle {C : Crypto} cfg g c s k now mp r : graph_inv g -> (forall a e, GetEdge g c a = Some e -> sane_edge e) ->
  MinProfitWei k = Some mp -> 0 < mp -> 0 <= default (10 ^ 18) (MinTradeSize k) ->
  findTriangularFrom cfg g c s k now = Done [r] -> triangle_route g c s r.
Proof.
  intros Hg Hs Hm Hp Ha E. destruct (triangle_routes_sound cfg g c Hg Hs s k now mp (triangles g c s)) as (rs & E' & H); [by apply Forall_forall|done..|].
  unfold findTriangularFrom in E. rewrite E in E'. injection E' as <-. apply Forall_cons in H. apply H.
Qed.

Lemma ex_graph_inv : graph_inv ex_graph.
Proof.
  apply graph_run_inv; [|apply new_graph_inv|exact ex_ops_proper]. apply (bool_decide_unpack (NoDup _)). by vm_compute.
Qed.

Lemma route_simulation_agrees_witness :
  match ex_triangles with
  | Done [r] =>
      exists p, routeToGraphPath r ex_graph = Some p /\ gp_IsCycle p = true /\ StartToken p = ex_token 1 /\ EndToken p = ex_token 1 /\
        SimulatePathExecution p (10 ^ 18) = Done (1972257600601765695, 1972257600601765695 - 10 ^ 18 - 951388950365518002, true)
  | _ => False
  end.
Proof.
  assert (Hr : match ex_triangles with
               | Done [r] => within_limitsb ex_graph r = true /\ StartAmount r = Some (10 ^ 18) /\ EndAmount r = Some 1972257600601765695 /\
                             NetProfit r = Some 951388950365518002
               | _ => False end) by (vm_compute; auto).
  assert (Ht : forall r, ex_triangles = Done [r] -> triangle_route ex_graph 1 (ex_token 1) r).
  { intros r. apply (found_triangle _ _ _ _ _ _ (10 ^ 15)); [exact ex_graph_inv| |reflexivity|lia|cbn; lia].
    apply sane_by_check. vm_compute. reflexivity. }
  revert Hr Ht. generalize ex_triangles. intros [[|r [|]]|m|]; try done. intros (Hl & Ha & Hz & Hn) Ht.
  exact (route_simulation_agrees ex_graph 1 (ex_token 1) r _ _ _ (Ht r eq_refl) (within_limitsb_spec _ _ Hl) Ha Hz Hn).
Defined.

(** ** The Bellman-Ford search goes backwards *)

Lemma trades_back e u v : trades e u v -> GetTokenOut e v = u.
Proof. unfold trades, GetTokenOut. destruct (bytes_eqb v (pe_Token0 e)) eqn:E; bool_to_prop; naive_solver. Qed.

Lemma trades_sym e u v : trades e u v -> trades e v u.
Proof. unfold trades. tauto. Qed.

(** Every edge leads from its node to the next one, and the last edge to [cur]. *)
Fixpoint linked (ns : list bytes) (es : list PoolEdge) (cur : bytes) : Prop :=
  match ns, es with
  | [], [] => True
  | n :: ns, e :: es => GetTokenOut e n = List.hd cur ns /\ linked ns es cur
  | _, _ => False
  end.

Lemma linked_snoc ns es cur e next : linked ns es cur -> GetTokenOut e cur = next -> linked (ns ++ [cur]) (es ++ [e]) next.
Proof.
  revert es. induction ns as [|n ns IH]; intros [|e' es] Hl He; try done. cbn in Hl |- *. destruct Hl as [H1 H2]. split; [|by apply IH].
  rewrite H1. by destruct ns.
Qed.

Lemma linked_drop i ns es cur : linked ns es cur -> linked (drop i ns) (drop i es) cur.
Proof. revert ns es. induction i as [|i IH]; intros [|n ns] [|e es] Hl; try done. cbn in *. apply IH, Hl. Qed.

Section backwards.
Context {C : Crypto} (cfg : BellmanFordConfig) (g : TokenGraph) (c : Z) (Hg : graph_inv g).

Definition pred_ok (pred : gmap bytes predecessorInfo) : Prop := forall v i, pred !! v = Some i -> trades (pi_edge i) (pi_from i) v.

Lemma relax_ok t s e : e ∈ GetNeighbors g c t -> pred_ok (rx_pred s) -> pred_ok (rx_pred (relax cfg t s e)).
Proof using Hg.
  intros He Hs. unfold relax. destruct (shortens cfg (rx_dist s) t e); [|done]. cbn [rx_pred]. intros v i.
  destruct (decide (v = GetTokenOut e t)) as [->|]; [rewrite lookup_insert_eq|rewrite lookup_insert_ne by done; apply Hs].
  intros [= <-]. by apply neighbor_trades in He as [? _].
Qed.

Lemma relax_node_ok s n : pred_ok (rx_pred s) -> pred_ok (rx_pred (relax_node cfg g c s n)).
Proof using Hg.
  intros Hs. unfold relax_node. destruct (is_pinf _); [done|]. apply (fold_left_inv (fun s => pred_ok (rx_pred s))); [done|].
  intros s' e He Hs'. by apply relax_ok.
Qed.

Lemma relax_rounds_ok n nodes s k : pred_ok (rx_pred s) -> pred_ok (rx_pred (relax_rounds cfg n g c nodes s k).1).
Proof using Hg.
  revert s k. induction n as [|n IH]; intros s k Hs; [done|]. cbn [relax_rounds]. destruct (rx_improved s); [|done]. apply IH.
  apply (fold_left_inv (fun s => pred_ok (rx_pred s))); [done|]. intros s' x _. apply relax_node_ok.
Qed.

Lemma trace_linked n pred ns es w seen cur : pred_ok pred -> linked ns es cur ->
  exists cur', linked (trace_loop n pred ns es w seen cur).1.1 (trace_loop n pred ns es w seen cur).1.2 cur'.
Proof.
  intros Hp. revert ns es w seen cur. induction n as [|n IH]; intros ns es w seen cur Hl; [by exists cur|]. cbn [trace_loop].
  destruct (pred !! cur) as [i|] eqn:E; [|by exists cur]. apply Hp, trades_back in E.
  assert (Hl' : linked (ns ++ [cur]) (es ++ [pi_edge i]) (pi_from i)) by (by apply linked_snoc with (cur := cur)).
  destruct (seen !! pi_from i); [|by apply IH]. exists (pi_from i). by apply linked_drop.
Qed.

Lemma traceCycle_linked start pred e cy u : pred_ok pred -> trades e u start -> traceCycle cfg start pred e = Some cy ->
  exists cur, linked (cy_nodes cy) (cy_edges cy) cur.
Proof.
  intros Hp He. unfold traceCycle.
  destruct (trace_linked (Z.to_nat (MaxIterations cfg)) pred [GetTokenOut e start] [e] (fadd f0 (GetWeight e start)) {[start := 0%nat]} start) as (cur & Hl); [done| |].
  - cbn. split; [|done]. apply trades_back in He as Eu. rewrite Eu. by apply trades_back, trades_sym.
  - destruct (trace_loop _ _ _ _ _ _ _) as [[ns es] w]. cbn in Hl. case_match; [done|]. intros [= <-]. by exists cur.
Qed.

Lemma cycles_linked nodes dist pred : pred_ok pred ->
  Forall (fun cy => exists cur, linked (cy_nodes cy) (cy_edges cy) cur) (detectNegativeCycles cfg g c nodes dist pred).
Proof using Hg.
  intros Hp. unfold detectNegativeCycles. set (P := fun s : list cycleInfo * gset bytes => Forall (fun cy => exists cur, linked (cy_nodes cy) (cy_edges cy) cur) s.1).
  apply (fold_left_inv P); [by constructor|]. intros s n _ Hs. destruct (is_pinf _); [done|]. apply (fold_left_inv P); [done|].
  intros s' e He Hs'. cbv zeta. destruct (shortens _ _ _ _); [|done]. case_bool_decide; [done|].
  destruct (traceCycle _ _ _ _) as [cy|] eqn:E; [|done]. destruct (fltb _ _); [|done]. apply Forall_app. split; [done|].
  apply Forall_singleton. apply neighbor_trades in He as [He _]; [|done]. by eapply traceCycle_linked.
Qed.
End backwards.

(** The hops chain when they are read from the last to the first. *)
Definition backwards (hs : list RouteHop) : Prop :=
  forall i h h', hs !! i = Some h -> hs !! S i = Some h' -> rh_TokenOut h' = rh_TokenIn h.

Definition cycle_hop (c : Z) (x : bytes * PoolEdge) : RouteHop := new_hop c x.2 x.1 (GetTokenOut x.2 x.1).

Lemma cycle_hops_app c ns es n e hs : length ns = length es -> cycle_hops c ns es = Done hs ->
  cycle_hops c (ns ++ [n]) (es ++ [e]) = Done (hs ++ [cycle_hop c (n, e)]).
Proof.
  revert es hs. induction ns as [|n' ns IH]; intros [|e' es] hs Hl H; try done; [injection H as <-; done|].
  cbn in Hl, H |- *. injection Hl as Hl. destruct (cycle_hops c ns es) as [hs'| |] eqn:E; try done. cbn in H. injection H as <-.
  by rewrite (IH es hs' Hl E).
Qed.

(** The hops of a linked cycle: reversed, the start of each is the end of the next. *)
Lemma cycle_hops_backwards c ns es cur : linked ns es cur ->
  exists hs, cycle_hops c (rev ns) (rev es) = Done hs /\ length hs = length es /\ backwards hs /\
    (forall h, last hs = Some h -> rh_TokenOut h = List.hd cur (drop 1 ns) /\ rh_TokenIn h = List.hd cur ns).
Proof.
  revert es. induction ns as [|n ns IH]; intros [|e es] Hl; try done; [by exists []|]. cbn in Hl. destruct Hl as [He Hl].
  destruct (IH es Hl) as (hs & E & Hlen & Hb & Hlast).
  assert (Hll : length ns = length es).
  { clear -Hl. revert es Hl. induction ns as [|? ns IH]; intros [|? es] Hl; try done. cbn in *. f_equal. apply IH, Hl. }
  exists (hs ++ [cycle_hop c (n, e)]). split; [cbn; apply cycle_hops_app; [by rewrite !length_rev|done]|].
  split; [rewrite length_app; cbn; lia|]. split.
  - intros i h h' Hi Hi'. apply lookup_snoc_Some in Hi' as [[Hlt Hi']|[Heq <-]].
    + rewrite lookup_app_l in Hi by lia. by apply (Hb i).
    + rewrite lookup_app_l in Hi by lia. assert (Hh : last hs = Some h) by (rewrite last_lookup, <- Heq; done).
      apply Hlast in Hh as [_ ->]. cbn. by rewrite He.
  - intros h. rewrite last_snoc. intros [= <-]. cbn. by destruct ns.
Qed.

Lemma simulateRoute_tokens es ts hs cur fees mvl hs' mvl' res : simulateRoute es ts hs cur fees mvl = Done (hs', mvl', res) ->
  rh_TokenIn <$> hs' = rh_TokenIn <$> hs /\ rh_TokenOut <$> hs' = rh_TokenOut <$> hs.
Proof.
  revert ts hs cur fees mvl hs' mvl' res. induction es as [|e es IH]; intros ts hs cur fees mvl hs' mvl' res; cbn [simulateRoute]; [by intros [= <- _ _]|].
  destruct ts as [|t ts]; [done|]. destruct (edge_GetAmountOut e t (Some cur)) as [out| |]; try done. cbn [outcome_bind].
  destruct (out =? 0); [by intros [= <- _ _]|]. destruct (big_div _ _) as [fee| |]; try done. cbn [outcome_bind]. destruct hs as [|h hs]; [done|].
  destruct (CalculatePriceImpact _ _ _) as [i| |]; try done. cbn [outcome_bind].
  destruct (simulateRoute es ts hs out _ _) as [[[hs1 mvl1] res1]| |] eqn:E; try done. cbn [outcome_bind fst snd]. intros [= <- _ _].
  destruct (IH _ _ _ _ _ _ _ _ E) as [E1 E2]. cbn. by rewrite E1, E2.
Qed.

Lemma backwards_tokens hs hs' : rh_TokenIn <$> hs' = rh_TokenIn <$> hs -> rh_TokenOut <$> hs' = rh_TokenOut <$> hs -> backwards hs -> backwards hs'.
Proof.
  intros E1 E2 Hb i h h' Hi Hi'. apply (f_equal (.!! i)) in E1. apply (f_equal (.!! S i)) in E2. rewrite !list_lookup_fmap, Hi in E1.
  rewrite !list_lookup_fmap, Hi' in E2. cbn in E1, E2. destruct (hs !! i) as [k|] eqn:K; [|done]. destruct (hs !! S i) as [k'|] eqn:K'; [|done].
  injection E1 as ->. injection E2 as ->. by apply (Hb i).
Qed.

Section backwards_routes.
Context {C : Crypto} (cfg : BellmanFordConfig).

Lemma cycleToRoute_backwards cy c k now r : (exists cur, linked (cy_nodes cy) (cy_edges cy) cur) ->
  cycleToRoute cfg cy c k now = Done (Some r) -> backwards (Hops r).
Proof.
  intros [cur Hl]. unfold cycleToRoute. destruct (_ || _); [done|]. cbv zeta. destruct (cycle_hops_backwards c _ _ _ Hl) as (hs & E & _ & Hb & _).
  rewrite E. cbn [outcome_bind]. unfold finish_route. cbv zeta.
  destruct (simulateRoute _ _ _ _ _ _) as [[[hs' mvl] res]| |] eqn:Es; try done. cbn [outcome_bind fst snd].
  destruct (match res with Some _ => _ | None => _ end) as [p| |]; try done. cbn [outcome_bind]. intros [= <-]. cbn [Hops].
  apply simulateRoute_tokens in Es as [E1 E2]. by apply (backwards_tokens hs).
Qed.

Lemma collect_backwards cys c k now rs best r : Forall (fun cy => exists cur, linked (cy_nodes cy) (cy_edges cy) cur) cys ->
  Forall (fun r => backwards (Hops r)) rs -> collect_cycles cfg cys c k now rs best = Done r -> Forall (fun r => backwards (Hops r)) r.1.
Proof.
  intros Hc. revert rs best. induction Hc as [|cy cys Hcy _ IH]; intros rs best Hr; cbn [collect_cycles]; [by intros [= <-]|].
  destruct (cycleToRoute cfg cy c k now) as [[r'|]| |] eqn:E; try done; cbn [outcome_bind]; [|by apply IH].
  destruct (Validate k r') as [ok| |]; try done. cbn [outcome_bind]. destruct ok; [|by apply IH]. cbv zeta.
  assert (Hr' : Forall (fun r => backwards (Hops r)) (rs ++ [r'])).
  { apply Forall_app. split; [done|]. apply Forall_singleton. by apply (cycleToRoute_backwards _ _ _ _ _ Hcy E). }
  case_match; [by intros [= <-]|by apply IH].
Qed.
End backwards_routes.

(** The hops of a route found by Bellman-Ford are in the wrong order: in every route it
    returns for a reachable graph, the token a hop delivers is not the token the next hop
    takes but the other way round, each hop takes the token the next one delivers.  (Both
    the order of the predecessors and the direction of the edges are reversed, where one
    would have been enough.) *)
Theorem bellman_ford_backwards {C : Crypto} Log gcfg xs cfg nodes s c k now el res :
  NoDup (EnabledChains (default DefaultGraphConfig gcfg)) -> Forall proper_op xs ->
  let g := fold_left (graph_exec Log) xs (NewTokenGraph gcfg) in
  FindRoutes cfg g nodes s c k now el = Done res -> Forall (fun r => backwards (Hops r)) (rr_Routes res).
Proof.
  intros Hn Hx g. destruct (new_graph_inv gcfg) as [H0 Hc].
  assert (Hg : graph_inv g) by (apply graph_run_inv; [by rewrite Hc|done|done]). unfold FindRoutes. destruct nodes as [|n ns]; [intros [= <-]; constructor|].
  cbv zeta. destruct (collect_cycles _ _ _ _ _ _ _) as [r| |] eqn:E; try done. cbn [outcome_bind]. intros [= <-]. cbn [rr_Routes].
  apply (collect_backwards cfg _ _ _ _ _ _ _) in E; [done| |constructor]. apply cycles_linked; [done|]. apply relax_rounds_ok; [done|].
  intros v i. cbn [rx_pred]. by rewrite lookup_empty.
Qed.

(** The opportunity is missed: three pools make a triangle that almost doubles the trade; the
    enumeration of triangles reports it, and the search for negative cycles reports nothing. *)
Lemma negative_cycle_missed :
  match FindRoutes (C := Toy.crypto) DefaultBellmanFordConfig ex_graph (GetAllNodes ex_graph 1) (ex_token 1) 1 DefaultRouteConstraints 0 0,
        FindTriangular (C := Toy.crypto) DefaultBellmanFordConfig ex_graph (GetAllNodes ex_graph 1) 1 DefaultRouteConstraints 0 0 with
  | Done r, Done t => rr_Routes r = [] /\ ValidCount t = 3 /\ BestProfit t = Some 970650523545856851
  | _, _ => False
  end.
Proof. vm_compute. done. Qed.

(** Constraints that let losses through, so that the routes can be looked at. *)
Definition ex_lax : RouteConstraints :=
  {| rc_MaxHops := 4; rc_MinHops := 2; MinProfitWei := Some (- 10 ^ 18); MinProfitBPS := -1000; MaxGasGwei := 50; MaxGasCostWei := None;
     rc_MinLiquidityUSD := f0; MinTradeSize := None; MaxPriceImpactBPS := 100; MaxTotalSlippage := 200;
     AllowedTokens := []; ExcludedTokens := []; AllowedDEXs := []; ExcludedPools := []; AllowTriangular := true;
     AllowCrossChain := true; RequireBluechip := false |}.

Definition ex_found (g : TokenGraph) : outcome RouteFinderResult :=
  FindRoutes (C := Toy.crypto) DefaultBellmanFordConfig g (GetAllNodes g 1) (ex_token 1) 1 ex_lax 0 0.

Lemma bellman_ford_backwards_witness :
  match ex_found (fold_left (graph_exec ex_log) ex_ops (NewTokenGraph None)) with
  | Done res => Forall (fun r => backwards (Hops r)) (rr_Routes res) /\
                (fun r => (fun h => (be_int (rh_TokenIn h), be_int (rh_TokenOut h))) <$> Hops r) <$> rr_Routes res =
                [[(1, 3); (2, 1); (3, 2); (2, 3)]; [(3, 2); (1, 3); (2, 1); (1, 2)]]
  | _ => False
  end.
Proof.
  assert (Hd : match ex_found (fold_left (graph_exec ex_log) ex_ops (NewTokenGraph None)) with
    | Done res => (fun r => (fun h => (be_int (rh_TokenIn h), be_int (rh_TokenOut h))) <$> Hops r) <$> rr_Routes res =
                [[(1, 3); (2, 1); (3, 2); (2, 3)]; [(3, 2); (1, 3); (2, 1); (1, 2)]]
    | _ => False
    end) by (vm_compute; reflexivity).
  assert (H : forall res, ex_found (fold_left (graph_exec ex_log) ex_ops (NewTokenGraph None)) = Done res ->
    Forall (fun r => backwards (Hops r)) (rr_Routes res)).
  { intros res. unfold ex_found. refine (bellman_ford_backwards (C := Toy.crypto) ex_log None ex_ops DefaultBellmanFordConfig _ _ 1 ex_lax 0 0 res _ ex_ops_proper).
    apply (bool_decide_unpack (NoDup _)). by vm_compute. }
  revert Hd H. generalize (ex_found (fold_left (graph_exec ex_log) ex_ops (NewTokenGraph None))). intros [res| |] Hd H; [|done..].
  split; [exact (H res eq_refl)|exact Hd].
Defined.

(** ** Sorted results *)

(** The filter returns the routes that are valid, the most profitable first. *)
Lemma filter_routes_sound lf rs :
  FilterRoutes lf rs ≡ₚ List.filter (ValidateRoute lf) rs /\ StronglySorted (fun r s => more_profit s r = false) (FilterRoutes lf rs).
Proof.
  split; [apply sort_by_perm|]. apply sort_by_sorted; unfold more_profit.
  - intros x y. destruct (NetProfit x), (NetProfit y); rewrite ?Z.ltb_lt, ?Z.ltb_ge; try done. lia.
  - intros x y z. destruct (NetProfit x), (NetProfit y), (NetProfit z); rewrite ?Z.ltb_ge; try done. lia.
Qed.

(** ** The cache *)

Record cache_ok (c : RouteCache) : Prop := {
  co_route : forall id r, rcache_routes c !! id = Some r -> ar_ID r = id /\ rcache_expiries c !! id = Some (ar_ExpiresAt r);
  co_dom : forall id, is_Some (rcache_expiries c !! id) -> is_Some (rcache_routes c !! id);
}.

Lemma cache_ok_delete c id : cache_ok c -> cache_ok (cache_delete c id).
Proof.
  intros [H1 H2]. split; unfold cache_delete; cbn.
  - intros i r Hi. destruct (decide (i = id)) as [->|]; [by rewrite lookup_delete_eq in Hi|]. rewrite lookup_delete_ne in Hi by done.
    rewrite lookup_delete_ne by done. by apply H1.
  - intros i Hi. destruct (decide (i = id)) as [->|]; [rewrite lookup_delete_eq in Hi; by destruct Hi|]. rewrite lookup_delete_ne in Hi by done.
    rewrite lookup_delete_ne by done. by apply H2.
Qed.

Inductive cache_op := CAdd (r : ArbitrageRoute) | CGet (id : bytes) | CValid | CPrune.

Definition cache_exec (c : RouteCache) (x : cache_op * Z) : RouteCache :=
  match x.1 with
  | CAdd r => cache_Add c r
  | CGet id => (cache_Get c id x.2).1
  | CValid => (GetValid c x.2).1
  | CPrune => (cache_Prune c x.2).1
  end.

Lemma cache_exec_ok c x : cache_ok c -> cache_ok (cache_exec c x).
Proof.
  intros Hc. destruct x as [[r|id| |] now]; cbn [cache_exec fst snd].
  - destruct Hc as [H1 H2]. split; unfold cache_Add; cbn; intros id.
    + intros r'. destruct (decide (id = ar_ID r)) as [->|]; [rewrite !lookup_insert_eq; by intros [= <-]|]. rewrite !lookup_insert_ne by done. apply H1.
    + destruct (decide (id = ar_ID r)) as [->|]; [by rewrite !lookup_insert_eq|]. rewrite !lookup_insert_ne by done. apply H2.
  - unfold cache_Get. destruct (rcache_routes c !! id); [|done]. destruct (_ <? _); [by apply cache_ok_delete|done].
  - unfold GetValid. apply (fold_left_inv (fun s : RouteCache * list ArbitrageRoute => cache_ok s.1)); [done|]. intros s kv _ Hs.
    destruct (_ <? _); [done|by apply cache_ok_delete].
  - unfold cache_Prune. apply (fold_left_inv (fun s : RouteCache * Z => cache_ok s.1)); [done|]. intros s kv _ Hs.
    destruct (_ <? _); [by apply cache_ok_delete|done].
Qed.

Lemma getvalid_list c now l acc : (fold_left (fun (s : RouteCache * list ArbitrageRoute) kv => if now <? expiry c kv.1 then (s.1, s.2 ++ [kv.2]) else (cache_delete s.1 kv.1, s.2)) l acc).2 =
  acc.2 ++ omap (fun kv => if now <? expiry c kv.1 then Some kv.2 else None) l.
Proof.
  revert acc. induction l as [|[i r] l IH]; intros acc; cbn; [by rewrite app_nil_r|]. rewrite IH. destruct (now <? expiry c i); cbn; [by rewrite <- app_assoc|done].
Qed.

(** The cache serves exactly the routes that have not expired: after any sequence of
    additions, lookups, listings and prunings, a lookup returns only a route with the
    requested identifier that has not expired, and the listing returns exactly the cached
    routes whose expiry is still to come. *)
Theorem cache_serves_unexpired xs id now r :
  let c := fold_left cache_exec xs NewRouteCache in
  ((cache_Get c id now).2 = Some r <-> rcache_routes c !! id = Some r /\ ar_ID r = id /\ now <= ar_ExpiresAt r) /\
  (r ∈ (GetValid c now).2 <-> rcache_routes c !! ar_ID r = Some r /\ now < ar_ExpiresAt r).
Proof.
  intros c. assert (Hc : cache_ok c) by (apply (fold_left_inv cache_ok); [split; [done|by intros id' []]|intros; by apply cache_exec_ok]).
  assert (He : forall i s, rcache_routes c !! i = Some s -> expiry c i = ar_ExpiresAt s /\ ar_ID s = i).
  { intros i s Hi. destruct (co_route _ Hc i s Hi) as [? E]. unfold expiry. by rewrite E. }
  split.
  - unfold cache_Get. destruct (rcache_routes c !! id) as [s|] eqn:E; [|naive_solver]. destruct (He _ _ E) as [-> Hid].
    destruct (Z.ltb_spec (ar_ExpiresAt s) now); cbn; split; [done| |intros [= <-]; done|naive_solver]. intros ([= ->] & _ & ?). lia.
  - unfold GetValid. rewrite getvalid_list. cbn [snd app]. rewrite list_elem_of_omap. split.
    + intros ([i s] & Hi%elem_of_map_to_list & H). cbn in H. destruct (He _ _ Hi) as [Ex Hid]. rewrite Ex in H.
      destruct (Z.ltb_spec now (ar_ExpiresAt s)); [|done]. injection H as ->. by rewrite Hid.
    + intros [Hi Hlt]. exists (ar_ID r, r). split; [by apply elem_of_map_to_list|]. cbn. destruct (He _ _ Hi) as [-> _].
      by rewrite (proj2 (Z.ltb_lt _ _) Hlt).
Qed.
