(* ===== verification/Gossip.v ===== *)
(** * Gossiped prices ([node/price_gossip.go])

    Nodes broadcast the reserves of pools in signed messages; a node that hears at least
    two sources aggregates them by the median and passes the result to the pool registry.

    Contents: the message and its codec, signing and verification, the aggregator, the
    broadcaster, and the wiring to the registry.  A time is a number of nanoseconds since
    1970; [time.Unix] and [Unix] carry the wrap-around of their 64-bit seconds.  The
    theorems: a message that was signed and encoded decodes and verifies
    ([price_message_roundtrip]); the aggregator holds one verified update per source
    ([aggregator_inv_run]); the median of a majority bounds the price ([median_majority]);
    two broadcasts reach the registry ([gossip_end_to_end]).  Messages that crash the
    receiver before their signature is looked at are theorems too
    ([decode_panics], [oversized_reserve_panics]). *)

From Stdlib Require Import String SpecFloat Sorted.
From S2P Require Import Prelude Json Signing Float64 BigFloat Positions Swaps Pools.

(** ** Messages *)

Record PriceUpdate := {
  pu_ChainID : Z; pu_PoolAddress : bytes; pu_Reserve0 : option Z; pu_Reserve1 : option Z; pu_BlockNumber : Z;
  pu_Timestamp : Z; pu_SourceNode : bytes; pu_Signature : bytes;
}.

(** [Time.Unix], and [time.Unix(s, 0)], whose internal seconds count from year 1. *)
Definition Unix (t : Z) : Z := i64 (t / 10 ^ 9).
Definition time_Unix (s : Z) : Z := (i64 (s + 62135596800) - 62135596800) * 10 ^ 9.

(** [FillBytes] into 32 bytes; a nil reserve leaves zeros. *)
Definition fill_bytes (r : option Z) : outcome bytes :=
  match r with
  | None => Done zero32
  | Some z => if Z.abs z <? 2 ^ 256 then Done (be_bytes 32 (Z.abs z)) else Panic "math/big: buffer too small to fit value"
  end.

Section messages.
Context {C : Crypto}.

Definition price_Hash (p : PriceUpdate) : outcome bytes :=
  let! r0 := fill_bytes (pu_Reserve0 p) in
  let! r1 := fill_bytes (pu_Reserve1 p) in
  Done (Keccak256 (be_bytes 8 (pu_ChainID p) ++ pu_PoolAddress p ++ r0 ++ r1 ++ be_bytes 8 (pu_BlockNumber p) ++
                   be_bytes 8 (u64 (Unix (pu_Timestamp p))))).

Definition with_signature (p : PriceUpdate) (sig source : bytes) : PriceUpdate :=
  {| pu_ChainID := pu_ChainID p; pu_PoolAddress := pu_PoolAddress p; pu_Reserve0 := pu_Reserve0 p; pu_Reserve1 := pu_Reserve1 p;
     pu_BlockNumber := pu_BlockNumber p; pu_Timestamp := pu_Timestamp p; pu_SourceNode := source; pu_Signature := sig |}.

Definition price_Sign (key : PrivateKey) (p : PriceUpdate) : outcome (result PriceUpdate) :=
  let! hash := price_Hash p in
  Done (let? sig := EcSign hash key in Ok (with_signature p sig (KeyAddress key))).

Definition price_Verify (p : PriceUpdate) : outcome (result bytes) :=
  if negb (length (pu_Signature p) =? 65)%nat then Done (Err "invalid signature length") else
  let! hash := price_Hash p in
  match EcRecover hash (pu_Signature p) with
  | None => Done (Err "failed to recover pubkey")
  | Some addr => if negb (bytes_eqb addr (pu_SourceNode p)) then Done (Err "signer mismatch") else Done (Ok addr)
  end.
End messages.

(** [Bytes] of a reserve, with its length in 16 bits. *)
Definition reserve_field (r : option Z) : outcome (list bytes) :=
  match r with
  | None => Panic "nil pointer dereference"
  | Some z => Done [be_bytes 2 (Z.of_nat (length (bigint_bytes z))); bigint_bytes z]
  end.

Definition Encode (p : PriceUpdate) : outcome bytes :=
  let! r0 := reserve_field (pu_Reserve0 p) in
  let! r1 := reserve_field (pu_Reserve1 p) in
  Done (concat ([[Byte.x01]; be_bytes 8 (pu_ChainID p); pu_PoolAddress p] ++ r0 ++ r1 ++
                [be_bytes 8 (pu_BlockNumber p); be_bytes 8 (u64 (Unix (pu_Timestamp p))); pu_SourceNode p; pu_Signature p])).

Definition DecodePriceUpdate (data : bytes) : outcome (result PriceUpdate) :=
  let n := Z.of_nat (length data) in
  if n <? 134 then Done (Err "data too short") else
  let! version := slice_int data 0 1 in
  if negb (version =? 1) then Done (Err "unsupported version") else
  let! chainID := slice_int data 1 9 in
  let! pool := slice data 9 29 in
  let! r0Len := slice_int data 29 31 in
  let offset := 31 in
  if n <? offset + r0Len then Done (Err "invalid r0 length") else
  let! reserve0 := slice_int data offset (offset + r0Len) in
  let offset := offset + r0Len in
  let! r1Len := slice_int data offset (offset + 2) in
  let offset := offset + 2 in
  if n <? offset + r1Len then Done (Err "invalid r1 length") else
  let! reserve1 := slice_int data offset (offset + r1Len) in
  let offset := offset + r1Len in
  if n <? offset + 8 + 8 + 20 + 65 then Done (Err "data truncated") else
  let! blockNumber := slice_int data offset (offset + 8) in
  let offset := offset + 8 in
  let! timestamp := slice_int data offset (offset + 8) in
  let offset := offset + 8 in
  let! sourceNode := slice data offset (offset + 20) in
  let offset := offset + 20 in
  let! signature := slice data offset (offset + 65) in
  Done (Ok {| pu_ChainID := chainID; pu_PoolAddress := BytesToAddress pool; pu_Reserve0 := Some reserve0; pu_Reserve1 := Some reserve1;
              pu_BlockNumber := blockNumber; pu_Timestamp := time_Unix (i64 timestamp); pu_SourceNode := BytesToAddress sourceNode;
              pu_Signature := signature |}).

(** ** Aggregation *)

Record AggregatedPrice := {
  ap_ChainID : Z; ap_PoolAddress : bytes; ap_Reserve0 : Z; ap_Reserve1 : Z; ap_BlockNumber : Z; ap_Timestamp : Z;
  ap_SourceCount : Z; ap_Sources : list bytes; ap_Confidence : float64;
}.

Record AggregatorConfig := { MinSources : Z; ag_MaxAge : Z; MaxDeviationBPS : Z; PruneInterval : Z }.

Definition DefaultAggregatorConfig : AggregatorConfig :=
  {| MinSources := 2; ag_MaxAge := 30 * 10 ^ 9; MaxDeviationBPS := 100; PruneInterval := 10 * 10 ^ 9 |}.

(** [OnPriceUpdate] is whether a callback is set; its calls are results of [AddUpdate]. *)
Record PriceAggregator := {
  prices : gmap Z (gmap bytes (list PriceUpdate)); reputation : gmap bytes float64; ag_config : AggregatorConfig; OnPriceUpdate : bool;
  updatesReceived : Z; updatesValid : Z; updatesStale : Z;
}.

Definition NewPriceAggregator (config : option AggregatorConfig) : PriceAggregator :=
  {| prices := ∅; reputation := ∅; ag_config := default DefaultAggregatorConfig config; OnPriceUpdate := false;
     updatesReceived := 0; updatesValid := 0; updatesStale := 0 |}.

Definition deviation (a b : Z) : outcome Z := if b =? 0 then Done 10000 else big_div (Z.abs (a - b) * 10000) b.

Definition medianBigInt (vals : list Z) : outcome Z :=
  match vals with
  | [] => Done 0
  | _ =>
      let sorted := sort_by Z.ltb vals in
      let mid := (length sorted / 2)%nat in
      if (length sorted mod 2 =? 0)%nat then big_div (default 0 (sorted !! (mid - 1)%nat) + default 0 (sorted !! mid)) 2
      else Done (default 0 (sorted !! mid))
  end.

(** The number of positions at which both reserves are near their medians. *)
Fixpoint agreeing (maxDev : Z) (r0s r1s : list Z) (m0 m1 : Z) : outcome Z :=
  match r0s, r1s with
  | r0 :: r0s, r1 :: r1s =>
      let! d0 := deviation r0 m0 in
      let! d1 := deviation r1 m1 in
      let! n := agreeing maxDev r0s r1s m0 m1 in
      Done (if (d0 <=? maxDev) && (d1 <=? maxDev) then n + 1 else n)
  | _, _ => Done 0
  end.

Definition calculateConfidence (cfg : AggregatorConfig) (r0s r1s : list Z) (m0 m1 : Z) : outcome float64 :=
  if (length r0s <? 2)%nat then Done (f_ratio 1 2) else
  let! n := agreeing (MaxDeviationBPS cfg) r0s r1s m0 m1 in
  Done (fdiv (f_of_Z n) (f_of_Z (Z.of_nat (length r0s)))).

(** Every reserve is dereferenced by the sort or the copy of the median. *)
Fixpoint derefs (l : list (option Z)) : outcome (list Z) :=
  match l with
  | [] => Done []
  | Some z :: l => let! t := derefs l in Done (z :: t)
  | None :: _ => Panic "nil pointer dereference"
  end.

Definition aggregate (cfg : AggregatorConfig) (chainID : Z) (pool : bytes) (updates : list PriceUpdate) (now : Z)
  : outcome (option AggregatedPrice) :=
  match sort_by (fun u v => pu_BlockNumber v <? pu_BlockNumber u) (List.filter (fun u => now - ag_MaxAge cfg <? pu_Timestamp u) updates) with
  | [] => Done None
  | (u :: _) as recent =>
      let! r0s := derefs (pu_Reserve0 <$> recent) in
      let! m0 := medianBigInt r0s in
      let! r1s := derefs (pu_Reserve1 <$> recent) in
      let! m1 := medianBigInt r1s in
      let! confidence := calculateConfidence cfg r0s r1s m0 m1 in
      Done (Some {| ap_ChainID := chainID; ap_PoolAddress := pool; ap_Reserve0 := m0; ap_Reserve1 := m1; ap_BlockNumber := pu_BlockNumber u;
                    ap_Timestamp := now; ap_SourceCount := Z.of_nat (length recent); ap_Sources := pu_SourceNode <$> recent;
                    ap_Confidence := confidence |})
  end.

Definition counted (pa : PriceAggregator) (valid stale : Z) (ps : gmap Z (gmap bytes (list PriceUpdate))) : PriceAggregator :=
  {| prices := ps; reputation := reputation pa; ag_config := ag_config pa; OnPriceUpdate := OnPriceUpdate pa;
     updatesReceived := u64 (updatesReceived pa + 1); updatesValid := u64 (updatesValid pa + valid); updatesStale := u64 (updatesStale pa + stale) |}.

Section aggregator.
Context {C : Crypto}.

(** The state, the error, and the prices passed to the callback. *)
Definition AddUpdate (pa : PriceAggregator) (u : PriceUpdate) (now : Z) : outcome (PriceAggregator * result unit * option AggregatedPrice) :=
  let! v := price_Verify u in
  match v with
  | Err _ => Done (counted pa 0 0 (prices pa), Err "invalid signature", None)
  | Ok signer =>
      if ag_MaxAge (ag_config pa) <? since now (pu_Timestamp u) then Done (counted pa 0 1 (prices pa), Err "update too old", None) else
      let poolUpdates := default [] (at_chain (prices pa) (pu_ChainID u) !! pu_PoolAddress u) in
      let filtered := List.filter (fun v => negb (bytes_eqb (pu_SourceNode v) signer)) poolUpdates ++ [u] in
      let pa' := counted pa 1 0 (<[pu_ChainID u := <[pu_PoolAddress u := filtered]> (at_chain (prices pa) (pu_ChainID u))]> (prices pa)) in
      if MinSources (ag_config pa) <=? Z.of_nat (length filtered) then
        let! agg := aggregate (ag_config pa) (pu_ChainID u) (pu_PoolAddress u) filtered now in
        Done (pa', Ok tt, if OnPriceUpdate pa then agg else None)
      else Done (pa', Ok tt, None)
  end.
End aggregator.

Definition GetPrice (pa : PriceAggregator) (chainID : Z) (pool : bytes) (now : Z) : outcome (option AggregatedPrice) :=
  match default [] (at_chain (prices pa) chainID !! pool) with
  | [] => Done None
  | updates => aggregate (ag_config pa) chainID pool updates now
  end.

Definition fresh (cfg : AggregatorConfig) (now : Z) (u : PriceUpdate) : bool := now - ag_MaxAge cfg * 2 <? pu_Timestamp u.

Definition removed_count (cfg : AggregatorConfig) (now : Z) (ps : gmap Z (gmap bytes (list PriceUpdate))) : Z :=
  sumZ (map (fun cm => sumZ (map (fun pu => Z.of_nat (length (List.filter (fun u => negb (fresh cfg now u)) pu.2))) (map_to_list cm.2)))
            (map_to_list ps)).

Definition aggregator_Prune (pa : PriceAggregator) (now : Z) : PriceAggregator * Z :=
  ({| prices := (fun m : gmap bytes (list PriceUpdate) => List.filter (fresh (ag_config pa) now) <$> m) <$> prices pa;
      reputation := reputation pa; ag_config := ag_config pa; OnPriceUpdate := OnPriceUpdate pa; updatesReceived := updatesReceived pa;
      updatesValid := updatesValid pa; updatesStale := updatesStale pa |},
   removed_count (ag_config pa) now (prices pa)).

(** The callback that [WireToPoolRegistry] sets. *)
Definition WireToPoolRegistry (pa : PriceAggregator) : PriceAggregator :=
  {| prices := prices pa; reputation := reputation pa; ag_config := ag_config pa; OnPriceUpdate := true; updatesReceived := updatesReceived pa;
     updatesValid := updatesValid pa; updatesStale := updatesStale pa |}.

Definition on_price {C : Crypto} (r : PoolRegistry) (p : AggregatedPrice) (now : Z) : PoolRegistry :=
  UpdatePoolFromPriceGossip r (ap_ChainID p) (ap_PoolAddress p) (Some (ap_Reserve0 p)) (Some (ap_Reserve1 p)) (ap_BlockNumber p) (ap_Confidence p) now.

(** ** Broadcasting *)

Section broadcaster.
Context {C : Crypto}.

Record PriceBroadcaster := {
  pb_privateKey : PrivateKey; nodeAddr : bytes; lastBroadcast : gmap bytes Z; minInterval : Z; broadcastCount : Z;
}.

Definition NewPriceBroadcaster (key : PrivateKey) : PriceBroadcaster :=
  {| pb_privateKey := key; nodeAddr := KeyAddress key; lastBroadcast := ∅; minInterval := 5 * 10 ^ 9; broadcastCount := 0 |}.

Definition broadcast_key (chainID : Z) (pool : bytes) : bytes := dec chainID ++ bs ":" ++ AddrHex pool.

(** [send] is the transport; the last component is what was handed to it. *)
Definition BroadcastPrice (send : Z -> bytes -> result unit) (pb : PriceBroadcaster) (chainID : Z) (pool : bytes) (r0 r1 : option Z)
  (blockNum now : Z) : outcome (PriceBroadcaster * result unit * option bytes) :=
  let key := broadcast_key chainID pool in
  if match lastBroadcast pb !! key with Some last => since now last <? minInterval pb | None => false end then Done (pb, Ok tt, None) else
  let update := {| pu_ChainID := chainID; pu_PoolAddress := pool; pu_Reserve0 := r0; pu_Reserve1 := r1; pu_BlockNumber := blockNum;
                   pu_Timestamp := now; pu_SourceNode := zero20; pu_Signature := [] |} in
  let! signed := price_Sign (pb_privateKey pb) update in
  match signed with
  | Err _ => Done (pb, Err "failed to sign", None)
  | Ok update =>
      let! data := Encode update in
      match send chainID data with
      | Err _ => Done (pb, Err "failed to broadcast", Some data)
      | Ok _ =>
          Done ({| pb_privateKey := pb_privateKey pb; nodeAddr := nodeAddr pb; lastBroadcast := <[key := now]> (lastBroadcast pb);
                   minInterval := minInterval pb; broadcastCount := u64 (broadcastCount pb + 1) |}, Ok tt, Some data)
      end
  end.
End broadcaster.

(** ** Reception *)

(** The handler of [multichain.go]: the aggregator, the registry wired to it, and the update
    that is passed on. *)
Definition createPriceGossipHandler {C : Crypto} (pa : PriceAggregator) (reg : PoolRegistry) (data : bytes) (now : Z)
  : outcome (PriceAggregator * PoolRegistry * option PriceUpdate) :=
  let! d := DecodePriceUpdate data in
  match d with
  | Err _ => Done (pa, reg, None)
  | Ok u =>
      let! r := AddUpdate pa u now in
      let reg := match r.2 with Some p => on_price reg p now | None => reg end in
      Done (r.1.1, reg, match r.1.2 with Ok _ => Some u | Err _ => None end)
  end.

(** ** The codec *)

(** Reading a field of a concatenation. *)
Lemma slice_concat (fs : list bytes) i f lo hi : fs !! i = Some f -> lo = Z.of_nat (length (concat (take i fs))) ->
  hi = lo + Z.of_nat (length f) -> slice (concat fs) lo hi = Done f.
Proof.
  intros Hi -> ->. rewrite <- (take_drop_middle fs i f Hi) at 1. rewrite concat_app. cbn [concat]. by apply slice_mid.
Qed.

Lemma slice_int_concat (fs : list bytes) i f lo hi : fs !! i = Some f -> lo = Z.of_nat (length (concat (take i fs))) ->
  hi = lo + Z.of_nat (length f) -> slice_int (concat fs) lo hi = Done (be_int f).
Proof. intros. unfold slice_int. by erewrite slice_concat. Qed.

(** An update whose fields have the widths of the source. *)
Record sized (p : PriceUpdate) : Prop := {
  sz_chain : 0 <= pu_ChainID p < 2 ^ 64;
  sz_pool : length (pu_PoolAddress p) = 20%nat;
  sz_r0 : exists r, pu_Reserve0 p = Some r /\ 0 <= r < 2 ^ 256;
  sz_r1 : exists r, pu_Reserve1 p = Some r /\ 0 <= r < 2 ^ 256;
  sz_block : 0 <= pu_BlockNumber p < 2 ^ 64;
  sz_time : - 62135596800 * 10 ^ 9 <= pu_Timestamp p < 2 ^ 62 * 10 ^ 9;
  sz_source : length (pu_SourceNode p) = 20%nat;
  sz_sig : length (pu_Signature p) = 65%nat;
}.

(** The time of a message is cut to seconds. *)
Definition to_seconds (p : PriceUpdate) : PriceUpdate :=
  {| pu_ChainID := pu_ChainID p; pu_PoolAddress := pu_PoolAddress p; pu_Reserve0 := pu_Reserve0 p; pu_Reserve1 := pu_Reserve1 p;
     pu_BlockNumber := pu_BlockNumber p; pu_Timestamp := pu_Timestamp p / 10 ^ 9 * 10 ^ 9; pu_SourceNode := pu_SourceNode p;
     pu_Signature := pu_Signature p |}.

Lemma i64_u64_id z : - 2 ^ 63 <= z < 2 ^ 63 -> i64 (u64 z) = z.
Proof.
  intros Hz. unfold i64, u64. rewrite <- Zplus_mod_idemp_l, Zmod_mod, Zplus_mod_idemp_l. rewrite Z.mod_small; lia.
Qed.

Lemma Unix_range t : - 62135596800 * 10 ^ 9 <= t < 2 ^ 62 * 10 ^ 9 -> Unix t = t / 10 ^ 9 /\ - 62135596800 <= t / 10 ^ 9 < 2 ^ 62.
Proof. intros Ht. assert (- 62135596800 <= t / 10 ^ 9 < 2 ^ 62) by dlia. split; [|done]. unfold Unix. by rewrite i64_id by (unfold in_i64; lia). Qed.

Lemma be_bytes_int n z : 0 <= z < 256 ^ Z.of_nat n -> be_int (be_bytes n z) = z.
Proof. intros Hz. rewrite be_int_be_bytes. by apply Z.mod_small. Qed.

(** The position of a field. *)
Ltac width := repeat match goal with x := _ : list bytes |- _ => unfold x end; cbn [take concat]; rewrite ?length_app, ?length_be_bytes, ?app_nil_r; cbn [length]; lia.

Lemma decode_encode p data : sized p -> Encode p = Done data -> DecodePriceUpdate data = Done (Ok (to_seconds p)).
Proof.
  intros [H1 H2 (r0 & E0 & H3) (r1 & E1 & H4) H5 H6 H7 H8]. unfold Encode. rewrite E0, E1. cbn [reserve_field outcome_bind]. cbn [app].
  set (b0 := bigint_bytes r0). set (b1 := bigint_bytes r1).
  assert (L0 : (length b0 <= 32)%nat) by (apply length_bigint_bytes; lia). assert (L1 : (length b1 <= 32)%nat) by (apply length_bigint_bytes; lia).
  assert (I0 : be_int b0 = r0) by (unfold b0; rewrite be_int_bigint_bytes; lia). assert (I1 : be_int b1 = r1) by (unfold b1; rewrite be_int_bigint_bytes; lia).
  clearbody b0 b1. destruct (Unix_range _ H6) as [-> Ht]. set (s := pu_Timestamp p / 10 ^ 9) in *.
  assert (Hl : be_int (be_bytes 2 (Z.of_nat (length b0))) = Z.of_nat (length b0)) by (apply be_bytes_int; lia).
  assert (Hl' : be_int (be_bytes 2 (Z.of_nat (length b1))) = Z.of_nat (length b1)) by (apply be_bytes_int; lia).
  intros [= <-].
  match goal with |- DecodePriceUpdate ?d = _ => set (data := d) end.
  match type of data with _ => idtac end.
  set (fs := [[Byte.x01]; be_bytes 8 (pu_ChainID p); pu_PoolAddress p; be_bytes 2 (Z.of_nat (length b0)); b0; be_bytes 2 (Z.of_nat (length b1)); b1;
              be_bytes 8 (pu_BlockNumber p); be_bytes 8 (u64 s); pu_SourceNode p; pu_Signature p]).
  change data with (concat fs). clear data.
  assert (Hn : length (concat fs) = (134 + length b0 + length b1)%nat).
  { unfold fs. cbn [concat]. rewrite !length_app, !length_be_bytes, H2, H7, H8. cbn [length]. lia. }
  assert (Hs : forall i f lo hi, fs !! i = Some f -> lo = Z.of_nat (length (concat (take i fs))) -> hi = lo + Z.of_nat (length f) ->
    slice (concat fs) lo hi = Done f) by (intros; by eapply slice_concat).
  assert (Hi : forall i f lo hi, fs !! i = Some f -> lo = Z.of_nat (length (concat (take i fs))) -> hi = lo + Z.of_nat (length f) ->
    slice_int (concat fs) lo hi = Done (be_int f)) by (intros; by eapply slice_int_concat).
  unfold DecodePriceUpdate. rewrite Hn. cbv zeta.
  rewrite (proj2 (Z.ltb_ge _ _)) by lia.
  rewrite (Hi 0%nat [Byte.x01]) by (done || width). cbn [outcome_bind]. replace (be_int [Byte.x01]) with 1 by done. cbn [Z.eqb Pos.eqb negb].
  rewrite (Hi 1%nat (be_bytes 8 (pu_ChainID p))) by (done || width). cbn [outcome_bind].
  rewrite (Hs 2%nat (pu_PoolAddress p)) by (done || width). cbn [outcome_bind].
  rewrite (Hi 3%nat (be_bytes 2 (Z.of_nat (length b0)))) by (done || width). cbn [outcome_bind]. rewrite Hl.
  rewrite (proj2 (Z.ltb_ge _ _)) by lia. rewrite (Hi 4%nat b0) by (done || width). cbn [outcome_bind]. rewrite I0.
  rewrite (Hi 5%nat (be_bytes 2 (Z.of_nat (length b1)))) by (done || width). cbn [outcome_bind]. rewrite Hl'.
  rewrite (proj2 (Z.ltb_ge _ _)) by lia. rewrite (Hi 6%nat b1) by (done || width). cbn [outcome_bind]. rewrite I1.
  rewrite (proj2 (Z.ltb_ge _ _)) by lia. rewrite (Hi 7%nat (be_bytes 8 (pu_BlockNumber p))) by (done || width). cbn [outcome_bind].
  rewrite (Hi 8%nat (be_bytes 8 (u64 s))) by (done || width). cbn [outcome_bind].
  rewrite (Hs 9%nat (pu_SourceNode p)) by (done || width). cbn [outcome_bind].
  rewrite (Hs 10%nat (pu_Signature p)) by (done || width). cbn [outcome_bind].
  rewrite (be_bytes_int 8 (u64 s)) by (pose proof (u64_range s) as Hu; unfold in_u64 in Hu; lia). rewrite !be_bytes_int by lia. rewrite i64_u64_id by lia. rewrite !address_id by done.
  unfold time_Unix. rewrite i64_id by (unfold in_i64; lia). unfold to_seconds. fold s. rewrite E0, E1. do 3 f_equal. lia.
Qed.

Section signed_messages.
Context {C : Crypto} {L : CryptoLaws C}.

Lemma hash_total p : sized p -> exists h, price_Hash p = Done h /\ length h = 32%nat.
Proof using L.
  intros [_ _ (r0 & E0 & H0) (r1 & E1 & H1) _ _ _ _]. unfold price_Hash. rewrite E0, E1. cbn [fill_bytes].
  rewrite !(proj2 (Z.ltb_lt _ _)) by lia. cbn [outcome_bind]. eexists. split; [done|]. apply keccak_length.
Qed.

(** The hash does not depend on the fraction of a second, the source and the signature. *)
Lemma hash_to_seconds p : sized p -> price_Hash (to_seconds p) = price_Hash p.
Proof using Type.
  intros Hp. unfold price_Hash, to_seconds. cbn. destruct (Unix_range _ (sz_time _ Hp)) as [-> Ht].
  destruct (Unix_range (pu_Timestamp p / 10 ^ 9 * 10 ^ 9)) as [-> _]; [lia|]. by rewrite Z.div_mul by lia.
Qed.

Lemma signed_sized p key p' : sized (with_signature p (replicate 65 Byte.x00) zero20) -> (forall k, length (KeyAddress k) = 20%nat) ->
  price_Sign key p = Done (Ok p') ->
  sized p' /\ pu_SourceNode p' = KeyAddress key /\ price_Verify p' = Done (Ok (KeyAddress key)) /\ p' = with_signature p (pu_Signature p') (KeyAddress key).
Proof using L.
  intros Hp Ha. unfold price_Sign. destruct (hash_total _ Hp) as (h & Eh & Hl).
  change (price_Hash (with_signature p (replicate 65 Byte.x00) zero20)) with (price_Hash p) in Eh. rewrite Eh. cbn [outcome_bind].
  destruct (sign_total h key Hl) as (sig & Es & Hsig). rewrite Es. cbn [result_bind]. intros [= <-].
  split; [|split; [done|split; [|done]]].
  - destruct Hp as [? ? ? ? ? ? _ _]. cbn in *. split; cbn; auto.
  - unfold price_Verify. cbn [pu_Signature with_signature]. rewrite Hsig. cbn [Nat.eqb negb].
    change (price_Hash (with_signature p sig (KeyAddress key))) with (price_Hash p). rewrite Eh. cbn [outcome_bind].
    rewrite (recover_sign h key sig Es). cbn [pu_SourceNode with_signature]. by rewrite bytes_eqb_refl.
Qed.

Lemma sign_succeeds p key : sized (with_signature p (replicate 65 Byte.x00) zero20) -> exists p', price_Sign key p = Done (Ok p').
Proof using L.
  intros Hp. unfold price_Sign. destruct (hash_total _ Hp) as (h & Eh & Hl).
  change (price_Hash (with_signature p (replicate 65 Byte.x00) zero20)) with (price_Hash p) in Eh. rewrite Eh. cbn [outcome_bind].
  destruct (sign_total h key Hl) as (sig & Es & _). rewrite Es. by eexists.
Qed.

Lemma encode_total p : sized p -> exists data, Encode p = Done data.
Proof using Type. intros [_ _ (r0 & E0 & _) (r1 & E1 & _) _ _ _ _]. unfold Encode. rewrite E0, E1. by eexists. Qed.

Lemma verify_to_seconds p : sized p -> price_Verify (to_seconds p) = price_Verify p.
Proof using Type. intros Hp. unfold price_Verify. rewrite hash_to_seconds by done. done. Qed.
End signed_messages.

(** The address of every key has 20 bytes ([crypto.PubkeyToAddress]). *)
Definition addresses_sized (C : Crypto) : Prop := forall k : PrivateKey, length (KeyAddress k) = 20%nat.

(** What a node signs and encodes, every node decodes and accepts: for fields of the
    source's widths, signing and encoding succeed, decoding yields the update with its time
    cut to seconds, and it verifies as signed by the node's address. *)
Theorem price_message_roundtrip {C : Crypto} {L : CryptoLaws C} p key : addresses_sized C ->
  sized (with_signature p (replicate 65 Byte.x00) zero20) ->
  exists p' data, price_Sign key p = Done (Ok p') /\ Encode p' = Done data /\ DecodePriceUpdate data = Done (Ok (to_seconds p')) /\
    price_Verify (to_seconds p') = Done (Ok (KeyAddress key)) /\ pu_SourceNode p' = KeyAddress key /\
    p' = with_signature p (pu_Signature p') (KeyAddress key).
Proof.
  intros Ha Hp. destruct (sign_succeeds p key Hp) as (p' & Es). destruct (signed_sized p key p' Hp Ha Es) as (Hp' & Hn & Hv & Ew).
  destruct (encode_total p' Hp') as (data & Ed). exists p', data. split; [done|]. split; [done|]. split; [by apply decode_encode|].
  split; [|done]. by rewrite verify_to_seconds.
Qed.

(** The reserves of a pool, signed with the key [0x07]. *)
Definition ex_update (block r0 r1 t : Z) : PriceUpdate :=
  {| pu_ChainID := 1; pu_PoolAddress := be_bytes 20 77; pu_Reserve0 := Some r0; pu_Reserve1 := Some r1; pu_BlockNumber := block;
     pu_Timestamp := t; pu_SourceNode := zero20; pu_Signature := [] |}.

Lemma toy_addresses : addresses_sized Toy.crypto.
Proof. intros k. reflexivity. Qed.

Lemma ex_sized block r0 r1 t : 0 <= block < 2 ^ 64 -> 0 <= r0 < 2 ^ 256 -> 0 <= r1 < 2 ^ 256 -> 0 <= t < 2 ^ 62 ->
  sized (with_signature (ex_update block r0 r1 t) (replicate 65 Byte.x00) zero20).
Proof. intros. split; cbn; try lia; try done; [by exists r0|by exists r1]. Qed.

Lemma price_message_roundtrip_witness :
  exists p' data, price_Sign (C := Toy.crypto) Byte.x07 (ex_update 5 1000 2000 (10 ^ 18)) = Done (Ok p') /\ Encode p' = Done data /\
    DecodePriceUpdate data = Done (Ok (to_seconds p')) /\
    price_Verify (C := Toy.crypto) (to_seconds p') = Done (Ok (KeyAddress (Crypto := Toy.crypto) Byte.x07)) /\
    pu_SourceNode p' = KeyAddress (Crypto := Toy.crypto) Byte.x07 /\
    p' = with_signature (ex_update 5 1000 2000 (10 ^ 18)) (pu_Signature p') (KeyAddress (Crypto := Toy.crypto) Byte.x07).
Proof. apply (price_message_roundtrip (C := Toy.crypto)); [exact toy_addresses|apply ex_sized; lia]. Defined.

(** ** The aggregator holds one verified update per source *)

Section aggregator_inv.
Context {C : Crypto}.

Definition held_ok (c : Z) (a : bytes) (us : list PriceUpdate) : Prop :=
  NoDup (pu_SourceNode <$> us) /\
  Forall (fun u => pu_ChainID u = c /\ pu_PoolAddress u = a /\ price_Verify u = Done (Ok (pu_SourceNode u))) us.

Definition aggregator_inv (pa : PriceAggregator) : Prop := forall c a us, at_chain (prices pa) c !! a = Some us -> held_ok c a us.

Lemma held_filter c a us keep : held_ok c a us -> held_ok c a (List.filter keep us).
Proof.
  intros [H1 H2]. split.
  - induction us as [|u us IH]; [done|]. cbn in *. apply NoDup_cons in H1 as [Hu H1]. apply Forall_cons in H2 as [_ H2].
    destruct (keep u); [|by apply IH]. cbn. apply NoDup_cons. split; [|by apply IH]. intros (v & E & Hv)%list_elem_of_fmap. apply Hu.
    apply list_elem_of_fmap. exists v. split; [done|]. apply list_elem_of_In, filter_In in Hv as [Hv _]. by apply list_elem_of_In.
  - apply Forall_forall. intros u Hu. apply list_elem_of_In, filter_In in Hu as [Hu _]. rewrite Forall_forall in H2. apply H2. by apply list_elem_of_In.
Qed.

Lemma verified_source u signer : price_Verify u = Done (Ok signer) -> signer = pu_SourceNode u.
Proof.
  unfold price_Verify. destruct (negb _); [done|]. destruct (price_Hash u) as [h| |]; try done. cbn [outcome_bind].
  destruct (EcRecover h (pu_Signature u)) as [a|]; [|done]. destruct (negb (bytes_eqb a (pu_SourceNode u))) eqn:E; [done|]. intros [= <-].
  by bool_to_prop.
Qed.

Lemma AddUpdate_inv pa u now r : aggregator_inv pa -> AddUpdate pa u now = Done r -> aggregator_inv r.1.1.
Proof.
  intros Hi. unfold AddUpdate. destruct (price_Verify u) as [[signer|e]| |] eqn:Ev; try done; cbn [outcome_bind]; [|intros [= <-]; exact Hi].
  destruct (_ <? _); [intros [= <-]; exact Hi|]. cbv zeta. set (us := default [] _).
  assert (Hus : held_ok (pu_ChainID u) (pu_PoolAddress u) (List.filter (fun v => negb (bytes_eqb (pu_SourceNode v) signer)) us ++ [u])).
  { assert (Hu : held_ok (pu_ChainID u) (pu_PoolAddress u) us).
    { unfold us. destruct (at_chain _ _ !! _) as [l|] eqn:E; [by apply Hi|]. split; [constructor|constructor]. }
    apply (held_filter _ _ _ (fun v => negb (bytes_eqb (pu_SourceNode v) signer))) in Hu as [H1 H2]. pose proof (verified_source _ _ Ev) as ->.
    split; [|by apply Forall_app; split; [|apply Forall_singleton]].
    rewrite fmap_app. apply NoDup_app. split; [done|]. split; [|apply NoDup_singleton].
    intros s (v & -> & Hv)%list_elem_of_fmap Hs. apply list_elem_of_singleton in Hs. apply list_elem_of_In, filter_In in Hv as [_ Hv].
    bool_to_prop. done. }
  assert (Hp : aggregator_inv (counted pa 1 0 (<[pu_ChainID u := <[pu_PoolAddress u := List.filter (fun v => negb (bytes_eqb (pu_SourceNode v) signer)) us ++ [u]]>
      (at_chain (prices pa) (pu_ChainID u))]> (prices pa)))).
  { intros c a l. cbn [prices counted]. rewrite at_chain_insert. case_decide as E; [subst c|by apply Hi].
    destruct (decide (a = pu_PoolAddress u)) as [->|]; [rewrite lookup_insert_eq; by intros [= <-]|rewrite lookup_insert_ne by done; apply Hi]. }
  destruct (_ <=? _); [|by intros [= <-]]. destruct (aggregate _ _ _ _ _) as [g| |]; try done. cbn [outcome_bind]. by intros [= <-].
Qed.

Inductive aggregator_op := AUpdate (u : PriceUpdate) | APrune | AWire.

(** A crash leaves no state; the run goes on with what it was. *)
Definition aggregator_exec (pa : PriceAggregator) (x : aggregator_op * Z) : PriceAggregator :=
  match x.1 with
  | AUpdate u => match AddUpdate pa u x.2 with Done r => r.1.1 | _ => pa end
  | APrune => (aggregator_Prune pa x.2).1
  | AWire => WireToPoolRegistry pa
  end.

Lemma aggregator_inv_run xs cfg : aggregator_inv (fold_left aggregator_exec xs (NewPriceAggregator cfg)).
Proof.
  apply (fold_left_inv aggregator_inv).
  - intros c a us. unfold at_chain. cbn. by rewrite lookup_empty.
  - intros pa [x now] _ Hi. destruct x as [u| |]; cbn [aggregator_exec fst snd].
    + destruct (AddUpdate pa u now) as [r| |] eqn:E; [by eapply AddUpdate_inv|done..].
    + intros c a us. cbn [prices aggregator_Prune fst]. rewrite at_chain_fmap by apply fmap_empty. rewrite lookup_fmap.
      destruct (at_chain (prices pa) c !! a) as [l|] eqn:E; [|done]. intros [= <-]. apply held_filter. by apply Hi.
    + exact Hi.
Qed.
End aggregator_inv.

Lemma aggregate_shape cfg c a us now p : aggregate cfg c a us now = Done (Some p) ->
  ap_Sources p ≡ₚ pu_SourceNode <$> List.filter (fun u => now - ag_MaxAge cfg <? pu_Timestamp u) us /\
  ap_SourceCount p = Z.of_nat (length (ap_Sources p)) /\ ap_ChainID p = c /\ ap_PoolAddress p = a.
Proof.
  unfold aggregate. set (recent := sort_by _ _).
  assert (Hr : recent ≡ₚ List.filter (fun u => now - ag_MaxAge cfg <? pu_Timestamp u) us) by apply sort_by_perm. clearbody recent.
  destruct recent as [|u l]; [done|]. intros E.
  repeat (apply outcome_bind_Done in E as (? & _ & E)). injection E as <-. cbn [ap_Sources ap_SourceCount ap_ChainID ap_PoolAddress].
  split; [exact (fmap_Permutation pu_SourceNode _ _ Hr)|]. split; [|done]. cbn. by rewrite length_fmap.
Qed.

(** Every aggregated price counts each signer once: whatever updates are received and
    pruned, the sources of a price the aggregator returns are pairwise different, their number
    is the reported one, and each of them signed an update for that chain and pool that is
    recent. *)
Theorem sources_distinct_and_signed {C : Crypto} xs cfg c a now p :
  let pa := fold_left aggregator_exec xs (NewPriceAggregator cfg) in
  GetPrice pa c a now = Done (Some p) ->
  NoDup (ap_Sources p) /\ ap_SourceCount p = Z.of_nat (length (ap_Sources p)) /\
  Forall (fun s => exists u, pu_ChainID u = c /\ pu_PoolAddress u = a /\ pu_SourceNode u = s /\ price_Verify u = Done (Ok s) /\
                             now - ag_MaxAge (ag_config pa) < pu_Timestamp u) (ap_Sources p).
Proof.
  intros pa. unfold GetPrice. destruct (at_chain (prices pa) c !! a) as [us|] eqn:E; [|done]. cbn [default id].
  apply aggregator_inv_run in E as Hus. fold pa in Hus. intros Hg.
  assert (Ha : aggregate (ag_config pa) c a us now = Done (Some p)) by (destruct us; [done|exact Hg]).
  apply aggregate_shape in Ha as (Hp & Hn & _). pose proof (held_filter _ _ _ (fun u => now - ag_MaxAge (ag_config pa) <? pu_Timestamp u) Hus) as [Hd Hf].
  split; [by rewrite Hp|]. split; [done|]. rewrite Hp. apply Forall_forall. intros s (u & -> & Hu)%list_elem_of_fmap. exists u.
  rewrite Forall_forall in Hf. destruct (Hf u Hu) as (? & ? & ?). apply list_elem_of_In, filter_In in Hu as [_ Ht]. bool_to_prop. done.
Qed.

(** ** The median *)

Definition within (lo hi v : Z) : bool := (lo <=? v) && (v <=? hi).

(** In a sorted list, an element is in range when the elements in range outnumber both the
    elements from it on and those up to it. *)
Lemma sorted_in_range l i x lo hi : StronglySorted (fun x y => (y <? x) = false) l -> l !! i = Some x ->
  (length l - i - 1 < length (List.filter (within lo hi) l))%nat -> (i < length (List.filter (within lo hi) l))%nat -> lo <= x <= hi.
Proof.
  intros Hs Hi. rewrite <- (take_drop_middle l i x Hi) in Hs |- *. pose proof (lookup_lt_Some _ _ _ Hi) as Hlt.
  assert (L1 : length (take i l) = i) by (rewrite length_take; lia).
  assert (Hafter : Forall (fun y => (y <? x) = false) (drop (S i) l)).
  { clear -Hs. induction (take i l) as [|y m IH]; cbn in Hs; inversion Hs; subst; [done|]. by apply IH. }
  assert (Hbefore : Forall (fun y => y <= x) (take i l)).
  { clear -Hs. induction (take i l) as [|y m IH]; [constructor|]. cbn in Hs. inversion Hs as [|? ? Hs' Hall]; subst.
    constructor; [|by apply IH]. rewrite Forall_app in Hall. destruct Hall as [_ Hall]. inversion Hall; subst. by apply Z.ltb_ge. }
  rewrite List.filter_app, !length_app. cbn [List.filter length]. rewrite length_take, length_drop, Nat.min_l by lia.
  assert (Hle : forall m, (length (List.filter (within lo hi) m) <= length m)%nat) by (intros; apply filter_length_le).
  intros H1 H2. split; apply Z.nlt_ge; intros Hx.
  - assert (E : List.filter (within lo hi) (take i l) = []).
    { clear -Hbefore Hx. induction Hbefore as [|y m Hy _ IH]; [done|]. cbn. rewrite IH. unfold within.
      by rewrite (proj2 (Z.leb_gt lo y)) by lia. }
    rewrite E in H1. unfold within in H1 at 1. rewrite (proj2 (Z.leb_gt lo x)) in H1 by lia. cbn [andb length] in H1.
    pose proof (Hle (drop (S i) l)). rewrite length_drop in *. lia.
  - assert (E : List.filter (within lo hi) (drop (S i) l) = []).
    { clear -Hafter Hx. induction Hafter as [|y m Hy _ IH]; [done|]. cbn. rewrite IH. apply Z.ltb_ge in Hy. unfold within.
      by rewrite (proj2 (Z.leb_gt y hi)), andb_false_r by lia. }
    rewrite E in H2. unfold within in H2 at 2. rewrite (proj2 (Z.leb_gt x hi)), andb_false_r in H2 by lia. cbn [length] in H2.
    pose proof (Hle (take i l)). rewrite length_take in *. lia.
Qed.

Lemma Zltb_sorts l : StronglySorted (fun x y => (y <? x) = false) (sort_by Z.ltb l).
Proof.
  apply sort_by_sorted; intros x y; [rewrite Z.ltb_lt, Z.ltb_ge; lia|]. intros z. rewrite !Z.ltb_ge. lia.
Qed.

Lemma Permutation_filter_length {A} (f : A -> bool) l l' : l ≡ₚ l' -> length (List.filter f l) = length (List.filter f l').
Proof. intros H. induction H; cbn; try (destruct (f x)); try (destruct (f y)); cbn; congruence. Qed.

(** The median lies where the majority does. *)
Lemma median_majority vals lo hi : (length vals < 2 * length (List.filter (within lo hi) vals))%nat ->
  exists m, medianBigInt vals = Done m /\ lo <= m <= hi.
Proof.
  intros Hm. unfold medianBigInt. destruct vals as [|v0 vs]; [cbn in Hm; lia|]. set (vals := v0 :: vs) in *. cbv zeta.
  pose proof (sort_by_perm Z.ltb vals) as Hp. pose proof (Zltb_sorts vals) as Hs. set (l := sort_by Z.ltb vals) in *. clearbody l.
  rewrite <- (Permutation_length Hp) in Hm. rewrite <- (Permutation_filter_length (within lo hi) _ _ Hp) in Hm.
  pose proof (filter_length_le (within lo hi) l) as Hle. clear Hp. clearbody vals. set (k := length (List.filter (within lo hi) l)) in *.
  assert (Hin : forall i, (i < length l)%nat -> (length l - i - 1 < k)%nat -> (i < k)%nat -> exists x, l !! i = Some x /\ lo <= x <= hi).
  { intros i Hi H1 H2. destruct (lookup_lt_is_Some_2 l i Hi) as [x Hx]. exists x. split; [done|]. by eapply sorted_in_range. }
  pose proof (Nat.div_mod_eq (length l) 2) as Hd. pose proof (Nat.mod_upper_bound (length l) 2 ltac:(lia)) as Hb.
  set (mid := (length l / 2)%nat) in *. destruct (Nat.eqb_spec (length l mod 2) 0) as [He|He].
  - destruct (Hin (mid - 1)%nat) as (x & -> & Hx); [lia..|]. destruct (Hin mid) as (y & -> & Hy); [lia..|]. cbn [default id].
    rewrite big_div_pos by lia. eexists. split; [done|]. dlia.
  - destruct (Hin mid) as (y & -> & Hy); [lia..|]. cbn [default id]. by eexists.
Qed.

Lemma derefs_some l zs : derefs l = Done zs -> l = Some <$> zs.
Proof.
  revert zs. induction l as [|[z|] l IH]; intros zs; cbn [derefs]; [by intros [= <-]| |done].
  intros (t & Et & E)%outcome_bind_Done. injection E as <-. cbn. by rewrite <- (IH t Et).
Qed.

(** Recent updates, and those of them that report reserves in a range. *)
Definition recent_updates (cfg : AggregatorConfig) (now : Z) (us : list PriceUpdate) : list PriceUpdate :=
  List.filter (fun u => now - ag_MaxAge cfg <? pu_Timestamp u) us.

Definition reports (f : PriceUpdate -> option Z) (lo hi : Z) (u : PriceUpdate) : bool := match f u with Some r => within lo hi r | None => false end.

Lemma reports_values (f : PriceUpdate -> option Z) lo hi us zs : f <$> us = Some <$> zs ->
  length (List.filter (reports f lo hi) us) = length (List.filter (within lo hi) zs).
Proof.
  revert zs. induction us as [|u us IH]; intros [|z zs] E; try done. cbn in E. injection E as E1 E2. cbn. unfold reports at 1. rewrite E1.
  destruct (within lo hi z); cbn; by rewrite (IH zs E2).
Qed.

(** C24: A majority of honest sources fixes the price: when more than half of the recent
    updates of a pool report a first reserve between two bounds, and likewise for the second,
    the aggregated reserves lie between the bounds, whatever the other updates say. *)
Theorem price_follows_majority cfg c a us now p lo0 hi0 lo1 hi1 :
  aggregate cfg c a us now = Done (Some p) ->
  (length (recent_updates cfg now us) < 2 * length (List.filter (reports pu_Reserve0 lo0 hi0) (recent_updates cfg now us)))%nat ->
  (length (recent_updates cfg now us) < 2 * length (List.filter (reports pu_Reserve1 lo1 hi1) (recent_updates cfg now us)))%nat ->
  lo0 <= ap_Reserve0 p <= hi0 /\ lo1 <= ap_Reserve1 p <= hi1.
Proof.
  unfold aggregate. fold (recent_updates cfg now us). set (rs := sort_by _ (recent_updates cfg now us)).
  assert (Hr : rs ≡ₚ recent_updates cfg now us) by apply sort_by_perm. clearbody rs. intros E H0 H1.
  rewrite <- (Permutation_length Hr) in H0, H1. rewrite <- (Permutation_filter_length _ _ _ Hr) in H0. rewrite <- (Permutation_filter_length _ _ _ Hr) in H1. clear Hr.
  destruct rs as [|u l]; [done|]. set (rs := u :: l) in *. clearbody rs.
  apply outcome_bind_Done in E as (z0 & D0 & E). apply outcome_bind_Done in E as (m0 & M0 & E).
  apply outcome_bind_Done in E as (z1 & D1 & E). apply outcome_bind_Done in E as (m1 & M1 & E).
  apply outcome_bind_Done in E as (k & _ & E). injection E as <-. cbn [ap_Reserve0 ap_Reserve1].
  apply derefs_some in D0, D1. rewrite (reports_values _ _ _ _ _ D0) in H0. rewrite (reports_values _ _ _ _ _ D1) in H1.
  assert (L0 : length rs = length z0) by (by rewrite <- (length_fmap pu_Reserve0), D0, length_fmap).
  assert (L1 : length rs = length z1) by (by rewrite <- (length_fmap pu_Reserve1), D1, length_fmap).
  rewrite L0 in H0. rewrite L1 in H1.
  destruct (median_majority z0 lo0 hi0 H0) as (x0 & X0 & ?). destruct (median_majority z1 lo1 hi1 H1) as (x1 & X1 & ?).
  rewrite M0 in X0. rewrite M1 in X1. injection X0 as <-. by injection X1 as <-.
Qed.

Lemma price_follows_majority_witness :
  match aggregate DefaultAggregatorConfig 1 (be_bytes 20 77) [ex_update 5 1000 2000 100; ex_update 6 (10 ^ 60) 1 100; ex_update 4 1002 2003 100] 200 with
  | Done (Some p) => 1000 <= ap_Reserve0 p <= 1002 /\ 2000 <= ap_Reserve1 p <= 2003
  | _ => False
  end.
Proof.
  destruct (aggregate _ _ _ _ _) as [[p|]| |] eqn:E; [|vm_compute in E; discriminate E..].
  apply (price_follows_majority _ _ _ _ _ _ 1000 1002 2000 2003 E); vm_compute; lia.
Defined.

Definition ex_signed (k : byte) (u : PriceUpdate) : PriceUpdate :=
  match price_Sign (C := Toy.crypto) k u with Done (Ok p) => p | _ => u end.

(** Two signers, of which one reports twice. *)
Definition ex_updates : list (aggregator_op * Z) :=
  [(AUpdate (ex_signed Byte.x07 (ex_update 5 1000 2000 100)), 200); (AUpdate (ex_signed Byte.x08 (ex_update 5 1001 2000 100)), 200);
   (AUpdate (ex_signed Byte.x07 (ex_update 6 1003 2001 300)), 400); (APrune, 500)].

Lemma sources_distinct_and_signed_witness :
  exists p, GetPrice (fold_left (aggregator_exec (C := Toy.crypto)) ex_updates (NewPriceAggregator None)) 1 (be_bytes 20 77) 600 = Done (Some p) /\
  ap_SourceCount p = 2 /\ NoDup (ap_Sources p) /\ ap_SourceCount p = Z.of_nat (length (ap_Sources p)) /\
  Forall (fun s => exists u, pu_ChainID u = 1 /\ pu_PoolAddress u = be_bytes 20 77 /\ pu_SourceNode u = s /\
    price_Verify (C := Toy.crypto) u = Done (Ok s) /\
    600 - ag_MaxAge (ag_config (fold_left (aggregator_exec (C := Toy.crypto)) ex_updates (NewPriceAggregator None))) < pu_Timestamp u) (ap_Sources p).
Proof.
  destruct (GetPrice _ _ _ _) as [[p|]| |] eqn:E; [|vm_compute in E; discriminate E..].
  exists p. split; [done|]. split; [vm_compute in E; injection E as <-; reflexivity|].
  exact (sources_distinct_and_signed (C := Toy.crypto) ex_updates None 1 (be_bytes 20 77) 600 p E).
Defined.

(** ** Messages that crash the receiver *)

(** A message whose first length runs to its end: the second length is read beyond it. *)
Lemma decode_panics hdr body : length hdr = 28%nat -> 103 <= Z.of_nat (length body) < 65536 ->
  DecodePriceUpdate ([Byte.x01] ++ hdr ++ be_bytes 2 (Z.of_nat (length body)) ++ body) = Panic "slice bounds out of range".
Proof.
  intros Hh Hb. set (fs := [[Byte.x01]; take 8 hdr; drop 8 hdr; be_bytes 2 (Z.of_nat (length body)); body]).
  assert (E : [Byte.x01] ++ hdr ++ be_bytes 2 (Z.of_nat (length body)) ++ body = concat fs).
  { unfold fs. cbn [concat]. rewrite app_nil_r, (app_assoc (take 8 hdr)), take_drop. done. }
  rewrite E. assert (L1 : length (take 8 hdr) = 8%nat) by (rewrite length_take; lia). assert (L2 : length (drop 8 hdr) = 20%nat) by (rewrite length_drop; lia).
  assert (Hn : length (concat fs) = (31 + length body)%nat) by (unfold fs; cbn [concat]; rewrite !length_app, length_be_bytes, L1, L2; cbn [length]; lia).
  unfold DecodePriceUpdate. rewrite Hn. cbv zeta. rewrite (proj2 (Z.ltb_ge _ _)) by lia.
  rewrite (slice_int_concat fs 0 [Byte.x01]) by (done || width). cbn [outcome_bind]. replace (be_int [Byte.x01]) with 1 by done. cbn [Z.eqb Pos.eqb negb].
  rewrite (slice_int_concat fs 1 (take 8 hdr)) by (done || width). cbn [outcome_bind].
  rewrite (slice_concat fs 2 (drop 8 hdr)) by (done || width). cbn [outcome_bind].
  rewrite (slice_int_concat fs 3 (be_bytes 2 (Z.of_nat (length body)))) by (done || width). cbn [outcome_bind].
  rewrite be_bytes_int by lia. rewrite (proj2 (Z.ltb_ge _ _)) by lia.
  rewrite (slice_int_concat fs 4 body) by (done || width). cbn [outcome_bind]. unfold slice_int, slice at 1.
  rewrite Hn, (proj2 (Z.leb_gt (31 + Z.of_nat (length body) + 2) _)) by lia. by rewrite andb_false_r.
Qed.

(** A message with a reserve of 33 bytes. *)
Definition oversized : bytes :=
  concat [[Byte.x01]; be_bytes 8 1; be_bytes 20 77; be_bytes 2 33; be_bytes 33 (2 ^ 256); be_bytes 2 0; []; be_bytes 8 5; be_bytes 8 0;
          be_bytes 20 0; replicate 65 Byte.x00].

(** One unauthenticated message stops a node: the update with a reserve of 33 bytes
    passes the decoder, and hashing it to check its signature panics, whatever the state of
    the node. *)
Theorem oversized_reserve_panics {C : Crypto} pa reg now :
  createPriceGossipHandler pa reg oversized now = Panic "math/big: buffer too small to fit value".
Proof.
  unfold createPriceGossipHandler. destruct (DecodePriceUpdate oversized) as [[u|]| |] eqn:E; try (vm_compute in E; discriminate E).
  cbn [outcome_bind]. unfold AddUpdate, price_Verify, price_Hash.
  assert (Hu : fill_bytes (pu_Reserve0 u) = Panic "math/big: buffer too small to fit value" /\ length (pu_Signature u) = 65%nat)
    by (vm_compute in E; injection E as <-; done).
  destruct Hu as [-> ->]. done.
Qed.

(** An older update of a source replaces its newer one: nothing compares their times. *)
Lemma older_update_replaces_newer :
  let xs := [(AUpdate (ex_signed Byte.x07 (ex_update 9 1000 2000 (20 * 10 ^ 9))), 21 * 10 ^ 9);
             (AUpdate (ex_signed Byte.x07 (ex_update 5 1 2 (10 * 10 ^ 9))), 21 * 10 ^ 9)] in
  at_chain (prices (fold_left (aggregator_exec (C := Toy.crypto)) xs (NewPriceAggregator None))) 1 !! be_bytes 20 77 =
    Some [ex_signed Byte.x07 (ex_update 5 1 2 (10 * 10 ^ 9))].
Proof. vm_compute. reflexivity. Qed.

(** ** From broadcast to registry *)

Section end_to_end.
Context {C : Crypto} {L : CryptoLaws C} (Haddr : addresses_sized C).
Context (send : Z -> bytes -> result unit) (Hsend : forall c d, send c d = Ok tt).
Context (c : Z) (pool : bytes) (r0 r1 block : Z).
Context (Hc : 0 <= c < 2 ^ 64) (Hpool : length pool = 20%nat) (H0 : 0 < r0 < 2 ^ 256) (H1 : 0 < r1 < 2 ^ 256) (Hb : 0 <= block < 2 ^ 64).

Definition reports_exactly (key : PrivateKey) (t : Z) (u : PriceUpdate) : Prop :=
  pu_ChainID u = c /\ pu_PoolAddress u = pool /\ pu_Reserve0 u = Some r0 /\ pu_Reserve1 u = Some r1 /\ pu_BlockNumber u = block /\
  pu_Timestamp u = t / 10 ^ 9 * 10 ^ 9 /\ pu_SourceNode u = KeyAddress key /\ price_Verify u = Done (Ok (KeyAddress key)).

Lemma broadcast_ok key t : 0 <= t < 2 ^ 62 ->
  exists pb d u, BroadcastPrice send (NewPriceBroadcaster key) c pool (Some r0) (Some r1) block t = Done (pb, Ok tt, Some d) /\
    DecodePriceUpdate d = Done (Ok u) /\ reports_exactly key t u.
Proof using All.
  intros Ht. unfold BroadcastPrice. cbn [lastBroadcast NewPriceBroadcaster]. rewrite lookup_empty. cbv zeta.
  set (u0 := {| pu_ChainID := c |}).
  assert (Hs : sized (with_signature u0 (replicate 65 Byte.x00) zero20)).
  { split; cbn; try lia; try done; [exists r0; split; [done|lia]|exists r1; split; [done|lia]]. }
  destruct (sign_succeeds u0 key Hs) as (p & Es). destruct (signed_sized u0 key p Hs Haddr Es) as (Hp & Hn & Hv & Ew).
  destruct (encode_total p Hp) as (d & Ed). cbn [pb_privateKey NewPriceBroadcaster]. rewrite Es. cbn [outcome_bind]. rewrite Ed. cbn [outcome_bind]. rewrite Hsend.
  eexists _, d, (to_seconds p). split; [done|]. split; [by apply decode_encode|].
  unfold reports_exactly. rewrite verify_to_seconds by done. rewrite Hv. rewrite Ew. cbn. done.
Qed.

Lemma recent_seconds t now : 0 <= t <= now -> now - t < 29 * 10 ^ 9 -> now - 30 * 10 ^ 9 < t / 10 ^ 9 * 10 ^ 9 <= now.
Proof using Type. clear. intros. dlia. Qed.

(** The first message is held, the second makes a price. *)
Lemma two_updates k1 k2 t1 t2 now u1 u2 : KeyAddress k1 <> KeyAddress k2 -> 0 <= t1 <= now -> 0 <= t2 <= now -> now < 2 ^ 62 ->
  now - t1 < 29 * 10 ^ 9 -> now - t2 < 29 * 10 ^ 9 -> reports_exactly k1 t1 u1 -> reports_exactly k2 t2 u2 ->
  exists pa1 pa2 p, AddUpdate (WireToPoolRegistry (NewPriceAggregator None)) u1 now = Done (pa1, Ok tt, None) /\
    AddUpdate pa1 u2 now = Done (pa2, Ok tt, Some p) /\
    ap_ChainID p = c /\ ap_PoolAddress p = pool /\ ap_Reserve0 p = r0 /\ ap_Reserve1 p = r1 /\ ap_BlockNumber p = block /\
    fltb (ap_Confidence p) (f_ratio 1 2) = false.
Proof using Hc Hpool H0 H1 Hb.
  intros Hk Ht1 Ht2 Hnow D1 D2 (A1 & A2 & A3 & A4 & A5 & A6 & A7 & A8) (B1 & B2 & B3 & B4 & B5 & B6 & B7 & B8).
  destruct (recent_seconds t1 now Ht1 D1) as [T1 T1']. destruct (recent_seconds t2 now Ht2 D2) as [T2 T2'].
  assert (Hold : forall u, now - 30 * 10 ^ 9 < pu_Timestamp u <= now -> (30 * 10 ^ 9 <? since now (pu_Timestamp u)) = false).
  { intros u Hu. apply Z.ltb_ge. unfold since. lia. }
  assert (X1 : exists pa1, AddUpdate (WireToPoolRegistry (NewPriceAggregator None)) u1 now = Done (pa1, Ok tt, None) /\
    at_chain (prices pa1) c = {[pool := [u1]]} /\ ag_config pa1 = DefaultAggregatorConfig /\ OnPriceUpdate pa1 = true).
  { unfold AddUpdate. rewrite A8. cbn [outcome_bind]. change (ag_MaxAge (ag_config _)) with (30 * 10 ^ 9).
    rewrite Hold by (rewrite A6; lia). cbv zeta. change (prices (WireToPoolRegistry (NewPriceAggregator None))) with (∅ : gmap Z (gmap bytes (list PriceUpdate))).
    rewrite A1, A2. assert (Hnone : at_chain (∅ : gmap Z (gmap bytes (list PriceUpdate))) c = ∅) by (unfold at_chain; by rewrite lookup_empty).
    rewrite !Hnone, !lookup_empty. cbn [default id List.filter app length]. change (MinSources (ag_config _)) with 2.
    rewrite (proj2 (Z.leb_gt 2 (Z.of_nat 1))) by lia. eexists. split; [done|]. cbn [prices counted]. by rewrite at_chain_insert, decide_True. }
  destruct X1 as (pa1 & X1 & Hp & Hcfg & Hon). exists pa1.
  unfold AddUpdate at 2. rewrite B8. cbn [outcome_bind]. rewrite Hcfg. change (ag_MaxAge DefaultAggregatorConfig) with (30 * 10 ^ 9).
  rewrite Hold by (rewrite B6; lia). cbv zeta. rewrite B1, B2.
  rewrite Hp, lookup_singleton_eq. cbn [default id List.filter]. rewrite A7, (proj2 (bytes_eqb_false _ _)) by done. cbn [negb app length].
  change (MinSources DefaultAggregatorConfig) with 2. rewrite (proj2 (Z.leb_le 2 (Z.of_nat 2))) by lia. rewrite Hon.
  unfold aggregate. cbn [List.filter]. change (ag_MaxAge DefaultAggregatorConfig) with (30 * 10 ^ 9).
  rewrite A6, B6, !(proj2 (Z.ltb_lt (now - 30 * 10 ^ 9) _)) by lia. unfold sort_by. cbn [foldr insert_by].
  rewrite A5, B5, Z.ltb_irrefl. cbn [fmap list_fmap derefs]. rewrite A3, A4, B3, B4. cbn [derefs outcome_bind].
  assert (Hm : forall r, medianBigInt [r; r] = Done r).
  { intros r. unfold medianBigInt, sort_by. cbn [foldr insert_by]. rewrite Z.ltb_irrefl. cbn [length Nat.div Nat.modulo Nat.divmod fst snd Nat.sub Nat.eqb default id lookup list_lookup]. rewrite big_div_pos by lia. f_equal.
    replace (r + r) with (r * 2) by lia. apply Z.div_mul. lia. }
  rewrite !Hm. cbn [outcome_bind]. unfold calculateConfidence. cbn [length Nat.ltb Nat.leb agreeing].
  assert (Hd : forall r, 0 < r -> deviation r r = Done 0).
  { intros r Hr. unfold deviation. rewrite (proj2 (Z.eqb_neq r 0)) by lia. rewrite big_div_pos by lia. by rewrite Z.sub_diag. }
  rewrite !Hd by lia. cbn [outcome_bind]. change (MaxDeviationBPS DefaultAggregatorConfig) with 100. cbn [Z.leb Z.compare andb].
  eexists _, _. split; [exact X1|]. split; [reflexivity|]. cbn. repeat split; try done; try (by rewrite A5).
Qed.
End end_to_end.

(** Prices reach the registry: when two nodes with different addresses broadcast the same
    positive reserves of a known pool at a block that is new to it, within 29 seconds, a node
    that handles both messages ends up with these reserves and this block in its registry. *)
Theorem gossip_end_to_end {C : Crypto} {L : CryptoLaws C} send k1 k2 c pool r0 r1 block t1 t2 now reg p :
  addresses_sized C -> (forall c d, send c d = Ok tt) -> KeyAddress k1 <> KeyAddress k2 -> 0 <= c < 2 ^ 64 -> length pool = 20%nat ->
  0 < r0 < 2 ^ 256 -> 0 < r1 < 2 ^ 256 -> 0 <= block < 2 ^ 64 -> 0 <= t1 <= now -> 0 <= t2 <= now -> now < 2 ^ 62 ->
  now - t1 < 29 * 10 ^ 9 -> now - t2 < 29 * 10 ^ 9 -> GetPool reg c pool = Some p -> dp_LastBlock p < block ->
  exists pb1 d1 pb2 d2 pa1 pa2 reg1 reg2 u1 u2 q,
    BroadcastPrice send (NewPriceBroadcaster k1) c pool (Some r0) (Some r1) block t1 = Done (pb1, Ok tt, Some d1) /\
    BroadcastPrice send (NewPriceBroadcaster k2) c pool (Some r0) (Some r1) block t2 = Done (pb2, Ok tt, Some d2) /\
    createPriceGossipHandler (WireToPoolRegistry (NewPriceAggregator None)) reg d1 now = Done (pa1, reg1, Some u1) /\
    createPriceGossipHandler pa1 reg1 d2 now = Done (pa2, reg2, Some u2) /\
    GetPool reg2 c pool = Some q /\ dp_Reserve0 q = Some r0 /\ dp_Reserve1 q = Some r1 /\ dp_LastBlock q = block.
Proof.
  intros Ha Hs Hk Hc Hp H0 H1 Hb Ht1 Ht2 Hn D1 D2 Hreg Hlast.
  destruct (broadcast_ok Ha send Hs c pool r0 r1 block Hc Hp H0 H1 Hb k1 t1 ltac:(lia)) as (pb1 & d1 & u1 & E1 & F1 & G1).
  destruct (broadcast_ok Ha send Hs c pool r0 r1 block Hc Hp H0 H1 Hb k2 t2 ltac:(lia)) as (pb2 & d2 & u2 & E2 & F2 & G2).
  destruct (two_updates c pool r0 r1 block Hc Hp H0 H1 Hb k1 k2 t1 t2 now u1 u2 Hk Ht1 Ht2 Hn D1 D2 G1 G2)
    as (pa1 & pa2 & pr & X1 & X2 & P1 & P2 & P3 & P4 & P5 & P6).
  eexists pb1, d1, pb2, d2, pa1, pa2, reg, (on_price reg pr now), u1, u2, _. split; [done|]. split; [done|].
  split; [unfold createPriceGossipHandler; rewrite F1; cbn [outcome_bind]; by rewrite X1|].
  split; [unfold createPriceGossipHandler; rewrite F2; cbn [outcome_bind]; by rewrite X2|].
  unfold on_price, UpdatePoolFromPriceGossip. rewrite P1, P2, P3, P4, P5, P6. unfold GetPool, update_pool in *. rewrite Hreg.
  cbn [pools with_pools]. rewrite at_chain_insert, decide_True, lookup_insert_eq by done. split; [reflexivity|].
  by rewrite (proj2 (Z.leb_gt block (dp_LastBlock p))) by lia.
Qed.

Definition ex_registry : PoolRegistry := AddPool (C := Toy.crypto) (NewPoolRegistry None)
  (set_identity (be_bytes 20 77) (be_bytes 20 1) (be_bytes 20 2) 30 0 false (new_pool 1 "uniswap_v2" 0 0 0)) 0.

Lemma gossip_end_to_end_witness :
  exists pb1 d1 pb2 d2 pa1 pa2 reg1 reg2 u1 u2 q,
    BroadcastPrice (C := Toy.crypto) (fun _ _ => Ok tt) (NewPriceBroadcaster (C := Toy.crypto) Byte.x07) 1 (be_bytes 20 77) (Some 1000) (Some 2000) 5 100 =
      Done (pb1, Ok tt, Some d1) /\
    BroadcastPrice (C := Toy.crypto) (fun _ _ => Ok tt) (NewPriceBroadcaster (C := Toy.crypto) Byte.x08) 1 (be_bytes 20 77) (Some 1000) (Some 2000) 5 150 =
      Done (pb2, Ok tt, Some d2) /\
    createPriceGossipHandler (C := Toy.crypto) (WireToPoolRegistry (NewPriceAggregator None)) ex_registry d1 200 = Done (pa1, reg1, Some u1) /\
    createPriceGossipHandler (C := Toy.crypto) pa1 reg1 d2 200 = Done (pa2, reg2, Some u2) /\
    GetPool reg2 1 (be_bytes 20 77) = Some q /\ dp_Reserve0 q = Some 1000 /\ dp_Reserve1 q = Some 2000 /\ dp_LastBlock q = 5.
Proof.
  eapply (gossip_end_to_end (C := Toy.crypto) (L := Toy.laws)); try lia; [exact toy_addresses|done|done|done|vm_compute; reflexivity|cbn; lia].
Defined.
