(* ===== verification/Bits.v ===== *)
(** * Byte-wise exclusive or

    The loops [result[i] ^= f[i]] of the source, shared by the junction of flows
    ([quantum/substrate.go]), the Feistel network ([quantum/primitives.go]) and the bridges of
    the game ([pong/flow_bridge.go]).  [xor_into] is one such loop; its order of application
    does not matter ([xor_all_perm]) and a second application undoes it ([xor_into_twice]). *)

From S2P Require Import Prelude.

Definition xor_byte (a b : byte) : byte := Zbyte (Z.lxor (byteZ a) (byteZ b)).

(** [for i := range src { dst[i] ^= src[i] }] up to the shorter of the two lengths. *)
Fixpoint xor_into (dst src : bytes) : bytes :=
  match dst, src with
  | a :: dst', b :: src' => xor_byte a b :: xor_into dst' src'
  | _, _ => dst
  end.

(** All of them into the same destination, one after the other. *)
Definition xor_all (dst : bytes) (l : list bytes) : bytes := fold_left xor_into l dst.

Definition zeros (n : nat) : bytes := replicate n Byte.x00.

Lemma lxor_byte_range a b : 0 <= Z.lxor (byteZ a) (byteZ b) < 256.
Proof.
  pose proof (byteZ_range a). pose proof (byteZ_range b). split; [apply Z.lxor_nonneg; lia|].
  destruct (Z.eq_dec (Z.lxor (byteZ a) (byteZ b)) 0) as [->|Hn]; [lia|].
  change 256 with (2 ^ 8). apply Z.log2_lt_pow2; [assert (0 <= Z.lxor (byteZ a) (byteZ b)) by (apply Z.lxor_nonneg; lia); lia|].
  eapply Z.le_lt_trans; [apply Z.log2_lxor; lia|].
  assert (L : forall c, Z.log2 (byteZ c) < 8).
  { intros c. pose proof (byteZ_range c). destruct (Z.eq_dec (byteZ c) 0) as [->|]; [by vm_compute|]. apply Z.log2_lt_pow2; lia. }
  apply Z.max_lub_lt; apply L.
Qed.

Lemma byteZ_xor a b : byteZ (xor_byte a b) = Z.lxor (byteZ a) (byteZ b).
Proof. unfold xor_byte. rewrite byteZ_Zbyte. apply Z.mod_small, lxor_byte_range. Qed.

Lemma xor_byte_comm a b : xor_byte a b = xor_byte b a.
Proof. apply byteZ_inj. by rewrite !byteZ_xor, Z.lxor_comm. Qed.

Lemma xor_byte_assoc a b c : xor_byte a (xor_byte b c) = xor_byte (xor_byte a b) c.
Proof. apply byteZ_inj. by rewrite !byteZ_xor, Z.lxor_assoc. Qed.

Lemma xor_byte_nilpotent a : xor_byte a a = Byte.x00.
Proof. apply byteZ_inj. by rewrite !byteZ_xor, Z.lxor_nilpotent. Qed.

Lemma xor_byte_0_r a : xor_byte a Byte.x00 = a.
Proof. apply byteZ_inj. rewrite byteZ_xor. apply Z.lxor_0_r. Qed.

Lemma xor_byte_0_l a : xor_byte Byte.x00 a = a.
Proof. by rewrite xor_byte_comm, xor_byte_0_r. Qed.

Lemma xor_byte_twice a b : xor_byte (xor_byte a b) b = a.
Proof. by rewrite <- xor_byte_assoc, xor_byte_nilpotent, xor_byte_0_r. Qed.

Lemma length_xor_into d s : length (xor_into d s) = length d.
Proof. revert s. induction d; intros [|]; cbn; auto. Qed.

Lemma length_xor_all d l : length (xor_all d l) = length d.
Proof. revert d. induction l as [|s l IH]; intros d; [done|]. cbn. unfold xor_all in IH. by rewrite IH, length_xor_into. Qed.

Lemma xor_into_nil d : xor_into d [] = d.
Proof. by destruct d. Qed.

Lemma xor_into_comm d a b : xor_into (xor_into d a) b = xor_into (xor_into d b) a.
Proof.
  revert a b. induction d as [|x d IH]; intros [|y a] [|z b]; cbn; try done. f_equal; [|apply IH].
  by rewrite <- !xor_byte_assoc, (xor_byte_comm y z).
Qed.

Lemma xor_into_twice d a : xor_into (xor_into d a) a = d.
Proof. revert a. induction d as [|x d IH]; intros [|y a]; cbn; try done. by rewrite xor_byte_twice, IH. Qed.

Lemma xor_into_inj d d' s : xor_into d s = xor_into d' s -> d = d'.
Proof. intros H. by rewrite <- (xor_into_twice d s), H, xor_into_twice. Qed.

(** The order in which the sources are applied is irrelevant. *)
Lemma xor_all_perm d l l' : l ≡ₚ l' -> xor_all d l = xor_all d l'.
Proof.
  intros H. revert d. unfold xor_all. induction H; intros d; cbn; [done|apply IHPermutation| |].
  - by rewrite xor_into_comm.
  - by rewrite IHPermutation1, IHPermutation2.
Qed.

Lemma xor_into_app d d' s s' : length d = length s -> xor_into (d ++ d') (s ++ s') = xor_into d s ++ xor_into d' s'.
Proof. revert s. induction d; intros [|? s]; cbn; intros H; try done. injection H as H. by rewrite IHd. Qed.

(** Bytes of the source beyond the destination are ignored. *)
Lemma xor_into_take d s n : (length d <= n)%nat -> xor_into d (take n s) = xor_into d s.
Proof. revert s n. induction d; intros [|? s] [|n]; cbn; intros; try done; try lia. f_equal. apply IHd. lia. Qed.

Lemma lookup_xor_into d s i :
  xor_into d s !! i = match d !! i, s !! i with Some a, Some b => Some (xor_byte a b) | o, _ => o end.
Proof. revert s i. induction d as [|a d IH]; intros [|b s] [|i]; cbn; try done. by destruct (d !! i). Qed.

Lemma xor_into_zeros n s : (length s <= n)%nat -> xor_into (zeros n) s = s ++ zeros (n - length s).
Proof. revert n. induction s; intros [|n]; cbn; intros; try done; try lia. rewrite xor_byte_0_l. f_equal. apply IHs. lia. Qed.
