(* ===== verification/Pong.v ===== *)
(** * Pong ([pong/pong.go], [pong/adversary.go])

    The game that runs on the transaction flow: every tick the inputs of both players and
    the state are encoded, a hash is computed from them on the network, and the hash
    perturbs paddles and ball.

    Contents: the state with its 16-bit coordinates, the encoding of a tick, the step
    function with and without the pressure of the quantum service, the adversary that
    plays the second paddle, and the engines.  The two step functions of the source differ
    in the speed of the paddles, in whether the hash moves the paddles, and in two
    modifiers of speed and spin; they are one definition, [advance], over these four values
    ([Mods]).  A tick receives the function that computes the hash as an argument, so
    that it may fail or answer differently each time; the callbacks it fires are events
    that it returns.

    The theorems: the state stays in the field under every sequence of operations,
    vertically as long as no pressure adds spin ([state_stays_in_field]; with spin the
    ball can leave it, [spin_escapes_walls]); a rally ends ([rally_ends]); without pressure the ball cannot
    jump over a paddle ([no_tunnelling]) and with pressure it can ([quantum_tunnelling]);
    payloads are unambiguous ([tick_payloads_distinct]); the adversary's prediction ends
    ([reflection_ends]). *)

From Stdlib Require Import String SpecFloat.
From S2P Require Import Prelude Json Signing Float64.

(** ** Narrow integers *)

Definition i16 (z : Z) : Z := (z + 2 ^ 15) mod 2 ^ 16 - 2 ^ 15.
Definition u8 (z : Z) : Z := z mod 2 ^ 8.

(** [int16(f)] for a float in range. *)
Definition f_to_i16 (f : float64) : Z := i16 (f_trunc f).

(** ** The state *)

Definition FieldWidth : Z := 256.
Definition FieldHeight : Z := 128.
Definition PaddleHeight : Z := 20.
Definition PaddleWidth : Z := 4.
Definition PaddleMargin : Z := 8.
Definition BallSize : Z := 4.
Definition MaxBallSpeed : Z := 8.
Definition PaddleSpeed : Z := 6.
Definition InitialBallDX : Z := 3.
Definition InitialBallDY : Z := 2.
Definition WinScore : Z := 11.

(** [Input] is a byte; values other than the three constants leave the paddle. *)
Definition Input := byte.
Definition InputNone : Input := Byte.x00.
Definition InputUp : Input := Byte.x01.
Definition InputDown : Input := Byte.x02.

Record State := mkState {
  BallX : Z; BallY : Z; BallDX : Z; BallDY : Z; Paddle1Y : Z; Paddle2Y : Z;
  Score1 : Z; Score2 : Z; TickNo : Z; GameOver : bool; Winner : Z;
}.

Definition NewState : State :=
  mkState (Z.quot FieldWidth 2) (Z.quot FieldHeight 2) InitialBallDX InitialBallDY
    (Z.quot (FieldHeight - PaddleHeight) 2) (Z.quot (FieldHeight - PaddleHeight) 2) 0 0 0 false 0.

Definition set_tick (v : Z) (s : State) : State :=
  mkState (BallX s) (BallY s) (BallDX s) (BallDY s) (Paddle1Y s) (Paddle2Y s) (Score1 s) (Score2 s) v (GameOver s) (Winner s).
Definition set_paddles (a b : Z) (s : State) : State :=
  mkState (BallX s) (BallY s) (BallDX s) (BallDY s) a b (Score1 s) (Score2 s) (TickNo s) (GameOver s) (Winner s).
Definition set_ball (x y dx dy : Z) (s : State) : State :=
  mkState x y dx dy (Paddle1Y s) (Paddle2Y s) (Score1 s) (Score2 s) (TickNo s) (GameOver s) (Winner s).
Definition set_scores (a b : Z) (s : State) : State :=
  mkState (BallX s) (BallY s) (BallDX s) (BallDY s) (Paddle1Y s) (Paddle2Y s) a b (TickNo s) (GameOver s) (Winner s).
Definition set_over (w : Z) (s : State) : State :=
  mkState (BallX s) (BallY s) (BallDX s) (BallDY s) (Paddle1Y s) (Paddle2Y s) (Score1 s) (Score2 s) (TickNo s) true w.

(** ** The payload of a tick *)

Record Tick := mkTick { tick_State : State; tick_Input1 : Input; tick_Input2 : Input; tick_Nonce : Z }.

(** [uint16(z)] in big-endian order. *)
Definition put16 (z : Z) : bytes := be_bytes 2 (z mod 2 ^ 16).

Definition tick_Encode (t : Tick) : bytes :=
  let s := tick_State t in
  [Byte.x5a; Byte.x50; Byte.x01] ++ be_bytes 8 (TickNo s) ++
  put16 (BallX s) ++ put16 (BallY s) ++ put16 (i16 (BallDX s + 128)) ++ put16 (i16 (BallDY s + 128)) ++
  put16 (Paddle1Y s) ++ put16 (Paddle2Y s) ++
  [Zbyte (Score1 s); Zbyte (Score2 s); tick_Input1 t; tick_Input2 t] ++ be_bytes 8 (tick_Nonce t).

(** ** The step *)

Definition clamp (v lo hi : Z) : Z := if v <? lo then lo else if hi <? v then hi else v.

Definition sign (x : Z) : Z := if 0 <? x then 1 else if x <? 0 then Z.opp 1 else 0.

(** [h[k]] of the transaction hash, which has 32 bytes. *)
Definition hb (h : bytes) (k : nat) : Z := byteZ (nth k h Byte.x00).

(** [int16(h[k]%m) - c]. *)
Definition jitter (h : bytes) (k : nat) (m c : Z) : Z := hb h k mod m - c.

Record Mods := { paddle_speed : Z; paddle_jitter : bool; speed_mod : Z; spin_mod : Z }.

(** The movement of a paddle, before it is clamped. *)
Definition steer (m : Mods) (i : Input) (h : bytes) (k : nat) (y : Z) : Z :=
  let y := if bool_decide (i = InputUp) then i16 (y - paddle_speed m)
           else if bool_decide (i = InputDown) then i16 (y + paddle_speed m) else y in
  if paddle_jitter m then i16 (y + jitter h k 3 1) else y.

Definition move_paddles (m : Mods) (i1 i2 : Input) (h : bytes) (s : State) : State :=
  set_paddles (clamp (steer m i1 h 0 (Paddle1Y s)) 0 (FieldHeight - PaddleHeight))
              (clamp (steer m i2 h 1 (Paddle2Y s)) 0 (FieldHeight - PaddleHeight)) s.

Definition move_ball (m : Mods) (h : bytes) (s : State) : State :=
  let x := i16 (BallX s + BallDX s + speed_mod m * sign (BallDX s)) in
  let y := i16 (BallY s + BallDY s) in
  let mod_ := i16 (jitter h 2 5 2 + speed_mod m) in
  let dx := if 0 <? BallDX s then clamp (i16 (BallDX s + Z.quot mod_ 2)) 1 (i16 (MaxBallSpeed + speed_mod m))
            else clamp (i16 (BallDX s - Z.quot mod_ 2)) (i16 (- MaxBallSpeed - speed_mod m)) (Z.opp 1) in
  set_ball x y dx (BallDY s) s.

Definition bounce_top (m : Mods) (h : bytes) (s : State) : State :=
  if BallY s <=? 0 then set_ball (BallX s) (i16 (- BallY s)) (BallDX s) (i16 (- BallDY s + jitter h 4 3 1 + spin_mod m)) s else s.

Definition bounce_bottom (m : Mods) (h : bytes) (s : State) : State :=
  if FieldHeight - BallSize <=? BallY s then
    set_ball (BallX s) (i16 (2 * (FieldHeight - BallSize) - BallY s)) (BallDX s) (i16 (- BallDY s + jitter h 5 3 1 + spin_mod m)) s
  else s.

(** The vertical speed after a hit of the paddle at [py]. *)
Definition spun (m : Mods) (h : bytes) (k : nat) (py : Z) (s : State) : Z :=
  let hitPos := i16 (BallY s - py + Z.quot BallSize 2) in
  let spin := i16 (Z.quot (i16 (hitPos * 6)) PaddleHeight - 3) in
  clamp (i16 (BallDY s + spin + jitter h k 5 2 + spin_mod m)) (i16 (- MaxBallSpeed - speed_mod m)) (i16 (MaxBallSpeed + speed_mod m)).

Definition covers (py : Z) (s : State) : bool := (py <=? i16 (BallY s + BallSize)) && (BallY s <=? i16 (py + PaddleHeight)).

Definition touches1 (s : State) : bool :=
  (BallX s <=? PaddleMargin + PaddleWidth) && (PaddleMargin - BallSize <=? BallX s) && covers (Paddle1Y s) s.

Definition hit_paddle1 (m : Mods) (h : bytes) (s : State) : State :=
  if touches1 s then
    let dx := i16 (- BallDX s) in
    set_ball (PaddleMargin + PaddleWidth + 1) (BallY s) (if dx <? i16 (MaxBallSpeed + speed_mod m) then i16 (dx + 1) else dx)
             (spun m h 6 (Paddle1Y s) s) s
  else s.

Definition paddle2Left : Z := FieldWidth - PaddleMargin - PaddleWidth.

Definition touches2 (s : State) : bool :=
  (paddle2Left <=? i16 (BallX s + BallSize)) && (BallX s <=? FieldWidth - PaddleMargin) && covers (Paddle2Y s) s.

Definition hit_paddle2 (m : Mods) (h : bytes) (s : State) : State :=
  if touches2 s then
    let dx := i16 (- BallDX s) in
    set_ball (paddle2Left - BallSize - 1) (BallY s) (if i16 (- MaxBallSpeed - speed_mod m) <? dx then i16 (dx - 1) else dx)
             (spun m h 7 (Paddle2Y s) s) s
  else s.

Definition resetBall (h : bytes) (scoredAgainst : Z) (s : State) : State :=
  let dy := jitter h 8 5 2 in
  set_ball (Z.quot FieldWidth 2) (Z.quot FieldHeight 2) (if scoredAgainst =? 1 then - InitialBallDX else InitialBallDX)
           (if dy =? 0 then 1 else dy) s.

Definition score (h : bytes) (s : State) : State :=
  if BallX s <? 0 then resetBall h 2 (set_scores (Score1 s) (u8 (Score2 s + 1)) s)
  else if FieldWidth <? BallX s then resetBall h 1 (set_scores (u8 (Score1 s + 1)) (Score2 s) s)
  else s.

Definition judge (s : State) : State :=
  if WinScore <=? Score1 s then set_over 1 s else if WinScore <=? Score2 s then set_over 2 s else s.

(** The state when the ball has moved and bounced, before the paddles are tried. *)
Definition flight (m : Mods) (i1 i2 : Input) (h : bytes) (s : State) : State :=
  bounce_bottom m h (bounce_top m h (move_ball m h (move_paddles m i1 i2 h (set_tick (u64 (TickNo s + 1)) s)))).

Definition advance (m : Mods) (s : State) (i1 i2 : Input) (h : bytes) : State :=
  if GameOver s then set_tick (u64 (TickNo s + 1)) s
  else judge (score h (hit_paddle2 m h (hit_paddle1 m h (flight m i1 i2 h s)))).

Definition plain : Mods := {| paddle_speed := PaddleSpeed; paddle_jitter := true; speed_mod := 0; spin_mod := 0 |}.

Definition ComputeNextState (current : State) (input1 input2 : Input) (txHash : bytes) : State :=
  advance plain current input1 input2 txHash.

Record PressureMetrics := { Hadamard : float64; PauliX : float64; PauliZ : float64; Phase : float64 }.

Definition half : float64 := f_ratio 1 2.

Definition quantum_mods (p : PressureMetrics) : Mods :=
  {| paddle_speed := f_to_i16 (fmul (f_of_Z PaddleSpeed) (fadd half (fmul (PauliX p) half)));
     paddle_jitter := fltb (PauliX p) half;
     speed_mod := f_to_i16 (fmul (Hadamard p) (f_of_Z 3));
     spin_mod := f_to_i16 (fmul (fsub (PauliZ p) half) (f_of_Z 4)) |}.

Definition ComputeNextStateQuantum (current : State) (input1 input2 : Input) (txHash : bytes) (pressure : PressureMetrics) : State :=
  advance (quantum_mods pressure) current input1 input2 txHash.

(** ** The adversary *)

Record Adversary := mkAdversary {
  reactionSpeed : float64; imprecision : float64; aggressiveness : float64; targetY : Z; lastFlowByte : byte;
}.

Definition NewAdversary : Adversary := mkAdversary (f_ratio 6 10) (f_ratio 3 10) half 0 Byte.x00.

Definition SetDifficulty (difficulty : float64) (a : Adversary) : Adversary :=
  let d := if fltb difficulty f0 then f0 else difficulty in
  let d := if fltb f1 d then f1 else d in
  mkAdversary (fadd (f_ratio 3 10) (fmul d (f_ratio 6 10))) (fsub half (fmul d (f_ratio 4 10))) (fadd (f_ratio 3 10) (fmul d half))
              (targetY a) (lastFlowByte a).

Definition abs16 (x : Z) : Z := if x <? 0 then i16 (- x) else x.

Definition minFloat (a b : float64) : float64 := if fltb a b then a else b.

Definition in_field (y : Z) : bool := (0 <=? y) && (y <=? FieldHeight - BallSize).

(** One round of the loop that folds the predicted height back into the field. *)
Definition reflect (y : Z) : Z :=
  let y := if y <? 0 then i16 (- y) else y in
  if FieldHeight - BallSize <? y then i16 (2 * (FieldHeight - BallSize) - y) else y.

Fixpoint reflect_loop (fuel : nat) (y : Z) : outcome Z :=
  if in_field y then Done y else match fuel with O => NoFuel | S n => reflect_loop n (reflect y) end.

(** Every round but the first takes at least 248 off the distance; 16-bit values need fewer than 140 rounds. *)
Definition reflect_fuel : nat := 140.

(** The position where the ball will cross the second paddle, before it is folded back. *)
Definition predicted (a : Adversary) (s : State) : Z :=
  let ticks := Z.quot (i16 (paddle2Left - BallX s)) (BallDX s) in
  let ticks := if ticks <? 0 then 0 else i16 ticks in
  i16 (BallY s + BallDY s * f_to_i16 (fmul (f_of_Z ticks) (aggressiveness a))).

(** The offset of the aim that the flow chooses. *)
Definition flow_offset (a : Adversary) (e : byte) : outcome Z :=
  let amount := f_to_i16 (fmul (f_of_Z PaddleHeight) (imprecision a)) in
  let d := u8 (amount * 2 + 1) in
  if d =? 0 then Panic "integer divide by zero" else Done (i16 (byteZ e mod d - amount)).

Definition calculateTarget (a : Adversary) (s : State) (e : byte) : outcome Z :=
  if BallDX s <=? 0 then Done (i16 (Z.quot FieldHeight 2 + byteZ e mod 20 - 10)) else
  let! y := reflect_loop reflect_fuel (predicted a s) in
  let! off := flow_offset a e in
  let y := i16 (y + off) in
  let y := if y <? Z.quot PaddleHeight 2 then Z.quot PaddleHeight 2 else y in
  Done (if FieldHeight - Z.quot PaddleHeight 2 <? y then FieldHeight - Z.quot PaddleHeight 2 else y).

Definition flow_mod (flowRate : float64) : float64 :=
  if fltb f0 flowRate then fadd half (fmul (minFloat (fdiv flowRate (f_of_Z 100)) f1) half) else half.

Definition tolerance_of (a : Adversary) (e : byte) : Z :=
  let t := f_to_i16 (fmul (fmul (f_of_Z PaddleHeight) (imprecision a)) (fdiv (f_of_Z (byteZ e mod 64)) (f_of_Z 64))) in
  if t <? 2 then 2 else t.

(** The choice of an input once the target is known. *)
Definition choose (a : Adversary) (target tolerance : Z) (e : byte) (fm : float64) (s : State) : Input :=
  let diff := i16 (target - i16 (Paddle2Y s + Z.quot PaddleHeight 2)) in
  if (abs16 diff <? tolerance) && (byteZ e mod 4 =? 0) then InputNone
  else if fltb (fmul (reactionSpeed a) fm) (fdiv (f_of_Z (byteZ e mod 100)) (f_of_Z 100)) then InputNone
  else if tolerance <? diff then InputDown else if diff <? i16 (- tolerance) then InputUp else InputNone.

(** [flow] is what [NextBytes(1)] and [Stats] of the flow return, [None] for a nil flow. *)
Definition Decide (flow : option (bytes * float64)) (a : Adversary) (s : State) : outcome (Adversary * Input) :=
  if GameOver s then Done (a, InputNone) else
  let read := match flow with Some (b :: _, _) => Some b | _ => None end in
  let e := default Byte.x00 read in
  let fm := match flow with Some (_, rate) => flow_mod rate | None => half end in
  let! t := calculateTarget a s e in
  let a' := mkAdversary (reactionSpeed a) (imprecision a) (aggressiveness a) t (default (lastFlowByte a) read) in
  Done (a', choose a t (tolerance_of a e) e fm s).

(** ** The engines *)

Inductive Event :=
  | OnStateChange (s : State)
  | OnScore (player score1 score2 : Z)
  | OnGameOver (winner : Z)
  | OnL1Error (e : string).

(** [loops] counts the goroutines started; [stopped] says that [stopCh] is closed. *)
Record Engine := mkEngine {
  state : State; input1 : Input; input2 : Input; tickRate : Z; tickNonce : Z; running : bool; stopped : bool; loops : nat;
}.

Definition NewEngineWithError : Engine := mkEngine NewState InputNone InputNone (500 * 10 ^ 6) 0 false false 0.

Definition SetTickRate (d : Z) (e : Engine) : Engine :=
  mkEngine (state e) (input1 e) (input2 e) d (tickNonce e) (running e) (stopped e) (loops e).

Definition SetInput (player : Z) (i : Input) (e : Engine) : Engine :=
  if player =? 1 then mkEngine (state e) i (input2 e) (tickRate e) (tickNonce e) (running e) (stopped e) (loops e)
  else mkEngine (state e) (input1 e) i (tickRate e) (tickNonce e) (running e) (stopped e) (loops e).

Definition getAndClearInputs (e : Engine) : Engine * (Input * Input) :=
  (mkEngine (state e) InputNone InputNone (tickRate e) (tickNonce e) (running e) (stopped e) (loops e), (input1 e, input2 e)).

Definition Start (e : Engine) : Engine :=
  if running e then e
  else mkEngine (state e) (input1 e) (input2 e) (tickRate e) (tickNonce e) true (stopped e) (S (loops e)).

Definition Stop (e : Engine) : outcome Engine :=
  if negb (running e) then Done e
  else if stopped e then Panic "close of closed channel"
  else Done (mkEngine (state e) (input1 e) (input2 e) (tickRate e) (tickNonce e) false true (loops e)).

Definition Reset (e : Engine) : Engine :=
  mkEngine NewState (input1 e) (input2 e) (tickRate e) 0 (running e) (stopped e) (loops e).

Definition next_nonce (e : Engine) : Engine :=
  mkEngine (state e) (input1 e) (input2 e) (tickRate e) (u64 (tickNonce e + 1)) (running e) (stopped e) (loops e).

Definition set_state (s : State) (e : Engine) : Engine :=
  mkEngine s (input1 e) (input2 e) (tickRate e) (tickNonce e) (running e) (stopped e) (loops e).

(** The callbacks after a step from [s] to [s'], all of them set. *)
Definition announce (s s' : State) : list Event :=
  OnStateChange s' ::
  (if negb (Score1 s' =? Score1 s) then [OnScore 1 (Score1 s') (Score2 s')]
   else if negb (Score2 s' =? Score2 s) then [OnScore 2 (Score1 s') (Score2 s')] else []) ++
  (if GameOver s' then [OnGameOver (Winner s')] else []).

(** The common part of the ticks: encode, compute the hash, step, announce. *)
Definition run_tick (step : State -> Input -> Input -> bytes -> State) (hash : bytes -> result bytes) (i1 i2 : Input) (e : Engine)
  : Engine * list Event :=
  let payload := tick_Encode (mkTick (state e) i1 i2 (tickNonce e)) in
  let e := next_nonce e in
  match hash payload with
  | Err m => (e, [OnL1Error m])
  | Ok txHash => let s' := step (state e) i1 i2 txHash in (set_state s' e, announce (state e) s')
  end.

Definition tick (hash : bytes -> result bytes) (e : Engine) : Engine * list Event :=
  if GameOver (state e) then (e, [])
  else let r := getAndClearInputs e in run_tick ComputeNextState hash r.2.1 r.2.2 r.1.

Definition TickQuantum (pressure : PressureMetrics) (hash : bytes -> result bytes) (e : Engine) : Engine * list Event :=
  if GameOver (state e) then (e, [])
  else let r := getAndClearInputs e in
       run_tick (fun s i1 i2 h => ComputeNextStateQuantum s i1 i2 h pressure) hash r.2.1 r.2.2 r.1.

(** The callback the quantum engine registers for changes of the pressure. *)
Definition on_pressure (p : PressureMetrics) (e : Engine) : Engine :=
  let rate := f_to_i64 (fmul (f_of_Z (500 * 10 ^ 6)) (fsub f1 (fmul (Hadamard p) half))) in
  SetTickRate (if rate <? 100 * 10 ^ 6 then 100 * 10 ^ 6 else rate) e.

(** A tick against the adversary. *)
Definition tickWithAdversary (flow : option (bytes * float64)) (hash : bytes -> result bytes) (e : Engine) (a : Adversary)
  : outcome (Engine * Adversary * list Event) :=
  if GameOver (state e) then Done (e, a, []) else
  let i1 := input1 e in
  let e := SetInput 1 InputNone e in
  let! d := Decide flow a (state e) in
  let r := run_tick ComputeNextState hash i1 d.2 e in
  Done (r.1, d.1, r.2).

(** ** Bounds *)

Lemma i16_id z : - 2 ^ 15 <= z < 2 ^ 15 -> i16 z = z.
Proof. intros Hz. unfold i16. rewrite Z.mod_small; lia. Qed.

Lemma i16_range z : - 2 ^ 15 <= i16 z < 2 ^ 15.
Proof. unfold i16. pose proof (Z.mod_pos_bound (z + 2 ^ 15) (2 ^ 16) ltac:(lia)). lia. Qed.

Lemma clamp_range v lo hi : lo <= hi -> lo <= clamp v lo hi <= hi.
Proof. intros. unfold clamp. repeat case_match; bool_to_prop; lia. Qed.

Lemma jitter_range h k m c : 0 < m -> - c <= jitter h k m c < m - c.
Proof. intros Hm. unfold jitter. pose proof (Z.mod_pos_bound (hb h k) m Hm). lia. Qed.

(** What holds of every state of a game in which the speed modifier never exceeds [k]. *)
Record state_ok (k : Z) (s : State) : Prop := mkOk {
  ok_x : 0 <= BallX s <= FieldWidth;
  ok_y : - 2 ^ 15 <= BallY s < 2 ^ 15;
  ok_dx : 1 <= Z.abs (BallDX s) <= MaxBallSpeed + k;
  ok_dy : - 2 ^ 15 <= BallDY s < 2 ^ 15;
  ok_right : 0 < BallDX s -> PaddleMargin + PaddleWidth < BallX s;
  ok_left : BallDX s < 0 -> BallX s < paddle2Left - BallSize;
  ok_p1 : 0 <= Paddle1Y s <= FieldHeight - PaddleHeight;
  ok_p2 : 0 <= Paddle2Y s <= FieldHeight - PaddleHeight;
  ok_scores : 0 <= Score1 s <= WinScore /\ 0 <= Score2 s <= WinScore;
  ok_tick : 0 <= TickNo s < 2 ^ 64;
  ok_over : GameOver s = (WinScore <=? Score1 s) || (WinScore <=? Score2 s);
  ok_winner : Winner s = if WinScore <=? Score1 s then 1 else if WinScore <=? Score2 s then 2 else 0;
}.

Lemma new_state_ok k : 0 <= k -> state_ok k NewState.
Proof.
  intros Hk. split; try (vm_compute; by repeat split; intros; discriminate).
  change (BallDX NewState) with 3. unfold MaxBallSpeed. lia.
Qed.

Lemma paddles_in_field m i1 i2 h s :
  let s' := move_paddles m i1 i2 h s in
  0 <= Paddle1Y s' <= FieldHeight - PaddleHeight /\ 0 <= Paddle2Y s' <= FieldHeight - PaddleHeight.
Proof. split; apply clamp_range; unfold FieldHeight, PaddleHeight; lia. Qed.

(** The ball after its flight: it has moved by its speed and the modifier, in the same
    direction, and the rest of the game is untouched. *)
Record flown (k : Z) (m : Mods) (s f : State) : Prop := mkFlown {
  fl_x : BallX f = BallX s + BallDX s + speed_mod m * sign (BallDX s);
  fl_dx : (0 < BallDX s -> 1 <= BallDX f <= MaxBallSpeed + k) /\ (BallDX s < 0 -> - MaxBallSpeed - k <= BallDX f <= Z.opp 1);
  fl_y : - 2 ^ 15 <= BallY f < 2 ^ 15 /\ - 2 ^ 15 <= BallDY f < 2 ^ 15;
  fl_p : (0 <= Paddle1Y f <= FieldHeight - PaddleHeight) /\ (0 <= Paddle2Y f <= FieldHeight - PaddleHeight);
  fl_rest : Score1 f = Score1 s /\ Score2 f = Score2 s /\ GameOver f = GameOver s /\ Winner f = Winner s /\ TickNo f = u64 (TickNo s + 1);
}.

Lemma move_ball_flown k m h s t :
  0 <= speed_mod m <= k -> k <= 100 -> state_ok k s -> BallX t = BallX s -> BallDX t = BallDX s -> BallDY t = BallDY s ->
  let f := move_ball m h t in
  BallX f = BallX s + BallDX s + speed_mod m * sign (BallDX s) /\
  ((0 < BallDX s -> 1 <= BallDX f <= MaxBallSpeed + k) /\ (BallDX s < 0 -> - MaxBallSpeed - k <= BallDX f <= Z.opp 1)) /\
  (- 2 ^ 15 <= BallY f < 2 ^ 15 /\ - 2 ^ 15 <= BallDY f < 2 ^ 15).
Proof.
  intros Hm Hk Hs Ex Edx Edy f. pose proof (ok_x _ _ Hs). pose proof (ok_dx _ _ Hs). pose proof (ok_dy _ _ Hs).
  unfold f, move_ball. cbn [BallX BallY BallDX BallDY set_ball]. rewrite Ex, Edx, Edy. unfold MaxBallSpeed, FieldWidth in *.
  rewrite (i16_id (8 + _)), (i16_id (- (8) - _)) by lia.
  split; [|split].
  - apply i16_id. unfold sign. repeat case_match; bool_to_prop; lia.
  - destruct (0 <? BallDX s) eqn:E; bool_to_prop.
    + split; intros; [|lia]. match goal with |- context [clamp ?a ?b ?c] => pose proof (clamp_range a b c ltac:(lia)) end. lia.
    + split; intros; [lia|]. match goal with |- context [clamp ?a ?b ?c] => pose proof (clamp_range a b c ltac:(lia)) end. lia.
  - split; [apply i16_range|lia].
Qed.

Lemma bounce_keeps m h s :
  let f := bounce_bottom m h (bounce_top m h s) in
  BallX f = BallX s /\ BallDX f = BallDX s /\ Paddle1Y f = Paddle1Y s /\ Paddle2Y f = Paddle2Y s /\ Score1 f = Score1 s /\
  Score2 f = Score2 s /\ GameOver f = GameOver s /\ Winner f = Winner s /\ TickNo f = TickNo s /\
  (- 2 ^ 15 <= BallY s < 2 ^ 15 /\ - 2 ^ 15 <= BallDY s < 2 ^ 15 -> - 2 ^ 15 <= BallY f < 2 ^ 15 /\ - 2 ^ 15 <= BallDY f < 2 ^ 15).
Proof.
  unfold bounce_bottom, bounce_top.
  destruct (BallY s <=? 0); cbn [BallY set_ball]; case_match; cbn; repeat split; try done; try apply i16_range; intros; tauto.
Qed.

Lemma flight_flown k m i1 i2 h s : 0 <= speed_mod m <= k -> k <= 100 -> state_ok k s -> flown k m s (flight m i1 i2 h s).
Proof.
  intros Hm Hk Hs. unfold flight. set (t := move_paddles m i1 i2 h (set_tick (u64 (TickNo s + 1)) s)).
  destruct (move_ball_flown k m h s t Hm Hk Hs eq_refl eq_refl eq_refl) as (Hx & Hdx & Hy).
  destruct (bounce_keeps m h (move_ball m h t)) as (Ex & Edx & E1 & E2 & E3 & E4 & E5 & E6 & E7 & Hr).
  split; rewrite ?Ex, ?Edx, ?E1, ?E2, ?E3, ?E4, ?E5, ?E6, ?E7; try done.
  - apply Hr, Hy.
  - apply paddles_in_field.
Qed.

Lemma spun_range k m h j py s : 0 <= speed_mod m <= k -> k <= 100 -> - 2 ^ 15 <= spun m h j py s < 2 ^ 15.
Proof.
  intros Hm Hk. unfold spun, MaxBallSpeed. rewrite (i16_id (8 + _)), (i16_id (- (8) - _)) by lia.
  match goal with |- context [clamp ?a ?b ?c] => pose proof (clamp_range a b c ltac:(lia)) end. lia.
Qed.

(** After the paddles: the ball points away from a paddle that it touched. *)
Record struck (k : Z) (f : State) : Prop := mkStruck {
  st_x : - 2 ^ 8 <= BallX f <= 2 ^ 9;
  st_dx : 1 <= Z.abs (BallDX f) <= MaxBallSpeed + k;
  st_right : 0 < BallDX f -> PaddleMargin + PaddleWidth < BallX f;
  st_left : BallDX f < 0 -> BallX f < paddle2Left - BallSize;
  st_y : - 2 ^ 15 <= BallY f < 2 ^ 15 /\ - 2 ^ 15 <= BallDY f < 2 ^ 15;
  st_p : (0 <= Paddle1Y f <= FieldHeight - PaddleHeight) /\ (0 <= Paddle2Y f <= FieldHeight - PaddleHeight);
}.

Ltac pong_consts := unfold paddle2Left, FieldWidth, FieldHeight, PaddleHeight, PaddleWidth, PaddleMargin, BallSize, MaxBallSpeed, WinScore in *.

Lemma sign_pos x : 0 < x -> sign x = 1.
Proof. intros. unfold sign. by rewrite (proj2 (Z.ltb_lt _ _)). Qed.

Lemma sign_neg x : x < 0 -> sign x = Z.opp 1.
Proof. intros. unfold sign. rewrite (proj2 (Z.ltb_ge _ _)), (proj2 (Z.ltb_lt _ _)) by lia. done. Qed.

Lemma flown_struck k m s f : 0 <= speed_mod m <= k -> k <= 100 -> state_ok k s -> flown k m s f -> struck k f.
Proof.
  intros Hm Hk Hs [Hx [Hr Hl] Hy Hp _].
  pose proof (ok_x _ _ Hs). pose proof (ok_dx _ _ Hs). pose proof (ok_right _ _ Hs). pose proof (ok_left _ _ Hs).
  assert (0 < BallDX s \/ BallDX s < 0) as [D|D] by lia.
  - specialize (Hr D). rewrite sign_pos in Hx by done. pong_consts. split; pong_consts; try done; lia.
  - specialize (Hl D). rewrite sign_neg in Hx by done. pong_consts. split; pong_consts; try done; lia.
Qed.

Lemma hit1_struck k m h f : 0 <= speed_mod m <= k -> k <= 100 -> struck k f -> struck k (hit_paddle1 m h f).
Proof.
  intros Hm Hk Hf. unfold hit_paddle1. destruct (touches1 f) eqn:T; [|done]. unfold touches1 in T. bool_to_prop.
  destruct Hf as [Hx Hdx Hr Hl [Hy Hdy] Hp]. pong_consts. assert (BallDX f < 0) by lia.
  rewrite (i16_id (- _)), (i16_id (8 + _)) by lia.
  destruct (- BallDX f <? 8 + speed_mod m) eqn:E; bool_to_prop; rewrite ?i16_id by lia;
    split; cbn; pong_consts; try done; try lia; (split; [done|by eapply spun_range]).
Qed.

Lemma hit2_struck k m h f : 0 <= speed_mod m <= k -> k <= 100 -> struck k f -> struck k (hit_paddle2 m h f).
Proof.
  intros Hm Hk Hf. unfold hit_paddle2. destruct (touches2 f) eqn:T; [|done]. unfold touches2 in T.
  apply andb_true_iff in T as [T _]. apply andb_true_iff in T as [T1 T2].
  destruct Hf as [Hx Hdx Hr Hl [Hy Hdy] Hp]. pong_consts. rewrite i16_id in T1 by lia. bool_to_prop. assert (0 < BallDX f) by lia.
  rewrite (i16_id (- BallDX f)), (i16_id (- (8) - _)) by lia.
  destruct (- (8) - speed_mod m <? - BallDX f) eqn:E; bool_to_prop; rewrite ?i16_id by lia;
    split; cbn; pong_consts; try done; try lia; (split; [done|by eapply spun_range]).
Qed.

Lemma hits_keep_score m h f :
  let g := hit_paddle2 m h (hit_paddle1 m h f) in
  Score1 g = Score1 f /\ Score2 g = Score2 f /\ GameOver g = GameOver f /\ Winner g = Winner f /\ TickNo g = TickNo f.
Proof. unfold hit_paddle2, hit_paddle1. repeat case_match; done. Qed.

(** Scoring and judging close the invariant. *)
Lemma judge_ok k g :
  struck k g -> 0 <= BallX g <= FieldWidth -> 0 <= Score1 g <= WinScore -> 0 <= Score2 g <= WinScore -> GameOver g = false ->
  Winner g = 0 -> 0 <= TickNo g < 2 ^ 64 -> state_ok k (judge g).
Proof.
  intros [Hx Hdx Hr Hl [Hy Hdy] [Hp1 Hp2]] Hf H1 H2 Ho Hw Ht. unfold judge.
  destruct (WinScore <=? Score1 g) eqn:E1; [|destruct (WinScore <=? Score2 g) eqn:E2]; split; cbn -[Z.leb WinScore]; rewrite ?E1, ?E2; done.
Qed.

Lemma reset_struck k h a g : 0 <= k -> struck k g -> struck k (resetBall h a g).
Proof.
  intros Hk Hg. assert (- 2 <= jitter h 8 5 2 < 3) by (pose proof (jitter_range h 8 5 2); lia).
  unfold resetBall. split; cbn -[Z.pow]; pong_consts; unfold InitialBallDX; try apply Hg; repeat case_match; lia.
Qed.

Lemma score_judge_ok k h g :
  0 <= k <= 100 -> struck k g -> 0 <= Score1 g < WinScore -> 0 <= Score2 g < WinScore -> GameOver g = false -> Winner g = 0 ->
  0 <= TickNo g < 2 ^ 64 -> state_ok k (judge (score h g)).
Proof.
  intros Hk Hg H1 H2 Ho Hw Ht.
  assert (U : forall z, 0 <= z < WinScore -> 0 <= u8 (z + 1) <= WinScore) by (intros; unfold u8; pong_consts; rewrite Z.mod_small; lia).
  assert (Hs : forall a b, struck k (set_scores a b g)) by (intros; destruct Hg; by split).
  unfold score. destruct (BallX g <? 0) eqn:E1; [|destruct (FieldWidth <? BallX g) eqn:E2]; bool_to_prop;
    apply judge_ok; try apply reset_struck; cbn -[u8 WinScore FieldWidth Z.pow]; try done; try apply U; try done; unfold FieldWidth in *; lia.
Qed.

Lemma advance_ok k m s i1 i2 h : 0 <= speed_mod m <= k -> k <= 100 -> state_ok k s -> state_ok k (advance m s i1 i2 h).
Proof.
  intros Hm Hk Hs. unfold advance.
  assert (Ht : 0 <= u64 (TickNo s + 1) < 2 ^ 64) by (unfold u64; apply Z.mod_pos_bound; lia).
  destruct (GameOver s) eqn:E.
  - by destruct Hs; split.
  - pose proof (ok_over _ _ Hs) as Ho. rewrite E in Ho. symmetry in Ho. apply orb_false_iff in Ho as [O1 O2].
    pose proof (ok_winner _ _ Hs) as Hw. rewrite O1, O2 in Hw. bool_to_prop. pose proof (ok_scores _ _ Hs).
    pose proof (flight_flown k m i1 i2 h s Hm Hk Hs) as Hf.
    destruct (fl_rest _ _ _ _ Hf) as (F1 & F2 & F3 & F4 & F5). destruct (hits_keep_score m h (flight m i1 i2 h s)) as (G1 & G2 & G3 & G4 & G5).
    apply score_judge_ok; rewrite ?G1, ?G2, ?G3, ?G4, ?G5, ?F1, ?F2, ?F3, ?F4, ?F5; try done; try lia.
    by apply hit2_struck, hit1_struck, (flown_struck k m s).
Qed.

(** The distance to the line the ball flies to. *)
Definition ahead (s : State) : Z := if 0 <? BallDX s then FieldWidth + 1 - BallX s else BallX s + 1.

Lemma flown_ahead k m s f : 0 <= speed_mod m -> state_ok k s -> flown k m s f -> ahead f < ahead s.
Proof.
  intros Hm Hs [Ex [Hr Hl] _ _ _]. pose proof (ok_dx _ _ Hs). unfold ahead.
  assert (0 < BallDX s \/ BallDX s < 0) as [D|D] by lia.
  - rewrite sign_pos in Ex by done. specialize (Hr D). rewrite !(proj2 (Z.ltb_lt _ _)) by lia. lia.
  - rewrite sign_neg in Ex by done. specialize (Hl D). rewrite !(proj2 (Z.ltb_ge _ _)) by lia. lia.
Qed.

Lemma ahead_range k s : state_ok k s -> 1 <= ahead s <= 244.
Proof.
  intros Hs. pose proof (ok_x _ _ Hs). pose proof (ok_right _ _ Hs). pose proof (ok_left _ _ Hs). pose proof (ok_dx _ _ Hs).
  unfold ahead. pong_consts. case_match; bool_to_prop; lia.
Qed.

(** ** The height of the ball

    A bounce may speed the ball up vertically, by one and the spin modifier; only a
    paddle slows it down.  Without spin the time of a rally bounds the gain.  [lift]
    is the vertical speed, counted in heights of the field, and the way since the last
    wall: a tick adds the speed to it, whether the ball bounces or not. *)

Definition Height : Z := FieldHeight - BallSize.

(** The way flown since the last wall; all of the height when the ball flies level. *)
Definition way (s : State) : Z :=
  if 0 <? BallDY s then BallY s else if BallDY s <? 0 then Height - BallY s else Height.

Definition lift (s : State) : Z := Height * Z.abs (BallDY s) + way s.

(** What the lift can be after [n] ticks of a rally. *)
Fixpoint max_lift (k : Z) (n : nat) : Z :=
  match n with O => Height * (MaxBallSpeed + k + 1) | S n => let v := max_lift k n in v + v / Height end.

(** The ball is between the walls, and its lift is possible at this time of the rally. *)
Definition level (k : Z) (s : State) : Prop :=
  0 <= BallY s <= Height /\ lift s <= max_lift k (Z.to_nat (244 - ahead s)).

(** A rally of 244 ticks with the speed modifiers of the program, at most 3. *)
Lemma max_lift_end k : 0 <= k <= 3 -> max_lift k 244 <= Height * 90.
Proof.
  intros Hk. assert (k = 0 \/ k = 1 \/ k = 2 \/ k = 3) as [->|[->|[->| ->]]] by lia; by vm_compute.
Qed.

Lemma max_lift_ge k n : 0 <= k -> Height * (MaxBallSpeed + k + 1) <= max_lift k n.
Proof.
  intros Hk. induction n as [|n IH]; cbn [max_lift]; cbv zeta; [lia|].
  assert (0 <= max_lift k n / Height); [|lia]. apply Z.div_pos; [unfold Height in *; pong_consts; lia|done].
Qed.

Lemma max_lift_mono k n n' : 0 <= k -> (n <= n')%nat -> max_lift k n <= max_lift k n'.
Proof.
  intros Hk. induction 1 as [|n' _ IH]; [lia|]. cbn [max_lift]. cbv zeta. pose proof (max_lift_ge k n' Hk).
  assert (0 <= max_lift k n' / Height); [|lia]. apply Z.div_pos; [unfold Height in *; pong_consts; lia|done].
Qed.

Lemma level_speed k s : 0 <= k <= 3 -> state_ok k s -> level k s -> Z.abs (BallDY s) <= 90.
Proof.
  intros Hk Hs [Hy Hl]. pose proof (ahead_range k s Hs) as Ha.
  pose proof (max_lift_mono k (Z.to_nat (244 - ahead s)) 244 ltac:(lia) ltac:(lia)).
  pose proof (max_lift_end k Hk). assert (0 <= way s) by (unfold way, Height in *; pong_consts; repeat case_match; lia).
  unfold lift, Height in *. pong_consts. lia.
Qed.

(** A ball that is slow after a paddle or a reset is within the bound at any time. *)
Lemma level_slow k s : 0 <= k -> 0 <= BallY s <= Height -> Z.abs (BallDY s) <= MaxBallSpeed + k -> level k s.
Proof.
  intros Hk Hy Hd. split; [done|]. etransitivity; [|by apply max_lift_ge].
  assert (way s <= Height) by (unfold way, Height in *; pong_consts; repeat case_match; lia).
  unfold lift, Height in *. pong_consts. lia.
Qed.

(** The flight keeps the ball between the walls and adds the speed to the lift. *)
Lemma flight_lift m i1 i2 h s :
  spin_mod m = 0 -> 0 <= BallY s <= Height -> Z.abs (BallDY s) <= 90 ->
  let f := flight m i1 i2 h s in
  0 <= BallY f <= Height /\ (lift f <= lift s + Z.abs (BallDY s) \/ lift f <= Height * 3).
Proof.
  intros Hm Hy Hd f.
  assert (H4 : - 1 <= jitter h 4 3 1 <= 1) by (pose proof (jitter_range h 4 3 1 ltac:(lia)); lia).
  assert (H5 : - 1 <= jitter h 5 3 1 <= 1) by (pose proof (jitter_range h 5 3 1 ltac:(lia)); lia).
  unfold f, flight, bounce_bottom, bounce_top, move_ball, move_paddles, set_tick.
  cbn [BallX BallY BallDX BallDY set_ball set_paddles]. rewrite Hm, !Z.add_0_r.
  set (j4 := jitter h 4 3 1) in *. set (j5 := jitter h 5 3 1) in *. clearbody j4 j5.
  unfold lift, way, Height in *. pong_consts. rewrite (i16_id (BallY s + BallDY s)) by lia.
  destruct (BallY s + BallDY s <=? 0) eqn:E1; cbn [BallX BallY BallDX BallDY set_ball]; bool_to_prop;
    rewrite ?(i16_id (- (BallY s + BallDY s))), ?(i16_id (- BallDY s + j4)) by lia;
    [destruct (128 - 4 <=? - (BallY s + BallDY s)) eqn:E2|destruct (128 - 4 <=? BallY s + BallDY s) eqn:E2];
    cbn [BallX BallY BallDX BallDY set_ball]; bool_to_prop; try lia; rewrite ?i16_id by lia;
    (split; [lia|]); repeat case_match; bool_to_prop; lia.
Qed.

(** The height and the lift, once the ball has passed the paddles. *)
Lemma hits_level k m h f :
  0 <= speed_mod m <= k -> k <= 3 -> 0 <= BallY f <= Height ->
  let g := hit_paddle2 m h (hit_paddle1 m h f) in
  0 <= BallY g <= Height /\ (g = f \/ Z.abs (BallDY g) <= MaxBallSpeed + k).
Proof.
  intros Hm Hk Hy. assert (R : forall j py t, Z.abs (spun m h j py t) <= MaxBallSpeed + k).
  { intros j py t. unfold spun, MaxBallSpeed. rewrite (i16_id (8 + _)), (i16_id (- (8) - _)) by lia.
    match goal with |- context [clamp ?a ?b ?c] => pose proof (clamp_range a b c ltac:(lia)) end. lia. }
  unfold hit_paddle2. destruct (touches2 _); cbn [BallY BallDY set_ball]; unfold hit_paddle1;
    destruct (touches1 f); cbn [BallY BallDY set_ball]; auto.
Qed.

Lemma judge_level k s : level k s -> level k (judge s).
Proof. unfold judge. intros H. repeat case_match; exact H. Qed.

Lemma advance_level k m s i1 i2 h :
  0 <= speed_mod m <= k -> k <= 3 -> spin_mod m = 0 -> state_ok k s -> level k s -> level k (advance m s i1 i2 h).
Proof.
  intros Hm Hk Hj Hs Hl. unfold advance. destruct (GameOver s) eqn:E; [exact Hl|].
  pose proof (flight_flown k m i1 i2 h s Hm ltac:(lia) Hs) as Hf.
  pose proof (level_speed k s ltac:(lia) Hs Hl) as Hd. destruct Hl as [Hy Hl].
  destruct (flight_lift m i1 i2 h s Hj Hy Hd) as [Fy Fl]. cbn zeta in *.
  pose proof (flown_ahead k m s _ ltac:(lia) Hs Hf) as Fa. pose proof (ahead_range k s Hs) as Ha.
  pose proof (flown_struck k m s _ Hm ltac:(lia) Hs Hf) as Hst.
  set (f := flight m i1 i2 h s) in *. set (n := Z.to_nat (244 - ahead s)) in *.
  assert (L : lift f <= max_lift k (S n)).
  { pose proof (max_lift_ge k (S n) ltac:(lia)). cbn [max_lift] in *. cbv zeta in *.
    assert (Z.abs (BallDY s) <= max_lift k n / Height).
    { apply Z.div_le_lower_bound; [done|]. assert (0 <= way s) by (unfold way, Height in *; pong_consts; repeat case_match; lia).
      unfold lift in Hl. lia. }
    unfold Height in *. pong_consts. destruct Fl; lia. }
  destruct (hits_level k m h f Hm Hk Fy) as [Gy Gd]. set (g := hit_paddle2 m h (hit_paddle1 m h f)) in *.
  apply judge_level. unfold score.
  assert (R : forall t b, level k (resetBall h b t)).
  { intros t b. apply level_slow; [lia|by vm_compute|]. pose proof (jitter_range h 8 5 2 ltac:(lia)).
    cbn [resetBall BallDY set_ball]. unfold MaxBallSpeed. case_match; lia. }
  destruct (BallX g <? 0) eqn:E1; [apply R|]. destruct (FieldWidth <? BallX g) eqn:E2; [apply R|]. bool_to_prop.
  destruct Gd as [Gf|Gd]; [|by apply level_slow; [lia| |]].
  rewrite Gf in *. split; [done|]. etransitivity; [exact L|]. apply max_lift_mono; [lia|]. unfold n. lia.
Qed.

(** ** Reachable engines *)

(** The operations of an engine and of the adversary that plays it; [k] bounds the speed
    modifier and [j] the spin modifier of the ticks under pressure. *)
Inductive engine_step (k j : Z) : Engine * Adversary -> Engine * Adversary -> Prop :=
  | step_input p i e a : engine_step k j (e, a) (SetInput p i e, a)
  | step_rate d e a : engine_step k j (e, a) (SetTickRate d e, a)
  | step_pressure p e a : engine_step k j (e, a) (on_pressure p e, a)
  | step_difficulty d e a : engine_step k j (e, a) (e, SetDifficulty d a)
  | step_start e a : engine_step k j (e, a) (Start e, a)
  | step_stop e a e' : Stop e = Done e' -> engine_step k j (e, a) (e', a)
  | step_reset e a : engine_step k j (e, a) (Reset e, a)
  | step_tick hash e a : engine_step k j (e, a) ((tick hash e).1, a)
  | step_quantum p hash e a : 0 <= speed_mod (quantum_mods p) <= k -> Z.abs (spin_mod (quantum_mods p)) <= j ->
      engine_step k j (e, a) ((TickQuantum p hash e).1, a)
  | step_adversary flow hash e a e' a' evs : tickWithAdversary flow hash e a = Done (e', a', evs) -> engine_step k j (e, a) (e', a').

Inductive reachable (k j : Z) : Engine * Adversary -> Prop :=
  | reach_new : reachable k j (NewEngineWithError, NewAdversary)
  | reach_step x y : reachable k j x -> engine_step k j x y -> reachable k j y.

(** What every step of the state keeps, every operation of the engine keeps. *)
Lemma run_tick_inv (P : State -> Prop) step hash i1 i2 e :
  (forall s h, P s -> P (step s i1 i2 h)) -> P (state e) -> P (state (run_tick step hash i1 i2 e).1).
Proof. intros Hstep He. unfold run_tick. destruct (hash _); cbn; [by apply Hstep|done]. Qed.

Lemma engine_step_inv (P : State -> Prop) k j x y :
  P NewState -> (forall s i1 i2 h, P s -> P (ComputeNextState s i1 i2 h)) ->
  (forall p s i1 i2 h, 0 <= speed_mod (quantum_mods p) <= k -> Z.abs (spin_mod (quantum_mods p)) <= j -> P s ->
     P (ComputeNextStateQuantum s i1 i2 h p)) ->
  engine_step k j x y -> P (state x.1) -> P (state y.1).
Proof.
  intros Hnew Hplain Hq Hst Hs. destruct Hst; cbn [fst] in *; try done.
  - unfold SetInput. by case_match.
  - unfold Start. by case_match.
  - unfold Stop in *. repeat case_match; by simplify_eq.
  - unfold tick. case_match; [done|]. apply run_tick_inv; [|done]. intros. by apply Hplain.
  - unfold TickQuantum. case_match; [done|]. apply run_tick_inv; [|done]. intros. by apply Hq.
  - unfold tickWithAdversary in *. case_match; [by simplify_eq|]. destruct (Decide _ _ _) as [[a1 i2]| |]; cbn in *; simplify_eq.
    apply run_tick_inv; [|done]. intros. by apply Hplain.
Qed.

Lemma game_inv (P : State -> Prop) k j x :
  P NewState -> (forall s i1 i2 h, P s -> P (ComputeNextState s i1 i2 h)) ->
  (forall p s i1 i2 h, 0 <= speed_mod (quantum_mods p) <= k -> Z.abs (spin_mod (quantum_mods p)) <= j -> P s ->
     P (ComputeNextStateQuantum s i1 i2 h p)) ->
  reachable k j x -> P (state x.1).
Proof. intros Hnew Hplain Hq Hr. induction Hr; [exact Hnew|by eapply engine_step_inv]. Qed.

(** C25: Whatever inputs, ticks with or without pressure, failing or arbitrary hashes, moves of
    the adversary, restarts and resets occur, the game stays well-formed: the ball is in
    the field horizontally and never stands still, it points away from a paddle it has
    left, the paddles are in the field, the scores are at most 11, and the game is over,
    with its winner, exactly when one of them is 11.  When no pressure adds spin, and the
    speed modifier is at most the 3 of the program, the walls hold the ball: its height
    is between 0 and 124, where it still fits into the field, and it never falls or
    climbs by more than 90 in a tick. *)
Theorem state_stays_in_field k j e a : 0 <= k <= 100 -> reachable k j (e, a) ->
  state_ok k (state e) /\
  (k <= 3 -> j = 0 -> 0 <= BallY (state e) <= FieldHeight - BallSize /\ Z.abs (BallDY (state e)) <= 90).
Proof.
  intros Hk Hr.
  assert (Hok : forall m s i1 i2 h, 0 <= speed_mod m <= k -> state_ok k s -> state_ok k (advance m s i1 i2 h))
    by (intros; apply advance_ok; done || lia).
  split; [|intros H3 ->].
  - apply (game_inv (state_ok k) k j (e, a)); [apply new_state_ok; lia| | |done].
    + intros. apply Hok; [cbn; lia|done].
    + intros. by apply Hok.
  - assert (H : state_ok k (state e) /\ level k (state e)).
    { apply (game_inv (fun s => state_ok k s /\ level k s) k 0 (e, a)); [| | |done].
      + split; [apply new_state_ok; lia|]. apply level_slow; [lia|by vm_compute|]. cbn. unfold MaxBallSpeed, InitialBallDY. lia.
      + intros s i1 i2 h [Hs Hl]. split; [apply Hok; [cbn; lia|done]|]. apply advance_level; done || (cbn; lia).
      + intros p s i1 i2 h Hp Hj [Hs Hl]. split; [by apply Hok|]. apply advance_level; done || lia. }
    destruct H as [Hs Hl]. split; [apply Hl|]. eapply level_speed; [|done|done]. lia.
Qed.

Definition ex_hash : bytes -> result bytes := fun _ => Ok zero32.

(** A tick, then one under the pressure that makes the ball fastest without spin. *)
Definition ex_pressure : PressureMetrics := {| Hadamard := f1; PauliX := half; PauliZ := half; Phase := f0 |}.

Lemma state_stays_in_field_witness :
  let e := (TickQuantum ex_pressure ex_hash (tick ex_hash (SetInput 1 InputUp (Start NewEngineWithError))).1).1 in
  TickNo (state e) = 2 /\ state_ok 3 (state e) /\ 0 <= BallY (state e) <= FieldHeight - BallSize.
Proof.
  intros e. split; [vm_compute; reflexivity|].
  destruct (state_stays_in_field 3 0 e NewAdversary) as [H1 H2].
  - lia.
  - eapply reach_step; [|apply step_quantum; apply (bool_decide_unpack _); vm_compute; exact I].
    eapply reach_step; [|apply step_tick]. eapply reach_step; [|apply step_input]. eapply reach_step; [apply reach_new|apply step_start].
  - split; [exact H1|]. apply H2; [lia|reflexivity].
Defined.

(** The bounds on the spin are needed: with a pressure that turns the spin modifier
    with the direction of the ball, every bounce adds three to the vertical speed, and
    after 248 ticks the ball is above the field. *)
Definition turning (dy : Z) : PressureMetrics :=
  {| Hadamard := f0; PauliX := half; PauliZ := if dy <? 0 then f1 else f0; Phase := f0 |}.

Definition drift (e : Engine) : Engine :=
  (TickQuantum (turning (BallDY (state e))) (fun _ => Ok (replicate 4 Byte.x00 ++ [Byte.x02] ++ replicate 27 Byte.x00)) e).1.

Lemma turning_mods dy :
  0 <= speed_mod (quantum_mods (turning dy)) <= 0 /\ Z.abs (spin_mod (quantum_mods (turning dy))) <= 2.
Proof. unfold turning. destruct (dy <? 0); by vm_compute. Qed.

Lemma spin_escapes_walls : exists e, reachable 0 2 (e, NewAdversary) /\ BallY (state e) < 0.
Proof.
  exists (Nat.iter 248 drift NewEngineWithError). split; [|by vm_compute].
  generalize 248%nat. intros n. induction n as [|n IH]; [apply reach_new|].
  eapply reach_step; [exact IH|]. apply step_quantum; apply turning_mods.
Qed.

(** A closed stop channel is never opened again: an engine that is started and stopped
    twice panics, and its second loop ends at once. *)
Lemma restart_stop_panics :
  Stop NewEngineWithError = Done NewEngineWithError /\
  exists e, Stop (Start NewEngineWithError) = Done e /\ Stop (Start e) = Panic "close of closed channel".
Proof. split; [done|]. by eexists. Qed.

(** ** Rallies *)

(** A paddle is hit in the tick, or a point is scored. *)
Definition contact (m : Mods) (s : State) (x : Input * Input * bytes) : bool :=
  let f := flight m x.1.1 x.1.2 x.2 s in touches1 f || touches2 (hit_paddle1 m x.2 f).

Definition point (m : Mods) (s : State) (x : Input * Input * bytes) : bool :=
  let s' := advance m s x.1.1 x.1.2 x.2 in negb ((Score1 s' =? Score1 s) && (Score2 s' =? Score2 s)).

Lemma score_unchanged h g : negb ((Score1 (judge (score h g)) =? Score1 g) && (Score2 (judge (score h g)) =? Score2 g)) = false ->
  0 <= Score1 g < WinScore -> 0 <= Score2 g < WinScore -> score h g = g /\ 0 <= BallX g <= FieldWidth.
Proof.
  intros H H1 H2.
  assert (U : forall z, 0 <= z < WinScore -> u8 (z + 1) = z + 1) by (intros; unfold u8; pong_consts; rewrite Z.mod_small; lia).
  assert (J : forall t, Score1 (judge t) = Score1 t /\ Score2 (judge t) = Score2 t) by (intros; unfold judge; repeat case_match; done).
  destruct (J (score h g)) as [-> ->] in H. unfold score in *.
  destruct (BallX g <? 0) eqn:E1; [|destruct (FieldWidth <? BallX g) eqn:E2]; cbn -[u8] in H; rewrite ?U in H by done;
    bool_to_prop; try lia. done.
Qed.

Lemma judge_open g : Score1 g < WinScore -> Score2 g < WinScore -> judge g = g.
Proof. intros. unfold judge. rewrite (proj2 (Z.leb_gt _ _)), (proj2 (Z.leb_gt _ _)) by done. done. Qed.

Lemma open_scores k s : state_ok k s -> GameOver s = false -> 0 <= Score1 s < WinScore /\ 0 <= Score2 s < WinScore.
Proof. intros Hs E. pose proof (ok_over _ _ Hs) as Ho. pose proof (ok_scores _ _ Hs). rewrite E in Ho. symmetry in Ho.
  apply orb_false_iff in Ho as [O1 O2]. bool_to_prop. lia. Qed.

Lemma advance_quiet m s i1 i2 h :
  GameOver s = false -> contact m s (i1, i2, h) = false -> advance m s i1 i2 h = judge (score h (flight m i1 i2 h s)).
Proof.
  unfold contact, advance. cbn [fst snd]. generalize (flight m i1 i2 h s). intros f -> Hc. apply orb_false_iff in Hc as [C1 C2].
  assert (E : hit_paddle1 m h f = f) by (unfold hit_paddle1; by rewrite C1). rewrite E in *. unfold hit_paddle2. by rewrite C2.
Qed.

Lemma quiet_tick_advances k m s x :
  0 <= speed_mod m <= k -> k <= 100 -> state_ok k s -> GameOver s = false -> contact m s x = false -> point m s x = false ->
  let s' := advance m s x.1.1 x.1.2 x.2 in ahead s' < ahead s /\ GameOver s' = false.
Proof.
  destruct x as [[i1 i2] h]. intros Hm Hk Hs Ho Hc. unfold point. cbn [fst snd]. rewrite advance_quiet by done.
  pose proof (flight_flown k m i1 i2 h s Hm Hk Hs) as Hf. revert Hf. generalize (flight m i1 i2 h s). intros f Hf Hp.
  destruct (open_scores _ _ Hs Ho) as [S1 S2]. destruct (fl_rest _ _ _ _ Hf) as (F1 & F2 & F3 & _).
  rewrite <- F1, <- F2 in Hp. destruct (score_unchanged h f Hp) as [-> _]; [lia|lia|]. rewrite judge_open by lia.
  split; [|congruence]. eapply flown_ahead; [|done|done]. lia.
Qed.

(** The states of a sequence of ticks. *)
Definition play (m : Mods) (s : State) (l : list (Input * Input * bytes)) : State :=
  fold_left (fun s x => advance m s x.1.1 x.1.2 x.2) l s.

Lemma rally_measure k m l s :
  0 <= speed_mod m <= k -> k <= 100 -> state_ok k s -> GameOver s = false -> ahead s <= Z.of_nat (length l) ->
  exists l1 x l2, l = l1 ++ x :: l2 /\ (contact m (play m s l1) x || point m (play m s l1) x) = true.
Proof.
  intros Hm Hk. revert s. induction l as [|x l IH]; intros s Hs Ho Hl; pose proof (ahead_range _ _ Hs); cbn in Hl; [lia|].
  destruct (contact m s x || point m s x) eqn:E; [by exists [], x, l|].
  apply orb_false_iff in E as [Ec Ep]. destruct (quiet_tick_advances k m s x Hm Hk Hs Ho Ec Ep) as [Ha Ho'].
  destruct (IH (advance m s x.1.1 x.1.2 x.2)) as (l1 & y & l2 & -> & H'); [by apply advance_ok|done|lia|].
  by exists (x :: l1), y, l2.
Qed.

(** No rally lasts for ever: in 244 consecutive ticks of a game that is not over, whatever the
    inputs and hashes, a paddle hits the ball or a point is scored. *)
Theorem rally_ends k m l s :
  0 <= speed_mod m <= k -> k <= 100 -> state_ok k s -> GameOver s = false -> length l = 244%nat ->
  exists l1 x l2, l = l1 ++ x :: l2 /\ (contact m (play m s l1) x || point m (play m s l1) x) = true.
Proof. intros Hm Hk Hs Ho Hl. eapply rally_measure; try done. rewrite Hl. pose proof (ahead_range _ _ Hs). lia. Qed.

Lemma rally_ends_witness : exists l1 x l2, replicate 244 (InputNone, InputNone, zero32) = l1 ++ x :: l2 /\
  (contact plain (play plain NewState l1) x || point plain (play plain NewState l1) x) = true.
Proof. apply (rally_ends 0 plain); [cbn; lia|lia|by apply new_state_ok|done|by rewrite length_replicate]. Defined.

(** ** Tunnelling *)

Lemma score_needs_line h g :
  (Score2 g <> Score2 (judge (score h g)) -> BallX g < 0) /\ (Score1 g <> Score1 (judge (score h g)) -> FieldWidth < BallX g).
Proof.
  assert (J : forall t, Score1 (judge t) = Score1 t /\ Score2 (judge t) = Score2 t) by (intros; unfold judge; repeat case_match; done).
  destruct (J (score h g)) as [-> ->]. unfold score.
  destruct (BallX g <? 0) eqn:E1; [|destruct (FieldWidth <? BallX g) eqn:E2]; cbn -[u8 FieldWidth]; bool_to_prop; split; intros; done.
Qed.

Lemma hits_x m h f : let g := hit_paddle2 m h (hit_paddle1 m h f) in BallX g = BallX f \/ 0 <= BallX g <= FieldWidth.
Proof. unfold hit_paddle2, hit_paddle1. repeat case_match; cbn; pong_consts; lia. Qed.

(** Without pressure the ball cannot jump over a paddle: a tick that scores against a
    player starts with the ball already in the columns of the player's paddle or behind it, so
    the paddle had its chance in an earlier tick. *)
Theorem no_tunnelling s i1 i2 h :
  state_ok 0 s -> let s' := ComputeNextState s i1 i2 h in
  (Score2 s' <> Score2 s -> BallX s <= PaddleMargin + PaddleWidth) /\ (Score1 s' <> Score1 s -> paddle2Left - BallSize <= BallX s).
Proof.
  intros Hs s'. unfold s', ComputeNextState, advance. destruct (GameOver s) eqn:Ho; [done|].
  pose proof (flight_flown 0 plain i1 i2 h s ltac:(cbn; lia) ltac:(lia) Hs) as Hf. set (f := flight _ _ _ _ _) in *.
  destruct (fl_rest _ _ _ _ Hf) as (F1 & F2 & _). destruct (hits_keep_score plain h f) as (G1 & G2 & _).
  pose proof (hits_x plain h f) as Hx. set (g := hit_paddle2 _ _ _) in *. cbn zeta in *.
  pose proof (score_needs_line h g) as Hl. rewrite G1, G2, F1, F2 in Hl.
  pose proof (ok_dx _ _ Hs). pose proof (fl_x _ _ _ _ Hf) as Ex. cbn [speed_mod plain] in Ex. pong_consts.
  assert (- 1 <= sign (BallDX s) <= 1) by (unfold sign; repeat case_match; lia).
  destruct Hl as [L2 L1]. split; intros Hn; [specialize (L2 (not_eq_sym Hn))|specialize (L1 (not_eq_sym Hn))]; lia.
Qed.

Lemma no_tunnelling_witness :
  let s := mkState 2 64 (Z.opp 3) 0 100 100 0 0 0 false 0 in
  state_ok 0 s /\ Score2 (ComputeNextState s InputNone InputNone zero32) = 1 /\ BallX s <= PaddleMargin + PaddleWidth.
Proof.
  assert (Hs : state_ok 0 (mkState 2 64 (Z.opp 3) 0 100 100 0 0 0 false 0)).
  { split; vm_compute; repeat split; intros; discriminate. }
  split; [done|]. split; [by vm_compute|].
  apply (no_tunnelling _ InputNone InputNone zero32 Hs). vm_compute. discriminate.
Defined.

(** With pressure it can: from the column in front of the paddle the ball passes the whole
    paddle, which stands in its way, in one tick. *)
Lemma quantum_tunnelling :
  let s := mkState 13 64 (Z.opp 11) 0 54 54 0 0 0 false 0 in
  let p := {| Hadamard := f1; PauliX := half; PauliZ := half; Phase := f0 |} in
  state_ok 3 s /\ PaddleMargin + PaddleWidth < BallX s /\ covers (Paddle1Y s) s = true /\
  Score2 (ComputeNextStateQuantum s InputNone InputNone zero32 p) = 1.
Proof.
  split; [split; vm_compute; repeat split; intros; discriminate|]. by vm_compute.
Qed.

(** ** Payloads *)

Lemma put16_inj a b : - 2 ^ 15 <= a < 2 ^ 15 -> - 2 ^ 15 <= b < 2 ^ 15 -> put16 a = put16 b -> a = b.
Proof.
  intros Ha Hb H. apply (f_equal be_int) in H. unfold put16 in H.
  rewrite !be_int_be_bytes in H. change (256 ^ Z.of_nat 2) with (2 ^ 16) in H. dlia.
Qed.

Lemma put16_shift_inj a b : - 2 ^ 15 <= a < 2 ^ 15 -> - 2 ^ 15 <= b < 2 ^ 15 -> put16 (i16 (a + 128)) = put16 (i16 (b + 128)) -> a = b.
Proof. intros Ha Hb H. apply put16_inj in H; [|apply i16_range..]. unfold i16 in H. dlia. Qed.

Lemma put64_inj a b : 0 <= a < 2 ^ 64 -> 0 <= b < 2 ^ 64 -> be_bytes 8 a = be_bytes 8 b -> a = b.
Proof. intros Ha Hb H. apply (f_equal be_int) in H. rewrite !be_int_be_bytes in H.
  change (256 ^ Z.of_nat 8) with (2 ^ 64) in H. by rewrite !Z.mod_small in H. Qed.

Lemma Zbyte_inj a b : 0 <= a < 256 -> 0 <= b < 256 -> Zbyte a = Zbyte b -> a = b.
Proof. intros Ha Hb H. apply (f_equal byteZ) in H. rewrite !byteZ_Zbyte in H.
  by rewrite !Z.mod_small in H. Qed.

(** The payload of a tick is unambiguous: two ticks of well-formed games with the same payload
    have the same state, inputs and nonce, although the flag and the winner are not encoded. *)
Theorem tick_payloads_distinct k t t' :
  state_ok k (tick_State t) -> state_ok k (tick_State t') -> k <= 100 -> in_u64 (tick_Nonce t) -> in_u64 (tick_Nonce t') ->
  tick_Encode t = tick_Encode t' -> t = t'.
Proof.
  destruct t as [s i1 i2 n], t' as [s' i1' i2' n']. cbn [tick_State tick_Nonce]. intros Hs Hs' Hk Hn Hn' H.
  destruct Hs as [Hx Hy Hdx Hdy _ _ Hp1 Hp2 [S1 S2] Ht Ho Hw], Hs' as [Hx' Hy' Hdx' Hdy' _ _ Hp1' Hp2' [S1' S2'] Ht' Ho' Hw'].
  unfold tick_Encode in H. cbn [tick_State tick_Input1 tick_Input2 tick_Nonce] in H. pong_consts. unfold in_u64 in *.
  do 9 (apply app_inj_1 in H as [? H]; [|by rewrite ?length_be_bytes]).
  repeat match goal with
  | E : put16 (i16 _) = put16 (i16 _) |- _ => apply put16_shift_inj in E; [|lia..]
  | E : put16 _ = put16 _ |- _ => apply put16_inj in E; [|lia..]
  | E : be_bytes 8 _ = be_bytes 8 _ |- _ => apply put64_inj in E; [|lia..]
  | E : [_; _; _; _] = [_; _; _; _] |- _ => injection E as E ? ? ?
  | E : Zbyte _ = Zbyte _ |- _ => apply Zbyte_inj in E; [|lia..]
  end.
  destruct s, s'; cbn in *; by subst.
Qed.

Lemma tick_payloads_distinct_witness :
  let t := mkTick NewState InputUp InputNone 7 in state_ok 0 (tick_State t) /\ (forall t', state_ok 0 (tick_State t') -> in_u64 (tick_Nonce t') ->
    tick_Encode t = tick_Encode t' -> t = t').
Proof.
  split; [by apply new_state_ok|]. intros t' Hs Hn. apply (tick_payloads_distinct 0); [by apply new_state_ok|done|lia|by vm_compute|done].
Defined.

(** ** The adversary's prediction *)

(** The height of a ball that bounces between 0 and 124, as a function of the height it
    would have without walls. *)
Definition triangle (y : Z) : Z := let r := y mod 248 in if r <=? 124 then r else 248 - r.

Lemma triangle_opp y : triangle (- y) = triangle y.
Proof. unfold triangle. destruct (Z.leb_spec ((- y) mod 248) 124), (Z.leb_spec (y mod 248) 124); dlia. Qed.

Lemma triangle_shift y : triangle (248 - y) = triangle y.
Proof. rewrite <- (triangle_opp y). unfold triangle. replace (248 - y) with (- y + 1 * 248) by lia. by rewrite Z_mod_plus_full. Qed.

Lemma triangle_field y : in_field y = true -> triangle y = y.
Proof. unfold in_field, triangle. pong_consts. intros. bool_to_prop. rewrite Z.mod_small by lia. case_match; bool_to_prop; lia. Qed.

Lemma reflect_spec y : - 2 ^ 15 < y < 2 ^ 15 -> in_field y = false ->
  triangle (reflect y) = triangle y /\ (Z.abs (reflect y) <= Z.abs y - 248 \/ in_field (reflect y) = true) /\ - 2 ^ 15 < reflect y < 2 ^ 15.
Proof.
  unfold reflect, in_field. pong_consts. intros Hy Hf.
  destruct (y <? 0) eqn:E; bool_to_prop.
  - rewrite (i16_id (- y)) by lia. destruct (_ <? - y) eqn:E2; bool_to_prop; rewrite ?i16_id by lia.
    + replace (2 * (128 - 4) - - y) with (248 - - y) by lia. rewrite triangle_shift, triangle_opp. split; [done|].
      split; [|lia]. destruct (Z.leb_spec 0 (248 - - y)), (Z.leb_spec (248 - - y) (128 - 4)); cbn; lia.
    + rewrite triangle_opp. split; [done|]. split; [|lia]. right. apply andb_true_iff. lia.
  - assert (128 - 4 < y) by (destruct (Z.leb_spec 0 y), (Z.leb_spec y (128 - 4)); cbn in *; try lia; discriminate).
    rewrite (proj2 (Z.ltb_lt _ _)) by done. rewrite i16_id by lia. replace (2 * (128 - 4) - y) with (248 - y) by lia.
    rewrite triangle_shift. split; [done|]. split; [|lia]. destruct (Z.leb_spec 0 (248 - y)), (Z.leb_spec (248 - y) (128 - 4)); cbn; lia.
Qed.

Lemma reflect_loop_triangle n y : - 2 ^ 15 < y < 2 ^ 15 -> Z.abs y <= 248 * Z.of_nat n -> reflect_loop n y = Done (triangle y).
Proof.
  revert y. induction n as [|n IH]; intros y Hy Ha; cbn [reflect_loop]; destruct (in_field y) eqn:E; try by rewrite triangle_field.
  - exfalso. assert (y = 0) by lia. subst. discriminate.
  - destruct (reflect_spec y Hy E) as (<- & [Hd|Hd] & Hr).
    + apply IH; [done|lia].
    + rewrite (triangle_field _ Hd). destruct n; cbn [reflect_loop]; by rewrite Hd.
Qed.

(** The loop that folds the predicted height into the field computes the triangle wave, in at
    most 140 rounds, for every 16-bit height but the least. *)
Theorem reflection_ends y : - 2 ^ 15 < y < 2 ^ 15 -> reflect_loop reflect_fuel y = Done (triangle y).
Proof. intros Hy. apply reflect_loop_triangle; [done|]. unfold reflect_fuel. lia. Qed.

Lemma reflection_ends_witness : reflect_loop reflect_fuel (Z.opp 30000) = Done 8.
Proof. apply (reflection_ends (Z.opp 30000)). lia. Defined.

(** At the least it does not end: negation leaves it where it is. *)
Lemma reflection_stuck n : reflect_loop n (- 2 ^ 15) = NoFuel.
Proof. induction n; [done|]. cbn [reflect_loop]. by change (reflect (- 2 ^ 15)) with (- 2 ^ 15). Qed.

Lemma flow_offset_total a e : exists o, flow_offset a e = Done o.
Proof.
  unfold flow_offset. destruct (u8 _ =? 0) eqn:E; [|by eexists]. bool_to_prop. unfold u8 in E.
  exfalso. assert (2 ^ 8 = 2 * 128) as E2 by done. rewrite E2 in E. dlia.
Qed.

(** The adversary always decides, whatever the flow and its settings, and aims at a place
    the centre of the paddle can reach. *)
Lemma adversary_decides flow a s :
  GameOver s = false -> predicted a s <> - 2 ^ 15 ->
  exists a' i, Decide flow a s = Done (a', i) /\ Z.quot PaddleHeight 2 <= targetY a' <= FieldHeight - Z.quot PaddleHeight 2.
Proof.
  intros Ho Hp. unfold Decide. rewrite Ho. set (e := default _ _). unfold calculateTarget.
  destruct (BallDX s <=? 0).
  - cbn [outcome_bind]. do 2 eexists. split; [done|]. cbn [targetY]. pong_consts.
    pose proof (Z.mod_pos_bound (byteZ e) 20 ltac:(lia)). change (Z.quot 128 2) with 64. change (Z.quot 20 2) with 10. rewrite i16_id; lia.
  - rewrite reflection_ends by (pose proof (i16_range (BallY s + BallDY s *
      f_to_i16 (fmul (f_of_Z (let ticks := Z.quot (i16 (paddle2Left - BallX s)) (BallDX s) in if ticks <? 0 then 0 else i16 ticks)) (aggressiveness a))));
      unfold predicted in *; cbn zeta in *; lia).
    cbn [outcome_bind]. destruct (flow_offset_total a e) as [o ->]. cbn [outcome_bind]. do 2 eexists. split; [done|]. cbn [targetY]. pong_consts.
    change (Z.quot 20 2) with 10. repeat case_match; bool_to_prop; lia.
Qed.
