(* ===== verification/PongNet.v ===== *)
(** * The network and the screen of the game ([pong/flow_bridge.go], [pong/render.go])

    Contents: the bridges that turn what the network answers into the hash of a tick, the
    task that collects results one by one, and the two renderers with the frame buffer.
    What the network interfaces return is an argument of each call.

    The theorems: the hash, and with it the whole tick, does not depend on the order in
    which the answers arrive, and the three ways to collect them agree
    ([tick_order_independent], [bridges_agree]); the paddles are always visible on the
    minimal display ([paddles_visible]) while the ball is not ([ball_invisible]); the full
    renderer panics on every state ([render_panics]). *)

From Stdlib Require Import String SpecFloat.
From S2P Require Import Prelude Json Signing Float64 Bits Pong.

(** [common.BytesToHash] keeps the last 32 bytes. *)
Definition BytesToHash (b : bytes) : bytes := left_pad 32 (drop (length b - 32) b).

(** ** Bridges *)

Section bridges.
Context {C : Crypto}.

Definition ErrNoFlowConnection : string := "no network flow - Web4 requires network".
Definition ErrComputeTimeout : string := "compute timeout - network unavailable".
Definition ErrNoHashes : string := "no hashes received from network".

Record LiveBridge := { dispatches : Z; hashesUsed : Z; lastDispatch : Z; lastHash : bytes; errors : Z; tickTimeout : Z }.

Definition NewLiveBridge (present : bool) : result LiveBridge :=
  if present then Ok {| dispatches := 0; hashesUsed := 0; lastDispatch := 0; lastHash := zero32; errors := 0; tickTimeout := 2 * 10 ^ 9 |}
  else Err ErrNoFlowConnection.

Definition SetTickTimeout (t : Z) (b : LiveBridge) : LiveBridge :=
  {| dispatches := dispatches b; hashesUsed := hashesUsed b; lastDispatch := lastDispatch b; lastHash := lastHash b;
     errors := errors b; tickTimeout := t |}.

Definition count_error (b : LiveBridge) : LiveBridge :=
  {| dispatches := dispatches b; hashesUsed := hashesUsed b; lastDispatch := lastDispatch b; lastHash := lastHash b;
     errors := u64 (errors b + 1); tickTimeout := tickTimeout b |}.

(** The hashes folded into 32 bytes. *)
Definition combine (hashes : list bytes) : bytes := xor_all zero32 hashes.

(** [reply] is what [Dispatch] returns for the payload. *)
Definition live_ComputeHash (reply : result (list bytes)) (now : Z) (b : LiveBridge) : LiveBridge * result bytes :=
  match reply with
  | Err _ => (count_error b, Err ErrComputeTimeout)
  | Ok [] => (count_error b, Err ErrNoHashes)
  | Ok ((_ :: _) as hashBytes) =>
      let finalHash := BytesToHash (Keccak256 (combine hashBytes)) in
      ({| dispatches := u64 (dispatches b + 1); hashesUsed := u64 (hashesUsed b + Z.of_nat (length hashBytes)); lastDispatch := now;
          lastHash := finalHash; errors := errors b; tickTimeout := tickTimeout b |}, Ok finalHash)
  end.

(** [stats] and [entropy] are what [Stats] and [NextBytes(32)] of the flow return. *)
Definition flow_ComputeHash (stats : Z * float64) (entropy : bytes) (payload : bytes) : result bytes :=
  if (stats.1 =? 0) || SFeqb stats.2 f0 then Err ErrNoFlowConnection
  else Ok (BytesToHash (Keccak256 (payload ++ copy_to 32 entropy))).

Definition distributed_ComputeHash (results : list bytes) : result bytes :=
  match results with
  | [] => Err ErrNoHashes
  | _ => Ok (BytesToHash (Keccak256 (combine results)))
  end.

Definition MustCompute (fn : bytes -> result bytes) (payload : bytes) : outcome bytes :=
  match fn payload with Ok h => Done h | Err e => Panic ("network compute failed: " ++ e)%string end.

Record PongTask := { pt_tick : Tick; pt_result : bytes; solved : bool }.

Definition NewPongTask (t : Tick) : PongTask := {| pt_tick := t; pt_result := zero32; solved := false |}.

Definition task_Encode (pt : PongTask) : bytes := tick_Encode (pt_tick pt).

Definition ProcessResult (pt : PongTask) (result : bytes) : PongTask :=
  {| pt_tick := pt_tick pt; pt_result := xor_into (pt_result pt) result; solved := true |}.

Definition NewLiveGame (present : bool) : result (Engine * LiveBridge) := let? b := NewLiveBridge present in Ok (NewEngineWithError, b).

(** A tick of a live game: the engine calls the bridge with the payload. *)
Definition live_tick (network : bytes -> result (list bytes)) (now : Z) (g : Engine * LiveBridge) : Engine * LiveBridge * list Event :=
  let e := (getAndClearInputs g.1).1 in
  let payload := tick_Encode (mkTick (state e) (input1 g.1) (input2 g.1) (tickNonce e)) in
  let r := tick (fun p => (live_ComputeHash (network p) now g.2).2) g.1 in
  (r.1, if GameOver (state g.1) then g.2 else (live_ComputeHash (network payload) now g.2).1, r.2).
End bridges.

(** ** Rendering *)

Definition Repeat (s : bytes) (n : Z) : outcome bytes :=
  if n <? 0 then Panic "strings: negative Repeat count" else Done (concat (replicate (Z.to_nat n) s)).

Definition RenderWidth : Z := 80.
Definition RenderHeight : Z := 24.
Definition CharBall : bytes := bs "●".
Definition CharPaddle : bytes := bs "█".
Definition CharWallH : bytes := bs "─".
Definition CharWallV : bytes := bs "│".
Definition CharCornerTL : bytes := bs "┌".
Definition CharCornerTR : bytes := bs "┐".
Definition CharCornerBL : bytes := bs "└".
Definition CharCornerBR : bytes := bs "┘".
Definition CharScoreSep : bytes := bs " : ".
Definition newline : bytes := [Byte.x0a].
Definition blen (b : bytes) : Z := Z.of_nat (length b).

Record Renderer := { width : Z; height : Z; scaleX : float64; scaleY : float64; lastFrame : bytes }.

Definition NewRenderer : Renderer :=
  {| width := RenderWidth; height := RenderHeight; scaleX := f_ratio (RenderWidth - 2) FieldWidth;
     scaleY := f_ratio (RenderHeight - 4) FieldHeight; lastFrame := [] |}.

Definition title : bytes := bs "════════════════════ FLOW PONG ════════════════════".

Definition renderHeader (r : Renderer) (s : State) : outcome bytes :=
  let score := bs "Player 1: " ++ dec (Score1 s) ++ CharScoreSep ++ bs "Player 2: " ++ dec (Score2 s) in
  let! pad1 := Repeat (bs " ") (Z.quot (width r - blen title) 2) in
  let! pad2 := Repeat (bs " ") (Z.quot (width r - blen score) 2) in
  Done (pad1 ++ title ++ newline ++ pad2 ++ score ++ newline ++ newline).

(** [int(float64(z) * scale)]. *)
Definition scaled (z : Z) (scale : float64) : Z := f_to_i64 (fmul (f_of_Z z) scale).

(** A guarded write to the field; a cell holds the encoding of its rune. *)
Definition draw (x y : Z) (c : bytes) (field : list (list bytes)) : list (list bytes) :=
  if (0 <=? y) && (y <? Z.of_nat (length field)) && (0 <=? x) && (x <? Z.of_nat (length (default [] (head field)))) then
    alter (fun row => <[Z.to_nat x := c]> row) (Z.to_nat y) field
  else field.

Definition draw_paddle (x y h : Z) (field : list (list bytes)) : list (list bytes) :=
  fold_left (fun f dy => draw x (y + Z.of_nat dy) CharPaddle f) (seq 0 (Z.to_nat h)) field.

Definition renderField (r : Renderer) (s : State) : list bytes :=
  let field := replicate (Z.to_nat (height r - 4)) (replicate (Z.to_nat (width r - 2)) (bs " ")) in
  let paddle1H := Z.max 1 (scaled PaddleHeight (scaleY r)) in
  let field := draw_paddle (scaled PaddleMargin (scaleX r)) (scaled (Paddle1Y s) (scaleY r)) paddle1H field in
  let field := draw_paddle (scaled (FieldWidth - PaddleMargin - PaddleWidth) (scaleX r)) (scaled (Paddle2Y s) (scaleY r)) paddle1H field in
  let field := draw (scaled (BallX s) (scaleX r)) (scaled (BallY s) (scaleY r)) CharBall field in
  map (@concat byte) field.

Definition renderFooter (r : Renderer) (s : State) : outcome bytes :=
  if GameOver s then
    let winner := bs "═══════════ PLAYER " ++ dec (Winner s) ++ bs " WINS! ═══════════" in
    let! pad := Repeat (bs " ") (Z.quot (width r - blen winner) 2) in
    Done (pad ++ winner ++ newline ++ bs "            Press 'r' to restart, 'q' to quit" ++ newline)
  else
    let info := bs "Tick: " ++ dec (TickNo s) ++ bs " │ Flow Active" in
    let controls := bs "P1: W/S │ P2: ↑/↓ │ Q: Quit" in
    let! pad := Repeat (bs " ") (width r - blen info - blen controls) in
    Done (info ++ pad ++ controls ++ newline).

Definition wall (l r : bytes) (w : Z) : outcome bytes := let! h := Repeat CharWallH (w - 2) in Done (l ++ h ++ r ++ newline).

Definition Render (r : Renderer) (s : State) : outcome (Renderer * bytes) :=
  let! header := renderHeader r s in
  let! top := wall CharCornerTL CharCornerTR (width r) in
  let! bottom := wall CharCornerBL CharCornerBR (width r) in
  let! footer := renderFooter r s in
  let frame := [Byte.x1b] ++ bs "[2J" ++ [Byte.x1b] ++ bs "[H" ++ header ++ top ++
               concat (map (fun row => CharWallV ++ row ++ CharWallV ++ newline) (renderField r s)) ++ bottom ++ footer in
  Done ({| width := width r; height := height r; scaleX := scaleX r; scaleY := scaleY r; lastFrame := frame |}, frame).

(** The minimal renderer is 60 wide and 20 high. *)
Definition minimal_width : Z := 60.
Definition minimal_height : Z := 20.

Definition gameX (x : Z) : Z := f_to_i64 (fdiv (f_of_Z x) (f_ratio (minimal_width - 4) FieldWidth)).
Definition gameY (y : Z) : Z := f_to_i64 (fdiv (f_of_Z y) (f_ratio (minimal_height - 2) FieldHeight)).

Definition inside (v lo len : Z) : bool := (lo <=? v) && (v <? lo + len).

Definition minimal_cell (s : State) (x y : Z) : byte :=
  let gx := gameX x in let gy := gameY y in
  let char := if inside gx (BallX s) BallSize && inside gy (BallY s) BallSize then Byte.x4f else Byte.x20 in
  let char := if inside gx PaddleMargin PaddleWidth && inside gy (Paddle1Y s) PaddleHeight then Byte.x23 else char in
  if inside gx (FieldWidth - PaddleMargin - PaddleWidth) PaddleWidth && inside gy (Paddle2Y s) PaddleHeight then Byte.x23 else char.

Definition upto (n : Z) : list Z := map Z.of_nat (seq 0 (Z.to_nat n)).

Definition minimal_rows (s : State) : list bytes :=
  map (fun y => map (fun x => minimal_cell s x y) (upto (minimal_width - 4))) (upto (minimal_height - 2)).

Definition minimal_Render (s : State) : bytes :=
  let border := bs "  +" ++ replicate (Z.to_nat (minimal_width - 4)) Byte.x2d ++ bs "+" ++ newline in
  newline ++ bs "  FLOW PONG - Tick " ++ dec (TickNo s) ++ newline ++
  bs "  Score: " ++ dec (Score1 s) ++ bs " - " ++ dec (Score2 s) ++ newline ++ newline ++ border ++
  concat (map (fun row => bs "  |" ++ row ++ bs "|" ++ newline) (minimal_rows s)) ++ border ++
  (if GameOver s then newline ++ bs "  PLAYER " ++ dec (Winner s) ++ bs " WINS!" ++ newline
   else newline ++ bs "  P1: W/S  P2: I/K  Q: Quit" ++ newline).

Record FrameBuffer := { current : bytes; previous : bytes }.

Definition frame_Update (fb : FrameBuffer) (frame : bytes) : FrameBuffer * bool :=
  ({| current := frame; previous := current fb |}, negb (bytes_eqb frame (current fb))).

(** ** The hash of a tick *)

Section theorems.
Context {C : Crypto}.

Lemma combine_perm l l' : l ≡ₚ l' -> combine l = combine l'.
Proof. apply xor_all_perm. Qed.

Lemma live_perm l l' now b : l ≡ₚ l' -> live_ComputeHash (Ok l) now b = live_ComputeHash (Ok l') now b.
Proof.
  intros H. destruct l as [|x l]; [by apply Permutation_nil_l in H as ->|]. destruct l' as [|x' l']; [by apply Permutation_nil_r in H|].
  cbn [live_ComputeHash]. by rewrite (combine_perm _ _ H), (Permutation_length H).
Qed.

(** The three ways to collect the answers of the network agree, in whatever order each of
    them sees the answers: the live and the distributed bridge return the same hash, the one
    of what the task has accumulated. *)
Theorem bridges_agree l l' l'' now b t :
  l ≡ₚ l' -> l ≡ₚ l'' -> l <> [] ->
  (live_ComputeHash (Ok l) now b).2 = distributed_ComputeHash l' /\
  distributed_ComputeHash l' = Ok (BytesToHash (Keccak256 (pt_result (fold_left ProcessResult l'' (NewPongTask t))))).
Proof.
  intros H1 H2 Hn. assert (R : forall pt, pt_result (fold_left ProcessResult l'' pt) = xor_all (pt_result pt) l'').
  { clear. induction l'' as [|x l'' IH]; intros pt; [done|]. cbn. by rewrite IH. }
  rewrite R. cbn [NewPongTask pt_result]. fold (combine l''). rewrite <- (combine_perm _ _ H2).
  destruct l as [|x l]; [done|]. destruct l' as [|x' l']; [by apply Permutation_nil_r in H1|].
  cbn [live_ComputeHash distributed_ComputeHash snd]. by rewrite (combine_perm _ _ H1).
Qed.

(** The whole tick of a live game, statistics and events included, does not depend on the
    order in which the hashes arrive. *)
Lemma tick_order_independent network network' now g :
  (forall p, match network p, network' p with Ok l, Ok l' => l ≡ₚ l' | Err _, Err _ => True | _, _ => False end) ->
  live_tick network now g = live_tick network' now g.
Proof.
  intros H. assert (E : forall p, live_ComputeHash (network p) now g.2 = live_ComputeHash (network' p) now g.2).
  { intros p. specialize (H p). destruct (network p), (network' p); try done. by apply live_perm. }
  unfold live_tick, tick, run_tick. cbn zeta. rewrite !E. done.
Qed.
End theorems.

Lemma bridges_agree_witness :
  let l := [[Byte.x01]; [Byte.x02; Byte.x03]] in
  distributed_ComputeHash (C := Toy.crypto) (rev l) =
  Ok (BytesToHash (@Keccak256 Toy.crypto (pt_result (fold_left ProcessResult l (NewPongTask (mkTick NewState InputNone InputNone 0)))))).
Proof.
  apply (bridges_agree (C := Toy.crypto) [[Byte.x01]; [Byte.x02; Byte.x03]] (rev [[Byte.x01]; [Byte.x02; Byte.x03]]) _ 0
    {| dispatches := 0; hashesUsed := 0; lastDispatch := 0; lastHash := zero32; errors := 0; tickTimeout := 0 |}); [|done|done].
  by rewrite <- Permutation_rev.
Defined.

(** ** The screen *)

(** The width of the title is taken in bytes, 131 of them, so the padding is negative and the
    first thing the renderer does is to panic. *)
Lemma render_panics s : Render NewRenderer s = Panic "strings: negative Repeat count".
Proof. done. Qed.

Definition shows (s : State) (x : Z) (c : byte) : bool := existsb (fun y => bool_decide (minimal_cell s x y = c)) (upto (minimal_height - 2)).

Lemma paddle_row p : 0 <= p <= FieldHeight - PaddleHeight -> exists y, In y (upto (minimal_height - 2)) /\ inside (gameY y) p PaddleHeight = true.
Proof.
  intros Hp. assert (A : forallb (fun n => existsb (fun y => inside (gameY y) (Z.of_nat n) PaddleHeight) (upto (minimal_height - 2))) (seq 0 109) = true)
    by (vm_compute; reflexivity).
  rewrite forallb_forall in A. specialize (A (Z.to_nat p)). rewrite Z2Nat.id in A by lia.
  destruct (proj1 (existsb_exists _ _) (A ltac:(apply in_seq; pong_consts; lia))) as (y & Hy & E). by exists y.
Qed.

(** On the minimal display both paddles of a well-formed game are always visible, in the third
    column from the left and in the second from the right. *)
Theorem paddles_visible k s : state_ok k s -> shows s 2 Byte.x23 = true /\ shows s 54 Byte.x23 = true.
Proof.
  intros Hs. unfold shows. rewrite !existsb_exists.
  destruct (paddle_row _ (ok_p1 _ _ Hs)) as (y1 & Hy1 & E1). destruct (paddle_row _ (ok_p2 _ _ Hs)) as (y2 & Hy2 & E2).
  split; [exists y1|exists y2]; (split; [done|]); apply bool_decide_eq_true_2; unfold minimal_cell; cbn zeta.
  - rewrite E1. change (inside (gameX 2) PaddleMargin PaddleWidth) with true. cbn [andb].
    change (inside (gameX 2) (FieldWidth - PaddleMargin - PaddleWidth) PaddleWidth) with false. done.
  - rewrite E2. by change (inside (gameX 54) (FieldWidth - PaddleMargin - PaddleWidth) PaddleWidth) with true.
Qed.

Lemma paddles_visible_witness : shows NewState 2 Byte.x23 = true /\ shows NewState 54 Byte.x23 = true.
Proof. apply (paddles_visible 0). by apply new_state_ok. Defined.

(** The ball is smaller than a cell: after the first tick of a game it lies between the points
    that are sampled and no cell shows it. *)
Lemma ball_invisible : forallb (forallb (fun c => negb (bool_decide (c = Byte.x4f)))) (minimal_rows (ComputeNextState NewState InputNone InputNone zero32)) = true.
Proof. vm_compute. reflexivity. Qed.
