(* ===== verification/Substrate.v ===== *)
(** * The substrate ([quantum/substrate.go], [quantum/primitives.go], [quantum/keccak_rho.go])

    Chains of blocks, the junction that folds flows of bytes into one, the Feistel network
    behind the coordinates, entanglement of coordinates, and the payload of the Keccak
    walks.

    Contents: [Junction] with its loop over 64-bit words, the cross anchors of a set of
    chains, [FeistelHash] with the same loop, the encoding of text, the entanglement maps,
    and the walk payload.  A map of chains is the list of its entries in the order in which
    the iteration visits them; [*big.Int] arguments that may be nil are options.  The SHA-256 of
    [Sha256] is used as it is.

    The theorems: the word loop is the byte-wise exclusive or ([junction_reference]), so the
    order of the flows does not matter; the cross anchor of a block restores any one of the
    bodies it was made of ([cross_anchor_recovers]); the Feistel network can be inverted,
    so no two coordinates of the same width collide ([feistel_no_collision]), while
    coordinates of different widths can ([feistel_collision]); entanglement is symmetric
    ([entanglement_symmetric]); the walk payload reads back ([rho_roundtrip]), and a
    number that is too long silently overwrites the one in front of it ([rho_overwrites]). *)

From Stdlib Require Import String SpecFloat.
From S2P Require Import Prelude Json Signing Sha256 Float64 Paths Update Bits.

(** ** Words *)

(** [uint64(b[0]) | uint64(b[1])<<8 | ...]. *)
Fixpoint word (l : bytes) : Z := match l with [] => 0 | b :: t => Z.lor (byteZ b) (Z.shiftl (word t) 8) end.

(** [byte(x)], [byte(x >> 8)], ... *)
Definition put_word (n : nat) (x : Z) : bytes := map (fun i => Zbyte (Z.shiftr x (8 * Z.of_nat i))) (seq 0 n).

(** The loop over 8-byte chunks and the byte loop after it, walking both slices. *)
Fixpoint xor_chunks (chunks : nat) (result f : bytes) : bytes :=
  match chunks with
  | O => xor_into result f
  | S n => put_word 8 (Z.lxor (word (take 8 result)) (word (take 8 f))) ++ xor_chunks n (drop 8 result) (drop 8 f)
  end.

Definition max_len (flows : list bytes) : nat := fold_left (fun m f => if (m <? length f)%nat then length f else m) flows 0%nat.

Definition Junction (flows : list bytes) : bytes :=
  match flows with
  | [] => []
  | _ => fold_left (fun result f => xor_chunks (length f / 8) result f) flows (zeros (max_len flows))
  end.

(** ** Chains *)

Record BlockHeader := { bh_Amplitude : float64; bh_Phase : float64; SynsetIndex : Z }.
Record Block := mkBlock { bl_Header : BlockHeader; bl_Body : bytes; CrossAnchor : bytes }.
Record Gate := { Position : Z; Restriction : Z; gate_Type : string }.
Record Chain := mkChain { chain_ID : bytes; Diameter : Z; chain_Gates : list Gate; chain_Blocks : list Block; chain_Anchors : list bytes }.
Record BlockLocation := { loc_ChainID : bytes; loc_BlockIdx : Z }.

#[global] Instance BlockLocation_eq_dec : EqDecision BlockLocation.
Proof. solve_decision. Defined.
#[global] Instance BlockLocation_countable : Countable BlockLocation.
Proof.
  refine (inj_countable' (fun l => (loc_ChainID l, loc_BlockIdx l)) (fun p => {| loc_ChainID := p.1; loc_BlockIdx := p.2 |}) _). by intros [].
Defined.

Definition InitCurrentBlock : gmap bytes BlockLocation := ∅.
Definition SetCurrentBlock (chainID : bytes) (loc : BlockLocation) (m : gmap bytes BlockLocation) : gmap bytes BlockLocation := <[chainID := loc]> m.
Definition GetCurrentBlock (chainID : bytes) (m : gmap bytes BlockLocation) : option BlockLocation := m !! chainID.

Definition AppendBlock (b : Block) (c : Chain) : Chain :=
  mkChain (chain_ID c) (Diameter c) (chain_Gates c) (chain_Blocks c ++ [b]) (chain_Anchors c).

Definition GetBlock (idx : Z) (c : Chain) : option Block :=
  if (idx <? 0) || (Z.of_nat (length (chain_Blocks c)) <=? idx) then None else chain_Blocks c !! Z.to_nat idx.

Definition set_anchor (a : bytes) (b : Block) : Block := mkBlock (bl_Header b) (bl_Body b) a.

Definition map_blocks (f : list Block -> list Block) (c : Chain) : Chain :=
  mkChain (chain_ID c) (Diameter c) (chain_Gates c) (f (chain_Blocks c)) (chain_Anchors c).

(** The bodies at an index, in the order of the iteration. *)
Definition bodies_at (i : nat) (chains : list (bytes * Chain)) : list bytes :=
  omap (fun e => bl_Body <$> chain_Blocks e.2 !! i) chains.

Definition anchor_at (chains : list (bytes * Chain)) (i : nat) : list (bytes * Chain) :=
  let blockData := bodies_at i chains in
  if (1 <? length blockData)%nat then
    let junction := Junction blockData in
    map (fun e => (e.1, map_blocks (alter (set_anchor junction) i) e.2)) chains
  else chains.

Definition max_blocks (chains : list (bytes * Chain)) : nat :=
  fold_left (fun m e => if (m <? length (chain_Blocks e.2))%nat then length (chain_Blocks e.2) else m) chains 0%nat.

Definition SetCrossAnchors (chains : list (bytes * Chain)) : list (bytes * Chain) :=
  fold_left anchor_at (seq 0 (max_blocks chains)) chains.

(** ** The Feistel network *)

(** The new right half: the word loop up to 32 bytes, then byte by byte, where the bytes
    beyond the digest are copied. *)
Fixpoint feistel_mix (chunks hashLen : nat) (left hash : bytes) : bytes :=
  match chunks with
  | O => imap (fun i b => if (i <? hashLen)%nat then xor_byte b (nth i hash Byte.x00) else b) left
  | S n => put_word 8 (Z.lxor (word (take 8 left)) (word (take 8 hash))) ++ feistel_mix n (hashLen - 8) (drop 8 left) (drop 8 hash)
  end.

Definition feistel_round (lr : bytes * bytes) (round : nat) : bytes * bytes :=
  let hash := sha256 (lr.2 ++ [Zbyte (Z.of_nat round)]) in
  let hashLen := Nat.min (length lr.1) 32 in
  (lr.2, feistel_mix (hashLen / 8) hashLen lr.1 hash).

Definition feistel (lr : bytes * bytes) : bytes * bytes := fold_left feistel_round (seq 0 4) lr.

(** The bytes of a coordinate, padded to an even number. *)
Definition even_bytes (x : Z) : bytes :=
  let b := bigint_bytes x in
  let b := if (length b =? 0)%nat then [Byte.x00] else b in
  if negb (length b mod 2 =? 0)%nat then Byte.x00 :: b else b.

Definition FeistelHash (x : option Z) : Z :=
  match x with
  | None => 0
  | Some x =>
      let b := even_bytes x in
      let mid := (length b / 2)%nat in
      let lr := feistel (take mid b, drop mid b) in
      be_int (lr.1 ++ lr.2)
  end.

(** ** Coordinates *)

Definition complex128 : Type := float64 * float64.

Record SubstrateState := mkSub {
  Amplitudes : gmap bytes complex128; Phases : gmap bytes complex128; Entanglements : gmap bytes (list bytes); Genesis : bytes;
}.
Record SubstrateChain := mkSC { sc_Chain : Chain; sc_State : SubstrateState }.

Definition NewSubstrateChain (c : Chain) : SubstrateChain := mkSC c (mkSub ∅ ∅ ∅ (sha256 (chain_ID c))).

(** The runes a [range] over a string yields: invalid bytes are U+FFFD, one at a time. *)
Definition rune_value (b0 : byte) (t : bytes) : Z :=
  let lead := if (length t =? 1)%nat then 31 else if (length t =? 2)%nat then 15 else 7 in
  fold_left (fun acc b => acc * 64 + Z.land (byteZ b) 63) t (Z.land (byteZ b0) lead).

Fixpoint runes_fuel (fuel : nat) (s : bytes) : list Z :=
  match fuel, s with
  | S n, b :: t =>
      if byteZ b <? 128 then byteZ b :: runes_fuel n t
      else match utf8_tail b t with
           | Some k => rune_value b (take k t) :: runes_fuel n (drop k t)
           | None => 65533 :: runes_fuel n t
           end
  | _, _ => []
  end.
Definition runes (s : bytes) : list Z := runes_fuel (length s) s.

Definition encode_rune (coord ch : Z) : Z := FeistelHash (Some (Z.shiftl coord 8 + ch)).

Definition UTF8_ENCODE (sc : option SubstrateChain) (text : bytes) : Z :=
  match sc, text with
  | None, _ | _, [] => 0
  | Some sc, _ => fold_left encode_rune (runes text) (be_int (take 8 (Genesis (sc_State sc))))
  end.

Definition UTF8_DECODE (coord : option Z) : bytes :=
  match coord with
  | None => []
  | Some c => if c =? 0 then [] else take 64 (List.filter (fun b => (32 <=? byteZ b) && (byteZ b <=? 126)) (bigint_bytes c))
  end.

(** Appends [v] to the list of [k]; a missing list is nil. *)
Definition append_key (k v : bytes) (m : gmap bytes (list bytes)) : gmap bytes (list bytes) := <[k := default [] (m !! k) ++ [v]]> m.

Definition with_entanglements (m : gmap bytes (list bytes)) (sc : SubstrateChain) : SubstrateChain :=
  mkSC (sc_Chain sc) (mkSub (Amplitudes (sc_State sc)) (Phases (sc_State sc)) m (Genesis (sc_State sc))).

Definition COMPOSE (sc : SubstrateChain) (a b : option Z) : SubstrateChain :=
  match a, b with
  | Some a, Some b => with_entanglements (append_key (dec b) (dec a) (append_key (dec a) (dec b) (Entanglements (sc_State sc)))) sc
  | _, _ => sc
  end.

(** [new(big.Int).SetString(s, 10)]. *)
Definition SetString10 (s : bytes) : option Z :=
  let neg := HasPrefix s (bs "-") in
  let d := if neg || HasPrefix s (bs "+") then drop 1 s else s in
  if negb (length d =? 0)%nat && forallb is_digit d then Some (if neg then - digits_val d else digits_val d) else None.

Definition GetEntanglements (sc : SubstrateChain) (coord : option Z) : list (option Z) :=
  match coord with
  | None => []
  | Some c => map SetString10 (default [] (Entanglements (sc_State sc) !! dec c))
  end.

Definition c0 : complex128 := (f0, f0).

Definition SetAmplitude (coord : option Z) (amp : complex128) (sc : SubstrateChain) : SubstrateChain :=
  match coord with
  | Some c => mkSC (sc_Chain sc) (mkSub (<[dec c := amp]> (Amplitudes (sc_State sc))) (Phases (sc_State sc)) (Entanglements (sc_State sc)) (Genesis (sc_State sc)))
  | None => sc
  end.
Definition GetAmplitude (coord : option Z) (sc : SubstrateChain) : complex128 :=
  match coord with Some c => default c0 (Amplitudes (sc_State sc) !! dec c) | None => c0 end.
Definition SetPhase (coord : option Z) (phase : complex128) (sc : SubstrateChain) : SubstrateChain :=
  match coord with
  | Some c => mkSC (sc_Chain sc) (mkSub (Amplitudes (sc_State sc)) (<[dec c := phase]> (Phases (sc_State sc))) (Entanglements (sc_State sc)) (Genesis (sc_State sc)))
  | None => sc
  end.
Definition GetPhase (coord : option Z) (sc : SubstrateChain) : complex128 :=
  match coord with Some c => default c0 (Phases (sc_State sc) !! dec c) | None => c0 end.

(** ** Keccak walks *)

(** [copy(p[stop-len(b):stop], b)] for the bytes of [z]: a number longer than its field
    overwrites what is in front of it, and one longer than [stop] panics. *)
Definition overwrite (p : bytes) (stop : nat) (z : Z) : outcome bytes :=
  let b := bigint_bytes z in
  if (length b <=? stop)%nat then Done (take (stop - length b) p ++ b ++ drop stop p) else Panic "slice bounds out of range".

Definition KeccakStep {C : Crypto} (n x : Z) : outcome Z :=
  let! data := overwrite (zeros 64) 32 n in
  let! data := overwrite data 64 x in
  if n =? 0 then Panic "division by zero" else Done (be_int (Keccak256 data) mod Z.abs n).

Definition IsKeccakDP (x : Z) (bits : nat) : bool :=
  if (bits =? 0)%nat then true else Z.land x (Z.shiftl 1 (Z.of_nat bits) - 1) =? 0.

Definition MsgTypeKeccakRho : byte := Byte.x4b.

Definition EncodeKeccakRhoPayload (n x walkID : Z) : outcome bytes :=
  let payload := [Byte.x5a; Byte.x45; Byte.x01; MsgTypeKeccakRho] ++ be_bytes 4 walkID ++ zeros 64 in
  let! payload := overwrite payload 40 n in
  overwrite payload 72 x.

Definition DecodeKeccakRhoPayload (data : bytes) : option (Z * Z * Z) :=
  if (length data <? 72)%nat then None
  else if bool_decide (nth 0 data Byte.x00 = Byte.x5a) && bool_decide (nth 1 data Byte.x00 = Byte.x45) &&
          bool_decide (nth 3 data Byte.x00 = MsgTypeKeccakRho)
       then Some (be_int (take 4 (drop 4 data)), be_int (take 32 (drop 8 data)), be_int (take 32 (drop 40 data)))
       else None.

(** ** The word loop *)

Lemma word_cons b l : word (b :: l) mod 256 = byteZ b /\ Z.shiftr (word (b :: l)) 8 = word l.
Proof.
  cbn [word]. pose proof (byteZ_range b). split.
  - change 256 with (2 ^ 8). rewrite <- !Z.land_ones by lia. rewrite Z.land_lor_distr_l. rewrite !Z.land_ones by lia.
    rewrite Z.shiftl_mul_pow2, Z_mod_mult, Z.lor_0_r by lia. apply Z.mod_small. lia.
  - rewrite Z.shiftr_lor, Z.shiftr_shiftl_l by lia. rewrite Z.sub_diag, Z.shiftl_0_r.
    rewrite (Z.shiftr_div_pow2 (byteZ b)), Z.div_small by lia. done.
Qed.

Lemma put_word_S n x : put_word (S n) x = Zbyte x :: put_word n (Z.shiftr x 8).
Proof.
  unfold put_word. cbn [seq map]. rewrite Z.shiftr_0_r. f_equal. rewrite <- seq_shift, map_map. apply map_ext. intros i.
  rewrite Z.shiftr_shiftr by lia. do 2 f_equal. lia.
Qed.

Lemma lxor_mod_256 a b : Z.lxor a b mod 256 = Z.lxor (a mod 256) (b mod 256).
Proof.
  change 256 with (2 ^ 8). rewrite <- !Z.land_ones by lia. apply Z.bits_inj'. intros n Hn.
  rewrite !Z.land_spec, !Z.lxor_spec, !Z.land_spec. by destruct (Z.testbit a n), (Z.testbit b n), (Z.testbit (Z.ones 8) n).
Qed.

(** The exclusive or of two words is that of their bytes. *)
Lemma word_xor n a b : length a = n -> length b = n -> put_word n (Z.lxor (word a) (word b)) = xor_into a b.
Proof.
  revert a b. induction n as [|n IH]; intros [|x a] [|y b]; cbn [length]; intros Ha Hb; try done.
  injection Ha as Ha. injection Hb as Hb. rewrite put_word_S. cbn [xor_into]. f_equal.
  - apply byteZ_inj. rewrite byteZ_Zbyte, byteZ_xor, lxor_mod_256. by rewrite (proj1 (word_cons x a)), (proj1 (word_cons y b)).
  - rewrite Z.shiftr_lxor, (proj2 (word_cons x a)), (proj2 (word_cons y b)). by apply IH.
Qed.

Lemma xor_chunks_into n r f : (8 * n <= length f)%nat -> (8 * n <= length r)%nat -> xor_chunks n r f = xor_into r f.
Proof.
  revert r f. induction n as [|n IH]; intros r f Hf Hr; [done|]. cbn [xor_chunks].
  rewrite word_xor by (rewrite length_take; lia). rewrite IH by (rewrite length_drop; lia).
  rewrite <- xor_into_app by (rewrite !length_take; lia). by rewrite !take_drop.
Qed.

Lemma max_len_spec flows : Forall (fun f => (length f <= max_len flows)%nat) flows.
Proof.
  assert (A : forall m, (m <= fold_left (fun m f => if (m <? length f)%nat then length f else m) flows m)%nat /\
    Forall (fun f => (length f <= fold_left (fun m f => if (m <? length f)%nat then length f else m) flows m)%nat) flows); [|apply A].
  induction flows as [|f flows IH]; intros m; [by split; [|constructor]|]. cbn [fold_left].
  destruct (IH (if (m <? length f)%nat then length f else m)) as [H1 H2].
  destruct (Nat.ltb_spec m (length f)); (split; [lia|constructor; [lia|done]]).
Qed.

Lemma junction_fold flows r : Forall (fun f => (length f <= length r)%nat) flows ->
  fold_left (fun result f => xor_chunks (length f / 8) result f) flows r = xor_all r flows.
Proof.
  revert r. induction flows as [|f flows IH]; intros r H; [done|]. apply Forall_cons in H as [Hf H]. cbn [fold_left].
  assert (8 * (length f / 8) <= length f)%nat by apply Nat.Div0.mul_div_le.
  rewrite xor_chunks_into by lia. unfold xor_all. cbn [fold_left]. apply IH. by rewrite length_xor_into.
Qed.

Lemma max_fold_attained (l : list bytes) m : let x := fold_left (fun m f => if (m <? length f)%nat then length f else m) l m in
  x = m \/ exists f, f ∈ l /\ length f = x.
Proof.
  revert m. induction l as [|f l IH]; intros m; cbn zeta; cbn [fold_left]; [by left|].
  destruct (IH (if (m <? length f)%nat then length f else m)) as [->|(g & Hg & E)]; [|right; exists g; split; [by right|done]].
  destruct (Nat.ltb_spec m (length f)); [right; exists f; split; [by left|done]|by left].
Qed.

Lemma max_len_perm l l' : l ≡ₚ l' -> max_len l = max_len l'.
Proof.
  intros H. pose proof (max_len_spec l) as H1. pose proof (max_len_spec l') as H2. rewrite Forall_forall in H1, H2.
  apply Nat.le_antisymm.
  - destruct (max_fold_attained l 0) as [E|(f & Hf & E)]; fold (max_len l) in E; [rewrite E; lia|]. rewrite <- E. apply H2. by rewrite <- H.
  - destruct (max_fold_attained l' 0) as [E|(f & Hf & E)]; fold (max_len l') in E; [rewrite E; lia|]. rewrite <- E. apply H1. by rewrite H.
Qed.

Lemma junction_xor flows : Junction flows = xor_all (zeros (max_len flows)) flows.
Proof.
  unfold Junction. destruct flows as [|f fs]; [done|].
  apply junction_fold. eapply Forall_impl; [apply max_len_spec|]. intros x Hx. cbn. unfold zeros. by rewrite length_replicate.
Qed.

Lemma junction_perm flows flows' : flows ≡ₚ flows' -> Junction flows = Junction flows'.
Proof. intros H. by rewrite !junction_xor, (xor_all_perm _ _ _ H), (max_len_perm _ _ H). Qed.

(** The loop over 64-bit words computes the byte-wise exclusive or of the flows, each extended
    with zeros to the longest, and the order of the flows does not matter: byte [i] of the
    junction is the exclusive or of the bytes [i] of the flows that have one. *)
Theorem junction_reference flows flows' i :
  flows ≡ₚ flows' ->
  Junction flows' !! i = if (i <? max_len flows)%nat then Some (foldr xor_byte Byte.x00 (omap (fun f => f !! i) flows)) else None.
Proof.
  intros H. rewrite <- (junction_perm _ _ H), junction_xor. clear H flows'.
  assert (A : forall d, xor_all d flows !! i = match d !! i with Some b => Some (xor_byte b (foldr xor_byte Byte.x00 (omap (fun f => f !! i) flows))) | None => None end).
  { induction flows as [|f flows IH]; intros d; cbn.
    - destruct (d !! i); [by rewrite xor_byte_0_r|done].
    - unfold xor_all in IH. rewrite IH, lookup_xor_into. destruct (d !! i) as [b|]; [|done]. destruct (f !! i) as [c|]; cbn; [|done].
      by rewrite xor_byte_assoc. }
  rewrite A. unfold zeros. destruct (Nat.ltb_spec i (max_len flows)).
  - rewrite lookup_replicate_2 by done. by rewrite xor_byte_0_l.
  - rewrite lookup_ge_None_2 by (rewrite length_replicate; lia). done.
Qed.

Lemma junction_reference_witness : Junction [[Byte.x06]; [Byte.x03; Byte.x05]] !! 0%nat = Some Byte.x05.
Proof. rewrite (junction_reference [[Byte.x03; Byte.x05]; [Byte.x06]] _ 0); [done|constructor]. Defined.

(** ** Cross anchors *)

Lemma bodies_perm i l l' : l ≡ₚ l' -> bodies_at i l ≡ₚ bodies_at i l'.
Proof. intros H. unfold bodies_at. by rewrite H. Qed.

(** The blocks after anchoring the indices of [ids]. *)
Definition anchored (l : list (bytes * Chain)) (ids : list nat) (i : nat) (b : Block) : Block :=
  if (1 <? length (bodies_at i l))%nat && bool_decide (i ∈ ids) then set_anchor (Junction (bodies_at i l)) b else b.

Definition anchor_chain (l : list (bytes * Chain)) (ids : list nat) (e : bytes * Chain) : bytes * Chain :=
  (e.1, map_blocks (imap (anchored l ids)) e.2).

Lemma chain_eta c : map_blocks id c = c.
Proof. by destruct c. Qed.

Lemma map_blocks_ext f g c : f (chain_Blocks c) = g (chain_Blocks c) -> map_blocks f c = map_blocks g c.
Proof. intros E. unfold map_blocks. by rewrite E. Qed.

Lemma map_blocks_twice f g c : map_blocks f (map_blocks g c) = map_blocks (fun l => f (g l)) c.
Proof. done. Qed.

Lemma bodies_anchor_chain j m ids l : bodies_at j (map (anchor_chain m ids) l) = bodies_at j l.
Proof.
  unfold bodies_at. induction l as [|e l IH]; [done|]. cbn [map omap list_omap]. rewrite <- IH. cbn [anchor_chain map_blocks chain_Blocks snd].
  rewrite list_lookup_imap. destruct (chain_Blocks e.2 !! j) as [b|]; cbn; [|done]. unfold anchored. by case_match.
Qed.

Lemma alter_imap {A} (f : A -> A) i (l : list A) : alter f i l = imap (fun j b => if bool_decide (j = i) then f b else b) l.
Proof.
  apply list_eq. intros j. rewrite list_lookup_imap. destruct (decide (j = i)) as [->|Hn].
  - rewrite list_lookup_alter_eq. destruct (l !! i); cbn; [by rewrite bool_decide_true|done].
  - rewrite list_lookup_alter_ne by done. destruct (l !! j); cbn; [by rewrite bool_decide_false|done].
Qed.

Lemma imap_imap {A} (f g : nat -> A -> A) (l : list A) : imap f (imap g l) = imap (fun i b => f i (g i b)) l.
Proof. apply list_eq. intros j. rewrite !list_lookup_imap. by destruct (l !! j). Qed.

Lemma imap_same {A} (f : nat -> A -> A) (l : list A) : (forall i b, f i b = b) -> imap f l = l.
Proof. intros H. apply list_eq. intros j. rewrite list_lookup_imap. destruct (l !! j); cbn; [by rewrite H|done]. Qed.

Lemma anchor_at_step l ids i : i ∉ ids -> anchor_at (map (anchor_chain l ids) l) i = map (anchor_chain l (i :: ids)) l.
Proof.
  intros Hi. unfold anchor_at. rewrite bodies_anchor_chain.
  destruct (1 <? length (bodies_at i l))%nat eqn:E.
  - rewrite map_map. apply map_ext. intros e. unfold anchor_chain. cbn [fst snd]. f_equal. rewrite map_blocks_twice.
    apply map_blocks_ext. rewrite alter_imap, imap_imap. apply imap_ext. intros j b _. unfold anchored.
    destruct (decide (j = i)) as [->|Hn].
    + rewrite (bool_decide_true (i = i)), E, bool_decide_false, bool_decide_true by (try done; by left). done.
    + rewrite (bool_decide_false (j = i)) by done. by rewrite (bool_decide_ext (j ∈ i :: ids) (j ∈ ids)) by set_solver.
  - apply map_ext. intros e. unfold anchor_chain. f_equal. apply map_blocks_ext. apply imap_ext. intros j b _. unfold anchored.
    destruct (decide (j = i)) as [->|Hn]; [by rewrite E|]. by rewrite (bool_decide_ext (j ∈ i :: ids) (j ∈ ids)) by set_solver.
Qed.

Lemma anchor_all l js ids : NoDup js -> (forall i, i ∈ js -> i ∉ ids) ->
  fold_left anchor_at js (map (anchor_chain l ids) l) = map (anchor_chain l (rev js ++ ids)) l.
Proof.
  revert ids. induction js as [|i js IH]; intros ids Hd Hn; [done|]. apply NoDup_cons in Hd as [Hi Hd]. cbn [fold_left rev].
  rewrite anchor_at_step by (apply Hn; by left). rewrite IH; [by rewrite <- app_assoc|done|].
  intros j Hj. rewrite not_elem_of_cons. split; [by intros ->|]. apply Hn. by right.
Qed.

Lemma max_blocks_spec l e : e ∈ l -> (length (chain_Blocks e.2) <= max_blocks l)%nat.
Proof.
  unfold max_blocks. generalize 0%nat. assert (M : forall (l : list (bytes * Chain)) m,
    (m <= fold_left (fun m e => if (m <? length (chain_Blocks e.2))%nat then length (chain_Blocks e.2) else m) l m)%nat).
  { clear. induction l as [|e l IH]; intros m; [done|]. cbn [fold_left]. specialize (IH (if (m <? length (chain_Blocks e.2))%nat then length (chain_Blocks e.2) else m)). revert IH.
    destruct (Nat.ltb_spec m (length (chain_Blocks e.2))); lia. }
  intros m He. revert m. induction He as [e l|e e' l _ IH]; intros m; cbn [fold_left]; [|apply IH].
  eapply Nat.le_trans; [|apply M]. destruct (Nat.ltb_spec m (length (chain_Blocks e.2))); lia.
Qed.

(** All anchors at once: a block with an index that at least two chains have carries the
    junction of the bodies at that index; nothing else changes. *)
Lemma cross_anchors_spec l : SetCrossAnchors l = map (anchor_chain l (seq 0 (max_blocks l))) l.
Proof.
  unfold SetCrossAnchors.
  assert (E : map (anchor_chain l []) l = l).
  { rewrite <- (map_id l) at 3. apply map_ext. intros [k c]. unfold anchor_chain. cbn [fst snd]. f_equal. rewrite <- (chain_eta c) at 2.
    apply map_blocks_ext. apply imap_same. intros. unfold anchored. by rewrite andb_false_r. }
  rewrite <- E at 2. rewrite anchor_all; [|apply NoDup_seq|intros ? ?; apply not_elem_of_nil]. apply map_ext. intros e. unfold anchor_chain. f_equal.
  apply map_blocks_ext, imap_ext. intros i b _. unfold anchored. rewrite app_nil_r. 
  rewrite (bool_decide_ext (i ∈ rev (seq 0 (max_blocks l))) (i ∈ seq 0 (max_blocks l))); [done|by rewrite <- Permutation_rev].
Qed.

Lemma bodies_lookup i l b : b ∈ bodies_at i l <-> exists e blk, e ∈ l /\ chain_Blocks e.2 !! i = Some blk /\ bl_Body blk = b.
Proof.
  unfold bodies_at. rewrite list_elem_of_omap. split.
  - intros (e & He & E). destruct (chain_Blocks e.2 !! i) as [blk|] eqn:Eb; [|done]. cbn in E. simplify_eq. by exists e, blk.
  - intros (e & blk & He & Eb & <-). exists e. by rewrite Eb.
Qed.

(** The first of some flows is their junction with the junction of the others removed again. *)
Lemma junction_recovers a rest : (length a <= max_len (a :: rest))%nat /\ xor_all (Junction (a :: rest)) rest = a ++ zeros (max_len (a :: rest) - length a).
Proof.
  pose proof (max_len_spec (a :: rest)) as H. apply Forall_cons in H as [Ha _]. split; [done|]. rewrite junction_xor.
  assert (T : forall d l, xor_all (xor_all d l) l = d).
  { clear. intros d l. rewrite (xor_all_perm (xor_all d l) l (rev l)) by apply Permutation_rev. revert d.
    induction l as [|x l IH]; intros d; [done|]. cbn. unfold xor_all in *. rewrite fold_left_app, IH. cbn. apply xor_into_twice. }
  revert Ha. generalize (max_len (a :: rest)). intros m Ha. change (xor_all (zeros m) (a :: rest)) with (xor_all (xor_into (zeros m) a) rest). rewrite T.
  by apply xor_into_zeros.
Qed.

(** A cross anchor stands for any one of the bodies it was made from: when the iteration, in
    whatever order, finds a block with body [a] and the bodies [rest] (at least one) at an index, the
    blocks of all chains at that index get the same anchor, and removing [rest] from it, in any order,
    leaves [a], extended with zeros to the longest body. *)
Theorem cross_anchor_recovers l i a rest k c blk :
  bodies_at i l ≡ₚ a :: rest -> rest <> [] -> (k, c) ∈ SetCrossAnchors l -> chain_Blocks c !! i = Some blk ->
  exists n, xor_all (CrossAnchor blk) rest = a ++ zeros n.
Proof.
  intros Hb Hr Hc Hl. rewrite cross_anchors_spec in Hc. apply list_elem_of_fmap in Hc as ([k' c'] & E & He). injection E as -> ->.
  cbn [map_blocks chain_Blocks] in Hl. rewrite list_lookup_imap in Hl. destruct (chain_Blocks c' !! i) as [b|] eqn:Eb; [|done].
  injection Hl as <-. unfold anchored. rewrite (Permutation_length Hb). destruct rest as [|b' rest]; [done|]. cbn [length Nat.ltb Nat.leb andb].
  rewrite bool_decide_true; [cbn [set_anchor CrossAnchor]; rewrite (junction_perm _ _ Hb); eexists; apply junction_recovers|].
  apply elem_of_seq. pose proof (max_blocks_spec _ _ He) as Hm. cbn in Hm. apply lookup_lt_Some in Eb. lia.
Qed.

Definition ex_block (b : bytes) : Block := mkBlock {| bh_Amplitude := f0; bh_Phase := f0; SynsetIndex := 0 |} b [].
Definition ex_chains : list (bytes * Chain) :=
  [([Byte.x01], mkChain [Byte.x01] 0 [] [ex_block [Byte.x61; Byte.x62]; ex_block [Byte.x63]] []);
   ([Byte.x02], mkChain [Byte.x02] 0 [] [ex_block [Byte.x7a]] [])].

Lemma cross_anchor_recovers_witness : exists n, xor_all [Byte.x1b; Byte.x62] [[Byte.x7a]] = [Byte.x61; Byte.x62] ++ zeros n.
Proof.
  apply (cross_anchor_recovers ex_chains 0 [Byte.x61; Byte.x62] [[Byte.x7a]] [Byte.x02]
    (mkChain [Byte.x02] 0 [] [set_anchor [Byte.x1b; Byte.x62] (ex_block [Byte.x7a])] [])
    (set_anchor [Byte.x1b; Byte.x62] (ex_block [Byte.x7a]))); [done|done| |done].
  vm_compute. apply list_elem_of_In. right. left. done.
Defined.

(** ** The Feistel network *)

Lemma feistel_mix_xor c hl left hash :
  hl = Nat.min (length left) (length hash) -> (8 * c <= hl)%nat -> feistel_mix c hl left hash = xor_into left hash.
Proof.
  revert hl left hash. induction c as [|c IH]; intros hl left hash Hl Hc; cbn [feistel_mix].
  - apply list_eq. intros i. rewrite list_lookup_imap, lookup_xor_into. destruct (left !! i) as [b|] eqn:E; cbn [fmap option_fmap option_map]; [|done].
    apply lookup_lt_Some in E. destruct (Nat.ltb_spec i hl).
    + destruct (hash !! i) as [h|] eqn:Eh; [by rewrite (nth_lookup_Some _ _ _ _ Eh)|]. apply lookup_ge_None in Eh. lia.
    + by rewrite lookup_ge_None_2 by lia.
  - rewrite word_xor by (rewrite length_take; lia). rewrite IH by (rewrite ?length_drop; lia).
    rewrite <- xor_into_app by (rewrite !length_take; lia). by rewrite !take_drop.
Qed.

(** The digest a round mixes in. *)
Definition round_key (r : bytes) (round : nat) : bytes := sha256 (r ++ [Zbyte (Z.of_nat round)]).

Lemma feistel_round_spec l r round : feistel_round (l, r) round = (r, xor_into l (round_key r round)).
Proof.
  unfold feistel_round. cbn [fst snd]. f_equal. apply feistel_mix_xor; [unfold round_key; by rewrite length_sha256|]. apply Nat.Div0.mul_div_le.
Qed.

(** A round and the whole network backwards. *)
Definition unround (lr : bytes * bytes) (round : nat) : bytes * bytes := (xor_into lr.2 (round_key lr.1 round), lr.1).
Definition unfeistel (lr : bytes * bytes) : bytes * bytes := fold_left unround (rev (seq 0 4)) lr.

Lemma unround_round lr round : unround (feistel_round lr round) round = lr.
Proof. destruct lr as [l r]. rewrite feistel_round_spec. unfold unround. cbn [fst snd]. by rewrite xor_into_twice. Qed.

Lemma unfeistel_feistel lr : unfeistel (feistel lr) = lr.
Proof.
  unfold unfeistel, feistel. generalize (seq 0 4). intros rs. revert lr. induction rs as [|r rs IH]; intros lr; [done|].
  cbn [fold_left rev]. rewrite fold_left_app, IH. cbn [fold_left]. apply unround_round.
Qed.

Lemma feistel_lengths l r : length l = length r -> length (feistel (l, r)).1 = length l /\ length (feistel (l, r)).2 = length l.
Proof.
  intros H. unfold feistel. assert (A : forall rs lr, length lr.1 = length l -> length lr.2 = length l ->
    length (fold_left feistel_round rs lr).1 = length l /\ length (fold_left feistel_round rs lr).2 = length l).
  { clear. induction rs as [|x rs IH]; intros [a b] Ha Hb; [done|]. cbn [fold_left]. rewrite feistel_round_spec. cbn in *.
    apply IH; cbn; [done|]. by rewrite length_xor_into. }
  apply A; cbn; congruence.
Qed.

Lemma even_bytes_even x : exists m, length (even_bytes x) = (2 * m)%nat.
Proof.
  unfold even_bytes. set (b := if (length (bigint_bytes x) =? 0)%nat then [Byte.x00] else bigint_bytes x). destruct (Nat.eqb_spec (length b mod 2) 0) as [E|E]; cbn [negb].
  - exists (length b / 2)%nat. pose proof (Nat.div_mod_eq (length b) 2). lia.
  - exists (S (length b / 2))%nat. pose proof (Nat.div_mod_eq (length b) 2). pose proof (Nat.mod_upper_bound (length b) 2). cbn [length]. lia.
Qed.

Lemma be_int_cons0 b : be_int (Byte.x00 :: b) = be_int b.
Proof. done. Qed.

Lemma even_bytes_value x : be_int (even_bytes x) = Z.abs x.
Proof.
  assert (E : be_int (if (length (bigint_bytes x) =? 0)%nat then [Byte.x00] else bigint_bytes x) = Z.abs x).
  { destruct (Nat.eqb_spec (length (bigint_bytes x)) 0) as [H|H]; [|apply be_int_bigint_bytes].
    rewrite <- (be_int_bigint_bytes x). by apply nil_length_inv in H as ->. }
  unfold even_bytes. destruct (negb _); [by rewrite be_int_cons0|done].
Qed.

Lemma feistel_hash_bytes x : FeistelHash (Some x) = be_int ((feistel (take (length (even_bytes x) / 2) (even_bytes x), drop (length (even_bytes x) / 2) (even_bytes x))).1 ++
   (feistel (take (length (even_bytes x) / 2) (even_bytes x), drop (length (even_bytes x) / 2) (even_bytes x))).2).
Proof. done. Qed.

(** Coordinates of the same even width never collide: the network, whose word loop mixes at most
    32 bytes of a longer half, can be run backwards, and the width restores what the conversion
    to a number loses. *)
Theorem feistel_no_collision x y :
  length (even_bytes x) = length (even_bytes y) -> FeistelHash (Some x) = FeistelHash (Some y) -> Z.abs x = Z.abs y.
Proof.
  intros Hl. rewrite !feistel_hash_bytes, <- Hl, <- (even_bytes_value x), <- (even_bytes_value y).
  destruct (even_bytes_even x) as [m Hm]. rewrite Hm in *. replace (2 * m / 2)%nat with m by (symmetry; rewrite Nat.mul_comm; apply Nat.div_mul; lia).
  revert Hm Hl. generalize (even_bytes x) (even_bytes y). intros a b Ha Hb H. f_equal.
  destruct (feistel_lengths (take m a) (drop m a)) as [A1 A2]; [rewrite length_take, length_drop; lia|].
  destruct (feistel_lengths (take m b) (drop m b)) as [B1 B2]; [rewrite length_take, length_drop; lia|].
  rewrite length_take in A1, A2, B1, B2.
  assert (E : (feistel (take m a, drop m a)) = (feistel (take m b, drop m b))).
  { apply (f_equal (be_bytes (2 * m))) in H.
    assert (L : forall l : bytes, length l = (2 * m)%nat -> be_bytes (2 * m) (be_int l) = l) by (intros l <-; apply be_bytes_be_int).
    rewrite !L in H by (rewrite length_app; lia). apply app_inj_1 in H as [H1 H2]; [|lia].
    destruct (feistel (take m a, drop m a)), (feistel (take m b, drop m b)); cbn in *; congruence. }
  apply (f_equal unfeistel) in E. rewrite !unfeistel_feistel in E. injection E as E1 E2.
  by rewrite <- (take_drop m a), <- (take_drop m b), E1, E2.
Qed.

Lemma feistel_no_collision_witness : Z.abs (Z.opp 77) = Z.abs 77.
Proof. apply (feistel_no_collision (Z.opp 77) 77); vm_compute; reflexivity. Defined.

(** Across widths they do: the four-byte coordinate that the inverse network gives for the
    hash of a two-byte one has the same hash. *)
Lemma feistel_collision : exists x y, x <> y /\ 0 < x /\ 0 < y /\ FeistelHash (Some x) = FeistelHash (Some y).
Proof.
  set (y := 258).
  set (x := let t := unfeistel (take 2 (be_bytes 4 (FeistelHash (Some y))), drop 2 (be_bytes 4 (FeistelHash (Some y)))) in be_int (t.1 ++ t.2)).
  exists x, y. vm_compute. repeat split; discriminate.
Qed.

(** ** Entanglement *)

Lemma SetString10_dec z : SetString10 (dec z) = Some z.
Proof.
  assert (P : forall z, 0 <= z -> SetString10 (dec z) = Some z /\ forallb is_digit (dec z) = true /\ (length (dec z) =? 0)%nat = false /\ digits_val (dec z) = z).
  { intros w Hw. destruct (dec_digits w Hw) as [D V]. destruct (dec_head w) as (b & t & E & _).
    assert (L : (length (dec w) =? 0)%nat = false) by (by rewrite E). split; [|done]. unfold SetString10.
    assert (N : is_digit b = true) by (rewrite E in D; cbn in D; by apply andb_true_iff in D as [D _]).
    assert (H1 : HasPrefix (dec w) (bs "-") = false) by (rewrite E; by destruct b). assert (H2 : HasPrefix (dec w) (bs "+") = false) by (rewrite E; by destruct b).
    rewrite H1, H2. cbn [orb]. by rewrite L, D, V. }
  destruct z as [|p|p]; [apply P; lia|apply P; lia|]. destruct (P (Z.pos p)) as (_ & D & L & V); [lia|].
  change (dec (Z.neg p)) with (Byte.x2d :: dec (Z.pos p)). unfold SetString10. change (HasPrefix (Byte.x2d :: dec (Z.pos p)) (bs "-")) with true.
  cbn [orb]. change (drop 1 (Byte.x2d :: dec (Z.pos p))) with (dec (Z.pos p)). by rewrite D, L, V.
Qed.

Lemma dec_injective a b : dec a = dec b -> a = b.
Proof. intros H. apply (f_equal SetString10) in H. rewrite !SetString10_dec in H. by injection H. Qed.

Definition compose_all (ops : list (option Z * option Z)) (sc : SubstrateChain) : SubstrateChain :=
  fold_left (fun sc p => COMPOSE sc p.1 p.2) ops sc.

(** How often [b] is entangled with [a]. *)
Definition entangled (sc : SubstrateChain) (a b : Z) : nat := length (List.filter (fun o => bool_decide (o = Some b)) (GetEntanglements sc (Some a))).

Definition occurrences (k v : bytes) (m : gmap bytes (list bytes)) : nat := length (List.filter (fun e => bool_decide (e = v)) (default [] (m !! k))).

Lemma occurrences_append k v k' v' m :
  occurrences k' v' (append_key k v m) = (occurrences k' v' m + if bool_decide (k' = k) && bool_decide (v' = v) then 1 else 0)%nat.
Proof.
  unfold occurrences, append_key. destruct (decide (k' = k)) as [->|Hn].
  - rewrite lookup_insert_eq. cbn [default id]. rewrite List.filter_app, length_app. f_equal. rewrite bool_decide_true by done. cbn [andb List.filter].
    rewrite (bool_decide_ext (v = v') (v' = v)) by done. by case_match.
  - rewrite lookup_insert_ne by done. rewrite (bool_decide_false (k' = k)) by done. cbn [andb]. lia.
Qed.

Lemma compose_occurrences ops sc a b : occurrences (dec a) (dec b) (Entanglements (sc_State sc)) = occurrences (dec b) (dec a) (Entanglements (sc_State sc)) ->
  let m := Entanglements (sc_State (compose_all ops sc)) in occurrences (dec a) (dec b) m = occurrences (dec b) (dec a) m.
Proof.
  revert sc. induction ops as [|[ox oy] ops IH]; intros sc H; [done|]. cbn [compose_all fold_left] in *. destruct ox as [x|], oy as [y|]; try by apply IH.
  apply IH. cbn. rewrite !occurrences_append, H.
  destruct (bool_decide (dec a = dec x)) eqn:E1, (bool_decide (dec b = dec y)) eqn:E2, (bool_decide (dec a = dec y)) eqn:E3, (bool_decide (dec b = dec x)) eqn:E4; cbn; lia.
Qed.

(** Every entry of the lists is a printed number. *)
Lemma compose_entries ops sc : (forall k e, e ∈ default [] (Entanglements (sc_State sc) !! k) -> exists z, e = dec z) ->
  forall k e, e ∈ default [] (Entanglements (sc_State (compose_all ops sc)) !! k) -> exists z, e = dec z.
Proof.
  assert (A : forall k v m, (forall k e, e ∈ default [] (m !! k) -> exists z, e = dec z) -> (exists z, v = dec z) ->
    forall k' e, e ∈ default [] (append_key k v m !! k') -> exists z, e = dec z).
  { intros k v m Hm Hv k' e. unfold append_key. destruct (decide (k' = k)) as [->|Hn]; [|rewrite lookup_insert_ne by done; apply Hm].
    rewrite lookup_insert_eq. cbn [default id]. rewrite elem_of_app, list_elem_of_singleton. intros [He| ->]; [by eapply Hm|done]. }
  revert sc. induction ops as [|[ox oy] ops IH]; intros sc H; [done|]. cbn [compose_all fold_left] in *. destruct ox as [x|], oy as [y|]; try by apply IH.
  apply IH. apply A; [apply A; [done|by eexists]|by eexists].
Qed.

Lemma entangled_occurrences sc a b : (forall k e, e ∈ default [] (Entanglements (sc_State sc) !! k) -> exists z, e = dec z) ->
  entangled sc a b = occurrences (dec a) (dec b) (Entanglements (sc_State sc)).
Proof.
  intros H. unfold entangled, occurrences, GetEntanglements. specialize (H (dec a)). induction (default [] (Entanglements (sc_State sc) !! dec a)) as [|e l IH]; [done|].
  cbn [map List.filter]. destruct (H e) as [z ->]; [by left|]. rewrite SetString10_dec.
  rewrite (bool_decide_ext (Some z = Some b) (dec z = dec b)) by (split; [congruence|intros E; apply dec_injective in E; congruence]).
  case_match; cbn [length]; rewrite IH; try done; intros; apply H; by right.
Qed.

(** Entanglement is symmetric: after any compositions on a new chain, with nil coordinates or
    not, each coordinate lists another as often as it is listed by it. *)
Theorem entanglement_symmetric c ops a b : let sc := compose_all ops (NewSubstrateChain c) in entangled sc a b = entangled sc b a.
Proof.
  intros sc. assert (E : forall k e, e ∈ default [] (Entanglements (sc_State sc) !! k) -> exists z, e = dec z).
  { apply compose_entries. intros k e. cbn. rewrite lookup_empty. cbn. intros He. by apply elem_of_nil in He. }
  rewrite !entangled_occurrences by done. apply compose_occurrences. done.
Qed.

(** ** The walk payload *)

(** A number in its field. *)
Definition rho_field (z : Z) : bytes := zeros (32 - length (bigint_bytes z)) ++ bigint_bytes z.

Lemma rho_field_spec z : 0 <= z < 2 ^ 256 -> (length (bigint_bytes z) <= 32)%nat /\ length (rho_field z) = 32%nat /\ be_int (rho_field z) = z.
Proof.
  intros Hz. assert (L : (length (bigint_bytes z) <= 32)%nat) by (apply length_bigint_bytes; change (256 ^ Z.of_nat 32) with (2 ^ 256); lia).
  split; [done|]. unfold rho_field, zeros. split; [rewrite length_app, length_replicate; lia|]. rewrite be_int_zeros, be_int_bigint_bytes. lia.
Qed.

Lemma overwrite_field p q z : 0 <= z < 2 ^ 256 -> overwrite (p ++ zeros 32 ++ q) (length p + 32) z = Done (p ++ rho_field z ++ q).
Proof.
  intros Hz. destruct (rho_field_spec z Hz) as [L _]. unfold overwrite. rewrite (proj2 (Nat.leb_le _ _)) by lia. f_equal.
  replace (length p + 32 - length (bigint_bytes z))%nat with (length p + (32 - length (bigint_bytes z)))%nat by lia.
  rewrite take_app_add, drop_app_add. unfold rho_field, zeros.
  rewrite take_app_le by (rewrite length_replicate; lia). rewrite take_replicate. replace (_ `min` 32)%nat with (32 - length (bigint_bytes z))%nat by lia.
  rewrite drop_app_length' by (by rewrite length_replicate). by rewrite <- !app_assoc.
Qed.

Lemma rho_payload n x w : 0 <= n < 2 ^ 256 -> 0 <= x < 2 ^ 256 ->
  EncodeKeccakRhoPayload n x w = Done ([Byte.x5a; Byte.x45; Byte.x01; MsgTypeKeccakRho] ++ be_bytes 4 w ++ rho_field n ++ rho_field x).
Proof.
  intros Hn Hx. unfold EncodeKeccakRhoPayload. set (h := [Byte.x5a; Byte.x45; Byte.x01; MsgTypeKeccakRho]).
  pose proof (overwrite_field (h ++ be_bytes 4 w) (zeros 32) n Hn) as E1. rewrite length_app, length_be_bytes in E1. change (length h + 4 + 32)%nat with 40%nat in E1.
  change (zeros 64) with (zeros 32 ++ zeros 32). rewrite !app_assoc in *. rewrite <- !(app_assoc (h ++ be_bytes 4 w)) in *. rewrite E1. cbn [outcome_bind].
  pose proof (overwrite_field ((h ++ be_bytes 4 w) ++ rho_field n) [] x Hx) as E2. destruct (rho_field_spec n Hn) as (_ & Ln & _).
  rewrite !length_app, length_be_bytes, Ln, !app_nil_r in E2. change (length h + 4 + 32 + 32)%nat with 72%nat in E2. rewrite <- !app_assoc in *. exact E2.
Qed.

(** The payload of a Keccak walk reads back: numbers below 2^256 and a 32-bit walk id are encoded
    without panic in 72 bytes from which decoding returns them. *)
Theorem rho_roundtrip n x w :
  0 <= n < 2 ^ 256 -> 0 <= x < 2 ^ 256 -> 0 <= w < 2 ^ 32 ->
  exists p, EncodeKeccakRhoPayload n x w = Done p /\ length p = 72%nat /\ DecodeKeccakRhoPayload p = Some (w, n, x).
Proof.
  intros Hn Hx Hw. eexists. split; [by apply rho_payload|]. destruct (rho_field_spec n Hn) as (_ & Ln & Vn), (rho_field_spec x Hx) as (_ & Lx & Vx).
  assert (L : length ([Byte.x5a; Byte.x45; Byte.x01; MsgTypeKeccakRho] ++ be_bytes 4 w ++ rho_field n ++ rho_field x) = 72%nat)
    by (rewrite !length_app, length_be_bytes, Ln, Lx; done).
  split; [done|]. unfold DecodeKeccakRhoPayload. rewrite L. cbn [Nat.ltb Nat.leb app nth andb]. rewrite !bool_decide_true by done. cbn [andb].
  assert (D : forall (a b : bytes) k, length a = k -> drop (4 + k) (Byte.x5a :: Byte.x45 :: Byte.x01 :: MsgTypeKeccakRho :: a ++ b) = b)
    by (intros a b k <-; cbn; by rewrite drop_app_length).
  f_equal. apply pair_equal_spec. split; [apply pair_equal_spec; split|].
  - cbn [skipn]. rewrite drop_0, take_app_length' by (by rewrite length_be_bytes). rewrite be_int_be_bytes. apply Z.mod_small. exact Hw.
  - rewrite (D (be_bytes 4 w) _ 4%nat) by apply length_be_bytes. by rewrite take_app_length' by done.
  - rewrite app_assoc, (D _ _ 36%nat) by (by rewrite length_app, length_be_bytes, Ln). by rewrite take_ge by lia.
Qed.

Lemma rho_roundtrip_witness : exists p, EncodeKeccakRhoPayload 8051 2 7 = Done p /\ length p = 72%nat /\ DecodeKeccakRhoPayload p = Some (7, 8051, 2).
Proof. apply (rho_roundtrip 8051 2 7); lia. Defined.

(** A point of 33 bytes is written over the end of the modulus, and longer ones over the header. *)
Lemma rho_overwrites : exists p, EncodeKeccakRhoPayload 8051 (2 ^ 256) 7 = Done p /\ DecodeKeccakRhoPayload p = Some (7, 7937, 0).
Proof. eexists. split; vm_compute; reflexivity. Qed.
