(* ===== verification/Contracts.v ===== *)
(** * Waves, gates and contracts ([quantum/state.go], [quantum/gates.go], [quantum/contracts.go])

    The wave is one global amplitude and phase; gates transform it, hashes from the
    network perturb it, and contracts are small programs on integers that are deployed under
    an identifier and executed.

    Contents: the wave with its operations, the gates, the registry of contracts, the
    interpreter, and minting of blocks.  The clock and [math.Sin] are arguments.  A shift by a
    negative amount is one by more than 2^63 bits, for which the runtime cannot make the slice.

    The theorems: executing what was deployed runs that contract, whatever else has been
    deployed, up to the wrap-around of the counter ([deployed_contract_runs]); affine rounds
    with an even number lose no information and those with an odd number do
    ([affine_even_injective], [affine_odd_collides]); the interpreter returns for every contract with
    a shift that is not negative ([contract_returns]) and panics for a negative one
    ([negative_shift_panics]); the gates are their own inverses ([gates_involutive]). *)

From Stdlib Require Import String SpecFloat.
From Stdlib Require Znumtheory Zpow_facts.
From S2P Require Import Prelude Json Signing Sha256 Float64 Paths Update Bits Substrate Pong.

(** ** The wave *)

Record QuantumState := mkWave { Amplitude : float64; wave_Phase : float64; PushTime : Z }.

(** The package state: the wave, the frequencies of the chains, the statistics. *)
Record World := mkWorld { WaveOrigin : QuantumState; ChainFrequency : gmap bytes float64; perturbCount : Z; lastPerturbTime : Z }.

Definition set_wave (w : QuantumState) (s : World) : World := mkWorld w (ChainFrequency s) (perturbCount s) (lastPerturbTime s).

Definition InitWaveOrigin (amplitude phase : float64) (now : Z) (s : World) : World := set_wave (mkWave amplitude phase now) s.
Definition InitChainFrequency (s : World) : World := mkWorld (WaveOrigin s) ∅ (perturbCount s) (lastPerturbTime s).
Definition SetChainFrequency (chainID : bytes) (freq : float64) (s : World) : World :=
  mkWorld (WaveOrigin s) (<[chainID := freq]> (ChainFrequency s)) (perturbCount s) (lastPerturbTime s).
Definition GetChainFrequency (chainID : bytes) (s : World) : float64 := default f0 (ChainFrequency s !! chainID).

(** [math.Pi], and the seconds of a duration: whole seconds and the fraction apart. *)
Definition f_pi : float64 := f_ratio 884279719003555 (2 ^ 48).
Definition seconds (d : Z) : float64 := fadd (f_of_Z (Z.quot d (10 ^ 9))) (fdiv (f_of_Z (Z.rem d (10 ^ 9))) (f_of_Z (10 ^ 9))).

Definition ReadState (Sin : float64 -> float64) (chainID : bytes) (now : Z) (s : World) : QuantumState :=
  let origin := WaveOrigin s in
  let cycle := Sin (fmul (fmul (fmul (seconds (now - PushTime origin)) (GetChainFrequency chainID s)) (f_of_Z 2)) f_pi) in
  mkWave (fmul (Amplitude origin) (fadd f1 (fmul half cycle))) (fadd (wave_Phase origin) cycle) (PushTime origin).

Definition UpdateWaveOrigin (w : QuantumState) (s : World) : World := set_wave w s.

(** The step that one byte of the hash chooses, with its direction. *)
Definition perturb_step (b : byte) : float64 :=
  let step := fadd (f_ratio 2 100) (fmul (fdiv (f_of_Z (Z.land (byteZ b) 127)) (f_of_Z 127)) (f_ratio 13 100)) in
  fmul (if Z.land (byteZ b) 128 =? 0 then f1 else f_of_Z (Z.opp 1)) step.

Definition perturb_amplitude (a : float64) : float64 :=
  let a := if fltb f1 a then fsub (f_of_Z 2) a else a in
  if fltb a f0 then SFopp a else a.

Definition perturb_phase (p : float64) : float64 :=
  let p := if fltb f1 p then fsub (f_of_Z 2) p else p in
  if fltb p (f_of_Z (Z.opp 1)) then fsub (f_of_Z (Z.opp 2)) p else p.

Definition PerturbWaveFromHash (hash : bytes) (now : Z) (s : World) : World :=
  if (length hash <? 8)%nat then s else
  let w := WaveOrigin s in
  let newAmp := perturb_amplitude (fadd (Amplitude w) (perturb_step (nth 0 hash Byte.x00))) in
  let newPhase := perturb_phase (fadd (wave_Phase w) (perturb_step (nth 4 hash Byte.x00))) in
  mkWorld (mkWave newAmp newPhase now) (ChainFrequency s) (u64 (perturbCount s + 1)) (Z.quot now (10 ^ 9)).

(** ** Gates *)

Definition sqrt2 : float64 := SFsqrt fprec femax (f_of_Z 2).

Definition gate_Hadamard (now : Z) (s : QuantumState) : QuantumState :=
  mkWave (SFabs (fdiv (fadd (Amplitude s) (wave_Phase s)) sqrt2)) (fdiv (fsub (Amplitude s) (wave_Phase s)) sqrt2) now.

Definition gate_PauliX (now : Z) (s : QuantumState) : QuantumState := mkWave (wave_Phase s) (Amplitude s) now.

Definition gate_PauliZ (now : Z) (s : QuantumState) : QuantumState := mkWave (Amplitude s) (SFopp (wave_Phase s)) now.

Definition CNOT (now : Z) (control target : QuantumState) : QuantumState :=
  if fltb half (Amplitude control) then gate_PauliX now target else target.

Definition gate_Apply (g : Gate) (pressure now : Z) (s : World) : World * bool :=
  if pressure <? Z.quot (Restriction g) 32 then (s, false)
  else if String.eqb (gate_Type g) "hadamard" then (set_wave (gate_Hadamard now (WaveOrigin s)) s, true)
  else if String.eqb (gate_Type g) "paulix" then (set_wave (gate_PauliX now (WaveOrigin s)) s, true)
  else if String.eqb (gate_Type g) "pauliz" then (set_wave (gate_PauliZ now (WaveOrigin s)) s, true)
  else (s, false).

(** ** Contracts *)

Record QuantumContract := {
  Contexts : list bytes; InitState : bytes; Transform : string; Branch : string; qc_T : Z; qc_K : Z; qc_Phase : string;
}.
Record ExecutionResult := { er_Result : Z; er_Pressure : PressureMetrics }.
Record ContractRegistry := { contracts : gmap bytes QuantumContract; counter : Z }.

Definition emptyRegistry : ContractRegistry := {| contracts := ∅; counter := 0 |}.

Definition contract_id (n : Z) : bytes := bs "contract_" ++ dec n.

Definition DeployContract (r : ContractRegistry) (c : QuantumContract) : ContractRegistry * bytes :=
  let n := u64 (counter r + 1) in
  ({| contracts := <[contract_id n := c]> (contracts r); counter := n |}, contract_id n).

(** [strconv.Atoi]. *)
Definition Atoi (s : bytes) : option Z :=
  match SetString10 s with
  | Some z => if (- 2 ^ 63 <=? z) && (z <? 2 ^ 63) then Some z else None
  | None => None
  end.

(** [strings.SplitN(ctx, ":", 2)] when it has two parts. *)
Fixpoint split_colon (s : bytes) : option (bytes * bytes) :=
  match s with
  | [] => None
  | b :: t => if bool_decide (b = Byte.x3a) then Some ([], t)
              else match split_colon t with Some (op, v) => Some (b :: op, v) | None => None end
  end.

Definition applyContext (state : Z) (ctx : bytes) : Z :=
  match split_colon ctx with
  | None => state
  | Some (op, v) =>
      if bytes_eqb op (bs "mul") then match Atoi v with Some n => state * n | None => state end
      else if bytes_eqb op (bs "add") then match Atoi v with Some n => state + n | None => state end
      else if bytes_eqb op (bs "sub") then match Atoi v with Some n => state - n | None => state end
      else if bytes_eqb op (bs "scale") then match Atoi v with Some n => state * n / 100 | None => state end
      else if bytes_eqb op (bs "dom") then Z.lxor state (be_int (take 8 (sha256 v)))
      else state
  end.

(** [x.Lsh(x, uint(k))]. *)
Definition big_Lsh (x k : Z) : outcome Z :=
  if x =? 0 then Done 0 else if k <? 0 then Panic "makeslice: len out of range" else Done (Z.shiftl x k).

Definition affine_a (round : Z) : Z := i64 (6364136223846793005 + round * 17).
Definition affine_b (round : Z) : Z := i64 (1442695040888963407 + round * 31).

Definition affineTransform (state k round : Z) : outcome Z :=
  let! m := big_Lsh 1 k in
  Done ((state * affine_a round + affine_b round) mod m).

Definition contract_round (c : QuantumContract) (state i : Z) : outcome Z :=
  let! state :=
    if String.eqb (Transform c) "affine" then affineTransform state (qc_K c) i
    else if String.eqb (Transform c) "compose" then
      let! shifted := big_Lsh state (Z.rem (qc_K c) 64) in Done (Z.lxor state shifted)
    else Done (FeistelHash (Some state)) in
  Done (if String.eqb (qc_Phase c) "alt" && (Z.rem i 2 =? 1) then Z.abs (- state) else state).

Fixpoint contract_loop (c : QuantumContract) (n : nat) (i state : Z) : outcome Z :=
  match n with
  | O => Done state
  | S n => let! state := contract_round c state i in contract_loop c n (i + 1) state
  end.

Definition computePressure (now : Z) (origin : QuantumState) : PressureMetrics :=
  {| Hadamard := Amplitude (gate_Hadamard now origin); PauliX := Amplitude (gate_PauliX now origin);
     PauliZ := wave_Phase (gate_PauliZ now origin); Phase := wave_Phase origin |}.

Definition init_value (c : QuantumContract) : Z := default 0 (SetString10 (InitState c)).

Definition executeContract (c : QuantumContract) (now : Z) (w : World) : outcome ExecutionResult :=
  let state := fold_left applyContext (Contexts c) (init_value c) in
  let! state := contract_loop c (Z.to_nat (qc_T c)) 0 state in
  Done {| er_Result := state; er_Pressure := computePressure now (WaveOrigin w) |}.

Definition ExecuteContract (r : ContractRegistry) (contractID : bytes) (now : Z) (w : World) : outcome (result ExecutionResult) :=
  match contracts r !! contractID with
  | None => Done (Err "contract not found")
  | Some c => let! x := executeContract c now w in Done (Ok x)
  end.

(** ** Minting *)

(** [EncodeBlock] of a byte slice: its JSON is the quoted base64 form. *)
Definition EncodeBlock (data : bytes) (amplitude phase : float64) (synsetIndex : Z) : Block :=
  mkBlock {| bh_Amplitude := amplitude; bh_Phase := phase; SynsetIndex := synsetIndex |} ([Byte.x22] ++ base64 data ++ [Byte.x22]) [].

Definition Mint (Sin : float64 -> float64) (data : bytes) (now : Z) (w : World) (sc : SubstrateChain) : SubstrateChain :=
  let state := ReadState Sin (chain_ID (sc_Chain sc)) now w in
  mkSC (AppendBlock (EncodeBlock data (Amplitude state) (wave_Phase state) (Z.of_nat (length (chain_Blocks (sc_Chain sc))))) (sc_Chain sc)) (sc_State sc).

Definition MintEvent (Sin : float64 -> float64) (eventType details : bytes) (now : Z) (w : World) (sc : SubstrateChain) : SubstrateChain :=
  Mint Sin (eventType ++ bs ":" ++ details) now w sc.

(** ** Gates *)

Lemma SFopp_involutive x : SFopp (SFopp x) = x.
Proof. by destruct x as [[]|[]| |[]]. Qed.

(** The Pauli gates, and the controlled one with a fixed control, undo themselves up to the time stamp. *)
Lemma gates_involutive t t' c s :
  gate_PauliX t' (gate_PauliX t s) = mkWave (Amplitude s) (wave_Phase s) t' /\
  gate_PauliZ t' (gate_PauliZ t s) = mkWave (Amplitude s) (wave_Phase s) t' /\
  (exists t'', CNOT t' c (CNOT t c s) = mkWave (Amplitude s) (wave_Phase s) t'').
Proof.
  split; [done|]. split; [unfold gate_PauliZ; cbn; by rewrite SFopp_involutive|].
  unfold CNOT. destruct (fltb half (Amplitude c)); [by exists t'|exists (PushTime s); by destruct s].
Qed.

(** ** The registry *)

Definition deploy_all (cs : list QuantumContract) (r : ContractRegistry) : ContractRegistry := fold_left (fun r c => (DeployContract r c).1) cs r.

Lemma contract_id_inj a b : contract_id a = contract_id b -> a = b.
Proof. unfold contract_id. intros H. apply app_inv_head in H. by apply dec_injective. Qed.

Lemma deploy_all_spec cs : Z.of_nat (length cs) < 2 ^ 64 ->
  counter (deploy_all cs emptyRegistry) = Z.of_nat (length cs) /\
  forall i, 0 <= i -> contracts (deploy_all cs emptyRegistry) !! contract_id (i + 1) = cs !! Z.to_nat i.
Proof.
  induction cs as [|c cs IH] using rev_ind; intros Hn; [by split|]. rewrite length_app in Hn. cbn in Hn.
  destruct IH as [Hc Hl]; [lia|]. unfold deploy_all in *. rewrite fold_left_app. cbn [fold_left].
  revert Hc Hl. generalize (fold_left (fun r c => (DeployContract r c).1) cs emptyRegistry). intros r Hc Hl. unfold DeployContract. cbn [fst counter contracts]. rewrite Hc, u64_id by (unfold in_u64; lia). split; [rewrite length_app; cbn; lia|]. intros i Hi.
  destruct (decide (i = Z.of_nat (length cs))) as [->|Hd].
  - by rewrite lookup_insert_eq, Nat2Z.id, lookup_app_r, Nat.sub_diag by lia.
  - rewrite lookup_insert_ne by (intros E; apply contract_id_inj in E; lia). rewrite Hl by done.
    destruct (decide (i < Z.of_nat (length cs))); [by rewrite lookup_app_l by lia|].
    rewrite !lookup_ge_None_2; [done|rewrite length_app; cbn; lia|lia].
Qed.

(** Deployment is stable: of fewer than 2^64 contracts deployed, the identifier the [i]-th
    deployment returned executes the [i]-th contract, whatever was deployed before and after it. *)
Theorem deployed_contract_runs before c after now w :
  Z.of_nat (length (before ++ c :: after)) < 2 ^ 64 ->
  let id := (DeployContract (deploy_all before emptyRegistry) c).2 in
  ExecuteContract (deploy_all (before ++ c :: after) emptyRegistry) id now w = let! x := executeContract c now w in Done (Ok x).
Proof.
  intros Hn id. destruct (deploy_all_spec _ Hn) as [_ Hl]. rewrite length_app in Hn. cbn in Hn.
  destruct (deploy_all_spec before ltac:(lia)) as [Hc _]. unfold id, DeployContract. cbn [snd]. rewrite Hc, u64_id by (unfold in_u64; lia).
  unfold ExecuteContract. rewrite Hl by lia. by rewrite Nat2Z.id, list_lookup_middle.
Qed.

Definition ex_contract : QuantumContract :=
  {| Contexts := [bs "mul:3"; bs "add:4"]; InitState := bs "5"; Transform := "affine"; Branch := ""; qc_T := 1; qc_K := 8; qc_Phase := "" |}.
Definition ex_world : World := mkWorld (mkWave f1 half 0) ∅ 0 0.

Lemma deployed_contract_runs_witness :
  ExecuteContract (deploy_all [ex_contract; ex_contract] emptyRegistry) (bs "contract_1") 0 ex_world =
  Done (Ok {| er_Result := 166; er_Pressure := computePressure 0 (WaveOrigin ex_world) |}).
Proof. refine (eq_trans (deployed_contract_runs [] ex_contract [ex_contract] 0 ex_world _) _); vm_compute; reflexivity. Defined.

(** ** Affine rounds *)

Lemma even_mod_pow n z : 0 < n -> Z.even (z mod 2 ^ n) = Z.even z.
Proof.
  intros Hn. rewrite (Z.div_mod z (2 ^ n)) at 2 by lia. rewrite Z.even_add, Z.even_mul, Z.even_pow by lia. cbn [Z.even]. by destruct (Z.even (z mod 2 ^ n)).
Qed.

Lemma affine_a_even round : Z.even (affine_a round) = negb (Z.even round).
Proof.
  unfold affine_a, i64. rewrite Z.even_sub, even_mod_pow by lia. rewrite !Z.even_add, Z.even_mul. cbn. by destruct (Z.even round).
Qed.

Lemma affine_eq x k round : 0 <= k -> affineTransform x k round = Done ((x * affine_a round + affine_b round) mod 2 ^ k).
Proof. intros Hk. unfold affineTransform, big_Lsh. cbn. rewrite (proj2 (Z.ltb_ge _ _)) by lia. cbn. by rewrite Z.shiftl_1_l. Qed.

Lemma odd_cancel a k d : Z.even a = false -> 0 <= k -> (2 ^ k | a * d) -> (2 ^ k | d).
Proof.
  intros Ha Hk H. apply (Znumtheory.Gauss (2 ^ k) a d); [done|]. 
  apply Znumtheory.rel_prime_sym. apply Zpow_facts.rel_prime_Zpower_r; [done|]. apply Znumtheory.rel_prime_sym.
  apply Znumtheory.prime_rel_prime; [apply Znumtheory.prime_2|]. intros [q E]. rewrite E, Z.mul_comm, Z.even_mul in Ha. done.
Qed.

(** An affine round permutes the [k]-bit values exactly when its number is even; the
    multiplier of an odd round is even, and half of the values are lost. *)
Theorem affine_injective_iff k round :
  1 <= k ->
  (forall x y, 0 <= x < 2 ^ k -> 0 <= y < 2 ^ k -> affineTransform x k round = affineTransform y k round -> x = y) <-> Z.even round = true.
Proof.
  intros Hk. split.
  - intros H. destruct (Z.even round) eqn:E; [done|]. exfalso.
    assert (P : 2 ^ k = 2 * 2 ^ (k - 1)) by (rewrite <- Z.pow_succ_r by lia; f_equal; lia).
    assert (Q : 0 < 2 ^ (k - 1)) by (apply Z.pow_pos_nonneg; lia).
    assert (0 = 2 ^ (k - 1)) as C; [|lia]. apply H; [lia|lia|]. rewrite !affine_eq by lia. f_equal.
    pose proof (affine_a_even round) as A. rewrite E in A. apply Z.even_spec in A as [q Eq]. rewrite Eq.
    replace (2 ^ (k - 1) * (2 * q) + affine_b round) with (0 * (2 * q) + affine_b round + q * 2 ^ k) by lia. by rewrite Z_mod_plus_full.
  - intros E x y Hx Hy. rewrite !affine_eq by lia. intros H. injection H as H.
    assert (A : Z.even (affine_a round) = false) by (by rewrite affine_a_even, E).
    assert (P : 0 < 2 ^ k) by (apply Z.pow_pos_nonneg; lia).
    assert (D : (2 ^ k | affine_a round * (x - y))).
    { apply Z.mod_divide; [intros Z0; rewrite Z0 in P; by apply Z.lt_irrefl in P|]. replace (affine_a round * (x - y)) with ((x * affine_a round + affine_b round) - (y * affine_a round + affine_b round)) by lia.
      rewrite Zminus_mod, H, Z.sub_diag. apply Zmod_0_l. }
    apply odd_cancel in D as [q Eq]; [|done|lia]. revert P Hx Hy Eq. generalize (2 ^ k). intros. assert (q = 0) by nia. lia.
Qed.

Lemma affine_injective_iff_witness : Z.even 2 = true /\ (forall x y, 0 <= x < 2 ^ 8 -> 0 <= y < 2 ^ 8 -> affineTransform x 8 2 = affineTransform y 8 2 -> x = y).
Proof. split; [done|]. apply (affine_injective_iff 8 2); [lia|done]. Defined.

(** ** Execution *)

Lemma contract_round_total c state i : 0 <= qc_K c -> exists s, contract_round c state i = Done s.
Proof.
  intros Hk. unfold contract_round. destruct (String.eqb (Transform c) "affine"); [rewrite affine_eq by done; by eexists|].
  destruct (String.eqb (Transform c) "compose"); [|by eexists]. unfold big_Lsh. destruct (state =? 0); [by eexists|].
  rewrite (proj2 (Z.ltb_ge _ _)) by (apply Z.rem_nonneg; lia). by eexists.
Qed.

Lemma contract_loop_total c n i state : 0 <= qc_K c -> exists s, contract_loop c n i state = Done s /\
  (String.eqb (Transform c) "affine" = true -> (0 < n)%nat -> 0 <= s < 2 ^ qc_K c).
Proof.
  intros Hk. revert i state. induction n as [|n IH]; intros i state; [exists state; by split; [|lia]|]. cbn [contract_loop].
  destruct (contract_round_total c state i Hk) as [s Es]. rewrite Es. cbn [outcome_bind]. destruct (IH (i + 1) s) as (s' & E & Hb).
  exists s'. split; [done|]. intros Ha _. destruct n as [|n]; [|apply Hb; [done|lia]]. cbn in E. injection E as <-.
  unfold contract_round in Es. rewrite Ha, affine_eq in Es by done. cbn [outcome_bind] in Es. injection Es as <-.
  pose proof (Z.mod_pos_bound (state * affine_a i + affine_b i) (2 ^ qc_K c) ltac:(apply Z.pow_pos_nonneg; lia)). case_match; lia.
Qed.

(** A contract whose shift is not negative always returns, whatever its contexts, transform
    and number of rounds, and at least one affine round leaves a value of [K] bits. *)
Theorem contract_returns c now w :
  0 <= qc_K c ->
  exists r, executeContract c now w = Done r /\
    (String.eqb (Transform c) "affine" = true -> 0 < qc_T c -> 0 <= er_Result r < 2 ^ qc_K c).
Proof.
  intros Hk. unfold executeContract. destruct (contract_loop_total c (Z.to_nat (qc_T c)) 0 (fold_left applyContext (Contexts c) (init_value c)) Hk) as (s & -> & Hb).
  cbn [outcome_bind]. eexists. split; [done|]. cbn [er_Result]. intros Ha Ht. apply Hb; [done|lia].
Qed.

Lemma contract_returns_witness : exists r, executeContract ex_contract 0 ex_world = Done r /\
  (String.eqb (Transform ex_contract) "affine" = true -> 0 < qc_T ex_contract -> 0 <= er_Result r < 2 ^ qc_K ex_contract).
Proof. apply (contract_returns ex_contract 0 ex_world). cbn. lia. Defined.

(** A negative one makes the first affine round panic. *)
Lemma negative_shift_panics c now w :
  qc_K c < 0 -> 0 < qc_T c -> Transform c = "affine"%string -> executeContract c now w = Panic "makeslice: len out of range".
Proof.
  intros Hk Ht Ha. unfold executeContract. destruct (Z.to_nat (qc_T c)) as [|n] eqn:E; [lia|]. cbn [contract_loop]. unfold contract_round.
  rewrite Ha. cbn [String.eqb]. unfold affineTransform, big_Lsh. cbn. by rewrite (proj2 (Z.ltb_lt _ _)).
Qed.

(** ** Minting *)

(** A block carries its position, and its body determines what was minted. *)
Lemma mint_appends Sin data now w sc :
  exists b, chain_Blocks (sc_Chain (Mint Sin data now w sc)) = chain_Blocks (sc_Chain sc) ++ [b] /\
    SynsetIndex (bl_Header b) = Z.of_nat (length (chain_Blocks (sc_Chain sc))) /\
    GetBlock (SynsetIndex (bl_Header b)) (sc_Chain (Mint Sin data now w sc)) = Some b /\
    forall data' a p i, bl_Body (EncodeBlock data' a p i) = bl_Body b -> data' = data.
Proof.
  eexists. split; [done|]. split; [done|]. split.
  - cbn [bl_Header EncodeBlock SynsetIndex]. unfold GetBlock. cbn [Mint sc_Chain AppendBlock chain_Blocks]. rewrite length_app. cbn [length].
    rewrite (proj2 (Z.ltb_ge _ _)), (proj2 (Z.leb_gt _ _)) by lia. cbn [orb]. by rewrite Nat2Z.id, list_lookup_middle.
  - intros data' a p i H. cbn in H. injection H as H. apply app_inv_tail in H. by apply base64_inj.
Qed.
