(* ===== verification/Collapse.v ===== *)
(** * Collapse ([quantum/collapse.go])

    Queries are encoded as the data of a transaction; its hash collapses to eight
    categories, which a query may narrow to the ones it asks for.

    Contents: the encoding, the cache of results, the interpretation of a query, chains of
    results, and the codecs.  Results are shared objects: the cache, the callers and the
    chains hold pointers to them, so they live in a store under their transaction hash, and
    a pointer is that hash.  A mutex that is taken while it is held blocks for ever, which is
    [NoFuel] here.  [math.Log2] and the iteration order of the frequency map are arguments.

    The theorems: the encoding is injective up to collisions of SHA-256
    ([encode_input_injective]); an interpretation changes the cached result, so a second
    query about the same hash sees the categories of the first ([interpretations_interfere]),
    while queries without a target agree ([untargeted_agree]); the result of a non-empty chain
    never returns ([final_result_blocks]); the codecs invert each other ([codecs_roundtrip]). *)

From Stdlib Require Import String SpecFloat.
From S2P Require Import Prelude Json Signing Sha256 Float64 Paths Update Bits Substrate Contracts PongNet.

Record CollapseResult := mkResult {
  cr_Input : bytes; cr_TxHash : bytes; Semantics : list string; cr_Confidence : float64; Resonance : gmap string float64;
}.

Record CollapseCompute := {
  cc_chainID : Z; nonceOffset : Z; nonceBase : Z; cc_sender : bytes; results : gmap bytes CollapseResult; has_feed : bool;
}.

Definition NewCollapseCompute (chainID : Z) (sender : bytes) : CollapseCompute :=
  {| cc_chainID := chainID; nonceOffset := 100000; nonceBase := 0; cc_sender := sender; results := ∅; has_feed := false |}.

(** The category of a byte. *)
Definition synsetMap (b : byte) : string :=
  let z := byteZ b in
  if z <? 32 then "noun.object"%string else if z <? 64 then "verb.action"%string else if z <? 96 then "adj.property"%string else if z <? 128 then "noun.relation"%string
   else if z <? 160 then "noun.quantity"%string else if z <? 192 then "noun.state"%string else if z <? 224 then "noun.event"%string else "noun.abstract"%string.

Definition with_results (m : gmap bytes CollapseResult) (cc : CollapseCompute) : CollapseCompute :=
  {| cc_chainID := cc_chainID cc; nonceOffset := nonceOffset cc; nonceBase := nonceBase cc; cc_sender := cc_sender cc; results := m; has_feed := has_feed cc |}.

Definition SetFeed (cc : CollapseCompute) : CollapseCompute :=
  {| cc_chainID := cc_chainID cc; nonceOffset := nonceOffset cc; nonceBase := nonceBase cc; cc_sender := cc_sender cc; results := results cc; has_feed := true |}.

Definition SetNonceBase (n : Z) (cc : CollapseCompute) : CollapseCompute :=
  {| cc_chainID := cc_chainID cc; nonceOffset := nonceOffset cc; nonceBase := n; cc_sender := cc_sender cc; results := results cc; has_feed := has_feed cc |}.

(** The fields of [types.NewTransaction]. *)
Record Transaction := { tx_Nonce : Z; tx_To : bytes; tx_Value : Z; tx_Gas : Z; tx_GasPrice : Z; tx_Data : bytes }.

Definition EncodeInput (cc : CollapseCompute) (input context : bytes) : Transaction :=
  let data := [Byte.x01] ++ sha256 input ++ sha256 context ++ input in
  {| tx_Nonce := u64 (nonceBase cc + nonceOffset cc); tx_To := cc_sender cc; tx_Value := 0;
     tx_Gas := u64 (21000 + Z.of_nat (length data) * 16); tx_GasPrice := 1; tx_Data := data |}.

(** [resonance[category] += float64(b) / 255.0] on a map whose missing values are zero. *)
Definition add_resonance (m : gmap string float64) (b : byte) : gmap string float64 :=
  <[synsetMap b := fadd (default f0 (m !! synsetMap b)) (fdiv (f_of_Z (byteZ b)) (f_of_Z 255))]> m.

Section entropy.
Context (Log2 : float64 -> float64).

Definition count_byte (data : bytes) (b : byte) : Z := Z.of_nat (length (List.filter (fun x => bool_decide (x = b)) data)).

(** [order] lists the keys of the frequency map as the iteration visits them. *)
Definition calculateEntropy (order : list byte) (data : bytes) : float64 :=
  if (length data =? 0)%nat then f0 else
  let n := f_of_Z (Z.of_nat (length data)) in
  let term e b := let p := fdiv (f_of_Z (count_byte data b)) n in fsub e (fmul p (Log2 p)) in
  fdiv (fold_left term order f0) (f_of_Z 8).

(** The pointer that is returned is the hash. *)
Definition CollapseOutput (order : list byte) (txHash originalInput : bytes) (cc : CollapseCompute) : CollapseCompute :=
  match results cc !! txHash with
  | Some _ => cc
  | None =>
      let first := take 8 txHash in
      let r := mkResult originalInput txHash (map synsetMap first) (calculateEntropy order txHash) (fold_left add_resonance first ∅) in
      with_results (<[txHash := r]> (results cc)) cc
  end.

Record CollapseQuery := { Query : bytes; query_Context : bytes; TargetSpace : list string; OutputDims : Z }.

Definition PrepareQuery (text context : bytes) (targets : list string) : CollapseQuery :=
  {| Query := text; query_Context := context; TargetSpace := targets; OutputDims := Z.of_nat (length targets) |}.

Definition filter_semantics (targets sems : list string) : list string := List.filter (fun s => existsb (String.eqb s) targets) sems.

Definition set_semantics (s : list string) (r : CollapseResult) : CollapseResult :=
  mkResult (cr_Input r) (cr_TxHash r) s (cr_Confidence r) (Resonance r).

Definition InterpretCollapse (order : list byte) (txHash : bytes) (q : CollapseQuery) (cc : CollapseCompute) : CollapseCompute :=
  let cc := CollapseOutput order txHash (Query q) cc in
  match results cc !! txHash with
  | None => cc
  | Some r =>
      let filtered := filter_semantics (TargetSpace q) (Semantics r) in
      if negb (length (TargetSpace q) =? 0)%nat && negb (length filtered =? 0)%nat
      then with_results (<[txHash := set_semantics filtered r]> (results cc)) cc else cc
  end.
End entropy.

Definition HashToCoordinate (txHash : bytes) : Z := be_int txHash.

Definition pos_names : list string := ["noun"; "verb"; "adj"; "adv"]%string.
Definition field_names : list string :=
  ["entity"; "act"; "artifact"; "attribute"; "body"; "cognition"; "communication"; "event"; "feeling"; "food"; "group"; "location";
   "motive"; "object"; "person"; "phenomenon"]%string.

Definition region_name (a b : byte) : string :=
  let region := Z.lor (Z.shiftl (byteZ a) 8) (byteZ b) in
  (nth (Z.to_nat (region mod 4)) pos_names "" ++ "." ++ nth (Z.to_nat (region / 4 mod 16)) field_names "")%string.

(** Pairs of bytes, at most eight of them. *)
Fixpoint regions (n : nat) (l : bytes) : list string :=
  match n, l with
  | S n, a :: b :: t => region_name a b :: regions n t
  | _, _ => []
  end.

Definition CoordinateToSemantics (coord : option Z) : list string :=
  match coord with None => [] | Some c => regions 8 (bigint_bytes c) end.

(** ** Chains of results *)

(** [steps] are pointers into the store; [locked] says that the mutex is held. *)
Record CollapseChain := { steps : list bytes; locked : bool }.

Definition NewCollapseChain : CollapseChain := {| steps := []; locked := false |}.

Definition AddStep (h : bytes) (c : CollapseChain) : outcome CollapseChain :=
  if locked c then NoFuel else Done {| steps := steps c ++ [h]; locked := false |}.

Definition step_results (cc : CollapseCompute) (c : CollapseChain) : list CollapseResult := omap (fun h => results cc !! h) (steps c).

Definition GetContext (cc : CollapseCompute) (c : CollapseChain) : outcome bytes :=
  if locked c then NoFuel else Done (concat (map cr_TxHash (step_results cc c))).

Definition add_resonances (m : gmap string float64) (r : CollapseResult) : gmap string float64 :=
  map_fold (fun k v m => <[k := fadd (default f0 (m !! k)) v]> m) m (Resonance r).

Definition FinalResult (cc : CollapseCompute) (c : CollapseChain) : outcome (option CollapseResult) :=
  if locked c then NoFuel else
  let rs := step_results cc c in
  match rs with
  | [] => Done None
  | r0 :: _ =>
      let held := {| steps := steps c; locked := true |} in
      let! context := GetContext cc held in
      Done (Some (mkResult (cr_Input r0) (BytesToHash (sha256 context)) (concat (map Semantics rs))
                    (fdiv (fold_left (fun t r => fadd t (cr_Confidence r)) rs f0) (f_of_Z (Z.of_nat (length rs))))
                    (fold_left add_resonances rs ∅)))
  end.

(** ** Codecs *)

Definition EncodeBigInt (n : option Z) : bytes := match n with None => [Byte.x00] | Some z => bigint_bytes z end.
Definition DecodeBigInt (b : bytes) : Z := be_int b.
Definition BytesToHex (b : bytes) : bytes := hex_encode b.
Definition HexToBytes (s : bytes) : option bytes := hex_decode s.
Definition PackUint64 (n : Z) : bytes := be_bytes 8 n.
Definition UnpackUint64 (b : bytes) : Z := if (length b <? 8)%nat then be_int (zeros (8 - length b) ++ b) else be_int (take 8 b).

(** ** Encoding *)

(** Two inputs and contexts with the same transaction are equal or exhibit a collision of SHA-256;
    the input is always recovered. *)
Lemma encode_input_injective cc i c i' c' :
  EncodeInput cc i c = EncodeInput cc i' c' -> i = i' /\ (c = c' \/ (c <> c' /\ sha256 c = sha256 c')).
Proof.
  intros H. apply (f_equal tx_Data) in H. unfold EncodeInput in H. cbn [tx_Data] in H. apply app_inv_head in H.
  apply app_inj_1 in H as [_ H]; [|by rewrite !length_sha256]. apply app_inj_1 in H as [Hc Hi]; [|by rewrite !length_sha256].
  split; [done|]. destruct (decide (c = c')) as [->|Hn]; [by left|right; by split].
Qed.

(** ** Interpretation *)

Section interpretation.
Context (Log2 : float64 -> float64) (order : list byte).

Lemma output_present txHash input cc : is_Some (results (CollapseOutput Log2 order txHash input cc) !! txHash).
Proof. unfold CollapseOutput. destruct (results cc !! txHash) as [r|] eqn:E; [by exists r|]. cbn. by rewrite lookup_insert_eq. Qed.

Lemma interpret_semantics txHash q cc r :
  results cc !! txHash = Some r ->
  results (InterpretCollapse Log2 order txHash q cc) !! txHash =
    Some (set_semantics (if negb (length (TargetSpace q) =? 0)%nat && negb (length (filter_semantics (TargetSpace q) (Semantics r)) =? 0)%nat
                         then filter_semantics (TargetSpace q) (Semantics r) else Semantics r) r).
Proof.
  intros E. unfold InterpretCollapse, CollapseOutput. rewrite E. cbn zeta. rewrite E. case_match; cbn; [by rewrite lookup_insert_eq|].
  rewrite E. by destruct r.
Qed.

Lemma filter_semantics_incl t s x : x ∈ filter_semantics t s -> x ∈ s /\ x ∈ t.
Proof.
  unfold filter_semantics. rewrite !list_elem_of_In, filter_In. intros [H1 H2]. split; [done|]. apply existsb_exists in H2 as (y & Hy & E).
  apply String.eqb_eq in E. by subst.
Qed.

(** Interpretations of the same transaction interfere: once a query has narrowed the cached
    result, every later query sees categories of the first query only, whatever it asks for;
    when their targets have nothing in common the second returns exactly what the first one left. *)
Theorem interpretations_interfere txHash q q' cc :
  let first := default [] (Semantics <$> results (InterpretCollapse Log2 order txHash q cc) !! txHash) in
  let second := default [] (Semantics <$> results (InterpretCollapse Log2 order txHash q' (InterpretCollapse Log2 order txHash q cc)) !! txHash) in
  (forall s, s ∈ second -> s ∈ first) /\ ((forall s, s ∈ first -> s ∈ TargetSpace q' -> False) -> second = first).
Proof.
  cbn zeta. assert (H : is_Some (results (InterpretCollapse Log2 order txHash q cc) !! txHash)).
  { unfold InterpretCollapse. destruct (output_present txHash (Query q) cc) as [r E]. rewrite E. case_match; cbn; [by rewrite lookup_insert_eq|by rewrite E]. }
  destruct H as [r E]. rewrite (interpret_semantics _ _ _ _ E), E. cbn [fmap option_fmap option_map default id Semantics set_semantics].
  destruct (negb (length (TargetSpace q') =? 0)%nat && negb (length (filter_semantics (TargetSpace q') (Semantics r)) =? 0)%nat) eqn:B; [|done].
  split; [intros s Hs; by apply filter_semantics_incl in Hs as [? _]|]. intros Hd. exfalso. apply andb_true_iff in B as [_ B].
  destruct (filter_semantics (TargetSpace q') (Semantics r)) as [|x l] eqn:F; [done|].
  destruct (filter_semantics_incl (TargetSpace q') (Semantics r) x) as [H1 H2]; [rewrite F; by left|]. by apply (Hd x).
Qed.

(** Queries without a target leave the cache as it is and all see the same result. *)
Lemma untargeted_agree txHash q q' cc :
  TargetSpace q = [] -> TargetSpace q' = [] ->
  InterpretCollapse Log2 order txHash q' (InterpretCollapse Log2 order txHash q cc) = InterpretCollapse Log2 order txHash q cc.
Proof.
  intros H H'. assert (A : forall q cc, TargetSpace q = [] -> InterpretCollapse Log2 order txHash q cc = CollapseOutput Log2 order txHash (Query q) cc).
  { intros p c Hp. unfold InterpretCollapse. rewrite Hp. cbn [length Nat.eqb negb andb]. by case_match. }
  rewrite !A by done. destruct (output_present txHash (Query q) cc) as [r E]. unfold CollapseOutput at 1. by rewrite E.
Qed.
End interpretation.

(** With a hash of action and object bytes: after a question for objects, one for actions is
    answered with objects. *)
Lemma interference_example :
  let cc := NewCollapseCompute 1 zero20 in
  let h := [Byte.x01; Byte.x21; Byte.x02; Byte.x22; Byte.x03; Byte.x23; Byte.x04; Byte.x24] in
  let ask t := InterpretCollapse (fun x => x) [] h (PrepareQuery [] [] [t]) in
  Semantics <$> results (ask "verb.action"%string cc) !! h = Some (replicate 4 "verb.action"%string) /\
  Semantics <$> results (ask "verb.action"%string (ask "noun.object"%string cc)) !! h = Some (replicate 4 "noun.object"%string).
Proof. split; vm_compute; reflexivity. Qed.

(** ** Chains *)

(** [FinalResult] calls [GetContext] with the mutex held, so on a chain with at least one result
    it never returns, and an empty chain has no result. *)
Lemma final_result_blocks cc c : locked c = false ->
  (step_results cc c = [] -> FinalResult cc c = Done None) /\ (step_results cc c <> [] -> FinalResult cc c = NoFuel).
Proof. intros H. unfold FinalResult. rewrite H. destruct (step_results cc c) as [|r rs]; split; try done. Qed.

(** ** Codecs *)

(** The codecs invert each other: integers, hexadecimal strings and 64-bit words, where shorter
    byte strings are extended on the left. *)
Theorem codecs_roundtrip z b n s :
  0 <= n < 2 ^ 64 -> (length s < 8)%nat ->
  DecodeBigInt (EncodeBigInt (Some z)) = Z.abs z /\ HexToBytes (BytesToHex b) = Some b /\ length (PackUint64 n) = 8%nat /\
  UnpackUint64 (PackUint64 n) = n /\ UnpackUint64 s = be_int s.
Proof.
  intros Hn Hs. split; [apply be_int_bigint_bytes|]. split; [apply hex_decode_encode|]. split; [apply length_be_bytes|].
  unfold UnpackUint64, PackUint64. split.
  - rewrite length_be_bytes. cbn [Nat.ltb Nat.leb]. rewrite take_ge by (by rewrite length_be_bytes). rewrite be_int_be_bytes. apply Z.mod_small.
    change (256 ^ Z.of_nat 8) with (2 ^ 64). lia.
  - rewrite (proj2 (Nat.ltb_lt _ _)) by done. unfold zeros. apply be_int_zeros.
Qed.

Lemma codecs_roundtrip_witness : UnpackUint64 (PackUint64 258) = 258 /\ UnpackUint64 [Byte.x01; Byte.x02] = 258.
Proof.
  destruct (codecs_roundtrip 5 [Byte.xff] 258 [Byte.x01; Byte.x02]) as (_ & _ & _ & H1 & H2); [lia|cbn; lia|]. split; [exact H1|exact H2].
Defined.
