(* ===== verification/Keys.v ===== *)
(** * Identity keys ([identity/identity.go], [identity/passkey.go])

    A node keeps its private key in its data directory, in plain form in [identity.key]
    or encrypted under a passkey in [identity.enc]; [New] loads, imports, migrates or creates it.

    Contents: the encrypted form, [New] with all its branches, signing, and recovery
    phrases.  The files of the data directory are a map from names; every system call may fail, and a
    failed write may leave anything in the file.  Argon2, AES-GCM, the encoding of private keys and
    [json.Unmarshal] are the class [KeyCrypto], with what the code relies on in [KeyLaws].

    The theorems: a start that can see the key file returns the key of the previous one or an error, and
    changes nothing ([identity_persists]); one whose [Stat] of the key file fails takes the file for
    absent and overwrites the key ([stat_fault_replaces_key]).  A key that was imported without a
    passkey next to an encrypted one is ignored by the next start ([imported_key_shadowed]); with a passkey no plain copy of the key is left
    ([plaintext_removed]) unless both files existed ([plaintext_left_behind]); signatures
    verify ([identity_signature_verifies]). *)

From Stdlib Require Import String.
From S2P Require Import Prelude Json Signing Sha256 Bits.

Record EncryptedKey := mkEnc { enc_Version : Z; enc_Salt : bytes; enc_Nonce : bytes; Ciphertext : bytes; CredentialID : option bytes }.

Class KeyCrypto (C : Crypto) : Type := {
  (** [crypto.FromECDSA] and [crypto.ToECDSA]. *)
  FromECDSA : PrivateKey -> bytes;
  ToECDSA : bytes -> result PrivateKey;
  (** [argon2.IDKey(secret, salt, time, memory, threads, 32)]. *)
  IDKey : bytes -> bytes -> Z -> Z -> Z -> bytes;
  (** [gcm.Seal(nil, nonce, plaintext, nil)] and [gcm.Open] for a key. *)
  Seal : bytes -> bytes -> bytes -> bytes;
  Open : bytes -> bytes -> bytes -> option bytes;
  (** [json.MarshalIndent] and [json.Unmarshal] of an encrypted key. *)
  enc_marshal : EncryptedKey -> bytes;
  enc_unmarshal : bytes -> result EncryptedKey;
}.

Class KeyLaws {C : Crypto} (K : KeyCrypto C) : Prop := {
  (** A private key reads back from its 32 bytes. *)
  ecdsa_roundtrip : forall k, ToECDSA (FromECDSA k) = Ok k;
  (** The derived key has the 32 bytes asked for. *)
  idkey_length : forall s t a b c, length (IDKey s t a b c) = 32%nat;
  (** Opening with the key and nonce of the sealing returns the plaintext. *)
  open_seal : forall k n p, Open k n (Seal k n p) = Some p;
  enc_roundtrip : forall e, enc_unmarshal (enc_marshal e) = Ok e;
}.

(** What the system answers: the outcome of creating the directory, per file whether [Stat] and
    reading work on a file that is there, the fault of a write with what it leaves, whether the file can
    be removed; random bytes and a new key. *)
Record Sys {C : Crypto} := {
  mkdir_ok : bool;
  stat_ok : bytes -> bool;
  read_ok : bytes -> bool;
  write_fault : bytes -> option (option bytes);
  remove_ok : bytes -> bool;
  rand_salt : option bytes;
  rand_nonce : option bytes;
  generated : result PrivateKey;
}.
Arguments Sys C : clear implicits.

Definition keyPath : bytes := bs "identity.key".
Definition encKeyPath : bytes := bs "identity.enc".

Section keys.
Context {C : Crypto} {K : KeyCrypto C}.

Definition WriteFile (sys : Sys C) (path data : bytes) (fs : gmap bytes bytes) : gmap bytes bytes * bool :=
  match write_fault sys path with
  | None => (<[path := data]> fs, true)
  | Some None => (fs, false)
  | Some (Some garbage) => (<[path := garbage]> fs, false)
  end.

(** [os.Remove], whose error is ignored. *)
Definition Remove (sys : Sys C) (path : bytes) (fs : gmap bytes bytes) : gmap bytes bytes := if remove_ok sys path then delete path fs else fs.

(** [os.ReadFile]: [None] for any error. *)
Definition ReadFile (sys : Sys C) (path : bytes) (fs : gmap bytes bytes) : option bytes := if read_ok sys path then fs !! path else None.

(** Any error of [os.Stat] counts as absence. *)
Definition fileExists (sys : Sys C) (path : bytes) (fs : gmap bytes bytes) : bool := stat_ok sys path && bool_decide (is_Some (fs !! path)).

(** ** The encrypted form *)

Definition DeriveKeyFromPasskey (secret salt : bytes) : bytes := IDKey secret salt 3 (64 * 1024) 4.

(** [aes.NewCipher] takes keys of 16, 24 or 32 bytes. *)
Definition cipher_ok (key : bytes) : bool := (length key =? 16)%nat || (length key =? 24)%nat || (length key =? 32)%nat.

Definition EncryptPrivateKey (sys : Sys C) (key : PrivateKey) (passkey : bytes) : result EncryptedKey :=
  match rand_salt sys with
  | None => Err "failed to generate salt"
  | Some salt =>
      let encKey := DeriveKeyFromPasskey passkey salt in
      if negb (cipher_ok encKey) then Err "failed to create cipher" else
      match rand_nonce sys with
      | None => Err "failed to generate nonce"
      | Some nonce => Ok (mkEnc 1 salt nonce (Seal encKey nonce (FromECDSA key)) None)
      end
  end.

Definition DecryptPrivateKey (enc : EncryptedKey) (passkey : bytes) : result PrivateKey :=
  let encKey := DeriveKeyFromPasskey passkey (enc_Salt enc) in
  if negb (cipher_ok encKey) then Err "failed to create cipher" else
  match Open encKey (enc_Nonce enc) (Ciphertext enc) with
  | None => Err "decryption failed (wrong passkey?)"
  | Some plaintext => match ToECDSA plaintext with Ok k => Ok k | Err _ => Err "failed to parse decrypted key" end
  end.

Definition SaveEncryptedKey (sys : Sys C) (path : bytes) (enc : EncryptedKey) (fs : gmap bytes bytes) : gmap bytes bytes * bool := WriteFile sys path (enc_marshal enc) fs.

Definition LoadEncryptedKey (sys : Sys C) (path : bytes) (fs : gmap bytes bytes) : result EncryptedKey :=
  match ReadFile sys path fs with
  | None => Err "cannot read the file"
  | Some data => match enc_unmarshal data with Ok e => Ok e | Err _ => Err "failed to parse encrypted key" end
  end.

Definition IsEncryptedKeyFile (sys : Sys C) (path : bytes) (fs : gmap bytes bytes) : bool :=
  match ReadFile sys path fs with Some (b :: _) => bool_decide (b = Byte.x7b) | _ => false end.

Definition HashPasskeySecret (credentialID clientDataJSON authenticatorData : bytes) : bytes :=
  sha256 (credentialID ++ clientDataJSON ++ authenticatorData).

(** [entropy] is what [rand.Read] fills in. *)
Definition GenerateRecoveryPhrase (entropy : option bytes) : result (bytes * bytes) :=
  match entropy with None => Err "failed to generate entropy" | Some e => Ok (hex_encode e, sha256 e) end.

Definition RecoveryPhraseToSecret (phrase : bytes) : result bytes :=
  match hex_decode phrase with None => Err "invalid recovery phrase" | Some e => Ok (sha256 e) end.

(** ** The identity *)

Record Identity := mkIdentity { id_PrivateKey : PrivateKey; id_Address : bytes; id_ForkID : bytes; id_ShortID : bytes }.
Record Config := { ImportKey : bytes; PasskeySecret : bytes; RequirePasskey : bool }.

Definition HexToECDSA (s : bytes) : result PrivateKey :=
  match hex_decode s with None => Err "invalid hex data for private key" | Some b => ToECDSA b end.

Definition saveKey (sys : Sys C) (path : bytes) (key : PrivateKey) (fs : gmap bytes bytes) : gmap bytes bytes * bool := WriteFile sys path (hex_encode (FromECDSA key)) fs.

Definition loadKey (sys : Sys C) (path : bytes) (fs : gmap bytes bytes) : result PrivateKey :=
  match ReadFile sys path fs with None => Err "cannot read the file" | Some data => HexToECDSA data end.

(** Encrypting a key into its file; [clean] says that the plain file is then removed. *)
Definition save_encrypted (sys : Sys C) (key : PrivateKey) (passkey : bytes) (clean : bool) (fs : gmap bytes bytes) : gmap bytes bytes * result PrivateKey :=
  match EncryptPrivateKey sys key passkey with
  | Err _ => (fs, Err "failed to encrypt key")
  | Ok enc =>
      let r := SaveEncryptedKey sys encKeyPath enc fs in
      if negb r.2 then (r.1, Err "failed to save encrypted key") else (if clean then Remove sys keyPath r.1 else r.1, Ok key)
  end.

Definition save_plain (sys : Sys C) (key : PrivateKey) (fs : gmap bytes bytes) : gmap bytes bytes * result PrivateKey :=
  let r := saveKey sys keyPath key fs in (r.1, if r.2 then Ok key else Err "failed to save identity").

(** The key that [New] ends up with. *)
Definition obtain_key (cfg : Config) (sys : Sys C) (fs : gmap bytes bytes) : gmap bytes bytes * result PrivateKey :=
  let passkey := PasskeySecret cfg in
  let protected := (0 <? length passkey)%nat in
  if (0 <? length (ImportKey cfg))%nat then
    match HexToECDSA (ImportKey cfg) with
    | Err _ => (fs, Err "invalid import key")
    | Ok key => if protected then save_encrypted sys key passkey true fs else save_plain sys key fs
    end
  else if fileExists sys encKeyPath fs then
    if negb protected then (fs, Err "encrypted key found - passkey required to unlock") else
    match LoadEncryptedKey sys encKeyPath fs with
    | Err _ => (fs, Err "failed to load encrypted key")
    | Ok enc => (fs, match DecryptPrivateKey enc passkey with Ok k => Ok k | Err _ => Err "failed to decrypt key" end)
    end
  else if fileExists sys keyPath fs then
    if RequirePasskey cfg then (fs, Err "unencrypted key found but passkey required") else
    match loadKey sys keyPath fs with
    | Err _ => (fs, Err "failed to load identity")
    | Ok key => if protected then save_encrypted sys key passkey true fs else (fs, Ok key)
    end
  else
    match generated sys with
    | Err _ => (fs, Err "failed to generate key")
    | Ok key => if protected then save_encrypted sys key passkey false fs else save_plain sys key fs
    end.

Definition New (cfg : Config) (sys : Sys C) (fs : gmap bytes bytes) : gmap bytes bytes * result Identity :=
  if negb (mkdir_ok sys) then (fs, Err "failed to create data directory") else
  let r := obtain_key cfg sys fs in
  (r.1, let? key := r.2 in
        let address := KeyAddress key in
        Ok (mkIdentity key address (Keccak256 address) (take 8 (drop 2 (AddrHex address))))).

Definition identity_Sign (id : Identity) (data : bytes) : result bytes := EcSign (Keccak256 data) (id_PrivateKey id).

Definition identity_Verify (data sig address : bytes) : bool :=
  match EcRecover (Keccak256 data) sig with None => false | Some a => bytes_eqb a address end.

Definition identity_Export (id : Identity) : bytes := hex_encode (FromECDSA (id_PrivateKey id)).

(** ** Loading what was saved *)

Context {L : CryptoLaws C} {KL : KeyLaws K}.

Lemma hex_key_roundtrip k : HexToECDSA (hex_encode (FromECDSA k)) = Ok k.
Proof. unfold HexToECDSA. rewrite hex_decode_encode. apply ecdsa_roundtrip. Qed.

Lemma decrypt_encrypt sys k passkey enc : EncryptPrivateKey sys k passkey = Ok enc -> DecryptPrivateKey enc passkey = Ok k.
Proof.
  unfold EncryptPrivateKey. destruct (rand_salt sys) as [salt|]; [|done]. destruct (cipher_ok _) eqn:E; cbn [negb]; [|done].
  destruct (rand_nonce sys) as [nonce|]; [|done]. intros [= <-]. unfold DecryptPrivateKey. cbn [enc_Salt enc_Nonce Ciphertext]. rewrite E. cbn [negb].
  by rewrite open_seal, ecdsa_roundtrip.
Qed.

(** The files hold [k] in the form [New] looks for first. *)
Definition holds (passkey : bytes) (fs : gmap bytes bytes) (k : PrivateKey) : Prop :=
  if (0 <? length passkey)%nat
  then exists d enc, fs !! encKeyPath = Some d /\ enc_unmarshal d = Ok enc /\ DecryptPrivateKey enc passkey = Ok k
  else fs !! encKeyPath = None /\ exists data, fs !! keyPath = Some data /\ HexToECDSA data = Ok k.

Lemma paths_differ : keyPath <> encKeyPath.
Proof. by vm_compute. Qed.

Lemma save_encrypted_holds sys k passkey clean fs fs' : (0 <? length passkey)%nat = true ->
  save_encrypted sys k passkey clean fs = (fs', Ok k) -> holds passkey fs' k.
Proof.
  intros Hp. unfold save_encrypted. destruct (EncryptPrivateKey sys k passkey) as [enc|] eqn:E; [|done].
  unfold SaveEncryptedKey, WriteFile. destruct (write_fault sys encKeyPath) as [[g|]|]; cbn [fst snd negb]; try done. intros [= <-].
  unfold holds. rewrite Hp. exists (enc_marshal enc), enc. split; [|split; [apply enc_roundtrip|by eapply decrypt_encrypt]]. pose proof paths_differ.
  unfold Remove. repeat case_match; rewrite ?lookup_delete_ne by done; by rewrite lookup_insert_eq.
Qed.

Lemma save_encrypted_key sys k k' passkey clean fs fs' : save_encrypted sys k passkey clean fs = (fs', Ok k') -> k' = k.
Proof. unfold save_encrypted. destruct (EncryptPrivateKey _ _ _); [|done]. cbn zeta. case_match; intros [= <- <-]; done. Qed.

Lemma save_plain_holds sys k k' fs fs' : fs !! encKeyPath = None -> save_plain sys k fs = (fs', Ok k') -> k' = k /\ holds [] fs' k.
Proof.
  intros Hn. unfold save_plain, saveKey, WriteFile. destruct (write_fault sys keyPath) as [[g|]|]; cbn; try done. intros [= <- <-]. split; [done|].
  split; [by rewrite lookup_insert_ne by apply paths_differ|]. exists (hex_encode (FromECDSA k)). by rewrite lookup_insert_eq, hex_key_roundtrip.
Qed.

(** A file that is there, and can be seen, exists; one that is not there never does. *)
Lemma exists_seen sys path fs : fileExists sys path fs = true <-> stat_ok sys path = true /\ is_Some (fs !! path).
Proof. unfold fileExists. by rewrite andb_true_iff, bool_decide_eq_true. Qed.

Lemma absent_unseen sys path fs : fs !! path = None -> fileExists sys path fs = false.
Proof. intros H. apply not_true_is_false. intros [_ Hs]%exists_seen. rewrite H in Hs. by destruct Hs. Qed.

Lemma not_exists sys path fs : stat_ok sys path = true -> fileExists sys path fs = false -> fs !! path = None.
Proof. unfold fileExists. intros -> H. apply bool_decide_eq_false in H. by apply eq_None_not_Some. Qed.

Lemma ReadFile_ok sys path fs data : ReadFile sys path fs = Some data -> fs !! path = Some data.
Proof. unfold ReadFile. by destruct (read_ok sys path). Qed.

Lemma no_passkey (p : bytes) : (0 <? length p)%nat = false -> p = [].
Proof. by destruct p. Qed.

(** With a passkey the key is saved encrypted, whatever was there; without one an encrypted file must not
    be there, or be seen, in which case there is no key. *)
Definition clear_start (cfg : Config) (sys : Sys C) (fs : gmap bytes bytes) : Prop :=
  PasskeySecret cfg <> [] \/ fs !! encKeyPath = None \/ ImportKey cfg = [] /\ stat_ok sys encKeyPath = true.

Lemma obtain_protected cfg sys fs fs' k :
  (0 <? length (PasskeySecret cfg))%nat = true -> obtain_key cfg sys fs = (fs', Ok k) -> holds (PasskeySecret cfg) fs' k.
Proof.
  unfold obtain_key. intros P H. rewrite P in H. cbn [negb] in H.
  assert (S : forall k0 clean, save_encrypted sys k0 (PasskeySecret cfg) clean fs = (fs', Ok k) -> holds (PasskeySecret cfg) fs' k).
  { intros k0 clean Hs. pose proof (save_encrypted_key _ _ _ _ _ _ _ Hs) as ->. by eapply save_encrypted_holds. }
  destruct (0 <? length (ImportKey cfg))%nat; [destruct (HexToECDSA (ImportKey cfg)); [by eapply S|done]|].
  destruct (fileExists sys encKeyPath fs).
  - unfold LoadEncryptedKey in H. unfold holds. rewrite P. destruct (ReadFile sys encKeyPath fs) as [d|] eqn:Ed; [|done]. apply ReadFile_ok in Ed.
    destruct (enc_unmarshal d) as [enc|] eqn:Eu; [|done]. destruct (DecryptPrivateKey enc _) as [k0|] eqn:Ek; [|done]. injection H as <- <-. by exists d, enc.
  - destruct (fileExists sys keyPath fs); [destruct (RequirePasskey cfg); [done|]; destruct (loadKey sys keyPath fs); [|done]|destruct (generated sys); [|done]]; by eapply S.
Qed.

Lemma obtain_plain cfg sys fs fs' k :
  (0 <? length (PasskeySecret cfg))%nat = false -> fs !! encKeyPath = None -> obtain_key cfg sys fs = (fs', Ok k) -> holds [] fs' k.
Proof.
  unfold obtain_key. intros P Hn H. rewrite P, (absent_unseen _ _ _ Hn) in H. cbn [negb] in H.
  assert (S : forall k0, save_plain sys k0 fs = (fs', Ok k) -> holds [] fs' k) by (intros k0 Hs; by apply save_plain_holds in Hs as [-> Hs]).
  destruct (0 <? length (ImportKey cfg))%nat; [destruct (HexToECDSA (ImportKey cfg)); [by eapply S|done]|].
  destruct (fileExists sys keyPath fs); [|destruct (generated sys); [by eapply S|done]].
  destruct (RequirePasskey cfg); [done|]. unfold loadKey in H. destruct (ReadFile sys keyPath fs) as [d|] eqn:Ed; [|done]. apply ReadFile_ok in Ed.
  destruct (HexToECDSA d) as [k0|] eqn:Ek; [|done]. injection H as <- <-. split; [done|]. by exists d.
Qed.

(** A successful start leaves the key it returns where the next one looks for it. *)
Lemma obtain_holds cfg sys fs fs' k : obtain_key cfg sys fs = (fs', Ok k) -> clear_start cfg sys fs -> holds (PasskeySecret cfg) fs' k.
Proof.
  intros H Hc. destruct (0 <? length (PasskeySecret cfg))%nat eqn:P; [by eapply obtain_protected|].
  pose proof (no_passkey _ P) as P0. rewrite P0. destruct Hc as [Hc|[Hc|[Hi Hs]]]; [done|by eapply obtain_plain|].
  destruct (fileExists sys encKeyPath fs) eqn:Ee; [|by eapply obtain_plain; [exact P|eapply not_exists; [exact Hs|exact Ee]|exact H]].
  unfold obtain_key in H. rewrite P, Hi, Ee in H. done.
Qed.

(** The file that the key is in. *)
Definition key_file (passkey : bytes) : bytes := if (0 <? length passkey)%nat then encKeyPath else keyPath.

(** A start that can see the file returns the key in it or an error, and changes no file. *)
Lemma holds_obtain cfg sys fs k :
  ImportKey cfg = [] -> holds (PasskeySecret cfg) fs k -> stat_ok sys (key_file (PasskeySecret cfg)) = true ->
  exists r, obtain_key cfg sys fs = (fs, r) /\ (r = Ok k \/ is_ok r = false) /\
    (read_ok sys (key_file (PasskeySecret cfg)) = true -> ((0 <? length (PasskeySecret cfg))%nat = false -> RequirePasskey cfg = false) -> r = Ok k).
Proof.
  intros Hi Hh Hs. unfold obtain_key, holds, key_file in *. rewrite Hi. change (0 <? length (@nil byte))%nat with false. cbn iota.
  destruct (0 <? length (PasskeySecret cfg))%nat; cbn [negb].
  - destruct Hh as (d & enc & Ed & Eu & Ek). unfold LoadEncryptedKey, ReadFile.
    rewrite (proj2 (exists_seen sys encKeyPath fs)) by (split; [done|rewrite Ed; by eexists]). rewrite Ed.
    destruct (read_ok sys encKeyPath); [rewrite Eu, Ek|]; eexists; (split; [done|]); [by split; [left|]|by split; [right|]].
  - destruct Hh as [En (d & Ed & Ek)]. unfold loadKey, ReadFile.
    rewrite (absent_unseen _ _ _ En), (proj2 (exists_seen sys keyPath fs)) by (split; [done|rewrite Ed; by eexists]). rewrite Ed.
    destruct (RequirePasskey cfg); [eexists; split; [done|]; split; [by right|]; intros _ Hf; by specialize (Hf eq_refl)|].
    destruct (read_ok sys keyPath); [rewrite Ek|]; eexists; (split; [done|]); [by split; [left|]|by split; [right|]].
Qed.

(** C26: A node keeps its identity: when a start succeeds, whatever branch it took (load, migration to a passkey,
    import, creation) and whatever faults it met, every later start with the same passkey and without an import,
    whose [Stat] of the key file does not fail, changes no file and returns the same identity or an error; and it
    returns the identity when the directory can be created, the key file can be read, and a passkey is not
    required of an identity without one.  The first start must be clear: it has a passkey, or there was no encrypted
    key, or it imports nothing and its own [Stat] of the encrypted key did not fail. *)
Theorem identity_persists cfg cfg' sys sys' fs fs' id :
  New cfg sys fs = (fs', Ok id) -> clear_start cfg sys fs ->
  ImportKey cfg' = [] -> PasskeySecret cfg' = PasskeySecret cfg -> stat_ok sys' (key_file (PasskeySecret cfg)) = true ->
  exists r, New cfg' sys' fs' = (fs', r) /\ (r = Ok id \/ is_ok r = false) /\
    (mkdir_ok sys' = true -> read_ok sys' (key_file (PasskeySecret cfg)) = true -> (PasskeySecret cfg' = [] -> RequirePasskey cfg' = false) -> r = Ok id).
Proof.
  intros H Hc Hi Hp Hs. unfold New in *. destruct (mkdir_ok sys); [|done]. cbn [negb] in H.
  destruct (obtain_key cfg sys fs) as [f [k|]] eqn:E; [|done]. cbn in H. injection H as <- <-. apply obtain_holds in E; [|done]. rewrite <- Hp in E, Hs |- *.
  destruct (mkdir_ok sys'); cbn [negb]; [|eexists; split; [done|]; split; [by right|done]].
  destruct (holds_obtain cfg' sys' f k Hi E Hs) as (r & -> & Hr & Hok). eexists. split; [done|]. split.
  - destruct Hr as [->|Hr]; [by left|right]. by destruct r.
  - intros _ Hread Hreq. rewrite Hok; [done|done|]. intros Hl. by apply Hreq, no_passkey.
Qed.

(** Without the [Stat] the key is lost: a start without a passkey that cannot [Stat] the key file makes a new key, writes it
    over the old one and succeeds, as another identity. *)
Theorem stat_fault_replaces_key cfg sys fs old new :
  ImportKey cfg = [] -> PasskeySecret cfg = [] -> mkdir_ok sys = true -> holds [] fs old -> stat_ok sys keyPath = false -> generated sys = Ok new ->
  write_fault sys keyPath = None ->
  exists fs' id, New cfg sys fs = (fs', Ok id) /\ id_PrivateKey id = new /\ holds [] fs' new.
Proof.
  intros Hi Hp Hm [En _] Hs Hg Hw. unfold New, obtain_key. rewrite Hm, Hi, Hp, (absent_unseen _ _ _ En), Hg. cbn [negb].
  unfold fileExists. rewrite Hs. cbn [andb]. unfold save_plain, saveKey, WriteFile. rewrite Hw. cbn. eexists _, _. split; [done|]. split; [done|].
  split; [by rewrite lookup_insert_ne by apply paths_differ|]. exists (hex_encode (FromECDSA new)). by rewrite lookup_insert_eq, hex_key_roundtrip.
Qed.

(** Signatures of an identity verify against its address. *)
Lemma identity_signature_verifies cfg sys fs fs' id data :
  New cfg sys fs = (fs', Ok id) -> exists sig, identity_Sign id data = Ok sig /\ identity_Verify data sig (id_Address id) = true.
Proof.
  intros H. unfold New in H. destruct (negb _); [done|]. destruct (obtain_key cfg sys fs) as [f [k|]]; [|done]. cbn in H. injection H as <- <-.
  unfold identity_Sign, identity_Verify. cbn [id_PrivateKey id_Address]. destruct (sign_total (Keccak256 data) k) as (sig & Es & _); [apply keccak_length|].
  exists sig. split; [done|]. by rewrite (recover_sign _ _ _ Es), bytes_eqb_refl.
Qed.

(** With a passkey a start that removes files leaves no plain copy of the key, unless an encrypted
    one was there already. *)
Lemma plaintext_removed cfg sys fs fs' id :
  New cfg sys fs = (fs', Ok id) -> PasskeySecret cfg <> [] -> remove_ok sys keyPath = true ->
  ImportKey cfg <> [] \/ fileExists sys encKeyPath fs = false -> stat_ok sys keyPath = true -> fs' !! keyPath = None.
Proof.
  intros H Hp Hr Hc Hst. unfold New in H. destruct (negb _); [done|]. destruct (obtain_key cfg sys fs) as [f [k|]] eqn:E; [|done]. cbn in H. injection H as <- _.
  assert (A : forall k0 clean g, save_encrypted sys k0 (PasskeySecret cfg) clean g = (f, Ok k) -> clean = true \/ g !! keyPath = None -> f !! keyPath = None).
  { intros k0 clean g. unfold save_encrypted. destruct (EncryptPrivateKey _ _ _); [|done]. unfold SaveEncryptedKey, WriteFile.
    destruct (write_fault sys encKeyPath) as [[?|]|]; cbn [fst snd negb]; try done. intros [= <- _] Hg. pose proof paths_differ. unfold Remove. rewrite Hr.
    destruct clean; [apply lookup_delete_eq|]. destruct Hg as [Hg|Hg]; [done|]. by rewrite lookup_insert_ne. }
  unfold obtain_key in E. assert (P : (0 <? length (PasskeySecret cfg))%nat = true) by (by destruct (PasskeySecret cfg)). rewrite P in E. cbn [negb] in E.
  destruct (0 <? length (ImportKey cfg))%nat eqn:I.
  - destruct (HexToECDSA _); [|done]. eapply A; [done|by left].
  - destruct Hc as [Hc|Hc]; [exfalso; by apply Hc, no_passkey|]. rewrite Hc in E. destruct (fileExists sys keyPath fs) eqn:Ep.
    + destruct (RequirePasskey cfg); [done|]. destruct (loadKey _ _ _); [|done]. eapply A; [done|by left].
    + destruct (generated sys); [|done]. eapply A; [done|right]. by eapply not_exists.
Qed.

(** Otherwise the plain file stays: loading the encrypted key does not look at it. *)
Lemma plaintext_left_behind cfg sys fs fs' r plain :
  ImportKey cfg = [] -> fileExists sys encKeyPath fs = true -> New cfg sys fs = (fs', r) -> fs !! keyPath = Some plain -> fs' !! keyPath = Some plain.
Proof.
  intros Hi He H Hk. unfold New in H. destruct (negb _); [by injection H as <- _|]. unfold obtain_key in H. rewrite Hi, He in H. change (0 <? length (@nil byte))%nat with false in H. cbn iota in H.
  destruct (negb _); [by injection H as <- _|]. destruct (LoadEncryptedKey sys encKeyPath fs); by injection H as <- _.
Qed.

(** A key imported without a passkey next to an encrypted one is used once: the next start
    with the old passkey returns the old key. *)
Lemma imported_key_shadowed cfg cfg' sys sys' fs fs' id id' old :
  ImportKey cfg <> [] -> PasskeySecret cfg = [] -> New cfg sys fs = (fs', Ok id) ->
  ImportKey cfg' = [] -> PasskeySecret cfg' <> [] -> holds (PasskeySecret cfg') fs old -> stat_ok sys' encKeyPath = true -> New cfg' sys' fs' = (fs', Ok id') ->
  id_PrivateKey id' = old.
Proof.
  intros Hi Hp H Hi' Hp' Hh Hst H'. assert (P : (0 <? length (PasskeySecret cfg'))%nat = true) by (by destruct (PasskeySecret cfg')).
  assert (Hh' : holds (PasskeySecret cfg') fs' old).
  { unfold holds in *. rewrite P in *. destruct Hh as (d & enc & Ed & He). exists d, enc. split; [|done].
    unfold New in H. destruct (negb _); [done|]. unfold obtain_key in H. rewrite Hp in H. destruct (ImportKey cfg) as [|b t]; [done|].
    cbn [length Nat.ltb Nat.leb] in H. destruct (HexToECDSA _) as [k|]; [|done]. unfold save_plain, saveKey, WriteFile in H.
    destruct (write_fault sys keyPath) as [[g|]|]; cbn in H; try done. injection H as <- _. by rewrite lookup_insert_ne by apply paths_differ. }
  unfold New in H'. destruct (negb _); [done|]. destruct (holds_obtain cfg' sys' fs' old Hi' Hh') as (r & E & [->|Hr] & _); [unfold key_file; by rewrite P| |].
  - rewrite E in H'. cbn in H'. by injection H' as <-.
  - rewrite E in H'. by destruct r.
Qed.

(** A recovery phrase yields the secret it was generated with. *)
Lemma recovery_phrase_roundtrip entropy phrase secret : GenerateRecoveryPhrase entropy = Ok (phrase, secret) -> RecoveryPhraseToSecret phrase = Ok secret.
Proof. destruct entropy as [e|]; [|done]. intros [= <- <-]. unfold RecoveryPhraseToSecret. by rewrite hex_decode_encode. Qed.
End keys.

(** ** A concrete instance *)

(** Keys of the toy signatures are bytes; sealing is an exclusive or with the derived key,
    and an encrypted key is written as a number. *)
Module ToyKeys.
Definition fields (e : EncryptedKey) : Z * bytes * bytes * bytes * option bytes :=
  (enc_Version e, enc_Salt e, enc_Nonce e, Ciphertext e, CredentialID e).
Definition of_fields (t : Z * bytes * bytes * bytes * option bytes) : EncryptedKey :=
  let '(v, s, n, c, i) := t in mkEnc v s n c i.

Definition keys : KeyCrypto Toy.crypto := {|
  FromECDSA := fun k : @PrivateKey Toy.crypto => [k : byte];
  ToECDSA := fun b => match last b with Some k => Ok (k : @PrivateKey Toy.crypto) | None => Err "invalid length" end;
  IDKey := fun s t _ _ _ => Toy.digest (s ++ t);
  Seal := fun k _ p => xor_into p k;
  Open := fun k _ c => Some (xor_into c k);
  enc_marshal := fun e => bigint_bytes (Z.pos (encode (fields e)));
  enc_unmarshal := fun b => match be_int b with Z.pos p => match decode p with Some t => Ok (of_fields t) | None => Err "invalid" end | _ => Err "invalid" end;
|}.

#[global] Instance laws : KeyLaws keys.
Proof.
  split; [done| | |].
  - intros. apply length_be_bytes.
  - intros. cbn [Open Seal keys]. by rewrite xor_into_twice.
  - intros e. cbn [enc_marshal enc_unmarshal keys]. rewrite be_int_bigint_bytes. change (Z.abs (Z.pos (encode (fields e)))) with (Z.pos (encode (fields e))). cbv beta iota. rewrite decode_encode. by destruct e.
Qed.

Definition sys : Sys Toy.crypto := {|
  mkdir_ok := true; stat_ok := fun _ => true; read_ok := fun _ => true; write_fault := fun _ => None; remove_ok := fun _ => true; rand_salt := Some [Byte.x0a]; rand_nonce := Some [Byte.x0b];
  generated := Ok (Byte.x2a : @PrivateKey Toy.crypto) |}.
Definition cfg : Config := {| ImportKey := []; PasskeySecret := [Byte.x07]; RequirePasskey := false |}.
End ToyKeys.

(** Created under a passkey; a later start whose random source is gone loads it. *)
Definition later_sys : Sys Toy.crypto := {|
  mkdir_ok := true; stat_ok := fun _ => true; read_ok := fun _ => true; write_fault := fun _ => Some None; remove_ok := fun _ => false;
  rand_salt := None; rand_nonce := None; generated := Err "no entropy" |}.

Lemma identity_persists_witness :
  let first := New (K := ToyKeys.keys) ToyKeys.cfg ToyKeys.sys ∅ in
  is_ok first.2 = true /\ New (K := ToyKeys.keys) ToyKeys.cfg later_sys first.1 = first.
Proof.
  set (first := New (K := ToyKeys.keys) ToyKeys.cfg ToyKeys.sys ∅). cbn zeta.
  assert (E : is_ok first.2 = true) by (vm_compute; reflexivity). split; [exact E|].
  destruct (first.2) as [id|] eqn:Ei; [|discriminate].
  assert (Ef : first = (first.1, Ok id)) by (destruct first; cbn in *; congruence).
  destruct (identity_persists (K := ToyKeys.keys) ToyKeys.cfg ToyKeys.cfg ToyKeys.sys later_sys ∅ first.1 id) as (r & Er & _ & Hok).
  - exact Ef.
  - left. discriminate.
  - reflexivity.
  - reflexivity.
  - reflexivity.
  - rewrite Er, (Hok eq_refl eq_refl ltac:(discriminate)). symmetry. exact Ef.
Defined.
