(* ===== verification/Sessions.v ===== *)
(** * Derived identities and sessions ([identity/hardware_gate.go], [identity/stateless.go],
      [identity/stateless_bridge.go])

    A stateless identity is derived from a user secret, a salt from the chain and, on hardware
    that has one, an attestation; a session manager keeps one such identity unlocked for a time.

    Contents: the gates, the derivation, the session manager, and the unified identity with
    its salt file and the migration of a stored key.  Identities are shared objects: the manager and
    its clients hold pointers to them, so they are in a list and a pointer is an index; an
    object says whether its pointer to the private key is set ([si_held]) and what the key
    holds, where locking writes zero ([None]).  P-256 is the class [P256]; files and faults are
    those of [Keys].

    The theorems: whatever is unlocked, locked, extended or timed out, only the current identity of
    the manager has a key in memory ([single_live_key]), and after the time limit nobody can sign
    ([timeout_locks]); the derivation without hardware is reproducible ([derivation_reproducible]),
    so restarts and a migration keep the identity ([stateless_persists], [migration_persists]) unless the
    salt cannot be read, when it is replaced ([read_fault_replaces_salt]);
    secret and salt are joined without a separator ([derivation_ambiguous]); an attestation of the
    software gate verifies ([software_attestation_verifies]). *)

From Stdlib Require Import String.
From S2P Require Import Prelude Json Signing Sha256 Bits Substrate Keys.

(** ** Gates *)

Class P256 : Type := {
  P256Key : Type;
  (** [ecdsa.Sign] with its randomness, [ecdsa.Verify] and [elliptic.MarshalCompressed]. *)
  p256_sign : bytes -> P256Key -> bytes -> result (Z * Z);
  p256_verify : P256Key -> bytes -> Z -> Z -> bool;
  p256_compressed : P256Key -> bytes;
}.

Class P256Laws (E : P256) : Prop := {
  (** A signature verifies, and its halves are numbers of 256 bits. *)
  p256_sound : forall rnd k h r s, p256_sign rnd k h = Ok (r, s) -> p256_verify k h r s = true /\ 0 <= r < 2 ^ 256 /\ 0 <= s < 2 ^ 256;
}.

Inductive GateType := GateTypeSecureEnclave | GateTypeTPM | GateTypeWebAuthn | GateTypeSoftware | GateTypeNone.

#[global] Instance GateType_eq_dec : EqDecision GateType.
Proof. solve_decision. Defined.

Record GateCapabilities := { CanAttest : bool; CanVerify : bool; KeyNeverExportable : bool; RequiresBiometric : bool; RequiresPIN : bool }.

Section gates.
Context {E : P256}.

(** The implementations of the interface. *)
Inductive HardwareGate :=
  | SecureEnclaveGate (available : bool) (pubKey : bytes)
  | TPMGate (available : bool) (pubKey : bytes)
  | SoftwareGate (privateKey : option P256Key) (available : bool)
  | NoGate.

Definition NewSecureEnclaveGate : HardwareGate := SecureEnclaveGate false [].
Definition NewTPMGate : HardwareGate := TPMGate false [].

(** [key] is what the generation returns. *)
Definition NewSoftwareGate (key : option P256Key) : HardwareGate :=
  match key with Some k => SoftwareGate (Some k) true | None => SoftwareGate None false end.

Definition gate_Available (g : HardwareGate) : bool :=
  match g with SecureEnclaveGate a _ | TPMGate a _ | SoftwareGate _ a => a | NoGate => true end.

Definition gate_Type (g : HardwareGate) : GateType :=
  match g with SecureEnclaveGate _ _ => GateTypeSecureEnclave | TPMGate _ _ => GateTypeTPM | SoftwareGate _ _ => GateTypeSoftware | NoGate => GateTypeNone end.

(** Signature halves in 32 bytes each. *)
Definition pack_signature (r s : Z) : outcome bytes :=
  let! sig := overwrite (zeros 64) 32 r in overwrite sig 64 s.

Definition gate_Attest (rnd : bytes) (g : HardwareGate) (challenge : bytes) : outcome (result bytes) :=
  match g with
  | SecureEnclaveGate false _ => Done (Err "Secure Enclave not available")
  | SecureEnclaveGate true _ => Done (Err "Secure Enclave not implemented - requires native code")
  | TPMGate false _ => Done (Err "TPM not available")
  | TPMGate true _ => Done (Err "TPM not implemented - requires native code")
  | SoftwareGate (Some k) true =>
      match p256_sign rnd k (sha256 challenge) with
      | Err _ => Done (Err "failed to sign")
      | Ok (r, s) => let! sig := pack_signature r s in Done (Ok sig)
      end
  | SoftwareGate _ _ => Done (Err "software gate not available")
  | NoGate => Done (Ok [])
  end.

Definition gate_Verify (g : HardwareGate) (challenge attestation : bytes) : bool :=
  match g with
  | SoftwareGate (Some k) _ =>
      if negb (length attestation =? 64)%nat then false
      else p256_verify k (sha256 challenge) (be_int (take 32 attestation)) (be_int (drop 32 attestation))
  | NoGate => (length attestation =? 0)%nat
  | _ => false
  end.

Definition gate_PublicKey (g : HardwareGate) : result bytes :=
  match g with
  | SecureEnclaveGate a p => if a then Ok p else Err "Secure Enclave not available"
  | TPMGate a p => if a then Ok p else Err "TPM not available"
  | SoftwareGate (Some k) _ => Ok (p256_compressed k)
  | SoftwareGate None _ => Err "no key available"
  | NoGate => Ok []
  end.

Definition gate_Capabilities (g : HardwareGate) : GateCapabilities :=
  match g with
  | SecureEnclaveGate _ _ => {| CanAttest := true; CanVerify := true; KeyNeverExportable := true; RequiresBiometric := true; RequiresPIN := false |}
  | TPMGate _ _ => {| CanAttest := true; CanVerify := true; KeyNeverExportable := true; RequiresBiometric := false; RequiresPIN := true |}
  | SoftwareGate _ _ => {| CanAttest := true; CanVerify := true; KeyNeverExportable := false; RequiresBiometric := false; RequiresPIN := false |}
  | NoGate => {| CanAttest := false; CanVerify := false; KeyNeverExportable := false; RequiresBiometric := false; RequiresPIN := false |}
  end.

(** [SoftwareGate.Clear]. *)
Definition gate_Clear (g : HardwareGate) : HardwareGate := match g with SoftwareGate _ a => SoftwareGate None a | g => g end.

Definition DetectHardwareGate (goos : string) (key : option P256Key) : HardwareGate :=
  if String.eqb goos "darwin" && gate_Available NewSecureEnclaveGate then NewSecureEnclaveGate
  else if (String.eqb goos "windows" || String.eqb goos "linux") && gate_Available NewTPMGate then NewTPMGate
  else NewSoftwareGate key.

(** The timestamp in big-endian order, by shifts. *)
Fixpoint shift_bytes (n : nat) (t : Z) : bytes := match n with O => [] | S n => shift_bytes n (Z.shiftr t 8) ++ [Zbyte t] end.

Definition AttestationChallenge {C : Crypto} (chainSalt : bytes) (timestamp : Z) (nonce : bytes) : bytes :=
  Keccak256 (bs "ZEAM_ATTESTATION_V1" ++ chainSalt ++ shift_bytes 8 timestamp ++ nonce).
End gates.

(** ** Derivation *)

Record DerivationConfig := { dc_Time : Z; dc_Memory : Z; dc_Threads : Z; dc_Domain : bytes }.

Definition DefaultDerivationConfig : DerivationConfig :=
  {| dc_Time := 3; dc_Memory := 256 * 1024; dc_Threads := 4; dc_Domain := bs "ZEAM_IDENTITY_V1" |}.
Definition LightDerivationConfig : DerivationConfig :=
  {| dc_Time := 1; dc_Memory := 64 * 1024; dc_Threads := 4; dc_Domain := bs "ZEAM_IDENTITY_V1" |}.

Section sessions.
Context {C : Crypto} {K : KeyCrypto C} {E : P256}.

Record StatelessIdentity := mkSI {
  si_held : bool; si_key : option PrivateKey; si_address : bytes; si_forkID : bytes; si_chainSalt : bytes; si_attestation : bytes;
  derivedAt : Z; expiresAt : Z; si_gate : HardwareGate;
}.

(** The random bytes and the clock of one call. *)
Record Env := { env_nonce : option bytes; env_rnd : bytes; env_now : Z }.

Definition uses_hardware (g : HardwareGate) : bool :=
  gate_Available g && negb (bool_decide (gate_Type g = GateTypeSoftware)) && negb (bool_decide (gate_Type g = GateTypeNone)).

Definition attest_for (env : Env) (chainSalt : bytes) (gate : option HardwareGate) : outcome (result bytes) :=
  match gate with
  | Some g =>
      if uses_hardware g then
        match env_nonce env with
        | None => Done (Err "failed to generate nonce")
        | Some nonce =>
            let! a := gate_Attest (env_rnd env) g (AttestationChallenge chainSalt (Z.div (env_now env) (10 ^ 9)) nonce) in
            Done (match a with Ok a => Ok a | Err _ => Err "hardware attestation failed" end)
        end
      else Done (Ok [])
  | None => Done (Ok [])
  end.

(** The key a combined secret leads to. *)
Definition derive_key (combined : bytes) (config : DerivationConfig) : result PrivateKey :=
  match ToECDSA (IDKey combined (Keccak256 (dc_Domain config)) (dc_Time config) (dc_Memory config) (dc_Threads config)) with
  | Ok k => Ok k
  | Err _ => Err "failed to derive private key"
  end.

Definition DeriveIdentity (env : Env) (userSecret chainSalt : bytes) (gate : option HardwareGate) (config : DerivationConfig) : outcome (result StatelessIdentity) :=
  if (length userSecret <? 8)%nat then Done (Err "user secret too short (minimum 8 bytes)")
  else if (length chainSalt <? 16)%nat then Done (Err "chain salt too short (minimum 16 bytes)")
  else
    let! att := attest_for env chainSalt gate in
    Done (let? attestation := att in
          let? k := derive_key (userSecret ++ chainSalt ++ attestation) config in
          Ok (mkSI true (Some k) (KeyAddress k) (Keccak256 (chainSalt ++ KeyAddress k)) chainSalt attestation
                   (env_now env) (env_now env + 24 * 3600 * 10 ^ 9) (default NoGate gate))).

Definition si_IsValid (now : Z) (si : StatelessIdentity) : bool := si_held si && negb (expiresAt si <? now).

(** Signing with a zeroed key is refused by the library. *)
Definition si_Sign (now : Z) (si : StatelessIdentity) (hash : bytes) : result bytes :=
  if negb (si_held si) then Err "identity not available (locked or expired)"
  else if expiresAt si <? now then Err "session expired"
  else match si_key si with Some k => EcSign hash k | None => Err "invalid private key" end.

(** [D.SetInt64(0)] and the dropped pointer.  [None] is the number zero: the model has the value of the key and not the words
    of memory that held it, which [SetInt64] truncates but does not overwrite. *)
Definition si_Lock (si : StatelessIdentity) : StatelessIdentity :=
  mkSI false (if si_held si then None else si_key si) (si_address si) (si_forkID si) (si_chainSalt si) [] (derivedAt si) (expiresAt si) (si_gate si).

Definition ExtendSession (now duration : Z) (si : StatelessIdentity) : StatelessIdentity :=
  mkSI (si_held si) (si_key si) (si_address si) (si_forkID si) (si_chainSalt si) (si_attestation si) (derivedAt si) (now + duration) (si_gate si).

Definition si_ShortID (si : StatelessIdentity) : bytes := hex_encode (take 4 (si_forkID si)) ++ bs "..." ++ hex_encode (drop 28 (si_forkID si)).

Definition ChainSaltFromBlockHash (blockHash randomCommitment : bytes) : bytes :=
  Keccak256 (bs "ZEAM_CHAIN_SALT_V1" ++ blockHash ++ randomCommitment).

Definition VerifyIdentity (env : Env) (userSecret chainSalt expected : bytes) (gate : option HardwareGate) (config : DerivationConfig) : outcome (result bool) :=
  let! r := DeriveIdentity env userSecret chainSalt gate config in
  Done (let? si := r in Ok (bytes_eqb (si_address si) expected)).

(** ** The session manager *)

Record SessionManager := mkSM {
  identities : list StatelessIdentity; current : option nat; autoLockAt : Z; lockTimeout : Z; sm_gate : HardwareGate; sm_config : DerivationConfig;
}.

Definition NewSessionManager (gate : HardwareGate) (config : DerivationConfig) : SessionManager := mkSM [] None 0 (15 * 60 * 10 ^ 9) gate config.

(** Locks the object a pointer leads to. *)
Definition lock_at (p : option nat) (l : list StatelessIdentity) : list StatelessIdentity := match p with Some i => alter si_Lock i l | None => l end.

Definition Unlock (env : Env) (userSecret chainSalt : bytes) (sm : SessionManager) : outcome (SessionManager * result unit) :=
  let ids := lock_at (current sm) (identities sm) in
  let! r := DeriveIdentity env userSecret chainSalt (Some (sm_gate sm)) (sm_config sm) in
  Done (match r with
        | Err e => (mkSM ids (current sm) (autoLockAt sm) (lockTimeout sm) (sm_gate sm) (sm_config sm), Err e)
        | Ok si => (mkSM (ids ++ [si]) (Some (length ids)) (env_now env + lockTimeout sm) (lockTimeout sm) (sm_gate sm) (sm_config sm), Ok tt)
        end).

Definition sm_Lock (sm : SessionManager) : SessionManager :=
  mkSM (lock_at (current sm) (identities sm)) None (autoLockAt sm) (lockTimeout sm) (sm_gate sm) (sm_config sm).

(** The pointer that is returned, and the manager, which locks itself when the time is over. *)
Definition sm_Current (now : Z) (sm : SessionManager) : SessionManager * option nat :=
  match current sm with
  | None => (sm, None)
  | Some i =>
      if autoLockAt sm <? now then (sm_Lock sm, None)
      else (sm, match identities sm !! i with Some si => if si_IsValid now si then Some i else None | None => None end)
  end.

Definition Touch (now : Z) (sm : SessionManager) : SessionManager :=
  mkSM (identities sm) (current sm) (now + lockTimeout sm) (lockTimeout sm) (sm_gate sm) (sm_config sm).

Definition SetLockTimeout (now d : Z) (sm : SessionManager) : SessionManager :=
  mkSM (identities sm) (current sm) (now + d) d (sm_gate sm) (sm_config sm).

Definition IsUnlocked (now : Z) (sm : SessionManager) : SessionManager * bool :=
  let r := sm_Current now sm in (r.1, bool_decide (is_Some r.2)).

(** A client that holds a pointer may lock or extend the identity itself. *)
Definition client_Lock (i : nat) (sm : SessionManager) : SessionManager :=
  mkSM (alter si_Lock i (identities sm)) (current sm) (autoLockAt sm) (lockTimeout sm) (sm_gate sm) (sm_config sm).
Definition client_Extend (i : nat) (now d : Z) (sm : SessionManager) : SessionManager :=
  mkSM (alter (ExtendSession now d) i (identities sm)) (current sm) (autoLockAt sm) (lockTimeout sm) (sm_gate sm) (sm_config sm).
Definition client_Sign (i : nat) (now : Z) (hash : bytes) (sm : SessionManager) : result bytes :=
  match identities sm !! i with Some si => si_Sign now si hash | None => Err "no identity" end.

(** ** The unified identity *)

Inductive IdentityMode := ModeFileBased | ModeStateless | ModeHybrid.

#[global] Instance IdentityMode_eq_dec : EqDecision IdentityMode.
Proof. solve_decision. Defined.

(** [ui_PrivateKey] is the pointer, [None] when nil, to what the key holds. *)
Record UnifiedIdentity := mkUI {
  ui_PrivateKey : option (option PrivateKey); ui_Address : bytes; ui_ForkID : bytes; ui_ShortID : bytes; ui_Mode : IdentityMode;
  ui_stateless : option StatelessIdentity;
}.

Record UnifiedConfig := {
  uc_ImportKey : bytes; uc_PasskeySecret : bytes; UserSecret : bytes; ChainSalt : bytes; uc_Gate : option HardwareGate; DerivConfig : DerivationConfig;
}.

Definition saltPath : bytes := bs "chain_salt.anchor".

(** The salt of the configuration, of the file, or a new one that is written to the file. *)
Definition obtain_salt (cfg : UnifiedConfig) (sys : Sys C) (fs : gmap bytes bytes) : gmap bytes bytes * result bytes :=
  if (0 <? length (ChainSalt cfg))%nat then (fs, Ok (ChainSalt cfg)) else
  match ReadFile sys saltPath fs with
  | Some data => (fs, Ok data)
  | None =>
      match rand_salt sys with
      | None => (fs, Err "failed to generate chain salt")
      | Some salt =>
          if negb (mkdir_ok sys) then (fs, Err "mkdir failed") else
          let r := WriteFile sys saltPath salt fs in (r.1, if r.2 then Ok salt else Err "failed to save chain salt")
      end
  end.

Definition unified_of (si : StatelessIdentity) : UnifiedIdentity :=
  mkUI (Some (si_key si)) (si_address si) (si_forkID si) (si_ShortID si) ModeStateless (Some si).

Definition default_config (c : DerivationConfig) : DerivationConfig := if (length (dc_Domain c) =? 0)%nat then DefaultDerivationConfig else c.

(** [goos] and [swkey] are what the detection of a gate sees. *)
Definition newStatelessIdentity (goos : string) (swkey : option P256Key) (cfg : UnifiedConfig) (sys : Sys C) (env : Env) (fs : gmap bytes bytes)
  : outcome (gmap bytes bytes * result UnifiedIdentity) :=
  if (length (UserSecret cfg) <? 8)%nat then Done (fs, Err "user secret too short (minimum 8 bytes)") else
  let s := obtain_salt cfg sys fs in
  match s.2 with
  | Err e => Done (s.1, Err e)
  | Ok chainSalt =>
      let gate := default (DetectHardwareGate goos swkey) (uc_Gate cfg) in
      let! r := DeriveIdentity env (UserSecret cfg) chainSalt (Some gate) (default_config (DerivConfig cfg)) in
      Done (s.1, match r with Ok si => Ok (unified_of si) | Err _ => Err "failed to derive identity" end)
  end.

(** [NewUnifiedIdentity] takes this way whatever the mode of the configuration. *)
Definition NewUnifiedIdentity := newStatelessIdentity.

Definition newFileBasedIdentity (cfg : UnifiedConfig) (sys : Sys C) (fs : gmap bytes bytes) : gmap bytes bytes * result UnifiedIdentity :=
  let r := New {| ImportKey := uc_ImportKey cfg; PasskeySecret := uc_PasskeySecret cfg; RequirePasskey := false |} sys fs in
  (r.1, let? id := r.2 in Ok (mkUI (Some (Some (id_PrivateKey id))) (id_Address id) (id_ForkID id) (id_ShortID id) ModeFileBased None)).

Definition newHybridIdentity (goos : string) (swkey : option P256Key) (cfg : UnifiedConfig) (sys : Sys C) (env : Env) (fs : gmap bytes bytes)
  : outcome (gmap bytes bytes * result UnifiedIdentity) :=
  if (0 <? length (UserSecret cfg))%nat && ((0 <? length (ChainSalt cfg))%nat || fileExists sys saltPath fs)
  then newStatelessIdentity goos swkey cfg sys env fs else Done (newFileBasedIdentity cfg sys fs).

Definition IsStateless (ui : UnifiedIdentity) : bool := bool_decide (ui_Mode ui = ModeStateless) && bool_decide (is_Some (ui_stateless ui)).

Definition ui_Sign (now : Z) (ui : UnifiedIdentity) (data : bytes) : result bytes :=
  match ui_stateless ui with
  | Some si => si_Sign now si (Keccak256 data)
  | None =>
      match ui_PrivateKey ui with
      | None => Err "no private key available"
      | Some None => Err "invalid private key"
      | Some (Some k) => EcSign (Keccak256 data) k
      end
  end.

Definition ui_Export (ui : UnifiedIdentity) : result bytes :=
  if bool_decide (ui_Mode ui = ModeStateless) then Err "stateless identity cannot be exported - re-derive with user secret" else
  match ui_PrivateKey ui with
  | Some (Some k) => Ok (hex_encode (FromECDSA k))
  | Some None => Ok (hex_encode zero32)
  | None => Err "no private key available"
  end.

Definition ui_Lock (ui : UnifiedIdentity) : UnifiedIdentity := mkUI None (ui_Address ui) (ui_ForkID ui) (ui_ShortID ui) (ui_Mode ui) None.

Definition ui_IsValid (now : Z) (ui : UnifiedIdentity) : bool :=
  match ui_stateless ui with Some si => si_IsValid now si | None => bool_decide (is_Some (ui_PrivateKey ui)) end.

Definition ui_GateType (ui : UnifiedIdentity) : GateType := match ui_stateless ui with Some si => gate_Type (si_gate si) | None => GateTypeNone end.

Definition migratedPath : bytes := bs "identity.migrated".

(** [marker] is the JSON of the migration record; [sys] serves the loading of the old identity and
    [sys'] what follows. *)
Definition MigrateToStateless (goos : string) (swkey : option P256Key) (marker : bytes -> bytes -> bytes -> bytes) (passkey newUserSecret : bytes)
  (gate : option HardwareGate) (sys sys' : Sys C) (env : Env) (fs : gmap bytes bytes) : outcome (gmap bytes bytes * result (UnifiedIdentity * bytes)) :=
  let old := New {| ImportKey := []; PasskeySecret := passkey; RequirePasskey := false |} sys fs in
  match old.2, rand_salt sys' with
  | Err _, _ => Done (old.1, Err "failed to load old identity")
  | Ok _, None => Done (old.1, Err "failed to generate commitment")
  | Ok oldID, Some commitment =>
      let chainSalt := ChainSaltFromBlockHash (id_Address oldID) commitment in
      let! r := DeriveIdentity env newUserSecret chainSalt (Some (default (DetectHardwareGate goos swkey) gate)) DefaultDerivationConfig in
      match r with
      | Err _ => Done (old.1, Err "failed to derive stateless identity")
      | Ok si =>
          let w1 := WriteFile sys' migratedPath (marker (id_Address oldID) (si_address si) chainSalt) old.1 in
          if negb w1.2 then Done (w1.1, Err "failed to write migration marker") else
          let w2 := WriteFile sys' saltPath chainSalt w1.1 in
          if negb w2.2 then Done (w2.1, Err "failed to save chain salt") else Done (w2.1, Ok (unified_of si, chainSalt))
      end
  end.
End sessions.

(** ** One live key *)

Section session_theorems.
Context {C : Crypto} {K : KeyCrypto C} {E : P256}.

Inductive session_step : SessionManager -> SessionManager -> Prop :=
  | s_unlock env secret salt sm r : Unlock env secret salt sm = Done r -> session_step sm r.1
  | s_lock sm : session_step sm (sm_Lock sm)
  | s_current now sm : session_step sm (sm_Current now sm).1
  | s_unlocked now sm : session_step sm (IsUnlocked now sm).1
  | s_touch now sm : session_step sm (Touch now sm)
  | s_timeout now d sm : session_step sm (SetLockTimeout now d sm)
  | s_client_lock i sm : session_step sm (client_Lock i sm)
  | s_client_extend i now d sm : session_step sm (client_Extend i now d sm).

Inductive session (gate : HardwareGate) (config : DerivationConfig) : SessionManager -> Prop :=
  | session_new : session gate config (NewSessionManager gate config)
  | session_next sm sm' : session gate config sm -> session_step sm sm' -> session gate config sm'.

(** An identity whose pointer is set is the current one; a locked one has a zeroed key. *)
Definition one_live (cur : option nat) (l : list StatelessIdentity) : Prop :=
  forall i si, l !! i = Some si -> if si_held si then cur = Some i else si_key si = None.

Lemma lock_zeroes si : (if si_held si then True else si_key si = None) -> si_held (si_Lock si) = false /\ si_key (si_Lock si) = None.
Proof. intros H. split; [done|]. cbn. by destruct (si_held si). Qed.

Lemma one_live_alter cur l i f :
  (forall si, si_held (f si) = si_held si /\ si_key (f si) = si_key si) -> one_live cur l -> one_live cur (alter f i l).
Proof.
  intros Hf H j si. rewrite list_lookup_alter. destruct (decide (i = j)) as [->|]; [|apply H].
  destruct (l !! j) as [si'|] eqn:El; [|done]. cbn. intros [= <-]. destruct (Hf si') as [-> ->]. by apply (H j).
Qed.

(** Locking the current identity leaves no live key. *)
Lemma lock_current cur l : one_live cur l -> forall i si, lock_at cur l !! i = Some si -> si_held si = false /\ si_key si = None.
Proof.
  intros H i si. unfold lock_at. destruct cur as [j|].
  - rewrite list_lookup_alter. destruct (decide (j = i)) as [->|Hn].
    + destruct (l !! i) as [si'|] eqn:El; [|done]. cbn. intros [= <-]. apply lock_zeroes. specialize (H i si' El). by destruct (si_held si').
    + intros El. specialize (H i si El). destruct (si_held si); [by injection H|done].
  - intros El. specialize (H i si El). by destruct (si_held si).
Qed.

Lemma one_live_lock cur l i : one_live cur l -> one_live cur (alter si_Lock i l).
Proof.
  intros H j si. rewrite list_lookup_alter. destruct (decide (i = j)) as [->|]; [|apply H].
  destruct (l !! j) as [si'|] eqn:El; [|done]. cbn. intros [= <-]. cbn. specialize (H j si' El). by destruct (si_held si').
Qed.

Lemma derived_live env secret salt gate config si : DeriveIdentity env secret salt gate config = Done (Ok si) -> si_held si = true.
Proof.
  unfold DeriveIdentity. destruct (_ <? _)%nat; [done|]. destruct (_ <? _)%nat; [done|]. destruct (attest_for env salt gate) as [[a|]| |]; cbn; try done.
  destruct (derive_key _ config) as [k|]; cbn; [|done]. intros [= <-]. done.
Qed.

Lemma locked_one_live cur cur' l : one_live cur l -> one_live cur' (lock_at cur l).
Proof. intros H i si El. by destruct (lock_current _ _ H i si El) as [-> ->]. Qed.

Lemma session_step_live sm sm' : session_step sm sm' -> one_live (current sm) (identities sm) -> one_live (current sm') (identities sm').
Proof.
  intros Hst H. assert (HL : one_live None (identities (sm_Lock sm))) by (by eapply locked_one_live).
  assert (HC : forall now, one_live (current (sm_Current now sm).1) (identities (sm_Current now sm).1)).
  { intros now. unfold sm_Current. destruct (current sm) as [i|] eqn:Ec; [|cbn [fst]; rewrite Ec; exact H]. case_match; [exact HL|]. cbn [fst]. rewrite Ec. exact H. }
  destruct Hst as [env secret salt sm r Hu| | | | | | |]; try done; try apply HC.
  - unfold Unlock in Hu. destruct (DeriveIdentity env secret salt (Some (sm_gate sm)) (sm_config sm)) as [[si|e]| |] eqn:Ed; cbn in Hu; try done; injection Hu as <-; cbn.
    + intros i si' Hi. apply lookup_app_Some in Hi as [Hi|[Hge Hi]].
      * by destruct (lock_current _ _ H i si' Hi) as [-> ->].
      * apply list_lookup_singleton_Some in Hi as [Hz <-]. rewrite (derived_live _ _ _ _ _ _ Ed). f_equal. lia.
    + by eapply locked_one_live.
  - by apply one_live_lock.
  - by apply one_live_alter.
Qed.

(** C27: Only the current identity of a session manager has a private key: after any
    sequence of unlocking (also failing), locking, timeouts and changes by clients that kept a
    pointer, the key of every other identity ever handed out is the number zero. *)
Theorem single_live_key gate config sm i si :
  session gate config sm -> identities sm !! i = Some si -> si_key si <> None -> current sm = Some i.
Proof.
  intros Hs Hi Hk. assert (H : one_live (current sm) (identities sm)).
  { clear Hi Hk. induction Hs; [by intros ? ?|by eapply session_step_live]. }
  specialize (H i si Hi). by destruct (si_held si).
Qed.

(** After the time limit nobody can sign: once the manager has been asked for its identity
    after the limit, no pointer handed out before signs anything at any time. *)
Theorem timeout_locks gate config sm now i t h :
  session gate config sm -> autoLockAt sm < now -> let sm' := (sm_Current now sm).1 in
  (sm_Current now sm).2 = None /\ is_ok (client_Sign i t h sm') = false.
Proof.
  intros Hs Hn. assert (H : one_live (current sm) (identities sm)).
  { clear Hn. induction Hs; [by intros ? ?|by eapply session_step_live]. }
  unfold sm_Current. destruct (current sm) as [j|] eqn:Ec.
  - rewrite (proj2 (Z.ltb_lt _ _)) by done. split; [done|]. cbn [fst]. unfold client_Sign. cbn [sm_Lock identities]. rewrite Ec.
    destruct (lock_at (Some j) (identities sm) !! i) as [si|] eqn:El; [|done]. destruct (lock_current _ _ H i si El) as [Hh _]. unfold si_Sign. by rewrite Hh.
  - split; [done|]. cbn [fst]. unfold client_Sign. destruct (identities sm !! i) as [si|] eqn:El; [|done].
    destruct (lock_current _ _ H i si El) as [Hh _]. unfold si_Sign. by rewrite Hh.
Qed.

(** ** Derivation *)

(** Without hardware the derivation does not depend on the clock or on random values. *)
Lemma derivation_reproducible env env' secret salt g config si :
  uses_hardware g = false -> DeriveIdentity env secret salt (Some g) config = Done (Ok si) ->
  exists si', DeriveIdentity env' secret salt (Some g) config = Done (Ok si') /\
    si_key si' = si_key si /\ si_address si' = si_address si /\ si_forkID si' = si_forkID si.
Proof.
  intros Hg. unfold DeriveIdentity. destruct (_ <? _)%nat; [done|]. destruct (_ <? _)%nat; [done|]. unfold attest_for. rewrite Hg. cbn.
  destruct (derive_key _ config) as [k|]; cbn; [|done]. intros [= <-]. by eexists.
Qed.

(** Nothing separates secret and salt: moving bytes from the end of one to the front of
    the other derives the same private key. *)
Lemma derivation_ambiguous env s x salt g config si si' :
  uses_hardware g = false ->
  DeriveIdentity env (s ++ x) salt (Some g) config = Done (Ok si) -> DeriveIdentity env s (x ++ salt) (Some g) config = Done (Ok si') ->
  si_key si = si_key si' /\ si_address si = si_address si'.
Proof.
  intros Hg. unfold DeriveIdentity. repeat (destruct (_ <? _)%nat; [done|]). unfold attest_for. rewrite Hg. cbn. rewrite <- !app_assoc.
  destruct (derive_key _ config) as [k|]; cbn; [|done]. intros [= <-] [= <-]. done.
Qed.

Lemma detected_no_hardware goos key : uses_hardware (DetectHardwareGate goos key) = false.
Proof. unfold DetectHardwareGate. cbn. rewrite !andb_false_r. by destruct key. Qed.

(** ** Attestations *)

Lemma pack_fields r s : 0 <= r < 2 ^ 256 -> 0 <= s < 2 ^ 256 -> pack_signature r s = Done (rho_field r ++ rho_field s).
Proof.
  intros Hr Hs. unfold pack_signature. destruct (rho_field_spec r Hr) as (_ & Lr & _).
  pose proof (overwrite_field [] (zeros 32) r Hr) as E1. cbn [app length Nat.add] in E1. change (zeros 64) with (zeros 32 ++ zeros 32). rewrite E1. cbn [outcome_bind].
  pose proof (overwrite_field (rho_field r) [] s Hs) as E2. rewrite Lr, !app_nil_r in E2. exact E2.
Qed.

(** What the software gate attests it verifies, in 64 bytes, as long as it is not cleared. *)
Lemma software_attestation_verifies `{!P256Laws E} rnd k c sig :
  gate_Attest rnd (SoftwareGate (Some k) true) c = Done (Ok sig) ->
  length sig = 64%nat /\ gate_Verify (SoftwareGate (Some k) true) c sig = true /\ gate_Verify (gate_Clear (SoftwareGate (Some k) true)) c sig = false.
Proof.
  cbn [gate_Attest]. destruct (p256_sign rnd k (sha256 c)) as [[r s]|] eqn:Es; [|done]. destruct (p256_sound _ _ _ _ _ Es) as (Hv & Hr & Hs).
  rewrite (pack_fields r s Hr Hs). cbn [outcome_bind]. intros [= <-]. destruct (rho_field_spec r Hr) as (_ & Lr & Vr), (rho_field_spec s Hs) as (_ & Ls & Vs).
  split; [rewrite length_app; lia|]. split; [|done]. cbn [gate_Verify]. rewrite length_app, Lr, Ls. cbn [Nat.add Nat.eqb negb].
  rewrite take_app_length', drop_app_length' by done. by rewrite Vr, Vs.
Qed.

(** ** Restarts and migration *)

Lemma obtain_salt_again cfg sys fs fs' salt : ChainSalt cfg = [] -> obtain_salt cfg sys fs = (fs', Ok salt) -> fs' !! saltPath = Some salt.
Proof.
  intros Hc. unfold obtain_salt. rewrite Hc. cbn [length Nat.ltb Nat.leb]. destruct (ReadFile sys saltPath fs) as [d|] eqn:Ed; [intros [= <- <-]; by eapply ReadFile_ok|].
  destruct (rand_salt sys) as [s|]; [|done]. destruct (mkdir_ok sys); cbn [negb]; [|done]. unfold WriteFile.
  destruct (write_fault sys saltPath) as [[g|]|]; cbn; try done. intros [= <- <-]. apply lookup_insert_eq.
Qed.

Lemma start_from_salt goos swkey cfg sys env env' fs salt si :
  ChainSalt cfg = [] -> uses_hardware (default (DetectHardwareGate goos swkey) (uc_Gate cfg)) = false -> fs !! saltPath = Some salt ->
  DeriveIdentity env (UserSecret cfg) salt (Some (default (DetectHardwareGate goos swkey) (uc_Gate cfg))) (default_config (DerivConfig cfg)) = Done (Ok si) ->
  read_ok sys saltPath = true ->
  exists ui, newStatelessIdentity goos swkey cfg sys env' fs = Done (fs, Ok ui) /\ ui_Address ui = si_address si /\ ui_ForkID ui = si_forkID si.
Proof.
  intros Hc Hg Hf Hd Hread. destruct (derivation_reproducible env env' _ _ _ _ _ Hg Hd) as (si' & Hd' & _ & Ha & Hk). exists (unified_of si').
  split; [|done]. unfold newStatelessIdentity. unfold DeriveIdentity in Hd. destruct (length (UserSecret cfg) <? 8)%nat; [done|].
  unfold obtain_salt, ReadFile. rewrite Hc, Hread. cbn [length Nat.ltb Nat.leb]. rewrite Hf. cbn [snd fst]. rewrite Hd'. done.
Qed.

(** A stateless identity survives restarts: when a start without a salt in its configuration
    succeeds, by reading the salt file or by creating it, every later start with the same secret that can read
    the file has the same address and fork, whatever the clock, the random values and the other faults. *)
Theorem stateless_persists goos swkey cfg sys sys' env env' fs fs' ui :
  newStatelessIdentity goos swkey cfg sys env fs = Done (fs', Ok ui) -> ChainSalt cfg = [] ->
  match uc_Gate cfg with Some g => uses_hardware g = false | None => True end -> read_ok sys' saltPath = true ->
  exists ui', newStatelessIdentity goos swkey cfg sys' env' fs' = Done (fs', Ok ui') /\ ui_Address ui' = ui_Address ui /\ ui_ForkID ui' = ui_ForkID ui.
Proof.
  intros H Hc Hg Hread. assert (Hu : uses_hardware (default (DetectHardwareGate goos swkey) (uc_Gate cfg)) = false)
    by (destruct (uc_Gate cfg); [done|apply detected_no_hardware]).
  unfold newStatelessIdentity in H. destruct (_ <? _)%nat eqn:El; [done|]. destruct (obtain_salt cfg sys fs) as [f [salt|]] eqn:Es; cbn [fst snd] in H; [|done].
  apply obtain_salt_again in Es; [|done].
  destruct (DeriveIdentity env _ salt _ _) as [[si|]| |] eqn:Ed; cbn [outcome_bind] in H; try done. injection H as <- <-.
  destruct (start_from_salt goos swkey cfg sys' env env' f salt si Hc Hu Es Ed Hread) as (ui' & H1 & H2 & H3). by exists ui'.
Qed.

(** Without the file the identity is lost: a start that cannot read the salt takes the file for absent and writes a new
    salt over the old one. *)
Lemma read_fault_replaces_salt cfg sys fs old new :
  ChainSalt cfg = [] -> fs !! saltPath = Some old -> read_ok sys saltPath = false -> rand_salt sys = Some new -> mkdir_ok sys = true -> write_fault sys saltPath = None ->
  obtain_salt cfg sys fs = (<[saltPath := new]> fs, Ok new).
Proof.
  intros Hc _ Hr Hs Hm Hw. unfold obtain_salt, ReadFile, WriteFile. by rewrite Hc, Hr, Hs, Hm, Hw.
Qed.

(** A migrated identity is the one that the next start with the new secret derives. *)
Lemma migration_persists goos swkey marker passkey secret gate sys sys' sys'' env env' fs fs' ui salt cfg :
  MigrateToStateless goos swkey marker passkey secret gate sys sys' env fs = Done (fs', Ok (ui, salt)) ->
  UserSecret cfg = secret -> ChainSalt cfg = [] -> uc_Gate cfg = gate -> DerivConfig cfg = DefaultDerivationConfig ->
  match gate with Some g => uses_hardware g = false | None => True end -> read_ok sys'' saltPath = true ->
  exists ui', newStatelessIdentity goos swkey cfg sys'' env' fs' = Done (fs', Ok ui') /\ ui_Address ui' = ui_Address ui /\ ui_ForkID ui' = ui_ForkID ui.
Proof.
  intros H <- Hc <- Hd Hg Hread. assert (Hu : uses_hardware (default (DetectHardwareGate goos swkey) (uc_Gate cfg)) = false)
    by (destruct (uc_Gate cfg); [done|apply detected_no_hardware]).
  unfold MigrateToStateless in H. destruct (New _ sys fs) as [f [old|]]; cbn [fst snd] in H; [|done]. destruct (rand_salt sys') as [cm|]; [|done].
  destruct (DeriveIdentity env _ _ _ _) as [[si|]| |] eqn:Ed; cbn [outcome_bind] in H; try done.
  unfold WriteFile in H. destruct (write_fault sys' migratedPath) as [[?|]|]; cbn [fst snd negb] in H; try done.
  destruct (write_fault sys' saltPath) as [[?|]|]; cbn [fst snd negb] in H; try done. injection H as <- <- <-.
  destruct (start_from_salt goos swkey cfg sys'' env env' (<[saltPath := ChainSaltFromBlockHash (id_Address old) cm]>
    (<[migratedPath := marker (id_Address old) (si_address si) (ChainSaltFromBlockHash (id_Address old) cm)]> f)) _ si Hc Hu (lookup_insert_eq _ _ _)) as (ui' & H1 & H2 & H3).
  - rewrite Hd. exact Ed.
  - exact Hread.
  - by exists ui'.
Qed.
End session_theorems.

(** ** A concrete instance *)

Module ToySessions.
Definition curve : P256 := {|
  P256Key := byte;
  p256_sign := fun _ k h => Ok (be_int h mod 2 ^ 256, byteZ k);
  p256_verify := fun k h r s => (r =? be_int h mod 2 ^ 256) && (s =? byteZ k);
  p256_compressed := fun k => [k];
|}.

#[global] Instance curve_laws : P256Laws curve.
Proof.
  split. intros rnd k h r s H. cbn in H. injection H as <- <-. cbn [p256_verify curve]. rewrite !Z.eqb_refl.
  pose proof (Z.mod_pos_bound (be_int h) (2 ^ 256) ltac:(lia)). pose proof (byteZ_range k). split; [done|]. split; [lia|]. split; [lia|].
  eapply Z.lt_trans; [apply byteZ_range|by vm_compute].
Qed.

Definition secret : bytes := bs "correct horse".
Definition salt : bytes := replicate 16 Byte.x05.
Definition env (t : Z) : Env := {| env_nonce := None; env_rnd := []; env_now := t |}.
Definition manager := NewSessionManager (C := Toy.crypto) (E := curve) NoGate LightDerivationConfig.
Definition unlocked := match Unlock (K := ToyKeys.keys) (env 1000) secret salt manager with Done r => r.1 | _ => manager end.
Definition cfg : UnifiedConfig (E := curve) :=
  {| uc_ImportKey := []; uc_PasskeySecret := []; UserSecret := secret; ChainSalt := []; uc_Gate := Some NoGate; DerivConfig := LightDerivationConfig |}.
Definition sys : Sys Toy.crypto := {|
  mkdir_ok := true; stat_ok := fun _ => true; read_ok := fun _ => true; write_fault := fun _ => None; remove_ok := fun _ => true; rand_salt := Some salt; rand_nonce := None; generated := Err "unused" |}.
End ToySessions.

Lemma unlocked_session : session (K := ToyKeys.keys) (E := ToySessions.curve) NoGate LightDerivationConfig ToySessions.unlocked.
Proof. eapply session_next; [apply session_new|]. eapply (s_unlock (ToySessions.env 1000) ToySessions.secret ToySessions.salt). reflexivity. Qed.

Definition first_identity : option StatelessIdentity := identities ToySessions.unlocked !! 0%nat.

Lemma first_unlocked : exists si, first_identity = Some si /\ si_key si <> None.
Proof.
  assert (H : match first_identity with Some si => bool_decide (is_Some (si_key si)) | None => false end = true) by (vm_compute; reflexivity).
  revert H. generalize first_identity. intros [si|] H; [|discriminate]. exists si. split; [done|]. apply bool_decide_eq_true in H. intros Hn. rewrite Hn in H. by destruct H.
Qed.

Lemma single_live_key_witness : current ToySessions.unlocked = Some 0%nat.
Proof.
  destruct first_unlocked as (si & Es & Hk).
  exact (single_live_key (K := ToyKeys.keys) (E := ToySessions.curve) NoGate LightDerivationConfig _ 0 si unlocked_session Es Hk).
Defined.

Lemma timeout_locks_witness :
  let late := 1000 + 16 * 60 * 10 ^ 9 in
  is_ok (client_Sign (E := ToySessions.curve) 0 2000 zero32 ToySessions.unlocked) = true /\
  is_ok (client_Sign (E := ToySessions.curve) 0 2000 zero32 (sm_Current late ToySessions.unlocked).1) = false.
Proof.
  split; [vm_compute; reflexivity|].
  apply (timeout_locks (K := ToyKeys.keys) (E := ToySessions.curve) NoGate LightDerivationConfig); [apply unlocked_session|vm_compute; reflexivity].
Defined.

Definition first_start (t : Z) (fs : gmap bytes bytes) :=
  newStatelessIdentity (K := ToyKeys.keys) "linux" None ToySessions.cfg ToySessions.sys (ToySessions.env t) fs.

Lemma first_start_ok : exists fs' ui, first_start 5 ∅ = Done (fs', Ok ui).
Proof.
  assert (H : match first_start 5 ∅ with Done (_, Ok _) => true | _ => false end = true) by (vm_compute; reflexivity).
  revert H. generalize (first_start 5 ∅). intros [[fs' [ui|]]| |] H; try discriminate. by exists fs', ui.
Qed.

Lemma stateless_persists_witness : exists fs' ui ui',
  first_start 5 ∅ = Done (fs', Ok ui) /\ first_start 99 fs' = Done (fs', Ok ui') /\ ui_Address ui' = ui_Address ui /\ ui_ForkID ui' = ui_ForkID ui.
Proof.
  destruct first_start_ok as (fs' & ui & Es).
  destruct (stateless_persists (K := ToyKeys.keys) "linux" None ToySessions.cfg ToySessions.sys ToySessions.sys (ToySessions.env 5) (ToySessions.env 99) ∅ fs' ui Es eq_refl eq_refl eq_refl)
    as (ui' & H1 & H2 & H3).
  exists fs', ui, ui'. split; [exact Es|]. split; [exact H1|]. split; [exact H2|exact H3].
Defined.
