(* ===== verification/River.v ===== *)
(** * The event river of the node ([node/river.go], [node/river_impl.go], the feed of
      [node/multichain.go])

    Contents: Go's buffered channels as the fan-out uses them; the fan-out with its
    subscriptions; the feed that turns callbacks of the transports into events, starts and stops
    them; the feed of the multi-chain transport.

    A channel is an object that the fan-out and the subscriber share: channels are in a list
    and a pointer is an index.  Sending to and closing a closed channel panic, as in Go; a
    [select] with a default case drops the event when the channel has no room and no
    receiver is parked on it.  Iteration over a Go map has no order: [Emit] and [Close] take it as
    an argument.

    The theorems: no sequence of calls sends to or closes a closed channel
    ([fanout_never_panics]); a subscriber reads the emitted events in order, with gaps only where
    its buffer was full ([delivery_in_order]), and all of them when it keeps up
    ([delivery_complete]); the order of the iteration does not matter ([emit_order_irrelevant]);
    the multi-chain feed broadcasts on Ethereum whenever it can ([primary_is_ethereum]). *)

From Stdlib Require Import String SpecFloat.
From S2P Require Import Prelude Json Signing Float64.

(** ** Events *)

Inductive NetworkEventType := EventTxHashes | EventTxFull | EventZEAMMessage | EventL1Block | EventL2Block | EventPeerConnect | EventPeerDrop.

#[global] Instance NetworkEventType_eq_dec : EqDecision NetworkEventType.
Proof. solve_decision. Defined.

Record L2BlockGossip := mkL2Block {
  l2_ChainID : Z; l2_BlockNumber : Z; l2_BlockHash : bytes; l2_ParentHash : bytes; l2_Timestamp : Z; l2_Transactions : list bytes;
  l2_ReceivedAt : Z; l2_FromPeer : string;
}.

Definition ExtractTransactionHashes {C : Crypto} (block : L2BlockGossip) : list bytes := map Keccak256 (l2_Transactions block).

Section river.
(** A transaction of the Ethereum library. *)
Context {Tx : Type}.

Record NetworkEvent := mkEvent {
  ev_Type : NetworkEventType; ev_ChainID : Z; ev_Timestamp : Z; ev_Hashes : list bytes; ev_Txs : list Tx; ev_ZEAMData : bytes;
  ev_ZEAMTx : option Tx; ev_L1BlockHash : bytes; ev_L1BlockNumber : Z; ev_L2Block : option L2BlockGossip; ev_PeerID : string;
  ev_NetworkID : Z;
}.

(** An event with the fields of a composite literal that names only type, chain and time. *)
Definition event0 (t : NetworkEventType) (chain now : Z) : NetworkEvent :=
  mkEvent t chain now [] [] [] None zero32 0 None EmptyString 0.

(** ** Channels *)

Record Chan := mkChan { buf : list NetworkEvent; cap : nat; open : bool }.

Definition close_chan (c : Chan) : outcome Chan :=
  if open c then Done (mkChan (buf c) (cap c) false) else Panic "close of closed channel".

(** [select { case ch <- e: default: }]; [parked] says whether a receiver waits on the channel. *)
Definition try_send (parked : bool) (e : NetworkEvent) (c : Chan) : outcome Chan :=
  if negb (open c) then Panic "send on closed channel"
  else if (length (buf c) <? cap c)%nat || (parked && (length (buf c) =? 0)%nat) then Done (mkChan (buf c ++ [e]) (cap c) true)
  else Done c.

(** What a receive gets: an event, the mark of a closed and empty channel, or it blocks. *)
Inductive received_value := Received (e : NetworkEvent) | ReceivedClosed | WouldBlock.

Definition recv_chan (c : Chan) : received_value * Chan :=
  match buf c with
  | e :: rest => (Received e, mkChan rest (cap c) (open c))
  | [] => (if open c then WouldBlock else ReceivedClosed, c)
  end.

(** ** The fan-out *)

Record FeedSubscription := mkSub { sub_id : Z; sub_ch : nat }.

(** [subs] is [None] for the nil map of a zero value. *)
Record EventFanOut := mkFanOut { subs : option (gmap Z nat); nextID : Z; chans : list Chan }.

Definition subs_of (f : EventFanOut) : gmap Z nat := default ∅ (subs f).

Definition zero_fanOut : EventFanOut := mkFanOut None 0 [].
Definition newEventFanOut : EventFanOut := mkFanOut (Some ∅) 0 [].

Definition fanOut_Init (f : EventFanOut) : EventFanOut :=
  match subs f with None => mkFanOut (Some ∅) (nextID f) (chans f) | Some _ => f end.

Definition fanOut_Subscribe (bufSize : Z) (f : EventFanOut) : outcome (FeedSubscription * EventFanOut) :=
  let id := u64 (nextID f + 1) in
  if bufSize <? 0 then Panic "makechan: size out of range"
  else match subs f with
       | None => Panic "assignment to entry in nil map"
       | Some m =>
           let loc := length (chans f) in
           Done (mkSub id loc, mkFanOut (Some (<[id := loc]> m)) id (chans f ++ [mkChan [] (Z.to_nat bufSize) true]))
       end.

Definition with_chan {A} (loc : nat) (k : Chan -> outcome A) (f : EventFanOut) : outcome A :=
  match chans f !! loc with Some c => k c | None => Panic "invalid memory address or nil pointer dereference" end.

Definition put_chan (loc : nat) (c : Chan) (f : EventFanOut) : EventFanOut := mkFanOut (subs f) (nextID f) (<[loc := c]> (chans f)).

Definition fanOut_remove (id : Z) (f : EventFanOut) : outcome EventFanOut :=
  match subs_of f !! id with
  | None => Done f
  | Some loc =>
      let! c := with_chan loc close_chan f in
      let f' := put_chan loc c f in
      Done (mkFanOut (delete id <$> subs f') (nextID f') (chans f'))
  end.

Definition Unsubscribe (s : FeedSubscription) (f : EventFanOut) : outcome EventFanOut := fanOut_remove (sub_id s) f.

(** [order] is the order in which the map is walked. *)
Fixpoint emit_to (parked : nat -> bool) (e : NetworkEvent) (order : list nat) (f : EventFanOut) : outcome EventFanOut :=
  match order with
  | [] => Done f
  | loc :: rest => let! c := with_chan loc (try_send (parked loc) e) f in emit_to parked e rest (put_chan loc c f)
  end.

Definition fanOut_Emit (parked : nat -> bool) (order : list (Z * nat)) (e : NetworkEvent) (f : EventFanOut) : outcome EventFanOut :=
  emit_to parked e order.*2 f.

Fixpoint fanOut_Close (order : list (Z * nat)) (f : EventFanOut) : outcome EventFanOut :=
  match order with
  | [] => Done f
  | (id, loc) :: rest =>
      let! c := with_chan loc close_chan f in
      let f' := put_chan loc c f in
      fanOut_Close rest (mkFanOut (delete id <$> subs f') (nextID f') (chans f'))
  end.

(** [<-sub.C]. *)
Definition receive (loc : nat) (f : EventFanOut) : outcome (received_value * EventFanOut) :=
  with_chan loc (fun c => Done ((recv_chan c).1, put_chan loc (recv_chan c).2 f)) f.

(** ** Calls in sequence *)

Inductive fan_op :=
  | OpSubscribe (bufSize : Z)
  | OpUnsubscribe (id : Z)
  | OpEmit (parked : nat -> bool) (order : list (Z * nat)) (e : NetworkEvent)
  | OpClose (order : list (Z * nat))
  | OpReceive (loc : nat).

Inductive fan_res := RDone | RSub (s : FeedSubscription) | RRecv (loc : nat) (v : received_value).

Definition fan_apply (o : fan_op) (f : EventFanOut) : outcome (fan_res * EventFanOut) :=
  match o with
  | OpSubscribe n => let! (s, f') := fanOut_Subscribe n f in Done (RSub s, f')
  | OpUnsubscribe id => let! f' := fanOut_remove id f in Done (RDone, f')
  | OpEmit parked order e => let! f' := fanOut_Emit parked order e f in Done (RDone, f')
  | OpClose order => let! f' := fanOut_Close order f in Done (RDone, f')
  | OpReceive loc => let! (v, f') := receive loc f in Done (RRecv loc v, f')
  end.

(** What Go guarantees of an operation: sizes are not negative, a loop visits the map once, and
    only a channel that exists is read. *)
Definition fan_legal (o : fan_op) (f : EventFanOut) : Prop :=
  match o with
  | OpSubscribe n => 0 <= n
  | OpUnsubscribe _ => True
  | OpEmit _ order _ | OpClose order => order ≡ₚ map_to_list (subs_of f)
  | OpReceive loc => (loc < length (chans f))%nat
  end.

Inductive fan_run : EventFanOut -> list fan_op -> list fan_res -> EventFanOut -> Prop :=
  | run_nil f : fan_run f [] [] f
  | run_cons f o r f1 os rs f2 : fan_legal o f -> fan_apply o f = Done (r, f1) -> fan_run f1 os rs f2 -> fan_run f (o :: os) (r :: rs) f2.

(** The registered channels are open and different. *)
Definition fan_ok (f : EventFanOut) : Prop :=
  is_Some (subs f) /\
  (forall id loc, subs_of f !! id = Some loc -> exists c, chans f !! loc = Some c /\ open c = true) /\
  (forall id id' loc, subs_of f !! id = Some loc -> subs_of f !! id' = Some loc -> id = id').


(** *** Effect of each operation *)

(** The send when the channel is open. *)
Definition push (parked : bool) (e : NetworkEvent) (c : Chan) : Chan :=
  if (length (buf c) <? cap c)%nat || (parked && (length (buf c) =? 0)%nat) then mkChan (buf c ++ [e]) (cap c) (open c) else c.

Definition broadcast (parked : nat -> bool) (e : NetworkEvent) (locs : list nat) (l : list Chan) : list Chan :=
  imap (fun loc c => if bool_decide (loc ∈ locs) then push (parked loc) e c else c) l.

Lemma open_push p e c : open (push p e c) = open c.
Proof. unfold push. by case_match. Qed.

Lemma cap_push p e c : cap (push p e c) = cap c.
Proof. unfold push. by case_match. Qed.

Lemma try_send_open p e c : open c = true -> try_send p e c = Done (push p e c).
Proof. intros H. unfold try_send, push. rewrite H. cbn. by case_match. Qed.

Lemma broadcast_nil p e l : broadcast p e [] l = l.
Proof. apply list_eq. intros i. unfold broadcast. rewrite list_lookup_imap. destruct (l !! i); [|done]. cbn. by rewrite bool_decide_eq_false_2 by apply not_elem_of_nil. Qed.

Lemma broadcast_cons p e loc locs l c :
  loc ∉ locs -> l !! loc = Some c -> broadcast p e locs (<[loc := push (p loc) e c]> l) = broadcast p e (loc :: locs) l.
Proof.
  intros Hn Hl. apply list_eq. intros i. unfold broadcast. rewrite !list_lookup_imap. destruct (decide (i = loc)) as [->|Hi].
  - rewrite list_lookup_insert_eq by (by eapply lookup_lt_Some). rewrite Hl. cbn.
    rewrite bool_decide_eq_false_2 by done. by rewrite bool_decide_eq_true_2 by (by left).
  - rewrite list_lookup_insert_ne by done. destruct (l !! i); [|done]. cbn. do 2 f_equal.
    by rewrite (bool_decide_ext (i ∈ loc :: locs) (i ∈ locs)) by (rewrite elem_of_cons; naive_solver).
Qed.

Lemma emit_to_spec p e locs f :
  NoDup locs -> (forall loc, loc ∈ locs -> exists c, chans f !! loc = Some c /\ open c = true) ->
  emit_to p e locs f = Done (mkFanOut (subs f) (nextID f) (broadcast p e locs (chans f))).
Proof.
  intros Hd. revert f. induction Hd as [|loc locs Hn Hd IH]; intros f Ho.
  - cbn. rewrite broadcast_nil. by destruct f.
  - destruct (Ho loc) as (c & Hc & Hop); [by left|]. cbn [emit_to]. unfold with_chan. rewrite Hc. cbn. rewrite (try_send_open _ _ _ Hop). cbn.
    rewrite IH; cbn [put_chan subs nextID chans].
    + by rewrite (broadcast_cons _ _ _ _ _ _ Hn Hc).
    + intros l' Hl'. destruct (Ho l') as (c' & Hc' & Hop'); [by right|].
      rewrite list_lookup_insert_ne by naive_solver. eauto.
Qed.

Lemma fan_locs_NoDup f order : fan_ok f -> order ≡ₚ map_to_list (subs_of f) -> NoDup order.*2.
Proof.
  intros (_ & _ & Hinj) Hp. rewrite Hp. apply NoDup_fmap_2_strong; [|apply NoDup_map_to_list].
  intros [a l] [b l'] H1 H2 H. cbn in H. subst l'. apply elem_of_map_to_list in H1, H2. by rewrite (Hinj _ _ _ H1 H2).
Qed.

Lemma fan_locs_elem f order loc : order ≡ₚ map_to_list (subs_of f) -> loc ∈ order.*2 <-> exists id, subs_of f !! id = Some loc.
Proof.
  intros Hp. rewrite Hp, list_elem_of_fmap. split.
  - intros ([id l] & -> & H). exists id. by apply elem_of_map_to_list in H.
  - intros [id H]. exists (id, loc). split; [done|]. by apply elem_of_map_to_list.
Qed.

Lemma emit_spec f p order e :
  fan_ok f -> order ≡ₚ map_to_list (subs_of f) ->
  fanOut_Emit p order e f = Done (mkFanOut (subs f) (nextID f) (broadcast p e order.*2 (chans f))).
Proof.
  intros Hok Hp. apply emit_to_spec; [by eapply fan_locs_NoDup|].
  intros loc Hl. apply (fan_locs_elem _ _ _ Hp) in Hl as [id Hid]. destruct Hok as (_ & H & _). by eapply H.
Qed.

Lemma subs_of_Some m n l : subs_of (mkFanOut (Some m) n l) = m.
Proof. done. Qed.

Definition removed (id : Z) (loc : nat) (c : Chan) (f : EventFanOut) : EventFanOut :=
  mkFanOut (Some (delete id (subs_of f))) (nextID f) (<[loc := mkChan (buf c) (cap c) false]> (chans f)).

Lemma remove_spec f id loc c :
  fan_ok f -> subs_of f !! id = Some loc -> chans f !! loc = Some c -> fanOut_remove id f = Done (removed id loc c f) /\ fan_ok (removed id loc c f).
Proof.
  intros ([m Hm] & Ho & Hi) Hid Hc. destruct (Ho _ _ Hid) as (c0 & Hc0 & Hop). simplify_eq. split.
  - unfold fanOut_remove. rewrite Hid. unfold with_chan. rewrite Hc. cbn. unfold close_chan. rewrite Hop. cbn.
    unfold removed, subs_of. by rewrite Hm.
  - split_and!.
    + by eexists.
    + intros id' loc' H. unfold removed in H. rewrite subs_of_Some in H. apply lookup_delete_Some in H as [Hne H].
      destruct (Ho _ _ H) as (c' & Hc' & Hop'). exists c'. cbn. rewrite list_lookup_insert_ne; [done|]. intros ->. by specialize (Hi _ _ _ Hid H).
    + intros id1 id2 l. unfold removed. rewrite subs_of_Some, !lookup_delete_Some. intros [_ H1] [_ H2]. eauto.
Qed.

(** [Close] removes one subscription after the other. *)
Lemma close_spec order f :
  fan_ok f -> NoDup order.*1 -> (forall id loc, (id, loc) ∈ order -> subs_of f !! id = Some loc) ->
  exists f', fanOut_Close order f = Done f' /\ fan_ok f' /\ (forall i l, subs_of f' !! i = Some l -> subs_of f !! i = Some l /\ i ∉ order.*1) /\
    (forall l c, chans f !! l = Some c -> exists b, chans f' !! l = Some (mkChan (buf c) (cap c) b) /\ (l ∈ order.*2 \/ open c = false -> b = false)).
Proof.
  revert f. induction order as [|[id loc] order IH]; intros f Hok Hd Hin; [exists f; split_and!; [done..|set_solver|]|].
  { intros l [b k o] Hc. exists o. split; [done|]. intros [H|H]; [by apply not_elem_of_nil in H|done]. }
  cbn in Hd. apply NoDup_cons in Hd as [Hn Hd].
  assert (Hid : subs_of f !! id = Some loc) by (apply Hin; by left).
  destruct (Hok) as ([m Hm] & Ho & _). destruct (Ho _ _ Hid) as (c & Hc & Hop).
  destruct (remove_spec f id loc c Hok Hid Hc) as [E Hok'].
  destruct (IH (removed id loc c f) Hok' Hd) as (f' & E' & R & N & L).
  { intros id' loc' H. unfold removed. rewrite subs_of_Some, lookup_delete_ne; [apply Hin; by right|].
    intros ->. apply Hn, list_elem_of_fmap. by exists (id', loc'). }
  exists f'. split_and!; [|done| |].
  3: { intros l c1 Hl. destruct (decide (l = loc)) as [->|Hn'].
       - rewrite Hc in Hl. injection Hl as <-. destruct (L loc (mkChan (buf c) (cap c) false)) as (b & Hb & Hf).
         { cbn. by rewrite list_lookup_insert_eq by (by eapply lookup_lt_Some). } exists b. split; [done|]. intros _. apply Hf. by right.
       - destruct (L l c1) as (b & Hb & Hf); [cbn; by rewrite list_lookup_insert_ne|]. exists b. split; [done|]. intros H. apply Hf. set_solver. }
  2: { intros i l Hi. apply N in Hi as [Hi Hni]. unfold removed in Hi. rewrite subs_of_Some in Hi. apply lookup_delete_Some in Hi as [Hne Hi].
       split; [done|]. cbn. set_solver. }
  cbn [fanOut_Close]. unfold with_chan. rewrite Hc. cbn. unfold close_chan. rewrite Hop. cbn.
  unfold removed, subs_of in E'. by rewrite Hm in E' |- *.
Qed.

Lemma fan_ok_new : fan_ok newEventFanOut.
Proof. split_and!; [by eexists|done..]. Qed.

Lemma fan_ok_chans f l :
  fan_ok f -> length l = length (chans f) -> (forall i c c', chans f !! i = Some c -> l !! i = Some c' -> open c' = open c) ->
  fan_ok (mkFanOut (subs f) (nextID f) l).
Proof.
  intros (Hs & Ho & Hi) Hl Hop. split_and!; [done| |done]. intros id loc H. destruct (Ho _ _ H) as (c & Hc & Hc').
  destruct (lookup_lt_is_Some_2 l loc) as [c'' Hc'']; [rewrite Hl; by eapply lookup_lt_Some|].
  exists c''. split; [done|]. by rewrite (Hop _ _ _ Hc Hc'').
Qed.

Lemma broadcast_lookup p e locs l i : broadcast p e locs l !! i = (fun c => if bool_decide (i ∈ locs) then push (p i) e c else c) <$> l !! i.
Proof. apply list_lookup_imap. Qed.

Lemma recv_open c : open (recv_chan c).2 = open c.
Proof. unfold recv_chan. by destruct (buf c). Qed.

(** A legal operation on a well-formed fan-out returns and keeps it well-formed. *)
Lemma fan_apply_ok o f : fan_ok f -> fan_legal o f -> exists r f', fan_apply o f = Done (r, f') /\ fan_ok f'.
Proof.
  intros Hok Hl. destruct o as [n|id|p order e|order|loc]; cbn [fan_legal] in Hl; cbn [fan_apply].
  - destruct (Hok) as ([m Hm] & Ho & Hi). unfold fanOut_Subscribe. rewrite (proj2 (Z.ltb_ge _ _) Hl), Hm. cbn. do 2 eexists. split; [done|].
    assert (Hlt : forall i l, m !! i = Some l -> (l < length (chans f))%nat).
    { intros i l H. destruct (Ho i l) as (c & Hc & _); [unfold subs_of; by rewrite Hm|]. by eapply lookup_lt_Some. }
    unfold subs_of in Ho, Hi. rewrite Hm in Ho, Hi. cbn in Ho, Hi. split_and!; [by eexists| |].
    + intros i l. rewrite subs_of_Some. intros [[<- <-]|[Hne H]]%lookup_insert_Some.
      * eexists. cbn. rewrite lookup_app_r, Nat.sub_diag by lia. by split.
      * destruct (Ho _ _ H) as (c & Hc & Hop). exists c. cbn. by rewrite lookup_app_l by eauto.
    + intros i1 i2 l. rewrite subs_of_Some. intros [[<- <-]|[_ H1]]%lookup_insert_Some [[<- E]|[_ H2]]%lookup_insert_Some; eauto.
      * apply Hlt in H2. lia.
      * apply Hlt in H1. lia.
  - destruct (subs_of f !! id) as [loc|] eqn:E.
    + destruct (Hok) as (_ & Ho & _). destruct (Ho _ _ E) as (c & Hc & _). destruct (remove_spec _ _ _ _ Hok E Hc) as [-> Hr]. cbn. eauto.
    + unfold fanOut_remove. rewrite E. cbn. eauto.
  - rewrite (emit_spec _ _ _ _ Hok Hl). cbn. do 2 eexists. split; [done|]. apply fan_ok_chans; [done|apply length_imap|].
    intros i c c' Hc. rewrite broadcast_lookup, Hc. intros [= <-]. case_match; [apply open_push|done].
  - destruct (close_spec order f Hok) as (f' & -> & Hr & _ & _); [|intros id loc H; rewrite Hl in H; by apply elem_of_map_to_list in H|cbn; eauto].
    rewrite Hl. apply NoDup_fst_map_to_list.
  - apply lookup_lt_is_Some_2 in Hl as [c Hc]. unfold receive, with_chan. rewrite Hc. cbn. do 2 eexists. split; [done|].
    apply fan_ok_chans; [done|apply length_insert|]. intros i c1 c2 H1 H2.
    apply list_lookup_insert_Some in H2 as [(<- & <- & _)|[_ H2]]; [rewrite recv_open|]; congruence.
Qed.

Lemma fan_run_ok f os rs f' : fan_run f os rs f' -> fan_ok f -> fan_ok f'.
Proof.
  induction 1 as [|f o r f1 os rs f2 Hl Ha _ IH]; intros Hok; [done|]. apply IH.
  destruct (fan_apply_ok o f Hok Hl) as (r' & f1' & E & Hr). rewrite Ha in E. by injection E as <- <-.
Qed.

(** ** What a subscriber reads *)

Definition emitted (os : list fan_op) : list NetworkEvent := omap (fun o => match o with OpEmit _ _ e => Some e | _ => None end) os.

Definition got (loc : nat) (rs : list fan_res) : list NetworkEvent :=
  omap (fun r => match r with RRecv l (Received e) => if bool_decide (l = loc) then Some e else None | _ => None end) rs.

Definition subscribes (os : list fan_op) : Z := Z.of_nat (length (omap (fun o => match o with OpSubscribe n => Some n | _ => None end) os)).

(** The subscription is not cancelled. *)
Definition keeps (id : Z) (o : fan_op) : Prop :=
  match o with OpUnsubscribe id' => id' <> id | OpClose _ => False | _ => True end.

(** At each event the reader is less than [n] events behind; [lag] is how far it is now. *)
Fixpoint within (loc n lag : nat) (os : list fan_op) (rs : list fan_res) : Prop :=
  match os, rs with
  | OpEmit _ _ _ :: os, _ :: rs => (lag < n)%nat /\ within loc n (S lag) os rs
  | _ :: os, RRecv l (Received _) :: rs => within loc n (if bool_decide (l = loc) then lag - 1 else lag) os rs
  | _ :: os, _ :: rs => within loc n lag os rs
  | _, _ => True
  end.

Definition registered (f : EventFanOut) (id : Z) (loc : nat) (c : Chan) : Prop :=
  subs_of f !! id = Some loc /\ chans f !! loc = Some c /\ open c = true.

(** One step: what was read and is buffered afterwards, against what was buffered and emitted. *)
Lemma fan_step_delivers o f r f1 id loc c :
  fan_ok f -> fan_legal o f -> fan_apply o f = Done (r, f1) -> registered f id loc c -> keeps id o ->
  0 <= id <= nextID f -> nextID f + subscribes [o] < 2 ^ 64 ->
  exists c1, registered f1 id loc c1 /\ cap c1 = cap c /\ nextID f1 = nextID f + subscribes [o] /\
    (got loc [r] ++ buf c1) `sublist_of` (buf c ++ emitted [o]) /\
    ((emitted [o] <> [] -> (length (buf c) < cap c)%nat) -> got loc [r] ++ buf c1 = buf c ++ emitted [o]).
Proof.
  intros Hok Hl Ha (Hid & Hc & Hop) Hk Hr Hb. destruct (Hok) as ([m Hm] & _ & _).
  destruct o as [n|id'|p order e|order|loc']; cbn [fan_legal keeps] in Hl, Hk; cbn [fan_apply] in Ha.
  - unfold fanOut_Subscribe in Ha. rewrite (proj2 (Z.ltb_ge _ _) Hl), Hm in Ha. cbn in Ha. injection Ha as <- <-.
    change (subscribes [OpSubscribe n]) with 1 in Hb |- *. unfold u64. rewrite Z.mod_small by lia. exists c. unfold registered.
    rewrite subs_of_Some, lookup_insert_ne by lia. cbn. unfold subs_of in Hid. rewrite Hm in Hid. cbn in Hid.
    rewrite lookup_app_l by (by eapply lookup_lt_Some). split_and!; [done..| |]; rewrite app_nil_r; done.
  - unfold fanOut_remove in Ha. destruct (subs_of f !! id') as [l'|] eqn:E.
    + destruct (Hok) as (_ & Ho & Hi). destruct (Ho _ _ E) as (c' & Hc' & Ho').
      pose proof (remove_spec _ _ _ _ Hok E Hc') as [E' _]. unfold fanOut_remove in E'. rewrite E in E'. rewrite E' in Ha. cbn in Ha.
      injection Ha as <- <-. exists c. unfold registered, removed. rewrite subs_of_Some, lookup_delete_ne by done. cbn.
      rewrite list_lookup_insert_ne by (intros ->; by apply Hk, (Hi _ _ loc)). split_and!; try done; rewrite ?app_nil_r, ?Z.add_0_r; done.
    + cbn in Ha. injection Ha as <- <-. exists c. cbn. split_and!; try done; rewrite ?app_nil_r, ?Z.add_0_r; done.
  - rewrite (emit_spec _ _ _ _ Hok Hl) in Ha. cbn in Ha. injection Ha as <- <-.
    exists (push (p loc) e c). unfold registered, subs_of. cbn [subs nextID chans]. rewrite broadcast_lookup, Hc.
    rewrite bool_decide_eq_true_2 by (apply (fan_locs_elem _ _ _ Hl); eauto). rewrite open_push, cap_push.
    split_and!; try done; cbn; [by rewrite Z.add_0_r| |].
    + unfold push. case_match; cbn; [done|]. by apply sublist_inserts_r.
    + intros H. unfold push. rewrite (proj2 (Nat.ltb_lt _ _)) by (by apply H). done.
  - done.
  - unfold receive, with_chan in Ha. destruct (chans f !! loc') as [c'|] eqn:E; [|done]. cbn in Ha. injection Ha as <- <-.
    destruct (decide (loc' = loc)) as [->|Hn].
    + rewrite Hc in E. injection E as <-. exists (recv_chan c).2. unfold registered, subs_of. cbn.
      rewrite list_lookup_insert_eq by (by eapply lookup_lt_Some). unfold recv_chan. destruct (buf c) eqn:Eb; cbn.
      * destruct (open c) eqn:Eo; [|done]. rewrite Eb. split_and!; try done; by rewrite Z.add_0_r.
      * rewrite bool_decide_eq_true_2 by done. rewrite app_nil_r. split_and!; try done; by rewrite Z.add_0_r.
    + exists c. unfold registered, subs_of. cbn. rewrite list_lookup_insert_ne by done. rewrite app_nil_r.
      rewrite (bool_decide_eq_false_2 (loc' = loc)) by done.
      split_and!; try done; [by rewrite Z.add_0_r| |]; by destruct (recv_chan c').1.
Qed.

Lemma got_cons loc r rs : got loc (r :: rs) = got loc [r] ++ got loc rs.
Proof. unfold got. cbn. by case_match. Qed.

Lemma emitted_cons o os : emitted (o :: os) = emitted [o] ++ emitted os.
Proof. unfold emitted. cbn. by case_match. Qed.

Lemma subscribes_cons o os : subscribes (o :: os) = subscribes [o] + subscribes os.
Proof. unfold subscribes. cbn. destruct o; cbn; lia. Qed.

Lemma subscribes_nonneg os : 0 <= subscribes os.
Proof. unfold subscribes. lia. Qed.

Lemma emit_result p order e f r f1 : fan_apply (OpEmit p order e) f = Done (r, f1) -> r = RDone.
Proof. cbn. destruct (fanOut_Emit p order e f); cbn; congruence. Qed.

Lemma within_room loc n lag o r os rs : within loc n lag (o :: os) (r :: rs) -> emitted [o] <> [] -> (lag < n)%nat.
Proof. destruct o; cbn; try done. by intros [H _]. Qed.

Lemma within_next o f r f1 os rs loc n b b1 :
  fan_apply o f = Done (r, f1) -> within loc n (length b) (o :: os) (r :: rs) -> got loc [r] ++ b1 = b ++ emitted [o] ->
  within loc n (length b1) os rs.
Proof.
  intros Ha Hw E. apply (f_equal length) in E. rewrite !length_app in E.
  destruct o as [m|id|p order e|order|l]; try (apply emit_result in Ha; subst r); cbn in Hw, E.
  3: { destruct Hw as [_ Hw]. by replace (length b1) with (S (length b)) by lia. }
  all: destruct r as [| |l' [e'| |]]; cbn in Hw, E; try (by replace (length b1) with (length b) by lia).
  all: destruct (bool_decide (l' = loc)); cbn in Hw, E;
    [by replace (length b1) with (length b - 1)%nat by lia | by replace (length b1) with (length b) by lia].
Qed.

Lemma fan_run_delivers f os rs f2 id loc c :
  fan_run f os rs f2 -> fan_ok f -> registered f id loc c -> Forall (keeps id) os -> 0 <= id <= nextID f -> nextID f + subscribes os < 2 ^ 64 ->
  exists c2, registered f2 id loc c2 /\ (got loc rs ++ buf c2) `sublist_of` (buf c ++ emitted os) /\
    (within loc (cap c) (length (buf c)) os rs -> got loc rs ++ buf c2 = buf c ++ emitted os).
Proof.
  intros Hrun. revert c. induction Hrun as [f|f o r f1 os rs f2 Hl Ha Hrun IH]; intros c Hok Hreg Hk Hr Hb.
  - exists c. unfold emitted. cbn. by rewrite app_nil_r.
  - apply Forall_cons in Hk as [Hk1 Hk]. rewrite subscribes_cons in Hb. pose proof (subscribes_nonneg os). pose proof (subscribes_nonneg [o]).
    destruct (fan_step_delivers o f r f1 id loc c) as (c1 & Hreg1 & Hcap & Hn & Hsub & Heq); [done..|lia|].
    destruct (fan_apply_ok o f Hok Hl) as (r' & f1' & E & Hok1). rewrite Ha in E. injection E as <- <-.
    destruct (IH c1 Hok1 Hreg1 Hk) as (c2 & Hreg2 & Hsub2 & Heq2); [lia..|].
    exists c2. split; [done|]. rewrite (got_cons loc r rs), (emitted_cons o os), <- !(assoc_L (++)). split.
    + etrans; [by apply sublist_app|]. rewrite !(assoc_L (++)). by apply sublist_app.
    + intros Hw. specialize (Heq (within_room _ _ _ _ _ _ _ Hw)). rewrite (assoc_L (++) (buf c)), <- Heq, <- (assoc_L (++)). f_equal.
      apply Heq2. rewrite Hcap. by eapply within_next.
Qed.
End river.

(** ** The feed over the transports ([NetworkFeedImpl]) *)

(** [Duration.Seconds]. *)
Definition Seconds (d : Z) : float64 := fadd (f_of_Z (Z.quot d (10 ^ 9))) (fdiv (f_of_Z (Z.rem d (10 ^ 9))) (f_of_Z (10 ^ 9))).

(** Values of the maps that hold [interface{}]. *)
Inductive any := AnyInt (z : Z) | AnyUint64 (z : Z) | AnyString (s : string).

(** [OpNodeGossip.GetStats]: [peers] is the peer count of a topic, [show] prints its name. *)
Definition gossip_GetStats (topics : list Z) (blocksReceived : Z -> Z) (peers : Z -> Z) (show : Z -> string) : gmap Z (gmap string any) :=
  foldr (fun chainID stats => <[chainID :=
    <["blocks_received" := AnyUint64 (blocksReceived chainID)]> (<["peer_count" := AnyInt (peers chainID)]> (<["topic" := AnyString (show chainID)]> ∅))]> stats) ∅ topics.

Section feed.
Context {C : Crypto} {Tx : Type}.

Record NetworkFeedImpl := mkFeed {
  nf_network : Z; nf_gossip : bool; nf_fanOut : @EventFanOut Tx; mempoolRate : float64; lastTxHash : Z; txCount : Z; txCountStart : Z;
  nf_stopped : bool; nf_stopCh_open : bool;
}.

(** The feed before its callbacks run; [gossip] says whether there is a gossip of the second layer. *)
Definition NewNetworkFeed (network : Z) (gossip : bool) (now : Z) : NetworkFeedImpl :=
  mkFeed network gossip newEventFanOut f0 0 0 now false true.

Definition recordTxHashes (count now : Z) (nf : NetworkFeedImpl) : NetworkFeedImpl :=
  let txs := u64 (txCount nf + count) in
  let elapsed := Seconds (now - txCountStart nf) in
  mkFeed (nf_network nf) (nf_gossip nf) (nf_fanOut nf) (if fltb f0 elapsed then fdiv (f_of_Z txs) elapsed else mempoolRate nf) now txs
    (txCountStart nf) (nf_stopped nf) (nf_stopCh_open nf).

Definition with_fanOut (f : EventFanOut) (nf : NetworkFeedImpl) : NetworkFeedImpl :=
  mkFeed (nf_network nf) (nf_gossip nf) f (mempoolRate nf) (lastTxHash nf) (txCount nf) (txCountStart nf) (nf_stopped nf) (nf_stopCh_open nf).

(** What the transports report. *)
Inductive Callback :=
  | TxHashReceived (hashes : list bytes)
  | TxReceived (txs : list Tx)
  | ZEAMMessage (tx : Tx) (data : bytes)
  | BlockHashReceived (hash : bytes) (number : Z)
  | PeerConnect (peerID : string)
  | PeerDrop (peerID : string)
  | BlockReceived (chainID : Z) (block : option L2BlockGossip)
  | PeerJoin (chainID : Z) (peerID : string)
  | PeerLeave (chainID : Z) (peerID : string).

Definition with_hashes (hs : list bytes) (e : NetworkEvent) : @NetworkEvent Tx :=
  mkEvent (ev_Type e) (ev_ChainID e) (ev_Timestamp e) hs (ev_Txs e) (ev_ZEAMData e) (ev_ZEAMTx e) (ev_L1BlockHash e) (ev_L1BlockNumber e)
    (ev_L2Block e) (ev_PeerID e) (ev_NetworkID e).

Definition with_peer (p : string) (e : NetworkEvent) : @NetworkEvent Tx :=
  mkEvent (ev_Type e) (ev_ChainID e) (ev_Timestamp e) (ev_Hashes e) (ev_Txs e) (ev_ZEAMData e) (ev_ZEAMTx e) (ev_L1BlockHash e)
    (ev_L1BlockNumber e) (ev_L2Block e) p (ev_NetworkID e).

(** The hashes of a block, reported after it when there are any. *)
Definition block_hashes (block : option L2BlockGossip) : list bytes := match block with Some b => ExtractTransactionHashes b | None => [] end.

(** The events of a callback, in order, each with the number of hashes that is counted first. *)
Definition callback_events (nf : NetworkFeedImpl) (now : Z) (c : Callback) : list (option Z * NetworkEvent) :=
  let id := nf_network nf in
  match c with
  | TxHashReceived hs => [(Some (Z.of_nat (length hs)), with_hashes hs (event0 EventTxHashes id now))]
  | TxReceived txs => [(None, mkEvent EventTxFull id now [] txs [] None zero32 0 None EmptyString 0)]
  | ZEAMMessage tx data => [(None, mkEvent EventZEAMMessage id now [] [] data (Some tx) zero32 0 None EmptyString 0)]
  | BlockHashReceived h n => [(None, mkEvent EventL1Block id now [] [] [] None h n None EmptyString 0)]
  | PeerConnect p => [(None, with_peer p (event0 EventPeerConnect id now))]
  | PeerDrop p => [(None, with_peer p (event0 EventPeerDrop id now))]
  | BlockReceived chain block =>
      if nf_gossip nf
      then (None, mkEvent EventL2Block chain now [] [] [] None zero32 0 block EmptyString 0) ::
           (if (0 <? length (block_hashes block))%nat
            then [(Some (Z.of_nat (length (block_hashes block))), with_hashes (block_hashes block) (event0 EventTxHashes chain now))] else [])
      else []
  | PeerJoin chain p => if nf_gossip nf then [(None, with_peer p (event0 EventPeerConnect chain now))] else []
  | PeerLeave chain p => if nf_gossip nf then [(None, with_peer p (event0 EventPeerDrop chain now))] else []
  end.

(** [walk] gives the order in which an emission visits the subscriptions. *)
Fixpoint emit_all (parked : nat -> bool) (walk : EventFanOut -> list (Z * nat)) (now : Z) (es : list (option Z * NetworkEvent)) (nf : NetworkFeedImpl)
  : outcome NetworkFeedImpl :=
  match es with
  | [] => Done nf
  | (count, e) :: es =>
      let nf1 := match count with Some n => recordTxHashes n now nf | None => nf end in
      let! f := fanOut_Emit parked (walk (nf_fanOut nf1)) e (nf_fanOut nf1) in emit_all parked walk now es (with_fanOut f nf1)
  end.

Definition on_callback (parked : nat -> bool) (walk : EventFanOut -> list (Z * nat)) (now : Z) (c : Callback) (nf : NetworkFeedImpl)
  : outcome NetworkFeedImpl := emit_all parked walk now (callback_events nf now c) nf.

Definition feed_Subscribe (bufSize : Z) (nf : NetworkFeedImpl) : outcome (FeedSubscription * NetworkFeedImpl) :=
  let! (s, f) := fanOut_Subscribe bufSize (nf_fanOut nf) in Done (s, with_fanOut f nf).

(** Calls that the feed makes to its transports. *)
Inductive transport_call := HybridStart | HybridStop | GossipStart | GossipStop.

(** [hybrid] and [gossip] are what the two [Start] return. *)
Definition feed_Start (hybrid gossip : result unit) (nf : NetworkFeedImpl) : list transport_call * result unit :=
  match hybrid with
  | Err _ => ([HybridStart], Err "failed to start hybrid transport")
  | Ok _ =>
      if nf_gossip nf
      then match gossip with
           | Err _ => ([HybridStart; GossipStart; HybridStop], Err "failed to start L2 gossip")
           | Ok _ => ([HybridStart; GossipStart], Ok tt)
           end
      else ([HybridStart], Ok tt)
  end.

Definition feed_Stop (walk : EventFanOut -> list (Z * nat)) (nf : NetworkFeedImpl) : outcome (list transport_call * NetworkFeedImpl) :=
  if nf_stopped nf then Done ([], nf)
  else if negb (nf_stopCh_open nf) then Panic "close of closed channel"
  else let! f := fanOut_Close (walk (nf_fanOut nf)) (nf_fanOut nf) in
       Done ((if nf_gossip nf then [GossipStop] else []) ++ [HybridStop],
             mkFeed (nf_network nf) (nf_gossip nf) f (mempoolRate nf) (lastTxHash nf) (txCount nf) (txCountStart nf) true false).

(** [Broadcast] and [BroadcastTx]: [sent] is what the transport returns, [hash] the hash of a
    transaction that is not nil. *)
Definition feed_Broadcast (sent : bytes * option string) : bytes * option string := sent.
Definition feed_BroadcastTx (hash : option bytes) (err : option string) : bytes * option string := (default zero32 hash, err).

Record NetworkStats := mkStats { ns_L1Peers : Z; ns_L2Peers : gmap Z Z; ns_MempoolRate : float64; ns_LastTxHash : Z; ns_RelayAddrs : Z; ns_DirectConns : Z }.

(** [stats["peers"]] as an [int]. *)
Definition peers_entry (m : gmap string any) : option Z := match m !! "peers" with Some (AnyInt z) => Some z | _ => None end.

(** [hybrid] is the relay and direct count and the peers of the first layer, [gossip] what
    [GetStats] returns when there is a gossip. *)
Definition feed_Stats (hybrid : Z * Z * Z) (gossip : option (gmap Z (gmap string any))) (nf : NetworkFeedImpl) : NetworkStats :=
  mkStats hybrid.2 (match gossip with Some m => omap peers_entry m | None => ∅ end) (mempoolRate nf) (lastTxHash nf) hybrid.1.1 hybrid.1.2.
End feed.

(** ** Properties of the fan-out *)

(** Whatever is subscribed, cancelled (also twice), emitted, closed or read, in any order, no call on
    the fan-out panics: it never sends on a closed channel and never closes one twice, and the
    registered channels stay open and distinct. *)
Theorem fanout_never_panics {Tx : Type} (os : list (@fan_op Tx)) rs f o :
  fan_run newEventFanOut os rs f -> fan_legal o f -> fan_ok f /\ exists r f', fan_apply o f = Done (r, f') /\ fan_ok f'.
Proof.
  intros Hrun Hl. assert (Hok : fan_ok f) by (eapply fan_run_ok; [done|apply fan_ok_new]). split; [done|]. by apply fan_apply_ok.
Qed.

(** C29: While a subscription lasts, what its holder has read followed by what its buffer holds is a
    subsequence of the events emitted since, in their order; nothing is missing as long as the
    reader is never a full buffer behind. *)
Theorem delivery_in_order {Tx : Type} (f : @EventFanOut Tx) n s f1 os rs f2 :
  fan_ok f -> 0 <= n -> fanOut_Subscribe n f = Done (s, f1) -> fan_run f1 os rs f2 -> Forall (keeps (sub_id s)) os ->
  0 <= nextID f -> nextID f + 1 + subscribes os < 2 ^ 64 ->
  exists c, registered f2 (sub_id s) (sub_ch s) c /\ (got (sub_ch s) rs ++ buf c) `sublist_of` emitted os /\
    (within (sub_ch s) (Z.to_nat n) 0 os rs -> got (sub_ch s) rs ++ buf c = emitted os).
Proof.
  intros Hok Hn Hs Hrun Hk H0 Hb. pose proof (subscribes_nonneg os).
  destruct (fan_apply_ok (OpSubscribe n) f Hok Hn) as (r & f1' & E & Hok1). cbn [fan_apply] in E. rewrite Hs in E. cbn in E. injection E as <- <-.
  unfold fanOut_Subscribe in Hs. rewrite (proj2 (Z.ltb_ge _ _) Hn) in Hs. destruct (subs f) as [m|]; [|done]. injection Hs as <- <-.
  unfold u64 in *. rewrite Z.mod_small in * by lia.
  destruct (fan_run_delivers _ _ _ _ (nextID f + 1) (length (chans f)) (mkChan [] (Z.to_nat n) true) Hrun Hok1) as (c & Hc & Hsub & Heq); cbn [nextID]; try done; [|lia..|eauto].
  unfold registered. rewrite subs_of_Some, lookup_insert_eq. cbn. by rewrite lookup_app_r, Nat.sub_diag by lia.
Qed.

(** In whatever order a walk of the map visits the subscriptions, an emission has the same effect. *)
Theorem emit_order_irrelevant {Tx : Type} (f : @EventFanOut Tx) parked order order' e :
  fan_ok f -> order ≡ₚ map_to_list (subs_of f) -> order' ≡ₚ map_to_list (subs_of f) -> fanOut_Emit parked order e f = fanOut_Emit parked order' e f.
Proof.
  intros Hok H H'. rewrite (emit_spec _ _ _ _ Hok H), (emit_spec _ _ _ _ Hok H'). do 2 f_equal.
  apply list_eq. intros i. rewrite !broadcast_lookup. destruct (chans f !! i); [|done]. cbn. do 2 f_equal.
  by rewrite (bool_decide_ext (i ∈ order.*2) (i ∈ order'.*2)) by (by rewrite (fan_locs_elem _ _ _ H), (fan_locs_elem _ _ _ H')).
Qed.

(** *** The feed *)

Section feed_facts.
Context {C : Crypto} {Tx : Type}.
Context (parked : nat -> bool) (walk : @EventFanOut Tx -> list (Z * nat)) (Hwalk : forall f, walk f ≡ₚ map_to_list (subs_of f)).

Lemma emit_all_ok now es nf :
  fan_ok (nf_fanOut nf) -> exists nf', emit_all parked walk now es nf = Done nf' /\ fan_ok (nf_fanOut nf') /\
    subs (nf_fanOut nf') = subs (nf_fanOut nf) /\ (subs_of (nf_fanOut nf) = ∅ -> chans (nf_fanOut nf') = chans (nf_fanOut nf)).
Proof.
  revert nf. induction es as [|[count e] es IH]; intros nf Hok; [by exists nf|]. cbn [emit_all].
  set (nf1 := match count with Some n => recordTxHashes n now nf | None => nf end).
  assert (E1 : nf_fanOut nf1 = nf_fanOut nf) by (by destruct count). rewrite E1.
  destruct (fan_apply_ok (OpEmit parked (walk (nf_fanOut nf)) e) _ Hok (Hwalk _)) as (r & f' & E & Hok').
  cbn [fan_apply] in E. rewrite (emit_spec _ _ _ _ Hok (Hwalk _)) in E |- *. cbn in E |- *. injection E as <- <-.
  match type of Hok' with fan_ok ?g => destruct (IH (with_fanOut g nf1) Hok') as (nf' & E & Hn & Hs & Hc) end.
  exists nf'. split_and!; [done..|]. intros He. rewrite Hc by done. cbn. replace (walk (nf_fanOut nf)) with (@nil (Z * nat)); [apply broadcast_nil|].
  symmetry. apply Permutation_nil_r. by rewrite Hwalk, He, map_to_list_empty.
Qed.

(** Stopping a feed tells every subscriber, who still reads what is in its buffer; stopping again does
    nothing, and later callbacks of the transports reach nobody and do not panic. *)
Theorem feed_stop_ends nf :
  fan_ok (nf_fanOut nf) -> nf_stopped nf = false -> nf_stopCh_open nf = true ->
  exists calls nf', feed_Stop walk nf = Done (calls, nf') /\ HybridStop ∈ calls /\ feed_Stop walk nf' = Done ([], nf') /\
    (forall id loc c, registered (nf_fanOut nf) id loc c -> chans (nf_fanOut nf') !! loc = Some (mkChan (buf c) (cap c) false)) /\
    (forall now cb, exists nf2, on_callback parked walk now cb nf' = Done nf2 /\ chans (nf_fanOut nf2) = chans (nf_fanOut nf')).
Proof.
  intros Hok Hst Hop. destruct (close_spec (walk (nf_fanOut nf)) _ Hok) as (f' & E & Hok' & Hs & Hc).
  { rewrite Hwalk. apply NoDup_fst_map_to_list. }
  { intros id loc H. rewrite Hwalk in H. by apply elem_of_map_to_list in H. }
  unfold feed_Stop. rewrite Hst, Hop, E. cbn. do 2 eexists. split_and!; [done|set_solver|done| |].
  - intros id loc c (H1 & H2 & H3). cbn. destruct (Hc _ _ H2) as (b & Hb & Hf). rewrite Hb, Hf; [done|]. left. apply (fan_locs_elem _ _ _ (Hwalk _)). eauto.
  - intros now cb. edestruct emit_all_ok as (nf2 & E2 & _ & _ & H); [|exists nf2; split; [done|apply H]]; [done|].
    apply map_empty. intros i. destruct (subs_of _ !! i) as [l|] eqn:Ei; [|done]. apply Hs in Ei as [Hi Hn]. destruct Hn.
    apply list_elem_of_fmap. exists (i, l). split; [done|]. rewrite Hwalk. by apply elem_of_map_to_list.
Qed.
End feed_facts.

(** The statistics of the feed never report a peer of the second layer: they look for the key
    ["peers"], and the gossip files its count under ["peer_count"]. *)
Theorem stats_lack_l2_peers {C : Crypto} {Tx : Type} (nf : @NetworkFeedImpl Tx) hybrid topics blocks peers show :
  ns_L2Peers (feed_Stats hybrid (Some (gossip_GetStats topics blocks peers show)) nf) = ∅.
Proof.
  cbn. apply map_empty. intros i. rewrite lookup_omap. destruct (gossip_GetStats topics blocks peers show !! i) as [m|] eqn:E; [|done]. cbn.
  enough (m !! "peers" = None) as H by (unfold peers_entry; by rewrite H).
  revert m E. induction topics as [|t ts IH]; intros m; cbn; [by rewrite lookup_empty|].
  rewrite lookup_insert_Some. intros [[_ <-]|[_ H]]; [by vm_compute|by apply IH].
Qed.

(** *** Two subscribers, one of them slow *)

Definition toy_event (n : Z) : @NetworkEvent unit := event0 EventL1Block 1 n.

Definition toy_ops : list (@fan_op unit) :=
  [OpSubscribe 1; OpSubscribe 2; OpEmit (fun _ => false) [(2, 1%nat); (1, 0%nat)] (toy_event 1);
   OpEmit (fun _ => false) [(1, 0%nat); (2, 1%nat)] (toy_event 2); OpReceive 1; OpUnsubscribe 1; OpUnsubscribe 1; OpReceive 0; OpReceive 0].

Fixpoint toy_run (os : list (@fan_op unit)) (f : EventFanOut) : list fan_res * EventFanOut :=
  match os with
  | [] => ([], f)
  | o :: os => match fan_apply o f with Done (r, f') => let '(rs, f2) := toy_run os f' in (r :: rs, f2) | _ => ([], f) end
  end.

Ltac toy_step := eapply run_cons; [vm_compute; first [done | reflexivity | apply perm_swap | lia] | vm_compute; reflexivity | ].

Definition toy_end : list fan_res * EventFanOut := Eval vm_compute in toy_run toy_ops newEventFanOut.

Lemma toy_runs : fan_run newEventFanOut toy_ops toy_end.1 toy_end.2.
Proof. do 9 toy_step. apply run_nil. Qed.

Lemma fanout_never_panics_witness :
  fan_ok toy_end.2 /\ exists r f', fan_apply (OpEmit (fun _ => false) [(2, 1%nat)] (toy_event 3)) toy_end.2 = Done (r, f') /\ fan_ok f'.
Proof. apply (fanout_never_panics toy_ops toy_end.1 toy_end.2 _ toy_runs). vm_compute. reflexivity. Defined.

(** A reader with a buffer of two, one of three events lost while the buffer is full. *)
Definition toy_sub : FeedSubscription * @EventFanOut unit := (mkSub 1 0, mkFanOut (Some {[1 := 0%nat]}) 1 [mkChan [] 2 true]).

Definition toy_reads : list (@fan_op unit) :=
  [OpEmit (fun _ => false) [(1, 0%nat)] (toy_event 1); OpEmit (fun _ => false) [(1, 0%nat)] (toy_event 2);
   OpEmit (fun _ => false) [(1, 0%nat)] (toy_event 3); OpReceive 0; OpEmit (fun _ => false) [(1, 0%nat)] (toy_event 4)].

Definition toy_reads_end : list fan_res * EventFanOut := Eval vm_compute in toy_run toy_reads toy_sub.2.

Lemma toy_reads_run : fan_run toy_sub.2 toy_reads toy_reads_end.1 toy_reads_end.2.
Proof. do 5 toy_step. apply run_nil. Qed.

Lemma delivery_in_order_witness :
  exists c, registered toy_reads_end.2 1 0 c /\ (got 0 toy_reads_end.1 ++ buf c) `sublist_of` map toy_event [1; 2; 3; 4] /\
    got 0 toy_reads_end.1 ++ buf c = map toy_event [1; 2; 4].
Proof.
  destruct (delivery_in_order newEventFanOut 2 toy_sub.1 toy_sub.2 toy_reads toy_reads_end.1 toy_reads_end.2) as (c & Hc & Hs & _).
  - apply fan_ok_new.
  - lia.
  - reflexivity.
  - apply toy_reads_run.
  - repeat constructor.
  - cbn. lia.
  - vm_compute. reflexivity.
  - exists c. split_and!; [exact Hc|exact Hs|]. destruct Hc as (_ & Hc & _). vm_compute in Hc. injection Hc as <-. reflexivity.
Defined.

Definition toy_walk (f : @EventFanOut unit) : list (Z * nat) := map_to_list (subs_of f).

Definition toy_feed : @NetworkFeedImpl unit := with_fanOut toy_reads_end.2 (NewNetworkFeed 1 true 0).

Lemma toy_sub_ok : fan_ok toy_sub.2.
Proof. destruct (fan_apply_ok (OpSubscribe 2) (@newEventFanOut unit) fan_ok_new) as (r & f & E & H); [done|]. vm_compute in E. by injection E as <- <-. Qed.

Lemma feed_stop_ends_witness :
  exists calls nf', feed_Stop toy_walk toy_feed = Done (calls, nf') /\ HybridStop ∈ calls /\
    exists nf2, on_callback (C := Toy.crypto) (fun _ => false) toy_walk 5 (TxHashReceived [zero32]) nf' = Done nf2 /\ chans (nf_fanOut nf2) = chans (nf_fanOut nf').
Proof.
  destruct (feed_stop_ends (C := Toy.crypto) (fun _ => false) toy_walk (fun f => reflexivity _) toy_feed) as (calls & nf' & E & H & _ & _ & K); [|done..|].
  - eapply fan_run_ok; [apply toy_reads_run|apply toy_sub_ok].
  - exists calls, nf'. eauto.
Defined.
