(* ===== verification/Flow.v ===== *)
(** * Entropy from the mempool ([node/flow_harvester.go])

    Contents: the pool that folds transaction hashes together and the ring of the latest ones
    ([MempoolFlow]); the stream of bytes drawn from it ([FlowCompute]); the harvester that
    subscribes to the feed of [River].

    The theorems: the pool, mixed word by word, is the exclusive or of all hashes since the last
    harvest, the ring holds the latest hashes, newest first, and the counter counts them
    ([flow_refines]); the stream hands out every byte of the digests once and in order, and the
    loop that refills it ends before its limit ([next_bytes_stream]); an index is in range
    ([select_index_bounds]); the entropy does not depend on the order of the hashes
    ([entropy_order_independent]).  An announcement that is repeated cancels the first
    ([replay_cancels]), and a pool at rest yields the same block again and again
    ([entropy_repeats]); a harvester that is started again cannot be stopped again
    ([harvester_restart_panics]). *)

From Stdlib Require Import String SpecFloat.
From S2P Require Import Prelude Json Signing Float64 Bits River.

(** ** The pool and the ring *)

Record MempoolFlow := mkFlow {
  pool : bytes; hashCount : Z; lastHash : Z; flowRate : float64; lastRateCalc : Z; recentCount : Z; recentHashes : list bytes;
  ringIdx : Z; ringSize : Z;
}.

Definition NewMempoolFlow (size now : Z) : MempoolFlow :=
  let ringSize := if size <? 32 then 32 else size in
  mkFlow (zeros 32) 0 0 f0 now 0 (replicate (Z.to_nat ringSize) zero32) 0 ringSize.

(** The byte of an array at an index. *)
Definition at_byte (b : bytes) (i : nat) : byte := nth i b Byte.x00.

(** [uint64(b[offset]) | uint64(b[offset+1])<<8 | ...]. *)
Definition le_word (b : bytes) (offset : nat) : Z :=
  fold_left (fun acc i => Z.lor acc (Z.shiftl (byteZ (at_byte b (offset + i))) (8 * Z.of_nat i))) (seq 1 7) (byteZ (at_byte b offset)).

(** [b[offset] = byte(x); b[offset+1] = byte(x >> 8); ...]. *)
Definition put_word (b : bytes) (offset : nat) (x : Z) : bytes :=
  fold_left (fun p i => <[(offset + i)%nat := Zbyte (Z.shiftr x (8 * Z.of_nat i))]> p) (seq 0 8) b.

Definition mix_word (hashBytes : bytes) (p : bytes) (i : nat) : bytes :=
  let offset := (i * 8)%nat in put_word p offset (Z.lxor (le_word p offset) (le_word hashBytes offset)).

Definition mix (p hashBytes : bytes) : bytes := fold_left (mix_word hashBytes) (seq 0 4) p.

(** The body of the loop over the hashes. *)
Definition ingest_one (mf : MempoolFlow) (h : bytes) : MempoolFlow :=
  mkFlow (mix (pool mf) h) (u64 (hashCount mf + 1)) (lastHash mf) (flowRate mf) (lastRateCalc mf) (u64 (recentCount mf + 1))
    (<[Z.to_nat (ringIdx mf) := h]> (recentHashes mf)) (Z.rem (ringIdx mf + 1) (ringSize mf)) (ringSize mf).

(** The rate over the last interval, smoothed. *)
Definition smoothed (old instant : float64) : float64 := fadd (fmul (f_ratio 7 10) old) (fmul (f_ratio 3 10) instant).

Definition Ingest (now : Z) (hashes : list bytes) (mf0 : MempoolFlow) : MempoolFlow :=
  let mf := fold_left ingest_one hashes mf0 in
  let elapsed := Seconds (now - lastRateCalc mf) in
  if fleb f1 elapsed
  then mkFlow (pool mf) (hashCount mf) now (smoothed (flowRate mf) (fdiv (f_of_Z (recentCount mf)) elapsed)) now 0 (recentHashes mf)
         (ringIdx mf) (ringSize mf)
  else mkFlow (pool mf) (hashCount mf) now (flowRate mf) (lastRateCalc mf) (recentCount mf) (recentHashes mf) (ringIdx mf) (ringSize mf).

(** [int] of a 64-bit counter. *)
Definition RecentHashes (n0 : Z) (mf : MempoolFlow) : outcome (list bytes) :=
  let n1 := if ringSize mf <? n0 then ringSize mf else n0 in
  let n := if i64 (hashCount mf) <? n1 then i64 (hashCount mf) else n1 in
  if n <? 0 then Panic "makeslice: len out of range"
  else Done (map (fun i => nth (Z.to_nat (Z.rem (ringIdx mf - 1 - Z.of_nat i + ringSize mf) (ringSize mf))) (recentHashes mf) zero32) (seq 0 (Z.to_nat n))).

Definition flow_Stats (mf : MempoolFlow) : Z * float64 * Z := (hashCount mf, flowRate mf, lastHash mf).

Section flow.
Context {C : Crypto}.

Definition Entropy (mf : MempoolFlow) : bytes := Keccak256 (pool mf).

Definition Harvest (mf : MempoolFlow) : (bytes * Z) * MempoolFlow :=
  ((Keccak256 (pool mf), hashCount mf),
   mkFlow (zeros 32) (hashCount mf) (lastHash mf) (flowRate mf) (lastRateCalc mf) (recentCount mf) (recentHashes mf) (ringIdx mf) (ringSize mf)).

(** ** The stream *)

Record FlowCompute := mkCompute { buffer : bytes; bufferIdx : Z; minBuffer : Z }.

Definition NewFlowCompute : FlowCompute := mkCompute [] 0 64.

Definition refillBuffer (entropy : bytes) (fc : FlowCompute) : FlowCompute := mkCompute (buffer fc ++ entropy) (bufferIdx fc) (minBuffer fc).

Definition available (fc : FlowCompute) : Z := Z.of_nat (length (buffer fc)) - bufferIdx fc.

(** The refill loop: the flow may change meanwhile, [entropy k] is what it gives at the [k]-th refill.
    Returned with the number of refills. *)
Fixpoint refill_loop (fuel : nat) (entropy : nat -> bytes) (n maxRefills : Z) (refillCount : nat) (fc : FlowCompute) : outcome (FlowCompute * nat) :=
  match fuel with
  | O => NoFuel
  | S fuel =>
      if available fc <? n
      then let fc' := refillBuffer (entropy refillCount) fc in
           if maxRefills <? Z.of_nat (S refillCount) then Done (fc', S refillCount) else refill_loop fuel entropy n maxRefills (S refillCount) fc'
      else Done (fc, refillCount)
  end.

Definition max_refills (n : Z) : Z := Z.quot n 32 + 10.

Definition NextBytes (entropy : nat -> bytes) (n : Z) (fc0 : FlowCompute) : outcome (bytes * nat * FlowCompute) :=
  let! (fc, refills) := refill_loop (Z.to_nat (max_refills n) + 2) entropy n (max_refills n) 0 fc0 in
  if n <? 0 then Panic "makeslice: len out of range"
  else
    let avail := available fc in
    let rest := drop (Z.to_nat (bufferIdx fc)) (buffer fc) in
    let '(result, idx) :=
      if n <=? avail then (take (Z.to_nat n) rest, bufferIdx fc + n)
      else if 0 <? avail then (copy_to (Z.to_nat n) rest, Z.of_nat (length (buffer fc)))
      else (zeros (Z.to_nat n), bufferIdx fc) in
    let fc' := if 1024 <? idx then mkCompute (drop (Z.to_nat idx) (buffer fc)) 0 (minBuffer fc) else mkCompute (buffer fc) idx (minBuffer fc) in
    Done (result, refills, fc').

Definition NextUint64 (entropy : nat -> bytes) (fc : FlowCompute) : outcome (Z * FlowCompute) :=
  let! (b, _, fc') := NextBytes entropy 8 fc in Done (be_int (take 8 b), fc').

Definition NextBigInt (entropy : nat -> bytes) (n : Z) (fc : FlowCompute) : outcome (Z * FlowCompute) :=
  let! (b, _, fc') := NextBytes entropy 32 fc in
  if n =? 0 then Panic "division by zero" else Done (be_int b mod Z.abs n, fc').

Definition NextFloat (entropy : nat -> bytes) (fc : FlowCompute) : outcome (float64 * FlowCompute) :=
  let! (u, fc') := NextUint64 entropy fc in Done (fdiv (f_of_Z u) (f_of_Z (2 ^ 64 - 1)), fc').

Definition SelectIndex (entropy : nat -> bytes) (n : Z) (fc : FlowCompute) : outcome (Z * FlowCompute) :=
  if n <=? 0 then Done (0, fc)
  else let! (u, fc') := NextUint64 entropy fc in Done (i64 (u mod u64 n), fc').

(** ** The harvester *)

Context {Tx : Type}.

Record FlowHarvester := mkHarvester { fh_feed : bool; fh_flow : MempoolFlow; fh_sub : option FeedSubscription; fh_running : bool; fh_stopCh_open : bool }.

(** [feed] says whether there is one. *)
Definition NewFlowHarvester (feed : bool) (now : Z) : FlowHarvester := mkHarvester feed (NewMempoolFlow 1000 now) None false true.

(** With the fan-out behind the feed. *)
Definition harvester_Start (fh : FlowHarvester) (f : @EventFanOut Tx) : outcome (FlowHarvester * EventFanOut) :=
  if fh_running fh then Done (fh, f)
  else if negb (fh_feed fh) then Done (mkHarvester (fh_feed fh) (fh_flow fh) (fh_sub fh) true (fh_stopCh_open fh), f)
  else let! (s, f') := fanOut_Subscribe 256 f in
       Done (mkHarvester (fh_feed fh) (fh_flow fh) (Some s) true (fh_stopCh_open fh), f').

Definition harvester_Stop (fh : FlowHarvester) (f : @EventFanOut Tx) : outcome (FlowHarvester * EventFanOut) :=
  if negb (fh_running fh) then Done (fh, f)
  else if negb (fh_stopCh_open fh) then Panic "close of closed channel"
  else let! f' := match fh_sub fh with Some s => Unsubscribe s f | None => Done f end in
       Done (mkHarvester (fh_feed fh) (fh_flow fh) (fh_sub fh) false false, f').

(** What the goroutine does with an event; [clock] is the time as a string. *)
Definition harvest_event (now : Z) (clock : string) (e : @NetworkEvent Tx) (mf : MempoolFlow) : MempoolFlow :=
  match ev_Type e with
  | EventTxHashes => Ingest now (ev_Hashes e) mf
  | EventPeerConnect => Ingest now [Keccak256 (bs "connect:" ++ bs (ev_PeerID e) ++ bs ":" ++ bs clock)] mf
  | EventPeerDrop => Ingest now [Keccak256 (bs "drop:" ++ bs (ev_PeerID e) ++ bs ":" ++ bs clock)] mf
  | _ => mf
  end.
End flow.

(** ** Words and bytes *)

Lemma le_word_bits b o m l acc : 0 <= m ->
  Z.testbit (fold_left (fun acc i => Z.lor acc (Z.shiftl (byteZ (at_byte b (o + i))) (8 * Z.of_nat i))) l acc) m =
  Z.testbit acc m || existsb (fun i => Z.testbit (byteZ (at_byte b (o + i))) (m - 8 * Z.of_nat i)) l.
Proof.
  intros Hm. revert acc. induction l as [|i l IH]; intros acc; cbn [fold_left existsb]; [by rewrite orb_false_r|].
  by rewrite IH, Z.lor_spec, Z.shiftl_spec, orb_assoc by done.
Qed.

Lemma byte_high_bit b m : 8 <= m -> Z.testbit (byteZ b) m = false.
Proof.
  intros Hm. pose proof (byteZ_range b). destruct (Z.eq_dec (byteZ b) 0) as [->|Hn]; [apply Z.testbit_0_l|].
  apply Z.bits_above_log2; [lia|]. apply Z.log2_lt_pow2; [lia|]. eapply Z.lt_le_trans; [|apply (Z.pow_le_mono_r 2 8 m); lia]. lia.
Qed.

Lemma existsb_nat_false {A} (f : A -> bool) l : (forall x, x ∈ l -> f x = false) -> existsb f l = false.
Proof. induction l as [|x l IH]; intros H; [done|]. cbn. rewrite H by (by left). apply IH. intros y Hy. apply H. by right. Qed.

(** Byte [k] of a word. *)
Lemma le_word_byte b o k i : (k < 8)%nat -> 0 <= i < 8 ->
  Z.testbit (Z.shiftr (le_word b o) (8 * Z.of_nat k)) i = Z.testbit (byteZ (at_byte b (o + k))) i.
Proof.
  intros Hk Hi. rewrite Z.shiftr_spec by lia. unfold le_word. rewrite le_word_bits by lia.
  assert (Hother : forall j, j <> k -> Z.testbit (byteZ (at_byte b (o + j))) (i + 8 * Z.of_nat k - 8 * Z.of_nat j) = false).
  { intros j Hj. destruct (decide (j < k)%nat); [apply byte_high_bit; lia|apply Z.testbit_neg_r; lia]. }
  replace (Z.testbit (byteZ (at_byte b o)) (i + 8 * Z.of_nat k)) with (Z.testbit (byteZ (at_byte b (o + 0))) (i + 8 * Z.of_nat k - 8 * Z.of_nat 0))
    by (f_equal; [by rewrite Nat.add_0_r|lia]).
  change (Z.testbit (byteZ (at_byte b (o + 0))) (i + 8 * Z.of_nat k - 8 * Z.of_nat 0) ||
    existsb (fun j => Z.testbit (byteZ (at_byte b (o + j))) (i + 8 * Z.of_nat k - 8 * Z.of_nat j)) (seq 1 7))
    with (existsb (fun j => Z.testbit (byteZ (at_byte b (o + j))) (i + 8 * Z.of_nat k - 8 * Z.of_nat j)) (seq 0 8)).
  replace (seq 0 8) with (seq 0 k ++ k :: seq (S k) (7 - k)) by (replace 8%nat with (k + S (7 - k))%nat by lia; by rewrite seq_app).
  rewrite existsb_app. cbn [existsb]. rewrite !existsb_nat_false by (intros j Hj; apply Hother; apply elem_of_seq in Hj; lia).
  rewrite orb_false_r. cbn [orb]. f_equal. lia.
Qed.

Lemma xor_word_byte p h o k : (k < 8)%nat ->
  Zbyte (Z.shiftr (Z.lxor (le_word p o) (le_word h o)) (8 * Z.of_nat k)) = xor_byte (at_byte p (o + k)) (at_byte h (o + k)).
Proof.
  intros Hk. apply byteZ_inj. rewrite byteZ_xor, byteZ_Zbyte. change 256 with (2 ^ 8). apply Z.bits_inj'. intros i Hi.
  rewrite Z.lxor_spec, <- Z.land_ones, Z.land_spec by lia. destruct (Z.ltb_spec i 8) as [Hlt|Hge].
  - rewrite Z.ones_spec_low, andb_true_r by lia. rewrite Z.shiftr_lxor, Z.lxor_spec by lia. by rewrite !le_word_byte by lia.
  - rewrite Z.ones_spec_high, andb_false_r by lia. by rewrite !byte_high_bit by lia.
Qed.

Lemma put_bytes_lookup (g : nat -> byte) o n s p j : (o + s + n <= length p)%nat ->
  fold_left (fun p i => <[(o + i)%nat := g i]> p) (seq s n) p !! j =
  if bool_decide (o + s <= j < o + s + n)%nat then Some (g (j - o)%nat) else p !! j.
Proof.
  revert s p. induction n as [|n IH]; intros s p Hl; cbn [seq fold_left].
  - rewrite bool_decide_eq_false_2 by lia. done.
  - rewrite IH by (rewrite length_insert; lia). destruct (decide (j = o + s)%nat) as [->|Hn].
    + rewrite bool_decide_eq_false_2, bool_decide_eq_true_2 by lia. rewrite list_lookup_insert_eq by lia. do 2 f_equal. lia.
    + rewrite list_lookup_insert_ne by done. by rewrite (bool_decide_ext _ (o + s <= j < o + s + S n)%nat) by lia.
Qed.

Lemma put_word_length p o x : length (put_word p o x) = length p.
Proof. unfold put_word. cbn [seq fold_left]. by rewrite !length_insert. Qed.

Lemma mix_word_lookup h p i j : length p = 32%nat -> (i < 4)%nat ->
  mix_word h p i !! j = if bool_decide (8 * i <= j < 8 * i + 8)%nat then Some (xor_byte (at_byte p j) (at_byte h j)) else p !! j.
Proof.
  intros Hp Hi. unfold mix_word, put_word.
  rewrite (put_bytes_lookup (fun k => Zbyte (Z.shiftr (Z.lxor (le_word p (i * 8)) (le_word h (i * 8))) (8 * Z.of_nat k)))) by lia.
  rewrite (bool_decide_ext _ (8 * i <= j < 8 * i + 8)%nat) by lia. case_bool_decide as Hj; [|done].
  rewrite xor_word_byte by lia. by replace (i * 8 + (j - i * 8))%nat with j by lia.
Qed.

(** Mixing by words is the exclusive or by bytes. *)
Lemma mix_xor p h : length p = 32%nat -> length h = 32%nat -> mix p h = xor_into p h.
Proof.
  intros Hp Hh. assert (G : forall n q, (n <= 4)%nat -> q = fold_left (mix_word h) (seq 0 n) p -> length q = 32%nat /\
    forall j, q !! j = if bool_decide (j < 8 * n)%nat then Some (xor_byte (at_byte p j) (at_byte h j)) else p !! j).
  { induction n as [|n IH]; intros q Hn ->; [split; [done|intros j; by rewrite bool_decide_eq_false_2 by lia]|].
    rewrite seq_S, fold_left_app. cbn [fold_left Nat.add]. destruct (IH _ ltac:(lia) eq_refl) as [L K].
    split; [unfold mix_word; by rewrite put_word_length|]. intros j. rewrite mix_word_lookup by (done || lia).
    destruct (decide (8 * n <= j < 8 * n + 8)%nat) as [Hj|Hj].
    - rewrite !bool_decide_eq_true_2 by lia. do 2 f_equal. unfold at_byte. rewrite (nth_lookup _ j), K.
      rewrite bool_decide_eq_false_2 by lia. by rewrite <- nth_lookup.
    - rewrite (bool_decide_eq_false_2 (8 * n <= j < 8 * n + 8)%nat) by done. rewrite K.
      by rewrite (bool_decide_ext (j < 8 * n)%nat (j < 8 * S n)%nat) by lia. }
  destruct (G 4%nat _ ltac:(lia) eq_refl) as [L K]. apply list_eq. intros j. unfold mix. rewrite K, lookup_xor_into. case_bool_decide as Hj.
  - destruct (lookup_lt_is_Some_2 p j) as [a Ha]; [lia|]. destruct (lookup_lt_is_Some_2 h j) as [b Hb]; [lia|].
    rewrite Ha, Hb. unfold at_byte. by rewrite !nth_lookup, Ha, Hb.
  - by rewrite lookup_ge_None_2 by lia.
Qed.

(** ** The pool, the ring and the counter against the history *)

Inductive flow_op := FIngest (now : Z) (hashes : list bytes) | FHarvest.

Definition flow_apply {C : Crypto} (mf : MempoolFlow) (o : flow_op) : MempoolFlow :=
  match o with FIngest now hs => Ingest now hs mf | FHarvest => (Harvest mf).2 end.

Definition flow_run {C : Crypto} (ops : list flow_op) (mf : MempoolFlow) : MempoolFlow := fold_left flow_apply ops mf.

(** The abstract state: every hash ever seen, and those since the last harvest. *)
Record History := mkHistory { seen : list bytes; since : list bytes }.

Definition history_apply (h : History) (o : flow_op) : History :=
  match o with FIngest _ hs => mkHistory (seen h ++ hs) (since h ++ hs) | FHarvest => mkHistory (seen h) [] end.

Definition history (ops : list flow_op) : History := fold_left history_apply ops (mkHistory [] []).

Definition hashes_ok (o : flow_op) : Prop := match o with FIngest _ hs => Forall (fun h => length h = 32%nat) hs | FHarvest => True end.

Record flow_rel (mf : MempoolFlow) (h : History) : Prop := {
  rel_pool : pool mf = xor_all (zeros 32) (since h);
  rel_count : hashCount mf = u64 (Z.of_nat (length (seen h)));
  rel_size : 32 <= ringSize mf;
  rel_idx : ringIdx mf = Z.of_nat (length (seen h)) mod ringSize mf;
  rel_ring : length (recentHashes mf) = Z.to_nat (ringSize mf);
  rel_recent : forall i x, seen h !! i = Some x -> Z.of_nat (length (seen h)) - ringSize mf <= Z.of_nat i ->
    recentHashes mf !! Z.to_nat (Z.of_nat i mod ringSize mf) = Some x;
}.

Lemma mod_apart i n R : 0 < R -> 0 < n - i < R -> i mod R <> n mod R.
Proof.
  intros HR Hd E. pose proof (Z.mod_eq i R ltac:(lia)). pose proof (Z.mod_eq n R ltac:(lia)).
  assert (n - i = R * (n / R - i / R)) by lia. assert (0 < n / R - i / R < 1) by nia. lia.
Qed.

Lemma ingest_one_rel mf h x : flow_rel mf h -> length x = 32%nat -> flow_rel (ingest_one mf x) (mkHistory (seen h ++ [x]) (since h ++ [x])).
Proof.
  intros [Hp Hc Hs Hi Hr Hm] Hx. pose proof (Z.mod_pos_bound (Z.of_nat (length (seen h))) (ringSize mf) ltac:(lia)) as Hb.
  split; cbn [seen since ingest_one pool hashCount ringSize ringIdx recentHashes]; rewrite ?length_app; cbn [length].
  - rewrite mix_xor, Hp; [by unfold xor_all; rewrite fold_left_app| |done]. by rewrite Hp, length_xor_all.
  - rewrite Hc. unfold u64. rewrite Zplus_mod_idemp_l. f_equal. lia.
  - done.
  - rewrite Hi, Z.rem_mod_nonneg, Zplus_mod_idemp_l by lia. f_equal. lia.
  - by rewrite length_insert.
  - intros i y Hy Hle. apply lookup_snoc_Some in Hy as [[Hlt Hy]|[-> ->]].
    + rewrite list_lookup_insert_ne; [apply Hm; [done|lia]|]. rewrite Hi.
      pose proof (Z.mod_pos_bound (Z.of_nat i) (ringSize mf) ltac:(lia)).
      pose proof (mod_apart (Z.of_nat i) (Z.of_nat (length (seen h))) (ringSize mf)). lia.
    + rewrite Hi, list_lookup_insert_eq; [done|]. rewrite Hr. lia.
Qed.

Lemma ingest_fold_rel hs mf h : flow_rel mf h -> Forall (fun x => length x = 32%nat) hs ->
  flow_rel (fold_left ingest_one hs mf) (mkHistory (seen h ++ hs) (since h ++ hs)).
Proof.
  intros H Hf. revert mf h H. induction Hf as [|x hs Hx Hf IH]; intros mf [se si] H; cbn [seen since fold_left].
  - by rewrite !app_nil_r.
  - pose proof (IH _ _ (ingest_one_rel mf (mkHistory se si) x H Hx)) as K.
    cbn in K. by rewrite <- !(assoc_L (++)) in K.
Qed.

Lemma flow_apply_rel {C : Crypto} mf h o : flow_rel mf h -> hashes_ok o -> flow_rel (flow_apply mf o) (history_apply h o).
Proof.
  destruct o as [now hs|]; cbn [hashes_ok flow_apply history_apply]; intros H Ho.
  - pose proof (ingest_fold_rel hs mf h H Ho) as K. unfold Ingest. cbv zeta. case_match; by destruct K.
  - by destruct H.
Qed.

Lemma new_flow_rel size now : flow_rel (NewMempoolFlow size now) (mkHistory [] []).
Proof.
  unfold NewMempoolFlow. assert (32 <= (if size <? 32 then 32 else size)) by (destruct (Z.ltb_spec size 32); lia).
  split; cbn; try done. apply length_replicate.
Qed.

Lemma flow_run_rel {C : Crypto} ops size now : Forall hashes_ok ops -> flow_rel (flow_run ops (NewMempoolFlow size now)) (history ops).
Proof.
  unfold flow_run, history. generalize (new_flow_rel size now). generalize (NewMempoolFlow size now). generalize (mkHistory [] []).
  intros h mf H Hf. revert h mf H. induction Hf as [|o ops Ho Hf IH]; intros h mf H; [done|]. cbn. apply IH. by apply flow_apply_rel.
Qed.

Lemma ringSize_run {C : Crypto} ops mf : ringSize (flow_run ops mf) = ringSize mf.
Proof.
  unfold flow_run. revert mf. induction ops as [|o ops IH]; intros mf; [done|]. cbn [fold_left]. rewrite IH. destruct o as [now hs|]; [|done].
  cbn [flow_apply]. unfold Ingest. assert (E : ringSize (fold_left ingest_one hs mf) = ringSize mf).
  { clear. revert mf. induction hs as [|x hs IH]; intros mf; [done|]. cbn. by rewrite IH. }
  cbv zeta. by case_match.
Qed.

Lemma recent_hashes_rel mf h n : flow_rel mf h -> 0 <= n -> Z.of_nat (length (seen h)) < 2 ^ 63 ->
  RecentHashes n mf = Done (take (Z.to_nat (Z.min n (ringSize mf))) (reverse (seen h))).
Proof.
  intros [_ Hc Hs Hi Hr Hm] Hn Hl. unfold RecentHashes.
  assert (E : i64 (hashCount mf) = Z.of_nat (length (seen h))) by (rewrite Hc; unfold u64; rewrite Z.mod_small by lia; apply i64_id; unfold in_i64; lia).
  rewrite E. set (len := Z.of_nat (length (seen h))) in *.
  replace (if ringSize mf <? n then ringSize mf else n) with (Z.min n (ringSize mf)) by (destruct (Z.ltb_spec (ringSize mf) n); lia).
  set (m := Z.min n (ringSize mf)).
  replace (if len <? m then len else m) with (Z.min m len) by (destruct (Z.ltb_spec len m); lia).
  rewrite (proj2 (Z.ltb_ge (Z.min m len) 0)) by lia. f_equal. apply list_eq. intros i.
  rewrite list_lookup_fmap. destruct (decide (Z.of_nat i < Z.min m len)) as [Hlt|Hge].
  - rewrite lookup_seq_lt by lia. cbn [fmap option_fmap option_map Nat.add]. rewrite lookup_take_lt by lia.
    rewrite reverse_lookup by lia. destruct (lookup_lt_is_Some_2 (seen h) (length (seen h) - S i)) as [x Hx]; [lia|]. rewrite Hx. f_equal.
    pose proof (Z.mod_pos_bound len (ringSize mf) ltac:(lia)).
    replace (Z.rem (ringIdx mf - 1 - Z.of_nat i + ringSize mf) (ringSize mf)) with (Z.of_nat (length (seen h) - S i) mod ringSize mf).
    + rewrite nth_lookup, (Hm _ _ Hx) by lia. done.
    + rewrite Hi. fold len. rewrite Z.rem_mod_nonneg by lia.
      replace (len mod ringSize mf - 1 - Z.of_nat i + ringSize mf) with (len mod ringSize mf + (ringSize mf - 1 - Z.of_nat i)) by lia.
      rewrite Zplus_mod_idemp_l. rewrite <- (Z_mod_plus_full _ 1). f_equal. lia.
  - rewrite (lookup_ge_None_2 (seq _ _)) by (rewrite length_seq; lia). symmetry. apply lookup_ge_None_2. rewrite length_take, length_reverse. lia.
Qed.

(** C30: The mempool flow implements its history: the pool is the exclusive or of the hashes since the last
    harvest and the entropy its digest, the counter counts all hashes, and the recent hashes are
    the latest of them, newest first, as many as asked for, seen and kept. *)
Theorem flow_refines {C : Crypto} ops size now n :
  Forall hashes_ok ops -> 0 <= n -> Z.of_nat (length (seen (history ops))) < 2 ^ 63 ->
  let mf := flow_run ops (NewMempoolFlow size now) in
  Entropy mf = Keccak256 (xor_all (zeros 32) (since (history ops))) /\
  (Harvest mf).1 = (Entropy mf, Z.of_nat (length (seen (history ops)))) /\
  RecentHashes n mf = Done (take (Z.to_nat (Z.min n (Z.max 32 size))) (reverse (seen (history ops)))).
Proof.
  intros Ho Hn Hl mf. pose proof (flow_run_rel ops size now Ho) as H. fold mf in H. split_and!.
  - unfold Entropy. by rewrite (rel_pool _ _ H).
  - cbn. rewrite (rel_count _ _ H). unfold u64. by rewrite Z.mod_small by lia.
  - rewrite (recent_hashes_rel _ _ _ H Hn Hl). unfold mf. rewrite ringSize_run. cbn. do 4 f_equal. destruct (Z.ltb_spec size 32); lia.
Qed.

(** Two nodes that saw the same hashes in different orders and batches have the same entropy. *)
Theorem entropy_order_independent {C : Crypto} ops ops' size size' now now' :
  Forall hashes_ok ops -> Forall hashes_ok ops' -> since (history ops) ≡ₚ since (history ops') ->
  Entropy (flow_run ops (NewMempoolFlow size now)) = Entropy (flow_run ops' (NewMempoolFlow size' now')).
Proof.
  intros H H' Hp. unfold Entropy. rewrite (rel_pool _ _ (flow_run_rel ops size now H)), (rel_pool _ _ (flow_run_rel ops' size' now' H')).
  by rewrite (xor_all_perm _ _ _ Hp).
Qed.

(** A hash that is announced a second time cancels the first announcement. *)
Theorem replay_cancels {C : Crypto} ops h t size now :
  Forall hashes_ok ops -> length h = 32%nat ->
  pool (flow_run (ops ++ [FIngest t [h; h]]) (NewMempoolFlow size now)) = pool (flow_run ops (NewMempoolFlow size now)).
Proof.
  intros Ho Hh. assert (Ho' : Forall hashes_ok (ops ++ [FIngest t [h; h]])) by (apply Forall_app; repeat constructor; done).
  rewrite (rel_pool _ _ (flow_run_rel _ size now Ho')), (rel_pool _ _ (flow_run_rel _ size now Ho)).
  unfold history. rewrite fold_left_app. cbn. unfold xor_all. rewrite fold_left_app. cbn. by rewrite xor_into_twice.
Qed.

(** ** The stream *)

Section stream.
Context (entropy : nat -> bytes) (Hent : forall k, length (entropy k) = 32%nat).

Definition compute_ok (fc : FlowCompute) : Prop := 0 <= bufferIdx fc <= Z.of_nat (length (buffer fc)).

(** What has been drawn from the flow and not handed out. *)
Definition pending (fc : FlowCompute) : bytes := drop (Z.to_nat (bufferIdx fc)) (buffer fc).

Definition refills_of (c r : nat) : bytes := concat (map entropy (seq c (r - c))).

Lemma refill_loop_spec fuel n c fc :
  0 <= n -> Z.of_nat c <= n / 32 + 1 -> (Z.to_nat (n / 32) + 1 < fuel + c)%nat -> 32 * Z.of_nat c <= available fc \/ c = 0%nat -> compute_ok fc ->
  exists r, (c <= r)%nat /\ Z.of_nat r <= n / 32 + 1 /\
    refill_loop fuel entropy n (max_refills n) c fc = Done (mkCompute (buffer fc ++ refills_of c r) (bufferIdx fc) (minBuffer fc), r) /\
    n <= Z.of_nat (length (buffer fc ++ refills_of c r)) - bufferIdx fc.
Proof.
  intros Hn. revert c fc. induction fuel as [|fuel IH]; intros c fc Hcn Hf Ha Hok.
  - exfalso. lia.
  - cbn [refill_loop]. destruct (Z.ltb_spec (available fc) n) as [Hlt|Hge].
    + assert (Hc : Z.of_nat c <= n / 32). { apply Z.div_le_lower_bound; unfold available, compute_ok in *; lia. }
      assert (Hmx : max_refills n = n / 32 + 10) by (unfold max_refills; rewrite Z.quot_div_nonneg by lia; lia).
      rewrite (proj2 (Z.ltb_ge (max_refills n) (Z.of_nat (S c)))) by lia.
      destruct (IH (S c) (refillBuffer (entropy c) fc)) as (r & H1 & H2 & E & H3).
      * lia.
      * lia.
      * left. unfold available, compute_ok in *. cbn. rewrite length_app, Hent. lia.
      * unfold compute_ok in *. cbn. rewrite length_app. lia.
      * assert (ER : refills_of c r = entropy c ++ refills_of (S c) r).
        { unfold refills_of. replace (r - c)%nat with (S (r - S c))%nat by lia. done. }
        exists r. cbn [refillBuffer buffer bufferIdx minBuffer] in *. rewrite <- (assoc_L (++)) in E, H3. rewrite ER. split_and!; [lia|lia|done|done].
    + exists c. unfold refills_of. rewrite Nat.sub_diag. cbn. rewrite app_nil_r. split_and!; [lia|lia|by destruct fc|]. unfold available in Hge. lia.
Qed.

(** One draw: [n] bytes are returned after at most [n / 32 + 1] refills, and the bytes
    returned followed by those still pending are the ones that were pending followed by the digests
    drawn: nothing is skipped, repeated or padded. *)
Lemma next_bytes_spec n fc :
  0 <= n -> compute_ok fc ->
  exists res r fc', NextBytes entropy n fc = Done (res, r, fc') /\ Z.of_nat (length res) = n /\ Z.of_nat r <= n / 32 + 1 /\ compute_ok fc' /\
    res ++ pending fc' = pending fc ++ concat (map entropy (seq 0 r)).
Proof.
  intros Hn Hok. assert (H32 : 0 <= n / 32) by (apply Z.div_pos; lia).
  destruct (refill_loop_spec (Z.to_nat (max_refills n) + 2) n 0 fc) as (r & _ & Hr & E & Hav); [done|lia| |by right|done|].
  { unfold max_refills. rewrite Z.quot_div_nonneg by lia. lia. }
  unfold NextBytes. rewrite E. cbn [outcome_bind]. rewrite (proj2 (Z.ltb_ge n 0)) by lia. cbv zeta. cbn [buffer bufferIdx minBuffer].
  unfold available. cbn [buffer bufferIdx]. rewrite (proj2 (Z.leb_le _ _) Hav).
  set (B := buffer fc ++ refills_of 0 r) in *. unfold compute_ok in *.
  assert (Hlen : length (take (Z.to_nat n) (drop (Z.to_nat (bufferIdx fc)) B)) = Z.to_nat n) by (rewrite length_take, length_drop; lia).
  assert (HB : drop (Z.to_nat (bufferIdx fc)) B = pending fc ++ concat (map entropy (seq 0 r))).
  { unfold B, pending, refills_of. rewrite Nat.sub_0_r, drop_app_le by lia. done. }
  do 3 eexists. split; [done|]. split_and!; [lia|lia|destruct (Z.ltb_spec 1024 (bufferIdx fc + n)); cbn; rewrite ?length_drop; lia| |].
  { destruct (Z.ltb_spec 1024 (bufferIdx fc + n)); cbn; lia. }
  rewrite <- HB. rewrite <- (take_drop (Z.to_nat n) (drop (Z.to_nat (bufferIdx fc)) B)) at 2. f_equal. unfold pending. rewrite drop_drop.
  destruct (Z.ltb_spec 1024 (bufferIdx fc + n)); cbn [buffer bufferIdx]; [change (Z.to_nat 0) with 0%nat; rewrite drop_0|]; f_equal; lia.
Qed.
End stream.

(** Draws in sequence, each with the digests that the flow gives during it. *)
Fixpoint draw_all (draws : list (Z * (nat -> bytes))) (fc : FlowCompute) : outcome (list (bytes * nat) * FlowCompute) :=
  match draws with
  | [] => Done ([], fc)
  | (n, entropy) :: draws =>
      let! (res, r, fc1) := NextBytes entropy n fc in
      let! (out, fc2) := draw_all draws fc1 in Done ((res, r) :: out, fc2)
  end.

(** The digests drawn: [r] of them for each draw. *)
Definition drawn (draws : list (Z * (nat -> bytes))) (out : list (bytes * nat)) : bytes :=
  concat (zip_with (fun d o => concat (map d.2 (seq 0 o.2))) draws out).

Definition draw_ok (d : Z * (nat -> bytes)) : Prop := 0 <= d.1 /\ forall k, length (d.2 k) = 32%nat.

(** Draws never fail and never run out: each returns the bytes it was asked for, after at most
    [n / 32 + 1] refills, and what they return together, followed by what is pending, is the
    sequence of the digests: nothing is skipped, repeated or padded. *)
Theorem next_bytes_stream draws :
  Forall draw_ok draws ->
  exists out fc', draw_all draws NewFlowCompute = Done (out, fc') /\ Forall2 (fun d o => Z.of_nat (length o.1) = d.1 /\ Z.of_nat o.2 <= d.1 / 32 + 1) draws out /\
    concat out.*1 ++ pending fc' = drawn draws out.
Proof.
  intros H. enough (G : forall fc, compute_ok fc -> exists out fc', draw_all draws fc = Done (out, fc') /\
    Forall2 (fun d o => Z.of_nat (length o.1) = d.1 /\ Z.of_nat o.2 <= d.1 / 32 + 1) draws out /\ concat out.*1 ++ pending fc' = pending fc ++ drawn draws out).
  { apply (G NewFlowCompute). by split. }
  induction H as [|[n ent] draws [Hn Hent] H IH]; intros fc Hok.
  - exists [], fc. split_and!; [done|constructor|]. by rewrite app_nil_r.
  - cbn in Hn, Hent. destruct (next_bytes_spec ent Hent n fc Hn Hok) as (res & r & fc1 & E & Hl & Hr & Hok1 & Hs).
    destruct (IH fc1 Hok1) as (out & fc2 & E2 & F & Hs2). exists ((res, r) :: out), fc2. cbn [draw_all]. rewrite E. cbn [outcome_bind]. rewrite E2.
    split_and!; [done|by constructor|]. cbn. unfold drawn in *. cbn. rewrite <- (assoc_L (++)), Hs2, !(assoc_L (++)), Hs. done.
Qed.

Lemma new_compute_ok : compute_ok NewFlowCompute.
Proof. by split. Qed.

Lemma next_uint64_range entropy (Hent : forall k, length (entropy k) = 32%nat) fc :
  compute_ok fc -> exists u fc', NextUint64 entropy fc = Done (u, fc') /\ 0 <= u < 2 ^ 64 /\ compute_ok fc'.
Proof.
  intros Hok. destruct (next_bytes_spec entropy Hent 8 fc ltac:(lia) Hok) as (res & r & fc' & E & Hl & _ & Hok' & _).
  unfold NextUint64. rewrite E. cbn [outcome_bind]. do 2 eexists. split_and!; [done| | |done].
  - apply be_int_app_bound.
  - eapply Z.lt_le_trans; [apply be_int_app_bound|]. rewrite length_take. replace (8 `min` length res)%nat with 8%nat by lia. done.
Qed.

(** An index selected among [n] is one of them; without a choice it is zero. *)
Theorem select_index_bounds entropy n fc :
  (forall k, length (entropy k) = 32%nat) -> n < 2 ^ 63 -> compute_ok fc ->
  exists i fc', SelectIndex entropy n fc = Done (i, fc') /\ (0 < n -> 0 <= i < n) /\ (n <= 0 -> i = 0) /\ compute_ok fc'.
Proof.
  intros Hent Hn Hok. unfold SelectIndex. destruct (Z.leb_spec n 0) as [H|H].
  - do 2 eexists. split_and!; [done|lia|done|done..].
  - destruct (next_uint64_range entropy Hent fc Hok) as (u & fc' & E & Hu & Hok'). rewrite E. cbn [outcome_bind].
    pose proof (Z.mod_pos_bound u n H). unfold u64. rewrite (Z.mod_small n) by lia. rewrite i64_id by (unfold in_i64; lia).
    do 2 eexists. split_and!; [done|lia|lia|done].
Qed.

(** While no hash arrives, every block of the stream is the same digest. *)
Theorem entropy_repeats {C : Crypto} {L : CryptoLaws C} mf k :
  exists r fc', NextBytes (fun _ => Entropy mf) (32 * Z.of_nat k) NewFlowCompute = Done (concat (replicate k (Entropy mf)), r, fc').
Proof.
  assert (He : forall i : nat, length (Entropy mf) = 32%nat) by (intros; apply keccak_length).
  destruct (next_bytes_spec (fun _ => Entropy mf) He (32 * Z.of_nat k) NewFlowCompute ltac:(lia) new_compute_ok) as (res & r & fc' & E & Hl & _ & _ & Hs).
  exists r, fc'. rewrite E. do 3 f_equal. change (pending NewFlowCompute) with (@nil byte) in Hs. cbn [app] in Hs.
  assert (Hc : forall n, concat (map (fun _ : nat => Entropy mf) (seq 0 n)) = concat (replicate n (Entropy mf))).
  { intros n. f_equal. generalize 0%nat. induction n; intros s; cbn; [done|by rewrite IHn]. }
  assert (Hcl : forall n, length (concat (replicate n (Entropy mf))) = (32 * n)%nat).
  { induction n; cbn; [done|]. rewrite length_app, IHn, (He 0%nat). lia. }
  rewrite Hc in Hs. assert (Hkr : (k <= r)%nat) by (apply (f_equal length) in Hs; rewrite length_app, Hcl in Hs; lia).
  replace r with (k + (r - k))%nat in Hs by lia. rewrite replicate_add, concat_app in Hs. apply app_inj_1 in Hs as [-> _]; [done|].
  rewrite Hcl. lia.
Qed.

(** ** The harvester *)

Lemma unsubscribe_ok {Tx} s (f : @EventFanOut Tx) : fan_ok f -> exists f', Unsubscribe s f = Done f' /\ fan_ok f'.
Proof.
  intros Hok. destruct (fan_apply_ok (OpUnsubscribe (sub_id s)) f Hok I) as (r & f' & E & H). exists f'. cbn in E. unfold Unsubscribe.
  destruct (fanOut_remove (sub_id s) f); cbn in E; [|done..]. by injection E as _ ->.
Qed.

Lemma subscribe_ok {Tx} n (f : @EventFanOut Tx) : fan_ok f -> 0 <= n -> exists s f', fanOut_Subscribe n f = Done (s, f') /\ fan_ok f'.
Proof.
  intros Hok Hn. destruct (fan_apply_ok (OpSubscribe n) f Hok Hn) as (r & f' & E & H). cbn in E.
  destruct (fanOut_Subscribe n f) as [[s f1]| |]; cbn in E; [|done..]. injection E as _ ->. eauto.
Qed.

(** Started, stopped, started and stopped again, a harvester closes its stop channel twice: the channel
    is made once, by the constructor. *)
Theorem harvester_restart_panics {Tx} now (f : @EventFanOut Tx) :
  fan_ok f ->
  exists fh1 f1 fh2 f2 fh3 f3, harvester_Start (NewFlowHarvester true now) f = Done (fh1, f1) /\ harvester_Stop fh1 f1 = Done (fh2, f2) /\
    harvester_Start fh2 f2 = Done (fh3, f3) /\ harvester_Stop fh3 f3 = Panic "close of closed channel".
Proof.
  intros Hok. destruct (subscribe_ok 256 f Hok ltac:(lia)) as (s & f1 & E1 & H1). destruct (unsubscribe_ok s f1 H1) as (f2 & E2 & H2).
  destruct (subscribe_ok 256 f2 H2 ltac:(lia)) as (s' & f3 & E3 & _). do 6 eexists. split_and!.
  - unfold harvester_Start. cbn [fh_running fh_feed NewFlowHarvester negb]. rewrite E1. done.
  - unfold harvester_Stop. cbn [fh_running fh_stopCh_open fh_sub negb NewFlowHarvester]. rewrite E2. done.
  - unfold harvester_Start. cbn [fh_running fh_feed NewFlowHarvester negb]. rewrite E3. done.
  - done.
Qed.

Section end_to_end.
Context {C : Crypto} {Tx : Type} (now : @NetworkEvent Tx -> Z) (clock : @NetworkEvent Tx -> string).

(** The goroutine over the events it has read. *)
Definition harvest_all (es : list NetworkEvent) (mf : MempoolFlow) : MempoolFlow := fold_left (fun mf e => harvest_event (now e) (clock e) e mf) es mf.

(** An announcement of transaction hashes. *)
Definition announces (e : @NetworkEvent Tx) : Prop := ev_Type e = EventTxHashes /\ Forall (fun h => length h = 32%nat) (ev_Hashes e).

Lemma harvest_all_run es mf : Forall announces es -> harvest_all es mf = flow_run (map (fun e => FIngest (now e) (ev_Hashes e)) es) mf.
Proof.
  unfold harvest_all, flow_run. intros H. revert mf. induction H as [|e es [Ht _] _ IH]; intros mf; [done|]. cbn [fold_left map]. rewrite <- IH.
  unfold harvest_event. by rewrite Ht.
Qed.

Lemma since_announced es h : since (fold_left history_apply (map (fun e => FIngest (now e) (ev_Hashes e)) es) h) = since h ++ concat (map ev_Hashes es).
Proof. revert h. induction es as [|e es IH]; intros h; cbn; [by rewrite app_nil_r|]. rewrite IH. cbn. by rewrite <- (assoc_L (++)). Qed.

(** From the transports to the entropy: a harvester that keeps up with a feed of announcements and has
    read all of them holds the digest of the exclusive or of every hash announced. *)
Theorem harvest_end_to_end f os rs f2 id loc c size t0 :
  fan_run f os rs f2 -> fan_ok f -> registered f id loc c -> buf c = [] -> Forall (keeps id) os -> 0 <= id <= nextID f ->
  nextID f + subscribes os < 2 ^ 64 -> within loc (cap c) 0 os rs -> Forall announces (emitted os) -> length (got loc rs) = length (emitted os) ->
  Entropy (harvest_all (got loc rs) (NewMempoolFlow size t0)) = Keccak256 (xor_all (zeros 32) (concat (map ev_Hashes (emitted os)))).
Proof.
  intros Hrun Hok Hreg Hb Hk Hid Hn Hw Ha Hl.
  destruct (fan_run_delivers _ _ _ _ _ _ _ Hrun Hok Hreg Hk Hid Hn) as (c2 & _ & _ & Heq). rewrite Hb in Heq. specialize (Heq Hw). cbn [app] in Heq.
  assert (E : got loc rs = emitted os).
  { rewrite <- Heq in Hl. rewrite length_app in Hl. destruct (buf c2) as [|e b]; [by rewrite app_nil_r in Heq|cbn in Hl; lia]. }
  rewrite E, harvest_all_run by done. unfold Entropy.
  assert (Hh : Forall hashes_ok (map (fun e => FIngest (now e) (ev_Hashes e)) (emitted os))).
  { apply Forall_fmap. eapply Forall_impl; [exact Ha|]. by intros e [_ H]. }
  rewrite (rel_pool _ _ (flow_run_rel _ size t0 Hh)).
  unfold history. by rewrite since_announced.
Qed.
End end_to_end.

(** ** Examples *)

Definition toy_hash (n : Z) : bytes := zeros 31 ++ [Zbyte n].
Definition toy_flow_ops : list flow_op := [FIngest 1 [toy_hash 1; toy_hash 2]; FHarvest; FIngest 2 (map toy_hash [3; 4; 5])].

Lemma flow_refines_witness :
  RecentHashes 4 (flow_run (C := Toy.crypto) toy_flow_ops (NewMempoolFlow 8 0)) = Done (map toy_hash [5; 4; 3; 2]) /\
  Entropy (C := Toy.crypto) (flow_run (C := Toy.crypto) toy_flow_ops (NewMempoolFlow 8 0)) = Keccak256 (Crypto := Toy.crypto) (toy_hash 2).
Proof.
  destruct (flow_refines (C := Toy.crypto) toy_flow_ops 8 0 4) as (E & _ & R).
  - repeat constructor.
  - lia.
  - vm_compute. reflexivity.
  - split; [etransitivity; [exact R|vm_compute; reflexivity]|]. etransitivity; [exact E|]. f_equal.
Defined.

Definition toy_draws : list (Z * (nat -> bytes)) := [(40, fun k => toy_hash (Z.of_nat k)); (8, fun _ => toy_hash 7)].

Lemma next_bytes_stream_witness :
  exists out fc', draw_all toy_draws NewFlowCompute = Done (out, fc') /\ concat out.*1 ++ pending fc' = drawn toy_draws out /\ drawn toy_draws out = toy_hash 0 ++ toy_hash 1.
Proof.
  destruct (next_bytes_stream toy_draws) as (out & fc' & E & _ & S).
  - repeat constructor; cbn; lia.
  - exists out, fc'. split_and!; [exact E|exact S|]. vm_compute in E. injection E as <- _. reflexivity.
Defined.

Definition toy_announce (n : Z) : @NetworkEvent unit := with_hashes [toy_hash n] (event0 EventTxHashes 1 n).
Definition toy_feed_ops : list (@fan_op unit) :=
  [OpEmit (fun _ => false) [(1, 0%nat)] (toy_announce 1); OpEmit (fun _ => false) [(1, 0%nat)] (toy_announce 6); OpReceive 0; OpReceive 0].
Definition toy_feed_end : list fan_res * EventFanOut := Eval vm_compute in toy_run toy_feed_ops toy_sub.2.

Lemma toy_feed_run : fan_run toy_sub.2 toy_feed_ops toy_feed_end.1 toy_feed_end.2.
Proof. do 4 toy_step. apply run_nil. Qed.

Lemma harvest_end_to_end_witness :
  Entropy (C := Toy.crypto) (harvest_all (C := Toy.crypto) ev_Timestamp (fun _ => EmptyString) (got 0 toy_feed_end.1) (NewMempoolFlow 1000 0)) =
  Keccak256 (Crypto := Toy.crypto) (toy_hash 7).
Proof.
  refine (harvest_end_to_end (C := Toy.crypto) ev_Timestamp (fun _ => EmptyString) toy_sub.2 toy_feed_ops toy_feed_end.1 toy_feed_end.2 1 0 (mkChan [] 2 true) 1000 0
    toy_feed_run toy_sub_ok _ _ _ _ _ _ _ _).
  - done.
  - done.
  - repeat constructor.
  - cbn. lia.
  - vm_compute. reflexivity.
  - cbn. lia.
  - repeat constructor.
  - reflexivity.
Defined.
