(* ===== verification/Dispatch.v ===== *)
(** * Dispatching a payload and collecting the answers ([node/dispatcher.go])

    Contents: the dispatcher's operations; the system of its goroutines as a transition system, with
    the feed of [River]; the functions that turn hashes into numbers.

    [Dispatch] runs with a collector goroutine per call.  The collector reads its subscription and
    ends when the channel is closed or when it sees the stop channel closed; the field
    [stopCh] is read anew in each round, so a collector that outlives its call waits on the stop
    channel of the next one.  The labels of the system are the atomic steps: what one goroutine does
    between two locks or channel operations.  The clock of a step is part of its label.  What the
    transport answers to a broadcast is too.

    The theorems: one dispatch runs at a time, results have no duplicates, contain only announced
    hashes, and the broadcast transaction itself only if it was announced before the broadcast
    returned ([dispatch_results]); without a processor nothing panics ([dispatch_never_panics]);
    the collecting loop ends a fixed number of ticks after the first hash ([dispatch_settles]).
    A processor that declines twice closes the stop channel twice ([processor_panics]), and hashes
    announced before a dispatch began can be in its result ([stale_hashes_leak]).  The combined hash
    does not depend on the order of arrival and is the one of the game's bridge
    ([combine_hashes_reference]). *)

From Stdlib Require Import String SpecFloat.
From S2P Require Import Prelude Json Signing Float64 Bits Pong PongNet River.

(** ** The dispatcher *)

Section dispatch.
(** The state of a processor (a closure), and a transaction of the library. *)
Context {P Tx : Type}.

Definition HashProcessor : Type := P -> bytes -> bytes -> P * bool.

(** Stop channels are objects: [stopCh] is an index in a list that says which are open. *)
Record Dispatcher := mkDisp {
  collecting : bool; hashes : gset bytes; hashList : list bytes; hashBytes : list bytes; processor : option HashProcessor;
  stopCh : option nat; collectTimeout : Z;
}.

Record DispatchResult := mkResult {
  dr_Payload : bytes; dr_BroadcastTx : bytes; dr_Hashes : list bytes; dr_HashBytes : list bytes; dr_StartTime : Z; dr_Duration : Z;
  dr_PeerCount : Z;
}.

Definition ErrDispatchInProgress : string := "dispatch already in progress".

Definition NewDispatcher : Dispatcher := mkDisp false ∅ [] [] None None (30 * 10 ^ 9).

Definition SetTimeout (timeout : Z) (d : Dispatcher) : Dispatcher :=
  mkDisp (collecting d) (hashes d) (hashList d) (hashBytes d) (processor d) (stopCh d) timeout.

(** The first critical section of [Dispatch]. *)
Definition dispatch_begin (p : option HashProcessor) (d : Dispatcher) (stops : list bool) : result (Dispatcher * list bool) :=
  if collecting d then Err ErrDispatchInProgress
  else Ok (mkDisp true ∅ [] [] p (Some (length stops)) (collectTimeout d), stops ++ [true]).

Definition stop_open (d : Dispatcher) (stops : list bool) : bool :=
  match stopCh d with Some ch => match stops !! ch with Some b => b | None => false end | None => false end.

(** [close(d.stopCh)]. *)
Definition close_stop (d : Dispatcher) (stops : list bool) : outcome (list bool) :=
  match stopCh d with
  | None => Panic "close of nil channel"
  | Some ch => if stop_open d stops then Done (<[ch := false]> stops) else Panic "close of closed channel"
  end.

Definition add_hash (h : bytes) (d : Dispatcher) : Dispatcher :=
  mkDisp (collecting d) ({[h]} ∪ hashes d) (hashList d ++ [h]) (hashBytes d ++ [h]) (processor d) (stopCh d) (collectTimeout d).

Fixpoint collect_loop (hs : list bytes) (d : Dispatcher) (stops : list bool) (pst : P) : outcome (Dispatcher * list bool * P) :=
  match hs with
  | [] => Done (d, stops, pst)
  | h :: hs =>
      if bool_decide (h ∈ hashes d) then collect_loop hs d stops pst
      else
        let d1 := add_hash h d in
        match processor d with
        | None => collect_loop hs d1 stops pst
        | Some p =>
            let '(pst1, more) := p pst h h in
            if more then collect_loop hs d1 stops pst1
            else let! stops1 := close_stop d1 stops in Done (d1, stops1, pst1)
        end
  end.

Definition collectHashes (hs : list bytes) (d : Dispatcher) (stops : list bool) (pst : P) : outcome (Dispatcher * list bool * P) :=
  if collecting d then collect_loop hs d stops pst else Done (d, stops, pst).

(** [d.hashes[result.BroadcastTx] = true]. *)
Definition mark_broadcast (tx : bytes) (d : Dispatcher) : Dispatcher :=
  mkDisp (collecting d) ({[tx]} ∪ hashes d) (hashList d) (hashBytes d) (processor d) (stopCh d) (collectTimeout d).

Definition dispatcher_Stop (d : Dispatcher) (stops : list bool) : outcome (list bool) :=
  if collecting d && stop_open d stops then close_stop d stops else Done stops.

Definition HashCount (d : Dispatcher) : Z := Z.of_nat (length (hashList d)).

(** The deferred function. *)
Definition dispatch_end (d : Dispatcher) : Dispatcher :=
  mkDisp false (hashes d) (hashList d) (hashBytes d) (processor d) (stopCh d) (collectTimeout d).

Definition settleTime : Z := 200 * 10 ^ 6.

(** A tick of the loop: [None] leaves it, [Some] keeps the time of the first hash. *)
Definition on_tick (now : Z) (coll : bool) (hashCount : nat) (firstHashTime : option Z) : option (option Z) :=
  if negb coll then None
  else if (0 <? hashCount)%nat
       then match firstHashTime with
            | None => Some (Some now)
            | Some t => if settleTime <? now - t then None else Some (Some t)
            end
       else Some firstHashTime.

(** ** The system *)

(** Where the running [Dispatch] is.  [mark] is the number of hashes collected when the broadcast
    returned. *)
Inductive Main :=
  | Idle
  | Broadcasting (payload : bytes) (start : Z) (sub : FeedSubscription)
  | Collecting (payload : bytes) (start : Z) (sub : FeedSubscription) (tx : bytes) (mark : nat) (first : option Z) (deadline : Z)
  | Leaving (payload : bytes) (start : Z) (sub : FeedSubscription) (tx : bytes) (mark : nat)
  | Returning (sub : FeedSubscription)
  | Clearing.

(** A collector goroutine is at the top of its loop, in its [select] with a stop channel, about to
    collect the hashes of an event it has received, or at its end. *)
Inductive co_state := Top | InSelect (stop : option nat) | Holding (hs : list bytes) | Ended.

Record Collector := mkCollector { co_sub : FeedSubscription; co_at : co_state }.

Record Sys := mkSys {
  s_disp : Dispatcher; s_stops : list bool; s_pst : P; s_fan : @EventFanOut Tx; s_collectors : list Collector; s_main : Main;
  s_results : list (nat * DispatchResult); s_emitted : list (@NetworkEvent Tx);
}.

Definition initial (pst : P) : Sys := mkSys NewDispatcher [] pst newEventFanOut [] Idle [] [].

Inductive label :=
  | LDispatch (payload : bytes) (p : option HashProcessor) (now : Z)   (* a call of [Dispatch] *)
  | LEmit (parked : nat -> bool) (order : list (Z * nat)) (e : @NetworkEvent Tx)   (* the feed emits *)
  | LSelect (i : nat)                 (* collector [i] evaluates the channels of its [select] *)
  | LReceive (i : nat)                (* collector [i] receives *)
  | LCollect (i : nat)                (* collector [i] calls [collectHashes] *)
  | LCollectStop (i : nat)            (* collector [i] sees the stop channel closed *)
  | LBroadcast (r : result bytes) (now : Z)   (* the broadcast returns *)
  | LTick (now : Z)
  | LTimeout (now : Z)
  | LCancel                           (* the context is done *)
  | LStopped                          (* the loop sees the stop channel closed *)
  | LCapture (now : Z)                (* the label [done] *)
  | LUnsubscribe                      (* the deferred [Unsubscribe] *)
  | LClear                            (* the deferred [collecting = false] *)
  | LStop                             (* a call of [Stop] *).

Definition set_main (m : Main) (s : Sys) : Sys :=
  mkSys (s_disp s) (s_stops s) (s_pst s) (s_fan s) (s_collectors s) m (s_results s) (s_emitted s).

Definition set_disp (d : Dispatcher) (stops : list bool) (pst : P) (s : Sys) : Sys :=
  mkSys d stops pst (s_fan s) (s_collectors s) (s_main s) (s_results s) (s_emitted s).

Definition set_fan (f : EventFanOut) (s : Sys) : Sys :=
  mkSys (s_disp s) (s_stops s) (s_pst s) f (s_collectors s) (s_main s) (s_results s) (s_emitted s).

Definition set_collector (i : nat) (c : Collector) (s : Sys) : Sys :=
  mkSys (s_disp s) (s_stops s) (s_pst s) (s_fan s) (<[i := c]> (s_collectors s)) (s_main s) (s_results s) (s_emitted s).

(** A step: [None] when the label is not enabled. *)
Definition sys_step (l : label) (s : Sys) : option (outcome Sys) :=
  let d := s_disp s in
  match l with
  | LDispatch payload p now =>
      match dispatch_begin p d (s_stops s) with
      | Err _ => Some (Done s)
      | Ok (d1, stops1) =>
          Some (let! (sub, f) := fanOut_Subscribe 256 (s_fan s) in
                Done (mkSys d1 stops1 (s_pst s) f (s_collectors s ++ [mkCollector sub Top]) (Broadcasting payload now sub) (s_results s) (s_emitted s)))
      end
  | LEmit parked order e =>
      Some (let! f := fanOut_Emit parked order e (s_fan s) in
            Done (mkSys d (s_stops s) (s_pst s) f (s_collectors s) (s_main s) (s_results s) (s_emitted s ++ [e])))
  | LSelect i =>
      match s_collectors s !! i with
      | Some (mkCollector sub Top) => Some (Done (set_collector i (mkCollector sub (InSelect (stopCh d))) s))
      | _ => None
      end
  | LReceive i =>
      match s_collectors s !! i with
      | Some (mkCollector sub (InSelect _)) =>
          match receive (sub_ch sub) (s_fan s) with
          | Done (WouldBlock, _) => None
          | Done (ReceivedClosed, f) => Some (Done (set_collector i (mkCollector sub Ended) (set_fan f s)))
          | Done (Received e, f) =>
              Some (Done (set_collector i (mkCollector sub (if bool_decide (ev_Type e = EventTxHashes) then Holding (ev_Hashes e) else Top)) (set_fan f s)))
          | Panic m => Some (Panic m)
          | NoFuel => Some NoFuel
          end
      | _ => None
      end
  | LCollect i =>
      match s_collectors s !! i with
      | Some (mkCollector sub (Holding hs)) =>
          Some (let! (d1, stops1, pst1) := collectHashes hs d (s_stops s) (s_pst s) in
                Done (set_collector i (mkCollector sub Top) (set_disp d1 stops1 pst1 s)))
      | _ => None
      end
  | LCollectStop i =>
      match s_collectors s !! i with
      | Some (mkCollector sub (InSelect (Some ch))) =>
          match s_stops s !! ch with Some false => Some (Done (set_collector i (mkCollector sub Ended) s)) | _ => None end
      | _ => None
      end
  | LBroadcast r now =>
      match s_main s with
      | Broadcasting payload start sub =>
          match r with
          | Err _ => Some (Done (set_main (Returning sub) s))
          | Ok tx => Some (Done (set_main (Collecting payload start sub tx (length (hashList d)) None (now + collectTimeout d))
                                   (set_disp (mark_broadcast tx d) (s_stops s) (s_pst s) s)))
          end
      | _ => None
      end
  | LTick now =>
      match s_main s with
      | Collecting payload start sub tx mark first deadline =>
          match on_tick now (collecting d) (length (hashList d)) first with
          | None => Some (Done (set_main (Leaving payload start sub tx mark) s))
          | Some first' => Some (Done (set_main (Collecting payload start sub tx mark first' deadline) s))
          end
      | _ => None
      end
  | LTimeout now =>
      match s_main s with
      | Collecting payload start sub tx mark _ deadline => if deadline <=? now then Some (Done (set_main (Leaving payload start sub tx mark) s)) else None
      | _ => None
      end
  | LCancel =>
      match s_main s with
      | Collecting payload start sub tx mark _ _ => Some (Done (set_main (Leaving payload start sub tx mark) s))
      | _ => None
      end
  | LStopped =>
      match s_main s with
      | Collecting payload start sub tx mark _ _ => if stop_open d (s_stops s) then None else Some (Done (set_main (Leaving payload start sub tx mark) s))
      | _ => None
      end
  | LCapture now =>
      match s_main s with
      | Leaving payload start sub tx mark =>
          Some (Done (mkSys d (s_stops s) (s_pst s) (s_fan s) (s_collectors s) (Returning sub)
                  (s_results s ++ [(mark, mkResult payload tx (hashList d) (hashBytes d) start (now - start) 0)]) (s_emitted s)))
      | _ => None
      end
  | LUnsubscribe =>
      match s_main s with
      | Returning sub => Some (let! f := Unsubscribe sub (s_fan s) in Done (set_main Clearing (set_fan f s)))
      | _ => None
      end
  | LClear => match s_main s with Clearing => Some (Done (set_main Idle (set_disp (dispatch_end d) (s_stops s) (s_pst s) s))) | _ => None end
  | LStop => Some (let! stops := dispatcher_Stop d (s_stops s) in Done (set_disp d stops (s_pst s) s))
  end.

(** A loop over the subscriptions visits each of them once. *)
Definition label_legal (l : label) (s : Sys) : Prop :=
  match l with LEmit _ order _ => order ≡ₚ map_to_list (subs_of (s_fan s)) | _ => True end.

(** The states reached by the labels of a kind. *)
Inductive reachable (kind : label -> Prop) (pst : P) : Sys -> Prop :=
  | reach_initial : reachable kind pst (initial pst)
  | reach_step l s s' : reachable kind pst s -> kind l -> label_legal l s -> sys_step l s = Some (Done s') -> reachable kind pst s'.

(** No processor, or one that never declines. *)
Definition accepting (p : option HashProcessor) : Prop := match p with Some f => forall st h b, (f st h b).2 = true | None => True end.

Definition accepting_label (l : label) : Prop := match l with LDispatch _ p _ => accepting p | _ => True end.

(** Steps in sequence. *)
Fixpoint sys_run (ls : list label) (s : Sys) : option (outcome Sys) :=
  match ls with
  | [] => Some (Done s)
  | l :: ls => match sys_step l s with Some (Done s') => sys_run ls s' | o => o end
  end.

(** Every step of the sequence can be taken. *)
Fixpoint run_legal (ls : list label) (s : Sys) : Prop :=
  match ls with
  | [] => True
  | l :: ls => label_legal l s /\ match sys_step l s with Some (Done s') => run_legal ls s' | Some (Panic _) => ls = [] | _ => False end
  end.

(** The index of the tick that ends the loop, for the clock and the number of hashes at each tick. *)
Fixpoint last_tick (obs : list (Z * nat)) (first : option Z) : option nat :=
  match obs with
  | [] => None
  | (now, count) :: obs => match on_tick now true count first with None => Some 0%nat | Some first' => S <$> last_tick obs first' end
  end.
End dispatch.

(** ** What the channels hold *)

Section contents.
Context {Tx : Type}.

(** Every buffered event is among [em], and [n] channels exist at least. *)
Definition holds_only (em : list (@NetworkEvent Tx)) (n : nat) (f : EventFanOut) : Prop :=
  fan_ok f /\ (n <= length (chans f))%nat /\ forall loc c e, chans f !! loc = Some c -> e ∈ buf c -> e ∈ em.

Lemma holds_only_weaken em em' n n' f : holds_only em n f -> em ⊆ em' -> (n' <= n)%nat -> holds_only em' n' f.
Proof. intros (H1 & H2 & H3) He Hn. split_and!; [done|lia|]. intros loc c e Hc Hb. by apply He, (H3 loc c). Qed.

Lemma subscribe_holds em n f size s f' :
  holds_only em n f -> 0 <= size -> fanOut_Subscribe size f = Done (s, f') -> holds_only em (S (length (chans f))) f' /\ sub_ch s = length (chans f).
Proof.
  intros (Hok & Hn & Hb) Hs E. destruct (fan_apply_ok (OpSubscribe size) f Hok Hs) as (r & f1 & E1 & Hok1). cbn [fan_apply] in E1. rewrite E in E1.
  cbn in E1. injection E1 as <- <-. unfold fanOut_Subscribe in E. rewrite (proj2 (Z.ltb_ge _ _) Hs) in E. destruct (subs f); [|done].
  injection E as <- <-. split; [|done]. split_and!; [done|cbn; rewrite length_app; cbn; lia|]. cbn. intros loc c e Hc He.
  apply lookup_snoc_Some in Hc as [[_ Hc]|[_ <-]]; [eauto|]. by apply elem_of_nil in He.
Qed.

Lemma subscribe_total em n f size : holds_only em n f -> 0 <= size -> exists s f', fanOut_Subscribe size f = Done (s, f').
Proof.
  intros (Hok & _) Hs. destruct (fan_apply_ok (OpSubscribe size) f Hok Hs) as (r & f1 & E1 & _). cbn [fan_apply] in E1.
  destruct (fanOut_Subscribe size f) as [[s f']| |]; [eauto|done..].
Qed.

Lemma emit_holds em n f p order e :
  holds_only em n f -> order ≡ₚ map_to_list (subs_of f) -> exists f', fanOut_Emit p order e f = Done f' /\ holds_only (em ++ [e]) n f'.
Proof.
  intros (Hok & Hn & Hb) Hp. destruct (fan_apply_ok (OpEmit p order e) f Hok Hp) as (r & f1 & E1 & Hok1). cbn [fan_apply] in E1.
  rewrite (emit_spec _ _ _ _ Hok Hp) in E1 |- *. cbn in E1. injection E1 as _ <-. eexists. split; [done|]. split_and!; [done| |].
  - cbn. unfold broadcast. by rewrite length_imap.
  - cbn. intros loc c x Hc Hx. rewrite broadcast_lookup in Hc. destruct (chans f !! loc) as [c0|] eqn:E; [|done]. injection Hc as <-.
    assert (K : x ∈ buf c0 ++ [e]).
    { revert Hx. case_match; [|set_solver]. unfold push. case_match; cbn; set_solver. }
    apply elem_of_app in K as [K|K]; [|set_solver]. apply elem_of_app. left. eauto.
Qed.

Lemma unsubscribe_holds em n f s : holds_only em n f -> exists f', Unsubscribe s f = Done f' /\ holds_only em n f'.
Proof.
  intros (Hok & Hn & Hb). unfold Unsubscribe. destruct (subs_of f !! sub_id s) as [loc|] eqn:E.
  - destruct (Hok) as (_ & Ho & _). destruct (Ho _ _ E) as (c & Hc & _). destruct (remove_spec _ _ _ _ Hok E Hc) as [-> Hr]. eexists. split; [done|].
    split_and!; [done|cbn; by rewrite length_insert|]. cbn. intros l c' e Hc' He.
    apply list_lookup_insert_Some in Hc' as [(-> & <- & _)|[_ Hc']]; eauto.
  - unfold fanOut_remove. rewrite E. by exists f.
Qed.

Lemma receive_holds em n f loc :
  holds_only em n f -> (loc < n)%nat -> exists v f', receive loc f = Done (v, f') /\ holds_only em n f' /\ (forall e, v = Received e -> e ∈ em).
Proof.
  intros (Hok & Hn & Hb) Hl. destruct (fan_apply_ok (OpReceive loc) f Hok ltac:(cbn; lia)) as (r & f1 & E1 & Hok1). cbn [fan_apply] in E1.
  unfold receive, with_chan in *. destruct (lookup_lt_is_Some_2 (chans f) loc) as [c Hc]; [lia|]. rewrite Hc in *. cbn in E1. injection E1 as _ <-.
  do 2 eexists. split; [done|]. split; [split_and!; [done|cbn; by rewrite length_insert|]|].
  - cbn. intros l c' e Hc' He. apply list_lookup_insert_Some in Hc' as [(-> & <- & _)|[_ Hc']]; [|eauto]. apply (Hb l c e Hc).
    revert He. unfold recv_chan. destruct (buf c) as [|x b] eqn:Eb; cbn; [by rewrite Eb|]. intros. by right.
  - intros e. unfold recv_chan. destruct (buf c) as [|x b] eqn:Eb; cbn; [by destruct (open c)|]. intros [= <-]. apply (Hb loc c x Hc). rewrite Eb. by left.
Qed.
End contents.

(** ** Collecting *)

Section facts.
Context {P Tx : Type}.
Implicit Types (d : @Dispatcher P) (s : @Sys P Tx).

(** [d'] is [d] with the hashes [new] added. *)
Record collected d d' (new : list bytes) : Prop := {
  c_list : hashList d' = hashList d ++ new;
  c_bytes : hashBytes d' = hashBytes d ++ new;
  c_seen : hashes d' = list_to_set new ∪ hashes d;
  c_new : NoDup new /\ forall h, h ∈ new -> h ∉ hashes d;
  c_same : collecting d' = collecting d /\ stopCh d' = stopCh d /\ processor d' = processor d /\ collectTimeout d' = collectTimeout d;
}.

Lemma collected_nil d : collected d d [].
Proof. split; rewrite ?app_nil_r; try done; [set_solver|]. split; [constructor|set_solver]. Qed.

Lemma collected_cons h d d' new : h ∉ hashes d -> collected (add_hash h d) d' new -> collected d d' (h :: new).
Proof.
  intros Hh [H1 H2 H3 [H4 H5] H6]. cbn in *. split; cbn.
  - by rewrite H1, <- (assoc_L (++)).
  - by rewrite H2, <- (assoc_L (++)).
  - rewrite H3. set_solver.
  - split; [|set_solver]. constructor; [|done]. intros Hin. apply H5 in Hin. set_solver.
  - done.
Qed.

Lemma close_stop_length d stops stops' : close_stop d stops = Done stops' -> length stops' = length stops.
Proof. unfold close_stop. destruct (stopCh d); [|done]. case_match; [|done]. intros [= <-]. apply length_insert. Qed.

Lemma collect_loop_spec hs d stops pst d' stops' pst' :
  collect_loop hs d stops pst = Done (d', stops', pst') -> exists new, collected d d' new /\ new ⊆ hs /\ length stops' = length stops.
Proof.
  revert d stops pst. induction hs as [|h hs IH]; intros d stops pst; cbn [collect_loop].
  - intros [= <- <- <-]. exists []. split_and!; [apply collected_nil|done|done].
  - case_bool_decide as Hh; [intros H; apply IH in H as (new & H1 & H2 & H3); exists new; split_and!; [done|set_solver|done]|].
    assert (K : forall pst0, collect_loop hs (add_hash h d) stops pst0 = Done (d', stops', pst') ->
      exists new, collected d d' new /\ new ⊆ h :: hs /\ length stops' = length stops).
    { intros pst0 H. apply IH in H as (new & H1 & H2 & H3). exists (h :: new). split_and!; [by apply collected_cons|set_solver|done]. }
    destruct (processor d) as [p|]; [|apply K]. destruct (p pst h h) as [pst1 []]; [apply K|]. intros H.
    destruct (close_stop (add_hash h d) stops) as [st| |] eqn:E; cbn in H; [|done..]. injection H as <- <- <-. exists [h]. split_and!.
    + apply collected_cons; [done|apply collected_nil].
    + set_solver.
    + by eapply close_stop_length.
Qed.

(** When no processor declines, nothing is closed. *)
Lemma collect_loop_total hs d stops pst :
  accepting (processor d) -> exists d' pst', collect_loop hs d stops pst = Done (d', stops, pst').
Proof.
  revert d pst. induction hs as [|h hs IH]; intros d pst Hp; cbn [collect_loop]; [eauto|]. case_bool_decide; [by apply IH|].
  destruct (processor d) as [p|] eqn:E; [|apply IH; cbn; by rewrite E]. pose proof (Hp pst h h) as Hm. destruct (p pst h h) as [pst1 b].
  cbn in Hm. subst b. apply IH. cbn. by rewrite E.
Qed.

(** ** The invariant *)

(** Some event announced the hash. *)
Definition announced (em : list (@NetworkEvent Tx)) (h : bytes) : Prop := exists e, e ∈ em /\ ev_Type e = EventTxHashes /\ h ∈ ev_Hashes e.

Definition result_ok (em : list (@NetworkEvent Tx)) (mr : nat * DispatchResult) : Prop :=
  let r := mr.2 in
  NoDup (dr_Hashes r) /\ dr_HashBytes r = dr_Hashes r /\ (forall h, h ∈ dr_Hashes r -> announced em h) /\ dr_BroadcastTx r ∉ drop mr.1 (dr_Hashes r).

Definition is_idle (m : Main) : bool := match m with Idle => true | _ => false end.

(** The broadcast transaction, once known, is not collected any more. *)
Definition mark_ok (m : Main) (d : @Dispatcher P) : Prop :=
  match m with
  | Collecting _ _ _ tx mark _ _ | Leaving _ _ _ tx mark => (mark <= length (hashList d))%nat /\ tx ∈ hashes d /\ tx ∉ drop mark (hashList d)
  | _ => True
  end.

Definition collector_ok (em : list (@NetworkEvent Tx)) (n : nat) (c : Collector) : Prop :=
  (sub_ch (co_sub c) < n)%nat /\ match co_at c with Holding hs => forall h, h ∈ hs -> announced em h | _ => True end.

Record sys_inv s : Prop := {
  i_fan : holds_only (s_emitted s) (length (chans (s_fan s))) (s_fan s);
  i_nodup : NoDup (hashList (s_disp s));
  i_bytes : hashBytes (s_disp s) = hashList (s_disp s);
  i_seen : forall h, h ∈ hashList (s_disp s) -> h ∈ hashes (s_disp s);
  i_ann : forall h, h ∈ hashList (s_disp s) -> announced (s_emitted s) h;
  i_coll : collecting (s_disp s) = negb (is_idle (s_main s));
  i_mark : mark_ok (s_main s) (s_disp s);
  i_cols : Forall (collector_ok (s_emitted s) (length (chans (s_fan s)))) (s_collectors s);
  i_stop : collecting (s_disp s) = true -> exists ch, stopCh (s_disp s) = Some ch /\ (ch < length (s_stops s))%nat;
  i_res : Forall (result_ok (s_emitted s)) (s_results s);
}.

Lemma announced_app em em' h : announced em h -> announced (em ++ em') h.
Proof. intros (e & H & K). exists e. split; [|done]. apply elem_of_app. by left. Qed.

Lemma initial_inv pst : sys_inv (initial pst).
Proof.
  split; cbn; [|try done; try set_solver; try constructor..]. split_and!; [apply fan_ok_new|done|]. intros loc c e H. by destruct loc.
Qed.

(** The parts that a step of the main goroutine leaves alone. *)
Lemma set_main_inv m s : sys_inv s -> is_idle m = is_idle (s_main s) -> mark_ok m (s_disp s) -> sys_inv (set_main m s).
Proof. intros [] H1 H2. split; cbn; try done. congruence. Qed.

Lemma holds_only_self em n (f : @EventFanOut Tx) : holds_only em n f -> holds_only em (length (chans f)) f.
Proof. intros (H1 & _ & H3). by split_and!. Qed.

Lemma collector_ok_mono em em' n n' c : (n <= n')%nat -> collector_ok em n c -> collector_ok (em ++ em') n' c.
Proof. intros Hn [H1 H2]. split; [lia|]. destruct (co_at c); try done. intros h Hh. by apply announced_app, H2. Qed.

Lemma result_ok_mono em em' mr : result_ok em mr -> result_ok (em ++ em') mr.
Proof. intros (H1 & H2 & H3 & H4). split_and!; try done. intros h Hh. by apply announced_app, H3. Qed.

(** The fan-out moves on, with the events [em'] emitted. *)
Lemma set_fan_inv s f em' :
  sys_inv s -> holds_only (s_emitted s ++ em') (length (chans (s_fan s))) f ->
  sys_inv (mkSys (s_disp s) (s_stops s) (s_pst s) f (s_collectors s) (s_main s) (s_results s) (s_emitted s ++ em')).
Proof.
  intros [] Hf. split; cbn; try done.
  - by eapply holds_only_self.
  - intros h Hh. by apply announced_app, i_ann0.
  - eapply Forall_impl; [done|]. intros c. apply collector_ok_mono. by destruct Hf as (_ & ? & _).
  - eapply Forall_impl; [done|]. intros c. apply result_ok_mono.
Qed.

Lemma set_collector_inv s i c : sys_inv s -> collector_ok (s_emitted s) (length (chans (s_fan s))) c -> sys_inv (set_collector i c s).
Proof. intros [] Hc. split; cbn; try done. by apply Forall_insert. Qed.

Lemma collected_inv s d' stops' pst' new hs :
  sys_inv s -> collected (s_disp s) d' new -> new ⊆ hs -> (forall h, h ∈ hs -> announced (s_emitted s) h) -> length stops' = length (s_stops s) ->
  sys_inv (set_disp d' stops' pst' s).
Proof.
  intros [] [H1 H2 H3 [H4 H5] (H6 & H7 & H8 & H9)] Hs Ha Hl. split; cbn; try done.
  - rewrite H1. apply NoDup_app. split_and!; [done| |done]. intros h Hh Hn. by apply (H5 h Hn), i_seen0.
  - by rewrite H1, H2, i_bytes0.
  - intros h. rewrite H1, H3, elem_of_app, elem_of_union, elem_of_list_to_set. intros [|]; [right|left]; auto.
  - intros h. rewrite H1, elem_of_app. intros [|]; auto.
  - by rewrite H6.
  - assert (K : forall tx mark, (mark <= length (hashList (s_disp s)))%nat /\ tx ∈ hashes (s_disp s) /\ tx ∉ drop mark (hashList (s_disp s)) ->
      (mark <= length (hashList d'))%nat /\ tx ∈ hashes d' /\ tx ∉ drop mark (hashList d')).
    { intros tx mark (K1 & K2 & K3). rewrite H1, H3, length_app. split_and!; [lia|set_solver|]. rewrite drop_app_le by done.
      rewrite elem_of_app. intros [K|K]; [done|]. by apply (H5 tx). }
    unfold mark_ok in *. destruct (s_main s); auto.
  - rewrite H6, H7, Hl. done.
Qed.

Lemma dispatch_step_inv s payload p now s' : sys_inv s -> sys_step (LDispatch payload p now) s = Some (Done s') -> sys_inv s'.
Proof.
  intros Hi. unfold sys_step, dispatch_begin. destruct (collecting (s_disp s)) eqn:Ec; [by intros [= <-]|].
  destruct (subscribe_total _ _ _ 256 (i_fan _ Hi) ltac:(lia)) as (sub & f & E). rewrite E. cbn. intros [= <-].
  assert (H256 : 0 <= 256) by lia. destruct (subscribe_holds _ _ _ _ _ _ (i_fan _ Hi) H256 E) as [Hf Hch].
  destruct Hi as [_ _ _ _ _ _ _ Hcols _ Hres]. assert (Hlen : (S (length (chans (s_fan s))) <= length (chans f))%nat) by (by destruct Hf as (_ & ? & _)).
  split; cbn; try done; try set_solver.
  - by eapply holds_only_self.
  - constructor.
  - apply Forall_app. split; [|apply Forall_singleton; split; [cbn; rewrite Hch; lia|done]].
    eapply Forall_impl; [exact Hcols|]. intros c. rewrite <- (app_nil_r (s_emitted s)) at 2. apply collector_ok_mono. lia.
  - intros _. eexists. split; [done|]. rewrite length_app. cbn. lia.
Qed.

Lemma receive_step_inv s i s' : sys_inv s -> sys_step (LReceive i) s = Some (Done s') -> sys_inv s'.
Proof.
  intros Hi. unfold sys_step. destruct (s_collectors s !! i) as [[sub [|st| |]]|] eqn:Ec; try done.
  destruct (Forall_lookup_1 _ _ _ _ (i_cols _ Hi) Ec) as [Hsub _]. cbn in Hsub.
  destruct (receive_holds _ _ _ _ (i_fan _ Hi) Hsub) as (v & f & -> & Hf & Hv).
  assert (Hi' : sys_inv (set_fan f s)).
  { pose proof (set_fan_inv s f [] Hi) as K. rewrite !app_nil_r in K. by apply K. }
  assert (Hsub' : (sub_ch sub < length (chans f))%nat) by (destruct Hf as (_ & ? & _); lia).
  destruct v as [e| |]; [| |done]; intros [= <-]; apply set_collector_inv; try done; split; try done; cbn.
  case_bool_decide as Ht; [|done]. intros h Hh. exists e. by split_and!; [apply Hv|..].
Qed.

(** Every step preserves the invariant. *)
Lemma sys_step_inv l s s' : sys_inv s -> label_legal l s -> sys_step l s = Some (Done s') -> sys_inv s'.
Proof.
  intros Hi Hl. destruct l as [payload p now|parked order e|i|i|i|i|r now|now|now| | |now| | |].
  - by apply dispatch_step_inv.
  - unfold sys_step. destruct (emit_holds _ _ _ parked order e (i_fan _ Hi) Hl) as (f & -> & Hf). cbn. intros [= <-]. by apply set_fan_inv.
  - unfold sys_step. destruct (s_collectors s !! i) as [[sub [| | |]]|] eqn:Ec; try done. intros [= <-].
    destruct (Forall_lookup_1 _ _ _ _ (i_cols _ Hi) Ec) as [Hsub _]. by apply set_collector_inv.
  - by apply receive_step_inv.
  - unfold sys_step, collectHashes. destruct (s_collectors s !! i) as [[sub [| |hs|]]|] eqn:Ec; try done.
    destruct (Forall_lookup_1 _ _ _ _ (i_cols _ Hi) Ec) as [Hsub Hh]. cbn in Hh. destruct (collecting (s_disp s)).
    + destruct (collect_loop hs (s_disp s) (s_stops s) (s_pst s)) as [[[d1 st1] p1]| |] eqn:E; cbn; [|done..]. intros [= <-].
      apply collect_loop_spec in E as (new & H1 & H2 & H3). apply set_collector_inv; [by eapply collected_inv|done].
    + cbn. intros [= <-]. apply set_collector_inv; [by destruct Hi|done].
  - unfold sys_step. destruct (s_collectors s !! i) as [[sub [|[ch|]| |]]|] eqn:Ec; try done. destruct (s_stops s !! ch) as [[]|]; try done. intros [= <-].
    destruct (Forall_lookup_1 _ _ _ _ (i_cols _ Hi) Ec) as [Hsub _]. by apply set_collector_inv.
  - unfold sys_step. destruct (s_main s) as [|payload start sub| | | |] eqn:Em; try done. destruct r as [tx|]; intros [= <-].
    + destruct Hi. rewrite Em in *. split; cbn; try done; [set_solver|]. split_and!; [done|set_solver|]. rewrite drop_ge by done. set_solver.
    + apply set_main_inv; [done|by rewrite Em|done].
  - unfold sys_step. pose proof (i_mark _ Hi) as Hm. destruct (s_main s) eqn:Em; try done. destruct (on_tick _ _ _ _); intros [= <-]; apply set_main_inv; rewrite ?Em; done.
  - unfold sys_step. pose proof (i_mark _ Hi) as Hm. destruct (s_main s) eqn:Em; try done. case_match; [|done]. intros [= <-]; apply set_main_inv; rewrite ?Em; done.
  - unfold sys_step. pose proof (i_mark _ Hi) as Hm. destruct (s_main s) eqn:Em; try done. intros [= <-]; apply set_main_inv; rewrite ?Em; done.
  - unfold sys_step. pose proof (i_mark _ Hi) as Hm. destruct (s_main s) eqn:Em; try done. case_match; [done|]. intros [= <-]; apply set_main_inv; rewrite ?Em; done.
  - unfold sys_step. destruct (s_main s) eqn:Em; try done. intros [= <-]. destruct Hi. rewrite Em in *. cbn in *. split; cbn; try done.
    apply Forall_app. split; [done|]. apply Forall_singleton. destruct i_mark0 as (_ & _ & K). by split_and!.
  - unfold sys_step. destruct (s_main s) eqn:Em; try done. destruct (unsubscribe_holds _ _ _ sub (i_fan _ Hi)) as (f & -> & Hf). cbn. intros [= <-].
    apply set_main_inv; [|by cbn; rewrite Em|done]. pose proof (set_fan_inv s f [] Hi) as K. rewrite !app_nil_r in K. by apply K.
  - unfold sys_step. destruct (s_main s) eqn:Em; try done. intros [= <-]. destruct Hi. split; cbn; done.
  - unfold sys_step, dispatcher_Stop. destruct (collecting (s_disp s) && _); [|by intros [= <-]; destruct Hi, s].
    destruct (close_stop _ _) as [st| |] eqn:E; cbn; [|done..]. intros [= <-]. apply close_stop_length in E. destruct Hi. split; cbn; try done. by rewrite E.
Qed.

Lemma run_reachable kind pst ls s s' :
  reachable kind pst s -> Forall kind ls -> run_legal ls s -> sys_run ls s = Some (Done s') -> reachable kind pst s'.
Proof.
  intros Hs Hk. revert s Hs. induction Hk as [|l ls Hl Hk IH]; intros s Hs; cbn; [by intros _ [= <-]|].
  intros [Hleg H]. destruct (sys_step l s) as [[s1| |]|] eqn:E; try done. apply IH; [by eapply reach_step|done].
Qed.

Lemma sys_reachable_inv kind pst s : reachable kind pst s -> sys_inv s.
Proof. induction 1; [apply initial_inv|by eapply sys_step_inv]. Qed.

(** ** Properties *)

Lemma step_processor l s s' :
  sys_step l s = Some (Done s') -> accepting (processor (s_disp s)) -> accepting_label l -> accepting (processor (s_disp s')).
Proof.
  intros H Ha Hl. destruct l as [payload p now|parked order e|i|i|i|i|r now|now|now| | |now| | |]; cbn [sys_step accepting_label] in *;
    unfold outcome_bind, dispatch_begin in H; repeat (case_match; simplify_eq/=; try done).
  match goal with E : collectHashes _ _ _ _ = _ |- _ => unfold collectHashes in E; case_match; [apply collect_loop_spec in E as (new & K & _)|by simplify_eq] end.
  destruct K as [_ _ _ _ (_ & _ & -> & _)]. done.
Qed.

Lemma reachable_accepting pst s : reachable accepting_label pst s -> accepting (processor (s_disp s)).
Proof. induction 1; [done|by eapply step_processor]. Qed.

(** With processors that never decline, every step that can be taken is taken without a panic. *)
Lemma step_total l s : sys_inv s -> accepting (processor (s_disp s)) -> label_legal l s -> forall o, sys_step l s = Some o -> exists s', o = Done s'.
Proof.
  intros Hi Ha Hl o H. destruct l as [payload p now|parked order e|i|i|i|i|r now|now|now| | |now| | |]; cbn [sys_step] in H.
  - destruct (dispatch_begin _ _ _) as [[d1 st1]|]; [|simplify_eq; eauto].
    destruct (subscribe_total _ _ _ 256 (i_fan _ Hi) ltac:(lia)) as (sub & f & E). rewrite E in H. simplify_eq/=. eauto.
  - destruct (emit_holds _ _ _ parked order e (i_fan _ Hi) Hl) as (f & E & _). rewrite E in H. simplify_eq/=. eauto.
  - repeat (case_match; simplify_eq/=; eauto).
  - destruct (s_collectors s !! i) as [[sub [|st| |]]|] eqn:Ec; try done. destruct (Forall_lookup_1 _ _ _ _ (i_cols _ Hi) Ec) as [Hsub _].
    destruct (receive_holds _ _ _ _ (i_fan _ Hi) Hsub) as (v & f & E & _). cbn in E. rewrite E in H. destruct v; simplify_eq; eauto.
  - unfold collectHashes in H. repeat (case_match; simplify_eq/=; eauto).
    match goal with |- context [collect_loop ?hs ?d ?st ?p] => destruct (collect_loop_total hs d st p Ha) as (d' & p' & ->) end. eauto.
  - repeat (case_match; simplify_eq/=; eauto).
  - repeat (case_match; simplify_eq/=; eauto).
  - repeat (case_match; simplify_eq/=; eauto).
  - repeat (case_match; simplify_eq/=; eauto).
  - repeat (case_match; simplify_eq/=; eauto).
  - repeat (case_match; simplify_eq/=; eauto).
  - repeat (case_match; simplify_eq/=; eauto).
  - destruct (s_main s); simplify_eq. destruct (unsubscribe_holds _ _ _ sub (i_fan _ Hi)) as (f & -> & _). cbn. eauto.
  - repeat (case_match; simplify_eq/=; eauto).
  - simplify_eq. unfold dispatcher_Stop. destruct (collecting (s_disp s)) eqn:Ec; [|cbn; eauto]. cbn. destruct (stop_open _ _) eqn:Eo; [|cbn; eauto].
    unfold close_stop. rewrite Eo. destruct (i_stop _ Hi Ec) as (ch & -> & _). cbn. eauto.
Qed.
End facts.

(** C31: Whatever processors do, results list each hash once, in both forms alike, and only hashes that the feed
    announced; the broadcast transaction is among them only if it was announced before the
    broadcast returned; while a dispatch runs a second one is refused and changes nothing. *)
Theorem dispatch_results {P Tx : Type} (pst : P) (s : @Sys P Tx) :
  reachable (fun _ => True) pst s ->
  (forall mark r, (mark, r) ∈ s_results s -> NoDup (dr_Hashes r) /\ dr_HashBytes r = dr_Hashes r /\
     (forall h, h ∈ dr_Hashes r -> announced (s_emitted s) h) /\ dr_BroadcastTx r ∉ drop mark (dr_Hashes r)) /\
  (s_main s <> Idle -> forall payload p now, sys_step (LDispatch payload p now) s = Some (Done s)).
Proof.
  intros H. apply sys_reachable_inv in H. split.
  - intros mark r Hr. exact (proj1 (Forall_forall _ _) (i_res _ H) _ Hr).
  - intros Hm payload p now. cbn. unfold dispatch_begin. rewrite (i_coll _ H). by destruct (s_main s).
Qed.

(** As long as no processor declines a hash, no interleaving of dispatches, collectors, events, ticks,
    cancellations and stops panics. *)
Theorem dispatch_never_panics {P Tx : Type} (pst : P) (s : @Sys P Tx) l o :
  reachable accepting_label pst s -> label_legal l s -> sys_step l s = Some o -> exists s', o = Done s'.
Proof. intros H Hl Ho. eapply step_total; [by eapply sys_reachable_inv|by eapply reachable_accepting|done|done]. Qed.

(** A dispatch that collects always comes to its end: when the time limit has passed, its remaining steps can
    be taken one after the other, they record what has been collected, and the dispatcher is
    free for the next call. *)
Theorem dispatch_finishes {P Tx : Type} (pst : P) (s : @Sys P Tx) payload start sub tx mark first deadline now :
  reachable (fun _ => True) pst s -> s_main s = Collecting payload start sub tx mark first deadline -> deadline <= now ->
  exists s', sys_run [LTimeout now; LCapture now; LUnsubscribe; LClear] s = Some (Done s') /\ s_main s' = Idle /\
    s_results s' = s_results s ++ [(mark, mkResult payload tx (hashList (s_disp s)) (hashList (s_disp s)) start (now - start) 0)] /\
    forall p, is_ok (dispatch_begin p (s_disp s') (s_stops s')) = true.
Proof.
  intros H Hm Hd. apply sys_reachable_inv in H as Hi. destruct (unsubscribe_holds _ _ _ sub (i_fan _ Hi)) as (f & E & _).
  cbn [sys_run sys_step]. rewrite Hm, (proj2 (Z.leb_le _ _) Hd). cbn. rewrite E. cbn. rewrite (i_bytes _ Hi). eexists. by split_and!.
Qed.

(** Ticks [d] nanoseconds apart, with hashes from tick [k] on. *)
Definition observations (t0 d : Z) (count : nat -> nat) (from n : nat) : list (Z * nat) :=
  map (fun i => (t0 + Z.of_nat i * d, count i)) (seq from n).

Lemma settles_after t0 d count k j n :
  0 < d -> (forall i, (k <= i)%nat -> (0 < count i)%nat) -> (k <= j <= k + Z.to_nat (settleTime / d) + 1)%nat -> (k + Z.to_nat (settleTime / d) + 1 < j + n)%nat ->
  last_tick (observations t0 d count j n) (Some (t0 + Z.of_nat k * d)) = Some (k + Z.to_nat (settleTime / d) + 1 - j)%nat.
Proof.
  intros Hd Hc. revert j. induction n as [|n IH]; intros j Hj Hn; [lia|]. cbn [observations seq map last_tick]. unfold on_tick. cbn [negb].
  rewrite (proj2 (Nat.ltb_lt 0 (count j))) by (apply Hc; lia).
  assert (H0 : 0 <= settleTime / d) by (apply Z.div_pos; unfold settleTime; lia).
  pose proof (Z.mod_pos_bound settleTime d Hd). pose proof (Z.div_mod settleTime d ltac:(lia)).
  destruct (Z.ltb_spec settleTime (t0 + Z.of_nat j * d - (t0 + Z.of_nat k * d))) as [Hlt|Hge].
  - f_equal. assert (settleTime / d < Z.of_nat j - Z.of_nat k) by nia. lia.
  - assert (Z.of_nat j - Z.of_nat k <= settleTime / d) by nia. unfold observations in IH. rewrite IH by lia. cbn. f_equal. lia.
Qed.

(** The loop ends on its own: when hashes arrive from some tick on, the loop leaves at the first tick more than the
    settling time later: with ticks 50 ms apart, five ticks after. *)
Theorem dispatch_settles t0 d count k n :
  0 < d -> (forall i, (i < k)%nat -> count i = 0%nat) -> (forall i, (k <= i)%nat -> (0 < count i)%nat) -> (k + Z.to_nat (settleTime / d) + 1 < n)%nat ->
  last_tick (observations t0 d count 0 n) None = Some (k + Z.to_nat (settleTime / d) + 1)%nat.
Proof.
  intros Hd H0 Hc Hn. enough (G : forall m j, (j <= k)%nat -> (m + j = n)%nat -> last_tick (observations t0 d count j m) None = Some (k + Z.to_nat (settleTime / d) + 1 - j)%nat).
  { rewrite (G n 0%nat) by lia. f_equal. lia. }
  induction m as [|m IH]; intros j Hj Hm; [lia|]. cbn [observations seq map last_tick]. unfold on_tick. cbn [negb].
  destruct (decide (j = k)) as [->|Hne].
  - rewrite (proj2 (Nat.ltb_lt 0 (count k))) by (by apply Hc). fold (observations t0 d count (S k) m). rewrite settles_after by (done || lia). cbn. f_equal. lia.
  - rewrite (H0 j) by lia. cbn [Nat.ltb Nat.leb]. fold (observations t0 d count (S j) m). rewrite IH by lia. cbn. f_equal. lia.
Qed.

(** ** Two ways it goes wrong *)

(** A check that suffices: each emission walks the map in its canonical order. *)
Definition order_check {P Tx} (l : @label P Tx) (s : @Sys P Tx) : bool :=
  match l with LEmit _ order _ => bool_decide (order = map_to_list (subs_of (s_fan s))) | _ => true end.

Fixpoint run_check {P Tx} (ls : list (@label P Tx)) (s : @Sys P Tx) : bool :=
  match ls with
  | [] => true
  | l :: ls' => order_check l s && match sys_step l s with Some (Done s') => run_check ls' s' | Some (Panic _) => match ls' with [] => true | _ => false end | _ => false end
  end.

Lemma run_check_legal {P Tx} (ls : list (@label P Tx)) s : run_check ls s = true -> run_legal ls s.
Proof.
  revert s. induction ls as [|l ls IH]; intros s; cbn; [done|]. rewrite andb_true_iff. intros [Ho H]. split.
  - destruct l; try done. cbn in Ho |- *. apply bool_decide_eq_true_1 in Ho. by rewrite Ho.
  - destruct (sys_step l s) as [[s1|m|]|]; [by apply IH|by destruct ls|done|done].
Qed.

Ltac legal_run := apply run_check_legal; vm_compute; reflexivity.

Definition hash_of (n : Z) : bytes := zeros 31 ++ [Zbyte n].
Definition announcement (n : Z) : @NetworkEvent unit := with_hashes [hash_of n] (event0 EventTxHashes 1 n).
Definition ann (order : list (Z * nat)) (n : Z) : label := LEmit (P := unit) (fun _ => false) order (announcement n).

(** Declines every hash. *)
Definition decline : @HashProcessor unit := fun _ _ _ => (tt, false).

Definition double_decline : list (@label unit unit) :=
  [LDispatch [] (Some decline) 0; ann [(1, 0%nat)] 1; ann [(1, 0%nat)] 2; LSelect 0; LReceive 0; LCollect 0; LSelect 0; LReceive 0; LCollect 0].

(** When a processor declines a hash, its collector may receive once more before it looks at the stop channel; a
    second hash that is declined closes the channel again, which panics. *)
Theorem processor_panics : run_legal double_decline (initial tt) /\ sys_run double_decline (initial tt) = Some (Panic "close of closed channel").
Proof. split; [legal_run|vm_compute; reflexivity]. Qed.

(** A first dispatch that times out with two announcements in its buffer. *)
Definition first_dispatch : list (@label unit unit) :=
  [LDispatch [] None 0; LSelect 0; LBroadcast (Ok (hash_of 9)) 0; ann [(1, 0%nat)] 1; LTimeout (30 * 10 ^ 9); LCapture (30 * 10 ^ 9); LUnsubscribe; LClear].

(** A second one, during which the feed emits nothing. *)
Definition silent_dispatch : list (@label unit unit) :=
  [LDispatch [] None (31 * 10 ^ 9); LReceive 0; LCollect 0; LBroadcast (Ok (hash_of 8)) (31 * 10 ^ 9); LTimeout (61 * 10 ^ 9); LCapture (61 * 10 ^ 9)].

Definition is_emit {P Tx} (l : @label P Tx) : bool := match l with LEmit _ _ _ => true | _ => false end.

(** The state after a run. *)
Definition after_run (ls : list (@label unit unit)) (s : Sys) : Sys := match sys_run ls s with Some (Done s') => s' | _ => s end.

(** A dispatch during which nothing is announced can return hashes: the collector of the previous one
    still reads its buffer, and what it reads is filed under the new dispatch. *)
Theorem stale_hashes_leak :
  let s1 := after_run first_dispatch (initial tt) in let s2 := after_run silent_dispatch s1 in
  run_legal first_dispatch (initial tt) /\ run_legal silent_dispatch s1 /\ sys_run first_dispatch (initial tt) = Some (Done s1) /\ s_main s1 = Idle /\ dr_Hashes <$> (s_results s1).*2 = [[]] /\
  forallb (fun l => negb (is_emit l)) silent_dispatch = true /\ sys_run silent_dispatch s1 = Some (Done s2) /\
  dr_Hashes <$> (s_results s2).*2 = [[]; [hash_of 1]].
Proof. cbv zeta. split; [legal_run|]. split; [legal_run|]. split_and!; vm_compute; reflexivity. Qed.

(** [LiveCompute] starts dispatches without and with a processor. *)
Definition live_Dispatch {P Tx} (payload : bytes) (now : Z) : @label P Tx := LDispatch payload None now.
Definition live_DispatchWithProcessor {P Tx} (payload : bytes) (p : HashProcessor) (now : Z) : @label P Tx := LDispatch payload (Some p) now.

(** ** Numbers from hashes *)

Definition HashMod (hb : bytes) (n : Z) : outcome Z := if n =? 0 then Panic "division by zero" else Done (be_int hb mod Z.abs n).
Definition HashToUint64 (hb : bytes) : Z := if (length hb <? 8)%nat then 0 else be_int (take 8 hb).
Definition HashToByte (hb : bytes) : byte := match hb with [] => Byte.x00 | b :: _ => b end.
Definition HashToCoordinate (hash : bytes) : Z := be_int hash.

(** [None] is the nil slice. *)
Definition HashXOR (a b : bytes) : option bytes := if negb (length a =? length b)%nat then None else Some (zip_with xor_byte a b).

Definition CombineHashes {C : Crypto} (hs : list bytes) : option bytes :=
  match hs with
  | [] => None
  | h :: rest => Some (Keccak256 (fold_left (fun combined x => xor_into combined x) rest (copy_to 32 h)))
  end.

Lemma copy_to_xor n h : copy_to n h = xor_into (zeros n) h.
Proof.
  unfold copy_to, zeros. revert h. induction n as [|n IH]; intros h; [by destruct h|]. destruct h as [|b h]; cbn; [done|].
  rewrite xor_byte_0_l. f_equal. apply IH.
Qed.

Lemma combine_hashes_xor {C : Crypto} hs : hs <> [] -> CombineHashes hs = Some (Keccak256 (combine hs)).
Proof. destruct hs as [|h hs]; intros H; [done|]. cbn. by rewrite copy_to_xor. Qed.

Lemma xor_into_zip a b : length a = length b -> xor_into a b = zip_with xor_byte a b.
Proof. revert b. induction a as [|x a IH]; intros [|y b]; cbn; intros H; try done. by rewrite IH by lia. Qed.

(** The combined hash is the digest of the exclusive or of all hashes, whatever the order in which they
    arrived; the live bridge of the game computes the same one from a dispatch. *)
Theorem combine_hashes_reference {C : Crypto} hs hs' now b :
  hs ≡ₚ hs' -> hs <> [] ->
  CombineHashes hs = CombineHashes hs' /\
  exists c, CombineHashes hs = Some c /\ (live_ComputeHash (Ok hs') now b).2 = Ok (BytesToHash c).
Proof.
  intros Hp Hn. assert (Hn' : hs' <> []) by (intros ->; by apply Hn, Permutation_nil_r).
  rewrite !combine_hashes_xor by done. rewrite (combine_perm _ _ Hp). split; [done|]. eexists. split; [done|]. by destruct hs'.
Qed.

(** A second exclusive or with the same hash undoes the first. *)
Theorem hash_xor_involutive a b c : HashXOR a b = Some c -> HashXOR c b = Some a.
Proof.
  unfold HashXOR. destruct (Nat.eqb_spec (length a) (length b)) as [H|]; [|done]. cbn. rewrite <- xor_into_zip by done. intros [= <-].
  rewrite length_xor_into, (proj2 (Nat.eqb_eq _ _) H). cbn. rewrite <- xor_into_zip by (by rewrite length_xor_into). by rewrite xor_into_twice.
Qed.

(** ** Examples *)

Definition example_run : list (@label unit unit) :=
  [LDispatch [] None 0; LSelect 0; ann [(1, 0%nat)] 1; LReceive 0; LCollect 0; LBroadcast (Ok (hash_of 1)) 0; LSelect 0; ann [(1, 0%nat)] 2; LReceive 0; LCollect 0].

Definition example_state : Sys := after_run example_run (initial tt).

Lemma example_reachable kind : (forall l, accepting_label l -> kind l) -> reachable kind tt example_state.
Proof.
  intros Hk. apply (run_reachable kind tt example_run (initial tt)); [apply reach_initial| |legal_run|vm_compute; reflexivity].
  repeat constructor; by apply Hk.
Qed.

Lemma dispatch_results_witness : sys_step (LDispatch [] None 5) example_state = Some (Done example_state).
Proof. apply (dispatch_results tt example_state (example_reachable _ (fun _ _ => I))). vm_compute. discriminate. Defined.

Lemma dispatch_never_panics_witness : exists s', sys_step (LTick 5) example_state = Some (Done s').
Proof.
  destruct (dispatch_never_panics tt example_state (LTick 5) (Done (after_run [LTick 5] example_state)) (example_reachable _ (fun _ H => H)) I) as [s' E].
  - vm_compute. reflexivity.
  - exists s'. rewrite <- E. vm_compute. reflexivity.
Defined.

Lemma dispatch_finishes_witness :
  exists s', sys_run [LTimeout (30 * 10 ^ 9); LCapture (30 * 10 ^ 9); LUnsubscribe; LClear] example_state = Some (Done s') /\
    map (fun mr => (mr.1, dr_Hashes mr.2)) (s_results s') = [(1%nat, [hash_of 1; hash_of 2])].
Proof.
  destruct (dispatch_finishes tt example_state [] 0 (mkSub 1 0) (hash_of 1) 1 None (30 * 10 ^ 9) (30 * 10 ^ 9) (example_reachable _ (fun _ _ => I))) as (s' & E & _ & R & _).
  - vm_compute. reflexivity.
  - lia.
  - exists s'. split; [exact E|]. rewrite R. vm_compute. reflexivity.
Defined.

Lemma dispatch_settles_witness : last_tick (observations 0 (50 * 10 ^ 6) (fun i => if (i <? 3)%nat then 0%nat else 1%nat) 0 20) None = Some 8%nat.
Proof.
  refine (dispatch_settles 0 (50 * 10 ^ 6) (fun i => if (i <? 3)%nat then 0%nat else 1%nat) 3 20 _ _ _ _).
  - lia.
  - intros i Hi. by rewrite (proj2 (Nat.ltb_lt _ _) Hi).
  - intros i Hi. rewrite (proj2 (Nat.ltb_ge _ _) Hi). lia.
  - vm_compute. lia.
Defined.
