(* ===== verification/MultiChain.v ===== *)
(** * The transport over several chains ([node/multichain.go], [node/chains.go],
      [node/hybrid_transport.go], [node/opnode_gossip.go])

    Contents: the tables of chains; the hybrid transport of a first-layer chain; the gossip of the
    second-layer chains; the transport that holds both, its construction, start and stop, the handlers
    that its parts call, and what it broadcasts where.

    The networks are outside: what a library call returns is an argument, and the calls made to
    libraries are listed in order.  The map of chains holds pointers that the handlers share;
    they are found by their chain, which is what the handlers were created with.  The walks over
    the map are arguments.  The price handler is in [Gossip].

    The theorems: a transport that is built has for each chain what its layer needs, and a construction
    that fails has stopped the shared host ([multichain_built]); the unified entropy is that
    of all hashes and events of all chains, in any order ([unified_entropy]); the counters count
    ([chain_counters]), but transactions of a second-layer chain are only in the total
    ([l2_transactions_uncounted]); the feed broadcasts on Ethereum when it can
    ([primary_is_ethereum]); tracked transactions are at most five minutes old
    ([tracked_recent]).  A raw transaction for a second-layer chain dereferences a nil
    transport ([raw_broadcast_panics]), and a transport that is started again cannot be stopped
    again ([multichain_restart_panics]).  A block that is decoded from the fixed offsets has its
    number taken from the state root ([block_number_from_state_root]). *)

From Stdlib Require Import String SpecFloat.
From S2P Require Import Prelude Json Signing Float64 Bits Swaps Pong PongNet River Flow.

(** ** Chains *)

Definition ChainIDEthereum : Z := 1.
Definition ChainIDSepolia : Z := 11155111.
Definition ChainIDOptimism : Z := 10.
Definition ChainIDBase : Z := 8453.
Definition ChainIDZora : Z := 7777777.
Definition ChainIDMode : Z := 34443.
Definition ChainIDFraxtal : Z := 252.
Definition ChainIDWorldcoin : Z := 480.
Definition ChainIDCyber : Z := 7560.
Definition ChainIDMint : Z := 185.
Definition ChainIDRedstone : Z := 690.
Definition ChainIDLisk : Z := 1135.
Definition ChainIDBaseSep : Z := 84532.
Definition ChainIDOptimSep : Z := 11155420.
Definition ChainIDZoraSep : Z := 999999999.
Definition ChainIDModeSep : Z := 919.
Definition ChainIDArbitrum : Z := 42161.

Record ChainConfig := {
  cc_ChainID : Z; cc_NetworkID : Z; cc_Name : string; RPCURL : string; WSURL : string; GenesisHash : bytes; FlashLoanPool : bytes;
  cc_Bootnodes : list string; BlockTime : Z; FlashblocksURL : string; cc_IsL2 : bool;
}.

(** The fields that the tables set. *)
Definition mkChainConfig (id network : Z) (name : string) (genesis pool : bytes) (blockTime : Z) (flashblocks : string) (l2 : bool) : ChainConfig :=
  {| cc_ChainID := id; cc_NetworkID := network; cc_Name := name; RPCURL := EmptyString; WSURL := EmptyString; GenesisHash := genesis;
     FlashLoanPool := pool; cc_Bootnodes := []; BlockTime := blockTime; FlashblocksURL := flashblocks; cc_IsL2 := l2 |}.

Definition HexToHash (s : string) : bytes := BytesToHash (hex_prefix (bs s)).

Definition op_stack_chains : list Z :=
  [ChainIDOptimism; ChainIDBase; ChainIDZora; ChainIDMode; ChainIDFraxtal; ChainIDWorldcoin; ChainIDCyber; ChainIDMint; ChainIDRedstone; ChainIDLisk;
   ChainIDBaseSep; ChainIDOptimSep; ChainIDZoraSep; ChainIDModeSep].

Definition IsOPStackL2 (chainID : Z) : bool := bool_decide (chainID ∈ op_stack_chains).

Definition second : Z := 10 ^ 9.

(** A second-layer chain of which only the name and the number are given. *)
Definition named_l2 (id : Z) (name : string) : Z * ChainConfig := (id, mkChainConfig id id name zero32 zero20 (2 * second) EmptyString true).

Definition DefaultChainConfigs : list (Z * ChainConfig) :=
  [(ChainIDEthereum, mkChainConfig ChainIDEthereum 1 "Ethereum" (HexToHash "d4e56740f876aef8c010b86a40d5f56745a118d0906a34e69aec8c0db1cb8fa3")
      (HexToAddress "87870Bca3F3fD6335C3F4ce8392D69350B4fA4E2") (12 * second) EmptyString false);
   (ChainIDBase, mkChainConfig ChainIDBase 8453 "Base" (HexToHash "f712aa9241cc24369b143cf6dce85f0902a9731e70d66818a3a5845b296c73dd")
      (HexToAddress "A238Dd80C259a72e81d7e4664a9801593F98d1c5") (2 * second) "wss://flashblocks.base.org/ws" true);
   (ChainIDOptimism, mkChainConfig ChainIDOptimism 10 "Optimism" (HexToHash "7ca38a1916c42007829c55e69d3e9a73265554b586a499015373241b8a3fa48b")
      (HexToAddress "794a61358D6845594F94dc1DB02A252b5b4814aD") (2 * second) EmptyString true);
   named_l2 ChainIDZora "Zora"; named_l2 ChainIDMode "Mode"; named_l2 ChainIDFraxtal "Fraxtal"; named_l2 ChainIDWorldcoin "Worldchain";
   named_l2 ChainIDCyber "Cyber"; named_l2 ChainIDMint "Mint"; named_l2 ChainIDRedstone "Redstone"; named_l2 ChainIDLisk "Lisk"].

Definition TestnetChainConfigs : list (Z * ChainConfig) :=
  [(ChainIDSepolia, mkChainConfig ChainIDSepolia 11155111 "Sepolia" (HexToHash "25a5cc106eea7138acab33231d7160d69cb777ee0c2c553fcddf5138993e6dd9")
      (HexToAddress "6Ae43d3271ff6888e7Fc43Fd7321a503ff738951") (12 * second) EmptyString false);
   (ChainIDBaseSep, mkChainConfig ChainIDBaseSep 84532 "Base Sepolia" (HexToHash "0dcc9e089e30b90ddfc55be9a37dd15bc551aeee999d2e2b51571f5961453e88")
      (HexToAddress "07eA79F68B2B3df564D0A34F8e19D9B1e339814b") (2 * second) "wss://flashblocks.base-sepolia.org/ws" true);
   (ChainIDOptimSep, mkChainConfig ChainIDOptimSep 11155420 "Optimism Sepolia" (HexToHash "102de6ffb001480cc9b8b548fd05c34cd4f46ae4aa91759393db90ea0409887d")
      (HexToAddress "b50201558B00496A145fE76f7424749556E326D8") (2 * second) EmptyString true);
   named_l2 ChainIDZoraSep "Zora Sepolia"; named_l2 ChainIDModeSep "Mode Sepolia"].

Definition find_chain (table : list (Z * ChainConfig)) (id : Z) : option ChainConfig := snd <$> List.find (fun p => p.1 =? id) table.

(** ** The hybrid transport *)

Inductive hybrid_call := LibP2PStart | LibP2PStop | DevP2PStart | DevP2PStop.

Record HybridTransport := mkHybrid {
  h_networkID : Z; ownsLibP2P : bool; relayConnections : Z; directConnections : Z; h_running : bool; h_stopCh_open : bool;
}.

(** [shared]: a shared host is given; [lib] and [dev] are what the constructors of the parts return. *)
Definition NewHybridTransport (network : Z) (shared : bool) (lib dev : result unit) : list hybrid_call * result HybridTransport :=
  match (if shared then Ok tt else lib) with
  | Err _ => ([], Err "failed to create libp2p transport")
  | Ok _ =>
      match dev with
      | Err _ => (if shared then [] else [LibP2PStop], Err "failed to create devp2p node")
      | Ok _ => ([], Ok (mkHybrid network (negb shared) 0 0 false true))
      end
  end.

Definition hybrid_Start (lib dev : result unit) (h : HybridTransport) : list hybrid_call * result unit * HybridTransport :=
  let pre := if ownsLibP2P h then [LibP2PStart] else [] in
  match (if ownsLibP2P h then lib else Ok tt) with
  | Err _ => (pre, Err "failed to start libp2p", h)
  | Ok _ =>
      match dev with
      | Err _ => (pre ++ [DevP2PStart] ++ (if ownsLibP2P h then [LibP2PStop] else []), Err "failed to start devp2p", h)
      | Ok _ => (pre ++ [DevP2PStart], Ok tt, mkHybrid (h_networkID h) (ownsLibP2P h) (relayConnections h) (directConnections h) true (h_stopCh_open h))
      end
  end.

Definition hybrid_Stop (h : HybridTransport) : outcome (list hybrid_call * HybridTransport) :=
  if negb (h_running h) then Done ([], h)
  else if negb (h_stopCh_open h) then Panic "close of closed channel"
  else Done (DevP2PStop :: (if ownsLibP2P h then [LibP2PStop] else []),
             mkHybrid (h_networkID h) (ownsLibP2P h) (relayConnections h) (directConnections h) false false).

(** The ticks of the two goroutines. *)
Definition hybrid_relays (addrs : Z) (h : HybridTransport) : HybridTransport :=
  if 0 <? addrs then mkHybrid (h_networkID h) (ownsLibP2P h) addrs (directConnections h) (h_running h) (h_stopCh_open h) else h.
Definition hybrid_monitor (peers : Z) (h : HybridTransport) : HybridTransport :=
  mkHybrid (h_networkID h) (ownsLibP2P h) (relayConnections h) peers (h_running h) (h_stopCh_open h).

Definition hybrid_Stats (h : HybridTransport) : Z * Z := (relayConnections h, directConnections h).

Definition CreateHybridTransportForChain (chainID : Z) (shared : bool) (lib dev : result unit) : list hybrid_call * result HybridTransport :=
  if chainID =? 1 then NewHybridTransport 1 shared lib dev
  else if chainID =? 11155111 then NewHybridTransport 11155111 shared lib dev
  else ([], Err "chain not supported for DevP2P (only mainnet=1 and Sepolia=11155111)").

(** ** The gossip of the second-layer chains *)

Record ExecutionPayloadEnvelope := {
  ep_ParentHash : bytes; ep_FeeRecipient : bytes; ep_StateRoot : bytes; ep_ReceiptsRoot : bytes; ep_LogsBloom : bytes; ep_PrevRandao : bytes;
  ep_BlockNumber : Z; ep_GasLimit : Z; ep_GasUsed : Z; ep_Timestamp : Z; ep_ExtraData : bytes; ep_BaseFeePerGas : bytes; ep_BlockHash : bytes;
  ep_Transactions : list bytes;
}.

Definition le64 (b : bytes) : Z := le_word b 0.

(** [snappy] and [rlp] are the decoders of the libraries. *)
Definition decodeBlockGossip (snappy : bytes -> option bytes) (rlp : bytes -> option ExecutionPayloadEnvelope) (chainID : Z) (data : bytes) (fromPeer : string) (now : Z)
  : result L2BlockGossip :=
  if (length data <? 4)%nat then Err "message too short"
  else
    let d := default data (snappy data) in
    match rlp d with
    | Some p => Ok (mkL2Block chainID (ep_BlockNumber p) (ep_BlockHash p) (ep_ParentHash p) (ep_Timestamp p) (ep_Transactions p) now fromPeer)
    | None =>
        if (100 <=? length d)%nat && (0 <? le64 (take 8 (drop 52 d)))
        then Ok (mkL2Block chainID (le64 (take 8 (drop 52 d))) zero32 (take 32 d) (le64 (take 8 (drop 76 d))) [] now fromPeer)
        else Err "failed to decode payload (tried RLP and SSZ)"
    end.

Record OpNodeGossip := mkGossip { topics : gmap Z Z; priceTopic : bool; blocksReceived : gmap Z Z; pricesReceived : Z; decodeErrors : Z }.

Definition NewOpNodeGossip : OpNodeGossip := mkGossip ∅ false ∅ 0 0.

(** [joins v] says whether joining and subscribing to version [v] of the topic succeed.  The value of a topic is
    the version of the first one. *)
Definition SubscribeChain (joins : Z -> bool) (chainID : Z) (g : OpNodeGossip) : result OpNodeGossip :=
  match topics g !! chainID with
  | Some _ => Ok g
  | None =>
      match List.filter joins [2; 3; 4; 5] with
      | [] => Err "failed to subscribe to any topic version for chain"
      | v :: _ => Ok (mkGossip (<[chainID := v]> (topics g)) (priceTopic g) (blocksReceived g) (pricesReceived g) (decodeErrors g))
      end
  end.

(** [joined] and [subscribed] are the results for the price topic. *)
Definition SubscribePriceGossip (joined subscribed : bool) (g : OpNodeGossip) : result OpNodeGossip :=
  if priceTopic g then Ok g
  else if negb joined then Err "failed to join price topic"
  else if negb subscribed then Err "failed to subscribe to price topic"
  else Ok (mkGossip (topics g) true (blocksReceived g) (pricesReceived g) (decodeErrors g)).

(** A message of a chain's topic; [own] says that it came from this host.  The block is handed to the callback. *)
Definition handle_message (snappy : bytes -> option bytes) (rlp : bytes -> option ExecutionPayloadEnvelope) (chainID : Z) (own : bool) (data : bytes) (from : string)
    (now : Z) (g : OpNodeGossip) : OpNodeGossip * option L2BlockGossip :=
  if own then (g, None)
  else match decodeBlockGossip snappy rlp chainID data from now with
       | Err _ => (mkGossip (topics g) (priceTopic g) (blocksReceived g) (pricesReceived g) (u64 (decodeErrors g + 1)), None)
       | Ok block => (mkGossip (topics g) (priceTopic g) (<[chainID := u64 (default 0 (blocksReceived g !! chainID) + 1)]> (blocksReceived g))
                        (pricesReceived g) (decodeErrors g), Some block)
       end.

Definition handle_price_message (own : bool) (data : bytes) (g : OpNodeGossip) : OpNodeGossip * option bytes :=
  if own then (g, None) else (mkGossip (topics g) (priceTopic g) (blocksReceived g) (u64 (pricesReceived g + 1)) (decodeErrors g), Some data).

(** [send] is what publishing on a topic returns. *)
Definition gossip_Publish (send : Z -> result unit) (chainID : Z) (g : OpNodeGossip) : result unit :=
  match topics g !! chainID with None => Err "chain not subscribed" | Some _ => send chainID end.

Definition gossip_PublishToAll (send : Z -> result unit) (g : OpNodeGossip) : gmap Z (result unit) :=
  map_imap (fun chainID _ => Some (gossip_Publish send chainID g)) (topics g).

Definition PublishPriceGossip (send : result unit) (g : OpNodeGossip) : result unit := if priceTopic g then send else Err "price gossip not subscribed".

Definition GetPeerCount (peers : Z -> Z) (chainID : Z) (g : OpNodeGossip) : Z := match topics g !! chainID with None => 0 | Some _ => peers chainID end.

(** ** The transport *)

Record ChainTransport := mkChain {
  ct_ChainID : Z; ct_Name : string; ct_Config : option ChainConfig; ct_Hybrid : option HybridTransport; ct_IsL2 : bool; CurrentBlock : Z;
  LastBlockTime : Z; PeerCount : Z; trackedTxs : gmap bytes Z; ct_txCount : Z; swapCount : Z; blockCount : Z;
}.

(** The name and configuration of a chain. *)
Definition chain_info (chainID : Z) : string * option ChainConfig :=
  match find_chain DefaultChainConfigs chainID with
  | Some c => (cc_Name c, Some c)
  | None => match find_chain TestnetChainConfigs chainID with
            | Some c => (cc_Name c, Some c)
            | None => (string_of_list_byte (bs "Chain-" ++ dec chainID), None)
            end
  end.

(** [dev] is what creating the node of a first-layer chain returns. *)
Definition initChainTransport (dev : Z -> result unit) (chainID : Z) : result ChainTransport :=
  let '(name, config) := chain_info chainID in
  let ct hybrid := mkChain chainID name config hybrid (IsOPStackL2 chainID) 0 0 0 ∅ 0 0 0 in
  if IsOPStackL2 chainID then Ok (ct None)
  else match (CreateHybridTransportForChain chainID true (Ok tt) (dev chainID)).2 with
       | Err _ => Err "failed to create HybridTransport"
       | Ok h => Ok (ct (Some h))
       end.

(** The configuration; the key is outside. *)
Record MultiChainConfig := { EnabledChains : list Z; ListenPorts : list (Z * string); RPCEndpoints : list (Z * string); UseTestnet : bool; MaxPeers : Z }.

Definition DefaultMultiChainConfig : MultiChainConfig :=
  {| EnabledChains := [ChainIDEthereum; ChainIDBase; ChainIDOptimism]; ListenPorts := [(ChainIDEthereum, ":30303")];
     RPCEndpoints := [(ChainIDEthereum, "ws://localhost:8546"); (ChainIDBase, "ws://localhost:8646"); (ChainIDOptimism, "ws://localhost:8746")];
     UseTestnet := false; MaxPeers := 50 |}.

Definition TestnetMultiChainConfig : MultiChainConfig :=
  {| EnabledChains := [ChainIDSepolia; ChainIDBaseSep; ChainIDOptimSep]; ListenPorts := [(ChainIDSepolia, ":30303")]; RPCEndpoints := [];
     UseTestnet := true; MaxPeers := 50 |}.

Section multichain.
Context {C : Crypto} {Tx : Type}.

Record MultiChainTransport := mkMulti {
  chains : gmap Z ChainTransport; opNodeGossip : option OpNodeGossip; unifiedFlow : MempoolFlow; totalTxSeen : Z; totalPeerSeen : Z;
  totalL2Blocks : Z; feed : option (@EventFanOut Tx); m_running : bool; m_stopCh_open : bool; statsLogCount : Z;
}.

(** Calls to the shared host and to the parts. *)
Inductive multi_call := SharedStart | SharedStop | ChainStop (chainID : Z) | GossipStopped.

(** What the libraries return during construction. *)
Record BuildEnv := { be_key : bool; be_lib : result unit; be_lib_start : result unit; be_dev : Z -> result unit; be_gossip : result unit }.

(** [for _, chainID := range EnabledChains]: the chains of one layer are added until one fails. *)
Fixpoint init_chains (l2 : bool) (dev : Z -> result unit) (enabled : list Z) (m : gmap Z ChainTransport) : gmap Z ChainTransport * result unit :=
  match enabled with
  | [] => (m, Ok tt)
  | id :: enabled =>
      if negb (Bool.eqb (IsOPStackL2 id) l2) then init_chains l2 dev enabled m
      else match initChainTransport dev id with
           | Err e => (m, Err e)
           | Ok ct => init_chains l2 dev enabled (<[id := ct]> m)
           end
  end.

(** [existing.Hybrid.Stop()] for the chains that have one. *)
Definition stop_hybrids (walk : gmap Z ChainTransport -> list (Z * ChainTransport)) (m : gmap Z ChainTransport) : list multi_call :=
  omap (fun p => match ct_Hybrid p.2 with Some _ => Some (ChainStop p.1) | None => None end) (walk m).

Definition NewMultiChainTransport (walk : gmap Z ChainTransport -> list (Z * ChainTransport)) (env : BuildEnv) (enabled : list Z) (now : Z)
  : list multi_call * result MultiChainTransport :=
  if negb (be_key env) then ([], Err "private key required")
  else match be_lib env with
  | Err _ => ([], Err "failed to create shared libp2p")
  | Ok _ =>
      match be_lib_start env with
      | Err _ => ([SharedStart; SharedStop], Err "failed to start shared libp2p")
      | Ok _ =>
          match init_chains false (be_dev env) enabled ∅ with
          | (m, Err _) => (SharedStart :: stop_hybrids walk m ++ [SharedStop], Err "failed to init L1 chain")
          | (m, Ok _) =>
              let hasL2 := existsb IsOPStackL2 enabled in
              match (if hasL2 then be_gossip env else Ok tt) with
              | Err _ => (SharedStart :: stop_hybrids walk m ++ [SharedStop], Err "failed to create OpNode gossip")
              | Ok _ =>
                  match init_chains true (be_dev env) enabled m with
                  | (m2, Err _) => (SharedStart :: stop_hybrids walk m2 ++ (if hasL2 then [GossipStopped] else []) ++ [SharedStop], Err "failed to init L2 chain")
                  | (m2, Ok _) => ([SharedStart], Ok (mkMulti m2 (if hasL2 then Some NewOpNodeGossip else None) (NewMempoolFlow 10000 now) 0 0 0 None false true 0))
                  end
              end
          end
      end
  end.

Definition set_chains (m : gmap Z ChainTransport) (t : MultiChainTransport) : MultiChainTransport :=
  mkMulti m (opNodeGossip t) (unifiedFlow t) (totalTxSeen t) (totalPeerSeen t) (totalL2Blocks t) (feed t) (m_running t) (m_stopCh_open t) (statsLogCount t).

(** What the parts return when they start: the gossip, the price topic, the versions of a chain's topic, and the
    parts of a chain's hybrid transport. *)
Record StartEnv := { se_gossip : result unit; se_price : bool * bool; se_joins : Z -> Z -> bool; se_hybrid : Z -> result unit * result unit }.

(** The subscriptions of the gossip for the chains of the second layer; failures are reported only. *)
Definition start_gossip (env : StartEnv) (order : list (Z * ChainTransport)) (g : OpNodeGossip) : OpNodeGossip :=
  let g1 := match SubscribePriceGossip (se_price env).1 (se_price env).2 g with Ok g' => g' | Err _ => g end in
  fold_left (fun g p => if ct_IsL2 p.2 then match SubscribeChain (se_joins env p.1) p.1 g with Ok g' => g' | Err _ => g end else g) order g1.

(** A chain of the first layer without a transport would be a nil dereference. *)
Definition start_chain (env : StartEnv) (id : Z) (ct : ChainTransport) : ChainTransport :=
  if ct_IsL2 ct then ct
  else match ct_Hybrid ct with
       | None => ct
       | Some h => let '(_, _, h') := hybrid_Start (se_hybrid env id).1 (se_hybrid env id).2 h in
                   mkChain (ct_ChainID ct) (ct_Name ct) (ct_Config ct) (Some h') (ct_IsL2 ct) (CurrentBlock ct) (LastBlockTime ct) (PeerCount ct)
                     (trackedTxs ct) (ct_txCount ct) (swapCount ct) (blockCount ct)
       end.

Definition lacks_transport (ct : ChainTransport) : bool := negb (ct_IsL2 ct) && match ct_Hybrid ct with None => true | Some _ => false end.

Definition multi_Start (env : StartEnv) (order : list (Z * ChainTransport)) (t : MultiChainTransport) : outcome (result unit * MultiChainTransport) :=
  if m_running t then Done (Err "already running", t)
  else match (match opNodeGossip t with Some _ => se_gossip env | None => Ok tt end) with
  | Err _ => Done (Err "failed to start OpNode gossip", t)
  | Ok _ =>
      if existsb (fun p => lacks_transport p.2) order then Panic "invalid memory address or nil pointer dereference"
      else Done (Ok tt, mkMulti (map_imap (fun id ct => Some (start_chain env id ct)) (chains t)) (start_gossip env order <$> opNodeGossip t) (unifiedFlow t)
                   (totalTxSeen t) (totalPeerSeen t) (totalL2Blocks t) (feed t) true (m_stopCh_open t) (statsLogCount t))
  end.

Definition stop_chain (ct : ChainTransport) : outcome ChainTransport :=
  match ct_Hybrid ct with
  | None => Done ct
  | Some h => let! (_, h') := hybrid_Stop h in
              Done (mkChain (ct_ChainID ct) (ct_Name ct) (ct_Config ct) (Some h') (ct_IsL2 ct) (CurrentBlock ct) (LastBlockTime ct) (PeerCount ct)
                      (trackedTxs ct) (ct_txCount ct) (swapCount ct) (blockCount ct))
  end.

Fixpoint stop_chains (order : list (Z * ChainTransport)) (m : gmap Z ChainTransport) : outcome (gmap Z ChainTransport) :=
  match order with
  | [] => Done m
  | (id, ct) :: order => let! ct' := stop_chain ct in stop_chains order (<[id := ct']> m)
  end.

Definition multi_Stop (order : list (Z * ChainTransport)) (t : MultiChainTransport) : outcome MultiChainTransport :=
  if negb (m_running t) then Done t
  else if negb (m_stopCh_open t) then Panic "close of closed channel"
  else let! m := stop_chains order (chains t) in
       Done (mkMulti m (opNodeGossip t) (unifiedFlow t) (totalTxSeen t) (totalPeerSeen t) (totalL2Blocks t) (feed t) false false (statsLogCount t)).

(** [Feed]: made on first use. *)
Definition multi_Feed (t : MultiChainTransport) : MultiChainTransport :=
  match feed t with
  | Some _ => t
  | None => mkMulti (chains t) (opNodeGossip t) (unifiedFlow t) (totalTxSeen t) (totalPeerSeen t) (totalL2Blocks t) (Some (fanOut_Init zero_fanOut))
              (m_running t) (m_stopCh_open t) (statsLogCount t)
  end.

(** *** Handlers *)

(** [atomic.AddInt32]. *)
Definition i32 (z : Z) : Z := (z + 2 ^ 31) mod 2 ^ 32 - 2 ^ 31.

Definition with_flow (fl : MempoolFlow) (t : MultiChainTransport) : MultiChainTransport :=
  mkMulti (chains t) (opNodeGossip t) fl (totalTxSeen t) (totalPeerSeen t) (totalL2Blocks t) (feed t) (m_running t) (m_stopCh_open t) (statsLogCount t).
Definition add_totals (txs peers blocks : Z) (t : MultiChainTransport) : MultiChainTransport :=
  mkMulti (chains t) (opNodeGossip t) (unifiedFlow t) (u64 (totalTxSeen t + txs)) (u64 (totalPeerSeen t + peers)) (u64 (totalL2Blocks t + blocks))
    (feed t) (m_running t) (m_stopCh_open t) (statsLogCount t).
Definition with_feed (f : option EventFanOut) (t : MultiChainTransport) : MultiChainTransport :=
  mkMulti (chains t) (opNodeGossip t) (unifiedFlow t) (totalTxSeen t) (totalPeerSeen t) (totalL2Blocks t) f (m_running t) (m_stopCh_open t) (statsLogCount t).

(** Changes to the counters, the tracked transactions and the head of a chain. *)
Definition add_txs (n : Z) (ct : ChainTransport) : ChainTransport :=
  mkChain (ct_ChainID ct) (ct_Name ct) (ct_Config ct) (ct_Hybrid ct) (ct_IsL2 ct) (CurrentBlock ct) (LastBlockTime ct) (PeerCount ct)
    (trackedTxs ct) (u64 (ct_txCount ct + n)) (swapCount ct) (blockCount ct).
Definition add_peer (n : Z) (ct : ChainTransport) : ChainTransport :=
  mkChain (ct_ChainID ct) (ct_Name ct) (ct_Config ct) (ct_Hybrid ct) (ct_IsL2 ct) (CurrentBlock ct) (LastBlockTime ct) (i32 (PeerCount ct + n))
    (trackedTxs ct) (ct_txCount ct) (swapCount ct) (blockCount ct).
Definition new_head (number time : Z) (ct : ChainTransport) : ChainTransport :=
  mkChain (ct_ChainID ct) (ct_Name ct) (ct_Config ct) (ct_Hybrid ct) (ct_IsL2 ct) number time (PeerCount ct)
    (trackedTxs ct) (ct_txCount ct) (swapCount ct) (u64 (blockCount ct + 1)).

Definition track_limit : Z := 5 * 60 * second.

Definition track (now : Z) (hashes : list bytes) (ct : ChainTransport) : ChainTransport :=
  mkChain (ct_ChainID ct) (ct_Name ct) (ct_Config ct) (ct_Hybrid ct) (ct_IsL2 ct) (CurrentBlock ct) (LastBlockTime ct) (PeerCount ct)
    (base.filter (fun p => now - track_limit <= p.2) (fold_left (fun m h => <[h := now]> m) hashes (trackedTxs ct)))
    (ct_txCount ct) (swapCount ct) (blockCount ct).

Definition emitFeed (parked : nat -> bool) (walk : EventFanOut -> list (Z * nat)) (e : NetworkEvent) (t : MultiChainTransport) : outcome MultiChainTransport :=
  match feed t with None => Done t | Some f => let! f' := fanOut_Emit parked (walk f) e f in Done (with_feed (Some f') t) end.

(** Calls of the parts. *)
Inductive handler_call :=
  | HTxHashes (chainID : Z) (hashes : list bytes)
  | HTxs (chainID : Z) (txs : list Tx)
  | HZEAM (chainID : Z) (tx : Tx) (data : bytes)
  | HPeerConnect (chainID : Z) (peerID : string)
  | HPeerDrop (chainID : Z) (peerID : string)
  | HForeign (chainID : Z) (peerID : string) (networkID : Z)
  | HL2Block (chainID : Z) (block : L2BlockGossip).

(** Which callbacks of the transport are set, and what they are told. *)
Record Listeners := { on_tx : bool; on_parsed : bool; on_peer : bool; on_l2block : bool; on_advance : bool }.

Inductive notification :=
  | NTx (chainID : Z) (hashes : list bytes)
  | NParsed (chainID : Z) (tx : Tx)
  | NPeer (chainID : Z) (peerID : string) (connected : bool)
  | NL2Block (chainID : Z) (block : L2BlockGossip)
  | NAdvance (chainID : Z) (number : Z).

Definition told (b : bool) (l : list notification) : list notification := if b then l else [].

(** [ExtractFullTransactions]: those that the library decodes. *)
Definition ExtractFullTransactions (decode : bytes -> option Tx) (block : L2BlockGossip) : list Tx := omap decode (l2_Transactions block).

(** The hash that stands for an event of a peer. *)
Definition peer_hash (kind : string) (parts : list bytes) (now : Z) : bytes :=
  Keccak256 (bs kind ++ concat (map (fun p => bs ":" ++ p) parts) ++ bs ":" ++ dec now).

(** The hashes that a call adds to the flow. *)
Definition ingested (now : Z) (c : handler_call) : list bytes :=
  match c with
  | HTxHashes _ hs => hs
  | HTxs _ _ | HZEAM _ _ _ => []
  | HPeerConnect id p => [peer_hash "connect" [dec id; bs p] now]
  | HPeerDrop id p => [peer_hash "drop" [dec id; bs p] now]
  | HForeign id p net => [peer_hash "foreign" [dec id; dec net; bs p] now]
  | HL2Block _ block => ExtractTransactionHashes block
  end.

Definition on_chain (id : Z) (k : ChainTransport -> ChainTransport) (t : MultiChainTransport) : MultiChainTransport := set_chains (alter k id (chains t)) t.

Section handlers.
Context (decode : bytes -> option Tx) (ls : Listeners) (parked : nat -> bool) (walk : @EventFanOut Tx -> list (Z * nat)).

Definition createTxHashHandler (now id : Z) (hs : list bytes) (t : MultiChainTransport) : outcome (list notification * MultiChainTransport) :=
  let n := Z.of_nat (length hs) in
  let t1 := on_chain id (fun ct => track now hs (add_txs n ct)) (add_totals n 0 0 (with_flow (Ingest now hs (unifiedFlow t)) t)) in
  let! t2 := emitFeed parked walk (with_hashes hs (event0 EventTxHashes id now)) t1 in
  Done (told (on_tx ls) [NTx id hs], t2).

Definition createTxReceivedHandler (now id : Z) (txs : list Tx) (t : MultiChainTransport) : outcome (list notification * MultiChainTransport) :=
  let n := Z.of_nat (length txs) in
  let t1 := on_chain id (add_txs n) (add_totals n 0 0 t) in
  let! t2 := emitFeed parked walk (mkEvent EventTxFull id now [] txs [] None zero32 0 None EmptyString 0) t1 in
  Done (told (on_parsed ls) (map (NParsed id) txs), t2).

Definition createPeerConnectHandler (now id : Z) (p : string) (t : MultiChainTransport) : outcome (list notification * MultiChainTransport) :=
  let t1 := on_chain id (add_peer 1) (add_totals 0 1 0 (with_flow (Ingest now (ingested now (HPeerConnect id p)) (unifiedFlow t)) t)) in
  let! t2 := emitFeed parked walk (with_peer p (event0 EventPeerConnect id now)) t1 in
  Done (told (on_peer ls) [NPeer id p true], t2).

Definition createPeerDropHandler (now id : Z) (p : string) (t : MultiChainTransport) : outcome (list notification * MultiChainTransport) :=
  let t1 := on_chain id (add_peer (-1)) (with_flow (Ingest now (ingested now (HPeerDrop id p)) (unifiedFlow t)) t) in
  let! t2 := emitFeed parked walk (with_peer p (event0 EventPeerDrop id now)) t1 in
  Done (told (on_peer ls) [NPeer id p false], t2).

Definition createForeignNetworkHandler (now id : Z) (p : string) (net : Z) (t : MultiChainTransport) : MultiChainTransport :=
  add_totals 0 1 0 (with_flow (Ingest now (ingested now (HForeign id p net)) (unifiedFlow t)) t).

Definition createL2BlockHandler (now id : Z) (block : L2BlockGossip) (t : MultiChainTransport) : outcome (list notification * MultiChainTransport) :=
  let t1 := on_chain id (new_head (l2_BlockNumber block) (l2_ReceivedAt block)) (add_totals 0 0 1 t) in
  let hs := ExtractTransactionHashes block in
  let t2 := if (0 <? length hs)%nat then add_totals (Z.of_nat (length hs)) 0 0 (with_flow (Ingest now hs (unifiedFlow t1)) t1) else t1 in
  let! t3 := emitFeed parked walk (mkEvent EventL2Block id now [] [] [] None zero32 0 (Some block) EmptyString 0) t2 in
  Done (told (on_tx ls && (0 <? length hs)%nat) [NTx id hs] ++ told (on_parsed ls) (map (NParsed id) (ExtractFullTransactions decode block)) ++
        told (on_l2block ls) [NL2Block id block] ++ told (on_advance ls) [NAdvance id (l2_BlockNumber block)], t3).

Definition handle (now : Z) (c : handler_call) (t : MultiChainTransport) : outcome (list notification * MultiChainTransport) :=
  match c with
  | HTxHashes id hs => createTxHashHandler now id hs t
  | HTxs id txs => createTxReceivedHandler now id txs t
  | HZEAM _ _ _ => Done ([], t)
  | HPeerConnect id p => createPeerConnectHandler now id p t
  | HPeerDrop id p => createPeerDropHandler now id p t
  | HForeign id p net => Done ([], createForeignNetworkHandler now id p net t)
  | HL2Block id block => createL2BlockHandler now id block t
  end.

Fixpoint handle_all (cs : list (Z * handler_call)) (t : MultiChainTransport) : outcome (list notification * MultiChainTransport) :=
  match cs with
  | [] => Done ([], t)
  | (now, c) :: cs => let! (n1, t1) := handle now c t in let! (n2, t2) := handle_all cs t1 in Done (n1 ++ n2, t2)
  end.
End handlers.

(** [updateChainStates]: [peers] is what the transports report. *)
Definition set_peers (n : Z) (ct : ChainTransport) : ChainTransport :=
  mkChain (ct_ChainID ct) (ct_Name ct) (ct_Config ct) (ct_Hybrid ct) (ct_IsL2 ct) (CurrentBlock ct) (LastBlockTime ct) (i32 n)
    (trackedTxs ct) (ct_txCount ct) (swapCount ct) (blockCount ct).

(** A line is due when there is anything to report. *)
Definition has_report (order : list (Z * ChainTransport)) (t : MultiChainTransport) : bool :=
  existsb (fun p => match ct_Hybrid p.2 with Some _ => true | None => false end) order ||
  match opNodeGossip t with Some g => negb (bool_decide (topics g = ∅)) | None => false end.

Definition updateChainStates (peers : Z -> Z) (order : list (Z * ChainTransport)) (t : MultiChainTransport) : MultiChainTransport :=
  mkMulti (map_imap (fun id ct => Some (match ct_Hybrid ct with Some _ => set_peers (peers id) ct | None => ct end)) (chains t)) (opNodeGossip t)
    (unifiedFlow t) (totalTxSeen t) (totalPeerSeen t) (totalL2Blocks t) (feed t) (m_running t) (m_stopCh_open t)
    (if has_report order t then u64 (statsLogCount t + 1) else statsLogCount t).

(** *** Broadcasting *)

(** [send] is what the transport of the chain returns for the data. *)
Definition BroadcastOnChain (send : Z -> result bytes) (chainID : Z) (t : MultiChainTransport) : result bytes :=
  match chains t !! chainID with
  | None => Err "chain not enabled"
  | Some ct => match ct_Hybrid ct with None => Err "chain is L2 (no HybridTransport) - use PublishL2 instead" | Some _ => send chainID end
  end.

(** [tx] is the decoded transaction with its hash. *)
Definition BroadcastRawTxOnChain (send : Z -> result unit) (chainID : Z) (tx : result bytes) (t : MultiChainTransport) : outcome (result bytes) :=
  match chains t !! chainID with
  | None => Done (Err "chain not enabled")
  | Some ct =>
      match tx with
      | Err _ => Done (Err "failed to decode transaction")
      | Ok hash =>
          match ct_Hybrid ct with
          | None => Panic "invalid memory address or nil pointer dereference"
          | Some _ => match send chainID with Err e => Done (Err e) | Ok _ => Done (Ok hash) end
          end
      end
  end.

Definition PublishL2 (send : Z -> result unit) (chainID : Z) (t : MultiChainTransport) : result unit :=
  match opNodeGossip t with
  | None => Err "L2 gossip not initialized"
  | Some g => if negb (IsOPStackL2 chainID) then Err "chain is not an L2" else gossip_Publish send chainID g
  end.

Definition PublishAllL2s (send : Z -> result unit) (t : MultiChainTransport) : gmap Z (result unit) :=
  match opNodeGossip t with None => {[0 := Err "L2 gossip not initialized"]} | Some g => gossip_PublishToAll send g end.

(** The hashes of the chains of the first layer that accepted the data. *)
Definition BroadcastOnAllChains (send : Z -> result bytes) (t : MultiChainTransport) : gmap Z bytes :=
  map_imap (fun id ct => if ct_IsL2 ct then None else match ct_Hybrid ct with None => None | Some _ => match send id with Ok h => Some h | Err _ => None end end) (chains t).

Definition is_l1 (ct : ChainTransport) : bool := negb (ct_IsL2 ct) && match ct_Hybrid ct with Some _ => true | None => false end.

(** The transport that the feed broadcasts on: the last one of the walk, or Ethereum. *)
Fixpoint primary (order : list (Z * ChainTransport)) (acc : option ChainTransport) : option ChainTransport :=
  match order with
  | [] => acc
  | (_, ct) :: order => if is_l1 ct then if ct_ChainID ct =? 1 then Some ct else primary order (Some ct) else primary order acc
  end.

Definition multi_feed_Broadcast (send : Z -> bytes * option string) (order : list (Z * ChainTransport)) : bytes * option string :=
  match primary order None with None => (zero32, Some "no L1 chain available") | Some ct => send (ct_ChainID ct) end.

(** [hash] is that of a transaction that is not nil, [err] what sending it returns. *)
Definition multi_feed_BroadcastTx (hash : option bytes) (err : Z -> option string) (order : list (Z * ChainTransport)) : bytes * option string :=
  match primary order None with None => (zero32, Some "no L1 chain available") | Some ct => (default zero32 hash, err (ct_ChainID ct)) end.

(** Where price data is sent. *)
Inductive price_dest := ToHybrid (chainID : Z) | ToGossip.

Definition broadcastPriceData (sendGossip : result unit) (sendHybrid : Z -> result unit) (order : list (Z * ChainTransport)) (chainID : Z) (t : MultiChainTransport)
  : list price_dest * result unit :=
  match opNodeGossip t, IsOPStackL2 chainID with
  | Some g, true => ([ToGossip], PublishPriceGossip sendGossip g)
  | og, _ =>
      match chains t !! chainID ≫= ct_Hybrid with
      | None => (map (fun p => ToHybrid p.1) (List.filter (fun p => is_l1 p.2) order) ++ match og with Some _ => [ToGossip] | None => [] end, Ok tt)
      | Some _ => ([ToHybrid chainID], sendHybrid chainID)
      end
  end.

(** *** Queries *)

Definition GetL1Chains (order : list (Z * ChainTransport)) : list Z := map fst (List.filter (fun p => is_l1 p.2) order).
Definition GetUnifiedEntropy (t : MultiChainTransport) : bytes := Entropy (unifiedFlow t).
Definition HarvestEntropy (t : MultiChainTransport) : (bytes * Z) * MultiChainTransport :=
  let '(r, fl) := Harvest (unifiedFlow t) in (r, with_flow fl t).
Definition GetFlowRate (t : MultiChainTransport) : float64 := (flow_Stats (unifiedFlow t)).1.2.
Definition GetRecentHashes (n : Z) (t : MultiChainTransport) : outcome (list bytes) := RecentHashes n (unifiedFlow t).

Record ChainStatus := mkStatus { cs_ChainID : Z; cs_Name : string; cs_PeerCount : Z; cs_TxCount : Z; cs_SwapCount : Z; cs_CurrentBlock : Z; cs_Connected : bool }.

(** [peers] is what the gossip reports for a topic. *)
Definition GetChainStatus (peers : Z -> Z) (chainID : Z) (t : MultiChainTransport) : option ChainStatus :=
  match chains t !! chainID with
  | None => None
  | Some ct =>
      let '(n, conn) :=
        if ct_IsL2 ct then match opNodeGossip t with Some g => (GetPeerCount peers chainID g, 0 <? GetPeerCount peers chainID g) | None => (0, false) end
        else (PeerCount ct, match ct_Hybrid ct with Some _ => 0 <? PeerCount ct | None => false end) in
      Some (mkStatus chainID (ct_Name ct) n (ct_txCount ct) (swapCount ct) (CurrentBlock ct) conn)
  end.

Definition GetAllChainStatus (peers : Z -> Z) (order : list (Z * ChainTransport)) (t : MultiChainTransport) : list ChainStatus :=
  omap (fun p => GetChainStatus peers p.1 t) order.

Definition GetTotalStats (order : list (Z * ChainTransport)) (t : MultiChainTransport) : Z * Z * float64 :=
  (totalTxSeen t, i64 (fold_left Z.add (map (fun p => PeerCount p.2) order) 0), (flow_Stats (unifiedFlow t)).1.2).
Definition GetEnabledChains (order : list (Z * ChainTransport)) : list Z := map fst order.

(** The statistics of the feed. *)
Definition multi_feed_Stats (order : list (Z * ChainTransport)) (t : MultiChainTransport) : NetworkStats :=
  mkStats (i64 (fold_left Z.add (map (fun p => PeerCount p.2) (List.filter (fun p => negb (ct_IsL2 p.2)) order)) 0))
    (list_to_map (map (fun p => (p.1, PeerCount p.2)) (List.filter (fun p => ct_IsL2 p.2) order))) (GetFlowRate t) 0 0 0.
End multichain.

(** ** Construction *)

(** What a chain of the transport has: its own number, its layer, and a transport exactly on the first. *)
Definition chain_ok (id : Z) (ct : ChainTransport) : Prop :=
  ct_ChainID ct = id /\ ct_IsL2 ct = IsOPStackL2 id /\ (is_Some (ct_Hybrid ct) <-> ct_IsL2 ct = false).

Lemma init_chain_ok dev id ct : initChainTransport dev id = Ok ct -> chain_ok id ct /\ ct_txCount ct = 0 /\ trackedTxs ct = ∅.
Proof.
  unfold initChainTransport. destruct (chain_info id) as [name config]. destruct (IsOPStackL2 id) eqn:E.
  - intros [= <-]. cbn. split; [|done]. split_and!; [done|done|]. cbn. split; [by intros []|done].
  - destruct (CreateHybridTransportForChain id true (Ok tt) (dev id)) as [calls [h|]]; cbn; [|done]. intros [= <-]. split; [|done].
    split_and!; [done|done|]. by split; [|eexists].
Qed.

Definition chains_ok (m : gmap Z ChainTransport) : Prop := map_Forall chain_ok m.

Lemma init_chains_spec l2 dev enabled m m' r :
  init_chains l2 dev enabled m = (m', r) -> chains_ok m ->
  chains_ok m' /\ (r = Ok tt -> forall id, is_Some (m' !! id) <-> is_Some (m !! id) \/ (id ∈ enabled /\ IsOPStackL2 id = l2)).
Proof.
  revert m. induction enabled as [|x enabled IH]; intros m; cbn [init_chains].
  - intros [= <- <-] Hm. split; [done|]. intros _ id. split; [by left|]. intros [|[H _]]; [done|]. by apply elem_of_nil in H.
  - destruct (Bool.eqb (IsOPStackL2 x) l2) eqn:El; cbn [negb].
    + apply Bool.eqb_prop in El. destruct (initChainTransport dev x) as [ct|e] eqn:Ei; [|intros [= <- <-] Hm; done].
      intros H Hm. apply IH in H as [H1 H2]; [|by apply map_Forall_insert_2; [apply init_chain_ok in Ei as (? & _)|]].
      split; [done|]. intros Hr id. rewrite (H2 Hr), lookup_insert_is_Some, elem_of_cons.
      destruct (decide (x = id)) as [->|Hne]; [naive_solver|]. assert (id <> x) by done. naive_solver.
    + intros H Hm. apply IH in H as [H1 H2]; [|done]. split; [done|]. intros Hr id. rewrite (H2 Hr), elem_of_cons.
      assert (id = x -> IsOPStackL2 id <> l2) by (intros ->; intros Hx; rewrite Hx, Bool.eqb_reflx in El; done). naive_solver.
Qed.

(** C32: A transport that is built has exactly the enabled chains, each of the first layer with a transport of its own
    and each of the second without, and the gossip when there is a chain of the second; a construction that
    fails after the shared host was started ends by stopping it. *)
Theorem multichain_built {Tx : Type} walk env enabled now :
  match NewMultiChainTransport (Tx := Tx) walk env enabled now with
  | (_, Ok t) => chains_ok (chains t) /\ (forall id, is_Some (chains t !! id) <-> id ∈ enabled) /\
      (is_Some (opNodeGossip t) <-> exists id, id ∈ enabled /\ IsOPStackL2 id = true) /\ m_running t = false
  | (calls, Err _) => SharedStart ∈ calls -> exists before, calls = before ++ [SharedStop]
  end.
Proof.
  unfold NewMultiChainTransport. destruct (be_key env); cbn [negb]; [|set_solver]. destruct (be_lib env); [|set_solver].
  destruct (be_lib_start env); [|intros _; by exists [SharedStart]].
  destruct (init_chains false (be_dev env) enabled ∅) as [m [[]|]] eqn:E1; [|intros _; by eexists (_ :: _)].
  destruct (init_chains_spec _ _ _ _ _ _ E1 (map_Forall_empty _)) as [O1 D1].
  destruct (if existsb IsOPStackL2 enabled then be_gossip env else Ok tt); [|intros _; by eexists (_ :: _)].
  destruct (init_chains true (be_dev env) enabled m) as [m2 [[]|]] eqn:E2.
  - destruct (init_chains_spec _ _ _ _ _ _ E2 O1) as [O2 D2]. cbn. split_and!; [done| | |done].
    + intros id. rewrite (D2 eq_refl), (D1 eq_refl), lookup_empty. destruct (IsOPStackL2 id); [|]; split.
      * intros [[[? [=]]|[_ [=]]]|[? _]]; done.
      * intros ?. by right.
      * intros [[[? [=]]|[? _]]|[_ [=]]]; done.
      * intros ?. left. by right.
    + destruct (existsb IsOPStackL2 enabled) eqn:Ex.
      * split; [intros _|done]. apply existsb_exists in Ex as (id & Hin & H). exists id. split; [by apply list_elem_of_In|done].
      * split; [by intros []|]. intros (id & Hin & H). assert (existsb IsOPStackL2 enabled = true) by (apply existsb_exists; exists id; split; [by apply list_elem_of_In|done]). congruence.
  - intros _. eexists (_ :: _ ++ _). cbn. by rewrite (assoc_L (++)).
Qed.

(** The two configurations can be built: their chains of the first layer have a transport.  Enabling Arbitrum never
    works: it is not in the list of the second layer, and the first supports two chains only. *)
Theorem default_chains_supported {Tx : Type} walk now :
  (forall cfg, cfg ∈ [DefaultMultiChainConfig; TestnetMultiChainConfig] ->
     exists calls t, NewMultiChainTransport (Tx := Tx) walk {| be_key := true; be_lib := Ok tt; be_lib_start := Ok tt; be_dev := fun _ => Ok tt; be_gossip := Ok tt |}
       (EnabledChains cfg) now = (calls, Ok t)) /\
  (forall env enabled, ChainIDArbitrum ∈ enabled -> exists calls e, NewMultiChainTransport (Tx := Tx) walk env enabled now = (calls, Err e)).
Proof.
  split.
  - intros cfg H. apply elem_of_cons in H as [->|H]; [|apply list_elem_of_singleton in H as ->]; vm_compute; by do 2 eexists.
  - intros env enabled H. assert (E : forall m, exists m' e, init_chains false (be_dev env) enabled m = (m', Err e)).
    { induction enabled as [|x l IH]; intros m; [by apply elem_of_nil in H|]. cbn [init_chains].
      apply elem_of_cons in H as [<-|H]; [by do 2 eexists|]. case_match; [by apply IH|]. case_match; [by apply IH|by do 2 eexists]. }
    unfold NewMultiChainTransport. destruct (be_key env); [|by do 2 eexists]. cbn [negb]. destruct (be_lib env); [|by do 2 eexists].
    destruct (be_lib_start env); [|by do 2 eexists]. destruct (E ∅) as (m' & e & ->). by do 2 eexists.
Qed.

(** ** Handlers *)

Section runs.
Context {C : Crypto} {L : CryptoLaws C} {Tx : Type}.
Context (decode : bytes -> option Tx) (ls : Listeners) (parked : nat -> bool) (walk : @EventFanOut Tx -> list (Z * nat)).
Context (Hwalk : forall f, walk f ≡ₚ map_to_list (subs_of f)).
Implicit Types (t : @MultiChainTransport Tx) (c : @handler_call Tx) (cs : list (Z * @handler_call Tx)).

Definition feed_ok t : Prop := match feed t with Some f => fan_ok f | None => True end.

(** [t'] is [t] but for the feed. *)
Definition but_feed t t' : Prop := t' = with_feed (feed t') t.

Lemma emitFeed_ok e t : feed_ok t -> exists t', emitFeed parked walk e t = Done t' /\ feed_ok t' /\ but_feed t t'.
Proof.
  unfold feed_ok, emitFeed, but_feed. destruct (feed t) as [f|] eqn:E; intros H.
  - destruct (fan_apply_ok (OpEmit parked (walk f) e) f H (Hwalk f)) as (r & f' & E' & Hok). cbn [fan_apply] in E'.
    destruct (fanOut_Emit parked (walk f) e f) as [f1| |]; cbn in E'; [|done..]. injection E' as _ ->. cbn. eexists. split; [done|]. by split.
  - exists t. split_and!; [done|by rewrite E|]. rewrite E. destruct t. cbn in *. by subst.
Qed.

(** What a call adds: to the flow, to the total of transactions, and to the counter of a chain. *)
Definition total_of c : Z :=
  match c with HTxHashes _ hs => Z.of_nat (length hs) | HTxs _ txs => Z.of_nat (length txs) | HL2Block _ b => Z.of_nat (length (l2_Transactions b)) | _ => 0 end.
Definition count_of (id : Z) c : Z :=
  match c with
  | HTxHashes i hs => if i =? id then Z.of_nat (length hs) else 0
  | HTxs i txs => if i =? id then Z.of_nat (length txs) else 0
  | _ => 0
  end.

Definition call_ok c : Prop := match c with HTxHashes _ hs => Forall (fun h => length h = 32%nat) hs | _ => True end.

(** What stays of a chain. *)
Definition same_chain (n : Z) (ct ct' : ChainTransport) : Prop :=
  ct_ChainID ct' = ct_ChainID ct /\ ct_IsL2 ct' = ct_IsL2 ct /\ ct_Hybrid ct' = ct_Hybrid ct /\ u64 (ct_txCount ct') = u64 (ct_txCount ct + n).

Record step_spec (now : Z) c t t' (h : History) : Prop := {
  st_flow : flow_rel (unifiedFlow t') (mkHistory (seen h ++ ingested now c) (since h ++ ingested now c));
  st_total : u64 (totalTxSeen t') = u64 (totalTxSeen t + total_of c);
  st_chains : forall id, match chains t !! id, chains t' !! id with Some ct, Some ct' => same_chain (count_of id c) ct ct' | None, None => True | _, _ => False end;
  st_feed : feed_ok t';
}.

Lemma ingest_rel now hs fl h : flow_rel fl h -> Forall (fun x => length x = 32%nat) hs -> flow_rel (Ingest now hs fl) (mkHistory (seen h ++ hs) (since h ++ hs)).
Proof. intros H Hf. exact (flow_apply_rel fl h (FIngest now hs) H Hf). Qed.

Lemma u64_u64 a b : u64 (u64 (a + b)) = u64 (a + b).
Proof. unfold u64. by rewrite Zmod_mod. Qed.

Lemma u64_0 a : u64 (u64 (a + 0)) = u64 (a + 0).
Proof. apply u64_u64. Qed.

Lemma same_chain_refl ct : same_chain 0 ct ct.
Proof. unfold same_chain. by rewrite Z.add_0_r. Qed.

(** A handler that changes one chain with [k]. *)
Lemma on_chain_spec id k (n : Z) c t :
  (forall ct, same_chain n ct (k ct)) -> (forall i, i <> id -> count_of i c = 0) -> count_of id c = n ->
  forall i, match chains t !! i, chains (on_chain id k t) !! i with Some ct, Some ct' => same_chain (count_of i c) ct ct' | None, None => True | _, _ => False end.
Proof.
  intros Hk Ho Hn i. cbn. destruct (decide (i = id)) as [->|Hne].
  - rewrite lookup_alter_eq. destruct (chains t !! id) as [ct|]; cbn; [|done]. rewrite Hn. apply Hk.
  - rewrite lookup_alter_ne by done. destruct (chains t !! i) as [ct|]; [|done]. rewrite (Ho i Hne). apply same_chain_refl.
Qed.


Lemma emit_step now c t t1 h e (ns : list (@notification Tx)) :
  step_spec now c t t1 h ->
  exists t2, (let! t2 := emitFeed parked walk e t1 in Done (ns, t2)) = Done (ns, t2) /\ step_spec now c t t2 h.
Proof.
  intros [H1 H2 H3 H4]. destruct (emitFeed_ok e t1 H4) as (t2 & -> & Hf & Hb). exists t2. split; [done|]. rewrite Hb. by split; [..|rewrite <- Hb].
Qed.

Lemma other_chain i id (n : Z) : i <> id -> (if id =? i then n else 0) = 0.
Proof. intros H. by rewrite (proj2 (Z.eqb_neq _ _)). Qed.

Lemma handle_spec now c t h : flow_rel (unifiedFlow t) h -> call_ok c -> feed_ok t -> exists ns t', handle decode ls parked walk now c t = Done (ns, t') /\ step_spec now c t t' h.
Proof.
  intros Hr Hc Hf. assert (H32 : forall x, length (Keccak256 x) = 32%nat) by apply keccak_length.
  assert (Hk : forall kind parts, Forall (fun x => length x = 32%nat) [peer_hash kind parts now]) by (intros; repeat constructor; apply H32).
  destruct c as [id hs|id txs|id tx data|id p|id p|id p net|id block]; cbn [handle].
  - eexists. apply emit_step. split; [by apply ingest_rel|apply u64_u64| |done].
    apply (on_chain_spec id (fun ct => track now hs (add_txs (Z.of_nat (length hs)) ct)) (Z.of_nat (length hs)) _ t); cbn.
    + intros ct. split_and!; try done. apply u64_u64.
    + intros i Hi. by apply other_chain.
    + by rewrite Z.eqb_refl.
  - eexists. apply emit_step. split; [cbn; rewrite !app_nil_r; by destruct h|apply u64_u64| |done].
    apply (on_chain_spec id (add_txs (Z.of_nat (length txs))) (Z.of_nat (length txs)) _ t); cbn.
    + intros ct. split_and!; try done. apply u64_u64.
    + intros i Hi. by apply other_chain.
    + by rewrite Z.eqb_refl.
  - do 2 eexists. split; [done|]. split; [cbn; rewrite !app_nil_r; by destruct h|by rewrite Z.add_0_r| |done].
    intros i. destruct (chains t !! i); [apply same_chain_refl|done].
  - eexists. apply emit_step. split; [apply ingest_rel; [done|apply Hk]|apply u64_u64| |done].
    apply (on_chain_spec id (add_peer 1) 0 _ t); [|done..]. intros ct. split_and!; try done. by rewrite Z.add_0_r.
  - eexists. apply emit_step. split; [apply ingest_rel; [done|apply Hk]|by rewrite Z.add_0_r| |done].
    apply (on_chain_spec id (add_peer (-1)) 0 _ t); [|done..]. intros ct. split_and!; try done. by rewrite Z.add_0_r.
  - do 2 eexists. split; [done|]. split; [apply ingest_rel; [done|apply Hk]|apply u64_u64| |done].
    intros i. cbn. destruct (chains t !! i); [apply same_chain_refl|done].
  - eexists. apply emit_step. pose proof (length_map Keccak256 (l2_Transactions block)) as Hl. fold (ExtractTransactionHashes block) in Hl.
    assert (Hch : forall i, match chains t !! i, chains (on_chain id (new_head (l2_BlockNumber block) (l2_ReceivedAt block)) t) !! i with
      Some ct, Some ct' => same_chain (count_of i (HL2Block id block)) ct ct' | None, None => True | _, _ => False end).
    { apply (on_chain_spec id _ 0 _ t); [|done..]. intros ct. split_and!; try done. by rewrite Z.add_0_r. }
    destruct (Nat.ltb_spec 0 (length (ExtractTransactionHashes block))) as [Hlt|Hge]; (split; [| |exact Hch|done]).
    + apply ingest_rel; [done|]. apply Forall_fmap, Forall_true. intros x. apply H32.
    + cbn. rewrite Hl. unfold u64. rewrite !Zmod_mod, Zplus_mod_idemp_l, Z.add_0_r. done.
    + cbn. assert (E : ExtractTransactionHashes block = []) by (apply nil_length_inv; lia). rewrite E, !app_nil_r. by destruct h.
    + cbn. replace (length (l2_Transactions block)) with 0%nat by lia. apply u64_u64.
Qed.

(** *** Sequences of calls *)

Definition all_ingested cs : list bytes := concat (map (fun p => ingested p.1 p.2) cs).
Definition sum_of (f : @handler_call Tx -> Z) cs : Z := foldr (fun p acc => f p.2 + acc) 0 cs.

Lemma sum_of_cons f now c cs : sum_of f ((now, c) :: cs) = f c + sum_of f cs.
Proof. done. Qed.

Lemma same_chain_trans n m a b d : same_chain n a b -> same_chain m b d -> same_chain (n + m) a d.
Proof.
  intros (H1 & H2 & H3 & H4) (K1 & K2 & K3 & K4). split_and!; [congruence..|]. rewrite K4. unfold u64 in *.
  rewrite <- Zplus_mod_idemp_l, H4, Zplus_mod_idemp_l. f_equal. lia.
Qed.

Lemma handle_all_spec cs t h :
  flow_rel (unifiedFlow t) h -> Forall (fun p => call_ok p.2) cs -> feed_ok t ->
  exists ns t', handle_all decode ls parked walk cs t = Done (ns, t') /\ feed_ok t' /\
    flow_rel (unifiedFlow t') (mkHistory (seen h ++ all_ingested cs) (since h ++ all_ingested cs)) /\
    u64 (totalTxSeen t') = u64 (totalTxSeen t + sum_of total_of cs) /\
    forall id, match chains t !! id, chains t' !! id with Some ct, Some ct' => same_chain (sum_of (count_of id) cs) ct ct' | None, None => True | _, _ => False end.
Proof.
  intros Hr Hc. revert t h Hr. induction Hc as [|[now c] cs Hc Hcs IH]; intros t h Hr Hf.
  - exists [], t. unfold all_ingested. cbn. rewrite !app_nil_r, Z.add_0_r. split_and!; try done; [by destruct h|].
    intros id. destruct (chains t !! id); [apply same_chain_refl|done].
  - destruct (handle_spec now c t h Hr Hc Hf) as (ns & t1 & E & [F1 T1 C1 K1]). destruct (IH t1 _ F1 K1) as (ns2 & t2 & E2 & K2 & F2 & T2 & C2).
    cbn [handle_all]. rewrite E. cbn [outcome_bind]. rewrite E2. cbn [outcome_bind]. do 2 eexists. split; [done|]. split_and!; [done| | |].
    + unfold all_ingested in *. cbn in *. by rewrite !(assoc_L (++)).
    + rewrite T2, (sum_of_cons total_of). unfold u64 in *. rewrite <- Zplus_mod_idemp_l, T1, Zplus_mod_idemp_l. f_equal. lia.
    + intros id. specialize (C1 id). specialize (C2 id). rewrite (sum_of_cons (count_of id)). destruct (chains t !! id), (chains t1 !! id), (chains t2 !! id); try done.
      by eapply same_chain_trans.
Qed.

(** The handlers never fail, and the unified entropy after any sequence of calls on any chains is the digest
    of the exclusive or of everything they add: it does not depend on how the chains interleave. *)
Theorem unified_entropy cs t :
  flow_rel (unifiedFlow t) (mkHistory [] []) -> Forall (fun p => call_ok p.2) cs -> feed_ok t ->
  exists ns t', handle_all decode ls parked walk cs t = Done (ns, t') /\ GetUnifiedEntropy t' = Keccak256 (xor_all (zeros 32) (all_ingested cs)) /\
    forall cs', cs ≡ₚ cs' -> exists ns2 t2, handle_all decode ls parked walk cs' t = Done (ns2, t2) /\ GetUnifiedEntropy t2 = GetUnifiedEntropy t'.
Proof.
  intros Hr Hc Hf. destruct (handle_all_spec cs t _ Hr Hc Hf) as (ns & t' & E & _ & F & _). exists ns, t'. split; [done|].
  assert (G : GetUnifiedEntropy t' = Keccak256 (xor_all (zeros 32) (all_ingested cs))) by (unfold GetUnifiedEntropy, Entropy; by rewrite (rel_pool _ _ F)).
  split; [done|]. intros cs' Hp. destruct (handle_all_spec cs' t _ Hr ltac:(by rewrite <- Hp) Hf) as (ns2 & t2 & E2 & _ & F2 & _).
  exists ns2, t2. split; [done|]. rewrite G. unfold GetUnifiedEntropy, Entropy. rewrite (rel_pool _ _ F2). f_equal. cbn. symmetry. apply xor_all_perm.
  unfold all_ingested. rewrite <- !flat_map_concat_map. by apply Permutation_flat_map.
Qed.

(** The counter of every chain counts the transactions of its handlers, and the total all of them and those
    in blocks of the second layer, modulo the width of the counters; nothing else of a chain changes
    that decides how it is used. *)
Theorem chain_counters cs t h :
  flow_rel (unifiedFlow t) h -> Forall (fun p => call_ok p.2) cs -> feed_ok t ->
  exists ns t', handle_all decode ls parked walk cs t = Done (ns, t') /\ u64 (totalTxSeen t') = u64 (totalTxSeen t + sum_of total_of cs) /\
    forall id ct, chains t !! id = Some ct -> exists ct', chains t' !! id = Some ct' /\ same_chain (sum_of (count_of id) cs) ct ct'.
Proof.
  intros Hr Hc Hf. destruct (handle_all_spec cs t _ Hr Hc Hf) as (ns & t' & E & _ & _ & T & D). exists ns, t'. split_and!; [done..|].
  intros id ct Hid. specialize (D id). rewrite Hid in D. destruct (chains t' !! id) as [ct'|]; [eauto|done].
Qed.

(** The transaction handlers are installed on chains of the first layer only. *)
Definition installed c : Prop := match c with HTxHashes id _ | HTxs id _ => IsOPStackL2 id = false | _ => True end.

Lemma installed_count id cs : IsOPStackL2 id = true -> Forall (fun p => installed p.2) cs -> sum_of (count_of id) cs = 0.
Proof.
  intros Hid. induction 1 as [|[now c] cs Hi _ IH]; [done|]. rewrite sum_of_cons, IH, Z.add_0_r.
  destruct c; cbn in *; try done; destruct (Z.eqb_spec chainID id); congruence.
Qed.

(** The status of a chain of the second layer reports no transactions, however many its blocks contain: they are
    counted in the total only. *)
Theorem l2_transactions_uncounted cs t h id ct peers :
  flow_rel (unifiedFlow t) h -> Forall (fun p => call_ok p.2) cs -> Forall (fun p => installed p.2) cs -> feed_ok t ->
  chains t !! id = Some ct -> IsOPStackL2 id = true -> ct_txCount ct = 0 ->
  exists ns t' st, handle_all decode ls parked walk cs t = Done (ns, t') /\ GetChainStatus peers id t' = Some st /\ u64 (cs_TxCount st) = 0.
Proof.
  intros Hr Hc Hi Hf Hid Hl H0. destruct (handle_all_spec cs t _ Hr Hc Hf) as (ns & t' & E & _ & _ & _ & D). specialize (D id). rewrite Hid in D.
  destruct (chains t' !! id) as [ct'|] eqn:E'; [|done]. rewrite (installed_count id cs Hl Hi) in D. destruct D as (_ & _ & _ & D). rewrite H0 in D.
  exists ns, t'. unfold GetChainStatus. rewrite E'. case_match. eexists. by split_and!.
Qed.

Lemma tracked_insert (now : Z) (hs : list bytes) (m : gmap bytes Z) h : h ∈ hs -> fold_left (fun m h => <[h := now]> m) hs m !! h = Some now.
Proof.
  induction hs as [|x hs IH] using rev_ind; intros Hh; [by apply elem_of_nil in Hh|]. rewrite fold_left_app. cbn.
  destruct (decide (x = h)) as [->|Hn]; [by rewrite lookup_insert_eq|]. rewrite lookup_insert_ne by done. apply IH.
  apply elem_of_app in Hh as [Hh|Hh]; [done|]. apply list_elem_of_singleton in Hh. congruence.
Qed.

(** After an announcement the chain tracks its hashes, and nothing older than five minutes. *)
Theorem tracked_recent now id hs t ct ns t' :
  feed_ok t -> chains t !! id = Some ct -> handle decode ls parked walk now (HTxHashes id hs) t = Done (ns, t') ->
  exists ct', chains t' !! id = Some ct' /\ (forall h, h ∈ hs -> trackedTxs ct' !! h = Some now) /\
    map_Forall (fun _ time => now - track_limit <= time) (trackedTxs ct').
Proof.
  intros Hf Hid. cbn [handle]. unfold createTxHashHandler. cbv zeta.
  match goal with |- context [emitFeed _ _ ?e ?t1] => destruct (emitFeed_ok e t1 Hf) as (t2 & -> & _ & Hb) end. cbn [outcome_bind]. intros [= _ <-].
  rewrite Hb. cbn. rewrite lookup_alter_eq, Hid. cbn. eexists. split; [done|]. cbn. split.
  - intros h Hh. apply map_lookup_filter_Some. split; [|cbn; unfold track_limit, second; lia].
    by apply tracked_insert.
  - intros k time H. by apply map_lookup_filter_Some in H as [_ H].
Qed.
End runs.

(** ** Broadcasting *)

(** A raw transaction for an enabled chain of the second layer panics: there is no check that it has a
    transport. *)
Theorem raw_broadcast_panics {Tx : Type} send id hash (t : @MultiChainTransport Tx) :
  chains_ok (chains t) -> is_Some (chains t !! id) -> IsOPStackL2 id = true ->
  BroadcastRawTxOnChain send id (Ok hash) t = Panic "invalid memory address or nil pointer dereference".
Proof.
  intros Ho [ct Hct] Hl. destruct (Ho _ _ Hct) as (_ & H2 & H3). unfold BroadcastRawTxOnChain. rewrite Hct.
  destruct (ct_Hybrid ct) as [hy|] eqn:Eh; [|done]. assert (ct_IsL2 ct = false) by (apply H3; by eexists). congruence.
Qed.

Lemma primary_spec order acc :
  match primary order acc with
  | Some ct => acc = Some ct \/ (is_l1 ct = true /\ exists id, (id, ct) ∈ order)
  | None => acc = None /\ forall id ct, (id, ct) ∈ order -> is_l1 ct = false
  end.
Proof.
  revert acc. induction order as [|[id ct] order IH]; intros acc; cbn [primary].
  - destruct acc; [by left|]. split; [done|]. intros id ct H. by apply elem_of_nil in H.
  - destruct (is_l1 ct) eqn:El; [destruct (ct_ChainID ct =? 1)|].
    + right. split; [done|]. exists id. by left.
    + specialize (IH (Some ct)). destruct (primary order (Some ct)) as [c|]; [|by destruct IH].
      right. destruct IH as [[= <-]|[H [i Hi]]]; split; try done; [exists id; by left|exists i; by right].
    + specialize (IH acc). destruct (primary order acc) as [c|].
      * destruct IH as [->|[H [i Hi]]]; [by left|]. right. split; [done|]. exists i. by right.
      * destruct IH as [-> H]. split; [done|]. intros i c Hin. apply elem_of_cons in Hin as [[= -> ->]|Hin]; [done|by eapply H].
Qed.

Lemma primary_one order acc ct :
  (1, ct) ∈ order -> is_l1 ct = true -> ct_ChainID ct = 1 -> (forall id c, (id, c) ∈ order -> ct_ChainID c = id) -> NoDup order.*1 -> primary order acc = Some ct.
Proof.
  intros Hin Hl Hc Hid. revert acc. induction order as [|[i c] order IH]; intros acc Hd; [by apply elem_of_nil in Hin|]. cbn [primary].
  cbn in Hd. apply NoDup_cons in Hd as [Hn Hd]. apply elem_of_cons in Hin as [[= <- <-]|Hin]; [by rewrite Hl, Hc|].
  assert (Hi : i <> 1) by (intros ->; apply Hn, list_elem_of_fmap; by exists (1, ct)).
  rewrite (Hid i c) by (by left). rewrite (proj2 (Z.eqb_neq i 1) Hi). destruct (is_l1 c); apply IH; try done; intros j d Hj; apply Hid; by right.
Qed.

(** In whatever order the map of chains is walked, the feed broadcasts on Ethereum if that chain is enabled, on some
    chain of the first layer if there is any, and fails otherwise. *)
Theorem primary_is_ethereum {Tx : Type} (t : @MultiChainTransport Tx) order :
  chains_ok (chains t) -> order ≡ₚ map_to_list (chains t) ->
  (forall ct, chains t !! 1 = Some ct -> primary order None = Some ct) /\
  match primary order None with
  | Some ct => chains t !! ct_ChainID ct = Some ct /\ ct_IsL2 ct = false
  | None => forall id, is_Some (chains t !! id) -> IsOPStackL2 id = true
  end.
Proof.
  intros Ho Hp. assert (Hin : forall id ct, (id, ct) ∈ order <-> chains t !! id = Some ct) by (intros; rewrite Hp; apply elem_of_map_to_list).
  assert (Hl1 : forall id ct, chains t !! id = Some ct -> is_l1 ct = negb (IsOPStackL2 id)).
  { intros id ct H. destruct (Ho _ _ H) as (_ & H2 & H3). unfold is_l1. rewrite <- H2 in *. destruct (ct_IsL2 ct); cbn; [done|].
    destruct (proj2 H3 eq_refl) as [h ->]. done. }
  split.
  - intros ct H. apply primary_one; [by apply Hin|by rewrite (Hl1 _ _ H)|by destruct (Ho _ _ H)|intros id c Hc; apply Hin in Hc; by destruct (Ho _ _ Hc)|].
    rewrite Hp. apply NoDup_fst_map_to_list.
  - pose proof (primary_spec order None) as S. destruct (primary order None) as [ct|].
    + destruct S as [[=]|[Hl [id Hid]]]. apply Hin in Hid. destruct (Ho _ _ Hid) as (-> & H2 & _). split; [done|].
      rewrite (Hl1 _ _ Hid) in Hl. rewrite H2. by destruct (IsOPStackL2 id).
    + destruct S as [_ S]. intros id [ct Hid]. specialize (S id ct (proj2 (Hin _ _) Hid)). rewrite (Hl1 _ _ Hid) in S. by destruct (IsOPStackL2 id).
Qed.

(** ** Fixed offsets *)

(** A payload that is not RLP is read at fixed offsets.  In the order of the fields of the payload (parent hash,
    fee recipient, state root) the number and the time of the block come out of the state root. *)
Theorem block_number_from_state_root snappy rlp chainID parent fee root rest from now :
  length parent = 32%nat -> length fee = 20%nat -> length root = 32%nat -> (16 <= length rest)%nat ->
  let d := parent ++ fee ++ root ++ rest in
  snappy d = None -> rlp d = None -> 0 < le64 (take 8 root) ->
  decodeBlockGossip snappy rlp chainID d from now = Ok (mkL2Block chainID (le64 (take 8 root)) zero32 parent (le64 (take 8 (drop 24 root))) [] now from).
Proof.
  intros Hp Hf Hr Hs d Hsn Hrl Hn. unfold decodeBlockGossip. rewrite Hsn. cbn [default]. change (default d None) with d. rewrite Hrl.
  assert (Hl : (100 <= length d)%nat) by (unfold d; rewrite !length_app; lia).
  rewrite (proj2 (Nat.ltb_ge (length d) 4)) by lia. rewrite (proj2 (Nat.leb_le 100 (length d)) Hl).
  assert (H52 : drop 52 d = root ++ rest) by (unfold d; rewrite (assoc_L (++)); apply drop_app_length'; rewrite length_app; lia).
  assert (H76 : drop 76 d = drop 24 root ++ rest) by (change 76%nat with (52 + 24)%nat; rewrite <- drop_drop, H52; apply drop_app_le; lia).
  rewrite H52, H76, !take_app_le by (rewrite ?length_drop; lia). rewrite (proj2 (Z.ltb_lt _ _) Hn). cbn [andb]. do 2 f_equal.
  unfold d. by apply take_app_length'.
Qed.

(** ** Starting and stopping *)

(** The transport of the chain, if any, can still be stopped. *)
Definition stoppable (ct : ChainTransport) : Prop := match ct_Hybrid ct with Some h => h_stopCh_open h = true | None => True end.

(** Another state of its transport leaves the chain well-formed. *)
Lemma set_hybrid_ok id ct h h' :
  chain_ok id ct -> ct_Hybrid ct = Some h ->
  chain_ok id (mkChain (ct_ChainID ct) (ct_Name ct) (ct_Config ct) (Some h') (ct_IsL2 ct) (CurrentBlock ct) (LastBlockTime ct) (PeerCount ct)
                 (trackedTxs ct) (ct_txCount ct) (swapCount ct) (blockCount ct)).
Proof. intros (H1 & H2 & H3) Hh. split; [done|]. split; [done|]. cbn. rewrite <- H3, Hh. by split; eexists. Qed.

Lemma start_chain_ok env id ct : chain_ok id ct -> stoppable ct -> chain_ok id (start_chain env id ct) /\ stoppable (start_chain env id ct).
Proof.
  intros Ho Hs. unfold start_chain. destruct (ct_IsL2 ct) eqn:El; [done|]. destruct (ct_Hybrid ct) as [h|] eqn:Eh; [|done].
  unfold stoppable in Hs. rewrite Eh in Hs. rewrite <- El. unfold hybrid_Start.
  destruct (if ownsLibP2P h then _ else _); [destruct (se_hybrid env id).2|]; (split; [by eapply set_hybrid_ok|done]).
Qed.

Lemma stop_chain_ok id ct : chain_ok id ct -> stoppable ct -> exists ct', stop_chain ct = Done ct' /\ chain_ok id ct'.
Proof.
  intros Ho Hs. unfold stop_chain, stoppable in *. destruct (ct_Hybrid ct) as [h|] eqn:Eh; [|eauto].
  unfold hybrid_Stop. rewrite Hs. destruct (h_running h); cbn; (eexists; split; [done|by eapply set_hybrid_ok]).
Qed.

Lemma stop_chains_ok order m :
  (forall id ct, (id, ct) ∈ order -> chain_ok id ct /\ stoppable ct) -> chains_ok m -> exists m', stop_chains order m = Done m' /\ chains_ok m'.
Proof.
  revert m. induction order as [|[id ct] order IH]; intros m Ho Hm; [by exists m|]. cbn [stop_chains].
  destruct (Ho id ct) as [H1 H2]; [by left|]. destruct (stop_chain_ok id ct H1 H2) as (ct' & -> & Hc). cbn [outcome_bind].
  apply IH; [intros i c Hin; apply Ho; by right|]. by apply map_Forall_insert_2.
Qed.

Lemma no_nil_transport m : chains_ok m -> existsb (fun p => lacks_transport p.2) (map_to_list m) = false.
Proof.
  intros Hm. apply existsb_nat_false. intros [id ct] Hin. apply elem_of_map_to_list in Hin. destruct (Hm _ _ Hin) as (_ & _ & H3).
  unfold lacks_transport. cbn. destruct (ct_IsL2 ct); [done|]. by destruct (proj2 H3 eq_refl) as [h ->].
Qed.

(** The next start succeeds when the gossip does. *)
Lemma multi_Start_ok {Tx} env (t : @MultiChainTransport Tx) :
  chains_ok (chains t) -> m_running t = false -> se_gossip env = Ok tt ->
  exists t', multi_Start env (map_to_list (chains t)) t = Done (Ok tt, t') /\ m_running t' = true /\ m_stopCh_open t' = m_stopCh_open t /\
    chains t' = map_imap (fun id ct => Some (start_chain env id ct)) (chains t).
Proof.
  intros Ho Hr Hg. unfold multi_Start. rewrite Hr. destruct (opNodeGossip t); rewrite ?Hg, (no_nil_transport _ Ho); eexists; by split_and!.
Qed.

(** A transport can be started and stopped once.  Started and stopped again it closes its stop channel, which only
    the constructor makes, a second time. *)
Theorem multichain_restart_panics {Tx} env (t : @MultiChainTransport Tx) :
  chains_ok (chains t) -> map_Forall (fun _ ct => stoppable ct) (chains t) -> m_running t = false -> m_stopCh_open t = true -> se_gossip env = Ok tt ->
  exists t1 t2 t3, multi_Start env (map_to_list (chains t)) t = Done (Ok tt, t1) /\ multi_Stop (map_to_list (chains t1)) t1 = Done t2 /\
    multi_Start env (map_to_list (chains t2)) t2 = Done (Ok tt, t3) /\ forall order, multi_Stop order t3 = Panic "close of closed channel".
Proof.
  intros Ho Hs Hr Hop Hg. destruct (multi_Start_ok env t Ho Hr Hg) as (t1 & E1 & R1 & S1 & C1).
  assert (Ho1 : forall id ct, chains t1 !! id = Some ct -> chain_ok id ct /\ stoppable ct).
  { intros id ct. rewrite C1, map_lookup_imap. destruct (chains t !! id) as [c|] eqn:E; [|done]. intros [= <-]. apply start_chain_ok; [by apply Ho|by apply (Hs id)]. }
  destruct (stop_chains_ok (map_to_list (chains t1)) (chains t1)) as (m & E2 & Ho2).
  { intros id ct Hin. by apply Ho1, elem_of_map_to_list. }
  { intros id ct Hin. by apply Ho1. }
  assert (E2' : multi_Stop (map_to_list (chains t1)) t1 = Done (mkMulti m (opNodeGossip t1) (unifiedFlow t1) (totalTxSeen t1) (totalPeerSeen t1) (totalL2Blocks t1)
    (feed t1) false false (statsLogCount t1))) by (unfold multi_Stop; by rewrite R1, S1, Hop, E2).
  destruct (multi_Start_ok env (mkMulti m (opNodeGossip t1) (unifiedFlow t1) (totalTxSeen t1) (totalPeerSeen t1) (totalL2Blocks t1)
    (feed t1) false false (statsLogCount t1)) Ho2 eq_refl Hg) as (t3 & E3 & R3 & S3 & _).
  exists t1. eexists. exists t3. split_and!; [done|exact E2'|exact E3|]. intros order. unfold multi_Stop. by rewrite R3, S3.
Qed.

(** ** Examples: Ethereum and Base *)

Definition toy_env : BuildEnv := {| be_key := true; be_lib := Ok tt; be_lib_start := Ok tt; be_dev := fun _ => Ok tt; be_gossip := Ok tt |}.

Definition toy_multi : @MultiChainTransport unit :=
  match (NewMultiChainTransport map_to_list toy_env [1; 8453] 0).2 with
  | Ok t => t
  | Err _ => mkMulti ∅ None (NewMempoolFlow 0 0) 0 0 0 None false true 0
  end.

Definition toy_block (n : Z) : L2BlockGossip := mkL2Block 8453 n zero32 zero32 n [bs "a"; bs "b"] n "peer".
Definition toy_calls : list (Z * @handler_call unit) :=
  [(1, HTxHashes 1 [toy_hash 1; toy_hash 2]); (2, HL2Block 8453 (toy_block 5)); (3, HPeerConnect 1 "p"); (4, HTxs 1 [tt]); (5, HForeign 1 "q" 137)].
Definition toy_listeners : Listeners := {| on_tx := true; on_parsed := false; on_peer := true; on_l2block := false; on_advance := true |}.
Definition toy_start : StartEnv := {| se_gossip := Ok tt; se_price := (true, true); se_joins := fun _ _ => true; se_hybrid := fun _ => (Ok tt, Ok tt) |}.

Lemma toy_multi_ok : chains_ok (chains toy_multi).
Proof.
  intros id ct H. vm_compute chains in H. destruct (decide (id = 1)) as [->|H1]; [|destruct (decide (id = 8453)) as [->|H2]].
  - vm_compute in H. injection H as <-. split; [done|]. split; [done|]. by split; [|eexists].
  - vm_compute in H. injection H as <-. split; [done|]. split; [done|]. by split; [intros []|].
  - exfalso. assert (E : chains toy_multi = <[8453 := default ct (chains toy_multi !! 8453)]> (<[1 := default ct (chains toy_multi !! 1)]> ∅)) by (vm_compute; reflexivity).
    change (chains toy_multi !! id = Some ct) in H. rewrite E, !lookup_insert_ne, lookup_empty in H by done. done.
Qed.

Lemma multichain_restart_panics_witness :
  exists t1 t2 t3, multi_Start toy_start (map_to_list (chains toy_multi)) toy_multi = Done (Ok tt, t1) /\ multi_Stop (map_to_list (chains t1)) t1 = Done t2 /\
    multi_Start toy_start (map_to_list (chains t2)) t2 = Done (Ok tt, t3) /\ forall order, multi_Stop order t3 = Panic "close of closed channel".
Proof.
  apply (multichain_restart_panics toy_start toy_multi toy_multi_ok); [|reflexivity..].
  apply map_Forall_to_list. vm_compute. repeat constructor.
Defined.

Lemma unified_entropy_witness :
  exists ns t', handle_all (C := Toy.crypto) (fun _ => None) toy_listeners (fun _ => false) toy_walk toy_calls toy_multi = Done (ns, t') /\
    GetUnifiedEntropy (C := Toy.crypto) t' = Keccak256 (Crypto := Toy.crypto) (xor_all (zeros 32) (all_ingested (C := Toy.crypto) toy_calls)).
Proof.
  destruct (unified_entropy (C := Toy.crypto) (fun _ => None) toy_listeners (fun _ => false) toy_walk (fun f => reflexivity _) toy_calls toy_multi) as (ns & t' & E & G & _).
  - apply new_flow_rel.
  - repeat constructor.
  - exact I.
  - exists ns, t'. split; [exact E|exact G].
Defined.

Lemma primary_is_ethereum_witness : ct_ChainID <$> primary (map_to_list (chains toy_multi)) None = Some 1.
Proof.
  destruct (primary_is_ethereum toy_multi (map_to_list (chains toy_multi)) toy_multi_ok (reflexivity _)) as [H _].
  destruct (chains toy_multi !! 1) as [ct|] eqn:E; [|vm_compute in E; discriminate].
  rewrite (H ct eq_refl). vm_compute in E. injection E as <-. reflexivity.
Defined.
