(* ===== verification/Patterns.v ===== *)
(** * Patterns in the flow ([node/flow_pattern.go])

    Contents: the detector that keeps the times of transactions and of peer events in a sliding window and
    turns them into four measures.  The clock of a call is an argument; Go's clock does not run
    backwards.

    The theorems: the window holds exactly the events of the last five seconds, whatever was
    recorded in between, and the history of rates has at most a hundred entries
    ([window_exact]); each measure that is a number lies between zero and one
    ([dynamics_in_range]). *)

From Stdlib Require Import String SpecFloat.
From S2P Require Import Prelude Float64 River.

Record FlowDynamics := mkDynamics { Pressure : float64; Tension : float64; Rhythm : float64; Coherence : float64; MeasuredAt : Z }.

(** [ToPressureContext]: the measures under the names of the gates, in the order Hadamard, Pauli X, Pauli Z, phase. *)
Definition ToPressureContext (d : FlowDynamics) : float64 * float64 * float64 * float64 := (Pressure d, Coherence d, Tension d, Rhythm d).

Record FlowPatternDetector := mkDetector {
  txTimes : list Z; peerEvents : list Z; windowSize : Z; sampleCount : Z; maxSamples : Z; lastTxRate : float64; txRateHistory : list float64;
  connectCount : Z; dropCount : Z; peerHistory : list Z; current : FlowDynamics;
}.

Definition NewFlowPatternDetector : FlowPatternDetector :=
  mkDetector [] [] (5 * 10 ^ 9) 0 100 f0 [] 0 0 [] (mkDynamics f0 f0 f0 f0 0).

Definition flowNormalize (val lo hi : float64) : float64 :=
  if fleb hi lo then f0
  else let n := fdiv (fsub val lo) (fsub hi lo) in
       if fltb n f0 then f0 else if fltb f1 n then f1 else n.

Definition flowVariance (vals : list float64) : float64 :=
  if (length vals <? 2)%nat then f0
  else
    let sum := fold_left fadd vals f0 in
    let sumSq := fold_left (fun a v => fadd a (fmul v v)) vals f0 in
    let n := f_of_Z (Z.of_nat (length vals)) in
    let mean := fdiv sum n in
    fsub (fdiv sumSq n) (fmul mean mean).

(** The times after the cutoff. *)
Definition recent (now window : Z) (ts : list Z) : list Z := List.filter (fun t => now - window <? t) ts.

Arguments recent : simpl never.

Definition trimOldEvents (now : Z) (d : FlowPatternDetector) : FlowPatternDetector :=
  mkDetector (recent now (windowSize d) (txTimes d)) (recent now (windowSize d) (peerEvents d)) (windowSize d) (sampleCount d) (maxSamples d)
    (lastTxRate d) (txRateHistory d) (connectCount d) (dropCount d) (peerHistory d) (current d).

Fixpoint intervals (ts : list Z) : list float64 :=
  match ts with t :: ((u :: _) as rest) => Seconds (u - t) :: intervals rest | _ => [] end.

Definition updateDynamics (now : Z) (d : FlowPatternDetector) : FlowPatternDetector :=
  let windowSecs := Seconds (windowSize d) in
  let txRate := fdiv (f_of_Z (Z.of_nat (length (txTimes d)))) windowSecs in
  let peerRate := fdiv (f_of_Z (Z.of_nat (length (peerEvents d)))) windowSecs in
  let combinedRate := fadd txRate (fmul peerRate (f_of_Z 50)) in
  let history1 := txRateHistory d ++ [combinedRate] in
  let history := if maxSamples d <? Z.of_nat (length history1) then drop 1 history1 else history1 in
  let tension := flowNormalize (fadd (flowVariance history) (fmul peerRate (f_of_Z 20))) f0 (f_of_Z 50) in
  let rhythm := if (1 <? length (txTimes d))%nat then flowNormalize (flowVariance (intervals (txTimes d))) f0 f1 else Rhythm (current d) in
  let coherence1 := fsub f1 tension in
  let coherence := if fltb coherence1 f0 then f0 else coherence1 in
  mkDetector (txTimes d) (peerEvents d) (windowSize d) (sampleCount d) (maxSamples d) txRate history (connectCount d) (dropCount d) (peerHistory d)
    (mkDynamics (flowNormalize combinedRate f0 (f_of_Z 100)) tension rhythm coherence now).

Definition refresh (now : Z) (d : FlowPatternDetector) : FlowPatternDetector := updateDynamics now (trimOldEvents now d).

Definition RecordTxBatch (now count : Z) (d : FlowPatternDetector) : FlowPatternDetector :=
  refresh now (mkDetector (txTimes d ++ replicate (Z.to_nat count) now) (peerEvents d) (windowSize d) (sampleCount d) (maxSamples d) (lastTxRate d)
    (txRateHistory d) (connectCount d) (dropCount d) (peerHistory d) (current d)).

Definition RecordPeerConnect (now : Z) (d : FlowPatternDetector) : FlowPatternDetector :=
  refresh now (mkDetector (txTimes d) (peerEvents d ++ [now]) (windowSize d) (sampleCount d) (maxSamples d) (lastTxRate d)
    (txRateHistory d) (i64 (connectCount d + 1)) (dropCount d) (peerHistory d) (current d)).

Definition RecordPeerDrop (now : Z) (d : FlowPatternDetector) : FlowPatternDetector :=
  refresh now (mkDetector (txTimes d) (peerEvents d ++ [now]) (windowSize d) (sampleCount d) (maxSamples d) (lastTxRate d)
    (txRateHistory d) (connectCount d) (i64 (dropCount d + 1)) (peerHistory d) (current d)).

Definition Dynamics (d : FlowPatternDetector) : FlowDynamics := current d.

(** ** Sequences of events *)

Inductive pattern_op := PTx (count : Z) | PConnect | PDrop.

Definition pattern_apply (d : FlowPatternDetector) (x : Z * pattern_op) : FlowPatternDetector :=
  match x with (now, PTx n) => RecordTxBatch now n d | (now, PConnect) => RecordPeerConnect now d | (now, PDrop) => RecordPeerDrop now d end.

Definition tx_times (x : Z * pattern_op) : list Z := match x with (now, PTx n) => replicate (Z.to_nat n) now | _ => [] end.
Definition peer_times (x : Z * pattern_op) : list Z := match x with (now, PTx _) => [] | (now, _) => [now] end.

(** The clock does not run backwards. *)
Fixpoint clocked (last : Z) (xs : list (Z * pattern_op)) : Prop := match xs with [] => True | x :: xs => last <= x.1 /\ clocked x.1 xs end.

Lemma recent_recent now now' w ts : now <= now' -> recent now' w (recent now w ts) = recent now' w ts.
Proof.
  intros H. unfold recent. induction ts as [|t ts IH]; [done|]. cbn. destruct (Z.ltb_spec (now - w) t) as [H1|H1]; cbn; rewrite IH; [done|].
  by rewrite (proj2 (Z.ltb_ge (now' - w) t)) by lia.
Qed.

Lemma recent_app now w a b : recent now w (a ++ b) = recent now w a ++ recent now w b.
Proof. apply List.filter_app. Qed.

(** The state after events whose times are [txs] and [peers], at time [now]. *)
Record window_rel (d : FlowPatternDetector) (now : Z) (txs peers : list Z) : Prop := {
  w_size : windowSize d = 5 * 10 ^ 9;
  w_max : maxSamples d = 100;
  w_tx : txTimes d = recent now (5 * 10 ^ 9) txs;
  w_peer : peerEvents d = recent now (5 * 10 ^ 9) peers;
  w_hist : (length (txRateHistory d) <= 100)%nat;
}.

Lemma refresh_rel d now0 now txs peers a b rest :
  window_rel d now0 txs peers -> now0 <= now ->
  window_rel (refresh now (mkDetector (txTimes d ++ a) (peerEvents d ++ b) (windowSize d) (sampleCount d) (maxSamples d) (lastTxRate d)
    (txRateHistory d) (rest.1.1) (rest.1.2) (peerHistory d) rest.2)) now (txs ++ a) (peers ++ b).
Proof.
  intros [H1 H2 H3 H4 H5] Hn. split; cbn [refresh updateDynamics trimOldEvents windowSize maxSamples txTimes peerEvents txRateHistory]; try done.
  - by rewrite H1, H3, !recent_app, (recent_recent now0 now).
  - by rewrite H1, H4, !recent_app, (recent_recent now0 now).
  - rewrite H2. rewrite length_app. cbn [length]. destruct (Z.ltb_spec 100 (Z.of_nat (length (txRateHistory d) + 1)));
      rewrite ?length_skipn, ?length_app; cbn [length]; lia.
Qed.

Lemma pattern_apply_rel d now0 txs peers x :
  window_rel d now0 txs peers -> now0 <= x.1 -> window_rel (pattern_apply d x) x.1 (txs ++ tx_times x) (peers ++ peer_times x).
Proof.
  intros H Hn. destruct x as [now [n| |]]; cbn [pattern_apply tx_times peer_times fst] in *.
  - pose proof (refresh_rel d now0 now txs peers (replicate (Z.to_nat n) now) [] (connectCount d, dropCount d, current d) H Hn) as K. rewrite ?app_nil_r in K. rewrite ?app_nil_r. exact K.
  - pose proof (refresh_rel d now0 now txs peers [] [now] (i64 (connectCount d + 1), dropCount d, current d) H Hn) as K. rewrite ?app_nil_r in K. rewrite ?app_nil_r. exact K.
  - pose proof (refresh_rel d now0 now txs peers [] [now] (connectCount d, i64 (dropCount d + 1), current d) H Hn) as K. rewrite ?app_nil_r in K. rewrite ?app_nil_r. exact K.
Qed.

Lemma pattern_run_rel xs d now0 txs peers :
  window_rel d now0 txs peers -> clocked now0 xs ->
  window_rel (fold_left pattern_apply xs d) (default now0 (fst <$> last xs)) (txs ++ concat (map tx_times xs)) (peers ++ concat (map peer_times xs)).
Proof.
  revert d now0 txs peers. induction xs as [|x xs IH]; intros d now0 txs peers H Hc.
  - cbn. by rewrite !app_nil_r.
  - destruct Hc as [Hn Hc]. cbn [fold_left map concat]. specialize (IH _ _ _ _ (pattern_apply_rel d now0 txs peers x H Hn) Hc).
    rewrite <- !(assoc_L (++)) in IH. replace (default now0 (fst <$> last (x :: xs))) with (default x.1 (fst <$> last xs)); [done|].
    destruct xs as [|y xs]; [done|]. rewrite last_cons_cons. destruct (last (y :: xs)) eqn:E; [done|]. by apply last_None in E.
Qed.

(** After any events in the order of the clock, the detector holds exactly the times of the transactions and peer
    events of the five seconds before the last one, and at most a hundred rates. *)
Theorem window_exact t0 xs now :
  clocked t0 xs -> fst <$> last xs = Some now ->
  let d := fold_left pattern_apply xs NewFlowPatternDetector in
  txTimes d = List.filter (fun t => now - 5 * 10 ^ 9 <? t) (concat (map tx_times xs)) /\
  peerEvents d = List.filter (fun t => now - 5 * 10 ^ 9 <? t) (concat (map peer_times xs)) /\ (length (txRateHistory d) <= 100)%nat.
Proof.
  intros Hc Hl d. assert (H0 : window_rel NewFlowPatternDetector t0 [] []) by (split; cbn; done || lia).
  pose proof (pattern_run_rel xs _ _ _ _ H0 Hc) as [_ _ H1 H2 H3]. rewrite Hl in H1, H2. by split_and!.
Qed.

(** ** Ranges *)

(** Not a number, or between zero and one. *)
Definition unit_or_nan (f : float64) : Prop := is_nan f = true \/ (fleb f0 f = true /\ fleb f f1 = true).

Lemma SFcompare_swap f g : SFcompare g f = option_map CompOpp (SFcompare f g).
Proof.
  destruct f as [[]|[]| |[] m e], g as [[]|[]| |[] m' e']; try done; cbn; rewrite (Z.compare_antisym e e');
    destruct (Z.compare e e'); cbn; try done; change (Pos.compare_cont Eq) with Pos.compare; by rewrite (Pos.compare_antisym m m').
Qed.

Lemma SFcompare_nan f g : SFcompare f g = None -> is_nan f = true \/ is_nan g = true.
Proof. destruct f as [[]|[]| |[] m e], g as [[]|[]| |[] m' e']; cbn; try done; auto. Qed.

Lemma fltb_fleb f g : is_nan f = false -> is_nan g = false -> fltb f g = false -> fleb g f = true.
Proof.
  intros Hf Hg. unfold fltb, fleb, SFltb, SFleb. rewrite (SFcompare_swap f g). destruct (SFcompare f g) as [c|] eqn:E; [by destruct c|].
  apply SFcompare_nan in E as [|]; congruence.
Qed.

Lemma normalize_range v lo hi : unit_or_nan (flowNormalize v lo hi).
Proof.
  unfold flowNormalize. destruct (fleb hi lo); [by right|]. cbv zeta. generalize (fdiv (fsub v lo) (fsub hi lo)). intros n.
  destruct (fltb n f0) eqn:E0; [by right|]. destruct (fltb f1 n) eqn:E1; [by right|].
  destruct (is_nan n) eqn:En; [by left|]. right. split; by apply fltb_fleb.
Qed.

(** The measures that the last event left behind. *)
Definition measures_ok (d : FlowDynamics) : Prop :=
  unit_or_nan (Pressure d) /\ unit_or_nan (Tension d) /\ unit_or_nan (Rhythm d) /\ fltb (Coherence d) f0 = false.

Lemma refresh_measures now d : measures_ok (current d) -> measures_ok (current (refresh now d)).
Proof.
  intros (H1 & H2 & H3 & H4). unfold refresh, updateDynamics. cbn [current]. split; [apply normalize_range|]. split; [apply normalize_range|]. split.
  - cbn [Rhythm]. case_match; [apply normalize_range|done].
  - cbn [Coherence]. case_match; done.
Qed.

(** Whatever is recorded, pressure, tension and rhythm are numbers between zero and one, or not numbers, and the
    coherence is not negative. *)
Theorem dynamics_in_range xs : measures_ok (Dynamics (fold_left pattern_apply xs NewFlowPatternDetector)).
Proof.
  unfold Dynamics. assert (H0 : measures_ok (current NewFlowPatternDetector)) by (split_and!; [by right..|done]).
  revert H0. generalize NewFlowPatternDetector. induction xs as [|[now [n| |]] xs IH]; intros d H; [done|..]; cbn [fold_left]; apply IH; by apply refresh_measures.
Qed.
