(* ===== verification/Ordering.v ===== *)
(** * Orders on floats and strings

    Shared lemmas: on floats that are numbers [<] is a total order up to [==], as a lexicographic order on
    integer keys; Go's order of strings is a total order, so [sort.Strings] depends only on the multiset
    of its input ([sort_bytes_perm]); sorting by a comparison that is an order on the elements at hand
    gives a sorted list ([sort_by_sorted_on]); the exchange sort written out in the source does too
    ([exchange_sorted], [exchange_perm]). *)

From Stdlib Require Import SpecFloat.
From stdpp Require Import sorting.
From S2P Require Import Prelude Float64 Patterns.

(** ** Floats *)

(** Compared lexicographically, the keys of two numbers are in the order of the numbers. *)
Definition fkey (f : float64) : Z * Z * Z :=
  match f with
  | S754_zero _ => (0, 0, 0)
  | S754_infinity s => (if s then -2 else 2, 0, 0)
  | S754_nan => (3, 0, 0)
  | S754_finite s m e => if s then (-1, - e, - Zpos m) else (1, e, Zpos m)
  end.

Definition key_lt (a b : Z * Z * Z) : Prop :=
  a.1.1 < b.1.1 \/ (a.1.1 = b.1.1 /\ (a.1.2 < b.1.2 \/ (a.1.2 = b.1.2 /\ a.2 < b.2))).

Lemma fltb_key f g : is_nan f = false -> is_nan g = false -> fltb f g = true <-> key_lt (fkey f) (fkey g).
Proof.
  intros Hf Hg. unfold fltb, SFltb, key_lt. destruct f as [[]|[]| |[] m e], g as [[]|[]| |[] m' e']; try done; cbn [SFcompare fkey fst snd];
    try (split; [done|lia]); try (split; [lia|done]);
    change (Pos.compare_cont Eq m m') with (Pos.compare m m');
    destruct (Z.compare_spec e e'); try destruct (Pos.compare_spec m m'); cbn [CompOpp]; split; intros; try done; lia.
Qed.

Lemma fltb_asym f g : fltb f g = true -> fltb g f = false.
Proof.
  unfold fltb, SFltb. rewrite (SFcompare_swap f g). by destruct (SFcompare f g) as [[]|].
Qed.

Lemma fltb_irrefl f : fltb f f = false.
Proof. destruct (fltb f f) eqn:E; [|done]. by rewrite (fltb_asym f f E) in E. Qed.

(** Not less is transitive on numbers. *)
Lemma fltb_ntrans f g h :
  is_nan f = false -> is_nan g = false -> is_nan h = false -> fltb g f = false -> fltb h g = false -> fltb h f = false.
Proof.
  intros Hf Hg Hh. rewrite <- !not_true_iff_false, !fltb_key by done. unfold key_lt. lia.
Qed.

Lemma fltb_number f g : fltb f g = true -> is_nan f = false /\ is_nan g = false.
Proof. destruct f as [[]|[]| |[] m e], g as [[]|[]| |[] m' e']; done. Qed.

(** ** Strings *)

Fixpoint bytes_ltb (a b : bytes) : bool :=
  match a, b with
  | _, [] => false
  | [], _ :: _ => true
  | x :: a, y :: b => (byteZ x <? byteZ y) || (bytes_eqb [x] [y] && bytes_ltb a b)
  end.

Lemma bytes_ltb_cons x a y b : bytes_ltb (x :: a) (y :: b) = true <-> byteZ x < byteZ y \/ (x = y /\ bytes_ltb a b = true).
Proof.
  cbn. rewrite orb_true_iff, andb_true_iff, bytes_eqb_true, Z.ltb_lt. split; intros [?|[? ?]]; auto; right; split; congruence.
Qed.

Lemma bytes_ltb_asym a b : bytes_ltb a b = true -> bytes_ltb b a = false.
Proof.
  rewrite <- not_true_iff_false. revert b. induction a as [|x a IH]; intros [|y b]; try done.
  rewrite !bytes_ltb_cons. intros [H|[-> H]] [H'|[? H']]; subst; try lia. by apply (IH b).
Qed.

Lemma bytes_ltb_ntrans a b c : bytes_ltb b a = false -> bytes_ltb c b = false -> bytes_ltb c a = false.
Proof.
  rewrite <- !not_true_iff_false. revert b c. induction a as [|x a IH]; intros [|y b] [|z c]; try done; try (intros H; by destruct H).
  rewrite !bytes_ltb_cons. intros H1 H2 [H|[-> H]].
  - destruct (Z.lt_total (byteZ y) (byteZ x)) as [?|[E|?]]; [by destruct H1; left| |].
    + apply byteZ_inj in E as ->. destruct H2. by left.
    + destruct H2. left. lia.
  - destruct (Z.lt_total (byteZ y) (byteZ x)) as [?|[E|?]]; [by destruct H1; left| |].
    + apply byteZ_inj in E as ->. apply (IH b c); [intros ?; apply H1; by right|intros ?; apply H2; by right|done].
    + destruct H2. by left.
Qed.

Lemma bytes_ltb_antisym a b : bytes_ltb a b = false -> bytes_ltb b a = false -> a = b.
Proof.
  rewrite <- !not_true_iff_false. revert b. induction a as [|x a IH]; intros [|y b]; try done; try (intros H1 H2; by destruct H1 || destruct H2).
  rewrite !bytes_ltb_cons. intros H1 H2. destruct (Z.lt_total (byteZ x) (byteZ y)) as [?|[E|?]]; [by destruct H1; left| |by destruct H2; left].
  apply byteZ_inj in E as ->. f_equal. apply IH; intros ?; [apply H1|apply H2]; by right.
Qed.

#[export] Instance bytes_order_antisym : AntiSymm (=) (fun x y => bytes_ltb y x = false).
Proof. intros x y H1 H2. by apply bytes_ltb_antisym. Qed.

(** [sort.Strings]. *)
Definition sort_Strings (l : list bytes) : list bytes := sort_by bytes_ltb l.

Lemma sort_bytes_perm l l' : l ≡ₚ l' -> sort_Strings l = sort_Strings l'.
Proof.
  intros H. unfold sort_Strings. apply (StronglySorted_unique (fun x y => bytes_ltb y x = false)).
  - apply sort_by_sorted; [exact bytes_ltb_asym|exact bytes_ltb_ntrans].
  - apply sort_by_sorted; [exact bytes_ltb_asym|exact bytes_ltb_ntrans].
  - by rewrite !sort_by_perm.
Qed.

(** ** Sorting when the comparison is an order on the elements at hand *)

Section sorting_on.
Context {A : Type} (P : A -> Prop) (less : A -> A -> bool).
Context (Hasym : forall x y, less x y = true -> less y x = false).
Context (Htrans : forall x y z, P x -> P y -> P z -> less y x = false -> less z y = false -> less z x = false).

Lemma sort_by_sorted_on l : Forall P l -> StronglySorted (fun x y => less y x = false) (sort_by less l).
Proof using Hasym Htrans.
  intros H. induction H as [|x l Hx Hl IH]; [constructor|]. cbn [sort_by foldr]. fold (sort_by less l).
  assert (Hs : Forall P (sort_by less l)) by (by rewrite sort_by_perm). revert Hs. induction IH as [|y m Hm IH' Hall]; intros Hs; [by repeat constructor|].
  apply Forall_cons in Hs as [Hy Hs]. cbn [insert_by]. destruct (less y x) eqn:E.
  - constructor; [by apply IH'|]. rewrite insert_by_perm. apply Forall_cons. split; [by apply Hasym|done].
  - constructor; [by constructor|]. apply Forall_cons. split; [done|]. rewrite Forall_forall in Hall, Hs |- *.
    intros z Hz. apply (Htrans x y z); auto.
Qed.

(** ** The exchange sort

    [for i { for j := i+1; ... { if less(l[j], l[i]) { swap } } }]: the inner loop carries the least element
    so far to position [i] and leaves what it replaced where it stood. *)
Fixpoint exchange_pass (x : A) (l : list A) : A * list A :=
  match l with
  | [] => (x, [])
  | y :: t => if less y x then let r := exchange_pass y t in (r.1, x :: r.2) else let r := exchange_pass x t in (r.1, y :: r.2)
  end.

Fixpoint exchange_sort_fuel (fuel : nat) (l : list A) : list A :=
  match fuel, l with
  | S n, x :: t => let r := exchange_pass x t in r.1 :: exchange_sort_fuel n r.2
  | _, _ => l
  end.

Definition exchange_sort (l : list A) : list A := exchange_sort_fuel (length l) l.

Lemma exchange_pass_perm x l : (exchange_pass x l).1 :: (exchange_pass x l).2 ≡ₚ x :: l.
Proof using Type.
  revert x. induction l as [|y l IH]; intros x; [done|]. cbn. destruct (less y x); cbn; rewrite (Permutation_swap _ (exchange_pass _ l).1), IH; [done|apply Permutation_swap].
Qed.

Lemma exchange_pass_length x l : length (exchange_pass x l).2 = length l.
Proof using Type. revert x. induction l as [|y l IH]; intros x; [done|]. cbn. destruct (less y x); cbn; by rewrite IH. Qed.

Lemma exchange_fuel_perm n l : exchange_sort_fuel n l ≡ₚ l.
Proof using Type.
  revert l. induction n as [|n IH]; intros [|x l]; try done. cbn. rewrite IH. apply exchange_pass_perm.
Qed.

Lemma exchange_perm l : exchange_sort l ≡ₚ l.
Proof using Type. apply exchange_fuel_perm. Qed.

(** The carried element is not above the start nor above anything it passed. *)
Lemma exchange_pass_least x l : P x -> Forall P l ->
  less x (exchange_pass x l).1 = false /\ Forall (fun y => less y (exchange_pass x l).1 = false) (exchange_pass x l).2.
Proof using Hasym Htrans.
  intros Hx Hl. revert x Hx. assert (Hirr : forall x, less x x = false).
  { intros x. destruct (less x x) eqn:E; [|done]. by rewrite (Hasym x x E) in E. }
  induction Hl as [|y l Hy Hl IH]; intros x Hx; [by split; [apply Hirr|constructor]|]. cbn.
  assert (HP : forall z, P z -> P (exchange_pass z l).1).
  { intros z Hz. pose proof (exchange_pass_perm z l) as Hp. assert (H : Forall P ((exchange_pass z l).1 :: (exchange_pass z l).2)); [|by inversion H].
    rewrite Hp. by constructor. }
  destruct (less y x) eqn:E; cbn.
  - destruct (IH y Hy) as [H1 H2]. assert (less x (exchange_pass y l).1 = false); [|by split; [|constructor]].
    apply (Htrans _ y); auto.
  - destruct (IH x Hx) as [H1 H2]. split; [done|]. constructor; [|done]. apply (Htrans _ x); auto.
Qed.

Lemma exchange_sorted l : Forall P l -> StronglySorted (fun x y => less y x = false) (exchange_sort l).
Proof using Hasym Htrans.
  unfold exchange_sort. generalize (le_n (length l)). generalize (length l) at 2 3. intros n. revert l.
  induction n as [|n IH]; intros [|x l] Hn Hl; cbn [exchange_sort_fuel]; try constructor; cbn in Hn; try lia.
  - apply Forall_cons in Hl as [Hx Hl]. apply IH; [rewrite exchange_pass_length; lia|].
    pose proof (exchange_pass_perm x l) as Hp. assert (H : Forall P ((exchange_pass x l).1 :: (exchange_pass x l).2)); [|by inversion H].
    rewrite Hp. by constructor.
  - apply Forall_cons in Hl as [Hx Hl]. rewrite exchange_fuel_perm. by apply exchange_pass_least.
Qed.
End sorting_on.
