(* ===== verification/Pathways.v ===== *)
(** * Pathways between concepts ([memory/pathways.go])

    Contents: the memory of weighted pathways between words, keyed by the hashes of both ends, with the
    index of the pathways that leave a hash.  Pathways leave the memory only as copies, so they are
    values here.  [math.Pow] is a parameter, readings of the clock and the orders in which Go walks a
    map are arguments, and the file of the memory is read and decoded by arguments; a decoded memory has
    no null pointers.

    The theorems: along every sequence of operations the index lists exactly the stored pathways, each
    once, nothing panics (the loop that prunes an index entry allocates one slot less than the entry
    has), and pruning is the map that fades every strength and drops the weak ones
    ([pathways_refine]); a word is chosen by the first prefix of the weights that
    reaches the threshold ([select_outgoing]); decay is applied again to what has decayed
    ([decay_twice]). *)

From Stdlib Require Import String SpecFloat.
From S2P Require Import Prelude Float64 Sha256.

(** ** Times *)

(** [time.Since]: the difference saturates at the ends of [int64]. *)
Definition Since (now t : Z) : Z := Z.max (- 2 ^ 63) (Z.min (2 ^ 63 - 1) (now - t)).

(** [Duration.Hours]. *)
Definition hour : Z := 3600 * 10 ^ 9.
Definition Hours (d : Z) : float64 := fadd (f_of_Z (Z.quot d hour)) (fdiv (f_of_Z (Z.rem d hour)) (f_of_Z hour)).

Definition daysSinceUse (now t : Z) : float64 := fdiv (Hours (Since now t)) (f_of_Z 24).

(** ** Data *)

Record PressureState := mkPressure { Hadamard : float64; PauliX : float64; PauliZ : float64; Phase : float64 }.

Record Pathway := mkPathway {
  FromHash : bytes; ToHash : bytes; FromWord : bytes; ToWord : bytes; Strength : float64; Activations : Z; LastUsed : Z; Created : Z;
}.

Record PathwayMemory := mkPathways {
  Pathways : gmap bytes Pathway; BySource : gmap bytes (list bytes); TotalActivations : Z; CreatedAt : Z; LastModified : Z;
  DecayRate : float64; ReinforceDelta : float64; MaxStrength : float64; MinStrength : float64; storagePath : bytes;
}.

Record PathwayStats := mkPathwayStats {
  TotalPathways : Z; ps_TotalActivations : Z; AverageStrength : float64; StrongestFrom : bytes; StrongestTo : bytes; StrongestStrength : float64;
}.

Definition NewPathwayMemory (created modified : Z) (path : bytes) : PathwayMemory :=
  mkPathways ∅ ∅ 0 created modified (f_ratio 1 100) (f_ratio 5 100) f1 (f_ratio 1 1000) path.

(** What reading a file gives. *)
Inductive file_read := NotExist | ReadError (e : string) | Contents (data : bytes).

(** [json.Unmarshal] into a memory that has its defaults; what it leaves alone keeps them. *)
Definition LoadPathwayMemory (read : file_read) (unmarshal : bytes -> PathwayMemory -> result PathwayMemory) (created modified : Z) (path : bytes) : result PathwayMemory :=
  let pm := NewPathwayMemory created modified path in
  match read with
  | NotExist => Ok pm
  | ReadError e => Err e
  | Contents data =>
      let? m := unmarshal data pm in
      Ok (mkPathways (Pathways m) (BySource m) (TotalActivations m) (CreatedAt m) (LastModified m) (DecayRate m) (ReinforceDelta m) (MaxStrength m) (MinStrength m) path)
  end.

(** [Save] stamps the memory and hands the encoding to the file system; the second component is what is written. *)
Definition pathways_Save (mkdir : result unit) (marshal : PathwayMemory -> result bytes) (write : bytes -> result unit) (now : Z) (pm : PathwayMemory) : PathwayMemory * result unit :=
  match mkdir with
  | Err e => (pm, Err e)
  | Ok _ =>
      let pm1 := mkPathways (Pathways pm) (BySource pm) (TotalActivations pm) (CreatedAt pm) now (DecayRate pm) (ReinforceDelta pm) (MaxStrength pm) (MinStrength pm) (storagePath pm) in
      (pm1, let? data := marshal pm1 in write data)
  end.

Definition pathwayKey (fromHash toHash : bytes) : bytes := fromHash ++ bs ":" ++ toHash.

Definition ConceptHash (word : bytes) : bytes := hex_encode (take 8 (sha256 word)).

Definition with_paths (ps : gmap bytes Pathway) (idx : gmap bytes (list bytes)) (total : Z) (pm : PathwayMemory) : PathwayMemory :=
  mkPathways ps idx total (CreatedAt pm) (LastModified pm) (DecayRate pm) (ReinforceDelta pm) (MaxStrength pm) (MinStrength pm) (storagePath pm).

(** [x += d; if x > top { x = top }]. *)
Definition bump (top d x : float64) : float64 := let y := fadd x d in if fltb top y then top else y.

Definition used (now : Z) (s : float64) (p : Pathway) : Pathway :=
  mkPathway (FromHash p) (ToHash p) (FromWord p) (ToWord p) s (i64 (Activations p + 1)) now (Created p).

(** [t1] is the reading for a new pathway, [t2] that of its last use. *)
Definition Strengthen (t1 t2 : Z) (fromWord toWord : bytes) (pm : PathwayMemory) : PathwayMemory :=
  let fromHash := ConceptHash fromWord in
  let toHash := ConceptHash toWord in
  let key := pathwayKey fromHash toHash in
  match Pathways pm !! key with
  | None =>
      let p := mkPathway fromHash toHash fromWord toWord (ReinforceDelta pm) 0 0 t1 in
      with_paths (<[key := used t2 (Strength p) p]> (Pathways pm)) (<[fromHash := default [] (BySource pm !! fromHash) ++ [key]]> (BySource pm))
        (i64 (TotalActivations pm + 1)) pm
  | Some p =>
      with_paths (<[key := used t2 (bump (MaxStrength pm) (ReinforceDelta pm) (Strength p)) p]> (Pathways pm)) (BySource pm)
        (i64 (TotalActivations pm + 1)) pm
  end.

(** [clock i] has the two readings of the [i]-th step. *)
Fixpoint StrengthenRoute (clock : nat -> Z * Z) (words : list bytes) (pm : PathwayMemory) : PathwayMemory :=
  match words with
  | a :: ((b :: _) as rest) => StrengthenRoute (fun i => clock (S i)) rest (Strengthen (clock 0%nat).1 (clock 0%nat).2 a b pm)
  | _ => pm
  end.

(** [make([]string, 0, len(keys)-1)] panics when the capacity is negative. *)
Definition without (key : bytes) (keys : list bytes) : outcome (list bytes) :=
  match keys with
  | [] => Panic "makeslice: cap out of range"
  | _ => Done (List.filter (fun k => negb (bytes_eqb k key)) keys)
  end.

(** A visit of a loop over a map that changes every entry and notes the keys of the weak ones. *)
Definition fade_visit {V} (f : bytes -> V -> V) (weak : V -> bool) (st : gmap bytes V * list bytes) (key : bytes) : gmap bytes V * list bytes :=
  match st.1 !! key with
  | None => st
  | Some v => let q := f key v in (<[key := q]> st.1, if weak q then st.2 ++ [key] else st.2)
  end.

Section decay.
Context (pow : float64 -> float64 -> float64).

Definition decayFactor (rate : float64) (now t : Z) : float64 := pow (fsub f1 rate) (daysSinceUse now t).

Definition GetStrength (now : Z) (fromWord toWord : bytes) (pm : PathwayMemory) : float64 :=
  match Pathways pm !! pathwayKey (ConceptHash fromWord) (ConceptHash toWord) with
  | None => f0
  | Some p => fmul (Strength p) (decayFactor (DecayRate pm) now (LastUsed p))
  end.

(** A pathway with its strength multiplied by the decay since its last use. *)
Definition fade (rate : float64) (now : Z) (p : Pathway) : Pathway :=
  mkPathway (FromHash p) (ToHash p) (FromWord p) (ToWord p) (fmul (Strength p) (decayFactor rate now (LastUsed p))) (Activations p) (LastUsed p) (Created p).

(** [clock key] is the reading when the pathway of [key] is visited. *)
Definition GetOutgoingPathways (clock : bytes -> Z) (fromWord : bytes) (pm : PathwayMemory) : list Pathway :=
  omap (fun key => fade (DecayRate pm) (clock key) <$> Pathways pm !! key) (default [] (BySource pm !! ConceptHash fromWord)).

(** ** Choosing the next word *)

Definition f_half : float64 := f_ratio 1 2.

Definition select_weight (pressure : PressureState) (s : float64) : float64 :=
  let w1 := if fltb f_half (PauliX pressure)
            then pow s (fdiv f1 (fadd f1 (fmul (fsub (PauliX pressure) f_half) (f_of_Z 2)))) else s in
  let w2 := if fltb f_half (PauliZ pressure)
            then pow w1 (fadd f1 (fmul (fsub (PauliZ pressure) f_half) (f_of_Z 2))) else w1 in
  fmul w2 (fadd f_half (fmul (Hadamard pressure) f_half)).

(** [float64(val) / float64(^uint64(0))] of the first eight bytes. *)
Definition selector (hashSeed : bytes) : float64 :=
  if (8 <=? length hashSeed)%nat then fdiv (f_of_Z (be_int (take 8 hashSeed))) (f_of_Z (2 ^ 64 - 1)) else f_half.

Definition feqb (x y : float64) : bool := match SFcompare x y with Some Eq => true | _ => false end.

(** The first index at which the running sum reaches the threshold. *)
Fixpoint first_reaching (threshold cumulative : float64) (weights : list float64) : option nat :=
  match weights with
  | [] => None
  | w :: ws => let c := fadd cumulative w in if fleb threshold c then Some 0%nat else S <$> first_reaching threshold c ws
  end.

Definition SelectNextConcept (clock : bytes -> Z) (fromWord : bytes) (pressure : PressureState) (hashSeed : bytes) (pm : PathwayMemory) : bytes :=
  let pathways := GetOutgoingPathways clock fromWord pm in
  let weights := map (fun p => select_weight pressure (Strength p)) pathways in
  let totalWeight := fold_left fadd weights f0 in
  if (length pathways =? 0)%nat then []
  else if feqb totalWeight f0 then []
  else
    let i := default (length pathways - 1)%nat (first_reaching (fmul (selector hashSeed) totalWeight) f0 weights) in
    default [] (ToWord <$> pathways !! i).

(** ** Pruning *)

(** A visit of the first loop: the pathway fades, a weak key is noted. *)
Definition decay_visit (clock : bytes -> Z) (rate lo : float64) : gmap bytes Pathway * list bytes -> bytes -> gmap bytes Pathway * list bytes :=
  fade_visit (fun key => fade rate (clock key)) (fun q => fltb (Strength q) lo).

Definition prune_path (pm : PathwayMemory) (key : bytes) : outcome PathwayMemory :=
  match Pathways pm !! key with
  | None => Panic "nil pointer dereference"
  | Some p =>
      let ps := delete key (Pathways pm) in
      match BySource pm !! FromHash p with
      | None => Done (with_paths ps (BySource pm) (TotalActivations pm) pm)
      | Some keys =>
          let! newKeys := without key keys in
          Done (with_paths ps (<[FromHash p := newKeys]> (BySource pm)) (TotalActivations pm) pm)
      end
  end.

Fixpoint prune_paths (pm : PathwayMemory) (keys : list bytes) : outcome PathwayMemory :=
  match keys with [] => Done pm | k :: ks => let! pm1 := prune_path pm k in prune_paths pm1 ks end.

(** [walk] is the order in which the map is walked; the count is the number of pruned pathways. *)
Definition pathways_Decay (clock : bytes -> Z) (walk : list bytes) (pm : PathwayMemory) : outcome (PathwayMemory * Z) :=
  let r := fold_left (decay_visit clock (DecayRate pm) (MinStrength pm)) walk (Pathways pm, []) in
  let! pm1 := prune_paths (with_paths r.1 (BySource pm) (TotalActivations pm) pm) r.2 in
  Done (pm1, Z.of_nat (length r.2)).

(** ** Statistics *)

(** The strongest entry of a walk: only a strictly stronger one replaces the first. *)
Definition strongest {A} (strength : A -> float64) (ps : list A) : option A :=
  (fold_left (fun (best : float64 * option A) p => if fltb best.1 (strength p) then (strength p, Some p) else best) ps (f0, None)).2.

Definition pathways_Stats (walk : list bytes) (pm : PathwayMemory) : PathwayStats :=
  let ps := omap (fun k => Pathways pm !! k) walk in
  let n := Z.of_nat (size (Pathways pm)) in
  let total := fold_left (fun a p => fadd a (Strength p)) ps f0 in
  mkPathwayStats n (TotalActivations pm) (if 0 <? n then fdiv total (f_of_Z n) else f0)
    (default [] (FromWord <$> strongest Strength ps)) (default [] (ToWord <$> strongest Strength ps)) (default f0 (Strength <$> strongest Strength ps)).
End decay.

(** ** Keys *)

Lemma length_ConceptHash w : length (ConceptHash w) = 16%nat.
Proof. unfold ConceptHash. rewrite length_hex_encode, length_take, length_sha256. done. Qed.

Lemma pathwayKey_inj a b c d : pathwayKey (ConceptHash a) (ConceptHash b) = pathwayKey (ConceptHash c) (ConceptHash d) ->
  ConceptHash a = ConceptHash c /\ ConceptHash b = ConceptHash d.
Proof.
  unfold pathwayKey. intros H. apply app_inj_1 in H as [H1 H2]; [|by rewrite !length_ConceptHash].
  split; [done|]. by apply (app_inv_head (bs ":")) in H2.
Qed.

#[global] Opaque ConceptHash.

(** ** The index *)

(** Every pathway is stored under the hashes of its words. *)
Definition keyed (ps : gmap bytes Pathway) : Prop :=
  forall k p, ps !! k = Some p -> k = pathwayKey (FromHash p) (ToHash p) /\ FromHash p = ConceptHash (FromWord p) /\ ToHash p = ConceptHash (ToWord p).

(** The index lists exactly the stored keys of every source, each once. *)
Definition indexed (ps : gmap bytes Pathway) (idx : gmap bytes (list bytes)) : Prop :=
  forall h, NoDup (default [] (idx !! h)) /\ forall k, k ∈ default [] (idx !! h) <-> exists p, ps !! k = Some p /\ FromHash p = h.

Record paths_ok (pm : PathwayMemory) : Prop := { po_keyed : keyed (Pathways pm); po_indexed : indexed (Pathways pm) (BySource pm) }.

Lemma default_insert {A} (m : gmap bytes (list A)) h h' l :
  default [] (<[h := l]> m !! h') = if decide (h = h') then l else default [] (m !! h').
Proof. case_decide as E; [subst; by rewrite lookup_insert_eq|by rewrite lookup_insert_ne]. Qed.

(** Changing a pathway but not its ends keeps the index right. *)
Lemma indexed_update ps idx k p q :
  ps !! k = Some p -> FromHash q = FromHash p -> indexed ps idx -> indexed (<[k := q]> ps) idx.
Proof.
  intros Hk Hq Hi h. destruct (Hi h) as [Hn Hx]. split; [done|]. intros k'. rewrite Hx. destruct (decide (k = k')) as [<-|Hne].
  - rewrite lookup_insert_eq, Hk. split; intros (r & [= <-] & Hr); eexists; (split; [done|congruence]).
  - by rewrite lookup_insert_ne.
Qed.

Lemma indexed_add ps idx k p :
  ps !! k = None -> indexed ps idx -> indexed (<[k := p]> ps) (<[FromHash p := default [] (idx !! FromHash p) ++ [k]]> idx).
Proof.
  intros Hk Hi h. destruct (Hi h) as [Hn Hx]. rewrite default_insert.
  assert (Hnot : k ∉ default [] (idx !! h)) by (rewrite Hx; intros (? & ? & _); congruence).
  case_decide as E.
  - subst h. split; [apply NoDup_app; split_and!; [done|set_solver|by apply NoDup_singleton]|].
    intros k'. rewrite elem_of_app, list_elem_of_singleton, Hx. destruct (decide (k' = k)) as [->|Hne].
    + rewrite lookup_insert_eq. split; [intros _; by eexists|by right].
    + rewrite lookup_insert_ne by done. split; [by intros [?|?]|by left].
  - split; [done|]. intros k'. rewrite Hx. destruct (decide (k' = k)) as [->|Hne].
    + rewrite lookup_insert_eq. split; [intros (? & ? & _); congruence|]. intros (r & [= <-] & ?). congruence.
    + by rewrite lookup_insert_ne.
Qed.

Lemma indexed_delete ps idx k p :
  ps !! k = Some p -> indexed ps idx ->
  exists keys, idx !! FromHash p = Some keys /\ keys <> [] /\
    indexed (delete k ps) (<[FromHash p := List.filter (fun x => negb (bytes_eqb x k)) keys]> idx).
Proof.
  intros Hk Hi. assert (Hin : k ∈ default [] (idx !! FromHash p)) by (apply Hi; by eexists).
  destruct (idx !! FromHash p) as [keys|] eqn:Ek; cbn in Hin; [|by apply not_elem_of_nil in Hin].
  exists keys. split; [done|]. split; [by intros ->; apply not_elem_of_nil in Hin|].
  intros h. destruct (Hi h) as [Hn Hx]. rewrite default_insert. case_decide as E.
  - subst h. rewrite Ek in Hn, Hx. cbn in Hn, Hx. split.
    + apply NoDup_ListNoDup. apply List.NoDup_filter. by apply NoDup_ListNoDup.
    + intros k'. rewrite list_elem_of_In, List.filter_In, <- list_elem_of_In, Hx, negb_true_iff, bytes_eqb_false.
      destruct (decide (k' = k)) as [->|Hne]; [rewrite lookup_delete_eq; split; [by intros [_ ?]|by intros (? & ? & _)]|].
      rewrite lookup_delete_ne by done. naive_solver.
  - split; [done|]. intros k'. rewrite Hx. destruct (decide (k' = k)) as [->|Hne]; [|by rewrite lookup_delete_ne].
    rewrite lookup_delete_eq. split; [|by intros (? & ? & _)]. intros (r & Hr & ?). congruence.
Qed.

Lemma keyed_insert ps k p :
  k = pathwayKey (FromHash p) (ToHash p) -> FromHash p = ConceptHash (FromWord p) -> ToHash p = ConceptHash (ToWord p) ->
  keyed ps -> keyed (<[k := p]> ps).
Proof. intros H1 H2 H3 Hk k' q [[-> <-]|[? ?]]%lookup_insert_Some; [done|by apply Hk]. Qed.

Lemma keyed_delete ps k : keyed ps -> keyed (delete k ps).
Proof. intros Hk k' q [? ?]%lookup_delete_Some. by apply Hk. Qed.

Lemma new_paths_ok created modified path : paths_ok (NewPathwayMemory created modified path).
Proof.
  split; cbn [Pathways BySource NewPathwayMemory]; [intros k p Hk; by rewrite lookup_empty in Hk|]. intros h. rewrite lookup_empty.
  split; [constructor|]. intros k. split; [intros Hk; by apply not_elem_of_nil in Hk|]. intros (p & Hk & _). by rewrite lookup_empty in Hk.
Qed.

Lemma strengthen_ok t1 t2 a b pm : paths_ok pm -> paths_ok (Strengthen t1 t2 a b pm).
Proof.
  intros [Hk Hi]. unfold Strengthen. destruct (Pathways pm !! _) as [p|] eqn:E; split; cbn [Pathways BySource with_paths].
  - destruct (Hk _ _ E) as (K1 & K2 & K3). by apply keyed_insert.
  - by eapply indexed_update.
  - by apply keyed_insert.
  - apply (indexed_add (Pathways pm) (BySource pm) _ (used t2 (ReinforceDelta pm) (mkPathway (ConceptHash a) (ConceptHash b) a b (ReinforceDelta pm) 0 0 t1)) E Hi).
Qed.

Lemma route_ok ws clock pm : paths_ok pm -> paths_ok (StrengthenRoute clock ws pm).
Proof.
  revert clock pm. induction ws as [|a [|b ws] IH]; intros clock pm H; [done..|].
  apply (IH (fun i => clock (S i))). by apply strengthen_ok.
Qed.

(** ** Walks *)

(** A walk over a map visits every key once. *)
Definition walks {V} (order : gmap bytes V -> list bytes) : Prop := forall m, order m ≡ₚ (map_to_list m).*1.

Lemma walks_spec {V} (order : gmap bytes V -> list bytes) m : walks order -> NoDup (order m) /\ forall k, k ∈ order m <-> is_Some (m !! k).
Proof.
  intros Hw. specialize (Hw m). split; [rewrite Hw; apply NoDup_fst_map_to_list|]. intros k. rewrite Hw, list_elem_of_fmap. split.
  - intros ([k' p] & -> & H). apply elem_of_map_to_list in H. by eexists.
  - intros [p H]. exists (k, p). split; [done|]. by apply elem_of_map_to_list.
Qed.

Section fading.
Context {V : Type} (f : bytes -> V -> V) (weak : V -> bool).

Definition weak_in (m : gmap bytes V) (k : bytes) : bool := match m !! k with Some v => weak (f k v) | None => false end.

Lemma fade_loop walk m acc :
  NoDup walk ->
  let r := fold_left (fade_visit f weak) walk (m, acc) in
  (forall k, r.1 !! k = if decide (k ∈ walk) then f k <$> m !! k else m !! k) /\ r.2 = acc ++ List.filter (weak_in m) walk.
Proof.
  revert m acc. induction walk as [|w walk IH]; intros m acc Hn; cbv zeta; cbn [fold_left List.filter].
  { by rewrite app_nil_r. }
  apply NoDup_cons in Hn as [Hw Hn]. unfold fade_visit at 2 4. cbn [fst snd]. unfold weak_in at 1. destruct (m !! w) as [p|] eqn:E.
  - destruct (IH (<[w := f w p]> m) (if weak (f w p) then acc ++ [w] else acc) Hn) as [H1 H2].
    split.
    + intros k. rewrite H1. destruct (decide (k = w)) as [->|Hne].
      * rewrite decide_False, lookup_insert_eq, E, decide_True by (done || set_solver). done.
      * rewrite lookup_insert_ne by done. do 2 case_decide; (done || set_solver).
    + rewrite H2. replace (List.filter (weak_in (<[w := f w p]> m)) walk) with (List.filter (weak_in m) walk).
      * case_match; [by rewrite <- (assoc_L (++))|done].
      * apply List.filter_ext_in. intros k Hk%list_elem_of_In. unfold weak_in. by rewrite lookup_insert_ne by (intros ->; done).
  - destruct (IH m acc Hn) as [H1 H2]. split; [|done]. intros k. rewrite H1. destruct (decide (k = w)) as [->|Hne].
    + rewrite E. by repeat case_decide.
    + do 2 case_decide; (done || set_solver).
Qed.

(** A whole walk: everything fades, the noted keys are those of the weak entries, each once. *)
Lemma fade_walk order m :
  walks order ->
  let r := fold_left (fade_visit f weak) (order m) (m, []) in
  (forall k, r.1 !! k = f k <$> m !! k) /\ r.2 = List.filter (weak_in m) (order m) /\ NoDup r.2 /\
  forall k, k ∈ r.2 <-> exists v, m !! k = Some v /\ weak (f k v) = true.
Proof.
  intros Hw. destruct (walks_spec order m Hw) as [Hn Hin]. destruct (fade_loop (order m) m [] Hn) as [H1 H2]. cbv zeta.
  cbn [app] in H2. split; [|split; [done|]].
  - intros k. rewrite H1. case_decide as Hk; [done|]. rewrite Hin in Hk. destruct (m !! k); [|done]. destruct Hk. by eexists.
  - rewrite H2. split; [apply NoDup_ListNoDup; apply List.NoDup_filter; by apply NoDup_ListNoDup|].
    intros k. rewrite list_elem_of_In, List.filter_In, <- list_elem_of_In, Hin. unfold weak_in. destruct (m !! k) as [v|].
    + split; [intros [_ H]; by exists v|]. intros (v' & [= <-] & H). split; [by eexists|done].
    + split; [by intros [_ ?]|by intros (? & ? & _)].
Qed.
End fading.

(** ** Pruning is a map and a filter *)

Section pruning.
Context (pow : float64 -> float64 -> float64).

(** The specification: every strength fades, the weak pathways go. *)
Definition spec_decay (clock : bytes -> Z) (rate lo : float64) (m : gmap bytes Pathway) : gmap bytes Pathway :=
  map_imap (fun k p => let q := fade pow rate (clock k) p in if fltb (Strength q) lo then None else Some q) m.

(** What stays of a memory when only pathways and index change. *)
Definition same_rest (pm pm' : PathwayMemory) : Prop := pm' = with_paths (Pathways pm') (BySource pm') (TotalActivations pm) pm.

Lemma prune_path_ok pm k p :
  paths_ok pm -> Pathways pm !! k = Some p ->
  exists pm', prune_path pm k = Done pm' /\ paths_ok pm' /\ same_rest pm pm' /\ Pathways pm' = delete k (Pathways pm).
Proof.
  intros [Hk Hi] E. destruct (indexed_delete _ _ _ _ E Hi) as (keys & E1 & Hne & Hi'). unfold prune_path. rewrite E, E1.
  destruct keys as [|x keys]; [done|]. cbn [without outcome_bind].
  eexists. split; [reflexivity|]. split; [split; [by apply keyed_delete|exact Hi']|]. done.
Qed.

Lemma prune_paths_ok keys pm :
  paths_ok pm -> NoDup keys -> (forall k, k ∈ keys -> is_Some (Pathways pm !! k)) ->
  exists pm', prune_paths pm keys = Done pm' /\ paths_ok pm' /\ same_rest pm pm' /\
    forall k, Pathways pm' !! k = if decide (k ∈ keys) then None else Pathways pm !! k.
Proof.
  revert pm. induction keys as [|x keys IH]; intros pm Hok Hn Hall.
  { exists pm. split; [done|]. split; [done|]. split; [by destruct pm|done]. }
  apply NoDup_cons in Hn as [Hx Hn]. destruct (Hall x ltac:(set_solver)) as [p Hp].
  destruct (prune_path_ok pm x p Hok Hp) as (pm1 & E1 & Hok1 & Hr1 & Hd1).
  destruct (IH pm1 Hok1 Hn) as (pm2 & E2 & Hok2 & Hr2 & Hd2).
  { intros k Hk. rewrite Hd1, lookup_delete_ne by (intros ->; done). apply Hall. set_solver. }
  exists pm2. cbn [prune_paths]. rewrite E1. cbn [outcome_bind]. split; [done|]. split; [done|]. split.
  - unfold same_rest in *. rewrite Hr2, Hr1. done.
  - intros k. rewrite Hd2, Hd1. destruct (decide (k = x)) as [->|Hne].
    + rewrite lookup_delete_eq. by repeat case_decide; set_solver.
    + rewrite lookup_delete_ne by done. repeat case_decide; (done || set_solver).
Qed.

Lemma indexed_same_ends ps ps' idx :
  (forall k, FromHash <$> ps' !! k = FromHash <$> ps !! k) -> indexed ps idx -> indexed ps' idx.
Proof.
  intros H Hi h. destruct (Hi h) as [Hn Hx]. split; [done|]. intros k. rewrite Hx. specialize (H k).
  destruct (ps !! k), (ps' !! k); cbn in H; simplify_eq; [|split; by intros (? & ? & _)].
  split; intros (r & [= <-] & <-); eexists; (split; [done|congruence]).
Qed.

Lemma decay_ok clock order pm :
  walks order -> paths_ok pm ->
  exists pm' n, pathways_Decay pow clock (order (Pathways pm)) pm = Done (pm', n) /\
    paths_ok pm' /\ same_rest pm pm' /\ Pathways pm' = spec_decay clock (DecayRate pm) (MinStrength pm) (Pathways pm).
Proof.
  intros Hw Hok. unfold pathways_Decay, decay_visit.
  destruct (fade_walk (fun k => fade pow (DecayRate pm) (clock k)) (fun q => fltb (Strength q) (MinStrength pm)) order (Pathways pm) Hw) as (Hall & _ & Hn & Hin).
  set (r := fold_left _ _ _) in *.
  destruct (prune_paths_ok r.2 (with_paths r.1 (BySource pm) (TotalActivations pm) pm)) as (pm' & E & Hok' & Hr & Hd).
  - destruct Hok as [Hk Hi]. split; cbn [Pathways BySource with_paths].
    + intros k q Hq. rewrite Hall in Hq. destruct (Pathways pm !! k) as [p|] eqn:Ep; [|done]. injection Hq as <-. by apply (Hk k p).
    + apply (indexed_same_ends (Pathways pm)); [|done]. intros k. rewrite Hall. by destruct (Pathways pm !! k).
  - done.
  - intros k (p & Hp & _)%Hin. cbn [Pathways with_paths]. rewrite Hall, Hp. by eexists.
  - exists pm', (Z.of_nat (length r.2)). rewrite E. split; [done|]. split; [done|]. split; [exact Hr|].
    apply map_eq. intros k. rewrite Hd. cbn [Pathways with_paths]. unfold spec_decay. rewrite map_lookup_imap, Hall.
    destruct (Pathways pm !! k) as [p|] eqn:Ep; [|by case_decide]. cbn. case_decide as Hk.
    + apply Hin in Hk as (p' & Hp' & Hw'). rewrite Ep in Hp'. injection Hp' as <-. cbn in Hw'. by rewrite Hw'.
    + destruct (fltb _ (MinStrength pm)) eqn:Ew; [|done]. destruct Hk. apply Hin. by exists p.
Qed.

(** ** Sequences of operations *)

Inductive path_op :=
  | OStrengthen (t1 t2 : Z) (fromWord toWord : bytes)
  | ORoute (clock : nat -> Z * Z) (words : list bytes)
  | ODecay (clock : bytes -> Z) (order : gmap bytes Pathway -> list bytes).

Definition path_apply (o : path_op) (pm : PathwayMemory) : outcome PathwayMemory :=
  match o with
  | OStrengthen t1 t2 a b => Done (Strengthen t1 t2 a b pm)
  | ORoute clock ws => Done (StrengthenRoute clock ws pm)
  | ODecay clock order => let! r := pathways_Decay pow clock (order (Pathways pm)) pm in Done r.1
  end.

Fixpoint path_run (ops : list path_op) (pm : PathwayMemory) : outcome PathwayMemory :=
  match ops with [] => Done pm | o :: os => let! pm1 := path_apply o pm in path_run os pm1 end.

(** What the operations do to the map of pathways alone. *)
Definition spec_strengthen (t1 t2 : Z) (a b : bytes) (m : gmap bytes Pathway) : gmap bytes Pathway :=
  let key := pathwayKey (ConceptHash a) (ConceptHash b) in
  <[key := match m !! key with
           | None => mkPathway (ConceptHash a) (ConceptHash b) a b (f_ratio 5 100) 1 t2 t1
           | Some p => used t2 (bump f1 (f_ratio 5 100) (Strength p)) p
           end]> m.

Fixpoint spec_route (clock : nat -> Z * Z) (ws : list bytes) (m : gmap bytes Pathway) : gmap bytes Pathway :=
  match ws with
  | a :: ((b :: _) as rest) => spec_route (fun i => clock (S i)) rest (spec_strengthen (clock 0%nat).1 (clock 0%nat).2 a b m)
  | _ => m
  end.

Definition spec_apply (m : gmap bytes Pathway) (o : path_op) : gmap bytes Pathway :=
  match o with
  | OStrengthen t1 t2 a b => spec_strengthen t1 t2 a b m
  | ORoute clock ws => spec_route clock ws m
  | ODecay clock _ => spec_decay clock (f_ratio 1 100) (f_ratio 1 1000) m
  end.

Definition op_walks (o : path_op) : Prop := match o with ODecay _ order => walks order | _ => True end.

Record path_params (pm : PathwayMemory) : Prop := {
  pp_rate : DecayRate pm = f_ratio 1 100; pp_delta : ReinforceDelta pm = f_ratio 5 100; pp_max : MaxStrength pm = f1; pp_min : MinStrength pm = f_ratio 1 1000;
}.

Lemma strengthen_spec t1 t2 a b pm :
  path_params pm -> path_params (Strengthen t1 t2 a b pm) /\ Pathways (Strengthen t1 t2 a b pm) = spec_strengthen t1 t2 a b (Pathways pm).
Proof.
  intros [H1 H2 H3 H4]. unfold Strengthen, spec_strengthen. destruct (Pathways pm !! _) as [p|] eqn:E; (split; [by split|]); cbn [Pathways with_paths];
    by rewrite ?H2, ?H3.
Qed.

Lemma route_spec ws clock pm :
  path_params pm -> path_params (StrengthenRoute clock ws pm) /\ Pathways (StrengthenRoute clock ws pm) = spec_route clock ws (Pathways pm).
Proof.
  revert clock pm. induction ws as [|a [|b ws] IH]; intros clock pm H; [done..|].
  destruct (strengthen_spec (clock 0%nat).1 (clock 0%nat).2 a b pm H) as [Hp Hs].
  destruct (IH (fun i => clock (S i)) _ Hp) as [Hq Hr]. rewrite Hs in Hr. done.
Qed.

Lemma path_apply_ok o pm :
  op_walks o -> paths_ok pm -> path_params pm ->
  exists pm', path_apply o pm = Done pm' /\ paths_ok pm' /\ path_params pm' /\ Pathways pm' = spec_apply (Pathways pm) o.
Proof.
  intros Hw Hok Hp. destruct o as [t1 t2 a b|clock ws|clock order]; cbn [path_apply spec_apply].
  - destruct (strengthen_spec t1 t2 a b pm Hp). eexists. split; [reflexivity|]. split; [by apply strengthen_ok|done].
  - destruct (route_spec ws clock pm Hp). eexists. split; [reflexivity|]. split; [by apply route_ok|done].
  - destruct (decay_ok clock order pm Hw Hok) as (pm' & n & E & Hok' & Hr & Hd). rewrite E. cbn. exists pm'. split; [done|]. split; [done|].
    destruct Hp as [H1 H2 H3 H4]. rewrite H1, H4 in Hd. split; [|done]. rewrite Hr. by split.
Qed.

Lemma path_run_ok ops pm :
  Forall op_walks ops -> paths_ok pm -> path_params pm ->
  exists pm', path_run ops pm = Done pm' /\ paths_ok pm' /\ path_params pm' /\ Pathways pm' = fold_left spec_apply ops (Pathways pm).
Proof.
  intros H. revert pm. induction H as [|o os Ho _ IH]; intros pm Hok Hp; [by exists pm|].
  destruct (path_apply_ok o pm Ho Hok Hp) as (pm1 & E & Hok1 & Hp1 & Hs). cbn [path_run fold_left]. rewrite E, <- Hs. cbn [outcome_bind]. by apply IH.
Qed.

(** The pathways that leave a word: those stored with its hash. *)
Definition spec_outgoing (clock : bytes -> Z) (w : bytes) (m : gmap bytes Pathway) : list Pathway :=
  (fun kp => fade pow (f_ratio 1 100) (clock kp.1) kp.2) <$> base.filter (fun kp => FromHash kp.2 = ConceptHash w) (map_to_list m).

Lemma lookups_of_entries {A B} (f : bytes -> A -> B) (m : gmap bytes A) (l : list (bytes * A)) :
  (forall kp, kp ∈ l -> m !! kp.1 = Some kp.2) -> omap (fun k => f k <$> m !! k) l.*1 = (fun kp => f kp.1 kp.2) <$> l.
Proof.
  induction l as [|[k p] l IH]; intros H; [done|]. pose proof (H (k, p) ltac:(set_solver)) as Hk. cbn in Hk. cbn. rewrite Hk. cbn. f_equal.
  apply IH. set_solver.
Qed.

Lemma outgoing_spec clock w pm :
  paths_ok pm -> path_params pm -> GetOutgoingPathways pow clock w pm ≡ₚ spec_outgoing clock w (Pathways pm).
Proof.
  intros [Hk Hi] [Hp _ _ _]. destruct (Hi (ConceptHash w)) as [Hn Hx]. unfold GetOutgoingPathways, spec_outgoing. rewrite Hp.
  set (l := base.filter _ _). assert (Hl : forall kp, kp ∈ l <-> Pathways pm !! kp.1 = Some kp.2 /\ FromHash kp.2 = ConceptHash w).
  { intros [k p]. unfold l. rewrite list_elem_of_filter, elem_of_map_to_list. naive_solver. }
  rewrite <- (lookups_of_entries (fun k => fade pow (f_ratio 1 100) (clock k)) (Pathways pm) l) by (intros kp H; by apply Hl).
  apply omap_Permutation. apply NoDup_Permutation; [done| |].
  - unfold l. eapply sublist_NoDup; [apply (NoDup_fst_map_to_list (Pathways pm))|]. apply fmap_sublist. apply sublist_filter.
  - intros k. rewrite Hx, list_elem_of_fmap. split.
    + intros (p & H1 & H2). exists (k, p). split; [done|]. by apply Hl.
    + intros ([k' p] & -> & [H1 H2]%Hl). by exists p.
Qed.

(** C33: Whatever is strengthened and decayed, nothing panics, the stored pathways are those of the specification (a map
    in which strengthening sets one entry and decay fades all and drops the weak), and the pathways out of a word,
    found through the index, are exactly the stored ones that start at its hash. *)
Theorem pathways_refine created modified path ops :
  Forall op_walks ops ->
  exists pm, path_run ops (NewPathwayMemory created modified path) = Done pm /\
    let m := fold_left spec_apply ops ∅ in
    Pathways pm = m /\ forall clock w, GetOutgoingPathways pow clock w pm ≡ₚ spec_outgoing clock w m.
Proof.
  intros H. destruct (path_run_ok ops (NewPathwayMemory created modified path) H) as (pm & E & Hok & Hp & Hs).
  - apply new_paths_ok.
  - done.
  - exists pm. split; [done|]. split; [exact Hs|]. intros clock w. cbn in Hs. rewrite <- Hs. by apply outgoing_spec.
Qed.

(** Decay stores the faded strength but not the time, so the next reading, or the next decay, applies the whole time
    since the last use again. *)
Theorem decay_twice now order pm a b p :
  walks order -> paths_ok pm -> Pathways pm !! pathwayKey (ConceptHash a) (ConceptHash b) = Some p ->
  fltb (GetStrength pow now a b pm) (MinStrength pm) = false ->
  exists pm' n, pathways_Decay pow (fun _ => now) (order (Pathways pm)) pm = Done (pm', n) /\
    GetStrength pow now a b pm' = fmul (GetStrength pow now a b pm) (decayFactor pow (DecayRate pm) now (LastUsed p)).
Proof.
  intros Hw Hok E Hs. destruct (decay_ok (fun _ => now) order pm Hw Hok) as (pm' & n & Ed & _ & Hr & Hd). eexists _, _. split; [exact Ed|].
  unfold GetStrength in *. rewrite Hd. unfold spec_decay. rewrite map_lookup_imap, E in *. cbn [option_bind mbind Strength fade]. rewrite Hs.
  rewrite Hr. done.
Qed.

(** ** The choice *)

(** The weights up to and including the [i]-th, added from the left. *)
Definition prefix_sum (ws : list float64) (i : nat) : float64 := fold_left fadd (take (S i) ws) f0.

Lemma first_reaching_spec threshold c ws :
  match first_reaching threshold c ws with
  | Some i => (i < length ws)%nat /\ fleb threshold (fold_left fadd (take (S i) ws) c) = true /\
              forall j, (j < i)%nat -> fleb threshold (fold_left fadd (take (S j) ws) c) = false
  | None => forall j, (j < length ws)%nat -> fleb threshold (fold_left fadd (take (S j) ws) c) = false
  end.
Proof.
  revert c. induction ws as [|w ws IH]; intros c; cbn [first_reaching]; [cbn; lia|]. destruct (fleb threshold (fadd c w)) eqn:E.
  - split; [cbn; lia|]. split; [done|lia].
  - specialize (IH (fadd c w)). destruct (first_reaching threshold (fadd c w) ws) as [i|]; cbn [fmap option_fmap option_map].
    + destruct IH as (H1 & H2 & H3). split; [cbn; lia|]. split; [done|]. intros [|j] Hj; [done|]. apply H3. lia.
    + intros [|j] Hj; [done|]. apply IH. cbn in Hj. lia.
Qed.

(** The next concept is empty when no pathway leaves the word or the weights cancel; otherwise it is the end of the
    first outgoing pathway at which the running sum of the weights reaches the threshold, or of the last one. *)
Theorem select_outgoing clock w pressure seed pm :
  let ps := GetOutgoingPathways pow clock w pm in
  let ws := map (fun p => select_weight pow pressure (Strength p)) ps in
  let total := fold_left fadd ws f0 in
  let threshold := fmul (selector seed) total in
  let r := SelectNextConcept pow clock w pressure seed pm in
  ((ps = [] \/ feqb total f0 = true) /\ r = []) \/
  exists i p, ps !! i = Some p /\ r = ToWord p /\ (forall j, (j < i)%nat -> fleb threshold (prefix_sum ws j) = false) /\
    (fleb threshold (prefix_sum ws i) = true \/ S i = length ps).
Proof.
  cbv zeta. unfold SelectNextConcept. set (ps := GetOutgoingPathways _ _ _ _). set (ws := map _ ps). assert (Hl : length ws = length ps) by apply length_map.
  destruct (Nat.eqb_spec (length ps) 0) as [E|E]; [left; split; [left; by apply nil_length_inv|done]|].
  destruct (feqb (fold_left fadd ws f0) f0) eqn:Et; [left; by auto|]. right.
  pose proof (first_reaching_spec (fmul (selector seed) (fold_left fadd ws f0)) f0 ws) as H.
  destruct (first_reaching _ f0 ws) as [i|]; cbn [default].
  - destruct H as (H1 & H2 & H3). destruct (lookup_lt_is_Some_2 ps i ltac:(lia)) as [p Hp]. exists i, p. cbn [from_option id]. rewrite Hp. by split_and!; [..|left].
  - destruct (lookup_lt_is_Some_2 ps (length ps - 1) ltac:(lia)) as [p Hp]. exists (length ps - 1)%nat, p. cbn [from_option id]. rewrite Hp. split; [done|]. split; [done|].
    split; [intros j Hj; apply H; lia|right; lia].
Qed.
End pruning.

(** *** On concrete input *)

Definition toy_pow (x y : float64) : float64 := if fltb f0 y then f_ratio 1 2 else f1.

Definition toy_order (m : gmap bytes Pathway) : list bytes := (map_to_list m).*1.

Lemma toy_walks : walks toy_order.
Proof. by intros m. Qed.

Definition toy_day : Z := 24 * hour.

Definition toy_path_ops : list path_op :=
  [ORoute (fun i => (Z.of_nat i, Z.of_nat i)) [bs "sun"; bs "moon"; bs "sea"]; OStrengthen 5 6 (bs "sun") (bs "sea");
   ODecay (fun _ => toy_day) toy_order; OStrengthen 7 toy_day (bs "sun") (bs "moon")].

Definition toy_paths : PathwayMemory := Strengthen 1 2 (bs "sun") (bs "moon") (NewPathwayMemory 0 0 []).

Lemma pathways_refine_witness : exists pm, path_run toy_pow toy_path_ops (NewPathwayMemory 0 0 []) = Done pm /\
  let m := fold_left (spec_apply toy_pow) toy_path_ops ∅ in
  Pathways pm = m /\ forall clock w, GetOutgoingPathways toy_pow clock w pm ≡ₚ spec_outgoing toy_pow clock w m.
Proof. apply (pathways_refine toy_pow 0 0 [] toy_path_ops). apply Forall_forall. intros o Ho. unfold toy_path_ops in Ho.
  repeat (apply elem_of_cons in Ho as [->|Ho]; [first [done|exact toy_walks]|]). by apply not_elem_of_nil in Ho.
Defined.

Lemma decay_twice_witness : exists pm' n, pathways_Decay toy_pow (fun _ => toy_day) (toy_order (Pathways toy_paths)) toy_paths = Done (pm', n) /\
  GetStrength toy_pow toy_day (bs "sun") (bs "moon") pm' =
    fmul (GetStrength toy_pow toy_day (bs "sun") (bs "moon") toy_paths) (decayFactor toy_pow (DecayRate toy_paths) toy_day 2).
Proof.
  apply (decay_twice toy_pow toy_day toy_order toy_paths (bs "sun") (bs "moon")
    (mkPathway (ConceptHash (bs "sun")) (ConceptHash (bs "moon")) (bs "sun") (bs "moon") (f_ratio 5 100) 1 2 1)); [exact toy_walks| | |].
  - apply strengthen_ok, new_paths_ok.
  - unfold toy_paths, Strengthen. cbn [Pathways NewPathwayMemory]. rewrite lookup_empty. cbn [Pathways with_paths]. by rewrite lookup_insert_eq.
  - unfold GetStrength, toy_paths, Strengthen. cbn [Pathways NewPathwayMemory]. rewrite lookup_empty. cbn [Pathways with_paths]. rewrite lookup_insert_eq.
    vm_compute. reflexivity.
Defined.
