(* ===== verification/Engrams.v ===== *)
(** * Engrams ([memory/engrams.go])

    Contents: the memory of groups of concepts that occurred together, the index from the hash of a concept
    to the engrams that have it, recall by resonance, and pruning.  A pointer to an engram is the identifier it is
    stored under.  [math.Pow] is a parameter; readings of the clock, and the orders in which Go walks a
    map, are arguments.  A stored engram keeps the caller's map of context, which is a value here: the brain
    passes none.

    The theorems: if the concepts of every stored group have distinct hashes, no sequence of operations panics, the index
    lists exactly the engrams of each hash, at most the maximum is kept and the counter of engrams is right
    ([engrams_sound]); recall returns exactly the engrams that share enough concepts with the input and
    score enough, each once, best first ([resonate_exact]); a group has one identifier whatever the order of its
    concepts ([engram_id_order]), and two different groups can share it ([engram_id_ambiguous]).  A group with a repeated concept
    makes its own removal panic ([duplicate_concepts_panic]). *)

From Stdlib Require Import String SpecFloat Sorted.
From stdpp Require Import sorting.
From S2P Require Import Prelude Float64 Sha256 Patterns Ordering Pathways.

Record Engram := mkEngram {
  ID : bytes; Concepts : list bytes; Hashes : list bytes; e_Strength : float64; Resonance : float64; e_Created : Z; e_LastUsed : Z; e_Activations : Z;
  FormationPressure : PressureState; Context : option (gmap bytes bytes);
}.

Record EngramMemory := mkEngrams {
  Engrams : gmap bytes Engram; ConceptIndex : gmap bytes (list bytes); TotalEngrams : Z; em_TotalActivations : Z; em_CreatedAt : Z; em_LastModified : Z;
  em_DecayRate : float64; ResonanceDecay : float64; em_MinStrength : float64; MaxEngrams : Z; MinConceptsMatch : Z; em_storagePath : bytes;
}.

Record ResonanceResult := mkResonance { r_Engram : bytes; Score : float64; MatchCount : Z }.

Record EngramStats := mkEngramStats {
  es_TotalEngrams : Z; es_TotalActivations : Z; es_AverageStrength : float64; StrongestID : bytes; StrongestConcepts : list bytes; es_StrongestStrength : float64;
}.

Definition NewEngramMemory (created modified : Z) (path : bytes) : EngramMemory :=
  mkEngrams ∅ ∅ 0 0 created modified (f_ratio 2 100) (f_ratio 1 100) (f_ratio 1 100) 10000 2 path.

Definition LoadEngramMemory (read : file_read) (unmarshal : bytes -> EngramMemory -> result EngramMemory) (created modified : Z) (path : bytes) : result EngramMemory :=
  let em := NewEngramMemory created modified path in
  match read with
  | NotExist => Ok em
  | ReadError e => Err e
  | Contents data =>
      let? m := unmarshal data em in
      Ok (mkEngrams (Engrams m) (ConceptIndex m) (TotalEngrams m) (em_TotalActivations m) (em_CreatedAt m) (em_LastModified m) (em_DecayRate m) (ResonanceDecay m)
            (em_MinStrength m) (MaxEngrams m) (MinConceptsMatch m) path)
  end.

Definition engrams_Save (mkdir : result unit) (marshal : EngramMemory -> result bytes) (write : bytes -> result unit) (now : Z) (em : EngramMemory) : EngramMemory * result unit :=
  match mkdir with
  | Err e => (em, Err e)
  | Ok _ =>
      let em1 := mkEngrams (Engrams em) (ConceptIndex em) (TotalEngrams em) (em_TotalActivations em) (em_CreatedAt em) now (em_DecayRate em) (ResonanceDecay em)
                   (em_MinStrength em) (MaxEngrams em) (MinConceptsMatch em) (em_storagePath em) in
      (em1, let? data := marshal em1 in write data)
  end.

Definition generateEngramID (concepts : list bytes) : bytes :=
  hex_encode (take 12 (sha256 (concat (map (fun c => c ++ bs "|") (sort_Strings concepts))))).

(** The fields that the operations change. *)
Definition with_engrams (es : gmap bytes Engram) (idx : gmap bytes (list bytes)) (n total : Z) (em : EngramMemory) : EngramMemory :=
  mkEngrams es idx n total (em_CreatedAt em) (em_LastModified em) (em_DecayRate em) (ResonanceDecay em) (em_MinStrength em) (MaxEngrams em) (MinConceptsMatch em) (em_storagePath em).

(** One more use of an engram at [now]. *)
Definition activated (now : Z) (ds dr : float64) (ctx : option (gmap bytes bytes)) (e : Engram) : Engram :=
  mkEngram (ID e) (Concepts e) (Hashes e) (bump f1 ds (e_Strength e)) (bump f1 dr (Resonance e)) (e_Created e) now (i64 (e_Activations e + 1))
    (FormationPressure e) ctx.

Definition ActivateEngram (now : Z) (engramID : bytes) (em : EngramMemory) : EngramMemory :=
  match Engrams em !! engramID with
  | None => em
  | Some e => with_engrams (<[engramID := activated now (f_ratio 5 100) (f_ratio 2 100) (Context e) e]> (Engrams em)) (ConceptIndex em) (TotalEngrams em)
                (i64 (em_TotalActivations em + 1)) em
  end.

(** ** Removal *)

(** The loop over the hashes of the engram. *)
Fixpoint unindex (id : bytes) (hashes : list bytes) (idx : gmap bytes (list bytes)) : outcome (gmap bytes (list bytes)) :=
  match hashes with
  | [] => Done idx
  | h :: hs =>
      match idx !! h with
      | None => unindex id hs idx
      | Some ids => let! newIDs := without id ids in unindex id hs (<[h := newIDs]> idx)
      end
  end.

Definition removeEngram (id : bytes) (em : EngramMemory) : outcome EngramMemory :=
  match Engrams em !! id with
  | None => Done em
  | Some e =>
      let! idx := unindex id (Hashes e) (ConceptIndex em) in
      Done (with_engrams (delete id (Engrams em)) idx (i64 (TotalEngrams em - 1)) (em_TotalActivations em) em)
  end.

Fixpoint removeEngrams (ids : list bytes) (em : EngramMemory) : outcome EngramMemory :=
  match ids with [] => Done em | id :: ids => let! em1 := removeEngram id em in removeEngrams ids em1 end.

(** [for _, hash := range hashes { index[hash] = append(index[hash], id) }]. *)
Definition index_all (id : bytes) (hashes : list bytes) (idx : gmap bytes (list bytes)) : gmap bytes (list bytes) :=
  fold_left (fun m h => <[h := default [] (m !! h) ++ [id]]> m) hashes idx.

Section engrams.
Context (pow : float64 -> float64 -> float64).

(** [walk] is the order in which the engrams are visited, [clock] the reading at each visit. *)
Definition pruneWeakest (clock : bytes -> Z) (walk : list bytes) (em : EngramMemory) : outcome EngramMemory :=
  let scores := omap (fun id => (fun e => (id, fmul (e_Strength e) (decayFactor pow (em_DecayRate em) (clock id) (e_LastUsed e)))) <$> Engrams em !! id) walk in
  let sorted := sort_by (fun x y : bytes * float64 => fltb x.2 y.2) scores in
  let toRemove := Nat.max 1 (length sorted / 10) in
  removeEngrams (take toRemove sorted.*1) em.

(** [order] gives the walk over the engrams when the memory is full; the result is the stored engram, which may be pruned
    at once. *)
Definition Store (t1 t2 : Z) (clock : bytes -> Z) (order : gmap bytes Engram -> list bytes) (concepts : list bytes) (pressure : PressureState)
    (context : option (gmap bytes bytes)) (em : EngramMemory) : outcome (EngramMemory * option bytes) :=
  if (length concepts <? 2)%nat then Done (em, None)
  else
    let id := generateEngramID concepts in
    match Engrams em !! id with
    | Some e =>
        let ctx := Some (default ∅ context ∪ default ∅ (Context e)) in
        Done (with_engrams (<[id := activated t2 (f_ratio 1 10) (f_ratio 5 100) ctx e]> (Engrams em)) (ConceptIndex em) (TotalEngrams em) (i64 (em_TotalActivations em + 1)) em,
              Some id)
    | None =>
        let hashes := map ConceptHash concepts in
        let e := mkEngram id concepts hashes (f_ratio 3 10) (f_ratio 1 2) t1 t2 1 pressure context in
        let em1 := with_engrams (<[id := e]> (Engrams em)) (index_all id hashes (ConceptIndex em)) (i64 (TotalEngrams em + 1)) (em_TotalActivations em) em in
        let! em2 := (if MaxEngrams em <? Z.of_nat (size (Engrams em1)) then pruneWeakest clock (order (Engrams em1)) em1 else Done em1) in
        Done (with_engrams (Engrams em2) (ConceptIndex em2) (TotalEngrams em2) (i64 (em_TotalActivations em2 + 1)) em2, Some id)
    end.

(** ** Resonance *)

Definition pressureSimilarity (a b : PressureState) : float64 :=
  let dM := SFabs (fsub (Hadamard a) (Hadamard b)) in
  let dC := SFabs (fsub (PauliX a) (PauliX b)) in
  let dT := SFabs (fsub (PauliZ a) (PauliZ b)) in
  let dD := SFabs (fsub (Phase a) (Phase b)) in
  fsub f1 (fdiv (fadd (fadd (fadd dM dC) dT) dD) (f_of_Z 4)).

Definition calculateResonance (now : Z) (e : Engram) (matchCount inputCount : Z) (pressure : PressureState) (em : EngramMemory) : float64 :=
  let overlapRatio := fdiv (f_of_Z matchCount) (f_of_Z (Z.of_nat (length (Concepts e)))) in
  let inputCoverage := fdiv (f_of_Z matchCount) (f_of_Z inputCount) in
  let baseScore := fdiv (fadd overlapRatio inputCoverage) (f_of_Z 2) in
  let decayedResonance := fmul (Resonance e) (decayFactor pow (ResonanceDecay em) now (e_LastUsed e)) in
  let decayedStrength := fmul (e_Strength e) (decayFactor pow (em_DecayRate em) now (e_LastUsed e)) in
  let score := fmul (fmul baseScore decayedResonance) decayedStrength in
  let score1 := if fltb f_half (PauliX pressure) then fmul score (fadd f_half (fmul (pressureSimilarity (FormationPressure e) pressure) f_half)) else score in
  if fltb f_half (PauliZ pressure) then fmul score1 (fsub (f_ratio 3 2) (PauliZ pressure)) else score1.

(** The set of the hashes of the input. *)
Definition inputHashes (concepts : list bytes) : gset bytes := list_to_set (map ConceptHash concepts).

(** How often an engram is listed under the hashes of the input; the counts do not depend on the order of the walk. *)
Definition candidates (hashes : gset bytes) (idx : gmap bytes (list bytes)) : gmap bytes Z :=
  fold_left (fun m id => <[id := default 0 (m !! id) + 1]> m) (concat (map (fun h => default [] (idx !! h)) (elements hashes))) ∅.

Definition resonance_of (clock : bytes -> Z) (inputCount : Z) (pressure : PressureState) (em : EngramMemory) (id : bytes) (matchCount : Z) : option ResonanceResult :=
  if matchCount <? MinConceptsMatch em then None
  else match Engrams em !! id with
       | None => None
       | Some e => let score := calculateResonance (clock id) e matchCount inputCount pressure em in
                   if fltb (f_ratio 1 10) score then Some (mkResonance id score matchCount) else None
       end.

(** [order] gives the walk over the candidates. *)
Definition Resonate (clock : bytes -> Z) (order : gmap bytes Z -> list bytes) (concepts : list bytes) (pressure : PressureState) (em : EngramMemory) : list ResonanceResult :=
  let input := inputHashes concepts in
  let cs := candidates input (ConceptIndex em) in
  sort_by (fun x y => fltb (Score y) (Score x))
    (omap (fun id => cs !! id ≫= resonance_of clock (Z.of_nat (size input)) pressure em id) (order cs)).

(** The scores of the concepts of the results that are not in the input. *)
Definition associate (inputSet : gset bytes) (es : gmap bytes Engram) (m : gmap bytes float64) (r : ResonanceResult) : gmap bytes float64 :=
  fold_left (fun m c => if bool_decide (c ∈ inputSet) then m else <[c := fadd (default f0 (m !! c)) (Score r)]> m)
    (default [] (Concepts <$> es !! r_Engram r)) m.

Definition GetAssociatedConcepts (clock : bytes -> Z) (order : gmap bytes Z -> list bytes) (order' : gmap bytes float64 -> list bytes)
    (concepts : list bytes) (pressure : PressureState) (maxResults : Z) (em : EngramMemory) : outcome (list bytes) :=
  let associated := fold_left (associate (list_to_set concepts) (Engrams em)) (Resonate clock order concepts pressure em) ∅ in
  let scored := omap (fun c => (fun s => (c, s)) <$> associated !! c) (order' associated) in
  let sorted := sort_by (fun x y : bytes * float64 => fltb y.2 x.2) scored in
  if maxResults <? 0 then Panic "makeslice: cap out of range" else Done (take (Z.to_nat maxResults) sorted.*1).

(** ** Decay *)

Definition e_fade (now : Z) (em : EngramMemory) (e : Engram) : Engram :=
  mkEngram (ID e) (Concepts e) (Hashes e) (fmul (e_Strength e) (decayFactor pow (em_DecayRate em) now (e_LastUsed e)))
    (fmul (Resonance e) (decayFactor pow (ResonanceDecay em) now (e_LastUsed e))) (e_Created e) (e_LastUsed e) (e_Activations e) (FormationPressure e) (Context e).

Definition engram_visit (clock : bytes -> Z) (em : EngramMemory) : gmap bytes Engram * list bytes -> bytes -> gmap bytes Engram * list bytes :=
  fade_visit (fun id => e_fade (clock id) em) (fun q => fltb (e_Strength q) (em_MinStrength em)).

Definition engrams_Decay (clock : bytes -> Z) (walk : list bytes) (em : EngramMemory) : outcome (EngramMemory * Z) :=
  let r := fold_left (engram_visit clock em) walk (Engrams em, []) in
  let! em1 := removeEngrams r.2 (with_engrams r.1 (ConceptIndex em) (TotalEngrams em) (em_TotalActivations em) em) in
  Done (em1, Z.of_nat (length r.2)).

Definition engrams_Stats (walk : list bytes) (em : EngramMemory) : EngramStats :=
  let es := omap (fun k => Engrams em !! k) walk in
  let n := Z.of_nat (size (Engrams em)) in
  let total := fold_left (fun a e => fadd a (e_Strength e)) es f0 in
  let best := strongest e_Strength es in
  mkEngramStats n (em_TotalActivations em) (if 0 <? n then fdiv total (f_of_Z n) else f0)
    (default [] (ID <$> best)) (default [] (Concepts <$> best)) (default f0 (e_Strength <$> best)).
End engrams.

(** ** The index *)

(** The index lists exactly the engrams of every hash, each once. *)
Definition e_indexed (es : gmap bytes Engram) (idx : gmap bytes (list bytes)) : Prop :=
  forall h, NoDup (default [] (idx !! h)) /\ forall id, id ∈ default [] (idx !! h) <-> exists e, es !! id = Some e /\ h ∈ Hashes e.

(** An engram is stored under its own identifier, which is that of its concepts, and its concepts have distinct hashes. *)
Definition e_keyed (id : bytes) (e : Engram) : Prop :=
  ID e = id /\ id = generateEngramID (Concepts e) /\ Hashes e = map ConceptHash (Concepts e) /\ NoDup (Hashes e) /\ (2 <= length (Concepts e))%nat.

Record engrams_ok (em : EngramMemory) : Prop := {
  eo_keyed : map_Forall e_keyed (Engrams em);
  eo_indexed : e_indexed (Engrams em) (ConceptIndex em);
  eo_total : TotalEngrams em = Z.of_nat (size (Engrams em));
}.

Lemma index_all_lookup id hs idx h :
  NoDup hs -> default [] (index_all id hs idx !! h) = default [] (idx !! h) ++ (if decide (h ∈ hs) then [id] else []).
Proof.
  unfold index_all. revert idx. induction hs as [|x hs IH]; intros idx Hn; cbn [fold_left]; [by rewrite decide_False, app_nil_r by set_solver|].
  apply NoDup_cons in Hn as [Hx Hn]. rewrite IH by done. rewrite default_insert. destruct (decide (x = h)) as [->|Hne].
  - rewrite decide_False, decide_True, app_nil_r by set_solver. done.
  - f_equal. do 2 case_decide; (done || set_solver).
Qed.

Lemma e_indexed_add es idx id e :
  es !! id = None -> NoDup (Hashes e) -> e_indexed es idx -> e_indexed (<[id := e]> es) (index_all id (Hashes e) idx).
Proof.
  intros Hid Hn Hi h. rewrite index_all_lookup by done. destruct (Hi h) as [Hd Hx].
  assert (Hnot : id ∉ default [] (idx !! h)) by (rewrite Hx; intros (? & ? & _); congruence). split.
  - case_decide; [|by rewrite app_nil_r]. apply NoDup_app. split_and!; [done|set_solver|apply NoDup_singleton].
  - intros id'. rewrite elem_of_app, Hx. destruct (decide (id' = id)) as [->|Hne].
    + rewrite lookup_insert_eq. split; [intros [(? & ? & _)|H]; [congruence|]|intros (e' & [= <-] & H); right].
      * case_decide; [by exists e|by apply not_elem_of_nil in H].
      * rewrite decide_True by done. set_solver.
    + rewrite lookup_insert_ne by done. split; [intros [?|H]; [done|]|by left]. case_decide; set_solver.
Qed.

(** Changing engrams but not their hashes keeps the index right. *)
Lemma e_indexed_same es es' idx : (forall id, Hashes <$> es' !! id = Hashes <$> es !! id) -> e_indexed es idx -> e_indexed es' idx.
Proof.
  intros H Hi h. destruct (Hi h) as [Hn Hx]. split; [done|]. intros id. rewrite Hx. specialize (H id).
  destruct (es !! id), (es' !! id); cbn in H; simplify_eq; [|split; by intros (? & ? & _)].
  split; intros (r & [= <-] & Hr); eexists; (split; [done|congruence]).
Qed.

Lemma unindex_spec id hs idx :
  NoDup hs -> (forall h, h ∈ hs -> id ∈ default [] (idx !! h)) ->
  exists idx', unindex id hs idx = Done idx' /\
    forall h, default [] (idx' !! h) = if decide (h ∈ hs) then List.filter (fun k => negb (bytes_eqb k id)) (default [] (idx !! h)) else default [] (idx !! h).
Proof.
  revert idx. induction hs as [|x hs IH]; intros idx Hn Hin; [by exists idx|]. apply NoDup_cons in Hn as [Hx Hn]. cbn [unindex].
  pose proof (Hin x ltac:(set_solver)) as H. destruct (idx !! x) as [ids|] eqn:E; cbn in H; [|by apply not_elem_of_nil in H].
  destruct ids as [|i ids]; [by apply not_elem_of_nil in H|]. unfold without. cbn [outcome_bind].
  destruct (IH (<[x := List.filter (fun k => negb (bytes_eqb k id)) (i :: ids)]> idx) Hn) as (idx' & E' & H').
  { intros h Hh. rewrite default_insert, decide_False by (intros ->; done). apply Hin. set_solver. }
  exists idx'. split; [done|]. intros h. rewrite H', default_insert. destruct (decide (x = h)) as [->|Hne].
  - rewrite decide_False, decide_True by set_solver. by rewrite E.
  - do 2 case_decide; (done || set_solver).
Qed.

Lemma removeEngram_ok id e em :
  engrams_ok em -> Engrams em !! id = Some e -> Z.of_nat (size (Engrams em)) < 2 ^ 62 ->
  exists em', removeEngram id em = Done em' /\ engrams_ok em' /\ Engrams em' = delete id (Engrams em) /\
    em' = with_engrams (Engrams em') (ConceptIndex em') (TotalEngrams em') (em_TotalActivations em) em.
Proof.
  intros [Hk Hi Ht] E Hs. unfold removeEngram. rewrite E. pose proof (Hk id e E) as (_ & _ & _ & Hn & _).
  destruct (unindex_spec id (Hashes e) (ConceptIndex em) Hn) as (idx & Eu & Hu).
  { intros h Hh. apply (proj2 (Hi h)). by exists e. }
  rewrite Eu. cbn [outcome_bind]. eexists. split; [reflexivity|]. split; [|done]. split; cbn [Engrams ConceptIndex TotalEngrams with_engrams].
  - by apply map_Forall_delete.
  - intros h. destruct (Hi h) as [Hd Hx]. rewrite Hu. split.
    + case_decide; [|done]. apply NoDup_ListNoDup, List.NoDup_filter. by apply NoDup_ListNoDup.
    + intros id'. destruct (decide (id' = id)) as [->|Hne].
      * rewrite lookup_delete_eq. split; [|by intros (? & ? & _)]. case_decide as Hh.
        -- rewrite list_elem_of_In, List.filter_In, negb_true_iff, bytes_eqb_false. by intros [_ ?].
        -- rewrite Hx. intros (e' & E' & ?). congruence.
      * rewrite lookup_delete_ne, <- Hx by done. case_decide; [|done].
        rewrite list_elem_of_In, List.filter_In, negb_true_iff, bytes_eqb_false, <- list_elem_of_In. naive_solver.
  - rewrite map_size_delete_Some by (by eexists). rewrite Ht. assert (size (Engrams em) <> 0%nat).
    { intros H0%map_size_empty_inv. rewrite H0, lookup_empty in E. done. }
    rewrite i64_id by (unfold in_i64; lia). lia.
Qed.

Lemma removeEngrams_ok ids em :
  engrams_ok em -> Z.of_nat (size (Engrams em)) < 2 ^ 62 -> NoDup ids -> (forall id, id ∈ ids -> is_Some (Engrams em !! id)) ->
  exists em', removeEngrams ids em = Done em' /\ engrams_ok em' /\ size (Engrams em') = (size (Engrams em) - length ids)%nat /\
    (forall id, Engrams em' !! id = if decide (id ∈ ids) then None else Engrams em !! id) /\
    em' = with_engrams (Engrams em') (ConceptIndex em') (TotalEngrams em') (em_TotalActivations em) em.
Proof.
  revert em. induction ids as [|x ids IH]; intros em Hok Hs Hn Hall.
  { exists em. split; [done|]. split; [done|]. split; [cbn; lia|]. split; [done|by destruct em]. }
  apply NoDup_cons in Hn as [Hx Hn]. destruct (Hall x ltac:(set_solver)) as [e He].
  destruct (removeEngram_ok x e em Hok He Hs) as (em1 & E1 & Hok1 & Hd1 & Hr1).
  assert (Hsz : size (Engrams em1) = (size (Engrams em) - 1)%nat) by (rewrite Hd1, map_size_delete_Some by (by eexists); lia).
  destruct (IH em1 Hok1) as (em2 & E2 & Hok2 & Hs2 & Hd2 & Hr2); [lia|done| |].
  { intros id Hid. rewrite Hd1, lookup_delete_ne by (intros ->; done). apply Hall. set_solver. }
  exists em2. cbn [removeEngrams]. rewrite E1. cbn [outcome_bind]. split; [done|]. split; [done|]. split; [cbn; lia|]. split.
  - intros id. rewrite Hd2, Hd1. destruct (decide (id = x)) as [->|Hne].
    + rewrite lookup_delete_eq. by repeat case_decide; set_solver.
    + rewrite lookup_delete_ne by done. repeat case_decide; (done || set_solver).
  - rewrite Hr2, Hr1. done.
Qed.

(** ** Sequences of operations *)

Section runs.
Context (pow : float64 -> float64 -> float64).

Lemma omap_keys {A B} (f : bytes -> A -> B) (m : gmap bytes A) ks :
  (forall k, k ∈ ks -> is_Some (m !! k)) -> (omap (fun k => (fun v => (k, f k v)) <$> m !! k) ks).*1 = ks.
Proof.
  induction ks as [|k ks IH]; intros H; [done|]. destruct (H k ltac:(set_solver)) as [v Hv]. cbn. rewrite Hv. cbn. f_equal. apply IH. set_solver.
Qed.

Lemma prune_ok clock order em :
  walks order -> engrams_ok em -> Z.of_nat (size (Engrams em)) < 2 ^ 62 -> (1 <= size (Engrams em))%nat ->
  exists em', pruneWeakest pow clock (order (Engrams em)) em = Done em' /\ engrams_ok em' /\ (size (Engrams em') < size (Engrams em))%nat /\
    em' = with_engrams (Engrams em') (ConceptIndex em') (TotalEngrams em') (em_TotalActivations em) em.
Proof.
  intros Hw Hok Hs H1. unfold pruneWeakest. set (sc := sort_by _ _).
  assert (Hp : sc.*1 ≡ₚ order (Engrams em)).
  { unfold sc. rewrite sort_by_perm. rewrite (omap_keys (fun id e => fmul (e_Strength e) _)); [done|]. intros k Hk. by apply (walks_spec order (Engrams em) Hw). }
  destruct (walks_spec order (Engrams em) Hw) as [Hn Hin]. rewrite <- Hp in Hn.
  destruct (removeEngrams_ok (take (Nat.max 1 (length sc / 10)) sc.*1) em Hok Hs) as (em' & E & Hok' & Hsz & _ & Hr).
  - eapply sublist_NoDup; [exact Hn|]. apply sublist_take.
  - intros id Hid. apply Hin. rewrite <- Hp. eapply elem_of_subseteq; [|exact Hid]. apply sublist_subseteq, sublist_take.
  - exists em'. split; [exact E|]. split; [done|]. split; [|done]. rewrite Hsz, length_take.
    assert (length sc.*1 = size (Engrams em)) by (rewrite Hp, (Hw (Engrams em)), length_fmap; apply length_map_to_list).
    lia.
Qed.

Lemma store_ok t1 t2 clock order concepts pressure context em :
  walks order -> engrams_ok em -> Z.of_nat (size (Engrams em)) <= MaxEngrams em < 2 ^ 61 -> NoDup (map ConceptHash concepts) ->
  exists em' r, Store pow t1 t2 clock order concepts pressure context em = Done (em', r) /\ engrams_ok em' /\
    Z.of_nat (size (Engrams em')) <= MaxEngrams em' /\ MaxEngrams em' = MaxEngrams em.
Proof.
  intros Hw Hok Hs Hn. unfold Store. destruct (Nat.ltb_spec (length concepts) 2) as [Hl|Hl]; [eexists _, _; split; [reflexivity|]; split; [done|lia]|].
  destruct (Engrams em !! generateEngramID concepts) as [e|] eqn:E.
  - eexists _, _. split; [reflexivity|]. destruct Hok as [Hk Hi Ht]. split; [split|]; cbn [Engrams ConceptIndex TotalEngrams with_engrams MaxEngrams].
    + apply map_Forall_insert_2; [|done]. exact (Hk _ _ E).
    + eapply e_indexed_same; [|exact Hi]. intros id. destruct (decide (id = generateEngramID concepts)) as [->|Hne]; [rewrite lookup_insert_eq, E; done|by rewrite lookup_insert_ne].
    + rewrite map_size_insert_Some by (by eexists). done.
    + rewrite map_size_insert_Some by (by eexists). lia.
  - set (e := mkEngram _ _ _ _ _ _ _ _ _ _). set (em1 := with_engrams (<[_ := e]> _) _ _ _ _).
    assert (Hsz : size (Engrams em1) = S (size (Engrams em))) by (cbn; by rewrite map_size_insert_None).
    assert (Hok1 : engrams_ok em1).
    { destruct Hok as [Hk Hi Ht]. split; cbn [Engrams ConceptIndex TotalEngrams with_engrams em1].
      - apply map_Forall_insert_2; [|done]. done.
      - exact (e_indexed_add _ _ _ e E Hn Hi).
      - rewrite map_size_insert_None by done. rewrite Ht, i64_id by (unfold in_i64; lia). lia. }
    destruct (Z.ltb_spec (MaxEngrams em) (Z.of_nat (size (Engrams em1)))) as [Hlt|Hge].
    + destruct (prune_ok clock order em1 Hw Hok1) as (em2 & E2 & Hok2 & Hs2 & Hr2); [lia..|]. rewrite E2. cbn [outcome_bind].
      eexists _, _. split; [reflexivity|]. destruct Hok2 as [Hk2 Hi2 Ht2].
      assert (HM : MaxEngrams em2 = MaxEngrams em) by (by rewrite Hr2). split; [by split|]. cbn [Engrams MaxEngrams with_engrams]. lia.
    + cbn [outcome_bind]. eexists _, _. split; [reflexivity|]. destruct Hok1 as [Hk1 Hi1 Ht1]. split; [by split|]. cbn [Engrams MaxEngrams with_engrams] in *. split; [exact Hge|done].
Qed.

Lemma activate_ok now id em : engrams_ok em -> engrams_ok (ActivateEngram now id em) /\ size (Engrams (ActivateEngram now id em)) = size (Engrams em) /\
  MaxEngrams (ActivateEngram now id em) = MaxEngrams em.
Proof.
  intros Hok. unfold ActivateEngram. destruct (Engrams em !! id) as [e|] eqn:E; [|done]. destruct Hok as [Hk Hi Ht].
  cbn [Engrams MaxEngrams with_engrams]. rewrite map_size_insert_Some by (by eexists). split; [split|done]; cbn [Engrams ConceptIndex TotalEngrams with_engrams].
  - apply map_Forall_insert_2; [|done]. exact (Hk _ _ E).
  - eapply e_indexed_same; [|exact Hi]. intros id'. destruct (decide (id' = id)) as [->|Hne]; [rewrite lookup_insert_eq, E; done|by rewrite lookup_insert_ne].
  - by rewrite map_size_insert_Some by (by eexists).
Qed.

Lemma e_decay_ok clock order em :
  walks order -> engrams_ok em -> Z.of_nat (size (Engrams em)) < 2 ^ 62 ->
  exists em' n, engrams_Decay pow clock (order (Engrams em)) em = Done (em', n) /\ engrams_ok em' /\ MaxEngrams em' = MaxEngrams em /\
    Engrams em' = map_imap (fun k e => let q := e_fade pow (clock k) em e in if fltb (e_Strength q) (em_MinStrength em) then None else Some q) (Engrams em) /\
    (size (Engrams em') <= size (Engrams em))%nat.
Proof.
  intros Hw Hok Hs. unfold engrams_Decay, engram_visit.
  destruct (fade_walk (fun k => e_fade pow (clock k) em) (fun q => fltb (e_Strength q) (em_MinStrength em)) order (Engrams em) Hw) as (Hall & _ & Hn & Hin).
  set (r := fold_left _ _ _) in *.
  assert (Hsz : size r.1 = size (Engrams em)).
  { rewrite <- !size_dom. f_equal. apply set_eq. intros k. rewrite !elem_of_dom, Hall, fmap_is_Some. done. }
  destruct (removeEngrams_ok r.2 (with_engrams r.1 (ConceptIndex em) (TotalEngrams em) (em_TotalActivations em) em)) as (em' & E & Hok' & Hsz' & Hd & Hr).
  - destruct Hok as [Hk Hi Ht]. split; cbn [Engrams ConceptIndex TotalEngrams with_engrams].
    + intros k q Hq. rewrite Hall in Hq. destruct (Engrams em !! k) as [p|] eqn:Ep; [|done]. injection Hq as <-. exact (Hk k p Ep).
    + apply (e_indexed_same (Engrams em)); [|done]. intros k. rewrite Hall. by destruct (Engrams em !! k).
    + by rewrite Hsz.
  - cbn [Engrams with_engrams]. lia.
  - done.
  - intros k (p & Hp & _)%Hin. cbn [Engrams with_engrams]. rewrite Hall, Hp. by eexists.
  - exists em', (Z.of_nat (length r.2)). rewrite E. split; [done|]. split; [done|]. split; [by rewrite Hr|]. cbn [Engrams with_engrams] in *. split; [|lia].
    apply map_eq. intros k. rewrite Hd, map_lookup_imap, Hall.
    destruct (Engrams em !! k) as [p|] eqn:Ep; [|by case_decide]. cbn. case_decide as Hk.
    + apply Hin in Hk as (p' & Hp' & Hw'). rewrite Ep in Hp'. injection Hp' as <-. cbn in Hw'. by rewrite Hw'.
    + destruct (fltb _ (em_MinStrength em)) eqn:Ew; [|done]. destruct Hk. apply Hin. by exists p.
Qed.

Inductive engram_op :=
  | EStore (t1 t2 : Z) (clock : bytes -> Z) (order : gmap bytes Engram -> list bytes) (concepts : list bytes) (pressure : PressureState) (context : option (gmap bytes bytes))
  | EActivate (now : Z) (id : bytes)
  | EDecay (clock : bytes -> Z) (order : gmap bytes Engram -> list bytes).

Definition engram_apply (o : engram_op) (em : EngramMemory) : outcome EngramMemory :=
  match o with
  | EStore t1 t2 clock order concepts pressure context => let! r := Store pow t1 t2 clock order concepts pressure context em in Done r.1
  | EActivate now id => Done (ActivateEngram now id em)
  | EDecay clock order => let! r := engrams_Decay pow clock (order (Engrams em)) em in Done r.1
  end.

Fixpoint engram_run (ops : list engram_op) (em : EngramMemory) : outcome EngramMemory :=
  match ops with [] => Done em | o :: os => let! em1 := engram_apply o em in engram_run os em1 end.

(** Walks visit every engram once, and no group has two concepts with one hash. *)
Definition engram_op_ok (o : engram_op) : Prop :=
  match o with
  | EStore _ _ _ order concepts _ _ => walks order /\ NoDup (map ConceptHash concepts)
  | EActivate _ _ => True
  | EDecay _ order => walks order
  end.

Definition bounded_engrams (em : EngramMemory) : Prop := engrams_ok em /\ Z.of_nat (size (Engrams em)) <= MaxEngrams em /\ MaxEngrams em = 10000.

Lemma engram_apply_ok o em : engram_op_ok o -> bounded_engrams em -> exists em', engram_apply o em = Done em' /\ bounded_engrams em'.
Proof.
  intros Ho (Hok & Hs & HM). destruct o as [t1 t2 clock order concepts pressure context|now id|clock order]; cbn [engram_apply].
  - destruct Ho as [Hw Hn]. destruct (store_ok t1 t2 clock order concepts pressure context em Hw Hok ltac:(lia) Hn) as (em' & r & E & Hok' & Hs' & HM').
    rewrite E. eexists. split; [reflexivity|]. split; [done|]. split; [done|]. cbn. lia.
  - destruct (activate_ok now id em Hok) as (Hok' & Hs' & HM'). eexists. split; [reflexivity|]. split; [done|]. rewrite Hs', HM'. done.
  - destruct (e_decay_ok clock order em Ho Hok ltac:(lia)) as (em' & n & E & Hok' & HM' & _ & Hs'). rewrite E. eexists. split; [reflexivity|].
    split; [done|]. cbn. lia.
Qed.

Lemma new_engrams_ok created modified path : bounded_engrams (NewEngramMemory created modified path).
Proof.
  split; [|done]. split; cbn; [intros id e He; by rewrite lookup_empty in He| |done]. intros h. rewrite lookup_empty. split; [constructor|].
  intros id. split; [intros H; by apply not_elem_of_nil in H|]. intros (e & He & _). by rewrite lookup_empty in He.
Qed.

(** As long as every stored group has concepts with distinct hashes, no operation panics, at most ten thousand engrams are
    kept, the counter is their number, each is stored under the identifier of its concepts, and the index lists
    under every hash exactly the engrams that have it, once. *)
Theorem engrams_sound created modified path ops :
  Forall engram_op_ok ops ->
  exists em, engram_run ops (NewEngramMemory created modified path) = Done em /\
    TotalEngrams em = Z.of_nat (size (Engrams em)) /\ TotalEngrams em <= 10000 /\
    (forall id e, Engrams em !! id = Some e -> id = generateEngramID (Concepts e)) /\
    forall h, NoDup (default [] (ConceptIndex em !! h)) /\
      forall id, id ∈ default [] (ConceptIndex em !! h) <-> exists e, Engrams em !! id = Some e /\ h ∈ map ConceptHash (Concepts e).
Proof.
  intros H. assert (K : forall em, bounded_engrams em -> exists em', engram_run ops em = Done em' /\ bounded_engrams em').
  { induction H as [|o os Ho _ IH]; intros em Hb; [by exists em|]. destruct (engram_apply_ok o em Ho Hb) as (em1 & E & Hb1).
    cbn [engram_run]. rewrite E. by apply IH. }
  destruct (K _ (new_engrams_ok created modified path)) as (em & E & [Hk Hi Ht] & Hs & HM). exists em. split; [done|]. split; [done|]. split; [lia|].
  split; [intros id e He; apply (Hk id e He)|]. intros h. destruct (Hi h) as [Hn Hx]. split; [done|]. intros id. rewrite Hx.
  split; intros (e & He & Hh); exists e; (split; [done|]); destruct (Hk id e He) as (_ & _ & EH & _); congruence.
Qed.
End runs.

(** ** Recall *)

Definition occurrences (id : bytes) (l : list bytes) : nat := length (List.filter (bytes_eqb id) l).

Lemma count_fold (l : list bytes) (m : gmap bytes Z) (id : bytes) :
  fold_left (fun m id => <[id := default 0 (m !! id) + 1]> m) l m !! id =
  if decide (id ∈ l) then Some (default 0 (m !! id) + Z.of_nat (occurrences id l)) else m !! id.
Proof.
  revert m. induction l as [|x l IH]; intros m; [done|]. cbn [fold_left]. rewrite IH. unfold occurrences. cbn [List.filter].
  destruct (decide (id = x)) as [->|Hne].
  - rewrite bytes_eqb_refl. rewrite !lookup_insert_eq. cbn [length default from_option id]. case_decide as H.
    + rewrite decide_True by set_solver. f_equal. cbn. lia.
    + rewrite decide_True by set_solver. replace (List.filter (bytes_eqb x) l) with (@nil bytes); [done|].
      symmetry. apply nil_length_inv. destruct (List.filter (bytes_eqb x) l) as [|y ys] eqn:E; [done|].
      assert (Hy : In y (List.filter (bytes_eqb x) l)) by (rewrite E; by left). apply List.filter_In in Hy as [Hy Ey].
      apply bytes_eqb_true in Ey as <-. destruct H. by apply list_elem_of_In.
  - rewrite (proj2 (bytes_eqb_false id x)) by done. rewrite !lookup_insert_ne by done. do 2 case_decide; (done || set_solver).
Qed.

Lemma occurrences_NoDup id l : NoDup l -> occurrences id l = if decide (id ∈ l) then 1%nat else 0%nat.
Proof.
  unfold occurrences. induction l as [|x l IH]; intros Hn; [done|]. apply NoDup_cons in Hn as [Hx Hn]. cbn [List.filter]. specialize (IH Hn).
  destruct (decide (id = x)) as [->|Hne].
  - rewrite bytes_eqb_refl. cbn [length]. rewrite IH, decide_False, decide_True by (done || set_solver). done.
  - rewrite (proj2 (bytes_eqb_false id x)) by done. rewrite IH. do 2 case_decide; (done || set_solver).
Qed.

Lemma occurrences_concat id (g : bytes -> list bytes) hs :
  (forall h, NoDup (g h)) -> occurrences id (concat (map g hs)) = length (List.filter (fun h => bool_decide (id ∈ g h)) hs).
Proof.
  intros Hn. induction hs as [|h hs IH]; [done|]. cbn [map concat List.filter]. unfold occurrences in *. rewrite List.filter_app, length_app, IH.
  fold (occurrences id (g h)). rewrite occurrences_NoDup by done. case_decide; [rewrite bool_decide_true by done|rewrite bool_decide_false by done]; done.
Qed.

Lemma size_filter_elements (H X : gset bytes) : length (List.filter (fun h => bool_decide (h ∈ X)) (elements H)) = size (H ∩ X).
Proof.
  assert (Hn : NoDup (List.filter (fun h => bool_decide (h ∈ X)) (elements H))).
  { apply NoDup_ListNoDup, List.NoDup_filter, NoDup_ListNoDup, NoDup_elements. }
  rewrite <- (size_list_to_set (C := gset bytes)) by done. f_equal. apply set_eq. intros h.
  rewrite elem_of_list_to_set, list_elem_of_In, List.filter_In, <- list_elem_of_In, bool_decide_eq_true. set_solver.
Qed.

(** How many hashes of the input an engram has. *)
Definition shared (concepts : list bytes) (e : Engram) : Z := Z.of_nat (size (inputHashes concepts ∩ list_to_set (Hashes e))).

Lemma candidates_exact concepts em id :
  engrams_ok em ->
  match candidates (inputHashes concepts) (ConceptIndex em) !! id with
  | Some n => exists e, Engrams em !! id = Some e /\ n = shared concepts e
  | None => forall e, Engrams em !! id = Some e -> shared concepts e = 0
  end.
Proof.
  intros [_ Hi _]. unfold candidates. rewrite count_fold, lookup_empty. set (l := concat _).
  assert (Ho : occurrences id l = length (List.filter (fun h => bool_decide (id ∈ default [] (ConceptIndex em !! h))) (elements (inputHashes concepts)))).
  { apply (occurrences_concat id (fun h => default [] (ConceptIndex em !! h))). intros h. apply (Hi h). }
  assert (He : forall e, Engrams em !! id = Some e -> Z.of_nat (occurrences id l) = shared concepts e).
  { intros e He. unfold shared. rewrite Ho, <- size_filter_elements. do 2 f_equal. apply List.filter_ext. intros h. apply bool_decide_ext.
    rewrite (proj2 (Hi h)), elem_of_list_to_set. naive_solver. }
  case_decide as Hl.
  - apply list_elem_of_In, in_concat in Hl as (ids & Hids & Hid). apply in_map_iff in Hids as (h & <- & Hh). apply list_elem_of_In, (Hi h) in Hid as (e & E & _).
    exists e. split; [done|]. rewrite <- (He e E). cbn. lia.
  - intros e E. rewrite <- (He e E). rewrite Ho. destruct (List.filter _ _) as [|h hs] eqn:Ef; [done|]. destruct Hl.
    assert (Hh : In h (List.filter (fun h => bool_decide (id ∈ default [] (ConceptIndex em !! h))) (elements (inputHashes concepts)))) by (rewrite Ef; by left).
    apply List.filter_In in Hh as [Hh Hb]. apply bool_decide_eq_true in Hb. apply list_elem_of_In, in_concat. exists (default [] (ConceptIndex em !! h)).
    split; [by apply (in_map (fun h => default [] (ConceptIndex em !! h)))|by apply list_elem_of_In].
Qed.

Section recall.
Context (pow : float64 -> float64 -> float64).

Lemma resonance_of_Some clock n pressure em id c r :
  resonance_of pow clock n pressure em id c = Some r <->
  exists e, Engrams em !! id = Some e /\ r_Engram r = id /\ MatchCount r = c /\ MinConceptsMatch em <= c /\
    Score r = calculateResonance pow (clock id) e c n pressure em /\ fltb (f_ratio 1 10) (Score r) = true.
Proof.
  unfold resonance_of. destruct (Z.ltb_spec c (MinConceptsMatch em)) as [H|H]; [split; [done|]; intros (e & _ & _ & _ & ? & _); lia|].
  destruct (Engrams em !! id) as [e|]; [|split; [done|]; by intros (e & ? & _)]. cbv zeta.
  destruct (fltb _ (calculateResonance _ _ e _ _ _ _)) eqn:E.
  - split; [intros [= <-]; by exists e|]. intros (e' & [= <-] & H1 & H2 & _ & H3 & _). f_equal. destruct r. cbn in *. congruence.
  - split; [done|]. intros (e' & [= <-] & _ & _ & _ & H3 & H4). congruence.
Qed.

(** C34: When the index is right, recall gives exactly the engrams that share at least the required number of hashes with the input and
    whose score is above a tenth, each once, in descending order of their scores. *)
Theorem resonate_exact clock order concepts pressure em :
  walks order -> engrams_ok em -> 1 <= MinConceptsMatch em ->
  let rs := Resonate pow clock order concepts pressure em in
  NoDup (map r_Engram rs) /\
  (forall r, r ∈ rs <-> exists e, Engrams em !! r_Engram r = Some e /\ MatchCount r = shared concepts e /\ MinConceptsMatch em <= MatchCount r /\
     Score r = calculateResonance pow (clock (r_Engram r)) e (MatchCount r) (Z.of_nat (size (inputHashes concepts))) pressure em /\
     fltb (f_ratio 1 10) (Score r) = true) /\
  StronglySorted (fun x y => fltb (Score x) (Score y) = false) rs.
Proof.
  intros Hw Hok Hm. cbv zeta. unfold Resonate. set (cs := candidates _ _). set (l := omap _ (order cs)). destruct (walks_spec order cs Hw) as [Hn Hin].
  assert (Hl : forall r, r ∈ l <-> exists id c, id ∈ order cs /\ cs !! id = Some c /\ resonance_of pow clock (Z.of_nat (size (inputHashes concepts))) pressure em id c = Some r).
  { intros r. unfold l. rewrite list_elem_of_omap. split; [intros (id & H1 & H2); apply bind_Some in H2 as (c & H2 & H3); eauto 10|].
    intros (id & c & H1 & H2 & H3). exists id. split; [done|]. apply bind_Some. eauto. }
  split; [|split].
  - assert (Hp : map r_Engram (sort_by (fun x y => fltb (Score y) (Score x)) l) ≡ₚ map r_Engram l) by (apply Permutation_map, sort_by_perm). rewrite Hp. clear Hp Hl Hin.
    unfold l. clear l. revert Hn. induction (order cs) as [|id ids IH]; intros Hn; [constructor|]. apply NoDup_cons in Hn as [Hx Hn]. cbn.
    destruct (cs !! id ≫= _) as [r|] eqn:E; [|by apply IH]. cbn. apply NoDup_cons. split; [|by apply IH].
    apply bind_Some in E as (c & _ & (e & _ & -> & _)%resonance_of_Some). intros H. apply list_elem_of_fmap in H as (r' & Er & H).
    apply list_elem_of_omap in H as (id' & Hid' & H). apply bind_Some in H as (c' & _ & (e' & _ & Er' & _)%resonance_of_Some). congruence.
  - intros r. rewrite sort_by_perm, Hl. split.
    + intros (id & c & _ & Hc & (e & E & <- & <- & H1 & H2 & H3)%resonance_of_Some). exists e. pose proof (candidates_exact concepts em (r_Engram r) Hok) as H.
      fold cs in H. rewrite Hc in H. destruct H as (e' & E' & Ec). rewrite E in E'. injection E' as <-. auto.
    + intros (e & E & H1 & H2 & H3 & H4). pose proof (candidates_exact concepts em (r_Engram r) Hok) as H. fold cs in H.
      destruct (cs !! r_Engram r) as [c|] eqn:Ec; [|rewrite H1, (H e E) in H2; lia]. destruct H as (e' & E' & Ec'). exists (r_Engram r), c.
      split; [apply Hin; by eexists|]. split; [done|]. apply resonance_of_Some. exists e. rewrite E in E'. injection E' as <-. rewrite Ec', <- H1. auto 10.
  - apply (sort_by_sorted_on (fun r => is_nan (Score r) = false)).
    + intros x y. apply fltb_asym.
    + intros x y z Hx Hy Hz H1 H2. by apply (fltb_ntrans (Score z) (Score y) (Score x)).
    + apply Forall_forall. intros r (id & c & _ & _ & (e & _ & _ & _ & _ & _ & H)%resonance_of_Some)%Hl. by apply fltb_number in H as [_ ?].
Qed.
End recall.

(** ** Identifiers *)

(** The identifier of a group does not depend on the order of its concepts. *)
Theorem engram_id_order concepts concepts' : concepts ≡ₚ concepts' -> generateEngramID concepts = generateEngramID concepts'.
Proof. intros H. unfold generateEngramID. by rewrite (sort_bytes_perm _ _ H). Qed.

(** Concepts are joined by a bar that they may contain. *)
Theorem engram_id_ambiguous : generateEngramID [bs "a|b"; bs "c"] = generateEngramID [bs "a"; bs "b|c"].
Proof. reflexivity. Qed.

(** The removal of an engram whose group had one concept twice panics: the first visit of the hash empties the entry of
    the index, the second asks for a slice of capacity minus one. *)
Theorem duplicate_concepts_panic pow t1 t2 clock order word pressure :
  let em := NewEngramMemory 0 0 [] in
  exists em' id, Store pow t1 t2 clock order [word; word] pressure None em = Done (em', Some id) /\
    removeEngram id em' = Panic "makeslice: cap out of range".
Proof.
  cbv zeta. unfold Store. cbn [length Nat.ltb Nat.leb Engrams NewEngramMemory]. rewrite lookup_empty.
  cbn [with_engrams Engrams MaxEngrams TotalEngrams ConceptIndex map NewEngramMemory]. rewrite map_size_insert_None by apply lookup_empty.
  rewrite map_size_empty. change (10000 <? Z.of_nat 1) with false. cbn [outcome_bind]. eexists _, _. split; [reflexivity|].
  unfold removeEngram. cbn [with_engrams Engrams ConceptIndex]. rewrite lookup_insert_eq. cbn [Hashes unindex index_all fold_left].
  rewrite !lookup_insert_eq, lookup_empty. cbn [default from_option id app without outcome_bind List.filter negb].
  rewrite bytes_eqb_refl. cbn [negb List.filter without outcome_bind]. rewrite lookup_insert_eq. done.
Qed.

(** *** On concrete input *)

Definition toy_walk {V} (m : gmap bytes V) : list bytes := (map_to_list m).*1.

Lemma toy_walk_walks {V} : walks (toy_walk (V := V)).
Proof. by intros m. Qed.

Definition toy_pressure : PressureState := mkPressure f_half f_half f_half f_half.

Definition toy_concepts : list bytes := [bs "sun"; bs "moon"; bs "tide"].

Lemma toy_concepts_distinct : NoDup (map ConceptHash toy_concepts).
Proof. apply (bool_decide_unpack _). vm_compute. exact I. Qed.

Definition toy_engrams : EngramMemory :=
  match Store toy_pow 1 2 (fun _ => 3) toy_walk toy_concepts toy_pressure None (NewEngramMemory 0 0 []) with
  | Done r => ActivateEngram 3 (generateEngramID toy_concepts) r.1
  | _ => NewEngramMemory 0 0 []
  end.

Lemma toy_engrams_ok : engrams_ok toy_engrams.
Proof.
  unfold toy_engrams. destruct (store_ok toy_pow 1 2 (fun _ => 3) toy_walk toy_concepts toy_pressure None (NewEngramMemory 0 0 [])) as (em' & r & E & Hok & _).
  - apply toy_walk_walks.
  - apply new_engrams_ok.
  - cbn. rewrite map_size_empty. lia.
  - apply toy_concepts_distinct.
  - rewrite E. by apply activate_ok.
Qed.

Lemma engrams_sound_witness :
  exists em, engram_run toy_pow [EStore 1 2 (fun _ => 3) toy_walk toy_concepts toy_pressure None; EActivate 4 (generateEngramID toy_concepts); EDecay (fun _ => toy_day) toy_walk]
               (NewEngramMemory 0 0 []) = Done em /\
    TotalEngrams em = Z.of_nat (size (Engrams em)) /\ TotalEngrams em <= 10000 /\
    (forall id e, Engrams em !! id = Some e -> id = generateEngramID (Concepts e)) /\
    forall h, NoDup (default [] (ConceptIndex em !! h)) /\
      forall id, id ∈ default [] (ConceptIndex em !! h) <-> exists e, Engrams em !! id = Some e /\ h ∈ map ConceptHash (Concepts e).
Proof.
  apply engrams_sound. repeat apply List.Forall_cons; try apply List.Forall_nil; [split; [apply toy_walk_walks|apply toy_concepts_distinct]|exact I|apply toy_walk_walks].
Defined.

(** Two words recall the engram. *)
Example toy_recall :
  map r_Engram (Resonate toy_pow (fun _ => 3) toy_walk [bs "moon"; bs "sun"] toy_pressure toy_engrams) = [generateEngramID toy_concepts].
Proof. vm_compute. reflexivity. Qed.

Lemma resonate_exact_witness :
  let rs := Resonate toy_pow (fun _ => 3) toy_walk [bs "moon"; bs "sun"] toy_pressure toy_engrams in
  NoDup (map r_Engram rs) /\
  (forall r, r ∈ rs <-> exists e, Engrams toy_engrams !! r_Engram r = Some e /\ MatchCount r = shared [bs "moon"; bs "sun"] e /\ MinConceptsMatch toy_engrams <= MatchCount r /\
     Score r = calculateResonance toy_pow ((fun _ => 3) (r_Engram r)) e (MatchCount r) (Z.of_nat (size (inputHashes [bs "moon"; bs "sun"]))) toy_pressure toy_engrams /\
     fltb (f_ratio 1 10) (Score r) = true) /\
  StronglySorted (fun x y => fltb (Score x) (Score y) = false) rs.
Proof. apply (resonate_exact toy_pow (fun _ => 3) toy_walk); [apply toy_walk_walks|exact toy_engrams_ok|vm_compute; discriminate]. Defined.

Lemma engram_id_order_witness : generateEngramID [bs "sun"; bs "moon"] = generateEngramID [bs "moon"; bs "sun"].
Proof. apply engram_id_order. apply Permutation_swap. Defined.
