(* ===== verification/Working.v ===== *)
(** * Working memory ([memory/context.go])

    Contents: the turns of a conversation, the weights of the concepts in it and the stack of concepts in focus.
    Readings of the clock and the text of the clock that a session identifier is made of are arguments, and so are
    the orders in which Go walks the map of weights.  A capacity or length that is negative panics, as
    Go's [make] and slices do.

    The theorems: after any sequence of turns and clearings the turns are the last fifty since the last
    clearing, the focus is the first five distinct concepts from the newest turn backwards, and at most a hundred concepts have
    weights ([working_memory_refines]); what pruning drops is not heavier than what it keeps
    ([prune_keeps_heaviest]); the top concepts are the heaviest, heaviest first ([top_concepts]). *)

From Stdlib Require Import String SpecFloat Sorted.
From stdpp Require Import sorting.
From S2P Require Import Prelude Float64 Patterns Ordering Pathways.

Record ConversationTurn := mkTurn { Role : bytes; Content : bytes; t_Concepts : list bytes; Timestamp : Z; t_Pressure : PressureState }.

Record WorkingMemory := mkWorking {
  Turns : list ConversationTurn; ActiveConcepts : gmap bytes float64; FocusStack : list bytes; SessionID : bytes; SessionStart : Z; LastActivity : Z;
  MaxTurns : Z; ConceptDecay : float64; MaxConcepts : Z; FocusStackSize : Z; wm_storagePath : bytes;
}.

Record WorkingMemoryStats := mkWorkingStats {
  ws_SessionID : bytes; TurnCount : Z; ws_ActiveConcepts : Z; FocusItems : Z; SessionAge : Z; ws_LastActivity : Z;
}.

(** [text] is the printed clock; the hash has sixteen characters. *)
Definition generateSessionID (text : bytes) : bytes := take 16 (ConceptHash text).

Definition NewWorkingMemory (text : bytes) (start activity : Z) (path : bytes) : WorkingMemory :=
  mkWorking [] ∅ [] (generateSessionID text) start activity 50 (f_ratio 8 10) 100 5 path.

(** The second text and reading are those of a session that starts because the saved one is more than an hour old. *)
Definition LoadWorkingMemory (read : file_read) (unmarshal : bytes -> WorkingMemory -> result WorkingMemory) (text text' : bytes) (start activity now restart : Z) (path : bytes) : result WorkingMemory :=
  let wm := NewWorkingMemory text start activity path in
  match read with
  | NotExist => Ok wm
  | ReadError e => Err e
  | Contents data =>
      let? m := unmarshal data wm in
      Ok (if hour <? Since now (LastActivity m)
          then mkWorking [] ((fun w => fmul w (f_ratio 3 10)) <$> ActiveConcepts m) (FocusStack m) (generateSessionID text') restart (LastActivity m)
                 (MaxTurns m) (ConceptDecay m) (MaxConcepts m) (FocusStackSize m) path
          else mkWorking (Turns m) (ActiveConcepts m) (FocusStack m) (SessionID m) (SessionStart m) (LastActivity m)
                 (MaxTurns m) (ConceptDecay m) (MaxConcepts m) (FocusStackSize m) path)
  end.

Definition working_Save (mkdir : result unit) (marshal : WorkingMemory -> result bytes) (write : bytes -> result unit) (wm : WorkingMemory) : result unit :=
  let? _ := mkdir in let? data := marshal wm in write data.

(** ** A turn *)

Definition set_concepts (m : gmap bytes float64) (wm : WorkingMemory) : WorkingMemory :=
  mkWorking (Turns wm) m (FocusStack wm) (SessionID wm) (SessionStart wm) (LastActivity wm) (MaxTurns wm) (ConceptDecay wm) (MaxConcepts wm) (FocusStackSize wm) (wm_storagePath wm).

Definition set_focus (fs : list bytes) (wm : WorkingMemory) : WorkingMemory :=
  mkWorking (Turns wm) (ActiveConcepts wm) fs (SessionID wm) (SessionStart wm) (LastActivity wm) (MaxTurns wm) (ConceptDecay wm) (MaxConcepts wm) (FocusStackSize wm) (wm_storagePath wm).

Definition set_turns (ts : list ConversationTurn) (now : Z) (wm : WorkingMemory) : WorkingMemory :=
  mkWorking ts (ActiveConcepts wm) (FocusStack wm) (SessionID wm) (SessionStart wm) now (MaxTurns wm) (ConceptDecay wm) (MaxConcepts wm) (FocusStackSize wm) (wm_storagePath wm).

(** The loop over the weights: each is visited once, and a visit touches only its own entry. *)
Definition decay_concepts (rate : float64) (m : gmap bytes float64) : gmap bytes float64 :=
  map_imap (fun _ w => let w' := fmul w rate in if fltb w' (f_ratio 1 100) then None else Some w') m.

Definition activate_concepts (concepts : list bytes) (m : gmap bytes float64) : gmap bytes float64 :=
  fold_left (fun m c => <[c := f1]> m) concepts m.

(** One loop of [updateFocus]. *)
Fixpoint focus_add (size : Z) (newFocus cs : list bytes) : list bytes :=
  match cs with
  | [] => newFocus
  | c :: cs => if size <=? Z.of_nat (length newFocus) then newFocus
               else focus_add size (if existsb (bytes_eqb c) newFocus then newFocus else newFocus ++ [c]) cs
  end.

Definition updateFocus (concepts : list bytes) (wm : WorkingMemory) : outcome WorkingMemory :=
  if FocusStackSize wm <? 0 then Panic "makeslice: cap out of range"
  else Done (set_focus (focus_add (FocusStackSize wm) (focus_add (FocusStackSize wm) [] concepts) (FocusStack wm)) wm).

Definition weighted (m : gmap bytes float64) (walk : list bytes) : list (bytes * float64) := omap (fun c => (fun w => (c, w)) <$> m !! c) walk.

(** The last loop of [pruneWeakestConcepts]. *)
Fixpoint drop_concepts (maxN : Z) (l : list bytes) (m : gmap bytes float64) : gmap bytes float64 :=
  match l with
  | [] => m
  | c :: l => if maxN <? Z.of_nat (size m) then drop_concepts maxN l (delete c m) else m
  end.

Definition pruneWeakestConcepts (walk : list bytes) (wm : WorkingMemory) : WorkingMemory :=
  let list := exchange_sort (fun x y : bytes * float64 => fltb x.2 y.2) (weighted (ActiveConcepts wm) walk) in
  set_concepts (drop_concepts (MaxConcepts wm) list.*1 (ActiveConcepts wm)) wm.

(** [stamp] and [now] are the readings of the turn and of the end, [order] the walk when there are too many concepts. *)
Definition AddTurn (stamp now : Z) (order : gmap bytes float64 -> list bytes) (role content : bytes) (concepts : list bytes) (pressure : PressureState)
    (wm : WorkingMemory) : outcome WorkingMemory :=
  let turn := mkTurn role content concepts stamp pressure in
  let wm1 := set_concepts (activate_concepts concepts (decay_concepts (ConceptDecay wm) (ActiveConcepts wm))) wm in
  let wm2 := if MaxConcepts wm <? Z.of_nat (size (ActiveConcepts wm1)) then pruneWeakestConcepts (order (ActiveConcepts wm1)) wm1 else wm1 in
  let! wm3 := updateFocus concepts wm2 in
  let ts := Turns wm3 ++ [turn] in
  let n := Z.of_nat (length ts) in
  if MaxTurns wm3 <? n
  then if MaxTurns wm3 <? 0 then Panic "slice bounds out of range" else Done (set_turns (drop (Z.to_nat (n - MaxTurns wm3)) ts) now wm3)
  else Done (set_turns ts now wm3).

Definition Clear (text : bytes) (start activity : Z) (wm : WorkingMemory) : WorkingMemory :=
  mkWorking [] ∅ [] (generateSessionID text) start activity (MaxTurns wm) (ConceptDecay wm) (MaxConcepts wm) (FocusStackSize wm) (wm_storagePath wm).

(** ** Queries *)

Definition GetActiveConcepts (wm : WorkingMemory) : gmap bytes float64 := ActiveConcepts wm.

Definition GetTopConcepts (n : Z) (walk : list bytes) (wm : WorkingMemory) : outcome (list bytes) :=
  let list := exchange_sort (fun x y : bytes * float64 => fltb y.2 x.2) (weighted (ActiveConcepts wm) walk) in
  if n <? 0 then Panic "makeslice: cap out of range" else Done (take (Z.to_nat n) list.*1).

Definition GetFocus (wm : WorkingMemory) : list bytes := FocusStack wm.

Definition GetRecentTurns (n : Z) (wm : WorkingMemory) : outcome (list ConversationTurn) :=
  let len := Z.of_nat (length (Turns wm)) in
  let n := if len <? n then len else n in
  if n <? 0 then Panic "makeslice: len out of range" else Done (drop (Z.to_nat (len - n)) (Turns wm)).

(** The last turn of a role: its content and concepts. *)
Definition last_of (role : bytes) (ts : list ConversationTurn) : option (bytes * list bytes) :=
  (fun t => (Content t, t_Concepts t)) <$> List.find (fun t => bytes_eqb (Role t) role) (rev ts).

Definition GetLastUserMessage (wm : WorkingMemory) : option (bytes * list bytes) := last_of (bs "user") (Turns wm).
Definition GetLastResponse (wm : WorkingMemory) : option (bytes * list bytes) := last_of (bs "assistant") (Turns wm).

Definition working_Stats (now now' : Z) (wm : WorkingMemory) : WorkingMemoryStats :=
  mkWorkingStats (SessionID wm) (Z.of_nat (length (Turns wm))) (Z.of_nat (size (ActiveConcepts wm))) (Z.of_nat (length (FocusStack wm)))
    (Since now (SessionStart wm)) (Since now' (LastActivity wm)).

(** ** Distinct elements in order of appearance *)

Definition add_new (acc : list bytes) (c : bytes) : list bytes := if existsb (bytes_eqb c) acc then acc else acc ++ [c].

(** [acc] and then the elements of [l] that are new, in order. *)
Definition uniq (acc l : list bytes) : list bytes := fold_left add_new l acc.

Lemma existsb_elem c l : existsb (bytes_eqb c) l = true <-> c ∈ l.
Proof.
  rewrite existsb_exists, list_elem_of_In. split; [intros (x & H & E); by apply bytes_eqb_true in E as ->|]. intros H. exists c. split; [done|]. apply bytes_eqb_refl.
Qed.

Lemma existsb_notin c l : existsb (bytes_eqb c) l = false <-> c ∉ l.
Proof. rewrite <- existsb_elem. by rewrite not_true_iff_false. Qed.

Lemma uniq_app acc l l' : uniq acc (l ++ l') = uniq (uniq acc l) l'.
Proof. apply fold_left_app. Qed.

(** The new elements are the distinct elements of [l] that are not in [acc]. *)
Lemma uniq_filter acc l : uniq acc l = acc ++ List.filter (fun c => negb (existsb (bytes_eqb c) acc)) (uniq [] l).
Proof.
  induction l as [|c l IH] using rev_ind; [by rewrite app_nil_r|]. rewrite !uniq_app. cbn [uniq fold_left]. rewrite IH. set (u := uniq [] l).
  unfold add_new at 1 2. rewrite existsb_app. destruct (existsb (bytes_eqb c) u) eqn:Eu.
  - assert (H : existsb (bytes_eqb c) acc || existsb (bytes_eqb c) (List.filter (fun c => negb (existsb (bytes_eqb c) acc)) u) = true); [|by rewrite H].
    destruct (existsb (bytes_eqb c) acc) eqn:Ea; [done|]. cbn. apply existsb_elem. apply list_elem_of_In, List.filter_In. rewrite Ea. split; [|done].
    by apply list_elem_of_In, existsb_elem.
  - rewrite List.filter_app. cbn [List.filter]. destruct (existsb (bytes_eqb c) acc) eqn:Ea; cbn [orb negb]; [by rewrite app_nil_r|].
    rewrite (proj2 (existsb_notin c (List.filter _ u))); [by rewrite <- (assoc_L (++))|].
    intros H. apply list_elem_of_In, List.filter_In in H as [H _]. apply list_elem_of_In, existsb_elem in H. congruence.
Qed.

Lemma uniq_NoDup l : NoDup (uniq [] l).
Proof.
  induction l as [|c l IH] using rev_ind; [constructor|]. rewrite uniq_app. cbn [uniq fold_left]. fold (uniq [] l). unfold add_new.
  destruct (existsb (bytes_eqb c) (uniq [] l)) eqn:E; [done|]. apply existsb_notin in E. apply NoDup_app. split_and!; [done|set_solver|apply NoDup_singleton].
Qed.

Lemma uniq_of_NoDup l : NoDup l -> uniq [] l = l.
Proof.
  induction l as [|c l IH] using rev_ind; intros Hn; [done|]. apply NoDup_app in Hn as (Hn & Hd & _). rewrite uniq_app, IH by done. cbn. unfold add_new.
  rewrite (proj2 (existsb_notin c l)); [done|]. intros H. apply (Hd c H). set_solver.
Qed.

Lemma filter_split_length {A} (p : A -> bool) l : (length (List.filter p l) + length (List.filter (fun x => negb (p x)) l))%nat = length l.
Proof. induction l as [|x l IH]; [done|]. cbn. destruct (p x); cbn; lia. Qed.

(** The first [k] elements after [acc] are among the first [k] distinct ones. *)
Lemma uniq_take_r k acc l : take k (uniq acc (take k (uniq [] l))) = take k (uniq acc l).
Proof.
  rewrite (uniq_filter acc (take k _)), (uniq_filter acc l). pose proof (uniq_NoDup l) as Hn. set (u := uniq [] l) in *.
  assert (Hk : NoDup (take k u)) by (eapply sublist_NoDup; [exact Hn|apply sublist_take]). rewrite (uniq_of_NoDup _ Hk).
  set (p := fun c => negb (existsb (bytes_eqb c) acc)). rewrite !take_app. f_equal.
  destruct (decide (length u <= k)%nat) as [Hl|Hl]; [by rewrite (take_ge u)|].
  assert (Hrem : (length (List.filter (fun x => negb (p x)) (take k u)) <= length acc)%nat).
  { apply (List.NoDup_incl_length (l' := acc)); [by apply List.NoDup_filter, NoDup_ListNoDup|]. intros x Hx. apply List.filter_In in Hx as [_ Hx].
    unfold p in Hx. rewrite negb_involutive in Hx. by apply list_elem_of_In, existsb_elem. }
  pose proof (filter_split_length p (take k u)) as Hsp. rewrite length_take in Hsp.
  rewrite <- (take_drop k u) at 2. rewrite List.filter_app, take_app_le by lia. done.
Qed.

Lemma uniq_take_l k acc l : take k (uniq (take k acc) l) = take k (uniq acc l).
Proof.
  destruct (decide (length acc <= k)%nat) as [Hl|Hl]; [by rewrite (take_ge acc)|]. rewrite (uniq_filter (take k acc) l), (uniq_filter acc l).
  rewrite !take_app_le by (rewrite ?length_take; lia).
  rewrite take_take. f_equal. lia.
Qed.

Lemma focus_add_spec size acc cs :
  0 <= size -> (length acc <= Z.to_nat size)%nat -> focus_add size acc cs = take (Z.to_nat size) (uniq acc cs).
Proof.
  intros Hs. revert acc. induction cs as [|c cs IH]; intros acc Hl; cbn [focus_add]; [cbn; by rewrite take_ge|].
  destruct (Z.leb_spec size (Z.of_nat (length acc))) as [H|H].
  - rewrite uniq_filter, take_app_le, take_ge by lia. done.
  - rewrite IH; [done|]. case_match; [done|]. rewrite length_app. cbn. lia.
Qed.

(** Both loops together. *)
Lemma focus_spec size concepts rest :
  0 <= size -> focus_add size (focus_add size [] concepts) (take (Z.to_nat size) (uniq [] rest)) = take (Z.to_nat size) (uniq [] (concepts ++ rest)).
Proof.
  intros Hs. rewrite (focus_add_spec size []) by (cbn; lia). rewrite focus_add_spec by (rewrite ?length_take; lia).
  by rewrite uniq_take_l, uniq_take_r, uniq_app.
Qed.

(** ** Weights *)

Definition numbers (m : gmap bytes float64) : Prop := map_Forall (fun _ w => is_nan w = false) m.

Lemma fmul_number x y : is_nan x = false -> pos_finite y = true -> is_nan (fmul x y) = false.
Proof. destruct x, y as [| | |[] ? ?]; try done. intros _ _. apply round_not_nan. lia. Qed.

Lemma numbers_decay rate m : pos_finite rate = true -> numbers m -> numbers (decay_concepts rate m).
Proof.
  intros Hr Hm c w. unfold decay_concepts. rewrite map_lookup_imap. destruct (m !! c) as [v|] eqn:E; [|done]. cbn. case_match; [done|].
  intros [= <-]. apply fmul_number; [by apply (Hm c)|done].
Qed.

Lemma numbers_activate cs m : numbers m -> numbers (activate_concepts cs m).
Proof. unfold activate_concepts. revert m. induction cs as [|c cs IH]; intros m Hm; [done|]. apply IH. by apply map_Forall_insert_2. Qed.

Section cut.
Context (order : gmap bytes float64 -> list bytes) (m : gmap bytes float64) (Hw : walks order).

Lemma weighted_elem c w : (c, w) ∈ weighted m (order m) <-> m !! c = Some w.
Proof using Hw.
  unfold weighted. rewrite list_elem_of_omap. split.
  - intros (x & _ & H). by apply fmap_Some in H as (v & H & [= -> ->]).
  - intros H. exists c. split; [apply (walks_spec order m Hw); by eexists|]. by rewrite H.
Qed.

Lemma weighted_keys : (weighted m (order m)).*1 = order m.
Proof using Hw.
  unfold weighted. destruct (walks_spec order m Hw) as [_ Hin]. assert (H : forall k, k ∈ order m -> is_Some (m !! k)) by (intros k; apply Hin). clear Hin.
  induction (order m) as [|k ks IH]; [done|]. destruct (H k ltac:(set_solver)) as [v Hv]. cbn. rewrite Hv. cbn. f_equal. apply IH. set_solver.
Qed.

Context (less : bytes * float64 -> bytes * float64 -> bool).
Context (Hasym : forall x y, less x y = true -> less y x = false).
Context (Htrans : forall x y z, is_nan x.2 = false -> is_nan y.2 = false -> is_nan z.2 = false -> less y x = false -> less z y = false -> less z x = false).
Context (Hm : numbers m).

Lemma sorted_weights : let l := exchange_sort less (weighted m (order m)) in
  l.*1 ≡ₚ order m /\ StronglySorted (fun x y => less y x = false) l /\ forall c w, (c, w) ∈ l <-> m !! c = Some w.
Proof using Hw Hasym Htrans Hm.
  cbv zeta. split; [|split].
  - rewrite <- weighted_keys at 2. apply fmap_Permutation, exchange_perm.
  - apply (exchange_sorted (fun x => is_nan x.2 = false)); [done..|]. apply Forall_forall. intros [c w] H%weighted_elem. exact (Hm c w H).
  - intros c w. rewrite (exchange_perm less). apply weighted_elem.
Qed.

(** What comes before a cut is not above what comes after it. *)
Lemma sorted_cut j c w d w' : let ks := (exchange_sort less (weighted m (order m))).*1 in
  c ∈ take j ks -> d ∈ drop j ks -> m !! c = Some w -> m !! d = Some w' -> less (d, w') (c, w) = false.
Proof using Hw Hasym Htrans Hm.
  cbv zeta. destruct sorted_weights as (Hp & Hs & Hl). set (l := exchange_sort _ _) in *. rewrite <- fmap_take, <- fmap_drop.
  intros ([c' v] & -> & Hc)%list_elem_of_fmap ([d' v'] & -> & Hd)%list_elem_of_fmap Ec Ed. cbn [fst] in *.
  assert (v = w) as -> by (assert (m !! c' = Some v); [apply Hl; eapply elem_of_take in Hc as (i & Hi & _); by eapply list_elem_of_lookup_2|congruence]).
  assert (v' = w') as -> by (assert (m !! d' = Some v'); [apply Hl; by eapply subseteq_drop|congruence]).
  rewrite <- (take_drop j l) in Hs. by apply (StronglySorted_app_1_elem_of _ _ _ (c', w) (d', w')) in Hs.
Qed.
End cut.

Lemma drop_concepts_spec maxN l m :
  0 <= maxN -> NoDup l -> (forall c, c ∈ l -> is_Some (m !! c)) ->
  (forall c, drop_concepts maxN l m !! c = if decide (c ∈ take (size m - Z.to_nat maxN) l) then None else m !! c) /\
  size (drop_concepts maxN l m) = (size m - Nat.min (length l) (size m - Z.to_nat maxN))%nat.
Proof.
  intros HN. revert m. induction l as [|x l IH]; intros m Hn Hin; cbn [drop_concepts].
  { rewrite take_nil. split; [done|cbn; lia]. }
  apply NoDup_cons in Hn as [Hx Hn]. destruct (Z.ltb_spec maxN (Z.of_nat (size m))) as [H|H].
  - assert (Hs : size (delete x m) = (size m - 1)%nat) by (rewrite map_size_delete_Some by (apply Hin; set_solver); lia).
    destruct (IH (delete x m) Hn) as [H1 H2]; [intros c Hc; rewrite lookup_delete_ne by (intros ->; done); apply Hin; set_solver|].
    rewrite Hs in H1, H2. split; [|rewrite H2; cbn [length]; lia]. intros c. rewrite H1.
    replace (size m - Z.to_nat maxN)%nat with (S (size m - 1 - Z.to_nat maxN)) by lia. cbn [take]. destruct (decide (c = x)) as [->|Hne].
    + rewrite lookup_delete_eq. by repeat case_decide; set_solver.
    + rewrite lookup_delete_ne by done. repeat case_decide; (done || set_solver).
  - replace (size m - Z.to_nat maxN)%nat with 0%nat by lia. cbn [take]. split; [done|lia].
Qed.

(** Pruning keeps as many concepts as allowed, with their weights, and none that it drops is heavier than one that it keeps. *)
Theorem prune_keeps_heaviest order wm :
  walks order -> numbers (ActiveConcepts wm) -> 0 <= MaxConcepts wm ->
  let m := ActiveConcepts wm in
  let m' := ActiveConcepts (pruneWeakestConcepts (order m) wm) in
  m' ⊆ m /\ Z.of_nat (size m') = Z.min (Z.of_nat (size m)) (MaxConcepts wm) /\
  forall c w d w', m !! c = Some w -> m' !! c = None -> m' !! d = Some w' -> fltb w' w = false.
Proof.
  intros Hw Hn HM. cbv zeta. unfold pruneWeakestConcepts. cbn [ActiveConcepts set_concepts]. set (m := ActiveConcepts wm) in *. set (less := fun x y : bytes * float64 => fltb x.2 y.2).
  assert (Ha : forall x y, less x y = true -> less y x = false) by (intros x y; apply fltb_asym).
  assert (Ht : forall x y z, is_nan x.2 = false -> is_nan y.2 = false -> is_nan z.2 = false -> less y x = false -> less z y = false -> less z x = false)
    by (intros x y z Hx Hy Hz; by apply fltb_ntrans).
  destruct (sorted_weights order m Hw less Ha Ht Hn) as (Hp & _ & _). destruct (walks_spec order m Hw) as [Hnd Hin].
  pose proof (sorted_cut order m Hw less Ha Ht Hn (size m - Z.to_nat (MaxConcepts wm))) as Hcut. cbv zeta in Hcut. set (ks := (exchange_sort _ _).*1) in *.
  assert (Hlen : length ks = size m) by (rewrite Hp, (Hw m), length_fmap; apply length_map_to_list).
  destruct (drop_concepts_spec (MaxConcepts wm) ks m HM) as [Hd Hs]; [by rewrite Hp|intros c Hc; apply Hin; by rewrite <- Hp|]. split; [|split].
  - apply map_subseteq_spec. intros c w. rewrite Hd. by case_decide.
  - rewrite Hs, Hlen. lia.
  - intros c w d w' Ec Hc. rewrite !Hd in *. case_decide as Hc1; [|congruence]. case_decide as Hd1; [done|]. intros Ed.
    apply (Hcut c w d w'); try done. assert (Hdk : d ∈ ks) by (rewrite Hp; apply Hin; by eexists).
    rewrite <- (take_drop (size m - Z.to_nat (MaxConcepts wm)) ks) in Hdk. apply elem_of_app in Hdk as [?|?]; done.
Qed.

(** The top concepts are distinct, as many as asked for or as there are, in descending order of weight, and no other concept is
    heavier than any of them. *)
Theorem top_concepts n order wm :
  walks order -> numbers (ActiveConcepts wm) -> 0 <= n ->
  let m := ActiveConcepts wm in
  exists l, GetTopConcepts n (order m) wm = Done l /\ NoDup l /\ Z.of_nat (length l) = Z.min n (Z.of_nat (size m)) /\
    (forall i j c d w w', l !! i = Some c -> l !! j = Some d -> (i < j)%nat -> m !! c = Some w -> m !! d = Some w' -> fltb w w' = false) /\
    forall c d w w', c ∈ l -> d ∉ l -> m !! c = Some w -> m !! d = Some w' -> fltb w w' = false.
Proof.
  intros Hw Hn H0. cbv zeta. unfold GetTopConcepts. set (m := ActiveConcepts wm) in *. set (less := fun x y : bytes * float64 => fltb y.2 x.2).
  assert (Ha : forall x y, less x y = true -> less y x = false) by (intros x y; apply fltb_asym).
  assert (Ht : forall x y z, is_nan x.2 = false -> is_nan y.2 = false -> is_nan z.2 = false -> less y x = false -> less z y = false -> less z x = false)
    by (intros x y z Hx Hy Hz H1 H2; by apply (fltb_ntrans z.2 y.2 x.2)).
  destruct (sorted_weights order m Hw less Ha Ht Hn) as (Hp & _ & _). destruct (walks_spec order m Hw) as [Hnd Hin].
  pose proof (fun j => sorted_cut order m Hw less Ha Ht Hn j) as Hcut. cbv zeta in Hcut. set (ks := (exchange_sort _ _).*1) in *.
  assert (Hlen : length ks = size m) by (rewrite Hp, (Hw m), length_fmap; apply length_map_to_list).
  rewrite (proj2 (Z.ltb_ge n 0)) by lia. eexists. split; [reflexivity|]. split; [|split; [|split]].
  - eapply sublist_NoDup; [|apply sublist_take]. by rewrite Hp.
  - rewrite length_take, Hlen. lia.
  - intros i j c d w w' Hi Hj Hij Ec Ed. rewrite lookup_take_Some in Hi, Hj. destruct Hi as [Hi _], Hj as [Hj _].
    apply (Hcut j c w d w'); try done.
    + apply elem_of_take. by exists i.
    + apply (list_elem_of_lookup_2 _ 0%nat). rewrite lookup_drop, Nat.add_0_r. done.
  - intros c d w w' Hc Hd Ec Ed. apply (Hcut (Z.to_nat n) c w d w'); try done. assert (Hdk : d ∈ ks) by (rewrite Hp; apply Hin; by eexists).
    rewrite <- (take_drop (Z.to_nat n) ks) in Hdk. apply elem_of_app in Hdk as [?|?]; done.
Qed.

(** ** Conversations *)

Inductive working_op :=
  | WTurn (stamp now : Z) (order : gmap bytes float64 -> list bytes) (role content : bytes) (concepts : list bytes) (pressure : PressureState)
  | WClear (text : bytes) (start activity : Z).

Definition working_apply (o : working_op) (wm : WorkingMemory) : outcome WorkingMemory :=
  match o with
  | WTurn stamp now order role content concepts pressure => AddTurn stamp now order role content concepts pressure wm
  | WClear text start activity => Done (Clear text start activity wm)
  end.

Fixpoint working_run (ops : list working_op) (wm : WorkingMemory) : outcome WorkingMemory :=
  match ops with [] => Done wm | o :: os => let! wm1 := working_apply o wm in working_run os wm1 end.

Definition working_op_ok (o : working_op) : Prop := match o with WTurn _ _ order _ _ _ _ => walks order | WClear _ _ _ => True end.

(** The conversation since it was last cleared. *)
Definition conversation (ts : list ConversationTurn) (o : working_op) : list ConversationTurn :=
  match o with WTurn stamp _ _ role content concepts pressure => ts ++ [mkTurn role content concepts stamp pressure] | WClear _ _ _ => [] end.

Record working_rel (ts : list ConversationTurn) (wm : WorkingMemory) : Prop := {
  wr_params : MaxTurns wm = 50 /\ ConceptDecay wm = f_ratio 8 10 /\ MaxConcepts wm = 100 /\ FocusStackSize wm = 5;
  wr_turns : Turns wm = drop (length ts - 50) ts;
  wr_focus : FocusStack wm = take 5 (uniq [] (concat (map t_Concepts (rev ts))));
  wr_size : Z.of_nat (size (ActiveConcepts wm)) <= 100;
  wr_numbers : numbers (ActiveConcepts wm);
}.

Lemma last_turns (ts : list ConversationTurn) t :
  let l := drop (length ts - 50) ts ++ [t] in
  (if 50 <? Z.of_nat (length l) then drop (Z.to_nat (Z.of_nat (length l) - 50)) l else l) = drop (length (ts ++ [t]) - 50) (ts ++ [t]).
Proof.
  cbv zeta. rewrite !length_app, length_drop. cbn [length]. destruct (Z.ltb_spec 50 (Z.of_nat (length ts - (length ts - 50) + 1))) as [H|H].
  - assert (E : drop (length ts - 50) ts ++ [t] = drop (length ts - 50) (ts ++ [t])) by (rewrite drop_app_le by lia; done). rewrite E, drop_drop. f_equal. lia.
  - replace (length ts - 50)%nat with 0%nat by lia. replace (length ts + 1 - 50)%nat with 0%nat by lia. done.
Qed.

Lemma turn_rel ts stamp now order role content concepts pressure wm :
  walks order -> working_rel ts wm ->
  exists wm', AddTurn stamp now order role content concepts pressure wm = Done wm' /\ working_rel (ts ++ [mkTurn role content concepts stamp pressure]) wm'.
Proof.
  intros Hw [(P1 & P2 & P3 & P4) Ht Hf Hs Hn]. unfold AddTurn. set (m1 := activate_concepts _ _).
  assert (Hn1 : numbers m1) by (apply numbers_activate, numbers_decay; [by rewrite P2|done]).
  set (wm2 := if MaxConcepts wm <? _ then _ else _).
  assert (H2 : wm2 = set_concepts (ActiveConcepts wm2) wm /\ numbers (ActiveConcepts wm2) /\ Z.of_nat (size (ActiveConcepts wm2)) <= 100).
  { unfold wm2. rewrite P3. cbn [ActiveConcepts set_concepts]. destruct (Z.ltb_spec 100 (Z.of_nat (size m1))) as [Hl|Hl]; [|done].
    destruct (prune_keeps_heaviest order (set_concepts m1 wm) Hw Hn1) as (K1 & K2 & _); [cbn; rewrite P3; lia|]. cbn [ActiveConcepts set_concepts MaxConcepts] in K1, K2.
    split; [done|]. split; [|rewrite P3 in K2; lia]. intros c w E. apply (Hn1 c w). by apply (lookup_weaken _ _ _ _ E). }
  clearbody wm2. destruct H2 as (-> & Hn2 & Hs2). cbn [ActiveConcepts set_concepts] in Hn2, Hs2.
  unfold updateFocus. cbn [FocusStackSize set_concepts FocusStack]. rewrite P4, Hf. change (5 <? 0) with false. cbn [outcome_bind set_focus Turns MaxTurns set_concepts].
  rewrite P1, Ht. change (50 <? 0) with false. cbv iota. pose proof (last_turns ts (mkTurn role content concepts stamp pressure)) as HL. cbv zeta in HL.
  destruct (50 <? Z.of_nat _); eexists; (split; [reflexivity|]); (split; cbn [Turns FocusStack ActiveConcepts MaxTurns ConceptDecay MaxConcepts FocusStackSize set_turns set_focus set_concepts];
    [done|exact HL| |done|done]); rewrite rev_unit; cbn [map concat t_Concepts]; rewrite <- (focus_spec 5) by lia; done.
Qed.

(** After any sequence of turns and clearings from a new memory: nothing panics; the turns are the last fifty since the last clearing; the
    focus is the first five distinct concepts of those turns, newest turn first; at most a hundred concepts have a
    weight, and every weight is a number. *)
Theorem working_memory_refines text start activity path ops :
  Forall working_op_ok ops ->
  exists wm, working_run ops (NewWorkingMemory text start activity path) = Done wm /\
    let ts := fold_left conversation ops [] in
    Turns wm = drop (length ts - 50) ts /\
    FocusStack wm = take 5 (uniq [] (concat (map t_Concepts (rev ts)))) /\
    Z.of_nat (size (ActiveConcepts wm)) <= 100 /\ map_Forall (fun _ w => is_nan w = false) (ActiveConcepts wm).
Proof.
  intros H. assert (K : forall ts wm, working_rel ts wm -> exists wm', working_run ops wm = Done wm' /\ working_rel (fold_left conversation ops ts) wm').
  { induction H as [|o os Ho _ IH]; intros ts wm Hr; [by exists wm|]. cbn [working_run fold_left].
    assert (Ha : exists wm1, working_apply o wm = Done wm1 /\ working_rel (conversation ts o) wm1).
    { destruct o as [stamp now order role content concepts pressure|text' start' activity']; cbn [working_apply conversation]; [by apply turn_rel|].
      eexists. split; [reflexivity|]. destruct Hr as [Hp _ _ _ _]. split; cbn; [done|done|done|rewrite map_size_empty; lia|]. apply map_Forall_empty. }
    destruct Ha as (wm1 & E & Hr1). rewrite E. by apply IH. }
  destruct (K [] (NewWorkingMemory text start activity path)) as (wm & E & [_ H1 H2 H3 H4]); [|by exists wm].
  split; cbn; [done|done|done|rewrite map_size_empty; lia|apply map_Forall_empty].
Qed.

(** *** On concrete input *)

Definition toy_turns : list working_op :=
  [WTurn 1 2 (fun m => (map_to_list m).*1) (bs "user") (bs "hi") [bs "sun"; bs "moon"; bs "sun"] (mkPressure f_half f_half f_half f_half);
   WTurn 3 4 (fun m => (map_to_list m).*1) (bs "assistant") (bs "yo") [bs "tide"; bs "moon"] (mkPressure f_half f_half f_half f_half)].

Lemma working_memory_refines_witness :
  exists wm, working_run toy_turns (NewWorkingMemory (bs "now") 0 0 []) = Done wm /\
    let ts := fold_left conversation toy_turns [] in
    Turns wm = drop (length ts - 50) ts /\
    FocusStack wm = take 5 (uniq [] (concat (map t_Concepts (rev ts)))) /\
    Z.of_nat (size (ActiveConcepts wm)) <= 100 /\ map_Forall (fun _ w => is_nan w = false) (ActiveConcepts wm).
Proof. apply working_memory_refines. repeat apply List.Forall_cons; try apply List.Forall_nil; by intros m. Defined.

Example toy_focus : exists wm, working_run toy_turns (NewWorkingMemory (bs "now") 0 0 []) = Done wm /\ FocusStack wm = [bs "tide"; bs "moon"; bs "sun"].
Proof. eexists. split; vm_compute; reflexivity. Qed.

Definition toy_weights : WorkingMemory := set_concepts {[ bs "sun" := f1; bs "moon" := f_half; bs "tide" := f_ratio 1 4 ]} (NewWorkingMemory (bs "now") 0 0 []).

Lemma toy_numbers : numbers (ActiveConcepts toy_weights).
Proof. apply (bool_decide_unpack (map_Forall (fun _ w => is_nan w = false) _)). vm_compute. exact I. Qed.

Lemma top_concepts_witness :
  let m := ActiveConcepts toy_weights in
  exists l, GetTopConcepts 2 ((fun m => (map_to_list m).*1) m) toy_weights = Done l /\ NoDup l /\ Z.of_nat (length l) = Z.min 2 (Z.of_nat (size m)) /\
    (forall i j c d w w', l !! i = Some c -> l !! j = Some d -> (i < j)%nat -> m !! c = Some w -> m !! d = Some w' -> fltb w w' = false) /\
    forall c d w w', c ∈ l -> d ∉ l -> m !! c = Some w -> m !! d = Some w' -> fltb w w' = false.
Proof. apply (top_concepts 2 (fun m => (map_to_list m).*1)); [by intros m|exact toy_numbers|lia]. Defined.
