(* ===== verification/Brain.v ===== *)
(** * The positronic brain ([memory/positronic.go])

    Contents: the brain joins [Pathways], [Engrams] and [Working]: an input is a turn that recalls and
    activates engrams, a response is a turn that strengthens pathways and stores an engram.  Readings of the clock
    and the orders of map walks are gathered in one record per operation.  Splitting a text with characters
    outside ASCII into lower-case words is an argument, and so are the encoding and the storage of the files.

    The theorems: from a new brain, with any inputs, responses, decays and clearings, nothing panics and the
    invariants of the three memories hold, provided no two of the words have the same hash of 64 bits
    ([brain_sound]); learning connects the words of a response in sequence and the words of the last input with all of them
    ([learn_connects]); a saved brain is loaded as it was, but for the pressure, which is not saved
    ([brain_reload]). *)

From Stdlib Require Import String SpecFloat.
From S2P Require Import Prelude Float64 Paths Patterns Ordering Pathways Engrams Working.

Record PositronicBrain := mkBrain {
  b_Pathways : PathwayMemory; b_Engrams : EngramMemory; b_Context : WorkingMemory; b_Pressure : PressureState;
  ForkID : bytes; b_CreatedAt : Z; b_LastActivity : Z; b_storagePath : bytes; conceptExtractor : option (bytes -> list bytes);
}.

Definition half_pressure : PressureState := mkPressure f_half f_half f_half f_half.

(** The eight readings of the clock and its printed form, in the order of the constructors. *)
Record NewReadings := mkNewReadings { n_p1 : Z; n_p2 : Z; n_e1 : Z; n_e2 : Z; n_text : bytes; n_w1 : Z; n_w2 : Z; n_b1 : Z; n_b2 : Z }.

Definition NewPositronicBrain (r : NewReadings) (path forkID : bytes) : PositronicBrain :=
  mkBrain (NewPathwayMemory (n_p1 r) (n_p2 r) path) (NewEngramMemory (n_e1 r) (n_e2 r) path) (NewWorkingMemory (n_text r) (n_w1 r) (n_w2 r) path)
    half_pressure forkID (n_b1 r) (n_b2 r) path None.

Definition with_memories (pm : PathwayMemory) (em : EngramMemory) (wm : WorkingMemory) (b : PositronicBrain) : PositronicBrain :=
  mkBrain pm em wm (b_Pressure b) (ForkID b) (b_CreatedAt b) (b_LastActivity b) (b_storagePath b) (conceptExtractor b).

Definition SetConceptExtractor (fn : option (bytes -> list bytes)) (b : PositronicBrain) : PositronicBrain :=
  mkBrain (b_Pathways b) (b_Engrams b) (b_Context b) (b_Pressure b) (ForkID b) (b_CreatedAt b) (b_LastActivity b) (b_storagePath b) fn.

Definition SetPressure (p : PressureState) (b : PositronicBrain) : PositronicBrain :=
  mkBrain (b_Pathways b) (b_Engrams b) (b_Context b) p (ForkID b) (b_CreatedAt b) (b_LastActivity b) (b_storagePath b) (conceptExtractor b).

Definition GetPressure (b : PositronicBrain) : PressureState := b_Pressure b.

(** ** Files *)

(** What the four files give when they are read, in the order of reading; [unmarshal_brain] is what
    [json.Unmarshal] leaves in the brain, whose error is ignored. *)
Record BrainFiles := mkBrainFiles {
  f_pathways : file_read; f_engrams : file_read; f_context : file_read; f_meta : file_read;
  um_pathways : bytes -> PathwayMemory -> result PathwayMemory; um_engrams : bytes -> EngramMemory -> result EngramMemory;
  um_context : bytes -> WorkingMemory -> result WorkingMemory; um_brain : bytes -> PositronicBrain -> PositronicBrain;
}.

(** [r'] are the readings of the second construction of the memories, [now], [text'] and [restart] those of an expired session. *)
Definition LoadPositronicBrain (fs : BrainFiles) (r r' : NewReadings) (now restart : Z) (text' path forkID : bytes) : result PositronicBrain :=
  let brain := NewPositronicBrain r path forkID in
  let? pm := LoadPathwayMemory (f_pathways fs) (um_pathways fs) (n_p1 r') (n_p2 r') path in
  let? em := LoadEngramMemory (f_engrams fs) (um_engrams fs) (n_e1 r') (n_e2 r') path in
  let? wm := LoadWorkingMemory (f_context fs) (um_context fs) (n_text r') text' (n_w1 r') (n_w2 r') now restart path in
  let brain1 := with_memories pm em wm brain in
  let brain2 := match f_meta fs with Contents data => um_brain fs data brain1 | _ => brain1 end in
  Ok (mkBrain (b_Pathways brain2) (b_Engrams brain2) (b_Context brain2) (b_Pressure brain2) forkID (b_CreatedAt brain2) (b_LastActivity brain2) path (conceptExtractor brain2)).

(** Encoders and file operations; a write is told the name of the file. *)
Record BrainSink := mkBrainSink {
  mk_pathways : result unit; mk_engrams : result unit; mk_context : result unit; mk_meta : result unit;
  m_pathways : PathwayMemory -> result bytes; m_engrams : EngramMemory -> result bytes; m_context : WorkingMemory -> result bytes;
  m_meta : bytes * Z * Z -> result bytes; write_file : bytes -> bytes -> result unit;
}.

Definition brain_Save (sink : BrainSink) (t tp te : Z) (b : PositronicBrain) : PositronicBrain * result unit :=
  let b1 := mkBrain (b_Pathways b) (b_Engrams b) (b_Context b) (b_Pressure b) (ForkID b) (b_CreatedAt b) t (b_storagePath b) (conceptExtractor b) in
  let sp := pathways_Save (mk_pathways sink) (m_pathways sink) (write_file sink (bs "pathways.json")) tp (b_Pathways b1) in
  let b2 := with_memories sp.1 (b_Engrams b1) (b_Context b1) b1 in
  match sp.2 with
  | Err e => (b2, Err e)
  | Ok _ =>
      let se := engrams_Save (mk_engrams sink) (m_engrams sink) (write_file sink (bs "engrams.json")) te (b_Engrams b2) in
      let b3 := with_memories (b_Pathways b2) se.1 (b_Context b2) b2 in
      match se.2 with
      | Err e => (b3, Err e)
      | Ok _ =>
          (b3, let? _ := working_Save (mk_context sink) (m_context sink) (write_file sink (bs "context.json")) (b_Context b3) in
               let? _ := mk_meta sink in
               let? data := m_meta sink (ForkID b3, b_CreatedAt b3, b_LastActivity b3) in
               write_file sink (bs "brain.json") data)
      end
  end.

(** ** Words *)

Definition is_space (b : byte) : bool := (byteZ b =? 32) || ((9 <=? byteZ b) && (byteZ b <=? 13)).

(** [strings.Fields] of ASCII text; [cur] is the word being read. *)
Fixpoint fields (cur s : bytes) : list bytes :=
  match s with
  | [] => if (length cur =? 0)%nat then [] else [cur]
  | b :: s => if is_space b then (if (length cur =? 0)%nat then fields [] s else cur :: fields [] s) else fields (cur ++ [b]) s
  end.

Definition cutset : bytes := bs ".,!?;:'()[]{}" ++ [Byte.x22].

Fixpoint trim_left (s : bytes) : bytes := match s with [] => [] | b :: t => if bool_decide (b ∈ cutset) then trim_left t else s end.

(** [strings.Trim] with the cutset. *)
Definition trim (s : bytes) : bytes := rev (trim_left (rev (trim_left s))).

(** [other] splits a text with characters outside ASCII into the fields of its lower-case form. *)
Definition words_of (other : bytes -> list bytes) (text : bytes) : list bytes :=
  if forallb (fun b => byteZ b <? 128) text then fields [] (ToLower text) else other text.

Definition default_concepts (other : bytes -> list bytes) (text : bytes) : list bytes :=
  List.filter (fun w => (3 <? length w)%nat) (map trim (words_of other text)).

Definition extractConcepts (other : bytes -> list bytes) (text : bytes) (b : PositronicBrain) : list bytes :=
  match conceptExtractor b with Some f => f text | None => default_concepts other text end.

(** ** Results *)

Record InputProcessingResult := mkInputResult {
  OriginalText : bytes; ExtractedConcepts : list bytes; ResonatingEngrams : list ResonanceResult; AssociatedConcepts : list bytes;
  PathwaySuggestions : gmap bytes float64; ip_Timestamp : Z;
}.

Record MemoryBounds := mkBounds { mb_Concepts : gmap bytes float64; FocusBias : list bytes; PressureMod : PressureState }.

Record DecayResult := mkDecayResult { PathwaysPruned : Z; EngramsPruned : Z }.

Record BrainStats := mkBrainStats {
  bs_ForkID : bytes; bs_CreatedAt : Z; bs_LastActivity : Z; bs_Pathways : PathwayStats; bs_Engrams : EngramStats; bs_WorkingMemory : WorkingMemoryStats; bs_Pressure : PressureState;
}.

Definition GetConceptList (walk : list bytes) (mb : MemoryBounds) : list bytes := List.filter (fun c => bool_decide (is_Some (mb_Concepts mb !! c))) walk.

Definition GetWeightedConcepts (threshold : float64) (mb : MemoryBounds) : gmap bytes float64 :=
  base.filter (fun cw => fleb threshold cw.2 = true) (mb_Concepts mb).

(** [max] of the package. *)
Definition fmax (a b : float64) : float64 := if fltb b a then a else b.

(** ** Operations *)

Record InputReadings := mkInputReadings {
  i_stamp : Z; i_turn : Z; i_activity : Z; i_concepts : gmap bytes float64 -> list bytes;
  i_res : bytes -> Z; i_cands : gmap bytes Z -> list bytes; i_assoc : bytes -> Z; i_cands' : gmap bytes Z -> list bytes; i_scored : gmap bytes float64 -> list bytes;
  i_activate : bytes -> Z; i_select : nat -> bytes -> Z; i_strength : nat -> Z;
}.

Record LearnReadings := mkLearnReadings {
  l_turn : Z; l_activity : Z; l_concepts : gmap bytes float64 -> list bytes; l_route : nat -> Z * Z; l_pair : nat -> nat -> Z * Z;
  l_created : Z; l_used : Z; l_prune : bytes -> Z; l_engrams : gmap bytes Engram -> list bytes;
}.

Section brain.
Context (pow : float64 -> float64 -> float64) (other : bytes -> list bytes).

(** The loop over the results: those that score more than 0.3 are activated. *)
Definition activate_results (clock : bytes -> Z) (rs : list ResonanceResult) (em : EngramMemory) : EngramMemory :=
  fold_left (fun em r => if fltb (f_ratio 3 10) (Score r) then ActivateEngram (clock (r_Engram r)) (r_Engram r) em else em) rs em.

Definition suggest (r : InputReadings) (pressure : PressureState) (pm : PathwayMemory) (concepts : list bytes) : gmap bytes float64 :=
  fold_left (fun (m : gmap bytes float64) (ic : nat * bytes) =>
    let next := SelectNextConcept pow (i_select r ic.1) ic.2 pressure [] pm in
    if (length next =? 0)%nat then m else <[next := GetStrength pow (i_strength r ic.1) ic.2 next pm]> m) (zip (seq 0 (length concepts)) concepts) ∅.

Definition ProcessInput (r : InputReadings) (text : bytes) (b : PositronicBrain) : outcome (PositronicBrain * InputProcessingResult) :=
  let concepts := extractConcepts other text b in
  let! wm := AddTurn (i_turn r) (i_activity r) (i_concepts r) (bs "user") text concepts (b_Pressure b) (b_Context b) in
  let resonating := Resonate pow (i_res r) (i_cands r) concepts (b_Pressure b) (b_Engrams b) in
  let! associated := GetAssociatedConcepts pow (i_assoc r) (i_cands' r) (i_scored r) concepts (b_Pressure b) 10 (b_Engrams b) in
  let em := activate_results (i_activate r) resonating (b_Engrams b) in
  let suggestions := suggest r (b_Pressure b) (b_Pathways b) concepts in
  Done (with_memories (b_Pathways b) em wm b, mkInputResult text concepts resonating associated suggestions (i_stamp r)).

(** [clock], [order] and the rest are the readings and walks of the queries; [out] the readings for outgoing pathways. *)
Definition GenerateBounds (walk : list bytes) (clock : bytes -> Z) (order : gmap bytes Z -> list bytes) (order' : gmap bytes float64 -> list bytes) (out : bytes -> bytes -> Z)
    (b : PositronicBrain) : outcome MemoryBounds :=
  let focus := GetFocus (b_Context b) in
  let m1 := fold_left (fun (m : gmap bytes float64) c => <[c := f1]> m) focus ∅ in
  let m2 := union_with (fun existing w => Some (fmax existing w)) m1 (GetActiveConcepts (b_Context b)) in
  let! topConcepts := GetTopConcepts 5 walk (b_Context b) in
  let! associated := GetAssociatedConcepts pow clock order order' topConcepts (b_Pressure b) 10 (b_Engrams b) in
  let put (m : gmap bytes float64) (cw : bytes * float64) := match m !! cw.1 with None => <[cw.1 := cw.2]> m | Some _ => m end in
  let m3 := fold_left (fun m c => put m (c, f_ratio 3 10)) associated m2 in
  let m4 := fold_left (fun m c => fold_left (fun m p => put m (ToWord p, fmul (Strength p) f_half)) (GetOutgoingPathways pow (out c) c (b_Pathways b)) m) topConcepts m3 in
  let scale (factor : float64) (m : gmap bytes float64) := (fun w => if fltb w f_half then fmul w factor else w) <$> m in
  let m5 := if fltb (f_ratio 7 10) (PauliX (b_Pressure b)) then scale (fsub f1 (fsub (PauliX (b_Pressure b)) (f_ratio 7 10))) m4 else m4 in
  let m6 := if fltb (f_ratio 7 10) (PauliZ (b_Pressure b)) then scale (fadd f1 (fsub (PauliZ (b_Pressure b)) (f_ratio 7 10))) m5 else m5 in
  Done (mkBounds m6 focus (b_Pressure b)).

(** The nested loops over the words of the input and of the response. *)
Definition connect (clock : nat -> nat -> Z * Z) (inputConcepts outputConcepts : list bytes) (pm : PathwayMemory) : PathwayMemory :=
  fold_left (fun pm (i : nat * bytes) => fold_left (fun pm (o : nat * bytes) =>
      if bytes_eqb i.2 o.2 then pm else Strengthen (clock i.1 o.1).1 (clock i.1 o.1).2 i.2 o.2 pm)
    (zip (seq 0 (length outputConcepts)) outputConcepts) pm) (zip (seq 0 (length inputConcepts)) inputConcepts) pm.

(** [if ok && lastInput != ""]. *)
Definition connect_last (clock : nat -> nat -> Z * Z) (lastUser : option (bytes * list bytes)) (outputConcepts : list bytes) (pm : PathwayMemory) : PathwayMemory :=
  match lastUser with
  | Some (lastInput, inputConcepts) => if (length lastInput =? 0)%nat then pm else connect clock inputConcepts outputConcepts pm
  | None => pm
  end.

Definition Learn (r : LearnReadings) (response : bytes) (outputConcepts : list bytes) (b : PositronicBrain) : outcome PositronicBrain :=
  let! wm := AddTurn (l_turn r) (l_activity r) (l_concepts r) (bs "assistant") response outputConcepts (b_Pressure b) (b_Context b) in
  let pm1 := StrengthenRoute (l_route r) outputConcepts (b_Pathways b) in
  let lastUser := GetLastUserMessage wm in
  let inputConcepts := default [] (snd <$> lastUser) in
  let pm2 := connect_last (l_pair r) lastUser outputConcepts pm1 in
  let allConcepts := uniq [] (inputConcepts ++ outputConcepts) in
  let! em := (if (3 <=? length allConcepts)%nat
              then let! s := Store pow (l_created r) (l_used r) (l_prune r) (l_engrams r) allConcepts (b_Pressure b) None (b_Engrams b) in Done s.1
              else Done (b_Engrams b)) in
  Done (with_memories pm2 em wm b).

Definition brain_Decay (clock clock' : bytes -> Z) (order : gmap bytes Pathway -> list bytes) (order' : gmap bytes Engram -> list bytes) (b : PositronicBrain) : outcome (PositronicBrain * DecayResult) :=
  let! p := pathways_Decay pow clock (order (Pathways (b_Pathways b))) (b_Pathways b) in
  let! e := engrams_Decay pow clock' (order' (Engrams (b_Engrams b))) (b_Engrams b) in
  Done (with_memories p.1 e.1 (b_Context b) b, mkDecayResult p.2 e.2).

Definition brain_Stats (walk walk' : list bytes) (now now' : Z) (b : PositronicBrain) : BrainStats :=
  mkBrainStats (ForkID b) (b_CreatedAt b) (b_LastActivity b) (pathways_Stats walk (b_Pathways b)) (engrams_Stats walk' (b_Engrams b)) (working_Stats now now' (b_Context b)) (GetPressure b).

Definition ClearContext (text : bytes) (start activity : Z) (b : PositronicBrain) : PositronicBrain :=
  with_memories (b_Pathways b) (b_Engrams b) (Clear text start activity (b_Context b)) b.
End brain.

(** ** Invariants *)

Lemma uniq_elem l c : c ∈ uniq [] l -> c ∈ l.
Proof.
  induction l as [|x l IH] using rev_ind; [done|]. rewrite uniq_app. cbn [uniq fold_left]. fold (uniq [] l). unfold add_new.
  case_match; set_solver.
Qed.

Section invariants.
Context (pow : float64 -> float64 -> float64) (other : bytes -> list bytes).

(** The words that occur, no two of which have one hash. *)
Context (W : bytes -> Prop) (HW : forall a b, W a -> W b -> ConceptHash a = ConceptHash b -> a = b).

Lemma hashes_NoDup l : NoDup l -> Forall W l -> NoDup (map ConceptHash l).
Proof using HW.
  intros Hn Hl. induction Hn as [|x l Hx Hn IH]; [constructor|]. apply Forall_cons in Hl as [H1 H2]. cbn. apply NoDup_cons. split; [|by apply IH].
  intros (y & E & Hy)%list_elem_of_fmap. rewrite Forall_forall in H2. by rewrite (HW x y H1 (H2 y Hy) E) in Hx.
Qed.

Record brain_inv (b : PositronicBrain) : Prop := {
  bi_paths : paths_ok (b_Pathways b);
  bi_engrams : bounded_engrams (b_Engrams b);
  bi_working : exists ts, working_rel ts (b_Context b) /\ Forall (fun t => Forall W (t_Concepts t)) ts;
}.

Lemma connect_ok clock ics ocs pm : paths_ok pm -> paths_ok (connect clock ics ocs pm).
Proof using Type.
  intros H. unfold connect. apply fold_left_inv; [done|]. intros pm1 i _ H1. apply fold_left_inv; [done|]. intros pm2 o _ H2.
  case_match; [done|by apply strengthen_ok].
Qed.

Lemma connect_last_ok clock u ocs pm : paths_ok pm -> paths_ok (connect_last clock u ocs pm).
Proof using Type. intros H. unfold connect_last. repeat case_match; try done. by apply connect_ok. Qed.

Lemma activate_results_ok clock rs em : bounded_engrams em -> bounded_engrams (activate_results clock rs em).
Proof using Type.
  intros H. unfold activate_results. apply fold_left_inv; [done|]. intros em1 r _ (H1 & H2 & H3). case_match; [|done].
  destruct (activate_ok (clock (r_Engram r)) (r_Engram r) em1 H1) as (K1 & K2 & K3). split; [done|]. by rewrite K2, K3.
Qed.

(** A turn on the working memory of a brain whose words are in [W]. *)
Lemma brain_turn b stamp now order role content concepts pressure :
  brain_inv b -> walks order -> Forall W concepts ->
  exists wm, AddTurn stamp now order role content concepts pressure (b_Context b) = Done wm /\
    exists ts, working_rel ts wm /\ Forall (fun t => Forall W (t_Concepts t)) ts.
Proof using other W HW.
  intros [_ _ (ts & Hr & Ht)] Hw Hc. destruct (turn_rel ts stamp now order role content concepts pressure (b_Context b) Hw Hr) as (wm & E & Hr').
  exists wm. split; [done|]. eexists. split; [exact Hr'|]. apply Forall_app. split; [done|]. by constructor.
Qed.

(** The words of the last message of the user are in [W]. *)
Lemma last_user_words wm ts :
  working_rel ts wm -> Forall (fun t => Forall W (t_Concepts t)) ts -> Forall W (default [] (snd <$> GetLastUserMessage wm)).
Proof using other W HW.
  intros [_ Hr _ _ _] Ht. unfold GetLastUserMessage, last_of. destruct (List.find _ _) as [t|] eqn:E; [|done]. cbn. apply find_some in E as [E _].
  rewrite Forall_forall in Ht. apply Ht. rewrite <- in_rev, Hr in E. apply list_elem_of_In in E. by eapply subseteq_drop.
Qed.

Definition input_ok (r : InputReadings) : Prop := walks (i_concepts r) /\ walks (i_cands r) /\ walks (i_cands' r) /\ walks (i_scored r).
Definition learn_ok (r : LearnReadings) : Prop := walks (l_concepts r) /\ walks (l_engrams r).

Lemma input_inv r text b :
  input_ok r -> Forall W (extractConcepts other text b) -> brain_inv b ->
  exists b' res, ProcessInput pow other r text b = Done (b', res) /\ brain_inv b' /\ conceptExtractor b' = conceptExtractor b.
Proof using other W HW.
  intros (Hw1 & _) Hc Hb. unfold ProcessInput. destruct (brain_turn b (i_turn r) (i_activity r) (i_concepts r) (bs "user") text _ (b_Pressure b) Hb Hw1 Hc) as (wm & E & Ht).
  rewrite E. cbn [outcome_bind]. unfold GetAssociatedConcepts. change (10 <? 0) with false. cbn [outcome_bind]. eexists _, _. split; [reflexivity|].
  split; [|done]. destruct Hb as [H1 H2 _]. split; [done|by apply activate_results_ok|done].
Qed.

Lemma learn_inv r response out b :
  learn_ok r -> Forall W out -> brain_inv b ->
  exists b', Learn pow r response out b = Done b' /\ brain_inv b' /\ conceptExtractor b' = conceptExtractor b.
Proof using HW other.
  intros (Hw1 & Hw2) Hc Hb. unfold Learn. destruct (brain_turn b (l_turn r) (l_activity r) (l_concepts r) (bs "assistant") response out (b_Pressure b) Hb Hw1 Hc) as (wm & E & ts & Hr & Ht).
  rewrite E. cbn [outcome_bind]. pose proof (last_user_words wm ts Hr Ht) as Hu. set (ics := default [] _) in *. set (pm2 := connect_last _ _ _ _).
  destruct Hb as [H1 H2 _]. assert (Hp : paths_ok pm2) by (apply connect_last_ok, route_ok, H1).
  assert (Hn : NoDup (map ConceptHash (uniq [] (ics ++ out)))).
  { apply hashes_NoDup; [apply uniq_NoDup|]. apply Forall_forall. intros c [Hc'|Hc']%uniq_elem%elem_of_app; [by apply (proj1 (Forall_forall W ics) Hu)|by apply (proj1 (Forall_forall W out) Hc)]. }
  destruct (3 <=? length _)%nat.
  - destruct H2 as (K1 & K2 & K3). destruct (store_ok pow (l_created r) (l_used r) (l_prune r) (l_engrams r) _ (b_Pressure b) None (b_Engrams b) Hw2 K1 ltac:(lia) Hn) as (em & x & Es & L1 & L2 & L3).
    rewrite Es. cbn [outcome_bind fst]. eexists. split; [reflexivity|]. split; [|done]. split; [done| |by exists ts]. split; [done|]. cbn [b_Engrams with_memories]. lia.
  - cbn [outcome_bind]. eexists. split; [reflexivity|]. split; [|done]. split; [done|done|by exists ts].
Qed.

Lemma decay_inv clock clock' order order' b :
  walks order -> walks order' -> brain_inv b ->
  exists b' d, brain_Decay pow clock clock' order order' b = Done (b', d) /\ brain_inv b' /\ conceptExtractor b' = conceptExtractor b.
Proof using other W HW.
  intros Hw Hw' [H1 (K1 & K2 & K3) H3]. unfold brain_Decay. destruct (decay_ok pow clock order (b_Pathways b) Hw H1) as (pm & n & E & Hp & _). rewrite E. cbn [outcome_bind].
  destruct (e_decay_ok pow clock' order' (b_Engrams b) Hw' K1 ltac:(lia)) as (em & n' & E' & L1 & L2 & _ & L3). rewrite E'. cbn [outcome_bind].
  eexists _, _. split; [reflexivity|]. split; [|done]. split; [done| |done]. split; [done|]. cbn [b_Engrams with_memories fst]. lia.
Qed.

(** ** Sequences of operations *)

Inductive brain_op :=
  | BInput (r : InputReadings) (text : bytes)
  | BLearn (r : LearnReadings) (response : bytes) (outputConcepts : list bytes)
  | BDecay (clock clock' : bytes -> Z) (order : gmap bytes Pathway -> list bytes) (order' : gmap bytes Engram -> list bytes)
  | BPressure (p : PressureState)
  | BClear (text : bytes) (start activity : Z).

Definition brain_apply (o : brain_op) (b : PositronicBrain) : outcome PositronicBrain :=
  match o with
  | BInput r text => let! x := ProcessInput pow other r text b in Done x.1
  | BLearn r response out => Learn pow r response out b
  | BDecay clock clock' order order' => let! x := brain_Decay pow clock clock' order order' b in Done x.1
  | BPressure p => Done (SetPressure p b)
  | BClear text start activity => Done (ClearContext text start activity b)
  end.

Fixpoint brain_run (ops : list brain_op) (b : PositronicBrain) : outcome PositronicBrain :=
  match ops with [] => Done b | o :: os => let! b1 := brain_apply o b in brain_run os b1 end.

(** The walks visit every key once, and the words of inputs and responses are in [W]. *)
Definition brain_op_ok (extractor : option (bytes -> list bytes)) (o : brain_op) : Prop :=
  match o with
  | BInput r text => input_ok r /\ Forall W (match extractor with Some f => f text | None => default_concepts other text end)
  | BLearn r _ out => learn_ok r /\ Forall W out
  | BDecay _ _ order order' => walks order /\ walks order'
  | BPressure _ | BClear _ _ _ => True
  end.

Lemma brain_apply_ok o b :
  brain_op_ok (conceptExtractor b) o -> brain_inv b -> exists b', brain_apply o b = Done b' /\ brain_inv b' /\ conceptExtractor b' = conceptExtractor b.
Proof using HW other.
  intros Ho Hb. destruct o as [r text|r response out|clock clock' order order'|p|text start activity]; cbn [brain_apply brain_op_ok] in *.
  - destruct Ho as [H1 H2]. destruct (input_inv r text b H1 H2 Hb) as (b' & res & E & Hb' & Ee). rewrite E. by exists b'.
  - destruct Ho as [H1 H2]. by apply learn_inv.
  - destruct Ho as [H1 H2]. destruct (decay_inv clock clock' order order' b H1 H2 Hb) as (b' & d & E & Hb' & Ee). rewrite E. by exists b'.
  - eexists. split; [reflexivity|]. split; [|done]. by destruct Hb.
  - eexists. split; [reflexivity|]. split; [|done]. destruct Hb as [H1 H2 (ts & [Hp _ _ _ _] & _)]. split; [done|done|]. exists []. split; [|constructor].
    split; cbn; [done|done|done|rewrite map_size_empty; lia|apply map_Forall_empty].
Qed.

(** From a new brain with any extractor: as long as no two words that occur have one hash, no input, response, decay, change of
    pressure or clearing panics, and afterwards the index of the pathways and that of the engrams are exact, at most ten thousand engrams, fifty
    turns, five concepts in focus and a hundred weighted concepts are kept. *)
Theorem brain_sound r path forkID extractor ops :
  Forall (brain_op_ok extractor) ops ->
  exists b, brain_run ops (SetConceptExtractor extractor (NewPositronicBrain r path forkID)) = Done b /\
    indexed (Pathways (b_Pathways b)) (BySource (b_Pathways b)) /\ e_indexed (Engrams (b_Engrams b)) (ConceptIndex (b_Engrams b)) /\
    TotalEngrams (b_Engrams b) = Z.of_nat (size (Engrams (b_Engrams b))) /\ TotalEngrams (b_Engrams b) <= 10000 /\
    (length (Turns (b_Context b)) <= 50)%nat /\ (length (FocusStack (b_Context b)) <= 5)%nat /\ NoDup (FocusStack (b_Context b)) /\
    Z.of_nat (size (ActiveConcepts (b_Context b))) <= 100.
Proof using HW other.
  intros H. assert (K : forall b, conceptExtractor b = extractor -> brain_inv b -> exists b', brain_run ops b = Done b' /\ brain_inv b').
  { induction H as [|o os Ho _ IH]; intros b He Hb; [by exists b|]. rewrite <- He in Ho. destruct (brain_apply_ok o b Ho Hb) as (b1 & E & Hb1 & He1).
    cbn [brain_run]. rewrite E. cbn [outcome_bind]. apply IH; [congruence|done]. }
  destruct (K (SetConceptExtractor extractor (NewPositronicBrain r path forkID))) as (b & E & [[_ Hi] ([_ Hei Het] & Hes & HeM) (ts & [_ Ht Hf Hc _] & _)]).
  - done.
  - split; [apply new_paths_ok|apply new_engrams_ok|]. exists []. split; [|constructor]. split; cbn; [done|done|done|rewrite map_size_empty; lia|apply map_Forall_empty].
  - exists b. split; [done|]. split; [done|]. split; [done|]. split; [done|]. split; [lia|]. rewrite Ht, Hf, length_drop, length_take.
    split; [lia|]. split; [lia|]. split; [|done]. eapply sublist_NoDup; [apply uniq_NoDup|apply sublist_take].
Qed.
End invariants.

(** ** Learning *)

(** A pathway is stored between the hashes of two words. *)
Definition linked (a b : bytes) (pm : PathwayMemory) : Prop := is_Some (Pathways pm !! pathwayKey (ConceptHash a) (ConceptHash b)).

Lemma strengthen_links t1 t2 a b pm : linked a b (Strengthen t1 t2 a b pm).
Proof. unfold linked, Strengthen. destruct (Pathways pm !! _); cbn [Pathways with_paths]; rewrite lookup_insert_eq; by eexists. Qed.

Lemma strengthen_keeps t1 t2 a b c d pm : linked c d pm -> linked c d (Strengthen t1 t2 a b pm).
Proof.
  unfold linked, Strengthen. intros H. destruct (Pathways pm !! pathwayKey (ConceptHash a) _); cbn [Pathways with_paths]; apply lookup_insert_is_Some;
    (destruct (decide (pathwayKey (ConceptHash a) (ConceptHash b) = pathwayKey (ConceptHash c) (ConceptHash d))); [by left|by right]).
Qed.

Lemma route_keeps ws clock c d pm : linked c d pm -> linked c d (StrengthenRoute clock ws pm).
Proof.
  revert clock pm. induction ws as [|a [|b ws] IH]; intros clock pm H; [done..|]. apply (IH (fun i => clock (S i))). by apply strengthen_keeps.
Qed.

Lemma route_links ws clock pm i a b : ws !! i = Some a -> ws !! S i = Some b -> linked a b (StrengthenRoute clock ws pm).
Proof.
  revert clock pm i. induction ws as [|x [|y ws] IH]; intros clock pm i Ha Hb; [done|by destruct i|]. destruct i as [|i].
  - injection Ha as ->. injection Hb as ->. apply (route_keeps (b :: ws) (fun i => clock (S i))). apply strengthen_links.
  - by apply (IH (fun i => clock (S i)) _ i).
Qed.

Lemma fold_links {A} (f : PathwayMemory -> A -> PathwayMemory) l c d pm :
  (forall pm x, linked c d pm -> linked c d (f pm x)) -> (linked c d pm \/ exists x, x ∈ l /\ forall pm, linked c d (f pm x)) -> linked c d (fold_left f l pm).
Proof.
  intros Hk. revert pm. induction l as [|y l IH]; intros pm [H|(x & Hx & H)]; [done|by apply not_elem_of_nil in Hx|..]; cbn [fold_left]; apply IH.
  - left. by apply Hk.
  - apply elem_of_cons in Hx as [->|Hx]; [left; apply H|right; by exists x].
Qed.

Lemma zip_elem (l : list bytes) c : c ∈ l -> exists i, (i, c) ∈ zip (seq 0 (length l)) l.
Proof.
  intros [i Hi]%list_elem_of_lookup. exists i. apply (list_elem_of_lookup_2 _ i). apply lookup_zip_Some. split; [|done].
  apply lookup_seq. split; [lia|]. by eapply lookup_lt_Some.
Qed.

Definition connect_step (clock : nat -> nat -> Z * Z) (i : nat * bytes) (pm : PathwayMemory) (o : nat * bytes) : PathwayMemory :=
  if bytes_eqb i.2 o.2 then pm else Strengthen (clock i.1 o.1).1 (clock i.1 o.1).2 i.2 o.2 pm.

Lemma connect_keeps_step clock i ocs c d pm : linked c d pm -> linked c d (fold_left (connect_step clock i) ocs pm).
Proof. intros H. apply fold_links; [|by left]. intros pm1 o H1. unfold connect_step. case_match; [done|by apply strengthen_keeps]. Qed.

Lemma connect_keeps clock ics ocs c d pm : linked c d pm -> linked c d (connect clock ics ocs pm).
Proof. intros H. unfold connect. apply fold_links; [|by left]. intros pm1 i H1. by apply (connect_keeps_step clock i). Qed.

Lemma connect_links clock ics ocs a b pm : a ∈ ics -> b ∈ ocs -> a <> b -> linked a b (connect clock ics ocs pm).
Proof.
  intros [i Hi]%zip_elem [j Hj]%zip_elem Hne. unfold connect. apply fold_links; [intros pm1 x H; by apply (connect_keeps_step clock x)|].
  right. exists (i, a). split; [done|]. intros pm1. apply (fold_links (connect_step clock (i, a))).
  - intros pm2 o H. unfold connect_step. case_match; [done|by apply strengthen_keeps].
  - right. exists (j, b). split; [done|]. intros pm2. unfold connect_step. cbn [fst snd]. rewrite (proj2 (bytes_eqb_false a b)) by done. apply strengthen_links.
Qed.

(** After learning, pathways lead from each word of the response to the next, and from every word of the last non-empty message of the user to
    every other word of the response; pathways that were there remain. *)
Theorem learn_connects pow r response out b b' :
  Learn pow r response out b = Done b' ->
  (forall i x y, out !! i = Some x -> out !! S i = Some y -> linked x y (b_Pathways b')) /\
  (forall text ics x y, GetLastUserMessage (b_Context b') = Some (text, ics) -> text <> [] -> x ∈ ics -> y ∈ out -> x <> y -> linked x y (b_Pathways b')) /\
  (forall x y, linked x y (b_Pathways b) -> linked x y (b_Pathways b')).
Proof.
  unfold Learn. intros H. apply outcome_bind_Done in H as (wm & _ & H). apply outcome_bind_Done in H as (em & _ & H). injection H as <-.
  cbn [b_Pathways b_Context with_memories]. set (pm1 := StrengthenRoute _ _ _).
  assert (Hk : forall x y, linked x y pm1 -> linked x y (connect_last (l_pair r) (GetLastUserMessage wm) out pm1)).
  { intros x y H. unfold connect_last. repeat case_match; try done. by apply connect_keeps. }
  split; [|split].
  - intros i x y Hx Hy. apply Hk. by apply (route_links out (l_route r) _ i).
  - intros text ics x y -> Ht Hx Hy Hne. cbn [connect_last]. destruct text as [|c text]; [done|]. cbn [length Nat.eqb]. by apply connect_links.
  - intros x y H. apply Hk. by apply route_keeps.
Qed.

(** ** Saving and loading *)

Definition at_path_p (path : bytes) (m : PathwayMemory) : PathwayMemory :=
  mkPathways (Pathways m) (BySource m) (TotalActivations m) (CreatedAt m) (LastModified m) (DecayRate m) (ReinforceDelta m) (MaxStrength m) (MinStrength m) path.
Definition at_path_e (path : bytes) (m : EngramMemory) : EngramMemory :=
  mkEngrams (Engrams m) (ConceptIndex m) (TotalEngrams m) (em_TotalActivations m) (em_CreatedAt m) (em_LastModified m) (em_DecayRate m) (ResonanceDecay m)
    (em_MinStrength m) (MaxEngrams m) (MinConceptsMatch m) path.
Definition at_path_w (path : bytes) (m : WorkingMemory) : WorkingMemory :=
  mkWorking (Turns m) (ActiveConcepts m) (FocusStack m) (SessionID m) (SessionStart m) (LastActivity m) (MaxTurns m) (ConceptDecay m) (MaxConcepts m) (FocusStackSize m) path.

(** The files hold the encodings of a brain, and decoding undoes encoding: every exported field is set, the unexported path is not touched. *)
Record stored (sink : BrainSink) (fs : BrainFiles) (b : PositronicBrain) : Prop := {
  st_p : exists d, m_pathways sink (b_Pathways b) = Ok d /\ f_pathways fs = Contents d /\ forall y, um_pathways fs d y = Ok (at_path_p (storagePath y) (b_Pathways b));
  st_e : exists d, m_engrams sink (b_Engrams b) = Ok d /\ f_engrams fs = Contents d /\ forall y, um_engrams fs d y = Ok (at_path_e (em_storagePath y) (b_Engrams b));
  st_w : exists d, m_context sink (b_Context b) = Ok d /\ f_context fs = Contents d /\ forall y, um_context fs d y = Ok (at_path_w (wm_storagePath y) (b_Context b));
  st_m : exists d, m_meta sink (ForkID b, b_CreatedAt b, b_LastActivity b) = Ok d /\ f_meta fs = Contents d /\
           forall y, um_brain fs d y = mkBrain (b_Pathways y) (b_Engrams y) (b_Context y) (b_Pressure y) (ForkID b) (b_CreatedAt b) (b_LastActivity b) (b_storagePath y) (conceptExtractor y);
}.

(** A brain that was saved and whose last turn is at most an hour old is loaded with the same memories, times and fork, but with the pressure of a new
    brain: the file of the brain does not have the pressure. *)
Theorem brain_reload sink fs t tp te b b' r r' now restart text' path :
  brain_Save sink t tp te b = (b', Ok tt) -> stored sink fs b' ->
  storagePath (b_Pathways b') = path -> em_storagePath (b_Engrams b') = path -> wm_storagePath (b_Context b') = path ->
  Since now (LastActivity (b_Context b')) <= hour ->
  exists l, LoadPositronicBrain fs r r' now restart text' path (ForkID b') = Ok l /\
    b_Pathways l = b_Pathways b' /\ b_Engrams l = b_Engrams b' /\ b_Context l = b_Context b' /\ ForkID l = ForkID b' /\ b_CreatedAt l = b_CreatedAt b' /\
    b_LastActivity l = t /\ b_Pressure l = half_pressure.
Proof.
  intros Hs [(dp & _ & Fp & Up) (de & _ & Fe & Ue) (dw & _ & Fw & Uw) (dm & _ & Fm & Um)] Hp He Hw Hh.
  assert (Ht : b_LastActivity b' = t).
  { unfold brain_Save in Hs. cbv zeta in Hs. repeat case_match; simplify_eq; done. }
  unfold LoadPositronicBrain, LoadPathwayMemory, LoadEngramMemory, LoadWorkingMemory. rewrite Fp, Fe, Fw, Fm, Up. cbn [result_bind]. rewrite Ue. cbn [result_bind]. rewrite Uw. cbn [result_bind LastActivity at_path_w].
  rewrite (proj2 (Z.ltb_ge hour _)) by lia. cbn [result_bind]. rewrite Um. eexists. split; [reflexivity|].
  cbn [b_Pathways b_Engrams b_Context with_memories at_path_p at_path_e at_path_w Pathways BySource TotalActivations CreatedAt LastModified DecayRate ReinforceDelta MaxStrength MinStrength
       Engrams ConceptIndex TotalEngrams em_TotalActivations em_CreatedAt em_LastModified em_DecayRate ResonanceDecay em_MinStrength MaxEngrams MinConceptsMatch
       Turns ActiveConcepts FocusStack SessionID SessionStart LastActivity MaxTurns ConceptDecay MaxConcepts FocusStackSize].
  split; [destruct (b_Pathways b'); cbn in *; by subst|]. split; [destruct (b_Engrams b'); cbn in *; by subst|]. split; [destruct (b_Context b'); cbn in *; by subst|]. done.
Qed.

(** *** On concrete input *)

Definition toy_new : NewReadings := mkNewReadings 0 0 0 0 (bs "now") 0 0 0 0.

Definition toy_input : InputReadings := mkInputReadings 1 1 1 toy_walk (fun _ => 1) toy_walk (fun _ => 1) toy_walk toy_walk (fun _ => 1) (fun _ _ => 1) (fun _ => 1).

Definition toy_learn : LearnReadings := mkLearnReadings 2 2 toy_walk (fun _ => (2, 2)) (fun _ _ => (2, 2)) 2 2 (fun _ => 2) toy_walk.

Definition toy_words : list bytes := [bs "where"; bs "tide"; bs "moon"; bs "pulls"].

Definition toy_brain_ops : list brain_op :=
  [BInput toy_input (bs "Where is the tide?"); BLearn toy_learn (bs "moon pulls tide") [bs "moon"; bs "pulls"; bs "tide"]; BPressure half_pressure;
   BInput toy_input (bs "tide, moon"); BDecay (fun _ => 3) (fun _ => 3) toy_walk toy_walk; BClear (bs "later") 4 4].

Definition toy_brain : PositronicBrain := NewPositronicBrain toy_new (bs "brain") (bs "fork").

Example toy_extract : default_concepts (fun _ => []) (bs "Where is the tide?") = [bs "where"; bs "tide"].
Proof. vm_compute. reflexivity. Qed.

Lemma toy_words_hash a b : a ∈ toy_words -> b ∈ toy_words -> ConceptHash a = ConceptHash b -> a = b.
Proof.
  assert (H : forallb (fun a => forallb (fun b => implb (bytes_eqb (ConceptHash a) (ConceptHash b)) (bytes_eqb a b)) toy_words) toy_words = true) by (vm_compute; reflexivity).
  intros Ha Hb E. rewrite forallb_forall in H. apply list_elem_of_In in Ha, Hb. specialize (H a Ha). rewrite forallb_forall in H. specialize (H b Hb). cbn beta in H.
  rewrite E, bytes_eqb_refl in H. by apply bytes_eqb_true in H.
Qed.

Lemma brain_sound_witness :
  exists b, brain_run toy_pow (fun _ => []) toy_brain_ops (SetConceptExtractor None toy_brain) = Done b /\
    indexed (Pathways (b_Pathways b)) (BySource (b_Pathways b)) /\ e_indexed (Engrams (b_Engrams b)) (ConceptIndex (b_Engrams b)) /\
    TotalEngrams (b_Engrams b) = Z.of_nat (size (Engrams (b_Engrams b))) /\ TotalEngrams (b_Engrams b) <= 10000 /\
    (length (Turns (b_Context b)) <= 50)%nat /\ (length (FocusStack (b_Context b)) <= 5)%nat /\ NoDup (FocusStack (b_Context b)) /\
    Z.of_nat (size (ActiveConcepts (b_Context b))) <= 100.
Proof.
  apply (brain_sound toy_pow (fun _ => []) (fun w => w ∈ toy_words) toy_words_hash toy_new (bs "brain") (bs "fork") None toy_brain_ops).
  repeat apply List.Forall_cons; try apply List.Forall_nil; try exact I; (split; [first [apply toy_walk_walks|split; [apply toy_walk_walks|]; first [apply toy_walk_walks|split; apply toy_walk_walks || (split; apply toy_walk_walks)]]|]);
    first [apply toy_walk_walks|apply (bool_decide_unpack _); vm_compute; exact I].
Defined.

Definition toy_learned : PositronicBrain :=
  match Learn toy_pow toy_learn (bs "moon pulls tide") [bs "moon"; bs "pulls"] toy_brain with Done b => b | _ => toy_brain end.

Lemma learn_connects_witness :
  (forall i x y, [bs "moon"; bs "pulls"] !! i = Some x -> [bs "moon"; bs "pulls"] !! S i = Some y -> linked x y (b_Pathways toy_learned)) /\
  (forall text ics x y, GetLastUserMessage (b_Context toy_learned) = Some (text, ics) -> text <> [] -> x ∈ ics -> y ∈ [bs "moon"; bs "pulls"] -> x <> y -> linked x y (b_Pathways toy_learned)) /\
  (forall x y, linked x y (b_Pathways toy_brain) -> linked x y (b_Pathways toy_learned)).
Proof. apply (learn_connects toy_pow toy_learn (bs "moon pulls tide") [bs "moon"; bs "pulls"] toy_brain toy_learned). vm_compute. reflexivity. Defined.

Definition toy_sink : BrainSink :=
  mkBrainSink (Ok tt) (Ok tt) (Ok tt) (Ok tt) (fun _ => Ok (bs "p")) (fun _ => Ok (bs "e")) (fun _ => Ok (bs "w")) (fun _ => Ok (bs "m")) (fun _ _ => Ok tt).

Definition toy_saved : PositronicBrain := (brain_Save toy_sink 5 6 7 toy_learned).1.

Definition toy_files : BrainFiles :=
  mkBrainFiles (Contents (bs "p")) (Contents (bs "e")) (Contents (bs "w")) (Contents (bs "m"))
    (fun _ y => Ok (at_path_p (storagePath y) (b_Pathways toy_saved))) (fun _ y => Ok (at_path_e (em_storagePath y) (b_Engrams toy_saved)))
    (fun _ y => Ok (at_path_w (wm_storagePath y) (b_Context toy_saved)))
    (fun _ y => mkBrain (b_Pathways y) (b_Engrams y) (b_Context y) (b_Pressure y) (ForkID toy_saved) (b_CreatedAt toy_saved) (b_LastActivity toy_saved) (b_storagePath y) (conceptExtractor y)).

Lemma brain_reload_witness :
  exists l, LoadPositronicBrain toy_files toy_new toy_new 8 8 (bs "later") (bs "brain") (ForkID toy_saved) = Ok l /\
    b_Pathways l = b_Pathways toy_saved /\ b_Engrams l = b_Engrams toy_saved /\ b_Context l = b_Context toy_saved /\ ForkID l = ForkID toy_saved /\ b_CreatedAt l = b_CreatedAt toy_saved /\
    b_LastActivity l = 5 /\ b_Pressure l = half_pressure.
Proof.
  apply (brain_reload toy_sink toy_files 5 6 7 toy_learned toy_saved).
  - reflexivity.
  - split; eexists; (split; [reflexivity|]); (split; [reflexivity|]); done.
  - reflexivity.
  - reflexivity.
  - reflexivity.
  - vm_compute. discriminate.
Defined.
