(* ===== verification/Prices.v ===== *)
(** * The price feed ([arb/prices.go])

    Contents: the prices of pairs of tokens by chain and exchange, where swaps and RPC readings enter, their
    pruning, and the queries that look for a spread between two places.  Prices are [big.Float]s with their
    rounding.  Callbacks that run in goroutines are events of the output.  Readings of the clock and the orders
    of map walks are arguments.

    The theorems: along every sequence of ingested prices and prunings, the list of a pair holds only ingested
    prices of that pair, oldest first, at most the limit ([feed_sound]); the latest price of a chain is one that
    no other held price of that chain follows ([latest_is_newest]); the best buy and sell are
    the extremes of the latest prices of every chain and exchange ([best_buy_sell_extreme]); what
    [SetPrice] files for [ETH] is not found under the name it was given
    ([set_price_misfiled]). *)

From Stdlib Require Import String SpecFloat Sorted.
From stdpp Require Import sorting.
From S2P Require Import Prelude Signing Float64 BigFloat Paths Positions Swaps Amm.

Record TokenPair := mkPair { Token0 : TokenInfo; Token1 : TokenInfo }.

Definition pair_ID (tp : TokenPair) : bytes := bs (tok_Symbol (Token0 tp)) ++ bs "-" ++ bs (tok_Symbol (Token1 tp)).

Inductive PriceSource := PriceSourceMempool | PriceSourceFlashblock | PriceSourceConfirmed | PriceSourceRPC.

(** Pointers to numbers may be nil. *)
Record PricePoint := mkPoint {
  pp_Pair : TokenPair; pp_ChainID : Z; pp_DEX : string; pp_PoolAddress : bytes; pp_Price : option bigfloat; pp_Liquidity : option Z;
  pp_Timestamp : Z; pp_BlockNumber : Z; pp_TxHash : bytes; pp_Source : PriceSource;
}.

Record SwapEvent := mkSwapEvent {
  se_ChainID : Z; se_DEX : string; se_Pool : bytes; se_Sender : bytes; Token0In : option Z; Token1In : option Z; Token0Out : option Z; Token1Out : option Z;
  se_TxHash : bytes; se_BlockNumber : Z; se_Timestamp : Z; se_Source : PriceSource;
}.

Record PriceFeedConfig := mkFeedConfig { MaxPriceAge : Z; MaxPricesPerPair : Z; SpreadAlertBPS : Z }.

Definition DefaultPriceFeedConfig : PriceFeedConfig := mkFeedConfig (30 * 10 ^ 9) 100 10.

(** [alerts] and [updates] say whether the callbacks are set. *)
Record PriceFeed := mkFeed {
  prices : gmap bytes (list PricePoint); dexRegistry : Registry; feed_pools : gmap bytes PoolInfo; feed_config : PriceFeedConfig;
  updates : bool; alerts : bool; feed_running : bool;
}.

Record SpreadInfo := mkSpread {
  si_PairID : bytes; si_BuyChain : Z; si_SellChain : Z; si_BuyPrice : option bigfloat; si_SellPrice : option bigfloat; si_SpreadBPS : Z;
  si_BuyDEX : string; si_SellDEX : string; si_Timestamp : Z;
}.

(** What is handed to the callbacks. *)
Inductive feed_event := PriceUpdated (p : PricePoint) | SpreadAlerted (pid : bytes) (buyChain sellChain spreadBPS : Z).

Definition NewPriceFeed (config : option PriceFeedConfig) : PriceFeed :=
  let reg := RegisterRouter (RegisterRouter NewRegistry "uniswap_v2" UniswapV2Router) "uniswap_v3" UniswapV3Router in
  let known := concat KnownPools.*2 in
  mkFeed ∅ (fold_left RegisterPool known reg) (fold_left (fun m p => <[pi_Address p := p]> m) known ∅) (default DefaultPriceFeedConfig config) false false false.

Definition feed_Start (pf : PriceFeed) : PriceFeed := mkFeed (prices pf) (dexRegistry pf) (feed_pools pf) (feed_config pf) (updates pf) (alerts pf) true.
Definition feed_Stop (pf : PriceFeed) : PriceFeed := mkFeed (prices pf) (dexRegistry pf) (feed_pools pf) (feed_config pf) (updates pf) (alerts pf) false.

Definition set_prices (m : gmap bytes (list PricePoint)) (pf : PriceFeed) : PriceFeed :=
  mkFeed m (dexRegistry pf) (feed_pools pf) (feed_config pf) (updates pf) (alerts pf) (feed_running pf).

(** [p.Timestamp.After(cutoff)]. *)
Definition fresh_points (now age : Z) (l : list PricePoint) : list PricePoint := List.filter (fun p => now - age <? pp_Timestamp p) l.

(** [l[len(l)-n:]] when the list is longer than [n]. *)
Definition keep_last (n : Z) (l : list PricePoint) : outcome (list PricePoint) :=
  let len := Z.of_nat (length l) in
  if n <? len then if n <? 0 then Panic "slice bounds out of range" else Done (drop (Z.to_nat (len - n)) l) else Done l.

(** The loop visits every pair once; a visit touches only its own entry. *)
Fixpoint prune_pairs (now : Z) (walk : list bytes) (cfg : PriceFeedConfig) (m : gmap bytes (list PricePoint)) : outcome (gmap bytes (list PricePoint)) :=
  match walk with
  | [] => Done m
  | pid :: walk =>
      let! valid := keep_last (MaxPricesPerPair cfg) (fresh_points now (MaxPriceAge cfg) (default [] (m !! pid))) in
      prune_pairs now walk cfg (match valid with [] => delete pid m | _ => <[pid := valid]> m end)
  end.

Definition pruneOldPrices (now : Z) (walk : list bytes) (pf : PriceFeed) : outcome PriceFeed :=
  let! m := prune_pairs now walk (feed_config pf) (prices pf) in Done (set_prices m pf).

(** ** Spreads *)

(** [big.Float.Sub] into a new float: the exact difference, rounded to the larger precision. *)
Definition bf_Sub (x y : bigfloat) : outcome bigfloat :=
  let p := bf_result 0 x y in
  match x, y with
  | BF _ m e, BF _ m' e' => let b := Z.min e e' in Done (bf_round p (m * 2 ^ (e - b) - m' * 2 ^ (e' - b)) b)
  | BInf _ s, BInf _ s' => if Bool.eqb s s' then Panic "subtraction of infinities with equal signs" else Done (BInf p s)
  | BInf _ s, BF _ _ _ => Done (BInf p s)
  | BF _ _ _, BInf _ s => Done (BInf p (negb s))
  end.

Definition bf_is_zero (x : bigfloat) : bool := match x with BF _ m _ => m =? 0 | BInf _ _ => false end.

Definition bf_10000 : bigfloat := BF 53 10000 0.

Definition calculateSpreadBPS (price1 price2 : option bigfloat) : outcome Z :=
  match price1, price2 with
  | Some p1, Some p2 =>
      if bf_is_zero p1 then Done 0
      else
        let! diff := bf_Sub p2 p1 in
        let! spread := bf_Quo 0 diff p1 in
        let! scaled := bf_Mul (bf_prec spread) spread bf_10000 in
        Done (bf_Int64 scaled)
  | _, _ => Done 0
  end.

(** The latest price of every chain, as [checkSpreadAlert] collects it. *)
Definition chain_prices (l : list PricePoint) : gmap Z PricePoint :=
  fold_left (fun m p => match m !! pp_ChainID p with
                        | Some q => if pp_Timestamp q <? pp_Timestamp p then <[pp_ChainID p := p]> m else m
                        | None => <[pp_ChainID p := p]> m
                        end) l ∅.

(** All pairs of two positions, in the order of the nested loops. *)
Fixpoint pairs {A} (l : list A) : list (A * A) := match l with [] => [] | x :: t => map (fun y => (x, y)) t ++ pairs t end.

Definition alert_of (pid : bytes) (limit : Z) (p q : PricePoint) : outcome (list feed_event) :=
  let! spread := calculateSpreadBPS (pp_Price p) (pp_Price q) in
  Done (if (limit <? spread) || (spread <? - limit)
        then [if spread <? 0 then SpreadAlerted pid (pp_ChainID q) (pp_ChainID p) (i64 (- spread)) else SpreadAlerted pid (pp_ChainID p) (pp_ChainID q) spread]
        else []).

Fixpoint alerts_of (pid : bytes) (limit : Z) (l : list (PricePoint * PricePoint)) : outcome (list feed_event) :=
  match l with
  | [] => Done []
  | (p, q) :: l => let! a := alert_of pid limit p q in let! b := alerts_of pid limit l in Done (a ++ b)
  end.

(** [order] is the walk over the chains. *)
Definition checkSpreadAlert (order : gmap Z PricePoint -> list Z) (pid : bytes) (pf : PriceFeed) : outcome (list feed_event) :=
  let l := default [] (prices pf !! pid) in
  if negb (alerts pf) then Done []
  else if (length l <? 2)%nat then Done []
  else
    let m := chain_prices l in
    if (size m <? 2)%nat then Done []
    else alerts_of pid (SpreadAlertBPS (feed_config pf)) (pairs (omap (fun c => m !! c) (order m))).

(** ** Ingestion *)

Definition older (p q : PricePoint) : bool := pp_Timestamp p <? pp_Timestamp q.

Definition IngestPrice (now : Z) (order : gmap Z PricePoint -> list Z) (price : PricePoint) (pf : PriceFeed) : outcome (PriceFeed * list feed_event) :=
  let pid := pair_ID (pp_Pair price) in
  let l := sort_by older (fresh_points now (MaxPriceAge (feed_config pf)) (default [] (prices pf !! pid) ++ [price])) in
  let! l := keep_last (MaxPricesPerPair (feed_config pf)) l in
  let pf1 := set_prices (<[pid := l]> (prices pf)) pf in
  let! evs := checkSpreadAlert order pid pf1 in
  Done (pf1, (if updates pf then [PriceUpdated price] else []) ++ evs).

Definition no_token : TokenInfo := {| tok_Address := zero20; tok_Symbol := ""; Decimals := 0; tok_ChainID := 0 |}.

Definition chain_tokens (chainID : Z) : list TokenInfo := default [] (snd <$> find (fun x => x.1 =? chainID) CommonTokens).

(** The addresses of the tokens of one chain are distinct, so at most one matches. *)
Definition token_at (chainID : Z) (addr : bytes) : TokenInfo := default no_token (find (fun t => bytes_eqb (tok_Address t) addr) (chain_tokens chainID)).

Definition token_named (chainID : Z) (symbol : bytes) : TokenInfo := default no_token (find (fun t => bytes_eqb (bs (tok_Symbol t)) symbol) (chain_tokens chainID)).

(** The price of a swap, if one of its directions has both amounts. *)
Definition swap_price (swap : SwapEvent) : outcome (option bigfloat) :=
  let! t0i := deref (Token0In swap) in
  let! forward := (if 0 <? t0i then let! t1o := deref (Token1Out swap) in Done (0 <? t1o) else Done false) in
  if forward then
    let! t1o := deref (Token1Out swap) in
    let! q := bf_Quo 0 (bf_SetInt t1o) (bf_SetInt t0i) in Done (Some q)
  else
    let! t1i := deref (Token1In swap) in
    let! backward := (if 0 <? t1i then let! t0o := deref (Token0Out swap) in Done (0 <? t0o) else Done false) in
    if backward then
      let! t0o := deref (Token0Out swap) in
      let! q := bf_Quo 0 (bf_SetInt t0o) (bf_SetInt t1i) in
      let! r := bf_Quo 0 (BF 53 1 0) q in Done (Some r)
    else Done None.

Definition IngestSwapEvent (now : Z) (order : gmap Z PricePoint -> list Z) (swap : SwapEvent) (pf : PriceFeed) : outcome (PriceFeed * list feed_event) :=
  match feed_pools pf !! se_Pool swap with
  | None => Done (pf, [])
  | Some pool =>
      let! price := swap_price swap in
      match price with
      | None => Done (pf, [])
      | Some _ =>
          IngestPrice now order
            (mkPoint (mkPair (token_at (se_ChainID swap) (pi_Token0 pool)) (token_at (se_ChainID swap) (pi_Token1 pool))) (se_ChainID swap) (pi_DEX pool) (se_Pool swap) price None
               (se_Timestamp swap) (se_BlockNumber swap) (se_TxHash swap) (se_Source swap)) pf
      end
  end.

(** [ETH] is the wrapped token. *)
Definition wrapped (symbol : bytes) : bytes := if bytes_eqb symbol (bs "ETH") then bs "WETH" else symbol.

Definition zero_hash : bytes := zero32.

Definition SetPrice (stamp now : Z) (order : gmap Z PricePoint -> list Z) (pairID : bytes) (chainID : Z) (dexName : string) (price : option bigfloat) (pf : PriceFeed)
    : outcome (PriceFeed * list feed_event) :=
  let pid := match split Byte.x2d pairID with
              | [s0; s1] => mkPair (token_named chainID (wrapped s0)) (token_named chainID (wrapped s1))
              | _ => mkPair no_token no_token
              end in
  IngestPrice now order (mkPoint pid chainID dexName zero20 price None stamp 0 zero_hash PriceSourceRPC) pf.

(** ** Queries *)

Definition GetLatestPrice (pid : bytes) (chainID : Z) (pf : PriceFeed) : option PricePoint :=
  find (fun p => pp_ChainID p =? chainID) (rev (default [] (prices pf !! pid))).

Definition GetLatestPrices (pid : bytes) (pf : PriceFeed) : gmap Z PricePoint :=
  fold_left (fun m p => match m !! pp_ChainID p with Some _ => m | None => <[pp_ChainID p := p]> m end) (rev (default [] (prices pf !! pid))) ∅.

Definition place (p : PricePoint) : Z * string := (pp_ChainID p, pp_DEX p).

(** The latest price at every chain and exchange. *)
Definition dex_prices (l : list PricePoint) : gmap (Z * string) PricePoint :=
  fold_left (fun m p => match m !! place p with Some _ => m | None => <[place p := p]> m end) (rev l) ∅.

(** [p.Price.Cmp(q.Price)] on pointers that may be nil. *)
Definition cmp_price (p q : PricePoint) : outcome comparison :=
  let! x := deref (pp_Price p) in let! y := deref (pp_Price q) in Done (bf_Cmp x y).

(** One step of the search for the least and the greatest price. *)
Definition extremes_step (acc : option (PricePoint * PricePoint)) (p : PricePoint) : outcome (option (PricePoint * PricePoint)) :=
  match acc with
  | None => Done (Some (p, p))
  | Some (lo, hi) =>
      let! c := cmp_price p lo in
      let! c' := cmp_price p hi in
      Done (Some (match c with Lt => p | _ => lo end, match c' with Gt => p | _ => hi end))
  end.

Fixpoint extremes (acc : option (PricePoint * PricePoint)) (l : list PricePoint) : outcome (option (PricePoint * PricePoint)) :=
  match l with [] => Done acc | p :: l => let! acc1 := extremes_step acc p in extremes acc1 l end.

(** [order] is the walk over the map of latest prices. *)
Definition GetBestBuySell (order : gmap (Z * string) PricePoint -> list (Z * string)) (pid : bytes) (pf : PriceFeed) : outcome (option (PricePoint * PricePoint * Z)) :=
  let l := default [] (prices pf !! pid) in
  if (length l <? 2)%nat then Done None
  else
    let m := dex_prices l in
    if (size m <? 2)%nat then Done None
    else
      let! e := extremes None (omap (fun k => m !! k) (order m)) in
      match e with
      | None => Done None
      | Some (lo, hi) =>
          if bool_decide (place lo = place hi) then Done None
          else let! spread := calculateSpreadBPS (pp_Price lo) (pp_Price hi) in Done (Some (lo, hi, spread))
      end.

Definition spread_of (now : Z) (pid : bytes) (x : PricePoint * PricePoint * Z) : SpreadInfo :=
  mkSpread pid (pp_ChainID x.1.1) (pp_ChainID x.1.2) (pp_Price x.1.1) (pp_Price x.1.2) x.2 (pp_DEX x.1.1) (pp_DEX x.1.2) now.

(** [GetAllSpreads] takes the read lock again in every call of [GetBestBuySell]; without a waiting writer that succeeds. *)
Fixpoint all_spreads (now : bytes -> Z) (order : gmap (Z * string) PricePoint -> list (Z * string)) (walk : list bytes) (pf : PriceFeed) (m : gmap bytes SpreadInfo) : outcome (gmap bytes SpreadInfo) :=
  match walk with
  | [] => Done m
  | pid :: walk =>
      let! b := GetBestBuySell order pid pf in
      all_spreads now order walk pf (match b with Some x => <[pid := spread_of (now pid) pid x]> m | None => m end)
  end.

Definition GetAllSpreads (now : bytes -> Z) (order : gmap (Z * string) PricePoint -> list (Z * string)) (walk : list bytes) (pf : PriceFeed) : outcome (gmap bytes SpreadInfo) :=
  all_spreads now order walk pf ∅.

Definition GetPriceHistory (pid : bytes) (limit : Z) (pf : PriceFeed) : list PricePoint :=
  let l := default [] (prices pf !! pid) in
  let len := Z.of_nat (length l) in
  let limit := if (limit <=? 0) || (len <? limit) then len else limit in
  drop (Z.to_nat (len - limit)) l.

Definition GetTrackedPairs (walk : list bytes) (pf : PriceFeed) : list bytes := List.filter (fun k => bool_decide (is_Some (prices pf !! k))) walk.

(** ** Order of prices *)

Lemma bf_Cmp_scale p p' m m' e e' c : c <= Z.min e e' -> bf_Cmp (BF p m e) (BF p' m' e') = Z.compare (m * 2 ^ (e - c)) (m' * 2 ^ (e' - c)).
Proof.
  intros Hc. cbn. set (b := Z.min e e'). replace (e - c) with ((e - b) + (b - c)) by lia. replace (e' - c) with ((e' - b) + (b - c)) by lia.
  rewrite !Z.pow_add_r by lia. rewrite !Z.mul_assoc. assert (0 < 2 ^ (b - c)) by (apply Z.pow_pos_nonneg; lia).
  by rewrite <- Zmult_compare_compat_r by lia.
Qed.

Lemma bf_Cmp_trans x y z : bf_Cmp x y <> Gt -> bf_Cmp y z <> Gt -> bf_Cmp x z <> Gt.
Proof.
  destruct x as [p m e|p []], y as [p' m' e'|p' []], z as [p'' m'' e''|p'' []]; try done. set (c := Z.min e (Z.min e' e'')).
  rewrite !(bf_Cmp_scale _ _ _ _ _ _ c) by lia. change (?a ?= ?b) with (Z.compare a b). intros H1 H2. by apply (Z.le_trans _ (m' * 2 ^ (e' - c))).
Qed.

Lemma bf_Cmp_antisym x y : bf_Cmp y x = CompOpp (bf_Cmp x y).
Proof.
  destruct x as [p m e|p []], y as [p' m' e'|p' []]; try done. cbn. rewrite (Z.min_comm e' e). apply Z.compare_antisym.
Qed.

Lemma bf_Cmp_refl x : bf_Cmp x x = Eq.
Proof. destruct x as [p m e|p []]; try done. cbn. apply Z.compare_refl. Qed.

(** Prices that are not nil, compared. *)
Definition cheaper (p q : PricePoint) : Prop := match pp_Price p, pp_Price q with Some x, Some y => bf_Cmp x y <> Gt | _, _ => False end.

Lemma cheaper_trans p q r : cheaper p q -> cheaper q r -> cheaper p r.
Proof. unfold cheaper. destruct (pp_Price p), (pp_Price q), (pp_Price r); try done. apply bf_Cmp_trans. Qed.

Lemma cmp_cheaper p q c : cmp_price p q = Done c -> cheaper p p /\ cheaper q q /\ (c <> Gt -> cheaper p q) /\ (c <> Lt -> cheaper q p).
Proof.
  unfold cmp_price, cheaper. destruct (pp_Price p) as [x|], (pp_Price q) as [y|]; try done. cbn. intros [= <-]. rewrite !bf_Cmp_refl, (bf_Cmp_antisym x y).
  split; [done|]. split; [done|]. split; [done|]. by destruct (bf_Cmp x y).
Qed.

(** The search keeps the least and the greatest of what it has seen. *)
Lemma extremes_spec l acc lo hi :
  extremes (Some acc) l = Done (Some (lo, hi)) -> cheaper acc.1 acc.1 -> cheaper acc.2 acc.2 ->
  (lo = acc.1 \/ lo ∈ l) /\ (hi = acc.2 \/ hi ∈ l) /\ cheaper lo acc.1 /\ cheaper acc.2 hi /\ Forall (fun p => cheaper lo p /\ cheaper p hi) l.
Proof.
  revert acc. induction l as [|p l IH]; intros [a b] H Ha Hb; cbn [extremes] in H; [injection H as <- <-; cbn; auto 10|].
  cbn [fst snd] in *. unfold extremes_step in H. destruct (cmp_price p a) as [c| |] eqn:E1; [|done..]. cbn [outcome_bind] in H.
  destruct (cmp_price p b) as [c'| |] eqn:E2; [|done..]. cbn [outcome_bind] in H.
  apply cmp_cheaper in E1 as (P1 & _ & P2 & P3). apply cmp_cheaper in E2 as (_ & _ & Q2 & Q3).
  set (a' := match c with Lt => p | _ => a end) in H. set (b' := match c' with Gt => p | _ => b end) in H.
  assert (Ka : (a' = a \/ a' = p) /\ cheaper a' a /\ cheaper a' p) by (unfold a'; destruct c; auto; split_and!; auto; apply P2; done).
  assert (Kb : (b' = b \/ b' = p) /\ cheaper b b' /\ cheaper p b') by (unfold b'; destruct c'; auto; split_and!; auto; apply Q3; done).
  destruct Ka as (Ka1 & Ka2 & Ka3), Kb as (Kb1 & Kb2 & Kb3).
  destruct (IH (a', b') H) as (R1 & R2 & R3 & R4 & R5); [destruct Ka1 as [->| ->]; done|destruct Kb1 as [->| ->]; done|]. cbn [fst snd] in *.
  split; [destruct R1 as [->|]; [destruct Ka1 as [->| ->]; [by left|right; set_solver]|right; set_solver]|].
  split; [destruct R2 as [->|]; [destruct Kb1 as [->| ->]; [by left|right; set_solver]|right; set_solver]|].
  split; [by eapply cheaper_trans|]. split; [by eapply cheaper_trans|]. constructor; [|done]. split; by eapply cheaper_trans.
Qed.

(** ** The latest prices *)

Lemma dex_prices_lookup l k : dex_prices l !! k = find (fun p => bool_decide (place p = k)) (rev l).
Proof.
  unfold dex_prices. assert (H : forall m : gmap (Z * string) PricePoint, fold_left (fun (m : gmap (Z * string) PricePoint) p => match m !! place p with Some _ => m | None => <[place p := p]> m end) (rev l) m !! k =
    match m !! k with Some q => Some q | None => find (fun p => bool_decide (place p = k)) (rev l) end); [|by rewrite H, lookup_empty].
  induction (rev l) as [|p ps IH]; intros m; cbn [fold_left find]; [by destruct (m !! k)|]. rewrite IH. destruct (m !! place p) as [q|] eqn:E.
  - destruct (m !! k) as [q'|] eqn:E'; [done|]. rewrite bool_decide_false by (intros Hk; rewrite Hk in E; congruence). done.
  - destruct (decide (place p = k)) as [<-|Hne].
    + by rewrite lookup_insert_eq, E, bool_decide_true.
    + by rewrite lookup_insert_ne, bool_decide_false.
Qed.

(** When a spread is found, buying and selling are at different places; each is the latest price of its place, and no latest price of any chain and
    exchange is lower than the one to buy at or higher than the one to sell at. *)
Theorem best_buy_sell_extreme order pid pf buy sell spread :
  (forall m, order m ≡ₚ (map_to_list m).*1) -> GetBestBuySell order pid pf = Done (Some (buy, sell, spread)) ->
  let l := default [] (prices pf !! pid) in
  place buy <> place sell /\ dex_prices l !! place buy = Some buy /\ dex_prices l !! place sell = Some sell /\
  (forall k p, dex_prices l !! k = Some p -> cheaper buy p /\ cheaper p sell) /\ calculateSpreadBPS (pp_Price buy) (pp_Price sell) = Done spread.
Proof.
  intros Hw. cbv zeta. unfold GetBestBuySell. set (l := default [] _). set (m := dex_prices l). destruct (length l <? 2)%nat; [done|]. destruct (Nat.ltb_spec (size m) 2) as [|Hs]; [done|].
  assert (Hin : forall k, k ∈ order m <-> is_Some (m !! k)).
  { intros k. rewrite (Hw m), list_elem_of_fmap. split; [intros ([k' p] & -> & H); apply elem_of_map_to_list in H; by eexists|].
    intros [p H]. exists (k, p). split; [done|]. by apply elem_of_map_to_list. }
  set (ps := omap (fun k => m !! k) (order m)). assert (Hps : forall p, p ∈ ps <-> exists k, m !! k = Some p).
  { intros p. unfold ps. rewrite list_elem_of_omap. split; [intros (k & _ & H); eauto|]. intros (k & H). exists k. split; [apply Hin; by eexists|done]. }
  assert (Hkey : forall p, p ∈ ps -> m !! place p = Some p).
  { intros p (k & H)%Hps. unfold m in *. rewrite dex_prices_lookup in H. pose proof (find_some _ _ H) as [_ Hk]. apply bool_decide_eq_true in Hk as <-. by rewrite dex_prices_lookup. }
  destruct ps as [|p0 ps'] eqn:Eps; [by cbn; intros|]. cbn [extremes extremes_step outcome_bind].
  destruct (extremes (Some (p0, p0)) ps') as [[[lo hi]|]| |] eqn:E; [|done..]. cbn [outcome_bind].
  destruct (bool_decide (place lo = place hi)) eqn:Ep; [done|]. apply bool_decide_eq_false in Ep.
  destruct (calculateSpreadBPS (pp_Price lo) (pp_Price hi)) as [sp| |] eqn:Es; [|done..]. cbn [outcome_bind]. intros [= <- <- <-].
  destruct ps' as [|p1 ps'']; [cbn in E; injection E as <- <-; done|].
  assert (H0 : cheaper p0 p0).
  { cbn [extremes extremes_step] in E. destruct (cmp_price p1 p0) as [c| |] eqn:Ec; [|done..]. by apply cmp_cheaper in Ec as (_ & ? & _). }
  destruct (extremes_spec _ _ _ _ E H0 H0) as (R1 & R2 & R3 & R4 & R5). cbn [fst snd] in *.
  split; [done|]. split; [apply Hkey; destruct R1 as [->|]; set_solver|]. split; [apply Hkey; destruct R2 as [->|]; set_solver|]. split; [|done].
  intros k p Hp. assert (Hp' : p ∈ p0 :: p1 :: ps'') by (apply Hps; eauto). apply elem_of_cons in Hp' as [->|Hp']; [done|].
  rewrite Forall_forall in R5. by apply R5.
Qed.

(** ** Spreads of finite prices *)

Definition finite (x : bigfloat) : Prop := match x with BF _ _ _ => True | BInf _ _ => False end.
Definition nil_or_finite (x : option bigfloat) : Prop := match x with Some y => finite y | None => True end.

Lemma sub_finite x y : finite x -> finite y -> exists z, bf_Sub x y = Done z /\ finite z.
Proof. destruct x, y; try done. by eexists. Qed.

Lemma quo_finite x y : finite x -> finite y -> bf_is_zero y = false -> exists z, bf_Quo 0 x y = Done z /\ finite z.
Proof. destruct x, y; try done. cbn. intros _ _ ->. by eexists. Qed.

Lemma mul_finite zp x y : finite x -> finite y -> exists z, bf_Mul zp x y = Done z /\ finite z.
Proof. destruct x as [? m ?|], y; try done. intros _ _. destruct m; by eexists. Qed.

Lemma spread_total x y : nil_or_finite x -> nil_or_finite y -> exists z, calculateSpreadBPS x y = Done z.
Proof.
  destruct x as [x|], y as [y|]; intros Hx Hy; try by eexists. cbn [calculateSpreadBPS]. destruct (bf_is_zero x) eqn:E; [by eexists|].
  destruct (sub_finite y x Hy Hx) as (d & -> & Hd). cbn [outcome_bind]. destruct (quo_finite d x Hd Hx E) as (q & -> & Hq). cbn [outcome_bind].
  destruct (mul_finite (bf_prec q) q bf_10000 Hq I) as (r & -> & _). by eexists.
Qed.

(** Rounding keeps a positive number positive. *)
Lemma big_round_positive p n e : 0 < p -> 0 < n -> 0 < (big_round p n e).1.
Proof.
  intros Hp Hn. unfold big_round. destruct (Z.leb_spec (bitlen n - p) 0) as [H|H]; cbn [fst]; [done|]. set (s := bitlen n - p) in *.
  assert (Hb : bitlen n = Z.log2 n + 1) by (unfold bitlen; rewrite (proj2 (Z.eqb_neq n 0)), Z.abs_eq by lia; done).
  assert (0 < n / 2 ^ s); [|repeat case_match; lia]. apply Z.div_str_pos. split; [apply Z.pow_pos_nonneg; lia|].
  transitivity (2 ^ Z.log2 n); [apply Z.pow_le_mono_r; lia|]. by apply Z.log2_spec.
Qed.

Lemma quo_positive x y p m e p' m' e' :
  x = BF p m e -> y = BF p' m' e' -> 0 < p -> 0 < m -> 0 < m' -> exists q r f, bf_Quo 0 x y = Done (BF q r f) /\ 0 < q /\ 0 < r.
Proof.
  intros -> -> Hp Hm Hm'. cbn [bf_Quo bf_result bf_prec]. rewrite (proj2 (Z.eqb_neq m' 0)) by lia. unfold bf_result. cbn [Z.eqb bf_prec].
  set (k := Z.max p p' + 2 + bitlen m'). set (n := Z.abs m * 2 ^ k). set (q := 2 * (n / Z.abs m') + (if n mod Z.abs m' =? 0 then 0 else 1)).
  unfold bf_round. eexists _, _, _. split; [reflexivity|]. split; [lia|]. rewrite (Z.sgn_pos m), (Z.sgn_pos m') by lia. rewrite !Z.mul_1_l.
  assert (Hn : 0 < n) by (unfold n; assert (0 <= k) by (unfold k, bitlen; case_match; pose proof (Z.log2_nonneg (Z.abs m')); lia); assert (0 < 2 ^ k) by (apply Z.pow_pos_nonneg; lia); nia).
  assert (Hq : 0 < q).
  { unfold q. pose proof (Z.div_mod n (Z.abs m') ltac:(lia)). pose proof (Z.div_pos n (Z.abs m') ltac:(lia) ltac:(lia)). case_match; bool_to_prop; nia. }
  rewrite Z.sgn_pos, Z.abs_eq by lia. rewrite Z.mul_1_l. apply big_round_positive; lia.
Qed.

Lemma SetInt_pos z : 0 < z -> exists p, bf_SetInt z = BF p z 0 /\ 0 < p.
Proof. intros H. eexists. split; [reflexivity|]. lia. Qed.

(** The amounts of the event are there. *)
Definition swap_complete (s : SwapEvent) : Prop := is_Some (Token0In s) /\ is_Some (Token1In s) /\ is_Some (Token0Out s) /\ is_Some (Token1Out s).

(** A complete swap has no price or a finite one. *)
Lemma swap_price_finite s : swap_complete s -> exists x, swap_price s = Done x /\ nil_or_finite x.
Proof.
  intros ([a Ha] & [b Hb] & [c Hc] & [d Hd]). unfold swap_price. rewrite Ha, Hb, Hc, Hd. cbn [deref outcome_bind].
  assert (Back : exists x, (let! backward := (if 0 <? b then Done (0 <? c) else Done false) in
      if backward then let! q := bf_Quo 0 (bf_SetInt c) (bf_SetInt b) in let! r := bf_Quo 0 (BF 53 1 0) q in Done (Some r) else Done None) = Done x /\ nil_or_finite x).
  { destruct (Z.ltb_spec 0 b) as [Hb0|]; cbn [outcome_bind]; [|by eexists]. destruct (Z.ltb_spec 0 c) as [Hc0|]; [|by eexists].
    destruct (SetInt_pos c Hc0) as (p & -> & Hp), (SetInt_pos b Hb0) as (p' & -> & _). destruct (quo_positive _ _ p c 0 p' b 0 eq_refl eq_refl Hp Hc0 Hb0) as (q & r & f & -> & Hq & Hr).
    cbn [outcome_bind]. destruct (quo_positive (BF 53 1 0) (BF q r f) 53 1 0 q r f eq_refl eq_refl) as (q' & r' & f' & -> & _); try lia. cbn. by eexists. }
  destruct (Z.ltb_spec 0 a) as [Ha0|]; cbn [outcome_bind]; [|exact Back]. destruct (Z.ltb_spec 0 d) as [Hd0|]; [|exact Back].
  destruct (SetInt_pos d Hd0) as (p & -> & Hp), (SetInt_pos a Ha0) as (p' & -> & _). destruct (quo_positive _ _ p d 0 p' a 0 eq_refl eq_refl Hp Hd0 Ha0) as (q & r & f & -> & Hq & Hr).
  cbn. by eexists.
Qed.

(** ** Sequences of operations *)

Inductive feed_op :=
  | FIngest (now : Z) (order : gmap Z PricePoint -> list Z) (p : PricePoint)
  | FSwap (now : Z) (order : gmap Z PricePoint -> list Z) (s : SwapEvent)
  | FSet (stamp now : Z) (order : gmap Z PricePoint -> list Z) (pairID : bytes) (chainID : Z) (dexName : string) (price : option bigfloat)
  | FPrune (now : Z) (order : gmap bytes (list PricePoint) -> list bytes).

Definition feed_apply (o : feed_op) (pf : PriceFeed) : outcome (PriceFeed * list feed_event) :=
  match o with
  | FIngest now order p => IngestPrice now order p pf
  | FSwap now order s => IngestSwapEvent now order s pf
  | FSet stamp now order pid c d x => SetPrice stamp now order pid c d x pf
  | FPrune now order => let! pf1 := pruneOldPrices now (order (prices pf)) pf in Done (pf1, [])
  end.

Fixpoint feed_run (ops : list feed_op) (pf : PriceFeed) : outcome PriceFeed :=
  match ops with [] => Done pf | o :: os => let! r := feed_apply o pf in feed_run os r.1 end.

Definition feed_op_ok (o : feed_op) : Prop :=
  match o with
  | FIngest _ _ p => nil_or_finite (pp_Price p)
  | FSwap _ _ s => swap_complete s
  | FSet _ _ _ _ _ _ x => nil_or_finite x
  | FPrune _ _ => True
  end.

(** Oldest first. *)
Definition by_time (l : list PricePoint) : Prop := StronglySorted (fun p q => pp_Timestamp p <= pp_Timestamp q) l.

(** The list of a pair: its own prices, finite, oldest first, within the limit. *)
Definition pair_ok (n : Z) (pid : bytes) (l : list PricePoint) : Prop :=
  by_time l /\ Z.of_nat (length l) <= n /\ Forall (fun p => pair_ID (pp_Pair p) = pid /\ nil_or_finite (pp_Price p)) l.

Definition feed_ok (pf : PriceFeed) : Prop := 0 <= MaxPricesPerPair (feed_config pf) /\ map_Forall (pair_ok (MaxPricesPerPair (feed_config pf))) (prices pf).

Lemma sublist_by_time l l' : sublist l' l -> by_time l -> by_time l'.
Proof.
  intros Hs. unfold by_time. induction Hs as [|x l1 l2 Hs IH|x l1 l2 Hs IH]; intros H; [done|inversion H; subst; constructor; [by apply IH|]|inversion H; subst; by apply IH].
  rewrite Forall_forall in *. intros y Hy. match goal with K : forall z, z ∈ l2 -> _ |- _ => apply K end. by eapply sublist_subseteq.
Qed.

Lemma keep_last_ok n l :
  0 <= n -> exists l', keep_last n l = Done l' /\ sublist l' l /\ Z.of_nat (length l') <= n.
Proof.
  intros Hn. unfold keep_last. destruct (Z.ltb_spec n (Z.of_nat (length l))) as [H|H].
  - rewrite (proj2 (Z.ltb_ge n 0)) by lia. eexists. split; [reflexivity|]. split; [apply sublist_drop|]. rewrite length_drop. lia.
  - eexists. split; [reflexivity|]. split; [done|lia].
Qed.

Lemma sublist_pair_ok n pid l l' : sublist l' l -> Z.of_nat (length l') <= n -> by_time l -> Forall (fun p => pair_ID (pp_Pair p) = pid /\ nil_or_finite (pp_Price p)) l -> pair_ok n pid l'.
Proof.
  intros Hs Hl Ht Hf. split; [by eapply sublist_by_time|]. split; [done|]. rewrite Forall_forall in *. intros p Hp. apply Hf. by eapply sublist_subseteq.
Qed.

Lemma sorted_impl {A} (R S : A -> A -> Prop) l : (forall x y, R x y -> S x y) -> StronglySorted R l -> StronglySorted S l.
Proof. intros H Hl. induction Hl as [|x l Hl IH Hx]; constructor; [done|]. eapply Forall_impl; [exact Hx|]. auto. Qed.

Lemma sort_by_time l : by_time (sort_by older l).
Proof.
  unfold by_time. eapply sorted_impl; [|apply sort_by_sorted].
  - intros x y H. cbn beta in H. unfold older in H. apply Z.ltb_ge in H. exact H.
  - intros x y. unfold older. rewrite Z.ltb_lt, Z.ltb_ge. lia.
  - intros x y z. unfold older. rewrite !Z.ltb_ge. lia.
Qed.

Lemma alerts_total pid limit l :
  Forall (fun pq => nil_or_finite (pp_Price pq.1) /\ nil_or_finite (pp_Price pq.2)) l -> exists evs, alerts_of pid limit l = Done evs.
Proof.
  induction 1 as [|[p q] l [Hp Hq] _ [evs IH]]; [by eexists|]. cbn [alerts_of]. unfold alert_of. cbn [fst snd] in *. destruct (spread_total _ _ Hp Hq) as [z ->]. cbn [outcome_bind]. rewrite IH. by eexists.
Qed.

Lemma pairs_elem {A} (l : list A) x y : (x, y) ∈ pairs l -> x ∈ l /\ y ∈ l.
Proof.
  induction l as [|a l IH]; cbn [pairs]; [by intros ?%not_elem_of_nil|]. intros [(z & [= <- <-] & Hz)%list_elem_of_fmap|H]%elem_of_app; [set_solver|].
  destruct (IH H). set_solver.
Qed.

Lemma chain_prices_elem l c p : chain_prices l !! c = Some p -> p ∈ l.
Proof.
  unfold chain_prices. revert c p. apply (fold_left_inv (fun m : gmap Z PricePoint => forall c p, m !! c = Some p -> p ∈ l)).
  - intros c p H. by rewrite lookup_empty in H.
  - intros m q Hq IH c p H. repeat case_match; try (by apply (IH c)); apply lookup_insert_Some in H as [[_ <-]|[_ H]]; try done; by apply (IH c).
Qed.

Lemma check_total order pid pf : feed_ok pf -> exists evs, checkSpreadAlert order pid pf = Done evs.
Proof.
  intros [_ H]. unfold checkSpreadAlert. destruct (negb (alerts pf)); [by eexists|]. destruct (_ <? 2)%nat; [by eexists|]. destruct (_ <? 2)%nat; [by eexists|].
  apply alerts_total. apply Forall_forall. intros [p q] [Hp Hq]%pairs_elem. cbn [fst snd].
  assert (K : forall x, x ∈ omap (fun c => chain_prices (default [] (prices pf !! pid)) !! c) (order (chain_prices (default [] (prices pf !! pid)))) -> nil_or_finite (pp_Price x)).
  { intros x (c & _ & Hx)%list_elem_of_omap. apply chain_prices_elem in Hx. destruct (prices pf !! pid) as [l|] eqn:E; [|by apply not_elem_of_nil in Hx].
    destruct (H pid l E) as (_ & _ & Hf). rewrite Forall_forall in Hf. by apply Hf. }
  auto.
Qed.

Lemma ingest_ok now order p pf : feed_ok pf -> nil_or_finite (pp_Price p) -> exists pf' evs, IngestPrice now order p pf = Done (pf', evs) /\ feed_ok pf' /\ feed_config pf' = feed_config pf.
Proof.
  intros Hok Hp. pose proof Hok as [Hn H]. unfold IngestPrice. set (l0 := sort_by older _). destruct (keep_last_ok _ l0 Hn) as (l & -> & Hs & Hl). cbn [outcome_bind].
  assert (Hl0 : Forall (fun q => pair_ID (pp_Pair q) = pair_ID (pp_Pair p) /\ nil_or_finite (pp_Price q)) l0).
  { unfold l0. rewrite sort_by_perm. apply Forall_forall. intros q Hq. assert (Hq' : q ∈ default [] (prices pf !! pair_ID (pp_Pair p)) ++ [p]) by (by eapply sublist_subseteq; [apply filter_sublist|]).
    apply elem_of_app in Hq' as [Hq'|Hq']; [|apply list_elem_of_singleton in Hq' as ->; done].
    destruct (prices pf !! pair_ID (pp_Pair p)) as [l1|] eqn:E; [|by apply not_elem_of_nil in Hq']. destruct (H _ _ E) as (_ & _ & Hf). rewrite Forall_forall in Hf. by apply Hf. }
  assert (Hok' : feed_ok (set_prices (<[pair_ID (pp_Pair p) := l]> (prices pf)) pf)).
  { split; [done|]. cbn [prices set_prices]. apply map_Forall_insert_2; [|done]. eapply sublist_pair_ok; [exact Hs|done|apply sort_by_time|done]. }
  destruct (check_total order (pair_ID (pp_Pair p)) _ Hok') as [evs ->]. cbn [outcome_bind]. eexists _, _. split; [reflexivity|]. done.
Qed.

Lemma prune_pairs_ok now walk cfg m :
  0 <= MaxPricesPerPair cfg -> map_Forall (pair_ok (MaxPricesPerPair cfg)) m ->
  exists m', prune_pairs now walk cfg m = Done m' /\ map_Forall (pair_ok (MaxPricesPerPair cfg)) m'.
Proof.
  intros Hn. revert m. induction walk as [|pid walk IH]; intros m Hm; cbn [prune_pairs]; [by eexists|].
  destruct (keep_last_ok (MaxPricesPerPair cfg) (fresh_points now (MaxPriceAge cfg) (default [] (m !! pid))) Hn) as (l & -> & Hs & Hl). cbn [outcome_bind]. apply IH.
  assert (Hok : pair_ok (MaxPricesPerPair cfg) pid l).
  { assert (Hs' : sublist l (default [] (m !! pid))) by (etrans; [exact Hs|apply filter_sublist]). destruct (m !! pid) as [l1|] eqn:E.
    - destruct (Hm pid l1 E) as (Ht & _ & Hf). by eapply sublist_pair_ok.
    - apply sublist_nil_r in Hs' as ->. split; [constructor|]. split; [done|constructor]. }
  destruct l as [|p l]; [by apply map_Forall_delete|by apply map_Forall_insert_2].
Qed.

Lemma feed_apply_ok o pf : feed_op_ok o -> feed_ok pf -> exists r, feed_apply o pf = Done r /\ feed_ok r.1 /\ feed_config r.1 = feed_config pf.
Proof.
  intros Ho Hok. destruct o as [now order p|now order s|stamp now order pid c d x|now order]; cbn [feed_apply feed_op_ok] in *.
  - destruct (ingest_ok now order p pf Hok Ho) as (pf' & evs & -> & H). by exists (pf', evs).
  - unfold IngestSwapEvent. destruct (feed_pools pf !! se_Pool s) as [pool|]; [|by exists (pf, [])]. destruct (swap_price_finite s Ho) as (x & -> & Hx). cbn [outcome_bind].
    destruct x as [x|]; [|by exists (pf, [])]. match goal with |- context [IngestPrice now order ?p pf] => destruct (ingest_ok now order p pf Hok Hx) as (pf' & evs & -> & H) end. by exists (pf', evs).
  - unfold SetPrice. match goal with |- context [IngestPrice now order ?p pf] => destruct (ingest_ok now order p pf Hok Ho) as (pf' & evs & -> & H) end. by exists (pf', evs).
  - destruct Hok as [Hn Hm]. unfold pruneOldPrices. destruct (prune_pairs_ok now (order (prices pf)) (feed_config pf) (prices pf) Hn Hm) as (m' & -> & Hm'). cbn [outcome_bind].
    eexists. split; [reflexivity|]. done.
Qed.

(** From a new feed, any prices that are finite or missing, swaps with their amounts, and prunings return without panic, and the list of every
    pair then holds prices of that pair only, oldest first, and at most the limit. *)
Theorem feed_sound config ops :
  0 <= MaxPricesPerPair (default DefaultPriceFeedConfig config) -> Forall feed_op_ok ops ->
  exists pf, feed_run ops (NewPriceFeed config) = Done pf /\
    forall pid l, prices pf !! pid = Some l ->
      StronglySorted (fun p q => pp_Timestamp p <= pp_Timestamp q) l /\ Z.of_nat (length l) <= MaxPricesPerPair (default DefaultPriceFeedConfig config) /\
      forall p, p ∈ l -> pair_ID (pp_Pair p) = pid.
Proof.
  intros Hc Ho. assert (K : forall pf, feed_ok pf -> exists pf', feed_run ops pf = Done pf' /\ feed_ok pf' /\ feed_config pf' = feed_config pf).
  { induction Ho as [|o os Ho _ IH]; intros pf Hok; [by exists pf|]. destruct (feed_apply_ok o pf Ho Hok) as (r & E & Hr & Hcf). cbn [feed_run]. rewrite E. cbn [outcome_bind].
    destruct (IH r.1 Hr) as (pf' & E' & H & Hcf'). exists pf'. split; [done|]. split; [done|congruence]. }
  destruct (K (NewPriceFeed config)) as (pf & E & [_ Hm] & Hcf).
  - split; [done|]. apply map_Forall_empty.
  - exists pf. split; [done|]. rewrite Hcf in Hm. cbn [feed_config NewPriceFeed] in Hm. intros pid l Hl. destruct (Hm pid l Hl) as (H1 & H2 & H3). split; [done|]. split; [done|].
    rewrite Forall_forall in H3. intros p Hp. by apply H3.
Qed.

(** In a list that is ordered by time, the latest price of a chain is found if there is one, and no price of the chain is newer. *)
Theorem latest_is_newest pid chainID pf :
  StronglySorted (fun p q => pp_Timestamp p <= pp_Timestamp q) (default [] (prices pf !! pid)) ->
  match GetLatestPrice pid chainID pf with
  | Some p => p ∈ default [] (prices pf !! pid) /\ pp_ChainID p = chainID /\
              forall q, q ∈ default [] (prices pf !! pid) -> pp_ChainID q = chainID -> pp_Timestamp q <= pp_Timestamp p
  | None => forall q, q ∈ default [] (prices pf !! pid) -> pp_ChainID q <> chainID
  end.
Proof.
  unfold GetLatestPrice. set (l := default [] _). intros Hs. destruct (find _ (rev l)) as [p|] eqn:E.
  - destruct (find_some _ _ E) as [Hp Hc]. apply Z.eqb_eq in Hc. rewrite <- in_rev in Hp. split; [by apply list_elem_of_In|]. split; [done|]. clear Hp.
    revert E. induction l as [|x l IH] using rev_ind; [done|]. apply StronglySorted_app in Hs as (H1 & H2 & _). rewrite rev_unit. cbn [find].
    destruct (Z.eqb_spec (pp_ChainID x) chainID) as [Ex|Ex].
    + intros [= <-] q [Hq|Hq]%elem_of_app Hqc; [by apply H1; [|apply list_elem_of_singleton]|apply list_elem_of_singleton in Hq as ->; lia].
    + intros E q [Hq|Hq]%elem_of_app Hqc; [by apply IH|apply list_elem_of_singleton in Hq as ->; congruence].
  - intros q Hq Hc. apply list_elem_of_In, in_rev in Hq. pose proof (find_none _ _ E q Hq) as H. cbn in H. by apply Z.eqb_neq in H.
Qed.

(** A price set for [ETH-USDC] is filed under [WETH-USDC]: it is not found under the name it was given. *)
Theorem set_price_misfiled stamp now order price config :
  0 < MaxPricesPerPair (default DefaultPriceFeedConfig config) -> now - MaxPriceAge (default DefaultPriceFeedConfig config) < stamp ->
  exists pf evs, SetPrice stamp now order (bs "ETH-USDC") 1 "uniswap_v3" price (NewPriceFeed config) = Done (pf, evs) /\
    GetLatestPrice (bs "ETH-USDC") 1 pf = None /\ is_Some (GetLatestPrice (bs "WETH-USDC") 1 pf).
Proof.
  intros Hc Hs. unfold SetPrice. change (split Byte.x2d (bs "ETH-USDC")) with [bs "ETH"; bs "USDC"]. cbv iota. set (pp := mkPoint _ _ _ _ _ _ _ _ _ _).
  assert (Hid : pair_ID (pp_Pair pp) = bs "WETH-USDC") by (vm_compute; reflexivity). unfold IngestPrice. rewrite Hid. cbn [prices NewPriceFeed feed_config]. rewrite lookup_empty. cbn [default from_option id app].
  unfold fresh_points. cbn [List.filter]. change (pp_Timestamp pp) with stamp. rewrite (proj2 (Z.ltb_lt _ stamp)) by lia. change (sort_by older [pp]) with [pp].
  unfold keep_last. cbn [length]. rewrite (proj2 (Z.ltb_ge _ (Z.of_nat 1))) by lia. cbn [outcome_bind checkSpreadAlert alerts set_prices NewPriceFeed negb]. eexists _, _. split; [reflexivity|].
  unfold GetLatestPrice. cbn [prices set_prices]. rewrite lookup_insert_ne by done. rewrite lookup_empty, lookup_insert_eq. split; [done|]. by eexists.
Qed.

(** *** On concrete input *)

Definition toy_places {K} `{Countable K} {V} (m : gmap K V) : list K := (map_to_list m).*1.

Definition toy_point (chain : Z) (dex : string) (x stamp : Z) : PricePoint :=
  mkPoint (mkPair (token_named chain (bs "WETH")) (token_named chain (bs "USDC"))) chain dex zero20 (Some (bf_SetInt x)) None stamp 0 zero32 PriceSourceRPC.

Definition toy_swap : SwapEvent :=
  mkSwapEvent 1 "uniswap_v2" (HexToAddress "B4e16d0168e52d35CaCD2c6185b44281Ec28C9Dc") zero20 (Some 3) (Some 0) (Some 0) (Some 7) zero32 1 12 PriceSourceMempool.

Definition toy_feed_ops : list feed_op :=
  [FIngest 10 toy_places (toy_point 1 "uniswap_v2" 2000 9); FIngest 11 toy_places (toy_point 8453 "uniswap_v3" 2010 10); FSwap 12 toy_places toy_swap;
   FSet 12 12 toy_places (bs "ETH-USDC") 1 "uniswap_v3" (Some (bf_SetInt 1990)); FPrune 13 toy_places].

Lemma feed_sound_witness :
  exists pf, feed_run toy_feed_ops (NewPriceFeed None) = Done pf /\
    forall pid l, prices pf !! pid = Some l ->
      StronglySorted (fun p q => pp_Timestamp p <= pp_Timestamp q) l /\ Z.of_nat (length l) <= MaxPricesPerPair (default DefaultPriceFeedConfig None) /\
      forall p, p ∈ l -> pair_ID (pp_Pair p) = pid.
Proof.
  apply (feed_sound None toy_feed_ops); [vm_compute; discriminate|]. repeat apply List.Forall_cons; try apply List.Forall_nil; try exact I.
  split; [by eexists|]. split; [by eexists|]. split; by eexists.
Defined.

Definition toy_feed : PriceFeed := match feed_run toy_feed_ops (NewPriceFeed None) with Done pf => pf | _ => NewPriceFeed None end.

Lemma latest_is_newest_witness :
  match GetLatestPrice (bs "WETH-USDC") 1 toy_feed with
  | Some p => p ∈ default [] (prices toy_feed !! bs "WETH-USDC") /\ pp_ChainID p = 1 /\
              forall q, q ∈ default [] (prices toy_feed !! bs "WETH-USDC") -> pp_ChainID q = 1 -> pp_Timestamp q <= pp_Timestamp p
  | None => forall q, q ∈ default [] (prices toy_feed !! bs "WETH-USDC") -> pp_ChainID q <> 1
  end.
Proof.
  apply (latest_is_newest (bs "WETH-USDC") 1 toy_feed). set (l := default [] _). vm_compute in l. subst l.
  repeat (apply SSorted_cons; [|repeat (apply List.Forall_cons; [vm_compute; discriminate|]); apply List.Forall_nil]). apply SSorted_nil.
Defined.

(** Buying on Ethereum at 1990, selling on Base at 2010: a spread of 100 basis points. *)
Lemma best_buy_sell_extreme_witness :
  let buy := mkPoint (mkPair (token_named 1 (bs "WETH")) (token_named 1 (bs "USDC"))) 1 "uniswap_v3" zero20 (Some (bf_SetInt 1990)) None 12 0 zero32 PriceSourceRPC in
  let sell := toy_point 8453 "uniswap_v3" 2010 10 in
  let l := default [] (prices toy_feed !! bs "WETH-USDC") in
  place buy <> place sell /\ dex_prices l !! place buy = Some buy /\ dex_prices l !! place sell = Some sell /\
  (forall k p, dex_prices l !! k = Some p -> cheaper buy p /\ cheaper p sell) /\ calculateSpreadBPS (pp_Price buy) (pp_Price sell) = Done 100.
Proof. intros buy sell. apply (best_buy_sell_extreme toy_places (bs "WETH-USDC") toy_feed); [done|]. vm_compute. reflexivity. Defined.

Lemma set_price_misfiled_witness :
  exists pf evs, SetPrice 5 6 toy_places (bs "ETH-USDC") 1 "uniswap_v3" (Some (bf_SetInt 2000)) (NewPriceFeed None) = Done (pf, evs) /\
    GetLatestPrice (bs "ETH-USDC") 1 pf = None /\ is_Some (GetLatestPrice (bs "WETH-USDC") 1 pf).
Proof. apply (set_price_misfiled 5 6 toy_places _ None); reflexivity. Defined.
