(* ===== verification/Detector.v ===== *)
(** * Detection of opportunities ([arb/shotgun.go], [arb/opportunities.go])

    Contents: the filter that accepts an opportunity by the distance of its identifier from the entropy of the network, and the
    detector that turns the spreads of [Prices] into scored opportunities and keeps the best of them.
    Callbacks that run in goroutines are events of the output; readings of the clock and the orders
    of map walks are arguments.  The pointers that queries return are the values at that time.

    The theorems: the accumulator of the filter is the exclusive or of the hashes since the last reset
    and its pool holds the latest of them ([shotgun_refines]); along every sequence of alerts, scans, marks and changes of pressure the detector keeps every
    opportunity under its identifier, none scored below the threshold, and never more than its limit
    while scores stay below two ([detector_sound]); the one that gives way to a new one is the lowest scored
    ([evicts_lowest]); an opportunity between two exchanges of the same chain buys and sells in the same pool at the same price
    ([same_chain_same_pool]). *)

From Stdlib Require Import String SpecFloat Sorted.
From stdpp Require Import sorting.
From S2P Require Import Prelude Signing Float64 BigFloat Bits Paths Positions Swaps Amm Patterns Ordering Pathways Prices.

(** ** The shotgun filter *)

Record ShotgunFilter := mkShotgun {
  hashPool : list bytes; poolMaxSize : Z; poolIdx : Z; accumulator : bytes; threshold : float64;
  totalIngested : Z; totalAccepted : Z; totalRejected : Z; lastIngest : Z;
}.

Record ShotgunStats := mkShotgunStats {
  ss_TotalIngested : Z; ss_TotalAccepted : Z; ss_TotalRejected : Z; AcceptRate : float64; ss_Threshold : float64; PoolSize : Z; ss_LastIngest : Z;
}.

Record RankedOpportunity := mkRanked { ro_ID : bytes; ro_Score : float64; ro_Accepted : bool }.

Definition valid_threshold (t : float64) : bool := fltb f0 t && fleb t f1.

(** A threshold that is not a number passes both tests of the constructor. *)
Definition NewShotgunFilter (poolSize : Z) (t : float64) : ShotgunFilter :=
  let n := if poolSize <=? 0 then 1000 else poolSize in
  mkShotgun (replicate (Z.to_nat n) zero32) n 0 (zeros 32) (if fleb t f0 || fltb f1 t then f_ratio 7 10 else t) 0 0 0 0.

Definition ingest_hash (sf : ShotgunFilter) (h : bytes) : ShotgunFilter :=
  mkShotgun (<[Z.to_nat (poolIdx sf) := h]> (hashPool sf)) (poolMaxSize sf) (Z.rem (poolIdx sf + 1) (poolMaxSize sf)) (xor_into (accumulator sf) h) (threshold sf)
    (u64 (totalIngested sf + 1)) (totalAccepted sf) (totalRejected sf) (lastIngest sf).

Definition IngestHashes (now : Z) (hashes : list bytes) (sf : ShotgunFilter) : ShotgunFilter :=
  let s := fold_left ingest_hash hashes sf in
  mkShotgun (hashPool s) (poolMaxSize s) (poolIdx s) (accumulator s) (threshold s) (totalIngested s) (totalAccepted s) (totalRejected s) now.

(** [float64(positionVal) / float64(^uint64(0))]. *)
Definition normalized (id acc : bytes) : float64 := fdiv (f_of_Z (be_int (take 8 (xor_into id acc)))) (f_of_Z (2 ^ 64 - 1)).

(** The read lock is given up and the write lock taken to count; other operations may run in between, which the
    counters do not depend on. *)
Definition Accept (now : Z) (id : bytes) (sf : ShotgunFilter) : ShotgunFilter * bool :=
  if (totalIngested sf =? 0) || (30 * 10 ^ 9 <? Since now (lastIngest sf)) then (sf, true)
  else
    let accepted := fltb (normalized id (accumulator sf)) (threshold sf) in
    (mkShotgun (hashPool sf) (poolMaxSize sf) (poolIdx sf) (accumulator sf) (threshold sf) (totalIngested sf)
       (if accepted then u64 (totalAccepted sf + 1) else totalAccepted sf) (if accepted then totalRejected sf else u64 (totalRejected sf + 1)) (lastIngest sf), accepted).

Definition AcceptWithScore (id : bytes) (sf : ShotgunFilter) : bool * float64 :=
  if totalIngested sf =? 0 then (true, f_half)
  else let n := normalized id (accumulator sf) in (fltb n (threshold sf), fsub f1 n).

Definition MustAccept (id : bytes) (sf : ShotgunFilter) : float64 := (AcceptWithScore id sf).2.

Definition SetThreshold (t : float64) (sf : ShotgunFilter) : ShotgunFilter :=
  if valid_threshold t
  then mkShotgun (hashPool sf) (poolMaxSize sf) (poolIdx sf) (accumulator sf) t (totalIngested sf) (totalAccepted sf) (totalRejected sf) (lastIngest sf)
  else sf.

Definition GetThreshold (sf : ShotgunFilter) : float64 := threshold sf.

Definition shotgun_GetStats (sf : ShotgunFilter) : ShotgunStats :=
  let n := u64 (totalAccepted sf + totalRejected sf) in
  mkShotgunStats (totalIngested sf) (totalAccepted sf) (totalRejected sf) (if 0 <? n then fdiv (f_of_Z (totalAccepted sf)) (f_of_Z n) else f0) (threshold sf) (poolMaxSize sf) (lastIngest sf).

Definition shotgun_Reset (sf : ShotgunFilter) : ShotgunFilter :=
  mkShotgun (replicate (Z.to_nat (poolMaxSize sf)) zero32) (poolMaxSize sf) 0 (zeros 32) (threshold sf) 0 0 0 (lastIngest sf).

(** [clock i] is the reading at the [i]-th identifier. *)
Fixpoint BatchFilter (clock : nat -> Z) (ids : list bytes) (sf : ShotgunFilter) : ShotgunFilter * list bytes :=
  match ids with
  | [] => (sf, [])
  | id :: ids => let r := Accept (clock 0%nat) id sf in
                 let s := BatchFilter (fun i => clock (S i)) ids r.1 in
                 (s.1, if r.2 then id :: s.2 else s.2)
  end.

Definition RankedFilter (ids : list bytes) (sf : ShotgunFilter) : list RankedOpportunity :=
  exchange_sort (fun x y => fltb (ro_Score y) (ro_Score x))
    (map (fun id => let score := fsub f1 (normalized id (accumulator sf)) in mkRanked id score (fltb (fsub f1 (threshold sf)) score)) ids).

(** The handler of received transactions: the filter first, then the handler that was there. *)
Definition ConnectToTransport {S} (original : option (Z -> list bytes -> S -> S)) (now : Z) (chainID : Z) (hashes : list bytes) (st : ShotgunFilter * S) : ShotgunFilter * S :=
  (IngestHashes now hashes st.1, match original with Some f => f chainID hashes st.2 | None => st.2 end).

(** ** Opportunities *)

Record PressureMetrics := mkMetrics { m_Hadamard : float64; m_PauliX : float64; m_PauliZ : float64; m_Phase : float64 }.

Inductive OpportunityStatus := StatusDetected | StatusScored | StatusValidated | StatusQueued | StatusExecuting | StatusCompleted | StatusFailed | StatusExpired.

Record PathStep := mkStep { st_ChainID : Z; st_DEX : string; st_Pool : bytes; st_TokenIn : bytes; st_TokenOut : bytes }.

(** The fields the detector sets; the type is that of a cross-chain opportunity and the amounts are nil. *)
Record Opportunity := mkOpp {
  o_ID : bytes; o_Status : OpportunityStatus; o_Path : list PathStep; o_BuyPrice : option bigfloat; o_SellPrice : option bigfloat; o_SpreadBPS : Z;
  o_BuyChain : Z; o_SellChain : Z; o_IsCrossChain : bool; o_Pressure : PressureMetrics; o_Score : float64; o_DetectedAt : Z; o_ExpiresAt : Z;
}.

Record OpportunityConfig := mkOppConfig {
  MinSpreadBPS : Z; MinProfitWei : Z; MaxOpportunityAge : Z; MaxConcurrent : Z; EnableShotgun : bool; ShotgunThreshold : float64;
}.

Definition DefaultOpportunityConfig : OpportunityConfig := mkOppConfig 10 (10 ^ 16) (30 * 10 ^ 9) 100 true (f_ratio 7 10).

Record OpportunityDetector := mkDetectorState {
  shotgun : option ShotgunFilter; opportunities : gmap bytes Opportunity; od_config : OpportunityConfig; currentPressure : PressureMetrics; od_running : bool; od_callback : bool;
}.

Definition NewOpportunityDetector (config : option OpportunityConfig) : OpportunityDetector :=
  let c := default DefaultOpportunityConfig config in
  mkDetectorState (if EnableShotgun c then Some (NewShotgunFilter 1000 (ShotgunThreshold c)) else None) ∅ c (mkMetrics f0 f0 f0 f0) false false.

(** [Start] also makes the detector the receiver of the alerts of the feed. *)
Definition detector_Start (od : OpportunityDetector) (pf : PriceFeed) : OpportunityDetector * PriceFeed :=
  if od_running od then (od, pf)
  else (mkDetectorState (shotgun od) (opportunities od) (od_config od) (currentPressure od) true (od_callback od),
        mkFeed (prices pf) (dexRegistry pf) (feed_pools pf) (feed_config pf) (updates pf) true (feed_running pf)).

Definition detector_Stop (od : OpportunityDetector) : OpportunityDetector :=
  mkDetectorState (shotgun od) (opportunities od) (od_config od) (currentPressure od) false (od_callback od).

Definition set_opps (m : gmap bytes Opportunity) (od : OpportunityDetector) : OpportunityDetector :=
  mkDetectorState (shotgun od) m (od_config od) (currentPressure od) (od_running od) (od_callback od).

Definition UpdatePressure (p : PressureMetrics) (od : OpportunityDetector) : OpportunityDetector :=
  mkDetectorState (shotgun od) (opportunities od) (od_config od) p (od_running od) (od_callback od).

(** [math.Min]. *)
Definition math_Min (x y : float64) : float64 :=
  match x, y with
  | S754_infinity true, _ | _, S754_infinity true => S754_infinity true
  | S754_nan, _ | _, S754_nan => S754_nan
  | S754_zero true, S754_zero _ => x
  | S754_zero _, S754_zero _ => y
  | _, _ => if fltb x y then x else y
  end.

Definition set_score (p : PressureMetrics) (s : float64) (status : OpportunityStatus) (o : Opportunity) : Opportunity :=
  mkOpp (o_ID o) status (o_Path o) (o_BuyPrice o) (o_SellPrice o) (o_SpreadBPS o) (o_BuyChain o) (o_SellChain o) (o_IsCrossChain o) p s (o_DetectedAt o) (o_ExpiresAt o).

(** [base] is the part of the score that the filter gave. *)
Definition score_of (now : Z) (od : OpportunityDetector) (base : float64) (o : Opportunity) : float64 :=
  let p := currentPressure od in
  let spreadScore := math_Min (fdiv (f_of_Z (o_SpreadBPS o)) (f_of_Z 100)) f1 in
  let pressureScore := math_Min (m_Hadamard p) f1 in
  let coherenceScore := m_PauliX p in
  let tensionScore := fsub f1 (fmul (SFabs (fsub (m_PauliZ p) f_half)) (f_of_Z 2)) in
  let t := fsub f1 (fdiv (f_of_Z (Since now (o_DetectedAt o))) (f_of_Z (MaxOpportunityAge (od_config od)))) in
  let timingScore := if fltb t f0 then f0 else t in
  fadd (fadd (fadd (fadd (fadd base (fmul spreadScore (f_ratio 50 100))) (fmul pressureScore (f_ratio 10 100))) (fmul coherenceScore (f_ratio 8 100)))
    (fmul tensionScore (f_ratio 8 100))) (fmul timingScore (f_ratio 4 100)).

Definition scoreOpportunity (now : Z) (od : OpportunityDetector) (o : Opportunity) : Opportunity :=
  set_score (currentPressure od) (score_of now od (o_Score o) o) (o_Status o) o.

(** The walk keeps the first of the lowest scores below two. *)
Definition lowest_step (acc : float64 * option bytes) (io : bytes * Opportunity) : float64 * option bytes :=
  if fltb (o_Score io.2) acc.1 then (o_Score io.2, Some io.1) else acc.

Definition removeLowestScored (walk : list bytes) (m : gmap bytes Opportunity) : gmap bytes Opportunity :=
  match (fold_left lowest_step (omap (fun id => (fun o => (id, o)) <$> m !! id) walk) (f_of_Z 2, None)).2 with
  | Some id => delete id m
  | None => m
  end.

Definition pruneExpired (now : Z) (od : OpportunityDetector) : OpportunityDetector :=
  set_opps (base.filter (fun io => (o_ExpiresAt io.2 <? now) = false) (opportunities od)) od.

(** [byte(z)]. *)
Definition low_byte (z : Z) : byte := Zbyte z.

(** What the callback is told. *)
Notation opp_event := Opportunity.

Section detector.
Context {C : Crypto}.

(** [ComputeID] of a cross-chain opportunity without an amount. *)
Definition ComputeID (o : Opportunity) : bytes :=
  Keccak256 ([low_byte 1; low_byte (o_BuyChain o); low_byte (o_SellChain o)] ++
    match o_Path o with
    | [] => []
    | s :: _ => st_TokenIn s ++ default [] (st_TokenOut <$> last (o_Path o))
    end ++ [low_byte (Z.shiftr (i64 (o_DetectedAt o)) 32)]).

(** [unix] is the time in seconds. *)
Definition ComputeOpportunityID (buyChain sellChain : Z) (tokenIn tokenOut : bytes) (amountIn : option Z) (unix : Z) : bytes :=
  Keccak256 (be_bytes 8 buyChain ++ be_bytes 8 sellChain ++ tokenIn ++ tokenOut ++ match amountIn with Some z => bigint_bytes z | None => [] end ++
    be_bytes 8 (u64 (Z.quot unix 10))).

Definition set_id (o : Opportunity) : Opportunity :=
  mkOpp (ComputeID o) (o_Status o) (o_Path o) (o_BuyPrice o) (o_SellPrice o) (o_SpreadBPS o) (o_BuyChain o) (o_SellChain o) (o_IsCrossChain o) (o_Pressure o) (o_Score o) (o_DetectedAt o) (o_ExpiresAt o).

(** The opportunity before it is scored; [t1] and [t2] are the readings of detection and expiry. *)
Definition opportunity_of (t1 t2 : Z) (cfg : OpportunityConfig) (spread : SpreadInfo) (buyPrice sellPrice : PricePoint) : Opportunity :=
  set_id (mkOpp [] StatusDetected
    [mkStep (si_BuyChain spread) (si_BuyDEX spread) (pp_PoolAddress buyPrice) (tok_Address (Token0 (pp_Pair buyPrice))) (tok_Address (Token1 (pp_Pair buyPrice)));
     mkStep (si_SellChain spread) (si_SellDEX spread) (pp_PoolAddress sellPrice) (tok_Address (Token1 (pp_Pair sellPrice))) (tok_Address (Token0 (pp_Pair sellPrice)))]
    (pp_Price buyPrice) (pp_Price sellPrice) (si_SpreadBPS spread) (si_BuyChain spread) (si_SellChain spread) (negb (si_BuyChain spread =? si_SellChain spread))
    (mkMetrics f0 f0 f0 f0) f0 t1 (t2 + MaxOpportunityAge cfg)).

(** The verdict of the filter and the score it starts with. *)
Definition filter_verdict (od : OpportunityDetector) (id : bytes) : bool * float64 :=
  match shotgun od with
  | Some sf => if EnableShotgun (od_config od) then let r := AcceptWithScore id sf in (r.1, fmul r.2 (f_ratio 2 10)) else (true, f0)
  | None => (true, f0)
  end.

(** [now] is the reading of the scoring, [order] the walk when the detector is full. *)
Definition evaluateOpportunity (t1 t2 now : Z) (order : gmap bytes Opportunity -> list bytes) (pairID : bytes) (spread : SpreadInfo) (pf : PriceFeed) (od : OpportunityDetector)
    : OpportunityDetector * list opp_event :=
  match GetLatestPrice pairID (si_BuyChain spread) pf, GetLatestPrice pairID (si_SellChain spread) pf with
  | Some buyPrice, Some sellPrice =>
      let opp := opportunity_of t1 t2 (od_config od) spread buyPrice sellPrice in
      let v := filter_verdict od (o_ID opp) in
      if negb v.1 then (od, [])
      else
        let scored := scoreOpportunity now od (set_score (o_Pressure opp) v.2 (o_Status opp) opp) in
        if fltb (o_Score scored) (f_ratio 15 100) then (od, [])
        else match opportunities od !! o_ID opp with
             | Some _ => (od, [])
             | None =>
                 let m := if MaxConcurrent (od_config od) <=? Z.of_nat (size (opportunities od)) then removeLowestScored (order (opportunities od)) (opportunities od) else opportunities od in
                 let o := set_score (o_Pressure scored) (o_Score scored) StatusScored scored in
                 (set_opps (<[o_ID opp := o]> m) od, if od_callback od then [o] else [])
             end
  | _, _ => (od, [])
  end.

(** The readings of one evaluation. *)
Record EvalReadings := mkEval { ev_detect : Z; ev_expire : Z; ev_score : Z; ev_order : gmap bytes Opportunity -> list bytes }.

Definition evaluate (r : EvalReadings) (pairID : bytes) (spread : SpreadInfo) (pf : PriceFeed) (od : OpportunityDetector) : OpportunityDetector * list opp_event :=
  evaluateOpportunity (ev_detect r) (ev_expire r) (ev_score r) (ev_order r) pairID spread pf od.

Fixpoint scan_spreads (r : bytes -> EvalReadings) (spreads : list (bytes * SpreadInfo)) (pf : PriceFeed) (od : OpportunityDetector) : OpportunityDetector * list opp_event :=
  match spreads with
  | [] => (od, [])
  | (pid, spread) :: rest =>
      if si_SpreadBPS spread <? MinSpreadBPS (od_config od) then scan_spreads r rest pf od
      else let x := evaluate (r pid) pid spread pf od in
           let y := scan_spreads r rest pf x.1 in (y.1, x.2 ++ y.2)
  end.

(** [walk] is the walk over the prices, [order] that over the places and [order'] that over the spreads. *)
Definition scan (r : bytes -> EvalReadings) (now : bytes -> Z) (walk : list bytes) (order : gmap (Z * string) PricePoint -> list (Z * string)) (order' : gmap bytes SpreadInfo -> list bytes)
    (pf : PriceFeed) (od : OpportunityDetector) : outcome (OpportunityDetector * list opp_event) :=
  let! spreads := GetAllSpreads now order walk pf in
  Done (scan_spreads r (omap (fun k => (fun s => (k, s)) <$> spreads !! k) (order' spreads)) pf od).

(** [prune] is the reading of the pruning, [stamp] that of the spread. *)
Definition handleSpreadAlert (r : EvalReadings) (prune stamp : Z) (order : gmap (Z * string) PricePoint -> list (Z * string)) (pairID : bytes) (spreadBPS : Z)
    (pf : PriceFeed) (od : OpportunityDetector) : outcome (OpportunityDetector * list opp_event) :=
  if spreadBPS <? MinSpreadBPS (od_config od) then Done (od, [])
  else
    let od1 := pruneExpired prune od in
    let! best := GetBestBuySell order pairID pf in
    match best with
    | None => Done (od1, [])
    | Some x => Done (evaluate r pairID (spread_of stamp pairID x) pf od1)
    end.
End detector.

(** ** Queries and marks *)

Definition GetOpportunities (walk : list bytes) (od : OpportunityDetector) : list Opportunity := omap (fun id => opportunities od !! id) walk.

Definition GetTopOpportunities (walk : list bytes) (n : Z) (od : OpportunityDetector) : outcome (list Opportunity) :=
  let l := exchange_sort (fun x y => fltb (o_Score y) (o_Score x)) (GetOpportunities walk od) in
  let n := if Z.of_nat (length l) <? n then Z.of_nat (length l) else n in
  if n <? 0 then Panic "slice bounds out of range" else Done (take (Z.to_nat n) l).

Definition GetOpportunity (id : bytes) (od : OpportunityDetector) : option Opportunity := opportunities od !! id.
Definition GetOpportunityCount (od : OpportunityDetector) : Z := Z.of_nat (size (opportunities od)).

Definition MarkExecuting (id : bytes) (od : OpportunityDetector) : OpportunityDetector * bool :=
  match opportunities od !! id with
  | None => (od, false)
  | Some o => (set_opps (<[id := set_score (o_Pressure o) (o_Score o) StatusExecuting o]> (opportunities od)) od, true)
  end.

(** The status is set on an object that leaves the map at once. *)
Definition MarkCompleted (id : bytes) (success : bool) (od : OpportunityDetector) : OpportunityDetector * option OpportunityStatus :=
  match opportunities od !! id with
  | None => (od, None)
  | Some _ => (set_opps (delete id (opportunities od)) od, Some (if success then StatusCompleted else StatusFailed))
  end.

Definition GetShotgunStats (od : OpportunityDetector) : option ShotgunStats := shotgun_GetStats <$> shotgun od.

(** ** The filter and its history *)

Lemma ingest_all_rel n hs t :
  0 < n ->
  let s := fold_left ingest_hash hs (NewShotgunFilter n t) in
  poolMaxSize s = n /\ length (hashPool s) = Z.to_nat n /\ poolIdx s = Z.of_nat (length hs) mod n /\ accumulator s = xor_all (zeros 32) hs /\
  totalIngested s = u64 (Z.of_nat (length hs)) /\
  forall j h, hs !! j = Some h -> Z.of_nat (length hs) - n <= Z.of_nat j -> hashPool s !! Z.to_nat (Z.of_nat j mod n) = Some h.
Proof.
  intros Hn. cbv zeta. induction hs as [|h hs IH] using rev_ind.
  - cbn [fold_left NewShotgunFilter poolMaxSize hashPool poolIdx accumulator totalIngested length]. rewrite (proj2 (Z.leb_gt n 0)) by lia.
    rewrite length_replicate. split; [done|]. split; [done|]. split; [by rewrite Z.mod_0_l by lia|]. done.
  - rewrite fold_left_app. cbn [fold_left]. destruct IH as (H1 & H2 & H3 & H4 & H5 & H6). set (s := fold_left ingest_hash hs _) in *. unfold ingest_hash at 1 2 3 4 5 6.
    cbn [poolMaxSize hashPool poolIdx accumulator totalIngested]. rewrite length_insert, length_app. cbn [length].
    assert (Hi : 0 <= poolIdx s < n) by (rewrite H3; apply Z.mod_pos_bound; lia). split; [done|]. split; [done|]. split.
    { rewrite H1, H3, Z.rem_mod_nonneg by (pose proof (Z.mod_pos_bound (Z.of_nat (length hs)) n); lia). rewrite Zplus_mod_idemp_l. f_equal. lia. }
    split; [rewrite H4; unfold xor_all; by rewrite fold_left_app|]. split.
    { rewrite H5. unfold u64. rewrite Zplus_mod_idemp_l. f_equal. lia. }
    intros j x Hj Hlt. rewrite H3. destruct (decide (j = length hs)) as [->|Hne].
    + rewrite lookup_app_r, Nat.sub_diag in Hj by lia. injection Hj as <-. apply list_lookup_insert_eq. rewrite H2. rewrite H3 in Hi. lia.
    + apply lookup_app_Some in Hj as [Hj|[Hj1 Hj2]].
      * assert (Hjl := lookup_lt_Some _ _ _ Hj). rewrite list_lookup_insert_ne; [apply H6; [done|lia]|]. intros Heq. apply Z2Nat.inj in Heq; [|apply Z.mod_pos_bound; lia..].
        assert (Hd : (Z.of_nat (length hs) - Z.of_nat j) mod n = 0) by (rewrite Zminus_mod, Heq, Z.sub_diag; apply Z.mod_0_l; lia).
        rewrite Z.mod_small in Hd by lia. lia.
      * destruct (j - length hs)%nat eqn:E; [lia|done].
Qed.

(** After any batches the accumulator of a new filter is the exclusive or of all the hashes, in whatever order they came, the counter is their number, and the
    pool holds the latest as many as it has places, each in the place of its number. *)
Theorem shotgun_refines n t batches :
  0 < n ->
  let hs := concat (map snd batches) in
  let s := fold_left (fun s (b : Z * list bytes) => IngestHashes b.1 b.2 s) batches (NewShotgunFilter n t) in
  (forall hs', hs ≡ₚ hs' -> accumulator s = xor_all (zeros 32) hs') /\ totalIngested s = u64 (Z.of_nat (length hs)) /\
  forall j h, hs !! j = Some h -> Z.of_nat (length hs) - n <= Z.of_nat j -> hashPool s !! Z.to_nat (Z.of_nat j mod n) = Some h.
Proof.
  intros Hn. cbv zeta.
  assert (K : forall bs s s', (hashPool s, poolMaxSize s, poolIdx s, accumulator s, totalIngested s) = (hashPool s', poolMaxSize s', poolIdx s', accumulator s', totalIngested s') ->
    let a := fold_left (fun s (b : Z * list bytes) => IngestHashes b.1 b.2 s) bs s in
    let b := fold_left ingest_hash (concat (map snd bs)) s' in
    hashPool a = hashPool b /\ accumulator a = accumulator b /\ totalIngested a = totalIngested b).
  { intros bs. induction bs as [|[now l] bs IH]; intros s s' E; cbv zeta; cbn [fold_left map concat snd]; [by injection E|]. rewrite fold_left_app. apply IH. unfold IngestHashes.
    cbn [hashPool poolMaxSize poolIdx accumulator totalIngested fst snd]. clear IH. revert s s' E. induction l as [|h l IH]; intros s s' E; [done|]. cbn [fold_left]. apply IH.
    unfold ingest_hash. cbn [hashPool poolMaxSize poolIdx accumulator totalIngested]. by injection E as -> -> -> -> ->. }
  destruct (K batches (NewShotgunFilter n t) (NewShotgunFilter n t) eq_refl) as (E1 & E2 & E3). rewrite E1, E2, E3.
  destruct (ingest_all_rel n (concat (map snd batches)) t Hn) as (_ & _ & _ & H4 & H5 & H6). split; [|done].
  intros hs' Hp. rewrite H4. by apply xor_all_perm.
Qed.

(** ** The lowest score *)

Lemma lowest_fold l best id :
  is_nan best = false -> Forall (fun io => is_nan (o_Score io.2) = false) l ->
  let r := fold_left lowest_step l (best, id) in
  is_nan r.1 = false /\ fltb best r.1 = false /\ Forall (fun io => fltb (o_Score io.2) r.1 = false) l /\
  (r = (best, id) \/ exists io, io ∈ l /\ r = (o_Score io.2, Some io.1)).
Proof.
  intros Hb Hl. revert best id Hb. induction Hl as [|[k o] l Ho Hl IH]; intros best id Hb; cbv zeta; cbn [fold_left]; [split; [done|]; split; [apply fltb_irrefl|]; split; [constructor|by left]|].
  change (lowest_step (best, id) (k, o)) with (if fltb (o_Score o) best then (o_Score o, Some k) else (best, id)). cbn [fst snd] in *. destruct (fltb (o_Score o) best) eqn:E.
  - destruct (IH (o_Score o) (Some k) Ho) as (H1 & H2 & H3 & H4). set (r := fold_left _ _ _) in *. split; [done|]. split.
    { apply (fltb_ntrans r.1 (o_Score o) best); [done..| |by apply fltb_asym]. exact H2. }
    split; [by constructor|]. right. destruct H4 as [H4|(io & Hio & H4)]; [exists (k, o); split; [left|exact H4]|exists io; split; [by right|exact H4]].
  - destruct (IH best id Hb) as (H1 & H2 & H3 & H4). set (r := fold_left _ _ _) in *. split; [done|]. split; [done|]. split.
    + constructor; [|done]. cbn [snd]. by apply (fltb_ntrans r.1 best (o_Score o)).
    + destruct H4 as [H4|(io & Hio & H4)]; [by left|right; exists io; split; [by right|exact H4]].
Qed.

Definition below_two (m : gmap bytes Opportunity) : Prop := map_Forall (fun _ o => fltb (o_Score o) (f_of_Z 2) = true) m.

(** Of opportunities that score below two one is dropped, and none that stays scores less. *)
Lemma remove_lowest order m :
  walks order -> below_two m -> m <> ∅ ->
  exists id o, m !! id = Some o /\ removeLowestScored (order m) m = delete id m /\ forall id' o', m !! id' = Some o' -> fltb (o_Score o') (o_Score o) = false.
Proof.
  intros Hw Hb Hne. unfold removeLowestScored. set (l := omap _ (order m)). destruct (walks_spec order m Hw) as [_ Hin].
  assert (Hl : forall id o, (id, o) ∈ l <-> m !! id = Some o).
  { intros id o. unfold l. rewrite list_elem_of_omap. split; [intros (k & _ & H); by apply fmap_Some in H as (v & H & [= -> ->])|].
    intros H. exists id. split; [apply Hin; by eexists|]. by rewrite H. }
  assert (Hnum : Forall (fun io : bytes * Opportunity => is_nan (o_Score io.2) = false) l).
  { apply Forall_forall. intros [id o] Hio%Hl. specialize (Hb id o Hio). by apply fltb_number in Hb as [? _]. }
  destruct (lowest_fold l (f_of_Z 2) None eq_refl Hnum) as (H1 & H2 & H3 & H4). set (r := fold_left _ _ _) in *. destruct H4 as [Hr|([id o] & Hio & Hr)].
  - exfalso. apply map_choose in Hne as (id & o & Hio). rewrite Forall_forall in H3. pose proof (H3 (id, o) (proj2 (Hl id o) Hio)) as Hlt. rewrite Hr in Hlt. cbn [fst snd] in Hlt.
    specialize (Hb id o Hio). cbn beta in Hb. congruence.
  - rewrite Hr in *. cbn [fst snd] in *. exists id, o. split; [by apply Hl|]. split; [done|]. intros id' o' H'. rewrite Forall_forall in H3. exact (H3 (id', o') (proj2 (Hl id' o') H')).
Qed.

(** ** Reachable detectors *)

Section reach.
Context {C : Crypto}.

Definition detector_ok (od : OpportunityDetector) : Prop :=
  map_Forall (fun id o => o_ID o = id /\ fltb (o_Score o) (f_ratio 15 100) = false) (opportunities od) /\
  Z.of_nat (size (opportunities od)) <= MaxConcurrent (od_config od).

(** One change of the detector: an evaluation, a pruning, a mark, new pressure, or new entropy in the filter. *)
Inductive detector_step : OpportunityDetector -> OpportunityDetector -> Prop :=
  | step_evaluate od r pid spread pf : walks (ev_order r) -> detector_step od (evaluate r pid spread pf od).1
  | step_prune od now : detector_step od (pruneExpired now od)
  | step_executing od id : detector_step od (MarkExecuting id od).1
  | step_completed od id success : detector_step od (MarkCompleted id success od).1
  | step_pressure od p : detector_step od (UpdatePressure p od)
  | step_entropy od sf : detector_step od (mkDetectorState (Some sf) (opportunities od) (od_config od) (currentPressure od) (od_running od) (od_callback od))
  | step_stop od : detector_step od (detector_Stop od)
  | step_start od pf : detector_step od (detector_Start od pf).1.

(** States that are reached while all scores are below two. *)
Inductive detector_reach (config : option OpportunityConfig) : OpportunityDetector -> Prop :=
  | reach_new : detector_reach config (NewOpportunityDetector config)
  | reach_step od od' : detector_reach config od -> detector_step od od' -> below_two (opportunities od') -> detector_reach config od'.

Lemma delete_size {V} (m : gmap bytes V) id : is_Some (m !! id) -> Z.of_nat (size (delete id m)) = Z.of_nat (size m) - 1.
Proof.
  intros H. rewrite map_size_delete_Some by done. assert (size m <> 0%nat); [|lia]. intros H0%map_size_empty_inv. subst. rewrite lookup_empty in H. by destruct H.
Qed.

Lemma filter_size {V} (P : bytes * V -> Prop) `{!forall x, Decision (P x)} (m : gmap bytes V) : (size (base.filter P m) <= size m)%nat.
Proof. rewrite <- !size_dom. apply subseteq_size. apply dom_filter_subseteq. Qed.

Lemma evaluate_ok r pid spread pf od :
  walks (ev_order r) -> 1 <= MaxConcurrent (od_config od) -> below_two (opportunities od) -> detector_ok od ->
  detector_ok (evaluate r pid spread pf od).1 /\ od_config (evaluate r pid spread pf od).1 = od_config od.
Proof.
  intros Hw HM Hb [Hk Hs]. unfold evaluate, evaluateOpportunity. destruct (GetLatestPrice _ _ _) as [bp|]; [|done]. destruct (GetLatestPrice _ _ _) as [sp|]; [|done].
  set (opp := opportunity_of _ _ _ _ _ _). destruct (negb _); [done|]. set (scored := scoreOpportunity _ _ _).
  destruct (fltb (o_Score scored) _) eqn:Es; [done|]. destruct (opportunities od !! o_ID opp) as [|] eqn:En; [done|]. cbn [fst]. split; [|done]. unfold detector_ok. cbn [opportunities set_opps od_config].
  set (m := if MaxConcurrent (od_config od) <=? _ then _ else _).
  assert (Hm : m ⊆ opportunities od /\ Z.of_nat (size m) + 1 <= MaxConcurrent (od_config od)).
  { unfold m. destruct (Z.leb_spec (MaxConcurrent (od_config od)) (Z.of_nat (size (opportunities od)))) as [H|H]; [|split; [done|lia]].
    destruct (remove_lowest (ev_order r) (opportunities od) Hw Hb) as (id & o & Hid & -> & _); [intros H0; rewrite H0, map_size_empty in H; lia|].
    split; [apply delete_subseteq|]. rewrite delete_size by (by eexists). lia. }
  destruct Hm as [Hsub Hsz]. split.
  - apply map_Forall_insert_2; [split; [done|exact Es]|]. intros id o Ho. apply (Hk id o). by eapply lookup_weaken.
  - rewrite map_size_insert_None; [lia|]. destruct (m !! o_ID opp) as [o|] eqn:E; [|done]. rewrite map_subseteq_spec in Hsub. rewrite (Hsub _ _ E) in En. done.
Qed.

Lemma step_ok od od' : detector_step od od' -> 1 <= MaxConcurrent (od_config od) -> below_two (opportunities od) -> detector_ok od -> detector_ok od' /\ od_config od' = od_config od.
Proof.
  intros Hst HM Hb Hok. destruct Hst as [od r pid spread pf Hw|od now|od id|od id success|od p|od sf|od|od pf]; try done.
  - by apply evaluate_ok.
  - split; [|done]. destruct Hok as [Hk Hs]. split; cbn [opportunities pruneExpired set_opps od_config].
    + intros id o [Ho _]%map_lookup_filter_Some. by apply Hk.
    + pose proof (filter_size (fun io => (o_ExpiresAt io.2 <? now) = false) (opportunities od)). lia.
  - unfold MarkExecuting. destruct (opportunities od !! id) as [o|] eqn:E; [|done]. split; [|done]. destruct Hok as [Hk Hs]. split; cbn [fst opportunities set_opps od_config].
    + apply map_Forall_insert_2; [exact (Hk id o E)|done].
    + rewrite map_size_insert_Some by (by eexists). done.
  - unfold MarkCompleted. destruct (opportunities od !! id) as [o|] eqn:E; [|done]. split; [|done]. destruct Hok as [Hk Hs]. split; cbn [fst opportunities set_opps od_config].
    + by apply map_Forall_delete.
    + rewrite delete_size by (by eexists). lia.
  - unfold detector_Start. by destruct (od_running od).
Qed.

(** C35: With a limit of at least one, in every state that is reached while scores stay below two, each opportunity is under its own identifier, none scores below 0.15, and there are never more
    than the configured number. *)
Theorem detector_sound config od :
  1 <= MaxConcurrent (default DefaultOpportunityConfig config) -> detector_reach config od ->
  Z.of_nat (size (opportunities od)) <= MaxConcurrent (default DefaultOpportunityConfig config) /\
  forall id o, opportunities od !! id = Some o -> o_ID o = id /\ fltb (o_Score o) (f_ratio 15 100) = false.
Proof.
  intros HM H. assert (K : detector_ok od /\ od_config od = default DefaultOpportunityConfig config /\ below_two (opportunities od)).
  { induction H as [|od od' _ (IH1 & IH2 & IH3) Hst Hb].
    - split; [|split; [done|apply map_Forall_empty]]. split; [apply map_Forall_empty|]. cbn [opportunities NewOpportunityDetector od_config]. rewrite map_size_empty. lia.
    - destruct (step_ok od od' Hst) as [H1 H2]; [by rewrite IH2|done|done|]. split; [done|]. split; [congruence|done]. }
  destruct K as ([Hk Hs] & <- & _). done.
Qed.

(** When a full detector takes a new opportunity it drops one that no other it had scores below. *)
Theorem evicts_lowest r pid spread pf od od' evs id o :
  walks (ev_order r) -> below_two (opportunities od) -> 1 <= MaxConcurrent (od_config od) -> MaxConcurrent (od_config od) = Z.of_nat (size (opportunities od)) ->
  evaluate r pid spread pf od = (od', evs) -> opportunities od' !! id = Some o -> opportunities od !! id = None ->
  exists old oo, opportunities od !! old = Some oo /\ opportunities od' !! old = None /\ (forall k x, opportunities od !! k = Some x -> fltb (o_Score x) (o_Score oo) = false).
Proof.
  intros Hw Hb H1 HM. unfold evaluate, evaluateOpportunity. destruct (GetLatestPrice _ _ _) as [bp|]; [|intros [= <- <-]; congruence]. destruct (GetLatestPrice _ _ _) as [sp|]; [|intros [= <- <-]; congruence].
  set (opp := opportunity_of _ _ _ _ _ _). destruct (negb _); [intros [= <- <-]; congruence|]. set (scored := scoreOpportunity _ _ _).
  destruct (fltb (o_Score scored) _) eqn:Es; [intros [= <- <-]; congruence|]. destruct (opportunities od !! o_ID opp) as [|] eqn:En; [intros [= <- <-]; congruence|].
  rewrite (proj2 (Z.leb_le _ _)) by lia.
  destruct (remove_lowest (ev_order r) (opportunities od) Hw Hb) as (old & oo & Hold & Hr & Hmin); [intros H0; rewrite H0, map_size_empty in HM; lia|]. rewrite Hr.
  intros E0 _ _. apply (f_equal fst) in E0. cbn [fst] in E0. subst od'. cbn [opportunities set_opps]. exists old, oo. split; [done|]. split; [|done].
  destruct (decide (o_ID opp = old)) as [E|E]; [congruence|]. rewrite lookup_insert_ne by done. apply lookup_delete_eq.
Qed.

(** An opportunity that is found between two exchanges of one chain is priced, on both sides, at the latest price of the chain: it buys and sells in one pool
    at one price. *)
Theorem same_chain_same_pool r pid spread pf od od' evs id o :
  si_BuyChain spread = si_SellChain spread -> evaluate r pid spread pf od = (od', evs) -> opportunities od' !! id = Some o -> opportunities od !! id <> Some o ->
  o_BuyPrice o = o_SellPrice o /\ exists s1 s2, o_Path o = [s1; s2] /\ st_Pool s1 = st_Pool s2 /\ st_TokenIn s1 = st_TokenOut s2.
Proof.
  intros Hc. unfold evaluate, evaluateOpportunity. rewrite Hc. destruct (GetLatestPrice _ _ _) as [bp|]; [|by intros [= <- <-]].
  set (opp := opportunity_of _ _ _ _ _ _). destruct (negb _); [by intros [= <- <-]|]. set (scored := scoreOpportunity _ _ _).
  destruct (fltb (o_Score scored) _) eqn:Es; [by intros [= <- <-]|]. destruct (opportunities od !! o_ID opp) as [|] eqn:En; [by intros [= <- <-]|].
  intros [= <- _]. cbn [opportunities set_opps]. intros [[<- <-]|[Hne Hid]]%lookup_insert_Some Hnew.
  - cbn. split; [done|]. eexists _, _. done.
  - exfalso. apply Hnew. revert Hid. case_match; [|done]. unfold removeLowestScored. case_match; [|done]. by intros [_ ?]%lookup_delete_Some.
Qed.
End reach.

(** *** On concrete input *)

Lemma shotgun_refines_witness :
  let hs := concat (map snd [(1, [zero32; bs "aa"]); (2, [bs "bb"])]) in
  let s := fold_left (fun s (b : Z * list bytes) => IngestHashes b.1 b.2 s) [(1, [zero32; bs "aa"]); (2, [bs "bb"])] (NewShotgunFilter 2 f_half) in
  (forall hs', hs ≡ₚ hs' -> accumulator s = xor_all (zeros 32) hs') /\ totalIngested s = u64 (Z.of_nat (length hs)) /\
  forall j h, hs !! j = Some h -> Z.of_nat (length hs) - 2 <= Z.of_nat j -> hashPool s !! Z.to_nat (Z.of_nat j mod 2) = Some h.
Proof. apply (shotgun_refines 2 f_half [(1, [zero32; bs "aa"]); (2, [bs "bb"])]). reflexivity. Defined.

Definition toy_config : OpportunityConfig := mkOppConfig 10 0 (30 * 10 ^ 9) 1 false f_half.

Definition toy_opps (m : gmap bytes Opportunity) : list bytes := (map_to_list m).*1.

Lemma toy_opps_walks : walks toy_opps.
Proof. by intros m. Qed.

Definition toy_reading (t : Z) : EvalReadings := mkEval t t t toy_opps.

(** The feed of [Prices] with two exchanges on Ethereum and one on Base. *)
Definition toy_spread (buy sell : Z) : SpreadInfo :=
  mkSpread (bs "WETH-USDC") buy sell (Some (bf_SetInt 1990)) (Some (bf_SetInt 2010)) 100 "uniswap_v3" "uniswap_v2" 14.

Definition toy_od0 : OpportunityDetector := NewOpportunityDetector (Some toy_config).
Definition toy_od1 : OpportunityDetector := (evaluate (C := Toy.crypto) (toy_reading 20) (bs "WETH-USDC") (toy_spread 1 8453) toy_feed toy_od0).1.
Definition toy_od2 : OpportunityDetector := (evaluate (C := Toy.crypto) (toy_reading 21) (bs "WETH-USDC") (toy_spread 1 1) toy_feed toy_od1).1.

Lemma toy_below od : bool_decide (below_two (opportunities od)) = true -> below_two (opportunities od).
Proof. apply bool_decide_eq_true. Qed.

Lemma toy_reach : detector_reach (C := Toy.crypto) (Some toy_config) toy_od2.
Proof.
  eapply reach_step; [eapply reach_step; [apply reach_new|apply (step_evaluate toy_od0 (toy_reading 20) (bs "WETH-USDC") (toy_spread 1 8453) toy_feed); exact toy_opps_walks|]|
                      apply (step_evaluate toy_od1 (toy_reading 21) (bs "WETH-USDC") (toy_spread 1 1) toy_feed); exact toy_opps_walks|];
    apply toy_below; vm_compute; reflexivity.
Qed.

Lemma detector_sound_witness :
  Z.of_nat (size (opportunities toy_od2)) <= MaxConcurrent (default DefaultOpportunityConfig (Some toy_config)) /\
  forall id o, opportunities toy_od2 !! id = Some o -> o_ID o = id /\ fltb (o_Score o) (f_ratio 15 100) = false.
Proof. apply (detector_sound (C := Toy.crypto) (Some toy_config) toy_od2); [vm_compute; discriminate|exact toy_reach]. Defined.

Definition toy_id2 : bytes := default [] (head (toy_opps (opportunities toy_od2))).
Definition toy_opp2 : option Opportunity := opportunities toy_od2 !! toy_id2.

Lemma same_chain_same_pool_witness :
  exists o, toy_opp2 = Some o /\ o_BuyPrice o = o_SellPrice o /\ exists s1 s2, o_Path o = [s1; s2] /\ st_Pool s1 = st_Pool s2 /\ st_TokenIn s1 = st_TokenOut s2.
Proof.
  assert (H : exists o, toy_opp2 = Some o /\ opportunities toy_od1 !! toy_id2 = None) by (eexists; split; vm_compute; reflexivity). destruct H as (o & Ho & Hn). exists o. split; [exact Ho|].
  apply (same_chain_same_pool (C := Toy.crypto) (toy_reading 21) (bs "WETH-USDC") (toy_spread 1 1) toy_feed toy_od1 toy_od2 (evaluate (C := Toy.crypto) (toy_reading 21) (bs "WETH-USDC") (toy_spread 1 1) toy_feed toy_od1).2 toy_id2 o).
  - reflexivity.
  - apply surjective_pairing.
  - exact Ho.
  - rewrite Hn. discriminate.
Defined.

Lemma evicts_lowest_witness :
  exists old oo, opportunities toy_od1 !! old = Some oo /\ opportunities toy_od2 !! old = None /\ (forall k x, opportunities toy_od1 !! k = Some x -> fltb (o_Score x) (o_Score oo) = false).
Proof.
  assert (H : exists o, toy_opp2 = Some o /\ opportunities toy_od1 !! toy_id2 = None) by (eexists; split; vm_compute; reflexivity). destruct H as (o & Ho & Hn).
  apply (evicts_lowest (C := Toy.crypto) (toy_reading 21) (bs "WETH-USDC") (toy_spread 1 1) toy_feed toy_od1 toy_od2 (evaluate (C := Toy.crypto) (toy_reading 21) (bs "WETH-USDC") (toy_spread 1 1) toy_feed toy_od1).2 toy_id2 o).
  - exact toy_opps_walks.
  - apply toy_below. vm_compute. reflexivity.
  - vm_compute. discriminate.
  - vm_compute. reflexivity.
  - apply surjective_pairing.
  - exact Ho.
  - exact Hn.
Defined.
