(* ===== verification/ForkId.v ===== *)
(** * Fork identifiers ([node/devp2p.go])

    Contents: the checksum of [hash/crc32] with its table, the forks that a chain's configuration names, and
    the identifier that a node announces in its handshake.  The configuration of a chain is a record of
    go-ethereum; the model has the fields that the code reads.

    The theorem: the identifier is the checksum of the genesis hash followed by the forks that have
    passed, in increasing order and each once, with the lowest fork that has not passed ([fork_id_spec]). *)

From Stdlib Require Import String Sorted.
From S2P Require Import Prelude.

(** ** The checksum *)

Definition crc_round (c : Z) : Z := if Z.odd c then Z.lxor (Z.shiftr c 1) 0xEDB88320 else Z.shiftr c 1.

Definition crc_table (i : Z) : Z := Nat.iter 8 crc_round i.

Definition crc_step (c : Z) (b : byte) : Z := Z.lxor (crc_table (Z.lxor (Z.land c 255) (byteZ b))) (Z.shiftr c 8).

Definition crc_flip (c : Z) : Z := Z.lxor c 0xFFFFFFFF.

(** [crc32.Update(crc, crc32.IEEETable, p)]. *)
Definition crc_Update (c : Z) (p : bytes) : Z := crc_flip (fold_left crc_step p (crc_flip c)).

Definition ChecksumIEEE (p : bytes) : Z := crc_Update 0 p.

(** ** The forks of a chain *)

(** Blocks are pointers to big integers, times pointers to 64-bit integers. *)
Record ForkConfig := mkForkConfig {
  HomesteadBlock : option Z; DAOForkBlock : option Z; DAOForkSupport : bool; EIP150Block : option Z; EIP155Block : option Z;
  EIP158Block : option Z; ByzantiumBlock : option Z; ConstantinopleBlock : option Z; PetersburgBlock : option Z;
  IstanbulBlock : option Z; MuirGlacierBlock : option Z; BerlinBlock : option Z; LondonBlock : option Z;
  ArrowGlacierBlock : option Z; GrayGlacierBlock : option Z; MergeNetsplitBlock : option Z;
  ShanghaiTime : option Z; CancunTime : option Z; PragueTime : option Z; OsakaTime : option Z; BPO1Time : option Z; BPO2Time : option Z;
}.

(** [f.Uint64()]: the low bits of the magnitude. *)
Definition big_Uint64 (f : Z) : Z := u64 (Z.abs f).

Definition add_block_fork (forks : list Z) (f : option Z) : list Z :=
  match f with
  | Some f => if 0 <? big_Uint64 f then forks ++ [big_Uint64 f] else forks
  | None => forks
  end.

Definition gatherBlockForks (c : ForkConfig) : list Z :=
  let forks := add_block_fork [] (HomesteadBlock c) in
  let forks := if DAOForkSupport c then add_block_fork forks (DAOForkBlock c) else forks in
  fold_left add_block_fork
    [EIP150Block c; EIP155Block c; EIP158Block c; ByzantiumBlock c; ConstantinopleBlock c; PetersburgBlock c; IstanbulBlock c;
     MuirGlacierBlock c; BerlinBlock c; LondonBlock c; ArrowGlacierBlock c; GrayGlacierBlock c; MergeNetsplitBlock c] forks.

Definition gatherTimeForks (c : ForkConfig) : list Z :=
  omap id [ShanghaiTime c; CancunTime c; PragueTime c; OsakaTime c; BPO1Time c; BPO2Time c].

Record ForkID := mkForkID { fork_Hash : bytes; fork_Next : Z }.

Definition checksumUpdateFork (hash fork : Z) : Z := crc_Update hash (be_bytes 8 fork).

(** [if i == 0 || f != allForks[i-1]]: [prev] is the element before the list. *)
Fixpoint unique_forks (prev : option Z) (l : list Z) : list Z :=
  match l with
  | [] => []
  | f :: t => if bool_decide (prev = Some f) then unique_forks (Some f) t else f :: unique_forks (Some f) t
  end.

Definition fork_passed (headBlock headTime fork : Z) : bool := if fork <? 1000000000 then fork <=? headBlock else fork <=? headTime.

Definition fork_step (headTime : Z) (st : Z * Z) (fork : Z) : Z * Z :=
  let '(hash, nextFork) := st in
  if fork_passed 22000000 headTime fork then (checksumUpdateFork hash fork, nextFork)
  else if nextFork =? 0 then (hash, fork) else (hash, nextFork).

Definition computeForkID (c : ForkConfig) (genesisHash : bytes) (headTime : Z) : ForkID :=
  let allForks := sort_by Z.ltb (gatherBlockForks c ++ gatherTimeForks c) in
  let '(hash, nextFork) := fold_left (fork_step headTime) (unique_forks None allForks) (ChecksumIEEE genesisHash, 0) in
  mkForkID (be_bytes 4 hash) nextFork.

(** ** Properties *)

Lemma crc_flip_flip c : crc_flip (crc_flip c) = c.
Proof. unfold crc_flip. by rewrite Z.lxor_assoc, Z.lxor_nilpotent, Z.lxor_0_r. Qed.

(** A checksum can be continued. *)
Lemma crc_Update_app c p q : crc_Update (crc_Update c p) q = crc_Update c (p ++ q).
Proof. unfold crc_Update. by rewrite crc_flip_flip, fold_left_app. Qed.

Lemma z_ltb_asym x y : (x <? y) = true -> (y <? x) = false.
Proof. lia. Qed.

Lemma z_ltb_ntrans x y z : (y <? x) = false -> (z <? y) = false -> (z <? x) = false.
Proof. lia. Qed.

Lemma unique_forks_elem prev l x : (x ∈ unique_forks prev l -> x ∈ l) /\ (x ∈ l -> prev <> Some x -> x ∈ unique_forks prev l).
Proof.
  revert prev. induction l as [|f l IH]; intros prev; cbn [unique_forks]; [by split|]. destruct (IH (Some f)) as [H1 H2].
  case_bool_decide as E; rewrite ?elem_of_cons; (split; [tauto|]).
  - intros [->|Hx] Hp; [done|]. apply H2; [done|]. congruence.
  - intros [->|Hx] Hp; [by left|]. destruct (decide (x = f)) as [->|]; [by left|right]. apply H2; [done|congruence].
Qed.

Lemma unique_forks_sorted prev l :
  StronglySorted Z.le l -> (forall p, prev = Some p -> Forall (Z.le p) l) ->
  StronglySorted Z.lt (unique_forks prev l) /\ (forall p, prev = Some p -> Forall (Z.lt p) (unique_forks prev l)).
Proof.
  intros S. revert prev. induction S as [|f l S IH Hf]; intros prev Hp; cbn [unique_forks]; [split; [constructor|intros; constructor]|].
  destruct (IH (Some f)) as [H1 H2]; [by intros ? [= <-]|]. specialize (H2 f eq_refl).
  case_bool_decide as E; [split; [done|]; intros p; rewrite E; by intros [= <-]|]. split; [by constructor|].
  intros p ->. specialize (Hp p eq_refl). apply Forall_cons in Hp as [Hp Hl]. assert (p < f) by (assert (p <> f) by congruence; lia).
  constructor; [done|]. eapply Forall_impl; [exact H2|]. cbn. lia.
Qed.

Lemma fork_loop headTime l c next :
  fold_left (fork_step headTime) l (c, next) =
    (crc_Update c (concat (be_bytes 8 <$> List.filter (fork_passed 22000000 headTime) l)),
     List.fold_left (fun n f => if n =? 0 then f else n) (List.filter (fun f => negb (fork_passed 22000000 headTime f)) l) next).
Proof.
  revert c next. induction l as [|f l IH]; intros c next; cbn [fold_left List.filter fmap list_fmap concat].
  - unfold crc_Update. cbn [fold_left]. by rewrite crc_flip_flip.
  - unfold fork_step at 2. destruct (fork_passed 22000000 headTime f); cbn [negb fold_left fmap list_fmap concat].
    + rewrite IH. unfold checksumUpdateFork. by rewrite crc_Update_app.
    + destruct (next =? 0); by rewrite IH.
Qed.

(** Zero is kept for "no next fork", so only positive forks can be the next one. *)
Lemma next_fork l : List.fold_left (fun n f => if n =? 0 then f else n) l 0 = default 0 (List.find (fun f => negb (f =? 0)) l).
Proof.
  assert (K : forall l n, n <> 0 -> List.fold_left (fun n f => if n =? 0 then f else n) l n = n).
  { clear l. induction l as [|f l IH]; intros n Hn; [done|]. cbn [List.fold_left]. destruct (Z.eqb_spec n 0); [done|]. by apply IH. }
  induction l as [|f l IH]; [done|]. cbn [List.fold_left List.find]. rewrite Z.eqb_refl. destruct (Z.eqb_spec f 0) as [->|]; cbn [negb]; [done|].
  by rewrite K.
Qed.

Lemma find_filter {A} (f g : A -> bool) l : List.find f (List.filter g l) = List.find (fun x => g x && f x) l.
Proof. induction l as [|x l IH]; [done|]. cbn. destruct (g x); cbn; [by destruct (f x)|done]. Qed.

Lemma find_lowest f l x : StronglySorted Z.lt l -> List.find f l = Some x -> f x = true /\ x ∈ l /\ forall y, y ∈ l -> f y = true -> x <= y.
Proof.
  intros S. induction S as [|z l S IH Hz]; [done|]. cbn [List.find]. destruct (f z) eqn:E.
  - intros [= ->]. split_and!; [done|by left|]. intros y. rewrite elem_of_cons. intros [->|Hy] _; [lia|]. rewrite Forall_forall in Hz. specialize (Hz y Hy). lia.
  - intros (H1 & H2 & H3)%IH. split_and!; [done|by right|]. intros y. rewrite elem_of_cons. intros [->|Hy] K; [congruence|by apply H3].
Qed.

(** The forks that a configuration names, in increasing order and each once. *)
Definition fork_list (c : ForkConfig) : list Z := unique_forks None (sort_by Z.ltb (gatherBlockForks c ++ gatherTimeForks c)).

Lemma fork_list_sorted c : StronglySorted Z.lt (fork_list c).
Proof.
  apply unique_forks_sorted; [|done]. assert (S := sort_by_sorted Z.ltb z_ltb_asym z_ltb_ntrans (gatherBlockForks c ++ gatherTimeForks c)).
  induction S as [|x l S IH Hx]; constructor; [done|]. eapply Forall_impl; [exact Hx|]. cbn. lia.
Qed.

(** C38: The identifier that is announced is the checksum of the genesis hash followed by the eight bytes of every fork of
    the configuration that has passed, in strictly increasing order, whatever the order of the fields; the next fork is the lowest that has not
    passed, and zero exactly when there is none. *)
Theorem fork_id_spec c genesis headTime :
  let passed := fork_passed 22000000 headTime in
  computeForkID c genesis headTime =
    mkForkID (be_bytes 4 (ChecksumIEEE (genesis ++ concat (be_bytes 8 <$> List.filter passed (fork_list c)))))
      (default 0 (List.find (fun f => negb (passed f)) (fork_list c))) /\
  StronglySorted Z.lt (fork_list c) /\ (forall f, f ∈ fork_list c <-> f ∈ gatherBlockForks c \/ f ∈ gatherTimeForks c) /\
  (forall f, List.find (fun f => negb (passed f)) (fork_list c) = Some f -> 0 < f /\ forall g, g ∈ fork_list c -> passed g = false -> f <= g).
Proof.
  intros passed. assert (Hs := fork_list_sorted c).
  assert (Z0 : passed 0 = true) by reflexivity. split_and!.
  - unfold computeForkID. fold (fork_list c). rewrite fork_loop, next_fork, find_filter. unfold ChecksumIEEE. rewrite crc_Update_app. f_equal. f_equal. fold passed.
    induction (fork_list c) as [|f l IH]; [done|]. cbn [List.find]. rewrite IH by (by inversion Hs). destruct (Z.eqb_spec f 0) as [->|]; [by rewrite Z0|].
    by rewrite andb_true_r.
  - done.
  - intros f. unfold fork_list. destruct (unique_forks_elem None (sort_by Z.ltb (gatherBlockForks c ++ gatherTimeForks c)) f) as [H1 H2].
    assert (Q : f ∈ sort_by Z.ltb (gatherBlockForks c ++ gatherTimeForks c) <-> f ∈ gatherBlockForks c ++ gatherTimeForks c) by (by rewrite sort_by_perm).
    rewrite <- elem_of_app, <- Q. split; [done|]. intros K. by apply H2.
  - intros f Hf. apply find_lowest in Hf as (H1 & H2 & H3); [|done]. split; [|intros g Hg Hp; apply H3; [done|by rewrite Hp]].
    assert (~ f <= 0); [|lia]. intros K. unfold passed, fork_passed in H1. destruct (Z.ltb_spec f 1000000000); lia.
Qed.

(** ** A known chain *)

Definition mainnet_forks : ForkConfig :=
  mkForkConfig (Some 1150000) (Some 1920000) true (Some 2463000) (Some 2675000) (Some 2675000) (Some 4370000) (Some 7280000) (Some 7280000)
    (Some 9069000) (Some 9200000) (Some 12244000) (Some 12965000) (Some 13773000) (Some 15050000) None
    (Some 1681338455) (Some 1710338135) (Some 1746612311) None None None.

Definition mainnet_genesis : bytes := be_bytes 32 0xd4e56740f876aef8c010b86a40d5f56745a118d0906a34e69aec8c0db1cb8fa3.

(** The identifiers of Ethereum's main network after the Prague fork, and before the Cancun fork. *)
Example mainnet_prague : computeForkID mainnet_forks mainnet_genesis 1750000000 = mkForkID (be_bytes 4 0xc376cf8b) 0.
Proof. vm_compute. reflexivity. Qed.

Example mainnet_shanghai : computeForkID mainnet_forks mainnet_genesis 1700000000 = mkForkID (be_bytes 4 0xdce96c2d) 1710338135.
Proof. vm_compute. reflexivity. Qed.
