(* ===== verification/DevP2P.v ===== *)
(** * The node of the Ethereum wire protocol ([node/devp2p.go])

    Contents: the configurations, the node and its peers, the goroutine that serves a peer, the
    handlers of messages, the broadcasts, and the start and stop of the node.

    Outside are go-ethereum's transactions and signatures ([EthLib]) and the encoding of messages
    ([Wire]); what a library call returns is an argument.  A peer object is shared by the map of
    peers and the goroutine that serves it: it is found by the number of its connection.  The
    handlers of one message run as one step, except where a theorem says otherwise; a message that
    is sent in a goroutine of its own is an event of the step that starts it.  Callbacks are events
    too.  Readings of the clock and the walks over the map of peers are arguments.

    The theorems: in every reachable state no transaction was announced twice to a connection, the pool answers
    with what the node broadcast, and the map of peers names only live connections
    ([devp2p_sound]), all of them when the shortened identifiers differ ([peers_exact]); a price that is broadcast
    reaches the handler of a peer unchanged ([price_reaches_peer]); a batch signs every payload once, however many keys there are
    ([batch_signs_each_once]), and its announcement is aligned when the peer knows none of it
    ([batch_aligned]) but not otherwise ([batch_misaligned]).  A transaction that was announced is
    not taken when it is sent ([announced_then_dropped]); two announcements at once are both followed up
    ([announce_race]); the head of a foreign network is announced as the node's own
    ([foreign_head]); stopping waits for every peer to send something ([stop_waits], [stop_ends]),
    and a node that is started again cannot be stopped ([devp2p_restart_panics]). *)

From Stdlib Require Import String Sorted.
From stdpp Require Import sorting.
From S2P Require Import Prelude Signing Swaps MultiChain ForkId.

(** ** Messages *)

Definition ETH68 : Z := 68.
Definition StatusMsg : Z := 0.
Definition NewBlockHashesMsg : Z := 1.
Definition TransactionsMsg : Z := 2.
Definition GetBlockHeadersMsg : Z := 3.
Definition BlockHeadersMsg : Z := 4.
Definition GetBlockBodiesMsg : Z := 5.
Definition BlockBodiesMsg : Z := 6.
Definition NewBlockMsg : Z := 7.
Definition NewPooledTransactionHashesMsg : Z := 8.
Definition GetPooledTransactionsMsg : Z := 9.
Definition PooledTransactionsMsg : Z := 10.

Definition ZEAMMagic0 : byte := Byte.x5a.
Definition ZEAMMagic1 : byte := Byte.x45.
Definition ZEAMMsgTypeCoordination : byte := Byte.x01.
Definition ZEAMMsgTypePriceGossip : byte := Byte.x02.

Record StatusPacket := mkStatus { st_ProtocolVersion : Z; st_NetworkID : Z; st_TD : Z; st_Head : bytes; st_Genesis : bytes; st_ForkID : ForkID }.

Record AnnouncePacket := mkAnnounce { an_Types : list byte; an_Sizes : list Z; an_Hashes : list bytes }.

Record GetPooledPacket := mkGetPooled { gp_RequestId : Z; gp_Hashes : list bytes }.

(** What is passed to [p2p.Send]. *)
Inductive packet (Tx : Type) :=
| PStatus (s : StatusPacket)
| PTransactions (txs : list Tx)
| PAnnounce (a : AnnouncePacket)
| PGetPooled (g : GetPooledPacket)
| PPooled (rid : Z) (txs : list Tx)
| PHeaders (rid : Z)
| PBodies (rid : Z).
Arguments PStatus {Tx} s.
Arguments PTransactions {Tx} txs.
Arguments PAnnounce {Tx} a.
Arguments PGetPooled {Tx} g.
Arguments PPooled {Tx} rid txs.
Arguments PHeaders {Tx} rid.
Arguments PBodies {Tx} rid.

Definition packet_code {Tx} (p : packet Tx) : Z :=
  match p with
  | PStatus _ => StatusMsg | PTransactions _ => TransactionsMsg | PAnnounce _ => NewPooledTransactionHashesMsg
  | PGetPooled _ => GetPooledTransactionsMsg | PPooled _ _ => PooledTransactionsMsg | PHeaders _ => BlockHeadersMsg | PBodies _ => BlockBodiesMsg
  end.

(** A message that was read: its code, its content, and how many bytes one call of [Read] on the content returns, if it
    returns any. *)
Record Msg := mkMsg { msg_Code : Z; msg_Payload : bytes; msg_Read : option nat }.

Record DynamicFeeTx := mkDynamicFee {
  dt_ChainID : Z; dt_Nonce : Z; dt_GasTipCap : Z; dt_GasFeeCap : Z; dt_Gas : Z; dt_To : bytes; dt_Value : Z; dt_Data : bytes;
}.

(** Transactions and keys of go-ethereum. *)
Class EthLib (Tx Key : Type) := {
  tx_Hash : Tx -> bytes;
  tx_Data : Tx -> bytes;
  tx_Type : Tx -> byte;
  tx_Marshal : Tx -> bytes;
  PubkeyToAddress : Key -> bytes;
  SignTx : Key -> DynamicFeeTx -> result Tx;
}.

(** A signed transaction carries the data that was given; hashes have 32 bytes. *)
Class EthLaws (Tx Key : Type) (E : EthLib Tx Key) := {
  hash_length : forall tx, length (tx_Hash tx) = 32%nat;
  sign_data : forall k t tx, SignTx k t = Ok tx -> tx_Data tx = dt_Data t;
}.

(** The encoding of messages: [p2p.Send] and [Decode]. *)
Class Wire (Tx : Type) := {
  wire_encode : packet Tx -> bytes;
  dec_status : bytes -> option StatusPacket;
  dec_txs : bytes -> option (list Tx);
  dec_announce : bytes -> option AnnouncePacket;
  dec_get_pooled : bytes -> option GetPooledPacket;
  dec_pooled : bytes -> option (Z * list Tx);
  dec_pooled_raw : bytes -> option (Z * list bytes);
  dec_raws : bytes -> option (list bytes);
  dec_tx : bytes -> option Tx;
  dec_block_hashes : bytes -> option (list (bytes * Z));
  dec_get_headers : bytes -> option Z;
  dec_get_bodies : bytes -> option Z;
}.

(** The packets that have an encoding: numbers of their width and hashes of 32 bytes. *)
Definition announce_ok (a : AnnouncePacket) : Prop :=
  Forall (fun z => 0 <= z < 2 ^ 32) (an_Sizes a) /\ Forall (fun h => length h = 32%nat) (an_Hashes a).
Definition get_pooled_ok (g : GetPooledPacket) : Prop := in_u64 (gp_RequestId g) /\ Forall (fun h => length h = 32%nat) (gp_Hashes g).

(** What is encoded is decoded, for the messages that the node both sends and reads. *)
Class WireLaws (Tx : Type) (W : Wire Tx) := {
  wire_announce : forall a, announce_ok a -> dec_announce (wire_encode (PAnnounce a)) = Some a;
  wire_get_pooled : forall g, get_pooled_ok g -> dec_get_pooled (wire_encode (PGetPooled g)) = Some g;
  wire_pooled : forall rid txs, in_u64 rid -> dec_pooled (wire_encode (PPooled rid txs)) = Some (rid, txs);
}.

(** How a peer sees a message that was sent: whole. *)
Definition sent_msg {Tx} {W : Wire Tx} (p : packet Tx) : Msg := mkMsg (packet_code p) (wire_encode p) (Some (length (wire_encode p))).

(** ** The node *)

Record DevP2PConfig (Key : Type) := mkDevConfig {
  dc_PrivateKey : option Key; dc_NetworkID : Z; dc_ChainID : Z; dc_GenesisHash : bytes; dc_ForkID : ForkID; dc_TD : Z; dc_ListenAddr : string;
  dc_MaxPeers : Z; dc_Bootnodes : list string; dc_NonceOffset : Z;
}.
Arguments mkDevConfig {Key} _ _ _ _ _ _ _ _ _ _.
Arguments dc_PrivateKey {Key} _.
Arguments dc_NetworkID {Key} _.
Arguments dc_ChainID {Key} _.
Arguments dc_GenesisHash {Key} _.
Arguments dc_ForkID {Key} _.
Arguments dc_TD {Key} _.
Arguments dc_ListenAddr {Key} _.
Arguments dc_MaxPeers {Key} _.
Arguments dc_Bootnodes {Key} _.
Arguments dc_NonceOffset {Key} _.

(** The goroutine [runPeer] of a connection: waiting for the status, waiting in [ReadMsg], returned. *)
Inductive phase := Shaking | Reading | Left.

Record ethPeer := mkPeer { ep_id : bytes; ep_version : Z; ep_networkID : Z; ep_genesis : bytes; ep_knownTxs : gset bytes; ep_phase : phase }.

(** Which callbacks are set. *)
Record Hooks := mkHooks {
  OnZEAMMessage : bool; OnTxHashReceived : bool; OnTxReceived : bool; OnPeerConnect : bool; OnPeerDrop : bool; OnForeignNetworkPeer : bool;
  OnBlockHashReceived : bool; OnPriceGossip : bool;
}.

Inductive p2p_event (Tx : Type) :=
| ZEAMMessage (tx : Tx) (data : bytes)
| TxHashReceived (hashes : list bytes)
| TxReceived (txs : list Tx)
| PeerConnect (id : bytes)
| PeerDrop (id : bytes)
| ForeignNetworkPeer (id : bytes) (network : Z)
| BlockHashReceived (hash : bytes) (number : Z)
| PriceGossip (data : bytes)
| Send (conn : nat) (p : packet Tx).
Arguments ZEAMMessage {Tx} tx data.
Arguments TxHashReceived {Tx} hashes.
Arguments TxReceived {Tx} txs.
Arguments PeerConnect {Tx} id.
Arguments PeerDrop {Tx} id.
Arguments ForeignNetworkPeer {Tx} id network.
Arguments BlockHashReceived {Tx} hash number.
Arguments PriceGossip {Tx} data.
Arguments Send {Tx} conn p.

(** [dn_conns] are the peer objects; [dn_stopping] says that a call of [Stop] waits for the goroutines. *)
Record DevP2PNode (Tx Key : Type) := mkNode {
  dn_privateKey : Key; dn_address : bytes; dn_networkID : Z; dn_chainID : Z; dn_genesisHash : bytes; dn_forkID : ForkID; dn_td : Z; dn_nonceOffset : Z;
  dn_hooks : Hooks;
  dn_currentHead : bytes; dn_peers : gmap bytes nat; dn_conns : gmap nat ethPeer; dn_txPool : gmap bytes Tx; dn_seenTxs : gset bytes;
  dn_fullTxReceived : Z; dn_hashesRequested : Z; dn_running : bool; dn_stopCh_open : bool; dn_stopping : bool;
}.
Arguments mkNode {Tx Key} _ _ _ _ _ _ _ _ _ _ _ _ _ _ _ _ _ _ _.
Arguments dn_privateKey {Tx Key} _.
Arguments dn_address {Tx Key} _.
Arguments dn_networkID {Tx Key} _.
Arguments dn_chainID {Tx Key} _.
Arguments dn_genesisHash {Tx Key} _.
Arguments dn_forkID {Tx Key} _.
Arguments dn_td {Tx Key} _.
Arguments dn_nonceOffset {Tx Key} _.
Arguments dn_hooks {Tx Key} _.
Arguments dn_currentHead {Tx Key} _.
Arguments dn_peers {Tx Key} _.
Arguments dn_conns {Tx Key} _.
Arguments dn_txPool {Tx Key} _.
Arguments dn_seenTxs {Tx Key} _.
Arguments dn_fullTxReceived {Tx Key} _.
Arguments dn_hashesRequested {Tx Key} _.
Arguments dn_running {Tx Key} _.
Arguments dn_stopCh_open {Tx Key} _.
Arguments dn_stopping {Tx Key} _.

(** What the constructor hands to the server of go-ethereum. *)
Record ServerConfig := mkServer {
  sv_Name : string; sv_MaxPeers : Z; sv_Protocol : string; sv_Version : Z; sv_Length : Z; sv_ListenAddr : string; sv_BootstrapNodes : list string;
  sv_StaticNodes : list string; sv_DiscoveryV4 : bool; sv_MaxPendingPeers : Z;
}.

(** Assigning fields. *)
Definition upd_node {Tx Key : Type} (head : bytes) (peers : gmap bytes nat) (conns : gmap nat ethPeer) (pool : gmap bytes Tx) (seen : gset bytes) (full requested : Z)
    (n : DevP2PNode Tx Key) : DevP2PNode Tx Key :=
  mkNode (dn_privateKey n) (dn_address n) (dn_networkID n) (dn_chainID n) (dn_genesisHash n) (dn_forkID n) (dn_td n) (dn_nonceOffset n) (dn_hooks n)
    head peers conns pool seen full requested (dn_running n) (dn_stopCh_open n) (dn_stopping n).
Definition set_head {Tx Key : Type} (h : bytes) (n : DevP2PNode Tx Key) :=
  upd_node h (dn_peers n) (dn_conns n) (dn_txPool n) (dn_seenTxs n) (dn_fullTxReceived n) (dn_hashesRequested n) n.
Definition set_peers {Tx Key : Type} (p : gmap bytes nat) (n : DevP2PNode Tx Key) :=
  upd_node (dn_currentHead n) p (dn_conns n) (dn_txPool n) (dn_seenTxs n) (dn_fullTxReceived n) (dn_hashesRequested n) n.
Definition set_conns {Tx Key : Type} (c : gmap nat ethPeer) (n : DevP2PNode Tx Key) :=
  upd_node (dn_currentHead n) (dn_peers n) c (dn_txPool n) (dn_seenTxs n) (dn_fullTxReceived n) (dn_hashesRequested n) n.
Definition set_txPool {Tx Key : Type} (p : gmap bytes Tx) (n : DevP2PNode Tx Key) :=
  upd_node (dn_currentHead n) (dn_peers n) (dn_conns n) p (dn_seenTxs n) (dn_fullTxReceived n) (dn_hashesRequested n) n.
Definition set_seen {Tx Key : Type} (s : gset bytes) (n : DevP2PNode Tx Key) :=
  upd_node (dn_currentHead n) (dn_peers n) (dn_conns n) (dn_txPool n) s (dn_fullTxReceived n) (dn_hashesRequested n) n.
Definition set_counts {Tx Key : Type} (full requested : Z) (n : DevP2PNode Tx Key) :=
  upd_node (dn_currentHead n) (dn_peers n) (dn_conns n) (dn_txPool n) (dn_seenTxs n) full requested n.
Definition set_running {Tx Key : Type} (running open stopping : bool) (n : DevP2PNode Tx Key) : DevP2PNode Tx Key :=
  mkNode (dn_privateKey n) (dn_address n) (dn_networkID n) (dn_chainID n) (dn_genesisHash n) (dn_forkID n) (dn_td n) (dn_nonceOffset n) (dn_hooks n)
    (dn_currentHead n) (dn_peers n) (dn_conns n) (dn_txPool n) (dn_seenTxs n) (dn_fullTxReceived n) (dn_hashesRequested n) running open stopping.

(** [ep.knownTxs[hash] = true] for some hashes. *)
Definition know {Tx Key : Type} (c : nat) (hs : list bytes) (n : DevP2PNode Tx Key) : DevP2PNode Tx Key :=
  set_conns (alter (fun ep => mkPeer (ep_id ep) (ep_version ep) (ep_networkID ep) (ep_genesis ep) (ep_knownTxs ep ∪ list_to_set hs) (ep_phase ep)) c (dn_conns n)) n.

(** [ep.knownTxs[hash]]. *)
Definition knows {Tx Key : Type} (n : DevP2PNode Tx Key) (c : nat) (h : bytes) : bool :=
  match dn_conns n !! c with Some ep => bool_decide (h ∈ ep_knownTxs ep) | None => false end.

Definition set_phase {Tx Key : Type} (c : nat) (ph : phase) (n : DevP2PNode Tx Key) : DevP2PNode Tx Key :=
  set_conns (alter (fun ep => mkPeer (ep_id ep) (ep_version ep) (ep_networkID ep) (ep_genesis ep) (ep_knownTxs ep) ph) c (dn_conns n)) n.

(** ** Configurations *)

Definition SepoliaConfig {Key : Type} (forks : ForkConfig) (now : Z) (key : option Key) : DevP2PConfig Key :=
  let genesisHash := HexToHash "25a5cc106eea7138acab33231d7160d69cb777ee0c2c553fcddf5138993e6dd9" in
  mkDevConfig key 11155111 11155111 genesisHash (computeForkID forks genesisHash (u64 now)) 17000000000000000 ":30303" 25 [] 100000.

Definition MainnetConfig {Key : Type} (forks : ForkConfig) (now : Z) (key : option Key) : DevP2PConfig Key :=
  let genesisHash := HexToHash "d4e56740f876aef8c010b86a40d5f56745a118d0906a34e69aec8c0db1cb8fa3" in
  mkDevConfig key 1 1 genesisHash (computeForkID forks genesisHash (u64 now)) 58750000000000000000000 ":30303" 50 [] 100000.

Definition sepolia_urls : list string :=
  ["enode://4e5e92199ee224a01932a377160aa432f31d0b351f84ab413a8e0a42f4f36476f8fb1cbe914af0d9aef0d51665c214cf653c651c4bbd9d5550a934f241f1682b@138.197.51.181:30303";
   "enode://143e11fb766781d22d92a2e33f8f104cddae4411a122295ed1fdb6638de96a6ce65f5b7c964ba3763bba27961738fef7d3ecc739268f3e5e771fb4c87b6234ba@146.190.1.103:30303";
   "enode://8b61dc2d06c3f96fddcbebb0efb29d60d3598650275dc469c22229d3e5620369b0d3dedafd929835fe7f489618f19f456fe7c0df572bf2d914a9f4e006f783a9@170.64.250.88:30303";
   "enode://10d62eff032205fcef19497f35ca8477bea0eadfff6d769a147e895d8b2b8f8ae6341630c645c30f5df6e67547c03494ced3d9c5764e8622a26587b083b028e8@139.59.49.206:30303";
   "enode://9e9492e2e8836114cc75f5b929784f4f46c324ad01daf87d956f98b3b6c5fcba95524d6e5cf9861dc96a2c8a171ea7105bb554a197455058de185fa870970c7c@138.68.123.152:30303"]%string.

Definition mainnet_urls : list string :=
  ["enode://d860a01f9722d78051619d1e2351aba3f43f943f6f00718d1b9baa4101932a1f5011f16bb2b1bb35db20d6fe28fa0bf09636d26a87d31de9ec6203eeedb1f666@18.138.108.67:30303";
   "enode://22a8232c3abc76a16ae9d6c3b164f98775fe226f0917b0ca871128a74a8e9630b458460865bab457221f1d448dd9791d24c4e5d88786180ac185df813a68d4de@3.209.45.79:30303";
   "enode://2b252ab6a1d0f971d9722cb839a42cb81db019ba44c08754628ab4a823487071b5695317c8ccd085219c3a03af063495b2f1da8d18218da2d6a82981b45e6ffc@65.108.70.101:30303";
   "enode://a979fb575495b8d6db44f750317d0f4622bf4c2aa3365d6af7c284339968eef29b69ad0dce72a4d8db5ebb4968de0e3bec910127f134779fbcb0cb6d3331163c@52.16.188.185:30303";
   "enode://3f1d12044546b76342d59d4a05532c14b85aa669704bfe1f864fe079415aa2c02d743e03218e57a33fb94523adb54032871a6c51b2cc5514cb7c7e35b3ed0a99@13.93.211.84:30303";
   "enode://78de8a0916848093c73790ead81d1928bec737d565119932b98c6b100d944b7a95e94f847f689fc723399d2e31129d182f7ef3863f2b4c820abbf3ab2722344d@191.235.84.50:30303"]%string.

(** [parse] is [enode.Parse]; what does not parse is left out. *)
Definition SepoliaBootnodes {N : Type} (parse : string -> option N) : list N := omap parse sepolia_urls.
Definition MainnetBootnodes {N : Type} (parse : string -> option N) : list N := omap parse mainnet_urls.

Section node.
Context {Tx Key : Type} {E : EthLib Tx Key} {W : Wire Tx}.
Implicit Types (n : DevP2PNode Tx Key) (c : nat) (h : bytes).

Definition NewDevP2PNode (hooks : Hooks) (cfg : DevP2PConfig Key) : result (DevP2PNode Tx Key * ServerConfig) :=
  match dc_PrivateKey cfg with
  | None => Err "private key required"
  | Some k =>
      Ok (mkNode k (PubkeyToAddress k) (dc_NetworkID cfg) (dc_ChainID cfg) (dc_GenesisHash cfg) (dc_ForkID cfg) (dc_TD cfg) (dc_NonceOffset cfg) hooks
            zero32 ∅ ∅ ∅ ∅ 0 0 false true false,
          mkServer "ZEAM/v1.0.0" (dc_MaxPeers cfg) "eth" ETH68 17 (dc_ListenAddr cfg) (dc_Bootnodes cfg) (dc_Bootnodes cfg) true 10)
  end.

(** The head that the node shows: that of the last status it read, or the genesis block. *)
Definition shown_head n : bytes := if bool_decide (dn_currentHead n = zero32) then dn_genesisHash n else dn_currentHead n.

Record ethNodeInfo := mkNodeInfo { ni_Network : Z; ni_Genesis : bytes; ni_Head : bytes }.

Definition NodeInfo n : ethNodeInfo := mkNodeInfo (dn_networkID n) (dn_genesisHash n) (shown_head n).

(** [server] is what [server.Start()] returns. *)
Definition dev_Start (server : result unit) n : result unit * DevP2PNode Tx Key :=
  if dn_running n then (Err "already running", n)
  else match server with
       | Err _ => (Err "failed to start P2P server", n)
       | Ok _ => (Ok tt, set_running true (dn_stopCh_open n) (dn_stopping n) n)
       end.

(** [Stop] up to [n.wg.Wait()]. *)
Definition stop_begin n : outcome (DevP2PNode Tx Key) :=
  if negb (dn_running n) then Done n
  else if negb (dn_stopCh_open n) then Panic "close of closed channel"
  else Done (set_running true false true n).

(** The number of goroutines that [n.wg] counts. *)
Definition is_reading (ep : ethPeer) : bool := match ep_phase ep with Reading => true | _ => false end.
Definition wg_count n : nat := length (List.filter (fun p => is_reading p.2) (map_to_list (dn_conns n))).

(** The rest of [Stop], once the wait is over. *)
Definition stop_end n : option (DevP2PNode Tx Key) :=
  if dn_stopping n && (wg_count n =? 0)%nat then Some (set_running false (dn_stopCh_open n) false n) else None.

(** ** Handlers *)

(** Dispatching on the data of a transaction, as [handleTransactions] and [handlePooledTransactions] do. *)
Definition zeam_events (hk : Hooks) (tx : Tx) : list (p2p_event Tx) :=
  match tx_Data tx with
  | m0 :: m1 :: _ :: msgType :: rest =>
      if bool_decide (m0 = ZEAMMagic0) && bool_decide (m1 = ZEAMMagic1) then
        if bool_decide (msgType = ZEAMMsgTypePriceGossip) then (if OnPriceGossip hk then [PriceGossip rest] else [])
        else if OnZEAMMessage hk then [ZEAMMessage tx (tx_Data tx)] else []
      else []
  | _ => []
  end.

(** The same for transactions that were decoded one by one. *)
Definition zeam_events_raw (hk : Hooks) (tx : Tx) : list (p2p_event Tx) :=
  match tx_Data tx with
  | m0 :: m1 :: _ :: msgType :: rest =>
      if bool_decide (m0 = ZEAMMagic0) && bool_decide (m1 = ZEAMMagic1) then
        if bool_decide (msgType = ZEAMMsgTypePriceGossip) && OnPriceGossip hk then [PriceGossip rest]
        else if OnZEAMMessage hk then [ZEAMMessage tx (tx_Data tx)] else []
      else []
  | _ => []
  end.

Definition take_tx c (st : DevP2PNode Tx Key * list Tx * list (p2p_event Tx)) (tx : Tx) : DevP2PNode Tx Key * list Tx * list (p2p_event Tx) :=
  let '(n, newTxs, evs) := st in
  let hash := tx_Hash tx in
  if bool_decide (hash ∈ dn_seenTxs n) then (n, newTxs, evs)
  else (know c [hash] (set_seen ({[hash]} ∪ dn_seenTxs n) n), newTxs ++ [tx], evs ++ zeam_events (dn_hooks n) tx).

Definition handleTransactions c (txs : list Tx) n : DevP2PNode Tx Key * list (p2p_event Tx) :=
  let '(n, newTxs, evs) := fold_left (take_tx c) txs (n, [], []) in
  (n, evs ++ (if (0 <? length newTxs)%nat && OnTxReceived (dn_hooks n) then [TxReceived newTxs] else [])).

(** The first critical section of [handleNewPooledTxHashes]. *)
Definition wanted_hashes n (hashes : list bytes) : list bytes := List.filter (fun h => negb (bool_decide (h ∈ dn_seenTxs n))) hashes.

(** The rest of it; [now] is the clock in nanoseconds. *)
Definition request_hashes (now : Z) c (wanted : list bytes) n : DevP2PNode Tx Key * list (p2p_event Tx) :=
  if (length wanted =? 0)%nat then (n, [])
  else
    let n := set_seen (list_to_set wanted ∪ dn_seenTxs n) n in
    (set_counts (dn_fullTxReceived n) (u64 (dn_hashesRequested n + Z.of_nat (length wanted))) n,
     (if OnTxHashReceived (dn_hooks n) then [TxHashReceived wanted] else []) ++ [Send c (PGetPooled (mkGetPooled (u64 now) wanted))]).

Definition handleNewPooledTxHashes (now : Z) c (a : AnnouncePacket) n : DevP2PNode Tx Key * list (p2p_event Tx) :=
  request_hashes now c (wanted_hashes n (an_Hashes a)) n.

Definition handleGetPooledTransactions c (g : GetPooledPacket) n : DevP2PNode Tx Key * list (p2p_event Tx) :=
  (n, [Send c (PPooled (gp_RequestId g) (omap (fun h => dn_txPool n !! h) (gp_Hashes g)))]).

(** The end of both handlers of pooled transactions. *)
Definition receive_pooled (events : Tx -> list (p2p_event Tx)) c (txs : list Tx) n : DevP2PNode Tx Key * list (p2p_event Tx) :=
  if (length txs =? 0)%nat then (n, [])
  else
    let n := know c (tx_Hash <$> txs) n in
    (set_counts (u64 (dn_fullTxReceived n + Z.of_nat (length txs))) (dn_hashesRequested n) n,
     flat_map events txs ++ (if OnTxReceived (dn_hooks n) then [TxReceived txs] else [])).

Definition handlePooledTransactions c (txs : list Tx) n : DevP2PNode Tx Key * list (p2p_event Tx) := receive_pooled (zeam_events (dn_hooks n)) c txs n.

Definition raw_txs (payload : bytes) : option (list bytes) := match dec_pooled_raw payload with Some (_, l) => Some l | None => dec_raws payload end.

Definition handlePooledTransactionsRawBytes c (payload : bytes) n : DevP2PNode Tx Key * list (p2p_event Tx) :=
  match raw_txs payload with
  | None => (n, [])
  | Some raws => receive_pooled (zeam_events_raw (dn_hooks n)) c (omap dec_tx raws) n
  end.

(** What one [Read] leaves in a buffer of the message's size. *)
Definition read_buffer (m : Msg) : option bytes := (fun k => copy_to (length (msg_Payload m)) (take k (msg_Payload m))) <$> msg_Read m.

(** It never returns an error. *)
Definition handleMsg (now : Z) c (m : Msg) n : DevP2PNode Tx Key * list (p2p_event Tx) :=
  let payload := msg_Payload m in
  if msg_Code m =? TransactionsMsg then match dec_txs payload with Some txs => handleTransactions c txs n | None => (n, []) end
  else if msg_Code m =? NewPooledTransactionHashesMsg then
    match dec_announce payload with Some a => handleNewPooledTxHashes now c a n | None => (n, []) end
  else if msg_Code m =? GetPooledTransactionsMsg then
    match dec_get_pooled payload with Some g => handleGetPooledTransactions c g n | None => (n, []) end
  else if msg_Code m =? PooledTransactionsMsg then
    match read_buffer m with
    | None => (n, [])
    | Some buffer =>
        match dec_pooled buffer with
        | Some (_, txs) => handlePooledTransactions c txs n
        | None => handlePooledTransactionsRawBytes c buffer n
        end
    end
  else if msg_Code m =? NewBlockHashesMsg then
    if OnBlockHashReceived (dn_hooks n) then
      match dec_block_hashes payload with Some l => (n, (fun a => BlockHashReceived a.1 a.2) <$> l) | None => (n, []) end
    else (n, [])
  else if msg_Code m =? GetBlockHeadersMsg then match dec_get_headers payload with Some rid => (n, [Send c (PHeaders rid)]) | None => (n, []) end
  else if msg_Code m =? GetBlockBodiesMsg then match dec_get_bodies payload with Some rid => (n, [Send c (PBodies rid)]) | None => (n, []) end
  else (n, []).

(** ** Peers *)

Definition removePeer (id : bytes) n : DevP2PNode Tx Key * list (p2p_event Tx) :=
  (set_peers (delete id (dn_peers n)) n, if OnPeerDrop (dn_hooks n) then [PeerDrop id] else []).

(** The goroutine of a connection returns. *)
Definition leave c n : DevP2PNode Tx Key * list (p2p_event Tx) :=
  match dn_conns n !! c with
  | Some ep => removePeer (ep_id ep) (set_phase c Left n)
  | None => (n, [])
  end.

(** [peer.ID().String()[:16]]. *)
Definition short_id (nodeID : bytes) : bytes := take 16 (hex_encode nodeID).

Definition own_status n : StatusPacket := mkStatus ETH68 (dn_networkID n) (dn_td n) (shown_head n) (dn_genesisHash n) (dn_forkID n).

(** [runPeer] up to the status that it waits for; [sent] says whether the own status could be sent. *)
Definition run_connect c (nodeID : bytes) (sent : bool) n : DevP2PNode Tx Key * list (p2p_event Tx) :=
  let id := short_id nodeID in
  let n := set_peers (<[id := c]> (dn_peers n)) (set_conns (<[c := mkPeer id 0 0 zero32 ∅ Shaking]> (dn_conns n)) n) in
  let evs := if OnPeerConnect (dn_hooks n) then [PeerConnect id] else [] in
  if sent then (n, evs ++ [Send c (PStatus (own_status n))])
  else let '(n, evs') := leave c n in (n, evs ++ evs').

(** The second half of [doHandshake]: what was read, if anything. *)
Definition read_status c (m : option Msg) n : result unit * DevP2PNode Tx Key * list (p2p_event Tx) :=
  match m with
  | None => (Err "failed to read status", n, [])
  | Some m =>
      if negb (msg_Code m =? StatusMsg) then (Err "expected status", n, [])
      else match dec_status (msg_Payload m) with
           | None => (Err "failed to decode status", n, [])
           | Some st =>
               let id := match dn_conns n !! c with Some ep => ep_id ep | None => [] end in
               let evs := if negb (st_NetworkID st =? dn_networkID n) && OnForeignNetworkPeer (dn_hooks n) then [ForeignNetworkPeer id (st_NetworkID st)] else [] in
               let conns := alter (fun ep => mkPeer (ep_id ep) (st_ProtocolVersion st) (st_NetworkID st) (st_Genesis st) (ep_knownTxs ep) (ep_phase ep)) c (dn_conns n) in
               (Ok tt, set_head (st_Head st) (set_conns conns n), evs)
           end
  end.

(** The head of the loop: the channel that stops it, or [ReadMsg]. *)
Definition loop_head c n : DevP2PNode Tx Key * list (p2p_event Tx) :=
  if dn_stopCh_open n then (set_phase c Reading n, []) else leave c n.

(** [runPeer] from the status to the first [ReadMsg]. *)
Definition run_status c (m : option Msg) n : DevP2PNode Tx Key * list (p2p_event Tx) :=
  let '(r, n, evs) := read_status c m n in
  let '(n, evs') := match r with Ok _ => loop_head c n | Err _ => leave c n end in
  (n, evs ++ evs').

(** One turn of the loop: what [ReadMsg] returned, handled. *)
Definition run_read (now : Z) c (m : option Msg) n : DevP2PNode Tx Key * list (p2p_event Tx) :=
  match m with
  | None => leave c n
  | Some m =>
      let '(n, evs) := handleMsg now c m n in
      let '(n, evs') := loop_head c n in
      (n, evs ++ evs')
  end.

(** ** Broadcasts *)

(** Putting signed transactions into the pool and marking them seen. *)
Definition pool_tx n (tx : Tx) : DevP2PNode Tx Key := set_txPool (<[tx_Hash tx := tx]> (dn_txPool n)) n.

Definition own_tx (tx : Tx) n : DevP2PNode Tx Key := let n := pool_tx n tx in set_seen ({[tx_Hash tx]} ∪ dn_seenTxs n) n.

(** One peer of the loop that spreads a transaction. *)
Definition spread_to h (p : packet Tx) (st : DevP2PNode Tx Key * list (p2p_event Tx)) c : DevP2PNode Tx Key * list (p2p_event Tx) :=
  let '(n, evs) := st in if knows n c h then (n, evs) else (know c [h] n, evs ++ [Send c p]).

Definition zeam_tx (now : Z) (data : bytes) n : DynamicFeeTx :=
  mkDynamicFee (dn_chainID n) (u64 (dn_nonceOffset n + u64 (Z.rem now 1000000))) 0 1000000000 0 (dn_address n) 0 data.

(** [walk] are the peers in the order of the map. *)
Definition BroadcastZEAM (now : Z) (walk : list nat) (data : bytes) n : result bytes * DevP2PNode Tx Key * list (p2p_event Tx) :=
  if negb (dn_running n) then (Err "node not running", n, [])
  else match SignTx (dn_privateKey n) (zeam_tx now data n) with
       | Err _ => (Err "failed to sign tx", n, [])
       | Ok signed =>
           let hash := tx_Hash signed in
           let a := mkAnnounce [tx_Type signed] [Z.of_nat (length (tx_Marshal signed)) mod 2 ^ 32] [hash] in
           let '(n, evs) := fold_left (spread_to hash (PAnnounce a)) walk (own_tx signed n, []) in
           (Ok hash, n, evs)
       end.

Definition BroadcastRawTx (walk : list nat) (tx : Tx) n : result unit * DevP2PNode Tx Key * list (p2p_event Tx) :=
  if negb (dn_running n) then (Err "node not running", n, [])
  else let '(n, evs) := fold_left (spread_to (tx_Hash tx) (PTransactions [tx])) walk (own_tx tx n, []) in (Ok tt, n, evs).

Definition encodeZEAMMessage (version msgType : byte) (payload : bytes) : bytes := ZEAMMagic0 :: ZEAMMagic1 :: version :: msgType :: payload.

Definition BroadcastPriceGossip (now : Z) (walk : list nat) (priceData : bytes) n : result bytes * DevP2PNode Tx Key * list (p2p_event Tx) :=
  BroadcastZEAM now walk (encodeZEAMMessage Byte.x01 ZEAMMsgTypePriceGossip priceData) n.

(** *** Batches *)

(** The ranges of payloads that the keys sign: number of the key, first and end. *)
Fixpoint key_ranges (count per : Z) (k : Z) (keys : list Key) : list (Z * Key * Z * Z) :=
  match keys with
  | [] => []
  | key :: rest =>
      let startIdx := k * per in
      let endIdx := startIdx + per in
      let endIdx := if count <? endIdx then count else endIdx in
      if count <=? startIdx then [] else (k, key, startIdx, endIdx) :: key_ranges count per (k + 1) rest
  end.

Definition batch_tx (key : Key) (baseNonce : Z) (start i : Z) (data : bytes) n : DynamicFeeTx :=
  mkDynamicFee (dn_chainID n) (u64 (baseNonce + u64 (i - start))) 1000 1000 (u64 (21000 + Z.of_nat (length data) * 16)) (PubkeyToAddress key) 0 data.

Definition base_nonce (now keyIdx : Z) n : Z := u64 (u64 (dn_nonceOffset n + u64 now) + u64 (keyIdx * 1000000)).

(** One turn of a signing goroutine; a signature that fails is left out. *)
Definition sign_one (payloads : list bytes) (key : Key) (base start : Z) n (i : Z) : list Tx :=
  match payloads !! Z.to_nat i with
  | Some data => match SignTx key (batch_tx key base start i data n) with Ok tx => [tx] | Err _ => [] end
  | None => []
  end.

(** A signing goroutine: what it sends into the channel, in order; [clock k] is when goroutine [k] starts. *)
Definition sign_range (clock : Z -> Z) (payloads : list bytes) n (r : Z * Key * Z * Z) : list Tx :=
  let '(k, key, start, end_) := r in
  flat_map (sign_one payloads key (base_nonce (clock k) k n) start n) (seqZ start (end_ - start)).

(** One transaction of the announcement for one peer: known transactions of the peer, types, sizes, hashes. *)
Definition batch_fill (st : gset bytes * list byte * list Z * list bytes) (itx : nat * Tx) : gset bytes * list byte * list Z * list bytes :=
  let '(known, types, sizes, hashList) := st in
  let '(i, tx) := itx in
  let h := tx_Hash tx in
  if bool_decide (h ∈ known) then st
  else ({[h]} ∪ known, <[i := tx_Type tx]> types, <[i := Z.of_nat (length (tx_Marshal tx)) mod 2 ^ 32]> sizes, hashList ++ [h]).

Definition batch_fill_all (known : gset bytes) (txs : list Tx) : gset bytes * list byte * list Z * list bytes :=
  fold_left batch_fill (imap pair txs) (known, replicate (length txs) Byte.x00, replicate (length txs) 0, []).

Definition batch_announcement (known : gset bytes) (txs : list Tx) : AnnouncePacket :=
  let '(_, types, sizes, hashList) := batch_fill_all known txs in mkAnnounce (take (length hashList) types) (take (length hashList) sizes) hashList.

Definition batch_spread (txs : list Tx) (st : DevP2PNode Tx Key * list (p2p_event Tx)) c : DevP2PNode Tx Key * list (p2p_event Tx) :=
  let '(n, evs) := st in
  let known := match dn_conns n !! c with Some ep => ep_knownTxs ep | None => ∅ end in
  let a := batch_announcement known txs in
  (know c (an_Hashes a) n, if (0 <? length (an_Hashes a))%nat then evs ++ [Send c (PAnnounce a)] else evs).

(** [arrive] is the order in which the channel delivers what the goroutines send. *)
Definition BroadcastZEAMBatchFastMultiKey (clock : Z -> Z) (arrive : list (list Tx) -> list Tx) (walk : list nat) (payloads : list bytes) (keys : list Key) n :
    result (list bytes) * DevP2PNode Tx Key * list (p2p_event Tx) :=
  if negb (dn_running n) then (Err "node not running", n, [])
  else
    let keys := match keys with [] => [dn_privateKey n] | _ => keys end in
    let count := Z.of_nat (length payloads) in
    let numKeys := Z.of_nat (length keys) in
    let txs := arrive (sign_range clock payloads n <$> key_ranges count ((count + numKeys - 1) / numKeys) 0 keys) in
    let hashes := tx_Hash <$> txs in
    let n := fold_left pool_tx txs n in
    let n := set_seen (list_to_set hashes ∪ dn_seenTxs n) n in
    let '(n, evs) := fold_left (batch_spread txs) walk (n, []) in
    (Ok hashes, n, evs).

Definition BroadcastZEAMBatchFast (clock : Z -> Z) (arrive : list (list Tx) -> list Tx) (walk : list nat) (payloads : list bytes) n :=
  BroadcastZEAMBatchFastMultiKey clock arrive walk payloads [dn_privateKey n] n.

(** ** Queries and cleaning *)

Definition PeerCount n : Z := Z.of_nat (size (dn_peers n)).

(** [walk] are the entries of the map in some order. *)
Definition Peers (walk : list (bytes * nat)) : list bytes := walk.*1.

Record DevStats := mkDevStats {
  ds_running : bool; ds_address : bytes; ds_network_id : Z; ds_peer_count : Z; ds_peers : list bytes; ds_tx_pool : Z; ds_seen_txs : Z; ds_nonce_offset : Z;
}.

Definition dev_Stats (walk : list (bytes * nat)) n : DevStats :=
  mkDevStats (dn_running n) (dn_address n) (dn_networkID n) (PeerCount n) (Peers walk) (Z.of_nat (size (dn_txPool n))) (Z.of_nat (size (dn_seenTxs n)))
    (dn_nonceOffset n).

Definition CleanupTxPool n : DevP2PNode Tx Key :=
  let n := if 10000 <? Z.of_nat (size (dn_txPool n)) then set_txPool ∅ n else n in
  if 100000 <? Z.of_nat (size (dn_seenTxs n)) then set_seen ∅ n else n.

(** What is handed to the server; [parse] is [enode.Parse]. *)
Definition AddPeer {N : Type} (parse : string -> option N) (enodeURL : string) : result N := of_option "invalid enode" (parse enodeURL).

(** [split] is [net.SplitHostPort]. *)
Definition DialPeer (split : bytes -> result (bytes * bytes)) (addr : bytes) : result unit :=
  match split addr with
  | Err e => Err e
  | Ok _ => Err "direct dial requires peer's node ID - use AddPeer with enode URL instead"
  end.

Definition hexShort (data : bytes) : bytes := if (16 <? length data)%nat then hex_encode (take 16 data) ++ bs "..." else hex_encode data.

(** ** Runs of the node *)

(** What happens next: the server accepts a connection; a connection's status is read; a connection's next message is read;
    the program calls an operation. *)
Inductive dev_label :=
| LConnect (c : nat) (nodeID : bytes) (sent : bool)
| LStatus (c : nat) (m : option Msg)
| LRead (now : Z) (c : nat) (m : option Msg)
| LStart (server : result unit)
| LStop
| LStopDone
| LZEAM (now : Z) (walk : list nat) (data : bytes)
| LRaw (walk : list nat) (tx : Tx)
| LBatch (clock : Z -> Z) (arrive : list (list Tx) -> list Tx) (walk : list nat) (payloads : list bytes) (keys : list Key)
| LCleanup.

Definition in_phase n c (ph : phase) : Prop := exists ep, dn_conns n !! c = Some ep /\ ep_phase ep = ph.

(** A step and what it causes.  Walks are over the connections that the map of peers holds. *)
Inductive dev_step n : dev_label -> DevP2PNode Tx Key -> list (p2p_event Tx) -> Prop :=
| step_connect c nodeID sent n' evs : dn_conns n !! c = None -> run_connect c nodeID sent n = (n', evs) -> dev_step n (LConnect c nodeID sent) n' evs
| step_status c m n' evs : in_phase n c Shaking -> run_status c m n = (n', evs) -> dev_step n (LStatus c m) n' evs
| step_read now c m n' evs : in_phase n c Reading -> run_read now c m n = (n', evs) -> dev_step n (LRead now c m) n' evs
| step_start server r n' : dev_Start server n = (r, n') -> dev_step n (LStart server) n' []
| step_stop n' : stop_begin n = Done n' -> dev_step n LStop n' []
| step_stop_done n' : stop_end n = Some n' -> dev_step n LStopDone n' []
| step_zeam now walk data r n' evs :
    walk ≡ₚ (map_to_list (dn_peers n)).*2 -> BroadcastZEAM now walk data n = (r, n', evs) -> dev_step n (LZEAM now walk data) n' evs
| step_raw walk tx r n' evs : walk ≡ₚ (map_to_list (dn_peers n)).*2 -> BroadcastRawTx walk tx n = (r, n', evs) -> dev_step n (LRaw walk tx) n' evs
| step_batch clock arrive walk payloads keys r n' evs :
    walk ≡ₚ (map_to_list (dn_peers n)).*2 -> BroadcastZEAMBatchFastMultiKey clock arrive walk payloads keys n = (r, n', evs) ->
    dev_step n (LBatch clock arrive walk payloads keys) n' evs
| step_cleanup : dev_step n LCleanup (CleanupTxPool n) [].

(** Runs from [n0] in which every step is allowed by [G]: the node, the labels and the events, oldest first. *)
Inductive dev_run (G : DevP2PNode Tx Key -> dev_label -> Prop) (n0 : DevP2PNode Tx Key) : DevP2PNode Tx Key -> list dev_label -> list (p2p_event Tx) -> Prop :=
| run_nil : dev_run G n0 n0 [] []
| run_snoc n ls tr l n' evs : dev_run G n0 n ls tr -> G n l -> dev_step n l n' evs -> dev_run G n0 n' (ls ++ [l]) (tr ++ evs).

Definition any_step (_ : DevP2PNode Tx Key) (_ : dev_label) : Prop := True.

(** The hashes that a packet tells a peer about without being asked. *)
Definition packet_hashes (p : packet Tx) : list bytes :=
  match p with PAnnounce a => an_Hashes a | PTransactions txs => tx_Hash <$> txs | _ => [] end.

(** What connection [c] was told, oldest first. *)
Definition told c (tr : list (p2p_event Tx)) : list bytes :=
  flat_map (fun e => match e with Send c' p => if bool_decide (c' = c) then packet_hashes p else [] | _ => [] end) tr.

(** What a step leaves as it is, the knowledge of peers aside, which grows. *)
Record frame n n' : Prop := {
  fr_knows : forall c h, knows n c h = true -> knows n' c h = true;
  fr_pool : forall h tx, dn_txPool n' !! h = Some tx -> dn_txPool n !! h = Some tx;
  fr_peers : dn_peers n' = dn_peers n;
  fr_conns : forall c ep, dn_conns n !! c = Some ep -> exists ep', dn_conns n' !! c = Some ep' /\ ep_id ep' = ep_id ep /\ ep_phase ep' = ep_phase ep;
  fr_back : forall c ep', dn_conns n' !! c = Some ep' -> exists ep, dn_conns n !! c = Some ep /\ ep_id ep' = ep_id ep /\ ep_phase ep' = ep_phase ep;
  fr_run : dn_running n' = dn_running n /\ dn_stopCh_open n' = dn_stopCh_open n /\ dn_stopping n' = dn_stopping n;
}.

(** The map of peers names live connections under their identifiers. *)
Definition peers_live n : Prop := forall id c, dn_peers n !! id = Some c -> exists ep, dn_conns n !! c = Some ep /\ ep_id ep = id /\ ep_phase ep <> Left.

Definition pool_keyed n : Prop := forall h tx, dn_txPool n !! h = Some tx -> tx_Hash tx = h.

Record dev_inv n (tr : list (p2p_event Tx)) : Prop := {
  di_nodup : forall c, NoDup (told c tr);
  di_known : forall c h, h ∈ told c tr -> knows n c h = true;
  di_pool : pool_keyed n;
  di_peers : peers_live n;
}.

(** ** Frames *)

Lemma frame_refl n : frame n n.
Proof using Type. split; eauto. Qed.

Lemma frame_trans n1 n2 n3 : frame n1 n2 -> frame n2 n3 -> frame n1 n3.
Proof using Type.
  intros H1 H2. split; [eauto using fr_knows|eauto using fr_pool|by rewrite (fr_peers _ _ H2), (fr_peers _ _ H1)|..].
  - intros c ep (ep1 & K1 & K2 & K3)%(fr_conns _ _ H1). destruct (fr_conns _ _ H2 _ _ K1) as (ep2 & J1 & J2 & J3). exists ep2. by rewrite J2, J3.
  - intros c ep (ep1 & K1 & K2 & K3)%(fr_back _ _ H2). destruct (fr_back _ _ H1 _ _ K1) as (ep2 & J1 & J2 & J3). exists ep2. by rewrite K2, K3.
  - destruct (fr_run _ _ H1) as (R1 & R2 & R3). rewrite <- R1, <- R2, <- R3. apply (fr_run _ _ H2).
Qed.

(** Changing a connection without touching its identifier and phase, and without forgetting what it knows. *)
Lemma frame_alter c f n :
  (forall ep, ep_id (f ep) = ep_id ep /\ ep_phase (f ep) = ep_phase ep /\ ep_knownTxs ep ⊆ ep_knownTxs (f ep)) -> frame n (set_conns (alter f c (dn_conns n)) n).
Proof using Type.
  intros Hf. split; cbn [dn_txPool dn_peers dn_conns dn_running dn_stopCh_open dn_stopping set_conns upd_node]; eauto.
  - intros c' h. unfold knows. cbn [dn_conns set_conns upd_node]. destruct (decide (c = c')) as [<-|]; [|by rewrite lookup_alter_ne].
    rewrite lookup_alter_eq. destruct (dn_conns n !! c) as [ep|]; [|done]. cbn. rewrite !bool_decide_eq_true. destruct (Hf ep) as (_ & _ & S). set_solver.
  - intros c' ep He. destruct (decide (c = c')) as [<-|]; [|rewrite lookup_alter_ne by done; eauto]. rewrite lookup_alter_eq, He. destruct (Hf ep) as (? & ? & _). by eexists.
  - intros c' ep. destruct (decide (c = c')) as [<-|]; [|rewrite lookup_alter_ne by done; eauto]. rewrite lookup_alter_eq. intros (ep0 & He & ->)%fmap_Some.
    destruct (Hf ep0) as (? & ? & _). by eexists.
Qed.

Lemma frame_know c hs n : frame n (know c hs n).
Proof using Type. apply frame_alter. intros ep. cbn. split_and!; [done..|set_solver]. Qed.

Lemma frame_seen s n : frame n (set_seen s n).
Proof using Type. split; cbn; eauto. Qed.

Lemma frame_counts a b n : frame n (set_counts a b n).
Proof using Type. split; cbn; eauto. Qed.

Lemma frame_head h n : frame n (set_head h n).
Proof using Type. split; cbn; eauto. Qed.

Lemma frame_cleanup n : frame n (CleanupTxPool n).
Proof using Type.
  unfold CleanupTxPool. set (m := if 10000 <? Z.of_nat (size (dn_txPool n)) then set_txPool ∅ n else n).
  assert (F : frame n m). { subst m. destruct (10000 <? _); [|apply frame_refl]. split; cbn; eauto. intros h tx. by rewrite lookup_empty. }
  destruct (100000 <? _); [|done]. eapply frame_trans; [exact F|apply frame_seen].
Qed.
End node.

Create HintDb devp2p.
#[export] Hint Resolve frame_refl frame_know frame_seen frame_counts frame_head frame_cleanup : devp2p.

Section node_properties.
Context {Tx Key : Type} {E : EthLib Tx Key} {W : Wire Tx}.
Implicit Types (n : DevP2PNode Tx Key) (c : nat) (h : bytes).

Lemma told_app c tr evs : told c (tr ++ evs) = told c tr ++ told c evs.
Proof using Type. apply flat_map_app. Qed.

(** ** Handlers *)

Definition quiet (evs : list (p2p_event Tx)) : Prop := forall c, told c evs = [].

Lemma quiet_app e1 e2 : quiet e1 -> quiet e2 -> quiet (e1 ++ e2).
Proof using Type. intros H1 H2 c. by rewrite told_app, H1, H2. Qed.

Lemma quiet_if b e : quiet e -> quiet (if b : bool then e else []).
Proof using Type. by destruct b. Qed.

Lemma quiet_zeam hk tx : quiet (zeam_events hk tx) /\ quiet (zeam_events_raw hk tx).
Proof using Type. split; intros c; unfold zeam_events, zeam_events_raw; repeat case_match; done. Qed.

Lemma quiet_flat_map f (txs : list Tx) : (forall tx, quiet (f tx)) -> quiet (flat_map f txs).
Proof using Type. intros Hf. induction txs as [|tx txs IH]; [done|]. cbn. by apply quiet_app. Qed.

Lemma handle_txs_frame c txs n : frame n (handleTransactions c txs n).1 /\ quiet (handleTransactions c txs n).2.
Proof using Type.
  unfold handleTransactions.
  assert (K : let st := fold_left (take_tx c) txs (n, [], []) in frame n st.1.1 /\ quiet st.2).
  { apply fold_left_inv; [split; [apply frame_refl|done]|]. intros [[m l] evs] tx _ [F Q]. cbn in *. case_bool_decide; [done|]. split.
    - eapply frame_trans; [exact F|]. eapply frame_trans; [apply frame_seen|apply frame_know].
    - apply quiet_app; [done|apply quiet_zeam]. }
  destruct (fold_left (take_tx c) txs (n, [], [])) as [[m l] evs]. cbn in *. destruct K as [F Q]. split; [done|]. apply quiet_app; [done|]. by apply quiet_if.
Qed.

Lemma request_frame now c w n : frame n (request_hashes now c w n).1 /\ quiet (request_hashes now c w n).2.
Proof using Type.
  unfold request_hashes. destruct (length w =? 0)%nat; [split; [apply frame_refl|done]|]. split; [eapply frame_trans; [apply frame_seen|apply frame_counts]|].
  apply quiet_app; [by apply quiet_if|]. intros c'. cbn. by case_match.
Qed.

Lemma receive_frame f c txs n : (forall tx, quiet (f tx)) -> frame n (receive_pooled f c txs n).1 /\ quiet (receive_pooled f c txs n).2.
Proof using Type.
  intros Hf. unfold receive_pooled. destruct (length txs =? 0)%nat; [split; [apply frame_refl|done]|].
  split; [eapply frame_trans; [apply frame_know|apply frame_counts]|]. apply quiet_app; [by apply quiet_flat_map|by apply quiet_if].
Qed.

Lemma handle_frame now c m n : frame n (handleMsg now c m n).1 /\ quiet (handleMsg now c m n).2.
Proof using Type.
  assert (K0 : forall evs, quiet evs -> frame n (n, evs).1 /\ quiet (n, evs).2) by (intros; split; [apply frame_refl|done]).
  assert (K1 : forall p, packet_hashes p = [] -> quiet [Send c p]) by (intros p Hp c'; cbn; case_bool_decide; by rewrite ?Hp).
  unfold handleMsg. repeat (case_match; cbn beta iota); try (by apply K0).
  - apply handle_txs_frame.
  - apply request_frame.
  - by apply K0, K1.
  - apply receive_frame. intros tx. apply quiet_zeam.
  - unfold handlePooledTransactionsRawBytes. case_match; [|by apply K0]. apply receive_frame. intros tx. apply quiet_zeam.
  - apply K0. intros c'. unfold told. match goal with H : dec_block_hashes _ = Some ?l |- _ => clear H; induction l as [|a l IH]; [done|exact IH] end.
  - by apply K0, K1.
  - by apply K0, K1.
Qed.

(** ** The invariant *)

Lemma inv_frame n n' tr evs : dev_inv n tr -> frame n n' -> quiet evs -> dev_inv n' (tr ++ evs).
Proof using Type.
  intros [H1 H2 H3 H4] F Q. split.
  - intros c. by rewrite told_app, Q, app_nil_r.
  - intros c h. rewrite told_app, Q, app_nil_r. intros K. by apply (fr_knows _ _ F), H2.
  - intros h tx K. by apply H3, (fr_pool _ _ F).
  - intros id c. rewrite (fr_peers _ _ F). intros (ep & K1 & K2 & K3)%H4. destruct (fr_conns _ _ F _ _ K1) as (ep' & J1 & J2 & J3).
    exists ep'. by rewrite J2, J3.
Qed.

Lemma knows_know c hs n c' h : knows (know c hs n) c' h = true <-> knows n c' h = true \/ (c' = c /\ is_Some (dn_conns n !! c) /\ h ∈ hs).
Proof using Type.
  unfold knows, know. cbn [dn_conns set_conns upd_node]. destruct (decide (c = c')) as [<-|].
  - rewrite lookup_alter_eq. destruct (dn_conns n !! c) as [ep|] eqn:Ec; cbn; [|split; [done|intros [?|(_ & [? ?] & _)]; done]].
    rewrite !bool_decide_eq_true. set_solver.
  - rewrite lookup_alter_ne by done. split; [by left|]. intros [?|(-> & _)]; done.
Qed.

(** Telling a live connection what it does not know. *)
Lemma inv_send c p n tr :
  dev_inv n tr -> is_Some (dn_conns n !! c) -> NoDup (packet_hashes p) -> (forall h, h ∈ packet_hashes p -> knows n c h = false) ->
  dev_inv (know c (packet_hashes p) n) (tr ++ [Send c p]).
Proof using Type.
  intros I Hc Hn Hk. assert (I' := inv_frame n (know c (packet_hashes p) n) tr [] I (frame_know _ _ _) (fun _ => eq_refl)). rewrite app_nil_r in I'.
  destruct I as [H1 H2 _ _], I' as [_ H2' H3 H4]. split; [..|done|done]; intros c'; rewrite told_app; cbn; case_bool_decide as Ec; rewrite ?app_nil_r; auto; subst c'.
  - apply NoDup_app. split_and!; [done| |done]. intros h Ht Hp. apply H2 in Ht. rewrite (Hk h Hp) in Ht. done.
  - intros h. rewrite elem_of_app. intros [K|K]; [by apply H2'|]. apply knows_know. by right.
Qed.

Lemma inv_own tx n tr : dev_inv n tr -> dev_inv (own_tx tx n) tr.
Proof using Type.
  intros [H1 H2 H3 H4]. split; [done|done| |done]. intros h tx'. unfold own_tx, pool_tx. cbn. destruct (decide (tx_Hash tx = h)) as [<-|].
  - rewrite lookup_insert_eq. by intros [= ->].
  - rewrite lookup_insert_ne by done. apply H3.
Qed.

Lemma walk_live n tr walk c : dev_inv n tr -> walk ≡ₚ (map_to_list (dn_peers n)).*2 -> c ∈ walk -> is_Some (dn_conns n !! c).
Proof using Type.
  intros I ->. intros ([id c'] & -> & K)%list_elem_of_fmap. apply elem_of_map_to_list in K. cbn. destruct (di_peers _ _ I _ _ K) as (ep & -> & _). by eexists.
Qed.

(** A loop over live peers, each turn of which keeps the invariant. *)
Lemma spread_inv f walk n tr :
  (forall c, c ∈ walk -> is_Some (dn_conns n !! c)) ->
  (forall m evs c, is_Some (dn_conns m !! c) -> dev_inv m (tr ++ evs) -> dev_inv (f (m, evs) c).1 (tr ++ (f (m, evs) c).2) /\ frame m (f (m, evs) c).1) ->
  dev_inv n tr -> let st := fold_left f walk (n, []) in dev_inv st.1 (tr ++ st.2) /\ frame n st.1.
Proof using Type.
  intros Hw Hf I. apply fold_left_inv; [cbn; rewrite app_nil_r; split; [done|apply frame_refl]|]. intros [m evs] c Hc [Im F]. cbn in Im, F.
  destruct (Hw c Hc) as [ep Hep]. destruct (fr_conns _ _ F _ _ Hep) as (ep' & Hep' & _). destruct (Hf m evs c) as [I' F']; [by eexists|done|].
  split; [done|]. by eapply frame_trans.
Qed.

Lemma spread_to_inv h p tr m evs c :
  packet_hashes p = [h] -> is_Some (dn_conns m !! c) -> dev_inv m (tr ++ evs) ->
  dev_inv (spread_to h p (m, evs) c).1 (tr ++ (spread_to h p (m, evs) c).2) /\ frame m (spread_to h p (m, evs) c).1.
Proof using Type.
  intros Hp Hc I. cbn. destruct (knows m c h) eqn:K; [split; [done|apply frame_refl]|]. cbn. rewrite app_assoc, <- Hp. split; [|apply frame_know].
  apply inv_send; [done|done|rewrite Hp; apply NoDup_singleton|]. intros h'. rewrite Hp. by intros ->%list_elem_of_singleton.
Qed.

(** What is listed for a peer is new to it and listed once. *)
Lemma batch_fill_ok (known0 known : gset bytes) txs ty sz hl :
  (forall h, h ∈ known <-> h ∈ known0 \/ h ∈ hl) -> NoDup hl -> (forall h, h ∈ hl -> h ∉ known0) ->
  let st := fold_left batch_fill txs (known, ty, sz, hl) in NoDup st.2 /\ (forall h, h ∈ st.2 -> h ∉ known0).
Proof using Type.
  revert known ty sz hl. induction txs as [|[i tx] txs IH]; intros known ty sz hl Hi Hn Hk; [done|]. cbn [fold_left].
  unfold batch_fill at 2 4. case_bool_decide as Hh; [by apply IH|]. rewrite Hi in Hh. apply IH.
  - intros h. rewrite elem_of_union, elem_of_singleton, Hi, elem_of_app, list_elem_of_singleton. tauto.
  - apply NoDup_app. split_and!; [done| |apply NoDup_singleton]. intros h Hl ->%list_elem_of_singleton. tauto.
  - intros h. rewrite elem_of_app, list_elem_of_singleton. intros [Hl| ->]; [by apply Hk|tauto].
Qed.

Lemma batch_hashes known txs : an_Hashes (batch_announcement known txs) = (batch_fill_all known txs).2.
Proof using Type. unfold batch_announcement. by destruct (batch_fill_all known txs) as [[[? ?] ?] ?]. Qed.

Lemma batch_spread_inv txs tr m evs c :
  is_Some (dn_conns m !! c) -> dev_inv m (tr ++ evs) ->
  dev_inv (batch_spread txs (m, evs) c).1 (tr ++ (batch_spread txs (m, evs) c).2) /\ frame m (batch_spread txs (m, evs) c).1.
Proof using Type.
  intros [ep Hep] I. unfold batch_spread. rewrite Hep. set (a := batch_announcement (ep_knownTxs ep) txs). cbn [fst snd]. split; [|apply frame_know].
  destruct (batch_fill_ok (ep_knownTxs ep) (ep_knownTxs ep) (imap pair txs) (replicate (length txs) Byte.x00) (replicate (length txs) 0) []) as [Hn Hk];
    [set_solver|constructor|set_solver|]. fold (batch_fill_all (ep_knownTxs ep) txs) in Hn, Hk. rewrite <- batch_hashes in Hn, Hk. fold a in Hn, Hk.
  destruct (an_Hashes a) as [|h l] eqn:Ea; cbn [length Nat.ltb Nat.leb].
  - assert (I' := inv_frame m (know c [] m) (tr ++ evs) [] I (frame_know _ _ _) (fun _ => eq_refl)). by rewrite app_nil_r in I'.
  - rewrite app_assoc, <- Ea. apply (inv_send c (PAnnounce a)); [done|by eexists|cbn; by rewrite Ea|]. intros h'. cbn [packet_hashes]. rewrite Ea. intros K.
    unfold knows. rewrite Hep. apply bool_decide_eq_false. by apply Hk.
Qed.

Lemma inv_pool_txs txs n tr : dev_inv n tr -> dev_inv (fold_left pool_tx txs n) tr /\ dn_conns (fold_left pool_tx txs n) = dn_conns n /\ dn_peers (fold_left pool_tx txs n) = dn_peers n.
Proof using Type.
  intros I. apply fold_left_inv; [done|]. intros m tx _ (Im & <- & <-). split_and!; [|done|done]. destruct (inv_own tx m tr Im) as [H1 H2 H3 H4]. by split.
Qed.

(** ** Connections *)

Lemma inv_leave c n tr : dev_inv n tr -> dev_inv (leave c n).1 (tr ++ (leave c n).2).
Proof using Type.
  intros I. unfold leave. destruct (dn_conns n !! c) as [ep|] eqn:Ec; [|by rewrite app_nil_r]. cbn [removePeer fst snd].
  assert (Q : quiet (if OnPeerDrop (dn_hooks (set_phase c Left n)) then [PeerDrop (ep_id ep)] else [] : list (p2p_event Tx))) by (by apply quiet_if).
  destruct I as [H1 H2 H3 H4]. split.
  - intros c'. by rewrite told_app, Q, app_nil_r.
  - intros c' h. rewrite told_app, Q, app_nil_r. intros K%H2. revert K. unfold knows. cbn. destruct (decide (c = c')) as [<-|]; [|by rewrite lookup_alter_ne].
    by rewrite lookup_alter_eq, Ec.
  - exact H3.
  - intros id c'. cbn. destruct (decide (ep_id ep = id)) as [<-|Hid]; [by rewrite lookup_delete_eq|]. rewrite lookup_delete_ne by done.
    intros (ep' & K1 & K2 & K3)%H4. destruct (decide (c = c')) as [<-|]; [congruence|]. rewrite lookup_alter_ne by done. by exists ep'.
Qed.

Lemma inv_loop_head c n tr : dev_inv n tr -> dev_inv (loop_head c n).1 (tr ++ (loop_head c n).2).
Proof using Type.
  intros I. unfold loop_head. destruct (dn_stopCh_open n); [|by apply inv_leave]. cbn. rewrite app_nil_r. destruct I as [H1 H2 H3 H4]. split; [done| |done|].
  - intros c' h K%H2. revert K. unfold knows. cbn. destruct (decide (c = c')) as [<-|]; [|by rewrite lookup_alter_ne]. rewrite lookup_alter_eq.
    by destruct (dn_conns n !! c).
  - intros id c'. cbn. intros (ep' & K1 & K2 & K3)%H4. destruct (decide (c = c')) as [<-|]; [|rewrite lookup_alter_ne by done; by exists ep'].
    rewrite lookup_alter_eq, K1. by eexists.
Qed.

Lemma inv_connect c nodeID sent n tr :
  dn_conns n !! c = None -> dev_inv n tr -> dev_inv (run_connect c nodeID sent n).1 (tr ++ (run_connect c nodeID sent n).2).
Proof using Type.
  intros Hc I. unfold run_connect. set (id := short_id nodeID).
  set (n1 := set_peers (<[id := c]> (dn_peers n)) (set_conns (<[c := mkPeer id 0 0 zero32 ∅ Shaking]> (dn_conns n)) n)).
  set (evs := if OnPeerConnect (dn_hooks n1) then [PeerConnect id] else [] : list (p2p_event Tx)).
  assert (Q : quiet evs) by (by apply quiet_if).
  assert (I1 : dev_inv n1 (tr ++ evs)).
  { destruct I as [H1 H2 H3 H4]. split; [intros c'; by rewrite told_app, Q, app_nil_r| |done|].
    - intros c' h. rewrite told_app, Q, app_nil_r. intros K%H2. revert K. unfold knows. cbn. destruct (decide (c = c')) as [<-|]; [by rewrite Hc|].
      by rewrite lookup_insert_ne.
    - intros id' c'. cbn. destruct (decide (id = id')) as [<-|]; [rewrite lookup_insert_eq; intros [= <-]; rewrite lookup_insert_eq; by eexists|].
      rewrite lookup_insert_ne by done. intros (ep & K1 & K2)%H4. destruct (decide (c = c')) as [<-|]; [congruence|]. rewrite lookup_insert_ne by done. by exists ep. }
  destruct sent; cbn [fst snd].
  - rewrite app_assoc. apply (inv_frame n1); [done|apply frame_refl|]. intros c'. cbn. by case_match.
  - assert (L := inv_leave c n1 _ I1). destruct (leave c n1) as [n2 evs2]. cbn in *. by rewrite app_assoc.
Qed.

Lemma read_status_frame c m n : frame n (read_status c m n).1.2 /\ quiet (read_status c m n).2.
Proof using Type.
  unfold read_status. repeat (case_match; cbn [fst snd]); try (by split; [apply frame_refl|]);
    (split; [|done]); (eapply frame_trans; [|apply frame_head]); apply frame_alter; by intros ep.
Qed.

Lemma inv_run_status c m n tr : dev_inv n tr -> dev_inv (run_status c m n).1 (tr ++ (run_status c m n).2).
Proof using Type.
  intros I. unfold run_status. destruct (read_status_frame c m n) as [F Q]. destruct (read_status c m n) as [[r n1] evs]. cbn in F, Q.
  assert (I1 := inv_frame _ _ _ _ I F Q).
  destruct r; [assert (L := inv_loop_head c n1 _ I1); destruct (loop_head c n1)|assert (L := inv_leave c n1 _ I1); destruct (leave c n1)]; cbn in *; by rewrite app_assoc.
Qed.

Lemma inv_run_read now c m n tr : dev_inv n tr -> dev_inv (run_read now c m n).1 (tr ++ (run_read now c m n).2).
Proof using Type.
  intros I. unfold run_read. destruct m as [m|]; [|by apply inv_leave]. destruct (handle_frame now c m n) as [F Q]. destruct (handleMsg now c m n) as [n1 evs]. cbn in F, Q.
  assert (I1 := inv_frame _ _ _ _ I F Q). assert (L := inv_loop_head c n1 _ I1). destruct (loop_head c n1). cbn in *. by rewrite app_assoc.
Qed.

(** ** Runs *)

Lemma inv_set_running a b d n tr : dev_inv n tr -> dev_inv (set_running a b d n) tr.
Proof using Type. intros [H1 H2 H3 H4]. by split. Qed.

Lemma inv_step n l n' evs tr : dev_inv n tr -> dev_step n l n' evs -> dev_inv n' (tr ++ evs).
Proof using Type.
  intros I S. destruct S as [c nodeID sent n' evs Hc R|c m n' evs _ R|now c m n' evs _ R|server r n' R|n' R|n' R|now walk data r n' evs Hw R|walk tx r n' evs Hw R
    |clock arrive walk payloads keys r n' evs Hw R|]; rewrite ?app_nil_r.
  - assert (K := inv_connect c nodeID sent n tr Hc I). by rewrite R in K.
  - assert (K := inv_run_status c m n tr I). by rewrite R in K.
  - assert (K := inv_run_read now c m n tr I). by rewrite R in K.
  - unfold dev_Start in R. repeat case_match; simplify_eq/=; by try apply inv_set_running.
  - unfold stop_begin in R. repeat case_match; simplify_eq/=; by try apply inv_set_running.
  - unfold stop_end in R. repeat case_match; simplify_eq/=; by try apply inv_set_running.
  - unfold BroadcastZEAM in R. destruct (negb (dn_running n)); [simplify_eq/=; by rewrite app_nil_r|]. destruct (SignTx _ _) as [tx|]; [|simplify_eq/=; by rewrite app_nil_r].
    match type of R with context [fold_left ?f walk ?s] => destruct (spread_inv f walk (own_tx tx n) tr) as [K _] end; [intros c Hc; by apply (walk_live n tr walk)| |by apply inv_own|].
    + intros m evs0 c Hc Im. by apply spread_to_inv.
    + destruct (fold_left _ walk _) as [n1 e1]. by simplify_eq/=.
  - unfold BroadcastRawTx in R. destruct (negb (dn_running n)); [simplify_eq/=; by rewrite app_nil_r|].
    match type of R with context [fold_left ?f walk ?s] => destruct (spread_inv f walk (own_tx tx n) tr) as [K _] end; [intros c Hc; by apply (walk_live n tr walk)| |by apply inv_own|].
    + intros m evs0 c Hc Im. by apply spread_to_inv.
    + destruct (fold_left _ walk _) as [n1 e1]. by simplify_eq/=.
  - unfold BroadcastZEAMBatchFastMultiKey in R. destruct (negb (dn_running n)); [simplify_eq/=; by rewrite app_nil_r|]. cbv zeta in R.
    match type of R with context [fold_left (batch_spread ?txs) walk (set_seen ?s ?n1, [])] =>
      destruct (inv_pool_txs txs n tr I) as (I1 & C1 & P1); destruct (spread_inv (batch_spread txs) walk (set_seen s n1) tr) as [K _] end.
    + intros c Hc. cbn. rewrite C1. by apply (walk_live n tr walk).
    + intros m evs0 c Hc Im. by apply batch_spread_inv.
    + destruct I1 as [H1 H2 H3 H4]. by split.
    + destruct (fold_left (batch_spread _) walk _) as [n1 e1]. by simplify_eq/=.
  - rewrite <- (app_nil_r tr). apply (inv_frame n); [done|apply frame_cleanup|done].
Qed.

Lemma inv_run G n0 n ls tr : dev_inv n0 [] -> dev_run G n0 n ls tr -> dev_inv n tr.
Proof using Type. intros I R. induction R as [|n ls tr l n' evs R IH _ S]; [done|]. by eapply inv_step. Qed.

Lemma inv_new hooks cfg n sv : NewDevP2PNode hooks cfg = Ok (n, sv) -> dev_inv n [].
Proof using Type.
  unfold NewDevP2PNode. destruct (dc_PrivateKey cfg); [|done]. intros [= <- _]. split; [intros; constructor|by intros c h ?%not_elem_of_nil|..].
  - intros h tx. cbn. by rewrite lookup_empty.
  - intros id c. cbn. by rewrite lookup_empty.
Qed.

(** C36: Whatever peers send, connect, fail and leave, and whatever is broadcast, started, stopped and cleaned: no connection is told of a transaction twice;
    the map of peers names live connections under their own identifiers; and a request for pooled
    transactions is answered with exactly those that the pool holds, in the order of the request. *)
Theorem devp2p_sound hooks cfg n0 sv n ls tr :
  NewDevP2PNode hooks cfg = Ok (n0, sv) -> dev_run any_step n0 n ls tr ->
  (forall c, NoDup (told c tr)) /\ peers_live n /\
  (forall c g, exists txs, handleGetPooledTransactions c g n = (n, [Send c (PPooled (gp_RequestId g) txs)]) /\
     tx_Hash <$> txs = List.filter (fun h => bool_decide (is_Some (dn_txPool n !! h))) (gp_Hashes g)).
Proof using Type.
  intros H0 R. destruct (inv_run _ _ _ _ _ (inv_new _ _ _ _ H0) R) as [H1 H2 H3 H4]. split_and!; [done..|]. intros c g. eexists. split; [reflexivity|].
  induction (gp_Hashes g) as [|h l IH]; [done|]. cbn. destruct (dn_txPool n !! h) as [tx|] eqn:Eh; cbn; rewrite IH.
  - by rewrite (H3 _ _ Eh).
  - done.
Qed.

(** ** Identifiers and phases *)

Definition conn_view n : gmap nat (bytes * phase) := (fun ep => (ep_id ep, ep_phase ep)) <$> dn_conns n.

Definition flags n : bool * bool * bool := (dn_running n, dn_stopCh_open n, dn_stopping n).

Lemma frame_view n n' : frame n n' -> conn_view n' = conn_view n /\ dn_peers n' = dn_peers n /\ flags n' = flags n.
Proof using Type.
  intros F. split_and!; [|apply (fr_peers _ _ F)|destruct (fr_run _ _ F) as (H1 & H2 & H3); unfold flags; congruence]. apply map_eq. intros c. unfold conn_view. rewrite !lookup_fmap.
  destruct (dn_conns n !! c) as [ep|] eqn:Ec.
  - destruct (fr_conns _ _ F _ _ Ec) as (ep' & -> & H1 & H2). cbn. by rewrite H1, H2.
  - destruct (dn_conns n' !! c) as [ep'|] eqn:Ec'; [|done]. destruct (fr_back _ _ F _ _ Ec') as (ep & K & _). congruence.
Qed.

Lemma view_phase c ph n id ph0 : conn_view n !! c = Some (id, ph0) -> conn_view (set_phase c ph n) = <[c := (id, ph)]> (conn_view n).
Proof using Type.
  intros Hv. apply map_eq. intros c'. unfold conn_view in *. cbn [set_phase set_conns upd_node dn_conns]. rewrite lookup_fmap in Hv. rewrite lookup_fmap.
  destruct (decide (c = c')) as [<-|].
  - rewrite lookup_alter_eq, lookup_insert_eq. destruct (dn_conns n !! c); by simplify_eq/=.
  - by rewrite lookup_alter_ne, lookup_insert_ne, lookup_fmap.
Qed.

Lemma view_lookup n c id ph : conn_view n !! c = Some (id, ph) -> exists ep, dn_conns n !! c = Some ep /\ ep_id ep = id /\ ep_phase ep = ph.
Proof using Type. unfold conn_view. rewrite lookup_fmap. intros (ep & -> & [= -> ->])%fmap_Some. by exists ep. Qed.

Lemma leave_view c n id ph :
  conn_view n !! c = Some (id, ph) -> conn_view (leave c n).1 = <[c := (id, Left)]> (conn_view n) /\ dn_peers (leave c n).1 = delete id (dn_peers n) /\ flags (leave c n).1 = flags n.
Proof using Type.
  intros Hv. destruct (view_lookup _ _ _ _ Hv) as (ep & He & <- & <-). unfold leave. rewrite He. split_and!; [|done|done].
  rewrite <- (view_phase _ _ _ _ _ Hv). done.
Qed.

(** Where a turn of a connection's goroutine ends: in [ReadMsg], or it returns; it returns when the channel is closed. *)
Definition turn_ends c id n n' : Prop :=
  flags n' = flags n /\
  ((conn_view n' = <[c := (id, Reading)]> (conn_view n) /\ dn_peers n' = dn_peers n /\ dn_stopCh_open n = true) \/
   (conn_view n' = <[c := (id, Left)]> (conn_view n) /\ dn_peers n' = delete id (dn_peers n))).

Lemma turn_frame c id n n1 n' : conn_view n1 = conn_view n /\ dn_peers n1 = dn_peers n /\ flags n1 = flags n -> turn_ends c id n1 n' -> turn_ends c id n n'.
Proof using Type.
  intros (H1 & H2 & H3) [T1 T2]. unfold turn_ends. rewrite <- H1, <- H2, <- H3. split; [done|]. apply (f_equal (fun f => f.1.2)) in H3. cbn in H3. by rewrite <- H3.
Qed.

Lemma leave_turn c n id ph : conn_view n !! c = Some (id, ph) -> turn_ends c id n (leave c n).1.
Proof using Type. intros (H1 & H2 & H3)%leave_view. split; [done|by right]. Qed.

Lemma loop_head_turn c n id ph : conn_view n !! c = Some (id, ph) -> turn_ends c id n (loop_head c n).1.
Proof using Type.
  intros Hv. unfold loop_head. destruct (dn_stopCh_open n) eqn:Eo; [|by eapply leave_turn]. split; [done|left]. split_and!; [by eapply view_phase|done|done].
Qed.

Lemma run_status_turn c m n id ph : conn_view n !! c = Some (id, ph) -> turn_ends c id n (run_status c m n).1.
Proof using E Key Tx W.
  intros Hv. unfold run_status. destruct (read_status_frame c m n) as [F _]. destruct (read_status c m n) as [[r n1] evs]. cbn in F. apply frame_view in F.
  assert (Hv1 : conn_view n1 !! c = Some (id, ph)) by (by rewrite (proj1 F)). apply (turn_frame c id n n1); [done|].
  destruct r; [assert (L := loop_head_turn c n1 _ _ Hv1); by destruct (loop_head c n1)|assert (L := leave_turn c n1 _ _ Hv1); by destruct (leave c n1)].
Qed.

Lemma run_read_turn now c m n id ph : conn_view n !! c = Some (id, ph) -> turn_ends c id n (run_read now c m n).1.
Proof using Type.
  intros Hv. unfold run_read. destruct m as [m|]; [|by eapply leave_turn]. destruct (handle_frame now c m n) as [F _]. destruct (handleMsg now c m n) as [n1 evs]. cbn in F.
  apply frame_view in F. assert (Hv1 : conn_view n1 !! c = Some (id, ph)) by (by rewrite (proj1 F)). apply (turn_frame c id n n1); [done|].
  assert (L := loop_head_turn c n1 _ _ Hv1). by destruct (loop_head c n1).
Qed.

Definition same_view n n' : Prop := conn_view n' = conn_view n /\ dn_peers n' = dn_peers n.

Lemma spread_view (f : DevP2PNode Tx Key * list (p2p_event Tx) -> nat -> DevP2PNode Tx Key * list (p2p_event Tx)) walk n :
  (forall m evs c, conn_view (f (m, evs) c).1 = conn_view m /\ dn_peers (f (m, evs) c).1 = dn_peers m /\ flags (f (m, evs) c).1 = flags m) ->
  same_view n (fold_left f walk (n, [])).1 /\ flags (fold_left f walk (n, [])).1 = flags n.
Proof using Type.
  intros Hf. apply (fold_left_inv (fun st => same_view n st.1 /\ flags st.1 = flags n)); [done|]. intros [m evs] c _ [[H1 H2] H3]. cbn in *.
  destruct (Hf m evs c) as (K1 & K2 & K3). split; [split|]; congruence.
Qed.

Lemma spread_to_view h p m (evs : list (p2p_event Tx)) c :
  conn_view (spread_to h p (m, evs) c).1 = conn_view m /\ dn_peers (spread_to h p (m, evs) c).1 = dn_peers m /\ flags (spread_to h p (m, evs) c).1 = flags m.
Proof using Type. cbn. destruct (knows m c h); [done|]. apply frame_view, frame_know. Qed.

Lemma batch_spread_view txs m (evs : list (p2p_event Tx)) c :
  conn_view (batch_spread txs (m, evs) c).1 = conn_view m /\ dn_peers (batch_spread txs (m, evs) c).1 = dn_peers m /\ flags (batch_spread txs (m, evs) c).1 = flags m.
Proof using Type. exact (frame_view m (know c _ m) (frame_know c _ m)). Qed.

(** What the steps do to identifiers, phases and flags. *)
Definition step_effect n (l : @dev_label Tx Key) n' : Prop :=
  match l with
  | LConnect c nodeID sent =>
      let id := short_id nodeID in
      conn_view n !! c = None /\ conn_view n' = <[c := (id, if sent then Shaking else Left)]> (conn_view n) /\
      dn_peers n' = (if sent then <[id := c]> (dn_peers n) else delete id (dn_peers n)) /\ flags n' = flags n
  | LStatus c _ => exists id, conn_view n !! c = Some (id, Shaking) /\ turn_ends c id n n'
  | LRead _ c _ => exists id, conn_view n !! c = Some (id, Reading) /\ turn_ends c id n n'
  | LStart _ => same_view n n' /\ (flags n' = flags n \/ (dn_running n = false /\ flags n' = (true, dn_stopCh_open n, dn_stopping n)))
  | LStop => same_view n n' /\ ((dn_running n = false /\ flags n' = flags n) \/ (dn_running n = true /\ dn_stopCh_open n = true /\ flags n' = (true, false, true)))
  | LStopDone => same_view n n' /\ dn_stopping n = true /\ wg_count n = 0%nat /\ flags n' = (false, dn_stopCh_open n, false)
  | _ => same_view n n' /\ flags n' = flags n
  end.

Lemma phase_view n c ph : in_phase n c ph -> exists id, conn_view n !! c = Some (id, ph).
Proof using Type. intros (ep & He & <-). exists (ep_id ep). unfold conn_view. by rewrite lookup_fmap, He. Qed.

Lemma connect_view c nodeID sent n :
  dn_conns n !! c = None -> step_effect n (LConnect c nodeID sent) (run_connect c nodeID sent n).1.
Proof using Type.
  intros Hc. cbn [step_effect]. assert (Hv : conn_view n !! c = None) by (unfold conn_view; by rewrite lookup_fmap, Hc). split; [done|]. unfold run_connect.
  set (id := short_id nodeID). set (n1 := set_peers (<[id := c]> (dn_peers n)) (set_conns (<[c := mkPeer id 0 0 zero32 ∅ Shaking]> (dn_conns n)) n)).
  assert (H1 : conn_view n1 = <[c := (id, Shaking)]> (conn_view n)) by (unfold conn_view; cbn; by rewrite fmap_insert).
  destruct sent; [done|]. destruct (leave_view c n1 id Shaking) as (L1 & L2 & L3); [by rewrite H1, lookup_insert_eq|]. destruct (leave c n1) as [n2 evs]. cbn in *.
  rewrite L1, H1, L2, insert_insert_eq, delete_insert_eq. done.
Qed.

Lemma effect_of n l n' evs : dev_step n l n' evs -> step_effect n l n'.
Proof using Type.
  intros S. destruct S as [c nodeID sent n' evs Hc R|c m n' evs P R|now c m n' evs P R|server r n' R|n' R|n' R|now walk data r n' evs Hw R|walk tx r n' evs Hw R
    |clock arrive walk payloads keys r n' evs Hw R|].
  - assert (K := connect_view c nodeID sent n Hc). by rewrite R in K.
  - apply phase_view in P as [id Hv]. exists id. assert (K := run_status_turn c m n _ _ Hv). by rewrite R in K.
  - apply phase_view in P as [id Hv]. exists id. assert (K := run_read_turn now c m n _ _ Hv). by rewrite R in K.
  - unfold dev_Start in R. cbn [step_effect]. repeat case_match; simplify_eq/=; (split; [done|]); first [by left|by right].
  - unfold stop_begin in R. cbn [step_effect]. destruct (dn_running n) eqn:E1; simplify_eq/=; [|by split; [|left]]. destruct (dn_stopCh_open n); simplify_eq/=. split; [done|]. by right.
  - unfold stop_end in R. cbn [step_effect]. destruct (dn_stopping n); cbn [andb] in R; [|done]. destruct (Nat.eqb_spec (wg_count n) 0); by simplify_eq/=.
  - unfold BroadcastZEAM in R. cbn [step_effect]. destruct (negb _); [by simplify_eq/=|]. destruct (SignTx _ _) as [tx|]; [|by simplify_eq/=].
    match type of R with context [fold_left ?f walk ?s] => assert (K := spread_view f walk (own_tx tx n)) end.
    destruct (fold_left _ walk _) as [n1 e1]. simplify_eq/=. apply K. apply spread_to_view.
  - unfold BroadcastRawTx in R. cbn [step_effect]. destruct (negb _); [by simplify_eq/=|].
    match type of R with context [fold_left ?f walk ?s] => assert (K := spread_view f walk (own_tx tx n)) end.
    destruct (fold_left _ walk _) as [n1 e1]. simplify_eq/=. apply K. apply spread_to_view.
  - unfold BroadcastZEAMBatchFastMultiKey in R. cbn [step_effect]. destruct (negb _); [by simplify_eq/=|]. cbv zeta in R.
    match type of R with context [fold_left (batch_spread ?txs) walk (set_seen ?s ?n1, [])] =>
      assert (K := spread_view (batch_spread txs) walk (set_seen s n1));
      assert (P : same_view n n1 /\ flags n1 = flags n) by (apply (fold_left_inv (fun m => same_view n m /\ flags m = flags n)); [done|]; by intros m tx _ [[H1 H2] H3]) end.
    destruct (fold_left (batch_spread _) walk _) as [n2 e1]. simplify_eq/=. destruct K as [[K1 K2] K3]; [apply batch_spread_view|].
    destruct P as [[P1 P2] P3]. split; [|by rewrite K3, <- P3]. split; [by rewrite K1, <- P1|by rewrite K2, <- P2].
  - cbn [step_effect]. destruct (frame_view _ _ (frame_cleanup n)) as (H1 & H2 & H3). done.
Qed.

(** ** Peers and stopping *)

(** No live connection has the shortened identifier of a new one. *)
Definition fresh_ids n (l : @dev_label Tx Key) : Prop :=
  match l with LConnect _ nodeID _ => forall c ph, conn_view n !! c = Some (short_id nodeID, ph) -> ph = Left | _ => True end.

Definition all_listed n : Prop := forall c id ph, conn_view n !! c = Some (id, ph) -> ph <> Left -> dn_peers n !! id = Some c.

Lemma turn_listed c id ph0 n n' : conn_view n !! c = Some (id, ph0) -> ph0 <> Left -> all_listed n -> turn_ends c id n n' -> all_listed n'.
Proof using Type.
  intros Hv Hl A [_ [(V & P & _)|(V & P)]] c' id' ph; rewrite V, P; (destruct (decide (c = c')) as [<-|]; [rewrite lookup_insert_eq; intros [= <- <-] L|rewrite lookup_insert_ne by done]).
  - by eapply A.
  - by apply A.
  - done.
  - intros Hv' L. assert (K1 := A _ _ _ Hv Hl). assert (K2 := A _ _ _ Hv' L). rewrite lookup_delete_ne; [done|]. intros <-. congruence.
Qed.

Lemma step_listed n l n' : all_listed n -> fresh_ids n l -> step_effect n l n' -> all_listed n'.
Proof using Type.
  intros A G S. destruct l as [c nodeID sent|c m|now c m|server| | |now walk data|walk tx|clock arrive walk payloads keys|]; cbn [step_effect fresh_ids] in *;
    try (destruct S as [[V P] _]; unfold all_listed; by rewrite V, P).
  - destruct S as (Hn & V & P & _). intros c' id' ph. rewrite V, P. destruct (decide (c = c')) as [<-|].
    + rewrite lookup_insert_eq. intros [= <- <-] L. destruct sent; [|done]. by rewrite lookup_insert_eq.
    + rewrite lookup_insert_ne by done. intros Hv L. assert (short_id nodeID <> id') by (intros <-; by apply L, (G c')). destruct sent; [rewrite lookup_insert_ne by done|rewrite lookup_delete_ne by done]; by eapply A.
  - destruct S as (id & Hv & T). by eapply turn_listed.
  - destruct S as (id & Hv & T). by eapply turn_listed.
Qed.

(** While no two live connections share the first sixteen characters of their identifiers, the map of peers holds exactly the live connections,
    whatever else happens. *)
Theorem peers_exact hooks cfg n0 sv n ls tr :
  NewDevP2PNode hooks cfg = Ok (n0, sv) -> dev_run fresh_ids n0 n ls tr ->
  forall c id, dn_peers n !! id = Some c <-> exists ep, dn_conns n !! c = Some ep /\ ep_id ep = id /\ ep_phase ep <> Left.
Proof using Type.
  intros H0 R c id. assert (I := inv_run _ _ _ _ _ (inv_new _ _ _ _ H0) R). split; [apply (di_peers _ _ I)|].
  assert (A : all_listed n).
  { clear I. induction R as [|n ls tr l n' evs R IH G S]; [|by eapply step_listed; [|done|by eapply effect_of]]. unfold NewDevP2PNode in H0. destruct (dc_PrivateKey cfg); simplify_eq/=.
    intros c' id' ph. unfold conn_view. cbn. by rewrite fmap_empty, lookup_empty. }
  intros (ep & He & <- & Hp). apply (A c _ (ep_phase ep)); [|done]. unfold conn_view. by rewrite lookup_fmap, He.
Qed.

(** Connection [c] says nothing more and is not closed. *)
Definition silent c (_ : DevP2PNode Tx Key) (l : @dev_label Tx Key) : Prop := match l with LRead _ c' _ => c' <> c | _ => True end.

Lemma wg_zero n : wg_count n = 0%nat <-> forall c id, conn_view n !! c <> Some (id, Reading).
Proof using Type.
  unfold wg_count. rewrite length_zero_iff_nil. split.
  - intros F c id Hv. apply view_lookup in Hv as (ep & He & _ & Hr). assert (K : (c, ep) ∈ List.filter (fun p => is_reading p.2) (map_to_list (dn_conns n))).
    { apply list_elem_of_In, filter_In. split; [by apply list_elem_of_In, elem_of_map_to_list|]. unfold is_reading. cbn. by rewrite Hr. }
    rewrite F in K. by apply not_elem_of_nil in K.
  - intros H. apply elem_of_nil_inv. intros [c ep] [K1 K2]%list_elem_of_In%filter_In. apply list_elem_of_In, elem_of_map_to_list in K1. apply (H c (ep_id ep)).
    unfold conn_view. rewrite lookup_fmap, K1. cbn. unfold is_reading in K2. cbn in K2. by destruct (ep_phase ep).
Qed.

Lemma waiting_step c id n l n' :
  conn_view n !! c = Some (id, Reading) -> flags n = (true, false, true) -> silent c n l -> step_effect n l n' ->
  conn_view n' !! c = Some (id, Reading) /\ flags n' = (true, false, true).
Proof using Type.
  intros Hv Hf G S. unfold flags in Hf. injection Hf as F1 F2 F3.
  assert (T : forall c' id', turn_ends c' id' n n' -> c' <> c -> conn_view n' !! c = Some (id, Reading) /\ flags n' = (true, false, true)).
  { intros c' id' [Ff T] Hne. rewrite Ff. unfold flags. rewrite F1, F2, F3. split; [|done]. destruct T as [(-> & _)|(-> & _)]; by rewrite lookup_insert_ne. }
  destruct l as [c' nodeID sent|c' m|now c' m|server| | |now walk data|walk tx|clock arrive walk payloads keys|]; cbn [step_effect silent] in *;
    try (destruct S as [[V P] Ff]; rewrite V, Ff; unfold flags; by rewrite F1, F2, F3).
  - destruct S as (Hn & V & P & Ff). rewrite V, Ff, lookup_insert_ne by congruence. unfold flags. by rewrite F1, F2, F3.
  - destruct S as (id' & Hv' & Te). apply (T c' id'); [done|]. intros ->. congruence.
  - destruct S as (id' & Hv' & Te). by apply (T c' id').
  - destruct S as [[V P] S]. rewrite V. split; [done|]. unfold flags in S. destruct S as [S|[S _]]; [|congruence]. unfold flags. by rewrite S, F1, F2, F3.
  - destruct S as [_ [[S _]|(_ & S & _)]]; congruence.
  - destruct S as (_ & _ & S & _). rewrite wg_zero in S. by apply S in Hv.
Qed.

(** [Stop] does not return before every connected peer has sent a message or closed its connection: as long as one
    that waits in [ReadMsg] stays silent, the call waits, whatever else happens, and the server is not stopped. *)
Theorem stop_waits c n n1 n2 ls tr :
  dn_running n = true -> in_phase n c Reading -> stop_begin n = Done n1 -> dev_run (silent c) n1 n2 ls tr ->
  dn_stopping n2 = true /\ dn_running n2 = true /\ stop_end n2 = None.
Proof using Type.
  intros Hr [id Hv]%phase_view Hs R. unfold stop_begin in Hs. rewrite Hr in Hs. cbn [negb] in Hs. destruct (dn_stopCh_open n) eqn:Eo; [|done]. cbn [negb] in Hs. injection Hs as <-.
  assert (K : conn_view n2 !! c = Some (id, Reading) /\ flags n2 = (true, false, true)).
  { induction R as [|m ls tr l m' evs R IH G S]; [done|]. destruct IH as [IH1 IH2]. eapply waiting_step; [done|done|done|by eapply effect_of]. }
  destruct K as [K1 K2]. unfold flags in K2. injection K2 as F1 F2 F3. split_and!; [done|done|]. unfold stop_end. rewrite F3. destruct (Nat.eqb_spec (wg_count n2) 0) as [Ez|]; [|done].
  rewrite wg_zero in Ez. by apply Ez in K1.
Qed.

Lemma run_app G n0 n1 n2 l1 l2 t1 t2 : dev_run G n0 n1 l1 t1 -> dev_run G n1 n2 l2 t2 -> dev_run G n0 n2 (l1 ++ l2) (t1 ++ t2).
Proof using Type.
  intros R1 R2. induction R2 as [|m ls tr l m' evs R IH Hg S]; [by rewrite !app_nil_r|]. rewrite !app_assoc. by econstructor.
Qed.

(** When each of the connections that [Stop] waits for delivers one more message or fails, the call returns. *)
Theorem stop_ends now (rd : nat -> option Msg) n cs :
  flags n = (true, false, true) -> NoDup cs -> (forall c, c ∈ cs <-> in_phase n c Reading) ->
  exists n' tr, dev_run any_step n n' (((fun c => LRead now c (rd c)) <$> cs) ++ [LStopDone]) tr /\ flags n' = (false, false, false).
Proof using Type.
  intros Hf Hn Hc. revert n Hf Hn Hc. induction cs as [|c cs IH]; intros n Hf Hn Hc.
  - assert (Hw : wg_count n = 0%nat).
    { apply wg_zero. intros c id (ep & He & _ & Hp)%view_lookup. apply (not_elem_of_nil c), Hc. by exists ep. }
    unfold flags in Hf. injection Hf as F1 F2 F3. exists (set_running false (dn_stopCh_open n) false n), []. split; [|unfold flags; cbn; by rewrite F2].
    apply (run_snoc any_step n n [] [] LStopDone _ []); [constructor|done|]. constructor. unfold stop_end. by rewrite F3, Hw.
  - apply NoDup_cons in Hn as [Hnc Hn]. assert (P : in_phase n c Reading) by (apply Hc; by left). destruct (phase_view _ _ _ P) as [id Hv].
    assert (T := run_read_turn now c (rd c) n id _ Hv). destruct (run_read now c (rd c) n) as [n1 evs] eqn:Er. cbn in T. destruct T as [Tf T].
    destruct T as [(_ & _ & To)|(V & _)]; [unfold flags in Hf; congruence|].
    destruct (IH n1) as (n' & tr & R & F); [by rewrite Tf|done| |].
    + intros c'. assert (Q : in_phase n1 c' Reading <-> c' <> c /\ in_phase n c' Reading).
      { split.
        - intros [id' Hv']%phase_view. rewrite V in Hv'. destruct (decide (c = c')) as [<-|]; [by rewrite lookup_insert_eq in Hv'|].
          rewrite lookup_insert_ne in Hv' by done. split; [done|]. apply view_lookup in Hv' as (ep & ? & _ & ?). by exists ep.
        - intros [Hne [id' Hv']%phase_view]. assert (Hv1 : conn_view n1 !! c' = Some (id', Reading)) by (by rewrite V, lookup_insert_ne).
          apply view_lookup in Hv1 as (ep & ? & _ & ?). by exists ep. }
      rewrite Q, <- Hc, elem_of_cons. split; [|tauto]. intros K. split; [by intros ->|by right].
    + exists n', (evs ++ tr). split; [|done]. cbn [fmap list_fmap app]. apply (run_app any_step n n1 n' [LRead now c (rd c)] _ evs); [|done].
      apply (run_snoc any_step n n [] [] _ n1 evs); [constructor|done|by constructor].
Qed.

(** A node that was stopped and started again cannot be stopped: the channel is closed a second time.  Until then every connection ends right after its
    handshake. *)
Theorem devp2p_restart_panics n n1 n2 r n3 :
  dn_running n = true -> dn_stopCh_open n = true -> stop_begin n = Done n1 -> stop_end n1 = Some n2 -> dev_Start (Ok tt) n2 = (r, n3) ->
  r = Ok tt /\ stop_begin n3 = Panic "close of closed channel" /\
  forall c m ep, dn_conns n3 !! c = Some ep -> exists ep', dn_conns (run_status c m n3).1 !! c = Some ep' /\ ep_phase ep' = Left.
Proof using E Key Tx W.
  intros Hr Ho Hb He Hs. unfold stop_begin in Hb. rewrite Hr, Ho in Hb. cbn in Hb. injection Hb as <-. unfold stop_end in He.
  destruct (dn_stopping _ && _); [|done]. injection He as <-. cbn in Hs. injection Hs as <- <-. split_and!; [done|done|]. intros c m ep Hc.
  match goal with |- context [run_status c m ?N] => assert (T := run_status_turn c m N (ep_id ep) (ep_phase ep)) end.
  destruct T as [_ [(_ & _ & Ko)|(V & _)]]; [unfold conn_view; by rewrite lookup_fmap, Hc|done|].
  match type of V with conn_view ?N = _ => assert (Hv : conn_view N !! c = Some (ep_id ep, Left)) by (by rewrite V, lookup_insert_eq) end.
  apply view_lookup in Hv as (ep' & ? & _ & ?). by exists ep'.
Qed.

(** ** Requests *)

Definition requests (tr : list (p2p_event Tx)) : list (list bytes) :=
  omap (fun e => match e with Send _ (PGetPooled g) => Some (gp_Hashes g) | _ => None end) tr.

Definition no_cleanup (_ : DevP2PNode Tx Key) (l : @dev_label Tx Key) : Prop := match l with LCleanup => False | _ => True end.

(** A step asks at most once, for what was not seen before and is seen after. *)
Definition asks n n' (evs : list (p2p_event Tx)) : Prop :=
  dn_seenTxs n ⊆ dn_seenTxs n' /\
  (requests evs = [] \/ exists w, requests evs = [w] /\ forall h, h ∈ w -> h ∉ dn_seenTxs n /\ h ∈ dn_seenTxs n').

Lemma requests_app tr evs : requests (tr ++ evs) = requests tr ++ requests evs.
Proof using Type. apply omap_app. Qed.

Lemma asks_none n n' evs : dn_seenTxs n ⊆ dn_seenTxs n' -> requests evs = [] -> asks n n' evs.
Proof using Type. by split; [|left]. Qed.

Lemma asks_then n n1 n2 e1 e2 : asks n n1 e1 -> dn_seenTxs n2 = dn_seenTxs n1 -> requests e2 = [] -> asks n n2 (e1 ++ e2).
Proof using Type. intros [A1 A2] Hs Hr. unfold asks. by rewrite requests_app, Hr, app_nil_r, Hs. Qed.

Lemma leave_asks c n : dn_seenTxs (leave c n).1 = dn_seenTxs n /\ requests (leave c n).2 = [].
Proof using Type. unfold leave. destruct (dn_conns n !! c); [|done]. cbn. by destruct (OnPeerDrop _). Qed.

Lemma loop_head_asks c n : dn_seenTxs (loop_head c n).1 = dn_seenTxs n /\ requests (loop_head c n).2 = [].
Proof using Type. unfold loop_head. destruct (dn_stopCh_open n); [done|apply leave_asks]. Qed.

Lemma zeam_asks hk tx : requests (zeam_events hk tx) = [] /\ requests (zeam_events_raw hk tx) = [].
Proof using Type. split; unfold zeam_events, zeam_events_raw; repeat case_match; done. Qed.

Lemma receive_asks f c txs n : (forall tx, requests (f tx) = []) -> asks n (receive_pooled f c txs n).1 (receive_pooled f c txs n).2.
Proof using Type.
  intros Hf. unfold receive_pooled. destruct (length txs =? 0)%nat; [by apply asks_none|]. apply asks_none; [done|]. cbn [snd]. rewrite requests_app.
  assert (K : requests (flat_map f txs) = []) by (induction txs as [|tx txs IH]; [done|]; cbn; by rewrite requests_app, Hf, IH). rewrite K. by destruct (OnTxReceived _).
Qed.

Lemma handle_txs_asks c txs n : asks n (handleTransactions c txs n).1 (handleTransactions c txs n).2.
Proof using Type.
  unfold handleTransactions. assert (K : let st := fold_left (take_tx c) txs (n, [], []) in dn_seenTxs n ⊆ dn_seenTxs st.1.1 /\ requests st.2 = []).
  { apply fold_left_inv; [done|]. intros [[m l] evs] tx _ [S Q]. cbn -[requests] in *. case_bool_decide; [done|]. cbn -[requests]. split; [set_solver|]. by rewrite requests_app, Q, (proj1 (zeam_asks _ _)). }
  destruct (fold_left (take_tx c) txs (n, [], [])) as [[m l] evs]. cbn -[requests] in *. destruct K as [S Q]. apply asks_none; [done|]. rewrite requests_app, Q. by case_match.
Qed.

Lemma request_asks now c n hashes : asks n (request_hashes now c (wanted_hashes n hashes) n).1 (request_hashes now c (wanted_hashes n hashes) n).2.
Proof using Type.
  unfold request_hashes. destruct (length _ =? 0)%nat; [by apply asks_none|]. set (w := wanted_hashes n hashes). cbn [fst snd]. split; [cbn; set_solver|right].
  exists w. split; [rewrite requests_app; by destruct (OnTxHashReceived _)|]. intros h Hh. split; [|cbn; set_solver].
  apply list_elem_of_In, filter_In in Hh as [_ Hh]. by apply negb_true_iff, bool_decide_eq_false in Hh.
Qed.

Lemma handle_asks now c m n : asks n (handleMsg now c m n).1 (handleMsg now c m n).2.
Proof using Type.
  unfold handleMsg. repeat (case_match; cbn beta iota); try (by apply asks_none).
  - apply handle_txs_asks.
  - apply request_asks.
  - apply receive_asks. intros tx. apply zeam_asks.
  - unfold handlePooledTransactionsRawBytes. case_match; [|by apply asks_none]. apply receive_asks. intros tx. apply zeam_asks.
  - apply asks_none; [done|]. match goal with H : dec_block_hashes _ = Some ?l |- _ => clear H; induction l as [|a l IH]; [done|exact IH] end.
Qed.

Lemma spread_asks (f : DevP2PNode Tx Key * list (p2p_event Tx) -> nat -> DevP2PNode Tx Key * list (p2p_event Tx)) walk n :
  (forall m evs c, requests evs = [] -> dn_seenTxs (f (m, evs) c).1 = dn_seenTxs m /\ requests (f (m, evs) c).2 = []) ->
  dn_seenTxs (fold_left f walk (n, [])).1 = dn_seenTxs n /\ requests (fold_left f walk (n, [])).2 = [].
Proof using Type.
  intros Hf. apply (fold_left_inv (fun st => dn_seenTxs st.1 = dn_seenTxs n /\ requests st.2 = [])); [done|]. intros [m evs] c _ [H1 H2]. cbn [fst snd] in *.
  destruct (Hf m evs c H2) as [-> ->]. done.
Qed.

Lemma spread_to_asks h p (m : DevP2PNode Tx Key) evs c :
  (match p with PGetPooled _ => False | _ => True end) -> requests evs = [] ->
  dn_seenTxs (spread_to h p (m, evs) c).1 = dn_seenTxs m /\ requests (spread_to h p (m, evs) c).2 = [].
Proof using Type. intros Hp Hr. unfold spread_to. destruct (knows m c h); [done|]. cbn [fst snd]. split; [done|]. rewrite requests_app, Hr. by destruct p. Qed.

Lemma batch_spread_asks txs m evs c : requests evs = [] -> dn_seenTxs (batch_spread txs (m, evs) c).1 = dn_seenTxs m /\ requests (batch_spread txs (m, evs) c).2 = [].
Proof using Type.
  intros Hr. unfold batch_spread. cbn [fst snd]. split; [done|]. case_match; [|done]. by rewrite requests_app, Hr.
Qed.

Lemma step_asks n l n' evs : dev_step n l n' evs -> no_cleanup n l -> asks n n' evs.
Proof using Type.
  intros S. destruct S as [c nodeID sent n' evs Hc R|c m n' evs P R|now c m n' evs P R|server r n' R|n' R|n' R|now walk data r n' evs Hw R|walk tx r n' evs Hw R
    |clock arrive walk payloads keys r n' evs Hw R|]; intros G; [..|done].
  - unfold run_connect in R. cbv zeta in R. destruct sent; simplify_eq/=; [apply asks_none; [done|]; by destruct (OnPeerConnect _)|].
    match type of R with context [leave c ?N] => destruct (leave_asks c N) as [L1 L2]; destruct (leave c N) as [n1 e1] end. cbn [fst snd] in *. simplify_eq/=.
    apply asks_none; [by rewrite L1|]. rewrite requests_app, L2. by destruct (OnPeerConnect _).
  - unfold run_status in R. assert (K : dn_seenTxs (read_status c m n).1.2 = dn_seenTxs n /\ requests (read_status c m n).2 = []) by (unfold read_status; repeat case_match; done).
    destruct (read_status c m n) as [[r n1] e1]. cbn [fst snd] in K. destruct K as [K1 K2].
    assert (L : forall st, dn_seenTxs st.1 = dn_seenTxs n1 /\ requests st.2 = [] -> asks n st.1 (e1 ++ st.2)).
    { intros st [L1 L2]. apply asks_none; [by rewrite L1, K1|by rewrite requests_app, K2, L2]. }
    destruct r; [assert (J := L _ (loop_head_asks c n1)); destruct (loop_head c n1)|assert (J := L _ (leave_asks c n1)); destruct (leave c n1)]; by simplify_eq/=.
  - unfold run_read in R. destruct m as [m|]; [|destruct (leave_asks c n) as [L1 L2]; rewrite R in L1, L2; apply asks_none; [by rewrite <- L1|done]].
    assert (A := handle_asks now c m n). destruct (handleMsg now c m n) as [n1 e1]. destruct (loop_head_asks c n1) as [L1 L2]. destruct (loop_head c n1). simplify_eq/=.
    by eapply asks_then.
  - unfold dev_Start in R. repeat case_match; simplify_eq/=; by apply asks_none.
  - unfold stop_begin in R. repeat case_match; simplify_eq/=; by apply asks_none.
  - unfold stop_end in R. repeat case_match; simplify_eq/=; by apply asks_none.
  - unfold BroadcastZEAM in R. destruct (negb _); [simplify_eq/=; by apply asks_none|]. destruct (SignTx _ _) as [tx|]; [|simplify_eq/=; by apply asks_none].
    match type of R with context [fold_left ?f walk ?s] => destruct (spread_asks f walk (own_tx tx n)) as [K1 K2] end; [intros; by apply spread_to_asks|].
    destruct (fold_left _ walk _) as [n1 e1]. simplify_eq/=. apply asks_none; [rewrite K1; cbn; set_solver|done].
  - unfold BroadcastRawTx in R. destruct (negb _); [simplify_eq/=; by apply asks_none|].
    match type of R with context [fold_left ?f walk ?s] => destruct (spread_asks f walk (own_tx tx n)) as [K1 K2] end; [intros; by apply spread_to_asks|].
    destruct (fold_left _ walk _) as [n1 e1]. simplify_eq/=. apply asks_none; [rewrite K1; cbn; set_solver|done].
  - unfold BroadcastZEAMBatchFastMultiKey in R. destruct (negb _); [simplify_eq/=; by apply asks_none|]. cbv zeta in R.
    match type of R with context [fold_left (batch_spread ?txs) walk (set_seen ?s ?n1, [])] =>
      destruct (spread_asks (batch_spread txs) walk (set_seen s n1)) as [K1 K2]; [intros; by apply batch_spread_asks|];
      assert (P : dn_seenTxs n1 = dn_seenTxs n) by (by apply (fold_left_inv (fun m => dn_seenTxs m = dn_seenTxs n))) end.
    destruct (fold_left (batch_spread _) walk _) as [n2 e1]. simplify_eq/=. apply asks_none; [rewrite K1; cbn; rewrite P; set_solver|done].
Qed.

(** Until the record of seen transactions is cleaned, no transaction is asked for in two requests, whichever peers
    announce it and whatever else the node does. *)
Theorem requests_disjoint hooks cfg n0 sv n ls tr :
  NewDevP2PNode hooks cfg = Ok (n0, sv) -> dev_run no_cleanup n0 n ls tr -> StronglySorted (fun r1 r2 => forall h, h ∈ r1 -> h ∉ r2) (requests tr).
Proof using Type.
  intros _ R. enough (K : StronglySorted (fun r1 r2 => forall h, h ∈ r1 -> h ∉ r2) (requests tr) /\ Forall (fun r => forall h, h ∈ r -> h ∈ dn_seenTxs n) (requests tr)) by apply K.
  induction R as [|n ls tr l n' evs R [IH1 IH2] G S]; [split; constructor|]. destruct (step_asks _ _ _ _ S G) as [A1 A2]. rewrite requests_app.
  assert (F : Forall (fun r => forall h, h ∈ r -> h ∈ dn_seenTxs n') (requests tr)) by (eapply Forall_impl; [exact IH2|]; cbn; set_solver).
  destruct A2 as [->|(w & -> & Hw)]; [by rewrite app_nil_r|]. split.
  - apply StronglySorted_app. split_and!; [|done|by repeat constructor]. intros r1 r2 H1 ->%list_elem_of_singleton h Hh Hh'. rewrite Forall_forall in IH2.
    destruct (Hw h Hh') as [Hs _]. by apply Hs, (IH2 r1).
  - apply Forall_app. split; [done|]. constructor; [|done]. intros h Hh. by apply Hw.
Qed.

(** ** Announcements *)

Lemma wanted_seen n hashes : (forall h, h ∈ hashes -> h ∈ dn_seenTxs n) -> wanted_hashes n hashes = [].
Proof using Type.
  unfold wanted_hashes. induction hashes as [|h l IH]; intros H; [done|]. cbn. rewrite bool_decide_eq_true_2 by (apply H; by left). cbn. apply IH. intros h' Hh. apply H. by right.
Qed.

Lemma request_seen now c a n h : h ∈ an_Hashes a -> h ∈ dn_seenTxs (handleNewPooledTxHashes now c a n).1.
Proof using Type.
  intros Hh. unfold handleNewPooledTxHashes, request_hashes. set (w := wanted_hashes n (an_Hashes a)). destruct (decide (h ∈ dn_seenTxs n)) as [Hs|Hs].
  - destruct (length w =? 0)%nat; [done|]. cbn. set_solver.
  - assert (Hw : h ∈ w) by (apply list_elem_of_In, filter_In; split; [by apply list_elem_of_In|by rewrite bool_decide_eq_false_2]).
    destruct w as [|x w]; [by apply not_elem_of_nil in Hw|]. cbn [length Nat.eqb]. cbn. set_solver.
Qed.

(** A transaction that some peer has announced is lost unless that peer answers: when it arrives in full it is dropped as already seen, with no callback, and when
    others announce it it is not asked for. *)
Theorem announced_then_dropped now c a n tx now' c' a' :
  tx_Hash tx ∈ an_Hashes a -> (forall h, h ∈ an_Hashes a' -> h = tx_Hash tx) ->
  let n1 := (handleNewPooledTxHashes now c a n).1 in
  handleTransactions c' [tx] n1 = (n1, []) /\ handleNewPooledTxHashes now' c' a' n1 = (n1, []).
Proof using Type.
  intros Ha Ha' n1. assert (Hs : tx_Hash tx ∈ dn_seenTxs n1) by (by apply request_seen). split.
  - unfold handleTransactions. cbn [fold_left]. unfold take_tx. by rewrite bool_decide_eq_true_2.
  - unfold handleNewPooledTxHashes at 1. rewrite wanted_seen; [done|]. by intros h ->%Ha'.
Qed.

(** The check and the marking are separate critical sections: when two peers announce the same transaction at once, both are asked for it. *)
Theorem announce_race now1 now2 c1 c2 h n :
  h ∉ dn_seenTxs n ->
  let w1 := wanted_hashes n [h] in
  let w2 := wanted_hashes n [h] in
  let '(n1, evs1) := request_hashes now1 c1 w1 n in
  let '(n2, evs2) := request_hashes now2 c2 w2 n1 in
  Send c1 (PGetPooled (mkGetPooled (u64 now1) [h])) ∈ evs1 /\ Send c2 (PGetPooled (mkGetPooled (u64 now2) [h])) ∈ evs2.
Proof using Type.
  intros Hh. cbv zeta. assert (K : wanted_hashes n [h] = [h]) by (unfold wanted_hashes; cbn; by rewrite bool_decide_eq_false_2). rewrite K. unfold request_hashes.
  cbn [length Nat.eqb]. split; apply elem_of_app; right; by left.
Qed.

(** The status of a peer of another network is accepted, and its head is announced to the next peers as the head of the own network. *)
Theorem foreign_head c m n st :
  msg_Code m = StatusMsg -> dec_status (msg_Payload m) = Some st -> st_NetworkID st <> dn_networkID n -> st_Head st <> zero32 ->
  exists n' evs, read_status c (Some m) n = (Ok tt, n', evs) /\ own_status n' = mkStatus ETH68 (dn_networkID n) (dn_td n) (st_Head st) (dn_genesisHash n) (dn_forkID n).
Proof using Type.
  intros Hm Hd _ Hz. unfold read_status. rewrite Hm, Hd. cbn [negb Z.eqb StatusMsg]. eexists _, _. split; [reflexivity|]. unfold own_status, shown_head. cbn.
  by rewrite bool_decide_eq_false_2.
Qed.

(** ** Announcements of batches *)

Definition size32 (tx : Tx) : Z := Z.of_nat (length (tx_Marshal tx)) mod 2 ^ 32.

Lemma batch_fill_fresh (txs : list Tx) (known : gset bytes) (ty : list byte) (sz : list Z) (hl : list bytes) (k : nat) :
  length ty = k -> length sz = k -> NoDup (tx_Hash <$> txs) -> (forall tx, tx ∈ txs -> tx_Hash tx ∉ known) ->
  (fold_left batch_fill (imap (fun i tx => ((k + i)%nat, tx)) txs) (known, ty ++ replicate (length txs) Byte.x00, sz ++ replicate (length txs) 0, hl)) =
    (list_to_set (rev (tx_Hash <$> txs)) ∪ known, ty ++ (tx_Type <$> txs), sz ++ (size32 <$> txs), hl ++ (tx_Hash <$> txs)).
Proof using Type.
  revert known ty sz hl k. induction txs as [|tx txs IH]; intros known ty sz hl k Ht Hz Hn Hk.
  - cbn. rewrite !app_nil_r. repeat f_equal. set_solver.
  - rewrite fmap_cons in Hn. apply NoDup_cons in Hn as [Hn1 Hn2]. rewrite imap_cons. cbn [fold_left]. unfold batch_fill at 2.
    rewrite bool_decide_eq_false_2 by (apply Hk; by left). rewrite Nat.add_0_r. cbn [length replicate].
    rewrite !insert_app_r_alt by lia. rewrite Ht, Hz, Nat.sub_diag. cbn [list_insert insert].
    rewrite !(cons_middle _ _ (replicate _ _)), !app_assoc.
    rewrite (imap_ext _ (fun i tx => ((S k + i)%nat, tx))) by (intros; cbn; f_equal; lia). fold (size32 tx).
    rewrite (IH _ _ _ _ (S k)); [|rewrite length_app; cbn; lia|rewrite length_app; cbn; lia|done|].
    + rewrite !fmap_cons. cbn [rev]. rewrite <- !app_assoc. cbn [app]. do 3 f_equal. rewrite list_to_set_app_L. cbn. set_solver.
    + intros tx' Hin. rewrite elem_of_union, elem_of_singleton. intros [Eh|Hk']; [|by apply (Hk tx'); [right|]]. apply Hn1. rewrite <- Eh. by apply list_elem_of_fmap_2.
Qed.

(** An announcement lists type, size and hash of the same transactions when the peer knows none of them. *)
Theorem batch_aligned (known : gset bytes) (txs : list Tx) :
  NoDup (tx_Hash <$> txs) -> (forall tx, tx ∈ txs -> tx_Hash tx ∉ known) ->
  batch_announcement known txs = mkAnnounce (tx_Type <$> txs) (size32 <$> txs) (tx_Hash <$> txs).
Proof using Type.
  intros Hn Hk. unfold batch_announcement, batch_fill_all. assert (K := batch_fill_fresh txs known [] [] [] 0 eq_refl eq_refl Hn Hk). cbn [app] in K.
  rewrite (imap_ext _ pair) in K by done. rewrite K. rewrite length_fmap. by rewrite !take_ge by (by rewrite length_fmap).
Qed.

(** When the peer knows an earlier transaction of the batch, types and sizes are shifted against the hashes: here the one that is announced is given the type and the
    size zero. *)
Theorem batch_misaligned (known : gset bytes) (tx1 tx2 : Tx) :
  tx_Hash tx1 ∈ known -> tx_Hash tx2 ∉ known -> batch_announcement known [tx1; tx2] = mkAnnounce [Byte.x00] [0] [tx_Hash tx2].
Proof using Type.
  intros H1 H2. unfold batch_announcement, batch_fill_all. cbn [imap fold_left]. unfold batch_fill. cbn. rewrite bool_decide_eq_true_2 by done.
  by rewrite bool_decide_eq_false_2.
Qed.

(** A price that no handler is set for is dropped, except when its transaction was decoded on its own: then it is handed on as a message. *)
Theorem raw_gossip_misrouted hk tx version rest :
  tx_Data tx = encodeZEAMMessage version ZEAMMsgTypePriceGossip rest -> OnPriceGossip hk = false -> OnZEAMMessage hk = true ->
  zeam_events hk tx = [] /\ zeam_events_raw hk tx = [ZEAMMessage tx (tx_Data tx)].
Proof using Type. intros Hd Hp Hz. unfold zeam_events, zeam_events_raw. rewrite Hd. cbn. by rewrite Hp, Hz. Qed.

(** ** From broadcast to delivery *)

Lemma spread_sends h p walk c n evs :
  (c ∈ walk /\ knows n c h = false) \/ Send c p ∈ evs -> Send c p ∈ (fold_left (spread_to h p) walk (n, evs)).2.
Proof using Type.
  revert n evs. induction walk as [|c' walk IH]; intros n evs H; [destruct H as [[H _]|H]; [by apply not_elem_of_nil in H|done]|]. cbn [fold_left].
  unfold spread_to at 2. destruct (knows n c' h) eqn:Ek.
  - apply IH. destruct H as [[H Hk]|H]; [|by right]. left. split; [|done]. apply elem_of_cons in H as [->|H]; [congruence|done].
  - apply IH. destruct H as [[H Hk]|H]; [|right; apply elem_of_app; by left]. destruct (decide (c = c')) as [<-|Hne]; [right; apply elem_of_app; right; by left|]. left.
    apply elem_of_cons in H as [->|H]; [done|]. split; [done|]. apply not_true_iff_false. rewrite knows_know. intros [K|(K & _)]; congruence.
Qed.

Lemma spread_pool h p walk (n : DevP2PNode Tx Key) evs : dn_txPool (fold_left (spread_to h p) walk (n, evs)).1 = dn_txPool n.
Proof using Type.
  apply (fold_left_inv (fun st => dn_txPool st.1 = dn_txPool n)); [done|]. intros [m e] c _ Hm. cbn in *. by destruct (knows m c h).
Qed.

Lemma read_sent (p : packet Tx) : read_buffer (sent_msg p) = Some (wire_encode p).
Proof using Type. unfold read_buffer, sent_msg. cbn. f_equal. unfold copy_to. by rewrite firstn_all, firstn_all, Nat.sub_diag, app_nil_r. Qed.

Context {L : EthLaws Tx Key E} {WL : WireLaws Tx W}.

(** C37: A price that node [A] broadcasts reaches the handler of a connected node [B] that has not heard of it, unchanged: [A] announces the transaction, [B] asks for it, [A]
    answers with it, and [B] hands the data to its handler. *)
Theorem price_reaches_peer (A B : DevP2PNode Tx Key) now walk data tx ca cb t1 t2 t3 :
  dn_running A = true -> SignTx (dn_privateKey A) (zeam_tx now (encodeZEAMMessage Byte.x01 ZEAMMsgTypePriceGossip data) A) = Ok tx ->
  ca ∈ walk -> knows A ca (tx_Hash tx) = false -> tx_Hash tx ∉ dn_seenTxs B -> OnPriceGossip (dn_hooks B) = true ->
  exists A' evs a, BroadcastPriceGossip now walk data A = (Ok (tx_Hash tx), A', evs) /\ Send ca (PAnnounce a) ∈ evs /\
    let '(B1, e1) := handleMsg t1 cb (sent_msg (PAnnounce a)) B in
    Send cb (PGetPooled (mkGetPooled (u64 t1) [tx_Hash tx])) ∈ e1 /\
    handleMsg t2 ca (sent_msg (PGetPooled (mkGetPooled (u64 t1) [tx_Hash tx]))) A' = (A', [Send ca (PPooled (u64 t1) [tx])]) /\
    PriceGossip data ∈ (handleMsg t3 cb (sent_msg (PPooled (u64 t1) [tx])) B1).2.
Proof using L WL.
  intros Hr Hs Hw Hk Hb Ho. unfold BroadcastPriceGossip, BroadcastZEAM. rewrite Hr, Hs. cbn [negb].
  assert (Hrid : in_u64 (u64 t1)) by (unfold in_u64, u64; apply Z.mod_pos_bound; lia). assert (Hlen : Forall (fun h => length h = 32%nat) [tx_Hash tx]) by (repeat constructor; apply hash_length).
  set (a := mkAnnounce [tx_Type tx] [Z.of_nat (length (tx_Marshal tx)) mod 2 ^ 32] [tx_Hash tx]).
  assert (S1 := spread_sends (tx_Hash tx) (PAnnounce a) walk ca (own_tx tx A) [] (or_introl (conj Hw Hk))).
  assert (S2 := spread_pool (tx_Hash tx) (PAnnounce a) walk (own_tx tx A) []).
  destruct (fold_left _ walk _) as [A' evs] in *. cbn [fst snd] in S1, S2. exists A', evs, a. split_and!; [done|done|].
  unfold handleMsg at 1. cbn [msg_Code sent_msg packet_code msg_Payload]. cbn [Z.eqb NewPooledTransactionHashesMsg TransactionsMsg Pos.eqb]. rewrite wire_announce by (split; [repeat constructor; apply Z.mod_pos_bound; lia|exact Hlen]).
  unfold handleNewPooledTxHashes, request_hashes. assert (Ew : wanted_hashes B (an_Hashes a) = [tx_Hash tx]) by (unfold wanted_hashes; cbn; by rewrite bool_decide_eq_false_2).
  rewrite Ew. cbn [length Nat.eqb]. split_and!.
  - apply elem_of_app. right. by left.
  - unfold handleMsg. cbn [msg_Code sent_msg packet_code msg_Payload]. cbn [Z.eqb GetPooledTransactionsMsg NewPooledTransactionHashesMsg TransactionsMsg Pos.eqb]. rewrite wire_get_pooled by (by split).
    unfold handleGetPooledTransactions. cbn. rewrite S2. cbn. by rewrite lookup_insert_eq.
  - unfold handleMsg. rewrite read_sent. cbn [msg_Code sent_msg packet_code msg_Payload].
    cbn [Z.eqb PooledTransactionsMsg GetPooledTransactionsMsg NewPooledTransactionHashesMsg TransactionsMsg Pos.eqb]. rewrite wire_pooled by done.
    unfold handlePooledTransactions, receive_pooled. cbn [length Nat.eqb snd flat_map]. apply elem_of_app. left. rewrite app_nil_r. unfold zeam_events.
    rewrite (sign_data _ _ _ Hs). cbn. rewrite Ho. by left.
Qed.

(** ** Batches *)

Lemma key_ranges_cover count per k (keys : list Key) :
  0 <= k -> 0 < per -> count <= (k + Z.of_nat (length keys)) * per ->
  flat_map (fun r : Z * Key * Z * Z => let '(_, _, s, e) := r in seqZ s (e - s)) (key_ranges count per k keys) = seqZ (k * per) (count - k * per).
Proof using Type.
  revert k. induction keys as [|key keys IH]; intros k Hk Hp Hc; cbn [key_ranges].
  - cbn in *. symmetry. apply seqZ_nil. lia.
  - cbn [length] in Hc. destruct (Z.leb_spec count (k * per)); [symmetry; apply seqZ_nil; lia|]. cbn [flat_map]. rewrite IH by lia. destruct (Z.ltb_spec count (k * per + per)).
    + rewrite (seqZ_nil ((k + 1) * per)) by lia. by rewrite app_nil_r.
    + replace (count - k * per) with (per + (count - (k + 1) * per)) by lia. rewrite seqZ_app by lia. do 2 f_equal; lia.
Qed.

Lemma key_ranges_within count per k (keys : list Key) r : 0 <= k -> 0 <= per -> r ∈ key_ranges count per k keys -> let '(_, _, s, e) := r in 0 <= s /\ e <= count.
Proof using Type.
  revert k. induction keys as [|key keys IH]; intros k Hk Hp; cbn [key_ranges]; [by intros ?%not_elem_of_nil|].
  destruct (Z.leb_spec count (k * per)); [by intros ?%not_elem_of_nil|].
  rewrite elem_of_cons. intros [->|Hr]; [|by apply (IH (k + 1)); [lia|..]]. destruct (Z.ltb_spec count (k * per + per)); nia.
Qed.

Lemma sign_range_data clock payloads n (r : Z * Key * Z * Z) :
  (forall k t, is_ok (SignTx k t) = true) -> (let '(_, _, s, e) := r in 0 <= s /\ e <= Z.of_nat (length payloads)) ->
  tx_Data <$> sign_range clock payloads n r = (fun i => payloads !!! Z.to_nat i) <$> (let '(_, _, s, e) := r in seqZ s (e - s)).
Proof using L.
  destruct r as [[[k key] s] e]. intros Hs [H1 H2]. unfold sign_range. assert (B : Forall (fun i => 0 <= i < Z.of_nat (length payloads)) (seqZ s (e - s))).
  { apply Forall_forall. intros i. rewrite elem_of_seqZ. lia. }
  induction B as [|i l Hi B IH]; [done|]. cbn [flat_map]. rewrite fmap_app, IH, fmap_cons. unfold sign_one at 1.
  destruct (lookup_lt_is_Some_2 payloads (Z.to_nat i)) as [d Hd]; [lia|]. rewrite Hd, (list_lookup_total_correct _ _ _ Hd).
  assert (K := Hs key (batch_tx key (base_nonce (clock k) k n) s i d n)). destruct (SignTx key _) as [tx|] eqn:Et; [|done]. cbn. f_equal. by rewrite (sign_data _ _ _ Et).
Qed.

Lemma lookup_all (l : list bytes) : (fun i => l !!! Z.to_nat i) <$> seqZ 0 (Z.of_nat (length l)) = l.
Proof using Type.
  apply list_eq. intros i. rewrite list_lookup_fmap. destruct (decide (i < length l)%nat) as [Hi|Hi].
  - rewrite lookup_seqZ_lt by lia. cbn. replace (Z.to_nat (0 + Z.of_nat i)) with i by lia. destruct (lookup_lt_is_Some_2 l i Hi) as [x Hx]. by rewrite Hx, (list_lookup_total_correct _ _ _ Hx).
  - rewrite lookup_seqZ_ge by lia. cbn. symmetry. apply lookup_ge_None. lia.
Qed.

(** However many keys there are, and in whatever order the signing goroutines deliver, a batch of which all signatures succeed carries every payload in exactly one
    transaction, and returns the hashes of these. *)
Theorem batch_signs_each_once clock arrive walk payloads keys n :
  dn_running n = true -> (forall k t, is_ok (SignTx k t) = true) -> (forall ls, arrive ls ≡ₚ concat ls) ->
  exists txs n' evs, BroadcastZEAMBatchFastMultiKey clock arrive walk payloads keys n = (Ok (tx_Hash <$> txs), n', evs) /\ tx_Data <$> txs ≡ₚ payloads.
Proof using L.
  intros Hr Hs Ha. unfold BroadcastZEAMBatchFastMultiKey. rewrite Hr. cbn [negb]. set (ks := match keys with [] => [dn_privateKey n] | _ => keys end).
  assert (Hk : 0 < Z.of_nat (length ks)) by (subst ks; destruct keys; cbn; lia). set (count := Z.of_nat (length payloads)). set (per := (count + Z.of_nat (length ks) - 1) / Z.of_nat (length ks)).
  set (rs := key_ranges count per 0 ks). cbv zeta. destruct (fold_left (batch_spread _) walk _) as [n' evs]. eexists _, n', evs. split; [reflexivity|]. rewrite Ha.
  assert (Hd : tx_Data <$> concat (sign_range clock payloads n <$> rs) = (fun i => payloads !!! Z.to_nat i) <$> flat_map (fun r : Z * Key * Z * Z => let '(_, _, s, e) := r in seqZ s (e - s)) rs).
  { assert (B : Forall (fun r : Z * Key * Z * Z => let '(_, _, s, e) := r in 0 <= s /\ e <= count) rs).
    { apply Forall_forall. intros r Hin. apply (key_ranges_within count per 0 ks); [lia| |done]. apply Z.div_pos; lia. }
    induction B as [|r l Hb B IH]; [done|]. rewrite fmap_cons. cbn [concat flat_map]. rewrite !fmap_app, IH. f_equal. by apply sign_range_data. }
  rewrite Hd. destruct (decide (count = 0)) as [Hz|Hz].
  - assert (Hn : payloads = []) by (destruct payloads; [done|cbn in *; lia]). assert (Er : rs = []) by (unfold rs; destruct ks; [done|]; cbn [key_ranges]; by rewrite Hz). by rewrite Er, Hn.
  - assert (Hp : 0 < per) by (apply Z.div_str_pos; lia). unfold rs. rewrite key_ranges_cover; [|lia|done|].
    + rewrite Z.mul_0_l, Z.sub_0_r. unfold count. by rewrite lookup_all.
    + assert (K := Z.mul_div_le (count + Z.of_nat (length ks) - 1) (Z.of_nat (length ks)) Hk). assert (M := Z.mod_pos_bound (count + Z.of_nat (length ks) - 1) (Z.of_nat (length ks)) Hk).
      assert (D := Z.div_mod (count + Z.of_nat (length ks) - 1) (Z.of_nat (length ks))). fold per in D. lia.
Qed.

End node_properties.

(** ** A concrete instance

    Messages are encoded as the number that an enumeration of all packets gives them. *)

#[export] Instance ForkID_eq_dec : EqDecision ForkID.
Proof. solve_decision. Defined.
#[export] Instance ForkID_countable : Countable ForkID.
Proof. by apply (inj_countable' (fun f => (fork_Hash f, fork_Next f)) (fun p => mkForkID p.1 p.2)); intros []. Defined.
#[export] Instance DynamicFeeTx_eq_dec : EqDecision DynamicFeeTx.
Proof. solve_decision. Defined.
#[export] Instance DynamicFeeTx_countable : Countable DynamicFeeTx.
Proof.
  by apply (inj_countable' (fun t => (dt_ChainID t, dt_Nonce t, dt_GasTipCap t, dt_GasFeeCap t, dt_Gas t, dt_To t, dt_Value t, dt_Data t))
    (fun '(a, b, c, d, e, f, g, h) => mkDynamicFee a b c d e f g h)); intros [].
Defined.
#[export] Instance StatusPacket_eq_dec : EqDecision StatusPacket.
Proof. solve_decision. Defined.
#[export] Instance StatusPacket_countable : Countable StatusPacket.
Proof.
  by apply (inj_countable' (fun s => (st_ProtocolVersion s, st_NetworkID s, st_TD s, st_Head s, st_Genesis s, st_ForkID s)) (fun '(a, b, c, d, e, f) => mkStatus a b c d e f)); intros [].
Defined.
#[export] Instance AnnouncePacket_eq_dec : EqDecision AnnouncePacket.
Proof. solve_decision. Defined.
#[export] Instance AnnouncePacket_countable : Countable AnnouncePacket.
Proof. by apply (inj_countable' (fun a => (an_Types a, an_Sizes a, an_Hashes a)) (fun '(a, b, c) => mkAnnounce a b c)); intros []. Defined.
#[export] Instance GetPooledPacket_eq_dec : EqDecision GetPooledPacket.
Proof. solve_decision. Defined.
#[export] Instance GetPooledPacket_countable : Countable GetPooledPacket.
Proof. by apply (inj_countable' (fun g => (gp_RequestId g, gp_Hashes g)) (fun p => mkGetPooled p.1 p.2)); intros []. Defined.
#[export] Instance packet_eq_dec {Tx : Type} `{EqDecision Tx} : EqDecision (packet Tx).
Proof. solve_decision. Defined.
#[export] Instance packet_countable {Tx : Type} `{Countable Tx} : Countable (packet Tx).
Proof.
  by apply (inj_countable' (fun p : packet Tx => match p with
    | PStatus s => inl (inl (inl s)) | PTransactions l => inl (inl (inr l)) | PAnnounce a => inl (inr (inl a)) | PGetPooled g => inl (inr (inr g))
    | PPooled r l => inr (inl (r, l)) | PHeaders r => inr (inr (inl r)) | PBodies r => inr (inr (inr r)) end)
    (fun x => match x with
    | inl (inl (inl s)) => PStatus s | inl (inl (inr l)) => PTransactions l | inl (inr (inl a)) => PAnnounce a | inl (inr (inr g)) => PGetPooled g
    | inr (inl (r, l)) => PPooled r l | inr (inr (inl r)) => PHeaders r | inr (inr (inr r)) => PBodies r end)); intros [].
Defined.

Definition toy_tx : Type := nat * DynamicFeeTx.

Definition packet_bytes (p : packet toy_tx) : bytes := bigint_bytes (Zpos (encode p)).
Definition bytes_packet (b : bytes) : option (packet toy_tx) := match be_int b with Zpos q => decode q | _ => None end.

Lemma bytes_packet_bytes p : bytes_packet (packet_bytes p) = Some p.
Proof. unfold bytes_packet, packet_bytes. rewrite be_int_bigint_bytes by lia. apply decode_encode. Qed.

#[export] Instance toy_eth : EthLib toy_tx nat := {
  tx_Hash := fun tx => be_bytes 24 (Z.of_nat tx.1) ++ be_bytes 8 (dt_Nonce tx.2);
  tx_Data := fun tx => dt_Data tx.2;
  tx_Type := fun _ => Byte.x02;
  tx_Marshal := fun tx => dt_Data tx.2;
  PubkeyToAddress := fun k => be_bytes 20 (Z.of_nat k);
  SignTx := fun k t => Ok (k, t);
}.

#[export] Instance toy_eth_laws : EthLaws toy_tx nat toy_eth.
Proof. split; [intros tx; cbn [tx_Hash toy_eth]; by rewrite length_app, !length_be_bytes|cbn; by intros k t tx [= <-]]. Defined.

#[export] Instance toy_wire : Wire toy_tx := {
  wire_encode := packet_bytes;
  dec_status := fun b => match bytes_packet b with Some (PStatus s) => Some s | _ => None end;
  dec_txs := fun b => match bytes_packet b with Some (PTransactions l) => Some l | _ => None end;
  dec_announce := fun b => match bytes_packet b with Some (PAnnounce a) => Some a | _ => None end;
  dec_get_pooled := fun b => match bytes_packet b with Some (PGetPooled g) => Some g | _ => None end;
  dec_pooled := fun b => match bytes_packet b with Some (PPooled r l) => Some (r, l) | _ => None end;
  dec_pooled_raw := fun _ => None; dec_raws := fun _ => None; dec_tx := fun _ => None; dec_block_hashes := fun _ => None;
  dec_get_headers := fun _ => None; dec_get_bodies := fun _ => None;
}.

#[export] Instance toy_wire_laws : WireLaws toy_tx toy_wire.
Proof. split; intros; cbn [wire_encode toy_wire dec_announce dec_get_pooled dec_pooled]; by rewrite bytes_packet_bytes. Defined.

Definition all_hooks : Hooks := mkHooks true true true true true true true true.

Definition toy_config : DevP2PConfig nat := mkDevConfig (Some 7%nat) 5 5 (be_bytes 32 9) (mkForkID [] 0) 0 ":30303" 25 [] 100000.

Definition toy_node : DevP2PNode toy_tx nat :=
  mkNode 7%nat (PubkeyToAddress 7%nat) 5 5 (be_bytes 32 9) (mkForkID [] 0) 0 100000 all_hooks zero32 ∅ ∅ ∅ ∅ 0 0 false true false.

Definition toy_started : DevP2PNode toy_tx nat := (dev_Start (Ok tt) toy_node).2.
Definition toy_joined : DevP2PNode toy_tx nat := (run_connect 0%nat (be_bytes 32 1) true toy_started).1.
Definition toy_sent : DevP2PNode toy_tx nat := (BroadcastZEAM 42 [0%nat] [Byte.x01] toy_joined).1.2.
Definition toy_again : DevP2PNode toy_tx nat := (BroadcastRawTx [0%nat] (7%nat, zeam_tx 42 [Byte.x01] toy_joined) toy_sent).1.2.

Lemma devp2p_sound_witness :
  exists tr, dev_run any_step toy_node toy_again
    [LStart (Ok tt); LConnect 0%nat (be_bytes 32 1) true; LZEAM 42 [0%nat] [Byte.x01]; LRaw [0%nat] (7%nat, zeam_tx 42 [Byte.x01] toy_joined)] tr /\
  length (told 0%nat tr) = 1%nat /\ NoDup (told 0%nat tr).
Proof.
  assert (R : exists tr, dev_run any_step toy_node toy_again
    [LStart (Ok tt); LConnect 0%nat (be_bytes 32 1) true; LZEAM 42 [0%nat] [Byte.x01]; LRaw [0%nat] (7%nat, zeam_tx 42 [Byte.x01] toy_joined)] tr /\
    length (told 0%nat tr) = 1%nat).
  { eexists. split.
    - eapply (run_snoc _ _ toy_sent [LStart (Ok tt); LConnect 0%nat (be_bytes 32 1) true; LZEAM 42 [0%nat] [Byte.x01]]); [|done|eapply step_raw; [vm_compute; reflexivity|vm_compute; reflexivity]].
      eapply (run_snoc _ _ toy_joined [LStart (Ok tt); LConnect 0%nat (be_bytes 32 1) true]); [|done|eapply step_zeam; [vm_compute; reflexivity|vm_compute; reflexivity]].
      eapply (run_snoc _ _ toy_started [LStart (Ok tt)]); [|done|eapply step_connect; [vm_compute; reflexivity|vm_compute; reflexivity]].
      eapply (run_snoc _ _ toy_node []); [constructor|done|eapply step_start; vm_compute; reflexivity].
    - vm_compute. reflexivity. }
  destruct R as (tr & R & Hl). exists tr. split; [exact R|]. split; [exact Hl|].
  refine (proj1 (devp2p_sound all_hooks toy_config toy_node (mkServer "ZEAM/v1.0.0" 25 "eth" 68 17 ":30303" [] [] true 10) toy_again _ tr eq_refl R) 0%nat).
Defined.

Lemma price_reaches_peer_witness :
  exists A' evs a, BroadcastPriceGossip 42 [0%nat] [Byte.x07] toy_joined = (Ok (tx_Hash (7%nat, zeam_tx 42 (encodeZEAMMessage Byte.x01 ZEAMMsgTypePriceGossip [Byte.x07]) toy_joined)), A', evs) /\
    Send 0%nat (PAnnounce a) ∈ evs.
Proof.
  destruct (price_reaches_peer toy_joined toy_joined 42 [0%nat] [Byte.x07] (7%nat, zeam_tx 42 (encodeZEAMMessage Byte.x01 ZEAMMsgTypePriceGossip [Byte.x07]) toy_joined)
    0%nat 0%nat 1 2 3) as (A' & evs & a & H1 & H2 & _); [reflexivity|reflexivity|by left|reflexivity|by vm_compute|reflexivity|]. exists A', evs, a. exact (conj H1 H2).
Defined.

Lemma batch_signs_each_once_witness :
  exists txs n' evs, BroadcastZEAMBatchFastMultiKey (fun k => k) (@concat toy_tx) [0%nat] [[Byte.x01]; [Byte.x02]; [Byte.x03]] [4%nat; 5%nat] toy_joined = (Ok (tx_Hash <$> txs), n', evs) /\
    tx_Data <$> txs ≡ₚ [[Byte.x01]; [Byte.x02]; [Byte.x03]].
Proof. apply (batch_signs_each_once (fun k => k) (@concat toy_tx) [0%nat] [[Byte.x01]; [Byte.x02]; [Byte.x03]] [4%nat; 5%nat] toy_joined); [reflexivity|done|done]. Defined.

Definition toy_reading : DevP2PNode toy_tx nat := set_phase 0%nat Reading toy_joined.

Lemma stop_waits_witness : stop_end (set_running true false true toy_reading) = None.
Proof.
  apply (stop_waits 0%nat toy_reading (set_running true false true toy_reading) _ [] []); [reflexivity| |reflexivity|constructor].
  eexists. split; [vm_compute; reflexivity|reflexivity].
Defined.

Lemma stop_ends_witness : exists n' tr, dev_run any_step (set_running true false true toy_reading) n' [LRead 1 0%nat None; LStopDone] tr /\ flags n' = (false, false, false).
Proof.
  apply (stop_ends 1 (fun _ => None) (set_running true false true toy_reading) [0%nat]); [reflexivity|apply NoDup_singleton|]. intros c. rewrite list_elem_of_singleton. split.
  - intros ->. eexists. split; [vm_compute; reflexivity|reflexivity].
  - intros (ep & He & _). destruct (decide (c = 0%nat)) as [->|Hne]; [reflexivity|]. exfalso. revert He. unfold toy_reading, toy_joined. cbn.
    rewrite lookup_alter_ne by done. rewrite lookup_insert_ne by done. by rewrite lookup_empty.
Defined.
