(* ===== verification/FlowEngine.v ===== *)
(** * The flow engine ([arb/flow_state.go], [arb/flow_engine.go])

    Contents: the window of pressure samples with its gradient, the pending swaps by chain and pool, the forecasts
    of pools, the signals and who receives them, and the loop that handles the events of the feed.

    The pressure of the quantum service, the rate of the feed and the clock are read a few times while
    one event is handled; the model reads them once ([Reading]).  A forecast is an object that the
    engine, its states and its signals share: it is found by its pool.  Orders of map walks are arguments.

    The theorems: the window holds exactly the samples of the last period ([samples_window]); the pending
    swaps of a chain and of a pool are those that were added, not outdated and not confirmed
    ([pending_refines]); no forecast ever has a price, because nothing sets the reserves it is made from
    ([forecast_never_priced]); and as the parser leaves the pool of a swap empty, there is no forecast and
    the engine sends no signal about pools at all ([engine_blind]). *)

From Stdlib Require Import String SpecFloat Sorted.
From stdpp Require Import sorting.
From S2P Require Import Prelude Json Signing Float64 BigFloat Swaps Prices Detector Pathways River.

(** ** The window of samples *)

Record PressureGradient := mkGradient { DPressureDt : float64; DCoherenceDt : float64; DTensionDt : float64; DDensityDt : float64; g_Window : Z }.

Definition IsAccelerating (g : PressureGradient) : bool := fltb f0 (DPressureDt g).

Record PressureSample := mkSample { sm_Timestamp : Z; sm_Pressure : PressureMetrics; sm_FlowRate : float64 }.

Record PressureTimeSeries := mkSeries { ts_samples : list PressureSample; ts_maxAge : Z }.

Definition NewPressureTimeSeries (maxAge : Z) : PressureTimeSeries := mkSeries [] maxAge.

(** The loop that skips what lies before the cutoff. *)
Fixpoint drop_before {A} (time : A -> Z) (cutoff : Z) (l : list A) : list A :=
  match l with
  | [] => []
  | x :: t => if time x <? cutoff then drop_before time cutoff t else l
  end.

Definition prune (now : Z) (ts : PressureTimeSeries) : PressureTimeSeries :=
  mkSeries (drop_before sm_Timestamp (now - ts_maxAge ts) (ts_samples ts)) (ts_maxAge ts).

Definition series_Add (s : PressureSample) (ts : PressureTimeSeries) : PressureTimeSeries :=
  prune (sm_Timestamp s) (mkSeries (ts_samples ts ++ [s]) (ts_maxAge ts)).

Definition fsum (l : list float64) : float64 := fold_left fadd l f0.

(** The slope of the least squares through the samples. *)
Definition slope (xs ys : list float64) (meanX meanY : float64) : float64 :=
  fsum (zip_with (fun x y => fmul (fsub x meanX) (fsub y meanY)) xs ys).

Definition flat (window : Z) : PressureGradient := mkGradient f0 f0 f0 f0 window.

Definition Gradient (ts : PressureTimeSeries) : PressureGradient :=
  let n := length (ts_samples ts) in
  match ts_samples ts, last (ts_samples ts) with
  | s0 :: _ :: _, Some sl =>
      let first := sm_Timestamp s0 in
      let window := Since (sm_Timestamp sl) first in
      if window <=? 0 then flat (ts_maxAge ts)
      else
        let xs := (fun s => Seconds (Since (sm_Timestamp s) first)) <$> ts_samples ts in
        let column f := (fun s => f (sm_Pressure s)) <$> ts_samples ts in
        let mean l := fdiv (fsum l) (f_of_Z (Z.of_nat n)) in
        let denomX := fsum ((fun x => fmul (fsub x (mean xs)) (fsub x (mean xs))) <$> xs) in
        let over f := fdiv (slope xs (column f) (mean xs) (mean (column f))) denomX in
        if feqb denomX f0 then flat window
        else mkGradient (over m_Hadamard) (over m_PauliX) (over m_PauliZ) (over m_Phase) window
  | _, _ => flat (ts_maxAge ts)
  end.

(** The zero sample when there is none; times are nanoseconds and the zero time is [None]. *)
Definition Latest (ts : PressureTimeSeries) : option PressureSample := last (ts_samples ts).

(** ** Pending swaps *)

(** A swap with the two fields that the parser does not set. *)
Record FlowSwap := mkFlowSwap { fs_swap : Detected; fs_EstimatedPriceImpact : float64; fs_PoolAddress : bytes }.

Definition fs_ChainID (s : FlowSwap) : Z := det_chain (fs_swap s).
Definition fs_TxHash (s : FlowSwap) : bytes := tx_Hash (det_tx (fs_swap s)).
Definition fs_DetectedAt (s : FlowSwap) : Z := det_at (fs_swap s).

(** What [ParseTransaction] returns. *)
Definition parsed (d : Detected) : FlowSwap := mkFlowSwap d f0 zero20.

Record PendingSwapSequence := mkPending { byChain : gmap Z (list FlowSwap); byPool : gmap bytes (list FlowSwap); pss_maxAge : Z; seqNum : Z }.

Definition NewPendingSwapSequence (maxAge : Z) : PendingSwapSequence := mkPending ∅ ∅ maxAge 0.

Definition pending_Add (s : FlowSwap) (pss : PendingSwapSequence) : PendingSwapSequence :=
  mkPending (<[fs_ChainID s := default [] (byChain pss !! fs_ChainID s) ++ [s]]> (byChain pss))
    (if bool_decide (fs_PoolAddress s = zero20) then byPool pss
     else <[fs_PoolAddress s := default [] (byPool pss !! fs_PoolAddress s) ++ [s]]> (byPool pss))
    (pss_maxAge pss) (u64 (seqNum pss + 1)).

Definition ForPool (pool : bytes) (pss : PendingSwapSequence) : list FlowSwap := default [] (byPool pss !! pool).
Definition ForChain (chainID : Z) (pss : PendingSwapSequence) : list FlowSwap := default [] (byChain pss !! chainID).
Definition CountByChain (pss : PendingSwapSequence) : gmap Z Z := (fun l => Z.of_nat (length l)) <$> byChain pss.

Definition pruneSwaps (cutoff : Z) (swaps : list FlowSwap) : list FlowSwap := drop_before fs_DetectedAt cutoff swaps.

Definition pending_Prune (now : Z) (pss : PendingSwapSequence) : PendingSwapSequence :=
  let cutoff := now - pss_maxAge pss in
  mkPending (pruneSwaps cutoff <$> byChain pss) (pruneSwaps cutoff <$> byPool pss) (pss_maxAge pss) (seqNum pss).

Fixpoint removeTx (txHash : bytes) (swaps : list FlowSwap) : list FlowSwap :=
  match swaps with
  | [] => []
  | s :: t => if bool_decide (fs_TxHash s = txHash) then t else s :: removeTx txHash t
  end.

Definition ConfirmTx (txHash : bytes) (pss : PendingSwapSequence) : PendingSwapSequence :=
  mkPending (removeTx txHash <$> byChain pss) (removeTx txHash <$> byPool pss) (pss_maxAge pss) (seqNum pss).

(** ** Forecasts and signals *)

Record PoolImpactForecast := mkForecast {
  fc_Pool : bytes; fc_ChainID : Z; fc_CurrentReserves : option Z * option Z; fc_PredictedReserves : option Z * option Z; fc_PendingSwapCount : Z;
  fc_CumulativeImpactBPS : float64; fc_PredictedPrice : option bigfloat; fc_Confidence : float64; fc_LastUpdated : Z;
}.

Inductive FlowSignalType := SignalPressureSpike | SignalPressureGradient | SignalCoherenceDrift | SignalSwapSequence | SignalPoolImpact | SignalFlashblockConfirm.

#[export] Instance FlowSignalType_eq_dec : EqDecision FlowSignalType.
Proof. solve_decision. Defined.

(** [sg_PoolImpacts] are the pools whose forecasts are attached. *)
Record FlowSignal := mkSignal {
  sg_Type : FlowSignalType; sg_Timestamp : Z; sg_ChainID : Z; sg_Pressure : PressureMetrics; sg_Gradient : PressureGradient; sg_PendingSwaps : list FlowSwap;
  sg_AffectedPools : list bytes; sg_PoolImpacts : list bytes; sg_ChainCoherence : gmap Z float64;
}.

Record FlowState := mkFlowState {
  st_Timestamp : Z; st_Pressure : PressureMetrics; st_Gradient : PressureGradient; st_PendingByChain : gmap Z Z; st_PoolForecasts : gmap bytes PoolImpactForecast;
  st_ChainCoherence : gmap Z float64; st_FlowRate : float64;
}.

(** ** The engine *)

Record FlowEngineConfig := mkEngineConfig {
  GradientWindow : Z; PressureSpikeThreshold : float64; GradientThreshold : float64; CoherenceDriftThreshold : float64; PoolImpactThresholdBPS : float64;
  MaxPendingAge : Z; MaxPendingPerPool : Z; FlowBufferSize : Z; EnableLogging : bool;
}.

Definition DefaultFlowEngineConfig : FlowEngineConfig :=
  mkEngineConfig (2 * 10 ^ 9) (f_ratio 7 10) (f_ratio 3 10) (f_ratio 4 10) (f_of_Z 50) (30 * 10 ^ 9) 100 1024 false.

(** A channel of a subscriber: its room and what waits in it. *)
Record SignalChan := mkSignalChan { sc_cap : nat; sc_buf : list FlowSignal }.

(** [fe_qs] says whether there is a quantum service; [fe_lastPrune] and [fe_eventCount] are variables of the loop. *)
Record FlowPressureEngine := mkEngine {
  fe_parser : option MempoolParser; fe_qs : bool; fe_pending : PendingSwapSequence; fe_history : PressureTimeSeries; fe_forecasts : gmap bytes PoolImpactForecast;
  fe_coherence : gmap Z float64; fe_chainPressure : gmap Z PressureMetrics; fe_subs : list SignalChan; fe_config : FlowEngineConfig;
  fe_running : bool; fe_stopCh_open : bool; fe_lastPrune : option Z; fe_eventCount : Z;
}.

Definition NewFlowPressureEngine (parser : option MempoolParser) (qs : bool) (config : option FlowEngineConfig) : FlowPressureEngine :=
  let c := default DefaultFlowEngineConfig config in
  mkEngine parser qs (NewPendingSwapSequence (MaxPendingAge c)) (NewPressureTimeSeries (GradientWindow c)) ∅ ∅ ∅ [] c false true None 0.

(** Assigning fields. *)
Definition with_flow (parser : option MempoolParser) (pending : PendingSwapSequence) (history : PressureTimeSeries) (forecasts : gmap bytes PoolImpactForecast)
    (coherence : gmap Z float64) (chainPressure : gmap Z PressureMetrics) (subs : list SignalChan) (e : FlowPressureEngine) : FlowPressureEngine :=
  mkEngine parser (fe_qs e) pending history forecasts coherence chainPressure subs (fe_config e) (fe_running e) (fe_stopCh_open e) (fe_lastPrune e) (fe_eventCount e).
Definition with_pss (p : PendingSwapSequence) (e : FlowPressureEngine) := with_flow (fe_parser e) p (fe_history e) (fe_forecasts e) (fe_coherence e) (fe_chainPressure e) (fe_subs e) e.
Definition with_parser (p : option MempoolParser) (e : FlowPressureEngine) := with_flow p (fe_pending e) (fe_history e) (fe_forecasts e) (fe_coherence e) (fe_chainPressure e) (fe_subs e) e.
Definition with_history (h : PressureTimeSeries) (e : FlowPressureEngine) := with_flow (fe_parser e) (fe_pending e) h (fe_forecasts e) (fe_coherence e) (fe_chainPressure e) (fe_subs e) e.
Definition with_forecasts (f : gmap bytes PoolImpactForecast) (e : FlowPressureEngine) := with_flow (fe_parser e) (fe_pending e) (fe_history e) f (fe_coherence e) (fe_chainPressure e) (fe_subs e) e.
Definition with_coherence (c : gmap Z float64) (e : FlowPressureEngine) := with_flow (fe_parser e) (fe_pending e) (fe_history e) (fe_forecasts e) c (fe_chainPressure e) (fe_subs e) e.
Definition with_chainPressure (c : gmap Z PressureMetrics) (e : FlowPressureEngine) := with_flow (fe_parser e) (fe_pending e) (fe_history e) (fe_forecasts e) (fe_coherence e) c (fe_subs e) e.
Definition with_subs (s : list SignalChan) (e : FlowPressureEngine) := with_flow (fe_parser e) (fe_pending e) (fe_history e) (fe_forecasts e) (fe_coherence e) (fe_chainPressure e) s e.
Definition with_loop (lastPrune : option Z) (eventCount : Z) (e : FlowPressureEngine) : FlowPressureEngine :=
  mkEngine (fe_parser e) (fe_qs e) (fe_pending e) (fe_history e) (fe_forecasts e) (fe_coherence e) (fe_chainPressure e) (fe_subs e) (fe_config e) (fe_running e)
    (fe_stopCh_open e) lastPrune eventCount.
Definition with_run (running open : bool) (e : FlowPressureEngine) : FlowPressureEngine :=
  mkEngine (fe_parser e) (fe_qs e) (fe_pending e) (fe_history e) (fe_forecasts e) (fe_coherence e) (fe_chainPressure e) (fe_subs e) (fe_config e) running open
    (fe_lastPrune e) (fe_eventCount e).

(** What is read while one event is handled: the clock, the pressure of the quantum service, the rate of the feed. *)
Record Reading := mkReading { r_now : Z; r_pressure : PressureMetrics; r_rate : float64 }.

(** [Start], up to the loop: the feed is subscribed. *)
Definition engine_Start (e : FlowPressureEngine) : FlowPressureEngine := if fe_running e then e else with_run true (fe_stopCh_open e) (with_loop None 0 e).

(** [Stop]; the loop has ended when the channels are closed. *)
Definition engine_Stop (e : FlowPressureEngine) : outcome FlowPressureEngine :=
  if negb (fe_running e) then Done e
  else if negb (fe_stopCh_open e) then Panic "close of closed channel"
  else Done (with_subs [] (with_run false false e)).

Definition engine_Subscribe (bufSize : nat) (e : FlowPressureEngine) : FlowPressureEngine := with_subs (fe_subs e ++ [mkSignalChan bufSize []]) e.

Definition engine_currentPressure (rd : Reading) (e : FlowPressureEngine) : PressureMetrics :=
  if fe_qs e then r_pressure rd else mkMetrics (f_ratio 1 2) (f_ratio 1 2) (f_ratio 3 10) (f_ratio 1 2).

Definition zero_metrics : PressureMetrics := mkMetrics f0 f0 f0 f0.

Definition GetState (now : Z) (e : FlowPressureEngine) : FlowState :=
  mkFlowState now (default zero_metrics (sm_Pressure <$> Latest (fe_history e))) (Gradient (fe_history e)) (CountByChain (fe_pending e)) (fe_forecasts e)
    (fe_coherence e) (default f0 (sm_FlowRate <$> Latest (fe_history e))).

Definition GetPoolForecast (pool : bytes) (e : FlowPressureEngine) : option PoolImpactForecast := fe_forecasts e !! pool.
Definition GetPressureGradient (e : FlowPressureEngine) : PressureGradient := Gradient (fe_history e).

(** [parked] says on which channels a receiver waits. *)
Definition offer (s : FlowSignal) (waits : bool) (c : SignalChan) : SignalChan :=
  if (length (sc_buf c) <? sc_cap c)%nat || waits then mkSignalChan (sc_cap c) (sc_buf c ++ [s]) else c.

Definition emitSignal (parked : nat -> bool) (s : FlowSignal) (e : FlowPressureEngine) : FlowPressureEngine :=
  with_subs (imap (fun i c => offer s (parked i) c) (fe_subs e)) e.

Definition forecast_confidence (count : Z) : float64 :=
  if count <=? 1 then f_ratio 9 10 else if count <=? 3 then f_ratio 7 10 else if count <=? 5 then f_ratio 5 10 else f_ratio 3 10.

(** The price of the reserves, moved by the impact. *)
Definition predicted_price (reserves : option Z * option Z) (impact : float64) (old : option bigfloat) : outcome (option bigfloat) :=
  match reserves with
  | (Some r0, Some r1) =>
      if 0 <? r0 then
        let! currentPrice := bf_Quo 0 (bf_SetInt r1) (bf_SetInt r0) in
        let! shift := bf_NewFloat (fadd f1 (fdiv impact (f_of_Z 10000))) in
        let! p := bf_Mul 0 currentPrice shift in
        Done (Some p)
      else Done old
  | _ => Done old
  end.

Definition updatePoolForecast (now : Z) (swap : FlowSwap) (e : FlowPressureEngine) : outcome FlowPressureEngine :=
  let pool := fs_PoolAddress swap in
  if bool_decide (pool = zero20) then Done e
  else
    let f := default (mkForecast pool (fs_ChainID swap) (None, None) (None, None) 0 f0 None f0 0) (fe_forecasts e !! pool) in
    let count := fc_PendingSwapCount f + 1 in
    let impact := fadd (fc_CumulativeImpactBPS f) (fs_EstimatedPriceImpact swap) in
    let! price := predicted_price (fc_CurrentReserves f) impact (fc_PredictedPrice f) in
    Done (with_forecasts (<[pool := mkForecast (fc_Pool f) (fc_ChainID f) (fc_CurrentReserves f) (fc_PredictedReserves f) count impact price
            (forecast_confidence count) now]> (fe_forecasts e)) e).

Definition checkPoolImpactSignal (parked : nat -> bool) (rd : Reading) (pool : bytes) (chainID : Z) (e : FlowPressureEngine) : FlowPressureEngine :=
  match fe_forecasts e !! pool with
  | None => e
  | Some f =>
      if fleb (PoolImpactThresholdBPS (fe_config e)) (fc_CumulativeImpactBPS f) then
        emitSignal parked (mkSignal SignalPoolImpact (r_now rd) chainID (engine_currentPressure rd e) (Gradient (fe_history e)) [] [pool] [pool] ∅) e
      else e
  end.

(** One swap of [handleFullTxs]. *)
Definition handle_swap (parked : nat -> bool) (rd : Reading) (chainID : Z) (swap : FlowSwap) (e : FlowPressureEngine) : outcome FlowPressureEngine :=
  let e := with_pss (pending_Add swap (fe_pending e)) e in
  let! e := updatePoolForecast (r_now rd) swap e in
  let pool := fs_PoolAddress swap in
  if bool_decide (pool = zero20) then Done e
  else
    let e := checkPoolImpactSignal parked rd pool chainID e in
    let poolSwaps := ForPool pool (fe_pending e) in
    Done (if (2 <=? length poolSwaps)%nat then
            emitSignal parked (mkSignal SignalSwapSequence (r_now rd) chainID (engine_currentPressure rd e) (Gradient (fe_history e)) poolSwaps [pool] [] ∅) e
          else e).

Fixpoint handleFullTxs (parked : nat -> bool) (rd : Reading) (chainID : Z) (txs : list Tx) (e : FlowPressureEngine) : outcome FlowPressureEngine :=
  match txs, fe_parser e with
  | [], _ | _, None => Done e
  | tx :: txs, Some mp =>
      let! r := ParseTransaction mp chainID tx (r_now rd) in
      let e := with_parser (Some r.1) e in
      match r.2 with
      | None => handleFullTxs parked rd chainID txs e
      | Some d => let! e := handle_swap parked rd chainID (parsed d) e in handleFullTxs parked rd chainID txs e
      end
  end.

(** [handleTxHashes] only calls the quantum service, which is outside: these are the hashes it is given. *)
Definition handleTxHashes (hashes : list bytes) (e : FlowPressureEngine) : list bytes := if fe_qs e then hashes else [].

Definition handleBlock (rd : Reading) (chainID : Z) (e : FlowPressureEngine) : FlowPressureEngine :=
  if fe_qs e then with_chainPressure (<[chainID := r_pressure rd]> (fe_chainPressure e)) e else e.

Definition samplePressure (parked : nat -> bool) (rd : Reading) (e : FlowPressureEngine) : FlowPressureEngine :=
  let pressure := engine_currentPressure rd e in
  let e := with_history (series_Add (mkSample (r_now rd) pressure (r_rate rd)) (fe_history e)) e in
  if fltb (PressureSpikeThreshold (fe_config e)) (m_Hadamard pressure) then
    emitSignal parked (mkSignal SignalPressureSpike (r_now rd) 0 pressure (Gradient (fe_history e)) [] [] [] ∅) e
  else e.

Definition checkGradientSignals (parked : nat -> bool) (rd : Reading) (e : FlowPressureEngine) : FlowPressureEngine :=
  let g := Gradient (fe_history e) in
  if fltb (GradientThreshold (fe_config e)) (DPressureDt g) || fltb (DPressureDt g) (SFopp (GradientThreshold (fe_config e))) then
    emitSignal parked (mkSignal SignalPressureGradient (r_now rd) 0 (engine_currentPressure rd e) g [] [] [] ∅) e
  else e.

(** [walk] is the order of the sum over the chains. *)
Definition checkCoherenceDrift (parked : nat -> bool) (rd : Reading) (walk : list Z) (e : FlowPressureEngine) : FlowPressureEngine :=
  let chains := fe_chainPressure e in
  if (size chains <? 2)%nat then e
  else
    let total := fsum (omap (fun c => m_PauliX <$> chains !! c) walk) in
    let mean := fdiv total (f_of_Z (Z.of_nat (size chains))) in
    let coherence := m_PauliX <$> chains in
    let threshold := CoherenceDriftThreshold (fe_config e) in
    let drifting := existsb (fun kv => fltb kv.2 threshold && fltb threshold mean) (map_to_list coherence) in
    let e := with_coherence coherence e in
    if drifting then emitSignal parked (mkSignal SignalCoherenceDrift (r_now rd) 0 (engine_currentPressure rd e) (Gradient (fe_history e)) [] [] [] coherence) e
    else e.

(** One turn of [eventLoop].  A prune that has never happened lies at the zero time. *)
Definition on_event (parked : nat -> bool) (rd : Reading) (walk : list Z) (ev : @NetworkEvent Tx) (e : FlowPressureEngine) : outcome FlowPressureEngine :=
  let! e :=
    match ev_Type ev with
    | EventTxFull => handleFullTxs parked rd (ev_ChainID ev) (ev_Txs ev) e
    | EventL1Block => Done (handleBlock rd (ev_ChainID ev) e)
    | EventL2Block => Done (match ev_L2Block ev with Some _ => handleBlock rd (ev_ChainID ev) e | None => e end)
    | _ => Done e
    end in
  let e := checkGradientSignals parked rd (samplePressure parked rd e) in
  let count := fe_eventCount e + 1 in
  let due := (100 <=? count) || match fe_lastPrune e with Some t => 10 * 10 ^ 9 <? Since (r_now rd) t | None => true end in
  Done (if due then
          let e := checkCoherenceDrift parked rd walk e in
          with_loop (Some (r_now rd)) 0 (with_pss (pending_Prune (r_now rd) (fe_pending e)) e)
        else with_loop (fe_lastPrune e) count e).

(** ** Properties of the window *)

Lemma drop_before_filter {A} (time : A -> Z) cutoff l :
  StronglySorted (fun x y => time x <= time y) l -> drop_before time cutoff l = List.filter (fun x => cutoff <=? time x) l.
Proof.
  intros S. induction S as [|x l S IH Hx]; [done|]. cbn. destruct (Z.ltb_spec (time x) cutoff), (Z.leb_spec cutoff (time x)); try lia; [done|]. f_equal.
  symmetry. clear IH S. induction Hx as [|y l Hy Hx IH]; [done|]. cbn. destruct (Z.leb_spec cutoff (time y)); [|lia]. by rewrite IH.
Qed.

Lemma filter_filter_and {A} (f g : A -> bool) l : List.filter f (List.filter g l) = List.filter (fun x => g x && f x) l.
Proof. induction l as [|x l IH]; [done|]. cbn. destruct (g x); cbn; by rewrite IH. Qed.

Lemma filter_ext_elem {A} (f g : A -> bool) l : (forall x, x ∈ l -> f x = g x) -> List.filter f l = List.filter g l.
Proof. intros H. apply filter_ext_in. intros x Hx. apply H. by apply list_elem_of_In. Qed.

Lemma sorted_filter {A} (R : A -> A -> Prop) (f : A -> bool) l : StronglySorted R l -> StronglySorted R (List.filter f l).
Proof.
  intros S. induction S as [|x l S IH Hx]; [constructor|]. cbn. destruct (f x); [|done]. constructor; [done|]. rewrite Forall_forall in *. intros y Hy.
  apply Hx. apply list_elem_of_In, filter_In in Hy as [Hy _]. by apply list_elem_of_In.
Qed.

Definition by_stamp (a b : PressureSample) : Prop := sm_Timestamp a <= sm_Timestamp b.

Lemma series_age l ts : ts_maxAge (fold_left (fun ts s => series_Add s ts) l ts) = ts_maxAge ts.
Proof. revert ts. induction l as [|s l IH]; intros ts; [done|]. cbn [fold_left]. by rewrite IH. Qed.

(** Samples that arrive in order of time are kept exactly as long as they are no older than the period of the window, counted from the newest. *)
Theorem samples_window maxAge hs s :
  StronglySorted by_stamp (hs ++ [s]) ->
  ts_samples (fold_left (fun ts s => series_Add s ts) (hs ++ [s]) (NewPressureTimeSeries maxAge)) =
    List.filter (fun x => sm_Timestamp s - maxAge <=? sm_Timestamp x) (hs ++ [s]).
Proof.
  revert s. induction hs as [|r hs IH] using rev_ind; intros s S.
  - cbn. by destruct (Z.ltb_spec (sm_Timestamp s) (sm_Timestamp s - maxAge)), (Z.leb_spec (sm_Timestamp s - maxAge) (sm_Timestamp s)); try lia.
  - rewrite fold_left_app. cbn [fold_left]. set (ts := fold_left _ (hs ++ [r]) _). apply StronglySorted_app in S as S'. destruct S' as (Hx & Sh & _).
    assert (Ha : ts_maxAge ts = maxAge) by apply series_age. assert (Hs : ts_samples ts = List.filter (fun x => sm_Timestamp r - maxAge <=? sm_Timestamp x) (hs ++ [r])) by (by apply IH).
    unfold series_Add, prune. cbn [ts_samples ts_maxAge]. rewrite Ha, Hs, drop_before_filter.
    + rewrite (List.filter_app _ (List.filter _ _)), (List.filter_app _ (hs ++ [r]) [s]), filter_filter_and. f_equal. apply filter_ext_elem. intros x Hin.
      assert (sm_Timestamp r <= sm_Timestamp s) by (apply (Hx r s); [apply elem_of_app; right|]; by left). destruct (Z.leb_spec (sm_Timestamp s - maxAge) (sm_Timestamp x)); cbn; lia.
    + apply (StronglySorted_app (fun x y => sm_Timestamp x <= sm_Timestamp y)). split_and!; [|by apply sorted_filter|by repeat constructor].
      intros x y Hin ->%list_elem_of_singleton. apply Hx; [|by left]. apply list_elem_of_In, filter_In in Hin as [Hin _]. by apply list_elem_of_In.
Qed.

(** ** Pending swaps as a history *)

Inductive pending_op := PAdd (s : FlowSwap) | PPrune (now : Z) | PConfirm (h : bytes).

Definition pending_exec (pss : PendingSwapSequence) (o : pending_op) : PendingSwapSequence :=
  match o with PAdd s => pending_Add s pss | PPrune now => pending_Prune now pss | PConfirm h => ConfirmTx h pss end.

(** What waits: one list, in order of arrival. *)
Definition waiting_exec (maxAge : Z) (live : list FlowSwap) (o : pending_op) : list FlowSwap :=
  match o with
  | PAdd s => live ++ [s]
  | PPrune now => List.filter (fun s => now - maxAge <=? fs_DetectedAt s) live
  | PConfirm h => List.filter (fun s => negb (bool_decide (fs_TxHash s = h))) live
  end.

(** Swaps arrive in order of time, and no transaction while it waits already. *)
Fixpoint orderly (maxAge : Z) (live : list FlowSwap) (ops : list pending_op) : Prop :=
  match ops with
  | [] => True
  | o :: ops =>
      match o with PAdd s => (forall r, r ∈ live -> fs_DetectedAt r <= fs_DetectedAt s) /\ fs_TxHash s ∉ fs_TxHash <$> live | _ => True end /\
      orderly maxAge (waiting_exec maxAge live o) ops
  end.

Definition on_chain (c : Z) (s : FlowSwap) : bool := fs_ChainID s =? c.
Definition in_pool (p : bytes) (s : FlowSwap) : bool := negb (bool_decide (fs_PoolAddress s = zero20)) && bool_decide (fs_PoolAddress s = p).

Record waits_for (maxAge : Z) (pss : PendingSwapSequence) (live : list FlowSwap) : Prop := {
  wf_age : pss_maxAge pss = maxAge;
  wf_chain : forall c, ForChain c pss = List.filter (on_chain c) live;
  wf_pool : forall p, ForPool p pss = List.filter (in_pool p) live;
  wf_sorted : StronglySorted (fun r s => fs_DetectedAt r <= fs_DetectedAt s) live;
  wf_nodup : NoDup (fs_TxHash <$> live);
}.

Lemma removeTx_filter h l : NoDup (fs_TxHash <$> l) -> removeTx h l = List.filter (fun s => negb (bool_decide (fs_TxHash s = h))) l.
Proof.
  induction l as [|s l IH]; intros Hn; [done|]. rewrite fmap_cons in Hn. apply NoDup_cons in Hn as [Hs Hn]. cbn. case_bool_decide as E; cbn; [|by rewrite IH].
  symmetry. rewrite (filter_ext_elem _ (fun _ => true)); [by rewrite List.filter_true|]. intros r Hr. apply negb_true_iff, bool_decide_eq_false. intros Er. apply Hs. rewrite E, <- Er.
  by apply list_elem_of_fmap_2.
Qed.

Lemma filter_comm {A} (f g : A -> bool) l : List.filter f (List.filter g l) = List.filter g (List.filter f l).
Proof. rewrite !filter_filter_and. apply filter_ext_elem. intros x _. apply andb_comm. Qed.

Lemma hashes_filter f l : NoDup (fs_TxHash <$> l) -> NoDup (fs_TxHash <$> List.filter f l).
Proof. intros H. eapply sublist_NoDup; [exact H|]. apply fmap_sublist, filter_sublist. Qed.

(** A change that maps every list of the two indices. *)
Lemma mapped_lookup {K} `{Countable K} (g : list FlowSwap -> list FlowSwap) (m : gmap K (list FlowSwap)) k : g [] = [] -> default [] ((g <$> m) !! k) = g (default [] (m !! k)).
Proof. intros Hg. rewrite lookup_fmap. by destruct (m !! k). Qed.

Lemma waits_exec maxAge pss live o ops : waits_for maxAge pss live -> orderly maxAge live (o :: ops) -> waits_for maxAge (pending_exec pss o) (waiting_exec maxAge live o).
Proof.
  intros [H1 H2 H3 H4 H5] [Ho _]. destruct o as [s|now|h]; cbn [pending_exec waiting_exec].
  - destruct Ho as [Ht Hf]. split; [done|..].
    + intros c. unfold ForChain, pending_Add. cbn [byChain]. rewrite List.filter_app. cbn [List.filter]. unfold on_chain at 2. destruct (Z.eqb_spec (fs_ChainID s) c) as [<-|Hne].
      * rewrite lookup_insert_eq. cbn. f_equal. apply H2.
      * rewrite lookup_insert_ne, app_nil_r by done. apply H2.
    + intros p. unfold ForPool, pending_Add. cbn [byPool]. rewrite List.filter_app. cbn [List.filter]. unfold in_pool at 2. case_bool_decide as Ez; cbn [negb andb]; [rewrite app_nil_r; apply H3|].
      case_bool_decide as Ep; [subst p; rewrite lookup_insert_eq; cbn; f_equal; apply H3|]. rewrite lookup_insert_ne, app_nil_r by done. apply H3.
    + apply (StronglySorted_app (fun r s => fs_DetectedAt r <= fs_DetectedAt s)). split_and!; [|done|by repeat constructor]. intros r s' Hr ->%list_elem_of_singleton. by apply Ht.
    + rewrite fmap_app. apply NoDup_app. split_and!; [done| |apply NoDup_singleton]. intros x Hx ->%list_elem_of_singleton. done.
  - split; [done|..]; [| |by apply sorted_filter|by apply hashes_filter].
    + intros c. unfold ForChain, pending_Prune. cbn [byChain]. rewrite mapped_lookup by done. fold (ForChain c pss). rewrite H2, H1. unfold pruneSwaps.
      rewrite drop_before_filter by (by apply sorted_filter). apply filter_comm.
    + intros p. unfold ForPool, pending_Prune. cbn [byPool]. rewrite mapped_lookup by done. fold (ForPool p pss). rewrite H3, H1. unfold pruneSwaps.
      rewrite drop_before_filter by (by apply sorted_filter). apply filter_comm.
  - split; [done|..]; [| |by apply sorted_filter|by apply hashes_filter].
    + intros c. unfold ForChain, ConfirmTx. cbn [byChain]. rewrite mapped_lookup by done. fold (ForChain c pss). rewrite H2, removeTx_filter by (by apply hashes_filter). apply filter_comm.
    + intros p. unfold ForPool, ConfirmTx. cbn [byPool]. rewrite mapped_lookup by done. fold (ForPool p pss). rewrite H3, removeTx_filter by (by apply hashes_filter). apply filter_comm.
Qed.

(** C40: Along every orderly sequence of additions, prunings and confirmations, the swaps of a chain and those of a pool are the waiting ones on it, in order of arrival:
    those added, not confirmed since, and no older than the limit at the last pruning. *)
Theorem pending_refines maxAge ops :
  orderly maxAge [] ops ->
  let pss := fold_left pending_exec ops (NewPendingSwapSequence maxAge) in
  let live := fold_left (waiting_exec maxAge) ops [] in
  (forall c, ForChain c pss = List.filter (on_chain c) live) /\ (forall p, ForPool p pss = List.filter (in_pool p) live).
Proof.
  intros Ho. assert (K : forall pss live, waits_for maxAge pss live -> orderly maxAge live ops -> waits_for maxAge (fold_left pending_exec ops pss) (fold_left (waiting_exec maxAge) ops live)).
  { clear Ho. induction ops as [|o ops IH]; intros pss live Hw Ho; [done|]. cbn [fold_left]. apply IH; [by eapply waits_exec|apply Ho]. }
  destruct (K (NewPendingSwapSequence maxAge) []) as [_ H2 H3 _ _]; [|done|done]. split; [done|..]; try constructor; intros; unfold ForChain, ForPool; cbn; by rewrite lookup_empty.
Qed.

(** ** Forecasts *)

Definition unpriced (fs : gmap bytes PoolImpactForecast) : Prop :=
  forall pool f, fs !! pool = Some f -> fc_CurrentReserves f = (None, None) /\ fc_PredictedPrice f = None.

Lemma update_unpriced now swap e : unpriced (fe_forecasts e) -> exists e', updatePoolForecast now swap e = Done e' /\ unpriced (fe_forecasts e').
Proof.
  intros U. unfold updatePoolForecast. case_bool_decide; [by exists e|]. set (f := default _ _).
  assert (K : fc_CurrentReserves f = (None, None) /\ fc_PredictedPrice f = None) by (unfold f; destruct (fe_forecasts e !! fs_PoolAddress swap) eqn:E; [by eapply U|done]).
  destruct K as [K1 K2]. unfold predicted_price. rewrite K1, K2. cbn [outcome_bind]. eexists. split; [reflexivity|]. intros pool g. cbn.
  destruct (decide (fs_PoolAddress swap = pool)) as [<-|]; [rewrite lookup_insert_eq; by intros [= <-]|rewrite lookup_insert_ne by done; apply U].
Qed.

Lemma handle_swap_unpriced parked rd chainID swap e : unpriced (fe_forecasts e) -> exists e', handle_swap parked rd chainID swap e = Done e' /\ unpriced (fe_forecasts e').
Proof.
  intros U. unfold handle_swap. destruct (update_unpriced (r_now rd) swap (with_pss (pending_Add swap (fe_pending e)) e) U) as (e1 & -> & U1). cbn [outcome_bind].
  case_bool_decide; [by exists e1|]. eexists. split; [reflexivity|]. assert (U2 : unpriced (fe_forecasts (checkPoolImpactSignal parked rd (fs_PoolAddress swap) chainID e1))) by (unfold checkPoolImpactSignal; by repeat case_match).
  by case_match.
Qed.

Fixpoint handle_swaps (parked : nat -> bool) (l : list (Reading * Z * FlowSwap)) (e : FlowPressureEngine) : outcome FlowPressureEngine :=
  match l with
  | [] => Done e
  | (rd, chainID, swap) :: l => let! e := handle_swap parked rd chainID swap e in handle_swaps parked l e
  end.

(** Whatever swaps the engine is given, whichever pools they name, no forecast ever has a predicted price: it is computed from reserves that nothing sets. *)
Theorem forecast_never_priced parked parser qs config l :
  exists e, handle_swaps parked l (NewFlowPressureEngine parser qs config) = Done e /\ forall pool f, GetPoolForecast pool e = Some f -> fc_PredictedPrice f = None.
Proof.
  assert (K : forall e, unpriced (fe_forecasts e) -> exists e', handle_swaps parked l e = Done e' /\ unpriced (fe_forecasts e')).
  { induction l as [|[[rd c] s] l IH]; intros e U; [by exists e|]. cbn. destruct (handle_swap_unpriced parked rd c s e U) as (e1 & -> & U1). by apply IH. }
  destruct (K (NewFlowPressureEngine parser qs config)) as (e & He & U); [intros pool f; cbn; by rewrite lookup_empty|]. exists e. split; [done|]. intros pool f Hf. by apply (U pool).
Qed.

(** ** What the engine can see *)

Definition pressure_signal (s : FlowSignal) : Prop := sg_Type s = SignalPressureSpike \/ sg_Type s = SignalPressureGradient \/ sg_Type s = SignalCoherenceDrift.

Record blind (e : FlowPressureEngine) : Prop := {
  bl_forecasts : fe_forecasts e = ∅;
  bl_pools : byPool (fe_pending e) = ∅;
  bl_signals : Forall (fun c => Forall pressure_signal (sc_buf c)) (fe_subs e);
}.

Lemma blind_with e e' : blind e -> fe_forecasts e' = fe_forecasts e -> byPool (fe_pending e') = byPool (fe_pending e) -> fe_subs e' = fe_subs e -> blind e'.
Proof. intros [H1 H2 H3] E1 E2 E3. split; congruence. Qed.

Lemma blind_emit parked s e : pressure_signal s -> blind e -> blind (emitSignal parked s e).
Proof.
  intros Hs [H1 H2 H3]. split; [done|done|]. cbn [fe_subs emitSignal with_subs with_flow]. rewrite Forall_forall in *. intros c (i & x & -> & Hx)%elem_of_lookup_imap_1.
  apply list_elem_of_lookup_2, H3 in Hx. unfold offer. case_match; [|done]. cbn. apply Forall_app. split; [done|by constructor].
Qed.

Lemma blind_swap parked rd chainID d e e' : blind e -> handle_swap parked rd chainID (parsed d) e = Done e' -> blind e'.
Proof.
  intros B. unfold handle_swap, updatePoolForecast, parsed. cbn [fs_PoolAddress]. rewrite !bool_decide_eq_true_2 by done. cbn. intros [= <-]. eapply blind_with; [exact B|done| |done].
  cbn. by rewrite bool_decide_eq_true_2.
Qed.

Lemma blind_txs parked rd chainID txs e e' : blind e -> handleFullTxs parked rd chainID txs e = Done e' -> blind e'.
Proof.
  revert e. induction txs as [|tx txs IH]; intros e B; cbn; [by intros [= <-]|]. destruct (fe_parser e) as [mp|]; [|by intros [= <-]].
  destruct (ParseTransaction mp chainID tx (r_now rd)) as [[mp' od]| |]; cbn; [|done..].
  assert (B1 : blind (with_parser (Some mp') e)) by (by eapply blind_with; [exact B|..]). destruct od as [d|]; [|by apply IH].
  destruct (handle_swap _ _ _ _ _) as [e1| |] eqn:E; cbn; [|done..]. apply IH. by eapply blind_swap.
Qed.

Lemma blind_event parked rd walk ev e e' : blind e -> on_event parked rd walk ev e = Done e' -> blind e'.
Proof.
  intros B. unfold on_event. destruct (match ev_Type ev with EventTxFull => _ | _ => _ end) as [e1| |] eqn:E1; cbn [outcome_bind]; [|done..].
  assert (Hb : forall x, blind x -> blind (handleBlock rd (ev_ChainID ev) x)) by (intros x Hx; unfold handleBlock; destruct (fe_qs x); [by eapply blind_with; [exact Hx|..]|done]).
  assert (B1 : blind e1) by (destruct (ev_Type ev); simplify_eq/=; [done|by eapply blind_txs|done|by apply Hb|destruct (ev_L2Block ev); [by apply Hb|done]|done|done]). clear E1.
  assert (B2 : blind (samplePressure parked rd e1)).
  { unfold samplePressure. set (e2 := with_history _ _). assert (blind e2) by (by eapply blind_with; [exact B1|..]). case_match; [|done]. apply blind_emit; [by left|done]. }
  assert (B3 : blind (checkGradientSignals parked rd (samplePressure parked rd e1))) by (unfold checkGradientSignals at 1; case_match; [|done]; apply blind_emit; [by right; left|done]).
  set (e3 := checkGradientSignals _ _ _) in *. intros [= <-]. case_match; [|by eapply blind_with; [exact B3|..]].
  assert (B4 : blind (checkCoherenceDrift parked rd walk e3)).
  { unfold checkCoherenceDrift. cbv zeta. destruct (_ <? 2)%nat; [done|]. set (e4 := with_coherence _ _). assert (blind e4) by (by eapply blind_with; [exact B3|..]). destruct (existsb _ _); [|done].
    apply blind_emit; [by right; right|done]. }
  eapply blind_with; [exact B4|done| |done]. cbn. destruct B4 as [_ -> _]. by rewrite fmap_empty.
Qed.

Inductive engine_op :=
| EEvent (parked : nat -> bool) (rd : Reading) (walk : list Z) (ev : @NetworkEvent Tx)
| ESubscribe (bufSize : nat)
| ETake (i : nat)
| EStart
| EStop.

(** [ETake]: a subscriber receives its next signal. *)
Definition engine_exec (e : FlowPressureEngine) (o : engine_op) : outcome FlowPressureEngine :=
  match o with
  | EEvent parked rd walk ev => on_event parked rd walk ev e
  | ESubscribe bufSize => Done (engine_Subscribe bufSize e)
  | ETake i => Done (with_subs (alter (fun c => mkSignalChan (sc_cap c) (tail (sc_buf c))) i (fe_subs e)) e)
  | EStart => Done (engine_Start e)
  | EStop => engine_Stop e
  end.

Fixpoint engine_runs (e : FlowPressureEngine) (ops : list engine_op) : outcome FlowPressureEngine :=
  match ops with [] => Done e | o :: ops => let! e := engine_exec e o in engine_runs e ops end.

Lemma blind_exec e o e' : blind e -> engine_exec e o = Done e' -> blind e'.
Proof.
  intros B. destruct o as [parked rd walk ev|n|i| |]; cbn.
  - by apply blind_event.
  - intros [= <-]. destruct B as [H1 H2 H3]. split; [done|done|]. cbn. apply Forall_app. split; [done|by repeat constructor].
  - intros [= <-]. destruct B as [H1 H2 H3]. split; [done|done|]. cbn. apply Forall_alter; [done|]. intros c Hc Hf. cbn. destruct (sc_buf c); [done|]. by inversion Hf.
  - intros [= <-]. unfold engine_Start. case_match; [done|]. by eapply blind_with; [exact B|..].
  - unfold engine_Stop. repeat case_match; intros [= <-]; [done|]. destruct B as [H1 H2 H3]. split; [done|done|constructor].
Qed.

(** Fed by its parser, the engine never sees a pool: the parser leaves the pool of a swap empty, so whatever happens there is no forecast and no pending
    swap of a pool, and every signal that waits for a subscriber is about pressure or coherence. *)
Theorem engine_blind parser qs config ops e :
  engine_runs (NewFlowPressureEngine parser qs config) ops = Done e ->
  (forall pool, GetPoolForecast pool e = None) /\ (forall pool, ForPool pool (fe_pending e) = []) /\
  forall c s, c ∈ fe_subs e -> s ∈ sc_buf c -> sg_Type s = SignalPressureSpike \/ sg_Type s = SignalPressureGradient \/ sg_Type s = SignalCoherenceDrift.
Proof.
  intros R. assert (B : blind e).
  { assert (B0 : blind (NewFlowPressureEngine parser qs config)) by (by split). revert B0 R. generalize (NewFlowPressureEngine parser qs config). induction ops as [|o ops IH]; intros e0 B0; cbn.
    - by intros [= <-].
    - destruct (engine_exec e0 o) as [e1| |] eqn:E1; cbn; [|done..]. apply IH. by eapply blind_exec. }
  destruct B as [H1 H2 H3]. split_and!.
  - intros pool. unfold GetPoolForecast. rewrite H1. apply lookup_empty.
  - intros pool. unfold ForPool. by rewrite H2, lookup_empty.
  - intros c s Hc Hs. rewrite Forall_forall in H3. specialize (H3 c Hc). rewrite Forall_forall in H3. by apply H3.
Qed.

(** ** Concrete runs *)

Definition toy_swap_tx : Tx :=
  {| tx_Hash := be_bytes 32 3; tx_To := Some (HexToAddress "7a250d5630B4cF539739dF2C5dAcb4c659F2488D");
     tx_Data := buildV2SwapCalldata 1000 (be_bytes 20 5) (be_bytes 20 6) (be_bytes 20 7) 99; tx_From := zero20; tx_GasPrice := 0; tx_Gas := 0; tx_Nonce := 0 |}.

Definition toy_pressure : PressureMetrics := mkMetrics (f_ratio 9 10) (f_ratio 1 2) f0 f0.

Definition toy_full (now : Z) (txs : list Tx) : engine_op :=
  EEvent (fun _ => false) (mkReading now toy_pressure f1) [] (mkEvent EventTxFull 1 now [] txs [] None zero32 0 None EmptyString 0).

(** Two swaps through a known router are parsed and wait on their chain; the spikes of pressure are signalled. *)
Definition toy_ops : list engine_op := [EStart; ESubscribe 8; toy_full 0 [toy_swap_tx]; toy_full 1000 [toy_swap_tx]].

Definition toy_engine : FlowPressureEngine :=
  match engine_runs (NewFlowPressureEngine (Some NewMempoolParser) true None) toy_ops with Done e => e | _ => NewFlowPressureEngine None true None end.

Lemma engine_blind_witness :
  length (ForChain 1 (fe_pending toy_engine)) = 2%nat /\ (length (sc_buf <$> fe_subs toy_engine)) = 1%nat /\ (forall pool, GetPoolForecast pool toy_engine = None).
Proof.
  split; [vm_compute; reflexivity|]. split; [vm_compute; reflexivity|].
  apply (engine_blind (Some NewMempoolParser) true None toy_ops toy_engine). vm_compute. reflexivity.
Defined.

Lemma samples_window_witness :
  ts_samples (fold_left (fun ts s => series_Add s ts) ([mkSample 1 toy_pressure f0; mkSample 5 toy_pressure f0] ++ [mkSample 8 toy_pressure f0]) (NewPressureTimeSeries 4)) =
    [mkSample 5 toy_pressure f0; mkSample 8 toy_pressure f0].
Proof.
  rewrite (samples_window 4 [mkSample 1 toy_pressure f0; mkSample 5 toy_pressure f0] (mkSample 8 toy_pressure f0)); [reflexivity|]. repeat constructor; unfold by_stamp; cbn; lia.
Defined.

(** A transaction with crafted calldata crashes the engine. *)
Example crafted_tx_crashes_engine : engine_runs (NewFlowPressureEngine (Some NewMempoolParser) true None) [EStart; toy_full 0 [crash_tx]] = Panic "slice bounds out of range".
Proof. vm_compute. reflexivity. Qed.

Definition toy_pending (hash chain at_ : Z) (pool : bytes) : FlowSwap :=
  mkFlowSwap {| det_swap := found zero20 zero20 None None;
                det_tx := {| tx_Hash := be_bytes 32 hash; tx_To := None; tx_Data := []; tx_From := zero20; tx_GasPrice := 0; tx_Gas := 0; tx_Nonce := 0 |};
                det_chain := chain; det_router := EmptyString; det_at := at_ |} f0 pool.

Definition toy_pending_ops : list pending_op :=
  [PAdd (toy_pending 1 1 0 (be_bytes 20 9)); PAdd (toy_pending 2 1 5 (be_bytes 20 9)); PAdd (toy_pending 3 1 6 zero20); PConfirm (be_bytes 32 3); PPrune 10].

(** Of three swaps on a chain, one is outdated and one confirmed. *)
Lemma pending_refines_witness :
  let pss := fold_left pending_exec toy_pending_ops (NewPendingSwapSequence 7) in
  ForChain 1 pss = [toy_pending 2 1 5 (be_bytes 20 9)] /\ ForPool (be_bytes 20 9) pss = [toy_pending 2 1 5 (be_bytes 20 9)].
Proof.
  destruct (pending_refines 7 toy_pending_ops) as [H1 H2].
  - repeat split; try (intros r Hr; repeat (apply elem_of_cons in Hr as [->|Hr]; [cbn; lia|]); by apply not_elem_of_nil in Hr); apply (bool_decide_unpack _); vm_compute; exact I.
  - split; [exact (H1 1)|exact (H2 (be_bytes 20 9))].
Defined.
