(* ===== verification/Strategies.v ===== *)
(** * The strategies and the orchestrator ([arb/strategy.go], [arb/strategy_arb.go], [arb/strategy_backrun.go],
      [arb/strategy_liquidation.go], [arb/strategy_crosschain.go], [arb/orchestrator.go])

    Contents: what a strategy sees and what it emits, the four strategies behind one interface, and the
    orchestrator that hands the signals of the flow engine ([FlowEngine]) to them and their intents to the planner
    ([Planner]).

    A strategy sees a [View]: the signal, the state of the engine, what the price feed returned, the clock, and
    the orders in which the maps are walked.  A forecast that a signal carries is an object of the
    engine and is read from its state.

    The theorems: what the four strategies emit keeps the promise that the planner relies on
    ([StrategyLaws] and its instances), so the orchestrator never panics and its planner stays consistent
    ([orchestrator_sound]); as the engine never sees a pool, the only intents are those of the
    cross-chain strategy on a drift of coherence ([only_cross_chain_trades]), and two strategies would stay idle even with pools
    ([unpriced_strategies_idle]).  The enabled chains of two strategies are not respected
    ([arb_ignores_chains], [liquidation_ignores_chains]); one drifting chain without a spread hides the others ([drift_first_only]);
    a spread within one chain is taken for a cross-chain one ([cross_chain_on_one_chain]); a restarted orchestrator
    cannot be stopped ([orchestrator_restart_panics]). *)

From Stdlib Require Import String SpecFloat.
From S2P Require Import Prelude Json Signing Float64 Heap Queue Planner Swaps Prices Detector Pathways River FlowEngine.

(** ** Intents *)

Inductive StrategyType := StrategyArbitrage | StrategyLiquidation | StrategyBackrun | StrategyCrossChainMEV.

Definition strategy_String (st : StrategyType) : string :=
  match st with
  | StrategyArbitrage => "arbitrage" | StrategyLiquidation => "liquidation" | StrategyBackrun => "backrun" | StrategyCrossChainMEV => "crosschain_mev"
  end.

Definition OpTypeSameChainDEX : Z := 0.
Definition OpTypeCrossChainSame : Z := 1.
Definition OpTypeFlashblockFront : Z := 3.

(** The fields of an intent and of its opportunity that strategies set; [ti_intent] is what the planner reads. *)
Record StrategyIntent := mkStrategyIntent {
  ti_intent : ExecutionIntent; ti_Strategy : StrategyType; ti_Type : Z; ti_BuyChain : Z; ti_SellChain : Z; ti_IsCrossChain : bool;
  ti_FlowConfidence : float64; ti_SignalSource : FlowSignalType; ti_FlashblockPrediction : option PoolImpactForecast; ti_TargetChainID : Z; ti_TargetPools : list bytes;
  ti_PressureAtEmit : PressureGradient;
}.

(** [v_spreads]: the values of [GetAllSpreads] in the order of the walk, [None] without a price feed; [v_pools] and
    [v_chains]: the orders of the walks over the forecasts and over the coherence of the signal. *)
Record View := mkView {
  v_now : Z; v_spreads : option (list SpreadInfo); v_pools : list bytes; v_chains : list Z; v_signal : FlowSignal; v_state : FlowState;
}.

(** The interface of a strategy. *)
Record Strategy := mkStrategy { strategy_Type : StrategyType; strategy_Name : string; OnSignal : View -> option StrategyIntent }.

Section strategies.
Context {C : Crypto}.

(** [ComputeID] of an opportunity without a path and an amount. *)
Definition pathless_id (ty buyChain sellChain detectedAt : Z) : bytes :=
  Keccak256 [low_byte ty; low_byte buyChain; low_byte sellChain; low_byte (Z.shiftr (i64 detectedAt) 32)].

Definition make_intent (v : View) (st : StrategyType) (ty buyChain sellChain spreadBPS : Z) (cross : bool) (earliest latest : Z) (confidence : float64)
    (target : Z) (pools : list bytes) (validate : bool) (prediction : option PoolImpactForecast) : StrategyIntent :=
  let id := pathless_id ty buyChain sellChain (v_now v) in
  mkStrategyIntent
    {| intent_ID := id;
       Planner.Opportunity := Some {| opp_ID := id; Priority := 0; SpreadBPS := spreadBPS; DetectedAt := v_now v; ExpiresAt := latest |};
       EarliestBlock := 0; LatestBlock := 0; EarliestTime := Some earliest; LatestTime := Some latest; NeedsFlashblockValidation := validate |}
    st ty buyChain sellChain cross confidence (sg_Type (v_signal v)) prediction target pools (st_Gradient (v_state v)).

Definition clampFloat (v min max : float64) : float64 := if fltb v min then min else if fltb max v then max else v.

Definition generateIntentID (ty : Z) (pool : bytes) (chainID nanos : Z) : bytes :=
  Keccak256 (low_byte ty :: pool ++ [low_byte (Z.shiftr chainID 8); low_byte chainID; low_byte (Z.shiftr (i64 nanos) 32)]).

(** The forecasts of the signal, in the order of its map. *)
Definition impacts (v : View) : list (bytes * PoolImpactForecast) := omap (fun p => pair p <$> st_PoolForecasts (v_state v) !! p) (sg_PoolImpacts (v_signal v)).

(** The forecasts of the state, in the order of the walk. *)
Definition state_forecasts (v : View) : list (bytes * PoolImpactForecast) := omap (fun p => pair p <$> st_PoolForecasts (v_state v) !! p) (v_pools v).

(** The first pool of the signal with its forecast. *)
Definition first_pool (v : View) : option (bytes * PoolImpactForecast) :=
  match sg_AffectedPools (v_signal v) with p :: _ => pair p <$> st_PoolForecasts (v_state v) !! p | [] => None end.

(** The loops that return the first intent that is not nil. *)
Fixpoint first_some {A B} (f : A -> option B) (l : list A) : option B :=
  match l with [] => None | x :: t => match f x with Some y => Some y | None => first_some f t end end.

Definition impact_below (f : PoolImpactForecast) (limit : float64) : bool := fltb (fc_CumulativeImpactBPS f) limit.
Definition priced (f : PoolImpactForecast) : bool := bool_decide (is_Some (fc_PredictedPrice f)).
Definition gradientScore (st : FlowState) : float64 := if IsAccelerating (st_Gradient st) then clampFloat (DPressureDt (st_Gradient st)) f0 f1 else f0.
Definition chain_in (l : list Z) (c : Z) : bool := existsb (Z.eqb c) l.

(** ** Arbitrage *)

Record ArbStrategyConfig := mkArbConfig {
  ac_MinSpreadBPS : float64; ac_MinFlowConfidence : float64; ac_ExecutionWindowDuration : Z; ac_MinPoolImpactBPS : float64; ac_EnabledChains : list Z;
  ac_UseFlashblockValidation : bool;
}.

Definition DefaultArbStrategyConfig : ArbStrategyConfig :=
  mkArbConfig (f_of_Z 10) (f_ratio 3 10) (4 * 10 ^ 9) (f_of_Z 20) [1; 8453; 10; 42161; 7777777; 34443] true.

Definition computeFlowConfidence (st : FlowState) : float64 :=
  fadd (fadd (fmul (f_ratio 4 10) (gradientScore st)) (fmul (f_ratio 35 100) (m_PauliX (st_Pressure st))))
    (fmul (f_ratio 25 100) (clampFloat (fdiv (st_FlowRate st) (f_of_Z 50)) f0 f1)).

Definition better_spread (cfg : ArbStrategyConfig) (f : PoolImpactForecast) (best : option SpreadInfo) (s : SpreadInfo) : option SpreadInfo :=
  if si_SpreadBPS s <? f_to_i64 (ac_MinSpreadBPS cfg) then best
  else if (si_BuyChain s =? fc_ChainID f) || (si_SellChain s =? fc_ChainID f) then
    match best with None => Some s | Some b => if si_SpreadBPS b <? si_SpreadBPS s then Some s else best end
  else best.

Definition findSpreadOpportunity (cfg : ArbStrategyConfig) (spreads : list SpreadInfo) (v : View) (pool : bytes) (f : PoolImpactForecast) : option StrategyIntent :=
  match fold_left (better_spread cfg f) spreads None with
  | None => None
  | Some b =>
      let confidence := computeFlowConfidence (v_state v) in
      if fltb confidence (ac_MinFlowConfidence cfg) then None
      else
        let latest := v_now v + ac_ExecutionWindowDuration cfg in
        let validate := ac_UseFlashblockValidation cfg && (fc_ChainID f =? 8453) in
        Some (make_intent v StrategyArbitrage OpTypeCrossChainSame (si_BuyChain b) (si_SellChain b) (si_SpreadBPS b) (negb (si_BuyChain b =? si_SellChain b))
                (v_now v) latest confidence (si_BuyChain b) [pool] validate (if validate then Some f else None))
  end.

Definition arb_try (cfg : ArbStrategyConfig) (spreads : list SpreadInfo) (v : View) (pf : bytes * PoolImpactForecast) : option StrategyIntent :=
  if impact_below pf.2 (ac_MinPoolImpactBPS cfg) || negb (priced pf.2) then None else findSpreadOpportunity cfg spreads v pf.1 pf.2.

Definition arb_onPoolImpact (cfg : ArbStrategyConfig) (v : View) : option StrategyIntent :=
  match v_spreads v with None => None | Some spreads => first_some (arb_try cfg spreads v) (impacts v) end.

Definition arb_onPressureSpike (cfg : ArbStrategyConfig) (v : View) : option StrategyIntent :=
  match v_spreads v with None => None | Some spreads => first_some (arb_try cfg spreads v) (state_forecasts v) end.

Definition arb_onSwapSequence (cfg : ArbStrategyConfig) (v : View) : option StrategyIntent :=
  match v_spreads v, first_pool v with
  | Some spreads, Some (pool, f) =>
      if negb (priced f) then None
      else if impact_below f (fmul (ac_MinPoolImpactBPS cfg) (f_ratio 3 2)) then None else findSpreadOpportunity cfg spreads v pool f
  | _, _ => None
  end.

Definition arb_OnSignal (cfg : ArbStrategyConfig) (v : View) : option StrategyIntent :=
  match sg_Type (v_signal v) with
  | SignalPoolImpact => arb_onPoolImpact cfg v
  | SignalPressureSpike => arb_onPressureSpike cfg v
  | SignalSwapSequence => arb_onSwapSequence cfg v
  | _ => None
  end.

Definition NewArbStrategy (config : option ArbStrategyConfig) : Strategy :=
  mkStrategy StrategyArbitrage "flow_arbitrage" (arb_OnSignal (default DefaultArbStrategyConfig config)).

(** ** Backrun *)

Record BackrunStrategyConfig := mkBackrunConfig {
  bc_MinPoolImpactBPS : float64; bc_MinFlowConfidence : float64; bc_PostSettleDelay : Z; bc_ExecutionWindowDuration : Z; bc_EnabledChains : list Z;
}.

Definition DefaultBackrunStrategyConfig : BackrunStrategyConfig :=
  mkBackrunConfig (f_of_Z 25) (f_ratio 3 10) (2 * 10 ^ 9) (6 * 10 ^ 9) [1; 8453; 10; 42161; 7777777; 34443].

Definition backrun_confidence (st : FlowState) (f : PoolImpactForecast) : float64 :=
  fadd (fadd (fmul (f_ratio 35 100) (clampFloat (fdiv (fc_CumulativeImpactBPS f) (f_of_Z 80)) f0 f1)) (fmul (f_ratio 4 10) (fc_Confidence f)))
    (fmul (f_ratio 25 100) (gradientScore st)).

(** [shift] replaces the earliest time when it is given. *)
Definition buildBackrunIntent (cfg : BackrunStrategyConfig) (v : View) (shift : option Z) (pool : bytes) (f : PoolImpactForecast) : option StrategyIntent :=
  let confidence := backrun_confidence (v_state v) f in
  if fltb confidence (bc_MinFlowConfidence cfg) then None
  else
    let earliest := v_now v + bc_PostSettleDelay cfg in
    let latest := earliest + bc_ExecutionWindowDuration cfg in
    let earliest := match shift with Some d => v_now v + d | None => earliest end in
    let base := fc_ChainID f =? 8453 in
    Some (make_intent v StrategyBackrun OpTypeSameChainDEX (fc_ChainID f) (fc_ChainID f) (f_to_i64 (fc_CumulativeImpactBPS f)) false earliest latest confidence
            (fc_ChainID f) [pool] base (if base then Some f else None)).

Definition backrun_onSwapSequence (cfg : BackrunStrategyConfig) (v : View) : option StrategyIntent :=
  match first_pool v with
  | Some (pool, f) =>
      if negb (priced f) then None else if impact_below f (bc_MinPoolImpactBPS cfg) then None
      else if negb (chain_in (bc_EnabledChains cfg) (fc_ChainID f)) then None else buildBackrunIntent cfg v None pool f
  | None => None
  end.

Definition backrun_try (cfg : BackrunStrategyConfig) (v : View) (pf : bytes * PoolImpactForecast) : option StrategyIntent :=
  if impact_below pf.2 (bc_MinPoolImpactBPS cfg) || negb (priced pf.2) || negb (chain_in (bc_EnabledChains cfg) (fc_ChainID pf.2)) then None
  else buildBackrunIntent cfg v None pf.1 pf.2.

Definition backrun_onPoolImpact (cfg : BackrunStrategyConfig) (v : View) : option StrategyIntent := first_some (backrun_try cfg v) (impacts v).

Definition backrun_confirm (cfg : BackrunStrategyConfig) (v : View) (pf : bytes * PoolImpactForecast) : option StrategyIntent :=
  if impact_below pf.2 (bc_MinPoolImpactBPS cfg) || negb (fc_ChainID pf.2 =? 8453) then None else buildBackrunIntent cfg v (Some (200 * 10 ^ 6)) pf.1 pf.2.

Definition backrun_onFlashblockConfirm (cfg : BackrunStrategyConfig) (v : View) : option StrategyIntent := first_some (backrun_confirm cfg v) (state_forecasts v).

Definition backrun_OnSignal (cfg : BackrunStrategyConfig) (v : View) : option StrategyIntent :=
  match sg_Type (v_signal v) with
  | SignalSwapSequence => backrun_onSwapSequence cfg v
  | SignalPoolImpact => backrun_onPoolImpact cfg v
  | SignalFlashblockConfirm => backrun_onFlashblockConfirm cfg v
  | _ => None
  end.

Definition NewBackrunStrategy (config : option BackrunStrategyConfig) : Strategy :=
  mkStrategy StrategyBackrun "backrun" (backrun_OnSignal (default DefaultBackrunStrategyConfig config)).

(** ** Liquidation *)

Record LiquidationStrategyConfig := mkLiquidationConfig {
  lc_MinPoolImpactBPS : float64; lc_MinProfitBPS : float64; lc_MinFlowConfidence : float64; lc_ExecutionWindowDuration : Z; lc_EnabledChains : list Z;
  lc_OracleHeartbeatByChain : list (Z * Z);
}.

Definition DefaultLiquidationStrategyConfig : LiquidationStrategyConfig :=
  mkLiquidationConfig (f_of_Z 30) (f_of_Z 50) (f_ratio 35 100) (6 * 10 ^ 9) [1; 8453; 10; 42161]
    [(1, 3600 * 10 ^ 9); (8453, 1200 * 10 ^ 9); (10, 1200 * 10 ^ 9); (42161, 1200 * 10 ^ 9)].

Definition liquidation_confidence (st : FlowState) (f : PoolImpactForecast) : float64 :=
  fadd (fadd (fmul (f_ratio 4 10) (clampFloat (fdiv (fc_CumulativeImpactBPS f) (f_of_Z 100)) f0 f1)) (fmul (f_ratio 3 10) (fc_Confidence f)))
    (fmul (f_ratio 3 10) (gradientScore st)).

Definition checkLiquidationOpportunity (cfg : LiquidationStrategyConfig) (v : View) (pool : bytes) (f : PoolImpactForecast) : option StrategyIntent :=
  let confidence := liquidation_confidence (v_state v) f in
  if fltb confidence (lc_MinFlowConfidence cfg) then None
  else
    let base := fc_ChainID f =? 8453 in
    Some (make_intent v StrategyLiquidation OpTypeFlashblockFront (fc_ChainID f) (fc_ChainID f) (f_to_i64 (fc_CumulativeImpactBPS f)) false (v_now v)
            (v_now v + lc_ExecutionWindowDuration cfg) confidence (fc_ChainID f) [pool] base (if base then Some f else None)).

Definition liquidation_try (cfg : LiquidationStrategyConfig) (v : View) (pf : bytes * PoolImpactForecast) : option StrategyIntent :=
  if impact_below pf.2 (lc_MinPoolImpactBPS cfg) || negb (chain_in (lc_EnabledChains cfg) (fc_ChainID pf.2)) then None
  else checkLiquidationOpportunity cfg v pf.1 pf.2.

Definition liquidation_onPoolImpact (cfg : LiquidationStrategyConfig) (v : View) : option StrategyIntent := first_some (liquidation_try cfg v) (impacts v).
Definition liquidation_onPressureSpike (cfg : LiquidationStrategyConfig) (v : View) : option StrategyIntent := first_some (liquidation_try cfg v) (state_forecasts v).

Definition liquidation_onSwapSequence (cfg : LiquidationStrategyConfig) (v : View) : option StrategyIntent :=
  match first_pool v with
  | Some (pool, f) => if impact_below f (fmul (lc_MinPoolImpactBPS cfg) (f_ratio 3 2)) then None else checkLiquidationOpportunity cfg v pool f
  | None => None
  end.

Definition liquidation_OnSignal (cfg : LiquidationStrategyConfig) (v : View) : option StrategyIntent :=
  match sg_Type (v_signal v) with
  | SignalPoolImpact => liquidation_onPoolImpact cfg v
  | SignalSwapSequence => liquidation_onSwapSequence cfg v
  | SignalPressureSpike => liquidation_onPressureSpike cfg v
  | _ => None
  end.

Definition NewLiquidationStrategy (config : option LiquidationStrategyConfig) : Strategy :=
  mkStrategy StrategyLiquidation "liquidation" (liquidation_OnSignal (default DefaultLiquidationStrategyConfig config)).

(** ** Cross-chain *)

Record CrossChainStrategyConfig := mkCrossConfig {
  xc_MinCoherenceDrift : float64; xc_MinCrossChainSpreadBPS : float64; xc_MinFlowConfidence : float64; xc_ExecutionWindowDuration : Z; xc_SourceChains : list Z;
  xc_TargetChains : list Z;
}.

Definition DefaultCrossChainStrategyConfig : CrossChainStrategyConfig :=
  mkCrossConfig (f_ratio 15 100) (f_of_Z 15) (f_ratio 25 100) (3 * 10 ^ 9) [1; 8453; 42161] [8453; 10; 42161; 7777777; 34443].

Definition cross_confidence (st : FlowState) : float64 :=
  fadd (fadd (fmul (f_ratio 25 100) (gradientScore st)) (fmul (f_ratio 1 2) (clampFloat (fsub f1 (m_PauliX (st_Pressure st))) f0 f1)))
    (fmul (f_ratio 25 100) (clampFloat (fdiv (st_FlowRate st) (f_of_Z 50)) f0 f1)).

Definition cross_buildIntent (cfg : CrossChainStrategyConfig) (v : View) (buyChain sellChain spreadBPS : Z) (confidence : float64) : StrategyIntent :=
  make_intent v StrategyCrossChainMEV OpTypeCrossChainSame buyChain sellChain spreadBPS true (v_now v) (v_now v + xc_ExecutionWindowDuration cfg) confidence buyChain []
    (buyChain =? 8453) None.

(** The first spread that is wide enough and passes [fits] decides. *)
Definition cross_first (cfg : CrossChainStrategyConfig) (fits : SpreadInfo -> bool) (spreads : list SpreadInfo) (v : View) : option StrategyIntent :=
  match List.find (fun s => negb (si_SpreadBPS s <? f_to_i64 (xc_MinCrossChainSpreadBPS cfg)) && fits s) spreads with
  | None => None
  | Some s =>
      let confidence := cross_confidence (v_state v) in
      if fltb confidence (xc_MinFlowConfidence cfg) then None else Some (cross_buildIntent cfg v (si_BuyChain s) (si_SellChain s) (si_SpreadBPS s) confidence)
  end.

Definition findCrossChainSpread (cfg : CrossChainStrategyConfig) (spreads : list SpreadInfo) (v : View) (staleChain : Z) : option StrategyIntent :=
  cross_first cfg (fun s => si_BuyChain s =? staleChain) spreads v.

Definition buildCrossChainIntent (cfg : CrossChainStrategyConfig) (spreads : list SpreadInfo) (v : View) (sourceChain targetChain : Z) : option StrategyIntent :=
  cross_first cfg (fun s => ((si_BuyChain s =? targetChain) && (si_SellChain s =? sourceChain)) || ((si_BuyChain s =? sourceChain) && (si_SellChain s =? targetChain))) spreads v.

(** The first chain that drifted and is a target decides. *)
Definition drifted (cfg : CrossChainStrategyConfig) (v : View) (c : Z) : bool :=
  match sg_ChainCoherence (v_signal v) !! c with
  | Some coherence => negb (fltb (fsub f1 coherence) (xc_MinCoherenceDrift cfg)) && chain_in (xc_TargetChains cfg) c
  | None => false
  end.

Definition onCoherenceDrift (cfg : CrossChainStrategyConfig) (v : View) : option StrategyIntent :=
  match v_spreads v with
  | None => None
  | Some spreads => match List.find (drifted cfg v) (v_chains v) with Some c => findCrossChainSpread cfg spreads v c | None => None end
  end.

(** The loop over the target chains. *)
Definition cross_targets (cfg : CrossChainStrategyConfig) (spreads : list SpreadInfo) (v : View) (source : Z) : option StrategyIntent :=
  first_some (fun t => if t =? source then None else buildCrossChainIntent cfg spreads v source t) (xc_TargetChains cfg).

Definition cross_onPoolImpact (cfg : CrossChainStrategyConfig) (v : View) : option StrategyIntent :=
  match v_spreads v with
  | None => None
  | Some spreads =>
      first_some (fun pf : bytes * PoolImpactForecast =>
        if impact_below pf.2 (xc_MinCrossChainSpreadBPS cfg) || negb (chain_in (xc_SourceChains cfg) (fc_ChainID pf.2)) then None
        else cross_targets cfg spreads v (fc_ChainID pf.2)) (impacts v)
  end.

Definition cross_onSwapSequence (cfg : CrossChainStrategyConfig) (v : View) : option StrategyIntent :=
  match v_spreads v, first_pool v with
  | Some spreads, Some (_, f) =>
      if negb (priced f) then None else if negb (chain_in (xc_SourceChains cfg) (fc_ChainID f)) then None
      else if impact_below f (fmul (xc_MinCrossChainSpreadBPS cfg) (f_of_Z 2)) then None else cross_targets cfg spreads v (fc_ChainID f)
  | _, _ => None
  end.

Definition cross_OnSignal (cfg : CrossChainStrategyConfig) (v : View) : option StrategyIntent :=
  match sg_Type (v_signal v) with
  | SignalCoherenceDrift => onCoherenceDrift cfg v
  | SignalPoolImpact => cross_onPoolImpact cfg v
  | SignalSwapSequence => cross_onSwapSequence cfg v
  | _ => None
  end.

Definition NewCrossChainStrategy (config : option CrossChainStrategyConfig) : Strategy :=
  mkStrategy StrategyCrossChainMEV "cross_chain_mev" (cross_OnSignal (default DefaultCrossChainStrategyConfig config)).
End strategies.

(** ** The orchestrator *)

(** A goroutine of [runStrategy]: its strategy, its channel, and its count of signals. *)
Record Worker := mkWorker { w_strategy : Strategy; w_chan : nat; w_count : Z }.

Record FlowOrchestrator := mkOrchestrator {
  fo_engine : FlowPressureEngine; fo_planner : ExecutionPlanner; fo_strategies : list Strategy; fo_workers : list Worker; fo_onProfit : bool;
  fo_running : bool; fo_stopCh_open : bool;
}.

Record FlowOrchestratorConfig := mkOrchestratorConfig { EngineConfig : option FlowEngineConfig; PlannerConfig : option ExecutionPlannerConfig; SignalBufferSize : Z }.

Definition DefaultFlowOrchestratorConfig : FlowOrchestratorConfig := mkOrchestratorConfig (Some DefaultFlowEngineConfig) (Some DefaultExecutionPlannerConfig) 64.

Definition NewFlowOrchestrator (parser : option MempoolParser) (qs : bool) (queue : OpportunityQueue) (flashblocks onProfit : bool) (config : option FlowOrchestratorConfig) : FlowOrchestrator :=
  let c := default DefaultFlowOrchestratorConfig config in
  mkOrchestrator (NewFlowPressureEngine parser qs (EngineConfig c)) (NewExecutionPlanner queue flashblocks (PlannerConfig c)) [] [] onProfit false true.

Definition set_orchestrator (e : FlowPressureEngine) (p : ExecutionPlanner) (ws : list Worker) (running open : bool) (fo : FlowOrchestrator) : FlowOrchestrator :=
  mkOrchestrator e p (fo_strategies fo) ws (fo_onProfit fo) running open.

Definition RegisterStrategy (s : Strategy) (fo : FlowOrchestrator) : FlowOrchestrator :=
  mkOrchestrator (fo_engine fo) (fo_planner fo) (fo_strategies fo ++ [s]) (fo_workers fo) (fo_onProfit fo) (fo_running fo) (fo_stopCh_open fo).

(** One turn of the loop that subscribes and starts a goroutine. *)
Definition start_worker (st : FlowPressureEngine * list Worker) (s : Strategy) : FlowPressureEngine * list Worker :=
  (engine_Subscribe 64 st.1, st.2 ++ [mkWorker s (length (fe_subs st.1)) 0]).

Definition orchestrator_Start (fo : FlowOrchestrator) : FlowOrchestrator :=
  if fo_running fo then fo
  else
    let '(e, ws) := fold_left start_worker (fo_strategies fo) (engine_Start (fo_engine fo), []) in
    set_orchestrator e (fo_planner fo) ws true (fo_stopCh_open fo) fo.

(** The goroutines have returned when [Stop] does. *)
Definition orchestrator_Stop (fo : FlowOrchestrator) : outcome FlowOrchestrator :=
  if negb (fo_running fo) then Done fo
  else if negb (fo_stopCh_open fo) then Panic "close of closed channel"
  else let! e := engine_Stop (fo_engine fo) in Done (set_orchestrator e (fo_planner fo) [] false false fo).

(** What a goroutine reads besides the state: the clock, the price feed and the orders of the maps. *)
Record TurnReading := mkTurn { tr_now : Z; tr_spreads : option (list SpreadInfo); tr_pools : list bytes; tr_chains : list Z; tr_pending : list bytes }.

(** A goroutine receives a signal and acts on it; the intent is also an output. *)
Definition runStrategy_turn (rd : TurnReading) (w : nat) (fo : FlowOrchestrator) : outcome (FlowOrchestrator * option StrategyIntent) :=
  match fo_workers fo !! w with
  | None => Done (fo, None)
  | Some wk =>
      match fe_subs (fo_engine fo) !! w_chan wk with
      | Some (mkSignalChan cap (signal :: rest)) =>
          let e := with_subs (<[w_chan wk := mkSignalChan cap rest]> (fe_subs (fo_engine fo))) (fo_engine fo) in
          let intent := OnSignal (w_strategy wk) (mkView (tr_now rd) (tr_spreads rd) (tr_pools rd) (tr_chains rd) signal (GetState (tr_now rd) e)) in
          let! ep := match intent with
                     | Some i => let! r := SubmitIntent (fo_planner fo) (ti_intent i) (tr_now rd) in Done r.1
                     | None => Done (fo_planner fo)
                     end in
          let count := w_count wk + 1 in
          let! ep := if 100 <=? count then PruneExpired (tr_pending rd) ep (tr_now rd) else Done ep in
          let wk' := mkWorker (w_strategy wk) (w_chan wk) (if 100 <=? count then 0 else count) in
          Done (set_orchestrator e ep (<[w := wk']> (fo_workers fo)) (fo_running fo) (fo_stopCh_open fo) fo, intent)
      | _ => Done (fo, None)
      end
  end.

(** What the callback is told. *)
Definition RecordProfit (profit : option Z) (fo : FlowOrchestrator) : option Z :=
  match profit with Some p => if (0 <? p) && fo_onProfit fo then Some p else None | None => None end.

Inductive orchestrator_op :=
| OStart
| OStop
| OEvent (parked : nat -> bool) (rd : Reading) (walk : list Z) (ev : @NetworkEvent Tx)
| OTurn (rd : TurnReading) (w : nat)
| OPlanner (x : planner_op).

Definition orchestrator_exec (fo : FlowOrchestrator) (o : orchestrator_op) : outcome (FlowOrchestrator * list StrategyIntent) :=
  match o with
  | OStart => Done (orchestrator_Start fo, [])
  | OStop => let! fo := orchestrator_Stop fo in Done (fo, [])
  | OEvent parked rd walk ev =>
      let! e := on_event parked rd walk ev (fo_engine fo) in Done (set_orchestrator e (fo_planner fo) (fo_workers fo) (fo_running fo) (fo_stopCh_open fo) fo, [])
  | OTurn rd w => let! r := runStrategy_turn rd w fo in Done (r.1, match r.2 with Some i => [i] | None => [] end)
  | OPlanner x => let! ep := planner_exec (fo_planner fo) x in Done (set_orchestrator (fo_engine fo) ep (fo_workers fo) (fo_running fo) (fo_stopCh_open fo) fo, [])
  end.

Fixpoint orchestrator_runs (fo : FlowOrchestrator) (ops : list orchestrator_op) : outcome (FlowOrchestrator * list StrategyIntent) :=
  match ops with
  | [] => Done (fo, [])
  | o :: ops => let! r := orchestrator_exec fo o in let! r' := orchestrator_runs r.1 ops in Done (r'.1, r.2 ++ r'.2)
  end.

(** ** What a strategy promises *)

(** An intent is filed under the identifier of its opportunity, which was detected now and expires with the intent; it is not expired, can
    be executed before it expires, and says which strategy and which signal it comes from. *)
Definition sound_intent (s : Strategy) (v : View) (i : StrategyIntent) : Prop :=
  ti_Strategy i = strategy_Type s /\ ti_SignalSource i = sg_Type (v_signal v) /\
  IsExpired (ti_intent i) (v_now v) 0 = false /\
  exists o earliest latest, Planner.Opportunity (ti_intent i) = Some o /\ opp_ID o = intent_ID (ti_intent i) /\ DetectedAt o = v_now v /\ ExpiresAt o = latest /\
    EarliestTime (ti_intent i) = Some earliest /\ LatestTime (ti_intent i) = Some latest /\ v_now v <= earliest <= latest.

Class StrategyLaws (s : Strategy) : Prop := { strategy_sound : forall v i, OnSignal s v = Some i -> sound_intent s v i }.

Section laws.
Context {C : Crypto}.

Lemma first_some_elem {A B} (f : A -> option B) l y : first_some f l = Some y -> exists x, x ∈ l /\ f x = Some y.
Proof using Type.
  induction l as [|x l IH]; [done|]. cbn. destruct (f x) as [z|] eqn:E; [intros [= ->]; exists x; split; [by left|done]|]. intros (x' & Hx & K)%IH. exists x'. split; [by right|done].
Qed.

Lemma make_intent_sound v st ty buy sell spread cross earliest latest conf target pools validate prediction name f :
  v_now v <= earliest <= latest -> sound_intent (mkStrategy st name f) v (make_intent v st ty buy sell spread cross earliest latest conf target pools validate prediction).
Proof using Type.
  intros H. split_and!; [done|done| |].
  - unfold IsExpired. cbn. destruct (Z.ltb_spec latest (v_now v)); [lia|done].
  - by eexists _, earliest, latest.
Qed.

Definition arb_ok (c : ArbStrategyConfig) : Prop := 0 <= ac_ExecutionWindowDuration c.
Definition backrun_ok (c : BackrunStrategyConfig) : Prop := 0 <= bc_PostSettleDelay c /\ 0 <= bc_ExecutionWindowDuration c /\ 200 * 10 ^ 6 <= bc_PostSettleDelay c + bc_ExecutionWindowDuration c.
Definition liquidation_ok (c : LiquidationStrategyConfig) : Prop := 0 <= lc_ExecutionWindowDuration c.
Definition cross_ok (c : CrossChainStrategyConfig) : Prop := 0 <= xc_ExecutionWindowDuration c.

Lemma arb_sound c v i name f : arb_ok c -> arb_OnSignal c v = Some i -> sound_intent (mkStrategy StrategyArbitrage name f) v i.
Proof using Type.
  intros Hc H. assert (K : forall spreads pool g, findSpreadOpportunity c spreads v pool g = Some i -> sound_intent (mkStrategy StrategyArbitrage name f) v i).
  { intros spreads pool g. unfold findSpreadOpportunity. destruct (fold_left _ _ _); [|done]. case_match; [done|]. intros [= <-]. apply make_intent_sound. unfold arb_ok in Hc. lia. }
  assert (T : forall spreads l, first_some (arb_try c spreads v) l = Some i -> sound_intent (mkStrategy StrategyArbitrage name f) v i).
  { intros spreads l (x & _ & E)%first_some_elem. unfold arb_try in E. case_match; [done|]. by eapply K. }
  unfold arb_OnSignal, arb_onPoolImpact, arb_onPressureSpike, arb_onSwapSequence in H. destruct (sg_Type (v_signal v)); try done; destruct (v_spreads v) as [spreads|]; try done; eauto.
  destruct (first_pool v) as [[pool g]|]; [|done]. case_match; [done|]. case_match; [done|]. eauto.
Qed.

Lemma backrun_sound c v i name f : backrun_ok c -> backrun_OnSignal c v = Some i -> sound_intent (mkStrategy StrategyBackrun name f) v i.
Proof using Type.
  intros (H1 & H2 & H3) H. assert (K : forall d pool g, (d = None \/ d = Some (200 * 10 ^ 6)) -> buildBackrunIntent c v d pool g = Some i -> sound_intent (mkStrategy StrategyBackrun name f) v i).
  { intros d pool g Hd. unfold buildBackrunIntent. case_match; [done|]. intros [= <-]. apply make_intent_sound. destruct Hd as [->| ->]; lia. }
  unfold backrun_OnSignal, backrun_onSwapSequence, backrun_onPoolImpact, backrun_onFlashblockConfirm in H. destruct (sg_Type (v_signal v)); try done.
  - destruct (first_pool v) as [[pool g]|]; [|done]. do 3 (case_match; [done|]). eauto.
  - apply first_some_elem in H as (x & _ & E). unfold backrun_try in E. case_match; [done|]. eauto.
  - apply first_some_elem in H as (x & _ & E). unfold backrun_confirm in E. case_match; [done|]. eauto.
Qed.

Lemma liquidation_sound c v i name f : liquidation_ok c -> liquidation_OnSignal c v = Some i -> sound_intent (mkStrategy StrategyLiquidation name f) v i.
Proof using Type.
  intros Hc H. assert (K : forall pool g, checkLiquidationOpportunity c v pool g = Some i -> sound_intent (mkStrategy StrategyLiquidation name f) v i).
  { intros pool g. unfold checkLiquidationOpportunity. case_match; [done|]. intros [= <-]. apply make_intent_sound. unfold liquidation_ok in Hc. lia. }
  assert (T : forall l, first_some (liquidation_try c v) l = Some i -> sound_intent (mkStrategy StrategyLiquidation name f) v i).
  { intros l (x & _ & E)%first_some_elem. unfold liquidation_try in E. case_match; [done|]. by eapply K. }
  unfold liquidation_OnSignal, liquidation_onPoolImpact, liquidation_onPressureSpike, liquidation_onSwapSequence in H. destruct (sg_Type (v_signal v)); try done; eauto.
  destruct (first_pool v) as [[pool g]|]; [|done]. case_match; [done|]. eauto.
Qed.

Lemma cross_sound c v i name f : cross_ok c -> cross_OnSignal c v = Some i -> sound_intent (mkStrategy StrategyCrossChainMEV name f) v i.
Proof using Type.
  intros Hc H. assert (K : forall fits spreads, cross_first c fits spreads v = Some i -> sound_intent (mkStrategy StrategyCrossChainMEV name f) v i).
  { intros fits spreads. unfold cross_first. destruct (List.find _ _); [|done]. case_match; [done|]. intros [= <-]. apply make_intent_sound. unfold cross_ok in Hc. lia. }
  assert (T : forall spreads source, cross_targets c spreads v source = Some i -> sound_intent (mkStrategy StrategyCrossChainMEV name f) v i).
  { intros spreads source (x & _ & E)%first_some_elem. case_match; [done|]. by eapply K. }
  unfold cross_OnSignal, onCoherenceDrift, cross_onPoolImpact, cross_onSwapSequence in H. destruct (sg_Type (v_signal v)); try done; destruct (v_spreads v) as [spreads|]; try done.
  - destruct (List.find _ _); [|done]. by eapply K.
  - destruct (first_pool v) as [[pool g]|]; [|done]. do 3 (case_match; [done|]). eauto.
  - apply first_some_elem in H as (x & _ & E). case_match; [done|]. eauto.
Qed.

#[export] Instance arb_laws : StrategyLaws (NewArbStrategy None).
Proof using Type. split. intros v i. apply arb_sound. by vm_compute. Qed.
#[export] Instance backrun_laws : StrategyLaws (NewBackrunStrategy None).
Proof using Type. split. intros v i. apply backrun_sound. by vm_compute. Qed.
#[export] Instance liquidation_laws : StrategyLaws (NewLiquidationStrategy None).
Proof using Type. split. intros v i. apply liquidation_sound. by vm_compute. Qed.
#[export] Instance cross_laws : StrategyLaws (NewCrossChainStrategy None).
Proof using Type. split. intros v i. apply cross_sound. by vm_compute. Qed.



(** ** Runs of the orchestrator *)

(** What happens to the planner: a strategy submits an intent, or another of its operations is called. *)
Inductive planner_event := ByStrategy (i : StrategyIntent) (now : Z) | ByOther (x : planner_op).

Definition event_op (e : planner_event) : planner_op := match e with ByStrategy i now => PSubmit (ti_intent i) now | ByOther x => x end.
Definition event_intent (e : planner_event) : option StrategyIntent := match e with ByStrategy i _ => Some i | ByOther _ => None end.

Record orchestrator_inv (P : Strategy -> Prop) (fo : FlowOrchestrator) : Prop := {
  oi_planner : planner_inv (fo_planner fo);
  oi_engine : blind (fo_engine fo);
  oi_strategies : Forall P (fo_strategies fo);
  oi_workers : Forall (fun w => P (w_strategy w)) (fo_workers fo);
}.

(** An intent that a strategy of the kind [P] emitted now, on a signal and a state as the engine makes them. *)
Definition emitted (P : Strategy -> Prop) (i : StrategyIntent) (now : Z) : Prop :=
  exists s v, P s /\ OnSignal s v = Some i /\ v_now v = now /\ st_PoolForecasts (v_state v) = ∅ /\ pressure_signal (v_signal v).

(** Where the events come from: a strategy's turn, an operation that was called, or the pruning of a turn. *)
Definition event_ok (P : Strategy -> Prop) (ops : list orchestrator_op) (e : planner_event) : Prop :=
  match e with
  | ByStrategy i now => emitted P i now
  | ByOther x => OPlanner x ∈ ops \/ exists order now, x = Planner.PPrune order now
  end.

(** The planner got from [ep] to [ep'] by events of these operations, which submit exactly these intents, in this order. *)
Definition traced (P : Strategy -> Prop) (ops : list orchestrator_op) (ep ep' : ExecutionPlanner) (intents : list StrategyIntent) : Prop :=
  exists evs, planner_runs ep (map event_op evs) = Done ep' /\ omap event_intent evs = intents /\ Forall (event_ok P ops) evs.

Lemma traced_nil P ops ep : traced P ops ep ep [].
Proof using Type. by exists []. Qed.

Lemma traced_app P ops1 ops2 ep ep1 ep2 l1 l2 : traced P ops1 ep ep1 l1 -> traced P ops2 ep1 ep2 l2 -> traced P (ops1 ++ ops2) ep ep2 (l1 ++ l2).
Proof using Type.
  intros (evs1 & R1 & <- & F1) (evs2 & R2 & <- & F2). exists (evs1 ++ evs2). rewrite map_app, planner_runs_app, R1. split; [done|]. split; [apply omap_app|].
  apply Forall_app. split; [eapply Forall_impl; [exact F1|]|eapply Forall_impl; [exact F2|]]; intros [i now|x]; cbn; try done; rewrite elem_of_app; tauto.
Qed.

Lemma traced_intent P ops ep ep' l i : traced P ops ep ep' l -> i ∈ l -> exists now, emitted P i now.
Proof using Type.
  intros (evs & _ & <- & F) ([j now|x] & He & E)%list_elem_of_omap; [|done]. cbn in E. injection E as ->. rewrite Forall_forall in F. exists now. by apply (F (ByStrategy i now)).
Qed.

Lemma inv_set P e ep ws running open fo :
  orchestrator_inv P fo -> planner_inv ep -> blind e -> Forall (fun w => P (w_strategy w)) ws -> orchestrator_inv P (set_orchestrator e ep ws running open fo).
Proof using Type. intros [_ _ H _] Hp He Hw. by split. Qed.

Lemma orchestrator_start_inv P fo : orchestrator_inv P fo -> orchestrator_inv P (orchestrator_Start fo).
Proof using Type.
  intros I. unfold orchestrator_Start. destruct (fo_running fo); [done|]. set (st := fold_left _ _ _).
  assert (K : blind st.1 /\ Forall (fun w => P (w_strategy w)) st.2).
  { unfold st. apply (fold_left_inv (fun st => blind st.1 /\ Forall (fun w => P (w_strategy w)) st.2)).
    - split; [|constructor]. by apply (blind_exec (fo_engine fo) EStart); [apply I|].
    - intros [e ws] s Hs [B F]. split; [by apply (blind_exec e (ESubscribe 64))|]. apply Forall_app. split; [done|]. constructor; [|done]. cbn.
      destruct I as [_ _ H _]. rewrite Forall_forall in H. by apply H. }
  destruct st as [e ws]. destruct K as [B F]. apply inv_set; [done|apply I|done|done].
Qed.

Lemma stop_inv P fo fo' : orchestrator_inv P fo -> orchestrator_Stop fo = Done fo' -> orchestrator_inv P fo'.
Proof using Type.
  intros I. unfold orchestrator_Stop. destruct (fo_running fo); cbn [negb]; [|by intros [= <-]]. destruct (fo_stopCh_open fo); cbn [negb]; [|done].
  destruct (engine_Stop (fo_engine fo)) as [e| |] eqn:E; cbn; [|done..]. intros [= <-]. apply inv_set; [done|apply I|by apply (blind_exec (fo_engine fo) EStop); [apply I|]|constructor].
Qed.

(** What a turn does with the planner: submit the intent, prune. *)
Lemma submit_traced P ops ep oi now : planner_inv ep -> (forall i, oi = Some i -> emitted P i now) ->
  exists ep', match oi with Some i => let! r := SubmitIntent ep (ti_intent i) now in Done r.1 | None => Done ep end = Done ep' /\ planner_inv ep' /\
    traced P ops ep ep' (option_list oi).
Proof using Type.
  intros H He. destruct oi as [i|]; [|exists ep; split_and!; [done|done|apply traced_nil]].
  destruct (planner_exec_keeps ep (PSubmit (ti_intent i) now) H) as (ep' & E & H' & _). exists ep'. split_and!; [done|done|].
  exists [ByStrategy i now]. split_and!; [cbn [map event_op planner_runs]; by rewrite E|done|]. constructor; [by apply He|constructor].
Qed.

Lemma prune_traced P ops (b : bool) order ep now : planner_inv ep ->
  exists ep', (if b then PruneExpired order ep now else Done ep) = Done ep' /\ planner_inv ep' /\ traced P ops ep ep' [].
Proof using Type.
  intros H. destruct b; [|exists ep; split_and!; [done|done|apply traced_nil]].
  destruct (planner_exec_keeps ep (Planner.PPrune order now) H) as (ep' & E & H' & _). exists ep'. split_and!; [done|done|].
  exists [ByOther (Planner.PPrune order now)]. split_and!; [cbn [map event_op planner_runs]; by rewrite E|done|]. constructor; [right; eauto|constructor].
Qed.

Lemma blind_take e c cap signal rest : fe_subs e !! c = Some (mkSignalChan cap (signal :: rest)) -> blind e ->
  pressure_signal signal /\ blind (with_subs (<[c := mkSignalChan cap rest]> (fe_subs e)) e).
Proof using Type.
  intros Hc [H1 H2 H3]. assert (K := Forall_lookup_1 _ _ _ _ H3 Hc). cbn in K. apply Forall_cons in K as [K1 K2]. split; [done|]. split; [done|done|]. cbn.
  by apply Forall_insert.
Qed.

Lemma turn_inv P rd w fo : orchestrator_inv P fo ->
  exists fo' oi, runStrategy_turn rd w fo = Done (fo', oi) /\ orchestrator_inv P fo' /\ traced P [] (fo_planner fo) (fo_planner fo') (option_list oi).
Proof using Type.
  intros I. assert (N : exists fo' oi, Done (fo, None) = Done (fo', oi) /\ orchestrator_inv P fo' /\ traced P [] (fo_planner fo) (fo_planner fo') (option_list (A := StrategyIntent) oi))
    by (exists fo, None; split_and!; [done|done|apply traced_nil]).
  unfold runStrategy_turn. destruct (fo_workers fo !! w) as [wk|] eqn:Ew; [|exact N].
  destruct (fe_subs (fo_engine fo) !! w_chan wk) as [[cap [|signal rest]]|] eqn:Ec; [exact N| |exact N]. clear N.
  destruct (blind_take _ _ _ _ _ Ec (oi_engine _ _ I)) as [Hs B]. set (e := with_subs _ _) in *. set (v := mkView _ _ _ _ _ _). set (oi := OnSignal (w_strategy wk) v).
  assert (Pw : P (w_strategy wk)) by (by apply (Forall_lookup_1 _ _ _ _ (oi_workers _ _ I) Ew)).
  destruct (submit_traced P [] (fo_planner fo) oi (tr_now rd) (oi_planner _ _ I)) as (ep1 & -> & Hp1 & T1).
  { intros i Hi. exists (w_strategy wk), v. split_and!; [done|done|done| |done]. cbn. apply B. }
  cbn [outcome_bind]. destruct (prune_traced P [] (100 <=? w_count wk + 1) (tr_pending rd) ep1 (tr_now rd) Hp1) as (ep2 & -> & Hp2 & T2). cbn [outcome_bind].
  eexists _, oi. split; [reflexivity|]. split.
  - apply inv_set; [done|done|done|]. apply Forall_insert; [apply I|done].
  - rewrite <- (app_nil_r (option_list oi)). by eapply (traced_app P [] []).
Qed.

Lemma exec_inv P fo o r : orchestrator_inv P fo -> orchestrator_exec fo o = Done r ->
  orchestrator_inv P r.1 /\ traced P [o] (fo_planner fo) (fo_planner r.1) r.2.
Proof using Type.
  intros I. destruct o as [| |parked rd walk ev|rd w|x]; cbn.
  - intros [= <-]. split; [by apply orchestrator_start_inv|]. cbn. unfold orchestrator_Start. destruct (fo_running fo); [apply traced_nil|]. destruct (fold_left _ _ _). apply traced_nil.
  - destruct (orchestrator_Stop fo) as [fo'| |] eqn:E; cbn; [|done..]. intros [= <-]. split; [by eapply stop_inv|]. cbn. unfold orchestrator_Stop in E.
    do 2 (case_match; [simplify_eq; try apply traced_nil|]). destruct (engine_Stop (fo_engine fo)); [|done..]. injection E as <-. apply traced_nil.
  - destruct (on_event parked rd walk ev (fo_engine fo)) as [e| |] eqn:E; cbn; [|done..]. intros [= <-]. split; [|apply traced_nil].
    apply inv_set; [done|apply I|by eapply blind_event; [apply I|]|apply I].
  - destruct (turn_inv P rd w fo I) as (fo' & oi & -> & I' & T). cbn. intros [= <-]. split; [done|]. cbn. rewrite <- (app_nil_r (match oi with Some _ => _ | None => _ end)).
    apply (traced_app P [] _ _ (fo_planner fo')); [by destruct oi|apply traced_nil].
  - destruct (planner_exec_keeps (fo_planner fo) x (oi_planner _ _ I)) as (ep & E & Hp & _). rewrite E. cbn. intros [= <-]. split; [apply inv_set; [done|done|apply I|apply I]|].
    exists [ByOther x]. split_and!; [cbn; by rewrite E|done|]. constructor; [left; by left|constructor].
Qed.

Lemma runs_inv P fo ops r : orchestrator_inv P fo -> orchestrator_runs fo ops = Done r ->
  orchestrator_inv P r.1 /\ traced P ops (fo_planner fo) (fo_planner r.1) r.2.
Proof using Type.
  revert fo r. induction ops as [|o ops IH]; intros fo r I; cbn; [intros [= <-]; split; [done|apply traced_nil]|].
  destruct (orchestrator_exec fo o) as [r1| |] eqn:E1; cbn; [|done..]. destruct (exec_inv _ _ _ _ I E1) as [I1 T1].
  destruct (orchestrator_runs r1.1 ops) as [r2| |] eqn:E2; cbn; [|done..]. intros [= <-]. destruct (IH _ _ I1 E2) as [I2 T2]. split; [done|]. cbn.
  exact (traced_app P [o] ops _ _ _ _ _ T1 T2).
Qed.

Lemma new_inv P parser qs qc fb profit config strategies :
  Forall P strategies -> orchestrator_inv P (fold_left (fun fo s => RegisterStrategy s fo) strategies (NewFlowOrchestrator parser qs (NewOpportunityQueue qc) fb profit config)).
Proof using Type.
  intros F. assert (K : forall fo, orchestrator_inv P fo -> orchestrator_inv P (fold_left (fun fo s => RegisterStrategy s fo) strategies fo)).
  { induction F as [|s l Hs F IH]; intros fo I; [done|]. cbn. apply IH. destruct I as [H1 H2 H3 H4]. split; [done|done| |done]. apply Forall_app. split; [done|by constructor]. }
  apply K. destruct (planner_invariant qc fb (PlannerConfig (default DefaultFlowOrchestratorConfig config)) []) as (ep & E & Hp & _). cbn [planner_runs] in E. injection E as <-.
  split; [done| |constructor|constructor]. split; [done|done|constructor].
Qed.




(** ** Which strategies can trade *)

Lemma no_pools v : st_PoolForecasts (v_state v) = ∅ -> impacts v = [] /\ state_forecasts v = [] /\ first_pool v = None.
Proof using Type.
  intros H. unfold impacts, state_forecasts, first_pool. rewrite H. assert (K : forall l : list bytes, omap (fun p => pair p <$> (∅ : gmap bytes PoolImpactForecast) !! p) l = []).
  { intros l. induction l as [|p l IH]; [done|]. cbn. by rewrite lookup_empty. }
  rewrite !K. split_and!; [done|done|]. destruct (sg_AffectedPools (v_signal v)); [done|]. by rewrite lookup_empty.
Qed.

(** Without forecasts a strategy emits only as the cross-chain one, on a drift. *)
Definition drift_only (s : Strategy) : Prop :=
  forall v i, st_PoolForecasts (v_state v) = ∅ -> pressure_signal (v_signal v) -> OnSignal s v = Some i ->
    ti_Strategy i = StrategyCrossChainMEV /\ ti_SignalSource i = SignalCoherenceDrift.

Definition default_strategies : list Strategy := [NewArbStrategy None; NewCrossChainStrategy None; NewLiquidationStrategy None; NewBackrunStrategy None].

Lemma defaults_drift_only : Forall drift_only default_strategies.
Proof using Type.
  unfold default_strategies. rewrite !Forall_cons, Forall_nil. split_and!; [..|done]; intros v i (H1 & H2 & H3)%no_pools Hs; cbn.
  - unfold arb_OnSignal, arb_onPoolImpact, arb_onPressureSpike, arb_onSwapSequence. rewrite H1, H2, H3. destruct (sg_Type _), (v_spreads v); done.
  - unfold cross_OnSignal, cross_onPoolImpact, cross_onSwapSequence. rewrite H1, H3. destruct (sg_Type (v_signal v)) eqn:Et; try done; [|destruct (v_spreads v); done..].
    unfold onCoherenceDrift, findCrossChainSpread, cross_first. repeat (case_match; try done). intros [= <-]. by split.
  - unfold liquidation_OnSignal, liquidation_onPoolImpact, liquidation_onPressureSpike, liquidation_onSwapSequence. rewrite H1, H2, H3. by destruct (sg_Type _).
  - unfold backrun_OnSignal, backrun_onSwapSequence, backrun_onPoolImpact, backrun_onFlashblockConfirm. rewrite H1, H2, H3. by destruct (sg_Type _).
Qed.

(** With the four strategies that the node registers, every intent that ever reaches the planner comes from the cross-chain strategy and from a drift of
    coherence: the parser names no pools, so the other strategies have nothing to act on. *)
Theorem only_cross_chain_trades parser qs qc fb profit config ops fo intents :
  orchestrator_runs (fold_left (fun fo s => RegisterStrategy s fo) default_strategies (NewFlowOrchestrator parser qs (NewOpportunityQueue qc) fb profit config)) ops = Done (fo, intents) ->
  forall i, i ∈ intents -> ti_Strategy i = StrategyCrossChainMEV /\ ti_SignalSource i = SignalCoherenceDrift.
Proof using Type.
  intros R i Hi. destruct (runs_inv _ _ _ _ (new_inv _ parser qs qc fb profit config _ defaults_drift_only) R) as [_ He]. destruct (traced_intent _ _ _ _ _ _ He Hi) as (now & s & v & D & E & _ & Hf & Hs). by eapply D.
Qed.

(** Even with pools: while no forecast has a price, the arbitrage strategy never emits, and the backrun strategy only when a flashblock is confirmed, which the engine
    never signals. *)
Theorem unpriced_strategies_idle ac bc v :
  unpriced (st_PoolForecasts (v_state v)) -> arb_OnSignal ac v = None /\ (sg_Type (v_signal v) <> SignalFlashblockConfirm -> backrun_OnSignal bc v = None).
Proof using Type.
  intros U. assert (K : forall (l : list bytes) p f, (p, f) ∈ omap (fun p => pair p <$> st_PoolForecasts (v_state v) !! p) l -> priced f = false).
  { intros l p f (q & _ & E)%list_elem_of_omap. destruct (st_PoolForecasts (v_state v) !! q) eqn:Eq; cbn in E; [|done]. simplify_eq. unfold priced.
    destruct (U _ _ Eq) as [_ ->]. by apply bool_decide_eq_false_2; intros [? ?]. }
  assert (F : forall p f, first_pool v = Some (p, f) -> priced f = false).
  { intros p f. unfold first_pool. destruct (sg_AffectedPools (v_signal v)) as [|q l]; [done|]. intros E. apply (K [q] p f). cbn. rewrite E. by left. }
  assert (T : forall {A} (g : bytes * PoolImpactForecast -> option A) (l : list bytes), (forall p f, priced f = false -> g (p, f) = None) ->
    first_some g (omap (fun p => pair p <$> st_PoolForecasts (v_state v) !! p) l) = None).
  { intros A g l Hg. destruct (first_some g _) eqn:E; [|done]. apply first_some_elem in E as ([p f] & Hx & Ex). rewrite (Hg p f) in Ex; [done|by eapply K]. }
  split.
  - unfold arb_OnSignal, arb_onPoolImpact, arb_onPressureSpike, arb_onSwapSequence, impacts, state_forecasts. destruct (sg_Type _), (v_spreads v) as [l|]; try done;
      try (apply T; intros p f Hp; unfold arb_try; cbn; by rewrite Hp, orb_true_r).
    destruct (first_pool v) as [[p f]|] eqn:Ef; [|done]. by rewrite (F p f eq_refl).
  - unfold backrun_OnSignal, backrun_onSwapSequence, backrun_onPoolImpact, impacts. intros Hn. destruct (sg_Type _); try done.
    + destruct (first_pool v) as [[p f]|] eqn:Ef; [|done]. by rewrite (F p f eq_refl).
    + apply T. intros p f Hp. unfold backrun_try. cbn. by rewrite Hp, orb_true_r.
Qed.

(** The list of enabled chains of the arbitrage strategy is never read. *)
Theorem arb_ignores_chains c chains v : arb_OnSignal (mkArbConfig (ac_MinSpreadBPS c) (ac_MinFlowConfidence c) (ac_ExecutionWindowDuration c) (ac_MinPoolImpactBPS c) chains (ac_UseFlashblockValidation c)) v = arb_OnSignal c v.
Proof using Type. by destruct c. Qed.

(** On a sequence of swaps the liquidation strategy acts on every chain, enabled or not. *)
Theorem liquidation_ignores_chains c chains v :
  sg_Type (v_signal v) = SignalSwapSequence ->
  liquidation_OnSignal (mkLiquidationConfig (lc_MinPoolImpactBPS c) (lc_MinProfitBPS c) (lc_MinFlowConfidence c) (lc_ExecutionWindowDuration c) chains (lc_OracleHeartbeatByChain c)) v =
  liquidation_OnSignal c v.
Proof using Type. intros H. unfold liquidation_OnSignal. by rewrite H. Qed.

(** The first drifting target chain decides: when no spread buys on it there is no intent, whatever spreads the other drifting chains have. *)
Theorem drift_first_only c v spreads chain rest :
  sg_Type (v_signal v) = SignalCoherenceDrift -> v_spreads v = Some spreads -> v_chains v = chain :: rest -> drifted c v chain = true ->
  (forall s, s ∈ spreads -> si_BuyChain s <> chain) -> cross_OnSignal c v = None.
Proof using Type.
  intros Ht Hs Hc Hd Hn. unfold cross_OnSignal, onCoherenceDrift. rewrite Ht, Hs, Hc. cbn [List.find]. rewrite Hd. unfold findCrossChainSpread, cross_first.
  destruct (List.find _ spreads) as [s|] eqn:E; [|done]. apply List.find_some in E as [Hin E]. apply andb_true_iff in E as [_ E]. apply Z.eqb_eq in E. apply list_elem_of_In in Hin. by apply Hn in Hin.
Qed.

(** A spread between two exchanges of the drifting chain becomes a cross-chain intent from the chain to itself. *)
Theorem cross_chain_on_one_chain c v s chain rest i :
  sg_Type (v_signal v) = SignalCoherenceDrift -> v_spreads v = Some [s] -> v_chains v = chain :: rest -> drifted c v chain = true ->
  si_BuyChain s = chain -> si_SellChain s = chain -> cross_OnSignal c v = Some i -> ti_IsCrossChain i = true /\ ti_BuyChain i = ti_SellChain i.
Proof using Type.
  intros Ht Hs Hc Hd Hb Hl. unfold cross_OnSignal, onCoherenceDrift. rewrite Ht, Hs, Hc. cbn [List.find]. rewrite Hd. unfold findCrossChainSpread, cross_first.
  destruct (List.find _ [s]) as [s'|] eqn:E; [|done]. apply List.find_some in E as [[<-|[]] _]. case_match; [done|]. intros [= <-]. cbn. by rewrite Hb, Hl.
Qed.

(** An orchestrator that was stopped and started again panics when it is stopped. *)
Theorem orchestrator_restart_panics fo fo' :
  fo_running fo = true -> orchestrator_Stop fo = Done fo' -> orchestrator_Stop (orchestrator_Start fo') = Panic "close of closed channel".
Proof using Type.
  intros Hr. unfold orchestrator_Stop at 1. rewrite Hr. cbn [negb]. destruct (fo_stopCh_open fo); cbn [negb]; [|done]. destruct (engine_Stop (fo_engine fo)) as [e| |]; cbn; [|done..].
  intros [= <-]. unfold orchestrator_Start. cbn. by destruct (fold_left _ _ _).
Qed.
End laws.

(** ** A run that trades *)

#[local] Existing Instance Toy.crypto.

(** The coherence of the chains drifts apart, and a spread buys on the one that fell behind. *)
Definition toy_block (now chain : Z) (coherence : float64) : orchestrator_op :=
  OEvent (fun _ => false) (mkReading now (mkMetrics (f_ratio 1 2) coherence f0 f0) f1) [1; 8453] (mkEvent EventL1Block chain now [] [] [] None zero32 0 None EmptyString 0).

Definition toy_wide : SpreadInfo := mkSpread (bs "WETH-USDC") 8453 1 None None 100 "uniswap_v2" "uniswap_v3" 0.

Definition toy_trading : list orchestrator_op :=
  [OStart; toy_block 0 1 (f_ratio 9 10); toy_block (11 * 10 ^ 9) 8453 (f_ratio 1 10); OTurn (mkTurn (12 * 10 ^ 9) (Some [toy_wide]) [] [8453; 1] []) 1;
   OTurn (mkTurn (12 * 10 ^ 9) (Some [toy_wide]) [] [8453; 1] []) 0].

Definition toy_orchestrator : FlowOrchestrator :=
  fold_left (fun fo s => RegisterStrategy s fo) default_strategies (NewFlowOrchestrator (Some NewMempoolParser) true (NewOpportunityQueue None) false true None).

Definition toy_result : FlowOrchestrator * list StrategyIntent := match orchestrator_runs toy_orchestrator toy_trading with Done r => r | _ => (toy_orchestrator, []) end.

Lemma toy_trading_runs : orchestrator_runs toy_orchestrator toy_trading = Done (toy_result.1, toy_result.2).
Proof.
  assert (K : match orchestrator_runs toy_orchestrator toy_trading with Done _ => true | _ => false end = true) by (vm_compute; reflexivity).
  unfold toy_result. destruct (orchestrator_runs toy_orchestrator toy_trading) as [[fo l]| |]; [reflexivity|discriminate K..].
Qed.

Lemma only_cross_chain_trades_witness : length toy_result.2 = 1%nat /\ forall i, i ∈ toy_result.2 -> ti_Strategy i = StrategyCrossChainMEV /\ ti_SignalSource i = SignalCoherenceDrift.
Proof.
  split; [vm_compute; reflexivity|].
  apply (only_cross_chain_trades (Some NewMempoolParser) true None false true None toy_trading toy_result.1 toy_result.2). exact toy_trading_runs.
Defined.

